(* ===== verification/_CoqProject ===== *)
-Q . S2P
Prelude.v
Util.v
Intset.v
Listpack.v
ListpackUpdate.v
Dict.v
DictScan.v
DictIter.v
Sds.v
Networking.v
NetworkingSafety.v
Watch.v
Db.v
Multi.v
Commands.v
Server.v
SdsNum.v
Lzf.v
Rio.v
Rdb.v
Bitops.v
Zskiplist.v
ZskiplistUpdate.v
Aof.v
Reply.v
Replication.v
Ziplist.v
ZiplistNav.v
ZiplistCascade.v
ZiplistUpdate.v
ZiplistValid.v
THash.v
