(* ===== verification/Prelude.v ===== *)
(** * A verification development of the core of the Redis server

    The program is the Redis 6.2 server in [src/redis-stable/src].  A client sends requests over a connection;
    the server collects their bytes in a query buffer, parses them into argument vectors, executes the
    commands against a keyspace of databases and replies.  Around this path are transactions, persistence and
    the data structures that hold values.  This library translates the parts that carry this logic into
    executable definitions and proves what makes them correct.

    ** Conventions

    A C integer is a [Z]; where its width matters the wrap-around is written out with [uwrap] and [swrap].
    Memory that the code addresses by bytes is a [list Z] of bytes, with checked accesses.  Memory that the code
    addresses by pointers is a store: a finite map from addresses to nodes.  In every model the outer [None] of
    an [option] is what must not happen: an access out of bounds, a NULL dereference, a failed assertion, or a
    loop that is longer than its fuel; an error that the code reports is a value.  So a theorem that says
    "the result is [Some ...]" also says that the code is memory safe there and that its loops end.  Fuel is
    computed by the definitions from the size of the data (the length of a buffer, the number of nodes of a
    store, the width of a cursor), never supplied by a caller; the theorems show that it is enough.
    Code that is not in the repository or is replaceable at build or run time is a parameter: the allocator
    ([Allocator]), the hash function of a dictionary, the streams under [rio], the functions of a command, the
    results of random().

    ** Files

    - [Prelude] (this file): machine integers, blocks of bytes, little-endian numbers, the allocator interface,
      shared lemmas and tactics.
    - [Util]: [util.c], the conversions between integers and decimal strings (ll2string, string2ll).
    - [SdsNum]: the printers of integers of [sds.c] and [rdb.c].
    - [Sds]: [sds.c], the splitting of a line into arguments and the quoting that it undoes.
    - [Intset]: [intset.c], sorted arrays of integers of three widths.
    - [Listpack], [ListpackUpdate]: [listpack.c], the serialized list; encoding of elements and traversal in the
      first file, insertion, deletion and validation in the second.
    - [Ziplist], [ZiplistNav], [ZiplistCascade], [ZiplistUpdate], [ZiplistValid]: [ziplist.c], the doubly linked
      serialized list: the encoding and the representation of a ziplist by its entries; traversal and search; the
      cascading update of the prevlen fields; insertion, deletion, replacement and merging; validation.
    - [Dict], [DictScan], [DictIter]: [dict.c], hash tables with incremental rehashing; dictScan() in the second
      file, the iterators in the third.
    - [THash]: [t_hash.c], the hash type, which is a ziplist or a hash table: lookup, update, conversion, iteration,
      copies, validation of a serialized hash, and what the commands do with the object.
    - [Zskiplist], [ZskiplistUpdate]: [t_zset.c], the skip list of sorted sets; structure, searches, ranks and
      ranges in the first file, insertion and deletion in the second.
    - [Networking], [NetworkingSafety]: the parser of requests in [networking.c]; its behaviour on well formed
      input and on arbitrary bytes.
    - [Watch], [Db], [Multi]: [db.c] and [multi.c]; the keyspace with expiration and the watched keys, its
      operations, and transactions on top of it.  What [Multi] needs of the commands that are queued is an interface
      ([CallSpec]) that [Commands] implements.
    - [Commands]: the handlers of 35 commands on strings and keys in [t_string.c], [expire.c] and [db.c], with their rows of
      the command table: GET, GETDEL, GETSET, SET, SETNX, SETEX, PSETEX, MGET, MSET, MSETNX, APPEND, STRLEN, INCR, DECR,
      INCRBY, DECRBY, DEL, UNLINK, EXISTS, TOUCH, SELECT, SWAPDB, MOVE, RENAME, RENAMENX, EXPIRE, EXPIREAT, PEXPIRE,
      PEXPIREAT, TTL, PTTL, PERSIST, DBSIZE, FLUSHDB, FLUSHALL.
    - [Server]: processCommand() in [server.c] and its caller in [networking.c]; the server as a transition system of
      requests, connections, expirations and evictions.
    - [Lzf]: [lzf_c.c] and [lzf_d.c], compression and decompression.
    - [Rio], [Rdb]: [rio.c] and the strings of [rdb.c]; the streams are an interface ([RioIO], [RioSpec]) that
      the buffer and the file implement, compression is an interface ([LzfSpec]) that [Lzf] implements.
    - [Bitops]: [bitops.c], the bit functions and BITFIELD arithmetic.
    - [Aof]: [aof.c], the append only file: what is written for a command, and loading of a file that may be cut.
    - [Reply]: the output of clients in [networking.c]: the reply buffers, deferred lengths, output limits and the
      writing to a socket ([connection.c]), whose behaviour is an arbitrary script of results of write(2).
    - [Replication]: [replication.c], the circular backlog, the stream to the replicas and PSYNC on the master;
      the replicas are clients of [Reply], and what is sent is in the protocol of [Networking].

    ** What is proved

    - Refinement: [Intset], [Listpack], [Ziplist], [Dict] and [Zskiplist] are related to finite sets, lists, lists, finite
      maps and sorted lists by a representation predicate; each operation is shown to keep the invariant, to never fail,
      and to have the effect and the result of the operation on the abstract value.  For [Dict] and [Intset] this
      is also stated for whole sequences of operations ([dict_refines_map], [intset_refines_set]), and for the hash type
      on top of [Ziplist] and [Dict] for whole sequences of commands ([hash_refines_map]).
    - Output: for every sequence of replies, of lengths that are filled in later and of writes to any socket, what
      is on the wire and what is queued are the replies in order; a socket that makes progress gets all of it, in as
      many calls as the limit of 64 KB per call requires.
    - Persistence and replication: the append only file replays exactly the commands that were executed, a crash
      loses only incomplete commands and transactions at its end; a replica that continues with PSYNC gets exactly
      the stream of the master from its offset on, out of the circular buffer and then from new commands; every other
      outcome of PSYNC is stated too.
    - The request parser executes exactly the commands that were sent, however the input is cut into reads, and
      is total on arbitrary bytes.
    - Keyspace and transactions: the functional behaviour of each operation; for the server with the 35 commands of
      [Commands], MULTI, EXEC, DISCARD, WATCH, UNWATCH, RESET and QUIT, the agreement of the two indexes of watched keys
      in every reachable state, that every request is served, and that EXEC executes nothing after the value of a
      watched key changed, over all interleavings of the requests of all clients, expirations and evictions.  That each of
      the 35 commands signals the keys that it changes is proved ([kv_CallSpec]); commands on other types are not covered, and some
      on streams do not signal.
    - The cascading update of a ziplist enlarges exactly the prevlen fields that are too small and leaves a list
      that satisfies the invariant again, so that the operations that use it (insertion, deletion, merging) have
      their effect on the list of values with every combination of encodings and field sizes.
    - Round trips of encodings: decimal numbers, quoted arguments, listpack and ziplist elements, LZF, RDB lengths
      and strings, bitfields.  Decoders are shown safe on arbitrary bytes, with every read and write inside of
      a block of known size.
    - Conditions: hash fields and values other than -2^63 in decimal notation (on which sdsll2str() overflows) and
      hash-max-ziplist-entries up to 2^26; intsets of fewer than 2^29 - 1 elements; skip lists of fewer than
      2^32 elements.  Each is at a limit of the code, and is part of the statement.
    - Equivalences of optimised routines with bit-by-bit or digit-by-digit references.
    - A few theorems show what the code does at the limits of its integer types, where it does not do what is
      meant: a 32 bit byte count in intset.c, a saturated addition in bitops.c, an assertion in sds.c, a ziplist that
      HINCRBY makes too large, the negation of -2^63 in sds.c, the product of EXPIRE.  Two more
      show what is lost when an append only file is cut inside of a transaction or right after its preamble.

    ** What is not modelled

    System calls other than write(2), the event loop and its callbacks, timers, configuration, logging, statistics,
    child processes and threads, so also the rewriting of the append only file, the full synchronization of
    replicas and the side of the replica; cluster and sentinel; Lua and modules; the command line tools.  Floating point
    numbers are not interpreted: the scores of sorted sets are a type with an order.  The fields of sds
    headers and objects are left out, a string is its contents (the RDB loader has the blocks that hold them).  Of the
    value types, sets, streams and the linked nodes of quicklists are not modelled, and of ziplists and hashes not the
    debug printer and the random selection.  Of the commands, those of [Commands], [Multi] and the object side of the hash
    commands are modelled; keyspace notifications, blocking commands, the choice of keys by the expiration cycle and by eviction, and
    access control (a parameter) are not. *)
From stdpp Require Export base list gmap strings numbers sorting.
From Stdlib Require Export ZArith Lia.

#[global] Open Scope Z_scope.
#[export] Set Warnings "-clear-no-such-hyp".

(** Lengths of lists, and facts about bytes. *)
Create Rewrite HintDb lens.
Create HintDb bytes discriminated.

(** ** Machine integers *)

Definition uwrap (w z : Z) : Z := z mod 2 ^ w.
Definition swrap (w z : Z) : Z := (z + 2 ^ (w - 1)) mod 2 ^ w - 2 ^ (w - 1).

Abbreviation u8 := (uwrap 8).
Abbreviation u16 := (uwrap 16).
Abbreviation u32 := (uwrap 32).
Abbreviation u64 := (uwrap 64).
Abbreviation s8 := (swrap 8).
Abbreviation s16 := (swrap 16).
Abbreviation s32 := (swrap 32).
Abbreviation s64 := (swrap 64).

Definition INT16_MIN : Z := -32768.
Definition INT16_MAX : Z := 32767.
Definition INT32_MIN : Z := -2147483648.
Definition INT32_MAX : Z := 2147483647.
Definition LLONG_MIN : Z := -9223372036854775808.
Definition LLONG_MAX : Z := 9223372036854775807.
Definition ULLONG_MAX : Z := 18446744073709551615.
Definition UINT32_MAX : Z := 4294967295.
Definition SIZE_MAX : Z := 18446744073709551615.

(** Ranges of the C types. *)
Definition is_ll (z : Z) : Prop := LLONG_MIN <= z <= LLONG_MAX.
Definition is_byte (z : Z) : Prop := 0 <= z < 256.
Abbreviation bytes_ok := (Forall is_byte).

#[export] Instance is_byte_dec z : Decision (is_byte z).
Proof. unfold is_byte. apply _. Defined.
#[export] Instance is_ll_dec z : Decision (is_ll z).
Proof. unfold is_ll. apply _. Defined.

Ltac unfold_limits :=
  unfold is_ll, is_byte, INT16_MIN, INT16_MAX, INT32_MIN, INT32_MAX, LLONG_MIN,
    LLONG_MAX, ULLONG_MAX, UINT32_MAX, SIZE_MAX in *.

(** Evaluate the powers of two that the wrapping functions introduce. *)
Ltac eval_pow2 :=
  repeat match goal with
  | |- context [2 ^ ?w] =>
      let v := eval vm_compute in (2 ^ w) in
      lazymatch isZcst v with true => change (2 ^ w) with v end
  | H : context [2 ^ ?w] |- _ =>
      let v := eval vm_compute in (2 ^ w) in
      lazymatch isZcst v with true => change (2 ^ w) with v in H end
  end.

(** [machine]: linear arithmetic over wrapped integers at a known width. *)
Ltac machine :=
  unfold uwrap, swrap in *; unfold_limits; eval_pow2;
  Z.div_mod_to_equations; lia.

Lemma uwrap_small w z : 0 <= z < 2 ^ w -> uwrap w z = z.
Proof. apply Z.mod_small. Qed.

Lemma uwrap_range w z : 0 <= w -> 0 <= uwrap w z < 2 ^ w.
Proof. intros. apply Z.mod_pos_bound. lia. Qed.

Lemma pow2_half w : 0 < w -> 2 ^ w = 2 * 2 ^ (w - 1).
Proof. intros. rewrite <- Z.pow_succ_r by lia. f_equal. lia. Qed.

Lemma swrap_small w z : 0 < w -> - 2 ^ (w - 1) <= z < 2 ^ (w - 1) -> swrap w z = z.
Proof.
  intros Hw Hz. unfold swrap. rewrite (pow2_half w) by done.
  rewrite Z.mod_small; lia.
Qed.

Lemma swrap_range w z : 0 < w -> - 2 ^ (w - 1) <= swrap w z < 2 ^ (w - 1).
Proof.
  intros Hw. unfold swrap. rewrite (pow2_half w) by done.
  assert (0 < 2 ^ (w - 1)) by (apply Z.pow_pos_nonneg; lia).
  pose proof (Z.mod_pos_bound (z + 2 ^ (w - 1)) (2 * 2 ^ (w - 1))). lia.
Qed.

(** Going through the unsigned representation does not change a signed value. *)
Lemma swrap_uwrap w z : 0 < w -> swrap w (uwrap w z) = swrap w z.
Proof.
  intros. unfold swrap, uwrap. by rewrite Zplus_mod_idemp_l.
Qed.

Lemma uwrap_uwrap w z : 0 <= w -> uwrap w (uwrap w z) = uwrap w z.
Proof. intros. unfold uwrap. rewrite Z.mod_mod; lia. Qed.

(** Reduce the binds of the option monad and nothing else. *)
Ltac simpl_bind := cbn [mbind option_bind mret option_ret].
Tactic Notation "simpl_bind" "in" hyp(H) :=
  cbn [mbind option_bind mret option_ret] in H.

(** ** Strings as lists of character codes *)

Definition str (s : string) : list Z :=
  (fun c => Z.of_N (Ascii.N_of_ascii c)) <$> String.list_ascii_of_string s.

Lemma bytes_ok_str s : bytes_ok (str s).
Proof.
  unfold str. rewrite Forall_fmap. apply Forall_true. intros c. simpl.
  pose proof (Ascii.N_ascii_bounded c). unfold is_byte. lia.
Qed.

(** The code of the (only) character of a literal. *)
Definition chr (s : string) : Z := hd 0 (str s).

(** ** Byte buffers *)

(** A block of memory is a [list Z] of bytes; an access outside of it is
    undefined behaviour in C and [None] here. *)
Definition mem_load (m : list Z) (off n : Z) : option (list Z) :=
  if bool_decide (0 <= off /\ 0 <= n /\ off + n <= Z.of_nat (length m))
  then Some (take (Z.to_nat n) (drop (Z.to_nat off) m)) else None.

Definition mem_store (m : list Z) (off : Z) (bs : list Z) : option (list Z) :=
  if bool_decide (0 <= off /\ off + Z.of_nat (length bs) <= Z.of_nat (length m))
  then Some (take (Z.to_nat off) m ++ bs ++ drop (Z.to_nat off + length bs) m) else None.

Definition load8 (m : list Z) (off : Z) : option Z :=
  if bool_decide (0 <= off) then m !! Z.to_nat off else None.

Definition store8 (m : list Z) (off v : Z) : option (list Z) :=
  mem_store m off [u8 v].

(** memmove(m+dst, m+src, n) *)
Definition memmove (m : list Z) (dst src n : Z) : option (list Z) :=
  bs ← mem_load m src n; mem_store m dst bs.

Definition zlen {A} (l : list A) : Z := Z.of_nat (length l).

Lemma zlen_nonneg {A} (l : list A) : 0 <= zlen l.
Proof. unfold zlen. lia. Qed.

Lemma zlen_app {A} (l k : list A) : zlen (l ++ k) = zlen l + zlen k.
Proof. unfold zlen. rewrite length_app. lia. Qed.

Lemma zlen_cons {A} x (l : list A) : zlen (x :: l) = 1 + zlen l.
Proof. unfold zlen. simpl. lia. Qed.

Lemma zlen_nil {A} : zlen (@nil A) = 0.
Proof. done. Qed.

Lemma zlen_snoc {A} (l : list A) x : zlen (l ++ [x]) = zlen l + 1.
Proof. unfold zlen. rewrite length_app. simpl. lia. Qed.

(** The length of a list made of pieces. *)
Ltac simpl_zlen :=
  repeat (rewrite zlen_app || rewrite zlen_cons);
  repeat match goal with |- context [zlen (@nil ?A)] => change (zlen (@nil A)) with 0 end.

Lemma zlen_eq_nil {A} (l : list A) : zlen l = 0 -> l = [].
Proof. destruct l; [done|]. unfold zlen. simpl. lia. Qed.

#[export] Hint Rewrite @zlen_app @zlen_cons @zlen_nil @length_app @length_take @length_drop : lens.
#[export] Hint Resolve zlen_nonneg bytes_ok_str : bytes.

(** Splitting a block at a given length. *)
Lemma split_at_len (m : list Z) (n : Z) : 0 <= n <= zlen m ->
  exists a b, m = a ++ b /\ zlen a = n /\ zlen b = zlen m - n.
Proof.
  intros Hn. exists (take (Z.to_nat n) m), (drop (Z.to_nat n) m).
  rewrite take_drop. unfold zlen in *. rewrite length_take, length_drop. split_and!; [done|lia..].
Qed.

Lemma lookup_Z {A} (l : list A) z : 0 <= z < zlen l -> exists x, l !! Z.to_nat z = Some x.
Proof. intros. apply lookup_lt_is_Some_2. unfold zlen in *. lia. Qed.

Lemma elem_of_concat {A} (t : list (list A)) e : e ∈ concat t <-> exists c, c ∈ t /\ e ∈ c.
Proof.
  rewrite list_elem_of_In, in_concat. by setoid_rewrite list_elem_of_In.
Qed.

(** A list of lists seen at one of its members. *)
Lemma concat_insert {A} (t : list (list A)) i c : t !! i = Some c ->
  exists rest, concat t ≡ₚ c ++ rest /\ forall c', concat (<[i := c']> t) ≡ₚ c' ++ rest.
Proof.
  intros Hi. exists (concat (take i t) ++ concat (drop (S i) t)). split.
  - rewrite <- (take_drop_middle t i c Hi) at 1. rewrite concat_app. simpl.
    rewrite !app_assoc. f_equiv. apply Permutation_app_comm.
  - intros c'. rewrite insert_take_drop by (by apply lookup_lt_Some in Hi). rewrite concat_app. simpl.
    rewrite !app_assoc. f_equiv. apply Permutation_app_comm.
Qed.

Lemma mem_load_mid a b c off n :
  off = zlen a -> n = zlen b -> mem_load (a ++ b ++ c) off n = Some b.
Proof.
  intros -> ->. unfold mem_load, zlen. rewrite bool_decide_true.
  - rewrite !Nat2Z.id. by rewrite drop_app_length, take_app_length.
  - rewrite !length_app. lia.
Qed.

Lemma mem_load_head b c n : n = zlen b -> mem_load (b ++ c) 0 n = Some b.
Proof. exact (mem_load_mid [] b c 0 n eq_refl). Qed.

Lemma mem_store_mid a b b' c off :
  off = zlen a -> length b' = length b ->
  mem_store (a ++ b ++ c) off b' = Some (a ++ b' ++ c).
Proof.
  intros -> Hlen. unfold mem_store, zlen. rewrite bool_decide_true.
  - rewrite !Nat2Z.id, take_app_length, drop_app_ge by lia.
    do 3 f_equal. rewrite Hlen.
    replace (length a + length b - length a)%nat with (length b) by lia.
    apply drop_app_length.
  - rewrite !length_app. lia.
Qed.

Lemma mem_store_length m off bs m' : mem_store m off bs = Some m' -> length m' = length m.
Proof.
  unfold mem_store. case_bool_decide; [|done]. intros [= <-].
  rewrite !length_app, length_take, length_drop. lia.
Qed.

Lemma load8_mid a x c off : off = zlen a -> load8 (a ++ x :: c) off = Some x.
Proof.
  intros ->. unfold load8, zlen. rewrite bool_decide_true by lia.
  by rewrite Nat2Z.id, list_lookup_middle.
Qed.

Lemma store8_mid a x c off v : off = zlen a -> store8 (a ++ x :: c) off v = Some (a ++ u8 v :: c).
Proof. intros ->. unfold store8. by apply (mem_store_mid a [x] [u8 v] c). Qed.

Lemma store8_head x c v : store8 (x :: c) 0 v = Some (u8 v :: c).
Proof. exact (store8_mid [] x c 0 v eq_refl). Qed.

(** What a block contains does not depend on what surrounds it. *)
Lemma load8_frame a r c i b : load8 r i = Some b -> load8 (a ++ r ++ c) (zlen a + i) = Some b.
Proof.
  unfold load8. case_bool_decide as Hi; [|done]. intros Hr.
  rewrite bool_decide_true by (unfold zlen; lia).
  replace (Z.to_nat (zlen a + i)) with (length a + Z.to_nat i)%nat by (unfold zlen; lia).
  rewrite lookup_app_r by lia.
  replace (length a + Z.to_nat i - length a)%nat with (Z.to_nat i) by lia.
  by apply lookup_app_l_Some.
Qed.

Lemma mem_load_frame a r c off n bs :
  mem_load r off n = Some bs -> mem_load (a ++ r ++ c) (zlen a + off) n = Some bs.
Proof.
  unfold mem_load, zlen. case_bool_decide as H; [|done]. intros [= <-].
  rewrite bool_decide_true by (rewrite !length_app; lia). f_equal.
  replace (Z.to_nat (Z.of_nat (length a) + off)) with (length a + Z.to_nat off)%nat by lia.
  rewrite <- drop_drop, drop_app_length, drop_app_le, take_app_le; [done | rewrite length_drop; lia | lia].
Qed.

Lemma load8_is_Some m i : 0 <= i < zlen m <-> is_Some (load8 m i).
Proof.
  unfold load8, zlen. case_bool_decide.
  - rewrite lookup_lt_is_Some. lia.
  - split; [lia|]. by intros [? [=]].
Qed.

Lemma load8_byte m i b : bytes_ok m -> load8 m i = Some b -> is_byte b.
Proof.
  unfold load8. case_bool_decide; [|done]. intros Hm Hb.
  rewrite Forall_forall in Hm. apply Hm. by apply list_elem_of_lookup_2 in Hb.
Qed.

(** ** Bits *)

(** A boolean property of bytes is checked by evaluating it on all of them. *)
Lemma byte_forall (f : Z -> bool) : forallb f (seqZ 0 256) = true -> forall b, is_byte b -> f b = true.
Proof.
  intros Hf b Hb. rewrite forallb_forall in Hf. apply Hf.
  apply list_elem_of_In, elem_of_seqZ. unfold is_byte in Hb. lia.
Qed.

Lemma shiftl_lor_add a b n : 0 <= n -> 0 <= a < 2 ^ n -> Z.lor a (Z.shiftl b n) = a + b * 2 ^ n.
Proof.
  intros Hn Ha. rewrite <- Z.add_lor_land. rewrite Z.shiftl_mul_pow2 by done.
  enough (Z.land a (b * 2 ^ n) = 0) as -> by lia.
  apply Z.bits_inj'. intros i Hi. rewrite Z.land_spec, Z.bits_0.
  destruct (Z.lt_ge_cases i n).
  - rewrite Z.mul_pow2_bits_low by lia. apply andb_false_r.
  - replace (Z.testbit a i) with false; [done|]. symmetry.
    destruct (decide (a = 0)) as [->|]; [apply Z.bits_0|].
    apply Z.bits_above_log2; [lia|]. apply Z.log2_lt_pow2; [lia|].
    apply Z.lt_le_trans with (2 ^ n); [lia|]. apply Z.pow_le_mono_r; lia.
Qed.

Lemma land_pow2 a n : 0 <= n -> Z.land a (2 ^ n - 1) = a mod 2 ^ n.
Proof. intros. rewrite <- Z.land_ones by done. by rewrite Z.ones_equiv. Qed.

Lemma lor_128 x : 0 <= x < 128 -> Z.lor x 128 = x + 128.
Proof. intros. exact (shiftl_lor_add x 1 7 ltac:(lia) ltac:(lia)). Qed.

Lemma land_127 x : Z.land x 127 = x mod 128.
Proof. exact (land_pow2 x 7 ltac:(lia)). Qed.

Lemma land_255 x : Z.land x 255 = x mod 256.
Proof. exact (land_pow2 x 8 ltac:(lia)). Qed.

Lemma land_128_byte b : is_byte b -> (Z.land b 128 =? 0) = (b <? 128).
Proof.
  intros Hb. apply eqb_prop.
  by apply (byte_forall (fun b => Bool.eqb (Z.land b 128 =? 0) (b <? 128))).
Qed.

(** ** Little-endian integers *)

Fixpoint le_encode (n : nat) (z : Z) : list Z :=
  match n with
  | O => []
  | S n => z mod 256 :: le_encode n (z / 256)
  end.

Fixpoint le_decode (bs : list Z) : Z :=
  match bs with
  | [] => 0
  | b :: bs => b + 256 * le_decode bs
  end.

Lemma length_le_encode n z : length (le_encode n z) = n.
Proof. revert z. induction n; intros; simpl; auto. Qed.

Lemma zlen_encode n z : zlen (le_encode n z) = Z.of_nat n.
Proof. unfold zlen. by rewrite length_le_encode. Qed.

Lemma le_encode_bytes n z : bytes_ok (le_encode n z).
Proof.
  revert z. induction n; intros; simpl; constructor; auto.
  apply Z.mod_pos_bound. lia.
Qed.

Lemma pow256_S n : 256 ^ Z.of_nat (S n) = 256 * 256 ^ Z.of_nat n.
Proof. rewrite Nat2Z.inj_succ, Z.pow_succ_r; lia. Qed.

Lemma le_decode_encode n z : le_decode (le_encode n z) = z mod 256 ^ Z.of_nat n.
Proof.
  revert z. induction n as [|n IH]; intros z; cbn [le_encode le_decode].
  - by rewrite Z.mod_1_r.
  - rewrite IH, pow256_S. rewrite Z.rem_mul_r; lia.
Qed.

Lemma le_decode_range bs : bytes_ok bs -> 0 <= le_decode bs < 256 ^ zlen bs.
Proof.
  induction 1 as [|b bs Hb _ IH]; [by simpl|].
  unfold zlen in *. simpl length. rewrite pow256_S. simpl. unfold is_byte in Hb. lia.
Qed.

Lemma le_encode_decode bs : bytes_ok bs -> le_encode (length bs) (le_decode bs) = bs.
Proof.
  induction 1 as [|b bs Hb _ IH]; [done|]. unfold is_byte in Hb. simpl.
  f_equal.
  - rewrite Z.mul_comm, Z_mod_plus_full. apply Z.mod_small. lia.
  - rewrite Z.mul_comm, Z_div_plus_full, Z.div_small by lia. apply IH.
Qed.

Lemma le_encode_mod n a b :
  a mod 256 ^ Z.of_nat n = b mod 256 ^ Z.of_nat n -> le_encode n a = le_encode n b.
Proof.
  intros Hab. assert (forall z, le_encode n (z mod 256 ^ Z.of_nat n) = le_encode n z) as He.
  { intros z. rewrite <- le_decode_encode, <- (length_le_encode n z) at 1.
    apply le_encode_decode, le_encode_bytes. }
  by rewrite <- (He a), Hab, He.
Qed.

(** ** Allocation *)

(** What the program relies on from the C allocator through zmalloc.c: a block
    has at least the requested size, and new bytes have arbitrary contents. *)
Class Allocator := {
  malloc_usable_size : Z -> Z;
  junk : nat -> Z;
  malloc_usable_size_ge n : n <= malloc_usable_size n;
}.

Definition junk_bytes `{Allocator} (from n : nat) : list Z :=
  (fun i => u8 (junk i)) <$> seq from n.

Lemma length_junk_bytes `{Allocator} from n : length (junk_bytes from n) = n.
Proof. unfold junk_bytes. by rewrite length_fmap, length_seq. Qed.

Lemma junk_bytes_ok `{Allocator} from n : bytes_ok (junk_bytes from n).
Proof.
  unfold junk_bytes. rewrite Forall_fmap. apply Forall_true. intros x. simpl.
  apply (uwrap_range 8). lia.
Qed.

(** zrealloc(m, size): the first bytes are kept, the others are arbitrary. *)
Definition zrealloc `{Allocator} (m : list Z) (size : Z) : list Z :=
  take (Z.to_nat size) m ++ junk_bytes (length m) (Z.to_nat size - length m).

Lemma length_zrealloc `{Allocator} m size : length (zrealloc m size) = Z.to_nat size.
Proof.
  unfold zrealloc. rewrite length_app, length_take, length_junk_bytes. lia.
Qed.

Lemma zrealloc_grow `{Allocator} m size :
  zlen m <= size ->
  exists tl, zrealloc m size = m ++ tl /\ bytes_ok tl /\ zlen tl = size - zlen m.
Proof.
  intros Hle. unfold zlen in *. eexists. split; [|split].
  - unfold zrealloc. rewrite take_ge by lia. reflexivity.
  - apply junk_bytes_ok.
  - rewrite length_junk_bytes. lia.
Qed.

Lemma zrealloc_shrink `{Allocator} a b size :
  size = zlen a -> zrealloc (a ++ b) size = a.
Proof.
  intros ->. unfold zrealloc, zlen. rewrite Nat2Z.id, take_app_length, length_app.
  replace (length a - (length a + length b))%nat with 0%nat by lia.
  by rewrite app_nil_r.
Qed.

(** An allocator that returns exactly what is asked for, zero filled. *)
Definition exact_allocator : Allocator := {|
  malloc_usable_size n := n;
  junk _ := 0;
  malloc_usable_size_ge n := Z.le_refl n;
|}.
