(* ===== verification/Util.v ===== *)
(** * Number and string utilities (src/redis-stable/src/util.c) *)
From S2P Require Import Prelude.

(** ** Number of decimal digits *)

(** The recursive call divides by 10^12: an unsigned 64 bit integer needs two calls. *)
Fixpoint digits10_rec (fuel : nat) (v : Z) : Z :=
  if v <? 10 then 1
  else if v <? 100 then 2
  else if v <? 1000 then 3
  else if v <? 1000000000000 then
    if v <? 100000000 then
      if v <? 1000000 then
        if v <? 10000 then 4 else 5 + Z.b2z (100000 <=? v)
      else 7 + Z.b2z (10000000 <=? v)
    else if v <? 10000000000 then 9 + Z.b2z (1000000000 <=? v)
    else 11 + Z.b2z (100000000000 <=? v)
  else
    match fuel with
    | O => 0
    | S fuel => 12 + digits10_rec fuel (v / 1000000000000)
    end.

Definition digits10 (v : Z) : Z := digits10_rec 1 v.

(** The absolute value of a long long, as an unsigned long long. *)
Definition ll_abs (svalue : Z) : Z :=
  if svalue <? 0 then
    if negb (svalue =? LLONG_MIN) then u64 (- svalue) else u64 (LLONG_MAX + 1)
  else svalue.

Definition sdigits10 (v : Z) : Z :=
  if v <? 0 then digits10 (ll_abs v) + 1 else digits10 v.

(** ** Integer to string *)

Definition digits : list Z :=
  str "0001020304050607080910111213141516171819" ++
  str "2021222324252627282930313233343536373839" ++
  str "4041424344454647484950515253545556575859" ++
  str "6061626364656667686970717273747576777879" ++
  str "8081828384858687888990919293949596979899" ++ [0].

(** while (value >= 100) ...: the result is (dst, value, next). *)
Fixpoint ll2string_loop (fuel : nat) (dst : list Z) (value next : Z)
    : option (list Z * Z * Z) :=
  if 100 <=? value then
    match fuel with
    | O => None
    | S fuel =>
        let i := (value mod 100) * 2 in
        let value := value / 100 in
        d1 ← load8 digits (i + 1);
        d0 ← load8 digits i;
        dst ← store8 dst next d1;
        dst ← store8 dst (next - 1) d0;
        ll2string_loop fuel dst value (next - 2)
    end
  else Some (dst, value, next).

(** An unsigned long long has at most 20 digits, two are written at each iteration. *)
Definition ll2string_fuel : nat := 10.

(** The result is the buffer and the returned length. *)
Definition ll2string (dst : list Z) (dstlen svalue : Z) : option (list Z * Z) :=
  let negative := if svalue <? 0 then 1 else 0 in
  let value := ll_abs svalue in
  let length := digits10 value + negative in
  if dstlen <=? length then Some (dst, 0)
  else
    let next := length in
    dst ← store8 dst next 0;
    let next := next - 1 in
    '(dst, value, next) ← ll2string_loop ll2string_fuel dst value next;
    dst ← (if value <? 10 then store8 dst next (chr "0" + value)
           else
             let i := value * 2 in
             d1 ← load8 digits (i + 1);
             d0 ← load8 digits i;
             dst ← store8 dst next d1;
             store8 dst (next - 1) d0);
    dst ← (if negative =? 1 then store8 dst 0 (chr "-") else Some dst);
    Some (dst, length).

(** ** String to integer *)

Definition is_digit (c : Z) : bool := (chr "0" <=? c) && (c <=? chr "9").

(** The while loop over the digits that follow the first one: [None] on overflow,
    the value and what remains of the string otherwise. *)
Fixpoint string2ll_loop (v : Z) (p : list Z) : option (Z * list Z) :=
  match p with
  | [] => Some (v, [])
  | c :: p' =>
      if is_digit c then
        if ULLONG_MAX / 10 <? v then None
        else
          let v := u64 (v * 10) in
          if ULLONG_MAX - (c - chr "0") <? v then None
          else string2ll_loop (u64 (v + (c - chr "0"))) p'
      else Some (v, p)
  end.

(** [None]: the function returns 0; [Some v]: it returns 1 and *value is v. *)
Definition string2ll (s : list Z) : option Z :=
  match s with
  | [] => None
  | c :: s' =>
      if (zlen s =? 1) && (c =? chr "0") then Some 0
      else
        let negative := c =? chr "-" in
        match (if negative then s' else s) with
        | [] => None
        | c :: p =>
            if (chr "1" <=? c) && (c <=? chr "9") then
              match string2ll_loop (c - chr "0") p with
              | Some (v, []) =>
                  if negative then
                    if u64 (- (LLONG_MIN + 1)) + 1 <? v then None else Some (s64 (u64 (- v)))
                  else
                    if LLONG_MAX <? v then None else Some v
              | Some (_, _ :: _) | None => None
              end
            else None
        end
  end.

(** On an LP64 platform a long is a long long. *)
Definition LONG_MIN : Z := LLONG_MIN.
Definition LONG_MAX : Z := LLONG_MAX.

Definition string2l (s : list Z) : option Z :=
  llval ← string2ll s;
  if (llval <? LONG_MIN) || (LONG_MAX <? llval) then None else Some llval.

(** ** Decimal notation *)

(** [d] is the number of decimal digits of [v]. *)
Definition ndigits (v d : Z) : Prop :=
  1 <= d /\ v < 10 ^ d /\ (10 ^ (d - 1) <= v \/ (v = 0 /\ d = 1)).

(** The number that a string of digits denotes, most significant digit first. *)
Definition digits_value (s : list Z) : Z := fold_left (fun v c => v * 10 + (c - chr "0")) s 0.

(** [s] is the canonical decimal notation of [v]: no sign on zero, no leading zero. *)
Inductive canonical : list Z -> Z -> Prop :=
| canonical_zero : canonical [chr "0"] 0
| canonical_pos c s : chr "1" <= c <= chr "9" -> Forall is_digit s ->
    canonical (c :: s) (digits_value (c :: s))
| canonical_neg c s : chr "1" <= c <= chr "9" -> Forall is_digit s ->
    canonical (chr "-" :: c :: s) (- digits_value (c :: s)).

Lemma is_digit_spec c : is_digit c <-> 48 <= c <= 57.
Proof. rewrite Is_true_true. unfold is_digit. change (chr "0") with 48. change (chr "9") with 57. lia. Qed.

Lemma ndigits_unique v d d' : ndigits v d -> ndigits v d' -> d = d'.
Proof.
  assert (forall d d', ndigits v d -> ndigits v d' -> d <= d') as Hle.
  { clear. intros d d' (H1 & H2 & H3) (H1' & H2' & H3'). apply Z.le_ngt. intros Hlt.
    destruct H3 as [H3|[-> ->]]; [|lia].
    assert (10 ^ d' <= 10 ^ (d - 1)) by (apply Z.pow_le_mono_r; lia). lia. }
  intros. apply Z.le_antisymm; auto.
Qed.

Lemma digits10_rec_0 v : 0 <= v < 1000000000000 -> ndigits v (digits10_rec 0 v).
Proof.
  intros Hv. unfold ndigits. cbn [digits10_rec].
  repeat case_match; repeat match goal with |- context [Z.b2z ?b] => destruct b eqn:?; cbn [Z.b2z] end;
    repeat match goal with |- context [10 ^ ?k] =>
      let v := eval vm_compute in (10 ^ k) in change (10 ^ k) with v end; lia.
Qed.

(** digits10() counts the decimal digits of every unsigned 64 bit integer. *)
Lemma digits10_spec v : 0 <= v <= ULLONG_MAX -> ndigits v (digits10 v).
Proof.
  intros Hv. unfold_limits. unfold digits10.
  destruct (Z.lt_ge_cases v 1000000000000) as [Hlt|Hge].
  { replace (digits10_rec 1 v) with (digits10_rec 0 v); [apply digits10_rec_0; lia|].
    cbn [digits10_rec]. repeat case_match; lia || done. }
  assert (digits10_rec 1 v = 12 + digits10_rec 0 (v / 1000000000000)) as ->.
  { cbn [digits10_rec]. repeat case_match; lia || done. }
  set (q := v / 1000000000000).
  assert (1 <= q < 1000000000000) as Hq by (unfold q; Z.div_mod_to_equations; lia).
  destruct (digits10_rec_0 q) as (H1 & H2 & H3); [lia|].
  set (d := digits10_rec 0 q) in *.
  assert (10 ^ (12 + d) = 1000000000000 * 10 ^ d) as Hp by (rewrite Z.pow_add_r by lia; done).
  assert (10 ^ (12 + d - 1) = 1000000000000 * 10 ^ (d - 1)) as Hp'.
  { replace (12 + d - 1) with (12 + (d - 1)) by lia. rewrite Z.pow_add_r by lia. done. }
  unfold ndigits. rewrite Hp, Hp'. unfold q in *. Z.div_mod_to_equations. nia.
Qed.

Lemma digits_value_snoc s c : digits_value (s ++ [c]) = digits_value s * 10 + (c - 48).
Proof. unfold digits_value. by rewrite fold_left_app. Qed.

Lemma digits_value_app s t : Forall is_digit t ->
  digits_value (s ++ t) = digits_value s * 10 ^ zlen t + digits_value t.
Proof.
  induction t as [|c t IH] using rev_ind; intros Ht.
  { rewrite app_nil_r. change (digits_value []) with 0. change (zlen []) with 0. lia. }
  apply Forall_app in Ht as [Ht _].
  rewrite app_assoc, !digits_value_snoc, IH, zlen_snoc by done.
  rewrite Z.pow_add_r by (pose proof (zlen_nonneg t); lia). lia.
Qed.

Lemma digits_value_range s : Forall is_digit s -> 0 <= digits_value s < 10 ^ zlen s.
Proof.
  induction s as [|c s IH] using rev_ind; intros Hs; [done|].
  apply Forall_app in Hs as [Hs [Hc%is_digit_spec _]%Forall_cons_1]. specialize (IH Hs).
  pose proof (zlen_nonneg s). rewrite digits_value_snoc, zlen_snoc.
  rewrite Z.pow_add_r by lia. lia.
Qed.

Lemma digits_value_inj s t : length s = length t -> Forall is_digit s -> Forall is_digit t ->
  digits_value s = digits_value t -> s = t.
Proof.
  revert t. induction s as [|c s IH] using rev_ind; intros t Hlen Hs Ht Heq.
  { by destruct t. }
  induction t as [|c' t _] using rev_ind; [rewrite length_app in Hlen; simpl in Hlen; lia|].
  rewrite !length_app in Hlen. simpl in Hlen.
  apply Forall_app in Hs as [Hs [Hc%is_digit_spec _]%Forall_cons_1].
  apply Forall_app in Ht as [Ht [Hc'%is_digit_spec _]%Forall_cons_1].
  rewrite !digits_value_snoc in Heq.
  f_equal; [apply IH; try done; lia | f_equal; lia].
Qed.

Lemma digits_value_cons c s : Forall is_digit s ->
  digits_value (c :: s) = (c - 48) * 10 ^ zlen s + digits_value s.
Proof.
  intros Hs. change (c :: s) with ([c] ++ s). rewrite digits_value_app by done. done.
Qed.

Lemma pow10_pos n : 0 <= n -> 1 <= 10 ^ n.
Proof. intros. pose proof (Z.pow_pos_nonneg 10 n). lia. Qed.

Lemma digits_value_ndigits c s : chr "1" <= c <= chr "9" -> Forall is_digit s ->
  ndigits (digits_value (c :: s)) (zlen (c :: s)) /\ 0 < digits_value (c :: s).
Proof.
  change (chr "1") with 49. change (chr "9") with 57. intros Hc Hs.
  pose proof (digits_value_range s Hs). pose proof (zlen_nonneg s).
  pose proof (pow10_pos (zlen s)).
  unfold ndigits. rewrite digits_value_cons, zlen_cons, Z.pow_add_r by lia || done.
  replace (1 + zlen s - 1) with (zlen s) by lia. change (10 ^ 1) with 10. nia.
Qed.

(** ** Parsing *)

Lemma string2ll_loop_digits p v v' : string2ll_loop v p = Some (v', []) -> Forall is_digit p.
Proof.
  revert v. induction p as [|c p IH]; intros v; simpl; [done|].
  destruct (is_digit c) eqn:Hc; [|done].
  destruct (_ <? v); [done|]. destruct (_ <? u64 _); [done|].
  intros Hp%IH. constructor; [by rewrite Hc | done].
Qed.

Lemma string2ll_loop_spec p v : Forall is_digit p -> 0 <= v <= ULLONG_MAX ->
  string2ll_loop v p =
    let v' := v * 10 ^ zlen p + digits_value p in
    if bool_decide (v' <= ULLONG_MAX) then Some (v', []) else None.
Proof.
  intros Hp. revert v. induction Hp as [|c p Hc Hp IH]; intros v Hv; cbn [string2ll_loop].
  { change (zlen []) with 0. change (digits_value []) with 0.
    replace (v * 10 ^ 0 + 0) with v by lia. cbv zeta. by rewrite bool_decide_true by lia. }
  pose proof (digits_value_range p Hp). pose proof (zlen_nonneg p). pose proof (pow10_pos (zlen p)).
  rewrite digits_value_cons, zlen_cons, Z.pow_add_r by lia || done. change (10 ^ 1) with 10.
  apply Is_true_true in Hc as Hc'. rewrite Hc'. apply is_digit_spec in Hc.
  change (chr "0") with 48. unfold_limits. change (18446744073709551615 / 10) with 1844674407370955161.
  cbv zeta. destruct (Z.ltb_spec 1844674407370955161 v).
  { rewrite bool_decide_false by nia. done. }
  rewrite (uwrap_small 64 (v * 10)) by (eval_pow2; lia).
  destruct (Z.ltb_spec (18446744073709551615 - (c - 48)) (v * 10)).
  { rewrite bool_decide_false by nia. done. }
  rewrite uwrap_small by (eval_pow2; lia). rewrite IH by lia. cbv zeta.
  replace ((v * 10 + (c - 48)) * 10 ^ zlen p + digits_value p)
    with (v * (10 * 10 ^ zlen p) + ((c - 48) * 10 ^ zlen p + digits_value p)) by lia.
  done.
Qed.

Lemma parse_tail_spec c p : chr "1" <= c <= chr "9" -> Forall is_digit p ->
  string2ll_loop (c - chr "0") p =
    if bool_decide (digits_value (c :: p) <= ULLONG_MAX)
    then Some (digits_value (c :: p), []) else None.
Proof.
  change (chr "1") with 49. change (chr "9") with 57. change (chr "0") with 48. intros Hc Hp.
  rewrite string2ll_loop_spec by (unfold_limits; lia || done).
  by rewrite digits_value_cons.
Qed.

Lemma string2ll_sound s v : string2ll s = Some v -> canonical s v /\ is_ll v.
Proof.
  unfold string2ll. destruct s as [|c s]; [done|].
  destruct (zlen (c :: s) =? 1) eqn:Hlen, (c =? chr "0") eqn:Hc0; cbn [andb].
  { intros [= <-]. apply Z.eqb_eq in Hlen, Hc0. subst c. rewrite zlen_cons in Hlen.
    rewrite (zlen_eq_nil s) by lia. split; [constructor | unfold_limits; lia]. }
  all: destruct (c =? chr "-") eqn:Hneg; [destruct s as [|c' s]; [done|]|].
  all: match goal with |- context [(chr "1" <=? ?x) && (?x <=? chr "9")] =>
         destruct ((chr "1" <=? x) && (x <=? chr "9")) eqn:Hd; [|done] end.
  all: destruct (string2ll_loop _ _) as [[v' [|]]|] eqn:Hloop; [|done..].
  all: apply string2ll_loop_digits in Hloop as Hdig.
  all: apply andb_true_iff in Hd as [Hd1%Z.leb_le Hd2%Z.leb_le].
  all: rewrite parse_tail_spec in Hloop by done; case_bool_decide; [|done]; injection Hloop as <-.
  all: match goal with |- context [digits_value (?c :: ?s)] =>
         destruct (digits_value_ndigits c s) as [_ ?]; [done..|] end.
  all: unfold_limits.
  all: change (u64 (- (-9223372036854775808 + 1)) + 1) with 9223372036854775808.
  all: match goal with |- context [if ?a <? ?b then _ else _] =>
         destruct (Z.ltb_spec a b); [done|] end; intros [= <-].
  all: try (rewrite swrap_uwrap, swrap_small by (eval_pow2; lia)).
  all: split; [|lia].
  all: try (apply Z.eqb_eq in Hneg; subst c; by constructor).
  all: by constructor.
Qed.

Lemma string2ll_complete s v : canonical s v -> is_ll v -> string2ll s = Some v.
Proof.
  intros Hcan Hv. destruct Hcan as [|c s Hc Hs|c s Hc Hs]; [done|..];
    destruct (digits_value_ndigits c s) as [_ Hpos]; try done; unfold_limits.
  - assert ((c =? chr "0") = false /\ (c =? chr "-") = false) as [H0 Hm].
    { change (chr "1") with 49 in Hc. change (chr "0") with 48. change (chr "-") with 45. lia. }
    unfold string2ll. rewrite H0, Hm, andb_false_r. cbv iota zeta.
    rewrite (proj2 (andb_true_iff _ _)) by (split; lia).
    rewrite parse_tail_spec by done. rewrite bool_decide_true by (unfold_limits; lia).
    rewrite (proj2 (Z.ltb_ge _ _)) by (unfold_limits; lia). done.
  - unfold string2ll. change (chr "-" =? chr "0") with false. rewrite andb_false_r, Z.eqb_refl.
    cbv iota zeta. rewrite (proj2 (andb_true_iff _ _)) by (split; lia).
    rewrite parse_tail_spec by done. rewrite bool_decide_true by (unfold_limits; lia).
    change (u64 (- (LLONG_MIN + 1)) + 1) with 9223372036854775808.
    rewrite (proj2 (Z.ltb_ge _ _)) by lia.
    by rewrite swrap_uwrap, swrap_small by (eval_pow2; lia).
Qed.

(** string2ll() accepts exactly the canonical decimal notations of the long long
    integers, and returns the integer they denote. *)
Theorem string2ll_correct s v : string2ll s = Some v <-> canonical s v /\ is_ll v.
Proof. split; [apply string2ll_sound | intros []; by apply string2ll_complete]. Qed.

(** ** Printing *)

Lemma digits_table r : 0 <= r < 100 ->
  load8 digits (r * 2) = Some (48 + r / 10) /\ load8 digits (r * 2 + 1) = Some (48 + r mod 10).
Proof.
  intros Hr.
  assert (Forall (fun r => load8 digits (r * 2) = Some (48 + r / 10) /\
            load8 digits (r * 2 + 1) = Some (48 + r mod 10)) (seqZ 0 100)) as Hall.
  { apply (bool_decide_unpack _). vm_compute. exact I. }
  rewrite Forall_forall in Hall. apply Hall. apply elem_of_seqZ. lia.
Qed.

Lemma ndigits_div100 v d : ndigits v d -> 100 <= v -> ndigits (v / 100) (d - 2).
Proof.
  intros (H1 & H2 & H3) Hv. destruct H3 as [H3|]; [|lia].
  assert (3 <= d) as Hd.
  { apply Z.le_ngt. intros Hlt. assert (10 ^ d <= 10 ^ 2) by (apply Z.pow_le_mono_r; lia). lia. }
  assert (10 ^ d = 100 * 10 ^ (d - 2)) as Hp.
  { replace d with (2 + (d - 2)) at 1 by lia. rewrite Z.pow_add_r by lia. done. }
  assert (10 ^ (d - 1) = 100 * 10 ^ (d - 2 - 1)) as Hp'.
  { replace (d - 1) with (2 + (d - 2 - 1)) by lia. rewrite Z.pow_add_r by lia. done. }
  unfold ndigits. Z.div_mod_to_equations. lia.
Qed.

(** Digits after a number without leading zeros: the count adds up, except after a zero. *)
Lemma ndigits_app s t : Forall is_digit s -> Forall is_digit t ->
  ndigits (digits_value s) (zlen s) -> (digits_value s <> 0 \/ t = []) ->
  ndigits (digits_value (s ++ t)) (zlen (s ++ t)).
Proof.
  intros Hs Ht (H1 & H2 & H3) [Hne| ->]; [|by rewrite app_nil_r].
  pose proof (digits_value_range t Ht). pose proof (zlen_nonneg t). pose proof (pow10_pos (zlen t)).
  rewrite digits_value_app, zlen_app by done. destruct H3 as [H3|]; [|lia].
  unfold ndigits. rewrite Z.pow_add_r by lia.
  replace (zlen s + zlen t - 1) with ((zlen s - 1) + zlen t) by lia. rewrite Z.pow_add_r by lia. nia.
Qed.

(** Two more cells before the end of a block. *)
Lemma split_last2 (a : list Z) : 2 <= zlen a -> exists a' x y, a = a' ++ [x; y].
Proof.
  intros H. destruct a as [|y a _] using rev_ind; [done|].
  destruct a as [|x a _] using rev_ind; [by rewrite zlen_snoc in H; vm_compute in H|].
  exists a, x, y. by rewrite <- app_assoc.
Qed.

Lemma store_pair a' x y b r : 0 <= r < 100 ->
  (d1 ← load8 digits (r * 2 + 1); d0 ← load8 digits (r * 2);
   dst ← store8 ((a' ++ [x; y]) ++ b) (zlen (a' ++ [x; y]) - 1) d1;
   store8 dst (zlen (a' ++ [x; y]) - 1 - 1) d0)
  = Some (a' ++ [48 + r / 10; 48 + r mod 10] ++ b).
Proof.
  intros Hr. destruct (digits_table r Hr) as [-> ->]. simpl_bind.
  replace ((a' ++ [x; y]) ++ b) with ((a' ++ [x]) ++ y :: b) by (by rewrite <- !app_assoc).
  rewrite store8_mid by (rewrite zlen_app; change (zlen [x; y]) with 2; rewrite zlen_snoc; lia).
  simpl_bind. rewrite <- app_assoc. simpl app.
  rewrite store8_mid by (rewrite zlen_app; change (zlen [x; y]) with 2; lia).
  rewrite !uwrap_small by (eval_pow2; Z.div_mod_to_equations; lia). done.
Qed.

Lemma ll2string_loop_spec fuel a b value d neg :
  ndigits value d -> 0 <= value < 100 * 100 ^ Z.of_nat fuel -> zlen a = d + neg -> 0 <= neg ->
  exists a' ds value', ll2string_loop fuel (a ++ b) value (zlen a - 1)
      = Some (a' ++ ds ++ b, value', zlen a' - 1) /\
    a' = take (length a') a /\
    0 <= value' < 100 /\ Forall is_digit ds /\ value = value' * 10 ^ zlen ds + digits_value ds /\
    ndigits value' (zlen a' - neg) /\ (ds = [] \/ 1 <= value').
Proof.
  revert a b value d. induction fuel as [|fuel IH]; intros a b value d Hd Hv Ha Hneg;
    cbn [ll2string_loop]; destruct (Z.leb_spec 100 value) as [Hge|Hlt].
  2, 4: exists a, [], value; split_and!; [done | by rewrite firstn_all | lia | lia | done |
    change (zlen []) with 0; change (digits_value []) with 0; lia |
    by replace (zlen a - neg) with d by lia | by left].
  { simpl in Hv. lia. }
  pose proof (ndigits_div100 _ _ Hd Hge) as Hd'. destruct Hd' as (Hd1 & Hd2 & Hd3).
  destruct (split_last2 a) as (a' & x & y & ->); [lia|].
  assert (zlen (a' ++ [x; y]) = zlen a' + 2) as Hlen by (rewrite zlen_app; done).
  pose proof (store_pair a' x y b (value mod 100)) as Hst.
  specialize (Hst ltac:(Z.div_mod_to_equations; lia)).
  destruct (load8 digits (value mod 100 * 2 + 1)) as [d1|]; [|done].
  destruct (load8 digits (value mod 100 * 2)) as [d0|]; [|done]. simpl_bind in Hst. simpl_bind.
  destruct (store8 _ _ d1) as [dst|]; [|done]. simpl_bind in Hst. simpl_bind. rewrite Hst. simpl_bind.
  replace (zlen (a' ++ [x; y]) - 1 - 2) with (zlen a' - 1) by lia.
  rewrite Nat2Z.inj_succ, Z.pow_succ_r in Hv by lia.
  assert (0 <= value / 100 < 100 * 100 ^ Z.of_nat fuel) as Hv'
    by (split; [apply Z.div_pos; lia | apply Z.div_lt_upper_bound; lia]).
  set (t := [48 + value mod 100 / 10; 48 + (value mod 100) mod 10]).
  assert (Forall is_digit t) as Ht.
  { unfold t. repeat constructor; apply is_digit_spec; Z.div_mod_to_equations; lia. }
  destruct (IH a' (t ++ b) (value / 100) (d - 2)) as (a'' & ds & v' & Hloop & Hpre & Hv1 & Hds & Hval & Hnd & Hnz);
    [by split_and! | done | lia | done |].
  exists a'', (ds ++ t), v'. rewrite <- app_assoc. split_and!; [done | | lia | lia | | | done |].
  - rewrite take_app_le; [done|]. rewrite Hpre, length_take. lia.
  - by apply Forall_app.
  - rewrite digits_value_app, zlen_app, Z.pow_add_r by (done || apply zlen_nonneg).
    change (zlen t) with 2. change (10 ^ 2) with 100.
    assert (digits_value t = value mod 100) as ->.
    { change (digits_value t) with ((0 * 10 + (48 + value mod 100 / 10 - 48)) * 10
        + (48 + (value mod 100) mod 10 - 48)). Z.div_mod_to_equations. lia. }
    pose proof (Z.div_mod value 100). nia.
  - right. destruct Hnz as [->|]; [|done]. change (zlen []) with 0 in Hval.
    change (digits_value []) with 0 in Hval. Z.div_mod_to_equations. lia.
Qed.

Lemma ll_abs_spec v : is_ll v -> ll_abs v = Z.abs v /\ 0 <= ll_abs v <= ULLONG_MAX.
Proof.
  intros Hv. unfold ll_abs. unfold_limits.
  change (u64 (9223372036854775807 + 1)) with 9223372036854775808.
  destruct (Z.ltb_spec v 0); [|lia].
  destruct (Z.eqb_spec v (-9223372036854775808)); simpl negb; cbv iota; [lia|].
  rewrite uwrap_small by (eval_pow2; lia). lia.
Qed.

(** The digits of an absolute value and its sign make a canonical notation. *)
Lemma canonical_of_digits v s :
  Forall is_digit s -> digits_value s = Z.abs v -> ndigits (Z.abs v) (zlen s) ->
  canonical (if v <? 0 then chr "-" :: s else s) v.
Proof.
  intros Hs Hval (H1 & H2 & H3). destruct s as [|c s]; [by vm_compute in H1|].
  apply Forall_cons_1 in Hs as [Hc%is_digit_spec Hs].
  pose proof (digits_value_range s Hs) as Hr. rewrite digits_value_cons in Hval by done.
  rewrite zlen_cons in H3. replace (1 + zlen s - 1) with (zlen s) in H3 by lia.
  pose proof (zlen_nonneg s). pose proof (pow10_pos (zlen s)).
  destruct (decide (Z.abs v = 0)) as [Hv0|Hv0].
  - assert (v = 0) as -> by lia. simpl Z.ltb. cbv iota.
    destruct H3 as [H3|[_ H3]]; [lia|]. assert (s = []) as -> by (apply zlen_eq_nil; lia).
    change (zlen []) with 0 in Hval. change (digits_value []) with 0 in Hval.
    replace c with 48 by lia. constructor.
  - assert (chr "1" <= c <= chr "9") as Hc'.
    { change (chr "1") with 49. change (chr "9") with 57. destruct H3; [|lia]. nia. }
    rewrite <- digits_value_cons in Hval by done.
    destruct (Z.ltb_spec v 0).
    + replace v with (- digits_value (c :: s)) by lia. by constructor.
    + replace v with (digits_value (c :: s)) by lia. by constructor.
Qed.

Lemma canonical_zlen s v : is_ll v -> canonical s v -> zlen s = sdigits10 v.
Proof.
  intros Hv Hcan. destruct (ll_abs_spec v Hv) as [Habs Hr]. unfold sdigits10.
  destruct Hcan as [|c s Hc Hs|c s Hc Hs]; [done|..];
    destruct (digits_value_ndigits c s Hc Hs) as [Hnd Hpos]; unfold_limits.
  - rewrite (proj2 (Z.ltb_ge _ _)) by lia. apply ndigits_unique with (digits_value (c :: s)); [done|].
    apply digits10_spec. unfold_limits. lia.
  - rewrite (proj2 (Z.ltb_lt _ _)) by lia. rewrite zlen_cons.
    enough (zlen (c :: s) = digits10 (ll_abs (- digits_value (c :: s)))) by lia.
    apply ndigits_unique with (digits_value (c :: s)); [done|]. rewrite Habs.
    replace (Z.abs (- digits_value (c :: s))) with (digits_value (c :: s)) by lia.
    apply digits10_spec. unfold_limits. lia.
Qed.

Lemma canonical_inj s t v : canonical s v -> canonical t v -> s = t.
Proof.
  intros Hs Ht.
  assert (forall c c' s t, chr "1" <= c <= chr "9" -> Forall is_digit s ->
    chr "1" <= c' <= chr "9" -> Forall is_digit t ->
    digits_value (c :: s) = digits_value (c' :: t) -> c :: s = c' :: t) as Hinj.
  { clear. intros c c' s t Hc Hs Hc' Ht Heq.
    destruct (digits_value_ndigits c s Hc Hs) as [Hnd _].
    destruct (digits_value_ndigits c' t Hc' Ht) as [Hnd' _]. rewrite <- Heq in Hnd'.
    pose proof (ndigits_unique _ _ _ Hnd Hnd') as Hlen. unfold zlen in Hlen.
    change (chr "1") with 49 in *. change (chr "9") with 57 in *.
    apply digits_value_inj; [lia | | | done]; constructor; try done; apply is_digit_spec; lia. }
  destruct Hs as [|c s Hc Hs|c s Hc Hs];
    try pose proof (proj2 (digits_value_ndigits c s Hc Hs));
    inversion Ht as [|c' t' Hc' Ht'|c' t' Hc' Ht']; subst; try done;
    try pose proof (proj2 (digits_value_ndigits c' t' Hc' Ht')); try lia.
  - apply Hinj; auto.
  - f_equal. apply Hinj; auto. lia.
Qed.

(** The last one or two digits. *)
Lemma ll2string_last sg a b value :
  0 <= value < 100 -> ndigits value (zlen a) ->
  exists ds, (if value <? 10 then store8 ((sg ++ a) ++ b) (zlen (sg ++ a) - 1) (chr "0" + value)
     else
       d1 ← load8 digits (value * 2 + 1);
       d0 ← load8 digits (value * 2);
       dst ← store8 ((sg ++ a) ++ b) (zlen (sg ++ a) - 1) d1;
       store8 dst (zlen (sg ++ a) - 1 - 1) d0) = Some (sg ++ ds ++ b) /\
    length ds = length a /\ Forall is_digit ds /\ digits_value ds = value.
Proof.
  intros Hv (H1 & H2 & H3). destruct (Z.ltb_spec value 10) as [Hlt|Hge].
  - assert (zlen a = 1) as Ha.
    { destruct H3 as [H3|[_ H3]]; [|done]. apply Z.le_antisymm; [|done]. apply Z.le_ngt. intros Hgt.
      assert (10 ^ 1 <= 10 ^ (zlen a - 1)) by (apply Z.pow_le_mono_r; lia). lia. }
    destruct a as [|x [|? ?]]; unfold zlen in Ha; simpl in Ha; try lia.
    exists [48 + value]. split_and!; [|done| |].
    + rewrite <- app_assoc. change ([x] ++ b) with (x :: b).
      rewrite store8_mid by (rewrite zlen_snoc; lia). change (chr "0") with 48.
      by rewrite uwrap_small by (eval_pow2; lia).
    + repeat constructor. apply is_digit_spec. lia.
    + change (digits_value [48 + value]) with (0 * 10 + (48 + value - 48)). lia.
  - assert (zlen a = 2) as Ha.
    { destruct H3 as [H3|]; [|lia]. apply Z.le_antisymm; apply Z.le_ngt; intros Hgt.
      - assert (10 ^ 2 <= 10 ^ (zlen a - 1)) by (apply Z.pow_le_mono_r; lia). lia.
      - assert (10 ^ zlen a <= 10 ^ 1) by (apply Z.pow_le_mono_r; lia). lia. }
    destruct a as [|x [|y [|? ?]]]; unfold zlen in Ha; simpl in Ha; try lia.
    exists [48 + value / 10; 48 + value mod 10]. split_and!; [|done| |].
    + apply (store_pair sg x y b value). lia.
    + repeat constructor; apply is_digit_spec; Z.div_mod_to_equations; lia.
    + change (digits_value _) with ((0 * 10 + (48 + value / 10 - 48)) * 10 + (48 + value mod 10 - 48)).
      Z.div_mod_to_equations. lia.
Qed.


Lemma take_prefix {A} (a' sg a : list A) :
  a' = take (length a') (sg ++ a) -> (length sg <= length a')%nat ->
  a' = sg ++ take (length a' - length sg) a.
Proof. intros Ha Hle. rewrite Ha at 1. rewrite take_app, take_ge by lia. done. Qed.

(** The digits of [value] are written over [a], after the cell of the sign if any. *)
Lemma ll2string_digits sg a b value : 
  0 <= value <= ULLONG_MAX -> ndigits value (zlen a) ->
  exists ds,
    ('(dst, value, next) ← ll2string_loop ll2string_fuel ((sg ++ a) ++ b) value (zlen (sg ++ a) - 1);
     if value <? 10 then store8 dst next (chr "0" + value)
     else
       d1 ← load8 digits (value * 2 + 1);
       d0 ← load8 digits (value * 2);
       dst ← store8 dst next d1;
       store8 dst (next - 1) d0) = Some (sg ++ ds ++ b) /\
    length ds = length a /\ Forall is_digit ds /\ digits_value ds = value.
Proof.
  intros Hv Hnd.
  destruct (ll2string_loop_spec ll2string_fuel (sg ++ a) b value (zlen a) (zlen sg))
    as (a' & ds & v' & -> & Hpre & Hv' & Hds & Hval & Hnd' & Hnz);
    [done | unfold_limits; split; [lia|]; change (100 * 100 ^ Z.of_nat ll2string_fuel) with 10000000000000000000000; lia
    | rewrite zlen_app; lia | apply zlen_nonneg |].
  simpl_bind. pose proof Hnd' as (H1 & _). unfold zlen in H1.
  apply take_prefix in Hpre; [|lia]. set (a1 := take _ a) in Hpre.
  assert (zlen a' - zlen sg = zlen a1) as Ha1 by (rewrite Hpre, zlen_app; lia).
  rewrite Ha1 in Hnd'. rewrite Hpre.
  destruct (ll2string_last sg a1 (ds ++ b) v') as (ds' & Hlast & Hl & Hds' & Hval'); [done..|].
  exists (ds' ++ ds). split_and!.
  - rewrite Hlast. by rewrite <- app_assoc.
  - apply Nat2Z.inj. fold (zlen (ds' ++ ds)) (zlen a).
    apply ndigits_unique with value; [|done]. subst value v'. rewrite <- digits_value_app by done.
    apply ndigits_app; [done | done | |].
    + unfold zlen in *. by rewrite Hl.
    + destruct Hnz as [->|]; [by right | left; lia].
  - by apply Forall_app.
  - rewrite digits_value_app by done. by rewrite Hval'.
Qed.

Lemma ll2string_small dst dstlen v :
  dstlen <= sdigits10 v -> is_ll v -> ll2string dst dstlen v = Some (dst, 0).
Proof.
  intros Hle Hv. unfold ll2string.
  assert (digits10 (ll_abs v) + (if v <? 0 then 1 else 0) = sdigits10 v) as ->.
  { unfold sdigits10. destruct (v <? 0) eqn:E; [done|]. unfold ll_abs. rewrite E. lia. }
  by rewrite (proj2 (Z.leb_le _ _)).
Qed.

Lemma ll2string_fits dst dstlen v :
  is_ll v -> sdigits10 v < dstlen -> dstlen <= zlen dst ->
  exists s, canonical s v /\ zlen s = sdigits10 v /\
    ll2string dst dstlen v = Some (s ++ 0 :: drop (S (length s)) dst, zlen s).
Proof.
  intros Hv Hlen Hdst. destruct (ll_abs_spec v Hv) as [Habs Hr].
  pose proof (digits10_spec _ Hr) as Hnd. unfold sdigits10 in *.
  assert (1 <= digits10 (ll_abs v)) as Hd1 by apply Hnd.
  set (neg := if v <? 0 then 1 else 0).
  assert ((if v <? 0 then digits10 (ll_abs v) + 1 else digits10 v) = digits10 (ll_abs v) + neg) as Hsd.
  { unfold neg. destruct (v <? 0) eqn:E; [done|]. unfold ll_abs. rewrite E. lia. }
  rewrite Hsd in *. assert (0 <= neg <= 1) by (unfold neg; case_match; lia).
  destruct (split_at_len dst neg) as (sg & d1 & -> & Hsg & Hd1'); [lia|].
  rewrite zlen_app in Hdst.
  destruct (split_at_len d1 (digits10 (ll_abs v))) as (a & d2 & -> & Ha & Hd2); [lia|].
  destruct d2 as [|x rest]; [change (zlen []) with 0 in Hd2; lia|].
  unfold ll2string. fold neg. rewrite (proj2 (Z.leb_gt _ _)) by lia. cbv zeta.
  rewrite app_assoc. rewrite store8_mid by (rewrite zlen_app; lia). simpl_bind.
  change (u8 0) with 0.
  replace (digits10 (ll_abs v) + neg - 1) with (zlen (sg ++ a) - 1) by (rewrite zlen_app; lia).
  destruct (ll2string_digits sg a (0 :: rest) (ll_abs v)) as (ds & Hds & Hl & Hdig & Hval);
    [done | by rewrite Ha |].
  destruct (ll2string_loop _ _ _ _) as [[[dst1 v1] n1]|]; [|done].
  simpl_bind in Hds. simpl_bind. rewrite Hds. simpl_bind.
  pose proof (canonical_of_digits v ds Hdig) as Hcan.
  rewrite Habs in Hval. specialize (Hcan Hval). rewrite Habs in Hnd.
  assert (zlen ds = digits10 (ll_abs v)) as Hzl by (unfold zlen in *; lia).
  rewrite Hzl, Habs in Hcan. specialize (Hcan Hnd).
  eexists. split; [exact Hcan|]. clear Hcan.
  unfold neg in *. destruct (v <? 0); simpl Z.eqb; cbv iota.
  - destruct sg as [|c [|? ?]]; unfold zlen in Hsg; simpl in Hsg; try lia.
    split; [rewrite zlen_cons; lia|].
    simpl app. rewrite store8_head. simpl_bind.
    rewrite zlen_cons, Hzl. change (u8 (chr "-")) with (chr "-"). f_equal. f_equal; [|lia].
    cbn [app length drop]. do 3 f_equal.
    rewrite drop_app_ge by lia. replace (S (length ds) - length a)%nat with 1%nat by lia. done.
  - destruct sg; [|unfold zlen in Hsg; simpl in Hsg; lia]. split; [lia|]. simpl_bind.
    rewrite Hzl. simpl app. f_equal. f_equal; [|lia]. f_equal.
    rewrite drop_app_ge by lia. replace (S (length ds) - length a)%nat with 1%nat by lia. done.
Qed.

(** ll2string() writes the canonical decimal notation of any long long followed by a
    NUL, leaves the rest of the buffer alone and returns the length of the notation, which
    sdigits10() computes; with too small a buffer it writes nothing and returns 0. *)
Theorem ll2string_correct dst dstlen v :
  is_ll v -> dstlen <= zlen dst ->
  if dstlen <=? sdigits10 v then ll2string dst dstlen v = Some (dst, 0)
  else exists s, canonical s v /\ zlen s = sdigits10 v /\
    ll2string dst dstlen v = Some (s ++ 0 :: drop (S (length s)) dst, zlen s).
Proof.
  intros Hv Hd. destruct (Z.leb_spec dstlen (sdigits10 v)).
  - by apply ll2string_small.
  - by apply ll2string_fits.
Qed.

(** The string that ll2string() leaves in a buffer. *)
Definition ll2string_out (v : Z) : list Z :=
  match ll2string (replicate 21 0) 21 v with
  | Some (dst, n) => take (Z.to_nat n) dst
  | None => []
  end.

Lemma sdigits10_le v : is_ll v -> sdigits10 v <= 20.
Proof.
  intros Hv. destruct (ll_abs_spec v Hv) as [Habs Hr]. unfold sdigits10.
  assert (digits10 (ll_abs v) <= 19).
  { destruct (digits10_spec _ Hr) as (_ & _ & H3). destruct H3 as [H3|[_ ->]]; [|lia].
    apply Z.le_ngt. intros Hgt.
    assert (10 ^ 19 <= 10 ^ (digits10 (ll_abs v) - 1)) by (apply Z.pow_le_mono_r; lia).
    unfold_limits. lia. }
  destruct (Z.ltb_spec v 0); [lia|].
  assert (ll_abs v = v) as Hv'. { unfold ll_abs. rewrite (proj2 (Z.ltb_ge _ _)); done. }
  rewrite Hv' in *. lia.
Qed.

Lemma ll2string_out_canonical v : is_ll v -> canonical (ll2string_out v) v.
Proof.
  intros Hv. unfold ll2string_out.
  destruct (ll2string_fits (replicate 21 0) 21 v) as (s & Hs & _ & ->);
    [done | pose proof (sdigits10_le v Hv); lia | done |].
  unfold zlen. rewrite Nat2Z.id, take_app_length. done.
Qed.

Lemma ll2string_out_inj v w : is_ll v -> is_ll w -> ll2string_out v = ll2string_out w -> v = w.
Proof.
  intros Hv Hw He. pose proof (ll2string_out_canonical v Hv) as Hc. rewrite He in Hc.
  apply string2ll_complete in Hc; [|done].
  rewrite (string2ll_complete _ _ (ll2string_out_canonical w Hw) Hw) in Hc. by injection Hc.
Qed.

(** Printing an integer and parsing it back is the identity, and a string that
    parses is what the integer prints as: no information is lost when a string value
    is stored as an integer. *)
Theorem ll2string_string2ll_roundtrip v s :
  is_ll v -> string2ll (ll2string_out v) = Some v /\
  (string2ll s = Some v -> ll2string_out v = s).
Proof.
  intros Hv. split.
  - apply string2ll_complete; [by apply ll2string_out_canonical | done].
  - intros [Hs _]%string2ll_sound. apply canonical_inj with v; [by apply ll2string_out_canonical | done].
Qed.

(** ** Witnesses *)

Lemma ll2string_correct_witness :
  if 8 <=? sdigits10 (-4096) then ll2string (replicate 8 7) 8 (-4096) = Some (replicate 8 7, 0)
  else exists s, canonical s (-4096) /\ zlen s = sdigits10 (-4096) /\
    ll2string (replicate 8 7) 8 (-4096) = Some (s ++ 0 :: drop (S (length s)) (replicate 8 7), zlen s).
Proof. apply ll2string_correct; vm_compute; [split; discriminate | discriminate]. Defined.

Lemma ll2string_string2ll_roundtrip_witness :
  string2ll (ll2string_out (-4096)) = Some (-4096) /\
  (string2ll (str "-4096") = Some (-4096) -> ll2string_out (-4096) = str "-4096").
Proof. apply ll2string_string2ll_roundtrip. vm_compute. split; discriminate. Defined.
