(* ===== verification/Intset.v ===== *)
(** * Integer sets (src/redis-stable/src/intset.c) *)
From S2P Require Import Prelude.

(** ** The structure *)

Definition INTSET_ENC_INT16 : Z := 2.
Definition INTSET_ENC_INT32 : Z := 4.
Definition INTSET_ENC_INT64 : Z := 8.

Record intset := mk_intset {
  is_encoding : Z;
  is_length : Z;
  is_contents : list Z;
}.

(** sizeof(intset): two uint32_t fields, the flexible array is not counted. *)
Definition sizeof_intset : Z := 8.

(** ** Operations *)

Definition _intsetValueEncoding (v : Z) : Z :=
  if (v <? INT32_MIN) || (INT32_MAX <? v) then INTSET_ENC_INT64
  else if (v <? INT16_MIN) || (INT16_MAX <? v) then INTSET_ENC_INT32
  else INTSET_ENC_INT16.

Definition _intsetGetEncoded (is_ : intset) (pos enc : Z) : option Z :=
  if enc =? INTSET_ENC_INT64 then
    v64 ← mem_load (is_contents is_) (pos * 8) 8; Some (s64 (le_decode v64))
  else if enc =? INTSET_ENC_INT32 then
    v32 ← mem_load (is_contents is_) (pos * 4) 4; Some (s32 (le_decode v32))
  else
    v16 ← mem_load (is_contents is_) (pos * 2) 2; Some (s16 (le_decode v16)).

Definition _intsetGet (is_ : intset) (pos : Z) : option Z :=
  _intsetGetEncoded is_ pos (is_encoding is_).

Definition set_contents (is_ : intset) (m : list Z) : intset :=
  mk_intset (is_encoding is_) (is_length is_) m.

Definition set_length (is_ : intset) (len : Z) : intset :=
  mk_intset (is_encoding is_) (u32 len) (is_contents is_).

Definition _intsetSet (is_ : intset) (pos value : Z) : option intset :=
  let encoding := is_encoding is_ in
  m ← (if encoding =? INTSET_ENC_INT64 then
         mem_store (is_contents is_) (pos * 8) (le_encode 8 value)
       else if encoding =? INTSET_ENC_INT32 then
         mem_store (is_contents is_) (pos * 4) (le_encode 4 value)
       else
         mem_store (is_contents is_) (pos * 2) (le_encode 2 value));
  Some (set_contents is_ m).

Definition intsetNew : intset := mk_intset INTSET_ENC_INT16 0 [].

Definition intsetResize `{Allocator} (is_ : intset) (len : Z) : option intset :=
  let size := u64 (len * is_encoding is_) in
  if bool_decide (size <= SIZE_MAX - sizeof_intset)
  then Some (set_contents is_ (zrealloc (is_contents is_) size))
  else None.

(** The while loop of intsetSearch; the result is (min, mid, cur). *)
Fixpoint intsetSearch_loop (fuel : nat) (is_ : intset) (value min max mid cur : Z)
    : option (Z * Z * Z) :=
  if min <=? max then
    match fuel with
    | O => None
    | S fuel =>
        let mid := Z.shiftr (u32 (u32 min + u32 max)) 1 in
        cur ← _intsetGet is_ mid;
        if cur <? value then intsetSearch_loop fuel is_ value (mid + 1) max mid cur
        else if value <? cur then intsetSearch_loop fuel is_ value min (mid - 1) mid cur
        else Some (min, mid, cur)
    end
  else Some (min, mid, cur).

(** The range of an [int] is halved at each iteration: 32 are enough. *)
Definition intsetSearch_fuel : nat := 32.
Arguments intsetSearch_fuel : simpl never.

Definition intsetSearch (is_ : intset) (value : Z) : option (bool * Z) :=
  let max := s32 (u32 (is_length is_ - 1)) in
  if is_length is_ =? 0 then Some (false, 0)
  else
    last ← _intsetGet is_ max;
    if last <? value then Some (false, is_length is_)
    else
      first ← _intsetGet is_ 0;
      if value <? first then Some (false, 0)
      else
        '(min, mid, cur) ← intsetSearch_loop intsetSearch_fuel is_ value 0 max (-1) (-1);
        if value =? cur then Some (true, mid) else Some (false, min).

(** [while(length--) _intsetSet(is,length+prepend,_intsetGetEncoded(is,length,curenc))] *)
Fixpoint intsetUpgrade_loop (length : nat) (is_ : intset) (prepend curenc : Z)
    : option intset :=
  match length with
  | O => Some is_
  | S length =>
      v ← _intsetGetEncoded is_ (Z.of_nat length) curenc;
      is_ ← _intsetSet is_ (Z.of_nat length + prepend) v;
      intsetUpgrade_loop length is_ prepend curenc
  end.

Definition intsetUpgradeAndAdd `{Allocator} (is_ : intset) (value : Z) : option intset :=
  let curenc := is_encoding is_ in
  let newenc := _intsetValueEncoding value in
  let length := s32 (is_length is_) in
  let prepend := if value <? 0 then 1 else 0 in
  is_ ← intsetResize (mk_intset newenc (is_length is_) (is_contents is_)) (u32 (is_length is_ + 1));
  is_ ← intsetUpgrade_loop (Z.to_nat length) is_ prepend curenc;
  is_ ← (if value <? 0 then _intsetSet is_ 0 value else _intsetSet is_ (is_length is_) value);
  Some (set_length is_ (is_length is_ + 1)).

Definition intsetMoveTail (is_ : intset) (from to : Z) : option intset :=
  let bytes := u32 (is_length is_ - from) in
  let encoding := is_encoding is_ in
  m ← (if encoding =? INTSET_ENC_INT64 then
         memmove (is_contents is_) (to * 8) (from * 8) (u32 (bytes * 8))
       else if encoding =? INTSET_ENC_INT32 then
         memmove (is_contents is_) (to * 4) (from * 4) (u32 (bytes * 4))
       else
         memmove (is_contents is_) (to * 2) (from * 2) (u32 (bytes * 2)));
  Some (set_contents is_ m).

Definition intsetAdd `{Allocator} (is_ : intset) (value : Z) : option (intset * bool) :=
  let valenc := _intsetValueEncoding value in
  if is_encoding is_ <? valenc then
    is_ ← intsetUpgradeAndAdd is_ value; Some (is_, true)
  else
    '(found, pos) ← intsetSearch is_ value;
    if (found : bool) then Some (is_, false)
    else
      is_ ← intsetResize is_ (u32 (is_length is_ + 1));
      is_ ← (if pos <? is_length is_ then intsetMoveTail is_ pos (pos + 1) else Some is_);
      is_ ← _intsetSet is_ pos value;
      Some (set_length is_ (is_length is_ + 1), true).

Definition intsetRemove `{Allocator} (is_ : intset) (value : Z) : option (intset * bool) :=
  let valenc := _intsetValueEncoding value in
  if valenc <=? is_encoding is_ then
    '(found, pos) ← intsetSearch is_ value;
    if (found : bool) then
      let len := is_length is_ in
      is_ ← (if pos <? u32 (len - 1) then intsetMoveTail is_ (pos + 1) pos else Some is_);
      is_ ← intsetResize is_ (u32 (len - 1));
      Some (set_length is_ (len - 1), true)
    else Some (is_, false)
  else Some (is_, false).

Definition intsetFind (is_ : intset) (value : Z) : option bool :=
  let valenc := _intsetValueEncoding value in
  if valenc <=? is_encoding is_ then
    '(found, _) ← intsetSearch is_ value; Some (found : bool)
  else Some false.

(** [rand] is the value returned by rand(). *)
Definition intsetRandom (rand : Z) (is_ : intset) : option Z :=
  let len := is_length is_ in
  if len =? 0 then None else _intsetGet is_ (rand mod len).

(** Some None: the function returns 0 and *value is not set. *)
Definition intsetGet (is_ : intset) (pos : Z) : option (option Z) :=
  if pos <? is_length is_ then v ← _intsetGet is_ pos; Some (Some v) else Some None.

Definition intsetLen (is_ : intset) : Z := is_length is_.

Definition intsetBlobLen (is_ : intset) : Z :=
  sizeof_intset + is_length is_ * is_encoding is_.

(** The blob as the RDB layer sees it: both header fields are little endian. *)
Definition intset_of_blob (p : list Z) : option intset :=
  enc ← mem_load p 0 4;
  len ← mem_load p 4 4;
  Some (mk_intset (le_decode enc) (le_decode len) (drop 8 p)).

Definition blob_of_intset (is_ : intset) : list Z :=
  le_encode 4 (is_encoding is_) ++ le_encode 4 (is_length is_) ++ is_contents is_.

Fixpoint intsetValidate_loop (n : nat) (is_ : intset) (i prev : Z) : option bool :=
  match n with
  | O => Some true
  | S n =>
      cur ← _intsetGet is_ i;
      if cur <=? prev then Some false else intsetValidate_loop n is_ (i + 1) cur
  end.

Definition intsetValidateIntegrity (p : list Z) (size : Z) (deep : bool) : option bool :=
  if size <? sizeof_intset then Some false
  else
    is_ ← intset_of_blob p;
    let encoding := is_encoding is_ in
    if negb ((encoding =? INTSET_ENC_INT64) || (encoding =? INTSET_ENC_INT32)
             || (encoding =? INTSET_ENC_INT16)) then Some false
    else
      let record_size := encoding in
      let count := is_length is_ in
      if negb (sizeof_intset + count * record_size =? size) then Some false
      else if count =? 0 then Some false
      else if negb deep then Some true
      else
        prev ← _intsetGet is_ 0;
        intsetValidate_loop (Z.to_nat (count - 1)) is_ 1 prev.

(** ** Representation *)

Definition enc_ok (e : Z) : Prop := e = 2 \/ e = 4 \/ e = 8.

(** [v] is a value of the [e]-byte signed type. *)
Definition fits (e v : Z) : Prop := - 2 ^ (8 * e - 1) <= v < 2 ^ (8 * e - 1).

(** The bytes of the values of [l], each one on [e] bytes. *)
Definition enc_list (e : Z) (l : list Z) : list Z := l ≫= le_encode (Z.to_nat e).

(** [is_] is a well-formed intset that holds exactly the values of [l], in order. *)
Record is_repr (is_ : intset) (l : list Z) : Prop := {
  repr_enc : enc_ok (is_encoding is_);
  repr_len : is_length is_ = zlen l;
  repr_contents : is_contents is_ = enc_list (is_encoding is_) l;
  repr_fits : Forall (fits (is_encoding is_)) l;
  repr_sorted : StronglySorted Z.lt l;
  repr_small : zlen l < 2 ^ 29;
}.

(** ** Encoded values *)

Lemma enc_ok_pos e : enc_ok e -> 0 < e <= 8.
Proof. unfold enc_ok. lia. Qed.

#[export] Instance enc_ok_dec e : Decision (enc_ok e).
Proof. unfold enc_ok. apply _. Defined.

Lemma enc_test_true e : enc_ok e ->
  (e =? INTSET_ENC_INT64) || (e =? INTSET_ENC_INT32) || (e =? INTSET_ENC_INT16) = true.
Proof. by intros [-> | [-> | ->]]. Qed.

Lemma enc_test_false e : ~ enc_ok e ->
  (e =? INTSET_ENC_INT64) || (e =? INTSET_ENC_INT32) || (e =? INTSET_ENC_INT16) = false.
Proof.
  intros He. unfold enc_ok in He.
  unfold INTSET_ENC_INT64, INTSET_ENC_INT32, INTSET_ENC_INT16. lia.
Qed.

Lemma getEncoded_eq is_ pos e : enc_ok e ->
  _intsetGetEncoded is_ pos e =
    (bs ← mem_load (is_contents is_) (pos * e) e; Some (swrap (8 * e) (le_decode bs))).
Proof. intros [-> | [-> | ->]]; reflexivity. Qed.

Lemma intsetSet_eq is_ pos v : enc_ok (is_encoding is_) ->
  _intsetSet is_ pos v =
    (m ← mem_store (is_contents is_) (pos * is_encoding is_)
           (le_encode (Z.to_nat (is_encoding is_)) v);
     Some (set_contents is_ m)).
Proof. unfold _intsetSet. intros [-> | [-> | ->]]; reflexivity. Qed.

Lemma intsetMoveTail_eq is_ from to : enc_ok (is_encoding is_) ->
  intsetMoveTail is_ from to =
    (m ← memmove (is_contents is_) (to * is_encoding is_) (from * is_encoding is_)
           (u32 (u32 (is_length is_ - from) * is_encoding is_));
     Some (set_contents is_ m)).
Proof. unfold intsetMoveTail. intros [-> | [-> | ->]]; reflexivity. Qed.

Lemma enc_fits_roundtrip e v : enc_ok e -> fits e v ->
  swrap (8 * e) (le_decode (le_encode (Z.to_nat e) v)) = v.
Proof.
  intros He Hv. rewrite le_decode_encode.
  replace (256 ^ Z.of_nat (Z.to_nat e)) with (2 ^ (8 * e)).
  - fold (uwrap (8 * e) v). apply enc_ok_pos in He.
    rewrite swrap_uwrap, swrap_small by lia || done. done.
  - by destruct He as [-> | [-> | ->]].
Qed.

Lemma fits_mono e e' v : enc_ok e -> enc_ok e' -> e <= e' -> fits e v -> fits e' v.
Proof.
  unfold fits. intros He He' Hle.
  destruct He as [-> | [-> | ->]], He' as [-> | [-> | ->]]; eval_pow2; lia.
Qed.

Lemma valueEncoding_ok v : enc_ok (_intsetValueEncoding v).
Proof. unfold _intsetValueEncoding, enc_ok. repeat case_match; auto. Qed.

Lemma valueEncoding_spec v e : is_ll v -> enc_ok e ->
  _intsetValueEncoding v <= e <-> fits e v.
Proof.
  unfold _intsetValueEncoding, fits. intros Hv He.
  unfold_limits.
  destruct He as [-> | [-> | ->]]; eval_pow2;
    unfold INTSET_ENC_INT64, INTSET_ENC_INT32, INTSET_ENC_INT16;
    repeat case_match; lia.
Qed.

Lemma enc_list_app e l k : enc_list e (l ++ k) = enc_list e l ++ enc_list e k.
Proof. unfold enc_list. by rewrite bind_app. Qed.

Lemma enc_list_cons e v l : enc_list e (v :: l) = le_encode (Z.to_nat e) v ++ enc_list e l.
Proof. done. Qed.

Lemma zlen_le_encode e v : 0 <= e -> zlen (le_encode (Z.to_nat e) v) = e.
Proof. intros. unfold zlen. rewrite length_le_encode. lia. Qed.

Lemma zlen_enc_list e l : 0 <= e -> zlen (enc_list e l) = zlen l * e.
Proof.
  intros He. induction l as [|v l IH]; [done|].
  rewrite enc_list_cons, zlen_app, zlen_le_encode, zlen_cons by done. lia.
Qed.

Lemma enc_list_bytes e l : bytes_ok (enc_list e l).
Proof.
  induction l as [|v l IH]; [constructor|]. rewrite enc_list_cons.
  apply Forall_app. split; [apply le_encode_bytes | done].
Qed.

Lemma enc_list_inj e l l' : enc_ok e -> Forall (fits e) l -> Forall (fits e) l' ->
  enc_list e l = enc_list e l' -> l = l'.
Proof.
  intros He Hf. revert l'. pose proof (enc_ok_pos e He).
  assert (forall v k, enc_list e (v :: k) <> []) as Hne.
  { intros v k Hk. apply (f_equal zlen) in Hk.
    rewrite zlen_enc_list, zlen_cons, zlen_nil in Hk by lia. pose proof (zlen_nonneg k). nia. }
  induction Hf as [|v l Hv _ IH]; intros l' Hf' Heq; destruct Hf' as [|v' l' Hv' Hf']; try done.
  { symmetry in Heq. by apply Hne in Heq. }
  { by apply Hne in Heq. }
  rewrite !enc_list_cons in Heq. apply app_inj_1 in Heq as [H1 H2]; [|by rewrite !length_le_encode].
  f_equal; [|by apply IH].
  rewrite <- (enc_fits_roundtrip e v), <- (enc_fits_roundtrip e v') by done. by rewrite H1.
Qed.

(** Reading the value that follows the encoding of [l1]. *)
Lemma getEncoded_mid is_ e l1 v tl pos :
  enc_ok e -> fits e v -> pos = zlen l1 ->
  is_contents is_ = enc_list e l1 ++ le_encode (Z.to_nat e) v ++ tl ->
  _intsetGetEncoded is_ pos e = Some v.
Proof.
  intros He Hv -> Hm. pose proof (enc_ok_pos e He).
  rewrite getEncoded_eq, Hm by done. rewrite mem_load_mid.
  - simpl. by rewrite enc_fits_roundtrip.
  - rewrite zlen_enc_list; lia.
  - rewrite zlen_le_encode; lia.
Qed.

(** Writing over the [e] bytes that follow [a]. *)
Lemma intsetSet_mid is_ a b c v pos :
  enc_ok (is_encoding is_) ->
  is_contents is_ = a ++ b ++ c ->
  zlen a = pos * is_encoding is_ -> zlen b = is_encoding is_ ->
  _intsetSet is_ pos v =
    Some (set_contents is_ (a ++ le_encode (Z.to_nat (is_encoding is_)) v ++ c)).
Proof.
  intros He Hm Ha Hb. rewrite intsetSet_eq, Hm by done.
  rewrite mem_store_mid; [done | lia |].
  rewrite length_le_encode. unfold zlen in Hb. lia.
Qed.

Lemma intsetGet_lookup is_ l i v :
  is_repr is_ l -> l !! i = Some v -> _intsetGet is_ (Z.of_nat i) = Some v.
Proof.
  intros H Hi. pose proof (repr_fits _ _ H) as Hf. rewrite Forall_forall in Hf.
  assert (l = take i l ++ v :: drop (S i) l) as Hl by (symmetry; by apply take_drop_middle).
  eapply getEncoded_mid with (l1 := take i l) (tl := enc_list (is_encoding is_) (drop (S i) l)).
  - apply H.
  - apply Hf. by apply list_elem_of_lookup_2 with i.
  - unfold zlen. rewrite length_take. apply lookup_lt_Some in Hi. lia.
  - rewrite (repr_contents _ _ H). rewrite Hl at 1. by rewrite enc_list_app, enc_list_cons.
Qed.

(** ** Binary search *)

(** [pos] splits [l] into what is below and what is above [value]. *)
Definition splits_at (l : list Z) (value pos : Z) : Prop :=
  0 <= pos <= zlen l /\
  (forall i x, l !! i = Some x -> Z.of_nat i < pos -> x < value) /\
  (forall i x, l !! i = Some x -> pos <= Z.of_nat i -> value < x).

Lemma sorted_lookup_lt (l : list Z) i j x y :
  StronglySorted Z.lt l -> l !! i = Some x -> l !! j = Some y -> (i < j)%nat -> x < y.
Proof.
  intros Hs. revert i j. induction Hs as [|a l _ IH Ha]; intros i j Hi Hj Hij; [done|].
  destruct j as [|j]; [lia|]. destruct i as [|i]; simpl in *.
  - injection Hi as ->. rewrite Forall_forall in Ha. apply Ha.
    by apply list_elem_of_lookup_2 with j.
  - apply IH with i j; auto; lia.
Qed.

Lemma sorted_lookup_le (l : list Z) i j x y :
  StronglySorted Z.lt l -> l !! i = Some x -> l !! j = Some y -> (i <= j)%nat -> x <= y.
Proof.
  intros Hs Hi Hj Hij. destruct (decide (i = j)) as [->|].
  - simplify_eq. lia.
  - assert (x < y) by (eapply sorted_lookup_lt; eauto; lia). lia.
Qed.

Lemma mid_shiftr min max : 0 <= min <= max -> max < 2 ^ 29 ->
  Z.shiftr (u32 (u32 min + u32 max)) 1 = (min + max) / 2.
Proof.
  intros H1 H2. rewrite Z.shiftr_div_pow2 by lia. eval_pow2.
  rewrite (uwrap_small 32 min), (uwrap_small 32 max) by (eval_pow2; lia).
  rewrite uwrap_small by (eval_pow2; lia). done.
Qed.

(** What is known between iterations: the value is neither before [min] nor after [max]. *)
Definition search_inv (l : list Z) (value min max : Z) : Prop :=
  0 <= min <= max + 1 /\ max < zlen l /\
  (forall i x, l !! i = Some x -> Z.of_nat i < min -> x < value) /\
  (forall i x, l !! i = Some x -> max < Z.of_nat i -> value < x).

Lemma search_inv_exit l value min max :
  search_inv l value min max -> max < min -> splits_at l value min.
Proof.
  intros (? & ? & Hlo & Hhi) ?. split_and!; [lia | lia | done |].
  intros i x Hi ?. apply (Hhi i); [done | lia].
Qed.

Lemma search_inv_right l value min max mid cur :
  StronglySorted Z.lt l -> search_inv l value min max -> min <= mid <= max ->
  l !! Z.to_nat mid = Some cur -> cur < value -> search_inv l value (mid + 1) max.
Proof.
  intros Hs (? & ? & Hlo & Hhi) Hmid Hcur Hlt. split_and!; [lia.. | | done].
  intros i x Hi ?. assert (x <= cur); [|lia].
  eapply sorted_lookup_le; [done | apply Hi | apply Hcur | lia].
Qed.

Lemma search_inv_left l value min max mid cur :
  StronglySorted Z.lt l -> search_inv l value min max -> min <= mid <= max ->
  l !! Z.to_nat mid = Some cur -> value < cur -> search_inv l value min (mid - 1).
Proof.
  intros Hs (? & ? & Hlo & Hhi) Hmid Hcur Hlt. split_and!; [lia.. | done |].
  intros i x Hi ?. assert (cur <= x); [|lia].
  eapply sorted_lookup_le; [done | apply Hcur | apply Hi | lia].
Qed.

(** The loop ends within [fuel] iterations as soon as the range is below [2 ^ fuel],
    and it ends either on the value or on the position where it would be inserted. *)
Lemma search_loop_spec fuel is_ l value min max mid cur :
  is_repr is_ l -> search_inv l value min max -> max - min + 1 < 2 ^ Z.of_nat fuel ->
  (min <= max \/ cur <> value) ->
  exists min' mid' cur',
    intsetSearch_loop fuel is_ value min max mid cur = Some (min', mid', cur') /\
    (if value =? cur' then 0 <= mid' /\ l !! Z.to_nat mid' = Some value
     else splits_at l value min').
Proof.
  intros Hr. pose proof (repr_sorted _ _ Hr) as Hs. pose proof (repr_small _ _ Hr) as Hsmall.
  revert min max mid cur.
  induction fuel as [|fuel IH]; intros min max mid cur Hinv Hfuel Hcur; simpl;
    destruct (Z.leb_spec min max) as [Hle|Hgt].
  2,4: do 3 eexists; split; [done|]; rewrite (proj2 (Z.eqb_neq value cur)) by lia;
    eapply search_inv_exit; [done | lia].
  - simpl in Hfuel. lia.
  - pose proof Hinv as (Hmin & Hmax & _).
    rewrite mid_shiftr by lia. set (m := (min + max) / 2).
    pose proof (Z.div_mod (min + max) 2). pose proof (Z.mod_pos_bound (min + max) 2).
    assert (min <= m <= max) as Hmid by lia.
    destruct (lookup_Z l m) as [c Hc]; [lia|].
    pose proof (intsetGet_lookup _ _ _ _ Hr Hc) as Hget. rewrite Z2Nat.id in Hget by lia.
    rewrite Hget. simpl.
    rewrite Nat2Z.inj_succ, Z.pow_succ_r in Hfuel by lia.
    destruct (Z.ltb_spec c value) as [Hlt|Hge]; [|destruct (Z.ltb_spec value c) as [Hlt|Hge']].
    + apply IH; [by eapply search_inv_right | lia | lia].
    + apply IH; [by eapply search_inv_left | lia | lia].
    + do 3 eexists. split; [done|].
      rewrite (proj2 (Z.eqb_eq value c)) by lia. replace value with c by lia. split; [lia|done].
Qed.

Lemma repr_get_last is_ l : is_repr is_ l -> l <> [] ->
  exists x, l !! Z.to_nat (zlen l - 1) = Some x /\ _intsetGet is_ (zlen l - 1) = Some x.
Proof.
  intros Hr Hne. assert (0 < zlen l) by (destruct l; [done | rewrite zlen_cons; pose proof (zlen_nonneg l); lia]).
  destruct (lookup_Z l (zlen l - 1)) as [x Hx]; [lia|]. exists x. split; [done|].
  rewrite <- (intsetGet_lookup _ _ _ _ Hr Hx). f_equal. lia.
Qed.

Lemma intsetSearch_spec is_ l value : is_repr is_ l ->
  exists found pos, intsetSearch is_ value = Some (found, pos) /\
    (if (found : bool) then 0 <= pos /\ l !! Z.to_nat pos = Some value
     else splits_at l value pos).
Proof.
  intros Hr. pose proof (repr_sorted _ _ Hr) as Hs. pose proof (repr_small _ _ Hr) as Hsm.
  unfold intsetSearch. rewrite (repr_len _ _ Hr).
  destruct (Z.eqb_spec (zlen l) 0) as [H0|H0].
  { destruct l; [|rewrite zlen_cons in H0; pose proof (zlen_nonneg l); lia].
    do 2 eexists. split; [done|]. unfold splits_at. simpl. split_and!; done. }
  pose proof (zlen_nonneg l).
  assert (s32 (u32 (zlen l - 1)) = zlen l - 1) as ->.
  { eval_pow2. rewrite uwrap_small, swrap_small; eval_pow2; lia. }
  destruct (repr_get_last _ _ Hr) as (last & Hlast & ->); [by intros ->|]. simpl_bind.
  destruct (Z.ltb_spec last value).
  { do 2 eexists. split; [done|]. split_and!; [lia | lia | |].
    - intros i x Hi _. assert (x <= last); [|lia]. apply lookup_lt_Some in Hi as ?.
      eapply sorted_lookup_le; eauto. unfold zlen in *. lia.
    - intros i x Hi ?. apply lookup_lt_Some in Hi. unfold zlen in *. lia. }
  destruct (lookup_Z l 0) as [first Hfirst]; [lia|].
  pose proof (intsetGet_lookup _ _ _ _ Hr Hfirst) as Hget. change (Z.of_nat _) with 0 in Hget.
  rewrite Hget. simpl_bind.
  destruct (Z.ltb_spec value first).
  { do 2 eexists. split; [done|]. split_and!; [lia | lia | lia |].
    intros i x Hi ?. assert (first <= x); [|lia].
    eapply sorted_lookup_le; eauto. lia. }
  destruct (search_loop_spec intsetSearch_fuel is_ l value 0 (zlen l - 1) (-1) (-1))
    as (min & mid & cur & -> & Hres); [done | | | lia |].
  - split_and!; [lia | lia | lia | lia |].
    intros i x Hi ?. apply lookup_lt_Some in Hi. unfold zlen in *. lia.
  - unfold intsetSearch_fuel. eval_pow2. lia.
  - simpl_bind. destruct (value =? cur); do 2 eexists; (split; [done|]); simpl; done.
Qed.

(** ** Insertion *)

Lemma splits_at_not_elem l value pos : splits_at l value pos -> value ∉ l.
Proof.
  intros (_ & Hlo & Hhi) Hin. apply list_elem_of_lookup in Hin as [i Hi].
  destruct (decide (Z.of_nat i < pos)) as [|].
  - specialize (Hlo _ _ Hi). lia.
  - specialize (Hhi _ _ Hi). lia.
Qed.

Lemma splits_at_sorted l value pos :
  StronglySorted Z.lt l -> splits_at l value pos ->
  StronglySorted Z.lt (take (Z.to_nat pos) l ++ value :: drop (Z.to_nat pos) l).
Proof.
  intros Hs (Hpos & Hlo & Hhi).
  rewrite <- (take_drop (Z.to_nat pos) l) in Hs.
  apply StronglySorted_app in Hs as (Hcross & Hs1 & Hs2).
  apply StronglySorted_app. split_and!; [| done |].
  - intros x y Hx [->|Hy]%elem_of_cons; [|by apply Hcross].
    apply list_elem_of_lookup in Hx as [i Hi]. apply lookup_take_Some in Hi as [Hi Hlt].
    apply (Hlo i); [done|lia].
  - constructor; [done|]. apply Forall_forall. intros y Hy.
    apply list_elem_of_lookup in Hy as [i Hi]. rewrite lookup_drop in Hi.
    apply (Hhi _ _ Hi). lia.
Qed.

Lemma intsetResize_grow `{Allocator} is_ (l : list Z) :
  enc_ok (is_encoding is_) -> zlen l + 1 < 2 ^ 29 ->
  zlen (is_contents is_) <= (zlen l + 1) * is_encoding is_ ->
  exists tl, intsetResize is_ (u32 (zlen l + 1))
             = Some (set_contents is_ (is_contents is_ ++ tl)) /\
    zlen tl = (zlen l + 1) * is_encoding is_ - zlen (is_contents is_).
Proof.
  intros He Hsm Hle. pose proof (enc_ok_pos _ He). pose proof (zlen_nonneg l).
  unfold intsetResize. eval_pow2.
  rewrite (uwrap_small 32) by (eval_pow2; lia).
  rewrite (uwrap_small 64) by (eval_pow2; nia).
  destruct (zrealloc_grow (is_contents is_) ((zlen l + 1) * is_encoding is_))
    as (tl & -> & _ & Htl); [done|].
  exists tl. split; [|done]. rewrite bool_decide_true; [done|].
  unfold SIZE_MAX, sizeof_intset. nia.
Qed.

Lemma intsetMoveTail_gap is_ l1 l2 tl :
  enc_ok (is_encoding is_) -> is_length is_ = zlen l1 + zlen l2 -> zlen l1 + zlen l2 < 2 ^ 29 ->
  is_contents is_ = enc_list (is_encoding is_) l1 ++ enc_list (is_encoding is_) l2 ++ tl ->
  zlen tl = is_encoding is_ ->
  exists x, intsetMoveTail is_ (zlen l1) (zlen l1 + 1)
    = Some (set_contents is_ (enc_list (is_encoding is_) l1 ++ x ++ enc_list (is_encoding is_) l2)) /\
    zlen x = is_encoding is_.
Proof.
  intros He Hlen Hsm Hm Htl. pose proof (enc_ok_pos _ He).
  pose proof (zlen_nonneg l1). pose proof (zlen_nonneg l2).
  set (e := is_encoding is_) in *.
  destruct (split_at_len (enc_list e l2 ++ tl) e) as (x & y & Hxy & Hx & Hy).
  { rewrite zlen_app, zlen_enc_list by lia. nia. }
  rewrite zlen_app, zlen_enc_list in Hy by lia.
  exists x. split; [|done]. rewrite intsetMoveTail_eq by done. fold e. rewrite Hlen.
  replace (zlen l1 + zlen l2 - zlen l1) with (zlen l2) by lia.
  eval_pow2. rewrite (uwrap_small 32 (zlen l2)), uwrap_small by (eval_pow2; nia).
  unfold memmove. rewrite Hm.
  rewrite mem_load_mid by (rewrite zlen_enc_list by lia; lia).
  simpl_bind.
  assert (enc_list e l1 ++ enc_list e l2 ++ tl = (enc_list e l1 ++ x) ++ y ++ []) as ->.
  { by rewrite Hxy, app_nil_r, app_assoc. }
  rewrite mem_store_mid.
  - simpl_bind. by rewrite app_nil_r, <- app_assoc.
  - rewrite zlen_app, zlen_enc_list by lia. lia.
  - apply Nat2Z.inj. fold (zlen (enc_list e l2)) (zlen y). rewrite zlen_enc_list; lia.
Qed.

Lemma add_repr is_ l1 l2 value :
  enc_ok (is_encoding is_) -> is_length is_ = zlen (l1 ++ l2) ->
  zlen (l1 ++ l2) + 1 < 2 ^ 29 ->
  Forall (fits (is_encoding is_)) (l1 ++ l2) -> fits (is_encoding is_) value ->
  StronglySorted Z.lt (l1 ++ value :: l2) ->
  is_contents is_ = enc_list (is_encoding is_) (l1 ++ value :: l2) ->
  is_repr (set_length is_ (is_length is_ + 1)) (l1 ++ value :: l2).
Proof.
  intros He Hlen Hsm Hf Hv Hs Hm. pose proof (zlen_nonneg (l1 ++ l2)).
  assert (zlen (l1 ++ value :: l2) = zlen (l1 ++ l2) + 1) as Hlen'.
  { rewrite !zlen_app, zlen_cons. lia. }
  split; simpl; try done.
  - rewrite Hlen, Hlen'. eval_pow2. apply uwrap_small. eval_pow2. lia.
  - apply Forall_app in Hf as [? ?]. apply Forall_app. split; [done|]. by constructor.
  - lia.
Qed.

(** The branch of intsetAdd that does not change the encoding. *)
Lemma intsetAdd_no_upgrade `{Allocator} is_ l value :
  is_repr is_ l -> is_ll value -> zlen l + 1 < 2 ^ 29 ->
  _intsetValueEncoding value <= is_encoding is_ ->
  exists is' success l', intsetAdd is_ value = Some (is', success) /\
    is_repr is' l' /\ (success = true <-> value ∉ l) /\
    (forall x, x ∈ l' <-> x = value \/ x ∈ l).
Proof.
  intros Hr Hv Hsm Henc. pose proof (repr_enc _ _ Hr) as He. pose proof (enc_ok_pos _ He).
  apply valueEncoding_spec in Henc as Hfit; [|done..].
  unfold intsetAdd. rewrite (proj2 (Z.ltb_ge _ _)) by lia.
  destruct (intsetSearch_spec is_ l value Hr) as (found & pos & -> & Hpos). simpl_bind.
  destruct found.
  { destruct Hpos as [_ Hpos]. apply list_elem_of_lookup_2 in Hpos.
    exists is_, false, l. split_and!; [done | done | by split | set_solver]. }
  pose proof (splits_at_not_elem _ _ _ Hpos) as Hnin.
  pose proof (splits_at_sorted _ _ _ (repr_sorted _ _ Hr) Hpos) as Hs'.
  destruct Hpos as (Hpos & _). set (l1 := take (Z.to_nat pos) l) in *.
  set (l2 := drop (Z.to_nat pos) l) in *.
  assert (l = l1 ++ l2) as Hl by (symmetry; apply take_drop).
  assert (zlen l1 = pos) as Hl1 by (unfold l1, zlen in *; rewrite length_take; lia).
  assert (zlen l = zlen l1 + zlen l2) as Hll by (rewrite Hl, zlen_app; done).
  rewrite (repr_len _ _ Hr).
  destruct (intsetResize_grow is_ l) as (tl & -> & Htl);
    [done | done | rewrite (repr_contents _ _ Hr), zlen_enc_list; lia |].
  rewrite (repr_contents _ _ Hr), zlen_enc_list in Htl by lia.
  simpl_bind. cbn [is_length set_contents]. rewrite (repr_len _ _ Hr).
  assert (exists x, (if pos <? zlen l then
      intsetMoveTail (set_contents is_ (is_contents is_ ++ tl)) pos (pos + 1)
      else Some (set_contents is_ (is_contents is_ ++ tl)))
    = Some (set_contents is_ (enc_list (is_encoding is_) l1 ++ x ++ enc_list (is_encoding is_) l2))
      /\ zlen x = is_encoding is_) as (x & -> & Hx).
  { rewrite (repr_contents _ _ Hr), Hl, enc_list_app, <- app_assoc, <- Hl.
    destruct (Z.ltb_spec pos (zlen l)).
    - rewrite <- Hl1.
      destruct (intsetMoveTail_gap (set_contents is_ (enc_list (is_encoding is_) l1 ++
        enc_list (is_encoding is_) l2 ++ tl)) l1 l2 tl) as (x & -> & Hx); simpl; try done.
      + rewrite (repr_len _ _ Hr). done.
      + lia.
      + lia.
      + by exists x.
    - pose proof (zlen_nonneg l2).
      assert (l2 = []) as -> by (apply length_zero_iff_nil; unfold zlen in *; lia).
      exists tl. split; [by rewrite app_nil_r | lia]. }
  simpl_bind.
  erewrite intsetSet_mid; [ | done | cbn [is_contents set_contents]; done | | done].
  2: { cbn [is_encoding set_contents]. rewrite zlen_enc_list by lia. lia. }
  simpl_bind. do 2 eexists. exists (l1 ++ value :: l2). split; [done|]. split_and!.
  - apply add_repr; cbn [is_encoding is_length is_contents set_contents]; rewrite <- ?Hl; try apply Hr; try done.
    by rewrite enc_list_app, enc_list_cons.
  - done.
  - rewrite Hl. set_solver.
Qed.

(** ** Insertion with an upgrade of the encoding *)

(** The block during the upgrade, [k] values still to be moved: they are encoded
    on [e] bytes at the front, the others on [e'] bytes at their final place. *)
Definition upgrade_state (e e' p : Z) (l : list Z) (k : nat) (m : list Z) : Prop :=
  exists x y, m = enc_list e (take k l) ++ x ++ enc_list e' (drop k l) ++ y /\
    zlen x = (Z.of_nat k + p) * e' - Z.of_nat k * e /\ zlen y = (1 - p) * e'.

Lemma upgrade_step e p l k v is_ :
  enc_ok e -> enc_ok (is_encoding is_) -> e < is_encoding is_ -> 0 <= p <= 1 ->
  l !! k = Some v -> fits e v ->
  upgrade_state e (is_encoding is_) p l (S k) (is_contents is_) ->
  exists m', _intsetGetEncoded is_ (Z.of_nat k) e = Some v /\
    _intsetSet is_ (Z.of_nat k + p) v = Some (set_contents is_ m') /\
    upgrade_state e (is_encoding is_) p l k m'.
Proof.
  set (e' := is_encoding is_). intros He He' Hlt Hp Hk Hv (x & y & Hm & Hx & Hy).
  pose proof (enc_ok_pos _ He). pose proof (enc_ok_pos _ He').
  rewrite (take_S_r _ _ _ Hk), enc_list_app in Hm. change (enc_list e [v]) with (le_encode (Z.to_nat e) v ++ []) in Hm.
  rewrite app_nil_r in Hm.
  assert (zlen (take k l) = Z.of_nat k) as Hkl.
  { apply lookup_lt_Some in Hk. unfold zlen. rewrite length_take. lia. }
  assert (drop k l = v :: drop (S k) l) as Hd by (by apply drop_S).
  destruct (split_at_len (le_encode (Z.to_nat e) v ++ x) ((Z.of_nat k + p) * e' - Z.of_nat k * e))
    as (z1 & z2 & Hz & Hz1 & Hz2).
  { rewrite zlen_app, zlen_le_encode by lia. rewrite Hx. nia. }
  rewrite zlen_app, zlen_le_encode, Hx in Hz2 by lia.
  exists (enc_list e (take k l) ++ z1 ++ enc_list e' (drop k l) ++ y). split_and!.
  - eapply getEncoded_mid with (l1 := take k l); [done | done | done |].
    rewrite Hm, <- app_assoc. done.
  - erewrite intsetSet_mid with (a := enc_list e (take k l) ++ z1) (b := z2)
      (c := enc_list e' (drop (S k) l) ++ y); [| done | | | ].
    + rewrite Hd, enc_list_cons, <- !app_assoc. done.
    + rewrite Hm, <- !app_assoc. f_equal. rewrite (app_assoc _ x), Hz. by rewrite <- app_assoc.
    + rewrite zlen_app, zlen_enc_list, Hkl, Hz1 by lia. fold e'. lia.
    + fold e'. lia.
  - exists z1, y. split_and!; [done | lia | done].
Qed.

Lemma upgrade_loop_spec e p l k is_ :
  enc_ok e -> enc_ok (is_encoding is_) -> e < is_encoding is_ -> 0 <= p <= 1 ->
  Forall (fits e) l -> (k <= length l)%nat ->
  upgrade_state e (is_encoding is_) p l k (is_contents is_) ->
  exists m', intsetUpgrade_loop k is_ p e = Some (set_contents is_ m') /\
    upgrade_state e (is_encoding is_) p l 0 m'.
Proof.
  intros He He' Hlt Hp Hf. revert is_ He' Hlt.
  induction k as [|k IH]; intros is_ He' Hlt Hk Hst; cbn [intsetUpgrade_loop].
  - exists (is_contents is_). destruct is_. done.
  - destruct (lookup_lt_is_Some_2 l k) as [v Hv]; [lia|].
    assert (fits e v) as Hfv.
    { rewrite Forall_forall in Hf. apply Hf. by apply list_elem_of_lookup_2 with k. }
    destruct (upgrade_step e p l k v is_) as (m' & -> & Hset & Hst'); try done.
    simpl_bind. rewrite Hset. simpl_bind.
    destruct (IH (set_contents is_ m')) as (m'' & -> & Hst''); [done | done | lia | done |].
    exists m''. done.
Qed.

(** A value outside the range of an encoding is beyond every value inside it. *)
Lemma outside_beyond e v l : enc_ok e -> ~ fits e v -> Forall (fits e) l ->
  (v < 0 -> Forall (fun x => v < x) l) /\ (0 <= v -> Forall (fun x => x < v) l).
Proof.
  intros He Hv Hf. unfold fits in *.
  assert (0 < 2 ^ (8 * e - 1)) by (apply Z.pow_pos_nonneg; unfold enc_ok in He; lia).
  split; intros; eapply Forall_impl; try done; intros x; simpl; lia.
Qed.

Lemma intsetUpgradeAndAdd_spec `{Allocator} is_ l value :
  is_repr is_ l -> is_ll value -> zlen l + 1 < 2 ^ 29 ->
  is_encoding is_ < _intsetValueEncoding value ->
  exists is', intsetUpgradeAndAdd is_ value = Some is' /\
    is_repr is' (if value <? 0 then value :: l else l ++ [value]).
Proof.
  intros Hr Hv Hsm Hlt. pose proof (repr_enc _ _ Hr) as He. pose proof (enc_ok_pos _ He).
  pose proof (valueEncoding_ok value) as He'. pose proof (zlen_nonneg l).
  set (e := is_encoding is_) in *. set (e' := _intsetValueEncoding value) in *.
  pose proof (enc_ok_pos _ He').
  assert (fits e' value) as Hfit by (apply valueEncoding_spec; [done | done | unfold e'; lia]).
  assert (~ fits e value) as Hnfit.
  { intros Hf%valueEncoding_spec; [unfold e' in *; lia | done..]. }
  destruct (outside_beyond e value l He Hnfit (repr_fits _ _ Hr)) as [Hneg Hpos].
  unfold intsetUpgradeAndAdd. fold e e'.
  rewrite (repr_len _ _ Hr).
  destruct (intsetResize_grow (mk_intset e' (zlen l) (is_contents is_)) l)
    as (tl & -> & Htl); simpl; [done | done | |].
  { rewrite (repr_contents _ _ Hr), zlen_enc_list by lia. fold e. nia. }
  cbn [is_encoding is_contents] in Htl. simpl_bind.
  rewrite (repr_contents _ _ Hr), zlen_enc_list in Htl by lia. fold e in Htl.
  rewrite (repr_contents _ _ Hr). fold e.
  assert (Z.to_nat (s32 (zlen l)) = length l) as ->.
  { rewrite swrap_small by (eval_pow2; lia). unfold zlen. lia. }
  set (p := if value <? 0 then 1 else 0).
  assert (0 <= p <= 1) as Hp by (unfold p; case_match; lia).
  destruct (split_at_len tl ((zlen l + p) * e' - zlen l * e)) as (x & y & -> & Hx & Hy); [nia|].
  destruct (upgrade_loop_spec e p l (length l)
    (set_contents (mk_intset e' (zlen l) (enc_list e l)) (enc_list e l ++ x ++ y)))
    as (m' & -> & (x' & y' & -> & Hx' & Hy')); cbn [is_encoding set_contents is_contents]; try done.
  { apply Hr. }
  { exists x, y. rewrite take_ge, drop_ge by lia. unfold zlen in *. split_and!; [done | lia | nia]. }
  simpl_bind. cbn [take drop enc_list app is_length set_contents is_encoding].
  change (enc_list e []) with (@nil Z). rewrite app_nil_l.
  assert (Forall (fits e') l) as Hf'.
  { eapply Forall_impl; [apply (repr_fits _ _ Hr)|]. intros z. apply fits_mono; auto. lia. }
  pose proof (repr_sorted _ _ Hr) as Hs.
  unfold p in *. destruct (Z.ltb_spec value 0).
  - erewrite intsetSet_mid with (a := []) (b := x'); [| done | done | done | simpl in *; lia].
    simpl_bind. eexists. split; [done|].
    apply (add_repr _ [] l value); simpl; try done.
    + constructor; [done | auto].
    + by assert (y' = []) as -> by (apply length_zero_iff_nil; unfold zlen in *; lia); rewrite app_nil_r.
  - assert (x' = []) as -> by (apply length_zero_iff_nil; unfold zlen in *; lia).
    erewrite intsetSet_mid with (a := enc_list e' l) (b := y') (c := []); [| done | | | simpl in *; lia].
    + simpl_bind. eexists. split; [done|].
      apply (add_repr _ l [] value); simpl; rewrite ?app_nil_r; try done.
      * apply StronglySorted_app. split_and!; [| done | repeat constructor].
        intros a b Ha ->%list_elem_of_singleton. specialize (Hpos ltac:(lia)).
        rewrite Forall_forall in Hpos. auto.
      * by rewrite enc_list_app, enc_list_cons, app_nil_r.
    + cbn [is_contents set_contents]. by rewrite app_nil_r.
    + rewrite zlen_enc_list by lia. done.
Qed.

(** ** Removal *)

Lemma intsetMoveTail_close is_ l1 v l2 :
  is_repr is_ (l1 ++ v :: l2) ->
  exists tl, intsetMoveTail is_ (zlen l1 + 1) (zlen l1)
    = Some (set_contents is_ (enc_list (is_encoding is_) (l1 ++ l2) ++ tl)) /\
    zlen tl = is_encoding is_.
Proof.
  intros Hr. pose proof (repr_enc _ _ Hr) as He. pose proof (enc_ok_pos _ He).
  pose proof (repr_small _ _ Hr) as Hsm. rewrite zlen_app, zlen_cons in Hsm.
  pose proof (zlen_nonneg l1). pose proof (zlen_nonneg l2).
  set (e := is_encoding is_) in *.
  rewrite intsetMoveTail_eq by done. fold e.
  rewrite (repr_len _ _ Hr), (repr_contents _ _ Hr), zlen_app, zlen_cons. fold e.
  replace (zlen l1 + (1 + zlen l2) - (zlen l1 + 1)) with (zlen l2) by lia.
  eval_pow2. rewrite (uwrap_small 32 (zlen l2)), uwrap_small by (eval_pow2; nia).
  rewrite enc_list_app, enc_list_cons. unfold memmove.
  assert (mem_load (enc_list e l1 ++ le_encode (Z.to_nat e) v ++ enc_list e l2)
            ((zlen l1 + 1) * e) (zlen l2 * e) = Some (enc_list e l2)) as ->.
  { rewrite app_assoc, <- (app_nil_r (enc_list e l2)) at 1. apply mem_load_mid.
    - rewrite zlen_app, zlen_enc_list, zlen_le_encode; lia.
    - rewrite zlen_enc_list; lia. }
  simpl_bind.
  destruct (split_at_len (le_encode (Z.to_nat e) v ++ enc_list e l2) (zlen l2 * e))
    as (x & y & Hxy & Hx & Hy).
  { rewrite zlen_app, zlen_enc_list, zlen_le_encode; nia. }
  rewrite zlen_app, zlen_enc_list, zlen_le_encode in Hy by lia.
  rewrite Hxy. rewrite mem_store_mid; cycle 1.
  { rewrite zlen_enc_list; lia. }
  { apply Nat2Z.inj. fold (zlen (enc_list e l2)) (zlen x). rewrite zlen_enc_list; lia. }
  simpl_bind. exists y. split; [|lia]. by rewrite enc_list_app, <- app_assoc.
Qed.

Lemma intsetResize_shrink `{Allocator} is_ a b n :
  enc_ok (is_encoding is_) -> is_contents is_ = a ++ b -> 0 <= n < 2 ^ 29 ->
  zlen a = n * is_encoding is_ ->
  intsetResize is_ (u32 n) = Some (set_contents is_ a).
Proof.
  intros He Hm Hn Ha. pose proof (enc_ok_pos _ He). unfold intsetResize. eval_pow2.
  rewrite (uwrap_small 32) by (eval_pow2; lia). rewrite (uwrap_small 64) by (eval_pow2; nia).
  rewrite Hm, zrealloc_shrink by done. rewrite bool_decide_true; [done|].
  unfold SIZE_MAX, sizeof_intset. nia.
Qed.

Lemma sorted_remove_mid (l1 l2 : list Z) v :
  StronglySorted Z.lt (l1 ++ v :: l2) ->
  StronglySorted Z.lt (l1 ++ l2) /\ v ∉ l1 ++ l2.
Proof.
  rewrite !StronglySorted_app, StronglySorted_cons, Forall_forall.
  intros (Hc & Hs1 & Hf & Hs2). split_and!; [| done | done |].
  - intros x y Hx Hy. apply Hc; [done|]. by apply elem_of_cons; right.
  - rewrite elem_of_app. intros [Hin|Hin].
    + specialize (Hc v v Hin). lia || (assert (v < v) by (apply Hc; by left); lia).
    + specialize (Hf v Hin). lia.
Qed.

Lemma remove_found `{Allocator} is_ l1 v l2 :
  is_repr is_ (l1 ++ v :: l2) ->
  exists is', (is1 ← (if zlen l1 <? u32 (is_length is_ - 1)
                      then intsetMoveTail is_ (zlen l1 + 1) (zlen l1) else Some is_);
               is2 ← intsetResize is1 (u32 (is_length is_ - 1));
               Some (set_length is2 (is_length is_ - 1), true)) = Some (is', true) /\
    is_repr is' (l1 ++ l2).
Proof.
  intros Hr. pose proof (repr_enc _ _ Hr) as He. pose proof (enc_ok_pos _ He).
  pose proof (repr_small _ _ Hr) as Hsm. pose proof (repr_len _ _ Hr) as Hlen.
  rewrite zlen_app, zlen_cons in Hsm, Hlen.
  pose proof (zlen_nonneg l1). pose proof (zlen_nonneg l2).
  assert (exists tl, (if zlen l1 <? u32 (is_length is_ - 1)
      then intsetMoveTail is_ (zlen l1 + 1) (zlen l1) else Some is_)
    = Some (set_contents is_ (enc_list (is_encoding is_) (l1 ++ l2) ++ tl))) as (tl & ->).
  { rewrite Hlen. eval_pow2. rewrite uwrap_small by (eval_pow2; lia).
    destruct (Z.ltb_spec (zlen l1) (zlen l1 + (1 + zlen l2) - 1)).
    - destruct (intsetMoveTail_close _ _ _ _ Hr) as (tl & -> & _). by exists tl.
    - assert (l2 = []) as -> by (apply length_zero_iff_nil; unfold zlen in *; lia).
      exists (le_encode (Z.to_nat (is_encoding is_)) v). destruct is_ as [e n m]. simpl in *.
      unfold set_contents. simpl. do 2 f_equal.
      pose proof (repr_contents _ _ Hr) as Hm. simpl in Hm. rewrite Hm. by rewrite enc_list_app, enc_list_cons, !app_nil_r. }
  simpl_bind. cbn [is_length set_contents].
  erewrite intsetResize_shrink; [| done | done | |].
  - simpl_bind. eexists. split; [done|].
    destruct (sorted_remove_mid _ _ _ (repr_sorted _ _ Hr)).
    split; simpl; rewrite ?zlen_app; try done.
    + rewrite Hlen. eval_pow2. rewrite uwrap_small; eval_pow2; lia.
    + pose proof (repr_fits _ _ Hr) as Hf. apply Forall_app in Hf as [? [_ ?]%Forall_cons_1].
      by apply Forall_app.
    + lia.
  - lia.
  - cbn [is_encoding set_contents]. rewrite zlen_enc_list, zlen_app by lia. nia.
Qed.

Lemma not_fits_not_elem is_ l v :
  is_repr is_ l -> is_ll v -> is_encoding is_ < _intsetValueEncoding v -> v ∉ l.
Proof.
  intros Hr Hv Hlt Hin. pose proof (repr_fits _ _ Hr) as Hf. rewrite Forall_forall in Hf.
  apply Hf, valueEncoding_spec in Hin; [lia | done | apply Hr].
Qed.

(** ** Correctness of the operations *)

(** The set of integers that an intset stands for. *)
Definition is_set (is_ : intset) (X : gset Z) : Prop :=
  exists l, is_repr is_ l /\ X = list_to_set l.

Lemma intsetAdd_list `{Allocator} is_ l value :
  is_repr is_ l -> is_ll value -> zlen l + 1 < 2 ^ 29 ->
  exists is' success l', intsetAdd is_ value = Some (is', success) /\
    is_repr is' l' /\ (success = true <-> value ∉ l) /\
    (forall x, x ∈ l' <-> x = value \/ x ∈ l).
Proof.
  intros Hr Hv Hsm.
  destruct (Z.lt_ge_cases (is_encoding is_) (_intsetValueEncoding value)) as [Hlt|Hge];
    [|by apply intsetAdd_no_upgrade].
  destruct (intsetUpgradeAndAdd_spec is_ l value) as (is' & Hadd & Hr'); [done..|].
  unfold intsetAdd. rewrite (proj2 (Z.ltb_lt _ _)) by done. rewrite Hadd. simpl_bind.
  do 3 eexists. split_and!; [done | apply Hr' | |].
  - split; [|done]. intros _. by apply not_fits_not_elem with is_.
  - intros x. case_match; set_solver.
Qed.

Lemma sorted_NoDup (l : list Z) : StronglySorted Z.lt l -> NoDup l.
Proof.
  induction 1 as [|x l _ IH Hf]; constructor; [|done].
  intros Hin. rewrite Forall_forall in Hf. specialize (Hf x Hin). lia.
Qed.

Lemma is_set_size is_ l : is_repr is_ l -> Z.of_nat (size (list_to_set l : gset Z)) = zlen l.
Proof. intros Hr. rewrite size_list_to_set; [done|]. apply sorted_NoDup, Hr. Qed.

Lemma list_to_set_ext (l' : list Z) (X : gset Z) :
  (forall x, x ∈ l' <-> x ∈ X) -> X = list_to_set l'.
Proof. intros Hx. apply set_eq. intros x. by rewrite elem_of_list_to_set, Hx. Qed.

Lemma bool_decide_iff (b : bool) (P : Prop) `{Decision P} : (b = true <-> P) -> b = bool_decide P.
Proof. intros Hb. destruct b; [rewrite bool_decide_true | rewrite bool_decide_false]; naive_solver. Qed.

(** Adding a 64 bit integer to a well-formed intset never reads or writes out
    of bounds, yields a well-formed intset that holds exactly one more element, the
    added one (whatever encoding upgrade it needs), and reports success exactly when
    the element was not there. *)
Theorem intsetAdd_correct `{Allocator} is_ X value :
  is_set is_ X -> is_ll value -> Z.of_nat (size X) + 1 < 2 ^ 29 ->
  exists is' success, intsetAdd is_ value = Some (is', success) /\
    is_set is' ({[value]} ∪ X) /\ success = negb (bool_decide (value ∈ X)).
Proof.
  intros (l & Hr & ->) Hv Hsm. erewrite is_set_size in Hsm by done.
  destruct (intsetAdd_list is_ l value) as (is' & s & l' & Hadd & Hr' & Hs & Hin); [done..|].
  exists is', s. split_and!; [done | |].
  - exists l'. split; [done|]. apply list_to_set_ext. set_solver.
  - destruct s; [rewrite bool_decide_false | rewrite bool_decide_true]; [done | | done |];
      rewrite elem_of_list_to_set; [by apply Hs|].
    apply dec_stable. intros Hn. by apply Hs in Hn.
Qed.

(** Removing an integer from a well-formed intset never accesses memory out of
    bounds, leaves a well-formed intset without that element and with all the others,
    and reports success exactly when the element was there. *)
Theorem intsetRemove_correct `{Allocator} is_ X value :
  is_set is_ X -> is_ll value ->
  exists is' success, intsetRemove is_ value = Some (is', success) /\
    is_set is' (X ∖ {[value]}) /\ success = bool_decide (value ∈ X).
Proof.
  intros (l & Hr & ->) Hv. unfold intsetRemove.
  destruct (Z.leb_spec (_intsetValueEncoding value) (is_encoding is_)) as [Hle|Hgt].
  2: { apply not_fits_not_elem with (l := l) in Hgt as Hnin; [|done..].
       do 2 eexists. split_and!; [done | | rewrite bool_decide_false; set_solver].
       exists l. split; [done|]. apply list_to_set_ext. set_solver. }
  destruct (intsetSearch_spec is_ l value Hr) as (found & pos & -> & Hpos). simpl_bind.
  destruct found.
  - destruct Hpos as [Hpos Hl]. apply list_elem_of_lookup_2 in Hl as Hin.
    apply take_drop_middle in Hl as Hl'. rewrite <- Hl' in Hr.
    assert (pos = zlen (take (Z.to_nat pos) l)) as Hpos'.
    { apply lookup_lt_Some in Hl. unfold zlen. rewrite length_take. lia. }
    destruct (remove_found _ _ _ _ Hr) as (is' & Hrem & Hr'). rewrite <- Hpos' in Hrem.
    exists is', true. split_and!; [done | |].
    + exists (take (Z.to_nat pos) l ++ drop (S (Z.to_nat pos)) l). split; [done|].
      destruct (sorted_remove_mid _ _ _ (repr_sorted _ _ Hr)) as [_ Hnin].
      set (l' := _ ++ drop _ _) in *.
      assert (forall x, x ∈ l <-> x = value \/ x ∈ l') as Hl2.
      { intros x. unfold l'. rewrite <- Hl' at 1. set_solver. }
      apply list_to_set_ext. set_solver.
    + rewrite bool_decide_true; [done|]. by rewrite elem_of_list_to_set.
  - apply splits_at_not_elem in Hpos as Hnin.
    do 2 eexists. split_and!; [done | | rewrite bool_decide_false; set_solver].
    exists l. split; [done|]. apply list_to_set_ext. set_solver.
Qed.

(** intsetFind() decides membership; the encoding test and the binary search
    (which ends within 32 iterations) never read out of bounds. *)
Theorem intsetFind_correct is_ X value :
  is_set is_ X -> is_ll value -> intsetFind is_ value = Some (bool_decide (value ∈ X)).
Proof.
  intros (l & Hr & ->) Hv. unfold intsetFind.
  destruct (Z.leb_spec (_intsetValueEncoding value) (is_encoding is_)) as [Hle|Hgt].
  - destruct (intsetSearch_spec is_ l value Hr) as (found & pos & -> & Hpos). simpl_bind.
    f_equal. apply bool_decide_iff. rewrite elem_of_list_to_set.
    destruct found; split; try done; intros Hin.
    + destruct Hpos. by apply list_elem_of_lookup_2 with (Z.to_nat pos).
    + by apply splits_at_not_elem in Hpos.
  - apply not_fits_not_elem with (l := l) in Hgt; [|done..].
    rewrite bool_decide_false; [done|]. by rewrite elem_of_list_to_set.
Qed.

Lemma is_set_new : is_set intsetNew ∅.
Proof. exists []. split; [|done]. split; simpl; try done; [by left | constructor]. Qed.

(** ** Traces *)

Inductive intset_op := IsAdd (v : Z) | IsRemove (v : Z) | IsFind (v : Z).

Definition op_value (op : intset_op) : Z := match op with IsAdd v | IsRemove v | IsFind v => v end.

Definition intset_step `{Allocator} (is_ : intset) (op : intset_op) : option (intset * bool) :=
  match op with
  | IsAdd v => intsetAdd is_ v
  | IsRemove v => intsetRemove is_ v
  | IsFind v => b ← intsetFind is_ v; Some (is_, b)
  end.

Definition set_step (X : gset Z) (op : intset_op) : gset Z * bool :=
  match op with
  | IsAdd v => ({[v]} ∪ X, negb (bool_decide (v ∈ X)))
  | IsRemove v => (X ∖ {[v]}, bool_decide (v ∈ X))
  | IsFind v => (X, bool_decide (v ∈ X))
  end.

Fixpoint intset_run `{Allocator} (is_ : intset) (ops : list intset_op) : option (intset * list bool) :=
  match ops with
  | [] => Some (is_, [])
  | op :: ops => '(is_, b) ← intset_step is_ op; '(is_, bs) ← intset_run is_ ops; Some (is_, b :: bs)
  end.

Fixpoint set_run (X : gset Z) (ops : list intset_op) : gset Z * list bool :=
  match ops with
  | [] => (X, [])
  | op :: ops => let '(X, b) := set_step X op in let '(X, bs) := set_run X ops in (X, b :: bs)
  end.

Lemma intset_step_ok `{Allocator} is_ X op : is_set is_ X -> is_ll (op_value op) -> Z.of_nat (size X) + 1 < 2 ^ 29 ->
  exists is', intset_step is_ op = Some (is', (set_step X op).2) /\ is_set is' (set_step X op).1.
Proof.
  intros Hs Hv Hsz. destruct op as [v|v|v]; cbn [intset_step set_step op_value fst snd] in *.
  - destruct (intsetAdd_correct is_ X v Hs Hv Hsz) as (is' & b & -> & ? & ->). by exists is'.
  - destruct (intsetRemove_correct is_ X v Hs Hv) as (is' & b & -> & ? & ->). by exists is'.
  - rewrite (intsetFind_correct is_ X v Hs Hv). by exists is_.
Qed.

Lemma set_step_size X op : (size (set_step X op).1 <= S (size X))%nat.
Proof.
  destruct op as [v|v|v]; cbn [set_step fst]; [|apply Nat.le_le_succ_r, subseteq_size; set_solver | lia].
  rewrite size_union_alt, size_singleton. assert (size (X ∖ {[v]}) <= size X)%nat by (apply subseteq_size; set_solver). lia.
Qed.

Lemma set_run_cons X op ops : (set_run X (op :: ops)).1 = (set_run (set_step X op).1 ops).1.
Proof. cbn [set_run]. destruct (set_step X op) as [X1 b]. cbn [fst]. by destruct (set_run X1 ops). Qed.

Lemma set_run_size ops : forall X, (size (set_run X ops).1 <= size X + length ops)%nat.
Proof.
  induction ops as [|op ops IH]; intros X; [cbn; lia|]. rewrite set_run_cons. specialize (IH (set_step X op).1). pose proof (set_step_size X op). cbn [length]. lia.
Qed.

Lemma intset_run_ok `{Allocator} ops : forall is_ X, is_set is_ X -> Forall (fun op => is_ll (op_value op)) ops ->
  (forall n, Z.of_nat (size (set_run X (take n ops)).1) < 2 ^ 29 - 1) ->
  exists is', intset_run is_ ops = Some (is', (set_run X ops).2) /\ is_set is' (set_run X ops).1.
Proof.
  induction ops as [|op ops IH]; intros is_ X Hs Hall Hsz; [by exists is_|]. apply Forall_cons in Hall as [Hv Hall]. cbn [intset_run set_run].
  pose proof (Hsz 0%nat) as H0. cbn [take set_run fst] in H0.
  destruct (intset_step_ok is_ X op Hs Hv ltac:(lia)) as (is1 & -> & Hs1). simpl_bind.
  destruct (IH is1 (set_step X op).1 Hs1 Hall) as (is' & E & Hs'); [intros n; specialize (Hsz (S n)); cbn [take] in Hsz; by rewrite set_run_cons in Hsz|].
  destruct (set_step X op) as [X1 b]. cbn [fst snd] in *. rewrite E. simpl_bind. destruct (set_run X1 ops) as [X2 bs]. by exists is'.
Qed.

(** C30. A new intset behaves like an empty finite set of integers under any sequence of insertions, removals and
    membership tests of 64 bit integers, of any length, during which the set always has fewer than 2^29 - 1 elements (with 2^29 elements of eight bytes the byte count of
    intsetMoveTail() wraps around): the answers are the same, no access is out of bounds, whatever the
    allocator returns and whatever upgrades of the encoding the values need, and the bytes at the end are the
    sorted elements of the set. *)
Theorem intset_refines_set `{Allocator} ops : Forall (fun op => is_ll (op_value op)) ops ->
  (forall n, Z.of_nat (size (set_run ∅ (take n ops)).1) < 2 ^ 29 - 1) ->
  exists is', intset_run intsetNew ops = Some (is', (set_run ∅ ops).2) /\ is_set is' (set_run ∅ ops).1.
Proof. intros Hall Hlen. by apply (intset_run_ok ops intsetNew ∅ is_set_new). Qed.

(** intsetGet() returns the elements in increasing order, by position, and fails
    past the end; intsetLen() and intsetBlobLen() are the number of elements and the
    exact size of the serialized intset. *)
Theorem intsetGet_correct is_ l pos :
  is_repr is_ l -> 0 <= pos ->
  intsetGet is_ pos = Some (l !! Z.to_nat pos) /\ intsetLen is_ = zlen l /\
  intsetBlobLen is_ = zlen (blob_of_intset is_).
Proof.
  intros Hr Hpos. split_and!.
  - unfold intsetGet. rewrite (repr_len _ _ Hr). destruct (Z.ltb_spec pos (zlen l)).
    + destruct (lookup_Z l pos) as [x Hx]; [lia|]. rewrite Hx.
      pose proof (intsetGet_lookup _ _ _ _ Hr Hx) as Hg. rewrite Z2Nat.id in Hg by done.
      by rewrite Hg.
    + rewrite lookup_ge_None_2; [done|]. unfold zlen in *. lia.
  - apply Hr.
  - pose proof (enc_ok_pos _ (repr_enc _ _ Hr)).
    unfold intsetBlobLen, blob_of_intset, sizeof_intset. rewrite !zlen_app, (repr_contents _ _ Hr), zlen_enc_list by lia.
    rewrite !zlen_encode, (repr_len _ _ Hr). lia.
Qed.

(** ** Integrity of a serialized intset *)

Lemma intset_of_blob_of_intset is_ :
  0 <= is_encoding is_ < 2 ^ 32 -> 0 <= is_length is_ < 2 ^ 32 ->
  intset_of_blob (blob_of_intset is_) = Some is_.
Proof.
  intros He Hl. unfold intset_of_blob, blob_of_intset.
  rewrite mem_load_head by done. simpl_bind.
  rewrite mem_load_mid by done. simpl_bind. rewrite !le_decode_encode.
  rewrite app_assoc, drop_app_length' by done.
  rewrite !Z.mod_small by done. by destruct is_.
Qed.

Lemma le_decode_swrap_encode e bs : enc_ok e -> bytes_ok bs -> zlen bs = e ->
  le_encode (Z.to_nat e) (swrap (8 * e) (le_decode bs)) = bs /\ fits e (swrap (8 * e) (le_decode bs)).
Proof.
  intros He Hbs Hlen. pose proof (enc_ok_pos _ He). split; [|apply swrap_range; lia].
  pose proof (le_decode_range _ Hbs) as Hr. rewrite <- (le_encode_decode bs Hbs) at 2.
  replace (Z.to_nat e) with (length bs) by (unfold zlen in Hlen; lia).
  apply le_encode_mod.
  fold (zlen bs). rewrite Hlen. replace (256 ^ e) with (2 ^ (8 * e)).
  - unfold swrap. rewrite Zminus_mod_idemp_l. f_equal. lia.
  - by destruct He as [-> | [-> | ->]].
Qed.

(** Any block of the right size is the encoding of some list of values. *)
Lemma enc_list_surj e m (n : nat) : enc_ok e -> bytes_ok m -> zlen m = Z.of_nat n * e ->
  exists l, m = enc_list e l /\ Forall (fits e) l /\ length l = n.
Proof.
  intros He. pose proof (enc_ok_pos _ He). revert m. induction n as [|n IH]; intros m Hm Hlen.
  { exists []. split_and!; [|done|done]. apply length_zero_iff_nil. unfold zlen in Hlen. lia. }
  destruct (split_at_len m e) as (a & b & -> & Ha & Hb); [lia|].
  apply Forall_app in Hm as [Hma Hmb].
  destruct (IH b) as (l & -> & Hf & Hl); [done | lia |].
  destruct (le_decode_swrap_encode e a) as [Hdec Hfit]; [done..|].
  exists (swrap (8 * e) (le_decode a) :: l). split_and!.
  - by rewrite enc_list_cons, Hdec.
  - by constructor.
  - simpl. lia.
Qed.

Lemma validate_loop_spec is_ l1 l2 prev :
  enc_ok (is_encoding is_) -> Forall (fits (is_encoding is_)) (l1 ++ prev :: l2) ->
  is_contents is_ = enc_list (is_encoding is_) (l1 ++ prev :: l2) ->
  intsetValidate_loop (length l2) is_ (zlen l1 + 1) prev =
    Some (bool_decide (StronglySorted Z.lt (prev :: l2))).
Proof.
  intros He. revert l1 prev. induction l2 as [|v l2 IH]; intros l1 prev Hf Hm;
    cbn [intsetValidate_loop length].
  { rewrite bool_decide_true; [done|]. repeat constructor. }
  assert (l1 ++ prev :: v :: l2 = (l1 ++ [prev]) ++ v :: l2) as Happ by (by rewrite <- app_assoc).
  unfold _intsetGet. erewrite getEncoded_mid with (l1 := l1 ++ [prev]) (v := v); cycle 1.
  { done. }
  { rewrite Happ in Hf. apply Forall_app in Hf as [_ Hf]. by inversion Hf. }
  { rewrite zlen_app, zlen_cons, zlen_nil. lia. }
  { rewrite Hm, Happ, enc_list_app, enc_list_cons. done. }
  simpl_bind. destruct (Z.leb_spec v prev).
  - rewrite bool_decide_false; [done|]. intros Hs. inversion Hs as [|? ? _ Hlt]; subst.
    inversion Hlt; lia.
  - replace (zlen l1 + 1 + 1) with (zlen (l1 ++ [prev]) + 1)
      by (rewrite zlen_app, zlen_cons, zlen_nil; lia).
    rewrite IH by (by rewrite <- Happ). f_equal. apply bool_decide_ext.
    split; intros Hs; [|by inversion Hs]. constructor; [done|].
    inversion Hs as [|? ? _ Hlt]; subst. constructor; [lia|].
    eapply Forall_impl; [exact Hlt|]. simpl. lia.
Qed.

Lemma repr_header is_ l : is_repr is_ l ->
  0 <= is_encoding is_ < 2 ^ 32 /\ 0 <= is_length is_ < 2 ^ 32.
Proof.
  intros Hr. pose proof (enc_ok_pos _ (repr_enc _ _ Hr)). pose proof (repr_small _ _ Hr).
  rewrite (repr_len _ _ Hr). pose proof (zlen_nonneg l). eval_pow2. lia.
Qed.

Lemma blob_repr_iff h1 h2 m (P : list Z -> Prop) :
  bytes_ok h1 -> bytes_ok h2 -> zlen h1 = 4 -> zlen h2 = 4 ->
  (exists is_ l, h1 ++ h2 ++ m = blob_of_intset is_ /\ is_repr is_ l /\ P l) <->
  (exists l, is_repr (mk_intset (le_decode h1) (le_decode h2) m) l /\ P l).
Proof.
  intros Hb1 Hb2 Hh1 Hh2. split.
  - intros (is_ & l & Heq & Hr & HP). exists l. split; [|done].
    destruct (repr_header _ _ Hr). pose proof (intset_of_blob_of_intset is_) as Hb.
    rewrite <- Heq in Hb. unfold intset_of_blob in Hb.
    rewrite mem_load_head in Hb by done. simpl_bind in Hb.
    rewrite mem_load_mid in Hb by done. simpl_bind in Hb.
    rewrite app_assoc, drop_app_length' in Hb by (rewrite length_app; unfold zlen in *; lia).
    specialize (Hb ltac:(done) ltac:(done)). by injection Hb as ->.
  - intros (l & Hr & HP). eexists _, l. split_and!; [|done|done].
    unfold blob_of_intset. cbn [is_encoding is_length is_contents].
    replace 4%nat with (length h1) at 1 by (unfold zlen in *; lia).
    replace 4%nat with (length h2) at 1 by (unfold zlen in *; lia).
    by rewrite !le_encode_decode.
Qed.

Lemma validate_records e n m :
  enc_ok e -> bytes_ok m -> zlen m = n * e -> 0 < n < 2 ^ 29 ->
  exists r, (prev ← _intsetGet (mk_intset e n m) 0;
             intsetValidate_loop (Z.to_nat (n - 1)) (mk_intset e n m) 1 prev) = Some r /\
    (r = true <-> exists l, is_repr (mk_intset e n m) l /\ l <> []).
Proof.
  intros He Hm Hlen Hn.
  destruct (enc_list_surj e m (Z.to_nat n)) as (l & -> & Hf & Hl); [done | done | lia |].
  destruct l as [|v l]; simpl in Hl; [lia|].
  unfold _intsetGet. erewrite getEncoded_mid with (l1 := []) (v := v); cycle 1.
  { done. }
  { by inversion Hf. }
  { done. }
  { cbn [is_contents]. by rewrite enc_list_cons. }
  simpl_bind. replace (Z.to_nat (n - 1)) with (length l) by lia.
  pose proof (validate_loop_spec (mk_intset e n (enc_list e (v :: l))) [] l v) as Hloop.
  change (zlen [] + 1) with 1 in Hloop. rewrite Hloop by done.
  eexists. split; [done|]. rewrite bool_decide_eq_true. split.
  - intros Hs. exists (v :: l). split; [|done]. split; simpl; try done; unfold zlen; simpl; lia.
  - intros (l' & Hr & _).
    assert (l' = v :: l) as <-; [|apply Hr].
    apply (enc_list_inj e); [done | apply (repr_fits _ _ Hr) | done |].
    symmetry. apply (repr_contents _ _ Hr).
Qed.

(** Deep validation of a payload accepts it exactly when it is the
    serialization of a non-empty well-formed intset; it never reads outside the payload. *)
Theorem intsetValidateIntegrity_correct p :
  bytes_ok p -> zlen p < 2 ^ 29 ->
  exists r, intsetValidateIntegrity p (zlen p) true = Some r /\
    (r = true <-> exists is_ l, p = blob_of_intset is_ /\ is_repr is_ l /\ l <> []).
Proof.
  intros Hp Hsm. unfold intsetValidateIntegrity.
  destruct (Z.ltb_spec (zlen p) sizeof_intset) as [Hlt|Hge].
  { eexists. split; [done|]. split; [done|]. intros (is_ & l & -> & Hr & _).
    unfold blob_of_intset, sizeof_intset in Hlt. rewrite !zlen_app, !zlen_encode in Hlt.
    pose proof (zlen_nonneg (is_contents is_)). lia. }
  unfold sizeof_intset in Hge.
  destruct (split_at_len p 4) as (h1 & p' & -> & Hh1 & Hp'); [lia|].
  destruct (split_at_len p' 4) as (h2 & m & -> & Hh2 & Hm); [lia|].
  apply Forall_app in Hp as [Hb1 [Hb2 Hbm]%Forall_app].
  setoid_rewrite (blob_repr_iff h1 h2 m (fun l => l <> [])); [|done..].
  unfold intset_of_blob. rewrite mem_load_head by done. simpl_bind.
  rewrite mem_load_mid by done. simpl_bind. cbn [is_encoding is_length is_contents].
  rewrite app_assoc, drop_app_length' by (rewrite length_app; unfold zlen in *; lia).
  pose proof (le_decode_range _ Hb2) as Hn.
  set (e := le_decode h1) in *. set (n := le_decode h2) in *. rewrite <- app_assoc.
  destruct (decide (enc_ok e)) as [He|He]; cycle 1.
  { exists false. split; [|split; [done|intros (l & Hr & _); by destruct He; apply Hr]].
    by rewrite enc_test_false. }
  rewrite enc_test_true by done. simpl negb. cbv iota. pose proof (enc_ok_pos _ He).
  unfold sizeof_intset. destruct (Z.eqb_spec (8 + n * e) (zlen (h1 ++ h2 ++ m))); simpl negb; cbv iota; cycle 1.
  { exists false. split; [done|]. split; [done|]. intros (l & Hr & _).
    pose proof (repr_contents _ _ Hr) as Hc. pose proof (repr_len _ _ Hr) as Hl. simpl in Hc, Hl.
    rewrite Hc in Hm. rewrite Hc in Hp' at 1. rewrite zlen_enc_list in Hm by lia. lia. }
  destruct (Z.eqb_spec n 0) as [Hn0|Hn0].
  { exists false. split; [done|]. split; [done|]. intros (l & Hr & Hne).
    pose proof (repr_len _ _ Hr) as Hl. simpl in Hl. rewrite Hn0 in Hl.
    destruct Hne. apply length_zero_iff_nil. unfold zlen in Hl. lia. }
  apply validate_records; [done | done | lia | nia].
Qed.

(** intsetRandom() returns a member of a non-empty intset, whatever rand() returns. *)
Theorem intsetRandom_correct rand is_ X :
  is_set is_ X -> X <> ∅ -> exists v, intsetRandom rand is_ = Some v /\ v ∈ X.
Proof.
  intros (l & Hr & ->) Hne. unfold intsetRandom. rewrite (repr_len _ _ Hr).
  pose proof (zlen_nonneg l). destruct (Z.eqb_spec (zlen l) 0) as [H0|H0].
  { destruct Hne. assert (l = []) as -> by (apply length_zero_iff_nil; unfold zlen in H0; lia). done. }
  pose proof (Z.mod_pos_bound rand (zlen l)).
  destruct (lookup_Z l (rand mod zlen l)) as [v Hv]; [lia|]. exists v. split.
  - rewrite <- (intsetGet_lookup _ _ _ _ Hr Hv). f_equal. lia.
  - rewrite elem_of_list_to_set. by apply list_elem_of_lookup_2 in Hv.
Qed.

(** The byte count that intsetMoveTail() passes to memmove() is a [uint32_t]: with
    2^29 records of 8 bytes to move it wraps to zero and nothing is moved. *)
Theorem intsetMoveTail_truncates is_ from to :
  is_encoding is_ = INTSET_ENC_INT64 -> is_length is_ = from + 2 ^ 29 ->
  0 <= from -> 0 <= to -> zlen (is_contents is_) = is_length is_ * 8 ->
  to <= is_length is_ -> intsetMoveTail is_ from to = Some is_.
Proof.
  intros He Hlen Hf Ht Hm Hto. rewrite intsetMoveTail_eq by (rewrite He; by right; right).
  rewrite He, Hlen. replace (from + 2 ^ 29 - from) with (2 ^ 29) by lia.
  change (u32 (u32 (2 ^ 29) * INTSET_ENC_INT64)) with 0.
  unfold memmove, mem_load, mem_store, INTSET_ENC_INT64. unfold zlen in Hm. eval_pow2.
  rewrite bool_decide_true by lia. simpl_bind. change (Z.to_nat 0) with 0%nat. rewrite take_0.
  cbn [length]. rewrite bool_decide_true by lia. simpl_bind.
  rewrite app_nil_l, Nat.add_0_r, take_drop. by destruct is_.
Qed.

(** ** Witnesses *)

Definition intset_example : intset := mk_intset 2 2 [253; 255; 5; 0].

Definition intset_example_X : gset Z := {[-3; 5]}.

Lemma intset_example_repr : is_repr intset_example [-3; 5].
Proof.
  split; try done.
  - by left.
  - repeat constructor; done.
  - repeat constructor; lia.
Qed.

Lemma intset_example_set : is_set intset_example intset_example_X.
Proof. exists [-3; 5]. split; [apply intset_example_repr | done]. Qed.

Lemma intsetAdd_correct_witness : exists is' success,
  @intsetAdd exact_allocator intset_example 70000 = Some (is', success) /\
  is_set is' ({[70000]} ∪ intset_example_X) /\ success = negb (bool_decide (70000 ∈ intset_example_X)).
Proof.
  apply (@intsetAdd_correct exact_allocator intset_example intset_example_X 70000).
  - apply intset_example_set.
  - vm_compute. split; discriminate.
  - vm_compute. reflexivity.
Defined.

Lemma intsetRemove_correct_witness : exists is' success,
  @intsetRemove exact_allocator intset_example 5 = Some (is', success) /\
  is_set is' (intset_example_X ∖ {[5]}) /\ success = bool_decide (5 ∈ intset_example_X).
Proof.
  apply (@intsetRemove_correct exact_allocator intset_example intset_example_X 5).
  - apply intset_example_set.
  - vm_compute. split; discriminate.
Defined.

Lemma intsetFind_correct_witness :
  intsetFind intset_example (-3) = Some (bool_decide (-3 ∈ intset_example_X)).
Proof.
  apply intsetFind_correct.
  - apply intset_example_set.
  - vm_compute. split; discriminate.
Defined.

Lemma intsetGet_correct_witness :
  intsetGet intset_example 1 = Some ([-3; 5] !! 1%nat) /\
  intsetLen intset_example = 2 /\ intsetBlobLen intset_example = zlen (blob_of_intset intset_example).
Proof. apply (intsetGet_correct intset_example [-3; 5] 1); [apply intset_example_repr | lia]. Defined.

Lemma intsetRandom_correct_witness :
  exists v, intsetRandom 7 intset_example = Some v /\ v ∈ intset_example_X.
Proof. apply intsetRandom_correct; [apply intset_example_set | discriminate]. Defined.

Lemma intsetValidateIntegrity_correct_witness :
  let p := blob_of_intset intset_example in
  exists r, intsetValidateIntegrity p (zlen p) true = Some r /\
    (r = true <-> exists is_ l, p = blob_of_intset is_ /\ is_repr is_ l /\ l <> []).
Proof.
  apply intsetValidateIntegrity_correct.
  - apply (bool_decide_unpack _). vm_compute. exact I.
  - vm_compute. reflexivity.
Defined.

Lemma intsetMoveTail_truncates_witness :
  let is_ := mk_intset 8 (2 ^ 29) (replicate (Z.to_nat (2 ^ 32)) 0) in
  intsetMoveTail is_ 0 1 = Some is_.
Proof.
  apply intsetMoveTail_truncates; cbn [is_encoding is_length is_contents]; [done | lia.. | | lia].
  unfold zlen. rewrite length_replicate. lia.
Defined.

Lemma intset_refines_set_witness : exists is', @intset_run exact_allocator intsetNew [IsAdd 5; IsAdd (-70000); IsFind 5; IsAdd 5; IsRemove 5; IsFind (-70000)] =
  Some (is', [true; true; true; false; true; true]) /\ is_set is' {[ -70000 ]}.
Proof.
  destruct (@intset_refines_set exact_allocator [IsAdd 5; IsAdd (-70000); IsFind 5; IsAdd 5; IsRemove 5; IsFind (-70000)]) as (is' & H1 & H2); [repeat constructor; vm_compute; discriminate | |].
  { intros n. match goal with |- context [take n ?l] => pose proof (set_run_size (take n l) ∅) as Hb; rewrite length_take in Hb end. rewrite size_empty in Hb. cbn [length] in Hb. lia. }
  exists is'. split; [exact H1|]. assert ((set_run ∅ [IsAdd 5; IsAdd (-70000); IsFind 5; IsAdd 5; IsRemove 5; IsFind (-70000)]).1 = {[ -70000 ]}) as <- by (vm_compute; reflexivity). exact H2.
Defined.
