(* ===== verification/Listpack.v ===== *)
(** * Listpacks (src/redis-stable/src/listpack.c) *)
From S2P Require Import Prelude.
From S2P Require Import Util.

(** A listpack is the block of memory that holds it, a pointer into it is an offset.
    In the results, an outer [None] is an access out of bounds or a failed assertion
    and an inner [None] is the NULL pointer. *)

(** ** Encodings *)

Definition LP_HDR_SIZE : Z := 6.
Definition LP_HDR_NUMELE_UNKNOWN : Z := 65535.
Definition LP_EOF : Z := 0xFF.

Definition LP_ENCODING_IS_7BIT_UINT (byte : Z) : bool := Z.land byte 0x80 =? 0.
Definition LP_ENCODING_IS_6BIT_STR (byte : Z) : bool := Z.land byte 0xC0 =? 0x80.
Definition LP_ENCODING_IS_13BIT_INT (byte : Z) : bool := Z.land byte 0xE0 =? 0xC0.
Definition LP_ENCODING_IS_12BIT_STR (byte : Z) : bool := Z.land byte 0xF0 =? 0xE0.
Definition LP_ENCODING_IS_16BIT_INT (byte : Z) : bool := Z.land byte 0xFF =? 0xF1.
Definition LP_ENCODING_IS_24BIT_INT (byte : Z) : bool := Z.land byte 0xFF =? 0xF2.
Definition LP_ENCODING_IS_32BIT_INT (byte : Z) : bool := Z.land byte 0xFF =? 0xF3.
Definition LP_ENCODING_IS_64BIT_INT (byte : Z) : bool := Z.land byte 0xFF =? 0xF4.
Definition LP_ENCODING_IS_32BIT_STR (byte : Z) : bool := Z.land byte 0xFF =? 0xF0.

(** p[0] | p[1]<<8 | ... over [n] bytes. *)
Fixpoint load_le (lp : list Z) (p : Z) (n : nat) (shift : Z) : option Z :=
  match n with
  | O => Some 0
  | S n =>
      b ← load8 lp p;
      r ← load_le lp (p + 1) n (shift + 8);
      Some (Z.lor (Z.shiftl b shift) r)
  end.

(** p[0] = v&0xff, p[1] = (v>>8)&0xff, ... over [n] bytes. *)
Fixpoint store_le (lp : list Z) (p : Z) (n : nat) (v : Z) : option (list Z) :=
  match n with
  | O => Some lp
  | S n => lp ← store8 lp p (Z.land v 0xff); store_le lp (p + 1) n (Z.shiftr v 8)
  end.

Definition LP_ENCODING_6BIT_STR_LEN (lp : list Z) (p : Z) : option Z :=
  b ← load8 lp p; Some (Z.land b 0x3F).
Definition LP_ENCODING_12BIT_STR_LEN (lp : list Z) (p : Z) : option Z :=
  b ← load8 lp p; b1 ← load8 lp (p + 1);
  Some (Z.lor (Z.shiftl (Z.land b 0xF) 8) b1).
Definition LP_ENCODING_32BIT_STR_LEN (lp : list Z) (p : Z) : option Z :=
  load_le lp (p + 1) 4 0.

Definition lpGetTotalBytes (lp : list Z) : option Z := load_le lp 0 4 0.
Definition lpGetNumElements (lp : list Z) : option Z := load_le lp 4 2 0.
Definition lpSetTotalBytes (lp : list Z) (v : Z) : option (list Z) := store_le lp 0 4 v.
Definition lpSetNumElements (lp : list Z) (v : Z) : option (list Z) := store_le lp 4 2 v.

(** ** Integers in strings *)

Definition lpStringToInt64 (s : list Z) : option Z :=
  match s with
  | [] => None
  | c :: s' =>
      if (zlen s =? 1) && (c =? chr "0") then Some 0
      else
        let negative := c =? chr "-" in
        match (if negative then s' else s) with
        | [] => None
        | c :: p =>
            if (chr "1" <=? c) && (c <=? chr "9") then
              match string2ll_loop (c - chr "0") p with
              | Some (v, []) =>
                  if negative then
                    if u64 (- (LLONG_MIN + 1)) + 1 <? v then None else Some (s64 (u64 (- v)))
                  else
                    if LLONG_MAX <? v then None else Some v
              | Some (_, _ :: _) | None => None
              end
            else if (c =? chr "0") && (zlen s =? 1) then Some 0
            else None
        end
  end.

(** What lpEncodeGetType() returns: with LP_ENCODING_INT, the bytes left in 'intenc'. *)
Inductive lp_enctype :=
| LP_ENCODING_INT (intenc : list Z)
| LP_ENCODING_STRING.

(** An integer on [n] bytes after the encoding byte. *)
Definition intenc_bytes (n : nat) (v : Z) : list Z := le_encode n v.

(** The encoding and the number of bytes of the encoded element ('enclen'). *)
Definition lpEncodeGetType (ele : list Z) (size : Z) : lp_enctype * Z :=
  match lpStringToInt64 ele with
  | Some v =>
      if (0 <=? v) && (v <=? 127) then (LP_ENCODING_INT [u8 v], 1)
      else if (-4096 <=? v) && (v <=? 4095) then
        let v := if v <? 0 then Z.shiftl 1 13 + v else v in
        (LP_ENCODING_INT [u8 (Z.lor (Z.shiftr v 8) 0xC0); u8 (Z.land v 0xff)], 2)
      else if (-32768 <=? v) && (v <=? 32767) then
        let v := if v <? 0 then Z.shiftl 1 16 + v else v in
        (LP_ENCODING_INT (0xF1 :: intenc_bytes 2 v), 3)
      else if (-8388608 <=? v) && (v <=? 8388607) then
        let v := if v <? 0 then Z.shiftl 1 24 + v else v in
        (LP_ENCODING_INT (0xF2 :: intenc_bytes 3 v), 4)
      else if (-2147483648 <=? v) && (v <=? 2147483647) then
        let v := if v <? 0 then Z.shiftl 1 32 + v else v in
        (LP_ENCODING_INT (0xF3 :: intenc_bytes 4 v), 5)
      else
        let uv := u64 v in
        (LP_ENCODING_INT (0xF4 :: intenc_bytes 8 uv), 9)
  | None =>
      if size <? 64 then (LP_ENCODING_STRING, 1 + size)
      else if size <? 4096 then (LP_ENCODING_STRING, 2 + size)
      else (LP_ENCODING_STRING, 5 + size)
  end.

(** The bytes of the reverse-encoded length; the C function returns their number. *)
Definition lpEncodeBacklen (l : Z) : list Z :=
  if l <=? 127 then [u8 l]
  else if l <? 16383 then [u8 (Z.shiftr l 7); u8 (Z.lor (Z.land l 127) 128)]
  else if l <? 2097151 then
    [u8 (Z.shiftr l 14); u8 (Z.lor (Z.land (Z.shiftr l 7) 127) 128); u8 (Z.lor (Z.land l 127) 128)]
  else if l <? 268435455 then
    [u8 (Z.shiftr l 21); u8 (Z.lor (Z.land (Z.shiftr l 14) 127) 128);
     u8 (Z.lor (Z.land (Z.shiftr l 7) 127) 128); u8 (Z.lor (Z.land l 127) 128)]
  else
    [u8 (Z.shiftr l 28); u8 (Z.lor (Z.land (Z.shiftr l 21) 127) 128);
     u8 (Z.lor (Z.land (Z.shiftr l 14) 127) 128);
     u8 (Z.lor (Z.land (Z.shiftr l 7) 127) 128); u8 (Z.lor (Z.land l 127) 128)].

Definition UINT64_MAX : Z := ULLONG_MAX.

Fixpoint lpDecodeBacklen_loop (fuel : nat) (lp : list Z) (p val shift : Z) : option Z :=
  match fuel with
  | O => None
  | S fuel =>
      b ← load8 lp p;
      let val := Z.lor val (Z.shiftl (Z.land b 127) shift) in
      if Z.land b 128 =? 0 then Some val
      else
        let shift := shift + 7 in
        if 28 <? shift then Some UINT64_MAX
        else lpDecodeBacklen_loop fuel lp (p - 1) val shift
  end.

(** The loop stops when the shift exceeds 28, after five bytes. *)
Definition lpDecodeBacklen (lp : list Z) (p : Z) : option Z := lpDecodeBacklen_loop 5 lp p 0 0.

Definition lpEncodeString (lp : list Z) (buf : Z) (s : list Z) (len : Z) : option (list Z) :=
  if len <? 64 then
    lp ← store8 lp buf (Z.lor len 0x80);
    mem_store lp (buf + 1) s
  else if len <? 4096 then
    lp ← store8 lp buf (Z.lor (Z.shiftr len 8) 0xE0);
    lp ← store8 lp (buf + 1) (Z.land len 0xff);
    mem_store lp (buf + 2) s
  else
    lp ← store8 lp buf 0xF0;
    lp ← store_le lp (buf + 1) 4 len;
    mem_store lp (buf + 5) s.

(** ** Navigation *)

Definition lpCurrentEncodedSizeUnsafe (lp : list Z) (p : Z) : option Z :=
  b ← load8 lp p;
  if LP_ENCODING_IS_7BIT_UINT b then Some 1
  else if LP_ENCODING_IS_6BIT_STR b then l ← LP_ENCODING_6BIT_STR_LEN lp p; Some (1 + l)
  else if LP_ENCODING_IS_13BIT_INT b then Some 2
  else if LP_ENCODING_IS_16BIT_INT b then Some 3
  else if LP_ENCODING_IS_24BIT_INT b then Some 4
  else if LP_ENCODING_IS_32BIT_INT b then Some 5
  else if LP_ENCODING_IS_64BIT_INT b then Some 9
  else if LP_ENCODING_IS_12BIT_STR b then l ← LP_ENCODING_12BIT_STR_LEN lp p; Some (2 + l)
  else if LP_ENCODING_IS_32BIT_STR b then l ← LP_ENCODING_32BIT_STR_LEN lp p; Some (u32 (5 + l))
  else if b =? LP_EOF then Some 1
  else Some 0.

Definition lpCurrentEncodedSizeBytes (lp : list Z) (p : Z) : option Z :=
  b ← load8 lp p;
  Some (if LP_ENCODING_IS_7BIT_UINT b then 1
        else if LP_ENCODING_IS_6BIT_STR b then 1
        else if LP_ENCODING_IS_13BIT_INT b then 1
        else if LP_ENCODING_IS_16BIT_INT b then 1
        else if LP_ENCODING_IS_24BIT_INT b then 1
        else if LP_ENCODING_IS_32BIT_INT b then 1
        else if LP_ENCODING_IS_64BIT_INT b then 1
        else if LP_ENCODING_IS_12BIT_STR b then 2
        else if LP_ENCODING_IS_32BIT_STR b then 5
        else if b =? LP_EOF then 1
        else 0).

Definition lpBytes (lp : list Z) : option Z := lpGetTotalBytes lp.

Definition lpSkip (lp : list Z) (p : Z) : option Z :=
  entrylen ← lpCurrentEncodedSizeUnsafe lp p;
  Some (p + (entrylen + zlen (lpEncodeBacklen entrylen))).

(** The returned flag and the new value of '*pp'. *)
Definition lpValidateNext (lp : list Z) (pp : option Z) (lpbytes : Z)
    : option (bool * option Z) :=
  let OUT_OF_RANGE p := (p <? LP_HDR_SIZE) || (lpbytes - 1 <? p) in
  match pp with
  | None => Some (false, pp)
  | Some p =>
      if OUT_OF_RANGE p then Some (false, pp)
      else
        b ← load8 lp p;
        if b =? LP_EOF then Some (true, None)
        else
          lenbytes ← lpCurrentEncodedSizeBytes lp p;
          if lenbytes =? 0 then Some (false, pp)
          else if OUT_OF_RANGE (p + lenbytes) then Some (false, pp)
          else
            entrylen ← lpCurrentEncodedSizeUnsafe lp p;
            let encodedBacklen := zlen (lpEncodeBacklen entrylen) in
            let entrylen := entrylen + encodedBacklen in
            if OUT_OF_RANGE (p + entrylen) then Some (false, pp)
            else
              let p := p + entrylen in
              prevlen ← lpDecodeBacklen lp (p - 1);
              if negb (u64 (prevlen + encodedBacklen) =? entrylen) then Some (false, pp)
              else Some (true, Some p)
  end.

(** assert(lpValidateNext(lp, &p, lpbytes)) *)
Definition lpAssertValidEntry (lp : list Z) (lpbytes p : Z) : option unit :=
  '(ok, _) ← lpValidateNext lp (Some p) lpbytes;
  if (ok : bool) then Some () else None.

Definition lpNext (lp : list Z) (p : Z) : option (option Z) :=
  p ← lpSkip lp p;
  b ← load8 lp p;
  if b =? LP_EOF then Some None
  else
    lpbytes ← lpBytes lp;
    _ ← lpAssertValidEntry lp lpbytes p;
    Some (Some p).

Definition lpPrev (lp : list Z) (p : Z) : option (option Z) :=
  if p =? LP_HDR_SIZE then Some None
  else
    let p := p - 1 in
    prevlen ← lpDecodeBacklen lp p;
    let prevlen := u64 (prevlen + zlen (lpEncodeBacklen prevlen)) in
    let p := p - (prevlen - 1) in
    lpbytes ← lpBytes lp;
    _ ← lpAssertValidEntry lp lpbytes p;
    Some (Some p).

Definition lpFirst (lp : list Z) : option (option Z) :=
  let p := LP_HDR_SIZE in
  b ← load8 lp p;
  if b =? LP_EOF then Some None
  else
    lpbytes ← lpBytes lp;
    _ ← lpAssertValidEntry lp lpbytes p;
    Some (Some p).

Definition lpLast (lp : list Z) : option (option Z) :=
  total ← lpGetTotalBytes lp;
  lpPrev lp (total - 1).

(** while(p) { count++; p = lpNext(lp,p); } *)
Fixpoint lpLength_loop (fuel : nat) (lp : list Z) (p : option Z) (count : Z) : option Z :=
  match p with
  | None => Some count
  | Some p =>
      match fuel with
      | O => None
      | S fuel => p ← lpNext lp p; lpLength_loop fuel lp p (u32 (count + 1))
      end
  end.

(** The count, and the listpack, whose header may be updated. *)
Definition lpLength (lp : list Z) : option (Z * list Z) :=
  numele ← lpGetNumElements lp;
  if negb (numele =? LP_HDR_NUMELE_UNKNOWN) then Some (numele, lp)
  else
    p ← lpFirst lp;
    count ← lpLength_loop (length lp) lp p 0;
    if count <? LP_HDR_NUMELE_UNKNOWN then
      lp ← lpSetNumElements lp count; Some (count, lp)
    else Some (count, lp).

(** ** Reading an element *)

(** The element as lpGet() returns it: an integer, or a string inside the listpack. *)
Inductive lp_value :=
| LpInt (val : Z)
| LpStr (ptr count : Z).

(** Two's complement conversion of the end of lpGet(). *)
Definition lpGet_int (uval negstart negmax : Z) : Z :=
  if negstart <=? uval then - u64 (negmax - uval) - 1 else uval.

(** lpGet(p, &count, NULL) *)
Definition lpGet (lp : list Z) (p : Z) : option lp_value :=
  b ← load8 lp p;
  if LP_ENCODING_IS_7BIT_UINT b then
    Some (LpInt (lpGet_int (Z.land b 0x7f) UINT64_MAX 0))
  else if LP_ENCODING_IS_6BIT_STR b then
    count ← LP_ENCODING_6BIT_STR_LEN lp p; Some (LpStr (p + 1) count)
  else if LP_ENCODING_IS_13BIT_INT b then
    b1 ← load8 lp (p + 1);
    Some (LpInt (lpGet_int (Z.lor (Z.shiftl (Z.land b 0x1f) 8) b1) (Z.shiftl 1 12) 8191))
  else if LP_ENCODING_IS_16BIT_INT b then
    uval ← load_le lp (p + 1) 2 0;
    Some (LpInt (lpGet_int uval (Z.shiftl 1 15) 65535))
  else if LP_ENCODING_IS_24BIT_INT b then
    uval ← load_le lp (p + 1) 3 0;
    Some (LpInt (lpGet_int uval (Z.shiftl 1 23) (Z.shiftr UINT32_MAX 8)))
  else if LP_ENCODING_IS_32BIT_INT b then
    uval ← load_le lp (p + 1) 4 0;
    Some (LpInt (lpGet_int uval (Z.shiftl 1 31) UINT32_MAX))
  else if LP_ENCODING_IS_64BIT_INT b then
    uval ← load_le lp (p + 1) 8 0;
    Some (LpInt (lpGet_int uval (Z.shiftl 1 63) UINT64_MAX))
  else if LP_ENCODING_IS_12BIT_STR b then
    count ← LP_ENCODING_12BIT_STR_LEN lp p; Some (LpStr (p + 2) count)
  else if LP_ENCODING_IS_32BIT_STR b then
    count ← LP_ENCODING_32BIT_STR_LEN lp p; Some (LpStr (p + 5) count)
  else Some (LpInt (lpGet_int (12345678900000000 + b) UINT64_MAX 0)).

(** lpGet(p, &count, intbuf): the element as a string; an integer is printed with "%lld". *)
Definition lpGet_intbuf (lp : list Z) (p : Z) : option (list Z) :=
  v ← lpGet lp p;
  match v with
  | LpInt val => Some (ll2string_out val)
  | LpStr ptr count => mem_load lp ptr count
  end.

(** ** Updates *)

Inductive lp_where := LP_BEFORE | LP_AFTER | LP_REPLACE.

#[export] Instance lp_where_eq_dec : EqDecision lp_where.
Proof. solve_decision. Defined.

Definition lpNew `{Allocator} (capacity : Z) : option (list Z) :=
  let n := if LP_HDR_SIZE + 1 <? capacity then capacity else LP_HDR_SIZE + 1 in
  let lp := zrealloc [] (malloc_usable_size n) in
  lp ← lpSetTotalBytes lp (LP_HDR_SIZE + 1);
  lp ← lpSetNumElements lp 0;
  store8 lp LP_HDR_SIZE LP_EOF.

(** lp_malloc_size() is the size of the block. *)
Definition lpShrinkToFit `{Allocator} (lp : list Z) : option (list Z) :=
  size ← lpGetTotalBytes lp;
  if size <? zlen lp then Some (zrealloc lp (malloc_usable_size size)) else Some lp.

(** assert(p >= lp+LP_HDR_SIZE && p < lp+lpGetTotalBytes(lp)), [p + len] in the second form *)
Definition ASSERT_INTEGRITY (lp : list Z) (p len : Z) : option unit :=
  total ← lpGetTotalBytes lp;
  if (LP_HDR_SIZE <=? p) && (p + len <? total) then Some () else None.

(** lpInsert() once 'where' is LP_BEFORE or LP_REPLACE. [ele = None] is the NULL element;
    the result is the listpack and '*newp'. *)
Definition lpInsert_at `{Allocator} (lp : list Z) (ele : option (list Z)) (p : Z)
    (where_ : lp_where) : option (option (list Z * option Z)) :=
  let poff := p in
  let enctype := match ele with Some ele => fst (lpEncodeGetType ele (zlen ele))
                 | None => LP_ENCODING_STRING end in
  let enclen := match ele with Some ele => snd (lpEncodeGetType ele (zlen ele)) | None => 0 end in
  let backlen := match ele with Some _ => lpEncodeBacklen enclen | None => [] end in
  let backlen_size := zlen backlen in
  old_listpack_bytes ← lpGetTotalBytes lp;
  replaced_len ← (if bool_decide (where_ = LP_REPLACE) then
                    len ← lpCurrentEncodedSizeUnsafe lp p;
                    let len := u32 (len + zlen (lpEncodeBacklen len)) in
                    _ ← ASSERT_INTEGRITY lp p len;
                    Some len
                  else Some 0);
  let new_listpack_bytes := u64 (old_listpack_bytes + enclen + backlen_size - replaced_len) in
  if UINT32_MAX <? new_listpack_bytes then Some None
  else
    let lp := if (old_listpack_bytes <? new_listpack_bytes) && (zlen lp <? new_listpack_bytes)
              then zrealloc lp (malloc_usable_size new_listpack_bytes) else lp in
    let dst := poff in
    lp ← (if bool_decide (where_ = LP_BEFORE) then
            memmove lp (dst + enclen + backlen_size) dst (old_listpack_bytes - poff)
          else
            let lendiff := s64 (u64 (enclen + backlen_size - replaced_len)) in
            memmove lp (dst + replaced_len + lendiff) (dst + replaced_len)
                    (old_listpack_bytes - poff - replaced_len));
    let lp := if new_listpack_bytes <? old_listpack_bytes
              then zrealloc lp (malloc_usable_size new_listpack_bytes) else lp in
    newp ← (match ele with
            | None => b ← load8 lp dst; Some (if b =? LP_EOF then None else Some dst)
            | Some _ => Some (Some dst)
            end);
    lp ← (match ele with
          | Some ele =>
              lp ← (match enctype with
                    | LP_ENCODING_INT intenc => mem_store lp dst intenc
                    | LP_ENCODING_STRING => lpEncodeString lp dst ele (zlen ele)
                    end);
              mem_store lp (dst + enclen) backlen
          | None => Some lp
          end);
    lp ← (if negb (bool_decide (where_ = LP_REPLACE)) || bool_decide (ele = None) then
            num_elements ← lpGetNumElements lp;
            if negb (num_elements =? LP_HDR_NUMELE_UNKNOWN) then
              lpSetNumElements lp (match ele with
                                   | Some _ => num_elements + 1
                                   | None => num_elements - 1
                                   end)
            else Some lp
          else Some lp);
    lp ← lpSetTotalBytes lp new_listpack_bytes;
    Some (Some (lp, newp)).

Definition lpInsert `{Allocator} (lp : list Z) (ele : option (list Z)) (p : Z)
    (where_ : lp_where) : option (option (list Z * option Z)) :=
  let where_ := match ele with None => LP_REPLACE | Some _ => where_ end in
  if bool_decide (where_ = LP_AFTER) then
    p ← lpSkip lp p;
    _ ← ASSERT_INTEGRITY lp p 0;
    lpInsert_at lp ele p LP_BEFORE
  else lpInsert_at lp ele p where_.

Definition lpAppend `{Allocator} (lp : list Z) (ele : list Z) : option (option (list Z)) :=
  listpack_bytes ← lpGetTotalBytes lp;
  let eofptr := listpack_bytes - 1 in
  r ← lpInsert lp (Some ele) eofptr LP_BEFORE;
  Some (option_map fst r).

Definition lpDelete `{Allocator} (lp : list Z) (p : Z) : option (option (list Z * option Z)) :=
  lpInsert lp None p LP_REPLACE.

(** while (index > 0 && ele) { ele = lpNext(lp,ele); index--; } *)
Fixpoint lpSeek_forward (n : nat) (lp : list Z) (ele : option Z) : option (option Z) :=
  match n, ele with
  | S n, Some p => ele ← lpNext lp p; lpSeek_forward n lp ele
  | _, _ => Some ele
  end.

(** while (index < -1 && ele) { ele = lpPrev(lp,ele); index++; } *)
Fixpoint lpSeek_backward (n : nat) (lp : list Z) (ele : option Z) : option (option Z) :=
  match n, ele with
  | S n, Some p => ele ← lpPrev lp p; lpSeek_backward n lp ele
  | _, _ => Some ele
  end.

Definition lpSeek_scan (lp : list Z) (forward : bool) (index : Z) : option (option Z) :=
  if forward then
    ele ← lpFirst lp;
    lpSeek_forward (Z.to_nat index) lp ele
  else
    ele ← lpLast lp;
    lpSeek_backward (Z.to_nat (- 1 - index)) lp ele.

Definition lpSeek (lp : list Z) (index : Z) : option (option Z) :=
  numele ← lpGetNumElements lp;
  if negb (numele =? LP_HDR_NUMELE_UNKNOWN) then
    let index := if index <? 0 then numele + index else index in
    if index <? 0 then Some None
    else if numele <=? index then Some None
    else if Z.quot numele 2 <? index then lpSeek_scan lp false (index - numele)
    else lpSeek_scan lp true index
  else if index <? 0 then lpSeek_scan lp false index
  else lpSeek_scan lp true index.

(** ** Validation *)

Definition lpValidateFirst (lp : list Z) : option (option Z) :=
  let p := LP_HDR_SIZE in
  b ← load8 lp p;
  if b =? LP_EOF then Some None else Some (Some p).

(** while(p && p[0] != LP_EOF) { ... count++; }: the count, or nothing if an entry is invalid *)
Fixpoint lpValidate_loop (fuel : nat) (lp : list Z) (p : option Z) (bytes count : Z)
    : option (option Z) :=
  match p with
  | None => Some (Some count)
  | Some q =>
      b ← load8 lp q;
      if b =? LP_EOF then Some (Some count)
      else
        match fuel with
        | O => None
        | S fuel =>
            '(ok, p) ← lpValidateNext lp p bytes;
            if (ok : bool) then lpValidate_loop fuel lp p bytes (u32 (count + 1))
            else Some None
        end
  end.

Definition lpValidateIntegrity (lp : list Z) (size : Z) (deep : bool) : option bool :=
  if size <? LP_HDR_SIZE + 1 then Some false
  else
    bytes ← lpGetTotalBytes lp;
    if negb (bytes =? size) then Some false
    else
      last ← load8 lp (size - 1);
      if negb (last =? LP_EOF) then Some false
      else if negb deep then Some true
      else
        r ← lpValidate_loop (length lp) lp (Some LP_HDR_SIZE) bytes 0;
        match r with
        | None => Some false
        | Some count =>
            numele ← lpGetNumElements lp;
            if negb (numele =? LP_HDR_NUMELE_UNKNOWN) && negb (numele =? count)
            then Some false else Some true
        end.

(** ** Bytes *)

Lemma load_le_frame a r c i n s v :
  load_le r i n s = Some v -> load_le (a ++ r ++ c) (zlen a + i) n s = Some v.
Proof.
  revert i s v. induction n as [|n IH]; intros i s v; [done|]. cbn [load_le].
  destruct (load8 r i) as [b|] eqn:Hb; [|done]. simpl_bind.
  destruct (load_le r (i + 1) n (s + 8)) as [w|] eqn:Hw; [|done]. simpl_bind.
  rewrite (load8_frame _ _ _ _ _ Hb). simpl_bind.
  replace (zlen a + i + 1) with (zlen a + (i + 1)) by lia. rewrite (IH _ _ _ Hw). done.
Qed.

Lemma load_le_spec bs c s : bytes_ok bs -> 0 <= s ->
  load_le (bs ++ c) 0 (length bs) s = Some (le_decode bs * 2 ^ s).
Proof.
  intros Hbs. revert s. induction Hbs as [|b bs Hb Hbs IH]; intros s Hs; [done|].
  cbn [length load_le app]. change (load8 (b :: bs ++ c) 0) with (Some b). simpl_bind.
  specialize (IH (s + 8) ltac:(lia)). apply (load_le_frame [b] _ []) in IH.
  rewrite app_nil_r in IH. change (zlen [b] + 0) with 1 in IH.
  change ([b] ++ bs ++ c) with (b :: bs ++ c) in IH. change (0 + 1) with 1. rewrite IH. simpl_bind.
  f_equal. cbn [le_decode]. rewrite Z.shiftl_mul_pow2, Z.pow_add_r by lia. change (2 ^ 8) with 256.
  rewrite <- !Z.shiftl_mul_pow2 by lia.
  replace (le_decode bs * (2 ^ s * 256)) with (Z.shiftl (Z.shiftl (le_decode bs) 8) s)
    by (rewrite !Z.shiftl_mul_pow2 by lia; lia).
  rewrite <- Z.shiftl_lor. rewrite shiftl_lor_add by (unfold is_byte in Hb; eval_pow2; lia).
  rewrite !Z.shiftl_mul_pow2 by lia. lia.
Qed.

Lemma load_le_mid a bs c p n : bytes_ok bs -> p = zlen a -> n = length bs ->
  load_le (a ++ bs ++ c) p n 0 = Some (le_decode bs).
Proof.
  intros Hbs -> ->. pose proof (load_le_spec bs c 0 Hbs ltac:(lia)) as H.
  apply (load_le_frame a _ []) in H. rewrite app_nil_r in H.
  rewrite Z.add_0_r in H. rewrite H. f_equal. lia.
Qed.

Lemma load_le_head bs c n : bytes_ok bs -> n = length bs ->
  load_le (bs ++ c) 0 n 0 = Some (le_decode bs).
Proof. intros Hbs Hn. exact (load_le_mid [] bs c 0 n Hbs eq_refl Hn). Qed.

Lemma store_le_mid a b c p n v : p = zlen a -> length b = n ->
  store_le (a ++ b ++ c) p n v = Some (a ++ le_encode n v ++ c).
Proof.
  revert a b p v. induction n as [|n IH]; intros a b p v -> Hb; cbn [store_le le_encode].
  { by destruct b. }
  destruct b as [|x b]; simpl in Hb; [lia|]. simpl app. rewrite store8_mid by done. simpl_bind.
  rewrite land_255, uwrap_small by (apply Z.mod_pos_bound; lia).
  change (a ++ v mod 256 :: b ++ c) with (a ++ [v mod 256] ++ b ++ c). rewrite app_assoc.
  rewrite IH by (rewrite ?zlen_snoc; lia). rewrite Z.shiftr_div_pow2 by lia.
  by rewrite <- app_assoc.
Qed.

Lemma store_le_head b c n v : length b = n -> store_le (b ++ c) 0 n v = Some (le_encode n v ++ c).
Proof. exact (store_le_mid [] b c 0 n v eq_refl). Qed.

(** ** Backward length *)

Lemma zlen_backlen l : 1 <= zlen (lpEncodeBacklen l) <= 5.
Proof. unfold lpEncodeBacklen. repeat case_match; done. Qed.

Lemma decode_step m p b val shift fuel : load8 m p = Some b -> is_byte b ->
  0 <= shift <= 28 -> 0 <= val < 2 ^ shift ->
  lpDecodeBacklen_loop (S fuel) m p val shift =
    let val := val + b mod 128 * 2 ^ shift in
    if b <? 128 then Some val
    else if 28 <? shift + 7 then Some UINT64_MAX
    else lpDecodeBacklen_loop fuel m (p - 1) val (shift + 7).
Proof.
  intros Hb Hbyte Hs Hv. cbn [lpDecodeBacklen_loop]. rewrite Hb. simpl_bind.
  rewrite land_128_byte by done. rewrite land_127, shiftl_lor_add by lia. done.
Qed.

Lemma backlen_byte_hi x : 0 <= x < 128 -> u8 (Z.lor x 128) = x + 128.
Proof. intros. rewrite lor_128, uwrap_small by (eval_pow2; lia). done. Qed.

Lemma mod128_range x : 0 <= x mod 128 < 128.
Proof. apply Z.mod_pos_bound. lia. Qed.

Lemma lpDecodeBacklen_frame fuel a r c i v s w :
  lpDecodeBacklen_loop fuel r i v s = Some w ->
  lpDecodeBacklen_loop fuel (a ++ r ++ c) (zlen a + i) v s = Some w.
Proof.
  revert i v s. induction fuel as [|fuel IH]; intros i v s; [done|]. cbn [lpDecodeBacklen_loop].
  destruct (load8 r i) as [b|] eqn:Hb; [|done]. simpl_bind.
  rewrite (load8_frame _ _ _ _ _ Hb). simpl_bind.
  case_match; [done|]. case_match; [done|].
  replace (zlen a + i - 1) with (zlen a + (i - 1)) by lia. apply IH.
Qed.

Lemma lpDecodeBacklen_encode l : 0 <= l < 2 ^ 35 ->
  lpDecodeBacklen (lpEncodeBacklen l) (zlen (lpEncodeBacklen l) - 1) = Some l.
Proof.
  intros Hl. eval_pow2. unfold lpDecodeBacklen, lpEncodeBacklen.
  rewrite !land_127, !Z.shiftr_div_pow2 by lia. eval_pow2.
  rewrite !backlen_byte_hi by apply mod128_range.
  repeat case_match; rewrite ?Z.ltb_lt, ?Z.ltb_ge, ?Z.leb_le, ?Z.leb_gt in *;
    rewrite !uwrap_small by (eval_pow2; Z.div_mod_to_equations; lia).
  all: repeat (erewrite decode_step; [| reflexivity | unfold is_byte; Z.div_mod_to_equations; lia
         | lia | eval_pow2; Z.div_mod_to_equations; lia ]; cbv zeta;
       match goal with |- context [?x <? 128] => destruct (Z.ltb_spec x 128) end;
       [ try (exfalso; Z.div_mod_to_equations; lia) | try (exfalso; Z.div_mod_to_equations; lia)];
       try match goal with |- context [28 <? ?x] =>
         change (28 <? x) with false || change (28 <? x) with true; cbv iota end).
  all: f_equal; eval_pow2; Z.div_mod_to_equations; lia.
Qed.

(** ** Entries *)

(** The encoding of one element, without its backward length. *)
Record raw_ok (r : list Z) : Prop := {
  raw_bytes : bytes_ok r;
  raw_ne : 0 < zlen r;
  raw_not_eof : load8 r 0 <> Some LP_EOF;
  raw_size : lpCurrentEncodedSizeUnsafe r 0 = Some (zlen r);
}.

Lemma lpCurrentEncodedSizeUnsafe_frame a r c i n :
  lpCurrentEncodedSizeUnsafe r i = Some n ->
  lpCurrentEncodedSizeUnsafe (a ++ r ++ c) (zlen a + i) = Some n.
Proof.
  unfold lpCurrentEncodedSizeUnsafe, LP_ENCODING_6BIT_STR_LEN, LP_ENCODING_12BIT_STR_LEN,
    LP_ENCODING_32BIT_STR_LEN.
  destruct (load8 r i) as [b|] eqn:Hb; [|done]. simpl_bind.
  rewrite (load8_frame _ _ _ _ _ Hb). simpl_bind.
  repeat (case_match; [done|]).
  replace (zlen a + i + 1) with (zlen a + (i + 1)) by lia.
  destruct (LP_ENCODING_IS_12BIT_STR b).
  { destruct (load8 r (i + 1)) as [b1|] eqn:Hb1; [|done].
    by rewrite (load8_frame _ _ _ _ _ Hb1). }
  destruct (LP_ENCODING_IS_32BIT_STR b); [|done].
  destruct (load_le r (i + 1) 4 0) as [l|] eqn:Hl; [|done].
  by rewrite (load_le_frame _ _ _ _ _ _ _ Hl).
Qed.

(** The bytes that are read to know the size of an element are part of it. *)
Lemma encodedSizeBytes_le r : raw_ok r ->
  exists k, lpCurrentEncodedSizeBytes r 0 = Some k /\ 1 <= k <= zlen r.
Proof.
  intros [Hb Hne Heof Hsz].
  destruct (proj1 (load8_is_Some r 0)) as [b Hb0]; [lia|].
  unfold lpCurrentEncodedSizeBytes, lpCurrentEncodedSizeUnsafe in *.
  rewrite Hb0 in *. simpl_bind in Hsz. simpl_bind.
  eexists. split; [reflexivity|]. repeat (case_match; [lia|]).
  destruct (LP_ENCODING_IS_12BIT_STR b).
  { unfold LP_ENCODING_12BIT_STR_LEN in Hsz. rewrite Hb0 in Hsz. simpl_bind in Hsz.
    destruct (load8 r (0 + 1)) eqn:Hl1; [|done].
    assert (0 <= 0 + 1 < zlen r) by (apply load8_is_Some; by rewrite Hl1). lia. }
  destruct (LP_ENCODING_IS_32BIT_STR b).
  { unfold LP_ENCODING_32BIT_STR_LEN in Hsz. cbn [load_le] in Hsz.
    destruct (load8 r (0 + 1)) eqn:Hl1; [|done]. simpl_bind in Hsz.
    destruct (load8 r (0 + 1 + 1)) eqn:Hl2; [|done]. simpl_bind in Hsz.
    destruct (load8 r (0 + 1 + 1 + 1)) eqn:Hl3; [|done]. simpl_bind in Hsz.
    destruct (load8 r (0 + 1 + 1 + 1 + 1)) eqn:Hl4; [|done].
    assert (0 <= 0 + 1 + 1 + 1 + 1 < zlen r) by (apply load8_is_Some; by rewrite Hl4). lia. }
  destruct (Z.eqb_spec b LP_EOF); [by subst|]. injection Hsz as Hz. lia.
Qed.

Lemma lpCurrentEncodedSizeBytes_frame a r c i n :
  lpCurrentEncodedSizeBytes r i = Some n ->
  lpCurrentEncodedSizeBytes (a ++ r ++ c) (zlen a + i) = Some n.
Proof.
  unfold lpCurrentEncodedSizeBytes.
  destruct (load8 r i) as [b|] eqn:Hb; [|done]. simpl_bind.
  by rewrite (load8_frame _ _ _ _ _ Hb).
Qed.

(** An element followed by its backward length. *)
Definition entry (r : list Z) : list Z := r ++ lpEncodeBacklen (zlen r).

Definition entries (rs : list (list Z)) : list Z := rs ≫= entry.

Lemma entries_app rs rs' : entries (rs ++ rs') = entries rs ++ entries rs'.
Proof. unfold entries. by rewrite bind_app. Qed.

Lemma entries_cons r rs : entries (r :: rs) = entry r ++ entries rs.
Proof. done. Qed.

Lemma zlen_entry r : zlen (entry r) = zlen r + zlen (lpEncodeBacklen (zlen r)).
Proof. unfold entry. by rewrite zlen_app. Qed.

(** The number of elements in the header: 65535 means unknown. *)
Definition count_ok (cnt n : Z) : Prop :=
  cnt = LP_HDR_NUMELE_UNKNOWN \/ (cnt = n /\ n < LP_HDR_NUMELE_UNKNOWN).

(** The bytes of a listpack with elements [rs] and header count [cnt]. *)
Definition lp_bytes (cnt : Z) (rs : list (list Z)) : list Z :=
  le_encode 4 (7 + zlen (entries rs)) ++ le_encode 2 cnt ++ entries rs ++ [LP_EOF].

(** The block [lp] holds a listpack with the elements [rs], followed by free space. *)
Record lp_repr (lp : list Z) (rs : list (list Z)) : Prop := {
  lp_layout : exists cnt slack, lp = lp_bytes cnt rs ++ slack /\ count_ok cnt (zlen rs);
  lp_raws : Forall raw_ok rs;
  lp_small : 7 + zlen (entries rs) <= UINT32_MAX;
}.

Lemma zlen_lp_bytes cnt rs : zlen (lp_bytes cnt rs) = 7 + zlen (entries rs).
Proof. unfold lp_bytes. rewrite !zlen_app, !zlen_encode. change (zlen [LP_EOF]) with 1. lia. Qed.

(** The offset of the element of index [zlen rs] when [rs] are the elements before it. *)
Definition pos_after (rs : list (list Z)) : Z := LP_HDR_SIZE + zlen (entries rs).

Lemma count_ok_range cnt n : count_ok cnt n -> 0 <= n -> 0 <= cnt < 2 ^ 16.
Proof. unfold count_ok, LP_HDR_NUMELE_UNKNOWN. eval_pow2. lia. Qed.

Lemma lpGetTotalBytes_repr lp rs : lp_repr lp rs ->
  lpGetTotalBytes lp = Some (7 + zlen (entries rs)).
Proof.
  intros [(cnt & slack & -> & _) _ Hsm]. unfold lpGetTotalBytes, lp_bytes.
  rewrite <- app_assoc. rewrite load_le_head by (apply le_encode_bytes || done).
  rewrite le_decode_encode, Z.mod_small; [done|].
  pose proof (zlen_nonneg (entries rs)). unfold UINT32_MAX in Hsm.
  change (256 ^ Z.of_nat 4) with 4294967296. lia.
Qed.

Lemma lpGetNumElements_layout cnt rs slack : 0 <= cnt < 2 ^ 16 ->
  lpGetNumElements (lp_bytes cnt rs ++ slack) = Some cnt.
Proof.
  intros Hc. unfold lpGetNumElements, lp_bytes. rewrite <- !app_assoc.
  rewrite load_le_mid; [| apply le_encode_bytes | done | done].
  rewrite le_decode_encode, Z.mod_small; done.
Qed.

(** ** Navigation *)

(** The block around the position that follows the elements [l]. *)
Lemma lp_split lp l k : lp_repr lp (l ++ k) ->
  exists h slack, lp = (h ++ entries l) ++ entries k ++ LP_EOF :: slack /\
    zlen (h ++ entries l) = pos_after l /\ zlen h = LP_HDR_SIZE.
Proof.
  intros [(cnt & slack & -> & _) _ _].
  exists (le_encode 4 (7 + zlen (entries (l ++ k))) ++ le_encode 2 cnt), slack.
  split_and!.
  - unfold lp_bytes. rewrite entries_app, <- !app_assoc. done.
  - rewrite !zlen_app, !zlen_encode. done.
  - by rewrite zlen_app, !zlen_encode.
Qed.

Lemma raw_lt_2_32 r : raw_ok r -> zlen r < 2 ^ 32.
Proof.
  intros [Hb _ _ Hsz]. unfold lpCurrentEncodedSizeUnsafe in Hsz.
  destruct (load8 r 0) as [b|] eqn:Hb0; [|done]. simpl_bind in Hsz. eval_pow2.
  assert (Hlast : zlen r <= 4294967295 \/ exists z, zlen r = u32 z).
  { unfold LP_ENCODING_6BIT_STR_LEN, LP_ENCODING_12BIT_STR_LEN in Hsz. rewrite Hb0 in Hsz. simpl_bind in Hsz.
    pose proof (load8_byte _ _ _ Hb Hb0) as Hbb.
    assert (Z.land b 0x3F <= 63).
    { change (Z.land b 0x3F) with (Z.land b (2 ^ 6 - 1)). rewrite land_pow2 by lia.
      pose proof (Z.mod_pos_bound b (2 ^ 6)). lia. }
    repeat (case_match; [injection Hsz as Hsz; lia|]).
    destruct (LP_ENCODING_IS_12BIT_STR b).
    { destruct (load8 r (0 + 1)) as [b1|] eqn:Hl1; [|done]. simpl_bind in Hsz. injection Hsz as Hsz.
      pose proof (load8_byte _ _ _ Hb Hl1) as Hb1. unfold is_byte in Hb1.
      rewrite Z.lor_comm, shiftl_lor_add in Hsz by (eval_pow2; lia).
      change (Z.land b 0xF) with (Z.land b (2 ^ 4 - 1)) in Hsz. rewrite land_pow2 in Hsz by lia.
      pose proof (Z.mod_pos_bound b (2 ^ 4)). eval_pow2. lia. }
    destruct (LP_ENCODING_IS_32BIT_STR b).
    { destruct (LP_ENCODING_32BIT_STR_LEN r 0) as [w|]; [|done]. simpl_bind in Hsz.
      injection Hsz as Hsz. right. by exists (5 + w). }
    case_match; injection Hsz as Hsz; lia. }
  destruct Hlast as [?|[z ->]]; [lia|]. pose proof (uwrap_range 32 z). eval_pow2. lia.
Qed.

Lemma lpSkip_repr lp l r k : lp_repr lp (l ++ r :: k) ->
  lpSkip lp (pos_after l) = Some (pos_after (l ++ [r])).
Proof.
  intros Hlp. pose proof (lp_raws _ _ Hlp) as Hraw.
  apply Forall_app in Hraw as [_ [Hr _]%Forall_cons_1].
  destruct (lp_split _ _ _ Hlp) as (h & slack & -> & Hpos & _).
  unfold lpSkip. rewrite entries_cons. unfold entry.
  pose proof (raw_size _ Hr) as Hsz.
  apply (lpCurrentEncodedSizeUnsafe_frame (h ++ entries l) r
    (lpEncodeBacklen (zlen r) ++ entries k ++ LP_EOF :: slack)) in Hsz.
  rewrite Hpos, Z.add_0_r in Hsz. rewrite <- !app_assoc in Hsz. rewrite <- !app_assoc. rewrite Hsz. simpl_bind.
  f_equal. unfold pos_after. rewrite entries_app, zlen_app, entries_cons.
  change (entries []) with (@nil Z). rewrite app_nil_r, zlen_entry. lia.
Qed.

Lemma pos_after_snoc l r : pos_after (l ++ [r]) = pos_after l + zlen (entry r).
Proof.
  unfold pos_after. rewrite entries_app, zlen_app, entries_cons.
  change (entries []) with (@nil Z). rewrite app_nil_r. lia.
Qed.

Lemma zlen_entries_split l r k :
  zlen (entries (l ++ r :: k)) = zlen (entries l) + zlen (entry r) + zlen (entries k).
Proof. rewrite entries_app, entries_cons, !zlen_app. lia. Qed.

Lemma decode_at_end lp l r k : lp_repr lp (l ++ r :: k) ->
  lpDecodeBacklen lp (pos_after (l ++ [r]) - 1) = Some (zlen r).
Proof.
  intros Hlp. pose proof (lp_raws _ _ Hlp) as Hraw.
  apply Forall_app in Hraw as [_ [Hr _]%Forall_cons_1].
  destruct (lp_split _ _ _ Hlp) as (h & slack & -> & Hpos & _).
  pose proof (raw_lt_2_32 _ Hr). pose proof (zlen_nonneg r).
  pose proof (lpDecodeBacklen_encode (zlen r)) as Hd. eval_pow2. specialize (Hd ltac:(lia)).
  unfold lpDecodeBacklen in *. rewrite entries_cons. unfold entry.
  apply (lpDecodeBacklen_frame _ ((h ++ entries l) ++ r) _ (entries k ++ LP_EOF :: slack)) in Hd.
  rewrite zlen_app, Hpos in Hd. rewrite pos_after_snoc, zlen_entry.
  rewrite <- !app_assoc in Hd. rewrite <- !app_assoc. rewrite <- Hd. f_equal. lia.
Qed.

(** Every element passes the validation of a single entry. *)
Lemma lpValidateNext_repr lp l r k : lp_repr lp (l ++ r :: k) ->
  lpValidateNext lp (Some (pos_after l)) (7 + zlen (entries (l ++ r :: k)))
    = Some (true, Some (pos_after (l ++ [r]))).
Proof.
  intros Hlp. pose proof (lp_raws _ _ Hlp) as Hraw.
  apply Forall_app in Hraw as [_ [Hr _]%Forall_cons_1].
  pose proof (decode_at_end _ _ _ _ Hlp) as Hdec.
  pose proof (pos_after_snoc l r) as Hnext. rewrite zlen_entry in Hnext.
  destruct (lp_split _ _ _ Hlp) as (h & slack & Heq & Hpos & _).
  rewrite entries_cons in Heq. unfold entry in Heq. rewrite <- !app_assoc in Heq.
  rewrite app_assoc in Heq.
  set (tl := lpEncodeBacklen (zlen r) ++ entries k ++ LP_EOF :: slack) in *.
  unfold lpValidateNext. rewrite zlen_entries_split, zlen_entry.
  pose proof (raw_ne _ Hr). pose proof (zlen_backlen (zlen r)). pose proof (zlen_nonneg (entries l)).
  pose proof (zlen_nonneg (entries k)). pose proof (raw_lt_2_32 _ Hr).
  destruct (proj1 (load8_is_Some r 0)) as [b Hb]; [lia|].
  pose proof (raw_not_eof _ Hr) as Hne. rewrite Hb in Hne.
  destruct (encodedSizeBytes_le r Hr) as (sb & Hsb & Hsbr). pose proof (raw_size _ Hr) as Hsz.
  apply (load8_frame (h ++ entries l) r tl) in Hb.
  apply (lpCurrentEncodedSizeBytes_frame (h ++ entries l) r tl) in Hsb.
  apply (lpCurrentEncodedSizeUnsafe_frame (h ++ entries l) r tl) in Hsz.
  rewrite Hpos, Z.add_0_r in Hb, Hsb, Hsz. rewrite <- Heq in Hb, Hsb, Hsz.
  unfold pos_after, LP_HDR_SIZE in *.
  rewrite (proj2 (orb_false_iff _ _)) by lia.
  rewrite Hb. simpl_bind. destruct (Z.eqb_spec b LP_EOF); [congruence|].
  rewrite Hsb. simpl_bind. rewrite (proj2 (Z.eqb_neq _ _)) by lia.
  rewrite (proj2 (orb_false_iff _ _)) by lia.
  rewrite Hsz. simpl_bind. cbv zeta.
  rewrite (proj2 (orb_false_iff _ _)) by lia.
  rewrite <- Hnext, Hdec. simpl_bind.
  rewrite uwrap_small by (eval_pow2; lia). by rewrite Z.eqb_refl.
Qed.

Lemma lpAssertValidEntry_repr lp l r k : lp_repr lp (l ++ r :: k) ->
  lpAssertValidEntry lp (7 + zlen (entries (l ++ r :: k))) (pos_after l) = Some ().
Proof.
  intros Hlp. unfold lpAssertValidEntry. by rewrite (lpValidateNext_repr _ _ _ _ Hlp).
Qed.

(** What lpFirst(), lpNext() and lpPrev() do with the position that follows [l]:
    NULL at the end of the listpack, a validated pointer otherwise. *)
Definition elem_at (l k : list (list Z)) : option Z :=
  match k with [] => None | _ :: _ => Some (pos_after l) end.

Lemma load8_at lp l k : lp_repr lp (l ++ k) ->
  match k with
  | [] => load8 lp (pos_after l) = Some LP_EOF
  | _ :: _ => exists b, load8 lp (pos_after l) = Some b /\ b <> LP_EOF
  end.
Proof.
  intros Hlp. pose proof (lp_raws _ _ Hlp) as Hraw.
  destruct (lp_split _ _ _ Hlp) as (h & slack & -> & Hpos & _). destruct k as [|r k].
  - by apply load8_mid.
  - apply Forall_app in Hraw as [_ [Hr _]%Forall_cons_1]. pose proof (raw_ne _ Hr).
    destruct (proj1 (load8_is_Some r 0)) as [b Hb]; [lia|]. exists b.
    pose proof (raw_not_eof _ Hr) as Hne. rewrite Hb in Hne. split; [|congruence].
    apply (load8_frame (h ++ entries l) _ (lpEncodeBacklen (zlen r) ++ entries k ++ LP_EOF :: slack)) in Hb.
    rewrite Hpos, Z.add_0_r in Hb. rewrite entries_cons. unfold entry. by rewrite <- !app_assoc in *.
Qed.

(** The common tail of lpFirst() and lpNext(). *)
Lemma goto_repr lp l k : lp_repr lp (l ++ k) ->
  (b ← load8 lp (pos_after l);
   if b =? LP_EOF then Some None
   else lpbytes ← lpBytes lp;
        _ ← lpAssertValidEntry lp lpbytes (pos_after l);
        Some (Some (pos_after l))) = Some (elem_at l k).
Proof.
  intros Hlp. pose proof (load8_at _ _ _ Hlp) as Hb. destruct k as [|r k].
  - by rewrite Hb.
  - destruct Hb as (b & -> & Hne). simpl_bind. rewrite (proj2 (Z.eqb_neq _ _)) by done.
    unfold lpBytes. rewrite (lpGetTotalBytes_repr _ _ Hlp). simpl_bind.
    by rewrite (lpAssertValidEntry_repr _ _ _ _ Hlp).
Qed.

Lemma lpFirst_repr lp rs : lp_repr lp rs -> lpFirst lp = Some (elem_at [] rs).
Proof. intros Hlp. apply (goto_repr lp [] rs Hlp). Qed.

Lemma lpNext_repr lp l r k : lp_repr lp (l ++ r :: k) ->
  lpNext lp (pos_after l) = Some (elem_at (l ++ [r]) k).
Proof.
  intros Hlp. unfold lpNext. rewrite (lpSkip_repr _ _ _ _ Hlp). simpl_bind.
  apply goto_repr. by rewrite <- app_assoc.
Qed.

Lemma lpPrev_repr_nil lp rs : lp_repr lp rs -> lpPrev lp (pos_after []) = Some None.
Proof. done. Qed.

Lemma lpPrev_repr lp l r k : lp_repr lp (l ++ r :: k) ->
  lpPrev lp (pos_after (l ++ [r])) = Some (Some (pos_after l)).
Proof.
  intros Hlp. pose proof (lp_raws _ _ Hlp) as Hraw.
  apply Forall_app in Hraw as [_ [Hr _]%Forall_cons_1]. unfold lpPrev.
  pose proof (pos_after_snoc l r) as Hpos. rewrite zlen_entry in Hpos.
  pose proof (raw_ne _ Hr). pose proof (zlen_backlen (zlen r)). pose proof (raw_lt_2_32 _ Hr).
  pose proof (zlen_nonneg (entries l)).
  rewrite (proj2 (Z.eqb_neq _ _)) by (rewrite Hpos; unfold pos_after; lia).
  rewrite (decode_at_end _ _ _ _ Hlp). simpl_bind.
  rewrite uwrap_small by (eval_pow2; lia).
  replace (pos_after (l ++ [r]) - 1 - (zlen r + zlen (lpEncodeBacklen (zlen r)) - 1))
    with (pos_after l) by lia.
  unfold lpBytes. rewrite (lpGetTotalBytes_repr _ _ Hlp). simpl_bind.
  by rewrite (lpAssertValidEntry_repr _ _ _ _ Hlp).
Qed.

(** The element before the position that follows [l]. *)
Definition elem_before (l : list (list Z)) : option Z :=
  match reverse l with [] => None | _ :: l' => Some (pos_after (reverse l')) end.

Lemma elem_before_snoc l r : elem_before (l ++ [r]) = Some (pos_after l).
Proof. unfold elem_before. rewrite reverse_snoc. by rewrite reverse_involutive. Qed.

Lemma lpPrev_before lp l k : lp_repr lp (l ++ k) -> lpPrev lp (pos_after l) = Some (elem_before l).
Proof.
  intros Hlp. destruct l as [|r l _] using rev_ind; [done|].
  rewrite elem_before_snoc. rewrite <- app_assoc in Hlp. by apply lpPrev_repr with k.
Qed.

Lemma lpLast_repr lp rs : lp_repr lp rs -> lpLast lp = Some (elem_before rs).
Proof.
  intros Hlp. unfold lpLast. rewrite (lpGetTotalBytes_repr _ _ Hlp). simpl_bind.
  replace (7 + zlen (entries rs) - 1) with (pos_after rs) by (unfold pos_after, LP_HDR_SIZE; lia).
  apply lpPrev_before with []. by rewrite app_nil_r.
Qed.

(** ** Seeking *)

(** The offset of the element at index [i], if there is one. *)
Definition elem_pos (rs : list (list Z)) (i : Z) : option Z :=
  if bool_decide (0 <= i < zlen rs) then Some (pos_after (take (Z.to_nat i) rs)) else None.

Lemma lpSeek_forward_repr lp n l k : lp_repr lp (l ++ k) ->
  lpSeek_forward n lp (elem_at l k) = Some (elem_pos (l ++ k) (zlen l + Z.of_nat n)).
Proof.
  revert l k. induction n as [|n IH]; intros l k Hlp; destruct k as [|r k]; cbn [lpSeek_forward elem_at].
  - unfold elem_pos. rewrite app_nil_r. rewrite bool_decide_false by lia. done.
  - unfold elem_pos. rewrite bool_decide_true.
    + do 3 f_equal. rewrite Z.add_0_r. unfold zlen. by rewrite Nat2Z.id, take_app_length.
    + rewrite zlen_app, zlen_cons. pose proof (zlen_nonneg l). pose proof (zlen_nonneg k). lia.
  - unfold elem_pos. rewrite app_nil_r. rewrite bool_decide_false by lia. done.
  - rewrite (lpNext_repr _ _ _ _ Hlp). simpl_bind.
    replace (l ++ r :: k) with ((l ++ [r]) ++ k) in * by (by rewrite <- app_assoc).
    rewrite IH by done. do 2 f_equal. rewrite zlen_snoc. lia.
Qed.

Lemma lpSeek_backward_repr lp n l k : lp_repr lp (l ++ k) ->
  lpSeek_backward n lp (elem_before l) = Some (elem_pos (l ++ k) (zlen l - 1 - Z.of_nat n)).
Proof.
  revert l k. induction n as [|n IH]; intros l k Hlp;
    (destruct l as [|r l _] using rev_ind;
     [cbn; unfold elem_pos; rewrite bool_decide_false; [done|]; change (zlen []) with 0; lia |]);
    rewrite elem_before_snoc; cbn [lpSeek_backward].
  - unfold elem_pos. rewrite zlen_snoc. replace (zlen l + 1 - 1 - Z.of_nat 0) with (zlen l) by lia.
    rewrite bool_decide_true.
    + do 3 f_equal. unfold zlen. by rewrite Nat2Z.id, <- app_assoc, take_app_length.
    + rewrite zlen_app, zlen_snoc. pose proof (zlen_nonneg l). pose proof (zlen_nonneg k). lia.
  - rewrite <- app_assoc in *. rewrite (lpPrev_before _ _ _ Hlp). simpl_bind.
    rewrite (IH l ([r] ++ k)) by done. do 2 f_equal. rewrite zlen_snoc. lia.
Qed.

Lemma lpSeek_scan_repr lp rs forward index : lp_repr lp rs ->
  (if (forward : bool) then 0 <= index else index < 0) ->
  lpSeek_scan lp forward index = Some (elem_pos rs (if forward then index else zlen rs + index)).
Proof.
  intros Hlp Hi. unfold lpSeek_scan. destruct forward.
  - rewrite (lpFirst_repr _ _ Hlp). simpl_bind.
    pose proof (lpSeek_forward_repr lp (Z.to_nat index) [] rs Hlp) as ->.
    do 2 f_equal. change (zlen []) with 0. lia.
  - rewrite (lpLast_repr _ _ Hlp). simpl_bind.
    pose proof (lpSeek_backward_repr lp (Z.to_nat (-1 - index)) rs []) as H.
    rewrite app_nil_r in H. rewrite H by done. do 2 f_equal. lia.
Qed.

Lemma lpGetNumElements_repr lp rs : lp_repr lp rs ->
  exists cnt, lpGetNumElements lp = Some cnt /\ count_ok cnt (zlen rs).
Proof.
  intros [(cnt & slack & -> & Hc) _ _]. exists cnt. split; [|done].
  apply lpGetNumElements_layout. apply count_ok_range with (zlen rs); [done | apply zlen_nonneg].
Qed.

(** lpSeek() returns the offset of the element at a given index, from the head or,
    for a negative index, from the tail, and NULL out of range, whatever side it
    scans from and whether or not the header knows the number of elements. *)
Theorem lpSeek_correct lp rs index : lp_repr lp rs ->
  lpSeek lp index = Some (elem_pos rs (if index <? 0 then zlen rs + index else index)).
Proof.
  intros Hlp. unfold lpSeek. destruct (lpGetNumElements_repr _ _ Hlp) as (cnt & -> & Hc). simpl_bind.
  destruct Hc as [->|[-> Hlt]].
  { cbv delta [LP_HDR_NUMELE_UNKNOWN] beta. rewrite Z.eqb_refl. simpl negb. cbv iota.
    destruct (Z.ltb_spec index 0); rewrite (lpSeek_scan_repr _ _ _ _ Hlp); done. }
  rewrite (proj2 (Z.eqb_neq _ _)) by lia. simpl negb. cbv iota zeta.
  set (i := if index <? 0 then zlen rs + index else index).
  destruct (Z.ltb_spec i 0).
  { unfold elem_pos. rewrite bool_decide_false by lia. done. }
  destruct (Z.leb_spec (zlen rs) i).
  { unfold elem_pos. rewrite bool_decide_false by lia. done. }
  destruct (Z.ltb_spec (Z.quot (zlen rs) 2) i); rewrite (lpSeek_scan_repr _ _ _ _ Hlp) by lia;
    [|done]. do 2 f_equal. lia.
Qed.

(** The traversal primitives move by exactly one element in both directions and
    return NULL at the ends; the assertions they make on the entry they reach hold. *)
Theorem lp_traversal_correct lp l r k : lp_repr lp (l ++ r :: k) ->
  lpFirst lp = Some (Some (pos_after [])) /\
  lpNext lp (pos_after l) = Some (elem_pos (l ++ r :: k) (zlen l + 1)) /\
  lpPrev lp (pos_after l) = Some (elem_pos (l ++ r :: k) (zlen l - 1)) /\
  lpLast lp = Some (elem_pos (l ++ r :: k) (zlen (l ++ r :: k) - 1)) /\
  lpGetTotalBytes lp = Some (pos_after (l ++ r :: k) + 1).
Proof.
  intros Hlp. split_and!.
  - rewrite (lpFirst_repr _ _ Hlp). by destruct l.
  - pose proof (lpSeek_forward_repr lp 1 l (r :: k) Hlp) as H. cbn in H.
    destruct (lpNext lp (pos_after l)); [|done]. simpl in H. by destruct o.
  - rewrite (lpPrev_before _ _ _ Hlp).
    pose proof (lpSeek_backward_repr lp 0 l (r :: k) Hlp) as H.
    replace (zlen l - 1 - Z.of_nat 0) with (zlen l - 1) in H by lia. rewrite <- H. by destruct (elem_before l).
  - rewrite (lpLast_repr _ _ Hlp).
    pose proof (lpSeek_backward_repr lp 0 (l ++ r :: k) []) as H. rewrite app_nil_r in H. specialize (H Hlp).
    replace (zlen (l ++ r :: k) - 1 - Z.of_nat 0) with (zlen (l ++ r :: k) - 1) in H by lia.
    rewrite <- H. by destruct (elem_before _).
  - rewrite (lpGetTotalBytes_repr _ _ Hlp). unfold pos_after, LP_HDR_SIZE. f_equal. lia.
Qed.

(** ** Encoding and decoding an element *)

Lemma lpStringToInt64_eq s : lpStringToInt64 s = string2ll s.
Proof.
  unfold lpStringToInt64, string2ll. destruct s as [|c s]; [done|].
  destruct ((zlen (c :: s) =? 1) && (c =? chr "0")) eqn:H0; [done|].
  destruct (c =? chr "-") eqn:Hm.
  - destruct s as [|c' s]; [done|]. destruct (_ && _); [done|].
    replace (zlen (c :: c' :: s) =? 1) with false by (rewrite !zlen_cons; pose proof (zlen_nonneg s); lia).
    by rewrite andb_false_r.
  - destruct ((chr "1" <=? c) && _); [done|]. rewrite andb_comm, H0. done.
Qed.

Definition str_raw (s : list Z) : list Z :=
  let len := zlen s in
  if len <? 64 then (128 + len) :: s
  else if len <? 4096 then [224 + len / 256; len mod 256] ++ s
  else 240 :: le_encode 4 len ++ s.

(** The encoding that lpInsert() stores for the string [s]. *)
Definition raw_of (s : list Z) : list Z :=
  match fst (lpEncodeGetType s (zlen s)) with
  | LP_ENCODING_INT intenc => intenc
  | LP_ENCODING_STRING => str_raw s
  end.

Lemma class_7bit b : 0 <= b < 128 -> LP_ENCODING_IS_7BIT_UINT b = true /\ Z.land b 0x7f = b.
Proof.
  intros Hb. split.
  - assert ((b <? 128) = true -> LP_ENCODING_IS_7BIT_UINT b = true) as H; [|apply H; lia].
    apply implb_true_iff.
    apply (byte_forall (fun b => implb (b <? 128) (LP_ENCODING_IS_7BIT_UINT b))); [done | unfold is_byte; lia].
  - rewrite land_127. apply Z.mod_small. lia.
Qed.

(** The tests of a first byte, evaluated for all the bytes of a range at once. *)
Lemma byte_range_forall (f : Z -> bool) lo hi : 0 <= lo -> hi <= 256 ->
  forallb f (seqZ lo (hi - lo)) = true -> forall b, lo <= b < hi -> f b = true.
Proof.
  intros Hlo Hhi Hf b Hb. rewrite forallb_forall in Hf. apply Hf.
  apply list_elem_of_In, elem_of_seqZ. lia.
Qed.

Lemma class_6bit b : 128 <= b < 192 ->
  LP_ENCODING_IS_7BIT_UINT b = false /\ LP_ENCODING_IS_6BIT_STR b = true /\ Z.land b 0x3F = b - 128.
Proof.
  intros Hb.
  pose proof (byte_range_forall (fun b => negb (LP_ENCODING_IS_7BIT_UINT b) &&
    LP_ENCODING_IS_6BIT_STR b && (Z.land b 0x3F =? b - 128)) 128 192 ltac:(lia) ltac:(lia) eq_refl b Hb) as H.
  apply andb_true_iff in H as [[H1%negb_true_iff H2]%andb_true_iff H3%Z.eqb_eq]. done.
Qed.

Lemma class_13bit b : 192 <= b < 224 ->
  LP_ENCODING_IS_7BIT_UINT b = false /\ LP_ENCODING_IS_6BIT_STR b = false /\
  LP_ENCODING_IS_13BIT_INT b = true /\ Z.land b 0x1f = b - 192.
Proof.
  intros Hb.
  pose proof (byte_range_forall (fun b => negb (LP_ENCODING_IS_7BIT_UINT b) &&
    negb (LP_ENCODING_IS_6BIT_STR b) && LP_ENCODING_IS_13BIT_INT b && (Z.land b 0x1f =? b - 192))
    192 224 ltac:(lia) ltac:(lia) eq_refl b Hb) as H.
  apply andb_true_iff in H as [[[H1%negb_true_iff H2%negb_true_iff]%andb_true_iff H3]%andb_true_iff H4%Z.eqb_eq].
  done.
Qed.

Lemma class_12bit b : 224 <= b < 240 ->
  LP_ENCODING_IS_7BIT_UINT b = false /\ LP_ENCODING_IS_6BIT_STR b = false /\
  LP_ENCODING_IS_13BIT_INT b = false /\ LP_ENCODING_IS_16BIT_INT b = false /\
  LP_ENCODING_IS_24BIT_INT b = false /\ LP_ENCODING_IS_32BIT_INT b = false /\
  LP_ENCODING_IS_64BIT_INT b = false /\ LP_ENCODING_IS_12BIT_STR b = true /\ Z.land b 0xF = b - 224.
Proof.
  intros Hb.
  pose proof (byte_range_forall (fun b => negb (LP_ENCODING_IS_7BIT_UINT b) &&
    negb (LP_ENCODING_IS_6BIT_STR b) && negb (LP_ENCODING_IS_13BIT_INT b) &&
    negb (LP_ENCODING_IS_16BIT_INT b) && negb (LP_ENCODING_IS_24BIT_INT b) &&
    negb (LP_ENCODING_IS_32BIT_INT b) && negb (LP_ENCODING_IS_64BIT_INT b) &&
    LP_ENCODING_IS_12BIT_STR b && (Z.land b 0xF =? b - 224))
    224 240 ltac:(lia) ltac:(lia) eq_refl b Hb) as H.
  rewrite !andb_true_iff, !negb_true_iff, Z.eqb_eq in H. tauto.
Qed.

Lemma lpGet_int_signed k v : 1 <= k <= 64 -> - 2 ^ (k - 1) <= v < 2 ^ (k - 1) ->
  lpGet_int (v mod 2 ^ k) (2 ^ (k - 1)) (2 ^ k - 1) = v.
Proof.
  intros Hk Hv. unfold lpGet_int. pose proof (pow2_half k) as Hp.
  assert (2 ^ k <= 2 ^ 64) by (apply Z.pow_le_mono_r; lia).
  destruct (Z.lt_ge_cases v 0).
  - assert (v mod 2 ^ k = v + 2 ^ k) as ->.
    { symmetry. apply Z.mod_unique with (-1); lia. }
    rewrite (proj2 (Z.leb_le _ _)) by lia. rewrite uwrap_small by lia. lia.
  - rewrite Z.mod_small by lia. rewrite (proj2 (Z.leb_gt _ _)) by lia. done.
Qed.

(** The decoding of an element alone in its block determines it in any block. *)
Definition shift_value (off : Z) (v : lp_value) : lp_value :=
  match v with LpInt val => LpInt val | LpStr ptr count => LpStr (off + ptr) count end.

Lemma lpGet_frame a r c i v : lpGet r i = Some v ->
  lpGet (a ++ r ++ c) (zlen a + i) = Some (shift_value (zlen a) v).
Proof.
  unfold lpGet, LP_ENCODING_6BIT_STR_LEN, LP_ENCODING_12BIT_STR_LEN, LP_ENCODING_32BIT_STR_LEN.
  destruct (load8 r i) as [b|] eqn:Hb; [|done]. simpl_bind.
  rewrite (load8_frame _ _ _ _ _ Hb). simpl_bind.
  replace (zlen a + i + 1) with (zlen a + (i + 1)) by lia.
  replace (zlen a + i + 2) with (zlen a + (i + 2)) by lia.
  replace (zlen a + i + 5) with (zlen a + (i + 5)) by lia.
  repeat match goal with
  | |- context [load8 r ?j] => let H := fresh in destruct (load8 r j) eqn:H; simpl_bind;
         [rewrite (load8_frame _ _ _ _ _ H) |]
  | |- context [load_le r ?j ?n ?s] => let H := fresh in destruct (load_le r j n s) eqn:H; simpl_bind;
         [rewrite (load_le_frame _ _ _ _ _ _ _ H) |]
  end; repeat case_match; simpl_bind; try done; by intros [= <-].
Qed.

(** [r] is a well-formed element that reads back as the string [s]. *)
Definition encodes (r s : list Z) : Prop :=
  raw_ok r /\
  exists v, lpGet r 0 = Some v /\
    match v with
    | LpInt val => s = ll2string_out val
    | LpStr ptr count => mem_load r ptr count = Some s
    end.

Lemma le_decode_encode_small n v k : 8 * Z.of_nat n = k ->
  le_decode (le_encode n (if v <? 0 then Z.shiftl 1 k + v else v)) = v mod 2 ^ k.
Proof.
  intros <-. rewrite le_decode_encode.
  replace (256 ^ Z.of_nat n) with (2 ^ (8 * Z.of_nat n)) by (rewrite Z.pow_mul_r by lia; done).
  rewrite Z.shiftl_mul_pow2, Z.mul_1_l by lia. case_match; [|done].
  rewrite Z.add_comm, <- (Z.mul_1_l (2 ^ _)) at 1. apply Z_mod_plus_full.
Qed.

(** The integer encodings of 16 bits and more: a fixed byte, then the value. *)
Lemma encodes_int_wide b n k v :
  (b = 0xF1 /\ n = 2%nat /\ k = 16) \/ (b = 0xF2 /\ n = 3%nat /\ k = 24) \/
  (b = 0xF3 /\ n = 4%nat /\ k = 32) \/ (b = 0xF4 /\ n = 8%nat /\ k = 64) ->
  - 2 ^ (k - 1) <= v < 2 ^ (k - 1) -> forall w, le_decode (le_encode n w) = v mod 2 ^ k ->
  encodes (b :: le_encode n w) (ll2string_out v).
Proof.
  intros Hcase Hv w Hw. split.
  - split.
    + constructor; [unfold is_byte; lia | apply le_encode_bytes].
    + rewrite zlen_cons. pose proof (zlen_nonneg (le_encode n w)). lia.
    + change (load8 (b :: le_encode n w) 0) with (Some b). unfold LP_EOF. intros [=]. lia.
    + rewrite zlen_cons, zlen_encode.
      destruct Hcase as [(->&->&->)|[(->&->&->)|[(->&->&->)|(->&->&->)]]]; done.
  - pose proof (load_le_mid [b] (le_encode n w) [] 1 n (le_encode_bytes n w) eq_refl
      (eq_sym (length_le_encode n w))) as Hload.
    rewrite app_nil_r in Hload. change ([b] ++ le_encode n w) with (b :: le_encode n w) in Hload.
    rewrite Hw in Hload. exists (LpInt v). split; [|done]. unfold lpGet.
    change (load8 (b :: le_encode n w) 0) with (Some b). simpl_bind. change (0 + 1) with 1.
    pose proof (lpGet_int_signed k v ltac:(lia) Hv) as Hg.
    destruct Hcase as [(->&->&->)|[(->&->&->)|[(->&->&->)|(->&->&->)]]]; rewrite Hload; simpl_bind;
      by rewrite <- Hg at 2.
Qed.

Lemma encodes_int_7bit v : 0 <= v <= 127 -> encodes [u8 v] (ll2string_out v).
Proof.
  intros Hv. rewrite uwrap_small by (eval_pow2; lia). destruct (class_7bit v) as [Hc Hl]; [lia|]. split.
  - split.
    + repeat constructor; lia.
    + done.
    + change (load8 [v] 0) with (Some v). unfold LP_EOF. intros [=]. lia.
    + unfold lpCurrentEncodedSizeUnsafe. change (load8 [v] 0) with (Some v). simpl_bind. by rewrite Hc.
  - exists (LpInt v). split; [|done]. unfold lpGet. change (load8 [v] 0) with (Some v). simpl_bind.
    rewrite Hc, Hl. unfold lpGet_int, UINT64_MAX, ULLONG_MAX. by rewrite (proj2 (Z.leb_gt _ _)) by lia.
Qed.

Lemma encodes_int_13bit v : -4096 <= v <= 4095 ->
  let w := if v <? 0 then Z.shiftl 1 13 + v else v in
  encodes [u8 (Z.lor (Z.shiftr w 8) 0xC0); u8 (Z.land w 0xff)] (ll2string_out v).
Proof.
  intros Hv w. assert (w = v mod 2 ^ 13) as Hw.
  { unfold w. change (Z.shiftl 1 13) with 8192. eval_pow2.
    destruct (Z.ltb_spec v 0); Z.div_mod_to_equations; lia. }
  assert (0 <= w < 8192) as Hwr by (rewrite Hw; eval_pow2; Z.div_mod_to_equations; lia).
  rewrite land_255, Z.shiftr_div_pow2 by lia. eval_pow2.
  assert (Z.lor (w / 256) 0xC0 = 192 + w / 256) as ->.
  { pose proof (shiftl_lor_add (w / 256) 6 5 ltac:(lia)) as H. change (Z.shiftl 6 5) with 192 in H.
    eval_pow2. rewrite H; Z.div_mod_to_equations; lia. }
  rewrite !uwrap_small by (eval_pow2; Z.div_mod_to_equations; lia).
  assert (192 <= 192 + w / 256 < 224) as Hb by (Z.div_mod_to_equations; lia).
  set (b := 192 + w / 256) in *.
  destruct (class_13bit b Hb) as (H7 & H6 & H13 & Hl). split.
  - split.
    + repeat constructor; Z.div_mod_to_equations; lia.
    + done.
    + change (load8 [b; w mod 256] 0) with (Some b). unfold LP_EOF. intros [=]. lia.
    + unfold lpCurrentEncodedSizeUnsafe. change (load8 [b; w mod 256] 0) with (Some b). simpl_bind.
      by rewrite H7, H6, H13.
  - exists (LpInt v). split; [|done]. unfold lpGet. change (load8 [b; w mod 256] 0) with (Some b).
    simpl_bind. rewrite H7, H6, H13, Hl. change (load8 [b; w mod 256] (0 + 1)) with (Some (w mod 256)).
    simpl_bind. rewrite Z.lor_comm, shiftl_lor_add by (eval_pow2; Z.div_mod_to_equations; lia).
    eval_pow2. replace (w mod 256 + (b - 192) * 256) with w by (unfold b; Z.div_mod_to_equations; lia).
    rewrite Hw. do 2 f_equal. apply (lpGet_int_signed 13 v); eval_pow2; lia.
Qed.

Lemma encodes_int s v : string2ll s = Some v ->
  exists intenc, lpEncodeGetType s (zlen s) = (LP_ENCODING_INT intenc, zlen intenc) /\ encodes intenc s.
Proof.
  intros Hs. apply string2ll_sound in Hs as [Hcan Hv].
  assert (ll2string_out v = s) as <-.
  { apply canonical_inj with v; [by apply ll2string_out_canonical | done]. }
  unfold lpEncodeGetType. rewrite lpStringToInt64_eq, (string2ll_complete _ _ Hcan Hv).
  unfold_limits. unfold intenc_bytes.
  repeat match goal with |- context [if ?c then _ else _] =>
    lazymatch c with (_ && _) => destruct c eqn:? end end;
    repeat match goal with H : (_ && _) = true |- _ => apply andb_true_iff in H as [?%Z.leb_le ?%Z.leb_le] end.
  - eexists. split; [apply (f_equal2 pair); reflexivity|]. apply encodes_int_7bit. lia.
  - eexists. split; [apply (f_equal2 pair); reflexivity|]. apply encodes_int_13bit. lia.
  - eexists. split; [apply (f_equal2 pair); reflexivity|]. apply (encodes_int_wide 0xF1 2 16); [lia | eval_pow2; lia |].
    apply le_decode_encode_small. done.
  - eexists. split; [apply (f_equal2 pair); reflexivity|]. apply (encodes_int_wide 0xF2 3 24); [lia | eval_pow2; lia |].
    apply le_decode_encode_small. done.
  - eexists. split; [apply (f_equal2 pair); reflexivity|]. apply (encodes_int_wide 0xF3 4 32); [lia | eval_pow2; lia |].
    apply le_decode_encode_small. done.
  - eexists. split; [apply (f_equal2 pair); reflexivity|]. apply (encodes_int_wide 0xF4 8 64); [lia | eval_pow2; lia |].
    rewrite le_decode_encode. unfold uwrap. change (256 ^ Z.of_nat 8) with (2 ^ 64). by rewrite Z.mod_mod.
Qed.

Lemma mem_load_tail a s : mem_load (a ++ s) (zlen a) (zlen s) = Some s.
Proof. rewrite <- (app_nil_r s) at 1. by apply mem_load_mid. Qed.

Lemma encodes_str s : bytes_ok s -> 5 + zlen s < 2 ^ 32 -> encodes (str_raw s) s.
Proof.
  intros Hs Hlen. pose proof (zlen_nonneg s). eval_pow2. unfold str_raw. cbv zeta.
  destruct (Z.ltb_spec (zlen s) 64); [|destruct (Z.ltb_spec (zlen s) 4096)].
  - destruct (class_6bit (128 + zlen s)) as (H7 & H6 & Hl); [lia|].
    set (b := 128 + zlen s) in *. split; [split|].
    + constructor; [unfold is_byte; lia | done].
    + rewrite zlen_cons. lia.
    + change (load8 (b :: s) 0) with (Some b). unfold LP_EOF. intros [=]. lia.
    + unfold lpCurrentEncodedSizeUnsafe, LP_ENCODING_6BIT_STR_LEN. change (load8 (b :: s) 0) with (Some b).
      simpl_bind. rewrite H7, H6, Hl, zlen_cons. f_equal. lia.
    + exists (LpStr 1 (zlen s)). split; [|by apply (mem_load_tail [b])].
      unfold lpGet, LP_ENCODING_6BIT_STR_LEN. change (load8 (b :: s) 0) with (Some b). simpl_bind.
      rewrite H7, H6, Hl. do 2 f_equal. lia.
  - assert (224 <= 224 + zlen s / 256 < 240) as Hb by (Z.div_mod_to_equations; lia).
    destruct (class_12bit (224 + zlen s / 256) Hb) as (K1 & K2 & K3 & K4 & K5 & K6 & K7 & K8 & Hl).
    set (b := 224 + zlen s / 256) in *. set (b1 := zlen s mod 256).
    assert (0 <= b1 < 256) as Hb1 by (apply Z.mod_pos_bound; lia).
    assert (Z.lor (Z.shiftl (b - 224) 8) b1 = zlen s) as Hlen'.
    { rewrite Z.lor_comm, shiftl_lor_add by (eval_pow2; lia). unfold b, b1. eval_pow2.
      Z.div_mod_to_equations. lia. }
    split; [split|].
    + repeat constructor; [lia.. | done].
    + simpl app. rewrite !zlen_cons. lia.
    + change (load8 ([b; b1] ++ s) 0) with (Some b). unfold LP_EOF. intros [=]. lia.
    + unfold lpCurrentEncodedSizeUnsafe, LP_ENCODING_12BIT_STR_LEN.
      change (load8 ([b; b1] ++ s) 0) with (Some b). change (load8 ([b; b1] ++ s) (0 + 1)) with (Some b1).
      simpl_bind. rewrite K1, K2, K3, K4, K5, K6, K7, K8, Hl, Hlen'. simpl app. rewrite !zlen_cons. f_equal. lia.
    + exists (LpStr 2 (zlen s)). split; [|by apply (mem_load_tail [b; b1])].
      unfold lpGet, LP_ENCODING_12BIT_STR_LEN.
      change (load8 ([b; b1] ++ s) 0) with (Some b). change (load8 ([b; b1] ++ s) (0 + 1)) with (Some b1).
      simpl_bind. by rewrite K1, K2, K3, K4, K5, K6, K7, K8, Hl, Hlen'.
  - assert (load_le (240 :: le_encode 4 (zlen s) ++ s) (0 + 1) 4 0 = Some (zlen s)) as Hload.
    { change (240 :: le_encode 4 (zlen s) ++ s) with ([240] ++ le_encode 4 (zlen s) ++ s).
      rewrite load_le_mid by (done || apply le_encode_bytes).
      rewrite le_decode_encode, Z.mod_small; [done|]. change (256 ^ Z.of_nat 4) with 4294967296. lia. }
    split; [split|].
    + constructor; [unfold is_byte; lia|]. apply Forall_app. split; [apply le_encode_bytes | done].
    + rewrite zlen_cons, zlen_app, zlen_encode. lia.
    + done.
    + unfold lpCurrentEncodedSizeUnsafe, LP_ENCODING_32BIT_STR_LEN.
      change (load8 (240 :: _) 0) with (Some 240). simpl_bind. rewrite Hload. simpl_bind.
      change (LP_ENCODING_IS_7BIT_UINT 240) with false. cbn [LP_ENCODING_IS_6BIT_STR].
      transitivity (Some (u32 (5 + zlen s))); [done|].
      rewrite uwrap_small by (eval_pow2; lia). rewrite zlen_cons, zlen_app, zlen_encode. f_equal. lia.
    + exists (LpStr 5 (zlen s)). split; [|by apply (mem_load_tail (240 :: le_encode 4 (zlen s)))].
      unfold lpGet, LP_ENCODING_32BIT_STR_LEN. change (load8 (240 :: _) 0) with (Some 240).
      simpl_bind. rewrite Hload. done.
Qed.

Lemma lpEncodeGetType_spec s : bytes_ok s -> 5 + zlen s < 2 ^ 32 ->
  encodes (raw_of s) s /\ snd (lpEncodeGetType s (zlen s)) = zlen (raw_of s).
Proof.
  intros Hs Hlen. unfold raw_of. destruct (string2ll s) as [v|] eqn:Hv.
  - destruct (encodes_int s v Hv) as (intenc & -> & Henc). done.
  - unfold lpEncodeGetType. rewrite lpStringToInt64_eq, Hv.
    assert (zlen (str_raw s) = if zlen s <? 64 then 1 + zlen s else if zlen s <? 4096 then 2 + zlen s
      else 5 + zlen s) as Hz.
    { unfold str_raw. repeat case_match; cbn [app]; rewrite ?zlen_cons, ?zlen_app, ?zlen_encode; lia. }
    destruct (zlen s <? 64); [|destruct (zlen s <? 4096)]; cbn [fst snd];
      (split; [by apply encodes_str | done]).
Qed.

Lemma lpGet_raw_of a s c p : bytes_ok s -> 5 + zlen s < 2 ^ 32 -> p = zlen a ->
  lpGet_intbuf (a ++ raw_of s ++ c) p = Some s.
Proof.
  intros Hs Hlen ->. destruct (lpEncodeGetType_spec s Hs Hlen) as [(_ & v & Hget & Hv) _].
  unfold lpGet_intbuf. apply (lpGet_frame a _ c) in Hget. rewrite Z.add_0_r in Hget. rewrite Hget.
  simpl_bind. destruct v as [val|ptr count]; cbn [shift_value]; [by subst|].
  by apply mem_load_frame.
Qed.

(** An element that was encoded by lpInsert() is read back by lpGet() as the same
    string, wherever it sits in a block: integers of any width, stored in their
    shortest encoding, and strings of any length up to the 32 bit limit. *)
Theorem lp_encode_decode_roundtrip a s c : bytes_ok s -> 5 + zlen s < 2 ^ 32 ->
  lpGet_intbuf (a ++ raw_of s ++ c) (zlen a) = Some s /\
  lpCurrentEncodedSizeUnsafe (a ++ raw_of s ++ c) (zlen a) = Some (snd (lpEncodeGetType s (zlen s))).
Proof.
  intros Hs Hlen. split; [by apply lpGet_raw_of|].
  destruct (lpEncodeGetType_spec s Hs Hlen) as [(Hraw & _) ->].
  pose proof (raw_size _ Hraw) as Hsz. apply (lpCurrentEncodedSizeUnsafe_frame a _ c) in Hsz.
  by rewrite Z.add_0_r in Hsz.
Qed.

(** ** Examples *)

(** The listpack of the elements "abc" and "1024". *)
Definition lp_example_raws : list (list Z) := [raw_of (str "abc"); raw_of (str "1024")].
Definition lp_example : list Z := lp_bytes 2 lp_example_raws.

Lemma raw_of_ok s : bytes_ok s -> 5 + zlen s < 2 ^ 32 -> raw_ok (raw_of s).
Proof. intros Hs Hl. by destruct (lpEncodeGetType_spec s Hs Hl) as [[? _] _]. Qed.

Lemma lp_example_repr : lp_repr lp_example lp_example_raws.
Proof.
  split.
  - exists 2, []. split; [by rewrite app_nil_r|]. by right.
  - constructor; [|constructor; [|constructor]]; (apply raw_of_ok; [apply bytes_ok_str | done]).
  - vm_compute. discriminate.
Qed.

Lemma lpSeek_correct_witness : lpSeek lp_example (-1) = Some (elem_pos lp_example_raws 1).
Proof. exact (lpSeek_correct lp_example lp_example_raws (-1) lp_example_repr). Defined.

Lemma lp_traversal_correct_witness :
  lpNext lp_example (pos_after []) = Some (elem_pos lp_example_raws 1) /\
  lpPrev lp_example (pos_after []) = Some None.
Proof.
  destruct (lp_traversal_correct lp_example [] (raw_of (str "abc")) [raw_of (str "1024")] lp_example_repr)
    as (_ & H1 & H2 & _). split; [exact H1 | exact H2].
Defined.

Lemma lp_encode_decode_roundtrip_witness :
  lpGet_intbuf ([7] ++ raw_of (str "-129") ++ []) 1 = Some (str "-129").
Proof. refine (proj1 (lp_encode_decode_roundtrip [7] (str "-129") [] _ _)); [apply bytes_ok_str | done]. Defined.
