(* ===== verification/ListpackUpdate.v ===== *)
(** * ListpackUpdate: the operations that change a listpack

    What [lpInsert], [lpAppend] and [lpDelete] of src/redis-stable/src/listpack.c do to
    the sequence of elements a listpack represents, what [lpLength] answers and what
    [lpValidateIntegrity] accepts. The operations themselves, and the representation
    [lp_repr], are in the file Listpack. *)

From S2P Require Import Prelude.
From S2P Require Import Util.
From S2P Require Import Listpack.


(** ** Insertion, replacement and deletion *)

(** Moving [T] so that exactly [e] bytes are left between [A] and [T]. *)
Lemma memmove_gap A R T S e : 0 <= e -> zlen A + e + zlen T <= zlen (A ++ R ++ T ++ S) ->
  exists X S', memmove (A ++ R ++ T ++ S) (zlen A + e) (zlen A + zlen R) (zlen T)
      = Some (A ++ X ++ T ++ S') /\ zlen X = e.
Proof.
  intros He Hfit. pose proof (zlen_nonneg T). rewrite zlen_app in Hfit.
  destruct (split_at_len (R ++ T ++ S) e) as (X & m & Hm & HX & Hml); [lia|].
  destruct (split_at_len m (zlen T)) as (Y & S' & -> & HY & _); [lia|].
  exists X, S'. split; [|done]. unfold memmove.
  replace (zlen A + zlen R) with (zlen (A ++ R)) by apply zlen_app.
  replace (A ++ R ++ T ++ S) with ((A ++ R) ++ T ++ S) at 1 by (by rewrite <- app_assoc).
  rewrite mem_load_mid by done. simpl_bind. rewrite Hm.
  replace (A ++ X ++ Y ++ S') with ((A ++ X) ++ Y ++ S') by (by rewrite <- app_assoc).
  rewrite mem_store_mid; [by rewrite <- app_assoc | rewrite zlen_app; lia | unfold zlen in *; lia].
Qed.

Lemma zrealloc_keep `{Allocator} a b size : zlen a <= size ->
  exists tl, zrealloc (a ++ b) size = a ++ tl.
Proof.
  intros Hle. unfold zrealloc, zlen in *. rewrite take_app_ge by lia.
  eexists. by rewrite <- app_assoc.
Qed.

(** Room for [e] bytes in place of [R]: reallocation if the block has to grow, move of
    the tail, reallocation if it can shrink. *)
Lemma move_phase `{Allocator} A R T S e old new :
  0 <= e -> old = zlen A + zlen R + zlen T -> new = old + e - zlen R ->
  let lp := A ++ R ++ T ++ S in
  let lp1 := if (old <? new) && (zlen lp <? new)
             then zrealloc lp (malloc_usable_size new) else lp in
  exists lp2 X S', memmove lp1 (zlen A + e) (zlen A + zlen R) (zlen T) = Some lp2 /\
    (if new <? old then zrealloc lp2 (malloc_usable_size new) else lp2) = A ++ X ++ T ++ S' /\
    zlen X = e.
Proof.
  intros He Hold Hnew lp lp1.
  assert (exists S1, lp1 = A ++ R ++ T ++ S1 /\ zlen A + e + zlen T <= zlen (A ++ R ++ T ++ S1))
    as (S1 & Hlp1 & Hfit).
  { unfold lp1. destruct (old <? new) eqn:Hlt; cbn [andb]; [destruct (Z.ltb_spec (zlen lp) new)|].
    - pose proof (malloc_usable_size_ge new).
      destruct (zrealloc_grow lp (malloc_usable_size new)) as (tl & -> & _ & Htl); [lia|].
      exists (S ++ tl). split; [unfold lp; by rewrite <- !app_assoc|]. clear lp1.
      subst lp. rewrite !zlen_app in *. lia.
    - exists S. split; [done|]. unfold lp in *. lia.
    - exists S. split; [done|]. rewrite !zlen_app. pose proof (zlen_nonneg S). lia. }
  rewrite Hlp1 in *. destruct (memmove_gap A R T S1 e He Hfit) as (X & S' & Hmove & HX).
  exists (A ++ X ++ T ++ S'), X. rewrite Hmove. destruct (Z.ltb_spec new old).
  - pose proof (malloc_usable_size_ge new).
    destruct (zrealloc_keep (A ++ X ++ T) S' (malloc_usable_size new)) as (tl & Htl).
    { rewrite !zlen_app. lia. }
    exists tl. rewrite <- !app_assoc in Htl. done.
  - by exists S'.
Qed.

Lemma store8_at a x c off v w : off = zlen a -> u8 v = w -> store8 (a ++ x :: c) off v = Some (a ++ w :: c).
Proof. intros -> <-. by apply store8_mid. Qed.

Lemma lpEncodeString_spec A X C s : zlen s < 2 ^ 32 -> zlen X = zlen (str_raw s) ->
  lpEncodeString (A ++ X ++ C) (zlen A) s (zlen s) = Some (A ++ str_raw s ++ C).
Proof.
  intros Hlen HX. pose proof (zlen_nonneg s). unfold lpEncodeString, str_raw in *. cbv zeta in *.
  destruct (Z.ltb_spec (zlen s) 64); [|destruct (Z.ltb_spec (zlen s) 4096)].
  - rewrite zlen_cons in HX.
    destruct X as [|x X]; [change (zlen []) with 0 in HX; lia|]. rewrite zlen_cons in HX. simpl app.
    rewrite (store8_at _ _ _ _ _ (128 + zlen s)); [|done|].
    2: { pose proof (shiftl_lor_add (zlen s) 1 7 ltac:(lia)) as Hl. change (Z.shiftl 1 7) with 128 in Hl.
         eval_pow2. rewrite Hl, uwrap_small by (eval_pow2; lia). lia. }
    simpl_bind. change (A ++ 128 + zlen s :: X ++ C) with (A ++ [128 + zlen s] ++ X ++ C).
    rewrite app_assoc, mem_store_mid; [by rewrite <- app_assoc | by rewrite zlen_snoc | unfold zlen in *; lia].
  - simpl app in HX. rewrite !zlen_cons in HX.
    destruct X as [|x [|y X]]; [change (zlen []) with 0 in HX; lia | change (zlen [x]) with 1 in HX; lia |].
    rewrite !zlen_cons in HX. simpl app.
    rewrite (store8_at _ _ _ _ _ (224 + zlen s / 256)); [|done|].
    2: { rewrite Z.shiftr_div_pow2 by lia. eval_pow2.
         pose proof (shiftl_lor_add (zlen s / 256) 7 5 ltac:(lia)) as Hl. change (Z.shiftl 7 5) with 0xE0 in Hl.
         eval_pow2. rewrite Hl, uwrap_small; [lia | eval_pow2 | ]; Z.div_mod_to_equations; lia. }
    simpl_bind. change (A ++ 224 + zlen s / 256 :: y :: X ++ C) with (A ++ [224 + zlen s / 256] ++ y :: X ++ C).
    rewrite app_assoc.
    rewrite (store8_at _ _ _ _ _ (zlen s mod 256)); [| by rewrite zlen_snoc |].
    2: { rewrite land_255. apply uwrap_small. apply Z.mod_pos_bound. lia. }
    simpl_bind. rewrite <- app_assoc. simpl app.
    change (A ++ 224 + zlen s / 256 :: zlen s mod 256 :: X ++ C)
      with (A ++ [224 + zlen s / 256; zlen s mod 256] ++ X ++ C).
    rewrite app_assoc, mem_store_mid; [by rewrite <- app_assoc | by rewrite zlen_app | unfold zlen in *; lia].
  - rewrite zlen_cons, zlen_app, zlen_encode in HX.
    destruct X as [|x X]; [change (zlen []) with 0 in HX; lia|]. rewrite zlen_cons in HX.
    destruct (split_at_len X 4) as (X1 & X2 & -> & HX1 & HX2); [lia|]. simpl app.
    rewrite (store8_at _ _ _ _ _ 240) by done. simpl_bind.
    change (A ++ 240 :: (X1 ++ X2) ++ C) with (A ++ [240] ++ (X1 ++ X2) ++ C). rewrite <- app_assoc, app_assoc.
    rewrite store_le_mid by (rewrite ?zlen_snoc; unfold zlen in *; lia). simpl_bind.
    rewrite (app_assoc (A ++ [240])).
    rewrite mem_store_mid; [by rewrite <- !app_assoc | | unfold zlen in *; lia].
    rewrite zlen_app, zlen_snoc, zlen_encode. lia.
Qed.

(** Storing an element and its backward length over [X]. *)
Lemma store_entry A X C s : bytes_ok s -> 5 + zlen s < 2 ^ 32 -> zlen X = zlen (entry (raw_of s)) ->
  (lp ← (match fst (lpEncodeGetType s (zlen s)) with
         | LP_ENCODING_INT intenc => mem_store (A ++ X ++ C) (zlen A) intenc
         | LP_ENCODING_STRING => lpEncodeString (A ++ X ++ C) (zlen A) s (zlen s)
         end);
   mem_store lp (zlen A + zlen (raw_of s)) (lpEncodeBacklen (zlen (raw_of s))))
  = Some (A ++ entry (raw_of s) ++ C).
Proof.
  intros Hs Hlen HX. rewrite zlen_entry in HX. pose proof (zlen_nonneg (raw_of s)).
  pose proof (zlen_backlen (zlen (raw_of s))).
  destruct (split_at_len X (zlen (raw_of s))) as (X1 & X2 & -> & HX1 & HX2); [lia|].
  assert ((match fst (lpEncodeGetType s (zlen s)) with
         | LP_ENCODING_INT intenc => mem_store (A ++ (X1 ++ X2) ++ C) (zlen A) intenc
         | LP_ENCODING_STRING => lpEncodeString (A ++ (X1 ++ X2) ++ C) (zlen A) s (zlen s)
         end) = Some (A ++ raw_of s ++ X2 ++ C)) as ->.
  { rewrite <- app_assoc. unfold raw_of in *. destruct (fst _) as [intenc|].
    - apply mem_store_mid; [done|]. unfold zlen in *. lia.
    - apply lpEncodeString_spec; [lia | done]. }
  simpl_bind. rewrite app_assoc. rewrite mem_store_mid.
  - unfold entry. by rewrite <- !app_assoc.
  - by rewrite zlen_app.
  - unfold zlen in *. lia.
Qed.

(** Where an insertion happens: before an element, or in place of the element [r]. *)
Definition place (R : option (list Z)) : lp_where :=
  match R with None => LP_BEFORE | Some _ => LP_REPLACE end.

Definition list_of_opt {A} (o : option A) : list A :=
  match o with None => [] | Some x => [x] end.

Lemma replaced_len_spec lp l R k : lp_repr lp (l ++ list_of_opt R ++ k) ->
  (if bool_decide (place R = LP_REPLACE) then
     len ← lpCurrentEncodedSizeUnsafe lp (pos_after l);
     let len := u32 (len + zlen (lpEncodeBacklen len)) in
     _ ← ASSERT_INTEGRITY lp (pos_after l) len;
     Some len
   else Some 0) = Some (zlen (entries (list_of_opt R))).
Proof.
  intros Hlp. destruct R as [r|]; [|done]. simpl in Hlp.
  pose proof (lp_raws _ _ Hlp) as Hraw. apply Forall_app in Hraw as [_ [Hr _]%Forall_cons_1].
  pose proof (lpSkip_repr _ _ _ _ Hlp) as Hskip. unfold lpSkip in Hskip.
  cbn [place]. rewrite bool_decide_true by done.
  pose proof (pos_after_snoc l r) as Hpos. rewrite zlen_entry in Hpos.
  destruct (lpCurrentEncodedSizeUnsafe lp (pos_after l)) as [len|]; [|done].
  simpl_bind in Hskip. simpl_bind. injection Hskip as Hskip.
  assert (len + zlen (lpEncodeBacklen len) = zlen (entry r)) as -> by (rewrite zlen_entry; lia).
  pose proof (lp_small _ _ Hlp) as Hsm. rewrite zlen_entries_split in Hsm. unfold_limits.
  pose proof (zlen_nonneg (entries l)). pose proof (zlen_nonneg (entries k)).
  pose proof (zlen_nonneg (entry r)).
  rewrite uwrap_small by (eval_pow2; lia). cbv zeta. unfold ASSERT_INTEGRITY.
  rewrite (lpGetTotalBytes_repr _ _ Hlp). simpl_bind.
  rewrite (proj2 (andb_true_iff _ _)).
  - simpl_bind. cbn [list_of_opt]. rewrite entries_cons. change (entries []) with (@nil Z). by rewrite app_nil_r.
  - rewrite zlen_entries_split. unfold pos_after, LP_HDR_SIZE. lia.
Qed.

(** The update of the number of elements in the header. *)
Lemma header_count h4 cnt rest n d : zlen h4 = 4 -> count_ok cnt n -> 0 <= n -> 0 <= n + d <= n + 1 ->
  exists cnt', (num_elements ← lpGetNumElements (h4 ++ le_encode 2 cnt ++ rest);
    if negb (num_elements =? LP_HDR_NUMELE_UNKNOWN)
    then lpSetNumElements (h4 ++ le_encode 2 cnt ++ rest) (num_elements + d)
    else Some (h4 ++ le_encode 2 cnt ++ rest)) = Some (h4 ++ le_encode 2 cnt' ++ rest) /\
    count_ok cnt' (n + d).
Proof.
  intros Hh Hc Hn Hd. pose proof (count_ok_range _ _ Hc Hn). unfold lpGetNumElements, lpSetNumElements.
  rewrite load_le_mid by (apply le_encode_bytes || done). simpl_bind.
  rewrite le_decode_encode, Z.mod_small by done.
  destruct (Z.eqb_spec cnt LP_HDR_NUMELE_UNKNOWN) as [->|Hne]; simpl negb; cbv iota.
  - eexists. split; [done|]. by left.
  - rewrite store_le_mid by done. eexists. split; [done|].
    unfold count_ok, LP_HDR_NUMELE_UNKNOWN in *. lia.
Qed.

Lemma lp_layout_split lp l k : lp_repr lp (l ++ k) ->
  exists h4 cnt S, lp = (h4 ++ le_encode 2 cnt ++ entries l) ++ entries k ++ LP_EOF :: S /\
    zlen h4 = 4 /\ count_ok cnt (zlen (l ++ k)).
Proof.
  intros [(cnt & slack & -> & Hc) _ _]. exists (le_encode 4 (7 + zlen (entries (l ++ k)))), cnt, slack.
  split_and!; [| apply zlen_encode | exact Hc].
  unfold lp_bytes. rewrite entries_app, <- !app_assoc. reflexivity.
Qed.

Lemma s64_small z : - 2 ^ 63 <= z < 2 ^ 63 -> s64 (u64 z) = z.
Proof. intros. rewrite swrap_uwrap by lia. apply swrap_small; [lia|]. done. Qed.


(** The new elements: the encoding of the inserted string, or nothing for a deletion. *)
Definition new_raws (ele : option (list Z)) : list (list Z) :=
  match ele with None => [] | Some s => [raw_of s] end.

Definition ele_ok (ele : option (list Z)) : Prop :=
  match ele with None => True | Some s => bytes_ok s /\ 5 + zlen s < 2 ^ 32 end.

Lemma new_raws_ok ele : ele_ok ele -> Forall raw_ok (new_raws ele).
Proof. destruct ele as [s|]; [|constructor]. intros []. constructor; [by apply raw_of_ok | constructor]. Qed.

Lemma zlen_new_raws ele : ele_ok ele ->
  let enclen := match ele with Some ele => snd (lpEncodeGetType ele (zlen ele)) | None => 0 end in
  let backlen := match ele with Some _ => lpEncodeBacklen enclen | None => [] end in
  enclen + zlen backlen = zlen (entries (new_raws ele)) /\
  0 <= zlen (entries (new_raws ele)) < 2 ^ 33.
Proof.
  destruct ele as [s|]; cbn zeta; [|done]. intros [Hs Hl].
  destruct (lpEncodeGetType_spec s Hs Hl) as [[Hr _] ->]. cbn [new_raws]. rewrite entries_cons.
  change (entries []) with (@nil Z). rewrite app_nil_r, zlen_entry. split; [done|].
  pose proof (raw_lt_2_32 _ Hr). pose proof (raw_ne _ Hr). pose proof (zlen_backlen (zlen (raw_of s))).
  eval_pow2. lia.
Qed.

(** The element written in the gap [X], the header updated. *)
Lemma write_phase ele R h4 cnt l k X S n newtotal :
  ele_ok ele -> (ele = None -> R <> None) -> zlen h4 = 4 -> count_ok cnt n ->
  n = zlen (l ++ list_of_opt R ++ k) -> zlen X = zlen (entries (new_raws ele)) ->
  let lp := (h4 ++ le_encode 2 cnt ++ entries l) ++ X ++ (entries k ++ [LP_EOF]) ++ S in
  let enctype := match ele with Some ele => fst (lpEncodeGetType ele (zlen ele))
                 | None => LP_ENCODING_STRING end in
  let enclen := match ele with Some ele => snd (lpEncodeGetType ele (zlen ele)) | None => 0 end in
  let backlen := match ele with Some _ => lpEncodeBacklen enclen | None => [] end in
  exists cnt', count_ok cnt' (zlen (l ++ new_raws ele ++ k)) /\
  (lp ← (match ele with
         | Some ele =>
             lp ← (match enctype with
                   | LP_ENCODING_INT intenc => mem_store lp (pos_after l) intenc
                   | LP_ENCODING_STRING => lpEncodeString lp (pos_after l) ele (zlen ele)
                   end);
             mem_store lp (pos_after l + enclen) backlen
         | None => Some lp
         end);
   lp ← (if negb (bool_decide (place R = LP_REPLACE)) || bool_decide (ele = None) then
           num_elements ← lpGetNumElements lp;
           if negb (num_elements =? LP_HDR_NUMELE_UNKNOWN) then
             lpSetNumElements lp (match ele with
                                  | Some _ => num_elements + 1
                                  | None => num_elements - 1
                                  end)
           else Some lp
         else Some lp);
   lpSetTotalBytes lp newtotal)
  = Some (le_encode 4 newtotal ++ le_encode 2 cnt' ++ entries (l ++ new_raws ele ++ k) ++ LP_EOF :: S).
Proof.
  intros Hele Hdel Hh4 Hc Hn HX. cbv zeta.
  set (A := h4 ++ le_encode 2 cnt ++ entries l). set (C := (entries k ++ [LP_EOF]) ++ S).
  assert (pos_after l = zlen A) as Hpos.
  { unfold A, pos_after, LP_HDR_SIZE. rewrite !zlen_app, zlen_encode. lia. }
  assert ((match ele with
         | Some ele =>
             lp ← (match fst (lpEncodeGetType ele (zlen ele)) with
                   | LP_ENCODING_INT intenc => mem_store (A ++ X ++ C) (pos_after l) intenc
                   | LP_ENCODING_STRING => lpEncodeString (A ++ X ++ C) (pos_after l) ele (zlen ele)
                   end);
             mem_store lp (pos_after l + snd (lpEncodeGetType ele (zlen ele)))
               (lpEncodeBacklen (snd (lpEncodeGetType ele (zlen ele))))
         | None => Some (A ++ X ++ C)
         end) = Some (A ++ entries (new_raws ele) ++ C)) as Hstore.
  { destruct ele as [s|]; cbn [new_raws] in *.
    - destruct Hele as [Hs Hl]. destruct (lpEncodeGetType_spec s Hs Hl) as [_ ->].
      rewrite entries_cons in *. change (entries []) with (@nil Z) in *. rewrite app_nil_r in *.
      rewrite Hpos. by apply store_entry.
    - change (entries []) with (@nil Z) in *. by rewrite (zlen_eq_nil X) by done. }
  assert (exists cnt', count_ok cnt' (zlen (l ++ new_raws ele ++ k)) /\
    (if negb (bool_decide (place R = LP_REPLACE)) || bool_decide (ele = None) then
       num_elements ← lpGetNumElements (A ++ entries (new_raws ele) ++ C);
       if negb (num_elements =? LP_HDR_NUMELE_UNKNOWN) then
         lpSetNumElements (A ++ entries (new_raws ele) ++ C)
           (match ele with Some _ => num_elements + 1 | None => num_elements - 1 end)
       else Some (A ++ entries (new_raws ele) ++ C)
     else Some (A ++ entries (new_raws ele) ++ C))
    = Some (h4 ++ le_encode 2 cnt' ++ entries l ++ entries (new_raws ele) ++ C)) as (cnt' & Hc' & Hhdr).
  { replace (A ++ entries (new_raws ele) ++ C)
      with (h4 ++ le_encode 2 cnt ++ entries l ++ entries (new_raws ele) ++ C)
      by (unfold A; by rewrite <- !app_assoc).
    set (rest := entries l ++ _). pose proof (zlen_nonneg l). pose proof (zlen_nonneg k).
    subst n. destruct ele as [s|], R as [r|]; cbn [place list_of_opt new_raws app] in *;
      rewrite ?zlen_app, ?zlen_cons in *; try (by destruct (Hdel eq_refl)).
    - exists cnt. done.
    - destruct (header_count h4 cnt rest _ 1 Hh4 Hc) as (cnt' & Hh & Hc'); [lia..|].
      exists cnt'. rewrite Hh. split; [|done]. by replace (zlen l + (1 + zlen k)) with (zlen l + zlen k + 1) by lia.
    - destruct (header_count h4 cnt rest _ (-1) Hh4 Hc) as (cnt' & Hh & Hc'); [lia..|].
      exists cnt'. split; [by replace (zlen l + zlen k) with (zlen l + (1 + zlen k) + -1) by lia | exact Hh]. }
  exists cnt'. split; [done|].
  replace (match ele with Some ele => _ | None => _ end) with (Some (A ++ entries (new_raws ele) ++ C))
    by (rewrite <- Hstore; by destruct ele).
  simpl_bind. rewrite Hhdr. simpl_bind.
  unfold lpSetTotalBytes. rewrite store_le_head by (unfold zlen in Hh4; lia).
  unfold C. rewrite !entries_app, <- !app_assoc. done.
Qed.

Lemma first_byte A k S : Forall raw_ok k ->
  exists b, load8 (A ++ (entries k ++ [LP_EOF]) ++ S) (zlen A) = Some b /\
    (if b =? LP_EOF then None else Some (zlen A)) = match k with [] => None | _ => Some (zlen A) end.
Proof.
  intros Hk. destruct k as [|r k].
  - exists LP_EOF. split; [by apply (load8_mid A LP_EOF S) | done].
  - apply Forall_cons in Hk as [Hr _]. destruct r as [|b r]; [by pose proof (raw_ne _ Hr)|].
    exists b. split.
    { rewrite entries_cons. by apply (load8_mid A b). }
    pose proof (raw_not_eof _ Hr) as Hne. rewrite (load8_mid [] b r) in Hne by done.
    by rewrite (proj2 (Z.eqb_neq b LP_EOF)) by congruence.
Qed.

Lemma zlen_entries3 l m k : zlen (entries (l ++ m ++ k)) =
  zlen (entries l) + zlen (entries m) + zlen (entries k).
Proof. rewrite !entries_app, !zlen_app. lia. Qed.

Lemma zlen_prefix h4 cnt l : zlen h4 = 4 -> pos_after l = zlen (h4 ++ le_encode 2 cnt ++ entries l).
Proof. intros. unfold pos_after, LP_HDR_SIZE. rewrite !zlen_app, zlen_encode. lia. Qed.

(** The move of the tail, for an insertion and for a replacement. *)
Lemma place_move lp R p e n T : n = zlen (entries (list_of_opt R)) ->
  (if bool_decide (place R = LP_BEFORE) then memmove lp (p + e) p (T + n)
   else memmove lp (p + n + (e - n)) (p + n) T) = memmove lp (p + e) (p + n) T.
Proof.
  intros ->. destruct R as [r|]; cbn [place]; [rewrite bool_decide_false by done|rewrite bool_decide_true by done].
  - f_equal. lia.
  - cbn [list_of_opt]. change (zlen (entries [])) with 0. f_equal; lia.
Qed.

Lemma newp_spec (ele : option (list Z)) A X l k S : Forall raw_ok k -> pos_after l = zlen A ->
  zlen X = zlen (entries (new_raws ele)) ->
  match ele with
  | Some _ => Some (Some (pos_after l))
  | None => b ← load8 (A ++ X ++ (entries k ++ [LP_EOF]) ++ S) (pos_after l);
            Some (if b =? LP_EOF then None else Some (pos_after l))
  end = Some (match ele with Some _ => Some (pos_after l) | None => elem_at l k end).
Proof.
  intros Hk Hpos HX. destruct ele as [s|]; [done|]. rewrite (zlen_eq_nil X HX). cbn [app].
  destruct (first_byte A k S Hk) as (b & Hb & Hif). rewrite Hpos, Hb. simpl_bind.
  rewrite Hif. unfold elem_at. rewrite Hpos. by destruct k.
Qed.

Lemma bind3_cont {A B C D} (M : option A) (N : A -> option B) (Q : B -> option C) v (G : C -> option D) :
  (M ≫= fun a => N a ≫= Q) = Some v -> (M ≫= fun a => N a ≫= fun b => Q b ≫= G) = G v.
Proof.
  destruct M as [a|]; [|done]. simpl_bind. destruct (N a) as [b|]; [|done]. simpl_bind. by intros ->.
Qed.

Lemma lpInsert_at_repr `{Allocator} lp l R k ele : lp_repr lp (l ++ list_of_opt R ++ k) ->
  ele_ok ele -> (ele = None -> R <> None) ->
  if UINT32_MAX <? 7 + zlen (entries (l ++ new_raws ele ++ k))
  then lpInsert_at lp ele (pos_after l) (place R) = Some None
  else exists lp', lp_repr lp' (l ++ new_raws ele ++ k) /\
    lpInsert_at lp ele (pos_after l) (place R) =
      Some (Some (lp', match ele with Some _ => Some (pos_after l) | None => elem_at l k end)).
Proof.
  intros Hlp Hele Hdel. unfold lpInsert_at. cbv zeta.
  pose proof (replaced_len_spec _ _ _ _ Hlp) as Hrep. cbv zeta in Hrep.
  rewrite (lpGetTotalBytes_repr _ _ Hlp). simpl_bind. rewrite Hrep. simpl_bind.
  destruct (zlen_new_raws ele Hele) as [Hnew Hnewr].
  pose proof (lp_small _ _ Hlp) as Hsm. unfold_limits.
  pose proof (zlen_entries3 l (list_of_opt R) k) as Hlen0.
  pose proof (zlen_entries3 l (new_raws ele) k) as Hlen1.
  pose proof (zlen_nonneg (entries l)). pose proof (zlen_nonneg (entries k)).
  pose proof (zlen_nonneg (entries (list_of_opt R))).
  destruct (lp_layout_split lp l (list_of_opt R ++ k) Hlp) as (h4 & cnt & S & Heq & Hh4 & Hc).
  assert (lp = (h4 ++ le_encode 2 cnt ++ entries l) ++ entries (list_of_opt R) ++ (entries k ++ [LP_EOF]) ++ S) as Heq'.
  { rewrite Heq, entries_app, <- !app_assoc. done. }
  clear Heq. pose proof (zlen_prefix h4 cnt l Hh4) as Hpos.
  pose proof (zlen_snoc (entries k) LP_EOF) as HT.
  assert (Forall raw_ok k) as Hk.
  { pose proof (lp_raws _ _ Hlp) as Hf. by apply Forall_app in Hf as [_ [_ ?]%Forall_app]. }
  set (new := 7 + zlen (entries (l ++ new_raws ele ++ k))) in *.
  set (old := 7 + zlen (entries (l ++ list_of_opt R ++ k))) in *.
  pose proof (fun X S' => write_phase ele R h4 cnt l k X S' _ new Hele Hdel Hh4 Hc eq_refl) as Hwrite.
  cbv zeta in Hwrite.
  set (enclen := match ele with Some _ => snd _ | None => 0 end) in *.
  set (backlen := match ele with Some _ => lpEncodeBacklen _ | None => [] end) in *.
  rewrite (uwrap_small 64) by (eval_pow2; lia).
  replace (old + enclen + zlen backlen - zlen (entries (list_of_opt R))) with new by lia.
  destruct (4294967295 <? new) eqn:Hbig; [done|].
  set (A := h4 ++ le_encode 2 cnt ++ entries l) in *.
  assert (zlen A = 6 + zlen (entries l)) as HA by (rewrite <- Hpos; done).
  destruct (move_phase A (entries (list_of_opt R)) (entries k ++ [LP_EOF]) S
     (zlen (entries (new_raws ele))) old new) as (lp2 & X & S' & Hmove & Hlp2 & HX); [lia..|].
  rewrite <- Heq' in Hmove.
  rewrite s64_small by (eval_pow2; lia).
  replace (old - pos_after l) with (zlen (entries k ++ [LP_EOF]) + zlen (entries (list_of_opt R))) by lia.
  replace (pos_after l + enclen + zlen backlen) with (pos_after l + zlen (entries (new_raws ele))) by lia.
  rewrite <- Hpos in Hmove. rewrite Hnew, Z.add_simpl_r, place_move by done. rewrite Hmove.
  simpl_bind. rewrite Hlp2.
  destruct (Hwrite X S' HX) as (cnt' & Hc' & Hw). 
  exists (lp_bytes cnt' (l ++ new_raws ele ++ k) ++ S'). split.
  - split; [by exists cnt', S' | | unfold_limits; unfold new in Hbig; lia].
    pose proof (lp_raws _ _ Hlp) as Hf. apply Forall_app in Hf as [Hl _].
    rewrite !Forall_app. eauto using new_raws_ok.
  - rewrite newp_spec by done. simpl_bind.
    replace (lp_bytes _ _ ++ S') with (le_encode 4 new ++ le_encode 2 cnt' ++
      entries (l ++ new_raws ele ++ k) ++ LP_EOF :: S') by (unfold lp_bytes; by rewrite <- !app_assoc).
    exact (bind3_cont _ _ _ _ (fun lp3 => Some (Some (lp3, _))) Hw).
Qed.

(** Where the new element goes and what surrounds it there. *)
Definition insertion_point (ele : option (list Z)) (where_ : lp_where) (l : list (list Z))
    (r : list Z) (k : list (list Z)) : list (list Z) * list (list Z) :=
  match ele, where_ with
  | Some _, LP_BEFORE => (l, r :: k)
  | Some _, LP_AFTER => (l ++ [r], k)
  | _, _ => (l, k)
  end.

(** C39. lpInsert() next to, or in place of, the element at 'p': the elements of the result
    are those of the listpack with the encoding of the new one inserted before or after
    'p', or replacing it ('ele' NULL: with the element removed, whatever 'where' is), all
    the others untouched, header count and total bytes kept right; '*newp' is the new
    element, or the one that follows a deleted one. NULL is returned exactly when the
    result would exceed the 32 bit size of the header, and no access is out of bounds. *)
Theorem lpInsert_correct `{Allocator} lp l r k ele where_ :
  lp_repr lp (l ++ r :: k) -> ele_ok ele ->
  let '(l', k') := insertion_point ele where_ l r k in
  if UINT32_MAX <? 7 + zlen (entries (l' ++ new_raws ele ++ k'))
  then lpInsert lp ele (pos_after l) where_ = Some None
  else exists lp', lp_repr lp' (l' ++ new_raws ele ++ k') /\
    lpInsert lp ele (pos_after l) where_ =
      Some (Some (lp', match ele with Some _ => Some (pos_after l') | None => elem_at l' k' end)).
Proof.
  intros Hlp Hele. unfold lpInsert. destruct ele as [s|]; [destruct where_|]; cbn [insertion_point].
  - rewrite bool_decide_false by done. exact (lpInsert_at_repr lp l None (r :: k) (Some s) Hlp Hele ltac:(done)).
  - rewrite bool_decide_true by done. rewrite (lpSkip_repr _ _ _ _ Hlp). simpl_bind.
    unfold ASSERT_INTEGRITY. rewrite (lpGetTotalBytes_repr _ _ Hlp). simpl_bind.
    rewrite (proj2 (andb_true_iff _ _)).
    2: { pose proof (zlen_nonneg (entries (l ++ [r]))). pose proof (zlen_nonneg (entries k)).
         pose proof (zlen_entries3 l [r] k). rewrite entries_app, zlen_app in *. simpl app in *.
         unfold pos_after, LP_HDR_SIZE. rewrite entries_app, zlen_app. lia. }
    simpl_bind. replace (l ++ r :: k) with ((l ++ [r]) ++ k) in Hlp by (by rewrite <- app_assoc).
    exact (lpInsert_at_repr lp (l ++ [r]) None k (Some s) Hlp Hele ltac:(done)).
  - rewrite bool_decide_false by done. exact (lpInsert_at_repr lp l (Some r) k (Some s) Hlp Hele ltac:(done)).
  - rewrite bool_decide_false by done. exact (lpInsert_at_repr lp l (Some r) k None Hlp Hele ltac:(done)).
Qed.

(** lpDelete() removes exactly the element at 'p' and never fails; '*newp' is the element
    that followed it, NULL if it was the last. *)
Theorem lpDelete_correct `{Allocator} lp l r k : lp_repr lp (l ++ r :: k) ->
  exists lp', lp_repr lp' (l ++ k) /\ lpDelete lp (pos_after l) = Some (Some (lp', elem_at l k)).
Proof.
  intros Hlp. pose proof (lpInsert_at_repr lp l (Some r) k None Hlp I ltac:(done)) as Hd.
  cbn [new_raws app] in Hd. pose proof (lp_small _ _ Hlp) as Hsm.
  pose proof (zlen_entries3 l [r] k) as H3. simpl app in H3. rewrite H3 in Hsm.
  rewrite (proj2 (Z.ltb_ge _ _)) in Hd; [exact Hd|].
  rewrite entries_app, zlen_app. pose proof (zlen_nonneg (entries [r])). lia.
Qed.

(** lpAppend() adds the element at the end, or returns NULL exactly when the result
    would exceed the size limit; the last element of the result is the new one. *)
Theorem lpAppend_correct `{Allocator} lp rs s : lp_repr lp rs -> bytes_ok s -> 5 + zlen s < 2 ^ 32 ->
  if UINT32_MAX <? 7 + zlen (entries (rs ++ [raw_of s]))
  then lpAppend lp s = Some None
  else exists lp', lp_repr lp' (rs ++ [raw_of s]) /\ lpAppend lp s = Some (Some lp') /\
    exists p, lpLast lp' = Some (Some p) /\ lpGet_intbuf lp' p = Some s.
Proof.
  intros Hlp Hs Hl. unfold lpAppend. rewrite (lpGetTotalBytes_repr _ _ Hlp). simpl_bind.
  replace (7 + zlen (entries rs) - 1) with (pos_after rs) by (unfold pos_after, LP_HDR_SIZE; lia).
  rewrite <- (app_nil_r rs) in Hlp.
  pose proof (lpInsert_at_repr lp rs None [] (Some s) Hlp (conj Hs Hl) ltac:(done)) as Hi.
  cbn [new_raws app place] in Hi. unfold lpInsert. rewrite bool_decide_false by done. cbn [app] in Hi.
  destruct (UINT32_MAX <? _); [by rewrite Hi|]. destruct Hi as (lp' & Hlp' & ->).
  exists lp'. split_and!; [done..|]. exists (pos_after rs).
  split; [by rewrite (lpLast_repr _ _ Hlp'), elem_before_snoc|].
  destruct (lp_split _ _ _ Hlp') as (h & slack & -> & <- & _). rewrite entries_cons. unfold entry.
  rewrite <- !(app_assoc (raw_of s)). by apply lpGet_raw_of.
Qed.

(** ** Creation, length and shrinking *)

(** lpNew() returns an empty listpack whatever the requested capacity. *)
Theorem lpNew_correct `{Allocator} capacity :
  exists lp, lpNew capacity = Some lp /\ lp_repr lp [] /\ capacity <= zlen lp.
Proof.
  unfold lpNew. set (n := if (LP_HDR_SIZE + 1 <? capacity) then _ else _).
  assert (7 <= n /\ capacity <= n) as [Hn Hcap] by (unfold n, LP_HDR_SIZE; case_match; lia).
  pose proof (malloc_usable_size_ge n). cbv zeta.
  destruct (zrealloc_grow [] (malloc_usable_size n)) as (tl & Heq & _ & Hlen); [change (zlen []) with 0; lia|].
  rewrite Heq, app_nil_l. change (zlen []) with 0 in Hlen.
  destruct (split_at_len tl 4) as (a & b & -> & Ha & Hb); [lia|].
  destruct (split_at_len b 2) as (c & d & -> & Hc & Hd); [lia|].
  destruct d as [|x slack]; [change (zlen []) with 0 in Hd; lia|]. rewrite zlen_cons in Hd.
  unfold lpSetTotalBytes, lpSetNumElements. rewrite store_le_head by (unfold zlen in *; lia). simpl_bind.
  rewrite store_le_mid by (rewrite ?zlen_encode; unfold zlen in *; lia). simpl_bind.
  rewrite app_assoc, store8_mid by (by rewrite zlen_app, !zlen_encode).
  eexists. split; [reflexivity|]. split.
  - split; [|constructor|unfold_limits; change (zlen (entries [])) with 0; lia].
    exists 0, slack. split; [|right; done]. unfold lp_bytes. rewrite <- !app_assoc. reflexivity.
  - rewrite !zlen_app, zlen_cons, !zlen_encode. lia.
Qed.

Lemma lpShrinkToFit_repr `{Allocator} lp rs : lp_repr lp rs ->
  exists lp', lpShrinkToFit lp = Some lp' /\ lp_repr lp' rs.
Proof.
  intros Hlp. unfold lpShrinkToFit. rewrite (lpGetTotalBytes_repr _ _ Hlp). simpl_bind.
  destruct (_ <? _); [|by eauto]. eexists. split; [done|]. destruct Hlp as [(cnt & slack & -> & Hc) Hr Hs].
  destruct (zrealloc_keep (lp_bytes cnt rs) slack (malloc_usable_size (7 + zlen (entries rs)))) as (tl & ->).
  { rewrite zlen_lp_bytes. apply malloc_usable_size_ge. }
  split; [|done..]. by exists cnt, tl.
Qed.

Lemma zlen_entries_ge rs : Forall raw_ok rs -> 2 * zlen rs <= zlen (entries rs).
Proof.
  induction 1 as [|r rs Hr _ IH]; [done|]. rewrite entries_cons, zlen_app, zlen_cons, zlen_entry.
  pose proof (raw_ne _ Hr). pose proof (zlen_backlen (zlen r)). lia.
Qed.

Lemma lpLength_loop_repr lp l k fuel c : lp_repr lp (l ++ k) -> (length k <= fuel)%nat ->
  0 <= c -> c + zlen k < 2 ^ 32 -> lpLength_loop fuel lp (elem_at l k) c = Some (c + zlen k).
Proof.
  revert l fuel c. induction k as [|r k IH]; intros l fuel c Hlp Hf Hc0 Hc.
  - destruct fuel; simpl; f_equal; change (zlen []) with 0; lia.
  - rewrite zlen_cons in *. destruct fuel as [|fuel]; [simpl in Hf; lia|].
    simpl lpLength_loop. rewrite (lpNext_repr _ _ _ _ Hlp). simpl_bind.
    pose proof (zlen_nonneg k). rewrite uwrap_small by lia. replace (l ++ r :: k) with ((l ++ [r]) ++ k) in Hlp by (by rewrite <- app_assoc).
    rewrite IH; [f_equal; lia | done | simpl in Hf; lia | lia..].
Qed.

(** lpLength() is the number of elements, also when the header says 'unknown'; the only
    change it can make is to write the right count back in the header. *)
Theorem lpLength_correct lp rs : lp_repr lp rs ->
  exists lp', lpLength lp = Some (zlen rs, lp') /\ lp_repr lp' rs.
Proof.
  intros Hlp. unfold lpLength. destruct (lpGetNumElements_repr _ _ Hlp) as (cnt & -> & Hc). simpl_bind.
  destruct (Z.eqb_spec cnt LP_HDR_NUMELE_UNKNOWN) as [->|Hne]; cbn [negb].
  2: { destruct Hc as [|[-> ?]]; [done|]. eauto. }
  rewrite (lpFirst_repr _ _ Hlp). simpl_bind.
  pose proof (lp_small _ _ Hlp). pose proof (zlen_entries_ge rs (lp_raws _ _ Hlp)).
  pose proof (zlen_nonneg rs). unfold_limits.
  rewrite (lpLength_loop_repr lp [] rs); [|done| |lia|eval_pow2; lia].
  2: { destruct Hlp as [(cnt & slack & -> & _) _ _]. rewrite length_app. pose proof (zlen_lp_bytes cnt rs). unfold zlen in *. lia. }
  simpl_bind. rewrite Z.add_0_l. destruct (Z.ltb_spec (zlen rs) LP_HDR_NUMELE_UNKNOWN); [|by eauto].
  destruct Hlp as [(cnt & slack & -> & _) Hr Hs]. unfold lp_bytes, lpSetNumElements. rewrite <- !app_assoc.
  rewrite store_le_mid by done. simpl_bind. eexists. split; [done|]. split; [|done..].
  exists (zlen rs), slack. split; [unfold lp_bytes; by rewrite <- !app_assoc|]. by right.
Qed.

(** ** Validation *)

Lemma lpValidate_loop_repr lp l k fuel c : lp_repr lp (l ++ k) -> (length k <= fuel)%nat ->
  0 <= c -> c + zlen k < 2 ^ 32 ->
  lpValidate_loop fuel lp (Some (pos_after l)) (7 + zlen (entries (l ++ k))) c = Some (Some (c + zlen k)).
Proof.
  revert l fuel c. induction k as [|r k IH]; intros l fuel c Hlp Hf Hc0 Hc.
  - pose proof (load8_at _ _ _ Hlp) as Hb. simpl in Hb.
    destruct fuel; cbn [lpValidate_loop]; rewrite Hb; simpl_bind; rewrite Z.eqb_refl;
      change (zlen []) with 0; do 2 f_equal; lia.
  - destruct (load8_at _ _ _ Hlp) as (b & Hb & Hne). rewrite zlen_cons in *.
    destruct fuel as [|fuel]; [simpl in Hf; lia|]. cbn [lpValidate_loop]. rewrite Hb. simpl_bind.
    rewrite (proj2 (Z.eqb_neq _ _)) by done. rewrite (lpValidateNext_repr _ _ _ _ Hlp). simpl_bind.
    pose proof (zlen_nonneg k). rewrite uwrap_small by lia.
    replace (l ++ r :: k) with ((l ++ [r]) ++ k) in * by (by rewrite <- app_assoc).
    rewrite IH; [do 2 f_equal; lia | done | simpl in Hf; lia | lia..].
Qed.

(** lpValidateIntegrity() accepts every listpack whose size is the given one. *)
Theorem lpValidateIntegrity_complete lp rs deep : lp_repr lp rs -> zlen lp = 7 + zlen (entries rs) ->
  lpValidateIntegrity lp (zlen lp) deep = Some true.
Proof.
  intros Hlp Hsize. unfold lpValidateIntegrity. pose proof (zlen_nonneg (entries rs)).
  rewrite (proj2 (Z.ltb_ge _ _)) by (unfold LP_HDR_SIZE; lia).
  rewrite (lpGetTotalBytes_repr _ _ Hlp). simpl_bind. rewrite <- Hsize, Z.eqb_refl. cbn [negb].
  rewrite <- (app_nil_r rs) in Hlp. pose proof (load8_at _ _ _ Hlp) as Heof. rewrite app_nil_r in Hlp.
  replace (zlen lp - 1) with (pos_after rs) by (unfold pos_after, LP_HDR_SIZE; lia).
  rewrite Heof. simpl_bind. rewrite Z.eqb_refl. cbn [negb]. destruct deep; [|done]. cbn [negb].
  pose proof (lp_small _ _ Hlp). pose proof (zlen_entries_ge rs (lp_raws _ _ Hlp)).
  pose proof (zlen_nonneg rs). unfold_limits.
  change LP_HDR_SIZE with (pos_after []). rewrite Hsize.
  rewrite (lpValidate_loop_repr lp [] rs); [|done|unfold zlen in *; lia|lia|eval_pow2; lia].
  simpl_bind. destruct (lpGetNumElements_repr _ _ Hlp) as (cnt & -> & Hc). simpl_bind. rewrite Z.add_0_l.
  destruct Hc as [->|[-> _]]; [done|]. rewrite Z.eqb_refl. by rewrite andb_false_r.
Qed.

Lemma load_le_is_Some lp n p s : 0 <= p -> p + Z.of_nat n <= zlen lp -> is_Some (load_le lp p n s).
Proof.
  revert p s. induction n as [|n IH]; intros p s Hp Hn; simpl load_le; [by eexists|].
  destruct (proj1 (load8_is_Some lp p)) as [b ->]; [lia|]. simpl_bind.
  destruct (IH (p + 1) (s + 8)) as [r ->]; [lia..|]. by eexists.
Qed.

(** The size of an entry can be read when the bytes lpCurrentEncodedSizeBytes() announces are there. *)
Lemma lpCurrentEncodedSizeUnsafe_safe lp p n : bytes_ok lp -> lpCurrentEncodedSizeBytes lp p = Some n ->
  p + n <= zlen lp -> exists len, lpCurrentEncodedSizeUnsafe lp p = Some len /\ 0 <= len.
Proof.
  intros Hlp. unfold lpCurrentEncodedSizeBytes, lpCurrentEncodedSizeUnsafe.
  destruct (load8 lp p) as [b|] eqn:Hb; [|done]. simpl_bind. intros [= <-].
  pose proof (load8_byte _ _ _ Hlp Hb) as Hbr. unfold is_byte in Hbr.
  assert (0 <= p) by (enough (0 <= p < zlen lp) by lia; apply load8_is_Some; by eexists).
  unfold LP_ENCODING_6BIT_STR_LEN, LP_ENCODING_12BIT_STR_LEN, LP_ENCODING_32BIT_STR_LEN.
  repeat (case_match; [try (eexists; split; [done | lia])|]); try (eexists; split; [done | lia]); intros Hn.
  - rewrite Hb. simpl_bind. eexists. split; [done|].
    enough (0 <= Z.land b 0x3F) by lia. apply Z.land_nonneg. lia.
  - rewrite Hb. simpl_bind. destruct (proj1 (load8_is_Some lp (p + 1))) as [b1 Hb1]; [lia|].
    rewrite Hb1. simpl_bind. eexists. split; [done|]. pose proof (load8_byte _ _ _ Hlp Hb1) as Hb1r.
    unfold is_byte in Hb1r. match goal with |- 0 <= 2 + ?x => enough (0 <= x) by lia end.
    apply Z.lor_nonneg. split; [|lia]. apply Z.shiftl_nonneg, Z.land_nonneg. lia.
  - destruct (load_le_is_Some lp 4 (p + 1) 0) as [v ->]; [lia..|]. simpl_bind.
    eexists. split; [done|]. by apply uwrap_range.
Qed.

Lemma lpDecodeBacklen_loop_safe fuel lp p v s : (0 < fuel)%nat -> 28 < s + 7 * Z.of_nat fuel ->
  Z.of_nat fuel <= p + 1 -> p < zlen lp -> is_Some (lpDecodeBacklen_loop fuel lp p v s).
Proof.
  revert p v s. induction fuel as [|fuel IH]; intros p v s Hf Hs Hp Hlt; [lia|].
  cbn [lpDecodeBacklen_loop]. destruct (proj1 (load8_is_Some lp p)) as [b ->]; [lia|]. simpl_bind. cbv zeta.
  destruct (_ =? 0); [by eexists|]. destruct (Z.ltb_spec 28 (s + 7)); [by eexists|]. apply IH; lia.
Qed.

Lemma lpValidateNext_safe lp p : bytes_ok lp ->
  exists ok pp, lpValidateNext lp (Some p) (zlen lp) = Some (ok, pp) /\
    (ok = true -> pp = None /\ load8 lp p = Some LP_EOF \/
       exists p', pp = Some p' /\ lpSkip lp p = Some p' /\ LP_HDR_SIZE <= p < p' /\ p' < zlen lp).
Proof.
  intros Hlp. unfold lpValidateNext. cbv zeta. unfold LP_HDR_SIZE.
  destruct ((p <? 6) || (zlen lp - 1 <? p)) eqn:Hr1; [by (eexists _, _; split)|].
  destruct (proj1 (load8_is_Some lp p)) as [b Hb]; [lia|]. rewrite Hb. simpl_bind.
  destruct (Z.eqb_spec b LP_EOF) as [->|Hne]; [eexists _, _; split; [done|]; by left|].
  destruct (lpCurrentEncodedSizeBytes lp p) as [n|] eqn:Hn.
  2: { unfold lpCurrentEncodedSizeBytes in Hn. by rewrite Hb in Hn. }
  simpl_bind. destruct (Z.eqb_spec n 0); [by (eexists _, _; split)|].
  destruct ((p + n <? 6) || (zlen lp - 1 <? p + n)) eqn:Hr2; [by (eexists _, _; split)|].
  destruct (lpCurrentEncodedSizeUnsafe_safe lp p n) as (len & Hlen & Hpos); [done..|lia|].
  rewrite Hlen. simpl_bind. pose proof (zlen_backlen len).
  destruct ((p + (len + zlen (lpEncodeBacklen len)) <? 6)
    || (zlen lp - 1 <? p + (len + zlen (lpEncodeBacklen len)))) eqn:Hr3; [by (eexists _, _; split)|].
  destruct (lpDecodeBacklen_loop_safe 5 lp (p + (len + zlen (lpEncodeBacklen len)) - 1) 0 0) as [prev Hprev];
    [lia..|].
  unfold lpDecodeBacklen. rewrite Hprev. simpl_bind. case_match; [by (eexists _, _; split)|].
  eexists _, _. split; [done|]. intros _. right. eexists. split; [done|].
  unfold lpSkip. rewrite Hlen. simpl_bind. split; [done|]. lia.
Qed.

Lemma lpValidate_loop_safe fuel lp p c : bytes_ok lp -> LP_HDR_SIZE <= p < zlen lp ->
  zlen lp - p <= Z.of_nat fuel -> is_Some (lpValidate_loop fuel lp (Some p) (zlen lp) c).
Proof.
  intros Hlp. revert p c. induction fuel as [|fuel IH]; intros p c Hp Hf; [lia|].
  cbn [lpValidate_loop]. destruct (proj1 (load8_is_Some lp p)) as [b Hb]; [unfold LP_HDR_SIZE in *; lia|].
  rewrite Hb. simpl_bind. destruct (b =? LP_EOF) eqn:Heof; [by eexists|].
  destruct (lpValidateNext_safe lp p Hlp) as (ok & pp & -> & Hok). simpl_bind.
  destruct ok; [|by eexists]. destruct (Hok eq_refl) as [[_ He]|(p' & -> & _ & ? & ?)].
  - rewrite Hb in He. injection He as ->. done.
  - apply IH; lia.
Qed.

(** A validated chain of entries can be traversed: lpNext() finds the same entries, its
    assertions hold, and it ends. *)
Lemma lpValidate_loop_sound fuel lp p c n : bytes_ok lp -> LP_HDR_SIZE <= p < zlen lp ->
  lpGetTotalBytes lp = Some (zlen lp) ->
  lpValidate_loop fuel lp (Some p) (zlen lp) c = Some (Some n) ->
  exists pp, (b ← load8 lp p;
    if b =? LP_EOF then Some None
    else lpbytes ← lpBytes lp;
         _ ← lpAssertValidEntry lp lpbytes p;
         Some (Some p)) = Some pp /\ lpLength_loop fuel lp pp c = Some n.
Proof.
  intros Hlp Hp Htot. revert p c Hp. induction fuel as [|fuel IH]; intros p c Hp; cbn [lpValidate_loop].
  all: destruct (proj1 (load8_is_Some lp p)) as [b Hb]; [unfold LP_HDR_SIZE in *; lia|]; rewrite Hb; simpl_bind.
  all: destruct (b =? LP_EOF) eqn:Heof; [intros [= <-]; by exists None|].
  { done. }
  destruct (lpValidateNext_safe lp p Hlp) as (ok & pp & Hv & Hok). rewrite Hv. simpl_bind.
  destruct ok; [|done]. destruct (Hok eq_refl) as [[_ He]|(p' & -> & Hskip & ? & ?)].
  { rewrite Hb in He. injection He as ->. done. }
  intros Hrest. destruct (IH p' _ ltac:(lia) Hrest) as (pp' & Hgo & Hlen).
  exists (Some p). unfold lpBytes, lpAssertValidEntry. rewrite Htot. simpl_bind. rewrite Hv. simpl_bind.
  split; [done|]. cbn [lpLength_loop]. unfold lpNext. rewrite Hskip. simpl_bind. rewrite Hgo. exact Hlen.
Qed.

(** C40. Whatever bytes it is given, lpValidateIntegrity() reads nothing outside of them and
    answers; when a deep validation accepts, the whole listpack can be traversed with
    lpFirst() and lpNext() without a read out of bounds or a failed assertion, and the
    number of entries met is the header's, unless that is 'unknown'. *)
Theorem lpValidateIntegrity_sound lp deep : bytes_ok lp ->
  exists ok, lpValidateIntegrity lp (zlen lp) deep = Some ok /\
  (ok = true -> deep = true ->
   exists p n, lpFirst lp = Some p /\ lpLength_loop (length lp) lp p 0 = Some n /\
     (lpGetNumElements lp = Some LP_HDR_NUMELE_UNKNOWN \/ lpGetNumElements lp = Some n)).
Proof.
  intros Hlp. unfold lpValidateIntegrity. destruct (Z.ltb_spec (zlen lp) (LP_HDR_SIZE + 1)) as [|Hlen]; [by (eexists; split)|].
  assert (LP_HDR_SIZE <= LP_HDR_SIZE < zlen lp) as Hp by lia. unfold LP_HDR_SIZE in Hlen.
  destruct (load_le_is_Some lp 4 0 0) as [bytes Hb]; [lia..|].
  destruct (load_le_is_Some lp 2 4 0) as [num Hn]; [lia..|].
  unfold lpGetTotalBytes at 1. rewrite Hb. simpl_bind. destruct (Z.eqb_spec bytes (zlen lp)) as [->|]; [|by (eexists; split)].
  cbn [negb]. destruct (proj1 (load8_is_Some lp (zlen lp - 1))) as [last Hl]; [lia|].
  rewrite Hl. simpl_bind. destruct (last =? LP_EOF); [|by (eexists; split)]. cbn [negb]. destruct deep; [|by (eexists; split)].
  cbn [negb]. destruct (lpValidate_loop_safe (length lp) lp LP_HDR_SIZE 0) as [r Hr]; [done..|unfold zlen, LP_HDR_SIZE; lia|].
  rewrite Hr. simpl_bind. destruct r as [count|]; [|by (eexists; split)]. unfold lpGetNumElements. rewrite Hn. simpl_bind.
  exists (negb (negb (num =? LP_HDR_NUMELE_UNKNOWN) && negb (num =? count))).
  split; [by destruct (_ && _)|]. intros Hok _.
  destruct (lpValidate_loop_sound (length lp) lp LP_HDR_SIZE 0 count) as (p & Hfirst & Hcount); [done..|].
  exists p, count. split_and!; [exact Hfirst | exact Hcount|].
  destruct (Z.eqb_spec num LP_HDR_NUMELE_UNKNOWN) as [->|]; [by left|].
  destruct (Z.eqb_spec num count) as [->|]; [by right|done].
Qed.

(** ** Examples *)

Lemma lpInsert_correct_witness : exists lp',
  lp_repr lp' [raw_of (str "abc"); raw_of (str "-5"); raw_of (str "1024")] /\
  @lpInsert exact_allocator lp_example (Some (str "-5")) 6 LP_AFTER = Some (Some (lp', Some 11)).
Proof.
  refine (@lpInsert_correct exact_allocator lp_example [] (raw_of (str "abc")) [raw_of (str "1024")]
    (Some (str "-5")) LP_AFTER lp_example_repr _).
  split; [apply bytes_ok_str | done].
Defined.

Lemma lpDelete_correct_witness : exists lp',
  lp_repr lp' [raw_of (str "1024")] /\ @lpDelete exact_allocator lp_example 6 = Some (Some (lp', Some 6)).
Proof.
  exact (@lpDelete_correct exact_allocator lp_example [] (raw_of (str "abc")) [raw_of (str "1024")] lp_example_repr).
Defined.

Lemma lpAppend_correct_witness : exists lp',
  lp_repr lp' (lp_example_raws ++ [raw_of (str "xy")]) /\
  @lpAppend exact_allocator lp_example (str "xy") = Some (Some lp') /\
  exists p, lpLast lp' = Some (Some p) /\ lpGet_intbuf lp' p = Some (str "xy").
Proof.
  refine (@lpAppend_correct exact_allocator lp_example lp_example_raws (str "xy") lp_example_repr _ _);
    [apply bytes_ok_str | done].
Defined.

Lemma lpLength_correct_witness : exists lp', lpLength lp_example = Some (2, lp') /\ lp_repr lp' lp_example_raws.
Proof. exact (lpLength_correct lp_example lp_example_raws lp_example_repr). Defined.

Lemma lpValidateIntegrity_complete_witness : lpValidateIntegrity lp_example (zlen lp_example) true = Some true.
Proof. exact (lpValidateIntegrity_complete lp_example lp_example_raws true lp_example_repr eq_refl). Defined.

Lemma lpValidateIntegrity_sound_witness : exists p n, lpFirst lp_example = Some p /\
  lpLength_loop (length lp_example) lp_example p 0 = Some n.
Proof.
  destruct (lpValidateIntegrity_sound lp_example true) as (ok & Hok & H); [vm_compute; repeat constructor; discriminate|].
  destruct H as (p & n & H1 & H2 & _); [vm_compute in Hok; congruence | reflexivity|]. exists p, n. exact (conj H1 H2).
Defined.
