(* ===== verification/Dict.v ===== *)
(** * Hash tables with incremental rehashing (src/redis-stable/src/dict.c, dict.h)

    A dictionary has two tables of chained buckets; while it is being rehashed, entries
    are moved from the first to the second, one bucket at a time. The definitions follow
    the source function by function; an entry is designated by the table, the bucket and
    the position in the chain where it is, as a pointer to it does. A result [None] is an
    access out of bounds, a NULL dereference or a failed assertion.

    The number of entries is not wrapped at 64 bits: every entry occupies memory. *)
From S2P Require Import Prelude.

(** ** Types *)

(** dictType: the hash function and the comparison of keys are parameters of the table. Keys
    and values are taken up to their contents, so that keyDup and valDup are the identity
    and the destructors release memory only. [fresh_val] is the contents of the value field
    of a newly allocated entry. *)
Class DictType (K V : Type) := {
  hashFunction : K -> Z;
  keyCompare : K -> K -> bool;
  expandAllowed : Z -> Z -> Z -> bool;   (** memory wanted, 'used' and 'size' of the table *)
  fresh_val : V;
  hashFunction_range k : 0 <= hashFunction k < 2 ^ 64;
  keyCompare_spec k1 k2 : keyCompare k1 k2 = true <-> k1 = k2;
}.

Definition DICT_HT_INITIAL_SIZE : Z := 4.
Definition dict_force_resize_ratio : Z := 5.
Definition LONG_MAX : Z := 9223372036854775807.
Definition sizeof_ptr : Z := 8.

Record dictEntry {K V : Type} := DictEntry { key : K; val : V }.
Arguments dictEntry : clear implicits.
Arguments DictEntry {K V}.

(** 'table' is NULL or an array of chains. *)
Record dictht {K V : Type} := Dictht {
  table : option (list (list (dictEntry K V)));
  size : Z;
  sizemask : Z;
  used : Z;
}.
Arguments dictht : clear implicits.
Arguments Dictht {K V}.

Record dict {K V : Type} := Dict {
  ht0 : dictht K V;
  ht1 : dictht K V;
  rehashidx : Z;
  pauserehash : Z;
}.
Arguments dict : clear implicits.
Arguments Dict {K V}.

(** A pointer to an entry: ht[ref_table].table[ref_index], [ref_pos] times ->next. *)
Record entry_ref := EntryRef { ref_table : bool; ref_index : Z; ref_pos : nat }.

Section operations.
Context {K V : Type} `{DictType K V}.

(** ht[0] and ht[1]. *)
Definition ht (d : dict K V) (t : bool) : dictht K V := if t then ht1 d else ht0 d.

Definition set_ht (d : dict K V) (t : bool) (h : dictht K V) : dict K V :=
  if t then Dict (ht0 d) h (rehashidx d) (pauserehash d)
  else Dict h (ht1 d) (rehashidx d) (pauserehash d).

Definition set_rehashidx (d : dict K V) (i : Z) : dict K V := Dict (ht0 d) (ht1 d) i (pauserehash d).

(** ht->table[i], and the assignment to it *)
Definition ht_chain (h : dictht K V) (i : Z) : option (list (dictEntry K V)) :=
  t ← table h; if 0 <=? i then t !! Z.to_nat i else None.

Definition ht_set_chain (h : dictht K V) (i : Z) (c : list (dictEntry K V)) : option (dictht K V) :=
  t ← table h;
  if (0 <=? i) && (i <? zlen t)
  then Some (Dictht (Some (<[Z.to_nat i := c]> t)) (size h) (sizemask h) (used h)) else None.

Definition ht_add_used (h : dictht K V) (n : Z) : dictht K V :=
  Dictht (table h) (size h) (sizemask h) (used h + n).

Definition dictSlots (d : dict K V) : Z := size (ht0 d) + size (ht1 d).
Definition dictSize (d : dict K V) : Z := used (ht0 d) + used (ht1 d).
Definition dictIsRehashing (d : dict K V) : bool := negb (rehashidx d =? -1).
Definition dictPauseRehashing (d : dict K V) : dict K V :=
  Dict (ht0 d) (ht1 d) (rehashidx d) (s16 (pauserehash d + 1)).
Definition dictResumeRehashing (d : dict K V) : dict K V :=
  Dict (ht0 d) (ht1 d) (rehashidx d) (s16 (pauserehash d - 1)).

(** ** Creation and resizing *)

Definition _dictReset : dictht K V := Dictht None 0 0 0.

Definition _dictInit : dict K V := Dict _dictReset _dictReset (-1) 0.

Definition dictCreate : dict K V := _dictInit.

(** while(1) { if (i >= size) return i; i *= 2; } *)
Fixpoint _dictNextPower_loop (fuel : nat) (i n : Z) : option Z :=
  match fuel with
  | O => None
  | S fuel => if n <=? i then Some i else _dictNextPower_loop fuel (u64 (i * 2)) n
  end.

Definition _dictNextPower (n : Z) : option Z :=
  if LONG_MAX <=? n then Some (LONG_MAX + 1)
  else _dictNextPower_loop 64 DICT_HT_INITIAL_SIZE n.

(** The dictionary, whether DICT_OK is returned, and '*malloc_failed'. [nomem] tells if the
    allocation of the given number of bytes fails; without a 'malloc_failed' argument a
    failure of the allocator ends the program, so that it is never reported. *)
Definition _dictExpand (nomem : Z -> bool) (d : dict K V) (n : Z) : option (dict K V * bool * bool) :=
  if dictIsRehashing d || (n <? used (ht0 d)) then Some (d, false, false)
  else
    realsize ← _dictNextPower n;
    if (realsize <? n) || (u64 (realsize * sizeof_ptr) <? realsize) then Some (d, false, false)
    else if realsize =? size (ht0 d) then Some (d, false, false)
    else if nomem (realsize * sizeof_ptr) then Some (d, false, true)
    else
      let n := Dictht (Some (replicate (Z.to_nat realsize) [])) realsize (realsize - 1) 0 in
      match table (ht0 d) with
      | None => Some (set_ht d false n, true, false)
      | Some _ => Some (set_rehashidx (set_ht d true n) 0, true, false)
      end.

Definition dictExpand (d : dict K V) (n : Z) : option (dict K V * bool) :=
  '(d, ok, _) ← _dictExpand (fun _ => false) d n; Some (d, ok).

Definition dictTryExpand (nomem : Z -> bool) (d : dict K V) (n : Z) : option (dict K V * bool) :=
  '(d, _, malloc_failed) ← _dictExpand nomem d n; Some (d, negb malloc_failed).

Definition dictResize (dict_can_resize : bool) (d : dict K V) : option (dict K V * bool) :=
  if negb dict_can_resize || dictIsRehashing d then Some (d, false)
  else
    let minimal := used (ht0 d) in
    let minimal := if minimal <? DICT_HT_INITIAL_SIZE then DICT_HT_INITIAL_SIZE else minimal in
    dictExpand d minimal.

Definition dictTypeExpandAllowed (d : dict K V) : option bool :=
  n ← _dictNextPower (used (ht0 d) + 1);
  Some (expandAllowed (n * sizeof_ptr) (used (ht0 d)) (size (ht0 d))).

Definition _dictExpandIfNeeded (dict_can_resize : bool) (d : dict K V) : option (dict K V * bool) :=
  if dictIsRehashing d then Some (d, true)
  else if size (ht0 d) =? 0 then dictExpand d DICT_HT_INITIAL_SIZE
  else if (size (ht0 d) <=? used (ht0 d)) &&
          (dict_can_resize || (dict_force_resize_ratio <? used (ht0 d) / size (ht0 d)))
  then
    allowed ← dictTypeExpandAllowed d;
    if (allowed : bool) then dictExpand d (used (ht0 d) + 1) else Some (d, true)
  else Some (d, true).

(** ** Incremental rehashing *)

(** while(d->ht[0].table[d->rehashidx] == NULL) { ... }: the new rehashidx and empty_visits, and
    whether the function returns there. *)
Fixpoint dictRehash_skip (fuel : nat) (h : dictht K V) (idx empty_visits : Z) : option (Z * Z * bool) :=
  c ← ht_chain h idx;
  match c with
  | [] =>
      match fuel with
      | O => None
      | S fuel =>
          let idx := idx + 1 in
          let empty_visits := empty_visits - 1 in
          if empty_visits =? 0 then Some (idx, empty_visits, true)
          else dictRehash_skip fuel h idx empty_visits
      end
  | _ :: _ => Some (idx, empty_visits, false)
  end.

(** Move all the keys of a bucket from the old to the new table. *)
Fixpoint dictRehash_move (de : list (dictEntry K V)) (d : dict K V) : option (dict K V) :=
  match de with
  | [] => Some d
  | e :: nextde =>
      let h := Z.land (hashFunction (key e)) (sizemask (ht1 d)) in
      c ← ht_chain (ht1 d) h;
      h1 ← ht_set_chain (ht1 d) h (e :: c);
      dictRehash_move nextde
        (Dict (ht_add_used (ht0 d) (-1)) (ht_add_used h1 1) (rehashidx d) (pauserehash d))
  end.

(** while(n-- && d->ht[0].used != 0) { ... }: the dictionary, and whether the function
    returns from inside the loop. *)
Fixpoint dictRehash_loop (n : nat) (empty_visits : Z) (d : dict K V) : option (dict K V * bool) :=
  match n with
  | O => Some (d, false)
  | S n =>
      if used (ht0 d) =? 0 then Some (d, false)
      else if negb (rehashidx d <? size (ht0 d)) then None
      else
        '(idx, empty_visits, stop) ←
          dictRehash_skip (Z.to_nat (size (ht0 d))) (ht0 d) (rehashidx d) empty_visits;
        let d := set_rehashidx d idx in
        if (stop : bool) then Some (d, true)
        else
          de ← ht_chain (ht0 d) (rehashidx d);
          d ← dictRehash_move de d;
          h0 ← ht_set_chain (ht0 d) (rehashidx d) [];
          dictRehash_loop n empty_visits (set_rehashidx (set_ht d false h0) (rehashidx d + 1))
  end.

Definition dictRehash (d : dict K V) (n : nat) : option (dict K V * bool) :=
  let empty_visits := Z.of_nat n * 10 in
  if negb (dictIsRehashing d) then Some (d, false)
  else
    '(d, stop) ← dictRehash_loop n empty_visits d;
    if (stop : bool) then Some (d, true)
    else if used (ht0 d) =? 0 then
      Some (Dict (ht1 d) _dictReset (-1) (pauserehash d), false)
    else Some (d, true).

(** while(dictRehash(d,100)) { rehashes += 100; if (timeInMilliseconds()-start > ms) break; },
    with the successive values of the clock. *)
Fixpoint dictRehashMilliseconds_loop (fuel : nat) (clock : nat -> Z) (tick : nat) (d : dict K V)
    (start ms rehashes : Z) : option (dict K V * Z) :=
  match fuel with
  | O => None
  | S fuel =>
      '(d, more) ← dictRehash d 100;
      if negb more then Some (d, rehashes)
      else
        let rehashes := rehashes + 100 in
        if ms <? clock tick - start then Some (d, rehashes)
        else dictRehashMilliseconds_loop fuel clock (S tick) d start ms rehashes
  end.

Definition dictRehashMilliseconds (clock : nat -> Z) (d : dict K V) (ms : Z) : option (dict K V * Z) :=
  if 0 <? pauserehash d then Some (d, 0)
  else dictRehashMilliseconds_loop (S (Z.to_nat (size (ht0 d)))) clock 1 d (clock 0%nat) ms 0.

Definition _dictRehashStep (d : dict K V) : option (dict K V) :=
  if pauserehash d =? 0 then '(d, _) ← dictRehash d 1; Some d else Some d.

(** if (dictIsRehashing(d)) _dictRehashStep(d); *)
Definition rehash_step_if_rehashing (d : dict K V) : option (dict K V) :=
  if dictIsRehashing d then _dictRehashStep d else Some d.

(** ** Operations on entries *)

(** The position of the key in a chain. *)
Fixpoint chain_find (k : K) (he : list (dictEntry K V)) : option nat :=
  match he with
  | [] => None
  | e :: next => if keyCompare k (key e) then Some 0%nat else S <$> chain_find k next
  end.

(** One turn of the loop over the two tables: the bucket of the key in table [t] and the
    position of the key in it. *)
Definition dict_search_table (d : dict K V) (t : bool) (k : K) (hash : Z) : option (Z * option entry_ref) :=
  let idx := Z.land hash (sizemask (ht d t)) in
  he ← ht_chain (ht d t) idx;
  Some (idx, EntryRef t idx <$> chain_find k he).

(** for (table = 0; table <= 1; table++) { ... if (!dictIsRehashing(d)) break; }, the loop of
    _dictKeyIndex(), dictFind() and dictGenericDelete(): the last 'idx' and the entry found. *)
Definition dict_search (d : dict K V) (k : K) (hash : Z) : option (Z * option entry_ref) :=
  '(idx, he) ← dict_search_table d false k hash;
  match he with
  | Some _ => Some (idx, he)
  | None => if negb (dictIsRehashing d) then Some (idx, None) else dict_search_table d true k hash
  end.

(** The index, -1 if the key exists (or no table could be made), and '*existing'. *)
Definition _dictKeyIndex (dict_can_resize : bool) (d : dict K V) (k : K) (hash : Z)
    : option (dict K V * Z * option entry_ref) :=
  '(d, ok) ← _dictExpandIfNeeded dict_can_resize d;
  if negb ok then Some (d, -1, None)
  else
    '(idx, he) ← dict_search d k hash;
    match he with
    | Some _ => Some (d, -1, he)
    | None => Some (d, idx, None)
    end.

(** The new entry, if there is one, and '*existing'. *)
Definition dictAddRaw (dict_can_resize : bool) (d : dict K V) (k : K)
    : option (dict K V * option entry_ref * option entry_ref) :=
  d ← rehash_step_if_rehashing d;
  '(d, index, existing) ← _dictKeyIndex dict_can_resize d k (hashFunction k);
  if index =? -1 then Some (d, None, existing)
  else
    let t := dictIsRehashing d in
    c ← ht_chain (ht d t) index;
    h ← ht_set_chain (ht d t) index (DictEntry k fresh_val :: c);
    Some (set_ht d t (ht_add_used h 1), Some (EntryRef t index 0), existing).

Definition entry_at (d : dict K V) (r : entry_ref) : option (dictEntry K V) :=
  c ← ht_chain (ht d (ref_table r)) (ref_index r); c !! ref_pos r.

Definition dictSetVal (d : dict K V) (r : entry_ref) (v : V) : option (dict K V) :=
  c ← ht_chain (ht d (ref_table r)) (ref_index r);
  e ← c !! ref_pos r;
  h ← ht_set_chain (ht d (ref_table r)) (ref_index r) (<[ref_pos r := DictEntry (key e) v]> c);
  Some (set_ht d (ref_table r) h).

Definition dictAdd (dict_can_resize : bool) (d : dict K V) (k : K) (v : V) : option (dict K V * bool) :=
  '(d, entry, _) ← dictAddRaw dict_can_resize d k;
  match entry with
  | None => Some (d, false)
  | Some entry => d ← dictSetVal d entry v; Some (d, true)
  end.

(** When no entry could be added, '*existing' is dereferenced. *)
Definition dictReplace (dict_can_resize : bool) (d : dict K V) (k : K) (v : V) : option (dict K V * bool) :=
  '(d, entry, existing) ← dictAddRaw dict_can_resize d k;
  match entry with
  | Some entry => d ← dictSetVal d entry v; Some (d, true)
  | None =>
      existing ← existing;
      d ← dictSetVal d existing v;
      Some (d, false)
  end.

Definition dictAddOrFind (dict_can_resize : bool) (d : dict K V) (k : K)
    : option (dict K V * option entry_ref) :=
  '(d, entry, existing) ← dictAddRaw dict_can_resize d k;
  Some (d, match entry with Some _ => entry | None => existing end).

(** Unlink the element from the list; 'used' is decremented. *)
Definition dict_unlink_at (d : dict K V) (r : entry_ref) : option (dict K V * dictEntry K V) :=
  let t := ref_table r in
  c ← ht_chain (ht d t) (ref_index r);
  he ← c !! ref_pos r;
  h ← ht_set_chain (ht d t) (ref_index r) (delete (ref_pos r) c);
  Some (set_ht d t (ht_add_used h (-1)), he).

Definition dictGenericDelete (d : dict K V) (k : K) : option (dict K V * option (dictEntry K V)) :=
  if (used (ht0 d) =? 0) && (used (ht1 d) =? 0) then Some (d, None)
  else
    d ← rehash_step_if_rehashing d;
    let h := hashFunction k in
    '(_, he) ← dict_search d k h;
    match he with
    | Some r => '(d, he) ← dict_unlink_at d r; Some (d, Some he)
    | None => Some (d, None)
    end.

Definition dictDelete (d : dict K V) (k : K) : option (dict K V * bool) :=
  '(d, he) ← dictGenericDelete d k; Some (d, match he with Some _ => true | None => false end).

Definition dictUnlink (d : dict K V) (k : K) : option (dict K V * option (dictEntry K V)) :=
  dictGenericDelete d k.

(** The dictionary (a step of rehashing may be done) and the entry. *)
Definition dictFind (d : dict K V) (k : K) : option (dict K V * option entry_ref) :=
  if dictSize d =? 0 then Some (d, None)
  else
    d ← rehash_step_if_rehashing d;
    let h := hashFunction k in
    '(_, he) ← dict_search d k h;
    Some (d, he).

Definition dictFetchValue (d : dict K V) (k : K) : option (dict K V * option V) :=
  '(d, he) ← dictFind d k;
  match he with
  | None => Some (d, None)
  | Some he => e ← entry_at d he; Some (d, Some (val e))
  end.

(** for (i = 0; i < ht->size && ht->used > 0; i++): the entries that are freed, in order. *)
Fixpoint _dictClear_loop (fuel : nat) (h : dictht K V) (i used : Z) : option (list (dictEntry K V)) :=
  if (i <? size h) && (0 <? used) then
    match fuel with
    | O => None
    | S fuel =>
        he ← ht_chain h i;
        rest ← _dictClear_loop fuel h (i + 1) (used - zlen he);
        Some (he ++ rest)
    end
  else Some [].

(** The reinitialized table and the entries that were freed. *)
Definition _dictClear (h : dictht K V) : option (dictht K V * list (dictEntry K V)) :=
  freed ← _dictClear_loop (Z.to_nat (size h)) h 0 (used h);
  Some (_dictReset, freed).

Definition dictEmpty (d : dict K V) : option (dict K V * list (dictEntry K V)) :=
  '(h0, freed0) ← _dictClear (ht0 d);
  '(h1, freed1) ← _dictClear (ht1 d);
  Some (Dict h0 h1 (-1) 0, freed0 ++ freed1).

End operations.

(** ** Tables *)

Section facts.
Context {K V : Type} `{DictType K V}.
Implicit Types (h : dictht K V) (d : dict K V) (c : list (dictEntry K V)).

Definition ht_entries h : list (dictEntry K V) := concat (default [] (table h)).

(** A table is NULL, or an array of a power of two of chains, each with entries of its hash. *)
Record ht_alloc h : Prop := {
  ht_size : exists k, 2 <= k <= 60 /\ size h = 2 ^ k;
  ht_table : exists t, table h = Some t /\ zlen t = size h;
  ht_mask : sizemask h = size h - 1;
  ht_used : used h = zlen (ht_entries h);
  ht_hash i c e : ht_chain h i = Some c -> e ∈ c -> Z.land (hashFunction (key e)) (sizemask h) = i;
}.

Definition ht_ok h : Prop := h = _dictReset \/ ht_alloc h.

Lemma ht_ok_used h : ht_ok h -> used h = zlen (ht_entries h).
Proof. intros [->|Hh]; [done | apply Hh]. Qed.

Lemma ht_size_pos h : ht_alloc h -> 4 <= size h <= 2 ^ 60.
Proof.
  intros Hh. destruct (ht_size _ Hh) as (k & Hk & ->). change 4 with (2 ^ 2).
  split; apply Z.pow_le_mono_r; lia.
Qed.

Lemma ht_chain_range h i c : ht_alloc h -> ht_chain h i = Some c -> 0 <= i < size h.
Proof.
  intros Hh. destruct (ht_table _ Hh) as (t & Ht & <-). unfold ht_chain. rewrite Ht. simpl_bind.
  destruct (Z.leb_spec 0 i); [|done]. intros Hc%lookup_lt_Some. unfold zlen. lia.
Qed.

Lemma ht_chain_is_Some h i : ht_alloc h -> 0 <= i < size h -> is_Some (ht_chain h i).
Proof.
  intros Hh Hi. destruct (ht_table _ Hh) as (t & Ht & Hlen). unfold ht_chain. rewrite Ht. simpl_bind.
  rewrite (proj2 (Z.leb_le 0 i)) by lia. apply lookup_lt_is_Some_2. unfold zlen in Hlen. lia.
Qed.

Lemma elem_of_ht_entries h e : ht_alloc h -> e ∈ ht_entries h <-> exists i c, ht_chain h i = Some c /\ e ∈ c.
Proof.
  intros Hh. destruct (ht_table _ Hh) as (t & Ht & Hlen). unfold ht_entries, ht_chain. rewrite Ht.
  simpl. split.
  - intros (c & Hc & He)%elem_of_concat. apply list_elem_of_lookup_1 in Hc as (i & Hi).
    exists (Z.of_nat i), c. rewrite (proj2 (Z.leb_le _ _)) by lia. by rewrite Nat2Z.id.
  - intros (i & c & Hi & He). destruct (0 <=? i); [|done]. apply elem_of_concat.
    exists c. split; [|done]. by apply list_elem_of_lookup_2 in Hi.
Qed.

Lemma bucket_range h n : ht_alloc h -> 0 <= n -> 0 <= Z.land n (sizemask h) < size h.
Proof.
  intros Hh Hn. rewrite (ht_mask _ Hh). destruct (ht_size _ Hh) as (k & Hk & ->).
  rewrite land_pow2 by lia. apply Z.mod_pos_bound. lia.
Qed.

Lemma ht_chain_set h i c h' j : ht_set_chain h i c = Some h' ->
  ht_chain h' j = if bool_decide (i = j) then Some c else ht_chain h j.
Proof.
  unfold ht_set_chain, ht_chain. destruct (table h) as [t|]; [|done]. simpl_bind.
  destruct ((0 <=? i) && (i <? zlen t)) eqn:Hi; [|done]. intros [= <-]. simpl. unfold zlen in Hi.
  destruct (Z.leb_spec 0 j); [|case_bool_decide; [lia|done]]. case_bool_decide.
  - subst. apply list_lookup_insert_eq. lia.
  - apply list_lookup_insert_ne. lia.
Qed.

(** Changing one chain of a table; [n] is the change of 'used'. *)
Lemma ht_update h i c c' : ht_alloc h -> ht_chain h i = Some c ->
  Forall (fun e => Z.land (hashFunction (key e)) (sizemask h) = i) c' ->
  exists h' rest, ht_set_chain h i c' = Some h' /\
    let h' := ht_add_used h' (zlen c' - zlen c) in
    ht_alloc h' /\ size h' = size h /\ sizemask h' = sizemask h /\
    ht_entries h ≡ₚ c ++ rest /\ ht_entries h' ≡ₚ c' ++ rest.
Proof.
  intros Hh Hi Hc'. pose proof (ht_chain_range _ _ _ Hh Hi) as Hr.
  destruct (ht_table _ Hh) as (t & Ht & Hlen).
  assert (t !! Z.to_nat i = Some c) as Hti.
  { unfold ht_chain in Hi. rewrite Ht in Hi. simpl_bind in Hi. by rewrite (proj2 (Z.leb_le 0 i)) in Hi by lia. }
  destruct (concat_insert t _ c Hti) as (rest & Hold & Hnew).
  destruct (ht_set_chain h i c') as [h'|] eqn:Hset.
  2: { unfold ht_set_chain in Hset. rewrite Ht in Hset. simpl_bind in Hset.
       by rewrite (proj2 (andb_true_iff _ _)) in Hset by lia. }
  exists h', rest. split; [done|]. cbv zeta. unfold ht_entries. rewrite Ht. simpl default.
  pose proof Hset as Hset'. unfold ht_set_chain in Hset'. rewrite Ht in Hset'. simpl_bind in Hset'.
  rewrite (proj2 (andb_true_iff _ _)) in Hset' by lia. injection Hset' as <-. simpl.
  split_and!; try done. split; simpl.
  - apply Hh.
  - eexists. split; [done|]. unfold zlen in *. by rewrite length_insert.
  - apply Hh.
  - rewrite (ht_used _ Hh). unfold ht_entries. rewrite Ht. simpl. unfold zlen.
    rewrite (Permutation_length (Hnew c')), (Permutation_length Hold), !length_app. lia.
  - intros j c0 e Hj He. change (ht_chain _ j) with (ht_chain
      (Dictht (Some (<[Z.to_nat i := c']> t)) (size h) (sizemask h) (used h)) j) in Hj.
    rewrite (ht_chain_set _ _ _ _ _ Hset) in Hj. case_bool_decide.
    + injection Hj as <-. subst j. rewrite Forall_forall in Hc'. by apply Hc'.
    + by apply (ht_hash _ Hh j c0).
Qed.

(** ** The invariant *)

Definition dict_entries d : list (dictEntry K V) := ht_entries (ht0 d) ++ ht_entries (ht1 d).

(** Not rehashing: there is no second table. Rehashing: both tables are there, and the
    buckets before 'rehashidx' are empty. *)
Record dict_ok d : Prop := {
  dict_keys : NoDup (key <$> dict_entries d);
  dict_phase :
    (rehashidx d = -1 /\ ht_ok (ht0 d) /\ ht1 d = _dictReset) \/
    (0 <= rehashidx d <= size (ht0 d) /\ ht_alloc (ht0 d) /\ ht_alloc (ht1 d) /\
     forall i c, i < rehashidx d -> ht_chain (ht0 d) i = Some c -> c = []);
}.

(** The dictionary [d'] has the entries of [d], in other places. *)
Record same_dict d d' : Prop := {
  same_ok : dict_ok d';
  same_entries : dict_entries d' ≡ₚ dict_entries d;
  same_pause : pauserehash d' = pauserehash d;
}.

Lemma dict_ok_ht0 d : dict_ok d -> ht_ok (ht0 d).
Proof. intros [_ [(_ & Hh & _)|(_ & Hh & _)]]; [done | by right]. Qed.

Lemma dict_ok_ht1 d : dict_ok d -> ht_ok (ht1 d).
Proof. intros [_ [(_ & _ & ->)|(_ & _ & Hh & _)]]; [by left | by right]. Qed.

Lemma dictSize_entries d : dict_ok d -> dictSize d = zlen (dict_entries d).
Proof.
  intros Hd. unfold dictSize, dict_entries. rewrite zlen_app.
  by rewrite (ht_ok_used _ (dict_ok_ht0 _ Hd)), (ht_ok_used _ (dict_ok_ht1 _ Hd)).
Qed.

Lemma dictIsRehashing_false d : dictIsRehashing d = false <-> rehashidx d = -1.
Proof. unfold dictIsRehashing. rewrite negb_false_iff. apply Z.eqb_eq. Qed.

Lemma not_rehashing d : dict_ok d -> dictIsRehashing d = false -> ht_ok (ht0 d) /\ ht1 d = _dictReset.
Proof. intros [_ [(_ & ? & ?)|(? & _)]] Hr%dictIsRehashing_false; [done | lia]. Qed.

Lemma rehashing d : dict_ok d -> dictIsRehashing d = true ->
  0 <= rehashidx d <= size (ht0 d) /\ ht_alloc (ht0 d) /\ ht_alloc (ht1 d) /\
  (forall i c, i < rehashidx d -> ht_chain (ht0 d) i = Some c -> c = []).
Proof.
  intros [_ [(Hr & _)|Hd]]; [|done]. apply dictIsRehashing_false in Hr. by rewrite Hr.
Qed.

Lemma dict_ok_permutation d d' : dict_ok d -> dict_entries d' ≡ₚ dict_entries d ->
  NoDup (key <$> dict_entries d').
Proof. intros [Hd _] Hp. by rewrite Hp. Qed.

Lemma same_dict_refl d : dict_ok d -> same_dict d d.
Proof. done. Qed.

Lemma same_dict_trans d1 d2 d3 : same_dict d1 d2 -> same_dict d2 d3 -> same_dict d1 d3.
Proof. intros [_ H1 H1'] [Ho H2 H2']. split; [done | by rewrite H2 | by rewrite H2']. Qed.

Lemma dictCreate_ok : dict_ok dictCreate.
Proof. split; [constructor|]. left. split_and!; [done | by left | done]. Qed.

(** ** Resizing *)

Lemma _dictNextPower_loop_spec fuel j n : 2 <= j -> n <= 2 ^ 63 -> 63 < j + Z.of_nat fuel -> j <= 63 ->
  (j = 2 \/ 2 ^ (j - 1) < n) ->
  exists k, _dictNextPower_loop fuel (2 ^ j) n = Some (2 ^ k) /\ 2 <= k <= 63 /\ n <= 2 ^ k /\
    (k = 2 \/ 2 ^ (k - 1) < n).
Proof.
  revert j. induction fuel as [|fuel IH]; intros j Hj Hn Hf Hj63 Hprev; [lia|]. cbn [_dictNextPower_loop].
  destruct (Z.leb_spec n (2 ^ j)) as [Hle|Hgt]; [by exists j|].
  assert (j < 63). { destruct (Z.eq_dec j 63) as [->|]; lia. }
  replace (2 ^ j * 2) with (2 ^ (j + 1)) by (rewrite Z.pow_add_r by lia; lia).
  rewrite uwrap_small by (split; [apply Z.pow_nonneg | apply Z.pow_lt_mono_r]; lia).
  apply IH; try lia. right. by replace (j + 1 - 1) with j by lia.
Qed.

Lemma _dictNextPower_spec n :
  exists k, _dictNextPower n = Some (2 ^ k) /\ 2 <= k <= 63 /\ (n <= 2 ^ 63 -> n <= 2 ^ k) /\
    (k = 2 \/ 2 ^ (k - 1) < n).
Proof.
  unfold _dictNextPower, LONG_MAX. destruct (Z.leb_spec 9223372036854775807 n).
  - exists 63. split_and!; [done | lia | lia | lia | eval_pow2; lia].
  - destruct (_dictNextPower_loop_spec 64 2 n) as (k & Hk & ? & ? & ?); try lia.
    by exists k.
Qed.

Lemma nextpower_unique n k : n <= 2 ^ 63 -> 2 <= k -> n <= 2 ^ k -> (k = 2 \/ 2 ^ (k - 1) < n) ->
  _dictNextPower n = Some (2 ^ k).
Proof.
  intros H63 Hk Hle Hmin. destruct (_dictNextPower_spec n) as (j & -> & Hj & Hjle & Hjmin). specialize (Hjle H63).
  do 2 f_equal. assert (forall a b, 2 <= a -> 2 <= b -> n <= 2 ^ a -> (b = 2 \/ 2 ^ (b - 1) < n) -> b <= a) as Hmono.
  { intros a b Ha Hb Hna [->|Hb']; [lia|]. enough (b - 1 < a) by lia. apply (Z.pow_lt_mono_r_iff 2); lia. }
  apply Z.le_antisymm; apply Hmono; lia || done.
Qed.

Lemma ht_new_alloc k : 2 <= k <= 60 ->
  ht_alloc (Dictht (Some (replicate (Z.to_nat (2 ^ k)) [])) (2 ^ k) (2 ^ k - 1) 0) /\
  ht_entries (Dictht (Some (replicate (Z.to_nat (2 ^ k)) [])) (2 ^ k) (2 ^ k - 1) 0) = [].
Proof.
  intros Hk. assert (forall n, concat (replicate n (@nil (dictEntry K V))) = []) as Hc by (by induction n).
  assert (0 <= 2 ^ k) by (apply Z.pow_nonneg; lia).
  split; [|unfold ht_entries; simpl; apply Hc]. split; simpl; [by exists k | | done | |].
  - eexists. split; [done|]. unfold zlen. rewrite length_replicate. lia.
  - unfold ht_entries. simpl. by rewrite Hc.
  - intros i c e Hi He. unfold ht_chain in Hi. simpl in Hi. destruct (0 <=? i); [|done].
    apply lookup_replicate in Hi as [-> _]. by apply not_elem_of_nil in He.
Qed.

(** What the allocation of a table of [n] entries can do. *)
Lemma _dictExpand_spec nomem d n : dict_ok d ->
  exists d' ok mf, _dictExpand nomem d n = Some (d', ok, mf) /\ same_dict d d' /\
    (ok = false -> d' = d) /\
    (ok = true -> ht_alloc (ht0 d') /\ exists k, 2 <= k <= 60 /\ n <= 2 ^ k /\ (k = 2 \/ 2 ^ (k - 1) < n) /\
       size (if dictIsRehashing d' then ht1 d' else ht0 d') = 2 ^ k) /\
    (dictIsRehashing d = false -> used (ht0 d) <= n -> n <= 2 ^ 60 -> nomem = (fun _ => false) ->
     (forall k, 2 <= k -> n <= 2 ^ k -> (k = 2 \/ 2 ^ (k - 1) < n) -> size (ht0 d) <> 2 ^ k) -> ok = true).
Proof.
  intros Hd. unfold _dictExpand. destruct (dictIsRehashing d) eqn:Hreh; cbn [orb].
  { eexists _, _, _. split_and!; [done | by apply same_dict_refl | done..]. }
  destruct (Z.ltb_spec n (used (ht0 d))) as [Hlt|Hge].
  { eexists _, _, _. split_and!; [done | by apply same_dict_refl | done | done | lia]. }
  destruct (_dictNextPower_spec n) as (k & -> & Hk & Hn & Hmin). simpl_bind. unfold sizeof_ptr.
  destruct ((2 ^ k <? n) || (u64 (2 ^ k * 8) <? 2 ^ k)) eqn:Hov.
  { eexists _, _, _. split_and!; [done | by apply same_dict_refl | done | done|]. intros _ _ Hn60 _ _. exfalso.
    assert (2 ^ 60 < 2 ^ 63) by (eval_pow2; lia). apply orb_true_iff in Hov as [?|Hov]; [lia|].
    assert (k <= 60) by (destruct Hmin; [lia|]; enough (k - 1 < 60) by lia; apply (Z.pow_lt_mono_r_iff 2); lia).
    assert (2 ^ k <= 2 ^ 60) by (apply Z.pow_le_mono_r; lia). assert (0 < 2 ^ k) by (apply Z.pow_pos_nonneg; lia).
    rewrite uwrap_small in Hov; [lia|]. change (2 ^ 64) with (2 ^ 60 * 16). lia. }
  apply orb_false_iff in Hov as [Hov1 Hov2].
  assert (k <= 60) as Hk60.
  { destruct (Z.le_gt_cases k 60); [done|]. exfalso. unfold uwrap in Hov2.
    replace (2 ^ k * 8) with (2 ^ (k - 61) * 2 ^ 64) in Hov2
      by (change 8 with (2 ^ 3); rewrite <- !Z.pow_add_r by lia; f_equal; lia).
    rewrite Z.mod_mul in Hov2 by (eval_pow2; lia). assert (0 < 2 ^ k) by (apply Z.pow_pos_nonneg; lia). lia. }
  destruct (Z.eqb_spec (2 ^ k) (size (ht0 d))) as [Heq|Hne].
  { eexists _, _, _. split_and!; [done | by apply same_dict_refl | done | done|].
    intros _ _ _ _ Hs. exfalso. apply (Hs k); [lia | lia | done | lia]. }
  destruct (nomem (2 ^ k * 8)) eqn:Hmem.
  { eexists _, _, _. split_and!; [done | by apply same_dict_refl | done | done|].
    intros _ _ _ -> _. done. }
  destruct (ht_new_alloc k) as [Hnew Hnil]; [lia|].
  set (nht := Dictht _ _ _ _) in *.
  destruct (not_rehashing d Hd Hreh) as [Hh0 Hh1].
  assert (rehashidx d = -1) as Hidx by (by apply dictIsRehashing_false).
  destruct (table (ht0 d)) as [t|] eqn:Htab.
  - assert (ht_alloc (ht0 d)) as Ha by (destruct Hh0 as [Hr|]; [by rewrite Hr in Htab | done]).
    assert (dict_entries (set_rehashidx (set_ht d true nht) 0) ≡ₚ dict_entries d) as Hp.
    { unfold dict_entries. simpl. by rewrite Hnil, Hh1. }
    eexists _, _, _. split_and!; [done | | done | | done].
    + split; [|done..]. split; [by apply (dict_ok_permutation d)|]. right. simpl.
      pose proof (ht_size_pos _ Ha). split_and!; [lia | lia | done | done|].
      intros i c Hi Hc. pose proof (ht_chain_range _ _ _ Ha Hc). lia.
    + intros _. split; [done|]. exists k. simpl. split_and!; [lia | lia | lia | done | done].
  - assert (ht0 d = _dictReset) as Hr.
    { destruct Hh0 as [|Ha]; [done|]. destruct (ht_table _ Ha) as (t & Ht & _). congruence. }
    assert (dict_entries (set_ht d false nht) ≡ₚ dict_entries d) as Hp.
    { unfold dict_entries. simpl. by rewrite Hnil, Hr. }
    eexists _, _, _. split_and!; [done | | done | | done].
    + split; [|done..]. split; [by apply (dict_ok_permutation d)|]. left. simpl. split_and!; [done | by right | done].
    + intros _. split; [done|]. exists k. unfold dictIsRehashing. simpl. rewrite Hidx. simpl.
      split_and!; [lia | lia | lia | done | done].
Qed.

(** ** Incremental rehashing *)

Lemma dictRehash_skip_spec fuel h idx ev j cj : ht_alloc h -> 0 <= idx <= j -> 0 < ev ->
  ht_chain h j = Some cj -> cj <> [] -> j - idx <= Z.of_nat fuel ->
  exists idx' ev' stop, dictRehash_skip fuel h idx ev = Some (idx', ev', stop) /\
    idx <= idx' <= j /\ (forall i c, idx <= i < idx' -> ht_chain h i = Some c -> c = []) /\
    (if (stop : bool) then idx < idx' else 0 < ev' /\ exists c, ht_chain h idx' = Some c /\ c <> []).
Proof.
  intros Hh. revert idx ev. induction fuel as [|fuel IH]; intros idx ev Hidx Hev Hj Hne Hf; cbn [dictRehash_skip].
  - assert (idx = j) as -> by lia. rewrite Hj. simpl_bind. destruct cj as [|e cj]; [done|].
    exists j, ev, false. split_and!; [done | lia | lia | intros; lia | done | eauto].
  - pose proof (ht_chain_range _ _ _ Hh Hj).
    destruct (ht_chain_is_Some h idx Hh) as [c Hc]; [lia|]. rewrite Hc. simpl_bind. destruct c as [|e c].
    + assert (idx <> j) by (intros ->; congruence).
      destruct (Z.eqb_spec (ev - 1) 0).
      * exists (idx + 1), (ev - 1), true. split_and!; [done | lia | lia | | lia].
        intros i c Hi Hic. assert (i = idx) as -> by lia. congruence.
      * destruct (IH (idx + 1) (ev - 1)) as (idx' & ev' & stop & -> & Hr & Hemp & Hst); [lia..|done|done|lia|].
        exists idx', ev', stop. split_and!; [done | lia | lia | | by destruct stop; [lia|]].
        intros i ci Hi Hic. destruct (Z.eq_dec i idx) as [->|]; [congruence|]. apply (Hemp i); [lia | done].
    + exists idx, ev, false. split_and!; [done | lia | lia | intros; lia | done | eauto].
Qed.

Lemma dictRehash_move_spec de d : ht_alloc (ht1 d) ->
  exists h1, dictRehash_move de d
      = Some (Dict (ht_add_used (ht0 d) (- zlen de)) h1 (rehashidx d) (pauserehash d)) /\
    ht_alloc h1 /\ ht_entries h1 ≡ₚ de ++ ht_entries (ht1 d) /\ size h1 = size (ht1 d).
Proof.
  revert d. induction de as [|e de IH]; intros d Hh1; cbn [dictRehash_move].
  - exists (ht1 d). split_and!; try done. destruct d as [[] h1 r p]. unfold ht_add_used. simpl.
    change (zlen []) with 0. do 3 f_equal. lia.
  - pose proof (hashFunction_range (key e)).
    destruct (ht_chain_is_Some (ht1 d) (Z.land (hashFunction (key e)) (sizemask (ht1 d))) Hh1) as [c Hc].
    { apply bucket_range; [done | lia]. }
    rewrite Hc. simpl_bind.
    destruct (ht_update (ht1 d) _ c (e :: c) Hh1 Hc) as (h1 & rest & Hset & Hok & Hsz & _ & Hold & Hnew).
    { constructor; [done|]. apply Forall_forall. intros x Hx. by apply (ht_hash _ Hh1 _ c). }
    rewrite Hset. simpl_bind. rewrite zlen_cons in *. replace (1 + zlen c - zlen c) with 1 in * by lia.
    match goal with |- context [dictRehash_move de ?d'] => destruct (IH d' Hok) as (h1' & -> & Hok' & Hp & Hsz') end.
    exists h1'. simpl in *. split_and!; [|done| |congruence].
    + destruct d as [[] ? ? ?]. unfold ht_add_used. simpl. do 3 f_equal. lia.
    + rewrite Hp, Hnew, Hold. symmetry. apply Permutation_middle.
Qed.

(** There is a non-empty bucket at or after 'rehashidx'. *)
Lemma next_bucket d : dict_ok d -> dictIsRehashing d = true -> used (ht0 d) <> 0 ->
  exists j c, ht_chain (ht0 d) j = Some c /\ c <> [] /\ rehashidx d <= j < size (ht0 d).
Proof.
  intros Hd Hr Hu. destruct (rehashing d Hd Hr) as (Hidx & Hh0 & _ & Hemp).
  rewrite (ht_used _ Hh0) in Hu. destruct (ht_entries (ht0 d)) as [|e es] eqn:He; [done|].
  assert (e ∈ ht_entries (ht0 d)) as Hin by (rewrite He; left).
  apply elem_of_ht_entries in Hin as (j & c & Hj & Hec); [|done].
  exists j, c. pose proof (ht_chain_range _ _ _ Hh0 Hj). split_and!; [done | | | lia].
  - intros ->. by apply not_elem_of_nil in Hec.
  - destruct (Z.le_gt_cases (rehashidx d) j); [done|]. rewrite (Hemp j c) in Hec by done.
    by apply not_elem_of_nil in Hec.
Qed.

(** Emptying a bucket of the first table, after its entries were added to the second. *)
Lemma dictRehash_bucket d idx de : dict_ok d -> dictIsRehashing d = true -> rehashidx d <= idx ->
  (forall i c, rehashidx d <= i < idx -> ht_chain (ht0 d) i = Some c -> c = []) ->
  ht_chain (ht0 d) idx = Some de ->
  exists d1 h0, dictRehash_move de (set_rehashidx d idx) = Some d1 /\
    rehashidx d1 = idx /\ ht_set_chain (ht0 d1) idx [] = Some h0 /\
    let d' := set_rehashidx (set_ht d1 false h0) (idx + 1) in
    same_dict d d' /\ size (ht0 d') = size (ht0 d) /\ size (ht1 d') = size (ht1 d).
Proof.
  intros Hd Hr Hle Hskip Hde. destruct (rehashing d Hd Hr) as (Hidx & Hh0 & Hh1 & Hemp).
  destruct (dictRehash_move_spec de (set_rehashidx d idx) Hh1) as (h1 & Hmove & Hok1 & Hp1 & Hsz1).
  destruct (ht_update (ht0 d) idx de [] Hh0 Hde) as (h0 & rest & Hset & Hok0 & Hsz0 & _ & Hold & Hnew);
    [constructor|].
  simpl in *. change (zlen []) with 0 in *. rewrite Z.sub_0_l in *.
  assert (ht_set_chain (ht_add_used (ht0 d) (- zlen de)) idx [] = Some (ht_add_used h0 (- zlen de))) as Hset'.
  { unfold ht_set_chain, ht_add_used in *. simpl. destruct (table (ht0 d)) as [t|]; [|done].
    simpl_bind in Hset. simpl_bind. destruct (_ && _); [|done]. by injection Hset as <-. }
  pose proof (ht_chain_range _ _ _ Hh0 Hde).
  eexists _, _. split; [exact Hmove|]. split; [done|]. split; [exact Hset'|]. cbv zeta.
  split_and!; [|done|done]. simpl.
  assert (dict_entries (Dict (ht_add_used h0 (- zlen de)) h1 (idx + 1) (pauserehash d)) ≡ₚ dict_entries d) as Hp.
  { unfold dict_entries. simpl. rewrite Hnew, Hp1, Hold. rewrite app_assoc. apply Permutation_app; [|done].
    apply Permutation_app_comm. }
  split; [|done|done]. split; [by apply (dict_ok_permutation d)|]. right. simpl. simpl in Hsz0.
  split_and!; [lia | lia | done | done|]. intros i c Hi Hc.
  change (ht_chain h0 i = Some c) in Hc. rewrite (ht_chain_set _ _ _ _ _ Hset) in Hc.
  case_bool_decide; [by injection Hc as <-|]. destruct (Z.lt_ge_cases i (rehashidx d)).
  - by apply (Hemp i).
  - apply (Hskip i); [lia | done].
Qed.

Lemma dictRehash_loop_spec n ev d : dict_ok d -> dictIsRehashing d = true -> 0 < ev ->
  exists d' stop, dictRehash_loop n ev d = Some (d', stop) /\ same_dict d d' /\ dictIsRehashing d' = true /\
    size (ht0 d') = size (ht0 d) /\ size (ht1 d') = size (ht1 d) /\ rehashidx d <= rehashidx d' /\
    (stop = true -> used (ht0 d') <> 0) /\ (used (ht0 d) = 0 -> d' = d) /\
    ((0 < n)%nat -> used (ht0 d) <> 0 -> rehashidx d < rehashidx d').
Proof.
  revert ev d. induction n as [|n IH]; intros ev d Hd Hr Hev; cbn [dictRehash_loop].
  { eexists _, _. split_and!; [done | by apply same_dict_refl | done | done | done | lia | done | done | lia]. }
  destruct (Z.eqb_spec (used (ht0 d)) 0) as [|Hu].
  { eexists _, _. split_and!; [done | by apply same_dict_refl | done | done | done | lia | done | done | done]. }
  destruct (next_bucket d Hd Hr Hu) as (j & cj & Hj & Hcj & Hjr).
  destruct (rehashing d Hd Hr) as (Hidx & Hh0 & Hh1 & Hemp).
  rewrite (proj2 (Z.ltb_lt (rehashidx d) (size (ht0 d)))) by lia. cbn [negb].
  destruct (dictRehash_skip_spec (Z.to_nat (size (ht0 d))) (ht0 d) (rehashidx d) ev j cj)
    as (idx & ev' & stop & -> & Hr' & Hemp' & Hst); [done | lia | lia | done | done | lia|].
  simpl_bind. destruct stop; cbv iota.
  - eexists _, _. split; [done|]. simpl. split_and!; [|by unfold dictIsRehashing; simpl; apply negb_true_iff, Z.eqb_neq; lia|done|done|lia|done|done|lia].
    split; [|done..]. split; [apply Hd|]. right. simpl. split_and!; [lia | lia | done | done|].
    intros i c Hi Hc. destruct (Z.lt_ge_cases i (rehashidx d)); [by apply (Hemp i)|]. apply (Hemp' i); [lia | done].
  - destruct Hst as (Hev' & de & Hde & _). simpl. rewrite Hde. simpl_bind.
    destruct (dictRehash_bucket d idx de Hd Hr) as (d1 & h0 & Hmv & Hix & Hset & Hsame & Hs0 & Hs1); [lia | done | done|].
    rewrite Hmv. simpl_bind. rewrite Hix, Hset. simpl_bind.
    match goal with |- context [dictRehash_loop n ev' ?d2] =>
      destruct (IH ev' d2) as (d' & stop & -> & Hsame' & Hre & Hs0' & Hs1' & Hle & Hstop & _ & _) end;
      [apply Hsame | apply negb_true_iff, Z.eqb_neq; simpl; lia | done|].
    simpl in *. eexists _, _. split; [done|]. split_and!; [by eapply same_dict_trans|done|congruence|congruence|lia|done|done|lia].
Qed.

(** What dictRehash(d,n) does: the entries stay, and unless the rehashing is completed,
    'rehashidx' advances. *)
Lemma dictRehash_spec d n : dict_ok d -> (0 < n)%nat ->
  exists d' more, dictRehash d n = Some (d', more) /\ same_dict d d' /\ dictIsRehashing d' = more /\
    (more = true -> size (ht0 d') = size (ht0 d) /\ rehashidx d < rehashidx d') /\
    (dictIsRehashing d = false -> d' = d).
Proof.
  intros Hd Hn. unfold dictRehash. destruct (dictIsRehashing d) eqn:Hr; cbn [negb].
  2: { eexists _, _. split_and!; [done | by apply same_dict_refl | done | done | done]. }
  destruct (dictRehash_loop_spec n (Z.of_nat n * 10) d Hd Hr) as (d' & stop & -> & Hsame & Hr' & Hs0 & Hs1 & Hle & Hstop & Hz & Hlt); [lia|].
  simpl_bind.
  assert (used (ht0 d') <> 0 -> rehashidx d < rehashidx d') as Hadv.
  { intros Hu. apply Hlt; [done|]. intros Hu0. by rewrite (Hz Hu0) in Hu. }
  destruct stop; [by eexists _, _; split_and!; eauto|].
  destruct (Z.eqb_spec (used (ht0 d')) 0) as [Hu|Hu].
  2: { by eexists _, _; split_and!; eauto. }
  eexists _, _. split; [done|]. destruct Hsame as [Hok Hent Hpa].
  destruct (rehashing d' Hok Hr') as (_ & Hh0 & Hh1 & _).
  assert (ht_entries (ht0 d') = []) as Hnil by (apply zlen_eq_nil; by rewrite <- (ht_used _ Hh0)).
  assert (dict_entries (Dict (ht1 d') _dictReset (-1) (pauserehash d')) ≡ₚ dict_entries d) as Hp.
  { rewrite <- Hent. unfold dict_entries. rewrite Hnil. simpl. by rewrite app_nil_r. }
  split_and!; [|done|done|done]. split; [|done|done].
  split; [by apply (dict_ok_permutation d)|]. left. split_and!; [done | by right | done].
Qed.

Lemma rehash_step_spec d : dict_ok d ->
  exists d', rehash_step_if_rehashing d = Some d' /\ same_dict d d'.
Proof.
  intros Hd. unfold rehash_step_if_rehashing, _dictRehashStep.
  destruct (dictIsRehashing d); [|eauto using same_dict_refl].
  destruct (_ =? 0); [|eauto using same_dict_refl].
  destruct (dictRehash_spec d 1 Hd) as (d' & more & -> & Hs & _); [lia|]. simpl_bind. eauto.
Qed.

Lemma dictRehashMilliseconds_loop_spec fuel clock tick d start ms r : dict_ok d ->
  size (ht0 d) - Z.max 0 (rehashidx d) < Z.of_nat fuel ->
  exists d' r', dictRehashMilliseconds_loop fuel clock tick d start ms r = Some (d', r') /\ same_dict d d' /\
    ((forall t, clock t - start <= ms) -> dictIsRehashing d' = false).
Proof.
  revert tick d r. induction fuel as [|fuel IH]; intros tick d r Hd Hf; cbn [dictRehashMilliseconds_loop].
  - exfalso. destruct (dict_phase d Hd) as [(Hr & [Hh|Ha] & _)|(? & _)]; [| |lia].
    + rewrite Hr, Hh in Hf. simpl in Hf. lia.
    + pose proof (ht_size_pos _ Ha). rewrite Hr in Hf. simpl in Hf. lia.
  - destruct (dictRehash_spec d 100 Hd) as (d1 & more & -> & Hs & Hmore & Hadv & Hkeep); [lia|]. simpl_bind.
    destruct more; cbn [negb].
    + assert (0 <= rehashidx d).
      { destruct (dictIsRehashing d) eqn:Hr; [by destruct (rehashing d Hd Hr) as ([] & _)|].
        rewrite Hkeep in Hmore by done. congruence. }
      destruct (Hadv eq_refl) as [Hsz Hlt].
      destruct (Z.ltb_spec ms (clock tick - start)) as [Hout|_].
      { eexists _, _. split_and!; [done|done|]. intros Hc. specialize (Hc tick). lia. }
      destruct (rehashing d1 (same_ok _ _ Hs) Hmore) as (Hr1 & _).
      destruct (IH (S tick) d1 (r + 100) (same_ok _ _ Hs)) as (d' & r' & -> & Hs' & Hdone); [rewrite Hsz; lia|].
      eexists _, _. split_and!; [done | by eapply same_dict_trans | done].
    + eexists _, _. split_and!; [done | done | done].
Qed.

(** dictRehash() moves entries between the two tables and loses none: what it returns has
    the entries of the dictionary and satisfies the invariant, and the answer is 1 exactly
    while the rehashing is in progress; each call that does not finish it advances
    'rehashidx', also when it only meets empty buckets. *)
Theorem dictRehash_correct d n : dict_ok d -> (0 < n)%nat ->
  exists d' more, dictRehash d n = Some (d', more) /\ dict_ok d' /\ dict_entries d' ≡ₚ dict_entries d /\
    more = dictIsRehashing d' /\ (more = true -> rehashidx d < rehashidx d' <= size (ht0 d')).
Proof.
  intros Hd Hn. destruct (dictRehash_spec d n Hd Hn) as (d' & more & -> & [] & Hm & Hadv & _).
  eexists _, _. split_and!; [done..|]. intros ->. destruct (Hadv eq_refl).
  destruct (rehashing d') as (? & _); [done..|]. lia.
Qed.

(** C29. dictRehashMilliseconds() terminates whatever the clock says, keeps the entries, and
    completes the rehashing when it is not stopped by the clock and not paused. *)
Theorem dictRehashMilliseconds_correct clock d ms : dict_ok d ->
  exists d' r, dictRehashMilliseconds clock d ms = Some (d', r) /\ dict_ok d' /\
    dict_entries d' ≡ₚ dict_entries d /\
    (pauserehash d <= 0 -> (forall t, clock t - clock 0%nat <= ms) -> dictIsRehashing d' = false).
Proof.
  intros Hd. unfold dictRehashMilliseconds. destruct (Z.ltb_spec 0 (pauserehash d)).
  { eexists _, _. split_and!; [done..|lia]. }
  destruct (dictRehashMilliseconds_loop_spec (S (Z.to_nat (size (ht0 d)))) clock 1 d (clock 0%nat) ms 0 Hd)
    as (d' & r & -> & [] & Hdone); [lia|].
  eexists _, _. split_and!; [done..|]. intros _. exact Hdone.
Qed.

(** ** Searching *)

Lemma chain_find_spec k c :
  match chain_find k c with
  | Some p => exists e, c !! p = Some e /\ key e = k
  | None => forall e, e ∈ c -> key e <> k
  end.
Proof.
  induction c as [|e c IH]; cbn [chain_find]; [by intros ? ?%not_elem_of_nil|].
  destruct (keyCompare k (key e)) eqn:Hk.
  - apply keyCompare_spec in Hk. eauto.
  - assert (key e <> k). { intros Heq. symmetry in Heq. apply keyCompare_spec in Heq. congruence. }
    destruct (chain_find k c) as [p|]; simpl; [exact IH|].
    intros e' [->|He']%elem_of_cons; [done | by apply IH].
Qed.

Lemma dict_search_table_spec d t k : ht_alloc (ht d t) ->
  exists idx c, dict_search_table d t k (hashFunction k) = Some (idx, EntryRef t idx <$> chain_find k c) /\
    ht_chain (ht d t) idx = Some c /\ idx = Z.land (hashFunction k) (sizemask (ht d t)) /\
    (chain_find k c = None -> forall e, e ∈ ht_entries (ht d t) -> key e <> k).
Proof.
  intros Hh. unfold dict_search_table. pose proof (hashFunction_range k).
  destruct (ht_chain_is_Some (ht d t) (Z.land (hashFunction k) (sizemask (ht d t))) Hh) as [c Hc].
  { apply bucket_range; [done | lia]. }
  eexists _, c. rewrite Hc. simpl_bind. split_and!; [done..|].
  intros Hn e (i & c' & Hi & He)%elem_of_ht_entries Hk; [|done].
  pose proof (ht_hash _ Hh _ _ _ Hi He) as Hih. rewrite Hk in Hih. subst i.
  rewrite Hc in Hi. injection Hi as <-. pose proof (chain_find_spec k c) as Hf. rewrite Hn in Hf. by apply (Hf e).
Qed.

(** The entry that is found, or the bucket where a new one goes. *)
Lemma dict_search_spec d k : dict_ok d -> ht_alloc (ht0 d) ->
  exists idx r, dict_search d k (hashFunction k) = Some (idx, r) /\
  match r with
  | Some r => exists e, entry_at d r = Some e /\ key e = k
  | None => (forall e, e ∈ dict_entries d -> key e <> k) /\
      exists c, ht_chain (ht d (dictIsRehashing d)) idx = Some c /\
        idx = Z.land (hashFunction k) (sizemask (ht d (dictIsRehashing d)))
  end.
Proof.
  intros Hd Hh0. unfold dict_search.
  destruct (dict_search_table_spec d false k Hh0) as (idx & c & -> & Hc & Hidx & Hnone). simpl_bind.
  pose proof (chain_find_spec k c) as Hf. destruct (chain_find k c) as [p|]; simpl.
  { eexists _, _. split; [done|]. destruct Hf as (e & He & Hk). exists e. split; [|done].
    unfold entry_at. simpl. simpl in Hc. rewrite Hc. simpl_bind. exact He. }
  destruct (dictIsRehashing d) eqn:Hr; cbn [negb].
  - destruct (rehashing d Hd Hr) as (_ & _ & Hh1 & _).
    destruct (dict_search_table_spec d true k Hh1) as (idx1 & c1 & -> & Hc1 & Hidx1 & Hnone1).
    eexists _, _. split; [done|].
    pose proof (chain_find_spec k c1) as Hf1. destruct (chain_find k c1) as [p|]; simpl.
    + destruct Hf1 as (e & He & Hk). exists e. split; [|done].
      unfold entry_at. simpl. simpl in Hc1. rewrite Hc1. simpl_bind. exact He.
    + split; [|by eauto]. intros e [He|He]%elem_of_app; [by apply Hnone | by apply Hnone1].
  - eexists _, _. split; [done|]. simpl. split; [|by eauto]. destruct (not_rehashing d Hd Hr) as [_ Hh1].
    intros e. unfold dict_entries. rewrite Hh1. simpl. rewrite app_nil_r. by apply Hnone.
Qed.

(** ** Updating a chain *)

Lemma chain_alloc d t i c : dict_ok d -> ht_chain (ht d t) i = Some c -> ht_alloc (ht d t).
Proof.
  intros Hd Hc. destruct t; simpl in *;
    [destruct (dict_ok_ht1 d Hd) as [Hr|] | destruct (dict_ok_ht0 d Hd) as [Hr|]]; try done; by rewrite Hr in Hc.
Qed.

Lemma entry_at_chain d r e : entry_at d r = Some e ->
  exists c, ht_chain (ht d (ref_table r)) (ref_index r) = Some c /\ c !! ref_pos r = Some e.
Proof. unfold entry_at. destruct (ht_chain _ _) as [c|]; [|done]. simpl_bind. eauto. Qed.

Lemma entry_at_elem d r e : dict_ok d -> entry_at d r = Some e -> e ∈ dict_entries d.
Proof.
  intros Hd (c & Hc & He)%entry_at_chain. pose proof (chain_alloc _ _ _ _ Hd Hc) as Hh.
  assert (e ∈ ht_entries (ht d (ref_table r))) as Hin.
  { apply elem_of_ht_entries; [done|]. apply list_elem_of_lookup_2 in He. eauto. }
  unfold dict_entries. apply elem_of_app. destruct (ref_table r); simpl in Hin; auto.
Qed.

Lemma dict_update d t i c c' : dict_ok d -> ht_chain (ht d t) i = Some c ->
  Forall (fun e => Z.land (hashFunction (key e)) (sizemask (ht d t)) = i) c' ->
  (c = [] -> t = dictIsRehashing d) ->
  exists h rest, ht_set_chain (ht d t) i c' = Some h /\ dict_entries d ≡ₚ c ++ rest /\
    let d' := set_ht d t (ht_add_used h (zlen c' - zlen c)) in
    dict_entries d' ≡ₚ c' ++ rest /\ (NoDup (key <$> (c' ++ rest)) -> dict_ok d').
Proof.
  intros Hd Hc Hc' Hempty. pose proof (chain_alloc _ _ _ _ Hd Hc) as Hh.
  destruct (ht_update _ _ _ _ Hh Hc Hc') as (h & rest & Hset & Hok & Hsz & Hmask & Hold & Hnew).
  set (n := zlen c' - zlen c) in *.
  exists h, (rest ++ ht_entries (ht d (negb t))). split; [done|]. split.
  { unfold dict_entries. destruct t; simpl in *; rewrite Hold; [|by rewrite <- app_assoc].
    rewrite (Permutation_app_comm (ht_entries (ht0 d))). by rewrite <- app_assoc. }
  cbv zeta. assert (dict_entries (set_ht d t (ht_add_used h n)) ≡ₚ c' ++ rest ++ ht_entries (ht d (negb t))) as Hp.
  { unfold dict_entries. destruct t; simpl in *; rewrite Hnew; [|by rewrite <- app_assoc].
    rewrite (Permutation_app_comm (ht_entries (ht0 d))). by rewrite <- app_assoc. }
  split; [done|]. intros Hnd. split; [by rewrite Hp|].
  destruct (dict_phase d Hd) as [(Hr & Hh0 & Hh1)|(Hr & Hh0 & Hh1 & Hemp)].
  - destruct t; simpl in *; [by rewrite Hh1 in Hc|]. left. split_and!; [done | by right | done].
  - right. destruct t; simpl in *; split_and!; try done; try lia.
    intros j cj Hj Hcj. change (ht_chain h j = Some cj) in Hcj. rewrite (ht_chain_set _ _ _ _ _ Hset) in Hcj.
    case_bool_decide; [|by apply (Hemp j)]. subst j. exfalso.
    assert (c = []) as Hc0 by (by apply (Hemp i)). specialize (Hempty Hc0).
    symmetry in Hempty. apply dictIsRehashing_false in Hempty. lia.
Qed.

(** ** The dictionary as a finite map *)

Context `{Countable K}.

Definition dict_map d : gmap K V := list_to_map ((fun e => (key e, val e)) <$> dict_entries d).

Lemma pair_keys (l : list (dictEntry K V)) : ((fun e => (key e, val e)) <$> l).*1 = key <$> l.
Proof. by rewrite <- list_fmap_compose. Qed.

Lemma same_dict_map d d' : dict_ok d -> dict_entries d' ≡ₚ dict_entries d -> dict_map d' = dict_map d.
Proof.
  intros Hd Hp. symmetry. unfold dict_map. apply list_to_map_proper; [|by rewrite Hp].
  rewrite pair_keys. apply Hd.
Qed.

Lemma dict_map_cons d e rest : dict_ok d -> dict_entries d ≡ₚ e :: rest ->
  dict_map d = <[key e := val e]> (list_to_map ((fun e => (key e, val e)) <$> rest)).
Proof.
  intros Hd Hp. unfold dict_map. rewrite <- list_to_map_cons.
  apply list_to_map_proper; [rewrite pair_keys; apply Hd|]. by rewrite Hp.
Qed.

Lemma keys_fresh (e : dictEntry K V) rest : NoDup (key <$> e :: rest) ->
  list_to_map (M := gmap K V) ((fun e => (key e, val e)) <$> rest) !! key e = None.
Proof.
  intros Hnd. apply not_elem_of_list_to_map. rewrite pair_keys. rewrite fmap_cons in Hnd.
  by apply NoDup_cons in Hnd as [? _].
Qed.

Lemma dict_map_lookup d k v : dict_ok d -> dict_map d !! k = Some v <-> DictEntry k v ∈ dict_entries d.
Proof.
  intros Hd. unfold dict_map. rewrite <- elem_of_list_to_map by (rewrite pair_keys; apply Hd).
  rewrite list_elem_of_fmap. split.
  - intros ([k' v'] & [= -> ->] & He). done.
  - intros He. by exists (DictEntry k v).
Qed.

Lemma dict_map_None d k : dict_ok d -> (forall e, e ∈ dict_entries d -> key e <> k) <-> dict_map d !! k = None.
Proof.
  intros Hd. split.
  - intros Hn. apply eq_None_not_Some. intros [v Hv]. apply dict_map_lookup in Hv; [|done]. by apply Hn in Hv.
  - intros Hn [k' v'] He Hk. simpl in Hk. subst k'. apply dict_map_lookup in He; [|done]. congruence.
Qed.

Lemma dictSize_map d : dict_ok d -> dictSize d = Z.of_nat (base.size (dict_map d)).
Proof.
  intros Hd. rewrite (dictSize_entries d Hd). unfold dict_map, zlen.
  rewrite map_size_list_to_map by (rewrite pair_keys; apply Hd). by rewrite length_fmap.
Qed.

Lemma _dictExpandIfNeeded_spec r d : dict_ok d -> dictSize d < 2 ^ 60 ->
  exists d', _dictExpandIfNeeded r d = Some (d', true) /\ same_dict d d' /\ ht_alloc (ht0 d').
Proof.
  intros Hd Hsz. unfold _dictExpandIfNeeded, dictExpand. destruct (dictIsRehashing d) eqn:Hr.
  { destruct (rehashing d Hd Hr) as (_ & ? & _). eauto using same_dict_refl. }
  destruct (not_rehashing d Hd Hr) as [Hh0 Hh1].
  destruct (Z.eqb_spec (size (ht0 d)) 0) as [Hz|Hnz].
  { destruct (_dictExpand_spec (fun _ => false) d DICT_HT_INITIAL_SIZE Hd) as (d' & ok & mf & -> & Hs & _ & Hok & Hgo).
    assert (ok = true) as ->.
    { apply Hgo; unfold DICT_HT_INITIAL_SIZE; try done.
      - destruct Hh0 as [->|Ha]; [done|]. pose proof (ht_size_pos _ Ha). lia.
      - intros k Hk _ _. rewrite Hz. assert (0 < 2 ^ k) by (apply Z.pow_pos_nonneg; lia). lia. }
    simpl_bind. eexists. split_and!; [done | done | by apply Hok]. }
  assert (ht_alloc (ht0 d)) as Ha by (destruct Hh0 as [Hreset|]; [by rewrite Hreset in Hnz | done]).
  destruct (Z.leb_spec (size (ht0 d)) (used (ht0 d))) as [Hfull|]; cbn [andb];
    [|eauto using same_dict_refl].
  destruct (r || _); [|eauto using same_dict_refl]. unfold dictTypeExpandAllowed.
  destruct (_dictNextPower_spec (used (ht0 d) + 1)) as (k & -> & _). simpl_bind.
  destruct (expandAllowed _ _ _); [|eauto using same_dict_refl].
  destruct (_dictExpand_spec (fun _ => false) d (used (ht0 d) + 1) Hd) as (d' & ok & mf & -> & Hs & _ & Hok & Hgo).
  assert (ok = true) as ->.
  { unfold dictSize in Hsz. rewrite Hh1 in Hsz. simpl in Hsz. apply Hgo; try done; lia. }
  simpl_bind. eexists. split_and!; [done | done | by apply Hok].
Qed.

(** ** Adding *)

Lemma NoDup_keys_cons k v (es : list (dictEntry K V)) : NoDup (key <$> es) ->
  (forall e, e ∈ es -> key e <> k) -> NoDup (key <$> DictEntry k v :: es).
Proof.
  intros Hnd Hk. rewrite fmap_cons. constructor; [|done]. simpl. intros (e & -> & He)%list_elem_of_fmap.
  by apply (Hk e).
Qed.

(** The entry dictAddRaw() adds, or the one that was there. *)
Lemma dictAddRaw_spec r d k : dict_ok d -> dictSize d < 2 ^ 60 ->
  exists d', dict_ok d' /\
  match dict_map d !! k with
  | None => exists ref, dictAddRaw r d k = Some (d', Some ref, None) /\
      entry_at d' ref = Some (DictEntry k fresh_val) /\ dict_map d' = <[k := fresh_val]> (dict_map d)
  | Some v => exists ref, dictAddRaw r d k = Some (d', None, Some ref) /\
      entry_at d' ref = Some (DictEntry k v) /\ dict_map d' = dict_map d
  end.
Proof.
  intros Hd Hsz. unfold dictAddRaw.
  destruct (rehash_step_spec d Hd) as (d1 & -> & Hs1). simpl_bind. unfold _dictKeyIndex.
  destruct (_dictExpandIfNeeded_spec r d1 (same_ok _ _ Hs1)) as (d2 & -> & Hs2 & Hh0).
  { rewrite dictSize_entries in * by apply Hs1 || done. unfold zlen in *.
    by rewrite (Permutation_length (same_entries _ _ Hs1)). }
  simpl_bind. cbn [negb]. pose proof (same_dict_trans _ _ _ Hs1 Hs2) as [Hok Hent _].
  rewrite <- (same_dict_map d d2 Hd Hent).
  destruct (dict_search_spec d2 k Hok Hh0) as (idx & ref & -> & Hfound). simpl_bind.
  destruct ref as [ref|].
  - destruct Hfound as ([k' v] & He & Hk). simpl in Hk. subst k'.
    rewrite (proj2 (dict_map_lookup d2 k v Hok)) by (by eapply entry_at_elem).
    cbv beta iota. exists d2. split; [done|]. by exists ref.
  - destruct Hfound as (Hnone & c & Hc & Hidx). rewrite (proj1 (dict_map_None d2 k Hok) Hnone).
    pose proof (chain_alloc _ _ _ _ Hok Hc) as Ha. pose proof (ht_chain_range _ _ _ Ha Hc).
    cbv beta iota. simpl_bind. rewrite (proj2 (Z.eqb_neq idx (-1))) by lia. rewrite Hc. simpl_bind.
    destruct (dict_update d2 _ _ _ (DictEntry k fresh_val :: c) Hok Hc) as (h & rest & Hset & Hold & Hnew & Hok');
      [|done|].
    { constructor; [done|]. apply Forall_forall. intros e He. by apply (ht_hash _ Ha _ c). }
    rewrite Hset. simpl_bind. rewrite zlen_cons in *. replace (1 + zlen c - zlen c) with 1 in * by lia.
    set (d' := set_ht d2 _ _) in *. simpl app in *. rewrite <- Hold in Hnew, Hok'.
    pose proof (Hok' (NoDup_keys_cons k fresh_val _ (dict_keys _ Hok) Hnone)) as Hd'.
    exists d'. split; [done|]. eexists. split; [done|]. split.
    + unfold entry_at, d'. simpl. replace (ht (set_ht d2 (dictIsRehashing d2) (ht_add_used h 1)) (dictIsRehashing d2))
        with (ht_add_used h 1) by (by destruct (dictIsRehashing d2)).
      change (ht_chain (ht_add_used h 1) idx) with (ht_chain h idx).
      by rewrite (ht_chain_set _ _ _ _ _ Hset), bool_decide_true by done.
    + by rewrite (dict_map_cons d' _ _ Hd' Hnew).
Qed.

Lemma ht_add_used_0 h : ht_add_used h 0 = h.
Proof. destruct h. unfold ht_add_used. simpl. f_equal. lia. Qed.

Lemma dictSetVal_spec d r e v : dict_ok d -> entry_at d r = Some e ->
  exists d', dictSetVal d r v = Some d' /\ dict_ok d' /\ dict_map d' = <[key e := v]> (dict_map d).
Proof.
  intros Hd (c & Hc & He)%entry_at_chain. unfold dictSetVal. rewrite Hc. simpl_bind. rewrite He. simpl_bind.
  pose proof (chain_alloc _ _ _ _ Hd Hc) as Ha.
  pose proof (take_drop_middle _ _ _ He) as Hsplit.
  assert (<[ref_pos r := DictEntry (key e) v]> c = take (ref_pos r) c ++ DictEntry (key e) v :: drop (S (ref_pos r)) c)
    as Hins by (apply insert_take_drop; by apply lookup_lt_Some in He).
  destruct (dict_update d _ _ _ (<[ref_pos r := DictEntry (key e) v]> c) Hd Hc) as (h & rest & Hset & Hold & Hnew & Hok').
  { rewrite Hins. pose proof (fun x => ht_hash _ Ha _ _ x Hc) as Hh. rewrite <- Hsplit in Hh.
    apply Forall_app. setoid_rewrite elem_of_app in Hh. setoid_rewrite elem_of_cons in Hh. split; [|constructor].
    - apply Forall_forall. intros x Hx. apply Hh. auto.
    - apply (Hh e). auto.
    - apply Forall_forall. intros x Hx. apply Hh. auto. }
  { intros ->. done. }
  rewrite Hset. simpl_bind. unfold zlen in *. rewrite length_insert, Z.sub_diag, ht_add_used_0 in *.
  set (R := take (ref_pos r) c ++ drop (S (ref_pos r)) c ++ rest).
  assert (dict_entries d ≡ₚ e :: R) as Hold'.
  { rewrite Hold, <- Hsplit, <- app_assoc. symmetry. apply (Permutation_middle (take (ref_pos r) c)). }
  assert (<[ref_pos r := DictEntry (key e) v]> c ++ rest ≡ₚ DictEntry (key e) v :: R) as Hnew'.
  { rewrite Hins, <- app_assoc. symmetry. apply (Permutation_middle (take (ref_pos r) c)). }
  eexists. split; [done|]. cbv zeta in Hnew, Hok'. rewrite Hnew' in Hnew, Hok'.
  pose proof (dict_keys _ Hd) as Hnd. rewrite Hold' in Hnd.
  split; [by apply Hok'|]. rewrite (dict_map_cons _ _ _ (Hok' Hnd) Hnew), (dict_map_cons _ _ _ Hd Hold').
  simpl. by rewrite insert_insert_eq.
Qed.

(** dictAdd() refines the insertion in a finite map of a key that is not there: it answers
    DICT_OK exactly then, the map is unchanged otherwise, and the expansion or the rehashing
    step done on the way loses nothing. *)
Theorem dictAdd_correct r d k v : dict_ok d -> dictSize d < 2 ^ 60 ->
  exists d', dictAdd r d k v = Some (d', bool_decide (dict_map d !! k = None)) /\ dict_ok d' /\
    dict_map d' = match dict_map d !! k with None => <[k := v]> (dict_map d) | Some _ => dict_map d end.
Proof.
  intros Hd Hsz. unfold dictAdd. destruct (dictAddRaw_spec r d k Hd Hsz) as (d1 & Hd1 & Hadd).
  destruct (dict_map d !! k) as [v0|]; destruct Hadd as (ref & -> & He & Hm); simpl_bind.
  - eexists. by split_and!.
  - destruct (dictSetVal_spec d1 ref _ v Hd1 He) as (d2 & -> & Hd2 & Hm2). simpl_bind.
    exists d2. split_and!; [done | done|]. by rewrite Hm2, Hm, insert_insert_eq.
Qed.

(** dictReplace() refines the update of a finite map; the answer tells whether the key is new. *)
Theorem dictReplace_correct r d k v : dict_ok d -> dictSize d < 2 ^ 60 ->
  exists d', dictReplace r d k v = Some (d', bool_decide (dict_map d !! k = None)) /\ dict_ok d' /\
    dict_map d' = <[k := v]> (dict_map d).
Proof.
  intros Hd Hsz. unfold dictReplace. destruct (dictAddRaw_spec r d k Hd Hsz) as (d1 & Hd1 & Hadd).
  destruct (dict_map d !! k) as [v0|]; destruct Hadd as (ref & -> & He & Hm); simpl_bind;
    destruct (dictSetVal_spec d1 ref _ v Hd1 He) as (d2 & -> & Hd2 & Hm2); simpl_bind; exists d2.
  - split_and!; [done | done|]. by rewrite Hm2, Hm.
  - split_and!; [done | done|]. by rewrite Hm2, Hm, insert_insert_eq.
Qed.

(** dictAddOrFind() always returns the entry of the key, adding one if there is none. *)
Theorem dictAddOrFind_correct r d k : dict_ok d -> dictSize d < 2 ^ 60 ->
  exists d' ref, dictAddOrFind r d k = Some (d', Some ref) /\ dict_ok d' /\
    entry_at d' ref = Some (DictEntry k (default fresh_val (dict_map d !! k))) /\
    dict_map d' = <[k := default fresh_val (dict_map d !! k)]> (dict_map d).
Proof.
  intros Hd Hsz. unfold dictAddOrFind. destruct (dictAddRaw_spec r d k Hd Hsz) as (d1 & Hd1 & Hadd).
  destruct (dict_map d !! k) as [v0|] eqn:Hk; destruct Hadd as (ref & -> & He & Hm); simpl_bind; exists d1, ref.
  - split_and!; [done | done | done|]. simpl. by rewrite insert_id.
  - by split_and!.
Qed.

Lemma nonempty_alloc d : dict_ok d -> dictSize d <> 0 -> ht_alloc (ht0 d).
Proof.
  intros [_ [(Hr & [Hh|Hh] & Hh1)|(_ & Hh & _)]] Hne; [|done..].
  unfold dictSize in Hne. by rewrite Hh, Hh1 in Hne.
Qed.

Lemma same_dictSize d d' : dict_ok d -> same_dict d d' -> dictSize d' = dictSize d.
Proof.
  intros Hd [Hd' Hp _]. rewrite !dictSize_entries by done. unfold zlen. by rewrite (Permutation_length Hp).
Qed.

Lemma dictFind_spec d k : dict_ok d ->
  exists d' r, dictFind d k = Some (d', r) /\ same_dict d d' /\
  match dict_map d !! k with
  | Some v => exists ref, r = Some ref /\ entry_at d' ref = Some (DictEntry k v)
  | None => r = None
  end.
Proof.
  intros Hd. unfold dictFind. destruct (Z.eqb_spec (dictSize d) 0) as [Hz|Hz].
  { eexists _, _. split_and!; [done | by apply same_dict_refl|].
    rewrite (proj1 (dict_map_None d k Hd)); [done|]. rewrite (dictSize_entries d Hd) in Hz.
    apply zlen_eq_nil in Hz. rewrite Hz. by intros e ?%not_elem_of_nil. }
  destruct (rehash_step_spec d Hd) as (d1 & -> & Hs1). simpl_bind. cbv zeta.
  pose proof (nonempty_alloc d1 (same_ok _ _ Hs1)) as Hh0. rewrite (same_dictSize d d1 Hd Hs1) in Hh0.
  rewrite <- (same_dict_map d d1 Hd (same_entries _ _ Hs1)).
  destruct (dict_search_spec d1 k (same_ok _ _ Hs1) (Hh0 Hz)) as (idx & ref & -> & Hf). simpl_bind.
  eexists _, _. split_and!; [done | done|]. destruct ref as [ref|].
  - destruct Hf as ([k' v] & He & Hk). simpl in Hk. subst k'.
    rewrite (proj2 (dict_map_lookup d1 k v (same_ok _ _ Hs1))) by (by eapply entry_at_elem, He; apply Hs1).
    eauto.
  - by rewrite (proj1 (dict_map_None d1 k (same_ok _ _ Hs1)) (proj1 Hf)).
Qed.

(** dictFind() and dictFetchValue() answer the lookup in the map; the step of rehashing they
    do leaves the map as it was. *)
Theorem dictFetchValue_correct d k : dict_ok d ->
  exists d', dictFetchValue d k = Some (d', dict_map d !! k) /\ dict_ok d' /\ dict_map d' = dict_map d /\
    dictSize d' = Z.of_nat (base.size (dict_map d)).
Proof.
  intros Hd. unfold dictFetchValue. destruct (dictFind_spec d k Hd) as (d' & r & -> & Hs & Hf). simpl_bind.
  rewrite <- (dictSize_map d Hd), <- (same_dictSize d d' Hd Hs).
  destruct (dict_map d !! k) as [v|].
  - destruct Hf as (ref & -> & He). rewrite He. simpl_bind. exists d'.
    split_and!; [done | apply Hs | by apply same_dict_map, Hs | done].
  - subst r. exists d'. split_and!; [done | apply Hs | by apply same_dict_map, Hs | done].
Qed.

Lemma dict_unlink_at_spec d r e : dict_ok d -> entry_at d r = Some e ->
  exists d', dict_unlink_at d r = Some (d', e) /\ dict_ok d' /\ dict_map d' = delete (key e) (dict_map d).
Proof.
  intros Hd (c & Hc & He)%entry_at_chain. unfold dict_unlink_at. rewrite Hc. simpl_bind. rewrite He. simpl_bind.
  pose proof (chain_alloc _ _ _ _ Hd Hc) as Ha. pose proof (delete_Permutation _ _ _ He) as Hp.
  destruct (dict_update d _ _ _ (delete (ref_pos r) c) Hd Hc) as (h & rest & Hset & Hold & Hnew & Hok').
  { apply Forall_forall. intros x Hx. apply (ht_hash _ Ha _ c); [done|]. rewrite Hp. by right. }
  { intros ->. done. }
  rewrite Hset. simpl_bind. apply Permutation_length in Hp as Hl. simpl in Hl. unfold zlen in *.
  replace (Z.of_nat (length (delete (ref_pos r) c)) - Z.of_nat (length c)) with (-1) in * by lia.
  rewrite Hp in Hold. simpl app in Hold. pose proof (dict_keys _ Hd) as Hnd. rewrite Hold in Hnd.
  cbv zeta in *. assert (NoDup (key <$> delete (ref_pos r) c ++ rest)) as Hnd'.
  { rewrite fmap_cons in Hnd. by apply NoDup_cons in Hnd as [_ ?]. }
  eexists. split; [done|]. split; [by apply Hok'|]. rewrite (dict_map_cons _ _ _ Hd Hold).
  rewrite delete_insert_id by (by apply keys_fresh).
  unfold dict_map. apply list_to_map_proper; [rewrite pair_keys; apply dict_keys, Hok', Hnd'|]. by rewrite Hnew.
Qed.

Lemma dictGenericDelete_spec d k : dict_ok d ->
  exists d', dictGenericDelete d k = Some (d', DictEntry k <$> dict_map d !! k) /\ dict_ok d' /\
    dict_map d' = delete k (dict_map d).
Proof.
  intros Hd. unfold dictGenericDelete.
  assert ((used (ht0 d) =? 0) && (used (ht1 d) =? 0) = (dictSize d =? 0)) as ->.
  { unfold dictSize. rewrite (ht_ok_used _ (dict_ok_ht0 _ Hd)), (ht_ok_used _ (dict_ok_ht1 _ Hd)).
    pose proof (zlen_nonneg (ht_entries (ht0 d))). pose proof (zlen_nonneg (ht_entries (ht1 d))). lia. }
  destruct (Z.eqb_spec (dictSize d) 0) as [Hz|Hz].
  { exists d. assert (dict_map d !! k = None) as Hn.
    { apply (dict_map_None d k Hd). rewrite (dictSize_entries d Hd) in Hz.
      apply zlen_eq_nil in Hz. rewrite Hz. by intros e ?%not_elem_of_nil. }
    rewrite Hn. split_and!; [done | done|]. by rewrite delete_id. }
  destruct (rehash_step_spec d Hd) as (d1 & -> & Hs1). simpl_bind. cbv zeta.
  pose proof (nonempty_alloc d1 (same_ok _ _ Hs1)) as Hh0. rewrite (same_dictSize d d1 Hd Hs1) in Hh0.
  rewrite <- (same_dict_map d d1 Hd (same_entries _ _ Hs1)).
  destruct (dict_search_spec d1 k (same_ok _ _ Hs1) (Hh0 Hz)) as (idx & ref & -> & Hf). simpl_bind.
  destruct ref as [ref|].
  - destruct Hf as ([k' v] & He & Hk). simpl in Hk. subst k'.
    rewrite (proj2 (dict_map_lookup d1 k v (same_ok _ _ Hs1))) by (by eapply entry_at_elem, He; apply Hs1).
    destruct (dict_unlink_at_spec d1 ref _ (same_ok _ _ Hs1) He) as (d2 & -> & Hd2 & Hm). simpl_bind. eauto.
  - rewrite (proj1 (dict_map_None d1 k (same_ok _ _ Hs1)) (proj1 Hf)). exists d1.
    split_and!; [done | apply Hs1|]. rewrite delete_id; [done|].
    apply (dict_map_None d1 k (same_ok _ _ Hs1)), Hf.
Qed.

(** dictDelete() removes the key from the map and answers DICT_OK exactly when it was there;
    dictUnlink() also hands over the removed entry, with its key and value. *)
Theorem dictDelete_correct d k : dict_ok d ->
  exists d', dictDelete d k = Some (d', bool_decide (is_Some (dict_map d !! k))) /\
    dictUnlink d k = Some (d', DictEntry k <$> dict_map d !! k) /\ dict_ok d' /\
    dict_map d' = delete k (dict_map d).
Proof.
  intros Hd. destruct (dictGenericDelete_spec d k Hd) as (d' & Hdel & Hd' & Hm). exists d'.
  unfold dictDelete, dictUnlink. rewrite Hdel. simpl_bind. split_and!; [|done..].
  by destruct (dict_map d !! k).
Qed.

(** ** Resizing and emptying *)

(** A resize keeps every entry. dictExpand() is granted exactly when no rehashing is in
    progress and the size is large enough for the entries, and the new table is the smallest
    power of two (at least 4) that has it; dictResize() asks for the number of entries. *)
Theorem dictExpand_correct d n : dict_ok d -> n <= 2 ^ 60 ->
  exists d' ok, dictExpand d n = Some (d', ok) /\ dict_ok d' /\ dict_map d' = dict_map d /\
    (ok = true <-> dictIsRehashing d = false /\ used (ht0 d) <= n /\ _dictNextPower n <> Some (size (ht0 d))) /\
    (ok = true -> _dictNextPower n = Some (size (if dictIsRehashing d' then ht1 d' else ht0 d'))) /\
    (ok = false -> d' = d).
Proof.
  intros Hd Hn. unfold dictExpand.
  destruct (_dictExpand_spec (fun _ => false) d n Hd) as (d' & ok & mf & Hexp & Hs & Hno & Hyes & Hgo).
  rewrite Hexp. simpl_bind. exists d', ok. split_and!; [done | apply Hs | by apply same_dict_map, Hs | | | done].
  - split.
    + intros ->. unfold _dictExpand in Hexp. destruct (dictIsRehashing d); [done|]. simpl in Hexp.
      destruct (Z.ltb_spec n (used (ht0 d))); [done|]. split_and!; [done | done|]. intros Hp. rewrite Hp in Hexp.
      simpl_bind in Hexp. destruct (_ || _); [done|]. by rewrite Z.eqb_refl in Hexp.
    + intros (Hr & Hu & Hp). apply Hgo; try done. intros k Hk Hle Hmin Heq. apply Hp. rewrite Heq.
      apply nextpower_unique; lia || done.
  - intros ->. destruct (Hyes eq_refl) as (_ & k & Hk & Hle & Hmin & ->). apply nextpower_unique; lia.
Qed.

Lemma chains_from h i t : table h = Some t -> 0 <= i < zlen t ->
  exists c, ht_chain h i = Some c /\ concat (drop (Z.to_nat i) t) = c ++ concat (drop (Z.to_nat (i + 1)) t).
Proof.
  intros Ht Hi. unfold ht_chain. rewrite Ht. simpl_bind. rewrite (proj2 (Z.leb_le 0 i)) by lia.
  destruct (lookup_Z t i Hi) as [c Hc]. exists c. split; [done|]. rewrite (drop_S t c _ Hc).
  replace (Z.to_nat (i + 1)) with (S (Z.to_nat i)) by lia. done.
Qed.

Lemma _dictClear_loop_spec fuel h t i : ht_alloc h -> table h = Some t -> 0 <= i -> size h - i <= Z.of_nat fuel ->
  _dictClear_loop fuel h i (zlen (concat (drop (Z.to_nat i) t))) = Some (concat (drop (Z.to_nat i) t)).
Proof.
  intros Hh Ht. destruct (ht_table _ Hh) as (t' & Ht' & Hlen). assert (t' = t) as -> by congruence.
  revert i. induction fuel as [|fuel IH]; intros i Hi Hf.
  all: cbn [_dictClear_loop]; destruct (Z.ltb_spec i (size h)) as [Hlt|Hge]; cbn [andb].
  all: try (rewrite drop_ge by (unfold zlen in Hlen; lia); done).
  destruct (chains_from h i t Ht) as (c & Hc & Hd); [lia|]. rewrite Hc. simpl_bind.
  destruct (Z.ltb_spec 0 (zlen (concat (drop (Z.to_nat i) t)))) as [_|Hz].
  - rewrite Hd at 1. rewrite zlen_app, Z.add_simpl_l, IH by lia. simpl_bind. by rewrite Hd.
  - rewrite (zlen_eq_nil (concat _)) by (pose proof (zlen_nonneg (concat (drop (Z.to_nat i) t))); lia). done.
Qed.

Lemma _dictClear_spec h : ht_ok h -> _dictClear h = Some (_dictReset, ht_entries h).
Proof.
  intros [->|Hh]; [done|]. unfold _dictClear. destruct (ht_table _ Hh) as (t & Ht & Hlen).
  rewrite (ht_used _ Hh). unfold ht_entries. rewrite Ht. simpl default.
  rewrite (_dictClear_loop_spec _ h t 0 Hh Ht) by lia. done.
Qed.

(** dictEmpty() releases every entry, each of them once, and leaves the empty dictionary,
    although its loop stops as soon as 'used' says that no entry is left. *)
Theorem dictEmpty_correct d : dict_ok d ->
  exists d' freed, dictEmpty d = Some (d', freed) /\ freed = dict_entries d /\ NoDup (key <$> freed) /\
    dict_ok d' /\ dict_map d' = ∅.
Proof.
  intros Hd. unfold dictEmpty. rewrite (_dictClear_spec _ (dict_ok_ht0 _ Hd)). simpl_bind.
  rewrite (_dictClear_spec _ (dict_ok_ht1 _ Hd)). simpl_bind.
  eexists _, _. split_and!; [done | done | apply Hd | apply dictCreate_ok | done].
Qed.

(** ** Traces *)

(** Requests to a dictionary; the flag is dict_can_resize at that time. *)
Inductive dict_op :=
  | OpAdd (r : bool) (k : K) (v : V)
  | OpReplace (r : bool) (k : K) (v : V)
  | OpFetch (k : K)
  | OpDelete (k : K).

Definition dict_step (d : dict K V) (op : dict_op) : option (dict K V * (bool + option V)) :=
  match op with
  | OpAdd r k v => '(d, b) ← dictAdd r d k v; Some (d, inl b)
  | OpReplace r k v => '(d, b) ← dictReplace r d k v; Some (d, inl b)
  | OpFetch k => '(d, o) ← dictFetchValue d k; Some (d, inr o)
  | OpDelete k => '(d, b) ← dictDelete d k; Some (d, inl b)
  end.

Definition map_step (m : gmap K V) (op : dict_op) : gmap K V * (bool + option V) :=
  match op with
  | OpAdd _ k v => (match m !! k with None => <[k := v]> m | Some _ => m end, inl (bool_decide (m !! k = None)))
  | OpReplace _ k v => (<[k := v]> m, inl (bool_decide (m !! k = None)))
  | OpFetch k => (m, inr (m !! k))
  | OpDelete k => (delete k m, inl (bool_decide (is_Some (m !! k))))
  end.

Fixpoint dict_run (d : dict K V) (ops : list dict_op) : option (dict K V * list (bool + option V)) :=
  match ops with
  | [] => Some (d, [])
  | op :: ops => '(d, x) ← dict_step d op; '(d, xs) ← dict_run d ops; Some (d, x :: xs)
  end.

Fixpoint map_run (m : gmap K V) (ops : list dict_op) : gmap K V * list (bool + option V) :=
  match ops with
  | [] => (m, [])
  | op :: ops => let '(m, x) := map_step m op in let '(m, xs) := map_run m ops in (m, x :: xs)
  end.

Lemma dict_step_ok d op : dict_ok d -> dictSize d < 2 ^ 60 ->
  exists d', dict_step d op = Some (d', (map_step (dict_map d) op).2) /\ dict_ok d' /\ dict_map d' = (map_step (dict_map d) op).1.
Proof.
  intros Hd Hsz. destruct op as [r k v|r k v|k|k]; cbn [dict_step map_step fst snd].
  - destruct (dictAdd_correct r d k v Hd Hsz) as (d' & -> & ? & ?). by exists d'.
  - destruct (dictReplace_correct r d k v Hd Hsz) as (d' & -> & ? & ?). by exists d'.
  - destruct (dictFetchValue_correct d k Hd) as (d' & -> & ? & ? & _). by exists d'.
  - destruct (dictDelete_correct d k Hd) as (d' & -> & _ & ? & ?). by exists d'.
Qed.

Lemma map_step_size m op : (base.size (map_step m op).1 <= S (base.size m))%nat.
Proof.
  destruct op as [r k v|r k v|k|k]; cbn [map_step fst]; [destruct (m !! k) eqn:E; [lia | by rewrite map_size_insert_None]| | lia | rewrite map_size_delete; destruct (m !! k); cbn; lia].
  rewrite map_size_insert. destruct (m !! k); cbn; lia.
Qed.

Lemma dict_run_ok ops : forall d, dict_ok d -> dictSize d + zlen ops <= 2 ^ 60 ->
  exists d', dict_run d ops = Some (d', (map_run (dict_map d) ops).2) /\ dict_ok d' /\ dict_map d' = (map_run (dict_map d) ops).1.
Proof.
  induction ops as [|op ops IH]; intros d Hd Hsz; [by exists d|]. cbn [dict_run map_run]. rewrite zlen_cons in Hsz. pose proof (zlen_nonneg ops).
  destruct (dict_step_ok d op Hd ltac:(lia)) as (d1 & -> & Hd1 & Hm1). simpl_bind. pose proof (map_step_size (dict_map d) op) as Hs. rewrite <- Hm1 in Hs.
  destruct (IH d1 Hd1) as (d' & -> & Hd' & Hm'); [rewrite (dictSize_map d1 Hd1); rewrite (dictSize_map d Hd) in Hsz; lia|]. simpl_bind.
  rewrite Hm1 in *. destruct (map_step (dict_map d) op) as [m x]. cbn [fst snd] in *. destruct (map_run m ops) as [m' xs]. by exists d'.
Qed.

(** C28. A new dictionary behaves like an empty finite map under any sequence of insertions, replacements, lookups
    and deletions: the results are the same, nothing fails, and the tables end up with the entries of the
    map, whatever expansions and rehashing steps were started and left unfinished in between, and whether or not
    resizing was allowed. *)
Theorem dict_refines_map ops : zlen ops <= 2 ^ 60 ->
  exists d', dict_run dictCreate ops = Some (d', (map_run ∅ ops).2) /\ dict_ok d' /\ dict_map d' = (map_run ∅ ops).1.
Proof. intros Hlen. apply (dict_run_ok ops dictCreate dictCreate_ok). done. Qed.

End facts.

(** ** Examples *)

(** Integer keys, hashed by their 64 low bits. *)
Definition int_dict_type : DictType Z Z.
Proof.
  refine {| hashFunction k := u64 k; keyCompare k1 k2 := k1 =? k2; expandAllowed _ _ _ := true; fresh_val := 0 |}.
  - intros k. by apply uwrap_range.
  - intros k1 k2. apply Z.eqb_eq.
Defined.

(** A dictionary that is being rehashed: key 12 is already in the second table, key 1 is not. *)
Definition dict_example : dict Z Z :=
  Dict (Dictht (Some [[]; [DictEntry 1 100]; []; []]) 4 3 1)
       (Dictht (Some [[]; []; []; []; [DictEntry 12 200]; []; []; []]) 8 7 1) 1 0.

Lemma ht_hash_example (t : list (list (dictEntry Z Z))) n m u i c e :
  forallb (fun '(i, c) => forallb (fun e => Z.land (u64 (key e)) m =? Z.of_nat i) c) (imap pair t) = true ->
  ht_chain (Dictht (Some t) n m u) i = Some c -> e ∈ c -> Z.land (u64 (key e)) m = i.
Proof.
  unfold ht_chain. simpl. destruct (Z.leb_spec 0 i); [|done]. intros Hall Hi He.
  rewrite forallb_forall in Hall. specialize (Hall (Z.to_nat i, c)).
  rewrite <- list_elem_of_In in Hall. rewrite forallb_forall in Hall. setoid_rewrite <- list_elem_of_In in Hall.
  rewrite <- (Z2Nat.id i) by done. apply Z.eqb_eq, Hall; [|done].
  apply list_elem_of_lookup. exists (Z.to_nat i). rewrite list_lookup_imap, Hi. done.
Qed.

Lemma dict_example_ok : @dict_ok Z Z int_dict_type dict_example.
Proof.
  split.
  - simpl. repeat constructor; rewrite ?elem_of_cons, ?elem_of_nil; lia.
  - right. simpl. split; [lia|]. split; [|split].
    + split; simpl; [exists 2; done | eexists; done | done | done|]. intros i c e. by apply ht_hash_example.
    + split; simpl; [exists 3; done | eexists; done | done | done|]. intros i c e. by apply ht_hash_example.
    + intros i c Hi. unfold ht_chain. simpl. destruct (Z.leb_spec 0 i); [|done].
      assert (i = 0) as -> by lia. by intros [= <-].
Qed.

Lemma dictRehash_correct_witness : exists d' more, @dictRehash Z Z int_dict_type dict_example 1 = Some (d', more) /\
  @dict_entries Z Z d' ≡ₚ dict_entries dict_example.
Proof.
  destruct (@dictRehash_correct Z Z int_dict_type dict_example 1 dict_example_ok) as (d' & more & H1 & _ & H2 & _);
    [lia|]. by exists d', more.
Defined.

Lemma dictRehashMilliseconds_correct_witness : exists d' r,
  @dictRehashMilliseconds Z Z int_dict_type (fun t => Z.of_nat t) dict_example 50 = Some (d', r) /\
  dict_entries d' ≡ₚ dict_entries dict_example.
Proof.
  destruct (@dictRehashMilliseconds_correct Z Z int_dict_type (fun t => Z.of_nat t) dict_example 50 dict_example_ok)
    as (d' & r & H1 & _ & H2 & _). by exists d', r.
Defined.

Lemma dictAdd_correct_witness : exists d', @dictAdd Z Z int_dict_type true dict_example 7 70 = Some (d', true) /\
  dict_map d' = <[7 := 70]> (dict_map dict_example).
Proof.
  destruct (@dictAdd_correct Z Z int_dict_type _ _ true dict_example 7 70 dict_example_ok) as (d' & H1 & _ & H2);
    [vm_compute; reflexivity|]. by exists d'.
Defined.

Lemma dictReplace_correct_witness : exists d', @dictReplace Z Z int_dict_type true dict_example 12 70 = Some (d', false) /\
  dict_map d' = <[12 := 70]> (dict_map dict_example).
Proof.
  destruct (@dictReplace_correct Z Z int_dict_type _ _ true dict_example 12 70 dict_example_ok) as (d' & H1 & _ & H2);
    [vm_compute; reflexivity|]. by exists d'.
Defined.

Lemma dictAddOrFind_correct_witness : exists d' ref,
  @dictAddOrFind Z Z int_dict_type true dict_example 12 = Some (d', Some ref) /\ entry_at d' ref = Some (DictEntry 12 200).
Proof.
  destruct (@dictAddOrFind_correct Z Z int_dict_type _ _ true dict_example 12 dict_example_ok) as (d' & ref & H1 & _ & H2 & _);
    [vm_compute; reflexivity|]. by exists d', ref.
Defined.

Lemma dictFetchValue_correct_witness : exists d', @dictFetchValue Z Z int_dict_type dict_example 12 = Some (d', Some 200) /\
  dictSize d' = 2.
Proof.
  destruct (@dictFetchValue_correct Z Z int_dict_type _ _ dict_example 12 dict_example_ok) as (d' & H1 & _ & _ & H2).
  by exists d'.
Defined.

Lemma dictDelete_correct_witness : exists d', @dictDelete Z Z int_dict_type dict_example 1 = Some (d', true) /\
  dict_map d' = delete 1 (dict_map dict_example).
Proof.
  destruct (@dictDelete_correct Z Z int_dict_type _ _ dict_example 1 dict_example_ok) as (d' & H1 & _ & _ & H2).
  by exists d'.
Defined.

Lemma dictExpand_correct_witness : exists d' ok, dictExpand dict_example 16 = Some (d', ok) /\ dict_map d' = dict_map dict_example.
Proof.
  destruct (@dictExpand_correct Z Z int_dict_type _ _ dict_example 16 dict_example_ok) as (d' & ok & H1 & _ & H2 & _);
    [lia|]. by exists d', ok.
Defined.

Lemma dictEmpty_correct_witness : exists d' freed, dictEmpty dict_example = Some (d', freed) /\ freed = dict_entries dict_example.
Proof.
  destruct (@dictEmpty_correct Z Z int_dict_type _ _ dict_example dict_example_ok) as (d' & freed & H1 & H2 & _).
  by exists d', freed.
Defined.

Lemma dict_refines_map_witness : exists d', @dict_run Z Z int_dict_type dictCreate [OpAdd true 1 10; OpAdd false 1 11; OpReplace true 2 20; OpFetch 1; OpDelete 2; OpFetch 2] =
  Some (d', [inl true; inl false; inl true; inr (Some 10); inl true; inr None]) /\ dict_map d' = {[1 := 10]}.
Proof.
  destruct (@dict_refines_map Z Z int_dict_type _ _ [OpAdd true 1 10; OpAdd false 1 11; OpReplace true 2 20; OpFetch 1; OpDelete 2; OpFetch 2]) as (d' & H1 & _ & H2); [done|].
  exists d'. split; [rewrite H1; reflexivity | rewrite H2; reflexivity].
Defined.
