(* ===== verification/DictScan.v ===== *)
(** * Cursor iteration of hash tables (dictScan() of src/redis-stable/src/dict.c)

    The stateless iteration of SCAN: the cursor is incremented from its high bits, so that
    it stays meaningful when the table is resized or rehashed between two calls. *)
From S2P Require Import Prelude.
From S2P Require Import Dict.

(** ** The reverse binary cursor *)

(** while ((s >>= 1) > 0) { mask ^= (mask << s); v = ((v >> s) & mask) | ((v << s) & ~mask); } *)
Fixpoint rev_loop (fuel : nat) (s mask v : Z) : Z :=
  match fuel with
  | O => v
  | S fuel =>
      let s := Z.shiftr s 1 in
      if 0 <? s then
        let mask := Z.lxor mask (u64 (Z.shiftl mask s)) in
        rev_loop fuel s mask
          (Z.lor (Z.land (Z.shiftr v s) mask) (Z.land (u64 (Z.shiftl v s)) (u64 (Z.lnot mask))))
      else v
  end.

(** Six turns, for the 64 bits of an unsigned long. *)
Definition rev (v : Z) : Z := rev_loop 7 64 (u64 (Z.lnot 0)) v.

(** v |= ~m; v = rev(v); v++; v = rev(v); *)
Definition next_cursor (v m : Z) : Z :=
  let v := Z.lor v (u64 (Z.lnot m)) in
  rev (u64 (rev v + 1)).

Section scan.
Context {K V A : Type} `{DictType K V}.

(** The callbacks, which accumulate their results in [A]. *)
Context (fn : A -> dictEntry K V -> A) (bucketfn : A -> bool -> Z -> A).

(** Emit entries at cursor *)
Definition scan_bucket (d : dict K V) (t : bool) (i : Z) (acc : A) : option A :=
  let acc := bucketfn acc t i in
  de ← ht_chain (ht d t) i;
  Some (foldl fn acc de).

(** do { ... } while (v & (m0 ^ m1)) *)
Fixpoint dictScan_loop (fuel : nat) (d : dict K V) (t1 : bool) (m0 m1 v : Z) (acc : A) : option (Z * A) :=
  match fuel with
  | O => None
  | S fuel =>
      acc ← scan_bucket d t1 (Z.land v m1) acc;
      let v := next_cursor v m1 in
      if Z.land v (Z.lxor m0 m1) =? 0 then Some (v, acc)
      else dictScan_loop fuel d t1 m0 m1 v acc
  end.

(** The new cursor and what the callbacks accumulated. *)
Definition dictScan (d : dict K V) (v : Z) (acc : A) : option (dict K V * Z * A) :=
  if dictSize d =? 0 then Some (d, 0, acc)
  else
    let d := dictPauseRehashing d in
    '(v, acc) ←
      (if negb (dictIsRehashing d) then
         let m0 := sizemask (ht0 d) in
         acc ← scan_bucket d false (Z.land v m0) acc;
         Some (next_cursor v m0, acc)
       else
         (** t0 is the smaller and t1 is the bigger table *)
         let '(t0, t1) := if size (ht1 d) <? size (ht0 d) then (true, false) else (false, true) in
         let m0 := sizemask (ht d t0) in
         let m1 := sizemask (ht d t1) in
         acc ← scan_bucket d t0 (Z.land v m0) acc;
         dictScan_loop (Z.to_nat (size (ht d t1))) d t1 m0 m1 v acc);
    let d := dictResumeRehashing d in
    Some (d, v, acc).

End scan.

(** ** Reversing bits *)

Definition rev_step (s mask v : Z) : Z :=
  Z.lor (Z.land (Z.shiftr v s) mask) (Z.land (u64 (Z.shiftl v s)) (u64 (Z.lnot mask))).

Lemma u64_testbit v i : 0 <= i -> Z.testbit (u64 v) i = (i <? 64) && Z.testbit v i.
Proof.
  intros Hi. unfold uwrap. destruct (Z.ltb_spec i 64); simpl.
  - by apply Z.mod_pow2_bits_low.
  - by apply Z.mod_pow2_bits_high.
Qed.

(** One turn of the loop swaps neighbouring blocks of [s] bits: bit i comes from bit i xor s. *)
Lemma rev_step_testbit s mask v i : 0 <= v < 2 ^ 64 -> 0 <= i < 64 -> s ∈ [32; 16; 8; 4; 2; 1] ->
  forallb (fun i => Bool.eqb (Z.testbit mask i) (Z.land i s =? 0)) (seqZ 0 64) = true ->
  0 <= mask < 2 ^ 64 ->
  Z.testbit (rev_step s mask v) i = Z.testbit v (Z.lxor i s).
Proof.
  intros Hv Hi Hs Hmask Hmr. unfold rev_step. assert (0 <= s <= 32) as Hsr.
  { rewrite !elem_of_cons, elem_of_nil in Hs. lia. }
  rewrite Z.lor_spec, !Z.land_spec, Z.shiftr_spec, !u64_testbit, Z.lnot_spec, Z.shiftl_spec by lia.
  rewrite forallb_forall in Hmask. pose proof (Hmask i) as Hm.
  rewrite <- list_elem_of_In, elem_of_seqZ in Hm. specialize (Hm ltac:(lia)). apply eqb_prop in Hm.
  rewrite Hm, (proj2 (Z.ltb_lt i 64)) by lia. simpl.
  assert (Z.lxor i s = if Z.land i s =? 0 then i + s else i - s) as ->.
  { clear - Hs Hi. assert (forallb (fun s => forallb (fun i =>
      Z.lxor i s =? if Z.land i s =? 0 then i + s else i - s) (seqZ 0 64)) [32; 16; 8; 4; 2; 1] = true) as Hall by done.
    rewrite forallb_forall in Hall. specialize (Hall s (proj1 (list_elem_of_In _ _) Hs)).
    rewrite forallb_forall in Hall. specialize (Hall i). rewrite <- list_elem_of_In, elem_of_seqZ in Hall.
    apply Z.eqb_eq, Hall. lia. }
  destruct (Z.land i s =? 0); simpl; rewrite ?andb_true_r, ?andb_false_r, ?orb_false_r; done.
Qed.

Lemma rev_step_range s mask v : 0 <= s -> 0 <= v < 2 ^ 64 -> 0 <= mask < 2 ^ 64 -> 0 <= rev_step s mask v < 2 ^ 64.
Proof.
  intros Hs Hv Hm. enough (rev_step s mask v = u64 (rev_step s mask v)) as ->; [by apply uwrap_range|].
  apply Z.bits_inj'. intros i Hi. rewrite u64_testbit by done. destruct (Z.ltb_spec i 64); [done|]. simpl.
  unfold rev_step. rewrite Z.lor_spec, !Z.land_spec, !u64_testbit by done.
  rewrite (proj2 (Z.ltb_ge i 64)) by done. simpl. rewrite orb_false_r.
  assert (Z.testbit mask i = false) as ->; [|by rewrite andb_false_r].
  destruct (Z.eq_dec mask 0) as [->|]; [apply Z.bits_0|]. apply Z.bits_above_log2; [lia|].
  apply Z.log2_lt_pow2; [lia|]. apply Z.lt_le_trans with (2 ^ 64); [lia|]. apply Z.pow_le_mono_r; lia.
Qed.

Lemma rev_eq v : rev v =
  rev_step 1 0x5555555555555555 (rev_step 2 0x3333333333333333 (rev_step 4 0x0F0F0F0F0F0F0F0F
    (rev_step 8 0x00FF00FF00FF00FF (rev_step 16 0x0000FFFF0000FFFF (rev_step 32 0x00000000FFFFFFFF v))))).
Proof. reflexivity. Qed.

(** Bit i of [w] is bit i xor x of [v]. *)
Definition xor_bits (v x w : Z) : Prop :=
  0 <= w < 2 ^ 64 /\ forall i, 0 <= i < 64 -> Z.testbit w i = Z.testbit v (Z.lxor i x).

Lemma xor_bits_step v x w s mask : xor_bits v x w -> s ∈ [32; 16; 8; 4; 2; 1] ->
  forallb (fun i => Bool.eqb (Z.testbit mask i) (Z.land i s =? 0)) (seqZ 0 64) = true ->
  0 <= mask < 2 ^ 64 -> xor_bits v (Z.lxor s x) (rev_step s mask w).
Proof.
  intros [Hw Hb] Hs Hmask Hm. assert (0 <= s <= 32) by (rewrite !elem_of_cons, elem_of_nil in Hs; lia).
  split; [apply rev_step_range; lia|]. intros i Hi. rewrite rev_step_testbit by done.
  rewrite Hb, Z.lxor_assoc; [done|]. split; [apply Z.lxor_nonneg; lia|].
  change 64 with (2 ^ 6). destruct (Z.eq_dec (Z.lxor i s) 0) as [->|]; [lia|].
  apply Z.log2_lt_pow2; [pose proof (proj2 (Z.lxor_nonneg i s)); lia|].
  pose proof (Z.log2_lxor i s). assert (Z.log2 i < 6) by (destruct (Z.eq_dec i 0) as [->|]; [done|]; apply Z.log2_lt_pow2; lia).
  assert (Z.log2 s < 6) by (destruct (Z.eq_dec s 0) as [->|]; [done|]; apply Z.log2_lt_pow2; lia). lia.
Qed.

Lemma lxor_63 i : 0 <= i < 64 -> Z.lxor i 63 = 63 - i.
Proof.
  intros Hi. assert (forallb (fun i => Z.lxor i 63 =? 63 - i) (seqZ 0 64) = true) as Hall by done.
  rewrite forallb_forall in Hall. specialize (Hall i). rewrite <- list_elem_of_In, elem_of_seqZ in Hall.
  apply Z.eqb_eq, Hall. lia.
Qed.

Lemma rev_spec v : 0 <= v < 2 ^ 64 ->
  0 <= rev v < 2 ^ 64 /\ forall i, 0 <= i < 64 -> Z.testbit (rev v) i = Z.testbit v (63 - i).
Proof.
  intros Hv. rewrite rev_eq. assert (xor_bits v 0 v) as H0.
  { split; [done|]. intros i _. by rewrite Z.lxor_0_r. }
  apply (fun H => xor_bits_step _ _ _ 32 0x00000000FFFFFFFF H) in H0; [|rewrite !elem_of_cons; lia | reflexivity | lia].
  apply (fun H => xor_bits_step _ _ _ 16 0x0000FFFF0000FFFF H) in H0; [|rewrite !elem_of_cons; lia | reflexivity | lia].
  apply (fun H => xor_bits_step _ _ _ 8 0x00FF00FF00FF00FF H) in H0; [|rewrite !elem_of_cons; lia | reflexivity | lia].
  apply (fun H => xor_bits_step _ _ _ 4 0x0F0F0F0F0F0F0F0F H) in H0; [|rewrite !elem_of_cons; lia | reflexivity | lia].
  apply (fun H => xor_bits_step _ _ _ 2 0x3333333333333333 H) in H0; [|rewrite !elem_of_cons; lia | reflexivity | lia].
  apply (fun H => xor_bits_step _ _ _ 1 0x5555555555555555 H) in H0; [|rewrite !elem_of_cons; lia | reflexivity | lia].
  destruct H0 as [Hr Hb]. split; [exact Hr|]. intros i Hi. rewrite Hb by done. f_equal.
  change (Z.lxor 1 _) with 63. by apply lxor_63.
Qed.

Lemma testbit_high v i : 0 <= v < 2 ^ 64 -> 64 <= i -> Z.testbit v i = false.
Proof.
  intros Hv Hi. rewrite <- (uwrap_small 64 v Hv), u64_testbit by lia. by rewrite (proj2 (Z.ltb_ge i 64)).
Qed.

Lemma rev_rev v : 0 <= v < 2 ^ 64 -> rev (rev v) = v.
Proof.
  intros Hv. destruct (rev_spec v Hv) as [Hr Hb]. destruct (rev_spec (rev v) Hr) as [Hr' Hb'].
  apply Z.bits_inj'. intros i Hi. destruct (Z.lt_ge_cases i 64).
  - rewrite Hb', Hb by lia. f_equal. lia.
  - by rewrite !testbit_high.
Qed.

(** The buckets of a table of 2^k chains, in the order of the cursor: bucket of [h] = bucket of [v]
    when the k highest bits of the reversed numbers are the same. *)
Lemma bucket_rev k h v : 0 <= k <= 64 -> 0 <= h < 2 ^ 64 -> 0 <= v < 2 ^ 64 ->
  rev h / 2 ^ (64 - k) = rev v / 2 ^ (64 - k) -> Z.land h (2 ^ k - 1) = Z.land v (2 ^ k - 1).
Proof.
  intros Hk Hh Hv Heq. rewrite !land_pow2 by lia. apply Z.bits_inj'. intros i Hi.
  destruct (Z.lt_ge_cases i k); [|by rewrite !Z.mod_pow2_bits_high by lia].
  rewrite !Z.mod_pow2_bits_low by lia. apply (f_equal (fun z => Z.testbit z (k - 1 - i))) in Heq.
  rewrite <- !Z.shiftr_div_pow2, !Z.shiftr_spec in Heq by lia.
  destruct (rev_spec h Hh) as [_ Hbh]. destruct (rev_spec v Hv) as [_ Hbv].
  rewrite Hbh, Hbv in Heq by lia. by replace (63 - (k - 1 - i + (64 - k))) with i in Heq by lia.
Qed.

Lemma next_cursor_spec k v : 0 <= k <= 64 -> 0 <= v < 2 ^ 64 ->
  0 <= next_cursor v (2 ^ k - 1) < 2 ^ 64 /\
  rev (next_cursor v (2 ^ k - 1)) = u64 ((rev v / 2 ^ (64 - k) + 1) * 2 ^ (64 - k)).
Proof.
  intros Hk Hv. unfold next_cursor. destruct (rev_spec v Hv) as [Hr Hb].
  set (w := Z.lor v (u64 (Z.lnot (2 ^ k - 1)))).
  assert (forall i, 0 <= i -> Z.testbit w i = Z.testbit v i || ((k <=? i) && (i <? 64))) as Hwb.
  { intros i Hi. unfold w. rewrite Z.lor_spec, u64_testbit, Z.lnot_spec by lia.
    replace (2 ^ k - 1) with (Z.ones k) by (rewrite Z.ones_equiv; lia). rewrite Z.testbit_ones by lia.
    f_equal. destruct (Z.leb_spec 0 i), (Z.ltb_spec i k), (Z.leb_spec k i); try lia; simpl; by rewrite ?andb_true_r, ?andb_false_r. }
  assert (0 <= w < 2 ^ 64) as Hw.
  { enough (w = u64 w) as -> by (by apply uwrap_range). apply Z.bits_inj'. intros i Hi.
    rewrite u64_testbit by done. destruct (Z.ltb_spec i 64); [done|]. rewrite Hwb, testbit_high by lia.
    simpl. rewrite andb_false_iff. right. lia. }
  destruct (rev_spec w Hw) as [Hwr Hwrb].
  assert (0 <= u64 (rev w + 1) < 2 ^ 64) as Hu by (by apply uwrap_range).
  split; [by apply rev_spec|]. rewrite rev_rev by done. f_equal.
  enough (rev w = Z.ones (64 - k) + rev v / 2 ^ (64 - k) * 2 ^ (64 - k)) as ->.
  { rewrite Z.ones_equiv. lia. }
  rewrite <- shiftl_lor_add; [|lia | rewrite Z.ones_equiv; pose proof (Z.pow_pos_nonneg 2 (64 - k)); lia].
  apply Z.bits_inj'. intros i Hi. rewrite Z.lor_spec, Z.testbit_ones by lia.
  destruct (Z.lt_ge_cases i 64).
  - rewrite Hwrb, Hwb by lia. destruct (Z.ltb_spec i (64 - k)).
    + rewrite (proj2 (Z.leb_le k (63 - i))), (proj2 (Z.ltb_lt (63 - i) 64)), (proj2 (Z.leb_le 0 i)) by lia.
      by rewrite orb_true_r.
    + rewrite (proj2 (Z.leb_gt k (63 - i))) by lia. rewrite andb_false_r, orb_false_r, orb_false_l.
      rewrite Z.shiftl_spec, <- Z.shiftr_div_pow2, Z.shiftr_spec by lia. rewrite Z.sub_add, Hb by lia. done.
  - rewrite testbit_high by lia. rewrite (proj2 (Z.ltb_ge i (64 - k))), andb_false_r by lia.
    rewrite Z.shiftl_spec, <- Z.shiftr_div_pow2, Z.shiftr_spec by lia. rewrite Z.sub_add. by rewrite testbit_high.
Qed.

#[local] Opaque rev.

(** ** What one call covers *)

Lemma mod_pow2_bits z n : 0 <= n -> z mod 2 ^ n = 0 <-> forall i, 0 <= i < n -> Z.testbit z i = false.
Proof.
  intros Hn. split.
  - intros Hz i Hi. rewrite <- (Z.mod_pow2_bits_low z n i) by lia. rewrite Hz. apply Z.bits_0.
  - intros Hb. apply Z.bits_inj'. intros i Hi. rewrite Z.bits_0.
    destruct (Z.lt_ge_cases i n); [rewrite Z.mod_pow2_bits_low by lia; auto|].
    by apply Z.mod_pow2_bits_high.
Qed.

(** The condition of the do-while loop. *)
Lemma expansion_done k0 k1 v : 0 <= k0 <= k1 -> k1 <= 64 -> 0 <= v < 2 ^ 64 -> rev v mod 2 ^ (64 - k1) = 0 ->
  (Z.land v (Z.lxor (2 ^ k0 - 1) (2 ^ k1 - 1)) =? 0) = (rev v mod 2 ^ (64 - k0) =? 0).
Proof.
  intros Hk0 Hk1 Hv Hm. destruct (rev_spec v Hv) as [_ Hb].
  replace (2 ^ k0 - 1) with (Z.ones k0) by (rewrite Z.ones_equiv; lia).
  replace (2 ^ k1 - 1) with (Z.ones k1) by (rewrite Z.ones_equiv; lia).
  apply Bool.eq_iff_eq_true. rewrite !Z.eqb_eq. rewrite (mod_pow2_bits _ (64 - k0)) by lia.
  rewrite (mod_pow2_bits _ (64 - k1)) in Hm by lia. split.
  - intros Hz i Hi. destruct (Z.lt_ge_cases i (64 - k1)); [apply Hm; lia|]. rewrite Hb by lia.
    apply (f_equal (fun z => Z.testbit z (63 - i))) in Hz. rewrite Z.land_spec, Z.lxor_spec, Z.bits_0 in Hz.
    rewrite !Z.testbit_ones in Hz by lia.
    rewrite (proj2 (Z.ltb_ge (63 - i) k0)), (proj2 (Z.ltb_lt (63 - i) k1)), (proj2 (Z.leb_le 0 (63 - i))) in Hz by lia.
    by rewrite andb_true_r in Hz.
  - intros Hz. apply Z.bits_inj'. intros i Hi. rewrite Z.land_spec, Z.lxor_spec, Z.bits_0, !Z.testbit_ones by lia.
    rewrite (proj2 (Z.leb_le 0 i)) by lia. destruct (Z.ltb_spec i k0), (Z.ltb_spec i k1); simpl; try lia;
      rewrite ?andb_false_r; try done.
    rewrite andb_true_r. rewrite <- (Hz (63 - i)) by lia. rewrite Hb by lia. f_equal. lia.
Qed.

Section coverage.
Context {K V : Type} `{DictType K V}.
Implicit Types (d : dict K V) (e : dictEntry K V) (acc out : list (dictEntry K V)).

(** The callback that keeps the entries. *)
Definition collect acc e : list (dictEntry K V) := acc ++ [e].
Definition no_bucketfn acc (t : bool) (i : Z) : list (dictEntry K V) := acc.

(** The place of an entry in the order of the cursor. *)
Definition position e : Z := rev (hashFunction (key e)).

Lemma foldl_collect acc c : foldl collect acc c = acc ++ c.
Proof.
  revert acc. induction c as [|e c IH]; intros acc; simpl; [by rewrite app_nil_r|].
  rewrite IH. unfold collect. by rewrite <- app_assoc.
Qed.

Lemma scan_bucket_spec d t k v acc : ht_alloc (ht d t) -> 0 <= v < 2 ^ 64 -> size (ht d t) = 2 ^ k -> 2 <= k <= 60 ->
  exists out, scan_bucket collect no_bucketfn d t (Z.land v (sizemask (ht d t))) acc = Some (acc ++ out) /\
    (forall e, e ∈ out -> e ∈ ht_entries (ht d t)) /\
    (forall e, e ∈ ht_entries (ht d t) -> position e / 2 ^ (64 - k) = rev v / 2 ^ (64 - k) -> e ∈ out).
Proof.
  intros Hh Hv Hsz Hk. unfold scan_bucket.
  destruct (ht_chain_is_Some (ht d t) (Z.land v (sizemask (ht d t))) Hh) as [c Hc].
  { apply bucket_range; [done | lia]. }
  rewrite Hc. simpl_bind. exists c. rewrite foldl_collect. split_and!; [done | |].
  - intros e He. apply elem_of_ht_entries; eauto.
  - intros e (i & c' & Hi & He)%elem_of_ht_entries Hpos; [|done].
    pose proof (ht_hash _ Hh _ _ _ Hi He) as Hih. rewrite (ht_mask _ Hh), Hsz in Hih, Hc. unfold position in Hpos.
    rewrite (bucket_rev k _ v ltac:(lia) (hashFunction_range (key e)) Hv Hpos) in Hih. congruence.
Qed.

(** The end of the block of 2^(64-k) positions that [x] is in. *)
Definition block_end (k x : Z) : Z := (x / 2 ^ (64 - k) + 1) * 2 ^ (64 - k).

Lemma block_end_spec k x : 0 <= k <= 64 -> 0 <= x < 2 ^ 64 ->
  x < block_end k x <= 2 ^ 64 /\ block_end k x mod 2 ^ (64 - k) = 0 /\ block_end k x - 2 ^ (64 - k) <= x.
Proof.
  intros Hk Hx. unfold block_end. assert (0 < 2 ^ (64 - k)) by (apply Z.pow_pos_nonneg; lia).
  pose proof (Z.div_mod x (2 ^ (64 - k))). pose proof (Z.mod_pos_bound x (2 ^ (64 - k))).
  assert (2 ^ 64 = 2 ^ k * 2 ^ (64 - k)) as Hp by (rewrite <- Z.pow_add_r by lia; f_equal; lia).
  assert (x / 2 ^ (64 - k) < 2 ^ k) by (apply Z.div_lt_upper_bound; lia).
  split_and!; [lia | rewrite Hp; apply Z.mul_le_mono_nonneg_r; lia | apply Z.mod_mul; lia | lia].
Qed.

Lemma block_mono k0 k1 x : 0 <= k0 <= k1 -> k1 <= 64 -> 0 <= x < 2 ^ 64 -> block_end k1 x <= block_end k0 x.
Proof.
  intros Hk0 Hk1 Hx. destruct (block_end_spec k0 x) as (Hlt & Hm & _); [lia..|].
  unfold block_end at 1. assert (0 < 2 ^ (64 - k1)) by (apply Z.pow_pos_nonneg; lia).
  assert (2 ^ (64 - k0) = 2 ^ (k1 - k0) * 2 ^ (64 - k1)) as Hp by (rewrite <- Z.pow_add_r by lia; f_equal; lia).
  apply Z.mod_divide in Hm as [q Hq]; [|pose proof (Z.pow_pos_nonneg 2 (64 - k0)); lia].
  rewrite Hp, Z.mul_assoc in Hq. rewrite Hq in *. apply Z.mul_le_mono_nonneg_r; [lia|].
  enough (x / 2 ^ (64 - k1) < q * 2 ^ (k1 - k0)) by lia. apply Z.div_lt_upper_bound; lia.
Qed.

Lemma block_same k x y : 0 <= k <= 64 -> 0 <= x -> x <= y < block_end k x -> y / 2 ^ (64 - k) = x / 2 ^ (64 - k).
Proof.
  intros Hk Hx Hy. unfold block_end in Hy. assert (0 < 2 ^ (64 - k)) by (apply Z.pow_pos_nonneg; lia).
  apply Z.le_antisymm; [|apply Z.div_le_mono; lia].
  enough (y / 2 ^ (64 - k) < x / 2 ^ (64 - k) + 1) by lia. apply Z.div_lt_upper_bound; lia.
Qed.


Lemma next_cursor_block k v : 0 <= k <= 64 -> 0 <= v < 2 ^ 64 ->
  0 <= next_cursor v (2 ^ k - 1) < 2 ^ 64 /\ rev (next_cursor v (2 ^ k - 1)) = u64 (block_end k (rev v)).
Proof. apply next_cursor_spec. Qed.

(** The position y is inside the interval the cursor went over, from [v] up to [y1]. *)
Definition covers d t v y1 out : Prop :=
  forall e, e ∈ ht_entries (ht d t) -> rev v <= position e < y1 -> e ∈ out.

Lemma u64_pow64 : u64 (2 ^ 64) = 0.
Proof. reflexivity. Qed.

Lemma u64_mod k y : 0 <= k <= 64 -> u64 y mod 2 ^ (64 - k) = y mod 2 ^ (64 - k).
Proof.
  intros Hk. unfold uwrap. apply Z.mod_mod_divide.
  exists (2 ^ k). rewrite <- Z.pow_add_r by lia. f_equal. lia.
Qed.

(** No multiple of 2^(64-k) lies strictly inside a block. *)
Lemma block_inside k x y : 0 <= k <= 64 -> 0 <= x < 2 ^ 64 -> x < y < block_end k x -> y mod 2 ^ (64 - k) <> 0.
Proof.
  intros Hk Hx Hy Hm. assert (0 < 2 ^ (64 - k)) by (apply Z.pow_pos_nonneg; lia).
  destruct (block_end_spec k x) as (_ & _ & Hlow); [lia..|].
  pose proof (block_same k x y Hk ltac:(lia) ltac:(lia)) as Hsame.
  pose proof (Z.div_mod y (2 ^ (64 - k)) ltac:(lia)). pose proof (Z.mul_div_le x (2 ^ (64 - k)) ltac:(lia)).
  rewrite Hsame in *. lia.
Qed.

(** The expansions of the cursor in the larger table. *)
Lemma dictScan_loop_spec d t1 k0 k1 fuel v acc : ht_alloc (ht d t1) -> size (ht d t1) = 2 ^ k1 ->
  2 <= k0 <= k1 -> k1 <= 60 -> 0 <= v < 2 ^ 64 -> 
  block_end k0 (rev v) - (block_end k1 (rev v) - 2 ^ (64 - k1)) <= Z.of_nat fuel * 2 ^ (64 - k1) ->
  exists v' out, dictScan_loop collect no_bucketfn fuel d t1 (2 ^ k0 - 1) (2 ^ k1 - 1) v acc = Some (v', acc ++ out) /\
    0 <= v' < 2 ^ 64 /\ rev v' = u64 (block_end k0 (rev v)) /\
    (forall e, e ∈ out -> e ∈ ht_entries (ht d t1)) /\ covers d t1 v (block_end k0 (rev v)) out.
Proof.
  intros Hh Hsz Hk Hk1. revert v acc. induction fuel as [|fuel IH]; intros v acc Hv Hfuel.
  all: destruct (rev_spec v Hv) as [Hr _].
  all: pose proof (block_mono k0 k1 (rev v) ltac:(lia) ltac:(lia) Hr).
  { pose proof (Z.pow_pos_nonneg 2 (64 - k1)). lia. }
  destruct (block_end_spec k1 (rev v)) as (Hb1 & Hm1 & Hlow1); [lia..|].
  destruct (block_end_spec k0 (rev v)) as (Hb0 & Hm0 & Hlow0); [lia..|].
  destruct (scan_bucket_spec d t1 k1 v acc Hh Hv Hsz) as (out1 & Hscan & Hout1 & Hcov1); [lia|].
  rewrite (ht_mask _ Hh), Hsz in Hscan. cbn [dictScan_loop]. rewrite Hscan. simpl_bind. cbv zeta.
  destruct (next_cursor_block k1 v) as [Hvr Hvn]; [lia..|].
  set (v1 := next_cursor v (2 ^ k1 - 1)) in *.
  assert (covers d t1 v (block_end k1 (rev v)) out1) as Hcov.
  { intros e He Hpos. apply Hcov1; [done|]. apply block_same; lia. }
  rewrite expansion_done by (lia || done || (rewrite Hvn, u64_mod by lia; done)).
  rewrite Hvn, u64_mod by lia.
  destruct (Z.eq_dec (block_end k1 (rev v)) (block_end k0 (rev v))) as [Heq|Hne].
  { rewrite Heq, Hm0, Z.eqb_refl. exists v1, out1. rewrite Heq in *. split_and!; try done; lia. }
  rewrite (proj2 (Z.eqb_neq _ 0)) by (apply (block_inside k0 (rev v)); lia).
  rewrite uwrap_small in Hvn by lia.
  assert (block_end k0 (rev v1) = block_end k0 (rev v)) as Hsame0.
  { unfold block_end at 1. rewrite Hvn, (block_same k0 (rev v)) by lia. done. }
  assert (block_end k1 (rev v1) = rev v1 + 2 ^ (64 - k1)) as Hsame1.
  { unfold block_end at 1. rewrite Hvn. pose proof (Z.div_mod (block_end k1 (rev v)) (2 ^ (64 - k1))).
    pose proof (Z.pow_pos_nonneg 2 (64 - k1)). lia. }
  destruct (IH v1 (acc ++ out1) Hvr) as (v' & out2 & -> & Hv' & Hvn' & Hout2 & Hcov2).
  { rewrite Hsame0, Hsame1, Hvn. lia. }
  rewrite Hsame0 in *. exists v', (out1 ++ out2). rewrite <- app_assoc. split_and!; [done | lia | lia | done | |].
  - intros e [He|He]%elem_of_app; auto.
  - intros e He Hpos. apply elem_of_app. destruct (Z.lt_ge_cases (position e) (block_end k1 (rev v))).
    + left. apply Hcov; [done | lia].
    + right. apply Hcov2; [done | lia].
Qed.


Lemma pause_resume d : - 2 ^ 15 <= pauserehash d < 2 ^ 15 - 1 ->
  dictResumeRehashing (dictPauseRehashing d) = d.
Proof.
  intros Hp. destruct d as [h0 h1 r p]. unfold dictResumeRehashing, dictPauseRehashing. simpl in *. f_equal.
  rewrite (swrap_small 16 (p + 1)) by (eval_pow2; lia). rewrite Z.add_simpl_r. apply swrap_small; eval_pow2; lia.
Qed.

(** The smaller table, which is the one that decides how far the cursor goes. *)
Definition scan_size d : Z := if dictIsRehashing d then Z.min (size (ht0 d)) (size (ht1 d)) else size (ht0 d).

Lemma two_tables d : dict_ok d -> dictIsRehashing d = true ->
  exists t0 k0 k1, (if size (ht1 d) <? size (ht0 d) then (true, false) else (false, true)) = (t0, negb t0) /\
    ht_alloc (ht d t0) /\ ht_alloc (ht d (negb t0)) /\ size (ht d t0) = 2 ^ k0 /\ size (ht d (negb t0)) = 2 ^ k1 /\
    2 <= k0 <= k1 /\ k1 <= 60 /\ scan_size d = 2 ^ k0.
Proof.
  intros Hd Hr. destruct (rehashing d Hd Hr) as (_ & Hh0 & Hh1 & _).
  destruct (ht_size _ Hh0) as (a & Ha & Hsa). destruct (ht_size _ Hh1) as (b & Hb & Hsb).
  unfold scan_size. rewrite Hr, Hsa, Hsb. destruct (Z.ltb_spec (2 ^ b) (2 ^ a)) as [Hlt|Hge].
  - exists true, b, a. simpl. split_and!; try done; try lia. apply Z.pow_lt_mono_r_iff in Hlt; lia.
  - exists false, a, b. simpl. split_and!; try done; try lia. apply Z.pow_le_mono_r_iff in Hge; lia.
Qed.

(** One call: the new cursor, and the entries that are handed to the callback. *)
Lemma dictScan_spec d v acc : dict_ok d -> 0 <= v < 2 ^ 64 -> - 2 ^ 15 <= pauserehash d < 2 ^ 15 - 1 ->
  exists v' out, dictScan collect no_bucketfn d v acc = Some (d, v', acc ++ out) /\ 0 <= v' < 2 ^ 64 /\
    (forall e, e ∈ out -> e ∈ dict_entries d) /\
    ((dict_entries d = [] /\ v' = 0) \/
     exists k, 2 <= k <= 60 /\ scan_size d = 2 ^ k /\ rev v' = u64 (block_end k (rev v)) /\
       forall e, e ∈ dict_entries d -> rev v <= position e < block_end k (rev v) -> e ∈ out).
Proof.
  intros Hd Hv Hpause. unfold dictScan. destruct (Z.eqb_spec (dictSize d) 0) as [Hz|Hz].
  { exists 0, []. rewrite app_nil_r. split_and!; [done | done | done | by intros e ?%not_elem_of_nil|].
    left. split; [|done]. rewrite (dictSize_entries d Hd) in Hz. by apply zlen_eq_nil. }
  cbv zeta. rewrite (pause_resume d Hpause). destruct (rev_spec v Hv) as [Hr _].
  set (dp := dictPauseRehashing d).
  assert (forall t, ht dp t = ht d t) as Hht by (by intros []).
  change (dictIsRehashing dp) with (dictIsRehashing d). destruct (dictIsRehashing d) eqn:Hre; cbn [negb].
  - destruct (two_tables d Hd Hre) as (t0 & k0 & k1 & Hsel & Hh0 & Hh1 & Hs0 & Hs1 & Hk & Hk1 & Hscan).
    change (ht1 dp) with (ht1 d). change (ht0 dp) with (ht0 d). rewrite Hsel.
    rewrite <- !(Hht (negb t0)), <- !(Hht t0) in *.
    destruct (scan_bucket_spec dp t0 k0 v acc Hh0 Hv Hs0) as (out0 & Hb & Hout0 & Hcov0); [lia|].
    rewrite Hb. simpl_bind. rewrite (ht_mask _ Hh0), (ht_mask _ Hh1), Hs0, Hs1.
    destruct (block_end_spec k0 (rev v)) as (Hb0 & _); [lia..|].
    destruct (dictScan_loop_spec dp (negb t0) k0 k1 (Z.to_nat (2 ^ k1)) v (acc ++ out0) Hh1 Hs1 Hk Hk1 Hv)
      as (v' & out1 & -> & Hv' & Hvn & Hout1 & Hcov1).
    { assert (2 ^ 64 = 2 ^ k1 * 2 ^ (64 - k1)) as Hp by (rewrite <- Z.pow_add_r by lia; f_equal; lia).
      pose proof (Z.pow_pos_nonneg 2 k1). rewrite Z2Nat.id by lia. rewrite <- Hp. unfold block_end at 2.
      enough (0 <= rev v / 2 ^ (64 - k1) * 2 ^ (64 - k1)) by lia.
      apply Z.mul_nonneg_nonneg; [apply Z.div_pos|]; pose proof (Z.pow_pos_nonneg 2 (64 - k1)); lia. }
    simpl_bind. exists v', (out0 ++ out1). rewrite app_assoc.
    assert (forall e, e ∈ dict_entries d <-> e ∈ ht_entries (ht dp t0) \/ e ∈ ht_entries (ht dp (negb t0))) as Hsplit.
    { intros e. unfold dict_entries. rewrite elem_of_app. destruct t0; simpl; tauto. }
    split_and!; [done | lia | lia | |].
    + intros e [He|He]%elem_of_app; apply Hsplit; auto.
    + right. exists k0. split_and!; [lia | lia | done | done|]. intros e [He|He]%Hsplit Hpos; apply elem_of_app.
      * left. apply Hcov0; [done|]. apply block_same; lia.
      * right. by apply Hcov1.
  - pose proof (nonempty_alloc d Hd Hz) as Hh0. destruct (ht_size _ Hh0) as (k & Hk & Hs).
    destruct (scan_bucket_spec dp false k v acc Hh0 Hv Hs) as (out & Hb & Hout & Hcov); [lia|].
    change (sizemask (ht0 dp)) with (sizemask (ht dp false)). rewrite Hb. simpl_bind. destruct (not_rehashing d Hd Hre) as [_ Hh1].
    change (sizemask (ht dp false)) with (sizemask (ht0 d)). rewrite (ht_mask _ Hh0), Hs.
    destruct (next_cursor_block k v) as [Hvr Hvn]; [lia..|].
    assert (dict_entries d = ht_entries (ht0 d)) as He.
    { unfold dict_entries. rewrite Hh1. apply app_nil_r. }
    eexists _, out. split_and!; [done | lia | lia | by rewrite He|]. right. exists k. unfold scan_size. rewrite Hre.
    split_and!; [lia | lia | done | done|]. rewrite He. intros e Hin Hpos. apply Hcov; [done|].
    destruct (block_end_spec k (rev v)) as (? & _); [lia..|]. apply block_same; lia.
Qed.

(** ** Sessions *)

(** A client calls dictScan() repeatedly, each time with the cursor the previous call returned;
    [ds] is the dictionary at the time of each call. *)
Fixpoint scan_session (ds : list (dict K V)) (v : Z) : option (Z * list (dictEntry K V)) :=
  match ds with
  | [] => Some (v, [])
  | d :: ds =>
      '(_, v, out) ← dictScan collect no_bucketfn d v [];
      '(v, rest) ← scan_session ds v;
      Some (v, out ++ rest)
  end.

Definition scannable d : Prop := dict_ok d /\ - 2 ^ 15 <= pauserehash d < 2 ^ 15 - 1.

Lemma rev_0 : rev 0 = 0.
Proof. reflexivity. Qed.

Lemma rev_eq_0 v : 0 <= v < 2 ^ 64 -> rev v = 0 -> v = 0.
Proof. intros Hv Hr. by rewrite <- (rev_rev v Hv), Hr. Qed.

Lemma scan_session_covers ds v out : ds <> [] -> Forall scannable ds -> 0 <= v < 2 ^ 64 ->
  scan_session ds v = Some (0, out) ->
  forall k, Forall (fun d => exists e, e ∈ dict_entries d /\ key e = k) ds -> rev v <= rev (hashFunction k) ->
  exists e, e ∈ out /\ key e = k.
Proof.
  revert v out. induction ds as [|d ds IH]; intros v out Hne Hok Hv Hs k Hk Hpos; [done|].
  apply Forall_cons in Hok as [[Hd Hp] Hok]. apply Forall_cons in Hk as [(e & He & Hek) Hk].
  cbn [scan_session] in Hs.
  destruct (dictScan_spec d v [] Hd Hv Hp) as (v1 & out1 & Hscan & Hv1 & _ & Hcase). rewrite Hscan in Hs.
  simpl_bind in Hs. simpl app in Hs. destruct Hcase as [[Hnil _]|(b & Hb & _ & Hr1 & Hcov)].
  { rewrite Hnil in He. by apply not_elem_of_nil in He. }
  destruct (scan_session ds v1) as [[v2 rest]|] eqn:Hrest; [|done]. simpl_bind in Hs. injection Hs as -> <-.
  destruct (rev_spec v Hv) as [Hr _].
  destruct (rev_spec (hashFunction k) (hashFunction_range k)) as [Hh _].
  destruct (block_end_spec b (rev v)) as (Hbe & _); [lia..|].
  destruct (Z.lt_ge_cases (rev (hashFunction k)) (block_end b (rev v))).
  - exists e. split; [|done]. apply elem_of_app. left. apply Hcov; [done|]. unfold position. rewrite Hek. lia.
  - rewrite uwrap_small in Hr1 by lia. destruct ds as [|d' ds].
    { injection Hrest as -> _. rewrite rev_0 in Hr1. lia. }
    destruct (IH v1 rest ltac:(done) Hok Hv1 Hrest k Hk) as (e' & He' & Hk'); [lia|].
    exists e'. split; [|done]. apply elem_of_app. by right.
Qed.

(** C26. dictScan() misses nothing: in a full iteration, from cursor 0 back to cursor 0, every
    key that is in the dictionary at the time of all the calls is handed to the callback, even
    if between two calls the dictionary was changed in any way: other keys added or removed,
    tables grown or shrunk, steps of rehashing done. *)
Theorem dictScan_complete ds out : ds <> [] -> Forall scannable ds -> scan_session ds 0 = Some (0, out) ->
  forall k, Forall (fun d => exists e, e ∈ dict_entries d /\ key e = k) ds -> exists e, e ∈ out /\ key e = k.
Proof.
  intros Hne Hok Hs k Hk. apply (scan_session_covers ds 0 out); try done.
  rewrite rev_0. by apply rev_spec, hashFunction_range.
Qed.

Lemma scan_session_ends ds v K0 : 2 <= K0 <= 60 -> ds <> [] -> 0 <= v < 2 ^ 64 ->
  Forall (fun d => scannable d /\ scan_size d <= 2 ^ K0) ds ->
  2 ^ K0 <= rev v / 2 ^ (64 - K0) + zlen ds ->
  exists ds1 ds2 out, ds = ds1 ++ ds2 /\ ds1 <> [] /\ scan_session ds1 v = Some (0, out).
Proof.
  intros HK. revert v. induction ds as [|d ds IH]; intros v Hne Hv Hok Hlen; [done|].
  apply Forall_cons in Hok as [[[Hd Hp] Hsz] Hok]. rewrite zlen_cons in Hlen.
  destruct (dictScan_spec d v [] Hd Hv Hp) as (v1 & out1 & Hscan & Hv1 & _ & Hcase).
  destruct (Z.eq_dec v1 0) as [->|Hnz].
  { exists [d], ds, out1. split_and!; [done | done|]. cbn [scan_session]. rewrite Hscan. simpl_bind. by rewrite app_nil_r. }
  destruct Hcase as [[_ ->]|(b & Hb & Hsb & Hr1 & _)]; [done|]. destruct (rev_spec v Hv) as [Hr _].
  rewrite Hsb in Hsz. apply Z.pow_le_mono_r_iff in Hsz; [|lia..].
  pose proof (block_mono b K0 (rev v) ltac:(lia) ltac:(lia) Hr) as Hmono.
  destruct (block_end_spec b (rev v)) as (Hbe & _); [lia..|].
  assert (block_end b (rev v) <> 2 ^ 64).
  { intros Heq. rewrite Heq, u64_pow64 in Hr1. by apply rev_eq_0 in Hr1. }
  rewrite uwrap_small in Hr1 by lia.
  assert (rev v / 2 ^ (64 - K0) + 1 <= rev v1 / 2 ^ (64 - K0)) as Hadv.
  { apply Z.div_le_lower_bound; [apply Z.pow_pos_nonneg; lia|]. rewrite Hr1. unfold block_end in Hmono at 1. lia. }
  assert (rev v1 / 2 ^ (64 - K0) < 2 ^ K0).
  { apply Z.div_lt_upper_bound; [apply Z.pow_pos_nonneg; lia|]. rewrite <- Z.pow_add_r by lia.
    replace (64 - K0 + K0) with 64 by lia. by apply rev_spec. }
  destruct ds as [|d' ds]; [change (zlen []) with 0 in Hlen; lia|].
  destruct (IH v1) as (ds1 & ds2 & out & -> & Hne1 & Hs1); [done | done | done | lia|].
  exists (d :: ds1), ds2, (out1 ++ out). split_and!; [done | done|]. cbn [scan_session].
  rewrite Hscan. simpl_bind. rewrite Hs1. done.
Qed.

(** C27. An iteration ends: as long as the (smaller) table has at most 2^K buckets, the cursor
    is back to 0 after at most 2^K calls, whatever happens to the dictionary between them. *)
Theorem dictScan_terminates ds K0 : 2 <= K0 <= 60 -> Forall (fun d => scannable d /\ scan_size d <= 2 ^ K0) ds ->
  zlen ds = 2 ^ K0 ->
  exists ds1 ds2 out, ds = ds1 ++ ds2 /\ ds1 <> [] /\ scan_session ds1 0 = Some (0, out).
Proof.
  intros HK Hok Hlen. apply (scan_session_ends ds 0 K0 HK); try done.
  - intros ->. change (zlen []) with 0 in Hlen. pose proof (Z.pow_pos_nonneg 2 K0). lia.
  - rewrite rev_0. rewrite Zdiv_0_l. lia.
Qed.

(** One call of dictScan() never reads out of bounds and returns a 64 bit cursor; it hands
    entries of the dictionary only, and leaves the dictionary as it was. *)
Theorem dictScan_safe d v : scannable d -> 0 <= v < 2 ^ 64 ->
  exists v' out, dictScan collect no_bucketfn d v [] = Some (d, v', out) /\ 0 <= v' < 2 ^ 64 /\
    (forall e, e ∈ out -> e ∈ dict_entries d) /\ (v' = 0 \/ rev v < rev v').
Proof.
  intros [Hd Hp] Hv. destruct (dictScan_spec d v [] Hd Hv Hp) as (v' & out & Hs & Hv' & Hout & Hcase).
  exists v', out. split_and!; [done | lia | lia | done|]. destruct Hcase as [[_ ->]|(k & Hk & _ & Hr & _)]; [by left|].
  destruct (rev_spec v Hv) as [Hvr _]. destruct (block_end_spec k (rev v)) as (Hb & _); [lia..|].
  destruct (Z.eq_dec (block_end k (rev v)) (2 ^ 64)) as [Heq|].
  - left. apply rev_eq_0; [done|]. by rewrite Hr, Heq.
  - right. rewrite Hr, uwrap_small; lia.
Qed.

End coverage.

(** ** Examples *)

Lemma scannable_example : @scannable Z Z int_dict_type dict_example.
Proof. split; [apply dict_example_ok | simpl; lia]. Qed.

Lemma dictScan_safe_witness : exists v' out,
  @dictScan Z Z (list (dictEntry Z Z)) collect no_bucketfn dict_example 0 [] = Some (dict_example, v', out) /\
  0 <= v' < 2 ^ 64.
Proof.
  destruct (@dictScan_safe Z Z int_dict_type dict_example 0 scannable_example) as (v' & out & H1 & H2 & _); [lia|].
  exists v', out. exact (conj H1 H2).
Defined.

(** Four calls, for the four buckets of the smaller table. *)
Definition scan_example : list (dict Z Z) := [dict_example; dict_example; dict_example; dict_example].

Lemma dictScan_complete_witness : exists out, scan_session scan_example 0 = Some (0, out) /\
  exists e, e ∈ out /\ key e = 12.
Proof.
  destruct (scan_session scan_example 0) as [[v out]|] eqn:Hs; [|vm_compute in Hs; discriminate Hs].
  assert (v = 0) as -> by (vm_compute in Hs; congruence). exists out. split; [reflexivity|].
  refine (@dictScan_complete Z Z int_dict_type scan_example out _ _ Hs 12 _).
  - discriminate.
  - repeat (apply Forall_cons_2; [apply scannable_example|]). apply Forall_nil_2.
  - repeat (apply Forall_cons_2; [exists (DictEntry 12 200); split; [right; left | reflexivity]|]). apply Forall_nil_2.
Defined.

Lemma dictScan_terminates_witness : exists ds1 ds2 out,
  scan_example = ds1 ++ ds2 /\ ds1 <> [] /\ scan_session ds1 0 = Some (0, out).
Proof.
  apply (@dictScan_terminates Z Z int_dict_type scan_example 2); [lia | | reflexivity].
  repeat (apply Forall_cons_2; [split; [apply scannable_example | vm_compute; discriminate]|]). apply Forall_nil_2.
Defined.
