(* ===== verification/DictIter.v ===== *)
(** * Iteration over a hash table (src/redis-stable/src/dict.c)

    The iterators of dict.c, safe and unsafe, over a dictionary that is not changed between the
    calls: dictNext() returns every entry exactly once, in both tables when the dictionary is
    being rehashed, and releasing the iterator finds the dictionary as it was. *)
From S2P Require Import Prelude.
From S2P Require Import Dict.

Section iterators.
Context {K V : Type} `{DictType K V}.

(** The addresses of the arrays of buckets, which the fingerprint covers. *)
Context (table_addr : bool -> Z).

(** The body of the loop of dictFingerprint(), in two's complement. *)
Definition fingerprint_step (hash i : Z) : Z :=
  let hash := s64 (hash + i) in
  let hash := s64 (Z.lnot hash + s64 (Z.shiftl hash 21)) in
  let hash := Z.lxor hash (Z.shiftr hash 24) in
  let hash := s64 (s64 (hash + s64 (Z.shiftl hash 3)) + s64 (Z.shiftl hash 8)) in
  let hash := Z.lxor hash (Z.shiftr hash 14) in
  let hash := s64 (s64 (hash + s64 (Z.shiftl hash 2)) + s64 (Z.shiftl hash 4)) in
  let hash := Z.lxor hash (Z.shiftr hash 28) in
  s64 (hash + s64 (Z.shiftl hash 31)).

Definition dictFingerprint (d : dict K V) : Z :=
  foldl fingerprint_step 0
    [table_addr false; size (ht0 d); used (ht0 d); table_addr true; size (ht1 d); used (ht1 d)].

(** 'table' is 0 or 1; the dictionary of the iterator is passed along. *)
Record dictIterator := DictIterator {
  it_index : Z;
  it_table : bool;
  it_safe : bool;
  it_entry : option entry_ref;
  it_nextEntry : option entry_ref;
  it_fingerprint : Z;
}.

(** [garbage] is the 'fingerprint' of a new iterator, which is not initialized. *)
Definition dictGetIterator (garbage : Z) : dictIterator := DictIterator (-1) false false None None garbage.

Definition dictGetSafeIterator (garbage : Z) : dictIterator :=
  let i := dictGetIterator garbage in
  DictIterator (it_index i) (it_table i) true (it_entry i) (it_nextEntry i) (it_fingerprint i).

(** The pointer to the node at a position of a chain, and the next of a node. *)
Definition chain_head (d : dict K V) (t : bool) (i : Z) (pos : nat) : option (option entry_ref) :=
  c ← ht_chain (ht d t) i; Some (match c !! pos with Some _ => Some (EntryRef t i pos) | None => None end).

Definition entry_next (d : dict K V) (r : entry_ref) : option (option entry_ref) :=
  chain_head d (ref_table r) (ref_index r) (S (ref_pos r)).

(** while (1) { ... } *)
Fixpoint dictNext_loop (fuel : nat) (d : dict K V) (iter : dictIterator)
    : option (dict K V * dictIterator * option entry_ref) :=
  match fuel with
  | O => None
  | S fuel =>
      let found d iter entry :=
        match entry with
        | Some r =>
            nextEntry ← entry_next d r;
            Some (d, DictIterator (it_index iter) (it_table iter) (it_safe iter) (Some r) nextEntry (it_fingerprint iter), Some r)
        | None =>
            dictNext_loop fuel d
              (DictIterator (it_index iter) (it_table iter) (it_safe iter) None (it_nextEntry iter) (it_fingerprint iter))
        end in
      match it_entry iter with
      | Some _ => found d iter (it_nextEntry iter)
      | None =>
          let first := (it_index iter =? -1) && negb (it_table iter) in
          let d := if first && it_safe iter then dictPauseRehashing d else d in
          let fp := if first && negb (it_safe iter) then dictFingerprint d else it_fingerprint iter in
          let index := it_index iter + 1 in
          let '(index, t, stop) :=
            if size (ht d (it_table iter)) <=? index then
              if dictIsRehashing d && negb (it_table iter) then (0, true, false) else (index, it_table iter, true)
            else (index, it_table iter, false) in
          let iter := DictIterator index t (it_safe iter) None (it_nextEntry iter) fp in
          if (stop : bool) then Some (d, iter, None)
          else
            entry ← chain_head d t index 0;
            found d iter entry
      end
  end.

(** Every turn of the loop but the first goes to a new bucket. *)
Definition dictNext (d : dict K V) (iter : dictIterator) : option (dict K V * dictIterator * option entry_ref) :=
  dictNext_loop (Z.to_nat (dictSlots d) + 3) d iter.

(** The dictionary; [None] if the fingerprint has changed. *)
Definition dictReleaseIterator (d : dict K V) (iter : dictIterator) : option (dict K V) :=
  if negb ((it_index iter =? -1) && negb (it_table iter)) then
    if it_safe iter then Some (dictResumeRehashing d)
    else if it_fingerprint iter =? dictFingerprint d then Some d else None
  else Some d.

(** ** The entries that remain *)

(** The entries of table [t] from bucket [i] on, and those of the second table after the first. *)
Definition rest_from (d : dict K V) (t : bool) (i : Z) : list (dictEntry K V) :=
  concat (drop (Z.to_nat i) (default [] (table (ht d t)))) ++
  (if negb t && dictIsRehashing d then ht_entries (ht1 d) else []).

Definition started (iter : dictIterator) : bool := negb ((it_index iter =? -1) && negb (it_table iter)).

(** Where the iterator is, and the entries that it has still to return. *)
Definition iter_at (d : dict K V) (iter : dictIterator) (rest : list (dictEntry K V)) : Prop :=
  (it_table iter = true -> dictIsRehashing d = true) /\ -1 <= it_index iter /\
  match it_entry iter with
  | None => it_index iter < size (ht d (it_table iter)) \/ size (ht d (it_table iter)) = 0 /\ it_index iter = -1
  | Some _ => True
  end /\
  match it_entry iter with
  | None => rest = rest_from d (it_table iter) (it_index iter + 1)
  | Some r => exists c, ht_chain (ht d (it_table iter)) (it_index iter) = Some c /\
      ref_table r = it_table iter /\ ref_index r = it_index iter /\
      it_nextEntry iter = (match c !! S (ref_pos r) with
        | Some _ => Some (EntryRef (it_table iter) (it_index iter) (S (ref_pos r))) | None => None end) /\
      rest = drop (S (ref_pos r)) c ++ rest_from d (it_table iter) (it_index iter + 1)
  end.

(** The iterator over [d0], whose dictionary is now [d]. *)
Record iter_ok (d0 d : dict K V) (iter : dictIterator) : Prop := {
  io_ht0 : ht0 d = ht0 d0;
  io_ht1 : ht1 d = ht1 d0;
  io_idx : rehashidx d = rehashidx d0;
  io_pause : pauserehash d = if started iter && it_safe iter then s16 (pauserehash d0 + 1) else pauserehash d0;
  io_fp : started iter = true -> it_safe iter = false -> it_fingerprint iter = dictFingerprint d0;
}.

Lemma iter_ht_same d0 d iter t : iter_ok d0 d iter -> ht d t = ht d0 t.
Proof. intros Hi. unfold ht. by rewrite (io_ht0 _ _ _ Hi), (io_ht1 _ _ _ Hi). Qed.

Lemma rehashing_same d0 d iter : iter_ok d0 d iter -> dictIsRehashing d = dictIsRehashing d0.
Proof. intros Hi. unfold dictIsRehashing. by rewrite (io_idx _ _ _ Hi). Qed.

Lemma dict_ok_ht (d : dict K V) t : dict_ok d -> ht_ok (ht d t).
Proof. intros Hd. destruct t; [by apply dict_ok_ht1 | by apply dict_ok_ht0]. Qed.

Lemma rest_bucket d t i c : 0 <= i -> ht_chain (ht d t) i = Some c ->
  rest_from d t i = c ++ rest_from d t (i + 1).
Proof.
  intros Hi. unfold ht_chain, rest_from. destruct (table (ht d t)) as [l|]; [|done]. simpl_bind.
  rewrite (proj2 (Z.leb_le _ _)) by done. simpl. intros Hc.
  replace (Z.to_nat (i + 1)) with (S (Z.to_nat i)) by lia. rewrite (drop_S _ c) by done. cbn [concat]. by rewrite <- app_assoc.
Qed.

Lemma rest_end d t i : dict_ok d -> size (ht d t) <= i ->
  rest_from d t i = if negb t && dictIsRehashing d then rest_from d true 0 else [].
Proof.
  intros Hd Hi. unfold rest_from at 1. rewrite drop_ge.
  - simpl. destruct (_ && _); [|done]. unfold rest_from, ht_entries. cbn [negb andb ht]. by rewrite drop_0, app_nil_r.
  - destruct (dict_ok_ht d t Hd) as [->|Ha]; [unfold _dictReset; cbn; lia|].
    destruct (ht_table _ Ha) as (l & -> & Hl). simpl. unfold zlen in Hl. lia.
Qed.

Lemma rest_start d : rest_from d false 0 = if dictIsRehashing d then dict_entries d else ht_entries (ht0 d).
Proof.
  unfold rest_from, dict_entries, ht_entries. cbn [negb andb ht]. rewrite drop_0.
  destruct (dictIsRehashing d); [done | by rewrite app_nil_r].
Qed.

Lemma rest_all d : dict_ok d -> rest_from d false 0 = dict_entries d.
Proof.
  intros Hd. rewrite rest_start. destruct (dictIsRehashing d) eqn:Hr; [done|].
  destruct (not_rehashing d Hd Hr) as [_ Hh]. unfold dict_entries. rewrite Hh. unfold ht_entries at 2. cbn. by rewrite app_nil_r.
Qed.

(** How many turns a call may still take. *)
Definition turns (d : dict K V) (iter : dictIterator) : Z :=
  size (ht d (it_table iter)) - it_index iter +
  (if negb (it_table iter) && dictIsRehashing d then size (ht1 d) + 1 else 0).

(** What a call of dictNext() gives. *)
Definition next_spec (d0 : dict K V) (safe : bool) (rest : list (dictEntry K V))
    (o : option (dict K V * dictIterator * option entry_ref)) : Prop :=
  exists d iter r, o = Some (d, iter, r) /\ iter_ok d0 d iter /\ it_safe iter = safe /\ started iter = true /\
  match rest with
  | [] => r = None
  | e :: rest => exists ref, r = Some ref /\ entry_at d ref = Some e /\ iter_at d0 iter rest
  end.

(** The node that is found at a position of a chain is returned. *)
Lemma found_node d0 d t i pos c e fp safe : iter_ok d0 d (DictIterator i t safe None None fp) ->
  (t = true -> dictIsRehashing d0 = true) -> 0 <= i -> ht_chain (ht d0 t) i = Some c -> c !! pos = Some e ->
  next_spec d0 safe (drop pos c ++ rest_from d0 t (i + 1))
    (nextEntry ← entry_next d (EntryRef t i pos);
     Some (d, DictIterator i t safe (Some (EntryRef t i pos)) nextEntry fp, Some (EntryRef t i pos))).
Proof.
  intros Hok Ht Hi Hc He. pose proof (iter_ht_same _ _ _ t Hok) as Hht. unfold entry_next, chain_head. cbn [ref_table ref_index ref_pos].
  rewrite Hht, Hc. simpl_bind. eexists _, _, _. split; [done|].
  assert (started (DictIterator i t safe None None fp) = true) as Hs.
  { unfold started. cbn. by rewrite (proj2 (Z.eqb_neq i (-1))) by lia. }
  split_and!; [by destruct Hok | done | done|]. rewrite (drop_S _ e) by done. cbn [app]. eexists. split_and!; [done| |].
  - unfold entry_at. cbn [ref_table ref_index ref_pos]. rewrite Hht, Hc. done.
  - split_and!; [done | cbn; lia | done|]. cbn. exists c. split_and!; done.
Qed.

Lemma dictNext_loop_spec fuel d0 d iter rest : dict_ok d0 -> iter_ok d0 d iter -> iter_at d0 iter rest ->
  it_entry iter = None -> turns d0 iter < Z.of_nat fuel ->
  next_spec d0 (it_safe iter) rest (dictNext_loop fuel d iter).
Proof.
  intros Hd0. revert d iter rest. induction fuel as [|fuel IH]; intros d iter rest Hok Hat Hnone Hf.
  { destruct Hat as (Ht & Hi & Hsz & _). rewrite Hnone in Hsz. unfold turns in Hf.
    assert (0 <= size (ht1 d0)) by (destruct (dict_ok_ht1 d0 Hd0) as [->|Ha]; [done | pose proof (ht_size_pos _ Ha); lia]).
    destruct (_ && _); lia. }
  destruct iter as [i t safe e ne fp]. cbn in Hnone. subst e. destruct Hat as (Ht & Hi & Hsz & Hrest).
  cbn [it_index it_table it_entry it_nextEntry it_safe it_fingerprint] in *. subst rest.
  cbn [dictNext_loop it_index it_table it_entry it_nextEntry it_safe it_fingerprint].
  set (first := (i =? -1) && negb t).
  set (d1 := if first && safe then dictPauseRehashing d else d).
  set (fp1 := if first && negb safe then dictFingerprint d1 else fp).
  assert (forall j t' e' n, 0 <= j -> iter_ok d0 d1 (DictIterator j t' safe e' n fp1)) as Hok1.
  { intros j t' e' n Hj. assert (started (DictIterator j t' safe e' n fp1) = true) as Hs
      by (unfold started; cbn; by rewrite (proj2 (Z.eqb_neq j (-1))) by lia).
    destruct Hok as [H0 H1 Hx Hp Hfp]. unfold started in Hp, Hfp. cbn [it_index it_table it_safe it_fingerprint] in Hp, Hfp.
    fold first in Hp, Hfp. split; cbn [it_safe it_fingerprint]; rewrite ?Hs; unfold fp1, d1.
    - by destruct (first && safe).
    - by destruct (first && safe).
    - by destruct (first && safe).
    - destruct first, safe; cbn [andb negb] in Hp |- *; unfold dictPauseRehashing; cbn [pauserehash]; rewrite Hp; reflexivity.
    - intros _ ->. rewrite andb_false_r. destruct first; cbn [andb negb] in *; [|by apply Hfp].
      unfold dictFingerprint. by rewrite H0, H1. }
  assert (iter_ok d0 d1 (DictIterator 0 t safe None ne fp1)) as Hok10 by (apply Hok1; lia).
  rewrite (iter_ht_same _ _ _ t Hok10), (rehashing_same _ _ _ Hok10).
  assert (forall j t', (t' = true -> dictIsRehashing d0 = true) -> 0 <= j < size (ht d0 t') ->
    turns d0 (DictIterator j t' safe None ne fp1) < Z.of_nat fuel ->
    next_spec d0 safe (rest_from d0 t' j)
      (entry ← chain_head d1 t' j 0;
       match entry with
       | Some r => nextEntry ← entry_next d1 r; Some (d1, DictIterator j t' safe (Some r) nextEntry fp1, Some r)
       | None => dictNext_loop fuel d1 (DictIterator j t' safe None ne fp1)
       end)) as Hbucket.
  { intros j t' Ht' Hj Hfj. assert (ht_alloc (ht d0 t')) as Ha.
    { destruct (dict_ok_ht d0 t' Hd0) as [He|]; [|done]. rewrite He in Hj. cbn in Hj. lia. }
    destruct (ht_chain_is_Some _ j Ha Hj) as (c & Hc). unfold chain_head at 1.
    rewrite (iter_ht_same _ _ _ t' Hok10), Hc. simpl_bind. rewrite (rest_bucket _ _ _ _ (proj1 Hj) Hc). destruct c as [|e c].
    - cbn [lookup list_lookup app]. apply IH; [apply Hok1; lia | | done | done].
      split_and!; [done | cbn; lia | left; cbn; lia | done].
    - cbn [lookup list_lookup]. rewrite <- (drop_0 (e :: c)). eapply found_node; [apply Hok1; lia | done | lia | done | done]. }
  destruct (Z.leb_spec (size (ht d0 t)) (i + 1)) as [Hend|Hin].
  - rewrite (rest_end d0 t (i + 1) Hd0 Hend). rewrite (andb_comm (dictIsRehashing d0)).
    destruct (negb t && dictIsRehashing d0) eqn:Hmove.
    + apply andb_true_iff in Hmove as [Htf Hreh]. apply negb_true_iff in Htf as ->.
      destruct (rehashing d0 Hd0 Hreh) as (_ & _ & Ha1 & _).
      cbn [it_index it_table it_entry it_nextEntry it_safe it_fingerprint].
      apply Hbucket; [done | |].
      { cbn [ht]. pose proof (ht_size_pos (ht1 d0) Ha1). lia. }
      unfold turns in *. cbn [it_index it_table negb andb ht] in *. rewrite Hreh in Hf. lia.
    + eexists _, _, _. split_and!; [done | apply Hok1; lia | done | | done].
      unfold started. cbn. by rewrite (proj2 (Z.eqb_neq (i + 1) (-1))) by lia.
  - cbn [it_index it_table it_entry it_nextEntry it_safe it_fingerprint]. apply Hbucket; [done | lia |].
    unfold turns in *. cbn [it_index it_table] in *. lia.
Qed.

Lemma dictNext_spec d0 d iter rest : dict_ok d0 -> iter_ok d0 d iter -> iter_at d0 iter rest ->
  next_spec d0 (it_safe iter) rest (dictNext d iter).
Proof.
  intros Hd0 Hok Hat. unfold dictNext.
  assert (Z.of_nat (Z.to_nat (dictSlots d) + 3) = size (ht0 d0) + size (ht1 d0) + 3 /\ 0 <= size (ht0 d0) /\ 0 <= size (ht1 d0)) as (Hfuel & H0 & H1).
  { assert (forall t, 0 <= size (ht d0 t)) as Hsz.
    { intros t. destruct (dict_ok_ht d0 t Hd0) as [->|Ha]; [done | pose proof (ht_size_pos _ Ha); lia]. }
    pose proof (Hsz false). pose proof (Hsz true). cbn [ht] in *. unfold dictSlots.
    rewrite (io_ht0 _ _ _ Hok), (io_ht1 _ _ _ Hok). lia. }
  assert (forall it, turns d0 it <= size (ht0 d0) + size (ht1 d0) + 1 - it_index it) as Hturns.
  { intros it. unfold turns. destruct (it_table it), (dictIsRehashing d0); cbn [negb andb ht]; lia. }
  destruct (it_entry iter) as [r|] eqn:He.
  2:{ apply dictNext_loop_spec; [done.. |]. destruct Hat as (_ & Hi & _). specialize (Hturns iter). lia. }
  destruct iter as [i t safe e ne fp]. cbn in He. subst e. destruct Hat as (Ht & Hi & _ & c & Hc & Hrt & Hri & Hne & Hrest).
  cbn [it_index it_table it_entry it_nextEntry it_safe it_fingerprint] in *.
  replace (Z.to_nat (dictSlots d) + 3)%nat with (S (Z.to_nat (dictSlots d) + 2)) by lia.
  cbn [dictNext_loop it_index it_table it_entry it_nextEntry it_safe it_fingerprint].
  assert (0 <= i < size (ht d0 t)) as Hi0.
  { apply (ht_chain_range _ _ c); [|done]. destruct (dict_ok_ht d0 t Hd0) as [Hr|]; [by rewrite Hr in Hc | done]. }
  assert (forall e' n, iter_ok d0 d (DictIterator i t safe e' n fp)) as Hok' by (intros; by destruct Hok).
  subst rest ne. destruct (c !! S (ref_pos r)) as [e|] eqn:Hlook.
  - eapply found_node; [apply Hok' | done | lia | done | done].
  - rewrite drop_ge by (by apply lookup_ge_None). cbn [app]. apply dictNext_loop_spec; [done | apply Hok' | | done | eapply Z.le_lt_trans; [apply Hturns | cbn; lia]].
    split_and!; [done | cbn; lia | left; cbn; lia | done].
Qed.

(** ** Whole iterations *)

(** while ((de = dictNext(iter)) != NULL) { ... } dictReleaseIterator(iter); *)
Fixpoint iterate_loop (fuel : nat) (d : dict K V) (iter : dictIterator) (acc : list (dictEntry K V))
    : option (dict K V * list (dictEntry K V)) :=
  '(d, iter, r) ← dictNext d iter;
  match r with
  | None => d ← dictReleaseIterator d iter; Some (d, acc)
  | Some r =>
      match fuel with
      | O => None
      | S fuel => e ← entry_at d r; iterate_loop fuel d iter (acc ++ [e])
      end
  end.

Definition iterate (safe : bool) (garbage : Z) (d : dict K V) : option (dict K V * list (dictEntry K V)) :=
  iterate_loop (Z.to_nat (dictSize d)) d (if safe then dictGetSafeIterator garbage else dictGetIterator garbage) [].

Lemma new_iter_ok d safe garbage : dict_ok d ->
  let iter := if (safe : bool) then dictGetSafeIterator garbage else dictGetIterator garbage in
  iter_ok d d iter /\ iter_at d iter (dict_entries d) /\ it_safe iter = safe.
Proof.
  intros Hd. destruct safe; cbn; (split_and!; [done | | done]); rewrite <- (rest_all d Hd);
    (split_and!; [done | cbn; lia | | done]); cbn [it_entry it_index it_table dictGetSafeIterator dictGetIterator];
    (destruct (dict_ok_ht d false Hd) as [->|Ha]; [by right | left; pose proof (ht_size_pos _ Ha); lia]).
Qed.

Lemma release_ok d0 d iter : iter_ok d0 d iter -> started iter = true ->
  - 2 ^ 15 <= pauserehash d0 < 2 ^ 15 -> dictReleaseIterator d iter = Some d0.
Proof.
  intros [H0 H1 Hx Hp Hfp] Hs Hr. unfold dictReleaseIterator. fold (started iter). rewrite Hs in *. cbn [andb] in Hp.
  destruct d as [a0 a1 x p], d0 as [b0 b1 y q]. cbn [ht0 ht1 rehashidx pauserehash] in *. subst.
  destruct (it_safe iter).
  - unfold dictResumeRehashing. cbn [ht0 ht1 rehashidx pauserehash]. do 2 f_equal.
    unfold swrap, uwrap. eval_pow2. Z.div_mod_to_equations. lia.
  - rewrite Hfp by done. by rewrite Z.eqb_refl.
Qed.

Lemma iterate_loop_ok fuel d0 d iter rest acc : dict_ok d0 -> iter_ok d0 d iter -> iter_at d0 iter rest ->
  - 2 ^ 15 <= pauserehash d0 < 2 ^ 15 -> (length rest <= fuel)%nat ->
  iterate_loop fuel d iter acc = Some (d0, acc ++ rest).
Proof.
  intros Hd0. revert d iter rest acc. induction fuel as [|fuel IH]; intros d iter rest acc Hok Hat Hp Hf;
    cbn [iterate_loop]; destruct (dictNext_spec d0 d iter rest Hd0 Hok Hat) as (d' & iter' & r & -> & Hok' & _ & Hs & Hr); simpl_bind.
  - destruct rest; [|simpl in Hf; lia]. subst r. rewrite (release_ok d0) by done. simpl_bind. by rewrite app_nil_r.
  - destruct rest as [|e rest]; [subst r; rewrite (release_ok d0) by done; simpl_bind; by rewrite app_nil_r|].
    destruct Hr as (ref & -> & He & Hat'). rewrite He. simpl_bind. rewrite (IH d' iter' rest); [|done..|simpl in Hf; lia].
    by rewrite <- app_assoc.
Qed.

Lemma iterate_ok safe garbage d : dict_ok d -> - 2 ^ 15 <= pauserehash d < 2 ^ 15 ->
  iterate safe garbage d = Some (d, dict_entries d).
Proof.
  intros Hd Hp. destruct (new_iter_ok d safe garbage Hd) as (Hok & Hat & _). unfold iterate.
  apply (iterate_loop_ok _ d d _ (dict_entries d)); [done..|]. rewrite (dictSize_entries d Hd). unfold zlen. lia.
Qed.

(** A whole iteration over a dictionary, safe or unsafe and also while it is being rehashed,
    returns the entry of every key exactly once, and leaves the dictionary as it was (the
    fingerprint is the same, rehashing is no longer paused). *)
Theorem dictIterate_correct `{Countable K} safe garbage d : dict_ok d -> - 2 ^ 15 <= pauserehash d < 2 ^ 15 ->
  exists l, iterate safe garbage d = Some (d, l) /\ NoDup (key <$> l) /\
    (forall k v, DictEntry k v ∈ l <-> dict_map d !! k = Some v).
Proof.
  intros Hd Hp. exists (dict_entries d). split_and!; [by apply iterate_ok | apply Hd|].
  intros k v. by rewrite dict_map_lookup.
Qed.
End iterators.

Lemma dictIterate_correct_witness : exists l, @iterate Z Z (fun _ => 4096) true 0 dict_example = Some (dict_example, l) /\
  NoDup (key <$> l) /\ DictEntry 12 200 ∈ l.
Proof.
  destruct (@dictIterate_correct Z Z int_dict_type (fun _ => 4096) _ _ true 0 dict_example dict_example_ok) as (l & Hl & Hnd & Hin).
  - cbn. lia.
  - exists l. split; [exact Hl|]. split; [exact Hnd|]. apply Hin. vm_compute. reflexivity.
Defined.

(** ** Resizing after deletions (server.c) *)

Definition HASHTABLE_MIN_FILL : Z := 10.

Definition htNeedsResize {K V} (d : dict K V) : bool :=
  let size := dictSlots d in
  let used := dictSize d in
  (DICT_HT_INITIAL_SIZE <? size) && (Z.quot (used * 100) size <? HASHTABLE_MIN_FILL).

(** if (htNeedsResize(d)) dictResize(d), after a deletion *)
Lemma resize_if_needed_ok {K V} `{DictType K V} `{Countable K} (can_resize deleted : bool) (d : dict K V) : dict_ok d ->
  exists d', (if deleted && htNeedsResize d then '(d, _) ← dictResize can_resize d; Some d else Some d) = Some d' /\
    dict_ok d' /\ dict_map d' = dict_map d /\ pauserehash d' = pauserehash d.
Proof.
  intros Hd. destruct (_ && htNeedsResize d); [|by eexists]. unfold dictResize. destruct (negb _ || _); [simpl_bind; by eexists|].
  cbv zeta. set (n := if used (ht0 d) <? DICT_HT_INITIAL_SIZE then DICT_HT_INITIAL_SIZE else used (ht0 d)). unfold dictExpand.
  destruct (_dictExpand_spec (fun _ => false) d n Hd) as (d' & ok & mf & -> & Hs & _). simpl_bind. exists d'.
  split_and!; [done | apply Hs | by apply same_dict_map, Hs | apply Hs].
Qed.

(** ** 'pauserehash' is changed by the iterators only *)

Section pause.
Context {K V : Type} `{DictType K V} `{Countable K}.
Implicit Types d : dict K V.

Lemma set_ht_pause d t h : pauserehash (set_ht d t h) = pauserehash d.
Proof. by destruct t. Qed.

Lemma dictSetVal_pause d ref v d' : dictSetVal d ref v = Some d' -> pauserehash d' = pauserehash d.
Proof.
  unfold dictSetVal. destruct (ht_chain _ _) as [c|]; [|done]. simpl_bind. destruct (c !! _); [|done]. simpl_bind.
  destruct (ht_set_chain _ _ _); [|done]. simpl_bind. intros [= <-]. apply set_ht_pause.
Qed.

Lemma dictAddRaw_pause r d k d' e x : dict_ok d -> dictSize d < 2 ^ 60 -> dictAddRaw r d k = Some (d', e, x) -> pauserehash d' = pauserehash d.
Proof.
  intros Hd Hsz. unfold dictAddRaw, _dictKeyIndex. destruct (rehash_step_spec d Hd) as (d1 & -> & Hs1). simpl_bind.
  destruct (_dictExpandIfNeeded_spec r d1 (same_ok _ _ Hs1)) as (d2 & -> & Hs2 & _); [by rewrite (same_dictSize d d1 Hd Hs1)|]. simpl_bind.
  cbn [negb]. destruct (dict_search d2 k _) as [[idx he]|]; [|done]. simpl_bind. rewrite <- (same_pause _ _ Hs1), <- (same_pause _ _ Hs2).
  destruct he; simpl_bind; [by intros [= <- _ _]|]. destruct (idx =? -1); [by intros [= <- _ _]|].
  destruct (ht_chain _ _); [|done]. simpl_bind. destruct (ht_set_chain _ _ _); [|done]. simpl_bind. intros [= <- _ _]. apply set_ht_pause.
Qed.

Lemma dictAdd_pause r d k v d' b : dict_ok d -> dictSize d < 2 ^ 60 -> dictAdd r d k v = Some (d', b) -> pauserehash d' = pauserehash d.
Proof.
  intros Hd Hsz. unfold dictAdd. destruct (dictAddRaw r d k) as [[[d1 e] x]|] eqn:Hr; [|done]. simpl_bind.
  apply (dictAddRaw_pause _ _ _ _ _ _ Hd Hsz) in Hr. rewrite <- Hr. destruct e as [ref|]; [|by intros [= <- _]].
  destruct (dictSetVal d1 ref v) as [d2|] eqn:Hs; [|done]. simpl_bind. intros [= <- _]. by apply (dictSetVal_pause _ _ _ _ Hs).
Qed.

Lemma dictDelete_pause d k d' b : dict_ok d -> dictDelete d k = Some (d', b) -> pauserehash d' = pauserehash d.
Proof.
  intros Hd. unfold dictDelete, dictGenericDelete. destruct (_ && _); [by intros [= <- _]|].
  destruct (rehash_step_spec d Hd) as (d1 & -> & Hs1). simpl_bind. cbv zeta. rewrite <- (same_pause _ _ Hs1).
  destruct (dict_search d1 k _) as [[idx he]|]; [|done]. simpl_bind. destruct he as [ref|]; [|by intros [= <- _]].
  unfold dict_unlink_at. destruct (ht_chain _ _) as [c|]; [|done]. simpl_bind. destruct (c !! _); [|done]. simpl_bind.
  destruct (ht_set_chain _ _ _); [|done]. simpl_bind. intros [= <- _]. apply set_ht_pause.
Qed.
End pause.
