(* ===== verification/Sds.v ===== *)
(** * Argument splitting and quoting (src/redis-stable/src/sds.c)

    sdssplitargs(), which splits an inline request (or a line of the configuration) into
    arguments, and sdscatrepr(), which quotes a string. A C string is the list of its bytes;
    reading at or after its end gives the terminator: that the code reads nothing after the terminator is not
    part of the model. *)
From S2P Require Import Prelude.

(** ** Character classes, in the C locale *)

Definition isspace (c : Z) : bool := (c =? 32) || ((9 <=? c) && (c <=? 13)).
Definition isprint (c : Z) : bool := (32 <=? c) && (c <=? 126).

Definition BACKSLASH : Z := 92.
Definition DQUOTE : Z := 34.
Definition SQUOTE : Z := 39.
Definition LF : Z := 10.
Definition CR : Z := 13.
Definition TAB : Z := 9.
Definition BEL : Z := 7.
Definition BS : Z := 8.

Definition is_hex_digit (c : Z) : bool :=
  ((chr "0" <=? c) && (c <=? chr "9")) || ((chr "a" <=? c) && (c <=? chr "f")) ||
  ((chr "A" <=? c) && (c <=? chr "F")).

Definition hex_digit_to_int (c : Z) : Z :=
  if (chr "0" <=? c) && (c <=? chr "9") then c - chr "0"
  else if (c =? chr "a") || (c =? chr "A") then 10
  else if (c =? chr "b") || (c =? chr "B") then 11
  else if (c =? chr "c") || (c =? chr "C") then 12
  else if (c =? chr "d") || (c =? chr "D") then 13
  else if (c =? chr "e") || (c =? chr "E") then 14
  else if (c =? chr "f") || (c =? chr "F") then 15
  else 0.

(** ** Substrings *)

Definition sdssubstr (s : list Z) (start len : Z) : list Z :=
  let oldlen := zlen s in
  let '(start, len) := if oldlen <=? start then (0, 0) else (start, len) in
  let len := if oldlen - start <? len then oldlen - start else len in
  take (Z.to_nat len) (drop (Z.to_nat start) s).

(** 'start' is converted to a size_t when it is given to sdssubstr() *)
Definition sdsrange (s : list Z) (start end_ : Z) : list Z :=
  let len := zlen s in
  if len =? 0 then s
  else
    let start := if start <? 0 then len + start else start in
    let end_ := if end_ <? 0 then len + end_ else end_ in
    let newlen := if end_ <? start then 0 else end_ - start + 1 in
    sdssubstr s (u64 start) newlen.

(** ** Splitting *)

(** *(p+i) *)
Definition at_ (p : list Z) (i : nat) : Z := nth i p 0.

(** if ( *p) p++; *)
Definition advance (p : list Z) : list Z := if at_ p 0 =? 0 then p else drop 1 p.

(** while( *p && isspace( *p)) p++; *)
Fixpoint skip_blanks (p : list Z) : list Z :=
  match p with
  | c :: p' => if negb (c =? 0) && isspace c then skip_blanks p' else p
  | [] => []
  end.

Inductive token_result :=
| Token (current p : list Z)   (** done=1 *)
| Err.                         (** goto err *)

(** while(!done) { ... } *)
Fixpoint get_token (fuel : nat) (p : list Z) (inq insq : bool) (current : list Z) : option token_result :=
  match fuel with
  | O => None
  | S fuel =>
      let c := at_ p 0 in
      if inq then
        if (c =? BACKSLASH) && (at_ p 1 =? chr "x") && is_hex_digit (at_ p 2) && is_hex_digit (at_ p 3) then
          let byte := u8 (hex_digit_to_int (at_ p 2) * 16 + hex_digit_to_int (at_ p 3)) in
          get_token fuel (advance (drop 3 p)) inq insq (current ++ [byte])
        else if (c =? BACKSLASH) && negb (at_ p 1 =? 0) then
          let p := drop 1 p in
          let c := if at_ p 0 =? chr "n" then LF
                   else if at_ p 0 =? chr "r" then CR
                   else if at_ p 0 =? chr "t" then TAB
                   else if at_ p 0 =? chr "b" then BS
                   else if at_ p 0 =? chr "a" then BEL
                   else at_ p 0 in
          get_token fuel (advance p) inq insq (current ++ [c])
        else if c =? DQUOTE then
          if negb (at_ p 1 =? 0) && negb (isspace (at_ p 1)) then Some Err
          else Some (Token current (advance p))
        else if c =? 0 then Some Err
        else get_token fuel (advance p) inq insq (current ++ [c])
      else if insq then
        if (c =? BACKSLASH) && (at_ p 1 =? SQUOTE) then
          get_token fuel (advance (drop 1 p)) inq insq (current ++ [SQUOTE])
        else if c =? SQUOTE then
          if negb (at_ p 1 =? 0) && negb (isspace (at_ p 1)) then Some Err
          else Some (Token current (advance p))
        else if c =? 0 then Some Err
        else get_token fuel (advance p) inq insq (current ++ [c])
      else if (c =? 32) || (c =? LF) || (c =? CR) || (c =? TAB) || (c =? 0) then
        Some (Token current (advance p))
      else if c =? DQUOTE then get_token fuel (advance p) true insq current
      else if c =? SQUOTE then get_token fuel (advance p) inq true current
      else get_token fuel (advance p) inq insq (current ++ [c])
  end.

(** The vector of the arguments, [Some None] when NULL is returned. *)
Fixpoint sdssplitargs_loop (fuel : nat) (p : list Z) (vector : list (list Z)) : option (option (list (list Z))) :=
  match fuel with
  | O => None
  | S fuel =>
      let p := skip_blanks p in
      if negb (at_ p 0 =? 0) then
        r ← get_token (S (length p)) p false false [];
        match r with
        | Err => Some None
        | Token current p => sdssplitargs_loop fuel p (vector ++ [current])
        end
      else Some (Some vector)
  end.

Definition sdssplitargs (line : list Z) : option (option (list (list Z))) :=
  sdssplitargs_loop (S (length line)) line [].

(** ** Quoting *)

(** The digits of "%02x". *)
Definition hex_char (n : Z) : Z := if n <? 10 then chr "0" + n else chr "a" + (n - 10).

Definition repr_char (c : Z) : list Z :=
  if (c =? BACKSLASH) || (c =? DQUOTE) then [BACKSLASH; c]
  else if c =? LF then [BACKSLASH; chr "n"]
  else if c =? CR then [BACKSLASH; chr "r"]
  else if c =? TAB then [BACKSLASH; chr "t"]
  else if c =? BEL then [BACKSLASH; chr "a"]
  else if c =? BS then [BACKSLASH; chr "b"]
  else if isprint c then [c]
  else [BACKSLASH; chr "x"; hex_char (c / 16); hex_char (c mod 16)].

Definition sdscatrepr (s p : list Z) : list Z :=
  s ++ [DQUOTE] ++ (p ≫= repr_char) ++ [DQUOTE].

(** sdsrange(s,pos,-1) drops what was consumed. *)
Lemma sdsrange_tail s pos : 0 <= pos <= zlen s -> zlen s < 2 ^ 63 -> sdsrange s pos (-1) = drop (Z.to_nat pos) s.
Proof.
  intros Hp Hs. unfold sdsrange, sdssubstr. destruct (Z.eqb_spec (zlen s) 0) as [Hz|Hz].
  { apply zlen_eq_nil in Hz. rewrite Hz. by rewrite drop_nil. }
  rewrite (proj2 (Z.ltb_ge pos 0)) by lia. change (-1 <? 0) with true. cbv iota zeta.
  rewrite uwrap_small by (eval_pow2; lia). unfold zlen in *. destruct (Z.leb_spec (Z.of_nat (length s)) pos).
  - rewrite (drop_ge s (Z.to_nat pos)) by lia. by rewrite (proj2 (Z.ltb_ge _ _)) by lia.
  - rewrite (proj2 (Z.ltb_ge (Z.of_nat (length s) + -1) pos)) by lia. rewrite (proj2 (Z.ltb_ge _ _)) by lia.
    apply take_ge. rewrite length_drop. lia.
Qed.

(** ** Splitting always ends *)

Lemma length_advance p : (length (advance p) <= length p)%nat.
Proof. unfold advance. case_match; [done|]. rewrite length_drop. lia. Qed.

Lemma at_0_pos p : at_ p 0 <> 0 -> (length (advance p) < length p)%nat.
Proof.
  unfold advance, at_. destruct p as [|c p]; [done|]. simpl nth. intros Hc.
  rewrite (proj2 (Z.eqb_neq c 0)) by done. rewrite length_drop. simpl. lia.
Qed.

Lemma at_lt p i : at_ p i <> 0 -> (i < length p)%nat.
Proof.
  unfold at_. intros Hi. destruct (Nat.lt_ge_cases i (length p)); [done|]. by rewrite nth_overflow in Hi.
Qed.

Lemma length_drop_le (p : list Z) n : (length (drop n p) <= length p)%nat.
Proof. rewrite length_drop. lia. Qed.

Lemma at_drop p n : at_ (drop n p) 0 = at_ p n.
Proof. revert p. induction n as [|n IH]; intros [|c p]; try done. apply IH. Qed.

Lemma length_advance_drop p n : at_ p n <> 0 -> (length (advance (drop n p)) < length p)%nat.
Proof.
  intros Hn. pose proof (length_drop_le p n). pose proof (at_0_pos (drop n p)) as Ha.
  rewrite at_drop in Ha. specialize (Ha Hn). lia.
Qed.

Lemma hex_digit_nonzero c : is_hex_digit c = true -> c <> 0.
Proof. by intros Hc ->. Qed.

Lemma get_token_total fuel p inq insq cur : (length p < fuel)%nat ->
  exists r, get_token fuel p inq insq cur = Some r /\
    match r with
    | Token _ p' => (length p' <= length p)%nat /\ (at_ p 0 <> 0 -> (length p' < length p)%nat)
    | Err => True
    end.
Proof.
  revert p inq insq cur. induction fuel as [|fuel IH]; intros p inq insq cur Hf; [lia|].
  assert (forall p', (length p' < length p)%nat -> forall inq insq cur,
    exists r, get_token fuel p' inq insq cur = Some r /\
    match r with
    | Token _ p2 => (length p2 <= length p)%nat /\ (at_ p 0 <> 0 -> (length p2 < length p)%nat)
    | Err => True
    end) as Hrec.
  { intros p' Hp' inq' insq' cur'. destruct (IH p' inq' insq' cur') as (r & Hr & Hm); [lia|]. exists r. split; [done|].
    destruct r; [|done]. destruct Hm as [Hle _]. split; [|intros _]; lia. }
  assert (exists r, Some (Token cur (advance p)) = Some r /\
    match r with
    | Token _ p2 => (length p2 <= length p)%nat /\ (at_ p 0 <> 0 -> (length p2 < length p)%nat)
    | Err => True
    end) as Hdone.
  { eexists. split; [done|]. split; [apply length_advance | apply at_0_pos]. }
  cbn [get_token]. destruct inq; [|destruct insq].
  - destruct ((at_ p 0 =? BACKSLASH) && (at_ p 1 =? chr "x") && is_hex_digit (at_ p 2) && is_hex_digit (at_ p 3)) eqn:Hx.
    { apply andb_true_iff in Hx as [_ Hx]. apply Hrec, length_advance_drop. by apply hex_digit_nonzero. }
    destruct ((at_ p 0 =? BACKSLASH) && negb (at_ p 1 =? 0)) eqn:He.
    { apply Hrec, length_advance_drop. lia. }
    destruct (at_ p 0 =? DQUOTE) eqn:Hq; [case_match; [by exists Err | exact Hdone]|].
    destruct (Z.eqb_spec (at_ p 0) 0); [by exists Err|]. by apply Hrec, at_0_pos.
  - destruct ((at_ p 0 =? BACKSLASH) && (at_ p 1 =? SQUOTE)) eqn:He.
    { apply Hrec, length_advance_drop. unfold SQUOTE in He. lia. }
    destruct (at_ p 0 =? SQUOTE) eqn:Hq; [case_match; [by exists Err | exact Hdone]|].
    destruct (Z.eqb_spec (at_ p 0) 0); [by exists Err|]. by apply Hrec, at_0_pos.
  - destruct (_ || _) eqn:Hsep; [exact Hdone|].
    assert (at_ p 0 <> 0) by lia.
    destruct (_ =? DQUOTE); [by apply Hrec, at_0_pos|].
    destruct (_ =? SQUOTE); by apply Hrec, at_0_pos.
Qed.

Lemma length_skip_blanks p : (length (skip_blanks p) <= length p)%nat.
Proof. induction p as [|c p IH]; simpl; [done|]. case_match; simpl; lia. Qed.

Lemma sdssplitargs_loop_total fuel p v : (length p < fuel)%nat -> is_Some (sdssplitargs_loop fuel p v).
Proof.
  revert p v. induction fuel as [|fuel IH]; intros p v Hf; [lia|]. cbn [sdssplitargs_loop].
  pose proof (length_skip_blanks p). destruct (Z.eqb_spec (at_ (skip_blanks p) 0) 0); simpl negb; cbv iota; [by eexists|].
  destruct (get_token_total (S (length (skip_blanks p))) (skip_blanks p) false false []) as (r & -> & Hr); [lia|].
  simpl_bind. destruct r; [|by eexists]. apply IH. destruct Hr as [_ Hr]. specialize (Hr n). lia.
Qed.

(** ** Quoting and splitting *)

Lemma hex_char_spec n : 0 <= n < 16 -> is_hex_digit (hex_char n) = true /\ hex_digit_to_int (hex_char n) = n.
Proof.
  intros Hn. assert (forallb (fun n => is_hex_digit (hex_char n) && (hex_digit_to_int (hex_char n) =? n)) (seqZ 0 16) = true)
    as Hall by done.
  rewrite forallb_forall in Hall. specialize (Hall n). rewrite <- list_elem_of_In, elem_of_seqZ in Hall.
  by apply andb_true_iff in Hall as [? ?%Z.eqb_eq]; [|lia].
Qed.

(** A quoted character is read back. *)
Lemma get_token_repr_char fuel c tl insq cur : is_byte c ->
  get_token (S fuel) (repr_char c ++ tl) true insq cur = get_token fuel tl true insq (cur ++ [c]).
Proof.
  intros Hc. unfold is_byte in Hc. unfold repr_char. cbn [get_token].
  destruct ((c =? BACKSLASH) || (c =? DQUOTE)) eqn:H1.
  { apply orb_true_iff in H1 as [Hc1|Hc1]; apply Z.eqb_eq in Hc1 as ->; done. }
  repeat (match goal with |- context [c =? ?x] => destruct (Z.eqb_spec c x) as [->|]; [done|] end).
  unfold isprint. destruct ((32 <=? c) && (c <=? 126)) eqn:Hp.
  - apply orb_false_iff in H1 as [Hb Hq]. unfold at_, advance. cbn [nth app]. rewrite Hb, Hq. cbn [andb].
    unfold at_. cbn [nth]. rewrite (proj2 (Z.eqb_neq c 0)) by lia. done.
  - unfold at_, advance. cbn [nth app]. destruct (hex_char_spec (c / 16)) as [Hd1 Hv1]; [Z.div_mod_to_equations; lia|].
    destruct (hex_char_spec (c mod 16)) as [Hd2 Hv2]; [Z.div_mod_to_equations; lia|].
    rewrite Hd1, Hd2, Hv1, Hv2. cbn [andb]. rewrite !Z.eqb_refl. cbn [andb]. cbn [drop skipn].
    unfold at_. cbn [nth]. rewrite (proj2 (Z.eqb_neq _ 0)) by (by apply hex_digit_nonzero).
    rewrite uwrap_small by (eval_pow2; Z.div_mod_to_equations; lia).
    replace (c / 16 * 16 + c mod 16) with c by (Z.div_mod_to_equations; lia). done.
Qed.

Lemma get_token_repr fuel s tl insq cur : bytes_ok s -> (length s < fuel)%nat ->
  (tl = [] \/ exists tl', tl = 32 :: tl') ->
  get_token fuel ((s ≫= repr_char) ++ DQUOTE :: tl) true insq cur = Some (Token (cur ++ s) tl).
Proof.
  intros Hs. revert fuel cur. induction Hs as [|c s Hc _ IH]; intros fuel cur Hf Htl.
  - destruct fuel; [simpl in Hf; lia|]. cbn [mbind list_bind app]. rewrite app_nil_r.
    destruct Htl as [->|(tl' & ->)]; done.
  - destruct fuel as [|fuel]; [simpl in Hf; lia|]. rewrite bind_cons, <- app_assoc, get_token_repr_char by done.
    rewrite IH; [by rewrite <- app_assoc | simpl in Hf; lia | done].
Qed.

Lemma length_repr_ge s : (length s <= length (s ≫= repr_char))%nat.
Proof.
  induction s as [|c s IH]; [done|]. rewrite bind_cons, length_app. simpl.
  enough (1 <= length (repr_char c))%nat by lia. unfold repr_char. repeat case_match; simpl; lia.
Qed.

(** The line that has the quoted arguments, separated by blanks. *)
Fixpoint quoted_line (args : list (list Z)) : list Z :=
  match args with
  | [] => []
  | [a] => sdscatrepr [] a
  | a :: args => sdscatrepr [] a ++ 32 :: quoted_line args
  end.

Lemma quoted_line_cons a args : exists tl, quoted_line (a :: args) = sdscatrepr [] a ++ tl /\
  (tl = [] \/ exists tl', tl = 32 :: tl') /\ skip_blanks tl = skip_blanks (quoted_line args) /\
  (length (quoted_line args) <= length tl)%nat.
Proof.
  destruct args as [|b args].
  - exists []. split_and!; [by rewrite app_nil_r | by left | done | done].
  - exists (32 :: quoted_line (b :: args)). split_and!; [done | by right; eexists | done | simpl; lia].
Qed.

Lemma sdssplitargs_loop_quoted args fuel p v : Forall bytes_ok args -> (length args < fuel)%nat ->
  skip_blanks p = skip_blanks (quoted_line args) ->
  sdssplitargs_loop fuel p v = Some (Some (v ++ args)).
Proof.
  intros Hargs. revert fuel p v. induction Hargs as [|a args Ha _ IH]; intros fuel p v Hf Hp.
  all: destruct fuel as [|fuel]; [simpl in Hf; lia|]; cbn [sdssplitargs_loop]; rewrite Hp.
  { cbn. by rewrite app_nil_r. }
  destruct (quoted_line_cons a args) as (tl & -> & Htl & Hskip & _). unfold sdscatrepr. cbn [app].
  change (skip_blanks (DQUOTE :: _)) with (DQUOTE :: ((a ≫= repr_char) ++ [DQUOTE]) ++ tl).
  set (q := DQUOTE :: _). change (negb (at_ q 0 =? 0)) with true. cbv iota.
  change (get_token (S (length q)) q false false [])
    with (get_token (length q) (((a ≫= repr_char) ++ [DQUOTE]) ++ tl) true false []).
  rewrite <- app_assoc. cbn [app]. rewrite get_token_repr; [|done| |done].
  - simpl_bind. rewrite app_nil_l, IH; [by rewrite <- app_assoc | simpl in Hf; lia | done].
  - unfold q. cbn [length]. rewrite !length_app. pose proof (length_repr_ge a). simpl. lia.
Qed.

(** C25. sdssplitargs() undoes sdscatrepr(): a line made of quoted arguments separated by blanks
    is split into these arguments, for arbitrary bytes in them; and on every line at all,
    splitting ends, with arguments or with the error for unbalanced quotes. *)
Theorem sdssplitargs_catrepr args line : Forall bytes_ok args ->
  sdssplitargs (quoted_line args) = Some (Some args) /\ is_Some (sdssplitargs line).
Proof.
  intros Hargs. split; [|apply sdssplitargs_loop_total; lia]. unfold sdssplitargs.
  apply (sdssplitargs_loop_quoted args _ _ []); [done | | done].
  enough (length args <= length (quoted_line args))%nat by lia. clear.
  induction args as [|a args IH]; [done|]. destruct (quoted_line_cons a args) as (tl & -> & _ & _ & Hl).
  unfold sdscatrepr. rewrite !length_app. simpl. lia.
Qed.

Lemma sdssplitargs_catrepr_witness : sdssplitargs (quoted_line [str "set"; [0; 255; 34]]) = Some (Some [str "set"; [0; 255; 34]]).
Proof.
  refine (proj1 (sdssplitargs_catrepr [str "set"; [0; 255; 34]] [] _)).
  constructor; [apply bytes_ok_str|]. constructor; [|constructor]. repeat constructor; done.
Defined.
