(* ===== verification/Networking.v ===== *)
(** * The request parser (src/redis-stable/src/networking.c)

    How the bytes a client sends become commands: processInlineBuffer(),
    processMultibulkBuffer(), processInputBuffer() and what follows the execution of a
    command. The query buffer accumulates what was read, in pieces of any size. *)
From S2P Require Import Prelude.
From S2P Require Import Util.
From S2P Require Import Sds.

(** ** Clients *)

Definition CLIENT_SLAVE : Z := Z.shiftl 1 0.
Definition CLIENT_MASTER : Z := Z.shiftl 1 1.
Definition CLIENT_MONITOR : Z := Z.shiftl 1 2.
Definition CLIENT_MULTI : Z := Z.shiftl 1 3.
Definition CLIENT_BLOCKED : Z := Z.shiftl 1 4.
Definition CLIENT_CLOSE_AFTER_REPLY : Z := Z.shiftl 1 6.
Definition CLIENT_LUA : Z := Z.shiftl 1 8.
Definition CLIENT_ASKING : Z := Z.shiftl 1 9.
Definition CLIENT_CLOSE_ASAP : Z := Z.shiftl 1 10.
Definition CLIENT_REPLY_SKIP_NEXT : Z := Z.shiftl 1 23.
Definition CLIENT_REPLY_SKIP : Z := Z.shiftl 1 24.
Definition CLIENT_PENDING_READ : Z := Z.shiftl 1 29.
Definition CLIENT_PENDING_COMMAND : Z := Z.shiftl 1 30.
Definition CLIENT_TRACKING_CACHING : Z := Z.shiftl 1 36.
Definition CLIENT_PROTOCOL_ERROR : Z := Z.shiftl 1 39.

Definition PROTO_REQ_INLINE : Z := 1.
Definition PROTO_REQ_MULTIBULK : Z := 2.
Definition PROTO_INLINE_MAX_SIZE : Z := 1024 * 64.
Definition PROTO_MBULK_BIG_ARG : Z := 1024 * 32.

(** The procedures resetClient() distinguishes. *)
Inductive redisCommandProc := askingCommand | clientCommand | otherCommand.
#[export] Instance redisCommandProc_eq_dec : EqDecision redisCommandProc.
Proof. solve_decision. Defined.

(** The fields the parser uses; 'argc' is the length of [argv]. [errors] are the arguments of
    addReplyError(). *)
Record client := Client {
  querybuf : list Z;
  qb_pos : Z;
  pending_querybuf : list Z;
  reqtype : Z;
  argv : list (list Z);
  argv_len_sum : Z;
  cmd : option redisCommandProc;
  multibulklen : Z;
  bulklen : Z;
  flags : Z;
  authenticated : bool;
  reploff : Z;
  read_reploff : Z;
  repl_ack_time : Z;
  errors : list (list Z);
}.

(** The parameters of the server the parser reads: server.proto_max_bulk_len,
    server.client_max_querybuf_len, the flags
    USER_FLAG_NOPASS and USER_FLAG_DISABLED of the default user, server.unixtime,
    server.lua_timedout, server.gopher_enabled and server.io_threads_do_reads. *)
Record server_conf := ServerConf {
  proto_max_bulk_len : Z;
  client_max_querybuf_len : Z;
  default_nopass : bool;
  default_disabled : bool;
  unixtime : Z;
  lua_timedout : bool;
  gopher_enabled : bool;
  io_threads_do_reads : bool;
}.

Definition has_flag (c : client) (f : Z) : bool := negb (Z.land (flags c) f =? 0).

Definition set_flags (c : client) (f : Z) : client :=
  Client (querybuf c) (qb_pos c) (pending_querybuf c) (reqtype c) (argv c) (argv_len_sum c) (cmd c)
    (multibulklen c) (bulklen c) f (authenticated c) (reploff c) (read_reploff c) (repl_ack_time c) (errors c).

Definition set_buf (c : client) (buf : list Z) (pos : Z) : client :=
  Client buf pos (pending_querybuf c) (reqtype c) (argv c) (argv_len_sum c) (cmd c)
    (multibulklen c) (bulklen c) (flags c) (authenticated c) (reploff c) (read_reploff c) (repl_ack_time c) (errors c).

Definition set_reqtype (c : client) (t : Z) : client :=
  Client (querybuf c) (qb_pos c) (pending_querybuf c) t (argv c) (argv_len_sum c) (cmd c)
    (multibulklen c) (bulklen c) (flags c) (authenticated c) (reploff c) (read_reploff c) (repl_ack_time c) (errors c).

Definition set_argv (c : client) (a : list (list Z)) (sum : Z) : client :=
  Client (querybuf c) (qb_pos c) (pending_querybuf c) (reqtype c) a sum (cmd c)
    (multibulklen c) (bulklen c) (flags c) (authenticated c) (reploff c) (read_reploff c) (repl_ack_time c) (errors c).

Definition set_lens (c : client) (m b : Z) : client :=
  Client (querybuf c) (qb_pos c) (pending_querybuf c) (reqtype c) (argv c) (argv_len_sum c) (cmd c)
    m b (flags c) (authenticated c) (reploff c) (read_reploff c) (repl_ack_time c) (errors c).

Definition set_ack_time (c : client) (t : Z) : client :=
  Client (querybuf c) (qb_pos c) (pending_querybuf c) (reqtype c) (argv c) (argv_len_sum c) (cmd c)
    (multibulklen c) (bulklen c) (flags c) (authenticated c) (reploff c) (read_reploff c) t (errors c).

Definition set_repl (c : client) (off : Z) (pending : list Z) : client :=
  Client (querybuf c) (qb_pos c) pending (reqtype c) (argv c) (argv_len_sum c) (cmd c)
    (multibulklen c) (bulklen c) (flags c) (authenticated c) off (read_reploff c) (repl_ack_time c) (errors c).

Definition set_read_reploff (c : client) (off : Z) : client :=
  Client (querybuf c) (qb_pos c) (pending_querybuf c) (reqtype c) (argv c) (argv_len_sum c) (cmd c)
    (multibulklen c) (bulklen c) (flags c) (authenticated c) (reploff c) off (repl_ack_time c) (errors c).

Definition addReplyError (c : client) (msg : list Z) : client :=
  Client (querybuf c) (qb_pos c) (pending_querybuf c) (reqtype c) (argv c) (argv_len_sum c) (cmd c)
    (multibulklen c) (bulklen c) (flags c) (authenticated c) (reploff c) (read_reploff c) (repl_ack_time c)
    (errors c ++ [msg]).

Definition argc (c : client) : Z := zlen (argv c).

(** ** Parsing *)

Definition authRequired (sv : server_conf) (c : client) : bool :=
  (negb (default_nopass sv) || default_disabled sv) && negb (authenticated c).

(** The log is not modelled. *)
Definition setProtocolError (c : client) : client :=
  set_flags c (Z.lor (flags c) (Z.lor CLIENT_CLOSE_AFTER_REPLY CLIENT_PROTOCOL_ERROR)).

Definition protocol_error (c : client) (msg : list Z) : client := setProtocolError (addReplyError c msg).

(** strchr(s,ch): the offset in [s] of the first occurrence of the (not null) character, before
    the first null byte. *)
Fixpoint strchr (s : list Z) (ch : Z) : option Z :=
  match s with
  | [] => None
  | c :: s =>
      if c =? ch then Some 0
      else if c =? 0 then None
      else Z.succ <$> strchr s ch
  end.

(** What was received and not parsed yet: querybuf+qb_pos. *)
Definition unread (c : client) : list Z := drop (Z.to_nat (qb_pos c)) (querybuf c).

Definition sub_ (s : list Z) (start n : Z) : list Z := take (Z.to_nat n) (drop (Z.to_nat start) s).

(** The result of the two parsers; [None] is a failed assertion. *)
Inductive c_result := C_OK | C_ERR.

Definition processInlineBuffer (sv : server_conf) (c : client) : option (client * c_result) :=
  match strchr (unread c) LF with
  | None =>
      if PROTO_INLINE_MAX_SIZE <? zlen (querybuf c) - qb_pos c
      then Some (protocol_error c (str "Protocol error: too big inline request"), C_ERR)
      else Some (c, C_ERR)
  | Some newline =>
      let '(newline, linefeed_chars) :=
        if negb (newline =? 0) && (at_ (unread c) (Z.to_nat (newline - 1)) =? CR)
        then (newline - 1, 2) else (newline, 1) in
      let querylen := newline in
      let aux := sub_ (unread c) 0 querylen in
      args ← sdssplitargs aux;
      match args with
      | None => Some (protocol_error c (str "Protocol error: unbalanced quotes in request"), C_ERR)
      | Some args =>
          let c := if (querylen =? 0) && negb (has_flag c CLIENT_MASTER) &&
                      has_flag c CLIENT_SLAVE && negb (has_flag c CLIENT_MONITOR)
                   then set_ack_time c (unixtime sv) else c in
          if negb (querylen =? 0) && has_flag c CLIENT_MASTER then Some (setProtocolError c, C_ERR)
          else
            let c := set_buf c (querybuf c) (qb_pos c + (querylen + linefeed_chars)) in
            let sum := if zlen args =? 0 then argv_len_sum c else 0 in
            Some (set_argv c args (foldl (fun n a => n + zlen a) sum args), C_OK)
      end
  end.

(** The protocol error for a first character that is not '$'. *)
Definition expected_dollar (ch : Z) : list Z :=
  str "Protocol error: expected '$', got '" ++ [ch] ++ str "'".

(** The part of the loop of processMultibulkBuffer() that reads the length of an argument:
    [inr] goes on, [inl None] is 'break' and [inl (Some c)] returns C_ERR. *)
Definition read_bulklen (sv : server_conf) (c : client) : option client + client :=
  match strchr (unread c) CR with
  | None =>
      if PROTO_INLINE_MAX_SIZE <? zlen (querybuf c) - qb_pos c
      then inl (Some (protocol_error c (str "Protocol error: too big bulk count string")))
      else inl None
  | Some newline =>
      if zlen (querybuf c) - qb_pos c - 2 <? newline then inl None
      else if negb (at_ (unread c) 0 =? chr "$")
      then inl (Some (protocol_error c (expected_dollar (at_ (unread c) 0))))
      else
        match string2ll (sub_ (unread c) 1 (newline - 1)) with
        | None => inl (Some (protocol_error c (str "Protocol error: invalid bulk length")))
        | Some ll =>
            if (ll <? 0) || (negb (has_flag c CLIENT_MASTER) && (proto_max_bulk_len sv <? ll))
            then inl (Some (protocol_error c (str "Protocol error: invalid bulk length")))
            else if (16384 <? ll) && authRequired sv c
            then inl (Some (protocol_error c (str "Protocol error: unauthenticated bulk length")))
            else
              let c := set_buf c (querybuf c) (qb_pos c + newline + 2) in
              let c := if (PROTO_MBULK_BIG_ARG <=? ll) && (zlen (querybuf c) - qb_pos c <=? ll + 2)
                       then set_buf c (sdsrange (querybuf c) (qb_pos c) (-1)) 0 else c in
              inr (set_lens c (multibulklen c) ll)
        end
  end.

(** while(c->multibulklen) { ... } and the return *)
Fixpoint multibulk_loop (fuel : nat) (sv : server_conf) (c : client) : option (client * c_result) :=
  if multibulklen c =? 0 then Some (c, C_OK)
  else
    match fuel with
    | O => None
    | S fuel =>
        match (if bulklen c =? -1 then read_bulklen sv c else inr c) with
        | inl (Some c) => Some (c, C_ERR)
        | inl None => Some (c, C_ERR)
        | inr c =>
            if zlen (querybuf c) - qb_pos c <? bulklen c + 2 then Some (c, C_ERR)
            else
              let arg := sub_ (unread c) 0 (bulklen c) in
              let sum := argv_len_sum c + bulklen c in
              let c :=
                if (qb_pos c =? 0) && (PROTO_MBULK_BIG_ARG <=? bulklen c) &&
                   (zlen (querybuf c) =? bulklen c + 2)
                then set_buf (set_argv c (argv c ++ [arg]) sum) [] (qb_pos c)
                else set_buf (set_argv c (argv c ++ [arg]) sum) (querybuf c) (qb_pos c + (bulklen c + 2)) in
              multibulk_loop fuel sv (set_lens c (multibulklen c - 1) (-1))
        end
    end.

Definition processMultibulkBuffer (sv : server_conf) (c : client) : option (client * c_result) :=
  if multibulklen c =? 0 then
    if negb (argc c =? 0) then None
    else
      match strchr (unread c) CR with
      | None =>
          if PROTO_INLINE_MAX_SIZE <? zlen (querybuf c) - qb_pos c
          then Some (protocol_error c (str "Protocol error: too big mbulk count string"), C_ERR)
          else Some (c, C_ERR)
      | Some newline =>
          if zlen (querybuf c) - qb_pos c - 2 <? newline then Some (c, C_ERR)
          else if negb (at_ (unread c) 0 =? chr "*") then None
          else
            match string2ll (sub_ (unread c) 1 (newline - 1)) with
            | None => Some (protocol_error c (str "Protocol error: invalid multibulk length"), C_ERR)
            | Some ll =>
                if 1024 * 1024 <? ll
                then Some (protocol_error c (str "Protocol error: invalid multibulk length"), C_ERR)
                else if (10 <? ll) && authRequired sv c
                then Some (protocol_error c (str "Protocol error: unauthenticated multibulk length"), C_ERR)
                else
                  let c := set_buf c (querybuf c) (qb_pos c + newline + 2) in
                  if ll <=? 0 then Some (c, C_OK)
                  else multibulk_loop (S (Z.to_nat ll)) sv (set_lens (set_argv c [] 0) ll (bulklen c))
            end
      end
  else if multibulklen c <? 0 then None
  else multibulk_loop (S (Z.to_nat (multibulklen c))) sv c.

(** ** Execution *)

Definition resetClient (c : client) : client :=
  let prevcmd := cmd c in
  let c := Client (querybuf c) (qb_pos c) (pending_querybuf c) 0 [] 0 None 0 (-1) (flags c)
             (authenticated c) (reploff c) (read_reploff c) (repl_ack_time c) (errors c) in
  let c := if negb (has_flag c CLIENT_MULTI) && negb (bool_decide (prevcmd = Some askingCommand))
           then set_flags c (Z.ldiff (flags c) CLIENT_ASKING) else c in
  let c := if negb (has_flag c CLIENT_MULTI) && negb (bool_decide (prevcmd = Some clientCommand))
           then set_flags c (Z.ldiff (flags c) CLIENT_TRACKING_CACHING) else c in
  let c := set_flags c (Z.ldiff (flags c) CLIENT_REPLY_SKIP) in
  if has_flag c CLIENT_REPLY_SKIP_NEXT
  then set_flags c (Z.ldiff (Z.lor (flags c) CLIENT_REPLY_SKIP) CLIENT_REPLY_SKIP_NEXT) else c.

(** The client is marked, to be freed later. *)
Definition freeClientAsync (c : client) : client :=
  if has_flag c CLIENT_CLOSE_ASAP || has_flag c CLIENT_LUA then c
  else set_flags c (Z.lor (flags c) CLIENT_CLOSE_ASAP).

Section execution.
Context {S : Type}.   (** the rest of the server *)

(** processCommand(): the client and the server after it, whether C_OK is returned, and
    whether the client is still there; replicationFeedSlavesFromMasterStream() and
    processGopherRequest(). *)
Context (processCommand : client -> S -> client * S * bool * bool).
Context (replicationFeedSlavesFromMasterStream : S -> list Z -> Z -> S).
Context (processGopherRequest : client -> S -> client * S).

Definition commandProcessed (c : client) (s : S) : client * S :=
  if has_flag c CLIENT_BLOCKED then (c, s)
  else
    let c := resetClient c in
    let prev_offset := reploff c in
    let c := if has_flag c CLIENT_MASTER && negb (has_flag c CLIENT_MULTI)
             then set_repl c (read_reploff c - zlen (querybuf c) + qb_pos c) (pending_querybuf c) else c in
    if has_flag c CLIENT_MASTER then
      let applied := reploff c - prev_offset in
      if negb (applied =? 0)
      then (set_repl c (reploff c) (sdsrange (pending_querybuf c) applied (-1)),
            replicationFeedSlavesFromMasterStream s (pending_querybuf c) applied)
      else (c, s)
    else (c, s).

(** The last component: the client is still valid. *)
Definition processCommandAndResetClient (c : client) (s : S) : client * S * bool :=
  let '(c, s, ok, alive) := processCommand c s in
  let '(c, s) := if ok then commandProcessed c s else (c, s) in
  (c, s, alive).

Definition processPendingCommandsAndResetClient (c : client) (s : S) : client * S * bool :=
  if has_flag c CLIENT_PENDING_COMMAND
  then processCommandAndResetClient (set_flags c (Z.ldiff (flags c) CLIENT_PENDING_COMMAND)) s
  else (c, s, true).

(** The loop of processInputBuffer(): [false] when the client is gone. *)
Fixpoint processInputBuffer_loop (fuel : nat) (sv : server_conf) (c : client) (s : S) : option (client * S * bool) :=
  if negb (qb_pos c <? zlen (querybuf c)) then Some (c, s, true)
  else
    match fuel with
    | O => None
    | Datatypes.S fuel =>
        if has_flag c CLIENT_BLOCKED then Some (c, s, true)
        else if has_flag c CLIENT_PENDING_COMMAND then Some (c, s, true)
        else if lua_timedout sv && has_flag c CLIENT_MASTER then Some (c, s, true)
        else if has_flag c (Z.lor CLIENT_CLOSE_AFTER_REPLY CLIENT_CLOSE_ASAP) then Some (c, s, true)
        else
          let c := if reqtype c =? 0 then
                     set_reqtype c (if at_ (unread c) 0 =? chr "*" then PROTO_REQ_MULTIBULK else PROTO_REQ_INLINE)
                   else c in
          let execute c s :=
            if argc c =? 0 then processInputBuffer_loop fuel sv (resetClient c) s
            else if has_flag c CLIENT_PENDING_READ
            then Some (set_flags c (Z.lor (flags c) CLIENT_PENDING_COMMAND), s, true)
            else
              let '(c, s, alive) := processCommandAndResetClient c s in
              if (alive : bool) then processInputBuffer_loop fuel sv c s else Some (c, s, false) in
          if reqtype c =? PROTO_REQ_INLINE then
            '(c, r) ← processInlineBuffer sv c;
            match r with
            | C_ERR => Some (c, s, true)
            | C_OK =>
                if gopher_enabled sv && negb (io_threads_do_reads sv) &&
                   (((argc c =? 1) && (at_ (hd [] (argv c)) 0 =? chr "/")) || (argc c =? 0))
                then
                  let '(c, s) := processGopherRequest c s in
                  let c := resetClient c in
                  Some (set_flags c (Z.lor (flags c) CLIENT_CLOSE_AFTER_REPLY), s, true)
                else execute c s
            end
          else if reqtype c =? PROTO_REQ_MULTIBULK then
            '(c, r) ← processMultibulkBuffer sv c;
            match r with C_ERR => Some (c, s, true) | C_OK => execute c s end
          else None
    end.

Definition processInputBuffer (sv : server_conf) (c : client) (s : S) : option (client * S * bool) :=
  '(c, s, alive) ← processInputBuffer_loop (Datatypes.S (length (querybuf c))) sv c s;
  if (alive : bool) && negb (qb_pos c =? 0)
  then Some (set_buf c (sdsrange (querybuf c) (qb_pos c) (-1)) 0, s, true)
  else Some (c, s, alive).

(** readQueryFromClient() once connRead() read the bytes [data], at least one. *)
Definition readQueryFromClient (sv : server_conf) (c : client) (s : S) (data : list Z) : option (client * S * bool) :=
  let master := has_flag c CLIENT_MASTER in
  let c := if master then set_repl c (reploff c) (pending_querybuf c ++ data) else c in
  let c := set_buf c (querybuf c ++ data) (qb_pos c) in
  let c := if master then set_read_reploff c (read_reploff c + zlen data) else c in
  if client_max_querybuf_len sv <? zlen (querybuf c) then Some (freeClientAsync c, s, true)
  else processInputBuffer sv c s.

End execution.

(** ** The wire format *)

(** "<ch><n>\r\n" *)
Definition len_line (ch n : Z) : list Z := ch :: ll2string_out n ++ [CR; LF].

(** An argument and a command, as a client sends them. *)
Definition bulk (a : list Z) : list Z := len_line (chr "$") (zlen a) ++ a ++ [CR; LF].
Definition bulks (args : list (list Z)) : list Z := args ≫= bulk.
Definition resp_command (args : list (list Z)) : list Z := len_line (chr "*") (zlen args) ++ bulks args.

Lemma is_ll_len n : 0 <= n < 2 ^ 62 -> is_ll n.
Proof. intros Hn. unfold is_ll. unfold_limits. eval_pow2. lia. Qed.

Definition plain (c : Z) : Prop := c <> CR /\ c <> 0.

Lemma digits_plain n : 0 <= n < 2 ^ 62 -> Forall plain (ll2string_out n) /\ zlen (ll2string_out n) <= 20.
Proof.
  intros Hn. pose proof (is_ll_len n Hn) as Hll. pose proof (ll2string_out_canonical n Hll) as Hcan. split.
  - assert (forall s, Forall is_digit s -> Forall plain s) as Hdig.
    { intros s Hs. eapply Forall_impl; [exact Hs|]. intros c Hc%is_digit_spec. unfold plain, CR. lia. }
    destruct Hcan as [|c s Hc Hs|c s Hc Hs].
    + repeat constructor; done.
    + constructor; [|by apply Hdig]. change (chr "1") with 49 in Hc. unfold plain, CR. lia.
    + constructor; [split; done|]. constructor; [|by apply Hdig].
      change (chr "1") with 49 in Hc. unfold plain, CR. lia.
  - rewrite (canonical_zlen _ n) by done. by apply sdigits10_le.
Qed.

Lemma strchr_plain s : Forall plain s -> strchr s CR = None.
Proof.
  induction 1 as [|c s [H1 H2] _ IH]; [done|]. simpl strchr.
  by rewrite (proj2 (Z.eqb_neq c CR)), (proj2 (Z.eqb_neq c 0)), IH by done.
Qed.

Lemma strchr_found s t : Forall plain s -> strchr (s ++ CR :: t) CR = Some (zlen s).
Proof.
  induction 1 as [|c s [H1 H2] _ IH]; [done|]. rewrite zlen_cons. simpl strchr.
  rewrite (proj2 (Z.eqb_neq c CR)), (proj2 (Z.eqb_neq c 0)) by done. rewrite IH. simpl. f_equal. lia.
Qed.

(** What the parser sees of a length line, according to how much of it was received. *)
Lemma len_line_cases ch n u f tail : plain ch -> 0 <= n < 2 ^ 62 -> u ++ f = len_line ch n ++ tail ->
  (zlen u < zlen (len_line ch n) /\ zlen u <= 22 /\
   match strchr u CR with None => True | Some newline => zlen u - 2 < newline end) \/
  (exists u', u = len_line ch n ++ u' /\ u' ++ f = tail /\
   strchr u CR = Some (zlen (len_line ch n) - 2) /\
   sub_ u 1 (zlen (len_line ch n) - 2 - 1) = ll2string_out n /\ at_ u 0 = ch).
Proof.
  intros Hch Hn Heq. destruct (digits_plain n Hn) as [Hd Hdl].
  assert (Forall plain (ch :: ll2string_out n)) as Hpl by (by constructor).
  assert (zlen (len_line ch n) = 3 + zlen (ll2string_out n)) as Hlen.
  { unfold len_line. rewrite zlen_cons, zlen_app. change (zlen [CR; LF]) with 2. lia. }
  apply app_eq_inv in Heq as [(k & -> & Htail)|(k & Hk & ->)].
  - right. exists k. split_and!; [done | done | | |].
    + rewrite Hlen. unfold len_line. change (ch :: ll2string_out n ++ [CR; LF]) with ((ch :: ll2string_out n) ++ [CR; LF]).
      rewrite <- app_assoc. simpl (_ ++ k). rewrite strchr_found by done. f_equal. rewrite zlen_cons. lia.
    + rewrite Hlen. unfold sub_, len_line. cbn [app]. change (Z.to_nat 1) with 1%nat. rewrite skipn_cons, drop_0, <- app_assoc.
      replace (Z.to_nat (3 + zlen (ll2string_out n) - 2 - 1)) with (length (ll2string_out n)) by (unfold zlen; lia).
      apply take_app_length.
    + done.
  - destruct k as [|x k].
    { rewrite app_nil_r in Hk. right. exists []. rewrite !app_nil_r. split_and!; [done | done | | |]; subst u.
      + rewrite Hlen. unfold len_line. change (ch :: ll2string_out n ++ [CR; LF]) with ((ch :: ll2string_out n) ++ [CR; LF]).
        rewrite strchr_found by done. f_equal. rewrite zlen_cons. lia.
      + rewrite Hlen. unfold sub_, len_line. change (Z.to_nat 1) with 1%nat. rewrite skipn_cons, drop_0.
        replace (Z.to_nat (3 + zlen (ll2string_out n) - 2 - 1)) with (length (ll2string_out n)) by (unfold zlen; lia).
        apply take_app_length.
      + done. }
    left. assert (zlen u < zlen (len_line ch n)) as Hlt.
    { rewrite Hk, zlen_app, zlen_cons. pose proof (zlen_nonneg k). lia. }
    split_and!; [done | lia|].
    unfold len_line in Hk. change (ch :: ll2string_out n ++ [CR; LF]) with ((ch :: ll2string_out n) ++ [CR; LF]) in Hk.
    apply app_eq_inv in Hk as [(y & Hy & Hy')|(y & -> & Hy')].
    + rewrite Hy in Hpl. apply Forall_app in Hpl as [Hu _]. by rewrite strchr_plain.
    + destruct y as [|y1 y].
      * rewrite app_nil_r. by rewrite strchr_plain.
      * injection Hy' as <- Hy'. rewrite strchr_found by done. destruct y as [|y2 y]; [|by destruct y].
        rewrite zlen_app. change (zlen [CR]) with 1. rewrite zlen_cons in *. lia.
Qed.

(** ** Parsing a command that arrives in pieces *)

(** The position is inside the buffer. *)
Record buf_ok (c : client) : Prop := {
  pos_ok : 0 <= qb_pos c <= zlen (querybuf c);
  len_ok : zlen (querybuf c) < 2 ^ 62;
}.

(** The fields the parser of a well-formed command does not touch. *)
Record frame (c c' : client) : Prop := {
  frame_flags : flags c' = flags c;
  frame_auth : authenticated c' = authenticated c;
  frame_errors : errors c' = errors c;
  frame_reqtype : reqtype c' = reqtype c;
  frame_cmd : cmd c' = cmd c;
}.

Lemma frame_refl c : frame c c.
Proof. done. Qed.

Lemma frame_trans c1 c2 c3 : frame c1 c2 -> frame c2 c3 -> frame c1 c3.
Proof. intros [] []. split; congruence. Qed.

Lemma zlen_unread c : buf_ok c -> zlen (unread c) = zlen (querybuf c) - qb_pos c.
Proof. intros [Hp _]. unfold unread, zlen in *. rewrite length_drop. lia. Qed.

Lemma unread_set_buf c p u u' : buf_ok c -> unread c = u ++ u' -> p = qb_pos c + zlen u ->
  unread (set_buf c (querybuf c) p) = u' /\ buf_ok (set_buf c (querybuf c) p).
Proof.
  intros Hb Hu ->. pose proof (zlen_unread c Hb) as Hl. rewrite Hu, zlen_app in Hl.
  pose proof (zlen_nonneg u). pose proof (zlen_nonneg u'). destruct Hb as [Hp Hlen]. split.
  - unfold unread in *. simpl. rewrite Z2Nat.inj_add by lia. rewrite <- drop_drop, Hu.
    unfold zlen. rewrite Nat2Z.id. apply drop_app_length.
  - split; simpl; lia.
Qed.

(** An argument the server accepts from this client. *)
Definition arg_ok (sv : server_conf) (c : client) (a : list Z) : Prop :=
  zlen a < 2 ^ 61 /\ (has_flag c CLIENT_MASTER = false -> zlen a <= proto_max_bulk_len sv) /\
  (zlen a <= 16384 \/ authRequired sv c = false).

Lemma plain_dollar : plain (chr "$").
Proof. done. Qed.
Lemma plain_star : plain (chr "*").
Proof. done. Qed.

(** The length of an argument: either more bytes are needed, or it is read. *)
Lemma read_bulklen_spec sv c a f tail : buf_ok c -> arg_ok sv c a ->
  unread c ++ f = len_line (chr "$") (zlen a) ++ tail ->
  (read_bulklen sv c = inl None /\ zlen (unread c) < zlen (len_line (chr "$") (zlen a))) \/
  (exists c', read_bulklen sv c = inr c' /\ frame c c' /\ buf_ok c' /\ zlen (querybuf c') <= zlen (querybuf c) /\
     argv c' = argv c /\ multibulklen c' = multibulklen c /\ bulklen c' = zlen a /\ unread c' ++ f = tail).
Proof.
  intros Hb (Hlen & Hmax & Hauth) Heq. pose proof (zlen_nonneg a). pose proof (zlen_unread c Hb) as Hu.
  destruct (len_line_cases _ _ _ _ _ plain_dollar (conj (zlen_nonneg a) (Z.lt_trans _ _ (2 ^ 62) Hlen eq_refl)) Heq)
    as [(Hlt & H22 & Hs)|(u' & Hu' & Htail & Hs & Hsub & Hat)].
  - left. split; [|done]. unfold read_bulklen. destruct (strchr (unread c) CR) as [newline|].
    + by rewrite (proj2 (Z.ltb_lt _ _)) by lia.
    + rewrite (proj2 (Z.ltb_ge _ _)) by (unfold PROTO_INLINE_MAX_SIZE; lia). done.
  - right. set (line := len_line (chr "$") (zlen a)) in *.
    assert (zlen (unread c) = zlen line + zlen u') as Hzl by (rewrite Hu'; apply zlen_app).
    pose proof (zlen_nonneg u'). pose proof (zlen_nonneg line).
    unfold read_bulklen. rewrite Hs, Hsub, Hat, Z.eqb_refl. cbn [negb].
    rewrite (proj2 (Z.ltb_ge _ _)) by lia.
    rewrite (string2ll_complete _ (zlen a)) by
      (first [apply ll2string_out_canonical|idtac]; apply is_ll_len; eval_pow2; lia).
    rewrite (proj2 (Z.ltb_ge (zlen a) 0)) by lia. cbn [orb].
    replace (negb (has_flag c CLIENT_MASTER) && (proto_max_bulk_len sv <? zlen a)) with false
      by (destruct (has_flag c CLIENT_MASTER); [done|]; specialize (Hmax eq_refl); lia).
    replace ((16384 <? zlen a) && authRequired sv c) with false
      by (destruct Hauth as [Ha|Ha]; [lia | rewrite Ha; lia]).
    destruct (unread_set_buf c (qb_pos c + (zlen line - 2) + 2) line u' Hb Hu') as [Hun Hbuf]; [lia|].
    set (c1 := set_buf c (querybuf c) _) in *. cbv zeta.
    destruct (_ && _).
    + eexists. split; [done|]. pose proof (pos_ok _ Hbuf). pose proof (len_ok _ Hbuf). pose proof (len_ok _ Hb). pose proof (pos_ok _ Hb).
      rewrite sdsrange_tail by lia.
      change (drop (Z.to_nat (qb_pos c1)) (querybuf c1)) with (unread c1). rewrite Hun.
      split_and!; try done. 
      * split; simpl; lia.
      * simpl. lia.
    + eexists. split; [done|]. split_and!; try done; [by split; apply Hbuf | by rewrite <- Htail, <- Hun].
Qed.

(** What is still to be received of the arguments [rest], the length of the first one being
    known when [b] is not -1. *)
Definition expected (rest : list (list Z)) (b : Z) : list Z :=
  match rest with
  | [] => []
  | a :: rest => (if b =? -1 then bulk a else a ++ [CR; LF]) ++ bulks rest
  end.

(** The client is in the middle of the arguments [rest]. *)
Record in_args (c : client) (rest : list (list Z)) : Prop := {
  in_len : multibulklen c = zlen rest;
  in_bulk : bulklen c = -1 \/ exists a rest', rest = a :: rest' /\ bulklen c = zlen a;
}.

Lemma sub_prefix u x n : n = zlen u -> sub_ (u ++ x) 0 n = u.
Proof. intros ->. unfold sub_, zlen. rewrite Nat2Z.id. simpl. rewrite drop_0. apply take_app_length. Qed.

(** One turn of the loop with a known length and enough data. *)
Lemma take_arg c a x : buf_ok c -> bulklen c = zlen a -> unread c = a ++ [CR; LF] ++ x ->
  let c' :=
    if (qb_pos c =? 0) && (PROTO_MBULK_BIG_ARG <=? bulklen c) && (zlen (querybuf c) =? bulklen c + 2)
    then set_buf (set_argv c (argv c ++ [sub_ (unread c) 0 (bulklen c)]) (argv_len_sum c + bulklen c)) [] (qb_pos c)
    else set_buf (set_argv c (argv c ++ [sub_ (unread c) 0 (bulklen c)]) (argv_len_sum c + bulklen c))
           (querybuf c) (qb_pos c + (bulklen c + 2)) in
  buf_ok c' /\ frame c c' /\ argv c' = argv c ++ [a] /\ unread c' = x /\ multibulklen c' = multibulklen c /\
  zlen (querybuf c') <= zlen (querybuf c).
Proof.
  intros Hb Hbl Hu. rewrite Hbl. pose proof (zlen_unread c Hb) as Hl. rewrite Hu in Hl. rewrite !zlen_app in Hl.
  change (zlen [CR; LF]) with 2 in Hl. pose proof (zlen_nonneg a). pose proof (zlen_nonneg x).
  pose proof (pos_ok _ Hb). pose proof (len_ok _ Hb).
  assert (sub_ (unread c) 0 (zlen a) = a) as -> by (rewrite Hu; by apply sub_prefix). cbv zeta.
  destruct (_ && _) eqn:Hbig.
  - assert (zlen x = 0) as Hx by lia. apply zlen_eq_nil in Hx. subst x. pose proof (zlen_nonneg (querybuf c)).
    split_and!; try done; [split; simpl; change (zlen []) with 0; lia |]. unfold unread. simpl. apply drop_nil.
  - destruct (unread_set_buf c (qb_pos c + (zlen a + 2)) (a ++ [CR; LF]) x Hb) as [Hx Hbuf].
    { by rewrite <- app_assoc. }
    { rewrite zlen_app. done. }
    split_and!; try done. split; apply Hbuf.
Qed.

Lemma received {A} (u f p t : list A) : u ++ f = p ++ t -> zlen p <= zlen u -> exists x, u = p ++ x /\ x ++ f = t.
Proof.
  intros Heq Hle. apply app_eq_inv in Heq as [(x & -> & ->)|(x & -> & ->)]; [by exists x|].
  rewrite zlen_app in Hle. assert (zlen x = 0) as Hx by (pose proof (zlen_nonneg x); lia).
  apply zlen_eq_nil in Hx. subst x. exists []. by rewrite !app_nil_r.
Qed.

Lemma multibulk_loop_spec fuel sv c rest f tail : buf_ok c -> in_args c rest -> Forall (arg_ok sv c) rest ->
  (length rest < fuel)%nat -> unread c ++ f = expected rest (bulklen c) ++ tail -> bulklen c = -1 \/ rest <> [] ->
  exists c' r, multibulk_loop fuel sv c = Some (c', r) /\ frame c c' /\ buf_ok c' /\
    zlen (querybuf c') <= zlen (querybuf c) /\
    match r with
    | C_OK => argv c' = argv c ++ rest /\ unread c' ++ f = tail
    | C_ERR => exists done rest', rest = done ++ rest' /\ rest' <> [] /\ argv c' = argv c ++ done /\
        in_args c' rest' /\ unread c' ++ f = expected rest' (bulklen c') ++ tail /\
        zlen (unread c') < zlen (expected rest' (bulklen c'))
    end.
Proof.
  revert c rest. induction fuel as [|fuel IH]; intros c rest Hb Hin Hok Hf Heq Hbl; [lia|].
  cbn [multibulk_loop]. rewrite (in_len _ _ Hin). destruct rest as [|a rest].
  { change (zlen [] =? 0) with true. exists c, C_OK. split_and!; [done | done | done | done | by rewrite app_nil_r | done]. }
  rewrite zlen_cons. pose proof (zlen_nonneg rest). rewrite (proj2 (Z.eqb_neq (1 + zlen rest) 0)) by lia.
  apply Forall_cons in Hok as [Ha Hok]. pose proof (zlen_nonneg a).
  (** the length is known, or is read now, or more bytes are needed for it *)
  assert ((exists c1, (if bulklen c =? -1 then read_bulklen sv c else inr c) = inr c1 /\ frame c c1 /\ buf_ok c1 /\
             zlen (querybuf c1) <= zlen (querybuf c) /\ argv c1 = argv c /\ multibulklen c1 = multibulklen c /\
             bulklen c1 = zlen a /\ unread c1 ++ f = (a ++ [CR; LF]) ++ bulks rest ++ tail) \/
          ((if bulklen c =? -1 then read_bulklen sv c else inr c) = inl None /\
             zlen (unread c) < zlen (expected (a :: rest) (bulklen c)))) as Hlen.
  { cbn [expected] in *. destruct (Z.eqb_spec (bulklen c) (-1)) as [Heq1|Hne].
    - unfold bulk in Heq. rewrite <- !app_assoc in Heq.
      destruct (read_bulklen_spec sv c a f _ Hb Ha Heq) as [[Hr Hlt]|(c1 & Hr & Hrest)].
      + right. split; [done|]. unfold bulk. rewrite !zlen_app. pose proof (zlen_nonneg (bulks rest)).
        change (zlen [CR; LF]) with 2. lia.
      + left. exists c1. rewrite <- app_assoc. by split_and!; try apply Hrest.
    - left. exists c. destruct (in_bulk _ _ Hin) as [?|(a' & rest' & [= <- <-] & Hbl')]; [done|].
      rewrite <- app_assoc in Heq. split_and!; try done. }
  destruct Hlen as [(c1 & -> & Hfr & Hb1 & Hq1 & Hargv & Hm & Hbl1 & Heq1)|[-> Hlt]].
  2: { exists c, C_ERR. split_and!; [done | done | done | done|]. exists [], (a :: rest).
       split_and!; try done. by rewrite app_nil_r. }
  pose proof (zlen_unread c1 Hb1) as Hzu. rewrite <- Hzu, Hbl1.
  destruct (Z.ltb_spec (zlen (unread c1)) (zlen a + 2)) as [Hlt|Hge].
  - exists c1, C_ERR. split_and!; [done | done | done | done|]. exists [], (a :: rest). cbn [expected]. rewrite Hbl1.
    rewrite (proj2 (Z.eqb_neq (zlen a) (-1))) by lia. split_and!; try done.
    + by rewrite app_nil_r.
    + split; [by rewrite Hm, (in_len _ _ Hin)|]. right. eauto.
    + by rewrite Heq1, <- !app_assoc.
    + rewrite !zlen_app. change (zlen [CR; LF]) with 2. pose proof (zlen_nonneg (bulks rest)). lia.
  - destruct (received _ _ _ _ Heq1) as (x & Hx & Htail).
    { rewrite zlen_app. change (zlen [CR; LF]) with 2. lia. }
    rewrite <- app_assoc in Hx. destruct (take_arg c1 a x Hb1 Hbl1 Hx) as (Hb2 & Hfr2 & Hargv2 & Hun2 & Hm2 & Hq2).
    rewrite Hbl1, Hzu in *. set (c2 := if _ && _ then _ else _) in *.
    assert (expected rest (-1) = bulks rest) as Hexp by (by destruct rest).
    destruct (IH (set_lens c2 (multibulklen c2 - 1) (-1)) rest) as (c' & r & -> & Hfr' & Hb' & Hq' & Hres).
    + by split; apply Hb2.
    + split; simpl; [rewrite Hm2, Hm, (in_len _ _ Hin), zlen_cons; lia | by left].
    + pose proof (frame_trans _ _ _ Hfr Hfr2) as [Hfl Hau _ _ _]. clear - Hok Hfl Hau.
      eapply Forall_impl; [exact Hok|]. intros b (? & ? & ?). unfold arg_ok, has_flag, authRequired in *.
      simpl. rewrite Hfl, Hau. done.
    + simpl in Hf. lia.
    + change (unread (set_lens c2 (multibulklen c2 - 1) (-1))) with (unread c2). simpl. by rewrite Hun2, Htail, Hexp.
    + by left.
    + simpl in *. exists c', r. split; [done|]. split; [|split; [done|split; [lia|]]].
      { destruct (frame_trans _ _ _ Hfr Hfr2), Hfr'. split; simpl in *; congruence. }
      rewrite Hargv2, Hargv in Hres. destruct r.
      * destruct Hres as [-> ?]. by rewrite <- app_assoc.
      * destruct Hres as (dn & rest' & -> & Hne & -> & Hin' & He' & Hl'). exists (a :: dn), rest'.
        by rewrite <- app_assoc.
Qed.

(** ** A stream of commands *)

(** The client is in the middle of the command [args]; [E] is what is still to be parsed of it. *)
Inductive parsing (c : client) (args : list (list Z)) : list Z -> Prop :=
| parsing_start : multibulklen c = 0 -> bulklen c = -1 -> argv c = [] ->
    (reqtype c = 0 \/ reqtype c = PROTO_REQ_MULTIBULK) -> parsing c args (resp_command args)
| parsing_args dn rest : args = dn ++ rest -> rest <> [] -> argv c = dn -> in_args c rest ->
    reqtype c = PROTO_REQ_MULTIBULK -> parsing c args (expected rest (bulklen c)).

(** A command the server accepts from this client. *)
Record command_ok (sv : server_conf) (c : client) (args : list (list Z)) : Prop := {
  command_args : Forall (arg_ok sv c) args;
  command_len : 0 < zlen args <= 1024 * 1024;
  command_auth : zlen args <= 10 \/ authRequired sv c = false;
}.

Lemma arg_ok_frame sv c c' a : flags c' = flags c -> authenticated c' = authenticated c ->
  arg_ok sv c a -> arg_ok sv c' a.
Proof. intros Hf Ha. unfold arg_ok, has_flag, authRequired. by rewrite Hf, Ha. Qed.

Lemma command_ok_frame sv c c' cmds : flags c' = flags c -> authenticated c' = authenticated c ->
  Forall (command_ok sv c) cmds -> Forall (command_ok sv c') cmds.
Proof.
  intros Hf Ha Hok. eapply Forall_impl; [exact Hok|]. intros a [Hx Hy Hz].
  split; [|done|unfold authRequired in *; by rewrite Ha]. eapply Forall_impl; [exact Hx|].
  intros b. by apply arg_ok_frame.
Qed.

Lemma expected_ne rest b : rest <> [] -> expected rest b <> [].
Proof.
  destruct rest as [|a rest]; [done|]. intros _. cbn [expected]. case_match; [done|]. by destruct a.
Qed.

Lemma processMultibulkBuffer_spec sv c args E f tail : buf_ok c -> command_ok sv c args ->
  parsing c args E -> reqtype c = PROTO_REQ_MULTIBULK -> unread c ++ f = E ++ tail ->
  exists c' r, processMultibulkBuffer sv c = Some (c', r) /\ frame c c' /\ buf_ok c' /\
    zlen (querybuf c') <= zlen (querybuf c) /\
    match r with
    | C_OK => argv c' = args /\ unread c' ++ f = tail
    | C_ERR => exists E', parsing c' args E' /\ unread c' ++ f = E' ++ tail /\ zlen (unread c') < zlen E'
    end.
Proof.
  intros Hb [Hargs Hn Hauth] Hp Hreq Heq. unfold processMultibulkBuffer. pose proof (zlen_unread c Hb) as Hzu.
  assert (0 <= zlen args < 2 ^ 62) as Hn62 by lia.
  destruct Hp as [Hm Hbl Hav _|dn rest -> Hne Hav Hin _].
  - rewrite Hm, Z.eqb_refl. unfold argc. rewrite Hav. change (negb (zlen [] =? 0)) with false. cbv iota.
    unfold resp_command in Heq. rewrite <- app_assoc in Heq.
    destruct (len_line_cases _ _ _ _ _ plain_star Hn62 Heq)
      as [(Hlt & H22 & Hs)|(u' & Hu' & Htail & Hs & Hsub & Hat)].
    + exists c, C_ERR. split.
      { destruct (strchr (unread c) CR) as [newline|].
        - by rewrite (proj2 (Z.ltb_lt _ _)) by lia.
        - rewrite (proj2 (Z.ltb_ge _ _)) by (unfold PROTO_INLINE_MAX_SIZE; lia). done. }
      split_and!; [done..|]. exists (resp_command args). split_and!.
      * constructor; auto.
      * unfold resp_command. by rewrite <- app_assoc.
      * unfold resp_command. rewrite zlen_app. pose proof (zlen_nonneg (bulks args)). lia.
    + set (line := len_line (chr "*") (zlen args)) in *.
      assert (zlen (unread c) = zlen line + zlen u') as Hzl by (rewrite Hu'; apply zlen_app).
      pose proof (zlen_nonneg u'). pose proof (zlen_nonneg line).
      rewrite Hs, Hsub, Hat, Z.eqb_refl. cbn [negb]. rewrite (proj2 (Z.ltb_ge _ _)) by lia.
      rewrite (string2ll_complete _ (zlen args)) by
        (first [apply ll2string_out_canonical|idtac]; apply is_ll_len; lia).
      rewrite (proj2 (Z.ltb_ge (1024 * 1024) (zlen args))) by lia.
      replace ((10 <? zlen args) && authRequired sv c) with false
        by (destruct Hauth as [Ha|Ha]; [lia | rewrite Ha; lia]).
      rewrite (proj2 (Z.leb_gt (zlen args) 0)) by lia.
      destruct (unread_set_buf c (qb_pos c + (zlen line - 2) + 2) line u' Hb Hu') as [Hun Hbuf]; [lia|].
      set (c1 := set_buf c (querybuf c) _) in *. cbv zeta.
      destruct (multibulk_loop_spec (S (Z.to_nat (zlen args))) sv
        (set_lens (set_argv c1 [] 0) (zlen args) (bulklen c1)) args f tail) as (c' & r & -> & Hfr & Hb' & Hq & Hres).
      * by split; apply Hbuf.
      * split; simpl; [done | by left].
      * done.
      * unfold zlen. lia.
      * change (unread (set_lens (set_argv c1 [] 0) (zlen args) (bulklen c1))) with (unread c1). simpl.
        rewrite Hun, Hbl, Htail. by destruct args.
      * by left.
      * exists c', r. split_and!; [done | destruct Hfr; by split | done | done |]. destruct r.
        -- simpl in Hres. tauto.
        -- destruct Hres as (dn & rest & -> & Hne & Hav' & Hin & He & Hl). simpl in Hav'.
           exists (expected rest (bulklen c')). split_and!; [|done|done]. eapply parsing_args; try done.
           destruct Hfr as [_ _ _ Hrq _]. simpl in Hrq. congruence.
  - pose proof (in_len _ _ Hin) as Hm. assert (0 < zlen rest) by (destruct rest; [done|]; rewrite zlen_cons; pose proof (zlen_nonneg rest); lia).
    rewrite (proj2 (Z.eqb_neq (multibulklen c) 0)), (proj2 (Z.ltb_ge (multibulklen c) 0)) by lia.
    apply Forall_app in Hargs as [_ Hargs].
    destruct (multibulk_loop_spec (S (Z.to_nat (multibulklen c))) sv c rest f tail) as (c' & r & -> & Hfr & Hb' & Hq & Hres);
      [done | done | done | rewrite Hm; unfold zlen; lia | done | by right|].
    exists c', r. split_and!; try done. destruct r.
    + by rewrite Hav in Hres.
    + destruct Hres as (dn' & rest' & -> & Hne' & Hav' & Hin' & He' & Hl').
      exists (expected rest' (bulklen c')). split_and!; [|done|done].
      apply (parsing_args _ _ (dn ++ dn')); try done; [by rewrite app_assoc | by rewrite Hav', Hav |].
      destruct Hfr as [_ _ _ Hrq _]. congruence.
Qed.

Section stream.
Context {S : Type} (exec : list (list Z) -> S -> S).
Context (feed : S -> list Z -> Z -> S) (gopher : client -> S -> client * S).

(** A processCommand() that executes the command at once and leaves the connection alone. *)
Definition run_command (c : client) (s : S) : client * S * bool * bool := (c, exec (argv c) s, true, true).

(** An ordinary client, between two reads: [cmds] are the commands it is sending, the first of
    which is partly parsed, and [f] is what was not received yet. *)
Record client_at (c : client) (cmds : list (list (list Z))) (f : list Z) : Prop := {
  at_buf : buf_ok c;
  at_flags : flags c = 0;
  at_parse : exists E,
    match cmds with
    | [] => multibulklen c = 0 /\ bulklen c = -1 /\ argv c = [] /\
            (reqtype c = 0 \/ reqtype c = PROTO_REQ_MULTIBULK) /\ E = []
    | args :: _ => parsing c args E
    end /\ unread c ++ f = E ++ (drop 1 cmds ≫= resp_command);
}.

Lemma resetClient_idle c : flags c = 0 ->
  resetClient c = Client (querybuf c) (qb_pos c) (pending_querybuf c) 0 [] 0 None 0 (-1) 0
    (authenticated c) (reploff c) (read_reploff c) (repl_ack_time c) (errors c).
Proof.
  intros Hf. unfold resetClient, has_flag, set_flags. simpl. rewrite Hf. simpl.
  destruct (negb (bool_decide (cmd c = Some askingCommand))); simpl;
    destruct (negb (bool_decide (cmd c = Some clientCommand))); done.
Qed.

Lemma has_flag_0 c f : flags c = 0 -> has_flag c f = false.
Proof. intros Hf. unfold has_flag. rewrite Hf. done. Qed.

Lemma run_and_reset c s : flags c = 0 ->
  processCommandAndResetClient run_command feed c s = (resetClient c, exec (argv c) s, true).
Proof.
  intros Hf. unfold processCommandAndResetClient, run_command, commandProcessed.
  rewrite (has_flag_0 c), resetClient_idle by done. done.
Qed.

Lemma parsing_ne c args E : parsing c args E -> E <> [].
Proof. intros [|dn rest ? Hne]; [done|]. by apply expected_ne. Qed.

(** The first byte of a command that starts tells that it is not an inline one. *)
Lemma parsing_reqtype c args E f tail : parsing c args E -> unread c ++ f = E ++ tail -> unread c <> [] ->
  reqtype c <> PROTO_REQ_INLINE /\ ((reqtype c =? 0) = true -> at_ (unread c) 0 = chr "*").
Proof.
  intros Hp Heq Hne. destruct Hp as [_ _ _ Hr|dn rest _ _ _ _ Hr].
  - split; [destruct Hr as [->| ->]; done|]. intros _. destruct (unread c); [done|]. unfold resp_command, len_line in Heq.
    injection Heq as -> _. done.
  - split; [by rewrite Hr|]. by rewrite Hr.
Qed.

Lemma parsing_set_reqtype c args E : parsing c args E ->
  parsing (if reqtype c =? 0 then set_reqtype c PROTO_REQ_MULTIBULK else c) args E.
Proof.
  intros Hp. destruct (Z.eqb_spec (reqtype c) 0) as [Hr|]; [|done]. destruct Hp as [H1 H2 H3 _|dn rest H1 H2 H3 H4 H5].
  - constructor; simpl; auto.
  - rewrite Hr in H5. done.
Qed.

Lemma processInputBuffer_loop_spec sv c cmds f s fuel : client_at c cmds f ->
  Forall (command_ok sv c) cmds -> (length (unread c) < fuel)%nat ->
  exists c' cmds1 cmds2,
    processInputBuffer_loop run_command feed gopher fuel sv c s = Some (c', foldl (fun s a => exec a s) s cmds1, true) /\
    cmds = cmds1 ++ cmds2 /\ client_at c' cmds2 f /\ zlen (querybuf c') <= zlen (querybuf c) /\
    authenticated c' = authenticated c /\ errors c' = errors c /\ (f = [] -> cmds2 = []).
Proof.
  revert c cmds s. induction fuel as [|fuel IH]; intros c cmds s Hat Hok Hf; [lia|].
  destruct Hat as [Hb Hfl (E & Hparse & Heq)]. pose proof (zlen_unread c Hb) as Hzu. cbn [processInputBuffer_loop].
  destruct (Z.ltb_spec (qb_pos c) (zlen (querybuf c))) as [Hmore|Hend]; cbn [negb].
  2: { exists c, [], cmds. split_and!; try done; [split; eauto|]. intros ->. rewrite app_nil_r in Heq.
       assert (unread c = []) as Hu by (apply zlen_eq_nil; pose proof (zlen_nonneg (unread c)); lia). rewrite Hu in Heq.
       destruct cmds as [|args cmds]; [done|]. symmetry in Heq. apply app_eq_nil in Heq as [-> _].
       by apply parsing_ne in Hparse. }
  assert (unread c <> []) as Hne by (intros Hu; rewrite Hu in Hzu; change (zlen []) with 0 in Hzu; lia).
  destruct cmds as [|args cmds].
  { destruct Hparse as (_ & _ & _ & _ & ->). simpl in Heq. apply app_eq_nil in Heq as [? _]. done. }
  simpl drop in Heq. rewrite drop_0 in Heq.
  rewrite !(has_flag_0 c) by done. rewrite andb_false_r.
  destruct (parsing_reqtype c args E f _ Hparse Heq Hne) as [Hni Hstar].
  set (c1 := if reqtype c =? 0 then set_reqtype c (if at_ (unread c) 0 =? chr "*" then _ else _) else c).
  assert (c1 = if reqtype c =? 0 then set_reqtype c PROTO_REQ_MULTIBULK else c) as Hc1.
  { unfold c1. destruct (reqtype c =? 0); [|done]. by rewrite Hstar. }
  pose proof (parsing_set_reqtype c args E Hparse) as Hparse1. rewrite <- Hc1 in Hparse1.
  assert (reqtype c1 = PROTO_REQ_MULTIBULK /\ unread c1 = unread c /\ buf_ok c1 /\ flags c1 = 0 /\
    authenticated c1 = authenticated c /\ errors c1 = errors c /\ querybuf c1 = querybuf c) as (Hr1 & Hu1 & Hb1 & Hf1 & Ha1 & He1 & Hq1).
  { rewrite Hc1. destruct (Z.eqb_spec (reqtype c) 0).
    - split_and!; try done; [by split; apply Hb].
    - split_and!; try done. destruct Hparse as [? ? ? [?|?]|]; congruence. }
  clearbody c1. rewrite Hr1. change (PROTO_REQ_MULTIBULK =? PROTO_REQ_INLINE) with false.
  change (PROTO_REQ_MULTIBULK =? PROTO_REQ_MULTIBULK) with true. cbv iota.
  apply (command_ok_frame sv c c1) in Hok; [|congruence|done]. apply Forall_cons in Hok as [Hcmd Hok].
  rewrite <- Hu1 in Heq.
  destruct (processMultibulkBuffer_spec sv c1 args E f (cmds ≫= resp_command) Hb1 Hcmd Hparse1 Hr1 Heq)
    as (c2 & r & -> & Hfr & Hb2 & Hq2 & Hres).
  simpl_bind. destruct Hfr as [Hfl2 Hau2 Her2 Hrq2 _]. destruct r.
  - destruct Hres as [Hav Hrest]. unfold argc. rewrite Hav. destruct Hcmd as [_ Hn _].
    rewrite (proj2 (Z.eqb_neq (zlen args) 0)) by lia. rewrite (has_flag_0 c2) by congruence.
    rewrite run_and_reset, Hav, resetClient_idle by congruence. cbv beta iota.
    set (c3 := Client _ _ _ _ _ _ _ _ _ _ _ _ _ _ _).
    assert (unread c3 = unread c2) as Hu3 by done.
    destruct (IH c3 cmds (exec args s)) as (c' & cmds1 & cmds2 & -> & -> & Hat' & Hq' & Ha' & He' & Hfin).
    + split; [by split; apply Hb2 | done|]. destruct cmds as [|a cmds].
      * exists []. split_and!; auto.
      * exists (resp_command a). split; [constructor; auto|]. rewrite Hu3, Hrest. by rewrite bind_cons, skipn_cons, drop_0.
    + apply (command_ok_frame sv c1); simpl; congruence.
    + rewrite Hu3. apply (f_equal length) in Heq. apply (f_equal length) in Hrest. rewrite length_app in *.
      apply parsing_ne in Hparse1. destruct E; [done|]. rewrite Hu1 in *. simpl in Heq. rewrite length_app in Heq. lia.
    + exists c', (args :: cmds1), cmds2. simpl in *. split_and!; try done; try congruence. rewrite Hq1 in *. lia.
  - destruct Hres as (E' & Hp' & Heq' & Hlt). exists c2, [], (args :: cmds). split_and!; try done; try congruence.
    + split; [done | congruence |]. exists E'. split; [done|]. by rewrite skipn_cons, drop_0.
    + intros ->. rewrite app_nil_r in Heq'. rewrite Heq', zlen_app in Hlt.
      pose proof (zlen_nonneg (cmds ≫= resp_command)). lia.
Qed.


Lemma client_at_buf c cmds f f' buf pos : client_at c cmds f -> 0 <= pos <= zlen buf -> zlen buf < 2 ^ 62 ->
  drop (Z.to_nat pos) buf ++ f' = unread c ++ f -> client_at (set_buf c buf pos) cmds f'.
Proof.
  intros [_ Hfl (E & Hparse & Heq)] Hp Hl Hu. split; [by split | done|]. exists E.
  change (unread (set_buf c buf pos)) with (drop (Z.to_nat pos) buf). rewrite Hu. split; [|done].
  destruct cmds as [|args cmds]; [done|]. destruct Hparse as [|dn rest ? ? ? [] ?].
  - by constructor.
  - change (bulklen c) with (bulklen (set_buf c buf pos)). by eapply parsing_args.
Qed.

Lemma processInputBuffer_spec sv c cmds f s : client_at c cmds f -> Forall (command_ok sv c) cmds ->
  exists c' cmds1 cmds2,
    processInputBuffer run_command feed gopher sv c s = Some (c', foldl (fun s a => exec a s) s cmds1, true) /\
    cmds = cmds1 ++ cmds2 /\ client_at c' cmds2 f /\ zlen (querybuf c') <= zlen (querybuf c) /\ qb_pos c' = 0 /\
    authenticated c' = authenticated c /\ errors c' = errors c /\ (f = [] -> cmds2 = []).
Proof.
  intros Hat Hok. unfold processInputBuffer.
  destruct (processInputBuffer_loop_spec sv c cmds f s (Datatypes.S (length (querybuf c))) Hat Hok)
    as (c' & cmds1 & cmds2 & -> & Hcmds & Hat' & Hq & Ha & He & Hfin).
  { unfold unread. rewrite length_drop. lia. }
  simpl_bind. cbn [andb]. destruct (Z.eqb_spec (qb_pos c') 0) as [Hz|Hnz]; cbn [negb].
  { exists c', cmds1, cmds2. by split_and!. }
  destruct (at_buf _ _ _ Hat') as [Hp Hl]. pose proof (zlen_unread c' (at_buf _ _ _ Hat')) as Hzu.
  rewrite sdsrange_tail by lia. change (drop (Z.to_nat (qb_pos c')) (querybuf c')) with (unread c').
  pose proof (zlen_nonneg (unread c')).
  exists (set_buf c' (unread c') 0), cmds1, cmds2. simpl. split_and!; try done; [|lia].
  apply (client_at_buf c' cmds2 f f); [done | lia | lia | by rewrite drop_0].
Qed.

(** The pieces that arrive, one call of readQueryFromClient() for each. *)
Fixpoint receive (sv : server_conf) (c : client) (s : S) (chunks : list (list Z)) : option (client * S * bool) :=
  match chunks with
  | [] => Some (c, s, true)
  | data :: chunks =>
      '(c, s, alive) ← readQueryFromClient run_command feed gopher sv c s data;
      if (alive : bool) then receive sv c s chunks else Some (c, s, false)
  end.

Lemma receive_spec sv chunks c cmds s : client_at c cmds (concat chunks) -> qb_pos c = 0 ->
  Forall (command_ok sv c) cmds -> (concat chunks = [] -> cmds = []) ->
  zlen (querybuf c) + zlen (concat chunks) <= client_max_querybuf_len sv ->
  zlen (querybuf c) + zlen (concat chunks) < 2 ^ 62 ->
  exists c', receive sv c s chunks = Some (c', foldl (fun s a => exec a s) s cmds, true) /\
    client_at c' [] [] /\ errors c' = errors c.
Proof.
  revert c cmds s. induction chunks as [|data chunks IH]; intros c cmds s Hat Hpos Hok Hnil Hmax Hbig.
  { rewrite (Hnil eq_refl) in *. by exists c. }
  simpl concat in *. rewrite zlen_app in *. pose proof (zlen_nonneg (concat chunks)). cbn [receive].
  destruct (at_buf _ _ _ Hat) as [Hp Hl]. unfold readQueryFromClient.
  rewrite (has_flag_0 c) by apply Hat. cbv beta iota zeta.
  set (c1 := set_buf c (querybuf c ++ data) (qb_pos c)).
  assert (querybuf c1 = querybuf c ++ data) as Hq1 by done.
  rewrite Hq1, zlen_app, (proj2 (Z.ltb_ge _ _)) by lia.
  assert (client_at c1 cmds (concat chunks)) as Hat1.
  { apply (client_at_buf c cmds (data ++ concat chunks)); [done | rewrite zlen_app; pose proof (zlen_nonneg data); lia |
      rewrite zlen_app; lia |].
    unfold unread. rewrite Hpos, !drop_0. by rewrite <- app_assoc. }
  apply (command_ok_frame sv c c1) in Hok; [|done|done].
  destruct (processInputBuffer_spec sv c1 cmds (concat chunks) s Hat1 Hok)
    as (c2 & cmds1 & cmds2 & -> & -> & Hat2 & Hq2 & Hpos2 & Ha2 & He2 & Hfin).
  simpl_bind. rewrite Hq1, zlen_app in Hq2. apply Forall_app in Hok as [_ Hok].
  destruct (IH c2 cmds2 (foldl (fun s a => exec a s) s cmds1)) as (c' & -> & Hat' & He'); try done; try lia.
  - apply (command_ok_frame sv c1); [|done|done]. by rewrite (at_flags _ _ _ Hat2), (at_flags _ _ _ Hat1).
  - exists c'. rewrite foldl_app. split_and!; [done | done | by rewrite He', He2].
Qed.

(** C18. The parser is independent of how the input is cut: when a client sends a sequence of
    commands in RESP, in pieces of any size (reads may end inside a length, between \r and \n
    or inside an argument, and may hold several commands), exactly these commands are
    executed, in order and once each, with exactly these arguments, whatever bytes they
    contain; no protocol error is reported and nothing is left in the buffer. *)
Theorem resp_stream_executed sv c s cmds chunks :
  concat chunks = cmds ≫= resp_command ->
  flags c = 0 -> querybuf c = [] -> qb_pos c = 0 -> reqtype c = 0 -> argv c = [] -> multibulklen c = 0 -> bulklen c = -1 ->
  Forall (command_ok sv c) cmds ->
  zlen (concat chunks) <= client_max_querybuf_len sv -> zlen (concat chunks) < 2 ^ 62 ->
  exists c', receive sv c s chunks = Some (c', foldl (fun s args => exec args s) s cmds, true) /\
    unread c' = [] /\ argv c' = [] /\ errors c' = errors c.
Proof.
  intros Heq Hfl Hq Hpos Hr Hav Hm Hbl Hok Hmax Hbig.
  destruct (receive_spec sv chunks c cmds s) as (c' & Hrec & [_ _ (E & (_ & _ & Hav' & _ & ->) & Hu)] & He); try done.
  - split; [split; rewrite Hq, ?Hpos; done | done|]. unfold unread. rewrite Hq, drop_nil, Heq.
    destruct cmds as [|args cmds].
    + exists []. split_and!; auto.
    + exists (resp_command args). split; [by constructor; auto|]. by rewrite skipn_cons, drop_0.
  - intros Hc. rewrite Hc in Heq. destruct cmds as [|args cmds]; done.
  - by rewrite Hq.
  - by rewrite Hq.
  - rewrite app_nil_r in Hu. exists c'. by split_and!.
Qed.

End stream.

(** ** Example *)

Definition demo_conf : server_conf := ServerConf (512 * 1024 * 1024) (1024 * 1024 * 1024) true false 0 false false false.
Definition demo_client : client := Client [] 0 [] 0 [] 0 None 0 (-1) 0 true 0 0 0 [].

(** "PING" and "GET a", cut inside the length and inside the argument. *)
Lemma resp_stream_executed_witness : exists c',
  receive (fun args log => log ++ [args]) (fun s _ _ => s) (fun c s => (c, s)) demo_conf demo_client []
    [ [42; 49; 13]; [10; 36; 52; 13; 10; 80]; [73; 78; 71; 13; 10; 42; 50; 13; 10; 36; 51];
      [13; 10; 71; 69; 84; 13; 10; 36; 49; 13; 10; 97; 13]; [10] ]
  = Some (c', [ [str "PING"]; [str "GET"; str "a"] ], true).
Proof.
  destruct (resp_stream_executed (fun args log => log ++ [args]) (fun s _ _ => s) (fun c s => (c, s)) demo_conf demo_client []
    [ [str "PING"]; [str "GET"; str "a"] ]
    [ [42; 49; 13]; [10; 36; 52; 13; 10; 80]; [73; 78; 71; 13; 10; 42; 50; 13; 10; 36; 51];
      [13; 10; 71; 69; 84; 13; 10; 36; 49; 13; 10; 97; 13]; [10] ]) as (c' & Hc' & _); try (vm_compute; reflexivity).
  - repeat (apply Forall_cons_2; [split; [|vm_compute; split; [reflexivity | discriminate]|by right]|]); [..|apply Forall_nil_2];
      repeat (apply Forall_cons_2; [split_and!; [vm_compute; reflexivity | intros _; vm_compute; discriminate | by right]|]);
      apply Forall_nil_2.
  - vm_compute. discriminate.
  - exists c'. exact Hc'.
Defined.
