(* ===== verification/NetworkingSafety.v ===== *)
(** * Robustness of the request parser

    What processInputBuffer() of src/redis-stable/src/networking.c does on arbitrary bytes:
    no assertion fails, every loop ends, and after a protocol error nothing is executed. *)
From S2P Require Import Prelude.
From S2P Require Import Util.
From S2P Require Import Sds.
From S2P Require Import Networking.

(** ** Arbitrary input *)

(** The invariant of the parsing state of a client. *)
Record proto_ok (c : client) : Prop := {
  proto_buf : buf_ok c;
  proto_lens : 0 <= multibulklen c /\ -1 <= bulklen c;
  proto_idle : multibulklen c = 0 -> argv c = [] /\ bulklen c = -1;
  proto_type : (reqtype c = 0 \/ reqtype c = PROTO_REQ_INLINE) /\ multibulklen c = 0 \/
    reqtype c = PROTO_REQ_MULTIBULK /\ (multibulklen c = 0 -> at_ (unread c) 0 = chr "*");
}.

(** A command was parsed: the client is [c'] and its buffer advanced. *)
Record parsed (c c' : client) : Prop := {
  parsed_buf : buf_ok c';
  parsed_progress : (length (unread c') < length (unread c))%nat;
  parsed_flags : flags c' = flags c;
}.

Lemma strchr_range s ch i : strchr s ch = Some i -> 0 <= i < zlen s.
Proof.
  revert i. induction s as [|c s IH]; intros i; simpl strchr; [done|]. rewrite zlen_cons. pose proof (zlen_nonneg s).
  case_match; [intros [= <-]; lia|]. case_match; [done|].
  destruct (strchr s ch) as [j|]; simpl; [|done]. intros [= <-]. specialize (IH j eq_refl). lia.
Qed.

Lemma buf_ok_advance c n : buf_ok c -> 0 < n <= zlen (unread c) ->
  buf_ok (set_buf c (querybuf c) (qb_pos c + n)) /\
  (length (unread (set_buf c (querybuf c) (qb_pos c + n))) < length (unread c))%nat.
Proof.
  intros Hb Hn. pose proof (zlen_unread c Hb) as Hl. destruct Hb as [Hp Hq]. split; [split; simpl; lia|].
  unfold unread, zlen in *. simpl. rewrite !length_drop in *. lia.
Qed.

(** A protocol error leaves the parsing state as it is. *)
Lemma proto_ok_error c m : proto_ok c -> proto_ok (protocol_error c m).
Proof. intros [[] H1 H2 H3]. by split. Qed.

Lemma processInlineBuffer_total sv c : proto_ok c -> reqtype c = PROTO_REQ_INLINE ->
  exists c' r, processInlineBuffer sv c = Some (c', r) /\
    match r with C_OK => parsed c c' | C_ERR => proto_ok c' end.
Proof.
  intros Hc Hr. unfold processInlineBuffer. pose proof (zlen_unread c (proto_buf _ Hc)) as Hl.
  destruct (strchr (unread c) LF) as [nl|] eqn:Hs.
  2: { case_match; eexists _, _; (split; [done|]); [by apply proto_ok_error | done]. }
  apply strchr_range in Hs. set (p := if negb (nl =? 0) && _ then (nl - 1, 2) else (nl, 1)).
  assert (0 <= p.1 /\ 0 < p.1 + p.2 <= zlen (unread c)) as [Hp1 Hp2] by (unfold p; case_match; simpl; lia).
  destruct p as [newline lf]. simpl in *.
  destruct (sdssplitargs_loop_total (Datatypes.S (length (sub_ (unread c) 0 newline))) (sub_ (unread c) 0 newline) [])
    as [r Hsplit]; [lia|].
  unfold sdssplitargs. rewrite Hsplit. simpl_bind. destruct r as [args|].
  2: { eexists _, _. split; [done|]. by apply proto_ok_error. }
  set (c1 := if (newline =? 0) && _ && _ && _ then set_ack_time c (unixtime sv) else c).
  assert (proto_ok c1 /\ unread c1 = unread c /\ flags c1 = flags c) as (Hc1 & Hu1 & Hf1).
  { unfold c1. case_match; [|done]. destruct Hc as [[] H1 H2 H3]. by split. }
  clearbody c1. case_match.
  - eexists _, _. split; [done|]. destruct Hc1 as [[] H1 H2 H3]. by split.
  - eexists _, _. split; [done|]. rewrite <- Hu1 in Hp2. destruct (buf_ok_advance c1 _ (proto_buf _ Hc1) Hp2) as [[? ?] Hlt].
    split; [by split | | done]. change (unread (set_argv ?x _ _)) with (unread x). by rewrite Hu1 in Hlt.
Qed.

Lemma read_bulklen_total sv c : buf_ok c ->
  match read_bulklen sv c with
  | inl None => True
  | inl (Some c') => exists m, c' = protocol_error c m
  | inr c' => buf_ok c' /\ argv c' = argv c /\ multibulklen c' = multibulklen c /\ 0 <= bulklen c' /\
      reqtype c' = reqtype c /\ (length (unread c') < length (unread c))%nat /\ flags c' = flags c
  end.
Proof.
  intros Hb. unfold read_bulklen. pose proof (zlen_unread c Hb) as Hl.
  destruct (strchr (unread c) CR) as [nl|] eqn:Hs; [|destruct (_ <? _); [by eexists | done]].
  apply strchr_range in Hs. destruct (Z.ltb_spec (zlen (querybuf c) - qb_pos c - 2) nl); [done|].
  destruct (negb _); [by eexists|]. destruct (string2ll _) as [z|]; [|by eexists].
  destruct ((z <? 0) || _) eqn:Hneg; [by eexists|]. destruct ((16384 <? z) && _); [by eexists|].
  destruct (buf_ok_advance c (nl + 2) Hb) as [Hb1 Hlt]; [lia|].
  replace (qb_pos c + (nl + 2)) with (qb_pos c + nl + 2) in * by lia.
  set (c1 := set_buf c (querybuf c) _) in *. cbv zeta.
  assert (0 <= z) by lia. destruct ((PROTO_MBULK_BIG_ARG <=? z) && _).
  - pose proof (pos_ok _ Hb1). pose proof (len_ok _ Hb1). pose proof (zlen_unread c1 Hb1).
    rewrite sdsrange_tail by lia. change (drop (Z.to_nat (qb_pos c1)) (querybuf c1)) with (unread c1).
    pose proof (zlen_nonneg (unread c1)). split_and!; try done. split; simpl; lia.
  - split_and!; try done. by split; apply Hb1.
Qed.

Lemma multibulk_loop_total fuel sv c : buf_ok c -> 0 <= multibulklen c -> -1 <= bulklen c ->
  reqtype c = PROTO_REQ_MULTIBULK -> multibulklen c < Z.of_nat fuel ->
  exists c' r, multibulk_loop fuel sv c = Some (c', r) /\ (length (unread c') <= length (unread c))%nat /\
    match r with
    | C_OK => buf_ok c' /\ (multibulklen c <> 0 -> (length (unread c') < length (unread c))%nat) /\ flags c' = flags c
    | C_ERR => proto_ok c'
    end.
Proof.
  revert c. induction fuel as [|fuel IH]; intros c Hb Hm Hbl Hr Hf; cbn [multibulk_loop]; [lia|].
  destruct (Z.eqb_spec (multibulklen c) 0) as [Hz|Hnz].
  { exists c, C_OK. by split_and!. }
  assert (forall m, proto_ok (protocol_error c m)) as Herr.
  { intros m. split; simpl; [by split; apply Hb | lia | lia | right; split; [done | lia]]. }
  assert (proto_ok c) as Hc by (split; [done | lia | lia | right; split; [done | lia]]).
  set (r := if bulklen c =? -1 then read_bulklen sv c else inr c).
  assert (match r with
    | inl None => True
    | inl (Some c') => exists m, c' = protocol_error c m
    | inr c' => buf_ok c' /\ multibulklen c' = multibulklen c /\ 0 <= bulklen c' /\
        reqtype c' = reqtype c /\ (length (unread c') <= length (unread c))%nat /\ flags c' = flags c
    end) as Hread.
  { unfold r. destruct (Z.eqb_spec (bulklen c) (-1)).
    - pose proof (read_bulklen_total sv c Hb) as Ht. destruct (read_bulklen sv c) as [[|]|c1]; [done..|].
      destruct Ht as (? & _ & ? & ? & ? & ? & ?). split_and!; try done. lia.
    - split_and!; try done. lia. }
  destruct r as [[c1|]|c1].
  { destruct Hread as [m ->]. eexists _, C_ERR. split_and!; try done. }
  { exists c, C_ERR. by split_and!. }
  destruct Hread as (Hb1 & Hm1 & Hbl1 & Hr1 & Hle1 & Hfl1). pose proof (zlen_unread c1 Hb1) as Hzu.
  destruct (Z.ltb_spec (zlen (querybuf c1) - qb_pos c1) (bulklen c1 + 2)).
  { exists c1, C_ERR. split_and!; try done. split; [done | lia | lia | right; split; [congruence | lia]]. }
  cbv zeta. set (c2 := if _ && _ && _ then set_buf _ [] _ else _).
  assert (buf_ok c2 /\ multibulklen c2 = multibulklen c1 /\ reqtype c2 = reqtype c1 /\
    (length (unread c2) < length (unread c1))%nat /\ flags c2 = flags c1) as (Hb2 & Hm2 & Hr2 & Hlt2 & Hfl2).
  { unfold c2. case_match.
    - split_and!; try done; [split; simpl; change (zlen []) with 0; lia|]. unfold unread at 1. simpl. rewrite drop_nil.
      unfold zlen in *. simpl. lia.
    - destruct (buf_ok_advance c1 (bulklen c1 + 2) Hb1) as [[] Hlt]; [lia|]. split_and!; try done. }
  destruct (IH (set_lens c2 (multibulklen c2 - 1) (-1))) as (c' & r' & -> & Hle' & Hres); simpl; try lia; try congruence.
  { by split; apply Hb2. }
  change (unread (set_lens c2 (multibulklen c2 - 1) (-1))) with (unread c2) in Hle'.
  exists c', r'. split_and!; [done | lia|]. destruct r'; [|done]. destruct Hres as (? & _ & Hfl).
  split_and!; [done | lia | simpl in Hfl; congruence].
Qed.

Lemma processMultibulkBuffer_total sv c : proto_ok c -> reqtype c = PROTO_REQ_MULTIBULK -> unread c <> [] ->
  exists c' r, processMultibulkBuffer sv c = Some (c', r) /\
    match r with C_OK => parsed c c' | C_ERR => proto_ok c' end.
Proof.
  intros Hc Hr Hne. pose proof (proto_buf _ Hc) as Hb. destruct (proto_lens _ Hc) as [Hm Hbl].
  unfold processMultibulkBuffer. pose proof (zlen_unread c Hb) as Hl.
  destruct (Z.eqb_spec (multibulklen c) 0) as [Hz|Hnz].
  - destruct (proto_idle _ Hc Hz) as [Hav Hb1]. unfold argc. rewrite Hav. change (negb (zlen [] =? 0)) with false. cbv iota.
    destruct (strchr (unread c) CR) as [nl|] eqn:Hs.
    2: { case_match; eexists _, _; (split; [done|]); [by apply proto_ok_error | done]. }
    apply strchr_range in Hs. destruct (Z.ltb_spec (zlen (querybuf c) - qb_pos c - 2) nl).
    { by eexists _, C_ERR. }
    destruct (proto_type _ Hc) as [[[Ht|Ht] _]|[_ Hstar]]; [by rewrite Hr in Ht..|].
    rewrite (Hstar Hz). change (negb (chr "*" =? chr "*")) with false. cbv iota.
    case_match; [|eexists _, C_ERR; (split; [done|]); by apply proto_ok_error].
    case_match; [eexists _, C_ERR; (split; [done|]); by apply proto_ok_error|].
    case_match; [eexists _, C_ERR; (split; [done|]); by apply proto_ok_error|].
    destruct (buf_ok_advance c (nl + 2) Hb) as [Hb2 Hlt]; [lia|].
    replace (qb_pos c + (nl + 2)) with (qb_pos c + nl + 2) in * by lia.
    set (c1 := set_buf c (querybuf c) _) in *. cbv zeta. destruct (Z.leb_spec z 0).
    { exists c1, C_OK. by split. }
    destruct (multibulk_loop_total (Datatypes.S (Z.to_nat z)) sv (set_lens (set_argv c1 [] 0) z (bulklen c1)))
      as (c' & r & -> & Hle & Hres); try done; simpl; try lia.
    { by split; apply Hb2. }
    change (unread (set_lens (set_argv c1 [] 0) z (bulklen c1))) with (unread c1) in *.
    exists c', r. split; [done|]. destruct r; [|done]. split; [apply Hres | lia | apply Hres].
  - rewrite (proj2 (Z.ltb_ge (multibulklen c) 0)) by lia.
    destruct (multibulk_loop_total (Datatypes.S (Z.to_nat (multibulklen c))) sv c) as (c' & r & -> & Hle & Hres);
      try done; try lia.
    exists c', r. split; [done|]. destruct r; [|done]. split; [apply Hres | by apply Hres | apply Hres].
Qed.

Section input.
Context {S : Type} (exec : list (list Z) -> S -> S).
Context (feed : S -> list Z -> Z -> S) (gopher : client -> S -> client * S).

(** resetClient() makes the client ready for the next command. *)
Lemma resetClient_fields c : exists fl, resetClient c =
  Client (querybuf c) (qb_pos c) (pending_querybuf c) 0 [] 0 None 0 (-1) fl
    (authenticated c) (reploff c) (read_reploff c) (repl_ack_time c) (errors c).
Proof.
  unfold resetClient. set (c0 := Client _ _ _ _ _ _ _ _ _ _ _ _ _ _ _).
  assert (forall b c f, (if b : bool then set_flags c f else c) = set_flags c (if b then f else flags c)) as Hif
    by (by intros [] [] ?).
  cbv zeta. rewrite !Hif. by eexists.
Qed.

Lemma resetClient_ok c : buf_ok c -> proto_ok (resetClient c) /\ unread (resetClient c) = unread c.
Proof.
  intros []. destruct (resetClient_fields c) as [fl ->]. split; [|done]. split; simpl; try done; by left; auto.
Qed.

Lemma set_repl_ok c o p : proto_ok c -> proto_ok (set_repl c o p) /\ unread (set_repl c o p) = unread c.
Proof. intros [[] H1 H2 H3]. by split. Qed.

Lemma run_and_reset_ok c s : buf_ok c -> has_flag c CLIENT_BLOCKED = false ->
  exists c' s', processCommandAndResetClient (run_command exec) feed c s = (c', s', true) /\ proto_ok c' /\
    unread c' = unread c.
Proof.
  intros Hb Hbl. unfold processCommandAndResetClient, run_command, commandProcessed. rewrite Hbl.
  destruct (resetClient_ok c Hb) as [Hok Hu]. rewrite <- Hu. cbv zeta. generalize dependent (resetClient c).
  intros c1 Hok _.
  repeat case_match; simplify_eq; eexists _, _; (split; [done|]); try done; try by apply set_repl_ok.
  split; [by apply set_repl_ok, set_repl_ok | done].
Qed.

Lemma set_reqtype_ok c : proto_ok c -> 
  let c1 := if reqtype c =? 0 then
      set_reqtype c (if at_ (unread c) 0 =? chr "*" then PROTO_REQ_MULTIBULK else PROTO_REQ_INLINE) else c in
  proto_ok c1 /\ unread c1 = unread c /\ flags c1 = flags c /\
  (reqtype c1 = PROTO_REQ_INLINE \/ reqtype c1 = PROTO_REQ_MULTIBULK).
Proof.
  intros Hc. cbv zeta. destruct (Z.eqb_spec (reqtype c) 0) as [Hr|Hr].
  - split_and!; try done; [|simpl; case_match; auto]. destruct Hc as [[] H1 H2 H3].
    assert (multibulklen c = 0) as Hm by (destruct H3 as [[_ ?]|[? _]]; [done | by rewrite Hr in *]).
    split; simpl; try done. destruct (Z.eqb_spec (at_ (unread c) 0) (chr "*")); [by right | left; auto].
  - split_and!; try done. destruct (proto_type _ Hc) as [[[?|?] _]|[? _]]; auto. done.
Qed.

Lemma processInputBuffer_loop_total fuel sv c s : proto_ok c -> gopher_enabled sv = false ->
  (length (unread c) < fuel)%nat ->
  exists c' s', processInputBuffer_loop (run_command exec) feed gopher fuel sv c s = Some (c', s', true) /\
    buf_ok c' /\ (has_flag c' CLIENT_PENDING_COMMAND = true \/ proto_ok c').
Proof.
  intros Hc Hg. revert c s Hc. induction fuel as [|fuel IH]; intros c s Hc Hf; [lia|]. cbn [processInputBuffer_loop].
  pose proof (zlen_unread c (proto_buf _ Hc)) as Hzu. pose proof (proto_buf _ Hc) as Hb.
  destruct (Z.ltb_spec (qb_pos c) (zlen (querybuf c))) as [Hmore|Hend]; cbn [negb]; [|by eauto 6].
  assert (unread c <> []) as Hne by (intros Hu; rewrite Hu in Hzu; change (zlen []) with 0 in Hzu; lia).
  destruct (has_flag c CLIENT_BLOCKED) eqn:Hbl; [by eauto 6|].
  destruct (has_flag c CLIENT_PENDING_COMMAND); [by eauto 6|].
  destruct (lua_timedout sv && _); [by eauto 6|].
  destruct (has_flag c (Z.lor CLIENT_CLOSE_AFTER_REPLY CLIENT_CLOSE_ASAP)); [by eauto 6|].
  destruct (set_reqtype_ok c Hc) as (Hc1 & Hu1 & Hf1 & Hr1). cbv zeta in *.
  set (c1 := if reqtype c =? 0 then _ else c) in *. clearbody c1.
  (** executing what was parsed *)
  assert (forall c2, parsed c1 c2 -> exists c' s',
    (if argc c2 =? 0 then processInputBuffer_loop (run_command exec) feed gopher fuel sv (resetClient c2) s
     else if has_flag c2 CLIENT_PENDING_READ
     then Some (set_flags c2 (Z.lor (flags c2) CLIENT_PENDING_COMMAND), s, true)
     else let '(c, s, alive) := processCommandAndResetClient (run_command exec) feed c2 s in
          if (alive : bool) then processInputBuffer_loop (run_command exec) feed gopher fuel sv c s
          else Some (c, s, false)) = Some (c', s', true) /\
    buf_ok c' /\ (has_flag c' CLIENT_PENDING_COMMAND = true \/ proto_ok c')) as Hexec.
  { intros c2 [Hb2 Hlt Hfl2]. destruct (resetClient_ok c2 Hb2) as [Hrc Hru]. destruct (argc c2 =? 0).
    { apply IH; [done|]. rewrite Hru. rewrite Hu1 in Hlt. lia. }
    destruct (has_flag c2 CLIENT_PENDING_READ).
    { eexists _, _. split_and!; [done | by split; apply Hb2|]. left. unfold has_flag. simpl.
      apply negb_true_iff, Z.eqb_neq. rewrite Z.land_lor_distr_l, Z.land_diag. unfold CLIENT_PENDING_COMMAND. simpl.
      intros Hz. apply Z.lor_eq_0_iff in Hz as [_ Hz]. done. }
    destruct (run_and_reset_ok c2 s Hb2) as (c3 & s3 & -> & Hc3 & Hu3).
    { unfold has_flag in *. by rewrite Hfl2, Hf1. }
    apply IH; [done|]. rewrite Hu3. rewrite Hu1 in Hlt. lia. }
  destruct Hr1 as [Hr1|Hr1]; rewrite Hr1.
  - change (PROTO_REQ_INLINE =? PROTO_REQ_INLINE) with true. cbv iota.
    destruct (processInlineBuffer_total sv c1 Hc1 Hr1) as (c2 & r & -> & Hres). simpl_bind.
    destruct r; [|exists c2, s; split_and!; [done | by apply proto_buf | by right]]. rewrite Hg. cbn [andb]. by apply Hexec.
  - change (PROTO_REQ_MULTIBULK =? PROTO_REQ_INLINE) with false.
    change (PROTO_REQ_MULTIBULK =? PROTO_REQ_MULTIBULK) with true. cbv iota.
    destruct (processMultibulkBuffer_total sv c1 Hc1 Hr1) as (c2 & r & -> & Hres); [by rewrite Hu1|]. simpl_bind.
    destruct r; [by apply Hexec | exists c2, s; split_and!; [done | by apply proto_buf | by right]].
Qed.

(** C19. Whatever bytes a client sends, the parser is robust: no assertion of it fails and its
    loops end; the state it leaves is one from which the next read can be processed, or a
    complete command that waits for the main thread (CLIENT_PENDING_COMMAND). *)
Theorem processInputBuffer_total sv c s data : proto_ok c -> gopher_enabled sv = false ->
  zlen (querybuf c) + zlen data < 2 ^ 62 ->
  exists c' s', readQueryFromClient (run_command exec) feed gopher sv c s data = Some (c', s', true) /\
    (has_flag c' CLIENT_PENDING_COMMAND = true \/ proto_ok c').
Proof.
  intros Hc Hg Hlen. unfold readQueryFromClient.
  set (c1 := if has_flag c CLIENT_MASTER then set_repl c _ _ else c).
  assert (proto_ok c1 /\ unread c1 = unread c /\ querybuf c1 = querybuf c /\ qb_pos c1 = qb_pos c /\
    multibulklen c1 = multibulklen c /\ reqtype c1 = reqtype c) as (Hc1 & Hu1 & Hq1 & Hp1 & Hm1 & Hr1).
  { unfold c1. case_match; [|done]. split; [by apply set_repl_ok | done]. }
  clearbody c1. cbv zeta.
  set (c2 := set_buf c1 (querybuf c1 ++ data) (qb_pos c1)).
  pose proof (zlen_nonneg data). destruct (proto_buf _ Hc) as [Hpos Hql].
  assert (unread c2 = unread c ++ data) as Hu2.
  { unfold c2, unread. simpl. rewrite Hq1, Hp1. apply drop_app_le. unfold zlen in Hpos. lia. }
  assert (proto_ok c2) as Hc2.
  { destruct Hc1 as [[] H1 H2 H3]. split; [split; simpl; rewrite ?zlen_app, Hq1, ?Hp1; lia | done | done|].
    destruct H3 as [H3|[H3 H4]]; [by left|]. right. split; [done|]. intros Hz. rewrite Hu2.
    rewrite Hu1 in H4. specialize (H4 Hz). by destruct (unread c). }
  set (c3 := if has_flag c CLIENT_MASTER then set_read_reploff c2 _ else c2).
  assert (proto_ok c3) as Hc3.
  { unfold c3. case_match; [|done]. destruct Hc2 as [[] H1 H2 H3]. by split. }
  clearbody c3. clear c2 Hu2 Hc2. destruct (_ <? _).
  { eexists _, _. split; [done|]. right. unfold freeClientAsync. case_match; [done|].
    destruct Hc3 as [[] H1 H2 H3]. by split. }
  unfold processInputBuffer.
  destruct (processInputBuffer_loop_total (Datatypes.S (length (querybuf c3))) sv c3 s Hc3 Hg) as (c' & s' & -> & Hb' & Hok).
  { unfold unread. rewrite length_drop. lia. }
  simpl_bind. cbn [andb]. destruct (Z.eqb_spec (qb_pos c') 0); cbn [negb]; [by eauto|].
  destruct Hb' as [Hp' Hl']. rewrite sdsrange_tail by lia.
  eexists _, _. split; [done|]. destruct Hok as [?|[_ H1 H2 H3]]; [by left|]. right.
  pose proof (zlen_unread c' ltac:(by split)) as Hzu. unfold unread in Hzu, H3.
  split; [split; simpl; [pose proof (zlen_nonneg (drop (Z.to_nat (qb_pos c')) (querybuf c')))|]; lia | done | done|].
  destruct H3 as [H3|[H3 H4]]; [by left|]. right. split; [done|]. unfold unread. simpl. by rewrite drop_0.
Qed.

Lemma closing_flag c : has_flag (setProtocolError c) (Z.lor CLIENT_CLOSE_AFTER_REPLY CLIENT_CLOSE_ASAP) = true.
Proof.
  unfold has_flag. simpl. apply negb_true_iff, Z.eqb_neq. rewrite Z.land_lor_distr_l.
  intros Hz. apply Z.lor_eq_0_iff in Hz as [_ Hz]. done.
Qed.

(** After a protocol error nothing more is executed: the bytes that still arrive on the
    connection change the buffer only. *)
Theorem protocol_error_stops sv c s msg :
  exists c', processInputBuffer (run_command exec) feed gopher sv (protocol_error c msg) s = Some (c', s, true).
Proof.
  unfold processInputBuffer. set (c1 := protocol_error c msg).
  assert (processInputBuffer_loop (run_command exec) feed gopher (Datatypes.S (length (querybuf c1))) sv c1 s
    = Some (c1, s, true)) as ->.
  { cbn [processInputBuffer_loop]. destruct (negb _); [done|]. do 3 (case_match; [done|]).
    unfold c1 at 1, protocol_error. by rewrite closing_flag. }
  simpl_bind. case_match; by eexists.
Qed.

End input.

(** ** Examples *)

Lemma demo_client_ok : proto_ok demo_client.
Proof. split; [split; done | done | done | left; auto]. Qed.

Lemma processInputBuffer_total_witness : exists c' s',
  readQueryFromClient (run_command (fun args log => log ++ [args])) (fun s _ _ => s) (fun c s => (c, s))
    demo_conf demo_client [] [42; 45; 0; 255; 13; 10; 36] = Some (c', s', true) /\
  (has_flag c' CLIENT_PENDING_COMMAND = true \/ proto_ok c').
Proof.
  apply processInputBuffer_total; [apply demo_client_ok | reflexivity | vm_compute; reflexivity].
Defined.
