(* ===== verification/Watch.v ===== *)
(** * Watched keys (src/redis-stable/src/multi.c, server.h, db.c)

    The state of the server as far as transactions and the keyspace are concerned, and the
    WATCH half of multi.c. The clients and the databases point to each other: a database has,
    for every watched key, the list of the clients that watch it, and a client has the list
    of the keys it watches. Clients are therefore designated by their index in a store and
    databases by their index in the array server.db, as pointers do. Hash tables are finite
    maps, which is what the file Dict shows of them. A result [None] is a failed assertion or
    a NULL dereference. *)
From S2P Require Import Prelude.

(** ** State *)

Definition CMD_READONLY : Z := Z.shiftl 1 1.
Definition CLIENT_MULTI : Z := Z.shiftl 1 3.
Definition CLIENT_BLOCKED : Z := Z.shiftl 1 4.
Definition CLIENT_DIRTY_CAS : Z := Z.shiftl 1 5.
Definition CLIENT_DIRTY_EXEC : Z := Z.shiftl 1 12.
Definition CLIENT_DENY_BLOCKING : Z := Z.shiftl 1 41.

(** The procedures that transactions treat specially, and the others, by the name of their command. *)
Inductive proc :=
| execCommand_
| discardCommand_
| multiCommand_
| watchCommand_
| resetCommand_
| unwatchCommand_
| otherCommand_ (name : list Z).

#[export] Instance proc_eq_dec : EqDecision proc.
Proof. solve_decision. Defined.

Record redisCommand := RedisCommand { cproc : proc; cflags : Z; arity : Z }.

Record multiCmd := MultiCmd { mc_argv : list (list Z); mc_cmd : redisCommand }.

Inductive reply :=
| ReplyOk
| ReplyQueued
| ReplyNullArray
| ReplyArrayLen (n : Z)
| ReplyLongLong (n : Z)
| ReplyBulk (s : list Z)
| ReplyNull
| ReplyStatus (s : list Z)
| ReplyError (msg : list Z).

Record client := Client {
  flags : Z;
  cdb : nat;                          (** c->db *)
  argv : list (list Z);
  cmd : redisCommand;
  commands : list multiCmd;           (** c->mstate.commands; its length is count *)
  cmd_flags : Z;                      (** c->mstate.cmd_flags *)
  cmd_inv_flags : Z;
  watched_keys : list (nat * list Z); (** the database and the key *)
  replies : list reply;
}.

(** The scalar fields of the global [server]. *)
Record globals := Globals {
  loading : bool;
  lua_caller : bool;                 (** server.lua_caller != NULL *)
  lua_time_snapshot : Z;
  fixed_time_expire : Z;
  cached_mstime : Z;                 (** server.mstime *)
  mstime : Z;                        (** what mstime() returns now *)
  masterhost : bool;                 (** server.masterhost != NULL *)
  master : option nat;               (** server.master *)
  current_client : option nat;
  clients_paused : bool;             (** server.client_pause_type != CLIENT_PAUSE_OFF *)
  client_pause_end_time : Z;
  lazyfree_lazy_expire : bool;
  lazyfree_lazy_server_del : bool;
  stat_expiredkeys : Z;
  stat_keyspace_hits : Z;
  stat_keyspace_misses : Z;
  propagated_dels : list (nat * list Z);  (** the DEL and UNLINK sent to the AOF and the replicas for expired keys *)
  repl_backlog : bool;               (** server.repl_backlog != NULL *)
  backlog_exec : Z;                  (** how often EXEC was fed to the backlog *)
  propagate_in_transaction : bool;
  in_exec : bool;
  dirty : Z;
}.

Definition has_flag (c : client) (f : Z) : bool := negb (Z.land (flags c) f =? 0).

Definition set_flags (c : client) (f : Z) : client :=
  Client f (cdb c) (argv c) (cmd c) (commands c) (cmd_flags c) (cmd_inv_flags c) (watched_keys c) (replies c).

Definition set_cdb (c : client) (d : nat) : client :=
  Client (flags c) d (argv c) (cmd c) (commands c) (cmd_flags c) (cmd_inv_flags c) (watched_keys c) (replies c).

Definition set_mstate (c : client) (q : list multiCmd) (f i : Z) : client :=
  Client (flags c) (cdb c) (argv c) (cmd c) q f i (watched_keys c) (replies c).

Definition set_watched (c : client) (w : list (nat * list Z)) : client :=
  Client (flags c) (cdb c) (argv c) (cmd c) (commands c) (cmd_flags c) (cmd_inv_flags c) w (replies c).

Definition set_cmd (c : client) (a : list (list Z)) (m : redisCommand) : client :=
  Client (flags c) (cdb c) a m (commands c) (cmd_flags c) (cmd_inv_flags c) (watched_keys c) (replies c).

Definition addReply (c : client) (r : reply) : client :=
  Client (flags c) (cdb c) (argv c) (cmd c) (commands c) (cmd_flags c) (cmd_inv_flags c) (watched_keys c) (replies c ++ [r]).

Section state.
Context {V : Type}.   (** the values *)

Record redisDb := RedisDb {
  dict : gmap (list Z) V;
  expires : gmap (list Z) Z;
  db_watched_keys : gmap (list Z) (list nat);  (** the clients that watch the key *)
}.

Record server := Server {
  clients : gmap nat client;
  dbs : list redisDb;                (** server.db, of length server.dbnum *)
  globs : globals;
}.

Definition set_globs (s : server) (g : globals) : server := Server (clients s) (dbs s) g.

(** Change client [ci]. *)
Definition upd (s : server) (ci : nat) (f : client -> client) : option server :=
  c ← clients s !! ci; Some (Server (<[ci := f c]> (clients s)) (dbs s) (globs s)).

(** Change database [d]. *)
Definition upd_db (s : server) (d : nat) (f : redisDb -> redisDb) : option server :=
  db ← dbs s !! d; Some (Server (clients s) (<[d := f db]> (dbs s)) (globs s)).

Definition set_watchers (db : redisDb) (w : gmap (list Z) (list nat)) : redisDb :=
  RedisDb (dict db) (expires db) w.

(** ** Expiration (db.c) *)

Definition getExpire (db : redisDb) (key : list Z) : option Z :=
  match expires db !! key with
  | None => Some (-1)
  | Some when => match dict db !! key with None => None | Some _ => Some when end
  end.

Definition keyIsExpired (s : server) (d : nat) (key : list Z) : option bool :=
  db ← dbs s !! d;
  when ← getExpire db key;
  if when <? 0 then Some false
  else if loading (globs s) then Some false
  else
    let now := if lua_caller (globs s) then lua_time_snapshot (globs s)
               else if 0 <? fixed_time_expire (globs s) then cached_mstime (globs s)
               else mstime (globs s) in
    Some (when <? now).

(** ** Watching keys *)

Definition watchForKey (s : server) (ci : nat) (key : list Z) : option server :=
  c ← clients s !! ci;
  if bool_decide ((cdb c, key) ∈ watched_keys c) then Some s
  else
    s ← upd_db s (cdb c) (fun db =>
          let l := default [] (db_watched_keys db !! key) in
          set_watchers db (<[key := l ++ [ci]]> (db_watched_keys db)));
    upd s ci (fun c => set_watched c (watched_keys c ++ [(cdb c, key)])).

(** listDelNode(clients,listSearchKey(clients,c)) *)
Fixpoint list_del (ci : nat) (l : list nat) : option (list nat) :=
  match l with
  | [] => None
  | x :: l => if bool_decide (x = ci) then Some l else l ← list_del ci l; Some (x :: l)
  end.

(** One turn of the loop of unwatchAllKeys(). *)
Definition unwatch_key (s : server) (ci : nat) (wk : nat * list Z) : option server :=
  let '(d, key) := wk in
  db ← dbs s !! d;
  l ← db_watched_keys db !! key;
  l ← list_del ci l;
  s ← upd_db s d (fun db =>
        set_watchers db (match l with
                         | [] => delete key (db_watched_keys db)
                         | _ => <[key := l]> (db_watched_keys db)
                         end));
  upd s ci (fun c => set_watched c (drop 1 (watched_keys c))).

Fixpoint unwatch_keys (s : server) (ci : nat) (wks : list (nat * list Z)) : option server :=
  match wks with
  | [] => Some s
  | wk :: wks => s ← unwatch_key s ci wk; unwatch_keys s ci wks
  end.

Definition unwatchAllKeys (s : server) (ci : nat) : option server :=
  c ← clients s !! ci; unwatch_keys s ci (watched_keys c).

Fixpoint any_expired (s : server) (wks : list (nat * list Z)) : option bool :=
  match wks with
  | [] => Some false
  | (d, key) :: wks =>
      e ← keyIsExpired s d key;
      if (e : bool) then Some true else any_expired s wks
  end.

Definition isWatchedKeyExpired (s : server) (ci : nat) : option bool :=
  c ← clients s !! ci; any_expired s (watched_keys c).

(** c->flags |= CLIENT_DIRTY_CAS for the clients of a list *)
Fixpoint mark_dirty (s : server) (cis : list nat) : option server :=
  match cis with
  | [] => Some s
  | ci :: cis => s ← upd s ci (fun c => set_flags c (Z.lor (flags c) CLIENT_DIRTY_CAS)); mark_dirty s cis
  end.

Definition touchWatchedKey (s : server) (d : nat) (key : list Z) : option server :=
  db ← dbs s !! d;
  match db_watched_keys db !! key with
  | None => Some s
  | Some l => mark_dirty s l
  end.

Definition has_key (db : redisDb) (key : list Z) : bool :=
  match dict db !! key with Some _ => true | None => false end.

(** The iteration over emptied->watched_keys. *)
Fixpoint touch_entries (s : server) (emptied : redisDb) (replaced_with : option redisDb)
    (entries : list (list Z * list nat)) : option server :=
  match entries with
  | [] => Some s
  | (key, l) :: entries =>
      s ← (if has_key emptied key then mark_dirty s l
           else if match replaced_with with Some r => has_key r key | None => false end then mark_dirty s l
           else Some s);
      touch_entries s emptied replaced_with entries
  end.

Definition touchAllWatchedKeysInDb (s : server) (emptied : nat) (replaced_with : option nat) : option server :=
  db ← dbs s !! emptied;
  r ← match replaced_with with
      | None => Some None
      | Some r => r ← dbs s !! r; Some (Some r)
      end;
  touch_entries s db r (map_to_list (db_watched_keys db)).

Fixpoint watch_keys (s : server) (ci : nat) (keys : list (list Z)) : option server :=
  match keys with
  | [] => Some s
  | key :: keys => s ← watchForKey s ci key; watch_keys s ci keys
  end.

Definition watchCommand (s : server) (ci : nat) : option server :=
  c ← clients s !! ci;
  if has_flag c CLIENT_MULTI then upd s ci (fun c => addReply c (ReplyError (str "WATCH inside MULTI is not allowed")))
  else
    s ← watch_keys s ci (drop 1 (argv c));
    upd s ci (fun c => addReply c ReplyOk).

Definition unwatchCommand (s : server) (ci : nat) : option server :=
  s ← unwatchAllKeys s ci;
  upd s ci (fun c => addReply (set_flags c (Z.ldiff (flags c) CLIENT_DIRTY_CAS)) ReplyOk).

End state.
Arguments redisDb : clear implicits.
Arguments server : clear implicits.

Create HintDb watch.

(** ** Flags *)

Lemma has_flag_lor c f g : has_flag (set_flags c (Z.lor (flags c) f)) g = has_flag c g || negb (Z.land f g =? 0).
Proof.
  unfold has_flag. simpl. rewrite Z.land_lor_distr_l.
  destruct (Z.eqb_spec (Z.lor (Z.land (flags c) g) (Z.land f g)) 0) as [H|H].
  - apply Z.lor_eq_0_iff in H as [-> ->]. done.
  - rewrite Z.lor_eq_0_iff in H. destruct (Z.eqb_spec (Z.land (flags c) g) 0), (Z.eqb_spec (Z.land f g) 0); naive_solver.
Qed.

Lemma has_flag_ldiff_in c f g : Z.land g f = g -> has_flag (set_flags c (Z.ldiff (flags c) f)) g = false.
Proof.
  intros H. unfold has_flag. simpl. rewrite <- H. rewrite negb_false_iff, Z.eqb_eq.
  apply Z.bits_inj'. intros n Hn. rewrite !Z.land_spec, Z.ldiff_spec, Z.bits_0.
  by destruct (Z.testbit (flags c) n), (Z.testbit f n), (Z.testbit g n).
Qed.

Lemma has_flag_ldiff_out c f g : Z.land g f = 0 -> has_flag (set_flags c (Z.ldiff (flags c) f)) g = has_flag c g.
Proof.
  intros H. unfold has_flag. simpl. do 2 f_equal.
  apply Z.bits_inj'. intros n Hn. rewrite !Z.land_spec, Z.ldiff_spec.
  assert (Z.testbit (Z.land g f) n = false) as Hf by (rewrite H; apply Z.bits_0). rewrite Z.land_spec in Hf.
  by destruct (Z.testbit (flags c) n), (Z.testbit f n), (Z.testbit g n).
Qed.

(** A test for one of two flags. *)
Lemma has_flag_or c f g : has_flag c (Z.lor f g) = has_flag c f || has_flag c g.
Proof.
  unfold has_flag. rewrite Z.land_lor_distr_r.
  destruct (Z.eqb_spec (Z.lor (Z.land (flags c) f) (Z.land (flags c) g)) 0) as [H|H].
  - apply Z.lor_eq_0_iff in H as [-> ->]. done.
  - rewrite Z.lor_eq_0_iff in H. destruct (Z.eqb_spec (Z.land (flags c) f) 0), (Z.eqb_spec (Z.land (flags c) g) 0); naive_solver.
Qed.

(** ** The invariant of WATCH *)

Section facts.
Context {V : Type}.
Implicit Types (s : server V) (c : client) (db : redisDb V) (d i j : nat) (k : list Z).

(** The clients of a key and the keys of a client. *)
Definition watchers s d k : list nat :=
  match dbs s !! d with Some db => default [] (db_watched_keys db !! k) | None => [] end.
Definition watches s i : list (nat * list Z) :=
  match clients s !! i with Some c => watched_keys c | None => [] end.

(** The two views agree, without duplicates or empty lists; every client has a database; only
    existing keys have an expire. *)
Record watch_ok s : Prop := {
  wo_iff i d k : i ∈ watchers s d k <-> (d, k) ∈ watches s i;
  wo_watchers d k : NoDup (watchers s d k);
  wo_watches i : NoDup (watches s i);
  wo_nonempty d db k : dbs s !! d = Some db -> db_watched_keys db !! k <> Some [];
  wo_db i c : clients s !! i = Some c -> is_Some (dbs s !! cdb c);
  wo_expires d db k : dbs s !! d = Some db -> is_Some (expires db !! k) -> is_Some (dict db !! k);
}.

(** The contents of the databases. *)
Definition data s : list (gmap (list Z) V * gmap (list Z) Z) := (fun db => (dict db, expires db)) <$> dbs s.

Definition lookup_data s d k : option V := db ← dbs s !! d; dict db !! k.

Lemma lookup_data_eq s s' d k : data s = data s' -> lookup_data s d k = lookup_data s' d k.
Proof.
  intros H. unfold lookup_data. assert (data s !! d = data s' !! d) as Hd by congruence. unfold data in Hd.
  rewrite !list_lookup_fmap in Hd. destruct (dbs s !! d), (dbs s' !! d); simplify_eq/=; congruence.
Qed.

Lemma lookup_data_Some s d db k : dbs s !! d = Some db -> lookup_data s d k = dict db !! k.
Proof. intros H. unfold lookup_data. by rewrite H. Qed.

(** *** Updates of clients and of databases *)

Lemma upd_Some s i f c : clients s !! i = Some c ->
  upd s i f = Some (Server (<[i := f c]> (clients s)) (dbs s) (globs s)).
Proof. intros Hc. unfold upd. by rewrite Hc. Qed.

Lemma upd_db_Some s d f db : dbs s !! d = Some db ->
  upd_db s d f = Some (Server (clients s) (<[d := f db]> (dbs s)) (globs s)).
Proof. intros Hc. unfold upd_db. by rewrite Hc. Qed.

Lemma dbs_upd s d db db' g cs e : dbs s !! d = Some db ->
  dbs (Server cs (<[d := db']> (dbs s)) g) !! e = if decide (e = d) then Some db' else dbs s !! e.
Proof.
  intros H. simpl. destruct (decide (e = d)) as [->|Hne].
  - apply list_lookup_insert_eq. by eapply lookup_lt_Some.
  - by apply list_lookup_insert_ne.
Qed.

Lemma watchers_upd_db s d db w g cs e k : dbs s !! d = Some db ->
  watchers (Server cs (<[d := set_watchers db w]> (dbs s)) g) e k =
  if decide (e = d) then default [] (w !! k) else watchers s e k.
Proof. intros H. unfold watchers. rewrite (dbs_upd s d db) by done. by destruct (decide (e = d)). Qed.

Lemma watches_upd s i c' g ds j :
  watches (Server (<[i := c']> (clients s)) ds g) j = if decide (j = i) then watched_keys c' else watches s j.
Proof.
  unfold watches. simpl. destruct (decide (j = i)) as [->|Hne]; [by rewrite lookup_insert_eq|].
  by rewrite lookup_insert_ne.
Qed.

Lemma data_set_watchers s d db w g cs : dbs s !! d = Some db ->
  data (Server cs (<[d := set_watchers db w]> (dbs s)) g) = data s.
Proof.
  intros H. unfold data. simpl. rewrite list_fmap_insert. apply list_insert_id.
  by rewrite list_lookup_fmap, H.
Qed.

(** An update of a client that does not concern its watched keys. *)
Lemma upd_ok s i c c' g : watch_ok s -> clients s !! i = Some c ->
  watched_keys c' = watched_keys c -> is_Some (dbs s !! cdb c') ->
  watch_ok (Server (<[i := c']> (clients s)) (dbs s) g).
Proof.
  intros Hs Hc Hw Hd.
  assert (forall j, watches (Server (<[i := c']> (clients s)) (dbs s) g) j = watches s j) as Hwe.
  { intros j. rewrite watches_upd. case_decide as Hj; [|done]. rewrite Hw, Hj. unfold watches. by rewrite Hc. }
  split.
  - intros j d k. rewrite Hwe. apply (wo_iff _ Hs).
  - apply (wo_watchers _ Hs).
  - intros j. rewrite Hwe. apply (wo_watches _ Hs).
  - apply (wo_nonempty _ Hs).
  - intros j cj. simpl. destruct (decide (j = i)) as [->|Hne].
    + rewrite lookup_insert_eq. by intros [= <-].
    + rewrite lookup_insert_ne by done. by eapply wo_db.
  - apply (wo_expires _ Hs).
Qed.

(** *** Transfer of the invariant when only the watched keys change *)

Lemma watch_ok_intro s s' : watch_ok s ->
  data s' = data s ->
  (forall i c', clients s' !! i = Some c' -> exists c, clients s !! i = Some c /\ cdb c' = cdb c) ->
  (forall i d k, i ∈ watchers s' d k <-> (d, k) ∈ watches s' i) ->
  (forall d k, NoDup (watchers s' d k)) -> (forall i, NoDup (watches s' i)) ->
  (forall d db k, dbs s' !! d = Some db -> db_watched_keys db !! k <> Some []) ->
  watch_ok s'.
Proof.
  intros Hs Hdata Hcl H1 H2 H3 H4.
  assert (forall d db', dbs s' !! d = Some db' ->
    exists db, dbs s !! d = Some db /\ dict db' = dict db /\ expires db' = expires db) as Hdb.
  { intros d db' Hd. assert (data s' !! d = data s !! d) as He by congruence. unfold data in He.
    rewrite !list_lookup_fmap, Hd in He. destruct (dbs s !! d) as [db|]; simplify_eq/=. by exists db. }
  split; try done.
  - intros i c' Hc'. destruct (Hcl i c' Hc') as (c & Hc & ->). apply (wo_db _ Hs) in Hc as [db Hc].
    apply lookup_lt_is_Some. apply lookup_lt_Some in Hc. apply (f_equal length) in Hdata. unfold data in Hdata.
    rewrite !length_fmap in Hdata. congruence.
  - intros d db' k Hd. destruct (Hdb d db' Hd) as (db & Hd' & -> & ->). by apply (wo_expires _ Hs d db).
Qed.

(** *** Watching one more key *)

(** What stays of the client whose watched keys change. *)
Definition same_but_watched c c' : Prop := c' = set_watched c (watched_keys c').

Lemma watchForKey_ok s i c k : watch_ok s -> clients s !! i = Some c ->
  exists s' c', watchForKey s i k = Some s' /\ watch_ok s' /\ clients s' !! i = Some c' /\
    same_but_watched c c' /\ data s' = data s /\ globs s' = globs s /\
    (forall e, e ∈ watches s' i <-> e ∈ watches s i \/ e = (cdb c, k)) /\
    (forall j, j <> i -> clients s' !! j = clients s !! j).
Proof.
  intros Hs Hc. unfold watchForKey. rewrite Hc. simpl_bind. case_bool_decide as Hin.
  { exists s, c. split_and!; try done; [by destruct c|]. intros e. split; [by left|]. intros [?| ->]; [done|].
    unfold watches. by rewrite Hc. }
  destruct (wo_db _ Hs i c Hc) as [db Hdb]. rewrite (upd_db_Some _ _ _ db Hdb). simpl_bind. cbv zeta.
  set (l := default [] (db_watched_keys db !! k)).
  set (c' := set_watched c (watched_keys c ++ [(cdb c, k)])).
  assert (watches s i = watched_keys c) as Hwi by (unfold watches; by rewrite Hc).
  assert (watchers s (cdb c) k = l) as Hwl by (unfold watchers; by rewrite Hdb).
  assert (i ∉ l) as Hnl by (rewrite <- Hwl, (wo_iff _ Hs), Hwi; done).
  rewrite (upd_Some _ i _ c) by done. fold c'. eexists _, c'. split; [done|]. simpl.
  set (s' := Server _ _ _).
  assert (forall j, watches s' j = if decide (j = i) then watched_keys c ++ [(cdb c, k)] else watches s j) as Hws
    by (intros j; apply (watches_upd s i c' (globs s))).
  assert (forall e q, watchers s' e q =
    if decide ((e, q) = (cdb c, k)) then l ++ [i] else watchers s e q) as Hwr.
  { intros e q. unfold s'. rewrite (watchers_upd_db s (cdb c) db) by done. destruct (decide (e = cdb c)) as [->|Hne];
      [|by rewrite decide_False by congruence].
    destruct (decide (q = k)) as [->|Hnq]; [by rewrite decide_True, lookup_insert_eq|].
    rewrite decide_False by congruence. rewrite lookup_insert_ne by done. unfold watchers. by rewrite Hdb. }
  assert (data s' = data s) as Hdata by (by apply (data_set_watchers s (cdb c) db)).
  split_and!; try done; simpl.
  - apply (watch_ok_intro s); [done | done | | | | |].
    + intros j cj. simpl. destruct (decide (j = i)) as [->|Hne]; [rewrite lookup_insert_eq|rewrite lookup_insert_ne by done].
      * intros [= <-]. by exists c.
      * intros ?. by exists cj.
    + intros j e q. rewrite Hwr, Hws. pose proof (wo_iff _ Hs j e q) as Hiff.
      destruct (decide ((e, q) = (cdb c, k))) as [[= -> ->]|Hne]; destruct (decide (j = i)) as [->|Hnj];
        rewrite ?elem_of_app, ?list_elem_of_singleton, <- ?Hwi, <- ?Hiff, ?Hwl; naive_solver.
    + intros e q. rewrite Hwr. case_decide; [|apply (wo_watchers _ Hs)]. apply NoDup_app. split_and!.
      * rewrite <- Hwl. apply (wo_watchers _ Hs).
      * by intros x Hx ->%list_elem_of_singleton.
      * apply NoDup_singleton.
    + intros j. rewrite Hws. case_decide; [|apply (wo_watches _ Hs)]. apply NoDup_app. split_and!.
      * rewrite <- Hwi. apply (wo_watches _ Hs).
      * by intros x Hx ->%list_elem_of_singleton.
      * apply NoDup_singleton.
    + intros e dbx q. unfold s'. rewrite (dbs_upd s (cdb c) db) by done.
      destruct (decide (e = cdb c)) as [->|Hne]; [|by apply (wo_nonempty _ Hs)].
      intros [= <-]. simpl. destruct (decide (q = k)) as [->|Hnq].
      * rewrite lookup_insert_eq. by destruct l.
      * rewrite lookup_insert_ne by done. by apply (wo_nonempty _ Hs (cdb c)).
  - apply lookup_insert_eq.
  - intros e. rewrite Hws, decide_True by done. rewrite elem_of_app, list_elem_of_singleton, Hwi. done.
  - intros j Hj. by apply lookup_insert_ne.
Qed.

Lemma watch_keys_ok ks : forall s i c, watch_ok s -> clients s !! i = Some c ->
  exists s' c', watch_keys s i ks = Some s' /\ watch_ok s' /\ clients s' !! i = Some c' /\
    same_but_watched c c' /\ data s' = data s /\ globs s' = globs s /\
    (forall e, e ∈ watches s' i <-> e ∈ watches s i \/ exists k, k ∈ ks /\ e = (cdb c, k)) /\
    (forall j, j <> i -> clients s' !! j = clients s !! j).
Proof.
  induction ks as [|k ks IH]; intros s i c Hs Hc; simpl.
  { exists s, c. split_and!; try done; [by destruct c|]. intros e. split; [by left|].
    intros [?|(k & Hk & _)]; [done|by apply not_elem_of_nil in Hk]. }
  destruct (watchForKey_ok s i c k Hs Hc) as (s1 & c1 & -> & Hs1 & Hc1 & Hsame & Hd & Hg & Hw & Hf). simpl_bind.
  destruct (IH s1 i c1 Hs1 Hc1) as (s2 & c2 & -> & Hs2 & Hc2 & Hsame2 & Hd2 & Hg2 & Hw2 & Hf2).
  exists s2, c2. split_and!; try done; try congruence.
  - unfold same_but_watched in *. by rewrite Hsame2, Hsame at 1.
  - intros e. rewrite Hw2, Hw, Hsame. simpl. setoid_rewrite elem_of_cons. naive_solver.
  - intros j Hj. rewrite Hf2, Hf by done. done.
Qed.

(** *** Unwatching *)

Lemma list_del_spec i l : NoDup l -> i ∈ l ->
  exists l', list_del i l = Some l' /\ NoDup l' /\ forall j, j ∈ l' <-> j ∈ l /\ j <> i.
Proof.
  induction l as [|x l IH]; intros Hnd Hin; [by apply not_elem_of_nil in Hin|]. apply NoDup_cons in Hnd as [Hx Hnd].
  simpl. case_bool_decide as He.
  - exists l. split_and!; try done. intros j. rewrite elem_of_cons. naive_solver.
  - destruct IH as (l' & -> & Hnd' & Hl'); [done | by apply elem_of_cons in Hin as [->|?]|]. simpl_bind.
    exists (x :: l'). split_and!; [done | apply NoDup_cons; rewrite Hl'; naive_solver|].
    intros j. rewrite !elem_of_cons, Hl'. naive_solver.
Qed.

Lemma unwatch_key_ok s i c d k rest : watch_ok s -> clients s !! i = Some c -> watched_keys c = (d, k) :: rest ->
  exists s', unwatch_key s i (d, k) = Some s' /\ watch_ok s' /\ clients s' !! i = Some (set_watched c rest) /\
    data s' = data s /\ globs s' = globs s /\ (forall j, j <> i -> clients s' !! j = clients s !! j).
Proof.
  intros Hs Hc Hwk. unfold unwatch_key.
  assert (watches s i = (d, k) :: rest) as Hwi by (unfold watches; by rewrite Hc).
  assert (i ∈ watchers s d k) as Hin by (apply (wo_iff _ Hs); rewrite Hwi; by left).
  pose proof (wo_watchers _ Hs d k) as Hnd.
  assert (exists db l, dbs s !! d = Some db /\ db_watched_keys db !! k = Some l /\ watchers s d k = l) as (db & l & Hdb & Hl & Hwl).
  { clear Hnd. unfold watchers in *. destruct (dbs s !! d) as [db|]; [|by apply not_elem_of_nil in Hin]. exists db.
    destruct (db_watched_keys db !! k) as [l|] ; [by exists l|by apply not_elem_of_nil in Hin]. }
  rewrite Hwl in Hnd, Hin. rewrite Hdb. simpl_bind. rewrite Hl. simpl_bind. destruct (list_del_spec i l Hnd Hin) as (l' & -> & Hnd' & Hl'). simpl_bind.
  rewrite (upd_db_Some _ _ _ db Hdb). simpl_bind. rewrite (upd_Some _ i _ c) by done. rewrite Hwk. change (drop 1 ((d, k) :: rest)) with rest.
  eexists. split; [done|]. simpl. set (w := match l' with [] => _ | _ => _ end). set (s' := Server _ _ _).
  assert (forall q, w !! q = if decide (q = k) then (match l' with [] => None | _ => Some l' end) else db_watched_keys db !! q) as Hw.
  { intros q. unfold w. destruct l'; destruct (decide (q = k)) as [->|Hq];
      rewrite ?lookup_delete_eq, ?lookup_insert_eq, ?lookup_delete_ne, ?lookup_insert_ne by done; done. }
  assert (forall j, watches s' j = if decide (j = i) then rest else watches s j) as Hws
    by (intros j; apply (watches_upd s i (set_watched c rest) (globs s))).
  assert (forall e q, watchers s' e q = if decide ((e, q) = (d, k)) then l' else watchers s e q) as Hwr.
  { intros e q. unfold s'. rewrite (watchers_upd_db s d db) by done. destruct (decide (e = d)) as [->|Hne];
      [|by rewrite decide_False by congruence].
    rewrite Hw. destruct (decide (q = k)) as [->|Hnq]; [rewrite decide_True by done; by destruct l'|].
    rewrite decide_False by congruence. unfold watchers. by rewrite Hdb. }
  assert (data s' = data s) as Hdata by (by apply (data_set_watchers s d db)).
  pose proof (wo_watches _ Hs i) as Hndi. rewrite Hwi in Hndi. apply NoDup_cons in Hndi as [Hnr Hndr].
  split_and!; try done; simpl.
  - apply (watch_ok_intro s); [done | done | | | | |].
    + intros j cj. simpl. destruct (decide (j = i)) as [->|Hne]; [rewrite lookup_insert_eq|rewrite lookup_insert_ne by done].
      * intros [= <-]. by exists c.
      * intros ?. by exists cj.
    + intros j e q. rewrite Hwr, Hws. pose proof (wo_iff _ Hs j e q) as Hiff.
      destruct (decide ((e, q) = (d, k))) as [[= -> ->]|Hne]; destruct (decide (j = i)) as [->|Hnj];
        rewrite ?Hl', <- ?Hiff, ?Hwl; [naive_solver | naive_solver | | done].
      rewrite Hiff, Hwi, elem_of_cons. naive_solver.
    + intros e q. rewrite Hwr. case_decide; [done|apply (wo_watchers _ Hs)].
    + intros j. rewrite Hws. case_decide; [done|apply (wo_watches _ Hs)].
    + intros e dbx q. unfold s'. rewrite (dbs_upd s d db) by done.
      destruct (decide (e = d)) as [->|Hne]; [|by apply (wo_nonempty _ Hs)].
      intros [= <-]. simpl. rewrite Hw. case_decide; [by destruct l'|]. by apply (wo_nonempty _ Hs d).
  - apply lookup_insert_eq.
  - intros j Hj. by apply lookup_insert_ne.
Qed.

Lemma unwatch_keys_ok wks : forall s i c, watch_ok s -> clients s !! i = Some c -> watched_keys c = wks ->
  exists s', unwatch_keys s i wks = Some s' /\ watch_ok s' /\ clients s' !! i = Some (set_watched c []) /\
    data s' = data s /\ globs s' = globs s /\ (forall j, j <> i -> clients s' !! j = clients s !! j).
Proof.
  induction wks as [|[d k] wks IH]; intros s i c Hs Hc Hw; cbn [unwatch_keys].
  { exists s. split_and!; try done. rewrite <- Hw, Hc. f_equal. by destruct c. }
  destruct (unwatch_key_ok s i c d k wks Hs Hc Hw) as (s1 & -> & Hs1 & Hc1 & Hd1 & Hg1 & Hf1). simpl_bind.
  destruct (IH s1 i _ Hs1 Hc1 eq_refl) as (s2 & -> & Hs2 & Hc2 & Hd2 & Hg2 & Hf2).
  exists s2. split_and!; try done; try congruence. intros j Hj. by rewrite Hf2, Hf1.
Qed.

Lemma unwatchAllKeys_ok s i c : watch_ok s -> clients s !! i = Some c ->
  exists s', unwatchAllKeys s i = Some s' /\ watch_ok s' /\ clients s' !! i = Some (set_watched c []) /\
    data s' = data s /\ globs s' = globs s /\ (forall j, j <> i -> clients s' !! j = clients s !! j).
Proof. intros Hs Hc. unfold unwatchAllKeys. rewrite Hc. by apply unwatch_keys_ok. Qed.

(** *** Touching keys *)

Definition dirty_cas s i : Prop := exists c, clients s !! i = Some c /\ has_flag c CLIENT_DIRTY_CAS = true.

Definition set_dirty c : client := set_flags c (Z.lor (flags c) CLIENT_DIRTY_CAS).

Lemma set_dirty_idem c : set_dirty (set_dirty c) = set_dirty c.
Proof. unfold set_dirty. simpl. f_equal. by rewrite <- Z.lor_assoc, Z.lor_diag. Qed.

Lemma has_flag_set_dirty c : has_flag (set_dirty c) CLIENT_DIRTY_CAS = true.
Proof. unfold set_dirty. rewrite has_flag_lor. apply orb_true_r. Qed.

(** The clients of [l] are flagged and nothing else changes. *)
Lemma mark_dirty_ok l : forall s, (forall i, i ∈ l -> is_Some (clients s !! i)) ->
  exists s', mark_dirty s l = Some s' /\ dbs s' = dbs s /\ globs s' = globs s /\
    (forall i, clients s' !! i = if decide (i ∈ l) then set_dirty <$> clients s !! i else clients s !! i).
Proof.
  induction l as [|x l IH]; intros s Hl; cbn [mark_dirty].
  { by exists s. }
  destruct (Hl x) as [c Hc]; [by left|]. rewrite (upd_Some s x _ c Hc). simpl_bind. fold (set_dirty c).
  destruct (IH (Server (<[x := set_dirty c]> (clients s)) (dbs s) (globs s))) as (s' & -> & Hd & Hg & Hcl).
  { intros i Hi. simpl. destruct (decide (i = x)) as [->|Hne]; [rewrite lookup_insert_eq; by eexists|].
    rewrite lookup_insert_ne by done. apply Hl. by right. }
  exists s'. split_and!; try done. intros i. rewrite Hcl. simpl.
  destruct (decide (i = x)) as [->|Hne].
  - rewrite lookup_insert_eq, (decide_True (P := x ∈ x :: l)) by (by left). rewrite Hc. simpl.
    destruct (decide (x ∈ l)); simpl; by rewrite ?set_dirty_idem.
  - rewrite lookup_insert_ne by done. destruct (decide (i ∈ l)) as [Hi|Hi];
      [rewrite decide_True by (by right)|rewrite decide_False by (rewrite elem_of_cons; naive_solver)]; done.
Qed.

Lemma watchers_client s d k i : watch_ok s -> i ∈ watchers s d k -> is_Some (clients s !! i).
Proof.
  intros Hs Hi. apply (wo_iff _ Hs) in Hi. unfold watches in Hi. destruct (clients s !! i); [by eexists|].
  by apply not_elem_of_nil in Hi.
Qed.

(** The effect of a touch on the clients: some of the clients are flagged. *)
Definition flagged (P : nat -> Prop) s s' : Prop :=
  dbs s' = dbs s /\ globs s' = globs s /\
  forall i, exists b : bool, (P i -> b = true) /\
    clients s' !! i = if b then set_dirty <$> clients s !! i else clients s !! i.

Lemma flagged_watch_ok P s s' : watch_ok s -> flagged P s s' -> watch_ok s'.
Proof.
  intros Hs (Hd & Hg & Hc).
  assert (forall i, watches s' i = watches s i) as Hw.
  { intros i. unfold watches. destruct (Hc i) as (b & _ & ->). destruct b, (clients s !! i); done. }
  assert (forall d k, watchers s' d k = watchers s d k) as Hr by (intros d k; unfold watchers; by rewrite Hd).
  apply (watch_ok_intro s); [done | unfold data; by rewrite Hd | | | | |].
  - intros i c'. destruct (Hc i) as (b & _ & ->). destruct b, (clients s !! i) as [c|]; try done; intros [= <-]; by exists c.
  - intros i d k. rewrite Hr, Hw. apply (wo_iff _ Hs).
  - intros d k. rewrite Hr. apply (wo_watchers _ Hs).
  - intros i. rewrite Hw. apply (wo_watches _ Hs).
  - rewrite Hd. apply (wo_nonempty _ Hs).
Qed.

Lemma flagged_refl (P : nat -> Prop) s : (forall i, ~ P i) -> flagged P s s.
Proof. intros H. split_and!; try done. intros i. exists false. split; [by intros ?%H|done]. Qed.

Lemma flagged_trans P Q s s1 s2 : flagged P s s1 -> flagged Q s1 s2 -> flagged (fun i => P i \/ Q i) s s2.
Proof.
  intros (Hd1 & Hg1 & Hc1) (Hd2 & Hg2 & Hc2). split_and!; try congruence. intros i.
  destruct (Hc1 i) as (b1 & HP & H1), (Hc2 i) as (b2 & HQ & H2). exists (b1 || b2). split.
  - intros [->%HP| ->%HQ]; [done|apply orb_true_r].
  - rewrite H2, H1. destruct b1, b2, (clients s !! i); simpl; by rewrite ?set_dirty_idem.
Qed.

Lemma flagged_weaken (P Q : nat -> Prop) s s' : (forall i, Q i -> P i) -> flagged P s s' -> flagged Q s s'.
Proof.
  intros H (Hd & Hg & Hc). split_and!; try done. intros i. destruct (Hc i) as (b & Hb & He). exists b. eauto.
Qed.

Lemma mark_dirty_flagged s l : (forall i, i ∈ l -> is_Some (clients s !! i)) ->
  exists s', mark_dirty s l = Some s' /\ flagged (fun i => i ∈ l) s s'.
Proof.
  intros H. destruct (mark_dirty_ok l s H) as (s' & -> & Hd & Hg & Hc). exists s'. split; [done|]. split_and!; try done.
  intros i. exists (bool_decide (i ∈ l)). split; [by intros ?; apply bool_decide_eq_true|].
  rewrite Hc. by destruct (decide (i ∈ l)) as [Hi|Hi]; [rewrite bool_decide_true by done | rewrite bool_decide_false by done].
Qed.

Lemma touchWatchedKey_ok s d k : watch_ok s -> is_Some (dbs s !! d) ->
  exists s', touchWatchedKey s d k = Some s' /\ flagged (fun i => (d, k) ∈ watches s i) s s'.
Proof.
  intros Hs [db Hdb]. unfold touchWatchedKey. rewrite Hdb. simpl_bind.
  destruct (db_watched_keys db !! k) as [l|] eqn:Hl.
  - assert (watchers s d k = l) as Hw by (unfold watchers; by rewrite Hdb, Hl).
    destruct (mark_dirty_flagged s l) as (s' & -> & Hf).
    { intros i Hi. apply (watchers_client s d k); [done|]. by rewrite Hw. }
    exists s'. split; [done|]. eapply flagged_weaken; [|done]. intros i Hi. apply (wo_iff _ Hs) in Hi. by rewrite Hw in Hi.
  - exists s. split; [done|]. apply flagged_refl. intros i Hi. apply (wo_iff _ Hs) in Hi. unfold watchers in Hi.
    rewrite Hdb, Hl in Hi. by apply not_elem_of_nil in Hi.
Qed.

(** Exactly the clients that watch the key are flagged. *)
Lemma touchWatchedKey_exact s d k : watch_ok s -> is_Some (dbs s !! d) ->
  exists s', touchWatchedKey s d k = Some s' /\ dbs s' = dbs s /\ globs s' = globs s /\
    forall i, clients s' !! i = if bool_decide ((d, k) ∈ watches s i) then set_dirty <$> clients s !! i else clients s !! i.
Proof.
  intros Hs [db Hdb]. unfold touchWatchedKey. rewrite Hdb. simpl_bind.
  assert (watchers s d k = default [] (db_watched_keys db !! k)) as Hw by (unfold watchers; by rewrite Hdb).
  destruct (db_watched_keys db !! k) as [l|] eqn:Hl; cbn in Hw.
  - destruct (mark_dirty_ok l s) as (s' & -> & Hd & Hg & Hc).
    { intros i Hi. apply (watchers_client s d k); [done|]. by rewrite Hw. }
    exists s'. split_and!; [done.. |]. intros i. rewrite Hc. destruct (decide (i ∈ l)) as [Hi|Hi]; rewrite <- Hw, (wo_iff _ Hs) in Hi.
    + by rewrite bool_decide_true.
    + by rewrite bool_decide_false.
  - exists s. split_and!; [done.. |]. intros i. rewrite bool_decide_false; [done|]. rewrite <- (wo_iff _ Hs), Hw. apply not_elem_of_nil.
Qed.

(** The keys that the iteration of touchAllWatchedKeysInDb() touches. *)
Definition touched db (r : option (redisDb V)) k : Prop :=
  is_Some (dict db !! k) \/ exists db', r = Some db' /\ is_Some (dict db' !! k).

Lemma has_key_spec db k : has_key db k = true <-> is_Some (dict db !! k).
Proof. unfold has_key. destruct (dict db !! k); split; naive_solver. Qed.

Lemma touch_entries_ok db r es : forall s, (forall k l i, (k, l) ∈ es -> i ∈ l -> is_Some (clients s !! i)) ->
  exists s', touch_entries s db r es = Some s' /\
    flagged (fun i => exists k l, (k, l) ∈ es /\ i ∈ l /\ touched db r k) s s'.
Proof.
  induction es as [|[k l] es IH]; intros s Hl; cbn [touch_entries].
  { exists s. split; [done|]. apply flagged_refl. intros i (k & l & Hk & _). by apply not_elem_of_nil in Hk. }
  assert (exists s1, (if has_key db k then mark_dirty s l
    else if match r with Some r => has_key r k | None => false end then mark_dirty s l else Some s) = Some s1 /\
    flagged (fun i => i ∈ l /\ touched db r k) s s1) as (s1 & -> & Hf1).
  { destruct (mark_dirty_flagged s l) as (s1 & Hs1 & Hf1); [intros i Hi; apply (Hl k l); [by left|done]|].
    assert (flagged (fun i => i ∈ l /\ touched db r k) s s1) as Hw by (eapply flagged_weaken; [|done]; naive_solver).
    destruct (has_key db k) eqn:H1; [by exists s1|].
    destruct (match r with Some r => has_key r k | None => false end) eqn:H2; [by exists s1|].
    exists s. split; [done|]. apply flagged_refl. intros i [_ [H|(db' & -> & H)]]; apply has_key_spec in H; congruence. }
  simpl_bind. destruct (IH s1) as (s2 & -> & Hf2).
  { intros k' l' i Hk Hi. destruct Hf1 as (_ & _ & Hc). destruct (Hc i) as (b & _ & ->).
    destruct (Hl k' l' i) as [c ->]; [by right|done|]. destruct b; by eexists. }
  exists s2. split; [done|]. eapply flagged_weaken; [|by eapply flagged_trans].
  intros i (k' & l' & Hk & Hi & Ht). simpl. apply elem_of_cons in Hk as [[= -> ->]|Hk]; [by left|right; eauto].
Qed.

Lemma touchAll_ok s d db (rd : option nat) r : watch_ok s -> dbs s !! d = Some db ->
  match rd with None => r = None | Some e => exists db', dbs s !! e = Some db' /\ r = Some db' end ->
  exists s', touchAllWatchedKeysInDb s d rd = Some s' /\
    flagged (fun i => exists k, (d, k) ∈ watches s i /\ touched db r k) s s'.
Proof.
  intros Hs Hdb Hr. unfold touchAllWatchedKeysInDb. rewrite Hdb. simpl_bind.
  assert ((match rd with None => Some None | Some r => r ← dbs s !! r; Some (Some r) end) = Some r) as ->.
  { destruct rd as [e|]; [|by rewrite Hr]. destruct Hr as (db' & -> & ->). done. }
  simpl_bind.
  assert (forall k l, (k, l) ∈ map_to_list (db_watched_keys db) -> watchers s d k = l) as Hw.
  { intros k l Hk. apply elem_of_map_to_list in Hk. unfold watchers. by rewrite Hdb, Hk. }
  destruct (touch_entries_ok db r (map_to_list (db_watched_keys db)) s) as (s' & -> & Hf).
  { intros k l i Hk Hi. apply (watchers_client s d k); [done|]. by rewrite (Hw k l Hk). }
  exists s'. split; [done|]. eapply flagged_weaken; [|done]. intros i (k & Hi & Ht).
  apply (wo_iff _ Hs) in Hi. destruct (db_watched_keys db !! k) as [l|] eqn:Hl.
  - exists k, l. split_and!; [by apply elem_of_map_to_list | |done]. unfold watchers in Hi. by rewrite Hdb, Hl in Hi.
  - unfold watchers in Hi. rewrite Hdb, Hl in Hi. by apply not_elem_of_nil in Hi.
Qed.

(** *** The commands *)

Lemma watchCommand_ok s i c : watch_ok s -> clients s !! i = Some c ->
  exists s' c', watchCommand s i = Some s' /\ watch_ok s' /\ clients s' !! i = Some c' /\
    data s' = data s /\ globs s' = globs s /\ flags c' = flags c /\ commands c' = commands c /\ cdb c' = cdb c /\
    (forall j, j <> i -> clients s' !! j = clients s !! j) /\
    (if has_flag c CLIENT_MULTI then watches s' i = watches s i
     else forall e, e ∈ watches s' i <-> e ∈ watches s i \/ exists k, k ∈ drop 1 (argv c) /\ e = (cdb c, k)).
Proof.
  intros Hs Hc. unfold watchCommand. rewrite Hc. simpl_bind. destruct (has_flag c CLIENT_MULTI).
  - rewrite (upd_Some s i _ c Hc). eexists _, _. split; [done|]. split; [|split; [apply lookup_insert_eq|]]; [|split_and!; try done].
    + apply (upd_ok s i c); try done. apply (wo_db _ Hs i c Hc).
    + intros j Hj. by apply lookup_insert_ne.
    + rewrite watches_upd, decide_True by done. unfold watches. by rewrite Hc.
  - destruct (watch_keys_ok (drop 1 (argv c)) s i c Hs Hc) as (s1 & c1 & -> & Hs1 & Hc1 & Hsame & Hd & Hg & Hw & Hf).
    simpl_bind. rewrite (upd_Some s1 i _ c1 Hc1). eexists _, _. split; [done|]. split; [|split; [apply lookup_insert_eq|]]; [|split_and!; try done].
    + apply (upd_ok s1 i c1); try done. apply (wo_db _ Hs1 i c1 Hc1).
    + simpl. by rewrite Hsame.
    + simpl. by rewrite Hsame.
    + simpl. by rewrite Hsame.
    + intros j Hj. simpl. rewrite lookup_insert_ne by done. by apply Hf.
    + intros e. rewrite watches_upd, decide_True by done. simpl. rewrite <- Hw. unfold watches. by rewrite Hc1.
Qed.

Lemma unwatchCommand_ok s i c : watch_ok s -> clients s !! i = Some c ->
  exists s', unwatchCommand s i = Some s' /\ watch_ok s' /\
    clients s' !! i = Some (addReply (set_flags (set_watched c []) (Z.ldiff (flags c) CLIENT_DIRTY_CAS)) ReplyOk) /\
    data s' = data s /\ globs s' = globs s /\ (forall j, j <> i -> clients s' !! j = clients s !! j).
Proof.
  intros Hs Hc. unfold unwatchCommand. destruct (unwatchAllKeys_ok s i c Hs Hc) as (s1 & -> & Hs1 & Hc1 & Hd & Hg & Hf).
  simpl_bind. rewrite (upd_Some s1 i _ _ Hc1). eexists. split; [done|]. split_and!; try done.
  - apply (upd_ok s1 i _ _ _ Hs1 Hc1); [done|]. apply (wo_db _ Hs1 i _ Hc1).
  - apply lookup_insert_eq.
  - intros j Hj. simpl. rewrite lookup_insert_ne by done. by apply Hf.
Qed.

(** keyIsExpired() never fails its assertion. *)
Definition now s : Z :=
  if lua_caller (globs s) then lua_time_snapshot (globs s)
  else if 0 <? fixed_time_expire (globs s) then cached_mstime (globs s) else mstime (globs s).

(** The key has an expire, and it is past. *)
Definition expired s db k : bool :=
  match expires db !! k with
  | Some when => (0 <=? when) && negb (loading (globs s)) && (when <? now s)
  | None => false
  end.

Lemma keyIsExpired_ok s d db k : watch_ok s -> dbs s !! d = Some db -> keyIsExpired s d k = Some (expired s db k).
Proof.
  intros Hs Hd. unfold keyIsExpired, getExpire, expired. rewrite Hd. simpl_bind.
  destruct (expires db !! k) as [w|] eqn:Hw; [|done]. destruct (wo_expires _ Hs d db k Hd) as [v ->]; [by eexists|].
  simpl_bind. fold (now s). destruct (Z.ltb_spec w 0), (Z.leb_spec 0 w); try lia; destruct (loading (globs s)); done.
Qed.

Definition key_expired s (e : nat * list Z) : bool :=
  match dbs s !! e.1 with Some db => expired s db e.2 | None => false end.

Lemma watches_db s i d k : watch_ok s -> (d, k) ∈ watches s i -> is_Some (dbs s !! d).
Proof.
  intros Hs Hi. apply (wo_iff _ Hs) in Hi. unfold watchers in Hi. destruct (dbs s !! d); [by eexists|].
  by apply not_elem_of_nil in Hi.
Qed.

Lemma isWatchedKeyExpired_ok s i : watch_ok s -> is_Some (clients s !! i) ->
  isWatchedKeyExpired s i = Some (existsb (key_expired s) (watches s i)).
Proof.
  intros Hs [c Hc]. unfold isWatchedKeyExpired. rewrite Hc. simpl_bind.
  assert (forall e, e ∈ watched_keys c -> is_Some (dbs s !! e.1)) as Hdb.
  { intros [d k] He. apply (watches_db s i d k); [done|]. unfold watches. by rewrite Hc. }
  unfold watches. rewrite Hc. induction (watched_keys c) as [|[d k] w IH]; [done|]. cbn [any_expired existsb].
  destruct (Hdb (d, k)) as [db Hd]; [by left|]. simpl in Hd. rewrite (keyIsExpired_ok s d db k Hs Hd). simpl_bind.
  unfold key_expired at 1. cbn [fst snd]. rewrite Hd. destruct (expired s db k); [done|]. apply IH. intros e He. apply Hdb. by right.
Qed.

(** *** What client [a] can rely on between WATCH and EXEC *)

(** It still watches its keys and stays flagged; unless it is flagged, its keys have not changed. *)
Record cas_keeps (a : nat) s s' : Prop := {
  ck_client : is_Some (clients s !! a) -> is_Some (clients s' !! a);
  ck_watches e : e ∈ watches s a -> e ∈ watches s' a;
  ck_dirty : dirty_cas s a -> dirty_cas s' a;
  ck_data d k : (d, k) ∈ watches s a -> dirty_cas s' a \/ lookup_data s' d k = lookup_data s d k;
}.

#[export] Instance cas_keeps_preorder a : PreOrder (cas_keeps a).
Proof.
  split; [split; auto|]. intros s1 s2 s3 [H1 H2 H3 H4] [G1 G2 G3 G4]. split; [by eauto..|].
  intros d k Hk. destruct (G4 d k) as [?|He]; [by apply H2 | by left|].
  destruct (H4 d k Hk) as [?|He']; [left; by apply G3 | right; congruence].
Qed.

(** A change of another client, or one that leaves the watched keys alone. *)
Lemma cas_keeps_client a s s' : data s' = data s ->
  (forall c, clients s !! a = Some c -> exists c', clients s' !! a = Some c' /\
    (forall e, e ∈ watched_keys c -> e ∈ watched_keys c') /\
    (has_flag c CLIENT_DIRTY_CAS = true -> has_flag c' CLIENT_DIRTY_CAS = true)) ->
  cas_keeps a s s'.
Proof.
  intros Hd Hc. split.
  - intros [c Hs]. destruct (Hc c Hs) as (c' & ? & _). by exists c'.
  - intros e. unfold watches. destruct (clients s !! a) as [c|] eqn:Hs; [|by intros ?%not_elem_of_nil].
    destruct (Hc c eq_refl) as (c' & -> & Hw & _). apply Hw.
  - intros (c & Hs & Hf). destruct (Hc c Hs) as (c' & ? & _ & Hf'). exists c'. auto.
  - intros d k _. right. by apply lookup_data_eq.
Qed.

Lemma cas_keeps_other a s s' : data s' = data s -> clients s' !! a = clients s !! a -> cas_keeps a s s'.
Proof. intros Hd Hc. apply cas_keeps_client; [done|]. intros c. rewrite <- Hc. eauto. Qed.

Lemma flagged_dirty P s s' i : flagged P s s' -> P i -> is_Some (clients s !! i) -> dirty_cas s' i.
Proof.
  intros (_ & _ & Hf) HP [c Hc]. destruct (Hf i) as (b & Hb & Hi). rewrite (Hb HP), Hc in Hi. simpl in Hi.
  exists (set_dirty c). split; [done|apply has_flag_set_dirty].
Qed.

Lemma flagged_client P s s' i c : flagged P s s' -> clients s !! i = Some c ->
  exists c', clients s' !! i = Some c' /\ (c' = c \/ c' = set_dirty c).
Proof.
  intros (_ & _ & Hf) Hc. destruct (Hf i) as (b & _ & Hi). rewrite Hc in Hi.
  destruct b; [exists (set_dirty c) | exists c]; auto.
Qed.

Lemma flagged_none P s s' i : flagged P s s' -> clients s !! i = None -> clients s' !! i = None.
Proof. intros (_ & _ & Hf) Hc. destruct (Hf i) as (b & _ & ->). rewrite Hc. by destruct b. Qed.

Lemma flagged_keeps P a s s' : flagged P s s' -> cas_keeps a s s'.
Proof.
  intros Hf. apply cas_keeps_client.
  - destruct Hf as (Hd & _). unfold data. by rewrite Hd.
  - intros c Hc. destruct (flagged_client P s s' a c Hf Hc) as (c' & Hc' & [-> | ->]); exists c' || eexists; split_and!; eauto.
    intros _. apply has_flag_set_dirty.
Qed.

(** A change of the data at the keys of [K] that flags their clients. *)
Lemma write_keeps (K : nat -> list Z -> Prop) P a s s1 s2 :
  clients s1 = clients s -> flagged P s1 s2 ->
  (forall d k, K d k -> (d, k) ∈ watches s a -> P a) ->
  (forall d k, (d, k) ∈ watches s a -> K d k \/ lookup_data s1 d k = lookup_data s d k) ->
  cas_keeps a s s2.
Proof.
  intros Hc Hf HP HK. destruct (flagged_keeps P a s1 s2 Hf) as [H1 H2 H3 H4].
  assert (watches s1 a = watches s a) as Hw by (unfold watches; by rewrite Hc).
  assert (dirty_cas s a <-> dirty_cas s1 a) as Hdc by (unfold dirty_cas; by rewrite Hc).
  split; [by rewrite Hc in H1 | by rewrite Hw in H2 | by rewrite Hdc|].
  intros d k Hk. destruct (HK d k Hk) as [HKd|He].
  - left. eapply flagged_dirty; [done | by eapply HP|]. rewrite Hc. unfold watches in Hk.
    destruct (clients s !! a); [by eexists|by apply not_elem_of_nil in Hk].
  - rewrite <- He. apply H4. by rewrite Hw.
Qed.

(** A server on which nothing is watched. *)
Definition unwatched s : Prop :=
  map_Forall (fun _ c => watched_keys c = [] /\ is_Some (dbs s !! cdb c)) (clients s) /\
  Forall (fun db => db_watched_keys db = ∅ /\ map_Forall (fun k _ => is_Some (dict db !! k)) (expires db)) (dbs s).

#[export] Instance unwatched_dec s : Decision (unwatched s).
Proof. apply _. Defined.

Lemma unwatched_ok s : unwatched s -> watch_ok s.
Proof.
  intros [Hc Hd]. rewrite Forall_lookup in Hd.
  assert (forall i, watches s i = []) as Hw.
  { intros i. unfold watches. destruct (clients s !! i) as [c|] eqn:Hi; [|done]. by apply Hc in Hi as [-> _]. }
  assert (forall d k, watchers s d k = []) as Hr.
  { intros d k. unfold watchers. destruct (dbs s !! d) as [db|] eqn:Hdb; [|done]. by apply Hd in Hdb as [-> _]. }
  split.
  - intros i d k. rewrite Hw, Hr. by split; intros ?%not_elem_of_nil.
  - intros d k. rewrite Hr. constructor.
  - intros i. rewrite Hw. constructor.
  - intros d db k Hdb. by apply Hd in Hdb as [-> _].
  - intros i c Hi. by apply Hc in Hi as [_ ?].
  - intros d db k Hdb [w Hk]. apply Hd in Hdb as [_ Hm]. by apply Hm in Hk.
Qed.

End facts.

#[export] Hint Resolve flagged_watch_ok flagged_keeps cas_keeps_other : watch.
