(* ===== verification/Db.v ===== *)
(** * The keyspace (src/redis-stable/src/db.c, lazyfree.c)

    The low level API of the databases, on which every command that reads or writes a key is
    built: lookups with the expiration of keys on access, additions, overwrites, deletions,
    expires, FLUSHDB/FLUSHALL, SWAPDB, and the commands DEL, UNLINK, EXISTS, RENAME and SELECT.
    Values are abstract; their access times, keyspace notifications, module events, the
    slots map of the cluster mode and client side caching are not part of the model. *)
From S2P Require Import Prelude.
From S2P Require Import Watch.

Section ops.
Context {V : Type}.
Implicit Types (s : server V) (db : redisDb V).

(** ** Globals that the keyspace changes *)

Definition set_paused s (b : bool) : server V :=
  let g := globs s in
  set_globs s (Globals (loading g) (lua_caller g) (lua_time_snapshot g) (fixed_time_expire g) (cached_mstime g) (mstime g)
    (masterhost g) (master g) (current_client g) b (client_pause_end_time g) (lazyfree_lazy_expire g)
    (lazyfree_lazy_server_del g) (stat_expiredkeys g) (stat_keyspace_hits g) (stat_keyspace_misses g) (propagated_dels g)
    (repl_backlog g) (backlog_exec g) (propagate_in_transaction g) (in_exec g) (dirty g)).

Definition add_expired s (e : nat * list Z) : server V :=
  let g := globs s in
  set_globs s (Globals (loading g) (lua_caller g) (lua_time_snapshot g) (fixed_time_expire g) (cached_mstime g) (mstime g)
    (masterhost g) (master g) (current_client g) (clients_paused g) (client_pause_end_time g) (lazyfree_lazy_expire g)
    (lazyfree_lazy_server_del g) (stat_expiredkeys g + 1) (stat_keyspace_hits g) (stat_keyspace_misses g)
    (propagated_dels g ++ [e]) (repl_backlog g) (backlog_exec g) (propagate_in_transaction g) (in_exec g) (dirty g)).

Definition add_stats s (h m : Z) : server V :=
  let g := globs s in
  set_globs s (Globals (loading g) (lua_caller g) (lua_time_snapshot g) (fixed_time_expire g) (cached_mstime g) (mstime g)
    (masterhost g) (master g) (current_client g) (clients_paused g) (client_pause_end_time g) (lazyfree_lazy_expire g)
    (lazyfree_lazy_server_del g) (stat_expiredkeys g) (stat_keyspace_hits g + h) (stat_keyspace_misses g + m)
    (propagated_dels g) (repl_backlog g) (backlog_exec g) (propagate_in_transaction g) (in_exec g) (dirty g)).

Definition add_dirty s (n : Z) : server V :=
  let g := globs s in
  set_globs s (Globals (loading g) (lua_caller g) (lua_time_snapshot g) (fixed_time_expire g) (cached_mstime g) (mstime g)
    (masterhost g) (master g) (current_client g) (clients_paused g) (client_pause_end_time g) (lazyfree_lazy_expire g)
    (lazyfree_lazy_server_del g) (stat_expiredkeys g) (stat_keyspace_hits g) (stat_keyspace_misses g) (propagated_dels g)
    (repl_backlog g) (backlog_exec g) (propagate_in_transaction g) (in_exec g) (dirty g + n)).

(** Change the contents of a database and not its watched keys. *)
Definition set_data db (m : gmap (list Z) V) (e : gmap (list Z) Z) : redisDb V := RedisDb m e (db_watched_keys db).

(** ** Hooks *)

Definition signalModifiedKey s (d : nat) (key : list Z) : option (server V) := touchWatchedKey s d key.

Fixpoint touch_dbs s (ds : list nat) : option (server V) :=
  match ds with
  | [] => Some s
  | d :: ds => s ← touchAllWatchedKeysInDb s d None; touch_dbs s ds
  end.

(** for (j = startdb; j <= enddb; j++) *)
Definition db_range s (dbnum : Z) : list nat :=
  if dbnum =? -1 then seq 0 (length (dbs s)) else [Z.to_nat dbnum].

Definition signalFlushedDb s (dbnum : Z) : option (server V) := touch_dbs s (db_range s dbnum).

(** ** Deletion *)

Definition dbSyncDelete s (d : nat) (key : list Z) : option (server V * bool) :=
  db ← dbs s !! d;
  s ← upd_db s d (fun db => set_data db (delete key (dict db)) (delete key (expires db)));
  Some (s, has_key db key).

(** The value is freed by a background thread; for the keyspace this is the same. *)
Definition dbAsyncDelete s (d : nat) (key : list Z) : option (server V * bool) :=
  db ← dbs s !! d;
  s ← upd_db s d (fun db => set_data db (delete key (dict db)) (delete key (expires db)));
  Some (s, has_key db key).

Definition dbDelete s (d : nat) (key : list Z) : option (server V * bool) :=
  if lazyfree_lazy_server_del (globs s) then dbAsyncDelete s d key else dbSyncDelete s d key.

(** ** Expiration *)

Definition deleteExpiredKeyAndPropagate s (d : nat) (key : list Z) : option (server V) :=
  '(s, _) ← (if lazyfree_lazy_expire (globs s) then dbAsyncDelete s d key else dbSyncDelete s d key);
  s ← signalModifiedKey s d key;
  Some (add_expired s (d, key)).

Definition checkClientPauseTimeoutAndReturnIfPaused s : server V * bool :=
  if negb (clients_paused (globs s)) then (s, false)
  else
    let s := if client_pause_end_time (globs s) <? cached_mstime (globs s) then set_paused s false else s in
    (s, clients_paused (globs s)).

Definition expireIfNeeded s (d : nat) (key : list Z) : option (server V * bool) :=
  e ← keyIsExpired s d key;
  if negb (e : bool) then Some (s, false)
  else if masterhost (globs s) then Some (s, true)
  else
    let '(s, paused) := checkClientPauseTimeoutAndReturnIfPaused s in
    if paused then Some (s, true)
    else
      s ← deleteExpiredKeyAndPropagate s d key;
      Some (s, true).

Definition removeExpire s (d : nat) (key : list Z) : option (server V * bool) :=
  db ← dbs s !! d;
  if negb (has_key db key) then None
  else
    s ← upd_db s d (fun db => set_data db (dict db) (delete key (expires db)));
    Some (s, match expires db !! key with Some _ => true | None => false end).

Definition setExpire s (d : nat) (key : list Z) (when : Z) : option (server V) :=
  db ← dbs s !! d;
  if negb (has_key db key) then None
  else upd_db s d (fun db => set_data db (dict db) (<[key := when]> (expires db))).

(** ** Lookup *)

Definition lookupKey s (d : nat) (key : list Z) : option (option V) :=
  db ← dbs s !! d; Some (dict db !! key).

(** server.current_client is not the master and executes a read-only command. *)
Definition reader_is_client s : bool :=
  match current_client (globs s) with
  | None => false
  | Some ci => negb (bool_decide (master (globs s) = Some ci)) &&
      match clients s !! ci with Some c => negb (Z.land (cflags (cmd c)) CMD_READONLY =? 0) | None => false end
  end.

Definition lookupKeyReadWithFlags s (d : nat) (key : list Z) : option (server V * option V) :=
  '(s, e) ← expireIfNeeded s d key;
  if e && (negb (masterhost (globs s)) || reader_is_client s) then Some (add_stats s 0 1, None)
  else
    val ← lookupKey s d key;
    match val with
    | None => Some (add_stats s 0 1, None)
    | Some v => Some (add_stats s 1 0, Some v)
    end.

Definition lookupKeyWriteWithFlags s (d : nat) (key : list Z) : option (server V * option V) :=
  '(s, _) ← expireIfNeeded s d key;
  val ← lookupKey s d key;
  Some (s, val).

(** ** Insertion *)

Definition dbAdd s (d : nat) (key : list Z) (val : V) : option (server V) :=
  db ← dbs s !! d;
  if has_key db key then None
  else upd_db s d (fun db => set_data db (<[key := val]> (dict db)) (expires db)).

Definition dbOverwrite s (d : nat) (key : list Z) (val : V) : option (server V) :=
  db ← dbs s !! d;
  if negb (has_key db key) then None
  else upd_db s d (fun db => set_data db (<[key := val]> (dict db)) (expires db)).

Definition genericSetKey s (d : nat) (key : list Z) (val : V) (keepttl signal : bool) : option (server V) :=
  '(s, old) ← lookupKeyWriteWithFlags s d key;
  s ← match old with None => dbAdd s d key val | Some _ => dbOverwrite s d key val end;
  s ← (if keepttl then Some s else '(s, _) ← removeExpire s d key; Some s);
  if signal then signalModifiedKey s d key else Some s.

Definition setKey s (d : nat) (key : list Z) (val : V) : option (server V) := genericSetKey s d key val false true.

(** ** Whole databases *)

Fixpoint empty_dbs s (ds : list nat) : option (server V * Z) :=
  match ds with
  | [] => Some (s, 0)
  | d :: ds =>
      db ← dbs s !! d;
      s ← upd_db s d (fun db => set_data db ∅ ∅);
      '(s, removed) ← empty_dbs s ds;
      Some (s, Z.of_nat (size (dict db)) + removed)
  end.

Definition emptyDbStructure s (dbnum : Z) : option (server V * Z) := empty_dbs s (db_range s dbnum).

Definition emptyDb s (dbnum : Z) : option (server V * Z) :=
  if (dbnum <? -1) || (zlen (dbs s) <=? dbnum) then Some (s, -1)
  else
    s ← signalFlushedDb s dbnum;
    emptyDbStructure s dbnum.

(** C_OK = 0, C_ERR = -1 *)
Definition dbSwapDatabases s (id1 id2 : Z) : option (server V * Z) :=
  if (id1 <? 0) || (zlen (dbs s) <=? id1) || (id2 <? 0) || (zlen (dbs s) <=? id2) then Some (s, -1)
  else if id1 =? id2 then Some (s, 0)
  else
    let d1 := Z.to_nat id1 in
    let d2 := Z.to_nat id2 in
    aux ← dbs s !! d1;
    db2 ← dbs s !! d2;
    s ← upd_db s d1 (fun db1 => set_data db1 (dict db2) (expires db2));
    s ← upd_db s d2 (fun db2 => set_data db2 (dict aux) (expires aux));
    s ← touchAllWatchedKeysInDb s d1 (Some d2);
    s ← touchAllWatchedKeysInDb s d2 (Some d1);
    Some (s, 0).

Definition selectDb s (ci : nat) (id : Z) : option (server V * Z) :=
  if (id <? 0) || (zlen (dbs s) <=? id) then Some (s, -1)
  else s ← upd s ci (fun c => set_cdb c (Z.to_nat id)); Some (s, 0).

(** ** Commands *)

Definition nokeyerr : reply := ReplyError (str "-ERR no such key").

(** The loop of DEL and UNLINK; the result is the number of deleted keys. *)
Fixpoint del_keys s (d : nat) (lazy : bool) (keys : list (list Z)) (numdel : Z) : option (server V * Z) :=
  match keys with
  | [] => Some (s, numdel)
  | key :: keys =>
      '(s, _) ← expireIfNeeded s d key;
      '(s, deleted) ← (if lazy then dbAsyncDelete s d key else dbSyncDelete s d key);
      if (deleted : bool) then
        s ← signalModifiedKey s d key;
        del_keys (add_dirty s 1) d lazy keys (numdel + 1)
      else del_keys s d lazy keys numdel
  end.

Definition delGenericCommand s (ci : nat) (lazy : bool) : option (server V) :=
  c ← clients s !! ci;
  '(s, numdel) ← del_keys s (cdb c) lazy (drop 1 (argv c)) 0;
  upd s ci (fun c => addReply c (ReplyLongLong numdel)).

Fixpoint count_keys s (d : nat) (keys : list (list Z)) (count : Z) : option (server V * Z) :=
  match keys with
  | [] => Some (s, count)
  | key :: keys =>
      '(s, val) ← lookupKeyReadWithFlags s d key;
      count_keys s d keys (match val with Some _ => count + 1 | None => count end)
  end.

Definition existsCommand s (ci : nat) : option (server V) :=
  c ← clients s !! ci;
  '(s, count) ← count_keys s (cdb c) (drop 1 (argv c)) 0;
  upd s ci (fun c => addReply c (ReplyLongLong count)).

(** strcasecmp(a,b) == 0 *)
Definition tolower (b : Z) : Z := if (65 <=? b) && (b <=? 90) then b + 32 else b.
Definition strcaseeq (a b : list Z) : bool := bool_decide (map tolower a = map tolower b).

(** C_OK or C_ERR; whether the memory is freed asynchronously does not matter here. *)
Definition getFlushCommandFlags (args : list (list Z)) : bool :=
  match args with
  | [_] => true
  | [_; o] => strcaseeq o (str "sync") || strcaseeq o (str "async")
  | _ => false
  end.

Definition flushdbCommand s (ci : nat) : option (server V) :=
  c ← clients s !! ci;
  if negb (getFlushCommandFlags (argv c)) then upd s ci (fun c => addReply c (ReplyError (str "-ERR syntax error")))
  else
    '(s, removed) ← emptyDb s (Z.of_nat (cdb c));
    upd (add_dirty s removed) ci (fun c => addReply c ReplyOk).

(** The writes of RENAME: [o] is the value of [k1], [o2] the one of [k2]. *)
Definition rename_move s (d : nat) (k1 k2 : list Z) (o : V) (o2 : option V) (expire : Z) : option (server V) :=
  s ← match o2 with Some _ => '(s, _) ← dbDelete s d k2; Some s | None => Some s end;
  s ← dbAdd s d k2 o;
  s ← (if expire =? -1 then Some s else setExpire s d k2 expire);
  '(s, _) ← dbDelete s d k1;
  Some s.

Definition renameGenericCommand s (ci : nat) (nx : bool) : option (server V) :=
  c ← clients s !! ci;
  let d := cdb c in
  k1 ← argv c !! 1%nat;
  k2 ← argv c !! 2%nat;
  let samekey := bool_decide (k1 = k2) in
  '(s, o) ← lookupKeyWriteWithFlags s d k1;
  match o with
  | None => upd s ci (fun c => addReply c nokeyerr)
  | Some o =>
      if samekey then upd s ci (fun c => addReply c (if nx then ReplyLongLong 0 else ReplyOk))
      else
        db ← dbs s !! d;
        expire ← getExpire db k1;
        '(s, o2) ← lookupKeyWriteWithFlags s d k2;
        match o2, nx with
        | Some _, true => upd s ci (fun c => addReply c (ReplyLongLong 0))
        | _, _ =>
            s ← rename_move s d k1 k2 o o2 expire;
            s ← signalModifiedKey s d k1;
            s ← signalModifiedKey s d k2;
            upd (add_dirty s 1) ci (fun c => addReply c (if nx then ReplyLongLong 1 else ReplyOk))
        end
  end.

End ops.

(** ** Relations between the states before and after *)

Section facts.
Context {V : Type}.
Implicit Types (s : server V) (c : client) (db : redisDb V) (d i j : nat) (k : list Z) (K : nat -> list Z -> Prop).

(** What the keyspace API never changes: the clock, the role and the configuration. *)
Record env_eq (g g' : globals) : Prop := {
  ee_loading : loading g' = loading g;
  ee_lua : lua_caller g' = lua_caller g /\ lua_time_snapshot g' = lua_time_snapshot g;
  ee_time : fixed_time_expire g' = fixed_time_expire g /\ cached_mstime g' = cached_mstime g /\ mstime g' = mstime g;
  ee_role : masterhost g' = masterhost g /\ master g' = master g /\ current_client g' = current_client g;
  ee_paused : clients_paused g = false -> clients_paused g' = false;
  ee_tx : in_exec g' = in_exec g /\ propagate_in_transaction g' = propagate_in_transaction g;
}.

#[export] Instance env_eq_preorder : PreOrder env_eq.
Proof.
  split; [by intros g; split|]. intros g1 g2 g3 [] []. destruct_and?. split; split_and?; auto; congruence.
Qed.

(** Only the data of the keys of [K] changes. *)
Record data_only K s s' : Prop := {
  do_clients : clients s' = clients s;
  do_globs : globs s' = globs s;
  do_dbs d : match dbs s !! d, dbs s' !! d with
             | Some db, Some db' => db_watched_keys db' = db_watched_keys db /\
                 forall k, ~ K d k -> dict db' !! k = dict db !! k /\ expires db' !! k = expires db !! k
             | None, None => True
             | _, _ => False
             end;
  do_expires d db k : dbs s' !! d = Some db -> is_Some (expires db !! k) -> is_Some (dict db !! k);
}.

Lemma data_only_trans K s1 s2 s3 : data_only K s1 s2 -> data_only K s2 s3 -> data_only K s1 s3.
Proof.
  intros [A1 A2 A3 A4] [B1 B2 B3 B4]. split; [congruence | congruence | | done].
  intros d. specialize (A3 d). specialize (B3 d). destruct (dbs s1 !! d), (dbs s2 !! d), (dbs s3 !! d); try done.
  destruct A3 as [A3 A3'], B3 as [B3 B3']. split; [congruence|]. intros k Hk.
  destruct (A3' k Hk), (B3' k Hk). split; congruence.
Qed.

Lemma data_only_weaken K K' s s' : (forall d k, K d k -> K' d k) -> data_only K s s' -> data_only K' s s'.
Proof.
  intros HK [A1 A2 A3 A4]. split; try done. intros d. specialize (A3 d).
  destruct (dbs s !! d), (dbs s' !! d); try done. destruct A3 as [A3 A3']. split; [done|]. intros k Hk. apply A3'. eauto.
Qed.

Lemma data_only_refl K s : watch_ok s -> data_only K s s.
Proof. intros Hs. split; try done; [|apply (wo_expires _ Hs)]. intros d. by destruct (dbs s !! d). Qed.

Lemma data_only_watch_ok K s s' : watch_ok s -> data_only K s s' -> watch_ok s'.
Proof.
  intros Hs [A1 A2 A3 A4].
  assert (forall i, watches s' i = watches s i) as Hw by (intros i; unfold watches; by rewrite A1).
  assert (forall d k, watchers s' d k = watchers s d k) as Hr.
  { intros d k. unfold watchers. specialize (A3 d). destruct (dbs s !! d), (dbs s' !! d); try done. by destruct A3 as [-> _]. }
  split.
  - intros i d k. rewrite Hr, Hw. apply (wo_iff _ Hs).
  - intros d k. rewrite Hr. apply (wo_watchers _ Hs).
  - intros i. rewrite Hw. apply (wo_watches _ Hs).
  - intros d db' k Hd. specialize (A3 d). rewrite Hd in A3. destruct (dbs s !! d) as [db|] eqn:Hdb; [|done].
    destruct A3 as [-> _]. by apply (wo_nonempty _ Hs d).
  - intros i c. rewrite A1. intros Hc. apply (wo_db _ Hs) in Hc as [db Hdb]. specialize (A3 (cdb c)). rewrite Hdb in A3.
    destruct (dbs s' !! cdb c); [by eexists|done].
  - done.
Qed.

Lemma data_only_db K s s' d : data_only K s s' -> is_Some (dbs s !! d) -> is_Some (dbs s' !! d).
Proof. intros [_ _ A3 _] [db Hd]. specialize (A3 d). rewrite Hd in A3. destruct (dbs s' !! d); [by eexists|done]. Qed.

(** One update of a database. *)
Lemma upd_data_only K s d db m e : watch_ok s -> dbs s !! d = Some db ->
  (forall k, is_Some (e !! k) -> is_Some (m !! k)) ->
  (forall k, ~ K d k -> m !! k = dict db !! k /\ e !! k = expires db !! k) ->
  data_only K s (Server (clients s) (<[d := set_data db m e]> (dbs s)) (globs s)).
Proof.
  intros Hs Hd He HK. split; try done.
  - intros d'. rewrite (dbs_upd s d db) by done. destruct (decide (d' = d)) as [->|Hne]; [by rewrite Hd|].
    by destruct (dbs s !! d').
  - intros d' db' k. rewrite (dbs_upd s d db) by done. destruct (decide (d' = d)) as [->|Hne]; [|by apply (wo_expires _ Hs)].
    intros [= <-]. apply He.
Qed.

(** *** What the users of the keyspace API observe *)

(** The value and the expire of a key that is not expired. *)
Definition view s d k : option (V * option Z) :=
  db ← dbs s !! d;
  if expired s db k then None else v ← dict db !! k; Some (v, expires db !! k).

Lemma expired_env s s' db k : env_eq (globs s) (globs s') -> expired s' db k = expired s db k.
Proof.
  intros [A [B1 B2] (C1 & C2 & C3) _ _ _]. unfold expired, now. by rewrite A, B1, B2, C1, C2, C3.
Qed.

Lemma view_data_only K s s' d k : data_only K s s' -> ~ K d k -> view s' d k = view s d k.
Proof.
  intros [A1 A2 A3 _] HK. unfold view. specialize (A3 d). destruct (dbs s !! d) as [db|], (dbs s' !! d) as [db'|]; try done.
  simpl_bind. destruct A3 as [_ A3]. destruct (A3 k HK) as [Hk He]. unfold expired, now. by rewrite A2, Hk, He.
Qed.

Lemma view_env s s' : env_eq (globs s) (globs s') -> dbs s' = dbs s -> forall d k, view s' d k = view s d k.
Proof.
  intros He Hd d k. unfold view. rewrite Hd. destruct (dbs s !! d) as [db|]; [|done]. simpl_bind. by rewrite (expired_env s s').
Qed.

(** *** Operations of the keyspace *)

(** The clients are only flagged, they can rely on their watched keys, and the invariant holds. *)
Record quiet s s' : Prop := {
  q_ok : watch_ok s -> watch_ok s';
  q_cas a : cas_keeps a s s';
  q_env : env_eq (globs s) (globs s');
  q_db d : is_Some (dbs s !! d) <-> is_Some (dbs s' !! d);
  q_client i c : clients s !! i = Some c -> exists c', clients s' !! i = Some c' /\ (c' = c \/ c' = set_dirty c);
  q_none i : clients s !! i = None -> clients s' !! i = None;
}.

#[export] Instance quiet_preorder : PreOrder quiet.
Proof.
  split.
  - intros s. split; try done. intros i c Hc. eauto.
  - intros s1 s2 s3 [A1 A2 A3 A4 A5 A6] [B1 B2 B3 B4 B5 B6]. split; eauto.
    + intros a. by transitivity s2.
    + by transitivity (globs s2).
    + intros d. rewrite A4. apply B4.
    + intros i c Hc. destruct (A5 i c Hc) as (c' & Hc' & H). destruct (B5 i c' Hc') as (c'' & Hc'' & H').
      exists c''. split; [done|]. destruct H as [-> | ->], H' as [-> | ->]; rewrite ?set_dirty_idem; auto.
Qed.

Lemma flagged_quiet P s s' : flagged P s s' -> quiet s s'.
Proof.
  intros Hf. split; [eauto with watch | eauto with watch | destruct Hf as (_ & -> & _); done |
    destruct Hf as (-> & _); done | intros i c Hc; by eapply flagged_client | intros i; by apply (flagged_none P)].
Qed.

(** A change of the globals. *)
Lemma globs_quiet s g : env_eq (globs s) g -> quiet s (set_globs s g).
Proof.
  intros Hg. split; try done; [|intros a; by apply cas_keeps_other|intros i c Hc; eauto].
  intros Hs. by apply (watch_ok_intro s); try done; [eauto|apply Hs..].
Qed.

(** A write of keys, and the signals for them afterwards. *)
Lemma quiet_data_flag K P s s1 s2 : watch_ok s -> data_only K s s1 -> flagged P s1 s2 ->
  (forall a d k, (d, k) ∈ watches s a -> P a \/ lookup_data s1 d k = lookup_data s d k) -> quiet s s2.
Proof.
  intros Hs Hd Hf HP. pose proof (data_only_watch_ok _ _ _ Hs Hd) as Hs1. pose proof Hd as [Hc Hg Hdo Hex]. split.
  - intros _. eauto with watch.
  - intros a. eapply (write_keeps (fun d' k' => (d', k') ∈ watches s a /\ P a)); [done | done | by intros ? ? [_ ?] |].
    intros d' k' Hk. destruct (HP a d' k' Hk); auto.
  - destruct Hf as (_ & -> & _). by rewrite Hg.
  - intros d'. destruct Hf as (-> & _). specialize (Hdo d').
    destruct (dbs s !! d'), (dbs s1 !! d'); try done; split; intros; by eexists.
  - intros i c Hi. rewrite <- Hc in Hi. by eapply flagged_client.
  - intros i. rewrite <- Hc. by apply (flagged_none P).
Qed.

(** The signals first. *)
Lemma quiet_flag_data K P s s1 s2 : watch_ok s -> flagged P s s1 -> data_only K s1 s2 ->
  (forall a d k, (d, k) ∈ watches s a -> P a \/ lookup_data s2 d k = lookup_data s d k) -> quiet s s2.
Proof.
  intros Hs Hf Hd HP. pose proof (flagged_watch_ok _ _ _ Hs Hf) as Hs1.
  pose proof (data_only_watch_ok _ _ _ Hs1 Hd) as Hs2. pose proof Hd as [Hc Hg Hdo Hex].
  assert (forall a, watches s2 a = watches s1 a) as Hw by (intros a; unfold watches; by rewrite Hc).
  assert (forall a, dirty_cas s2 a <-> dirty_cas s1 a) as Hdc by (intros a; unfold dirty_cas; by rewrite Hc).
  split.
  - done.
  - intros a. destruct (flagged_keeps P a s s1 Hf) as [H1 H2 H3 H4].
    split; [by rewrite Hc | by setoid_rewrite Hw | by rewrite Hdc|].
    intros d k Hk. destruct (HP a d k Hk) as [Ha|]; [left|by right]. rewrite Hdc. apply (flagged_dirty P s s1 a Hf Ha).
    unfold watches in Hk. destruct (clients s !! a); [by eexists|by apply not_elem_of_nil in Hk].
  - destruct Hf as (_ & <- & _). by rewrite Hg.
  - intros d'. destruct Hf as (<- & _). specialize (Hdo d').
    destruct (dbs s1 !! d'), (dbs s2 !! d'); try done; split; intros; by eexists.
  - intros i c Hi. rewrite Hc. by eapply flagged_client.
  - intros i. rewrite Hc. by apply (flagged_none P).
Qed.

Lemma data_only_lookup K s s' d k : data_only K s s' -> ~ K d k -> lookup_data s' d k = lookup_data s d k.
Proof.
  intros [_ _ Hdo _] HK. unfold lookup_data. specialize (Hdo d). destruct (dbs s !! d), (dbs s' !! d); try done.
  simpl_bind. by apply Hdo.
Qed.

Lemma data_only_signal K s s1 d k : watch_ok s -> data_only K s s1 -> is_Some (dbs s !! d) ->
  exists s2, signalModifiedKey s1 d k = Some s2 /\ flagged (fun i => (d, k) ∈ watches s i) s1 s2.
Proof.
  intros Hs Hd Hdb. pose proof (data_only_watch_ok _ _ _ Hs Hd) as Hs1. pose proof (data_only_db _ _ _ d Hd Hdb) as Hdb1.
  destruct (touchWatchedKey_ok s1 d k Hs1 Hdb1) as (s2 & Ht & Hf). exists s2. split; [done|].
  eapply flagged_weaken; [|done]. intros i. unfold watches. by rewrite (do_clients _ _ _ Hd).
Qed.

(** A write to one key, and its signal. *)
Lemma signal_write s s1 d k : watch_ok s -> data_only (fun d' k' => d' = d /\ k' = k) s s1 -> is_Some (dbs s !! d) ->
  exists s2, signalModifiedKey s1 d k = Some s2 /\ quiet s s2 /\ flagged (fun i => (d, k) ∈ watches s i) s1 s2.
Proof.
  intros Hs Hd Hdb. destruct (data_only_signal _ s s1 d k Hs Hd Hdb) as (s2 & Ht & Hf).
  exists s2. split; [done|]. split; [|done]. eapply quiet_data_flag; [done.. |].
  intros a d' k' Hk. destruct (decide (d' = d /\ k' = k)) as [[-> ->]|Hne]; [by left|right]. by eapply data_only_lookup.
Qed.

Lemma flagged_view P s s' d k : flagged P s s' -> view s' d k = view s d k.
Proof. intros (Hd & Hg & _). apply view_env; [by rewrite Hg|done]. Qed.

(** A master whose clients are not paused: expired keys are deleted on access. *)
Definition active s : Prop := masterhost (globs s) = false /\ clients_paused (globs s) = false.

Lemma quiet_active s s' : quiet s s' -> active s -> active s'.
Proof. intros [_ _ [] _ _ _] [H1 H2]. destruct_and?. split; [congruence|auto]. Qed.

(** The keys that exist, their values and their expires are the same for an observer. The clients that
    watch a key may be flagged: when an expired key is deleted on access, its watchers are. *)
Definition silent s s' : Prop := quiet s s' /\ forall d k, view s' d k = view s d k.

#[export] Instance silent_preorder : PreOrder silent.
Proof.
  split; [by intros s|]. intros s1 s2 s3 [Q1 V1] [Q2 V2]. split; [by transitivity s2|]. intros d k. by rewrite V2.
Qed.

Lemma view_Some s d k v e : view s d k = Some (v, e) ->
  exists db, dbs s !! d = Some db /\ expired s db k = false /\ dict db !! k = Some v /\ expires db !! k = e.
Proof.
  unfold view. destruct (dbs s !! d) as [db|]; [|done]. simpl_bind. destruct (expired s db k) eqn:He; [done|].
  destruct (dict db !! k) as [v'|] eqn:Hk; [|done]. simpl_bind. intros [= -> <-]. by exists db.
Qed.

Lemma view_live s d db k : dbs s !! d = Some db -> expired s db k = false -> dict db !! k = fst <$> view s d k.
Proof. intros Hd He. unfold view. rewrite Hd. simpl_bind. rewrite He. by destruct (dict db !! k). Qed.

Lemma view_expires s d db k : watch_ok s -> dbs s !! d = Some db -> expired s db k = false ->
  expires db !! k = (p ← view s d k; p.2).
Proof.
  intros Hs Hd He. unfold view. rewrite Hd. simpl_bind. rewrite He. destruct (dict db !! k) as [v|] eqn:Hk; [done|].
  simpl_bind. apply eq_None_not_Some. intros H. apply (wo_expires _ Hs d db k Hd) in H as [? ?]. congruence.
Qed.

Definition stats_eq s s' : Prop :=
  stat_keyspace_hits (globs s') = stat_keyspace_hits (globs s) /\
  stat_keyspace_misses (globs s') = stat_keyspace_misses (globs s) /\ dirty (globs s') = dirty (globs s).

(** *** Deletion *)

Lemma delete_data_only s d db k : watch_ok s -> dbs s !! d = Some db ->
  data_only (fun d' k' => d' = d /\ k' = k) s
    (Server (clients s) (<[d := set_data db (delete k (dict db)) (delete k (expires db))]> (dbs s)) (globs s)).
Proof.
  intros Hs Hd. apply upd_data_only; try done.
  - intros k'. rewrite !lookup_delete_is_Some. intros [? ?]. split; [done|]. by apply (wo_expires _ Hs d db).
  - intros k' Hk'. by rewrite !lookup_delete_ne by naive_solver.
Qed.

Lemma dbSyncDelete_eq s d db k : dbs s !! d = Some db -> dbSyncDelete s d k =
  Some (Server (clients s) (<[d := set_data db (delete k (dict db)) (delete k (expires db))]> (dbs s)) (globs s), has_key db k).
Proof. intros Hd. unfold dbSyncDelete. rewrite Hd. simpl_bind. by rewrite (upd_db_Some s d _ db Hd). Qed.

Lemma dbAsyncDelete_eq s d db k : dbs s !! d = Some db -> dbAsyncDelete s d k =
  Some (Server (clients s) (<[d := set_data db (delete k (dict db)) (delete k (expires db))]> (dbs s)) (globs s), has_key db k).
Proof. intros Hd. unfold dbAsyncDelete. rewrite Hd. simpl_bind. by rewrite (upd_db_Some s d _ db Hd). Qed.

Lemma view_upd s d db m e k : dbs s !! d = Some db ->
  view (Server (clients s) (<[d := set_data db m e]> (dbs s)) (globs s)) d k =
  if expired s (set_data db m e) k then None else v ← m !! k; Some (v, e !! k).
Proof. intros Hd. unfold view. rewrite (dbs_upd s d db) by done. by rewrite decide_True by done. Qed.

Lemma deleteExpired_ok s d db k : watch_ok s -> dbs s !! d = Some db ->
  exists s', deleteExpiredKeyAndPropagate s d k = Some s' /\ quiet s s' /\
    (forall d' k', (d', k') <> (d, k) -> view s' d' k' = view s d' k') /\
    dbs s' !! d = Some (set_data db (delete k (dict db)) (delete k (expires db))) /\
    propagated_dels (globs s') = propagated_dels (globs s) ++ [(d, k)] /\ stats_eq s s'.
Proof.
  intros Hs Hd. unfold deleteExpiredKeyAndPropagate. rewrite (dbSyncDelete_eq s d db), (dbAsyncDelete_eq s d db) by done.
  replace (if lazyfree_lazy_expire (globs s) then _ else _) with
    (Some (Server (clients s) (<[d := set_data db (delete k (dict db)) (delete k (expires db))]> (dbs s)) (globs s), has_key db k))
    by (by destruct (lazyfree_lazy_expire (globs s))).
  simpl_bind. set (s1 := Server _ _ _). pose proof (delete_data_only s d db k Hs Hd) as Hdo. fold s1 in Hdo.
  destruct (signal_write s s1 d k Hs Hdo) as (s2 & -> & Hq & Hf); [by eexists|]. simpl_bind. eexists. split; [done|].
  assert (env_eq (globs s2) (globs (add_expired s2 (d, k)))) as He by (by split).
  split_and!.
  - transitivity s2; [done|]. by apply globs_quiet.
  - intros d' k' Hne. rewrite (view_env s2 (add_expired s2 (d, k))), (flagged_view _ _ _ _ _ Hf) by done.
    eapply view_data_only; [done|]. intros [-> ->]. done.
  - simpl. destruct Hf as (-> & _). unfold s1. rewrite (dbs_upd s d db) by done. by rewrite decide_True.
  - simpl. destruct Hf as (_ & -> & _). done.
  - unfold stats_eq. simpl. destruct Hf as (_ & -> & _). done.
Qed.

(** *** Expiration on access *)

Lemma expireIfNeeded_ok s d db k : watch_ok s -> dbs s !! d = Some db ->
  exists s' db', expireIfNeeded s d k = Some (s', expired s db k) /\ silent s s' /\ dbs s' !! d = Some db' /\
    (expired s db k = false \/ masterhost (globs s) = true -> s' = s) /\ stats_eq s s' /\
    (active s -> expired s' db' k = false) /\
    (active s -> expired s db k = true -> propagated_dels (globs s') = propagated_dels (globs s) ++ [(d, k)]).
Proof.
  intros Hs Hd. unfold expireIfNeeded. rewrite (keyIsExpired_ok s d db k Hs Hd). simpl_bind.
  destruct (expired s db k) eqn:He; simpl negb; cbv iota.
  2: { exists s, db. split_and!; done. }
  destruct (masterhost (globs s)) eqn:Hm.
  { exists s, db. split_and!; try done; intros [? _]; congruence. }
  assert (exists s1 b, checkClientPauseTimeoutAndReturnIfPaused s = (s1, b) /\ silent s s1 /\ dbs s1 = dbs s /\ stats_eq s s1 /\
    (active s -> b = false /\ s1 = s)) as (s1 & b & -> & Hq1 & Hd1 & Hst & Ha).
  { unfold checkClientPauseTimeoutAndReturnIfPaused. destruct (clients_paused (globs s)) eqn:Hp; simpl negb; cbv iota.
    2: { by exists s, false. }
    case_match; eexists _, _; (split; [done|]); split_and!; try done; try (intros [_ ?]; congruence).
    assert (env_eq (globs s) (globs (set_paused s false))) by (by split).
    split; [by apply globs_quiet|]. by apply view_env. }
  destruct b.
  { exists s1, db. split_and!; try done; [by rewrite Hd1|intros [?|?]; done|intros Hac; destruct (Ha Hac); done..]. }
  destruct (deleteExpired_ok s1 d db k) as (s2 & -> & Hq & Hv & Hd2 & Hp & Hst2); [by apply Hq1 | by rewrite Hd1|].
  simpl_bind. eexists s2, _. split; [done|]. split; [|split; [exact Hd2|]].
  - split; [transitivity s1; [apply Hq1|done]|]. intros d' k'. destruct (decide ((d', k') = (d, k))) as [[= -> ->]|Hne].
    + unfold view. rewrite Hd, Hd2. simpl_bind. rewrite He. destruct (expired s2 _ k); [done|]. cbn [set_data dict]. rewrite lookup_delete_eq. done.
    + rewrite Hv by done. apply Hq1.
  - split; [by intros [?|?]|]. split.
    { destruct Hst as (? & ? & ?), Hst2 as (? & ? & ?). split_and!; congruence. }
    split.
    + intros _. unfold expired. simpl. by rewrite lookup_delete_eq.
    + intros Hac _. destruct (Ha Hac) as [_ ->]. done.
Qed.

(** *** Lookup *)

Lemma add_stats_silent s h m : silent s (add_stats s h m).
Proof.
  assert (env_eq (globs s) (globs (add_stats s h m))) by (by split).
  split; [by apply globs_quiet|]. by apply view_env.
Qed.

Lemma add_dirty_silent s n : silent s (add_dirty s n).
Proof.
  assert (env_eq (globs s) (globs (add_dirty s n))) by (by split).
  split; [by apply globs_quiet|]. by apply view_env.
Qed.


Lemma silent_ok s s' : silent s s' -> watch_ok s -> watch_ok s'.
Proof. intros [Hq _]. apply Hq. Qed.

Lemma lookupKeyRead_ok s d db k : watch_ok s -> dbs s !! d = Some db ->
  exists s' r, lookupKeyReadWithFlags s d k = Some (s', r) /\ watch_ok s' /\ silent s s' /\
    r = (if masterhost (globs s) && negb (reader_is_client s) then dict db !! k else fst <$> view s d k) /\
    stat_keyspace_hits (globs s') + stat_keyspace_misses (globs s') =
      stat_keyspace_hits (globs s) + stat_keyspace_misses (globs s) + 1 /\
    (stat_keyspace_hits (globs s') = stat_keyspace_hits (globs s) + 1 <-> is_Some r).
Proof.
  intros Hs Hd. unfold lookupKeyReadWithFlags.
  destruct (expireIfNeeded_ok s d db k Hs Hd) as (s1 & db1 & -> & Hsil & Hd1 & Hne & (Hh & Hm & _) & _). simpl_bind.
  pose proof (silent_ok _ _ Hsil Hs) as Hs1.
  assert (masterhost (globs s1) = masterhost (globs s)) as Hmh by (by destruct Hsil as [[_ _ [] _ _ _] _]; destruct_and?).
  assert (forall h m, silent s (add_stats s1 h m) /\ watch_ok (add_stats s1 h m)) as Hst.
  { intros h m. split; [transitivity s1; [done|apply add_stats_silent]|]. by apply (silent_ok s1); [apply add_stats_silent|]. }
  assert (expired s db k = true -> fst <$> view s d k = None) as Hx.
  { intros He. unfold view. rewrite Hd. simpl_bind. by rewrite He. }
  rewrite Hmh. unfold lookupKey. rewrite Hd1. simpl_bind.
  destruct (expired s db k && (negb (masterhost (globs s)) || reader_is_client s1)) eqn:Hc.
  - apply andb_true_iff in Hc as [He Hc]. rewrite (Hx He).
    exists (add_stats s1 0 1), None. split; [done|]. split; [apply Hst|]. split; [apply Hst|]. simpl. split_and!; [|lia|].
    + destruct (masterhost (globs s)) eqn:Hmm; [|done]. rewrite Hne in Hc by auto. simpl in Hc. by rewrite Hc.
    + split; [lia|by intros [? ?]].
  - assert (dict db1 !! k = (if masterhost (globs s) && negb (reader_is_client s) then dict db !! k else fst <$> view s d k)) as <-.
    { apply andb_false_iff in Hc as [He|Hc].
      - rewrite Hne in Hd1 by auto. simplify_eq. rewrite <- (view_live s d db k Hd He). by case_match.
      - apply orb_false_iff in Hc as [Hc1 Hc2]. apply negb_false_iff in Hc1. rewrite Hne in Hd1, Hc2 by auto.
        simplify_eq. by rewrite Hc1, Hc2. }
    destruct (dict db1 !! k) as [v|];
      [exists (add_stats s1 1 0), (Some v)|exists (add_stats s1 0 1), None];
      (split; [done|]); (split; [apply Hst|]); (split; [apply Hst|]); simpl; split_and!; try done; try lia.
    + split; [by eexists|lia].
    + split; [lia|by intros [? ?]].
Qed.

(** *** The exact effect of an access *)

(** The access deletes the key: it is expired, this is a master, and the clients are not paused or the
    pause is over. *)
Definition access_deletes s db k : bool :=
  expired s db k && negb (masterhost (globs s)) &&
  negb (clients_paused (globs s) && negb (client_pause_end_time (globs s) <? cached_mstime (globs s))).

(** The state after an access: the databases, the clients and the propagated deletions. *)
Record accessed s s' d db k : Prop := {
  ac_dbs : dbs s' = if access_deletes s db k then <[d := set_data db (delete k (dict db)) (delete k (expires db))]> (dbs s) else dbs s;
  ac_clients i : clients s' !! i =
    if access_deletes s db k && bool_decide ((d, k) ∈ watches s i) then set_dirty <$> clients s !! i else clients s !! i;
  ac_dels : propagated_dels (globs s') = propagated_dels (globs s) ++ (if access_deletes s db k then [(d, k)] else []);
  ac_dirty : dirty (globs s') = dirty (globs s);
}.

Lemma deleteExpired_exact s d db k : watch_ok s -> dbs s !! d = Some db ->
  exists s', deleteExpiredKeyAndPropagate s d k = Some s' /\
    dbs s' = <[d := set_data db (delete k (dict db)) (delete k (expires db))]> (dbs s) /\
    (forall i, clients s' !! i = if bool_decide ((d, k) ∈ watches s i) then set_dirty <$> clients s !! i else clients s !! i) /\
    propagated_dels (globs s') = propagated_dels (globs s) ++ [(d, k)] /\ dirty (globs s') = dirty (globs s).
Proof.
  intros Hs Hd. unfold deleteExpiredKeyAndPropagate. rewrite (dbSyncDelete_eq s d db), (dbAsyncDelete_eq s d db) by done.
  replace (if lazyfree_lazy_expire (globs s) then _ else _) with
    (Some (Server (clients s) (<[d := set_data db (delete k (dict db)) (delete k (expires db))]> (dbs s)) (globs s), has_key db k))
    by (by destruct (lazyfree_lazy_expire (globs s))).
  simpl_bind. set (s1 := Server _ _ _). pose proof (delete_data_only s d db k Hs Hd) as Hdo. fold s1 in Hdo.
  destruct (touchWatchedKey_exact s1 d k) as (s2 & He & Hd2 & Hg2 & Hc2);
    [by eapply data_only_watch_ok | apply (data_only_db _ _ _ d Hdo); by eexists|].
  unfold signalModifiedKey. rewrite He. simpl_bind. eexists. split; [done|]. split_and!; [exact Hd2 | | by cbn; rewrite Hg2 | by cbn; rewrite Hg2].
  intros i. cbn. rewrite Hc2. done.
Qed.

Lemma expireIfNeeded_exact s d db k : watch_ok s -> dbs s !! d = Some db ->
  exists s', expireIfNeeded s d k = Some (s', expired s db k) /\ accessed s s' d db k.
Proof.
  intros Hs Hd. unfold expireIfNeeded. rewrite (keyIsExpired_ok s d db k Hs Hd). simpl_bind.
  assert (forall s', dbs s' = dbs s -> clients s' = clients s -> propagated_dels (globs s') = propagated_dels (globs s) ->
    dirty (globs s') = dirty (globs s) -> access_deletes s db k = false -> accessed s s' d db k) as Hno.
  { intros s' H1 H2 H3 H4 Ha. split; rewrite ?Ha; [done | by rewrite H2 | by rewrite app_nil_r | done]. }
  destruct (expired s db k) eqn:He; cbn [negb]; [|exists s; split; [done|]; apply Hno; try done; unfold access_deletes; by rewrite He].
  destruct (masterhost (globs s)) eqn:Hm; [exists s; split; [done|]; apply Hno; try done; unfold access_deletes; by rewrite He, Hm|].
  assert (exists s1, checkClientPauseTimeoutAndReturnIfPaused s = (s1, negb (access_deletes s db k)) /\ dbs s1 = dbs s /\ clients s1 = clients s /\
    propagated_dels (globs s1) = propagated_dels (globs s) /\ dirty (globs s1) = dirty (globs s) /\ watch_ok s1) as (s1 & -> & H1 & H2 & H3 & H4 & Hs1).
  { unfold checkClientPauseTimeoutAndReturnIfPaused, access_deletes. rewrite He, Hm. destruct (clients_paused (globs s)) eqn:Hp; cbn [negb andb]; [|by exists s].
    destruct (client_pause_end_time (globs s) <? cached_mstime (globs s)); cbn [negb].
    - exists (set_paused s false). split_and!; try done. by apply (watch_ok_intro s); try done; [eauto|apply Hs..].
    - exists s. by rewrite Hp. }
  destruct (access_deletes s db k) eqn:Ha; cbn [negb]; [|by exists s1; split; [|apply Hno]].
  destruct (deleteExpired_exact s1 d db k Hs1) as (s2 & -> & D1 & D2 & D3 & D4); [by rewrite H1|]. simpl_bind. exists s2. split; [done|].
  split; rewrite ?Ha; [by rewrite D1, H1 | | by rewrite D3, H3 | by rewrite D4].
  intros i. rewrite D2, H2. unfold watches. by rewrite H2.
Qed.

Lemma lookupKeyRead_exact s d db k s' r : watch_ok s -> dbs s !! d = Some db -> lookupKeyReadWithFlags s d k = Some (s', r) -> accessed s s' d db k.
Proof.
  intros Hs Hd. unfold lookupKeyReadWithFlags. destruct (expireIfNeeded_exact s d db k Hs Hd) as (s1 & -> & Ha). simpl_bind.
  assert (forall h m, accessed s (add_stats s1 h m) d db k) as Hst by (intros h m; by destruct Ha).
  destruct (_ && _); [by intros [= <- _]|]. unfold lookupKey. destruct (dbs s1 !! d) as [db1|]; [|done]. simpl_bind.
  destruct (dict db1 !! k); by intros [= <- _].
Qed.

(** C5. A lookup for reading never fails an assertion. It returns the value of the key, and nothing when the key does
    not exist or its expire is past; only on a replica, for readers other than clients that execute a read-only
    command, it returns the value that is stored. It counts one hit or one miss. No observer sees another value or
    expire of any key afterwards. Its effect is exact: when the key is expired, on a master whose clients are not
    paused, it is deleted, exactly the clients that watch it are flagged, and one deletion is propagated; in all
    other cases no database and no client changes, nobody's WATCH is touched, and nothing is propagated. *)
Theorem lookupKeyRead_correct s d db k : watch_ok s -> dbs s !! d = Some db ->
  exists s' r, lookupKeyReadWithFlags s d k = Some (s', r) /\ watch_ok s' /\ silent s s' /\ accessed s s' d db k /\
    r = (if masterhost (globs s) && negb (reader_is_client s) then dict db !! k else fst <$> view s d k) /\
    stat_keyspace_hits (globs s') + stat_keyspace_misses (globs s') =
      stat_keyspace_hits (globs s) + stat_keyspace_misses (globs s) + 1 /\
    (stat_keyspace_hits (globs s') = stat_keyspace_hits (globs s) + 1 <-> is_Some r).
Proof.
  intros Hs Hd. destruct (lookupKeyRead_ok s d db k Hs Hd) as (s' & r & He & H1 & H2 & H3). exists s', r.
  pose proof (lookupKeyRead_exact s d db k s' r Hs Hd He). done.
Qed.

Lemma lookupKeyWrite_ok s d db k : watch_ok s -> dbs s !! d = Some db ->
  exists s' db', lookupKeyWriteWithFlags s d k = Some (s', dict db' !! k) /\ watch_ok s' /\ silent s s' /\ dbs s' !! d = Some db' /\
    (active s -> expired s' db' k = false /\ dict db' !! k = fst <$> view s d k).
Proof.
  intros Hs Hd. unfold lookupKeyWriteWithFlags.
  destruct (expireIfNeeded_ok s d db k Hs Hd) as (s1 & db1 & -> & Hsil & Hd1 & _ & _ & Hac & _). simpl_bind.
  unfold lookupKey. rewrite Hd1. simpl_bind. exists s1, db1. split_and!; try done; [by apply (silent_ok s)|].
  intros Ha. split; [by apply Hac|]. destruct Hsil as [_ Hv]. rewrite <- Hv. apply view_live; auto.
Qed.

(** *** Insertion *)

Lemma has_key_None db k : dict db !! k = None -> has_key db k = false.
Proof. intros H. unfold has_key. by rewrite H. Qed.

Lemma has_key_Some db k v : dict db !! k = Some v -> has_key db k = true.
Proof. intros H. unfold has_key. by rewrite H. Qed.

(** The state after the value of a key was set, and perhaps its expire removed. *)
Definition put_state s d db k (v : V) (keepttl : bool) : server V :=
  Server (clients s) (<[d := set_data db (<[k := v]> (dict db)) (if keepttl then expires db else delete k (expires db))]> (dbs s)) (globs s).

Lemma put_data_only s d db k v b : watch_ok s -> dbs s !! d = Some db ->
  data_only (fun d' k' => d' = d /\ k' = k) s (put_state s d db k v b).
Proof.
  intros Hs Hd. apply upd_data_only; try done.
  - intros k' He. destruct (decide (k' = k)) as [->|Hne]; [rewrite lookup_insert_eq; by eexists|].
    rewrite lookup_insert_ne by done. destruct b; [|apply lookup_delete_is_Some in He as [_ He]]; by apply (wo_expires _ Hs d db).
  - intros k' Hk'. rewrite lookup_insert_ne by naive_solver. destruct b; [done|]. by rewrite lookup_delete_ne by naive_solver.
Qed.

Lemma put_put s d db k v : dbs s !! d = Some db ->
  upd_db (put_state s d db k v true) d (fun db => set_data db (dict db) (delete k (expires db))) = Some (put_state s d db k v false).
Proof.
  intros Hd. unfold put_state. rewrite (upd_db_Some _ d _ (set_data db (<[k := v]> (dict db)) (expires db))).
  - simpl. by rewrite list_insert_insert_eq.
  - rewrite (dbs_upd s d db) by done. by rewrite decide_True.
Qed.

(** The steps of genericSetKey() after the lookup. *)
Lemma store_ok s d db k v : dbs s !! d = Some db ->
  match dict db !! k with None => dbAdd s d k v | Some _ => dbOverwrite s d k v end = Some (put_state s d db k v true).
Proof.
  intros Hd. destruct (dict db !! k) as [o|] eqn:Hk.
  - unfold dbOverwrite. rewrite Hd. simpl_bind. rewrite (has_key_Some db k o Hk). by rewrite (upd_db_Some s d _ db Hd).
  - unfold dbAdd. rewrite Hd. simpl_bind. rewrite (has_key_None db k Hk). by rewrite (upd_db_Some s d _ db Hd).
Qed.

Lemma put_state_db s d db k v b : dbs s !! d = Some db ->
  dbs (put_state s d db k v b) !! d =
  Some (set_data db (<[k := v]> (dict db)) (if b then expires db else delete k (expires db))).
Proof. intros Hd. unfold put_state. rewrite (dbs_upd s d db) by done. by rewrite decide_True. Qed.

Lemma persist_ok s d db k v (keepttl : bool) : dbs s !! d = Some db ->
  (if keepttl then Some (put_state s d db k v true) else '(s, _) ← removeExpire (put_state s d db k v true) d k; Some s)
  = Some (put_state s d db k v keepttl).
Proof.
  intros Hd. destruct keepttl; [done|]. unfold removeExpire. rewrite (put_state_db s d db k v true Hd). simpl_bind.
  rewrite (has_key_Some _ k v); [|apply lookup_insert_eq]. simpl negb. cbv iota. by rewrite (put_put s d db k v Hd).
Qed.

Lemma setKey_ok s d db k v (keepttl : bool) : watch_ok s -> dbs s !! d = Some db ->
  exists s', genericSetKey s d k v keepttl true = Some s' /\ watch_ok s' /\ quiet s s' /\
    (forall d' k', (d', k') <> (d, k) -> view s' d' k' = view s d' k') /\
    (active s \/ keepttl = false -> view s' d k = Some (v, if keepttl then p ← view s d k; p.2 else None)) /\
    (forall i, (d, k) ∈ watches s i -> dirty_cas s' i).
Proof.
  intros Hs Hd. unfold genericSetKey.
  destruct (lookupKeyWrite_ok s d db k Hs Hd) as (s1 & db1 & -> & Hs1 & [Hq Hv] & Hd1 & Ha). simpl_bind.
  rewrite (store_ok s1 d db1 k v Hd1). simpl_bind. rewrite (persist_ok s1 d db1 k v keepttl Hd1). simpl_bind.
  pose proof (put_data_only s1 d db1 k v keepttl Hs1 Hd1) as Hdo.
  destruct (signal_write s1 _ d k Hs1 Hdo) as (s3 & -> & Hq3 & Hf); [by eexists|].
  assert (quiet s s3) as Hq' by (by transitivity s1).
  exists s3. split_and!; [done | by apply Hq' | done | | |].
  - intros d' k' Hne. rewrite (flagged_view _ _ _ _ _ Hf), (view_data_only _ _ _ d' k' Hdo) by naive_solver. apply Hv.
  - intros Hc. rewrite (flagged_view _ _ _ _ _ Hf). unfold put_state. rewrite (view_upd s1 d db1) by done. rewrite lookup_insert_eq.
    assert (expired s1 (set_data db1 (<[k := v]> (dict db1)) (if keepttl then expires db1 else delete k (expires db1))) k = false) as ->.
    { unfold expired. simpl. destruct keepttl; [|by rewrite lookup_delete_eq]. destruct Hc as [Hc|]; [|done].
      destruct (Ha Hc) as [Hx _]. done. }
    simpl_bind. do 2 f_equal. destruct keepttl; [|apply lookup_delete_eq]. destruct Hc as [Hc|]; [|done].
    rewrite <- Hv. apply view_expires; [done|done|]. by apply Ha.
  - intros i Hi. destruct (q_cas _ _ Hq i) as [Hcl Hwt _ _]. eapply flagged_dirty; [exact Hf|by apply Hwt|].
    simpl. apply Hcl. unfold watches in Hi. destruct (clients s !! i); [by eexists|by apply not_elem_of_nil in Hi].
Qed.

(** C4. setKey() (and genericSetKey() that signals) never fails an assertion. Afterwards the key has the
    new value and no expire, or the one it had with keepttl; no other key changes for an observer, and
    exactly as WATCH needs it every client that watches the key is flagged. *)
Theorem setKey_correct s d db k v (keepttl : bool) : watch_ok s -> dbs s !! d = Some db ->
  exists s', genericSetKey s d k v keepttl true = Some s' /\ watch_ok s' /\ quiet s s' /\
    (forall d' k', (d', k') <> (d, k) -> view s' d' k' = view s d' k') /\
    (active s \/ keepttl = false -> view s' d k = Some (v, if keepttl then p ← view s d k; p.2 else None)) /\
    (forall i, (d, k) ∈ watches s i -> dirty_cas s' i).
Proof. apply setKey_ok. Qed.

(** *** DEL and EXISTS *)

Lemma quiet_master s s' : quiet s s' -> masterhost (globs s') = masterhost (globs s).
Proof. intros [_ _ [] _ _ _]. by destruct_and?. Qed.

Definition del_state s d db k : server V :=
  Server (clients s) (<[d := set_data db (delete k (dict db)) (delete k (expires db))]> (dbs s)) (globs s).

Lemma view_del_state s d db k : dbs s !! d = Some db -> view (del_state s d db k) d k = None.
Proof.
  intros Hd. unfold del_state. rewrite (view_upd s d db) by done. rewrite !lookup_delete_eq. by destruct (expired s _ k).
Qed.

(** The keyspace changed quietly, and then client [i] got the reply [r]. *)
Definition replied s i (r : reply) s' : Prop :=
  exists s1 c1, quiet s s1 /\ clients s1 !! i = Some c1 /\
    s' = Server (<[i := addReply c1 r]> (clients s1)) (dbs s1) (globs s1).

Lemma reply_ok s s1 i c r : watch_ok s -> clients s !! i = Some c -> quiet s s1 ->
  exists s', upd s1 i (fun c => addReply c r) = Some s' /\ watch_ok s' /\ replied s i r s' /\
    (forall d k, view s' d k = view s1 d k) /\ globs s' = globs s1 /\ (forall a, dirty_cas s1 a -> dirty_cas s' a).
Proof.
  intros Hs Hc Hq. destruct (q_client _ _ Hq i c Hc) as (c1 & Hc1 & _). rewrite (upd_Some s1 i _ c1 Hc1).
  eexists. split; [done|]. split_and!; try done.
  - apply (upd_ok s1 i c1); [by apply Hq | done | done|]. apply (wo_db s1 (q_ok _ _ Hq Hs) i c1 Hc1).
  - by exists s1, c1.
  - intros a (ca & Ha & Hf). unfold dirty_cas. simpl. destruct (decide (a = i)) as [->|Hne].
    + rewrite lookup_insert_eq. eexists. split; [done|]. simplify_eq. exact Hf.
    + rewrite lookup_insert_ne by done. by exists ca.
Qed.

(** A reply does not matter for WATCH. *)
Lemma replied_cas s i r s' a : replied s i r s' -> cas_keeps a s s'.
Proof.
  intros (s1 & c1 & Hq & Hc1 & ->). transitivity s1; [apply Hq|]. apply cas_keeps_client; [done|].
  intros c Hc. simpl. destruct (decide (a = i)) as [->|Hne].
  - rewrite lookup_insert_eq. eexists. split; [done|]. simplify_eq. done.
  - rewrite lookup_insert_ne by done. by exists c.
Qed.

(** What happens to the clients: flags, and the reply to [i]. *)
Lemma replied_client s i r s' j c : replied s i r s' -> clients s !! j = Some c ->
  exists c', clients s' !! j = Some c' /\ (c' = c \/ c' = set_dirty c \/ j = i /\ (c' = addReply c r \/ c' = addReply (set_dirty c) r)).
Proof.
  intros (s1 & c1 & Hq & Hc1 & ->) Hc. destruct (q_client _ _ Hq j c Hc) as (c' & Hc' & H). simpl.
  destruct (decide (j = i)) as [->|Hne].
  - rewrite lookup_insert_eq. eexists. split; [done|]. simplify_eq. destruct H as [-> | ->]; auto.
  - rewrite lookup_insert_ne by done. exists c'. naive_solver.
Qed.

(** The keys of a list that a database has. *)
Definition existing s d (ks : list (list Z)) : gset (list Z) :=
  filter (fun k => is_Some (view s d k)) (list_to_set ks).

Lemma elem_of_existing s d ks k : k ∈ existing s d ks <-> is_Some (view s d k) /\ k ∈ ks.
Proof. unfold existing. by rewrite elem_of_filter, elem_of_list_to_set. Qed.

Lemma existing_cons s s' d k ks :
  (forall k', k' <> k -> view s' d k' = view s d k') -> view s' d k = None ->
  size (existing s d (k :: ks)) = ((if bool_decide (is_Some (view s d k)) then 1 else 0) + size (existing s' d ks))%nat.
Proof.
  intros Hv Hk. case_bool_decide as Hs.
  - assert (existing s d (k :: ks) = {[k]} ∪ existing s' d ks) as ->; [|rewrite size_union, size_singleton; [done|]].
    + apply set_eq. intros x. rewrite elem_of_union, elem_of_singleton, !elem_of_existing, elem_of_cons.
      destruct (decide (x = k)) as [->|Hne]; [naive_solver|]. rewrite Hv by done. naive_solver.
    + intros x Hx%elem_of_singleton Hx'%elem_of_existing. subst x. rewrite Hk in Hx'. by destruct Hx' as [[? ?] _].
  - simpl. f_equal. apply set_eq. intros x. rewrite !elem_of_existing, elem_of_cons.
    destruct (decide (x = k)) as [->|Hne]; [|rewrite Hv by done; naive_solver]. rewrite Hk. split; [naive_solver|].
    by intros [[? ?] _].
Qed.

(** One turn of the loop of DEL. *)
Lemma del_one_ok s d db (lazy : bool) k : watch_ok s -> dbs s !! d = Some db ->
  exists s1 db1, expireIfNeeded s d k = Some (s1, expired s db k) /\ dbs s1 !! d = Some db1 /\ watch_ok s1 /\ silent s s1 /\
    (if lazy then dbAsyncDelete s1 d k else dbSyncDelete s1 d k) = Some (del_state s1 d db1 k, has_key db1 k) /\
    (active s -> has_key db1 k = bool_decide (is_Some (view s d k))) /\
    exists s2, (if has_key db1 k then signalModifiedKey (del_state s1 d db1 k) d k = Some s2 else s2 = del_state s1 d db1 k) /\
      quiet s s2 /\ dirty (globs s2) = dirty (globs s) /\ view s2 d k = None /\ (forall d' k', (d', k') <> (d, k) -> view s2 d' k' = view s d' k').
Proof.
  intros Hs Hd. destruct (expireIfNeeded_ok s d db k Hs Hd) as (s1 & db1 & -> & Hsil & Hd1 & _ & (_ & _ & Hdi) & Ha & _).
  pose proof (silent_ok _ _ Hsil Hs) as Hs1. exists s1, db1. destruct Hsil as [Hq Hv].
  rewrite (dbAsyncDelete_eq s1 d db1), (dbSyncDelete_eq s1 d db1) by done. split_and!; try done; [by destruct lazy| |].
  { intros Hac. unfold has_key. rewrite (view_live s1 d db1 k Hd1) by auto. rewrite Hv. by destruct (view s d k). }
  pose proof (delete_data_only s1 d db1 k Hs1 Hd1) as Hdo. fold (del_state s1 d db1 k) in Hdo.
  destruct (has_key db1 k) eqn:Hk.
  - destruct (signal_write s1 _ d k Hs1 Hdo) as (s2 & -> & Hq2 & Hf); [by eexists|]. exists s2.
    split_and!; [done | by transitivity s1 | by destruct Hf as (_ & -> & _) | by rewrite (flagged_view _ _ _ _ _ Hf), view_del_state by done|].
    intros d' k' Hne. rewrite (flagged_view _ _ _ _ _ Hf), (view_data_only _ _ _ d' k' Hdo) by naive_solver. apply Hv.
  - exists (del_state s1 d db1 k). split_and!; [done | | done | by rewrite view_del_state by done|].
    + transitivity s1; [done|]. eapply (quiet_data_flag _ (fun _ => False)); [done | done | by apply flagged_refl; auto|].
      intros a d' k' _. right. destruct (decide (d' = d /\ k' = k)) as [[-> ->]|Hne]; [|by eapply data_only_lookup].
      unfold has_key in Hk. destruct (dict db1 !! k) eqn:Hkk; [done|]. rewrite (lookup_data_Some s1 d db1 k Hd1), Hkk.
      rewrite (lookup_data_Some _ d (set_data db1 (delete k (dict db1)) (delete k (expires db1)))); [apply lookup_delete_eq|].
      unfold del_state. rewrite (dbs_upd s1 d db1) by done. by rewrite decide_True.
    + intros d' k' Hne. rewrite (view_data_only _ _ _ d' k' Hdo) by naive_solver. apply Hv.
Qed.

Lemma del_keys_ok (lazy : bool) ks : forall s d n, watch_ok s -> is_Some (dbs s !! d) ->
  exists s' m, del_keys s d lazy ks n = Some (s', n + m) /\ quiet s s' /\
    (forall d' k', view s' d' k' = if bool_decide (d' = d /\ k' ∈ ks) then None else view s d' k') /\
    (active s -> m = Z.of_nat (size (existing s d ks))) /\
    dirty (globs s') = dirty (globs s) + m.
Proof.
  induction ks as [|k ks IH]; intros s d n Hs [db Hd]; cbn [del_keys].
  { exists s, 0. rewrite Z.add_0_r. split_and!; try done; [|lia]. intros d' k'. case_bool_decide as H; [|done].
    destruct H as [_ H]. by apply not_elem_of_nil in H. }
  destruct (del_one_ok s d db lazy k Hs Hd) as (s1 & db1 & -> & Hd1 & Hs1 & Hsil & Hdel & Hk & s2 & Hs2 & Hq2 & Hdi & Hv2 & Hv2').
  simpl_bind. rewrite Hdel. simpl_bind. pose proof (q_ok _ _ Hq2 Hs) as Hok2.
  assert (is_Some (dbs s2 !! d)) as Hdb2 by (apply (q_db _ _ Hq2); by eexists).
  assert (forall s3 m, quiet s2 s3 -> (forall d' k', view s3 d' k' = if bool_decide (d' = d /\ k' ∈ ks) then None else view s2 d' k') ->
    (active s2 -> m = Z.of_nat (size (existing s2 d ks))) ->
    quiet s s3 /\ (forall d' k', view s3 d' k' = if bool_decide (d' = d /\ k' ∈ k :: ks) then None else view s d' k') /\
    (active s -> m + (if has_key db1 k then 1 else 0) = Z.of_nat (size (existing s d (k :: ks))))) as Hstep.
  { intros s3 m Hq3 Hv3 Hm3. split_and!; [by transitivity s2| |].
    - intros d' k'. rewrite Hv3. destruct (decide (d' = d /\ k' = k)) as [[-> ->]|Hne].
      + rewrite Hv2, (bool_decide_true (d = d /\ k ∈ k :: ks)) by (split; [done|by left]).
        match goal with |- (if ?b then _ else _) = _ => by destruct b end.
      + rewrite Hv2' by (intros [= -> ->]; auto). erewrite bool_decide_ext; [done|]. rewrite elem_of_cons.
        split; [intros [? ?]; auto|]. intros [-> [->|?]]; [by destruct Hne|done].
    - intros Ha. rewrite (existing_cons s s2 d k ks), Hk, Hm3; try done; [|by eapply quiet_active|intros k' Hne; apply Hv2'; naive_solver].
      case_bool_decide; lia. }
  destruct (has_key db1 k).
  - rewrite Hs2. simpl_bind. destruct (add_dirty_silent s2 1) as [Hqd Hvd].
    destruct (IH (add_dirty s2 1) d (n + 1)) as (s3 & m & -> & Hq3 & Hv3 & Hm3 & Hd3); [by apply Hqd | done|].
    exists s3, (m + 1). split; [f_equal; f_equal; lia|]. destruct (Hstep s3 m) as (H1 & H2 & H3).
    + by transitivity (add_dirty s2 1).
    + intros d' k'. rewrite Hv3, Hvd. done.
    + intros Ha. by apply Hm3, (quiet_active _ _ Hqd).
    + split_and!; try done. rewrite Hd3. simpl. lia.
  - subst s2. destruct (IH (del_state s1 d db1 k) d n) as (s3 & m & -> & Hq3 & Hv3 & Hm3 & Hd3); [done | done|].
    exists s3, m. destruct (Hstep s3 m) as (H1 & H2 & H3); try done. split_and!; try done; [|lia].
    intros Ha. rewrite <- H3 by done. lia.
Qed.

Lemma del_ok s i c (lazy : bool) : watch_ok s -> clients s !! i = Some c ->
  exists s' m, delGenericCommand s i lazy = Some s' /\ watch_ok s' /\ replied s i (ReplyLongLong m) s' /\
    (forall d k, view s' d k = if bool_decide (d = cdb c /\ k ∈ drop 1 (argv c)) then None else view s d k) /\
    (active s -> m = Z.of_nat (size (existing s (cdb c) (drop 1 (argv c))))) /\
    dirty (globs s') = dirty (globs s) + m.
Proof.
  intros Hs Hc. unfold delGenericCommand. rewrite Hc. simpl_bind.
  destruct (del_keys_ok lazy (drop 1 (argv c)) s (cdb c) 0 Hs) as (s1 & m & -> & Hq & Hv & Hm & Hd); [by apply (wo_db _ Hs i)|].
  simpl_bind. rewrite Z.add_0_l. destruct (reply_ok s s1 i c (ReplyLongLong m) Hs Hc Hq) as (s' & -> & Hs' & Hr & Hv' & Hg & _).
  exists s', m. split_and!; try done; [|by rewrite Hg]. intros d k. by rewrite Hv', Hv.
Qed.

(** C6. DEL and UNLINK never fail an assertion: afterwards none of their keys exists and no other key has
    changed for an observer; on a master the reply, and the growth of server.dirty, is the number of
    distinct keys among the arguments that existed. *)
Theorem del_correct s i c (lazy : bool) : watch_ok s -> clients s !! i = Some c ->
  exists s' m, delGenericCommand s i lazy = Some s' /\ watch_ok s' /\ replied s i (ReplyLongLong m) s' /\
    (forall d k, view s' d k = if bool_decide (d = cdb c /\ k ∈ drop 1 (argv c)) then None else view s d k) /\
    (active s -> m = Z.of_nat (size (existing s (cdb c) (drop 1 (argv c))))) /\
    dirty (globs s') = dirty (globs s) + m.
Proof. apply del_ok. Qed.

(** The reader sees expired keys as absent. *)
Definition sees_view s : Prop := masterhost (globs s) = false \/ reader_is_client s = true.

Lemma quiet_sees s s' : quiet s s' -> sees_view s -> sees_view s'.
Proof.
  intros Hq [H|H]; [left; by rewrite (quiet_master s s')|right]. unfold reader_is_client in *.
  destruct Hq as [_ _ [_ _ _ (_ & Hma & Hcc) _ _] _ Hcl _]. rewrite Hma, Hcc.
  destruct (current_client (globs s)) as [i|]; [|done]. destruct (clients s !! i) as [c|] eqn:Hc; [|by rewrite andb_false_r in H].
  destruct (Hcl i c Hc) as (c' & -> & [-> | ->]); done.
Qed.

Lemma count_keys_ok ks : forall s d n, watch_ok s -> is_Some (dbs s !! d) -> sees_view s ->
  exists s', count_keys s d ks n = Some (s', n + zlen (filter (fun k => is_Some (view s d k)) ks)) /\ silent s s'.
Proof.
  induction ks as [|k ks IH]; intros s d n Hs [db Hd] Hr; cbn [count_keys].
  { exists s. split; [|done]. do 2 f_equal. change (zlen _) with 0. lia. }
  destruct (lookupKeyRead_ok s d db k Hs Hd) as (s1 & r & -> & Hs1 & Hsil & Hres & _). simpl_bind.
  pose proof Hsil as [Hq Hv].
  destruct (IH s1 d (match r with Some _ => n + 1 | None => n end)) as (s2 & -> & Hsil2);
    [done | apply (q_db _ _ Hq); by eexists | by eapply quiet_sees|].
  exists s2. split; [|by transitivity s1]. do 2 f_equal.
  assert (r = fst <$> view s d k) as ->.
  { rewrite Hres. destruct Hr as [-> | ->]; [done|]. by rewrite andb_false_r. }
  assert (filter (fun k' => is_Some (view s1 d k')) ks = filter (fun k' => is_Some (view s d k')) ks) as ->.
  { apply list_filter_iff. intros x. by rewrite Hv. }
  rewrite filter_cons. destruct (view s d k) as [p|]; simpl; [rewrite zlen_cons; lia|done].
Qed.

Lemma exists_ok s i c : watch_ok s -> clients s !! i = Some c -> sees_view s ->
  exists s', existsCommand s i = Some s' /\ watch_ok s' /\ (forall d k, view s' d k = view s d k) /\
    replied s i (ReplyLongLong (zlen (filter (fun k => is_Some (view s (cdb c) k)) (drop 1 (argv c))))) s'.
Proof.
  intros Hs Hc Hr. unfold existsCommand. rewrite Hc. simpl_bind.
  destruct (count_keys_ok (drop 1 (argv c)) s (cdb c) 0 Hs) as (s1 & -> & Hq & Hv); [by apply (wo_db _ Hs i) | done|].
  simpl_bind. rewrite Z.add_0_l. edestruct (reply_ok s s1 i c) as (s' & -> & Hs' & Hr' & Hv' & _); [done.. |].
  exists s'. split_and!; try done. intros d k. by rewrite Hv', Hv.
Qed.

(** EXISTS never fails an assertion, changes nothing that can be observed of the databases, and replies
    how many of its arguments are keys that exist and are not expired, a key that is given
    several times counting as often. *)
Theorem exists_correct s i c : watch_ok s -> clients s !! i = Some c -> sees_view s ->
  exists s', existsCommand s i = Some s' /\ watch_ok s' /\ (forall d k, view s' d k = view s d k) /\
    replied s i (ReplyLongLong (zlen (filter (fun k => is_Some (view s (cdb c) k)) (drop 1 (argv c))))) s'.
Proof. apply exists_ok. Qed.

(** *** RENAME *)

(** A state with other contents of database [d], which was [db]. *)
Definition with_data s d db (m : gmap (list Z) V) (e : gmap (list Z) Z) : server V :=
  Server (clients s) (<[d := set_data db m e]> (dbs s)) (globs s).

Section with_data.
Context (s : server V) (d : nat) (db : redisDb V) (Hd : dbs s !! d = Some db).

Lemma with_data_db m e : dbs (with_data s d db m e) !! d = Some (set_data db m e).
Proof. unfold with_data. rewrite (dbs_upd s d db) by done. by rewrite decide_True. Qed.

Lemma with_data_id : with_data s d db (dict db) (expires db) = s.
Proof.
  unfold with_data. rewrite list_insert_id; [by destruct s|]. rewrite Hd. f_equal. by destruct db.
Qed.

Lemma with_data_upd m e f : (forall db', db_watched_keys (f db') = db_watched_keys db') ->
  upd_db (with_data s d db m e) d f =
  Some (with_data s d db (dict (f (set_data db m e))) (expires (f (set_data db m e)))).
Proof.
  intros Hf. rewrite (upd_db_Some _ d _ _ (with_data_db m e)). unfold with_data at 2. simpl.
  rewrite list_insert_insert_eq. do 3 f_equal. pose proof (Hf (set_data db m e)) as Hw. destruct (f (set_data db m e)).
  simpl in *. unfold set_data. by rewrite Hw.
Qed.

Lemma with_data_delete m e k :
  dbDelete (with_data s d db m e) d k = Some (with_data s d db (delete k m) (delete k e), has_key (set_data db m e) k).
Proof.
  unfold dbDelete, dbAsyncDelete, dbSyncDelete. rewrite with_data_db. simpl_bind.
  rewrite with_data_upd by done. by destruct (lazyfree_lazy_server_del _).
Qed.

Lemma with_data_add m e k v : m !! k = None -> dbAdd (with_data s d db m e) d k v = Some (with_data s d db (<[k := v]> m) e).
Proof.
  intros Hk. unfold dbAdd. rewrite with_data_db. simpl_bind. rewrite has_key_None by done. by rewrite with_data_upd.
Qed.

Lemma with_data_setExpire m e k v w : m !! k = Some v ->
  setExpire (with_data s d db m e) d k w = Some (with_data s d db m (<[k := w]> e)).
Proof.
  intros Hk. unfold setExpire. rewrite with_data_db. simpl_bind. rewrite (has_key_Some _ k v) by done. by rewrite with_data_upd.
Qed.

Lemma rename_move_ok k1 k2 o o2 w : watch_ok s -> k1 <> k2 -> dict db !! k1 = Some o -> dict db !! k2 = o2 ->
  exists m e, rename_move s d k1 k2 o o2 w = Some (with_data s d db m e) /\
    m = delete k1 (<[k2 := o]> (dict db)) /\
    e = delete k1 (if w =? -1 then delete k2 (expires db) else <[k2 := w]> (expires db)).
Proof.
  intros Hs Hne H1 H2. unfold rename_move. eexists _, _. split; [|done].
  assert (exists e0, match o2 with Some _ => '(s, _) ← dbDelete s d k2; Some s | None => Some s end =
    Some (with_data s d db (delete k2 (dict db)) e0) /\ e0 = delete k2 (expires db)) as (e0 & -> & ->).
  { eexists. split; [|done]. destruct o2 as [v2|].
    - rewrite <- with_data_id at 1. rewrite with_data_delete. done.
    - rewrite !delete_id; [by rewrite with_data_id | | done].
      apply eq_None_not_Some. intros Hx. apply (wo_expires _ Hs d db k2 Hd) in Hx as [? ?]. congruence. }
  simpl_bind. rewrite with_data_add by apply lookup_delete_eq. simpl_bind. rewrite insert_delete_eq.
  destruct (w =? -1); simpl_bind.
  - by rewrite with_data_delete.
  - rewrite (with_data_setExpire _ _ _ o) by apply lookup_insert_eq. simpl_bind. rewrite with_data_delete. by rewrite insert_delete_eq.
Qed.

End with_data.

(** What RENAME does to the keys: [e] is the expire of the source. *)
Definition renamed_expire (e : option Z) : option Z := if bool_decide (e = Some (-1)) then None else e.

Lemma with_data_only K s d db m e : watch_ok s -> dbs s !! d = Some db ->
  (forall k, is_Some (e !! k) -> is_Some (m !! k)) ->
  (forall k, ~ K d k -> m !! k = dict db !! k /\ e !! k = expires db !! k) ->
  data_only K s (with_data s d db m e).
Proof. apply upd_data_only. Qed.

Lemma view_with_data s d db m e k : dbs s !! d = Some db ->
  view (with_data s d db m e) d k = if expired s (set_data db m e) k then None else v ← m !! k; Some (v, e !! k).
Proof. apply view_upd. Qed.

(** The whole effect of the writes and of the signals. *)
Lemma rename_write_ok s d db k1 k2 o o2 w : watch_ok s -> dbs s !! d = Some db -> k1 <> k2 ->
  dict db !! k1 = Some o -> dict db !! k2 = o2 -> w = default (-1) (expires db !! k1) ->
  exists s1 s2 s3, rename_move s d k1 k2 o o2 w = Some s1 /\ signalModifiedKey s1 d k1 = Some s2 /\
    signalModifiedKey s2 d k2 = Some s3 /\ quiet s s3 /\
    view s3 d k1 = None /\ (expired s db k1 = false -> view s3 d k2 = Some (o, renamed_expire (expires db !! k1))) /\
    (forall d' k', (d', k') <> (d, k1) -> (d', k') <> (d, k2) -> view s3 d' k' = view s d' k') /\
    (forall a, (d, k1) ∈ watches s a \/ (d, k2) ∈ watches s a -> dirty_cas s3 a).
Proof.
  intros Hs Hd Hne H1 H2 Hw.
  destruct (rename_move_ok s d db Hd k1 k2 o o2 w Hs Hne H1 H2) as (m & e & -> & Hm & He).
  set (s1 := with_data s d db m e).
  assert (data_only (fun d' k' => d' = d /\ (k' = k1 \/ k' = k2)) s s1) as Hdo.
  { apply with_data_only; try done.
    - intros k. rewrite Hm, He. rewrite !lookup_delete_is_Some. intros [Hk1 Hk]. split; [done|].
      destruct (decide (k = k2)) as [->|Hk2]; [rewrite lookup_insert_eq; by eexists|]. rewrite lookup_insert_ne by done.
      apply (wo_expires _ Hs d db k Hd). destruct (w =? -1); [by apply lookup_delete_is_Some in Hk as [_ ?]|].
      by rewrite lookup_insert_ne in Hk.
    - intros k Hk. rewrite Hm, He, !lookup_delete_ne, lookup_insert_ne by naive_solver. split; [done|].
      destruct (w =? -1); [by rewrite lookup_delete_ne by naive_solver | by rewrite lookup_insert_ne by naive_solver]. }
  destruct (data_only_signal _ s s1 d k1 Hs Hdo) as (s2 & Hs2 & Hf2); [by eexists|].
  pose proof (data_only_watch_ok _ _ _ Hs Hdo) as Hok1. pose proof (flagged_watch_ok _ _ _ Hok1 Hf2) as Hok2.
  destruct (touchWatchedKey_ok s2 d k2 Hok2) as (s3 & Hs3 & Hf3).
  { destruct Hf2 as (-> & _). apply (data_only_db _ _ _ d Hdo). by eexists. }
  assert (flagged (fun a => (d, k1) ∈ watches s a \/ (d, k2) ∈ watches s a) s1 s3) as Hf.
  { eapply flagged_weaken; [|by eapply flagged_trans]. intros a [Ha|Ha]; [by left|right].
    apply (ck_watches _ _ _ (flagged_keeps _ a _ _ Hf2)). unfold watches in *. by rewrite (do_clients _ _ _ Hdo). }
  exists s1, s2, s3. split_and!; try done.
  - eapply quiet_data_flag; [done.. |]. intros a d' k' Hk'. simpl.
    destruct (decide (d' = d /\ (k' = k1 \/ k' = k2))) as [[-> [->| ->]]|Hn]; [by auto | by auto|right]. by eapply data_only_lookup.
  - rewrite (flagged_view _ _ _ _ _ Hf). unfold s1. rewrite view_with_data by done. rewrite Hm, lookup_delete_eq.
    match goal with |- (if ?b then _ else _) = _ => by destruct b end.
  - intros Hx. rewrite (flagged_view _ _ _ _ _ Hf). unfold s1. rewrite view_with_data by done.
    assert (e !! k2 = renamed_expire (expires db !! k1)) as Hek.
    { rewrite He, lookup_delete_ne by done. unfold renamed_expire. rewrite Hw. destruct (expires db !! k1) as [x|]; simpl.
      - destruct (Z.eqb_spec x (-1)) as [->|Hx1]; [by rewrite bool_decide_true, lookup_delete_eq|].
        by rewrite bool_decide_false, lookup_insert_eq by congruence.
      - apply lookup_delete_eq. }
    rewrite Hm, lookup_delete_ne, lookup_insert_eq by done. simpl_bind. rewrite Hek.
    assert (expired s (set_data db (delete k1 (<[k2 := o]> (dict db))) e) k2 = false) as ->; [|done].
    unfold expired in *. simpl. rewrite Hek. unfold renamed_expire. destruct (expires db !! k1); [|done]. by case_bool_decide.
  - intros d' k' Hn1 Hn2. rewrite (flagged_view _ _ _ _ _ Hf). eapply view_data_only; [done|]. naive_solver.
  - intros a Ha. eapply flagged_dirty; [done | done|]. rewrite (do_clients _ _ _ Hdo).
    destruct (clients s !! a) eqn:Hca; [by eexists|]. unfold watches in Ha. rewrite Hca in Ha.
    by destruct Ha as [Ha|Ha]; apply not_elem_of_nil in Ha.
Qed.

(** What RENAME and RENAMENX do, on every branch: the reply and the keys afterwards. *)
Definition rename_spec s s' d k1 k2 (nx : bool) (r : reply) : Prop :=
  match view s d k1 with
  | None => r = nokeyerr /\ forall d' k', view s' d' k' = view s d' k'
  | Some (v, e) =>
      if bool_decide (k1 = k2) then
        r = (if nx then ReplyLongLong 0 else ReplyOk) /\ forall d' k', view s' d' k' = view s d' k'
      else if nx && bool_decide (is_Some (view s d k2)) then
        r = ReplyLongLong 0 /\ forall d' k', view s' d' k' = view s d' k'
      else
        r = (if nx then ReplyLongLong 1 else ReplyOk) /\
        view s' d k1 = None /\ view s' d k2 = Some (v, renamed_expire e) /\
        (forall d' k', (d', k') <> (d, k1) -> (d', k') <> (d, k2) -> view s' d' k' = view s d' k') /\
        (forall a, (d, k1) ∈ watches s a \/ (d, k2) ∈ watches s a -> dirty_cas s' a)
  end.

Lemma getExpire_ok s d db k : watch_ok s -> dbs s !! d = Some db -> getExpire db k = Some (default (-1) (expires db !! k)).
Proof.
  intros Hs Hd. unfold getExpire. destruct (expires db !! k) eqn:He; [|done].
  by destruct (wo_expires _ Hs d db k Hd) as [v ->].
Qed.

Lemma rename_ok s i c (nx : bool) k1 k2 : watch_ok s -> active s -> clients s !! i = Some c ->
  argv c !! 1%nat = Some k1 -> argv c !! 2%nat = Some k2 ->
  exists s' r, renameGenericCommand s i nx = Some s' /\ watch_ok s' /\ replied s i r s' /\
    rename_spec s s' (cdb c) k1 k2 nx r.
Proof.
  intros Hs Ha Hc H1 H2. unfold renameGenericCommand. rewrite Hc. simpl_bind. rewrite H1, H2. simpl_bind.
  destruct (wo_db _ Hs i c Hc) as [db Hd]. set (d := cdb c) in *.
  destruct (lookupKeyWrite_ok s d db k1 Hs Hd) as (s1 & db1 & -> & Hs1 & [Hq1 Hv1] & Hd1 & Hac1). simpl_bind.
  destruct (Hac1 Ha) as [Hx1 ->]. pose proof (quiet_active _ _ Hq1 Ha) as Ha1. unfold rename_spec.
  destruct (view s d k1) as [[v e]|] eqn:Hk1; cbn [fmap option_fmap option_map fst].
  2: { destruct (reply_ok s s1 i c nokeyerr Hs Hc Hq1) as (s' & -> & Hs' & Hr & Hv' & _). exists s', nokeyerr.
       split_and!; try done. intros. by rewrite Hv'. }
  destruct (bool_decide (k1 = k2)) eqn:Hb.
  { edestruct (reply_ok s s1 i c) as (s' & -> & Hs' & Hr & Hv' & _); [done.. |]. eexists s', _.
    split_and!; try done. intros. by rewrite Hv'. }
  apply bool_decide_eq_false in Hb. rewrite Hd1. simpl_bind. rewrite (getExpire_ok s1 d db1 k1 Hs1 Hd1). simpl_bind.
  destruct (lookupKeyWrite_ok s1 d db1 k2 Hs1 Hd1) as (s2 & db2 & -> & Hs2 & [Hq2 Hv2] & Hd2 & Hac2). simpl_bind.
  destruct (Hac2 Ha1) as [Hx2 Ho2]. rewrite Hv1 in Ho2.
  assert (quiet s s2) as Hqq by (by transitivity s1).
  assert (view s2 d k1 = Some (v, e)) as Hk1' by (by rewrite Hv2, Hv1).
  assert (expires db1 !! k1 = e) as -> by (rewrite (view_expires s1 d db1 k1 Hs1 Hd1 Hx1), Hv1, Hk1; done).
  apply view_Some in Hk1' as (db2' & Hd2' & Hx & Hdk & Hek). rewrite Hd2 in Hd2'. injection Hd2' as <-. subst e.
  destruct (nx && bool_decide (is_Some (view s d k2))) eqn:Hnx.
  { apply andb_true_iff in Hnx as [-> Hsome%bool_decide_eq_true]. rewrite Ho2. destruct Hsome as [p ->].
    cbn [fmap option_fmap option_map].
    destruct (reply_ok s s2 i c (ReplyLongLong 0) Hs Hc Hqq) as (s' & -> & Hs' & Hr & Hv' & _). exists s', (ReplyLongLong 0).
    split_and!; try done. intros. by rewrite Hv', Hv2. }
  destruct (rename_write_ok s2 d db2 k1 k2 v (dict db2 !! k2) _ Hs2 Hd2 Hb Hdk eq_refl eq_refl)
    as (s3 & s4 & s5 & Hm & Hsig1 & Hsig2 & Hq5 & V1 & V2 & V3 & Hdirty).
  destruct (add_dirty_silent s5 1) as [Hqd Hvd].
  assert (quiet s (add_dirty s5 1)) as Hq' by (transitivity s2; [done|by transitivity s5]).
  destruct (reply_ok s (add_dirty s5 1) i c (if nx then ReplyLongLong 1 else ReplyOk) Hs Hc Hq')
    as (s' & Hrep & Hs' & Hr & Hv' & _ & Hdi).
  exists s', (if nx then ReplyLongLong 1 else ReplyOk). split.
  { rewrite Hm. simpl_bind. rewrite Hsig1. simpl_bind. rewrite Hsig2. simpl_bind.
    assert (nx = true -> dict db2 !! k2 = None) as Hnone.
    { intros ->. simpl in Hnx. rewrite Ho2. apply bool_decide_eq_false, eq_None_not_Some in Hnx. by rewrite Hnx. }
    destruct (dict db2 !! k2), nx; try exact Hrep; try discriminate (Hnone eq_refl). }
  split_and!; try done.
  - by rewrite Hv', Hvd.
  - rewrite Hv', Hvd. by apply V2.
  - intros d' k' N1 N2. rewrite Hv', Hvd, V3 by done. by rewrite Hv2, Hv1.
  - intros a Haw. apply Hdi. assert (dirty_cas s5 a) as (x & Hx' & Hfx); [|by exists x].
    apply Hdirty. destruct Haw as [Haw|Haw]; [left|right]; by apply (ck_watches _ _ _ (q_cas _ _ Hqq a)).
Qed.

(** C7. RENAME and RENAMENX on a master never fail an assertion, and on every branch (missing source, same
    key, existing destination, move) reply and change the keys as specified: the destination gets the
    value and the expire of the source, the source is gone, no other key changes, and the clients
    that watch either key are flagged. *)
Theorem rename_correct s i c (nx : bool) k1 k2 : watch_ok s -> active s -> clients s !! i = Some c ->
  argv c !! 1%nat = Some k1 -> argv c !! 2%nat = Some k2 ->
  exists s' r, renameGenericCommand s i nx = Some s' /\ watch_ok s' /\ replied s i r s' /\
    rename_spec s s' (cdb c) k1 k2 nx r.
Proof. apply rename_ok. Qed.

(** *** FLUSHDB and FLUSHALL *)

Lemma touch_dbs_ok ds : forall s, watch_ok s -> (forall d, d ∈ ds -> is_Some (dbs s !! d)) ->
  exists s', touch_dbs s ds = Some s' /\
    flagged (fun i => exists d k, d ∈ ds /\ (d, k) ∈ watches s i /\ is_Some (lookup_data s d k)) s s'.
Proof.
  induction ds as [|d ds IH]; intros s Hs Hds; cbn [touch_dbs].
  { exists s. split; [done|]. apply flagged_refl. intros i (d & k & Hd & _). by apply not_elem_of_nil in Hd. }
  destruct (Hds d) as [db Hd]; [by left|].
  destruct (touchAll_ok s d db None None Hs Hd eq_refl) as (s1 & -> & Hf1). simpl_bind.
  pose proof (flagged_watch_ok _ _ _ Hs Hf1) as Hs1. pose proof Hf1 as (Hdb1 & _).
  destruct (IH s1 Hs1) as (s2 & -> & Hf2); [intros x Hx; rewrite Hdb1; apply Hds; by right|].
  exists s2. split; [done|]. eapply flagged_weaken; [|by eapply flagged_trans].
  intros i (d' & k & Hd' & Hk & Hl). apply elem_of_cons in Hd' as [->|Hd'].
  - left. exists k. split; [done|]. left. by rewrite (lookup_data_Some s d db k Hd) in Hl.
  - right. exists d', k. split_and!; [done | by apply (ck_watches _ _ _ (flagged_keeps _ i _ _ Hf1))|].
    unfold lookup_data in *. by rewrite Hdb1.
Qed.

Definition db_size s d : Z := match dbs s !! d with Some db => Z.of_nat (size (dict db)) | None => 0 end.

Definition sum_sizes s (ds : list nat) : Z := foldr (fun d n => db_size s d + n) 0 ds.

Lemma empty_dbs_ok ds : forall s, watch_ok s -> NoDup ds -> (forall d, d ∈ ds -> is_Some (dbs s !! d)) ->
  exists s', empty_dbs s ds = Some (s', sum_sizes s ds) /\ data_only (fun d _ => d ∈ ds) s s' /\
    forall d, d ∈ ds -> exists db, dbs s' !! d = Some db /\ dict db = ∅ /\ expires db = ∅.
Proof.
  induction ds as [|d ds IH]; intros s Hs Hnd Hds; cbn [empty_dbs].
  { exists s. split_and!; [done | by apply data_only_refl|]. intros d Hd. by apply not_elem_of_nil in Hd. }
  apply NoDup_cons in Hnd as [Hdn Hnd]. destruct (Hds d) as [db Hd]; [by left|]. rewrite Hd. simpl_bind.
  rewrite (upd_db_Some s d _ db Hd). simpl_bind. set (s1 := Server _ _ _).
  assert (data_only (fun d' _ => d' = d) s s1) as Hdo1.
  { apply upd_data_only; [done | done | | by intros k Hk; destruct Hk]. intros k [x Hx]. by rewrite lookup_empty in Hx. }
  pose proof (data_only_watch_ok _ _ _ Hs Hdo1) as Hs1.
  assert (forall e, e <> d -> dbs s1 !! e = dbs s !! e) as Hother.
  { intros e He. unfold s1. rewrite (dbs_upd s d db) by done. by rewrite decide_False. }
  destruct (IH s1 Hs1 Hnd) as (s2 & -> & Hdo2 & Hemp).
  { intros e He. rewrite Hother by congruence. apply Hds. by right. }
  simpl_bind. exists s2. split_and!.
  - do 2 f_equal. unfold sum_sizes at 2. cbn [foldr]. unfold db_size at 1. rewrite Hd. f_equal. unfold sum_sizes.
    clear IH Hnd Hds Hdo2 Hemp. induction ds as [|e ds IH]; [done|]. cbn [foldr].
    rewrite IH by (intros ?; apply Hdn; by right). f_equal. unfold db_size. rewrite Hother; [done|]. intros ->. apply Hdn. by left.
  - apply (data_only_trans _ s s1); [eapply data_only_weaken; [|exact Hdo1] | eapply data_only_weaken; [|exact Hdo2]];
      simpl; intros x k Hx; rewrite elem_of_cons; auto.
  - intros e He. destruct (decide (e ∈ ds)) as [Hin|Hni]; [by apply Hemp|]. apply elem_of_cons in He as [->|]; [|done].
    pose proof (do_dbs _ _ _ Hdo2 d) as Hx. unfold s1 in Hx at 1. rewrite (dbs_upd s d db), decide_True in Hx by done.
    destruct (dbs s2 !! d) as [db2|]; [|done]. exists db2. split; [done|]. destruct Hx as [_ Hx].
    split; apply map_eq; intros k; rewrite lookup_empty; apply (Hx k Hni).
Qed.

Lemma db_range_ok s n : -1 <= n < zlen (dbs s) ->
  NoDup (db_range s n) /\ forall d, d ∈ db_range s n <-> is_Some (dbs s !! d) /\ (n = -1 \/ n = Z.of_nat d).
Proof.
  intros Hn. unfold db_range, zlen in *. destruct (Z.eqb_spec n (-1)) as [->|Hne].
  - split; [apply NoDup_seq|]. intros d. rewrite elem_of_seq, lookup_lt_is_Some. naive_solver lia.
  - split; [apply NoDup_singleton|]. intros d. rewrite list_elem_of_singleton, lookup_lt_is_Some. split; [intros ->; lia|lia].
Qed.

Lemma emptyDb_ok s n : watch_ok s -> -1 <= n < zlen (dbs s) ->
  exists s', emptyDb s n = Some (s', sum_sizes s (db_range s n)) /\ quiet s s' /\
    (forall d, d ∈ db_range s n -> exists db, dbs s' !! d = Some db /\ dict db = ∅ /\ expires db = ∅) /\
    (forall d k, d ∉ db_range s n -> view s' d k = view s d k) /\
    (forall a d k, d ∈ db_range s n -> (d, k) ∈ watches s a -> is_Some (lookup_data s d k) -> dirty_cas s' a).
Proof.
  intros Hs Hn. destruct (db_range_ok s n Hn) as [Hnd Hr]. unfold emptyDb.
  replace ((n <? -1) || (zlen (dbs s) <=? n)) with false by (symmetry; apply orb_false_iff; lia).
  destruct (touch_dbs_ok (db_range s n) s Hs) as (s1 & Hs1 & Hf); [intros d Hd; by apply Hr|]. unfold signalFlushedDb.
  rewrite Hs1. simpl_bind. unfold emptyDbStructure. pose proof Hf as (Hdb1 & Hg1 & _).
  assert (db_range s1 n = db_range s n) as -> by (unfold db_range; by rewrite Hdb1).
  pose proof (flagged_watch_ok _ _ _ Hs Hf) as Hok1.
  destruct (empty_dbs_ok (db_range s n) s1 Hok1 Hnd) as (s2 & -> & Hdo & Hemp).
  { intros d Hd. rewrite Hdb1. by apply Hr. }
  exists s2. split_and!; try done.
  - do 2 f_equal. unfold sum_sizes, db_size. by rewrite Hdb1.
  - eapply quiet_flag_data; [done.. |]. intros a d k Hk. simpl.
    destruct (decide (d ∈ db_range s n)) as [Hd|Hd].
    + destruct (lookup_data s d k) eqn:Hl; [left; exists d, k; split_and!; [done..|by rewrite Hl]|right].
      destruct (Hemp d Hd) as (db & Hdb & He & _). rewrite (lookup_data_Some s2 d db k Hdb), He. apply lookup_empty.
    + right. rewrite (data_only_lookup _ _ _ _ _ Hdo Hd). unfold lookup_data. by rewrite Hdb1.
  - intros d k Hd. rewrite (view_data_only _ _ _ _ _ Hdo Hd). by rewrite (flagged_view _ _ _ _ _ Hf).
  - intros a d k Hd Hk Hl. assert (dirty_cas s1 a) as (c & Hc & Hfc).
    { eapply flagged_dirty; [done | by exists d, k|]. unfold watches in Hk.
      destruct (clients s !! a); [by eexists|by apply not_elem_of_nil in Hk]. }
    exists c. by rewrite (do_clients _ _ _ Hdo).
Qed.

(** Emptying one database, or all of them with -1, never fails an assertion: the result is the number
    of keys removed, the databases have no key and no expire left, the others are unchanged, and a
    client is flagged when it watches a key that existed there. A number out of range changes nothing
    and returns -1. *)
Theorem emptyDb_correct s n : watch_ok s ->
  if bool_decide (-1 <= n < zlen (dbs s)) then
    exists s', emptyDb s n = Some (s', sum_sizes s (db_range s n)) /\ watch_ok s' /\ quiet s s' /\
      (forall d, is_Some (dbs s !! d) -> n = -1 \/ n = Z.of_nat d ->
        exists db, dbs s' !! d = Some db /\ dict db = ∅ /\ expires db = ∅) /\
      (forall d k, n <> -1 -> n <> Z.of_nat d -> view s' d k = view s d k) /\
      (forall a d k, n = -1 \/ n = Z.of_nat d -> (d, k) ∈ watches s a -> is_Some (lookup_data s d k) -> dirty_cas s' a)
  else emptyDb s n = Some (s, -1).
Proof.
  intros Hs. case_bool_decide as Hn.
  - destruct (emptyDb_ok s n Hs Hn) as (s' & He & Hq & H1 & H2 & H3). pose proof (proj2 (db_range_ok s n Hn)) as Hr.
    exists s'. split_and!; try done.
    + by apply Hq.
    + intros d Hd Hnd. apply H1. by apply Hr.
    + intros d k Hn1 Hn2. apply H2. rewrite Hr. lia.
    + intros a d k Hnd Hk Hl. apply (H3 a d k); try done. apply Hr. split; [|done]. by eapply watches_db.
  - unfold emptyDb. replace ((n <? -1) || (zlen (dbs s) <=? n)) with true; [done|]. symmetry. apply orb_true_iff. lia.
Qed.

Lemma flushdb_ok s i c : watch_ok s -> clients s !! i = Some c ->
  exists s' r, flushdbCommand s i = Some s' /\ watch_ok s' /\ replied s i r s' /\
    if getFlushCommandFlags (argv c) then
      r = ReplyOk /\ (forall k, view s' (cdb c) k = None) /\ (forall d k, d <> cdb c -> view s' d k = view s d k)
    else forall d k, view s' d k = view s d k.
Proof.
  intros Hs Hc. unfold flushdbCommand. rewrite Hc. simpl_bind. destruct (getFlushCommandFlags (argv c)); simpl negb; cbv iota.
  - destruct (wo_db _ Hs i c Hc) as [db Hd]. pose proof (lookup_lt_Some _ _ _ Hd) as Hlt.
    assert (-1 <= Z.of_nat (cdb c) < zlen (dbs s)) as Hn by (unfold zlen; lia).
    pose proof (proj2 (db_range_ok s _ Hn)) as Hr.
    destruct (emptyDb_ok s (Z.of_nat (cdb c)) Hs Hn) as (s1 & -> & Hq & He & Hv & _). simpl_bind.
    destruct (add_dirty_silent s1 (sum_sizes s (db_range s (Z.of_nat (cdb c))))) as [Hqd Hvd].
    set (s2 := add_dirty s1 _) in *. destruct (reply_ok s s2 i c ReplyOk Hs Hc) as (s' & -> & Hs' & Hrp & Hv' & _); [by transitivity s1|].
    exists s', ReplyOk. split_and!; try done.
    + intros k. rewrite Hv', Hvd. destruct (He (cdb c)) as (db1 & Hd1 & Hm & _); [apply Hr; rewrite Hd; eauto|].
      unfold view. rewrite Hd1. simpl_bind. rewrite Hm, lookup_empty. by destruct (expired s1 db1 k).
    + intros d k Hne. rewrite Hv', Hvd. apply Hv. rewrite Hr. lia.
  - edestruct (reply_ok s s i c) as (s' & -> & Hs' & Hrp & Hv' & _); [done.. |]. by eexists s', _.
Qed.

(** *** SWAPDB *)

Lemma swap_ok s (d1 d2 : nat) : watch_ok s -> d1 <> d2 -> (d1 < length (dbs s))%nat -> (d2 < length (dbs s))%nat ->
  exists s', dbSwapDatabases s (Z.of_nat d1) (Z.of_nat d2) = Some (s', 0) /\ quiet s s' /\
    (forall k, view s' d1 k = view s d2 k /\ view s' d2 k = view s d1 k) /\
    (forall d k, d <> d1 -> d <> d2 -> view s' d k = view s d k).
Proof.
  intros Hs Hne [db1 H1]%lookup_lt_is_Some [db2 H2]%lookup_lt_is_Some. unfold dbSwapDatabases, zlen.
  pose proof (lookup_lt_Some _ _ _ H1). pose proof (lookup_lt_Some _ _ _ H2).
  replace ((Z.of_nat d1 <? 0) || _ || _ || _) with false by (symmetry; rewrite !orb_false_iff; lia).
  replace (Z.of_nat d1 =? Z.of_nat d2) with false by lia. rewrite !Nat2Z.id. cbv zeta. rewrite H1, H2. simpl_bind.
  rewrite (upd_db_Some s d1 _ db1 H1). simpl_bind. set (s1 := Server _ _ _).
  assert (dbs s1 !! d2 = Some db2) as H2' by (unfold s1; rewrite (dbs_upd s d1 db1), decide_False by done; done).
  rewrite (upd_db_Some s1 d2 _ db2 H2'). simpl_bind. set (s2 := Server _ _ _).
  assert (data_only (fun d _ => d = d1 \/ d = d2) s s1) as Hdo1.
  { apply upd_data_only; [done | done | | intros k Hk; destruct Hk; by left]. intros k. apply (wo_expires _ Hs d2 db2 k H2). }
  pose proof (data_only_watch_ok _ _ _ Hs Hdo1) as Hs1.
  assert (data_only (fun d _ => d = d1 \/ d = d2) s s2) as Hdo.
  { eapply data_only_trans; [done|]. apply upd_data_only; [done | done | | intros k Hk; destruct Hk; by right].
    intros k. apply (wo_expires _ Hs d1 db1 k H1). }
  pose proof (data_only_watch_ok _ _ _ Hs Hdo) as Hs2.
  assert (dbs s2 !! d1 = Some (set_data db1 (dict db2) (expires db2))) as G1.
  { unfold s2. rewrite (dbs_upd s1 d2 db2), decide_False by done. unfold s1. by rewrite (dbs_upd s d1 db1), decide_True. }
  assert (dbs s2 !! d2 = Some (set_data db2 (dict db1) (expires db1))) as G2.
  { unfold s2. by rewrite (dbs_upd s1 d2 db2), decide_True. }
  destruct (touchAll_ok s2 d1 _ (Some d2) (Some (set_data db2 (dict db1) (expires db1))) Hs2 G1) as (s3 & -> & Hf3); [eauto|].
  simpl_bind. pose proof (flagged_watch_ok _ _ _ Hs2 Hf3) as Hs3. pose proof Hf3 as (Hdb3 & _).
  destruct (touchAll_ok s3 d2 (set_data db2 (dict db1) (expires db1)) (Some d1) (Some (set_data db1 (dict db2) (expires db2))) Hs3)
    as (s4 & -> & Hf4); [by rewrite Hdb3 | rewrite Hdb3; eauto|]. simpl_bind. exists s4. split; [done|].
  pose proof (flagged_trans _ _ _ _ _ Hf3 Hf4) as Hf. split_and!.
  - eapply quiet_data_flag; [done.. |]. intros a d k Hk. simpl.
    destruct (decide (d = d1 \/ d = d2)) as [Hd|Hd]; [|right; by eapply data_only_lookup].
    destruct (dict db1 !! k) as [v1|] eqn:E1, (dict db2 !! k) as [v2|] eqn:E2.
    4: { right. destruct Hd as [->| ->]; [rewrite (lookup_data_Some s2 _ _ k G1), (lookup_data_Some s _ _ k H1) |
           rewrite (lookup_data_Some s2 _ _ k G2), (lookup_data_Some s _ _ k H2)]; simpl; congruence. }
    all: left; assert (watches s2 a = watches s a) as Hw by (unfold watches; by rewrite (do_clients _ _ _ Hdo)).
    all: assert ((d, k) ∈ watches s3 a) as Hk3 by (apply (ck_watches _ _ _ (flagged_keeps _ a _ _ Hf3)); by rewrite Hw).
    all: destruct Hd as [->| ->]; [left | right]; exists k; (split; [by rewrite ?Hw|]); unfold touched; simpl; rewrite ?E1, ?E2; eauto.
  - intros k. rewrite !(flagged_view _ _ _ _ _ Hf). unfold view. by rewrite G1, G2, H1, H2.
  - intros d k N1 N2. rewrite (flagged_view _ _ _ _ _ Hf). eapply view_data_only; [done|]. naive_solver.
Qed.

(** C8. SWAPDB of two valid databases never fails an assertion and exchanges all their keys, values and
    expires, while no client that watches a key can miss that the key's value changed; an index out
    of range is rejected and nothing changes. *)
Theorem dbSwapDatabases_correct s id1 id2 : watch_ok s ->
  if bool_decide (0 <= id1 < zlen (dbs s) /\ 0 <= id2 < zlen (dbs s)) then
    exists s', dbSwapDatabases s id1 id2 = Some (s', 0) /\ watch_ok s' /\ (forall a, cas_keeps a s s') /\
      (forall k, view s' (Z.to_nat id1) k = view s (Z.to_nat id2) k /\ view s' (Z.to_nat id2) k = view s (Z.to_nat id1) k) /\
      (forall d k, d <> Z.to_nat id1 -> d <> Z.to_nat id2 -> view s' d k = view s d k)
  else dbSwapDatabases s id1 id2 = Some (s, -1).
Proof.
  intros Hs. case_bool_decide as Hn.
  - destruct (decide (id1 = id2)) as [->|Hne].
    + exists s. split_and!; try done. unfold dbSwapDatabases.
      replace ((id2 <? 0) || _ || _ || _) with false by (symmetry; rewrite !orb_false_iff; lia). by rewrite Z.eqb_refl.
    + destruct (swap_ok s (Z.to_nat id1) (Z.to_nat id2)) as (s' & He & Hq & Hv & Hv'); [done | unfold zlen in *; lia..|].
      rewrite !Z2Nat.id in He by lia. exists s'. split_and!; try done; apply Hq. done.
  - unfold dbSwapDatabases. replace ((id1 <? 0) || _ || _ || _) with true; [done|]. symmetry. rewrite !orb_true_iff. lia.
Qed.

End facts.

(** ** Witnesses *)

(** A master at time 100 with two databases; key "b" of the first one is expired. *)
Definition w_globals : globals :=
  Globals false false 0 0 0 100 false None (Some 0%nat) false 0 false true 0 0 0 [] false 0 false false 0.
Definition w_client (args : list (list Z)) : client := Client 0 0 args (RedisCommand (otherCommand_ (str "get")) CMD_READONLY 2) [] 0 0 [] [].
Definition w_server (args : list (list Z)) : server Z :=
  Server {[0%nat := w_client args]}
    [RedisDb {[str "a" := 1; str "b" := 2; str "c" := 3]} {[str "b" := 50; str "c" := 150]} ∅; RedisDb ∅ ∅ ∅] w_globals.

Definition w_args : list (list Z) := [str "CMD"; str "c"; str "b"].

Lemma w_server_ok : watch_ok (w_server w_args).
Proof. apply unwatched_ok. apply (bool_decide_unpack _). vm_compute. exact I. Qed.

Definition w_db : redisDb Z := RedisDb {[str "a" := 1; str "b" := 2; str "c" := 3]} {[str "b" := 50; str "c" := 150]} ∅.

Lemma lookupKeyRead_correct_witness : exists s' r, lookupKeyReadWithFlags (w_server w_args) 0 (str "b") = Some (s', r) /\ r = None.
Proof.
  destruct (lookupKeyRead_correct (w_server w_args) 0 w_db (str "b") w_server_ok eq_refl) as (s' & r & H & _ & _ & _ & Hr & _).
  exists s', r. split; [exact H|]. rewrite Hr. vm_compute. reflexivity.
Defined.

Lemma setKey_correct_witness : exists s', genericSetKey (w_server w_args) 0 (str "c") 7 true true = Some s' /\
  view s' 0 (str "c") = Some (7, Some 150).
Proof.
  destruct (setKey_correct (w_server w_args) 0 w_db (str "c") 7 true w_server_ok eq_refl) as (s' & H & _ & _ & _ & Hv & _).
  exists s'. split; [exact H|]. rewrite Hv by (left; split; reflexivity). vm_compute. reflexivity.
Defined.

Lemma del_correct_witness : exists s' m, delGenericCommand (w_server w_args) 0 false = Some s' /\ m = 1 /\
  replied (w_server w_args) 0 (ReplyLongLong m) s'.
Proof.
  destruct (del_correct (w_server w_args) 0 (w_client w_args) false w_server_ok eq_refl) as (s' & m & H & _ & Hr & _ & Hm & _).
  exists s', m. split; [exact H|]. split; [|exact Hr]. rewrite Hm by (split; reflexivity). vm_compute. reflexivity.
Defined.

Lemma exists_correct_witness : exists s', existsCommand (w_server w_args) 0 = Some s' /\
  forall k, view s' 0 k = view (w_server w_args) 0 k.
Proof.
  destruct (exists_correct (w_server w_args) 0 (w_client w_args) w_server_ok eq_refl) as (s' & H & _ & Hv & _); [left; reflexivity|].
  exists s'. split; [exact H|]. intros k. apply Hv.
Defined.

Lemma rename_correct_witness : exists s' r, renameGenericCommand (w_server w_args) 0 true = Some s' /\
  rename_spec (w_server w_args) s' 0 (str "c") (str "b") true r.
Proof.
  destruct (rename_correct (w_server w_args) 0 (w_client w_args) true (str "c") (str "b") w_server_ok) as (s' & r & H & _ & _ & Hr);
    [split; reflexivity | reflexivity..|].
  exists s', r. split; [exact H|exact Hr].
Defined.

Lemma emptyDb_correct_witness : exists s', emptyDb (w_server w_args) (-1) = Some (s', 3) /\ watch_ok s'.
Proof.
  pose proof (emptyDb_correct (w_server w_args) (-1) w_server_ok) as H.
  rewrite bool_decide_true in H by (split; [lia|reflexivity]). destruct H as (s' & H & Hok & _). exists s'. split; [exact H|exact Hok].
Defined.

Lemma dbSwapDatabases_correct_witness : exists s', dbSwapDatabases (w_server w_args) 0 1 = Some (s', 0) /\
  view s' 1 (str "a") = Some (1, None).
Proof.
  pose proof (dbSwapDatabases_correct (w_server w_args) 0 1 w_server_ok) as H.
  rewrite bool_decide_true in H by (split; (split; [lia|reflexivity])). destruct H as (s' & H & _ & _ & Hv & _).
  exists s'. split; [exact H|]. etransitivity; [exact (proj2 (Hv (str "a")))|]. vm_compute. reflexivity.
Defined.
