(* ===== verification/Multi.v ===== *)
(** * Transactions (src/redis-stable/src/multi.c, and the end of processCommand() in server.c)

    MULTI, EXEC, DISCARD and RESET, the queueing of commands and their rejection. The other
    commands are a parameter: the interface [CallSpec] says what EXEC needs of the commands that
    it executes. The file Server instantiates it with the commands of the file Commands; that
    these signal the keys they change is not part of the interface and is proved there. *)
From stdpp Require Import relations.
From S2P Require Import Prelude.
From S2P Require Import Watch.
From S2P Require Import Db.

Section state.
Context {V : Type}.

Definition set_in_exec (s : server V) (b : bool) : server V :=
  let g := globs s in
  set_globs s (Globals (loading g) (lua_caller g) (lua_time_snapshot g) (fixed_time_expire g) (cached_mstime g) (mstime g)
    (masterhost g) (master g) (current_client g) (clients_paused g) (client_pause_end_time g) (lazyfree_lazy_expire g)
    (lazyfree_lazy_server_del g) (stat_expiredkeys g) (stat_keyspace_hits g) (stat_keyspace_misses g) (propagated_dels g)
    (repl_backlog g) (backlog_exec g) (propagate_in_transaction g) b (dirty g)).

(** afterPropagateExec(), with the growth of server.dirty and of the backlog *)
Definition after_propagate_exec (s : server V) (d b : Z) : server V :=
  let g := globs s in
  set_globs s (Globals (loading g) (lua_caller g) (lua_time_snapshot g) (fixed_time_expire g) (cached_mstime g) (mstime g)
    (masterhost g) (master g) (current_client g) (clients_paused g) (client_pause_end_time g) (lazyfree_lazy_expire g)
    (lazyfree_lazy_server_del g) (stat_expiredkeys g) (stat_keyspace_hits g) (stat_keyspace_misses g) (propagated_dels g)
    (repl_backlog g) (backlog_exec g + b) false (in_exec g) (dirty g + d)).

(** ** Transactions *)

Definition initClientMultiState (c : client) : client := set_mstate c [] 0 0.

Definition queueMultiCommand (c : client) : client :=
  if has_flag c CLIENT_DIRTY_EXEC then c
  else set_mstate c (commands c ++ [MultiCmd (argv c) (cmd c)])
         (s32 (Z.lor (cmd_flags c) (cflags (cmd c)))) (s32 (Z.lor (cmd_inv_flags c) (Z.lnot (cflags (cmd c))))).

Definition discardTransaction (s : server V) (ci : nat) : option (server V) :=
  s ← upd s ci (fun c =>
        let c := initClientMultiState c in
        set_flags c (Z.ldiff (flags c) (Z.lor CLIENT_MULTI (Z.lor CLIENT_DIRTY_CAS CLIENT_DIRTY_EXEC))));
  unwatchAllKeys s ci.

Definition flagTransaction (c : client) : client :=
  if has_flag c CLIENT_MULTI then set_flags c (Z.lor (flags c) CLIENT_DIRTY_EXEC) else c.

Definition multiCommand (s : server V) (ci : nat) : option (server V) :=
  upd s ci (fun c =>
    if has_flag c CLIENT_MULTI then addReply c (ReplyError (str "MULTI calls can not be nested"))
    else addReply (set_flags c (Z.lor (flags c) CLIENT_MULTI)) ReplyOk).

Definition discardCommand (s : server V) (ci : nat) : option (server V) :=
  c ← clients s !! ci;
  if negb (has_flag c CLIENT_MULTI) then upd s ci (fun c => addReply c (ReplyError (str "DISCARD without MULTI")))
  else
    s ← discardTransaction s ci;
    upd s ci (fun c => addReply c ReplyOk).

(** execCommandAbort(): [error] is the message, with or without a leading '-'. *)
Definition execCommandAbort (s : server V) (ci : nat) (error : list Z) : option (server V) :=
  s ← discardTransaction s ci;
  let error := match error with 45 :: e => e | _ => error end in
  upd s ci (fun c => addReply c (ReplyError (str "-EXECABORT Transaction discarded because of: " ++ error))).

Definition execaborterr : reply :=
  ReplyError (str "-EXECABORT Transaction discarded because of previous errors.").

Definition noperm_reason (retval : Z) : list Z :=
  if retval =? 1 then str "no permission to execute the command or subcommand"
  else if retval =? 2 then str "no permission to touch the specified keys"
  else if retval =? 4 then str "no permission to access one of the channels used as arguments"
  else str "no permission".

Definition noperm (retval : Z) : reply :=
  ReplyError (str "-NOPERM ACLs rules changed between the moment the transaction was accumulated and the EXEC call. This command is no longer allowed for the following reason: " ++ noperm_reason retval).

Section exec.

(** call(), which executes the command in argv and cmd of the client, and ACLCheckAllPerm(), with
    ACL_OK = 0. *)
Context (call : server V -> nat -> option (server V)) (ACLCheckAllPerm : server V -> nat -> Z).

(** for (j = 0; j < c->mstate.count; j++) *)
Fixpoint exec_loop (fuel : nat) (s : server V) (ci : nat) (j : nat) : option (server V) :=
  match fuel with
  | O => None
  | S fuel =>
      c ← clients s !! ci;
      match commands c !! j with
      | None => Some s
      | Some mc =>
          s ← upd s ci (fun c => set_cmd c (mc_argv mc) (mc_cmd mc));
          let acl_retval := ACLCheckAllPerm s ci in
          s ← (if negb (acl_retval =? 0) then upd s ci (fun c => addReply c (noperm acl_retval))
               else
                 s ← call s ci;
                 c ← clients s !! ci;
                 if has_flag c CLIENT_BLOCKED then None else Some s);
          (** Commands may alter argc/argv, restore mstate. *)
          s ← upd s ci (fun c => set_mstate c (<[j := MultiCmd (argv c) (cmd c)]> (commands c)) (cmd_flags c) (cmd_inv_flags c));
          exec_loop fuel s ci (S j)
      end
  end.

Definition execCommand (s : server V) (ci : nat) : option (server V) :=
  let was_master := negb (masterhost (globs s)) in
  c ← clients s !! ci;
  if negb (has_flag c CLIENT_MULTI) then upd s ci (fun c => addReply c (ReplyError (str "EXEC without MULTI")))
  else
    expired ← isWatchedKeyExpired s ci;
    s ← (if (expired : bool) then upd s ci (fun c => set_flags c (Z.lor (flags c) CLIENT_DIRTY_CAS)) else Some s);
    c ← clients s !! ci;
    if has_flag c (Z.lor CLIENT_DIRTY_CAS CLIENT_DIRTY_EXEC) then
      s ← upd s ci (fun c => addReply c (if has_flag c CLIENT_DIRTY_EXEC then execaborterr else ReplyNullArray));
      discardTransaction s ci
    else
      let old_flags := flags c in
      s ← upd s ci (fun c => set_flags c (Z.lor (flags c) CLIENT_DENY_BLOCKING));
      s ← unwatchAllKeys s ci;
      let s := set_in_exec s true in
      let orig_argv := argv c in
      let orig_cmd := cmd c in
      s ← upd s ci (fun c => addReply c (ReplyArrayLen (zlen (commands c))));
      s ← exec_loop (S (length (commands c))) s ci 0;
      s ← upd s ci (fun c =>
            set_cmd (if Z.land old_flags CLIENT_DENY_BLOCKING =? 0
                     then set_flags c (Z.ldiff (flags c) CLIENT_DENY_BLOCKING) else c) orig_argv orig_cmd);
      s ← discardTransaction s ci;
      let s := if propagate_in_transaction (globs s) then
                 let is_master := negb (masterhost (globs s)) in
                 after_propagate_exec s 1 (if repl_backlog (globs s) && was_master && negb is_master then 1 else 0)
               else s in
      Some (set_in_exec s false).

(** The end of processCommand() (server.c): the command is queued or executed. *)
Definition exec_or_queue (s : server V) (ci : nat) : option (server V) :=
  c ← clients s !! ci;
  let p := cproc (cmd c) in
  if has_flag c CLIENT_MULTI && negb (bool_decide (p = execCommand_)) && negb (bool_decide (p = discardCommand_)) &&
     negb (bool_decide (p = multiCommand_)) && negb (bool_decide (p = watchCommand_)) && negb (bool_decide (p = resetCommand_))
  then upd s ci (fun c => addReply (queueMultiCommand c) ReplyQueued)
  else call s ci.

End exec.

(** rejectCommand() (server.c) *)
Definition rejectCommand (s : server V) (ci : nat) (error : list Z) : option (server V) :=
  s ← upd s ci flagTransaction;
  c ← clients s !! ci;
  if bool_decide (cproc (cmd c) = execCommand_) then execCommandAbort s ci error
  else upd s ci (fun c => addReply c (ReplyError error)).

(** ** RESET (networking.c) *)

Definition CLIENT_SLAVE : Z := Z.shiftl 1 0.
Definition CLIENT_MASTER : Z := Z.shiftl 1 1.
Definition CLIENT_MONITOR : Z := Z.shiftl 1 2.
Definition CLIENT_MODULE : Z := Z.shiftl 1 27.

(** disableTracking(): CLIENT_TRACKING and its options, the bits 31 to 37 *)
Definition tracking_flags : Z := Z.shiftl (Z.ones 7) 31.

(** CLIENT_ASKING|CLIENT_READONLY|CLIENT_PUBSUB|CLIENT_REPLY_OFF|CLIENT_REPLY_SKIP_NEXT *)
Definition reset_flags : Z :=
  Z.lor (Z.shiftl 1 9) (Z.lor (Z.shiftl 1 17) (Z.lor (Z.shiftl 1 18) (Z.lor (Z.shiftl 1 22) (Z.shiftl 1 23)))).

(** The list of the monitors, the authentication, the name and the subscriptions of the client are
    not part of the state. *)
Definition resetCommand (s : server V) (ci : nat) : option (server V) :=
  s ← upd s ci (fun c => if has_flag c CLIENT_MONITOR then set_flags c (Z.ldiff (flags c) (Z.lor CLIENT_MONITOR CLIENT_SLAVE)) else c);
  c ← clients s !! ci;
  if has_flag c (Z.lor CLIENT_SLAVE (Z.lor CLIENT_MASTER CLIENT_MODULE)) then
    upd s ci (fun c => addReply c (ReplyError (str "can only reset normal client connections")))
  else
    s ← upd s ci (fun c => if has_flag c (Z.shiftl 1 31) then set_flags c (Z.ldiff (flags c) tracking_flags) else c);
    '(s, _) ← selectDb s ci 0;
    s ← discardTransaction s ci;
    upd s ci (fun c => addReply (set_flags c (Z.ldiff (flags c) reset_flags)) (ReplyStatus (str "RESET"))).

(** ** c->cmd->proc(c) *)

Section dispatch.

(** The other commands. *)
Context (call_other : server V -> nat -> option (server V)) (ACLCheckAllPerm : server V -> nat -> Z).

(** The commands of this component apart from EXEC and RESET, which are never queued. *)
Definition call_queued (s : server V) (ci : nat) : option (server V) :=
  c ← clients s !! ci;
  match cproc (cmd c) with
  | execCommand_ | resetCommand_ => None
  | discardCommand_ => discardCommand s ci
  | multiCommand_ => multiCommand s ci
  | watchCommand_ => watchCommand s ci
  | unwatchCommand_ => unwatchCommand s ci
  | otherCommand_ _ => call_other s ci
  end.

Definition call_proc (s : server V) (ci : nat) : option (server V) :=
  c ← clients s !! ci;
  match cproc (cmd c) with
  | execCommand_ => execCommand call_queued ACLCheckAllPerm s ci
  | resetCommand_ => resetCommand s ci
  | _ => call_queued s ci
  end.

End dispatch.
End state.

(** ** Invariant *)

(** The commands that processCommand() queues. *)
Definition queueable (p : proc) : Prop :=
  match p with unwatchCommand_ | otherCommand_ _ => True | _ => False end.

#[export] Instance queueable_dec p : Decision (queueable p).
Proof. destruct p; apply _. Defined.

Section facts.
Context {V : Type}.
Implicit Types (s : server V) (c : client) (d i j a : nat) (k : list Z).

(** The arguments and the command that processCommand() lets pass *)
Context (valid : list (list Z) -> redisCommand -> Prop).

Record tx_ok s : Prop := {
  tx_watch : watch_ok s;
  tx_queue i c mc : clients s !! i = Some c -> mc ∈ commands c -> queueable (cproc (mc_cmd mc)) /\ valid (mc_argv mc) (mc_cmd mc);
}.

(** No transaction is executing. *)
Definition idle s : Prop := in_exec (globs s) = false /\ propagate_in_transaction (globs s) = false.

(** *** Updates of one client *)

(** The server in which client [i] is [c']. *)
Definition with_client s i c' : server V := Server (<[i := c']> (clients s)) (dbs s) (globs s).

Lemma upd_with_client s i c f : clients s !! i = Some c -> upd s i f = Some (with_client s i (f c)).
Proof. apply upd_Some. Qed.

Lemma with_client_eq s i c' : clients (with_client s i c') !! i = Some c'.
Proof. apply lookup_insert_eq. Qed.

Lemma with_client_ne s i c' j : j <> i -> clients (with_client s i c') !! j = clients s !! j.
Proof. intros H. by apply lookup_insert_ne. Qed.

Lemma with_client_ok s i c c' : tx_ok s -> clients s !! i = Some c ->
  watched_keys c' = watched_keys c -> cdb c' = cdb c ->
  (forall mc, mc ∈ commands c' -> queueable (cproc (mc_cmd mc)) /\ valid (mc_argv mc) (mc_cmd mc)) -> tx_ok (with_client s i c').
Proof.
  intros [Hs Hq] Hc Hw Hd Hm. split.
  - apply (upd_ok s i c); try done. rewrite Hd. apply (wo_db _ Hs i c Hc).
  - intros j cj mc. destruct (decide (j = i)) as [->|Hne].
    + rewrite with_client_eq. intros [= <-]. apply Hm.
    + rewrite with_client_ne by done. apply Hq.
Qed.

(** The client keeps its queue. *)
Lemma with_client_ok' s i c c' : tx_ok s -> clients s !! i = Some c ->
  watched_keys c' = watched_keys c -> cdb c' = cdb c -> commands c' = commands c -> tx_ok (with_client s i c').
Proof.
  intros Hs Hc Hw Hd Hm. apply (with_client_ok s i c); try done. rewrite Hm. intros mc. apply (tx_queue _ Hs i c mc Hc).
Qed.

Lemma with_client_cas s i c c' a : clients s !! i = Some c ->
  a <> i \/ (forall e, e ∈ watched_keys c -> e ∈ watched_keys c') /\
            (has_flag c CLIENT_DIRTY_CAS = true -> has_flag c' CLIENT_DIRTY_CAS = true) ->
  cas_keeps a s (with_client s i c').
Proof.
  intros Hc H. apply cas_keeps_client; [done|]. intros ca Ha. destruct (decide (a = i)) as [->|Hne].
  - rewrite with_client_eq. eexists. split; [done|]. simplify_eq. destruct H as [|[? ?]]; [done|auto].
  - rewrite with_client_ne by done. by exists ca.
Qed.

(** The same data and globals. *)
Definition same_data s s' : Prop := data s' = data s /\ globs s' = globs s.

(** *** The end of a transaction *)

Definition tx_flags : Z := Z.lor CLIENT_MULTI (Z.lor CLIENT_DIRTY_CAS CLIENT_DIRTY_EXEC).

(** The client after discardTransaction(). *)
Definition discarded c : client :=
  set_watched (set_flags (set_mstate c [] 0 0) (Z.ldiff (flags c) tx_flags)) [].

Lemma discarded_idle c : has_flag (discarded c) CLIENT_MULTI = false /\ has_flag (discarded c) CLIENT_DIRTY_CAS = false /\
  has_flag (discarded c) CLIENT_DIRTY_EXEC = false.
Proof. split_and!; apply (has_flag_ldiff_in c tx_flags); reflexivity. Qed.

Lemma discarded_blocked c : has_flag (discarded c) CLIENT_BLOCKED = has_flag c CLIENT_BLOCKED.
Proof. apply (has_flag_ldiff_out c tx_flags). reflexivity. Qed.

Lemma unwatchAll_ok s i c : tx_ok s -> clients s !! i = Some c ->
  exists s', unwatchAllKeys s i = Some s' /\ tx_ok s' /\ clients s' !! i = Some (set_watched c []) /\
    same_data s s' /\ (forall j, j <> i -> clients s' !! j = clients s !! j).
Proof.
  intros [Hs Hq] Hc. destruct (unwatchAllKeys_ok s i c Hs Hc) as (s' & He & Hs' & Hc' & Hd & Hg & Ho).
  exists s'. split_and!; try done. split; [done|]. intros j cj mc. destruct (decide (j = i)) as [->|Hne].
  - rewrite Hc'. intros [= <-]. apply (Hq i c mc Hc).
  - rewrite Ho by done. apply Hq.
Qed.

Lemma discardTransaction_ok s i c : tx_ok s -> clients s !! i = Some c ->
  exists s', discardTransaction s i = Some s' /\ tx_ok s' /\ clients s' !! i = Some (discarded c) /\
    same_data s s' /\ (forall j, j <> i -> clients s' !! j = clients s !! j).
Proof.
  intros Hs Hc. unfold discardTransaction. rewrite (upd_with_client s i c _ Hc). simpl_bind. fold tx_flags.
  set (c1 := set_flags _ _). assert (tx_ok (with_client s i c1)) as Hs1.
  { apply (with_client_ok s i c); try done. by intros mc ?%not_elem_of_nil. }
  destruct (unwatchAll_ok _ i c1 Hs1 (with_client_eq _ _ _)) as (s' & -> & Hs' & Hc' & [Hd Hg] & Ho).
  exists s'. split_and!; try done. intros j Hj. rewrite Ho by done. by apply with_client_ne.
Qed.

(** A client that is alone concerned. *)
Lemma other_cas s s' i a : data s' = data s -> (forall j, j <> i -> clients s' !! j = clients s !! j) -> a <> i ->
  cas_keeps a s s'.
Proof. intros Hd Ho Ha. apply cas_keeps_other; auto. Qed.

(** *** The commands but EXEC *)

(** Whether all commands signal the keys that they change. *)
Context (signals : Prop).

(** What an operation for client [i] guarantees: the invariant, and to all other clients what WATCH
    promises them. *)
Definition serves i s s' : Prop :=
  tx_ok s' /\ (forall a, a <> i -> signals -> cas_keeps a s s') /\ is_Some (clients s' !! i) /\ (idle s -> idle s').

Lemma serves_intro s s' i c : tx_ok s' -> data s' = data s -> globs s' = globs s -> (forall j, j <> i -> clients s' !! j = clients s !! j) ->
  clients s' !! i = Some c -> serves i s s'.
Proof.
  intros Hs Hd Hg Ho Hc. split_and!; [done | intros a Ha _; by eapply other_cas | by rewrite Hc | unfold idle; by rewrite Hg].
Qed.

Lemma with_client_serves s i c c' : tx_ok s -> clients s !! i = Some c ->
  watched_keys c' = watched_keys c -> cdb c' = cdb c -> commands c' = commands c -> serves i s (with_client s i c').
Proof.
  intros. split_and!; [by eapply with_client_ok' | intros a Ha _; eapply with_client_cas; [done|by left] | | done].
  rewrite with_client_eq. by eexists.
Qed.

Lemma multiCommand_ok s i c : tx_ok s -> clients s !! i = Some c ->
  exists s', multiCommand s i = Some s' /\ serves i s s' /\ cas_keeps i s s'.
Proof.
  intros Hs Hc. unfold multiCommand. rewrite (upd_with_client s i c _ Hc). eexists. split; [done|].
  destruct (has_flag c CLIENT_MULTI); (split; [by apply (with_client_serves s i c)|]);
    (eapply with_client_cas; [done|right]); (split; [done|]); [done|]. intros H.
  change (has_flag (set_flags c (Z.lor (flags c) CLIENT_MULTI)) CLIENT_DIRTY_CAS = true). by rewrite has_flag_lor, H.
Qed.

Lemma discardCommand_ok s i c : tx_ok s -> clients s !! i = Some c ->
  exists s' c', discardCommand s i = Some s' /\ serves i s s' /\ data s' = data s /\ clients s' !! i = Some c' /\
    c' = if has_flag c CLIENT_MULTI then addReply (discarded c) ReplyOk
         else addReply c (ReplyError (str "DISCARD without MULTI")).
Proof.
  intros Hs Hc. unfold discardCommand. rewrite Hc. simpl_bind. destruct (has_flag c CLIENT_MULTI) eqn:Hm; simpl negb; cbv iota.
  - destruct (discardTransaction_ok s i c Hs Hc) as (s1 & -> & Hs1 & Hc1 & [Hd Hg] & Ho). simpl_bind.
    rewrite (upd_with_client s1 i _ _ Hc1). eexists _, _. split; [done|]. split_and!; [| done | by rewrite with_client_eq | done].
    destruct (with_client_serves s1 i _ (addReply (discarded c) ReplyOk) Hs1 Hc1) as (A1 & A2 & A3 & A4); try done.
    split_and!; try done; [intros a Ha Hsig; transitivity s1; [by eapply other_cas|by apply A2]|].
    intros Hid. apply A4. unfold idle. by rewrite Hg.
  - rewrite (upd_with_client s i c _ Hc). eexists _, _. split; [done|].
    split_and!; [by apply (with_client_serves s i c) | done | by rewrite with_client_eq | done].
Qed.

Lemma watchCommand_serves s i c : tx_ok s -> clients s !! i = Some c ->
  exists s', watchCommand s i = Some s' /\ serves i s s' /\ cas_keeps i s s'.
Proof.
  intros [Hs Hq] Hc.
  destruct (watchCommand_ok s i c Hs Hc) as (s' & c' & He & Hs' & Hc' & Hd & Hg & Hf & Hm & _ & Ho & Hw).
  exists s'. split; [done|]. split.
  - apply (serves_intro s s' i c'); try done. split; [done|]. intros j cj mc.
    destruct (decide (j = i)) as [->|Hne]; [|rewrite Ho by done; apply Hq]. rewrite Hc'. intros [= <-]. rewrite Hm. apply (Hq i c mc Hc).
  - apply cas_keeps_client; [done|]. intros c0 Hc0. exists c'. split; [done|]. simplify_eq. unfold has_flag. rewrite Hf. split; [|done].
    unfold watches in Hw. rewrite Hc, Hc' in Hw. intros e He'. destruct (has_flag c CLIENT_MULTI); [by rewrite Hw|]. apply Hw. by left.
Qed.

Lemma unwatchCommand_serves s i c : tx_ok s -> clients s !! i = Some c ->
  exists s', unwatchCommand s i = Some s' /\ serves i s s' /\
    clients s' !! i = Some (addReply (set_flags (set_watched c []) (Z.ldiff (flags c) CLIENT_DIRTY_CAS)) ReplyOk).
Proof.
  intros [Hs Hq] Hc. destruct (unwatchCommand_ok s i c Hs Hc) as (s' & He & Hs' & Hc' & Hd & Hg & Ho).
  exists s'. split; [done|]. split; [|done]. eapply serves_intro; try done.
  split; [done|]. intros j cj mc. destruct (decide (j = i)) as [->|Hne]; [|rewrite Ho by done; apply Hq].
  rewrite Hc'. intros [= <-]. apply (Hq i c mc Hc).
Qed.

(** ** What EXEC needs of the other commands *)

(** A command may change its own client's database and arguments, and block it where this is allowed; of
    the state of the transactions it changes nothing. *)
Record tx_same c c' : Prop := {
  ts_commands : commands c' = commands c;
  ts_watched : watched_keys c' = watched_keys c;
  ts_multi : has_flag c' CLIENT_MULTI = has_flag c CLIENT_MULTI;
  ts_deny : has_flag c' CLIENT_DENY_BLOCKING = has_flag c CLIENT_DENY_BLOCKING;
  ts_blocked : has_flag c CLIENT_DENY_BLOCKING = true -> has_flag c' CLIENT_BLOCKED = has_flag c CLIENT_BLOCKED;
  ts_queueable : queueable (cproc (cmd c)) /\ valid (argv c) (cmd c) -> queueable (cproc (cmd c')) /\ valid (argv c') (cmd c');
}.

(** What the execution of a command did, as far as transactions are concerned. *)
Record call_result s s' : Prop := {
  cr_watch : watch_ok s';
  cr_idle : idle s -> idle s';
  cr_clients j : match clients s !! j, clients s' !! j with
                 | Some c, Some c' => tx_same c c'
                 | None, None => True
                 | _, _ => False
                 end;
}.

(** The interface: a valid command does not fail, keeps the invariant of WATCH, and leaves the
    transactions alone. *)
Class CallSpec (call_other : server V -> nat -> option (server V)) : Prop :=
  call_ok s i c name : watch_ok s -> clients s !! i = Some c -> valid (argv c) (cmd c) -> cproc (cmd c) = otherCommand_ name ->
    exists s', call_other s i = Some s' /\ call_result s s'.

Section with_call.
Context (call_other : server V -> nat -> option (server V)) {Hcall : CallSpec call_other}.
Context (ACLCheckAllPerm : server V -> nat -> Z).
Context (Hsig : signals -> forall s i c name s' a, watch_ok s -> clients s !! i = Some c -> valid (argv c) (cmd c) ->
  cproc (cmd c) = otherCommand_ name -> call_other s i = Some s' -> cas_keeps a s s').

Lemma call_serves s i c name : tx_ok s -> clients s !! i = Some c -> valid (argv c) (cmd c) -> cproc (cmd c) = otherCommand_ name ->
  exists s' c', call_other s i = Some s' /\ serves i s s' /\ (signals -> cas_keeps i s s') /\ clients s' !! i = Some c' /\ tx_same c c'.
Proof.
  intros [Hs Hq] Hc Hv Hn. destruct (call_ok s i c name Hs Hc Hv Hn) as (s' & He & [Hw Hid Hcl]).
  pose proof (Hcl i) as Hi. rewrite Hc in Hi. destruct (clients s' !! i) as [c'|] eqn:Hc'; [|done].
  exists s', c'. split_and!; try done; [|intros H; by apply (Hsig H s i c name s')].
  split_and!; [|intros a _ H; by apply (Hsig H s i c name s') | by rewrite Hc' | done].
  split; [done|]. intros j cj mc Hj. specialize (Hcl j). rewrite Hj in Hcl.
  destruct (clients s !! j) as [c0|] eqn:Hj0; [|done]. rewrite (ts_commands _ _ Hcl). apply (Hq j c0 mc Hj0).
Qed.

(** *** One queued command *)

Definition clear_dirty c : client := set_flags (set_watched c []) (Z.ldiff (flags c) CLIENT_DIRTY_CAS).

Lemma clear_dirty_same c : watched_keys c = [] -> tx_same c (addReply (clear_dirty c) ReplyOk).
Proof.
  intros Hw. split; try done; try (by apply (has_flag_ldiff_out c CLIENT_DIRTY_CAS)).
  intros _. by apply (has_flag_ldiff_out c CLIENT_DIRTY_CAS).
Qed.

(** A command of the queue, for a client that watches nothing. *)
Lemma call_queued_ok s i c : tx_ok s -> clients s !! i = Some c -> queueable (cproc (cmd c)) -> valid (argv c) (cmd c) -> watched_keys c = [] ->
  exists s' c', call_queued call_other s i = Some s' /\ serves i s s' /\ clients s' !! i = Some c' /\ tx_same c c'.
Proof.
  intros Hs Hc Hq Hv Hw. unfold call_queued. rewrite Hc. simpl_bind. destruct (cproc (cmd c)) eqn:Hp; try done.
  - destruct (unwatchCommand_serves s i c Hs Hc) as (s' & -> & Hse & Hc'). eexists s', _. split_and!; try done.
    by apply clear_dirty_same.
  - destruct (call_serves s i c _ Hs Hc Hv Hp) as (s' & c' & -> & Hse & _ & Hc' & Hsame). by exists s', c'.
Qed.

Lemma serves_trans i s s1 s2 : serves i s s1 -> serves i s1 s2 -> serves i s s2.
Proof.
  intros (A1 & A2 & A3 & A4) (B1 & B2 & B3 & B4). split_and!; try done; [intros a Ha H; transitivity s1; auto | auto].
Qed.

(** The execution of the queue [q], one command after the other. Between two commands only the
    client's copy of the queue is written. *)
Inductive runs i : list multiCmd -> server V -> server V -> Prop :=
| runs_nil s : runs i [] s s
| runs_cons mc q s c s1 c1 s2 s3 q' :
    clients s !! i = Some c ->
    s1 = with_client s i (set_cmd c (mc_argv mc) (mc_cmd mc)) ->
    (if ACLCheckAllPerm s1 i =? 0 then call_queued call_other s1 i = Some s2
     else upd s1 i (fun c => addReply c (noperm (ACLCheckAllPerm s1 i))) = Some s2) ->
    clients s2 !! i = Some c1 ->
    s3 = with_client s2 i (set_mstate c1 q' (cmd_flags c1) (cmd_inv_flags c1)) ->
    forall s', runs i q s3 s' -> runs i (mc :: q) s s'.

(** The client inside the loop of EXEC. *)
Definition executing c : Prop :=
  watched_keys c = [] /\ has_flag c CLIENT_MULTI = true /\ has_flag c CLIENT_DENY_BLOCKING = true /\ has_flag c CLIENT_BLOCKED = false.

Lemma tx_same_executing c c' : tx_same c c' -> executing c -> executing c'.
Proof.
  intros [A1 A2 A3 A4 A5] (B1 & B2 & B3 & B4). split_and!; try congruence. by rewrite A5.
Qed.

(** One turn of the loop: the command, and then the copy of the queue. *)
Lemma exec_turn_ok s i c mc : tx_ok s -> clients s !! i = Some c -> executing c -> mc ∈ commands c ->
  let s1 := with_client s i (set_cmd c (mc_argv mc) (mc_cmd mc)) in
  exists s2 c2, (if ACLCheckAllPerm s1 i =? 0 then call_queued call_other s1 i = Some s2
     else upd s1 i (fun c => addReply c (noperm (ACLCheckAllPerm s1 i))) = Some s2) /\
    clients s2 !! i = Some c2 /\ serves i s s2 /\ executing c2 /\ commands c2 = commands c /\ queueable (cproc (cmd c2)) /\ valid (argv c2) (cmd c2).
Proof.
  intros Hs Hc Hex Hmc s1. pose proof (tx_queue _ Hs i c mc Hc Hmc) as [Hq Hv].
  set (c1 := set_cmd c (mc_argv mc) (mc_cmd mc)) in *.
  assert (serves i s s1) as Hse by (by apply (with_client_serves s i c)).
  assert (clients s1 !! i = Some c1) as Hc1 by apply with_client_eq.
  assert (exists s2 c2, (if ACLCheckAllPerm s1 i =? 0 then call_queued call_other s1 i = Some s2
     else upd s1 i (fun c => addReply c (noperm (ACLCheckAllPerm s1 i))) = Some s2) /\
     clients s2 !! i = Some c2 /\ serves i s1 s2 /\ tx_same c1 c2) as (s2 & c2 & He & Hc2 & Hse2 & Hsame).
  { destruct (ACLCheckAllPerm s1 i =? 0).
    - destruct (call_queued_ok s1 i c1) as (s2 & c2 & ? & ? & ? & ?); [apply Hse | done | done | done | apply Hex|]. by exists s2, c2.
    - rewrite (upd_with_client s1 i c1 _ Hc1). eexists _, _. split; [done|]. split; [apply with_client_eq|].
      split; [apply (with_client_serves s1 i c1); try done; apply Hse | done]. }
  destruct (ts_queueable _ _ Hsame) as [Hq2 Hv2]; [done|].
  exists s2, c2. split_and!; try done; [by apply (serves_trans i s s1) | |].
  - by apply (tx_same_executing c1 c2).
  - apply (ts_commands _ _ Hsame).
Qed.

Lemma exec_loop_ok q : forall fuel s i c j, tx_ok s -> clients s !! i = Some c -> executing c ->
  drop j (commands c) = q -> (length q < fuel)%nat ->
  exists s' c', exec_loop (call_queued call_other) ACLCheckAllPerm fuel s i j = Some s' /\
    runs i q s s' /\ serves i s s' /\ clients s' !! i = Some c' /\ executing c'.
Proof.
  induction q as [|mc q IH]; intros [|fuel] s i c j Hs Hc Hex Hq Hf; try (simpl in Hf; lia); cbn [exec_loop]; rewrite Hc; simpl_bind.
  - assert (commands c !! j = None) as ->.
    { apply lookup_ge_None. apply (f_equal length) in Hq. rewrite length_drop in Hq. simpl in Hq. lia. }
    exists s, c. split; [done|]. split; [constructor|]. split_and!; try done; by rewrite Hc.
  - assert (commands c !! j = Some mc) as Hj.
    { pose proof (lookup_drop (commands c) j 0) as Hl. by rewrite Hq, Nat.add_0_r in Hl. }
    rewrite Hj, (upd_with_client s i c _ Hc). simpl_bind. cbv zeta.
    destruct (exec_turn_ok s i c mc Hs Hc Hex) as (s2 & c2 & Hrun & Hc2 & Hse2 & Hex2 & Hcm & Hq2 & Hv2);
      [by eapply list_elem_of_lookup_2|]. cbv zeta in Hrun.
    set (s1 := with_client s i _) in *.
    assert ((if negb (ACLCheckAllPerm s1 i =? 0) then upd s1 i (fun c => addReply c (noperm (ACLCheckAllPerm s1 i)))
      else s ← call_queued call_other s1 i; c ← clients s !! i; if has_flag c CLIENT_BLOCKED then None else Some s) = Some s2) as ->.
    { destruct (ACLCheckAllPerm s1 i =? 0); simpl negb; cbv iota; [|done]. rewrite Hrun. simpl_bind. rewrite Hc2. simpl_bind.
      by destruct Hex2 as (_ & _ & _ & ->). }
    simpl_bind. rewrite (upd_with_client s2 i c2 _ Hc2). simpl_bind.
    set (c3 := set_mstate c2 _ _ _). set (s3 := with_client s2 i c3).
    assert (tx_ok s3) as Hs3.
    { apply (with_client_ok s2 i c2); [apply Hse2 | done | done | done|]. intros m' Hm'. simpl in Hm'.
      apply list_elem_of_lookup in Hm' as [n Hn]. apply list_lookup_insert_Some in Hn as [(_ & <- & _)|[_ Hn]]; [done|].
      destruct Hse2 as [Ht _]. apply (tx_queue _ Ht i c2 m' Hc2). by eapply list_elem_of_lookup_2. }
    assert (serves i s2 s3) as Hse3.
    { split_and!; [done | intros a Ha _; eapply with_client_cas; [done|by left] | | done]. unfold s3. rewrite with_client_eq. by eexists. }
    destruct (IH fuel s3 i c3 (S j)) as (s' & c' & -> & Hr & Hse & Hc' & Hex').
    + done.
    + apply with_client_eq.
    + done.
    + unfold c3. simpl. rewrite drop_insert_lt by lia. rewrite Hcm.
      rewrite (drop_S _ mc j Hj) in Hq. congruence.
    + simpl in Hf. lia.
    + exists s', c'. split_and!; try done.
      * eapply (runs_cons i mc q s c s1 c2 s2 s3); done.
      * apply (serves_trans i s s2); [done|]. by apply (serves_trans i s2 s3).
Qed.

(** *** EXEC *)

Abbreviation exec := (execCommand (call_queued call_other) ACLCheckAllPerm).

Lemma set_globs_ok s g : tx_ok s -> tx_ok (set_globs s g).
Proof.
  intros [Hs Hq]. split; [|done]. apply (watch_ok_intro s); try done; [eauto|apply Hs..].
Qed.

Lemma set_globs_cas s g a : cas_keeps a s (set_globs s g).
Proof. by apply cas_keeps_other. Qed.

(** EXEC must fail: a watched key was touched or is expired, or a command could not be queued. *)
Definition must_abort s i c : bool :=
  existsb (key_expired s) (watches s i) || has_flag c CLIENT_DIRTY_CAS || has_flag c CLIENT_DIRTY_EXEC.

Lemma set_dirty_flag c f : Z.land CLIENT_DIRTY_CAS f = 0 -> has_flag (set_dirty c) f = has_flag c f.
Proof. intros H. unfold set_dirty. rewrite has_flag_lor, H. apply orb_false_r. Qed.

Lemma exec_abort_ok s i c : tx_ok s -> clients s !! i = Some c -> has_flag c CLIENT_MULTI = true -> must_abort s i c = true ->
  exists s' c', exec s i = Some s' /\ tx_ok s' /\ same_data s s' /\
    (forall j, j <> i -> clients s' !! j = clients s !! j) /\ clients s' !! i = Some c' /\
    (c' = discarded (addReply c (if has_flag c CLIENT_DIRTY_EXEC then execaborterr else ReplyNullArray)) \/
     c' = discarded (addReply (set_dirty c) (if has_flag c CLIENT_DIRTY_EXEC then execaborterr else ReplyNullArray))).
Proof.
  intros Hs Hc Hm Hab. unfold execCommand. rewrite Hc. simpl_bind. rewrite Hm. simpl negb. cbv iota.
  rewrite isWatchedKeyExpired_ok by (apply Hs || by eexists). simpl_bind.
  set (e := existsb (key_expired s) (watches s i)) in *. set (c1 := if e then set_dirty c else c).
  assert (exists s1, (if e then upd s i (fun c => set_flags c (Z.lor (flags c) CLIENT_DIRTY_CAS)) else Some s) = Some s1 /\
    tx_ok s1 /\ same_data s s1 /\ clients s1 !! i = Some c1 /\ forall j, j <> i -> clients s1 !! j = clients s !! j)
    as (s1 & -> & Hs1 & [Hd1 Hg1] & Hc1 & Ho1).
  { unfold c1. destruct e; [|by exists s]. rewrite (upd_with_client s i c _ Hc). eexists. split; [done|].
    split_and!; [by apply (with_client_ok' s i c) | done | apply with_client_eq | intros j; apply with_client_ne]. }
  simpl_bind. rewrite Hc1. simpl_bind.
  assert (has_flag c1 CLIENT_DIRTY_EXEC = has_flag c CLIENT_DIRTY_EXEC) as Hde.
  { unfold c1. destruct e; [|done]. by apply set_dirty_flag. }
  assert (has_flag c1 (Z.lor CLIENT_DIRTY_CAS CLIENT_DIRTY_EXEC) = true) as ->.
  { rewrite has_flag_or, Hde. unfold must_abort in Hab. fold e in Hab. unfold c1. destruct e; [|done].
    by rewrite has_flag_set_dirty. }
  rewrite (upd_with_client s1 i c1 _ Hc1). simpl_bind. rewrite Hde. set (r := if has_flag c CLIENT_DIRTY_EXEC then execaborterr else ReplyNullArray).
  destruct (discardTransaction_ok (with_client s1 i (addReply c1 r)) i (addReply c1 r)) as (s' & -> & Hs' & Hc' & [Hd Hg] & Ho);
    [by apply (with_client_ok' s1 i c1) | apply with_client_eq|].
  exists s', (discarded (addReply c1 r)). split_and!; try done.
  - split; [by rewrite Hd|by rewrite Hg].
  - intros j Hj. rewrite Ho, with_client_ne by done. by apply Ho1.
  - unfold c1. destruct e; auto.
Qed.

(** The client when the first queued command is about to be executed. *)
Definition exec_start c : client :=
  addReply (set_watched (set_flags c (Z.lor (flags c) CLIENT_DENY_BLOCKING)) []) (ReplyArrayLen (zlen (commands c))).

Lemma exec_commit_ok s i c : tx_ok s -> clients s !! i = Some c -> has_flag c CLIENT_MULTI = true ->
  has_flag c CLIENT_BLOCKED = false -> must_abort s i c = false ->
  exists s0 s1 s' c1 c', exec s i = Some s' /\
    tx_ok s0 /\ data s0 = data s /\ clients s0 !! i = Some (exec_start c) /\ in_exec (globs s0) = true /\
    (forall j, j <> i -> clients s0 !! j = clients s !! j) /\
    runs i (commands c) s0 s1 /\ clients s1 !! i = Some c1 /\
    tx_ok s' /\ data s' = data s1 /\ idle s' /\ (forall j, j <> i -> clients s' !! j = clients s1 !! j) /\
    clients s' !! i = Some c' /\ replies c' = replies c1 /\ argv c' = argv c /\ cmd c' = cmd c /\
    commands c' = [] /\ watched_keys c' = [] /\ has_flag c' CLIENT_MULTI = false /\
    (forall a, a <> i -> signals -> cas_keeps a s s').
Proof.
  intros Hs Hc Hm Hb Hab. unfold execCommand. rewrite Hc. simpl_bind. rewrite Hm. simpl negb. cbv iota.
  rewrite isWatchedKeyExpired_ok by (apply Hs || by eexists). simpl_bind.
  unfold must_abort in Hab. rewrite !orb_false_iff in Hab. destruct Hab as [[-> H1] H2]. simpl_bind. rewrite Hc. simpl_bind.
  rewrite has_flag_or, H1, H2. simpl orb. cbv iota zeta.
  set (cd := set_flags c (Z.lor (flags c) CLIENT_DENY_BLOCKING)).
  rewrite (upd_with_client s i c _ Hc). simpl_bind. fold cd.
  assert (tx_ok (with_client s i cd)) as Hsd by (by apply (with_client_ok' s i c)).
  destruct (unwatchAll_ok _ i cd Hsd (with_client_eq _ _ _)) as (su & -> & Hsu & Hcu & [Hdu Hgu] & Hou). simpl_bind.
  assert (clients (set_in_exec su true) !! i = Some (set_watched cd [])) as Hcu' by done.
  rewrite (upd_with_client _ i _ _ Hcu'). simpl_bind. set (s0 := with_client (set_in_exec su true) i _).
  assert (tx_ok s0) as Hs0 by (apply (with_client_ok' (set_in_exec su true) i (set_watched cd [])); try done; by apply set_globs_ok).
  assert (clients s0 !! i = Some (exec_start c)) as Hc0 by apply with_client_eq.
  assert (executing (exec_start c)) as Hex0.
  { split_and!; [done| | |]; [transitivity (has_flag cd CLIENT_MULTI) | transitivity (has_flag cd CLIENT_DENY_BLOCKING) |
      transitivity (has_flag cd CLIENT_BLOCKED)]; try done; unfold cd; rewrite has_flag_lor.
    - by rewrite Hm.
    - apply orb_true_r.
    - by rewrite Hb. }
  destruct (exec_loop_ok (commands c) (S (length (commands c))) s0 i (exec_start c) 0 Hs0 Hc0 Hex0)
    as (s1 & c1 & -> & Hruns & Hse & Hc1 & Hex1); [by rewrite drop_0 | lia|]. simpl_bind.
  rewrite (upd_with_client s1 i c1 _ Hc1). simpl_bind. set (c2 := set_cmd _ (argv c) (cmd c)).
  assert (watched_keys c2 = watched_keys c1 /\ cdb c2 = cdb c1 /\ commands c2 = commands c1 /\ replies c2 = replies c1) as (E1 & E2 & E3 & E4).
  { unfold c2. by destruct (Z.land (flags c) CLIENT_DENY_BLOCKING =? 0). }
  destruct (discardTransaction_ok (with_client s1 i c2) i c2) as (s2 & -> & Hs2 & Hc2 & [Hd2 Hg2] & Ho2);
    [by apply (with_client_ok' s1 i c1); [apply Hse|..] | apply with_client_eq|]. simpl_bind.
  set (sp := if propagate_in_transaction (globs s2) then _ else s2).
  assert (exists g, sp = set_globs s2 g /\ propagate_in_transaction g = false) as (g & Hg & Hpr).
  { unfold sp. destruct (propagate_in_transaction (globs s2)) eqn:Hp; [by eexists|]. exists (globs s2). by destruct s2. }
  exists s0, s1, (set_in_exec sp false), c1, (discarded c2).
  rewrite Hg. split_and!; try done.
  - intros j Hj. unfold s0. rewrite with_client_ne by done. simpl. rewrite Hou by done. by apply with_client_ne.
  - by apply set_globs_ok, set_globs_ok.
  - intros j Hj. simpl. rewrite Ho2 by done. by apply with_client_ne.
  - apply discarded_idle.
  - intros a Ha Hsi. transitivity s0; [|transitivity s1; [by apply Hse|]].
    + apply cas_keeps_other; [done|]. unfold s0. rewrite with_client_ne by done. simpl. rewrite Hou by done. by apply with_client_ne.
    + apply cas_keeps_other; [done|]. simpl. rewrite Ho2 by done. by apply with_client_ne.
Qed.

Lemma exec_serves s i c : tx_ok s -> clients s !! i = Some c -> has_flag c CLIENT_BLOCKED = false ->
  exists s', exec s i = Some s' /\ serves i s s'.
Proof.
  intros Hs Hc Hb. destruct (has_flag c CLIENT_MULTI) eqn:Hm.
  - destruct (must_abort s i c) eqn:Hab.
    + destruct (exec_abort_ok s i c Hs Hc Hm Hab) as (s' & c' & -> & Hs' & [Hd Hg] & Ho & Hc' & _). exists s'. split; [done|].
      by apply (serves_intro s s' i c').
    + destruct (exec_commit_ok s i c Hs Hc Hm Hb Hab) as (s0 & s1 & s' & c1 & c' & -> & H). destruct_and! H. exists s'. split; [done|].
      split_and!; [done | done | by eexists | done].
  - unfold execCommand. rewrite Hc. simpl_bind. rewrite Hm. simpl negb. cbv iota. rewrite (upd_with_client s i c _ Hc).
    eexists. split; [done|]. by apply (with_client_serves s i c).
Qed.

(** *** Requests *)

(** The requests after which a client watches nothing. *)
Definition ends_watch (p : proc) : Prop :=
  match p with execCommand_ | discardCommand_ | unwatchCommand_ | resetCommand_ => True | _ => False end.

Lemma queue_ok s i c : tx_ok s -> clients s !! i = Some c -> queueable (cproc (cmd c)) -> valid (argv c) (cmd c) ->
  serves i s (with_client s i (addReply (queueMultiCommand c) ReplyQueued)) /\
  cas_keeps i s (with_client s i (addReply (queueMultiCommand c) ReplyQueued)).
Proof.
  intros Hs Hc Hq Hv. unfold queueMultiCommand. destruct (has_flag c CLIENT_DIRTY_EXEC).
  { split; [by apply (with_client_serves s i c)|]. eapply with_client_cas; [done|by right]. }
  split; [|eapply with_client_cas; [done|by right]]. split_and!.
  - apply (with_client_ok s i c); try done. intros mc. simpl. rewrite elem_of_app, list_elem_of_singleton.
    intros [Hmc| ->]; [by apply (tx_queue _ Hs i c)|done].
  - intros a Ha _. eapply with_client_cas; [done|by left].
  - rewrite with_client_eq. by eexists.
  - done.
Qed.

(** Select the database 0 and leave the transaction. *)
Lemma select_discard_ok s i c : tx_ok s -> clients s !! i = Some c ->
  exists s1 s2 c2, selectDb s i 0 = Some (s1, 0) /\ discardTransaction s1 i = Some s2 /\ serves i s s2 /\
    clients s2 !! i = Some c2 /\ flags c2 = flags (discarded c) /\ commands c2 = [] /\ watched_keys c2 = [].
Proof.
  intros Hs Hc. destruct (wo_db _ (tx_watch _ Hs) i c Hc) as [db Hd]. apply lookup_lt_Some in Hd.
  unfold selectDb. replace ((0 <? 0) || (zlen (dbs s) <=? 0)) with false by (symmetry; unfold zlen; apply orb_false_iff; lia).
  rewrite (upd_with_client s i c _ Hc). simpl_bind. set (c1 := set_cdb c _). set (s1 := with_client s i c1).
  assert (tx_ok s1) as Hs1.
  { pose proof Hs as [Hw Hq]. split.
    - apply (upd_ok s i c); [done | done | done|]. apply lookup_lt_is_Some. simpl. lia.
    - intros j cj mc. destruct (decide (j = i)) as [->|Hne]; [unfold s1; rewrite with_client_eq; intros [= <-]; apply (Hq i c mc Hc)|].
      unfold s1. rewrite with_client_ne by done. apply Hq. }
  destruct (discardTransaction_ok s1 i c1 Hs1 (with_client_eq _ _ _)) as (s2 & He & Hs2 & Hc2 & [Hd2 Hg2] & Ho2).
  exists s1, s2, (discarded c1). split; [done|]. split; [done|]. split; [|by split_and!].
  apply (serves_trans i s s1).
  - split_and!; [done | intros a Ha _; eapply with_client_cas; [done|by left] | unfold s1; by rewrite with_client_eq | done].
  - by apply (serves_intro s1 s2 i (discarded c1)).
Qed.

Lemma resetCommand_serves s i c : tx_ok s -> clients s !! i = Some c -> exists s', resetCommand s i = Some s' /\ serves i s s'.
Proof.
  intros Hs Hc. unfold resetCommand. rewrite (upd_with_client s i c _ Hc). simpl_bind. rewrite with_client_eq. simpl_bind.
  set (c1 := if has_flag c CLIENT_MONITOR then _ else c). set (s1 := with_client s i c1).
  assert (watched_keys c1 = watched_keys c /\ cdb c1 = cdb c /\ commands c1 = commands c) as (A1 & A2 & A3) by (unfold c1; by destruct (has_flag c CLIENT_MONITOR)).
  assert (serves i s s1) as Hse1 by (by apply (with_client_serves s i c)). pose proof Hse1 as [Hs1 _].
  assert (clients s1 !! i = Some c1) as Hc1 by apply with_client_eq.
  destruct (has_flag c1 _).
  { rewrite (upd_with_client s1 i c1 _ Hc1). eexists. split; [done|]. apply (serves_trans i s s1); [done|]. by apply (with_client_serves s1 i c1). }
  rewrite (upd_with_client s1 i c1 _ Hc1). simpl_bind. set (c2 := if has_flag c1 _ then _ else c1). set (s2 := with_client s1 i c2).
  assert (watched_keys c2 = watched_keys c1 /\ cdb c2 = cdb c1 /\ commands c2 = commands c1) as (B1 & B2 & B3) by (unfold c2; by destruct (has_flag c1 _)).
  assert (serves i s1 s2) as Hse2 by (by apply (with_client_serves s1 i c1)). pose proof Hse2 as [Hs2 _].
  destruct (select_discard_ok s2 i c2 Hs2 (with_client_eq _ _ _)) as (s3 & s4 & c4 & -> & Hdi & Hse4 & Hc4 & _). simpl_bind. rewrite Hdi. simpl_bind.
  rewrite (upd_with_client s4 i c4 _ Hc4). eexists. split; [done|]. apply (serves_trans i s s1); [done|]. apply (serves_trans i s1 s2); [done|].
  apply (serves_trans i s2 s4); [done|]. apply (with_client_serves s4 i c4); try done. apply Hse4.
Qed.

Lemma call_queued_serves s i c : tx_ok s -> clients s !! i = Some c -> cproc (cmd c) <> execCommand_ -> cproc (cmd c) <> resetCommand_ ->
  valid (argv c) (cmd c) ->
  exists s', call_queued call_other s i = Some s' /\ serves i s s' /\ (~ ends_watch (cproc (cmd c)) -> signals -> cas_keeps i s s').
Proof.
  intros Hs Hc H1 H2 Hv. unfold call_queued. rewrite Hc. simpl_bind. destruct (cproc (cmd c)) eqn:Hp; try done.
  - destruct (discardCommand_ok s i c Hs Hc) as (s' & c' & -> & Hse & _). by exists s'.
  - destruct (multiCommand_ok s i c Hs Hc) as (s' & -> & Hse & Hcas). by exists s'.
  - destruct (watchCommand_serves s i c Hs Hc) as (s' & -> & Hse & Hcas). by exists s'.
  - destruct (unwatchCommand_serves s i c Hs Hc) as (s' & -> & Hse & _). by exists s'.
  - destruct (call_serves s i c _ Hs Hc Hv Hp) as (s' & c' & -> & Hse & Hcas & _). by exists s'.
Qed.

(** The end of processCommand(): the command is queued or executed. *)
Lemma exec_or_queue_ok s i c : tx_ok s -> clients s !! i = Some c -> has_flag c CLIENT_BLOCKED = false -> valid (argv c) (cmd c) ->
  exists s', exec_or_queue (call_proc call_other ACLCheckAllPerm) s i = Some s' /\ serves i s s' /\
    (~ ends_watch (cproc (cmd c)) -> signals -> cas_keeps i s s').
Proof.
  intros Hs Hc Hb Hv. unfold exec_or_queue. rewrite Hc. simpl_bind.
  match goal with |- exists s', (if ?b then _ else _) = _ /\ _ => destruct b eqn:Hqu end.
  - rewrite !andb_true_iff in Hqu. rewrite (upd_with_client s i c _ Hc). eexists. split; [done|].
    destruct (queue_ok s i c Hs Hc) as [? ?]; [|done|by split]. destruct_and! Hqu. destruct (cproc (cmd c)); done.
  - unfold call_proc. rewrite Hc. simpl_bind. destruct (decide (cproc (cmd c) = execCommand_)) as [He|He].
    { rewrite He. destruct (exec_serves s i c Hs Hc) as (s' & -> & Hse); [done|]. by exists s'. }
    destruct (decide (cproc (cmd c) = resetCommand_)) as [Hr|Hr].
    { rewrite Hr. destruct (resetCommand_serves s i c Hs Hc) as (s' & -> & Hse). by exists s'. }
    destruct (call_queued_serves s i c Hs Hc) as (s' & Hq' & Hse & Hcas); [done..|]. exists s'. split; [|done]. destruct (cproc (cmd c)); done.
Qed.

Lemma reject_ok s i c err : tx_ok s -> clients s !! i = Some c ->
  exists s', rejectCommand s i err = Some s' /\ serves i s s' /\ (cproc (cmd c) <> execCommand_ -> cas_keeps i s s').
Proof.
  intros Hs Hc. unfold rejectCommand. rewrite (upd_with_client s i c _ Hc). simpl_bind. rewrite with_client_eq. simpl_bind.
  set (c1 := flagTransaction c).
  assert (watched_keys c1 = watched_keys c /\ cdb c1 = cdb c /\ commands c1 = commands c /\ cmd c1 = cmd c) as (E1 & E2 & E3 & E4).
  { unfold c1, flagTransaction. by destruct (has_flag c CLIENT_MULTI). }
  assert (serves i s (with_client s i c1)) as Hse1 by (by apply (with_client_serves s i c)).
  assert (cas_keeps i s (with_client s i c1)) as Hcas1.
  { eapply with_client_cas; [done|right]. rewrite E1. split; [done|]. unfold c1, flagTransaction.
    destruct (has_flag c CLIENT_MULTI); [|done]. intros H. by rewrite has_flag_lor, H. }
  pose proof Hse1 as [Hs1 _]. rewrite E4. case_bool_decide as He.
  - unfold execCommandAbort. destruct (discardTransaction_ok _ i c1 Hs1 (with_client_eq _ _ _)) as (s2 & -> & Hs2 & Hc2 & [Hd Hg] & Ho).
    simpl_bind. rewrite (upd_with_client s2 i _ _ Hc2). eexists. split; [done|]. split; [|done].
    apply (serves_trans i s (with_client s i c1)); [done|]. apply (serves_trans i _ s2); [|by apply (with_client_serves s2 i (discarded c1))].
    split_and!; [done | intros a Ha _; by eapply other_cas | by rewrite Hc2 | unfold idle; by rewrite Hg].
  - rewrite (upd_with_client _ i c1 _ (with_client_eq _ _ _)). eexists. split; [done|]. split.
    + apply (serves_trans i s (with_client s i c1)); [done|]. apply (with_client_serves _ i c1); try done. apply with_client_eq.
    + intros _. transitivity (with_client s i c1); [done|]. eapply with_client_cas; [apply with_client_eq|by right].
Qed.

End with_call.
End facts.

Section theorems.
Context {V : Type} (valid : list (list Z) -> redisCommand -> Prop).
Context (call_other : server V -> nat -> option (server V)) {Hcall : CallSpec valid call_other}.
Context (ACLCheckAllPerm : server V -> nat -> Z).
Implicit Types (s : server V) (c : client) (i j : nat).

Abbreviation exec := (execCommand (call_queued call_other) ACLCheckAllPerm).

(** C2. EXEC fails exactly when it must: without executing anything if a watched key was touched or is expired
    or a command could not be queued, and otherwise it replies with the number of commands and
    executes each queued command once, in the order they were queued, on the databases as they were; no
    transition of another client comes in between. Afterwards the client is out of the transaction and
    watches nothing. The queued commands are any that satisfy [CallSpec]; the file Commands has the instance. *)
Theorem exec_correct s i c : tx_ok valid s -> clients s !! i = Some c -> has_flag c CLIENT_MULTI = true ->
  has_flag c CLIENT_BLOCKED = false ->
  exists s' c', exec s i = Some s' /\ tx_ok valid s' /\ clients s' !! i = Some c' /\
    commands c' = [] /\ watched_keys c' = [] /\ has_flag c' CLIENT_MULTI = false /\ argv c' = argv c /\ cmd c' = cmd c /\
    if must_abort s i c then
      same_data s s' /\ replies c' = replies c ++ [if has_flag c CLIENT_DIRTY_EXEC then execaborterr else ReplyNullArray]
    else exists s0 s1 c1, data s0 = data s /\ clients s0 !! i = Some (exec_start c) /\
      (forall j, j <> i -> clients s0 !! j = clients s !! j) /\
      runs call_other ACLCheckAllPerm i (commands c) s0 s1 /\ clients s1 !! i = Some c1 /\
      data s' = data s1 /\ replies c' = replies c1 /\ (forall j, j <> i -> clients s' !! j = clients s1 !! j).
Proof.
  intros Hs Hc Hm Hb. destruct (must_abort s i c) eqn:Hab.
  - destruct (exec_abort_ok valid call_other ACLCheckAllPerm s i c Hs Hc Hm Hab) as (s' & c' & -> & Hs' & Hsd & Ho & Hc' & Hcc).
    exists s', c'. split_and!; try done; destruct Hcc as [-> | ->]; try done; apply discarded_idle.
  - destruct (exec_commit_ok valid False call_other ACLCheckAllPerm (fun H => False_ind _ H) s i c Hs Hc Hm Hb Hab) as (s0 & s1 & s' & c1 & c' & -> & H). destruct_and! H.
    exists s', c'. split_and!; try done. exists s0, s1, c1. by split_and!.
Qed.

(** A command that is rejected inside a transaction (unknown command, wrong arity, no memory, ...) makes the
    transaction fail: in that state, and in any later one in which the client still has these flags, EXEC
    replies with the EXECABORT error and executes nothing. *)
Theorem rejected_aborts s i c args m err c1 s1 s2 : tx_ok valid s -> clients s !! i = Some c -> has_flag c CLIENT_MULTI = true ->
  cproc m <> execCommand_ -> rejectCommand (with_client s i (set_cmd c args m)) i err = Some s1 ->
  clients s2 !! i = Some c1 -> tx_ok valid s2 -> (exists c', clients s1 !! i = Some c' /\ flags c1 = flags c') ->
  exists s' c', exec s2 i = Some s' /\ same_data s2 s' /\ clients s' !! i = Some c' /\ replies c' = replies c1 ++ [execaborterr].
Proof.
  intros Hs Hc Hm Hne He Hc1 Hs2 (c' & Hc' & Hf). unfold rejectCommand in He.
  rewrite (upd_with_client _ i _ _ (with_client_eq _ _ _)) in He. simpl_bind in He. rewrite with_client_eq in He. simpl_bind in He.
  assert (flagTransaction (set_cmd c args m) = set_flags (set_cmd c args m) (Z.lor (flags c) CLIENT_DIRTY_EXEC)) as Hft.
  { unfold flagTransaction. change (has_flag (set_cmd c args m) CLIENT_MULTI) with (has_flag c CLIENT_MULTI). by rewrite Hm. }
  rewrite Hft in He. rewrite bool_decide_false in He by done.
  rewrite (upd_with_client _ i _ _ (with_client_eq _ _ _)) in He. simplify_eq. rewrite with_client_eq in Hc'. simplify_eq. simpl in Hf.
  assert (has_flag c1 CLIENT_DIRTY_EXEC = true /\ has_flag c1 CLIENT_MULTI = true) as [Hde Hmu].
  { unfold has_flag. rewrite Hf. change (has_flag (set_flags c (Z.lor (flags c) CLIENT_DIRTY_EXEC)) CLIENT_DIRTY_EXEC = true /\
      has_flag (set_flags c (Z.lor (flags c) CLIENT_DIRTY_EXEC)) CLIENT_MULTI = true). rewrite !has_flag_lor, Hm.
    split; [apply orb_true_r|done]. }
  destruct (exec_abort_ok valid call_other ACLCheckAllPerm s2 i c1 Hs2 Hc1 Hmu) as (s' & c' & -> & _ & Hsd & _ & Hc' & Hcc).
  { unfold must_abort. by rewrite Hde, orb_true_r. }
  rewrite Hde in Hcc. exists s', c'. split_and!; try done; [apply Hsd..|]. by destruct Hcc as [-> | ->].
Qed.

End theorems.
