(* ===== verification/Commands.v ===== *)
(** * Commands on strings and keys (src/redis-stable/src/t_string.c, expire.c, db.c, server.c)

    The handlers of 35 commands in full, on the keyspace of the file Db, and the part of the command
    table that names them. All values are strings here, given by their contents: an object that
    is encoded as an integer is its decimal notation. Keyspace notifications, the memory of the
    objects and the rdb file that FLUSHALL writes are not part of the model. A result [None] is a
    failed assertion or an argument that is not there. Sums that the code tests for an overflow
    afterwards are computed modulo 2^64. *)
From S2P Require Import Prelude.
From S2P Require Import Util.
From S2P Require Import Watch.
From S2P Require Import Db.
From S2P Require Import Multi.

(** ** The command table (server.c) *)

Definition CMD_WRITE : Z := Z.shiftl 1 0.
Definition CMD_DENYOOM : Z := Z.shiftl 1 2.
Definition CMD_NOSCRIPT : Z := Z.shiftl 1 6.
Definition CMD_RANDOM : Z := Z.shiftl 1 7.
Definition CMD_LOADING : Z := Z.shiftl 1 9.
Definition CMD_STALE : Z := Z.shiftl 1 10.
Definition CMD_SKIP_SLOWLOG : Z := Z.shiftl 1 12.
Definition CMD_FAST : Z := Z.shiftl 1 14.
Definition CMD_NO_AUTH : Z := Z.shiftl 1 15.
Definition CMD_MAY_REPLICATE : Z := Z.shiftl 1 16.
Definition CMD_CATEGORY_KEYSPACE : Z := Z.shiftl 1 19.
Definition CMD_CATEGORY_READ : Z := Z.shiftl 1 20.
Definition CMD_CATEGORY_WRITE : Z := Z.shiftl 1 21.
Definition CMD_CATEGORY_STRING : Z := Z.shiftl 1 26.
Definition CMD_CATEGORY_FAST : Z := Z.shiftl 1 33.
Definition CMD_CATEGORY_SLOW : Z := Z.shiftl 1 34.
Definition CMD_CATEGORY_DANGEROUS : Z := Z.shiftl 1 36.
Definition CMD_CATEGORY_CONNECTION : Z := Z.shiftl 1 37.
Definition CMD_CATEGORY_TRANSACTION : Z := Z.shiftl 1 38.

(** The words "write", "read-only" and "fast", which also give a category *)
Definition write_ : Z := Z.lor CMD_WRITE CMD_CATEGORY_WRITE.
Definition read_only : Z := Z.lor CMD_READONLY CMD_CATEGORY_READ.
Definition fast : Z := Z.lor CMD_FAST CMD_CATEGORY_FAST.

(** The words of 'sflags' *)
Definition populateCommandTableParseFlags (words : list Z) : Z :=
  let flags := foldr Z.lor 0 words in
  if Z.land flags CMD_CATEGORY_FAST =? 0 then Z.lor flags CMD_CATEGORY_SLOW else flags.

Definition command (name : string) (arity : Z) (words : list Z) : list Z * redisCommand :=
  (str name, RedisCommand (otherCommand_ (str name)) (populateCommandTableParseFlags words) arity).

Definition special (name : string) (p : proc) (arity : Z) (words : list Z) : list Z * redisCommand :=
  (str name, RedisCommand p (populateCommandTableParseFlags words) arity).

(** The commands of this file and of the file Multi *)
Definition redisCommandTable : list (list Z * redisCommand) := [
  command "get" 2 [read_only; fast; CMD_CATEGORY_STRING];
  command "getdel" 2 [write_; fast; CMD_CATEGORY_STRING];
  command "set" (-3) [write_; CMD_DENYOOM; CMD_CATEGORY_STRING];
  command "setnx" 3 [write_; CMD_DENYOOM; fast; CMD_CATEGORY_STRING];
  command "setex" 4 [write_; CMD_DENYOOM; CMD_CATEGORY_STRING];
  command "psetex" 4 [write_; CMD_DENYOOM; CMD_CATEGORY_STRING];
  command "append" 3 [write_; CMD_DENYOOM; fast; CMD_CATEGORY_STRING];
  command "strlen" 2 [read_only; fast; CMD_CATEGORY_STRING];
  command "del" (-2) [write_; CMD_CATEGORY_KEYSPACE];
  command "unlink" (-2) [write_; fast; CMD_CATEGORY_KEYSPACE];
  command "exists" (-2) [read_only; fast; CMD_CATEGORY_KEYSPACE];
  command "incr" 2 [write_; CMD_DENYOOM; fast; CMD_CATEGORY_STRING];
  command "decr" 2 [write_; CMD_DENYOOM; fast; CMD_CATEGORY_STRING];
  command "mget" (-2) [read_only; fast; CMD_CATEGORY_STRING];
  command "incrby" 3 [write_; CMD_DENYOOM; fast; CMD_CATEGORY_STRING];
  command "decrby" 3 [write_; CMD_DENYOOM; fast; CMD_CATEGORY_STRING];
  command "getset" 3 [write_; CMD_DENYOOM; fast; CMD_CATEGORY_STRING];
  command "mset" (-3) [write_; CMD_DENYOOM; CMD_CATEGORY_STRING];
  command "msetnx" (-3) [write_; CMD_DENYOOM; CMD_CATEGORY_STRING];
  command "select" 2 [CMD_LOADING; fast; CMD_STALE; CMD_CATEGORY_KEYSPACE];
  command "swapdb" 3 [write_; fast; CMD_CATEGORY_KEYSPACE; CMD_CATEGORY_DANGEROUS];
  command "move" 3 [write_; fast; CMD_CATEGORY_KEYSPACE];
  command "rename" 3 [write_; CMD_CATEGORY_KEYSPACE];
  command "renamenx" 3 [write_; fast; CMD_CATEGORY_KEYSPACE];
  command "expire" 3 [write_; fast; CMD_CATEGORY_KEYSPACE];
  command "expireat" 3 [write_; fast; CMD_CATEGORY_KEYSPACE];
  command "pexpire" 3 [write_; fast; CMD_CATEGORY_KEYSPACE];
  command "pexpireat" 3 [write_; fast; CMD_CATEGORY_KEYSPACE];
  command "dbsize" 1 [read_only; fast; CMD_CATEGORY_KEYSPACE];
  special "multi" multiCommand_ 1 [CMD_NOSCRIPT; fast; CMD_LOADING; CMD_STALE; CMD_CATEGORY_TRANSACTION];
  special "exec" execCommand_ 1 [CMD_NOSCRIPT; CMD_SKIP_SLOWLOG; CMD_LOADING; CMD_STALE; CMD_CATEGORY_TRANSACTION];
  special "discard" discardCommand_ 1 [CMD_NOSCRIPT; fast; CMD_LOADING; CMD_STALE; CMD_CATEGORY_TRANSACTION];
  command "flushdb" (-1) [write_; CMD_CATEGORY_KEYSPACE; CMD_CATEGORY_DANGEROUS];
  command "flushall" (-1) [write_; CMD_CATEGORY_KEYSPACE; CMD_CATEGORY_DANGEROUS];
  command "ttl" 2 [read_only; fast; CMD_RANDOM; CMD_CATEGORY_KEYSPACE];
  command "touch" (-2) [read_only; fast; CMD_CATEGORY_KEYSPACE];
  command "pttl" 2 [read_only; fast; CMD_RANDOM; CMD_CATEGORY_KEYSPACE];
  command "persist" 2 [write_; fast; CMD_CATEGORY_KEYSPACE];
  special "watch" watchCommand_ (-2) [CMD_NOSCRIPT; fast; CMD_LOADING; CMD_STALE; CMD_CATEGORY_TRANSACTION];
  special "unwatch" unwatchCommand_ 1 [CMD_NOSCRIPT; fast; CMD_LOADING; CMD_STALE; CMD_CATEGORY_TRANSACTION];
  special "reset" resetCommand_ 1 [CMD_NOSCRIPT; CMD_STALE; CMD_LOADING; fast; CMD_CATEGORY_CONNECTION]
].

Fixpoint table_find {A} (name : list Z) (table : list (list Z * A)) : option A :=
  match table with
  | [] => None
  | (n, a) :: table => if strcaseeq name n then Some a else table_find name table
  end.

(** The names are compared without case; rename-command of the configuration is not used. *)
Definition lookupCommand (name : list Z) : option redisCommand := table_find name redisCommandTable.

(** The test of processCommand(): the number of the arguments is right. *)
Definition arity_ok (args : list (list Z)) (m : redisCommand) : bool :=
  negb ((0 <? arity m) && negb (arity m =? zlen args) || (zlen args <? - arity m)).

(** ** Arguments and replies *)

Abbreviation value := (list Z).

(** The settings that the commands read *)
Record kconf := KConf {
  lazyfree_lazy_user_del : bool;
  cluster_enabled : bool;
  proto_max_bulk_len : Z;
  saveparams : bool;          (** server.saveparamslen > 0 *)
}.

(** The C string at the beginning of an argument *)
Fixpoint cstr (s : list Z) : list Z :=
  match s with
  | [] => []
  | b :: s => if b =? 0 then [] else b :: cstr s
  end.

Definition UNIT_SECONDS : Z := 0.
Definition UNIT_MILLISECONDS : Z := 1.

Definition OBJ_SET_NX : Z := Z.shiftl 1 0.
Definition OBJ_SET_XX : Z := Z.shiftl 1 1.
Definition OBJ_EX : Z := Z.shiftl 1 2.
Definition OBJ_PX : Z := Z.shiftl 1 3.
Definition OBJ_KEEPTTL : Z := Z.shiftl 1 4.
Definition OBJ_SET_GET : Z := Z.shiftl 1 5.
Definition OBJ_EXAT : Z := Z.shiftl 1 6.
Definition OBJ_PXAT : Z := Z.shiftl 1 7.
Definition OBJ_PERSIST : Z := Z.shiftl 1 8.

(** flags & f *)
Definition hasf (flags f : Z) : bool := negb (Z.land flags f =? 0).

Definition notinteger : list Z := str "value is not an integer or out of range".

(** getLongLongFromObject() of an argument *)
Definition getLongLong (o : value) : option Z := string2ll o.

(** getIntFromObjectOrReply(): the value or the error *)
Definition getIntFromObject (o : value) (msg : option (list Z)) : list Z + Z :=
  match getLongLong o with
  | None => inl (default notinteger msg)
  | Some v =>
      if (v <? INT32_MIN) || (INT32_MAX <? v) then
        inl (default (str "value is out of range, value must between -2147483648 and 2147483647") msg)
      else inr v
  end.

Section commands.
Context (conf : server value -> kconf).
Implicit Types (s : server value) (ci d : nat).

Definition reply_ s ci (r : reply) : option (server value) := upd s ci (fun c => addReply c r).

Definition error s ci (msg : list Z) : option (server value) := reply_ s ci (ReplyError msg).

(** rewriteClientCommandVector() and replaceClientCommandVector() *)
Definition replaceClientCommandVector s ci (args : list (list Z)) : option (server value) :=
  name ← head args;
  m ← lookupCommand name;
  upd s ci (fun c => set_cmd c args m).

(** rewriteClientCommandArgument(c,0,name) *)
Definition rewriteCommandName s ci (name : list Z) : option (server value) :=
  c ← clients s !! ci;
  replaceClientCommandVector s ci (<[0%nat := name]> (argv c)).

(** c->cmd->name *)
Definition cmd_name s ci : list Z :=
  match clients s !! ci with
  | Some c => match cproc (cmd c) with otherCommand_ name => name | _ => [] end
  | None => []
  end.

Definition invalid_expire s ci : list Z := str "invalid expire time in " ++ cmd_name s ci.

(** ** Strings (t_string.c) *)

(** C_OK or C_ERR *)
Definition checkStringLength s ci (size : Z) : bool :=
  match clients s !! ci with
  | Some c => has_flag c CLIENT_MASTER || (size <=? proto_max_bulk_len (conf s))
  | None => false
  end.

(** The reply; all values are strings, so this is always C_OK. *)
Definition getGenericCommand s ci : option (server value) :=
  c ← clients s !! ci;
  key ← argv c !! 1%nat;
  '(s, o) ← lookupKeyReadWithFlags s (cdb c) key;
  reply_ s ci (match o with None => ReplyNull | Some o => ReplyBulk o end).

(** The expire of SET: an error, or 'when' and 'milliseconds' *)
Definition set_expire_time s ci (flags unit : Z) (expire : value) : list Z + (Z * Z) :=
  match getLongLong expire with
  | None => inl notinteger
  | Some milliseconds =>
      if (milliseconds <=? 0) || ((unit =? UNIT_SECONDS) && (Z.quot LLONG_MAX 1000 <? milliseconds)) then inl (invalid_expire s ci)
      else
        let milliseconds := if unit =? UNIT_SECONDS then milliseconds * 1000 else milliseconds in
        let when := if hasf flags OBJ_PX || hasf flags OBJ_EX then s64 (milliseconds + mstime (globs s)) else milliseconds in
        if when <=? 0 then inl (invalid_expire s ci) else inr (when, milliseconds)
  end.

(** Whether an argument is "get" *)
Definition is_get (a : list Z) : bool := strcaseeq (cstr a) (str "get").

(** The part after the validation of the expire; [expire] is 'when' and 'milliseconds'. *)
Definition set_body s ci (flags : Z) (key val : value) (expire : option (Z * Z)) (ok_reply abort_reply : option reply) : option (server value) :=
  c ← clients s !! ci;
  let d := cdb c in
  '(s, abort) ← (if hasf flags OBJ_SET_NX then '(s, o) ← lookupKeyWriteWithFlags s d key; Some (s, match o with Some _ => true | None => false end)
                 else Some (s, false));
  '(s, abort) ← (if abort : bool then Some (s, true)
                 else if hasf flags OBJ_SET_XX then '(s, o) ← lookupKeyWriteWithFlags s d key; Some (s, match o with Some _ => false | None => true end)
                 else Some (s, false));
  if abort : bool then reply_ s ci (default ReplyNull abort_reply)
  else
    s ← (if hasf flags OBJ_SET_GET then getGenericCommand s ci else Some s);
    s ← genericSetKey s d key val (hasf flags OBJ_KEEPTTL) true;
    let s := add_dirty s 1 in
    s ← match expire with
        | Some (when, milliseconds) =>
            s ← setExpire s d key when;
            let exp := if hasf flags OBJ_PXAT || hasf flags OBJ_EXAT then str "PXAT" else str "PX" in
            replaceClientCommandVector s ci [str "SET"; key; val; exp; ll2string_out milliseconds]
        | None => Some s
        end;
    s ← (if hasf flags OBJ_SET_GET then Some s else reply_ s ci (default ReplyOk ok_reply));
    match expire with
    | None =>
        if hasf flags OBJ_SET_GET then
          c ← clients s !! ci;
          replaceClientCommandVector s ci (take 3 (argv c) ++ filter (fun a => is_get a = false) (drop 3 (argv c)))
        else Some s
    | Some _ => Some s
    end.

Definition setGenericCommand s ci (flags : Z) (key val : value) (expire : option value) (unit : Z) (ok_reply abort_reply : option reply) : option (server value) :=
  match expire with
  | None => set_body s ci flags key val None ok_reply abort_reply
  | Some e =>
      match set_expire_time s ci flags unit e with
      | inl msg => error s ci msg
      | inr t => set_body s ci flags key val (Some t) ok_reply abort_reply
      end
  end.

(** parseExtendedStringArgumentsOrReply() for SET: the flags, the unit and the expire, or nothing for a
    syntax error; [args] are the arguments from the current one on. *)
Fixpoint parse_set_options (fuel : nat) (args : list (list Z)) (flags unit : Z) (expire : option value) : option (Z * Z * option value) :=
  match fuel, args with
  | _, [] => Some (flags, unit, expire)
  | O, _ => None
  | S fuel, opt :: args =>
      let is_ (name : string) := strcaseeq (cstr opt) (str name) in
      let no f := negb (hasf flags f) in
      if is_ "nx" && no OBJ_SET_XX && no OBJ_SET_GET then parse_set_options fuel args (Z.lor flags OBJ_SET_NX) unit expire
      else if is_ "xx" && no OBJ_SET_NX then parse_set_options fuel args (Z.lor flags OBJ_SET_XX) unit expire
      else if is_ "get" && no OBJ_SET_NX then parse_set_options fuel args (Z.lor flags OBJ_SET_GET) unit expire
      else if is_ "keepttl" && no OBJ_PERSIST && no OBJ_EX && no OBJ_EXAT && no OBJ_PX && no OBJ_PXAT then
        parse_set_options fuel args (Z.lor flags OBJ_KEEPTTL) unit expire
      else
        match args with
        | [] => None
        | next :: args =>
            if is_ "ex" && no OBJ_KEEPTTL && no OBJ_PERSIST && no OBJ_EXAT && no OBJ_PX && no OBJ_PXAT then
              parse_set_options fuel args (Z.lor flags OBJ_EX) unit (Some next)
            else if is_ "px" && no OBJ_KEEPTTL && no OBJ_PERSIST && no OBJ_EX && no OBJ_EXAT && no OBJ_PXAT then
              parse_set_options fuel args (Z.lor flags OBJ_PX) UNIT_MILLISECONDS (Some next)
            else if is_ "exat" && no OBJ_KEEPTTL && no OBJ_PERSIST && no OBJ_EX && no OBJ_PX && no OBJ_PXAT then
              parse_set_options fuel args (Z.lor flags OBJ_EXAT) unit (Some next)
            else if is_ "pxat" && no OBJ_KEEPTTL && no OBJ_PERSIST && no OBJ_EX && no OBJ_EXAT && no OBJ_PX then
              parse_set_options fuel args (Z.lor flags OBJ_PXAT) UNIT_MILLISECONDS (Some next)
            else None
        end
  end.

Definition setCommand s ci : option (server value) :=
  c ← clients s !! ci;
  key ← argv c !! 1%nat;
  val ← argv c !! 2%nat;
  match parse_set_options (length (argv c)) (drop 3 (argv c)) 0 UNIT_SECONDS None with
  | None => error s ci (str "-ERR syntax error")
  | Some (flags, unit, expire) => setGenericCommand s ci flags key val expire unit None None
  end.

Definition setnxCommand s ci : option (server value) :=
  c ← clients s !! ci; key ← argv c !! 1%nat; val ← argv c !! 2%nat;
  setGenericCommand s ci OBJ_SET_NX key val None 0 (Some (ReplyLongLong 1)) (Some (ReplyLongLong 0)).

Definition setexCommand s ci : option (server value) :=
  c ← clients s !! ci; key ← argv c !! 1%nat; e ← argv c !! 2%nat; val ← argv c !! 3%nat;
  setGenericCommand s ci OBJ_EX key val (Some e) UNIT_SECONDS None None.

Definition psetexCommand s ci : option (server value) :=
  c ← clients s !! ci; key ← argv c !! 1%nat; e ← argv c !! 2%nat; val ← argv c !! 3%nat;
  setGenericCommand s ci OBJ_PX key val (Some e) UNIT_MILLISECONDS None None.

Definition getCommand s ci : option (server value) := getGenericCommand s ci.

Definition getdelCommand s ci : option (server value) :=
  c ← clients s !! ci;
  key ← argv c !! 1%nat;
  s ← getGenericCommand s ci;
  let lazy := lazyfree_lazy_user_del (conf s) in
  '(s, deleted) ← (if lazy then dbAsyncDelete s (cdb c) key else dbSyncDelete s (cdb c) key);
  if deleted : bool then
    s ← replaceClientCommandVector s ci [if lazy then str "UNLINK" else str "DEL"; key];
    s ← signalModifiedKey s (cdb c) key;
    Some (add_dirty s 1)
  else Some s.

Definition getsetCommand s ci : option (server value) :=
  c ← clients s !! ci;
  key ← argv c !! 1%nat;
  val ← argv c !! 2%nat;
  s ← getGenericCommand s ci;
  s ← setKey s (cdb c) key val;
  rewriteCommandName (add_dirty s 1) ci (str "SET").

Fixpoint mget_loop s ci (d : nat) (keys : list (list Z)) : option (server value) :=
  match keys with
  | [] => Some s
  | key :: keys =>
      '(s, o) ← lookupKeyReadWithFlags s d key;
      s ← reply_ s ci (match o with None => ReplyNull | Some o => ReplyBulk o end);
      mget_loop s ci d keys
  end.

Definition mgetCommand s ci : option (server value) :=
  c ← clients s !! ci;
  s ← reply_ s ci (ReplyArrayLen (zlen (argv c) - 1));
  mget_loop s ci (cdb c) (drop 1 (argv c)).

(** for (j = 1; j < c->argc; j += 2): whether a key exists *)
Fixpoint any_exists s (d : nat) (args : list (list Z)) : option (server value * bool) :=
  match args with
  | key :: _ :: args =>
      '(s, o) ← lookupKeyWriteWithFlags s d key;
      match o with Some _ => Some (s, true) | None => any_exists s d args end
  | _ => Some (s, false)
  end.

Fixpoint mset_loop s (d : nat) (args : list (list Z)) : option (server value) :=
  match args with
  | key :: val :: args => s ← setKey s d key val; mset_loop s d args
  | _ => Some s
  end.

Definition msetGenericCommand s ci (nx : bool) : option (server value) :=
  c ← clients s !! ci;
  if zlen (argv c) mod 2 =? 0 then error s ci (str "wrong number of arguments for MSET")
  else
    let args := drop 1 (argv c) in
    '(s, found) ← (if nx then any_exists s (cdb c) args else Some (s, false));
    if found : bool then reply_ s ci (ReplyLongLong 0)
    else
      s ← mset_loop s (cdb c) args;
      reply_ (add_dirty s (Z.quot (zlen (argv c) - 1) 2)) ci (if nx then ReplyLongLong 1 else ReplyOk).

Definition incrDecrCommand s ci (incr : Z) : option (server value) :=
  c ← clients s !! ci;
  key ← argv c !! 1%nat;
  let d := cdb c in
  '(s, o) ← lookupKeyWriteWithFlags s d key;
  match match o with None => Some 0 | Some o => getLongLong o end with
  | None => error s ci notinteger
  | Some oldvalue =>
      if (incr <? 0) && (oldvalue <? 0) && (incr <? LLONG_MIN - oldvalue) || (0 <? incr) && (0 <? oldvalue) && (LLONG_MAX - oldvalue <? incr)
      then error s ci (str "increment or decrement would overflow")
      else
        let value_ := oldvalue + incr in
        s ← match o with
            | Some _ => dbOverwrite s d key (ll2string_out value_)
            | None => dbAdd s d key (ll2string_out value_)
            end;
        s ← signalModifiedKey s d key;
        reply_ (add_dirty s 1) ci (ReplyLongLong value_)
  end.

Definition incrbyCommand s ci : option (server value) :=
  c ← clients s !! ci;
  a ← argv c !! 2%nat;
  match getLongLong a with None => error s ci notinteger | Some incr => incrDecrCommand s ci incr end.

Definition decrbyCommand s ci : option (server value) :=
  c ← clients s !! ci;
  a ← argv c !! 2%nat;
  match getLongLong a with None => error s ci notinteger | Some incr => incrDecrCommand s ci (s64 (- incr)) end.

Definition appendCommand s ci : option (server value) :=
  c ← clients s !! ci;
  key ← argv c !! 1%nat;
  append ← argv c !! 2%nat;
  let d := cdb c in
  '(s, o) ← lookupKeyWriteWithFlags s d key;
  match o with
  | None =>
      s ← dbAdd s d key append;
      s ← signalModifiedKey s d key;
      reply_ (add_dirty s 1) ci (ReplyLongLong (zlen append))
  | Some o =>
      if negb (checkStringLength s ci (zlen o + zlen append)) then
        error s ci (str "string exceeds maximum allowed size (proto-max-bulk-len)")
      else
        s ← dbOverwrite s d key (o ++ append);
        s ← signalModifiedKey s d key;
        reply_ (add_dirty s 1) ci (ReplyLongLong (zlen (o ++ append)))
  end.

Definition strlenCommand s ci : option (server value) :=
  c ← clients s !! ci;
  key ← argv c !! 1%nat;
  '(s, o) ← lookupKeyReadWithFlags s (cdb c) key;
  reply_ s ci (ReplyLongLong (match o with None => 0 | Some o => zlen o end)).

(** ** Expires (expire.c) *)

Definition checkAlreadyExpired s (when : Z) : bool :=
  (when <=? mstime (globs s)) && negb (loading (globs s)) && negb (masterhost (globs s)).

Definition expireGenericCommand s ci (basetime unit : Z) : option (server value) :=
  c ← clients s !! ci;
  key ← argv c !! 1%nat;
  param ← argv c !! 2%nat;
  let d := cdb c in
  match getLongLong param with
  | None => error s ci notinteger
  | Some when =>
      let negative_when := when <? 0 in
      let when := if unit =? UNIT_SECONDS then s64 (when * 1000) else when in
      let when := s64 (when + basetime) in
      if (when <? 0) && negb negative_when || (0 <? s64 (when - basetime)) && negative_when then error s ci (invalid_expire s ci)
      else
        '(s, o) ← lookupKeyWriteWithFlags s d key;
        match o with
        | None => reply_ s ci (ReplyLongLong 0)
        | Some _ =>
            if checkAlreadyExpired s when then
              let lazy := lazyfree_lazy_expire (globs s) in
              '(s, deleted) ← (if lazy then dbAsyncDelete s d key else dbSyncDelete s d key);
              if negb deleted then None
              else
                s ← replaceClientCommandVector (add_dirty s 1) ci [if lazy then str "UNLINK" else str "DEL"; key];
                s ← signalModifiedKey s d key;
                reply_ s ci (ReplyLongLong 1)
            else
              s ← setExpire s d key when;
              s ← reply_ s ci (ReplyLongLong 1);
              s ← signalModifiedKey s d key;
              Some (add_dirty s 1)
        end
  end.

Definition ttlGenericCommand s ci (output_ms : bool) : option (server value) :=
  c ← clients s !! ci;
  key ← argv c !! 1%nat;
  '(s, o) ← lookupKeyReadWithFlags s (cdb c) key;
  match o with
  | None => reply_ s ci (ReplyLongLong (-2))
  | Some _ =>
      db ← dbs s !! cdb c;
      expire ← getExpire db key;
      let ttl := if expire =? -1 then -1 else let ttl := s64 (expire - mstime (globs s)) in if ttl <? 0 then 0 else ttl in
      reply_ s ci (ReplyLongLong (if ttl =? -1 then -1 else if output_ms then ttl else Z.quot (s64 (ttl + 500)) 1000))
  end.

Definition persistCommand s ci : option (server value) :=
  c ← clients s !! ci;
  key ← argv c !! 1%nat;
  let d := cdb c in
  '(s, o) ← lookupKeyWriteWithFlags s d key;
  match o with
  | None => reply_ s ci (ReplyLongLong 0)
  | Some _ =>
      '(s, removed) ← removeExpire s d key;
      if removed : bool then
        s ← signalModifiedKey s d key;
        s ← reply_ s ci (ReplyLongLong 1);
        Some (add_dirty s 1)
      else reply_ s ci (ReplyLongLong 0)
  end.

(** TOUCH counts like EXISTS. *)
Definition touchCommand s ci : option (server value) :=
  c ← clients s !! ci;
  '(s, touched) ← count_keys s (cdb c) (drop 1 (argv c)) 0;
  reply_ s ci (ReplyLongLong touched).

(** ** Databases (db.c) *)

Definition delCommand s ci : option (server value) := delGenericCommand s ci (lazyfree_lazy_user_del (conf s)).

Definition selectCommand s ci : option (server value) :=
  c ← clients s !! ci;
  a ← argv c !! 1%nat;
  match getIntFromObject a None with
  | inl msg => error s ci msg
  | inr id =>
      if cluster_enabled (conf s) && negb (id =? 0) then error s ci (str "SELECT is not allowed in cluster mode")
      else
        '(s, r) ← selectDb s ci id;
        if r =? -1 then error s ci (str "DB index is out of range") else reply_ s ci ReplyOk
  end.

Definition swapdbCommand s ci : option (server value) :=
  c ← clients s !! ci;
  a1 ← argv c !! 1%nat;
  a2 ← argv c !! 2%nat;
  if cluster_enabled (conf s) then error s ci (str "SWAPDB is not allowed in cluster mode")
  else
    match getIntFromObject a1 (Some (str "invalid first DB index")), getIntFromObject a2 (Some (str "invalid second DB index")) with
    | inl msg, _ => error s ci msg
    | _, inl msg => error s ci msg
    | inr id1, inr id2 =>
        '(s, r) ← dbSwapDatabases s id1 id2;
        if r =? -1 then error s ci (str "DB index is out of range") else reply_ (add_dirty s 1) ci ReplyOk
    end.

Definition moveCommand s ci : option (server value) :=
  c ← clients s !! ci;
  key ← argv c !! 1%nat;
  a ← argv c !! 2%nat;
  if cluster_enabled (conf s) then error s ci (str "MOVE is not allowed in cluster mode")
  else
    let src := cdb c in
    match getIntFromObject a None with
    | inl msg => error s ci msg
    | inr dbid =>
        '(s, r) ← selectDb s ci dbid;
        if r =? -1 then error s ci (str "DB index is out of range")
        else
          let dst := Z.to_nat dbid in
          '(s, _) ← selectDb s ci (Z.of_nat src);
          if bool_decide (src = dst) then error s ci (str "-ERR source and destination objects are the same")
          else
            '(s, o) ← lookupKeyWriteWithFlags s src key;
            match o with
            | None => reply_ s ci (ReplyLongLong 0)
            | Some o =>
                db ← dbs s !! src;
                expire ← getExpire db key;
                '(s, o2) ← lookupKeyWriteWithFlags s dst key;
                match o2 with
                | Some _ => reply_ s ci (ReplyLongLong 0)
                | None =>
                    s ← dbAdd s dst key o;
                    s ← (if expire =? -1 then Some s else setExpire s dst key expire);
                    '(s, _) ← dbDelete s src key;
                    s ← signalModifiedKey s src key;
                    s ← signalModifiedKey s dst key;
                    reply_ (add_dirty s 1) ci (ReplyLongLong 1)
                end
            end
    end.

Definition dbsizeCommand s ci : option (server value) :=
  c ← clients s !! ci;
  db ← dbs s !! cdb c;
  reply_ s ci (ReplyLongLong (Z.of_nat (size (dict db)))).

(** rdbSave() is not part of the model; 'saved_dirty' is an int. *)
Definition flushAllDataAndResetRDB s : option (server value) :=
  '(s, removed) ← emptyDb s (-1);
  let s := add_dirty s removed in
  let s := if saveparams (conf s) then add_dirty s (s32 (dirty (globs s)) - dirty (globs s)) else s in
  Some (add_dirty s 1).

Definition flushallCommand s ci : option (server value) :=
  c ← clients s !! ci;
  if negb (getFlushCommandFlags (argv c)) then error s ci (str "-ERR syntax error")
  else
    s ← flushAllDataAndResetRDB s;
    reply_ s ci ReplyOk.

(** ** c->cmd->proc(c) *)

Definition handlers : list (list Z * (server value -> nat -> option (server value))) := [
  (str "get", getCommand); (str "getdel", getdelCommand); (str "set", setCommand); (str "setnx", setnxCommand);
  (str "setex", setexCommand); (str "psetex", psetexCommand); (str "append", appendCommand); (str "strlen", strlenCommand);
  (str "del", delCommand); (str "unlink", fun s ci => delGenericCommand s ci true); (str "exists", existsCommand);
  (str "incr", fun s ci => incrDecrCommand s ci 1); (str "decr", fun s ci => incrDecrCommand s ci (-1));
  (str "mget", mgetCommand); (str "incrby", incrbyCommand); (str "decrby", decrbyCommand); (str "getset", getsetCommand);
  (str "mset", fun s ci => msetGenericCommand s ci false); (str "msetnx", fun s ci => msetGenericCommand s ci true);
  (str "select", selectCommand); (str "swapdb", swapdbCommand); (str "move", moveCommand);
  (str "rename", fun s ci => renameGenericCommand s ci false); (str "renamenx", fun s ci => renameGenericCommand s ci true);
  (str "expire", fun s ci => expireGenericCommand s ci (mstime (globs s)) UNIT_SECONDS);
  (str "expireat", fun s ci => expireGenericCommand s ci 0 UNIT_SECONDS);
  (str "pexpire", fun s ci => expireGenericCommand s ci (mstime (globs s)) UNIT_MILLISECONDS);
  (str "pexpireat", fun s ci => expireGenericCommand s ci 0 UNIT_MILLISECONDS);
  (str "dbsize", dbsizeCommand); (str "flushdb", flushdbCommand); (str "flushall", flushallCommand);
  (str "ttl", fun s ci => ttlGenericCommand s ci false); (str "touch", touchCommand);
  (str "pttl", fun s ci => ttlGenericCommand s ci true); (str "persist", persistCommand)
].

Definition kv_call s ci : option (server value) :=
  c ← clients s !! ci;
  match cproc (cmd c) with
  | otherCommand_ name => h ← table_find name handlers; h s ci
  | _ => None
  end.

(** ** What every command guarantees *)

(** A command and arguments that processCommand() lets pass. *)
Definition valid (args : list (list Z)) (m : redisCommand) : Prop :=
  (exists name, head args = Some name /\ lookupCommand name = Some m) /\ arity_ok args m = true.

Abbreviation tx_same := (tx_same valid).

(** From [s] to [s'] client [i] executed something: the keyspace is consistent, every client that watches a key that
    changed is flagged, and nothing of the transactions changed. *)
Record acts (i : nat) s s' : Prop := {
  a_ok : watch_ok s -> watch_ok s';
  a_cas a : cas_keeps a s s';
  a_db d : is_Some (dbs s !! d) <-> is_Some (dbs s' !! d);
  a_idle : idle s -> idle s';
  a_clients j : match clients s !! j, clients s' !! j with
                | Some c, Some c' => tx_same c c'
                | None, None => True
                | _, _ => False
                end;
}.

Lemma tx_same_refl c : tx_same c c.
Proof. by split. Qed.

Lemma tx_same_trans c1 c2 c3 : tx_same c1 c2 -> tx_same c2 c3 -> tx_same c1 c3.
Proof.
  intros [A1 A2 A3 A4 A5 A6] [B1 B2 B3 B4 B5 B6]. split; try congruence; [|auto]. intros H. rewrite B5, A5; [done | done | congruence].
Qed.

#[export] Instance acts_preorder i : PreOrder (acts i).
Proof.
  split.
  - intros s. split; try done. intros j. destruct (clients s !! j); [apply tx_same_refl | done].
  - intros s1 s2 s3 [A1 A2 A3 A4 A5] [B1 B2 B3 B4 B5]. split; [auto | intros a; by transitivity s2 | intros d; by rewrite A3, B3 | auto|].
    intros j. specialize (A5 j). specialize (B5 j). destruct (clients s1 !! j), (clients s2 !! j), (clients s3 !! j); try done.
    by eapply tx_same_trans.
Qed.

Lemma set_dirty_same c : tx_same c (set_dirty c).
Proof. split; try done; try (by apply set_dirty_flag). intros _. by apply set_dirty_flag. Qed.

Lemma quiet_acts i s s' : quiet s s' -> acts i s s'.
Proof.
  intros Hq. pose proof Hq as [Q1 Q2 Q3 Q4 Q5 Q6]. split; try done.
  - unfold idle. destruct Q3 as [_ _ _ _ _ [-> ->]]. done.
  - intros j. destruct (clients s !! j) as [c|] eqn:Hc; [|by rewrite Q6].
    destruct (Q5 j c Hc) as (c' & -> & [-> | ->]); [apply tx_same_refl | apply set_dirty_same].
Qed.

(** The same, and the client still executes the same command in the same database. *)
Definition calm i s s' : Prop := acts i s s' /\
  forall c, clients s !! i = Some c -> exists c', clients s' !! i = Some c' /\ argv c' = argv c /\ cmd c' = cmd c /\ cdb c' = cdb c.

#[export] Instance calm_preorder i : PreOrder (calm i).
Proof.
  split.
  - intros s. split; [done|]. intros c Hc. by exists c.
  - intros s1 s2 s3 [A1 A2] [B1 B2]. split; [by transitivity s2|]. intros c Hc. destruct (A2 c Hc) as (c' & Hc' & E1 & E2 & E3).
    destruct (B2 c' Hc') as (c'' & Hc'' & F1 & F2 & F3). exists c''. split_and!; congruence.
Qed.

Lemma quiet_calm i s s' : quiet s s' -> calm i s s'.
Proof.
  intros Hq. split; [by apply quiet_acts|]. intros c Hc. destruct (q_client _ _ Hq i c Hc) as (c' & Hc' & [-> | ->]); by eexists.
Qed.

(** A change of the client alone *)
Lemma client_acts i s c c' : clients s !! i = Some c -> tx_same c c' -> flags c' = flags c -> is_Some (dbs s !! cdb c') -> acts i s (with_client s i c').
Proof.
  intros Hc Hsame Hf Hd. split.
  - intros Hs. apply (upd_ok s i c); try done. apply (ts_watched _ _ _ Hsame).
  - intros a. eapply with_client_cas; [done|]. right. rewrite (ts_watched _ _ _ Hsame). unfold has_flag. by rewrite Hf.
  - done.
  - done.
  - intros j. destruct (decide (j = i)) as [->|Hne]; [by rewrite Hc, with_client_eq|]. rewrite with_client_ne by done.
    destruct (clients s !! j); [apply tx_same_refl | done].
Qed.

(** The state is consistent, and the client and the database exist. *)
Definition here i d s : Prop := watch_ok s /\ is_Some (clients s !! i) /\ is_Some (dbs s !! d).

Lemma acts_here i d s s' : acts i s s' -> here i d s -> here i d s'.
Proof.
  intros [A1 _ A3 _ A5] (Hs & [c Hc] & Hd). split_and!; [auto | | by apply A3]. specialize (A5 i). rewrite Hc in A5.
  destruct (clients s' !! i); [by eexists | done].
Qed.

(** The computation [m] from the state [s] ends, and client [i] executed something. *)
Definition goes i s (m : option (server value)) : Prop := exists s', m = Some s' /\ acts i s s'.

Lemma goes_via s1 i d s m : acts i s s1 -> here i d s -> (here i d s1 -> goes i s1 m) -> goes i s m.
Proof.
  intros Ha Hh Hm. destruct (Hm (acts_here i d s s1 Ha Hh)) as (s' & -> & Ha'). exists s'. split; [done|]. by transitivity s1.
Qed.

(** Client [i], which was [c] in the beginning, is executing its command. *)
Definition at_ i c s : Prop := here i (cdb c) s /\ exists c', clients s !! i = Some c' /\ argv c' = argv c /\ cmd c' = cmd c /\ cdb c' = cdb c.

Lemma calm_at i c s s' : calm i s s' -> at_ i c s -> at_ i c s'.
Proof.
  intros [A1 A2] [Hh (c' & Hc' & E1 & E2 & E3)]. split; [by apply (acts_here i _ s)|]. destruct (A2 c' Hc') as (c'' & Hc'' & F1 & F2 & F3).
  exists c''. split_and!; congruence.
Qed.

Lemma goes_calm s1 i c s m : calm i s s1 -> at_ i c s -> (at_ i c s1 -> goes i s1 m) -> goes i s m.
Proof. intros Ha Hh Hm. apply (goes_via s1 i (cdb c)); [apply Ha | apply Hh|]. intros _. by apply Hm, (calm_at i c s). Qed.

Lemma goes_done i s : goes i s (Some s).
Proof. by exists s. Qed.

Lemma reply_step i d s r : here i d s -> exists s', reply_ s i r = Some s' /\ calm i s s'.
Proof.
  intros (Hs & [c Hc] & _). unfold reply_. rewrite (upd_with_client s i c _ Hc). eexists. split; [done|].
  split; [apply (client_acts i s c); [done | by split | done|]; apply (wo_db _ Hs i c Hc)|].
  intros c0 Hc0. rewrite with_client_eq. simplify_eq. by eexists.
Qed.

Lemma error_step i d s msg : here i d s -> exists s', error s i msg = Some s' /\ calm i s s'.
Proof. apply reply_step. Qed.

Lemma dirty_step i s n : calm i s (add_dirty s n).
Proof. apply quiet_calm, add_dirty_silent. Qed.

Lemma rewrite_same c args m name : head args = Some name -> lookupCommand name = Some m -> arity_ok args m = true -> queueable (cproc m) ->
  tx_same c (set_cmd c args m).
Proof. intros H1 H2 H3 H4. split; try done. intros _. split; [done|]. split; [by exists name | done]. Qed.

Lemma rewrite_step i d s args name m : here i d s -> head args = Some name -> lookupCommand name = Some m -> arity_ok args m = true -> queueable (cproc m) ->
  exists c s', clients s !! i = Some c /\ s' = with_client s i (set_cmd c args m) /\ replaceClientCommandVector s i args = Some s' /\ acts i s s'.
Proof.
  intros (Hs & [c Hc] & _) H1 H2 H3 H4. unfold replaceClientCommandVector. rewrite H1. simpl_bind. rewrite H2. simpl_bind.
  rewrite (upd_with_client s i c _ Hc). exists c. eexists. split_and!; [done | done | done|].
  apply (client_acts i s c); [done | by eapply rewrite_same | done|]. apply (wo_db _ Hs i c Hc).
Qed.

(** *** The keyspace *)

Lemma read_step i d s k : here i d s -> exists s' r, lookupKeyReadWithFlags s d k = Some (s', r) /\ calm i s s'.
Proof.
  intros (Hs & _ & [db Hd]). destruct (lookupKeyRead_ok s d db k Hs Hd) as (s' & r & -> & Hs' & [Hq _] & _).
  exists s', r. split; [done | by apply quiet_calm].
Qed.

Lemma write_step i d s k : here i d s -> exists s' db, lookupKeyWriteWithFlags s d k = Some (s', dict db !! k) /\ calm i s s' /\ dbs s' !! d = Some db.
Proof.
  intros (Hs & _ & [db Hd]). destruct (lookupKeyWrite_ok s d db k Hs Hd) as (s' & db' & -> & Hs' & [Hq _] & Hd' & _).
  exists s', db'. split_and!; [done | by apply quiet_calm | done].
Qed.

Lemma setKey_step i d s k v keepttl : here i d s -> exists s', genericSetKey s d k v keepttl true = Some s' /\ calm i s s' /\
  (forall db, dbs s' !! d = Some db -> is_Some (dict db !! k)).
Proof.
  intros (Hs & _ & [db Hd]). unfold genericSetKey.
  destruct (lookupKeyWrite_ok s d db k Hs Hd) as (s1 & db1 & -> & Hs1 & [Hq Hv] & Hd1 & Ha). simpl_bind.
  rewrite (store_ok s1 d db1 k v Hd1). simpl_bind. rewrite (persist_ok s1 d db1 k v keepttl Hd1). simpl_bind.
  pose proof (put_data_only s1 d db1 k v keepttl Hs1 Hd1) as Hdo.
  destruct (signal_write s1 _ d k Hs1 Hdo) as (s3 & -> & Hq3 & Hf); [by eexists|].
  exists s3. split_and!; [done | apply quiet_calm; by transitivity s1|]. intros db3 Hd3. destruct Hf as (Hdb & _). rewrite Hdb, (put_state_db s1 d db1 k v keepttl Hd1) in Hd3.
  injection Hd3 as <-. cbn. rewrite lookup_insert_eq. by eexists.
Qed.

(** A write of one key, and its signal *)
Lemma put_signal i d s db k v : here i d s -> dbs s !! d = Some db ->
  exists s1 s2, match dict db !! k with None => dbAdd s d k v | Some _ => dbOverwrite s d k v end = Some s1 /\
    signalModifiedKey s1 d k = Some s2 /\ calm i s s2.
Proof.
  intros (Hs & _ & _) Hd. rewrite (store_ok s d db k v Hd). pose proof (put_data_only s d db k v true Hs Hd) as Hdo.
  destruct (signal_write s _ d k Hs Hdo) as (s3 & He & Hq3 & _); [by eexists|].
  eexists _, s3. split_and!; [done | done | by apply quiet_calm].
Qed.

(** A change of the expires alone *)
Lemma expires_step i d s db e : here i d s -> dbs s !! d = Some db -> (forall k, is_Some (e !! k) -> is_Some (dict db !! k)) ->
  calm i s (with_data s d db (dict db) e).
Proof.
  intros (Hs & _ & _) Hd He. apply quiet_calm.
  assert (data_only (fun d' _ => d' = d) s (with_data s d db (dict db) e)) as Hdo by (apply with_data_only; try done; by intros k Hk; destruct Hk).
  eapply (quiet_data_flag _ (fun _ => False)); [done | done | by apply flagged_refl; auto|].
  intros a d' k' _. right. unfold lookup_data, with_data. rewrite (dbs_upd s d db) by done. destruct (decide (d' = d)) as [->|]; [by rewrite Hd | done].
Qed.

Lemma setExpire_step i d s k w : here i d s -> (forall db, dbs s !! d = Some db -> is_Some (dict db !! k)) ->
  exists s', setExpire s d k w = Some s' /\ calm i s s'.
Proof.
  intros Hh Hk. pose proof Hh as (Hs & _ & [db Hd]). destruct (Hk db Hd) as [v Hv]. unfold setExpire. rewrite Hd. simpl_bind.
  rewrite (has_key_Some db k v Hv). cbn [negb]. rewrite (upd_db_Some s d _ db Hd). eexists. split; [done|].
  apply (expires_step i d s db _ Hh Hd). intros k' Hk'. destruct (decide (k' = k)) as [->|Hne]; [by eexists|].
  rewrite lookup_insert_ne in Hk' by done. by apply (wo_expires _ Hs d db).
Qed.

Lemma removeExpire_step i d s k : here i d s -> (forall db, dbs s !! d = Some db -> is_Some (dict db !! k)) ->
  exists s' b, removeExpire s d k = Some (s', b) /\ calm i s s'.
Proof.
  intros Hh Hk. pose proof Hh as (Hs & _ & [db Hd]). destruct (Hk db Hd) as [v Hv]. unfold removeExpire. rewrite Hd. simpl_bind.
  rewrite (has_key_Some db k v Hv). cbn [negb]. rewrite (upd_db_Some s d _ db Hd). simpl_bind. eexists _, _. split; [done|].
  apply (expires_step i d s db _ Hh Hd). intros k' [w Hw]. apply lookup_delete_Some in Hw as [_ Hw]. apply (wo_expires _ Hs d db k' Hd). by eexists.
Qed.

Lemma signal_step i d s k : here i d s -> exists s', signalModifiedKey s d k = Some s' /\ calm i s s'.
Proof.
  intros (Hs & _ & Hd). destruct (touchWatchedKey_ok s d k Hs Hd) as (s' & He & Hf). exists s'. split; [done|]. by eapply quiet_calm, flagged_quiet.
Qed.

(** A deletion, the rewriting of the command and the signal *)
Lemma delete_rewrite_signal i d s db k args name m : here i d s -> dbs s !! d = Some db ->
  head args = Some name -> lookupCommand name = Some m -> arity_ok args m = true -> queueable (cproc m) ->
  exists s1 s2, replaceClientCommandVector (del_state s d db k) i args = Some s1 /\ signalModifiedKey s1 d k = Some s2 /\ acts i s s2.
Proof.
  intros Hh Hd H1 H2 H3 H4. pose proof Hh as (Hs & [c Hc] & _). pose proof (delete_data_only s d db k Hs Hd) as Hdo.
  destruct (rewrite_step i d s args name m Hh H1 H2 H3 H4) as (c' & s0 & Hc' & -> & _ & Ha). simplify_eq.
  set (s0 := with_client s i (set_cmd c args m)) in *. destruct (acts_here i d s s0 Ha Hh) as (Hs0 & _ & _).
  unfold replaceClientCommandVector. rewrite H1. simpl_bind. rewrite H2. simpl_bind. fold (del_state s d db k) in Hdo.
  rewrite (upd_with_client (del_state s d db k) i c _ Hc). eexists. 
  assert (data_only (fun d' k' => d' = d /\ k' = k) s0 (with_client (del_state s d db k) i (set_cmd c args m))) as Hdo0 by (apply (delete_data_only s0 d db k Hs0 Hd)).
  destruct (signal_write s0 _ d k Hs0 Hdo0) as (s3 & He & Hq & _); [by eexists|]. exists s3. split_and!; [done | done|].
  transitivity s0; [done | by apply quiet_acts].
Qed.

Lemma select_step i d s id : here i d s -> exists s' r, selectDb s i id = Some (s', r) /\ acts i s s'.
Proof.
  intros (Hs & [c Hc] & _). unfold selectDb. destruct (_ || _) eqn:Ho; [by exists s, (-1)|]. apply orb_false_iff in Ho as [H1 H2]. unfold zlen in H2.
  rewrite (upd_with_client s i c _ Hc). simpl_bind. eexists _, _. split; [done|].
  apply (client_acts i s c); [done | by split | done|]. apply lookup_lt_is_Some. simpl. lia.
Qed.

(** The deletion is propagated as DEL or UNLINK. *)
Lemma delete_propagate i d s db k (lazy : bool) : here i d s -> dbs s !! d = Some db ->
  exists s1 s2, replaceClientCommandVector (del_state s d db k) i [if lazy then str "UNLINK" else str "DEL"; k] = Some s1 /\
    signalModifiedKey s1 d k = Some s2 /\ acts i s s2.
Proof.
  intros Hh Hd. destruct lazy; (eapply delete_rewrite_signal; [done | done | reflexivity | reflexivity | reflexivity | done]).
Qed.

Lemma maybe_async_delete s d db k (lazy : bool) : dbs s !! d = Some db ->
  (if lazy then dbAsyncDelete s d k else dbSyncDelete s d k) = Some (del_state s d db k, has_key db k).
Proof. intros Hd. rewrite (dbAsyncDelete_eq s d db), (dbSyncDelete_eq s d db) by done. by destruct lazy. Qed.

(** ** Every handler *)

Ltac at_client H := let c' := fresh "c" in let Hc := fresh "Hc" in
  destruct H as [? (c' & Hc & ?E1 & ?E2 & ?E3)]; rewrite Hc; simpl_bind; rewrite ?E1, ?E2, ?E3.

Section one_client.
Context (i : nat) (c : client).

Lemma at_reply s r : at_ i c s -> goes i s (reply_ s i r).
Proof. intros [Hh _]. destruct (reply_step i _ s r Hh) as (s' & -> & Ha & _). by exists s'. Qed.

Lemma at_error s msg : at_ i c s -> goes i s (error s i msg).
Proof. apply at_reply. Qed.

Lemma at_get s key : at_ i c s -> argv c !! 1%nat = Some key -> exists s', getGenericCommand s i = Some s' /\ calm i s s'.
Proof.
  intros [Hh (c' & Hc & E1 & E2 & E3)] Hk. unfold getGenericCommand. rewrite Hc. simpl_bind. rewrite E1, Hk, E3. simpl_bind.
  destruct (read_step i _ s key Hh) as (s1 & r & -> & Ha). simpl_bind.
  destruct (reply_step i (cdb c) s1 (match r with None => ReplyNull | Some o => ReplyBulk o end)) as (s2 & -> & Ha2); [by apply (acts_here i _ s); [apply Ha|]|].
  exists s2. split; [done|]. by transitivity s1.
Qed.

(** The test of NX or XX *)
Lemma at_cond d s (b x : bool) key : here i d s ->
  exists s' r, (if b then '(s, o) ← lookupKeyWriteWithFlags s d key; Some (s, match o with Some _ => x | None => negb x end) else Some (s, false)) = Some (s', r) /\ calm i s s'.
Proof.
  intros Hh. destruct b; [|by exists s, false]. destruct (write_step i d s key Hh) as (s' & db & -> & Ha & _). simpl_bind. by eexists _, _.
Qed.

Lemma at_maybe_get s (b : bool) key : at_ i c s -> argv c !! 1%nat = Some key ->
  exists s', (if b then getGenericCommand s i else Some s) = Some s' /\ calm i s s'.
Proof. intros Hat Hk. destruct b; [by apply (at_get s key) | by exists s]. Qed.

Lemma at_maybe_reply s (b : bool) r : at_ i c s -> exists s', (if b then Some s else reply_ s i r) = Some s' /\ calm i s s'.
Proof. intros [Hh _]. destruct b; [by exists s|]. by apply (reply_step i (cdb c)). Qed.

(** The command is rewritten without GET. *)
Lemma at_strip s : at_ i c s -> valid (argv c) (cmd c) -> arity (cmd c) = -3 -> queueable (cproc (cmd c)) ->
  goes i s (c ← clients s !! i; replaceClientCommandVector s i (take 3 (argv c) ++ filter (fun a => is_get a = false) (drop 3 (argv c)))).
Proof.
  intros [Hh (c' & Hc & E1 & E2 & E3)] [(name & Hn & Hl) Har] Hm Hq. rewrite Hc. simpl_bind. rewrite E1.
  unfold arity_ok in Har. rewrite Hm in Har. cbn in Har. apply negb_true_iff, Z.ltb_ge in Har. unfold zlen in Har.
  edestruct (rewrite_step i (cdb c) s) as (c1 & s1 & _ & _ & He & Ha); [done | | done | | done | by exists s1].
  - destruct (argv c); [done|]. cbn in *. done.
  - unfold arity_ok. rewrite Hm. cbn [negb andb orb Z.ltb Z.opp Z.compare]. apply negb_true_iff, Z.ltb_ge. rewrite zlen_app. unfold zlen at 1. rewrite length_take.
    pose proof (zlen_nonneg (filter (fun a => is_get a = false) (drop 3 (argv c)))). lia.
Qed.

Lemma at_set_body s flags k1 key val expire ok ab : at_ i c s -> argv c !! 1%nat = Some k1 ->
  (hasf flags OBJ_SET_GET = true -> valid (argv c) (cmd c) /\ arity (cmd c) = -3 /\ queueable (cproc (cmd c))) ->
  goes i s (set_body s i flags key val expire ok ab).
Proof.
  intros Hat Hk1 Hget. unfold set_body. pose proof Hat as [Hh (c' & Hc & E1 & E2 & E3)]. rewrite Hc. simpl_bind. cbv zeta. rewrite E3.
  destruct (at_cond (cdb c) s (hasf flags OBJ_SET_NX) true key Hh) as (s1 & r1 & He1 & Ha1). cbn [negb] in He1. rewrite He1. simpl_bind.
  apply (goes_calm s1 i c s _ Ha1 Hat). intros Hat1. clear He1.
  assert (exists s2 r2, (if r1 then Some (s1, true) else if hasf flags OBJ_SET_XX then '(s, o) ← lookupKeyWriteWithFlags s1 (cdb c) key;
    Some (s, match o with Some _ => false | None => true end) else Some (s1, false)) = Some (s2, r2) /\ calm i s1 s2) as (s2 & r2 & -> & Ha2).
  { destruct r1; [by eexists _, _|]. apply (at_cond (cdb c) s1 (hasf flags OBJ_SET_XX) false key). apply Hat1. }
  simpl_bind. apply (goes_calm s2 i c s1 _ Ha2 Hat1). intros Hat2. destruct r2; [by apply at_reply|].
  destruct (at_maybe_get s2 (hasf flags OBJ_SET_GET) k1 Hat2 Hk1) as (s3 & -> & Ha3). simpl_bind. apply (goes_calm s3 i c s2 _ Ha3 Hat2). intros Hat3.
  destruct (setKey_step i (cdb c) s3 key val (hasf flags OBJ_KEEPTTL) (proj1 Hat3)) as (s4 & -> & Ha4 & Hk4). simpl_bind.
  apply (goes_calm s4 i c s3 _ Ha4 Hat3). intros Hat4. apply (goes_calm (add_dirty s4 1) i c s4 _ (dirty_step i s4 1) Hat4). intros Hat5.
  destruct expire as [[when ms]|].
  - destruct (setExpire_step i (cdb c) (add_dirty s4 1) key when (proj1 Hat5) Hk4) as (s6 & -> & Ha6). simpl_bind.
    apply (goes_calm s6 i c _ _ Ha6 Hat5). intros Hat6.
    edestruct (rewrite_step i (cdb c) s6) as (c7 & s7 & _ & _ & -> & Ha7); [apply Hat6 | reflexivity | reflexivity | reflexivity | done|]. simpl_bind.
    apply (goes_via s7 i (cdb c) s6 _ Ha7 (proj1 Hat6)). intros Hh7. destruct (hasf flags OBJ_SET_GET); [apply goes_done|].
    destruct (reply_step i (cdb c) s7 (default ReplyOk ok) Hh7) as (s8 & -> & Ha8 & _). simpl_bind. by exists s8.
  - simpl_bind. destruct (at_maybe_reply (add_dirty s4 1) (hasf flags OBJ_SET_GET) (default ReplyOk ok) Hat5) as (s6 & -> & Ha6). simpl_bind.
    apply (goes_calm s6 i c _ _ Ha6 Hat5). intros Hat6. destruct (hasf flags OBJ_SET_GET) eqn:Hg; [|apply goes_done].
    destruct (Hget eq_refl) as (Hv & Har & Hq). by apply (at_strip s6).
Qed.

Lemma at_set_generic s flags k1 key val expire unit ok ab : at_ i c s -> argv c !! 1%nat = Some k1 ->
  (hasf flags OBJ_SET_GET = true -> valid (argv c) (cmd c) /\ arity (cmd c) = -3 /\ queueable (cproc (cmd c))) ->
  goes i s (setGenericCommand s i flags key val expire unit ok ab).
Proof.
  intros Hat Hk1 Hget. unfold setGenericCommand. destruct expire as [e|]; [|by apply (at_set_body s flags k1)].
  destruct (set_expire_time s i flags unit e) as [msg|t]; [by apply at_error | by apply (at_set_body s flags k1)].
Qed.
End one_client.

Section one_command.
Context (i : nat) (c : client).

Ltac calm_via H := destruct H as (?s & -> & ?Ha); simpl_bind;
  match goal with Ha : calm i ?s ?s1, Hat : at_ i c ?s |- goes i ?s _ => apply (goes_calm s1 i c s _ Ha Hat); clear Ha; intros ?Hat end.

Ltac start Hat := let c' := fresh "c'" in let Hc := fresh "Hc" in let E1 := fresh in let E2 := fresh in let E3 := fresh in
  pose proof Hat as [? (c' & Hc & E1 & E2 & E3)]; rewrite Hc; simpl_bind; rewrite ?E1, ?E3; clear Hc E1 E2 E3.

Lemma at_dirty_reply s n r : at_ i c s -> goes i s (reply_ (add_dirty s n) i r).
Proof. intros Hat. apply (goes_calm _ i c s _ (dirty_step i s n) Hat). intros Hat1. by apply (at_reply i c). Qed.

Lemma getdel_goes s k : at_ i c s -> argv c !! 1%nat = Some k -> goes i s (getdelCommand s i).
Proof.
  intros Hat Hk. unfold getdelCommand. start Hat. rewrite Hk. simpl_bind. calm_via (at_get i c s k Hat Hk). cbv zeta.
  pose proof Hat0 as [(Hs & _ & [db Hd]) _]. rewrite (maybe_async_delete _ _ db) by done. simpl_bind.
  destruct (has_key db k) eqn:Hkk.
  - destruct (delete_propagate i (cdb c) s0 db k (lazyfree_lazy_user_del (conf s0)) (proj1 Hat0) Hd) as (s1 & s2 & He1 & He2 & Ha).
    rewrite He1. simpl_bind. rewrite He2. simpl_bind. eexists. split; [done|]. transitivity s2; [done|]. apply dirty_step.
  - exists (del_state s0 (cdb c) db k). split; [done|]. apply quiet_acts.
    eapply (quiet_data_flag _ (fun _ => False)); [done | by apply delete_data_only | by apply flagged_refl; auto|].
    intros a d' k' _. right. destruct (decide (d' = cdb c /\ k' = k)) as [[-> ->]|Hne]; [|by eapply data_only_lookup; [by apply delete_data_only|]].
    unfold has_key in Hkk. destruct (dict db !! k) eqn:Hdk; [done|]. rewrite (lookup_data_Some s0 _ db k Hd), Hdk.
    rewrite (lookup_data_Some _ (cdb c) (set_data db (delete k (dict db)) (delete k (expires db)))); [apply lookup_delete_eq|].
    unfold del_state. rewrite (dbs_upd s0 _ db) by done. by rewrite decide_True.
Qed.

Lemma getset_goes s k v : at_ i c s -> argv c !! 1%nat = Some k -> argv c !! 2%nat = Some v -> length (argv c) = 3%nat -> goes i s (getsetCommand s i).
Proof.
  intros Hat Hk Hv Hlen. unfold getsetCommand. start Hat. rewrite Hk, Hv. simpl_bind. calm_via (at_get i c s k Hat Hk).
  destruct (setKey_step i (cdb c) s0 k v false (proj1 Hat0)) as (s1 & He & Ha & _). unfold setKey. rewrite He. simpl_bind.
  apply (goes_calm s1 i c s0 _ Ha Hat0). intros Hat1. apply (goes_calm _ i c s1 _ (dirty_step i s1 1) Hat1). intros Hat2.
  unfold rewriteCommandName. start Hat2.
  edestruct (rewrite_step i (cdb c) (add_dirty s1 1) (<[0%nat := str "SET"]> (argv c)) (str "SET")) as (c7 & s7 & _ & _ & -> & Ha7); [apply Hat2 | | | | | by exists s7].
  - destruct (argv c); [done|]. reflexivity.
  - reflexivity.
  - unfold arity_ok, zlen. rewrite length_insert, Hlen. reflexivity.
  - done.
Qed.

Lemma mget_goes ks : forall s, at_ i c s -> goes i s (mget_loop s i (cdb c) ks).
Proof.
  induction ks as [|k ks IH]; intros s Hat; cbn [mget_loop]; [apply goes_done|].
  destruct (read_step i _ s k (proj1 Hat)) as (s1 & r & -> & Ha). simpl_bind. apply (goes_calm s1 i c s _ Ha Hat). intros Hat1.
  calm_via (reply_step i (cdb c) s1 (match r with None => ReplyNull | Some o => ReplyBulk o end) (proj1 Hat1)). by apply IH.
Qed.

Lemma any_exists_step n : forall args s, (length args <= n)%nat -> at_ i c s ->
  exists s' b, any_exists s (cdb c) args = Some (s', b) /\ calm i s s'.
Proof.
  induction n as [|n IH]; intros args s Hn Hat; (destruct args as [|k [|v args]]; cbn [any_exists]; [by exists s, false | by exists s, false|]);
    simpl in Hn; [lia|].
  destruct (write_step i _ s k (proj1 Hat)) as (s1 & db & -> & Ha & _). simpl_bind. destruct (dict db !! k); [by exists s1, true|].
  destruct (IH args s1) as (s' & b & -> & Ha'); [lia | by apply (calm_at i c s)|]. exists s', b. split; [done|]. by transitivity s1.
Qed.

Lemma mset_step n : forall args s, (length args <= n)%nat -> at_ i c s -> exists s', mset_loop s (cdb c) args = Some s' /\ calm i s s'.
Proof.
  induction n as [|n IH]; intros args s Hn Hat; (destruct args as [|k [|v args]]; cbn [mset_loop]; [by exists s | by exists s|]);
    simpl in Hn; [lia|].
  destruct (setKey_step i _ s k v false (proj1 Hat)) as (s1 & He & Ha & _). unfold setKey at 1. rewrite He. simpl_bind.
  destruct (IH args s1) as (s' & -> & Ha'); [lia | by apply (calm_at i c s)|]. exists s'. split; [done|]. by transitivity s1.
Qed.

Lemma mset_goes s nx : at_ i c s -> goes i s (msetGenericCommand s i nx).
Proof.
  intros Hat. unfold msetGenericCommand. start Hat. destruct (_ =? 0); [by apply (at_error i c)|]. cbv zeta.
  assert (exists s1 b, (if nx then any_exists s (cdb c) (drop 1 (argv c)) else Some (s, false)) = Some (s1, b) /\ calm i s s1) as (s1 & b & -> & Ha).
  { destruct nx; [by eapply any_exists_step | by exists s, false]. }
  simpl_bind. apply (goes_calm s1 i c s _ Ha Hat). intros Hat1. destruct b; [by apply (at_reply i c)|].
  calm_via (mset_step _ (drop 1 (argv c)) s1 (le_n _) Hat1). by apply at_dirty_reply.
Qed.

(** A value is stored for a key that was looked up. *)
Lemma store_goes s db k (o : option value) v r n : at_ i c s -> dbs s !! cdb c = Some db -> o = dict db !! k ->
  goes i s (s ← match o with Some _ => dbOverwrite s (cdb c) k v | None => dbAdd s (cdb c) k v end; s ← signalModifiedKey s (cdb c) k; reply_ (add_dirty s n) i r).
Proof.
  intros Hat Hd ->. destruct (put_signal i (cdb c) s db k v (proj1 Hat) Hd) as (s1 & s2 & He & Hs2 & Ha).
  replace (match dict db !! k with Some _ => _ | None => _ end) with (Some s1) by (by destruct (dict db !! k)). simpl_bind. rewrite Hs2. simpl_bind.
  apply (goes_calm s2 i c s _ Ha Hat). intros Hat2. by apply at_dirty_reply.
Qed.

Lemma incr_goes s k n : at_ i c s -> argv c !! 1%nat = Some k -> goes i s (incrDecrCommand s i n).
Proof.
  intros Hat Hk. unfold incrDecrCommand. start Hat. rewrite Hk. simpl_bind. cbv zeta.
  destruct (write_step i _ s k (proj1 Hat)) as (s1 & db & -> & Ha & Hd). simpl_bind. apply (goes_calm s1 i c s _ Ha Hat). intros Hat1.
  destruct (match dict db !! k with None => Some 0 | Some o => getLongLong o end) as [old|]; [|by apply (at_error i c)].
  destruct (_ || _); [by apply (at_error i c)|]. by apply (store_goes s1 db k).
Qed.

Lemma append_goes s k a : at_ i c s -> argv c !! 1%nat = Some k -> argv c !! 2%nat = Some a -> goes i s (appendCommand s i).
Proof.
  intros Hat Hk Ha0. unfold appendCommand. start Hat. rewrite Hk, Ha0. simpl_bind. cbv zeta.
  destruct (write_step i _ s k (proj1 Hat)) as (s1 & db & -> & Ha & Hd). simpl_bind. apply (goes_calm s1 i c s _ Ha Hat). intros Hat1.
  destruct (dict db !! k) as [o|] eqn:Ho.
  - destruct (negb _); [by apply (at_error i c)|]. by apply (store_goes s1 db k (Some o)).
  - by apply (store_goes s1 db k None).
Qed.

Lemma strlen_goes s k : at_ i c s -> argv c !! 1%nat = Some k -> goes i s (strlenCommand s i).
Proof.
  intros Hat Hk. unfold strlenCommand. start Hat. rewrite Hk. simpl_bind.
  destruct (read_step i _ s k (proj1 Hat)) as (s1 & r & -> & Ha). simpl_bind. apply (goes_calm s1 i c s _ Ha Hat). intros Hat1. by apply (at_reply i c).
Qed.
End one_command.

Section one_key_command.
Context (i : nat) (c : client).

Ltac start Hat := let c' := fresh "c'" in let Hc := fresh "Hc" in let E1 := fresh in let E2 := fresh in let E3 := fresh in
  pose proof Hat as [? (c' & Hc & E1 & E2 & E3)]; rewrite Hc; simpl_bind; rewrite ?E1, ?E3; clear Hc E1 E2 E3.

Lemma expire_goes s k p basetime unit : at_ i c s -> argv c !! 1%nat = Some k -> argv c !! 2%nat = Some p ->
  goes i s (expireGenericCommand s i basetime unit).
Proof.
  intros Hat Hk Hp. unfold expireGenericCommand. start Hat. rewrite Hk, Hp. simpl_bind. cbv zeta.
  destruct (getLongLong p) as [w|]; [|by apply (at_error i c)]. destruct (_ || _); [by apply (at_error i c)|].
  destruct (write_step i _ s k (proj1 Hat)) as (s1 & db & -> & Ha & Hd). simpl_bind. apply (goes_calm s1 i c s _ Ha Hat). intros Hat1.
  destruct (dict db !! k) as [o|] eqn:Ho; [|by apply (at_reply i c)]. destruct (checkAlreadyExpired s1 _).
  - rewrite (maybe_async_delete s1 (cdb c) db k _ Hd). simpl_bind. rewrite (has_key_Some db k o Ho). cbn [negb].
    change (add_dirty (del_state s1 (cdb c) db k) 1) with (del_state (add_dirty s1 1) (cdb c) db k).
    apply (goes_calm (add_dirty s1 1) i c s1 _ (dirty_step i s1 1) Hat1). intros Hat2.
    destruct (delete_propagate i (cdb c) (add_dirty s1 1) db k (lazyfree_lazy_expire (globs s1)) (proj1 Hat2) Hd) as (s2 & s3 & -> & He & Ha3). simpl_bind.
    rewrite He. simpl_bind. apply (goes_via s3 i (cdb c) _ _ Ha3 (proj1 Hat2)). intros Hh3.
    destruct (reply_step i (cdb c) s3 (ReplyLongLong 1) Hh3) as (s4 & -> & Ha4 & _). by exists s4.
  - match goal with |- goes i s1 (s ← setExpire s1 ?d k ?when; _) =>
      destruct (setExpire_step i d s1 k when (proj1 Hat1)) as (s2 & -> & Ha2); [intros db' Hd'; simplify_eq; by rewrite Ho|] end.
    simpl_bind. apply (goes_calm s2 i c s1 _ Ha2 Hat1). intros Hat2.
    destruct (reply_step i (cdb c) s2 (ReplyLongLong 1) (proj1 Hat2)) as (s3 & -> & Ha3). simpl_bind. apply (goes_calm s3 i c s2 _ Ha3 Hat2). intros Hat3.
    destruct (signal_step i (cdb c) s3 k (proj1 Hat3)) as (s4 & -> & Ha4). simpl_bind. apply (goes_calm s4 i c s3 _ Ha4 Hat3). intros Hat4.
    eexists. split; [done|]. apply dirty_step.
Qed.

Lemma ttl_goes s k b : at_ i c s -> argv c !! 1%nat = Some k -> goes i s (ttlGenericCommand s i b).
Proof.
  intros Hat Hk. unfold ttlGenericCommand. start Hat. rewrite Hk. simpl_bind.
  destruct (read_step i _ s k (proj1 Hat)) as (s1 & r & -> & Ha). simpl_bind. apply (goes_calm s1 i c s _ Ha Hat). intros Hat1.
  destruct r; [|by apply (at_reply i c)]. pose proof Hat1 as [(Hs1 & _ & [db Hd]) _]. rewrite Hd. simpl_bind.
  rewrite (getExpire_ok s1 (cdb c) db k Hs1 Hd). simpl_bind. by apply (at_reply i c).
Qed.

Lemma persist_goes s k : at_ i c s -> argv c !! 1%nat = Some k -> goes i s (persistCommand s i).
Proof.
  intros Hat Hk. unfold persistCommand. start Hat. rewrite Hk. simpl_bind. cbv zeta.
  destruct (write_step i _ s k (proj1 Hat)) as (s1 & db & -> & Ha & Hd). simpl_bind. apply (goes_calm s1 i c s _ Ha Hat). intros Hat1.
  destruct (dict db !! k) as [o|] eqn:Ho; [|by apply (at_reply i c)].
  destruct (removeExpire_step i (cdb c) s1 k (proj1 Hat1)) as (s2 & b & -> & Ha2); [intros db' Hd'; simplify_eq; by rewrite Ho|]. simpl_bind.
  apply (goes_calm s2 i c s1 _ Ha2 Hat1). intros Hat2. destruct b; [|by apply (at_reply i c)].
  destruct (signal_step i (cdb c) s2 k (proj1 Hat2)) as (s3 & -> & Ha3). simpl_bind. apply (goes_calm s3 i c s2 _ Ha3 Hat2). intros Hat3.
  destruct (reply_step i (cdb c) s3 (ReplyLongLong 1) (proj1 Hat3)) as (s4 & -> & Ha4). simpl_bind. apply (goes_calm s4 i c s3 _ Ha4 Hat3). intros Hat4.
  eexists. split; [done|]. apply dirty_step.
Qed.

Lemma count_step ks : forall s n, at_ i c s -> exists s' m, count_keys s (cdb c) ks n = Some (s', m) /\ calm i s s'.
Proof.
  induction ks as [|k ks IH]; intros s n Hat; cbn [count_keys]; [by eexists _, _|].
  destruct (read_step i _ s k (proj1 Hat)) as (s1 & r & -> & Ha). simpl_bind.
  destruct (IH s1 (match r with Some _ => n + 1 | None => n end)) as (s' & m & -> & Ha'); [by apply (calm_at i c s)|].
  exists s', m. split; [done|]. by transitivity s1.
Qed.

Lemma exists_goes s : at_ i c s -> goes i s (existsCommand s i).
Proof.
  intros Hat. unfold existsCommand. start Hat. destruct (count_step (drop 1 (argv c)) s 0 Hat) as (s1 & m & -> & Ha). simpl_bind.
  apply (goes_calm s1 i c s _ Ha Hat). intros Hat1. by apply (at_reply i c).
Qed.

(** The commands of the file Db *)
Lemma replied_goes s s' r m : m = Some s' -> watch_ok s -> replied s i r s' -> goes i s m.
Proof.
  intros -> Hs (s1 & c1 & Hq & Hc1 & ->). eexists. split; [done|]. transitivity s1; [by apply quiet_acts|].
  apply (client_acts i s1 c1); [done | by split | done|]. apply (wo_db s1 (q_ok _ _ Hq Hs) i c1 Hc1).
Qed.

Lemma del_goes s lazy : at_ i c s -> goes i s (delGenericCommand s i lazy).
Proof.
  intros [(Hs & _) (c' & Hc & _)]. destruct (del_ok s i c' lazy Hs Hc) as (s' & m & He & _ & Hr & _). by eapply replied_goes.
Qed.

Lemma flushdb_goes s : at_ i c s -> goes i s (flushdbCommand s i).
Proof. intros [(Hs & _) (c' & Hc & _)]. destruct (flushdb_ok s i c' Hs Hc) as (s' & r & He & _ & Hr & _). by eapply replied_goes. Qed.

Lemma flushall_goes s : at_ i c s -> goes i s (flushallCommand s i).
Proof.
  intros Hat. unfold flushallCommand. start Hat. destruct (negb _); [by apply (at_error i c)|].
  unfold flushAllDataAndResetRDB. destruct (emptyDb_ok s (-1)) as (s1 & -> & Hq & _); [apply Hat | unfold zlen; lia|]. simpl_bind.
  apply (goes_calm s1 i c s _ (quiet_calm i s s1 Hq) Hat). intros Hat1.
  set (n1 := sum_sizes _ _). apply (goes_calm _ i c s1 _ (dirty_step i s1 n1) Hat1). intros Hat2. destruct (saveparams _); [|by apply (at_dirty_reply i c)].
  apply (goes_calm _ i c _ _ (dirty_step i (add_dirty s1 n1) (s32 (dirty (globs (add_dirty s1 n1))) - dirty (globs (add_dirty s1 n1)))) Hat2).
  intros Hat3. by apply (at_dirty_reply i c).
Qed.

Lemma dbsize_goes s : at_ i c s -> goes i s (dbsizeCommand s i).
Proof. intros Hat. unfold dbsizeCommand. start Hat. pose proof Hat as [(_ & _ & [db ->]) _]. simpl_bind. by apply (at_reply i c). Qed.

Lemma select_goes s a : at_ i c s -> argv c !! 1%nat = Some a -> goes i s (selectCommand s i).
Proof.
  intros Hat Ha0. unfold selectCommand. start Hat. rewrite Ha0. simpl_bind. destruct (getIntFromObject a None) as [msg|id]; [by apply (at_error i c)|].
  destruct (_ && _); [by apply (at_error i c)|]. destruct (select_step i (cdb c) s id (proj1 Hat)) as (s1 & r & -> & Ha). simpl_bind.
  apply (goes_via s1 i (cdb c) s _ Ha (proj1 Hat)). intros Hh.
  destruct (r =? -1); [destruct (error_step i (cdb c) s1 (str "DB index is out of range") Hh) as (s2 & -> & Ha2 & _) |
    destruct (reply_step i (cdb c) s1 ReplyOk Hh) as (s2 & -> & Ha2 & _)]; by exists s2.
Qed.

Lemma swap_step s id1 id2 : watch_ok s -> exists s' r, dbSwapDatabases s id1 id2 = Some (s', r) /\ calm i s s'.
Proof.
  intros Hs. unfold dbSwapDatabases. destruct (_ || _ || _ || _) eqn:Ho; [by exists s, (-1)|]. rewrite !orb_false_iff in Ho. destruct_and! Ho. unfold zlen in *.
  destruct (Z.eqb_spec id1 id2) as [->|Hne]; [by exists s, 0|].
  destruct (swap_ok s (Z.to_nat id1) (Z.to_nat id2) Hs) as (s' & He & Hq & _); [lia | lia | lia|]. exists s', 0. split; [|by apply quiet_calm].
  rewrite <- He. unfold dbSwapDatabases, zlen. rewrite !Z2Nat.id by lia.
  replace ((id1 <? 0) || _ || _ || _) with false by (symmetry; rewrite !orb_false_iff; split_and!; lia). by rewrite (proj2 (Z.eqb_neq id1 id2)).
Qed.

Lemma swapdb_goes s a1 a2 : at_ i c s -> argv c !! 1%nat = Some a1 -> argv c !! 2%nat = Some a2 -> goes i s (swapdbCommand s i).
Proof.
  intros Hat H1 H2'. unfold swapdbCommand. start Hat. rewrite H1, H2'. simpl_bind. destruct (cluster_enabled _); [by apply (at_error i c)|].
  destruct (getIntFromObject a1 _) as [msg|id1]; [by apply (at_error i c)|]. destruct (getIntFromObject a2 _) as [msg|id2]; [by apply (at_error i c)|].
  destruct (swap_step s id1 id2) as (s1 & r & -> & Ha); [apply Hat|]. simpl_bind. apply (goes_calm s1 i c s _ Ha Hat). intros Hat1.
  destruct (r =? -1); [by apply (at_error i c) | by apply (at_dirty_reply i c)].
Qed.
End one_key_command.

Section two_keys.
Context (i : nat) (c : client).

Ltac start Hat := let c' := fresh "c'" in let Hc := fresh "Hc" in let E1 := fresh in let E2 := fresh in let E3 := fresh in
  pose proof Hat as [? (c' & Hc & E1 & E2 & E3)]; rewrite Hc; simpl_bind; rewrite ?E1, ?E3; clear Hc E1 E2 E3.

(** A lookup changes at most the key that is looked up. *)
Lemma write_other s d db k s' o : watch_ok s -> dbs s !! d = Some db -> lookupKeyWriteWithFlags s d k = Some (s', o) ->
  exists db', dbs s' !! d = Some db' /\ (forall k', k' <> k -> dict db' !! k' = dict db !! k' /\ expires db' !! k' = expires db !! k') /\
    (forall d', d' <> d -> dbs s' !! d' = dbs s !! d').
Proof.
  intros Hs Hd. unfold lookupKeyWriteWithFlags. destruct (expireIfNeeded_exact s d db k Hs Hd) as (s1 & -> & [Hdb _ _ _]). simpl_bind.
  unfold lookupKey. destruct (dbs s1 !! d) as [db1|] eqn:Hd1; [|done]. simpl_bind. intros [= <- _]. exists db1.
  rewrite Hdb in Hd1 |- *. destruct (access_deletes s db k).
  - rewrite list_lookup_insert_eq in Hd1 by (by eapply lookup_lt_Some). injection Hd1 as <-. split_and!; [rewrite list_lookup_insert_eq; [done | by eapply lookup_lt_Some] | |].
    + intros k' Hne. cbn. by rewrite !lookup_delete_ne.
    + intros d' Hne. by rewrite list_lookup_insert_ne.
  - simplify_eq. done.
Qed.

Lemma rename_goes s nx k1 k2 : at_ i c s -> argv c !! 1%nat = Some k1 -> argv c !! 2%nat = Some k2 -> goes i s (renameGenericCommand s i nx).
Proof.
  intros Hat H1 H2'. unfold renameGenericCommand. start Hat. cbv zeta. rewrite H1, H2'. simpl_bind.
  destruct (write_step i _ s k1 (proj1 Hat)) as (s1 & db1 & -> & Ha1 & Hd1). simpl_bind. apply (goes_calm s1 i c s _ Ha1 Hat). intros Hat1.
  destruct (dict db1 !! k1) as [o|] eqn:Ho; [|by apply (at_reply i c)]. destruct (bool_decide (k1 = k2)) eqn:Hb; [by apply (at_reply i c)|].
  apply bool_decide_eq_false in Hb. rewrite Hd1. simpl_bind. pose proof Hat1 as [(Hs1 & _ & _) _]. rewrite (getExpire_ok s1 _ db1 k1 Hs1 Hd1). simpl_bind.
  destruct (lookupKeyWrite_ok s1 (cdb c) db1 k2 Hs1 Hd1) as (s2 & db2 & He2 & Hs2 & [Hq2 _] & Hd2 & _).
  destruct (write_other s1 _ db1 k2 _ _ Hs1 Hd1 He2) as (db2' & Hd2' & Hoth & _). simplify_eq. rewrite He2. simpl_bind.
  destruct (Hoth k1 Hb) as [Hk1 Hx1]. rewrite <- Hx1. apply (goes_calm s2 i c s1 _ (quiet_calm i _ _ Hq2) Hat1). intros Hat2.
  destruct (rename_write_ok s2 (cdb c) db2 k1 k2 o (dict db2 !! k2) _ Hs2 Hd2 Hb ltac:(by rewrite Hk1) eq_refl eq_refl)
    as (s3 & s4 & s5 & Hm & Hg1 & Hg2 & Hq5 & _).
  assert (goes i s2 (s ← rename_move s2 (cdb c) k1 k2 o (dict db2 !! k2) (default (-1) (expires db2 !! k1)); s ← signalModifiedKey s (cdb c) k1;
    s ← signalModifiedKey s (cdb c) k2; upd (add_dirty s 1) i (fun c => addReply c (if nx then ReplyLongLong 1 else ReplyOk)))) as Hmove.
  { rewrite Hm. simpl_bind. rewrite Hg1. simpl_bind. rewrite Hg2. simpl_bind. apply (goes_calm s5 i c s2 _ (quiet_calm i _ _ Hq5) Hat2). intros Hat5.
    by apply (at_dirty_reply i c). }
  destruct (dict db2 !! k2), nx; try exact Hmove. by apply (at_reply i c).
Qed.

(** SELECT of another database and back *)
Lemma select_back s dbid : at_ i c s -> (dbid <? 0) || (zlen (dbs s) <=? dbid) = false ->
  exists s1 s2, selectDb s i dbid = Some (s1, 0) /\ selectDb s1 i (Z.of_nat (cdb c)) = Some (s2, 0) /\ calm i s s2 /\ is_Some (dbs s2 !! Z.to_nat dbid).
Proof.
  intros [(Hs & _ & Hd) (c' & Hc & E1 & E2 & E3)] Hr. apply lookup_lt_is_Some in Hd.
  set (s1 := with_client s i (set_cdb c' (Z.to_nat dbid))). set (c2 := set_cdb (set_cdb c' (Z.to_nat dbid)) (cdb c)).
  exists s1, (with_client s1 i c2). split_and!.
  - unfold selectDb. by rewrite Hr, (upd_with_client s i c' _ Hc).
  - unfold selectDb.
    replace ((Z.of_nat (cdb c) <? 0) || (zlen (dbs s1) <=? Z.of_nat (cdb c))) with false by (symmetry; unfold zlen; apply orb_false_iff; simpl; lia).
    rewrite (upd_with_client s1 i (set_cdb c' (Z.to_nat dbid))) by apply with_client_eq. simpl_bind. by rewrite Nat2Z.id.
  - assert (with_client s1 i c2 = with_client s i c2) as -> by (unfold s1, with_client; cbn; by rewrite insert_insert_eq). split.
    + apply (client_acts i s c'); [done | by split | done|]. cbn. by apply lookup_lt_is_Some.
    + intros c0 Hc0. rewrite with_client_eq. simplify_eq. eexists. by split_and!.
  - apply lookup_lt_is_Some. apply orb_false_iff in Hr as [? ?]. unfold zlen in *. simpl. lia.
Qed.

(** The move of a key between two databases, and its signals *)
Lemma move_write s src dst db1 db2 k o w : watch_ok s -> src <> dst -> dbs s !! src = Some db1 -> dbs s !! dst = Some db2 -> dict db2 !! k = None ->
  exists s1 s2 s3 b s4 s5, dbAdd s dst k o = Some s1 /\ (if w =? -1 then Some s1 else setExpire s1 dst k w) = Some s2 /\ dbDelete s2 src k = Some (s3, b) /\
    signalModifiedKey s3 src k = Some s4 /\ signalModifiedKey s4 dst k = Some s5 /\ quiet s s5.
Proof.
  intros Hs Hne H1 H2' Hk. set (K := fun (d' : nat) (k' : list Z) => (d' = src \/ d' = dst) /\ k' = k).
  assert (forall d' k', d' = dst /\ k' = k -> K d' k') as Kdst by (intros ? ? [-> ->]; split; [by right | done]).
  assert (dbAdd s dst k o = Some (put_state s dst db2 k o true)) as Hadd by (pose proof (store_ok s dst db2 k o H2') as Hst; by rewrite Hk in Hst).
  pose proof (put_data_only s dst db2 k o true Hs H2') as Hdo1. set (s1 := put_state s dst db2 k o true) in *.
  pose proof (data_only_watch_ok _ _ _ Hs Hdo1) as Hs1. pose proof (put_state_db s dst db2 k o true H2') as Hd1. fold s1 in Hd1. set (db2' := set_data _ _ _) in Hd1.
  assert (exists s2, (if w =? -1 then Some s1 else setExpire s1 dst k w) = Some s2 /\ data_only K s1 s2 /\ dbs s2 !! src = Some db1) as (s2 & He2 & Hdo2 & Hd2).
  { assert (dbs s1 !! src = Some db1) as Hsrc by (unfold s1, put_state; rewrite (dbs_upd s dst db2) by done; by rewrite decide_False).
    destruct (w =? -1); [exists s1; split_and!; [done | by apply data_only_refl | done]|].
    unfold setExpire. rewrite Hd1. simpl_bind. rewrite (has_key_Some db2' k o) by apply lookup_insert_eq. cbn [negb].
    rewrite (upd_db_Some s1 dst _ db2' Hd1). eexists. split_and!; [done | |].
    - apply (with_data_only K s1 dst db2'); try done.
      + intros k' Hk'. destruct (decide (k' = k)) as [->|Hn]; [cbn; rewrite lookup_insert_eq; by eexists|].
        rewrite lookup_insert_ne in Hk' by done. by apply (wo_expires _ Hs1 dst db2').
      + intros k' Hk'. split; [done|]. apply lookup_insert_ne. intros <-. apply Hk'. split; [by right | done].
    - rewrite (dbs_upd s1 dst db2') by done. by rewrite decide_False. }
  pose proof (data_only_watch_ok _ _ _ Hs1 Hdo2) as Hs2. pose proof (delete_data_only s2 src db1 k Hs2 Hd2) as Hdo3. fold (del_state s2 src db1 k) in Hdo3.
  assert (dbDelete s2 src k = Some (del_state s2 src db1 k, has_key db1 k)) as He3 by (unfold dbDelete; by apply maybe_async_delete).
  set (s3 := del_state s2 src db1 k) in *.
  assert (data_only K s s3) as Hdo.
  { eapply data_only_trans; [eapply data_only_weaken; [|exact Hdo1]; exact Kdst|]. eapply data_only_trans; [exact Hdo2|].
    eapply data_only_weaken; [|exact Hdo3]. intros ? ? [-> ->]. split; [by left | done]. }
  destruct (data_only_signal _ s s3 src k Hs Hdo) as (s4 & He4 & Hf4); [by eexists|].
  pose proof (data_only_watch_ok _ _ _ Hs Hdo) as Hok3. pose proof (flagged_watch_ok _ _ _ Hok3 Hf4) as Hok4.
  destruct (touchWatchedKey_ok s4 dst k Hok4) as (s5 & He5 & Hf5).
  { destruct Hf4 as (-> & _). apply (data_only_db _ _ _ dst Hdo). by eexists. }
  exists s1, s2, s3, (has_key db1 k), s4, s5. split_and!; try done. eapply quiet_data_flag; [done | exact Hdo | by eapply flagged_trans|].
  intros a d' k' Hk'. cbn. destruct (decide (K d' k')) as [[[->| ->] ->]|Hn]; [by left; left | left; right | right; by eapply data_only_lookup].
  apply (ck_watches _ _ _ (flagged_keeps _ a _ _ Hf4)). unfold watches in *. by rewrite (do_clients _ _ _ Hdo).
Qed.

Lemma move_goes s k a : at_ i c s -> argv c !! 1%nat = Some k -> argv c !! 2%nat = Some a -> goes i s (moveCommand s i).
Proof.
  intros Hat H1 H2'. unfold moveCommand. start Hat. rewrite H1, H2'. simpl_bind. destruct (cluster_enabled _); [by apply (at_error i c)|]. cbv zeta.
  destruct (getIntFromObject a None) as [msg|dbid]; [by apply (at_error i c)|].
  destruct ((dbid <? 0) || (zlen (dbs s) <=? dbid)) eqn:Hr.
  { assert (selectDb s i dbid = Some (s, -1)) as -> by (unfold selectDb; by rewrite Hr). simpl_bind. by apply (at_error i c). }
  destruct (select_back s dbid Hat Hr) as (s1 & s2 & -> & He2 & Ha2 & Hdst). simpl_bind. cbn [Z.eqb]. rewrite He2. simpl_bind.
  apply (goes_calm s2 i c s _ Ha2 Hat). intros Hat2. case_bool_decide as Hsd; [by apply (at_error i c)|].
  destruct (write_step i _ s2 k (proj1 Hat2)) as (s3 & db1 & -> & Ha3 & Hd3). simpl_bind. apply (goes_calm s3 i c s2 _ Ha3 Hat2). intros Hat3.
  destruct (dict db1 !! k) as [o|]; [|by apply (at_reply i c)]. rewrite Hd3. simpl_bind. pose proof Hat3 as [(Hs3 & _ & _) _].
  rewrite (getExpire_ok s3 _ db1 k Hs3 Hd3). simpl_bind. assert (is_Some (dbs s3 !! Z.to_nat dbid)) as [db2 Hd2] by (by apply (a_db _ _ _ (proj1 Ha3))).
  destruct (lookupKeyWrite_ok s3 _ db2 k Hs3 Hd2) as (s4 & db2' & He4 & Hs4 & [Hq4 _] & Hd4 & _).
  destruct (write_other s3 _ db2 k _ _ Hs3 Hd2 He4) as (x & Hx & _ & Hoth). rewrite He4. simpl_bind.
  apply (goes_calm s4 i c s3 _ (quiet_calm i _ _ Hq4) Hat3). intros Hat4. destruct (dict db2' !! k) eqn:Hk2; [by apply (at_reply i c)|].
  destruct (move_write s4 (cdb c) (Z.to_nat dbid) db1 db2' k o (default (-1) (expires db1 !! k)) Hs4 Hsd) as (t1 & t2 & t3 & b & t4 & t5 & -> & F2 & F3 & F4 & F5 & Hq5);
    [by rewrite Hoth | done | done|].
  simpl_bind. rewrite F2. simpl_bind. rewrite F3. simpl_bind. rewrite F4. simpl_bind. rewrite F5. simpl_bind.
  apply (goes_calm t5 i c s4 _ (quiet_calm i _ _ Hq5) Hat4). intros Hat5. by apply (at_dirty_reply i c).
Qed.
End two_keys.

(** ** All the commands *)

Section all_commands.
Context (i : nat) (c : client).

Ltac start Hat := let c' := fresh "c'" in let Hc := fresh "Hc" in let E1 := fresh in let E2 := fresh in let E3 := fresh in
  pose proof Hat as [? (c' & Hc & E1 & E2 & E3)]; rewrite Hc; simpl_bind; rewrite ?E1, ?E3; clear Hc E1 E2 E3.

Lemma touch_goes s : at_ i c s -> goes i s (touchCommand s i).
Proof.
  intros Hat. unfold touchCommand. start Hat. destruct (count_step i c (drop 1 (argv c)) s 0 Hat) as (s1 & m & -> & Ha). simpl_bind.
  apply (goes_calm s1 i c s _ Ha Hat). intros Hat1. by apply (at_reply i c).
Qed.

Lemma mgetCommand_goes s : at_ i c s -> goes i s (mgetCommand s i).
Proof.
  intros Hat. unfold mgetCommand. start Hat. destruct (reply_step i (cdb c) s (ReplyArrayLen (zlen (argv c) - 1)) (proj1 Hat)) as (s1 & -> & Ha).
  simpl_bind. apply (goes_calm s1 i c s _ Ha Hat). intros Hat1. by apply (mget_goes i c).
Qed.

Lemma get_goes s k : at_ i c s -> argv c !! 1%nat = Some k -> goes i s (getCommand s i).
Proof. intros Hat Hk. destruct (at_get i c s k Hat Hk) as (s' & He & Ha & _). by exists s'. Qed.

Lemma incrby_goes s k a : at_ i c s -> argv c !! 1%nat = Some k -> argv c !! 2%nat = Some a -> goes i s (incrbyCommand s i).
Proof.
  intros Hat Hk Ha. unfold incrbyCommand. start Hat. rewrite Ha. simpl_bind.
  destruct (getLongLong a); [by apply (incr_goes i c s k) | by apply (at_error i c)].
Qed.

Lemma decrby_goes s k a : at_ i c s -> argv c !! 1%nat = Some k -> argv c !! 2%nat = Some a -> goes i s (decrbyCommand s i).
Proof.
  intros Hat Hk Ha. unfold decrbyCommand. start Hat. rewrite Ha. simpl_bind.
  destruct (getLongLong a); [by apply (incr_goes i c s k) | by apply (at_error i c)].
Qed.

Lemma setnx_goes s k v : at_ i c s -> argv c !! 1%nat = Some k -> argv c !! 2%nat = Some v -> goes i s (setnxCommand s i).
Proof. intros Hat Hk Hv. unfold setnxCommand. start Hat. rewrite Hk, Hv. simpl_bind. by apply (at_set_generic i c s _ k). Qed.

Lemma setex_goes s k e v : at_ i c s -> argv c !! 1%nat = Some k -> argv c !! 2%nat = Some e -> argv c !! 3%nat = Some v -> goes i s (setexCommand s i).
Proof. intros Hat Hk He Hv. unfold setexCommand. start Hat. rewrite Hk, He, Hv. simpl_bind. by apply (at_set_generic i c s _ k). Qed.

Lemma psetex_goes s k e v : at_ i c s -> argv c !! 1%nat = Some k -> argv c !! 2%nat = Some e -> argv c !! 3%nat = Some v -> goes i s (psetexCommand s i).
Proof. intros Hat Hk He Hv. unfold psetexCommand. start Hat. rewrite Hk, He, Hv. simpl_bind. by apply (at_set_generic i c s _ k). Qed.

Lemma set_goes s k v : at_ i c s -> argv c !! 1%nat = Some k -> argv c !! 2%nat = Some v ->
  valid (argv c) (cmd c) -> arity (cmd c) = -3 -> queueable (cproc (cmd c)) -> goes i s (setCommand s i).
Proof.
  intros Hat Hk Hv H1 H2 H3. unfold setCommand. start Hat. rewrite Hk, Hv. simpl_bind.
  destruct (parse_set_options _ _ _ _ _) as [[[flags unit] e]|]; [|by apply (at_error i c)]. by apply (at_set_generic i c s _ k).
Qed.

(** The number of the arguments is right. *)
Lemma arity_exact args m n : arity_ok args m = true -> arity m = Z.of_nat n -> (0 < n)%nat -> length args = n.
Proof.
  unfold arity_ok, zlen. intros H Hm Hn. rewrite negb_true_iff, orb_false_iff, andb_false_iff, negb_false_iff in H. destruct H as [[H|H] _]; lia.
Qed.

Lemma arity_least args m n : arity_ok args m = true -> arity m = - Z.of_nat n -> (n <= length args)%nat.
Proof. unfold arity_ok, zlen. intros H Hm. rewrite negb_true_iff, orb_false_iff in H. destruct H as [_ H]. lia. Qed.

Lemma arg_lookup (args : list (list Z)) n : (n < length args)%nat -> exists a, args !! n = Some a.
Proof. intros H. by apply lookup_lt_is_Some in H as [a Ha]; exists a. Qed.

Lemma table_find_In {A} name (table : list (list Z * A)) a : table_find name table = Some a -> exists n, (n, a) ∈ table.
Proof.
  induction table as [|[n b] table IH]; [done|]. cbn [table_find]. destruct (strcaseeq name n).
  - intros [= ->]. exists n. apply list_elem_of_here.
  - intros H. destruct (IH H) as [n' Hn']. exists n'. by apply list_elem_of_further.
Qed.

(** The handler of a name *)
Ltac find_handler := match goal with |- context [table_find ?name handlers] =>
  eassert (table_find name handlers = Some _) as ->;
  [unfold handlers; repeat (cbn [table_find];
     match goal with |- context [strcaseeq ?a ?b] => let r := eval vm_compute in (strcaseeq a b) in
       replace (strcaseeq a b) with r by (vm_compute; reflexivity); cbv iota end); reflexivity|]; simpl_bind end.

(** The lemma of a command *)
Ltac by_command := match goal with
  | |- goes _ _ (getCommand _ _) => eapply get_goes
  | |- goes _ _ (getdelCommand _ _) => eapply getdel_goes
  | |- goes _ _ (setnxCommand _ _) => eapply setnx_goes
  | |- goes _ _ (setexCommand _ _) => eapply setex_goes
  | |- goes _ _ (psetexCommand _ _) => eapply psetex_goes
  | |- goes _ _ (appendCommand _ _) => eapply append_goes
  | |- goes _ _ (strlenCommand _ _) => eapply strlen_goes
  | |- goes _ _ (delCommand _ _) => eapply del_goes
  | |- goes _ _ (delGenericCommand _ _ _) => eapply del_goes
  | |- goes _ _ (existsCommand _ _) => eapply exists_goes
  | |- goes _ _ (incrDecrCommand _ _ _) => eapply incr_goes
  | |- goes _ _ (mgetCommand _ _) => eapply mgetCommand_goes
  | |- goes _ _ (incrbyCommand _ _) => eapply incrby_goes
  | |- goes _ _ (decrbyCommand _ _) => eapply decrby_goes
  | |- goes _ _ (msetGenericCommand _ _ _) => eapply mset_goes
  | |- goes _ _ (selectCommand _ _) => eapply select_goes
  | |- goes _ _ (swapdbCommand _ _) => eapply swapdb_goes
  | |- goes _ _ (moveCommand _ _) => eapply move_goes
  | |- goes _ _ (renameGenericCommand _ _ _) => eapply rename_goes
  | |- goes _ _ (expireGenericCommand _ _ _ _) => eapply expire_goes
  | |- goes _ _ (dbsizeCommand _ _) => eapply dbsize_goes
  | |- goes _ _ (flushdbCommand _ _) => eapply flushdb_goes
  | |- goes _ _ (flushallCommand _ _) => eapply flushall_goes
  | |- goes _ _ (ttlGenericCommand _ _ _) => eapply ttl_goes
  | |- goes _ _ (touchCommand _ _) => eapply touch_goes
  | |- goes _ _ (persistCommand _ _) => eapply persist_goes
  end.

(** Every command of the table apart from those of the transactions succeeds. *)
Lemma kv_goes s name : at_ i c s -> clients s !! i = Some c -> valid (argv c) (cmd c) -> cproc (cmd c) = otherCommand_ name -> goes i s (kv_call s i).
Proof.
  intros Hat Hc Hv Hp. pose proof Hv as [(nm & _ & Hl) Har]. destruct (table_find_In _ _ _ Hl) as [n Hin].
  assert (forall k, arity (cmd c) = Z.of_nat (S k) -> length (argv c) = S k) as Hex by (intros k H; apply (arity_exact _ _ (S k) Har H); lia).
  assert (forall k, arity (cmd c) = - Z.of_nat k -> (k <= length (argv c))%nat) as Hle by (intros k H; apply (arity_least _ _ k Har H)).
  assert (forall j k, arity (cmd c) = Z.of_nat (S k) \/ arity (cmd c) = - Z.of_nat (S k) -> (j <= k)%nat -> exists a, argv c !! j = Some a) as Harg.
  { intros j k [H|H] Hj; apply arg_lookup; [rewrite (Hex k H) | apply Hle in H]; lia. }
  clear Hl Har. unfold kv_call. rewrite Hc. simpl_bind. rewrite Hp. unfold redisCommandTable in Hin.
  repeat (apply elem_of_cons in Hin as [Hin|Hin]; [apply (f_equal snd) in Hin; cbn [snd command special] in Hin; rewrite Hin in Hp; cbn [cproc] in Hp; try discriminate Hp;
    injection Hp as <-; find_handler|]); [..|by apply elem_of_nil in Hin].
  all: rewrite Hin in Harg, Hex; cbn [arity] in Harg, Hex.
  all: try (destruct (Harg 1%nat 1%nat) as [a1 H1]; [lia | lia|]); try (destruct (Harg 1%nat 2%nat) as [a1 H1]; [lia | lia|]);
    try (destruct (Harg 2%nat 2%nat) as [a2 H2]; [lia | lia|]); try (destruct (Harg 3%nat 3%nat) as [a3 H3]; [lia | lia|]);
    try (destruct (Harg 2%nat 3%nat) as [a2 H2]; [lia | lia|]); try (destruct (Harg 1%nat 3%nat) as [a1 H1]; [lia | lia|]).
  all: try (by_command; eassumption).
  - apply (set_goes s a1 a2); try done; by rewrite Hin.
  - apply (getset_goes i c s a1 a2); try done. by apply (Hex 2%nat).
Qed.
End all_commands.

Lemma kv_result s i c name : watch_ok s -> clients s !! i = Some c -> valid (argv c) (cmd c) -> cproc (cmd c) = otherCommand_ name ->
  exists s', kv_call s i = Some s' /\ acts i s s'.
Proof.
  intros Hs Hc Hv Hp. apply (kv_goes i c s name); [|done..]. split; [|by exists c]. split_and!; [done | by eexists | by apply (wo_db _ Hs i c)].
Qed.

#[export] Instance kv_CallSpec : CallSpec valid kv_call.
Proof.
  intros s i c name Hs Hc Hv Hp. destruct (kv_result s i c name Hs Hc Hv Hp) as (s' & He & Ha). exists s'. split; [done|]. split; [by apply Ha | apply Ha | apply Ha].
Qed.

(** Every command tells the clients that watch a key which it changes. *)
Lemma kv_signals s i c name s' a : watch_ok s -> clients s !! i = Some c -> valid (argv c) (cmd c) -> cproc (cmd c) = otherCommand_ name ->
  kv_call s i = Some s' -> cas_keeps a s s'.
Proof. intros Hs Hc Hv Hp He. destruct (kv_result s i c name Hs Hc Hv Hp) as (s1 & He1 & Ha). simplify_eq. apply Ha. Qed.

End commands.
