(* ===== verification/Server.v ===== *)
(** * Requests (processCommand() in src/redis-stable/src/server.c) and the server as a transition system

    processCommand() for the commands of the file Commands, MULTI, EXEC, DISCARD, WATCH, UNWATCH, RESET
    and QUIT; any other name is unknown. What it asks of the rest of the server, which is not modelled
    (memory, disk, cluster, authentication, replicas), is an argument, so that the theorems hold for
    every answer. There are no scripts here: server.lua_timedout and server.in_eval are 0, and no module
    filters requests. Of call() only the execution of the handler is modelled, not the statistics, the slow log,
    the propagation to replicas and the append only file, and the clients that wait for keys; that
    performEvictions() may free the client of the request (a replica) is left out too. *)
From stdpp Require Import relations.
From S2P Require Import Prelude.
From S2P Require Import Util.
From S2P Require Import Watch.
From S2P Require Import Db.
From S2P Require Import Multi.
From S2P Require Import Commands.

Abbreviation value := (list Z).

Definition CLIENT_CLOSE_AFTER_REPLY : Z := Z.shiftl 1 6.
Definition CLIENT_ASKING : Z := Z.shiftl 1 9.
Definition CLIENT_PUBSUB : Z := Z.shiftl 1 18.
Definition CLIENT_REPLY_SKIP_NEXT : Z := Z.shiftl 1 23.
Definition CLIENT_REPLY_SKIP : Z := Z.shiftl 1 24.
Definition CLIENT_PENDING_COMMAND : Z := Z.shiftl 1 30.
Definition CLIENT_TRACKING_CACHING : Z := Z.shiftl 1 36.

Inductive pause_type := CLIENT_PAUSE_OFF | CLIENT_PAUSE_WRITE | CLIENT_PAUSE_ALL.

(** What the rest of the server says about a request *)
Record gate := Gate {
  authRequired : bool;
  clusterRedirect : option (list Z);     (** the error of clusterRedirectClient(), if another node is responsible *)
  maxmemory : bool;
  evicted : list (nat * list Z);         (** the keys that performEvictions() chooses *)
  lazyfree_lazy_eviction : bool;
  out_of_memory : bool;
  disk_error : option (list Z);          (** the error when writeCommandsDeniedByDiskError() *)
  few_good_slaves : bool;                (** fewer than min-slaves-to-write *)
  repl_slave_ro : bool;
  resp2 : bool;                          (** c->resp == 2 *)
  link_down_no_stale : bool;             (** repl_state != REPL_STATE_CONNECTED && repl_serve_stale_data == 0 *)
  client_pause_type : pause_type;
}.

(** What is to be done with a request *)
Inductive verdict :=
| Accept
| Reject (error : list Z)
| Redirect (error : list Z)
| Pause.

(** c->cmd->name *)
Definition command_name (p : proc) : list Z :=
  match p with
  | execCommand_ => str "exec"
  | discardCommand_ => str "discard"
  | multiCommand_ => str "multi"
  | watchCommand_ => str "watch"
  | unwatchCommand_ => str "unwatch"
  | resetCommand_ => str "reset"
  | otherCommand_ name => name
  end.

(** c->cmd->flags & f, or for EXEC a queued command has the flag *)
Definition is_command (c : client) (f : Z) : bool :=
  hasf (cflags (cmd c)) f || (bool_decide (cproc (cmd c) = execCommand_) && hasf (cmd_flags c) f).

(** !(c->cmd->flags & f), or for EXEC a queued command does not have the flag *)
Definition is_denied (c : client) (f : Z) : bool :=
  negb (hasf (cflags (cmd c)) f) || (bool_decide (cproc (cmd c) = execCommand_) && hasf (cmd_inv_flags c) f).

(** sdsmapchars(s, "\r\n", "  ", 2) *)
Definition no_newlines (s : list Z) : list Z := (fun b => if (b =? 13) || (b =? 10) then 32 else b) <$> s.

(** for (i=1; i < c->argc && sdslen(args) < 128; i++) *)
Fixpoint unknown_args (args : list (list Z)) (acc : list Z) : list Z :=
  match args with
  | [] => acc
  | a :: args =>
      if zlen acc <? 128 then unknown_args args (acc ++ str "`" ++ take (Z.to_nat (128 - zlen acc)) (cstr a) ++ str "`, ")
      else acc
  end.

Definition unknown_command (args : list (list Z)) : list Z :=
  no_newlines (str "unknown command `" ++ cstr (default [] (head args)) ++ str "`, with args beginning with: " ++ unknown_args (drop 1 args) []).

Section requests.
Context (conf : server value -> kconf) (ACLCheckAllPerm : server value -> nat -> Z).
Implicit Types (s : server value) (ci : nat) (g : gate) (c : client).

(** propagateExpire() *)
Definition propagateExpire s (e : nat * list Z) : server value :=
  let g := globs s in
  set_globs s (Globals (loading g) (lua_caller g) (lua_time_snapshot g) (fixed_time_expire g) (cached_mstime g) (mstime g)
    (masterhost g) (master g) (current_client g) (clients_paused g) (client_pause_end_time g) (lazyfree_lazy_expire g)
    (lazyfree_lazy_server_del g) (stat_expiredkeys g) (stat_keyspace_hits g) (stat_keyspace_misses g) (propagated_dels g ++ [e])
    (repl_backlog g) (backlog_exec g) (propagate_in_transaction g) (in_exec g) (dirty g)).

(** The removal of the selected keys in performEvictions() *)
Fixpoint performEvictions (lazy : bool) s (keys : list (nat * list Z)) : option (server value) :=
  match keys with
  | [] => Some s
  | (d, k) :: keys =>
      let s := propagateExpire s (d, k) in
      '(s, _) ← (if lazy then dbAsyncDelete s d k else dbSyncDelete s d k);
      s ← signalModifiedKey s d k;
      performEvictions lazy s keys
  end.

Definition acl_error c (acl_retval : Z) : list Z :=
  if acl_retval =? 1 then str "-NOPERM this user has no permissions to run the '" ++ command_name (cproc (cmd c)) ++ str "' command or its subcommand"
  else if acl_retval =? 2 then str "-NOPERM this user has no permissions to access one of the keys used as arguments"
  else if acl_retval =? 4 then str "-NOPERM this user has no permissions to access one of the channels used as arguments"
  else str "no permission".

(** The checks before the directive maxmemory *)
Definition check_user g s ci c : verdict :=
  if authRequired g && negb (hasf (cflags (cmd c)) CMD_NO_AUTH) then Reject (str "-NOAUTH Authentication required.")
  else if negb (ACLCheckAllPerm s ci =? 0) then Reject (acl_error c (ACLCheckAllPerm s ci))
  else match clusterRedirect g with Some error => Redirect error | None => Accept end.

(** The test of the directive maxmemory *)
Definition rejects_on_oom g c : bool :=
  let p := cproc (cmd c) in
  let reject_cmd_on_oom := is_command c CMD_DENYOOM ||
    (has_flag c CLIENT_MULTI && negb (bool_decide (p = execCommand_)) && negb (bool_decide (p = discardCommand_)) && negb (bool_decide (p = resetCommand_))) in
  maxmemory g && out_of_memory g && reject_cmd_on_oom.

(** The checks after it *)
Definition check_state g s c : verdict :=
  let is_read_command := is_command c CMD_READONLY in
  let is_write_command := is_command c CMD_WRITE in
  let is_may_replicate_command := is_command c (Z.lor CMD_WRITE CMD_MAY_REPLICATE) in
  let slave := masterhost (globs s) in
  if rejects_on_oom g c then Reject (str "-OOM command not allowed when used memory > 'maxmemory'.")
  else match (if negb slave && is_write_command then disk_error g else None) with
  | Some error => Reject error
  | None =>
      if negb slave && few_good_slaves g && is_write_command then Reject (str "-NOREPLICAS Not enough good replicas to write.")
      else if slave && repl_slave_ro g && negb (has_flag c CLIENT_MASTER) && is_write_command then
        Reject (str "-READONLY You can't write against a read only replica.")
      else if has_flag c CLIENT_PUBSUB && resp2 g && negb (bool_decide (cproc (cmd c) = resetCommand_)) then
        Reject (str "Can't execute '" ++ command_name (cproc (cmd c)) ++ str "': only (P)SUBSCRIBE / (P)UNSUBSCRIBE / PING / QUIT / RESET are allowed in this context")
      else if slave && link_down_no_stale g && is_denied c CMD_STALE then
        Reject (str "-MASTERDOWN Link with MASTER is down and replica-serve-stale-data is set to 'no'.")
      else if loading (globs s) && is_denied c CMD_LOADING then Reject (str "-LOADING Redis is loading the dataset in memory")
      else if has_flag c CLIENT_SLAVE && (is_may_replicate_command || is_write_command || is_read_command) then
        Reject (str "Replica can't interract with the keyspace")
      else if negb (has_flag c CLIENT_SLAVE) &&
              match client_pause_type g with
              | CLIENT_PAUSE_ALL => true
              | CLIENT_PAUSE_WRITE => is_may_replicate_command
              | CLIENT_PAUSE_OFF => false
              end then Pause
      else Accept
  end.

(** A request that is not accepted *)
Definition refuse s ci (v : verdict) : option (server value) :=
  match v with
  | Accept => Some s
  | Reject error => rejectCommand s ci error
  | Redirect error =>
      c ← clients s !! ci;
      s ← (if bool_decide (cproc (cmd c) = execCommand_) then discardTransaction s ci else upd s ci flagTransaction);
      upd s ci (fun c => addReply c (ReplyError error))
  | Pause => upd s ci (fun c => set_flags c (Z.lor (flags c) (Z.lor CLIENT_BLOCKED CLIENT_PENDING_COMMAND)))
  end.

Definition accepted (v : verdict) : bool := match v with Accept => true | _ => false end.

(** After lookupCommand() and the test of the arity *)
Definition processChecked g s ci : option (server value) :=
  c ← clients s !! ci;
  let v := check_user g s ci c in
  if negb (accepted v) then refuse s ci v
  else
    s ← (if maxmemory g then performEvictions (lazyfree_lazy_eviction g) s (evicted g) else Some s);
    c ← clients s !! ci;
    let v := check_state g s c in
    if negb (accepted v) then refuse s ci v
    else exec_or_queue (call_proc (kv_call conf) ACLCheckAllPerm) s ci.

(** [args] is argv; the second result is whether C_OK is returned. For an unknown command c->cmd is NULL;
    here it keeps its value, which the next request replaces before it is read. *)
Definition processCommand g s ci (args : list (list Z)) : option (server value * bool) :=
  if propagate_in_transaction (globs s) || in_exec (globs s) then None
  else
    name ← head args;
    if strcaseeq (cstr name) (str "quit") then
      s ← upd s ci (fun c => set_flags (addReply c ReplyOk) (Z.lor (flags c) CLIENT_CLOSE_AFTER_REPLY));
      Some (s, false)
    else
      s ← match lookupCommand name with
          | None => upd s ci (fun c => addReply (flagTransaction c) (ReplyError (unknown_command args)))
          | Some m =>
              s ← upd s ci (fun c => set_cmd c args m);
              if negb (arity_ok args m) then
                rejectCommand s ci (str "wrong number of arguments for '" ++ command_name (cproc m) ++ str "' command")
              else processChecked g s ci
          end;
      Some (s, true).

(** The flags that resetClient() changes; the last command was neither ASKING nor CLIENT. *)
Definition reset_client_flags c : Z :=
  let f := flags c in
  let f := if has_flag c CLIENT_MULTI then f else Z.ldiff f (Z.lor CLIENT_ASKING CLIENT_TRACKING_CACHING) in
  let f := Z.ldiff f CLIENT_REPLY_SKIP in
  if has_flag c CLIENT_REPLY_SKIP_NEXT then Z.ldiff (Z.lor f CLIENT_REPLY_SKIP) CLIENT_REPLY_SKIP_NEXT else f.

Definition resetClient c : client := set_flags (set_cmd c [] (cmd c)) (reset_client_flags c).

(** The replication offset of a client that is the master is not part of the state. *)
Definition commandProcessed s ci : option (server value) :=
  upd s ci (fun c => if has_flag c CLIENT_BLOCKED then c else resetClient c).

Definition set_current s (o : option nat) : server value :=
  let g := globs s in
  set_globs s (Globals (loading g) (lua_caller g) (lua_time_snapshot g) (fixed_time_expire g) (cached_mstime g) (mstime g)
    (masterhost g) (master g) o (clients_paused g) (client_pause_end_time g) (lazyfree_lazy_expire g)
    (lazyfree_lazy_server_del g) (stat_expiredkeys g) (stat_keyspace_hits g) (stat_keyspace_misses g) (propagated_dels g)
    (repl_backlog g) (backlog_exec g) (propagate_in_transaction g) (in_exec g) (dirty g)).

Definition processCommandAndResetClient g s ci (args : list (list Z)) : option (server value) :=
  let old_client := current_client (globs s) in
  '(s, ok) ← processCommand g (set_current s (Some ci)) ci args;
  s ← (if ok : bool then commandProcessed s ci else Some s);
  Some (set_current s old_client).

(** ** The server as a transition system *)

(** The keys that performEvictions() chooses are keys of the databases. *)
Definition gate_ok s g : Prop := Forall (fun e => is_Some (dbs s !! e.1)) (evicted g).

Abbreviation request := processCommandAndResetClient.

Inductive label :=
| LRequest (i : nat) (args : list (list Z))
| LConnect (i : nat)
| LDisconnect (i : nat)
| LInternal.

(** A request of a client that is not blocked, with whatever arguments; a client that is no longer blocked; a new
    client and one that leaves; the expiration of a key and the eviction of keys outside of any request; a change of
    the time, the role or the configuration. *)
Inductive step : label -> server value -> server value -> Prop :=
| step_request g s i c args s' :
    clients s !! i = Some c -> has_flag c CLIENT_BLOCKED = false -> gate_ok s g -> args <> [] ->
    request g s i args = Some s' -> step (LRequest i args) s s'
| step_unblock s i c :
    clients s !! i = Some c -> step LInternal s (with_client s i (set_flags c (Z.ldiff (flags c) CLIENT_BLOCKED)))
| step_connect s i c :
    clients s !! i = None -> commands c = [] -> watched_keys c = [] -> is_Some (dbs s !! cdb c) ->
    step (LConnect i) s (with_client s i c)
| step_disconnect s i s' :
    is_Some (clients s !! i) -> unwatchAllKeys s i = Some s' ->
    step (LDisconnect i) s (Server (delete i (clients s')) (dbs s') (globs s'))
| step_expire s d k s' :
    is_Some (dbs s !! d) -> deleteExpiredKeyAndPropagate s d k = Some s' -> step LInternal s s'
| step_evict g s s' :
    gate_ok s g -> performEvictions (lazyfree_lazy_eviction g) s (evicted g) = Some s' -> step LInternal s s'
| step_globals s (g' : globals) : in_exec g' = in_exec (globs s) -> propagate_in_transaction g' = propagate_in_transaction (globs s) ->
    step LInternal s (set_globs s g').

(** The command of a request is one after which the client watches nothing. *)
Definition ends_request (args : list (list Z)) : Prop :=
  exists name m, head args = Some name /\ lookupCommand name = Some m /\ ends_watch (cproc m).

(** Label [l] ends the watch of client [a]. *)
Definition ends (a : nat) (l : label) : Prop :=
  match l with
  | LRequest i args => i = a /\ ends_request args
  | LDisconnect i => i = a
  | LConnect _ | LInternal => False
  end.

(** The invariant of the states between two requests *)
Definition server_ok s : Prop := tx_ok valid s /\ idle s.

Abbreviation serves := (serves valid True).

(** *** Requests *)

Lemma quiet_serves s s' i : tx_ok valid s -> is_Some (clients s !! i) -> quiet s s' -> serves i s s'.
Proof.
  intros Hs [c Hc] Hq. destruct (q_client _ _ Hq i c Hc) as (c' & Hc' & _). split_and!; [|intros a _ _; apply Hq | by rewrite Hc' |].
  - split; [apply Hq, Hs|]. intros j cj mc Hj. destruct (clients s !! j) as [c0|] eqn:H0; [|by rewrite (q_none _ _ Hq j H0) in Hj].
    destruct (q_client _ _ Hq j c0 H0) as (c1 & Hc1 & H1). simplify_eq. intros Hm. apply (tx_queue _ _ Hs j c0); [done|]. by destruct H1 as [-> | ->].
  - unfold idle. destruct (q_env _ _ Hq) as [_ _ _ _ _ [-> ->]]. done.
Qed.

Lemma evict_ok lazy keys : forall s, watch_ok s -> Forall (fun e => is_Some (dbs s !! e.1)) keys ->
  exists s', performEvictions lazy s keys = Some s' /\ quiet s s'.
Proof.
  induction keys as [|[d k] keys IH]; intros s Hs Hk; cbn [performEvictions]; [by exists s|]. apply Forall_cons in Hk as [Hd Hk]. simpl in Hd.
  cbv zeta. assert (quiet s (propagateExpire s (d, k))) as Hq1 by (by apply globs_quiet). set (s1 := propagateExpire s (d, k)) in *.
  pose proof (q_ok _ _ Hq1 Hs) as Hs1. destruct Hd as [db Hd]. assert (dbs s1 !! d = Some db) as Hd1 by done.
  rewrite (maybe_async_delete s1 d db k lazy Hd1). simpl_bind.
  destruct (signal_write s1 _ d k Hs1 (delete_data_only s1 d db k Hs1 Hd1)) as (s2 & He & Hq2 & _); [by eexists|]. unfold del_state. rewrite He. simpl_bind.
  destruct (IH s2 (q_ok _ _ Hq2 Hs1)) as (s' & -> & Hq').
  { eapply Forall_impl; [exact Hk|]. intros e He'. by apply (q_db _ _ Hq2), (q_db _ _ Hq1). }
  exists s'. split; [done|]. transitivity s1; [done|]. by transitivity s2.
Qed.

Lemma has_flag_dirty c f : has_flag c f = true -> has_flag (set_dirty c) f = true.
Proof. intros H. unfold set_dirty. by rewrite has_flag_lor, H. Qed.

(** A client that changes only in its flags, arguments and replies, and stays flagged. *)
Lemma touch_client_ok s i c c' : tx_ok valid s -> clients s !! i = Some c -> watched_keys c' = watched_keys c -> cdb c' = cdb c ->
  commands c' = commands c -> (has_flag c CLIENT_DIRTY_CAS = true -> has_flag c' CLIENT_DIRTY_CAS = true) ->
  serves i s (with_client s i c') /\ cas_keeps i s (with_client s i c').
Proof.
  intros Hs Hc H1 H2 H3 H4. split; [by apply (with_client_serves _ _ s i c)|]. eapply with_client_cas; [done|right]. by rewrite H1.
Qed.

Lemma flagTransaction_same c : watched_keys (flagTransaction c) = watched_keys c /\ cdb (flagTransaction c) = cdb c /\
  commands (flagTransaction c) = commands c /\ (has_flag c CLIENT_DIRTY_CAS = true -> has_flag (flagTransaction c) CLIENT_DIRTY_CAS = true).
Proof.
  unfold flagTransaction. destruct (has_flag c CLIENT_MULTI); [|done]. split_and!; try done. intros H. by rewrite has_flag_lor, H.
Qed.

(** A request that is refused: only EXEC ends the watch of its client. *)
Lemma refuse_ok s i c v : tx_ok valid s -> clients s !! i = Some c ->
  exists s', refuse s i v = Some s' /\ serves i s s' /\ (cproc (cmd c) <> execCommand_ -> cas_keeps i s s').
Proof.
  intros Hs Hc. assert (serves i s s) as Hrefl by (split_and!; try done; by rewrite Hc).
  destruct v as [|error|error|]; cbn [refuse]; [by exists s | by apply (reject_ok _ _ s i c) | |].
  - rewrite Hc. simpl_bind. case_bool_decide as He.
    + destruct (discardTransaction_ok _ s i c Hs Hc) as (s1 & -> & Hs1 & Hc1 & [Hd Hg] & Ho). simpl_bind.
      rewrite (upd_with_client s1 i _ _ Hc1). eexists. split; [done|]. split; [|done].
      apply (serves_trans _ _ i s s1); [by apply (serves_intro _ _ s s1 i (discarded c)) | by apply (with_client_serves _ _ s1 i (discarded c))].
    + rewrite (upd_with_client s i c _ Hc). simpl_bind. rewrite (upd_with_client _ i _ _ (with_client_eq _ _ _)). eexists. split; [done|].
      destruct (flagTransaction_same c) as (E1 & E2 & E3 & E4). destruct (touch_client_ok s i c (flagTransaction c) Hs Hc E1 E2 E3 E4) as [Hse Hcas].
      set (s1 := with_client s i (flagTransaction c)) in *. pose proof Hse as [Hs1 _].
      destruct (touch_client_ok s1 i (flagTransaction c) (addReply (flagTransaction c) (ReplyError error)) Hs1 (with_client_eq _ _ _)) as [Hse2 Hcas2]; try done.
      split; [by apply (serves_trans _ _ i s s1) | intros _; by transitivity s1].
  - rewrite (upd_with_client s i c _ Hc). eexists. split; [done|].
    destruct (touch_client_ok s i c (set_flags c (Z.lor (flags c) (Z.lor CLIENT_BLOCKED CLIENT_PENDING_COMMAND))) Hs Hc) as [Hse Hcas]; try done.
    intros H. by rewrite has_flag_lor, H.
Qed.

Lemma processChecked_ok g s i c : tx_ok valid s -> clients s !! i = Some c -> has_flag c CLIENT_BLOCKED = false -> gate_ok s g -> valid (argv c) (cmd c) ->
  exists s', processChecked g s i = Some s' /\ serves i s s' /\ (~ ends_watch (cproc (cmd c)) -> cas_keeps i s s').
Proof.
  intros Hs Hc Hb Hg Hv. unfold processChecked. rewrite Hc. simpl_bind. cbv zeta.
  assert (forall s1 c1 v, tx_ok valid s1 -> clients s1 !! i = Some c1 -> cmd c1 = cmd c ->
    exists s', refuse s1 i v = Some s' /\ serves i s1 s' /\ (~ ends_watch (cproc (cmd c)) -> cas_keeps i s1 s')) as Href.
  { intros s1 c1 v Hs1 Hc1 Hm. destruct (refuse_ok s1 i c1 v Hs1 Hc1) as (s' & -> & Hse & Hcas). exists s'. split_and!; try done.
    intros Hne. apply Hcas. rewrite Hm. intros He. by rewrite He in Hne. }
  destruct (negb (accepted (check_user g s i c))); [by apply (Href s c)|].
  assert (exists s1, (if maxmemory g then performEvictions (lazyfree_lazy_eviction g) s (evicted g) else Some s) = Some s1 /\ quiet s s1) as (s1 & -> & Hq).
  { destruct (maxmemory g); [apply evict_ok; [apply Hs | done] | by exists s]. }
  simpl_bind. destruct (q_client _ _ Hq i c Hc) as (c1 & Hc1 & H1). rewrite Hc1. simpl_bind.
  assert (argv c1 = argv c /\ cmd c1 = cmd c /\ has_flag c1 CLIENT_BLOCKED = false) as (E1 & E2 & E3).
  { destruct H1 as [-> | ->]; [done|]. split_and!; [done | done|]. rewrite <- Hb. by apply set_dirty_flag. }
  assert (serves i s s1) as Hse1 by (apply quiet_serves; [done | by rewrite Hc | done]). pose proof Hse1 as [Hs1 _].
  assert (forall m, (exists s', m = Some s' /\ serves i s1 s' /\ (~ ends_watch (cproc (cmd c)) -> cas_keeps i s1 s')) ->
    exists s', m = Some s' /\ serves i s s' /\ (~ ends_watch (cproc (cmd c)) -> cas_keeps i s s')) as Hvia.
  { intros m (s' & -> & Hse & Hcas). exists s'. split_and!; [done | by apply (serves_trans _ _ i s s1) | intros Hne; transitivity s1; [apply Hq | auto]]. }
  apply Hvia. destruct (negb (accepted (check_state g s1 c1))); [by apply (Href s1 c1)|].
  destruct (exec_or_queue_ok valid True (kv_call conf) ACLCheckAllPerm) with (s := s1) (i := i) (c := c1) as (s' & -> & Hse & Hcas); try done.
  - intros _. apply kv_signals.
  - by rewrite E1, E2.
  - exists s'. split_and!; try done. rewrite <- E2. auto.
Qed.

(** A result of a request *)
Definition done_ i (args : list (list Z)) s s' : Prop := serves i s s' /\ (~ ends_request args -> cas_keeps i s s').

Lemma done_trans i args s s1 s2 : done_ i args s s1 -> serves i s1 s2 -> cas_keeps i s1 s2 -> done_ i args s s2.
Proof. intros [A1 A2] B1 B2. split; [by apply (serves_trans _ _ i s s1) | intros H; transitivity s1; auto]. Qed.

Lemma processCommand_ok g s i c args : server_ok s -> clients s !! i = Some c -> has_flag c CLIENT_BLOCKED = false -> gate_ok s g -> args <> [] ->
  exists s' b, processCommand g s i args = Some (s', b) /\ done_ i args s s'.
Proof.
  intros [Hs [Hx Hp]] Hc Hb Hg Ha. unfold processCommand. rewrite Hx, Hp. cbn [orb]. destruct args as [|name args]; [done|]. cbn [head]. simpl_bind.
  destruct (strcaseeq (cstr name) (str "quit")).
  { rewrite (upd_with_client s i c _ Hc). simpl_bind. eexists _, _. split; [done|].
    destruct (touch_client_ok s i c (set_flags (addReply c ReplyOk) (Z.lor (flags c) CLIENT_CLOSE_AFTER_REPLY)) Hs Hc) as [Hse Hcas]; try done.
    intros H. by rewrite (has_flag_lor (addReply c ReplyOk)), (H : has_flag (addReply c ReplyOk) CLIENT_DIRTY_CAS = true). }
  destruct (lookupCommand name) as [m|] eqn:Hm.
  - rewrite (upd_with_client s i c _ Hc). simpl_bind. set (c1 := set_cmd c (name :: args) m). set (s1 := with_client s i c1).
    assert (clients s1 !! i = Some c1) as Hc1 by apply with_client_eq.
    destruct (touch_client_ok s i c c1 Hs Hc) as [Hse1 Hcas1]; try done. fold s1 in Hse1, Hcas1. pose proof Hse1 as [Hs1 _].
    assert (forall r, (exists s', r = Some s' /\ serves i s1 s' /\ (~ ends_watch (cproc m) -> cas_keeps i s1 s')) ->
      exists s' b, (s ← r; Some (s, true)) = Some (s', b) /\ done_ i (name :: args) s s') as Hend.
    { intros r (s' & -> & Hse & Hcas). exists s', true. split; [done|]. split; [by apply (serves_trans _ _ i s s1)|].
      intros Hne. transitivity s1; [done|]. apply Hcas. intros He. apply Hne. by exists name, m. }
    apply Hend. destruct (arity_ok (name :: args) m) eqn:Har; cbn [negb].
    + apply (processChecked_ok g s1 i c1); try done. split; [by exists name | done].
    + match goal with |- context [rejectCommand s1 i ?err] => destruct (reject_ok valid True s1 i c1 err Hs1 Hc1) as (s' & -> & Hse & Hcas) end.
      exists s'. split_and!; try done. intros Hne. apply Hcas. cbn. intros He. by rewrite He in Hne.
  - rewrite (upd_with_client s i c _ Hc). simpl_bind. eexists _, _. split; [done|]. destruct (flagTransaction_same c) as (E1 & E2 & E3 & E4).
    destruct (touch_client_ok s i c (addReply (flagTransaction c) (ReplyError (unknown_command (name :: args)))) Hs Hc) as [Hse Hcas]; try done.
Qed.

Definition reset_mask : Z := Z.lor (Z.lor CLIENT_ASKING CLIENT_TRACKING_CACHING) (Z.lor CLIENT_REPLY_SKIP CLIENT_REPLY_SKIP_NEXT).

Lemma resetClient_flag c f : Z.land reset_mask f = 0 -> has_flag (resetClient c) f = has_flag c f.
Proof.
  intros Hf. unfold has_flag. do 2 f_equal. apply Z.bits_inj'. intros n Hn. rewrite !Z.land_spec. destruct (Z.testbit f n) eqn:Hb; [|by rewrite !andb_false_r].
  rewrite !andb_true_r. apply (f_equal (fun x => Z.testbit x n)) in Hf. rewrite Z.land_spec, Hb, andb_true_r, Z.bits_0 in Hf.
  unfold reset_mask in Hf. rewrite !Z.lor_spec, !orb_false_iff in Hf. destruct Hf as [[H1 H2] [H3 H4]].
  unfold resetClient, reset_client_flags. destruct (has_flag c CLIENT_MULTI), (has_flag c CLIENT_REPLY_SKIP_NEXT); cbn;
    repeat rewrite ?Z.ldiff_spec, ?Z.lor_spec, ?H1, ?H2, ?H3, ?H4, ?andb_true_r, ?orb_false_r; done.
Qed.

Lemma set_current_ok s o i : server_ok s -> is_Some (clients s !! i) -> serves i s (set_current s o) /\ cas_keeps i s (set_current s o).
Proof.
  intros [Hs Hi] Hc. split; [|apply set_globs_cas]. split_and!; [by apply set_globs_ok | intros a _ _; apply set_globs_cas | done | done].
Qed.

Lemma commandProcessed_ok s i : tx_ok valid s -> is_Some (clients s !! i) -> exists s', commandProcessed s i = Some s' /\ serves i s s' /\ cas_keeps i s s'.
Proof.
  intros Hs [c Hc]. unfold commandProcessed. rewrite (upd_with_client s i c _ Hc). eexists. split; [done|].
  apply (touch_client_ok s i c); try done; destruct (has_flag c CLIENT_BLOCKED); try done. by rewrite resetClient_flag.
Qed.

Lemma request_ok g s i c args : server_ok s -> clients s !! i = Some c -> has_flag c CLIENT_BLOCKED = false -> gate_ok s g -> args <> [] ->
  exists s', request g s i args = Some s' /\ server_ok s' /\ done_ i args s s'.
Proof.
  intros Hs Hc Hb Hg Ha. unfold processCommandAndResetClient.
  destruct (set_current_ok s (Some i) i Hs) as [Hse1 Hcas1]; [by rewrite Hc|]. set (s1 := set_current s (Some i)) in *.
  assert (server_ok s1) as Hs1 by (split; [apply Hse1 | apply Hs]).
  destruct (processCommand_ok g s1 i c args Hs1 Hc Hb Hg Ha) as (s2 & b & -> & [Hse2 Hcas2]). simpl_bind.
  assert (done_ i args s s2) as Hd2 by (split; [by apply (serves_trans _ _ i s s1) | intros H; transitivity s1; auto]).
  pose proof Hse2 as (Hs2 & _ & Hi2 & Hid2).
  assert (exists s3, (if b then commandProcessed s2 i else Some s2) = Some s3 /\ serves i s2 s3 /\ cas_keeps i s2 s3) as (s3 & -> & Hse3 & Hcas3).
  { destruct b; [by apply commandProcessed_ok | exists s2; split_and!; try done]. }
  simpl_bind. pose proof (done_trans i args s s2 s3 Hd2 Hse3 Hcas3) as Hd3. pose proof Hd3 as [(Hs3 & _ & Hi3 & Hid3) _].
  assert (server_ok s3) as Hok3 by (split; [done | apply Hid3, Hs]).
  destruct (set_current_ok s3 (current_client (globs s)) i Hok3 Hi3) as [Hse4 Hcas4].
  eexists. split; [done|]. split; [split; [apply Hse4 | apply Hok3]|]. by apply (done_trans i args s s3).
Qed.

(** *** Transitions *)

Lemma tx_ok_intro s s' : tx_ok valid s -> watch_ok s' ->
  (forall i c', clients s' !! i = Some c' -> (exists c, clients s !! i = Some c /\ commands c' = commands c) \/ commands c' = []) -> tx_ok valid s'.
Proof.
  intros [_ Hq] Hs' Hc. split; [done|]. intros i c' mc Hi Hmc. destruct (Hc i c' Hi) as [(c & Hc0 & He)|He]; rewrite He in Hmc.
  - by apply (Hq i c).
  - by apply not_elem_of_nil in Hmc.
Qed.

Lemma disconnect_ok s i c s' : tx_ok valid s -> clients s !! i = Some c -> unwatchAllKeys s i = Some s' ->
  tx_ok valid (Server (delete i (clients s')) (dbs s') (globs s')) /\ globs s' = globs s /\
  forall a, a <> i -> cas_keeps a s (Server (delete i (clients s')) (dbs s') (globs s')).
Proof.
  intros Hs Hc He. destruct (unwatchAll_ok _ s i c Hs Hc) as (s1 & He' & Hs1 & Hc1 & [Hd Hg] & Ho). rewrite He in He'. simplify_eq.
  set (s2 := Server _ _ _). rename s1 into s'.
  assert (forall j, j <> i -> clients s2 !! j = clients s' !! j) as Hj by (intros j Hne; by apply lookup_delete_ne).
  assert (clients s2 !! i = None) as Hi by apply lookup_delete_eq.
  assert (forall j, watches s2 j = watches s' j) as Hw.
  { intros j. unfold watches. destruct (decide (j = i)) as [->|Hne]; [by rewrite Hi, Hc1|by rewrite Hj]. }
  pose proof (tx_watch _ _ Hs1) as Hok. split; [|split; [done|]].
  - apply (tx_ok_intro s'); [done| |].
    + apply (watch_ok_intro s'); [done | done | | | | |].
      * intros j cj. destruct (decide (j = i)) as [->|Hne]; [by rewrite Hi|rewrite Hj by done; eauto].
      * intros j d k. rewrite Hw. apply (wo_iff _ Hok).
      * apply (wo_watchers _ Hok).
      * intros j. rewrite Hw. apply (wo_watches _ Hok).
      * apply (wo_nonempty _ Hok).
    + intros j cj. destruct (decide (j = i)) as [->|Hne]; [by rewrite Hi|rewrite Hj by done; eauto].
  - intros a Ha. apply cas_keeps_other; [done|]. rewrite Hj by done. by apply Ho.
Qed.

Lemma connect_ok s i c : tx_ok valid s -> clients s !! i = None -> commands c = [] -> watched_keys c = [] -> is_Some (dbs s !! cdb c) ->
  tx_ok valid (with_client s i c) /\ forall a, cas_keeps a s (with_client s i c).
Proof.
  intros Hs Hi Hm Hw Hd. pose proof (tx_watch _ _ Hs) as Hok. split.
  - assert (forall j, watches (with_client s i c) j = watches s j) as Hww.
    { intros j. unfold with_client. rewrite watches_upd. case_decide as Hj; [|done]. rewrite Hw, Hj. unfold watches. by rewrite Hi. }
    apply (tx_ok_intro s); [done| |].
    + split; [intros j d k; rewrite Hww; apply (wo_iff _ Hok) | apply (wo_watchers _ Hok) | intros j; rewrite Hww; apply (wo_watches _ Hok) |
        apply (wo_nonempty _ Hok) | | apply (wo_expires _ Hok)].
      intros j cj. destruct (decide (j = i)) as [->|Hne]; [rewrite with_client_eq; by intros [= <-]|].
      rewrite with_client_ne by done. apply (wo_db _ Hok).
    + intros j cj. destruct (decide (j = i)) as [->|Hne]; [rewrite with_client_eq; intros [= <-]; by right|].
      rewrite with_client_ne by done. eauto.
  - intros a. apply cas_keeps_client; [done|]. intros ca Ha. exists ca. split; [|done]. rewrite with_client_ne; [done|congruence].
Qed.

Lemma quiet_server_ok s s' : server_ok s -> quiet s s' -> server_ok s'.
Proof.
  intros [Hs Hi] Hq. split; [|unfold idle in *; by destruct (q_env _ _ Hq) as [_ _ _ _ _ [-> ->]]].
  apply (tx_ok_intro s); [done | apply Hq, Hs|]. intros j cj Hj. left. destruct (clients s !! j) as [c0|] eqn:H0; [|by rewrite (q_none _ _ Hq j H0) in Hj].
  destruct (q_client _ _ Hq j c0 H0) as (c' & Hc' & H'). exists c0. split; [done|]. simplify_eq. by destruct H' as [-> | ->].
Qed.

(** Every transition keeps the invariant, and what WATCH promises to the clients whose watch it does not end. *)
Lemma step_ok l s s' : server_ok s -> step l s s' -> server_ok s' /\ forall a, ~ ends a l -> cas_keeps a s s'.
Proof.
  intros Hs Hstep. pose proof Hs as [Htx Hid].
  destruct Hstep as [g s i c args s' Hc Hb Hg Ha He|s i c Hc|s i c Hi Hm Hw Hd|s i s' [c Hc] He|s d k s' [db Hd] He|g s s' Hg He|s g' Hg1 Hg2].
  - destruct (request_ok g s i c args Hs Hc Hb Hg Ha) as (s1 & He1 & Hs1 & [(_ & Hcas & _) Hcasi]). simplify_eq. split; [done|].
    intros a Hna. simpl in Hna. destruct (decide (a = i)) as [->|Hne]; [apply Hcasi; naive_solver|by apply Hcas].
  - destruct (touch_client_ok s i c (set_flags c (Z.ldiff (flags c) CLIENT_BLOCKED)) Htx Hc) as [(H1 & H2 & _) H3]; try done.
    { intros H. by rewrite (has_flag_ldiff_out c CLIENT_BLOCKED CLIENT_DIRTY_CAS). }
    split; [by split|]. intros a _. destruct (decide (a = i)) as [->|Hne]; [done | by apply H2].
  - destruct (connect_ok s i c Htx Hi Hm Hw Hd) as [? Hcas]. split; [by split|]. intros a _. apply Hcas.
  - destruct (disconnect_ok s i c s' Htx Hc He) as (? & Hgl & Hcas). split; [split; [done | unfold idle; cbn; by rewrite Hgl]|].
    intros a Ha. apply Hcas. simpl in Ha. congruence.
  - destruct (deleteExpired_ok s d db k (tx_watch _ _ Htx) Hd) as (s1 & He1 & Hq & _). simplify_eq. split; [by apply (quiet_server_ok s) | intros a _; apply Hq].
  - destruct (evict_ok (lazyfree_lazy_eviction g) (evicted g) s (tx_watch _ _ Htx) Hg) as (s1 & He1 & Hq). simplify_eq.
    split; [by apply (quiet_server_ok s) | intros a _; apply Hq].
  - split; [|intros a _; apply set_globs_cas]. split; [by apply set_globs_ok|]. unfold idle. cbn. by rewrite Hg1, Hg2.
Qed.

(** Runs of the server *)
Definition run : relation (server value) := rtc (fun s s' => exists l, step l s s').

(** Runs of the server in which no transition ends the watch of client [a]. *)
Definition watched_run a : relation (server value) := rtc (fun s s' => exists l, step l s s' /\ ~ ends a l).

Lemma run_ok s s' : server_ok s -> run s s' -> server_ok s'.
Proof. intros Hs Hr. induction Hr as [|s s1 s2 [l Hl] _ IH]; [done|]. by apply IH, (step_ok l s s1 Hs). Qed.

Lemma watched_run_ok a s s' : server_ok s -> watched_run a s s' -> server_ok s' /\ cas_keeps a s s'.
Proof.
  intros Hs Hr. induction Hr as [s|s s1 s2 (l & Hl & Hne) _ IH]; [done|].
  destruct (step_ok l s s1 Hs Hl) as [Hs1 Hcas]. destruct (IH Hs1) as [Hs2 Hcas2]. split; [done|]. transitivity s1; auto.
Qed.

(** ** Transactions that fail *)

Abbreviation exec := (execCommand (call_queued (kv_call conf)) ACLCheckAllPerm).

(** From [s] to [s'] only client [a], which was [c], changed: its transaction and its watches are gone, and it got the reply [r]. *)
Definition exec_failed a c (r : reply) s s' : Prop :=
  tx_ok valid s' /\ same_data s s' /\ (forall j, j <> a -> clients s' !! j = clients s !! j) /\
  exists c', clients s' !! a = Some c' /\ replies c' = replies c ++ [r] /\ commands c' = [] /\ watched_keys c' = [] /\
    has_flag c' CLIENT_MULTI = false /\ has_flag c' CLIENT_DIRTY_CAS = false.

Lemma exec_failed_ok s a c : tx_ok valid s -> clients s !! a = Some c -> has_flag c CLIENT_MULTI = true -> must_abort s a c = true ->
  exists s', exec s a = Some s' /\ exec_failed a c (if has_flag c CLIENT_DIRTY_EXEC then execaborterr else ReplyNullArray) s s'.
Proof.
  intros Hs Hc Hm Hab. destruct (exec_abort_ok valid (kv_call conf) ACLCheckAllPerm s a c Hs Hc Hm Hab) as (s' & c' & -> & Hs' & Hsd & Ho & Hc' & Hcc).
  exists s'. split; [done|]. split; [done|]. split; [done|]. split; [done|]. exists c'. split; [done|].
  destruct Hcc as [-> | ->]; split_and!; try done; apply discarded_idle.
Qed.

Lemma discard_reply_failed s a c r : tx_ok valid s -> clients s !! a = Some c ->
  exists s', (s ← discardTransaction s a; upd s a (fun c => addReply c r)) = Some s' /\ exec_failed a c r s s'.
Proof.
  intros Hs Hc. destruct (discardTransaction_ok _ s a c Hs Hc) as (s1 & -> & Hs1 & Hc1 & [Hd Hg] & Ho). simpl_bind.
  rewrite (upd_with_client s1 a _ _ Hc1). eexists. split; [done|]. split; [by apply (with_client_ok' _ s1 a (discarded c))|]. split; [done|].
  split; [intros j Hj; rewrite with_client_ne by done; auto|]. eexists. split; [apply with_client_eq|]. split_and!; try done; apply discarded_idle.
Qed.

Lemma exec_failed_via s s1 a c c1 r s' : same_data s s1 -> (forall j, j <> a -> clients s1 !! j = clients s !! j) -> replies c1 = replies c ->
  exec_failed a c1 r s1 s' -> exec_failed a c r s s'.
Proof.
  intros [Hd Hg] Ho Hr (A1 & [A2 A3] & A4 & c' & A5 & A6 & A7). split; [done|]. split; [split; congruence|]. split; [intros j Hj; rewrite A4; auto|].
  exists c'. split; [done|]. by rewrite A6, Hr.
Qed.

(** EXEC that is rejected or redirected *)
Lemma refuse_exec s a c v : tx_ok valid s -> clients s !! a = Some c -> cproc (cmd c) = execCommand_ -> accepted v = false -> v <> Pause ->
  exists s' r, refuse s a v = Some s' /\ exec_failed a c (ReplyError r) s s'.
Proof.
  intros Hs Hc Hp Ha Hv. destruct v as [|error|error|]; try done; cbn [refuse].
  - unfold rejectCommand. rewrite (upd_with_client s a c _ Hc). simpl_bind. rewrite with_client_eq. simpl_bind.
    destruct (flagTransaction_same c) as (E1 & E2 & E3 & _).
    assert (cmd (flagTransaction c) = cmd c /\ replies (flagTransaction c) = replies c) as [E4 E5] by (unfold flagTransaction; by destruct (has_flag c CLIENT_MULTI)).
    rewrite E4, bool_decide_true by done. set (s1 := with_client s a (flagTransaction c)). unfold execCommandAbort. cbv zeta.
    assert (tx_ok valid s1) as Hs1 by (by apply (with_client_ok' _ s a c)). set (r := ReplyError _).
    destruct (discard_reply_failed s1 a (flagTransaction c) r Hs1 (with_client_eq _ _ _)) as (s' & -> & Hf). exists s'. eexists. split; [done|].
    by eapply (exec_failed_via s s1); [done | intros j Hj; by apply with_client_ne | exact E5 | exact Hf].
  - rewrite Hc. simpl_bind. rewrite bool_decide_true by done. destruct (discard_reply_failed s a c (ReplyError error) Hs Hc) as (s' & -> & Hf). by exists s', error.
Qed.

Lemma check_state_pause g s c : client_pause_type g = CLIENT_PAUSE_OFF -> check_state g s c <> Pause.
Proof. intros Hp. unfold check_state. rewrite Hp, andb_false_r. cbv zeta. by repeat case_match. Qed.

Lemma check_user_pause g s ci c : check_user g s ci c <> Pause.
Proof. unfold check_user. by repeat case_match. Qed.

(** EXEC of a client whose transaction must fail, after lookupCommand() *)
Lemma exec_refused g s a c : tx_ok valid s -> clients s !! a = Some c -> cproc (cmd c) = execCommand_ -> has_flag c CLIENT_MULTI = true ->
  must_abort s a c = true -> evicted g = [] -> client_pause_type g = CLIENT_PAUSE_OFF ->
  exists s' r, processChecked g s a = Some s' /\ exec_failed a c r s s' /\
    (r = (if has_flag c CLIENT_DIRTY_EXEC then execaborterr else ReplyNullArray) \/ exists e, r = ReplyError e).
Proof.
  intros Hs Hc Hp Hm Hab Hev Hpa. unfold processChecked. rewrite Hc. simpl_bind. cbv zeta.
  destruct (accepted (check_user g s a c)) eqn:Hu; cbn [negb].
  - assert ((if maxmemory g then performEvictions (lazyfree_lazy_eviction g) s (evicted g) else Some s) = Some s) as -> by (rewrite Hev; by destruct (maxmemory g)).
    simpl_bind. rewrite Hc. simpl_bind. destruct (accepted (check_state g s c)) eqn:Hst; cbn [negb].
    + unfold exec_or_queue. rewrite Hc. simpl_bind. rewrite Hp, bool_decide_true by done. cbn [negb]. rewrite !andb_false_r. cbn [andb].
      unfold call_proc. rewrite Hc. simpl_bind. rewrite Hp. destruct (exec_failed_ok s a c Hs Hc Hm Hab) as (s' & -> & Hf). eexists s', _. split_and!; [done | done | by left].
    + destruct (refuse_exec s a c (check_state g s c) Hs Hc Hp Hst) as (s' & r & -> & Hf); [by apply check_state_pause|].
      eexists s', _. split_and!; [done | done | right; by eexists].
  - destruct (refuse_exec s a c (check_user g s a c) Hs Hc Hp Hu) as (s' & r & -> & Hf); [apply check_user_pause|].
    eexists s', _. split_and!; [done | done | right; by eexists].
Qed.

Lemma set_current_back s s' o : globs s' = globs (set_current s o) -> set_current s' (current_client (globs s)) = Server (clients s') (dbs s') (globs s).
Proof. intros H. unfold set_current. rewrite H. cbn. by destruct (globs s). Qed.

Lemma exec_request g s a c : server_ok s -> clients s !! a = Some c -> has_flag c CLIENT_MULTI = true -> has_flag c CLIENT_DIRTY_CAS = true ->
  evicted g = [] -> client_pause_type g = CLIENT_PAUSE_OFF ->
  exists s' r, request g s a [str "EXEC"] = Some s' /\ exec_failed a c r s s' /\
    (r = (if has_flag c CLIENT_DIRTY_EXEC then execaborterr else ReplyNullArray) \/ exists e, r = ReplyError e).
Proof.
  intros [Hs [Hx Hp]] Hc Hm Hd Hev Hpa. unfold processCommandAndResetClient, processCommand. cbv zeta.
  set (s1 := set_current s (Some a)). change (in_exec (globs s1)) with (in_exec (globs s)). change (propagate_in_transaction (globs s1)) with (propagate_in_transaction (globs s)).
  rewrite Hx, Hp. cbn [orb head]. simpl_bind. replace (strcaseeq (cstr (str "EXEC")) (str "quit")) with false by reflexivity.
  destruct (lookupCommand (str "EXEC")) as [m|] eqn:Hl; [|discriminate Hl].
  assert (cproc m = execCommand_ /\ arity_ok [str "EXEC"] m = true) as [Hpm Har] by (vm_compute in Hl; injection Hl as <-; split; reflexivity).
  rewrite (upd_with_client s1 a c _ Hc), Har. simpl_bind. cbn [negb]. set (c2 := set_cmd c _ m). set (s2 := with_client s1 a c2).
  assert (tx_ok valid s2) as Hs2 by (apply (with_client_ok' _ s1 a c); try done; by apply set_globs_ok).
  destruct (exec_refused g s2 a c2 Hs2 (with_client_eq _ _ _) Hpm Hm) as (s3 & r & -> & (Hs3 & [Hd3 Hg3] & Ho3 & c3 & Hc3 & H3) & Hr); [|done|done|].
  { unfold must_abort. change (has_flag c2 CLIENT_DIRTY_CAS) with (has_flag c CLIENT_DIRTY_CAS). by rewrite Hd, orb_true_r. }
  simpl_bind. unfold commandProcessed. rewrite (upd_with_client s3 a c3 _ Hc3). simpl_bind. set (c4 := if has_flag c3 CLIENT_BLOCKED then c3 else resetClient c3).
  rewrite (set_current_back s (with_client s3 a c4) (Some a) Hg3). eexists _, r. split; [done|]. split; [|done].
  assert (commands c4 = commands c3 /\ watched_keys c4 = watched_keys c3 /\ cdb c4 = cdb c3 /\ replies c4 = replies c3 /\
    has_flag c4 CLIENT_MULTI = has_flag c3 CLIENT_MULTI /\ has_flag c4 CLIENT_DIRTY_CAS = has_flag c3 CLIENT_DIRTY_CAS) as (E1 & E2 & E3 & E4 & E5 & E6).
  { unfold c4. destruct (has_flag c3 CLIENT_BLOCKED); [done|]. by rewrite !resetClient_flag. }
  split; [apply (set_globs_ok valid (with_client s3 a c4) (globs s)), (with_client_ok' valid s3 a c3); done|]. split; [by split|].
  split; [intros j Hj; cbn; rewrite lookup_insert_ne, Ho3 by done; unfold s2; by rewrite with_client_ne|].
  exists c4. split; [apply (with_client_eq s3 a c4)|]. rewrite E1, E2, E4, E5, E6. apply H3.
Qed.


(** C1. Optimistic locking: when the value of a key that client [a] watches changes at any time between the
    WATCH and the EXEC, through whatever requests of whatever clients (the 35 commands of the file Commands, alone or in
    transactions, RESET), expirations or evictions, EXEC executes none of the queued commands: the databases stay as they are, the reply
    is the null array (an error when queueing failed or EXEC itself is rejected), and the transaction and all watches are gone. That
    these commands signal every key that they change is proved, not assumed; other commands are not covered. The first
    part is about EXEC itself, the second about the request EXEC as a whole, in a server that is not paused and when the memory limit does not
    evict keys just before EXEC runs. *)
Theorem exec_optimistic_lock s s1 a c d k : server_ok s -> (d, k) ∈ watches s a -> watched_run a s s1 ->
  clients s1 !! a = Some c -> has_flag c CLIENT_MULTI = true ->
  lookup_data s1 d k <> lookup_data s d k ->
  (exists s', exec s1 a = Some s' /\ exec_failed a c (if has_flag c CLIENT_DIRTY_EXEC then execaborterr else ReplyNullArray) s1 s') /\
  forall g, evicted g = [] -> client_pause_type g = CLIENT_PAUSE_OFF ->
    exists s' r, request g s1 a [str "EXEC"] = Some s' /\ exec_failed a c r s1 s' /\
      (r = (if has_flag c CLIENT_DIRTY_EXEC then execaborterr else ReplyNullArray) \/ exists e, r = ReplyError e).
Proof.
  intros Hs Hw Hr Hc Hm Hne. destruct (watched_run_ok a s s1 Hs Hr) as [Hs1 Hcas].
  destruct (ck_data _ _ _ Hcas d k Hw) as [(c0 & Hc0 & Hd)|]; [|done]. simplify_eq. split.
  - apply exec_failed_ok; [apply Hs1 | done | done|]. unfold must_abort. by rewrite Hd, orb_true_r.
  - intros g Hev Hpa. by apply exec_request.
Qed.

End requests.

(** ** Witnesses *)

Definition w_conf : server value -> kconf := fun _ => KConf false false 512000000 false.
Definition w_acl : server value -> nat -> Z := fun _ _ => 0.
Definition w_gate : gate := Gate false None false [] false false None false true true false CLIENT_PAUSE_OFF.

Definition w_start : server value :=
  Server {[0%nat := w_client []; 1%nat := w_client []]}
    [RedisDb {[str "a" := str "1"; str "c" := str "x"]} {[str "c" := 5000]} ∅; RedisDb ∅ ∅ ∅] w_globals.

Definition w_request (s : server value) (i : nat) (args : list (list Z)) : server value :=
  default s (processCommandAndResetClient w_conf w_acl w_gate s i args).

(** WATCH a; another client increments a; MULTI; DEL c. *)
Definition w_watch : server value := w_request w_start 0 [str "WATCH"; str "a"].
Definition w_incr : server value := w_request w_watch 1 [str "INCR"; str "a"].
Definition w_multi : server value := w_request w_incr 0 [str "MULTI"].
Definition w_queued : server value := w_request w_multi 0 [str "DEL"; str "c"].

(** MULTI; DEL c, with nothing watched. *)
Definition w_multi' : server value := w_request w_start 0 [str "MULTI"].
Definition w_queued' : server value := w_request w_multi' 0 [str "DEL"; str "c"].

Lemma w_start_ok : server_ok w_start.
Proof.
  split; [|by split]. split; [apply unwatched_ok; apply (bool_decide_unpack _); vm_compute; exact I|].
  assert (map_Forall (fun _ c => commands c = []) (clients w_start)) as H by (apply (bool_decide_unpack _); vm_compute; exact I).
  intros i c mc Hc Hm. rewrite (H i c Hc) in Hm. by apply not_elem_of_nil in Hm.
Qed.

Definition w_get (s : server value) (i : nat) : client := default (w_client []) (clients s !! i).

Ltac w_step s i args := apply (step_request w_conf w_acl w_gate s i (w_get s i) args); vm_compute; try done; by constructor.

Lemma w_watch_step : step w_conf w_acl (LRequest 0 [str "WATCH"; str "a"]) w_start w_watch.
Proof. w_step w_start 0%nat [str "WATCH"; str "a"]. Qed.

Lemma w_watch_ok : server_ok w_watch.
Proof. by apply (step_ok w_conf w_acl _ _ _ w_start_ok w_watch_step). Qed.

Ltac not_ends := first [intros [? _]; done | intros [_ (name & m & Hn & Hl & He)]; vm_compute in Hn; injection Hn as <-; vm_compute in Hl; injection Hl as <-; exact He].

Lemma w_run : watched_run w_conf w_acl 0 w_watch w_queued.
Proof.
  apply rtc_l with w_incr; [exists (LRequest 1 [str "INCR"; str "a"]); split; [w_step w_watch 1%nat [str "INCR"; str "a"] | not_ends]|].
  apply rtc_l with w_multi; [exists (LRequest 0 [str "MULTI"]); split; [w_step w_incr 0%nat [str "MULTI"] | not_ends]|].
  apply rtc_l with w_queued; [exists (LRequest 0 [str "DEL"; str "c"]); split; [w_step w_multi 0%nat [str "DEL"; str "c"] | not_ends]|].
  apply rtc_refl.
Qed.

Lemma w_queued'_run : run w_conf w_acl w_start w_queued'.
Proof.
  apply rtc_l with w_multi'; [exists (LRequest 0 [str "MULTI"]); w_step w_start 0%nat [str "MULTI"]|].
  apply rtc_l with w_queued'; [exists (LRequest 0 [str "DEL"; str "c"]); w_step w_multi' 0%nat [str "DEL"; str "c"]|apply rtc_refl].
Qed.


Lemma exec_optimistic_lock_witness : exists s', processCommandAndResetClient w_conf w_acl w_gate w_queued 0 [str "EXEC"] = Some s' /\ same_data w_queued s'.
Proof.
  destruct (exec_optimistic_lock w_conf w_acl w_watch w_queued 0 (w_get w_queued 0) 0 (str "a") w_watch_ok) as [_ H].
  - apply (bool_decide_unpack _). vm_compute. exact I.
  - exact w_run.
  - vm_compute. reflexivity.
  - vm_compute. reflexivity.
  - vm_compute. discriminate.
  - destruct (H w_gate eq_refl eq_refl) as (s' & r & H1 & H2 & _). exists s'. split; [exact H1 | apply H2].
Defined.

Lemma exec_correct_witness : exists s', execCommand (call_queued (kv_call w_conf)) w_acl w_queued' 0 = Some s' /\ tx_ok valid s'.
Proof.
  destruct (exec_correct valid (kv_call w_conf) w_acl w_queued' 0 (w_get w_queued' 0)
    (proj1 (run_ok w_conf w_acl w_start w_queued' w_start_ok w_queued'_run))) as (s' & c' & H1 & H2 & _); [vm_compute; reflexivity..|].
  exists s'. split; [exact H1|exact H2].
Defined.

(** An unknown command inside the transaction *)
Definition w_foo : redisCommand := RedisCommand (otherCommand_ (str "foo")) 0 1.
Definition w_rejected : server value :=
  default w_start (rejectCommand (with_client w_queued' 0 (set_cmd (w_get w_queued' 0) [str "FOO"] w_foo)) 0 (str "-ERR unknown command")).

Lemma w_rejected_ok : tx_ok valid w_rejected.
Proof.
  assert (tx_ok valid w_queued') as Hs by apply (run_ok w_conf w_acl _ _ w_start_ok w_queued'_run).
  destruct (with_client_serves valid True w_queued' 0 (w_get w_queued' 0) (set_cmd (w_get w_queued' 0) [str "FOO"] w_foo) Hs) as [Hs1 _]; [vm_compute; reflexivity..|].
  destruct (reject_ok valid True _ 0 _ (str "-ERR unknown command") Hs1 (with_client_eq _ _ _)) as (s' & He & [Hs' _] & _).
  unfold w_rejected. rewrite He. exact Hs'.
Qed.

Lemma rejected_aborts_witness : exists s', execCommand (call_queued (kv_call w_conf)) w_acl w_rejected 0 = Some s' /\ same_data w_rejected s'.
Proof.
  destruct (rejected_aborts valid (kv_call w_conf) w_acl w_queued' 0 (w_get w_queued' 0) [str "FOO"] w_foo (str "-ERR unknown command")
    (w_get w_rejected 0) w_rejected w_rejected (proj1 (run_ok w_conf w_acl _ _ w_start_ok w_queued'_run))) as (s' & c' & H1 & H2 & _).
  - vm_compute. reflexivity.
  - vm_compute. reflexivity.
  - discriminate.
  - vm_compute. reflexivity.
  - vm_compute. reflexivity.
  - exact w_rejected_ok.
  - exists (w_get w_rejected 0). split; vm_compute; reflexivity.
  - exists s'. split; [exact H1|exact H2].
Defined.

(** The commands at work: SET with options, an overflowing INCR, MOVE, an expire in the past. *)
Definition w_replies (reqs : list (list (list Z))) : list reply := replies (w_get (foldl (fun s r => w_request s 1 r) w_start reqs) 1).

Example commands_run :
  w_replies [[str "SET"; str "k"; str "9223372036854775807"; str "PX"; str "100"]; [str "incr"; str "k"]; [str "PTTL"; str "k"]; [str "MOVE"; str "k"; str "1"];
             [str "GET"; str "k"]; [str "EXPIREAT"; str "a"; str "-1"]; [str "EXISTS"; str "a"; str "c"; str "c"]; [str "SET"; str "c"]; [str "foo"; str "x"]] =
  [ReplyOk; ReplyError (str "increment or decrement would overflow"); ReplyLongLong 100; ReplyLongLong 1; ReplyNull; ReplyLongLong 1; ReplyLongLong 2;
   ReplyError (str "wrong number of arguments for 'set' command"); ReplyError (str "unknown command `foo`, with args beginning with: `x`, ")].
Proof. vm_compute. reflexivity. Qed.

(** The test for an overflow of EXPIRE looks at the sign only: 18446744073709552 seconds wrap around to 384 milliseconds. *)
Example expire_overflow_undetected :
  w_replies [[str "EXPIRE"; str "a"; str "18446744073709552"]; [str "PTTL"; str "a"]] = [ReplyLongLong 1; ReplyLongLong 384].
Proof. vm_compute. reflexivity. Qed.
