(* ===== verification/SdsNum.v ===== *)
(** * SdsNum: integers to strings in sds.c

    sdsll2str() and sdsull2str() generate the digits from the last one and then reverse the string in
    place, where ll2string() of util.c computes the length first: the two give the same text. *)
From S2P Require Import Prelude.
From S2P Require Import Util.

Definition SDS_LLSTR_SIZE : Z := 21.

(** [do { *p++ = '0'+(v%10); v /= 10; } while(v)] *)
Fixpoint sds_digits (fuel : nat) (s : list Z) (p v : Z) : option (list Z * Z) :=
  match fuel with
  | O => None
  | S fuel =>
      s ← store8 s p (chr "0" + v mod 10);
      let v := v / 10 in
      if negb (v =? 0) then sds_digits fuel s (p + 1) v else Some (s, p + 1)
  end.

(** [while(s < p) { swap *s and *p; s++; p--; }] *)
Fixpoint sds_reverse (fuel : nat) (s : list Z) (i p : Z) : option (list Z) :=
  match fuel with
  | O => None
  | S fuel =>
      if i <? p then
        aux ← load8 s i;
        c ← load8 s p;
        s ← store8 s i c;
        s ← store8 s p aux;
        sds_reverse fuel s (i + 1) (p - 1)
      else Some s
  end.

(** A 64 bit integer has at most 20 digits. *)
Definition sdsull2str (s : list Z) (v : Z) : option (list Z * Z) :=
  '(s, p) ← sds_digits 20 s 0 v;
  let l := p in
  s ← store8 s p 0;
  s ← sds_reverse 12 s 0 (p - 1);
  Some (s, l).

(** [-value] overflows for [LLONG_MIN]. *)
Definition sdsll2str (s : list Z) (value : Z) : option (list Z * Z) :=
  if value =? LLONG_MIN then None
  else
    let v := if value <? 0 then - value else value in
    '(s, p) ← sds_digits 20 s 0 v;
    '(s, p) ← (if value <? 0 then s ← store8 s p (chr "-"); Some (s, p + 1) else Some (s, p));
    let l := p in
    s ← store8 s p 0;
    s ← sds_reverse 12 s 0 (p - 1);
    Some (s, l).

(** The string object's contents; [buf] is a local array with arbitrary contents. *)
Definition sdsfromlonglong `{Allocator} (value : Z) : option (list Z) :=
  '(buf, len) ← sdsll2str (junk_bytes 0 21) value;
  mem_load buf 0 len.

(** ** The two loops *)

Lemma ndigits_div10 v d : ndigits v d -> 10 <= v -> ndigits (v / 10) (d - 1).
Proof.
  intros (H1 & H2 & H3) Hv. destruct H3 as [H3|]; [|lia].
  assert (2 <= d) as Hd. { apply Z.le_ngt. intros Hlt. assert (10 ^ d <= 10 ^ 1) by (apply Z.pow_le_mono_r; lia). lia. }
  assert (10 ^ d = 10 * 10 ^ (d - 1)) as Hp. { replace d with (1 + (d - 1)) at 1 by lia. rewrite Z.pow_add_r by lia. done. }
  assert (10 ^ (d - 1) = 10 * 10 ^ (d - 1 - 1)) as Hp'. { replace (d - 1) with (1 + (d - 1 - 1)) at 1 by lia. rewrite Z.pow_add_r by lia. done. }
  unfold ndigits. Z.div_mod_to_equations. lia.
Qed.

Lemma sds_digits_ok fuel : forall a b v d, 0 <= v -> ndigits v d -> d <= Z.of_nat fuel -> d <= zlen b ->
  exists ds b', sds_digits fuel (a ++ b) (zlen a) v = Some (a ++ ds ++ b', zlen a + d) /\ zlen ds = d /\ b' = drop (Z.to_nat d) b /\
    Forall is_digit (reverse ds) /\ digits_value (reverse ds) = v.
Proof.
  induction fuel as [|fuel IH]; intros a b v d Hv Hd Hf Hb; [destruct Hd; lia|].
  assert (1 <= d) as Hd1 by apply Hd. destruct b as [|x b]; [change (zlen []) with 0 in Hb; lia|]. cbn [sds_digits].
  rewrite store8_mid by done. simpl_bind. cbv zeta. rewrite zlen_cons in Hb.
  pose proof (Z.mod_pos_bound v 10 ltac:(lia)) as Hm. change (chr "0") with 48.
  rewrite uwrap_small by (change (2 ^ 8) with 256; lia). set (c := 48 + v mod 10).
  assert (is_digit c) as Hc by (apply is_digit_spec; lia).
  destruct (Z.eqb_spec (v / 10) 0) as [H0|H0]; cbn [negb].
  - assert (d = 1) as -> by (apply (ndigits_unique v); [done|]; unfold ndigits; Z.div_mod_to_equations; lia).
    exists [c], b. cbn [app]. split_and!; [done | done | done | by apply Forall_singleton|].
    cbn. change (chr "0") with 48. unfold c. Z.div_mod_to_equations. lia.
  - destruct (IH (a ++ [c]) b (v / 10) (d - 1)) as (ds & b' & He & Hz & -> & Hdig & Hval);
      [Z.div_mod_to_equations; lia | apply ndigits_div10; [done | Z.div_mod_to_equations; lia] | lia..|].
    replace (zlen (a ++ [c])) with (zlen a + 1) in He by (by rewrite zlen_snoc). rewrite <- !app_assoc in He. cbn [app] in He.
    exists (c :: ds), (drop (Z.to_nat (d - 1)) b). rewrite He. rewrite reverse_cons, digits_value_snoc, Hval, zlen_cons. cbn [app].
    split_and!; [f_equal; f_equal; lia | lia | by replace (Z.to_nat d) with (S (Z.to_nat (d - 1))) by lia | apply Forall_app; split; [done | by apply Forall_singleton]|].
    unfold c. Z.div_mod_to_equations. lia.
Qed.

Lemma sds_reverse_ok fuel : forall a m b, bytes_ok m -> (length m < 2 * fuel)%nat ->
  sds_reverse fuel (a ++ m ++ b) (zlen a) (zlen a + zlen m - 1) = Some (a ++ reverse m ++ b).
Proof.
  induction fuel as [|fuel IH]; intros a m b Hm Hf; [lia|]. cbn [sds_reverse].
  destruct m as [|x m]; [rewrite (proj2 (Z.ltb_ge _ _)) by (change (zlen []) with 0; lia); done|].
  destruct m as [|y m _] using rev_ind; [rewrite (proj2 (Z.ltb_ge _ _)) by (change (zlen [x]) with 1; lia); done|].
  apply Forall_cons in Hm as [Hx [Hm [Hy _]%Forall_cons]%Forall_app].
  assert (forall u v, a ++ (u :: m ++ [v]) ++ b = (a ++ u :: m) ++ v :: b) as Hsplit by (intros; by rewrite <- !app_assoc, <- app_comm_cons, <- app_assoc).
  assert (zlen a + zlen (x :: m ++ [y]) - 1 = zlen (a ++ x :: m)) as -> by (rewrite zlen_app, !zlen_cons, zlen_app; change (zlen [y]) with 1; lia).
  rewrite (proj2 (Z.ltb_lt _ _)) by (rewrite zlen_app, zlen_cons; pose proof (zlen_nonneg m); lia).
  assert (load8 (a ++ (x :: m ++ [y]) ++ b) (zlen a) = Some x) as -> by by apply load8_mid. simpl_bind.
  rewrite Hsplit, load8_mid by done. simpl_bind. rewrite <- Hsplit. cbn [app]. rewrite store8_mid by done. simpl_bind.
  rewrite app_comm_cons, (Hsplit (u8 y) y), (store8_mid (a ++ u8 y :: m)) by (rewrite !zlen_app, !zlen_cons; lia). simpl_bind.
  unfold is_byte in *. rewrite !uwrap_small by (change (2 ^ 8) with 256; lia).
  specialize (IH (a ++ [y]) m (x :: b) Hm). rewrite zlen_snoc in IH. rewrite <- !app_assoc in IH. cbn [app] in IH.
  rewrite <- app_assoc. cbn [app]. replace (zlen (a ++ x :: m) - 1) with (zlen a + 1 + zlen m - 1) by (rewrite zlen_app, zlen_cons; lia).
  rewrite IH by (cbn [length] in Hf; rewrite length_app in Hf; cbn [length] in Hf; lia).
  rewrite reverse_cons, reverse_snoc. cbn [app]. by rewrite <- !app_assoc.
Qed.

Lemma digits_bytes s : Forall is_digit s -> bytes_ok s.
Proof. intros Hs. eapply Forall_impl; [exact Hs|]. intros c Hc%is_digit_spec. unfold is_byte. lia. Qed.

(** After the digits and the sign: terminate and reverse. *)
Lemma sds_finish_ok m b : bytes_ok m -> zlen m <= 20 -> b <> [] ->
  (s ← store8 (m ++ b) (zlen m) 0; s ← sds_reverse 12 s 0 (zlen m - 1); Some (s, zlen m)) = Some (reverse m ++ 0 :: tail b, zlen m).
Proof.
  intros Hm Hz Hb. destruct b as [|x b]; [done|]. rewrite store8_mid by done. simpl_bind.
  pose proof (sds_reverse_ok 12 [] m (u8 0 :: b) Hm) as Hr. change (zlen []) with 0 in Hr. cbn [app] in Hr.
  replace (0 + zlen m - 1) with (zlen m - 1) in Hr by lia. rewrite Hr by (unfold zlen in Hz; lia). done.
Qed.

Lemma tail_drop {A} (l : list A) : tail l = drop 1 l.
Proof. by destruct l. Qed.

Lemma sdsll2str_ok s value : is_ll value -> value <> LLONG_MIN -> SDS_LLSTR_SIZE <= zlen s ->
  exists t, canonical t value /\ zlen t = sdigits10 value /\ sdsll2str s value = Some (t ++ 0 :: drop (S (length t)) s, zlen t).
Proof.
  intros Hv Hmin Hs. unfold SDS_LLSTR_SIZE in Hs. unfold sdsll2str. rewrite (proj2 (Z.eqb_neq _ _)) by done. cbv zeta.
  set (v := if value <? 0 then - value else value). assert (v = Z.abs value) as Hav by (unfold v; destruct (Z.ltb_spec value 0); lia).
  assert (ndigits v (digits10 v)) as Hnd by (apply digits10_spec; unfold_limits; lia). set (d := digits10 v) in *.
  pose proof (sdigits10_le value Hv) as Hle. destruct (ll_abs_spec value Hv) as [Habs _]. unfold sdigits10 in *. rewrite Habs, <- Hav in *.
  fold d in Hle |- *. assert (d <= 20 /\ (value < 0 -> d <= 19)) as [Hd20 Hd19].
  { destruct (Z.ltb_spec value 0); [lia|]. replace value with v in Hle by lia. fold d in Hle. lia. }
  destruct (sds_digits_ok 20 [] s v d) as (ds & b & He & Hz & -> & Hdig & Hval); [lia | done | lia | lia|].
  change (zlen []) with 0 in He. cbn [app] in He. rewrite He. simpl_bind. clear He. rewrite Z.add_0_l, <- Hz.
  assert (bytes_ok ds) as Hbytes by (apply digits_bytes in Hdig; by rewrite Forall_reverse in Hdig).
  pose proof (canonical_of_digits value (reverse ds) Hdig) as Hcan. rewrite Hval, Hav in Hcan.
  assert (zlen (reverse ds) = d) as Hzr by (unfold zlen in *; by rewrite length_reverse). rewrite Hzr, <- Hav in Hcan. specialize (Hcan eq_refl Hnd).
  assert (Z.to_nat (zlen ds) = length ds) as Hnat by (unfold zlen; lia). rewrite Hnat.
  eexists. split; [exact Hcan|]. destruct (Z.ltb_spec value 0) as [Hneg|Hpos].
  - destruct (drop (length ds) s) as [|x rest] eqn:Hdr; [apply (f_equal length) in Hdr; rewrite length_drop in Hdr; unfold zlen in *; cbn in Hdr; lia|].
    rewrite store8_mid by done. simpl_bind. change (u8 (chr "-")) with (chr "-").
    pose proof (sds_finish_ok (ds ++ [chr "-"]) rest) as Hfin. rewrite <- app_assoc in Hfin. cbn [app] in Hfin.
    replace (zlen (ds ++ [chr "-"])) with (zlen ds + 1) in Hfin by (by rewrite zlen_snoc). rewrite Hfin.
    + rewrite reverse_snoc. cbn [app length]. rewrite length_reverse, zlen_cons, Hzr. split; [lia|]. f_equal. f_equal; [|lia].
      rewrite tail_drop. do 3 f_equal. replace (S (S (length ds))) with (length ds + 2)%nat by lia. rewrite <- drop_drop, Hdr. done.
    + apply Forall_app. split; [done|]. by apply Forall_singleton.
    + lia.
    + intros ->. apply (f_equal length) in Hdr. rewrite length_drop in Hdr. unfold zlen in *. cbn in Hdr. lia.
  - simpl_bind. rewrite sds_finish_ok; [|done | lia|].
    + rewrite Hzr, length_reverse, Hz. split; [replace value with v by lia; done|]. do 4 f_equal.
      rewrite tail_drop, drop_drop. f_equal. lia.
    + intros Hdr. apply (f_equal length) in Hdr. rewrite length_drop in Hdr. unfold zlen in *. cbn in Hdr. lia.
Qed.

(** sdsll2str() and ll2string(), two different algorithms, write the same bytes and return the same
    length for every long long but [LLONG_MIN], for which the first has undefined behaviour and the second has not. *)
Theorem sdsll2str_ll2string s value : is_ll value -> SDS_LLSTR_SIZE <= zlen s ->
  if value =? LLONG_MIN then sdsll2str s value = None /\ is_Some (ll2string s (zlen s) value)
  else sdsll2str s value = ll2string s (zlen s) value.
Proof.
  intros Hv Hs. unfold SDS_LLSTR_SIZE in Hs. pose proof (sdigits10_le value Hv) as Hle.
  destruct (ll2string_fits s (zlen s) value) as (t & Ht & Hz & He); [done | lia | lia|].
  destruct (Z.eqb_spec value LLONG_MIN) as [->|Hne]; [split; [done|]; by rewrite He|].
  destruct (sdsll2str_ok s value) as (t' & Ht' & _ & He'); [done..|].
  rewrite He, He'. by rewrite (canonical_inj t' t value Ht' Ht).
Qed.

Lemma sdsfromlonglong_ok `{Allocator} value : is_ll value -> value <> LLONG_MIN ->
  exists t, canonical t value /\ sdsfromlonglong value = Some t.
Proof.
  intros Hv Hne. unfold sdsfromlonglong. destruct (sdsll2str_ok (junk_bytes 0 21) value) as (t & Ht & _ & ->);
    [done.. | unfold zlen; by rewrite length_junk_bytes|].
  exists t. split; [done|]. simpl_bind. by rewrite mem_load_head.
Qed.

(** Strings that sdsfromlonglong() can make again from an integer: -2^63 overflows there. *)
Definition int_safe (s : list Z) : Prop := s <> ll2string_out LLONG_MIN.

Lemma sds_of_ll `{Allocator} v : is_ll v -> int_safe (ll2string_out v) -> sdsfromlonglong v = Some (ll2string_out v).
Proof.
  intros Hll Hs. destruct (sdsfromlonglong_ok v Hll) as (t & Ht & ->); [by intros ->|].
  f_equal. by apply canonical_inj with v; [|apply ll2string_out_canonical].
Qed.

(** ** Witness *)

Lemma sdsll2str_ll2string_witness : sdsll2str (repeat 7 24) (-10203) = ll2string (repeat 7 24) 24 (-10203) /\
  sdsll2str (repeat 7 24) (-10203) = Some (str "-10203" ++ 0 :: repeat 7 17, 6).
Proof.
  split.
  - refine (sdsll2str_ll2string (repeat 7 24) (-10203) _ _); [unfold_limits; split; discriminate | discriminate].
  - vm_compute. reflexivity.
Defined.
