(* ===== verification/Lzf.v ===== *)
(** * LZF compression (src/redis-stable/src/lzf_c.c, lzf_d.c, lzfP.h)

    The compressor of RDB strings and quicklist nodes, as it is configured by lzfP.h: HLOG 16,
    VERY_FAST, CHECK_INPUT, 32 bit offsets in a hash table that is not initialized (INIT_HTAB 0:
    its first contents are a parameter). Buffers are blocks of memory, positions are offsets in
    them; an access outside of a block is [None]. *)
From S2P Require Import Prelude.

(** ** Decompression *)

(** do *op++ = *ref++; while (--len); *)
Fixpoint copy_fwd (n : nat) (out : list Z) (op ref : Z) : option (list Z) :=
  match n with
  | O => Some out
  | S n => b ← load8 out ref; out ← store8 out op b; copy_fwd n out (op + 1) (ref + 1)
  end.

(** The rest of a long length; [None] inside is EINVAL. *)
Definition long_len (inp : list Z) (ip len : Z) : option (option (Z * Z)) :=
  if len =? 7 then
    b ← load8 inp ip;
    if zlen inp <=? ip + 1 then Some None else Some (Some (len + b, ip + 1))
  else Some (Some (len, ip)).

(** The result is the return value and the output; 0 is an error. *)
Fixpoint decompress_loop (fuel : nat) (inp : list Z) (ip : Z) (out : list Z) (op : Z) : option (Z * list Z) :=
  match fuel with
  | O => None
  | S fuel =>
      if negb (ip <? zlen inp) then Some (op, out)
      else
        ctrl ← load8 inp ip;
        let ip := ip + 1 in
        if ctrl <? 32 then
          let ctrl := ctrl + 1 in
          if zlen out <? op + ctrl then Some (0, out)
          else if zlen inp <? ip + ctrl then Some (0, out)
          else
            bs ← mem_load inp ip ctrl;
            out ← mem_store out op bs;
            decompress_loop fuel inp (ip + ctrl) out (op + ctrl)
        else
          let len := Z.shiftr ctrl 5 in
          let ref := op - Z.shiftl (Z.land ctrl 31) 8 - 1 in
          if zlen inp <=? ip then Some (0, out)
          else
            r ← long_len inp ip len;
            match r with
            | None => Some (0, out)
            | Some (len, ip) =>
                b ← load8 inp ip;
                let ref := ref - b in
                let ip := ip + 1 in
                if zlen out <? op + len + 2 then Some (0, out)
                else if ref <? 0 then Some (0, out)
                else
                  out ← (if (9 <? len) && (ref + (len + 2) <=? op) then memmove out op ref (len + 2)
                         else copy_fwd (Z.to_nat (len + 2)) out op ref);
                  decompress_loop fuel inp ip out (op + len + 2)
            end
  end.

Definition lzf_decompress (inp out : list Z) : option (Z * list Z) := decompress_loop (S (length inp)) inp 0 out 0.

(** ** Compression *)

Definition MAX_LIT : Z := 32.
Definition MAX_OFF : Z := 8192.
Definition MAX_REF : Z := 264.

Definition FRST (inp : list Z) (p : Z) : option Z :=
  a ← load8 inp p; b ← load8 inp (p + 1); Some (Z.lor (Z.shiftl a 8) b).
Definition NEXT (v : Z) (inp : list Z) (p : Z) : option Z :=
  c ← load8 inp (p + 2); Some (u32 (Z.lor (Z.shiftl v 8) c)).
Definition IDX (h : Z) : Z := Z.land (u32 (Z.shiftr h 8 - u32 (h * 5))) 65535.

Record lzf := Lzf { c_ip : Z; c_op : Z; c_lit : Z; c_out : list Z; c_htab : gmap Z Z; c_hval : Z }.

(** The conditions of a match at [ref], in their order. *)
Definition is_match (inp : list Z) (ip ref : Z) : option bool :=
  if negb (u64 (ip - ref - 1) <? MAX_OFF) then Some false
  else if negb (0 <? ref) then Some false
  else
    r2 ← load8 inp (ref + 2);
    i2 ← load8 inp (ip + 2);
    if negb (r2 =? i2) then Some false
    else
      r0 ← load8 inp ref; r1 ← load8 inp (ref + 1);
      i0 ← load8 inp ip; i1 ← load8 inp (ip + 1);
      Some ((r0 =? i0) && (r1 =? i1)).

(** The unrolled comparisons: [n] times len++; if (ref [len] != ip [len]) break; *)
Fixpoint compare_unrolled (n : nat) (inp : list Z) (ref ip len : Z) : option (Z * bool) :=
  match n with
  | O => Some (len, false)
  | S n =>
      let len := len + 1 in
      a ← load8 inp (ref + len);
      b ← load8 inp (ip + len);
      if negb (a =? b) then Some (len, true) else compare_unrolled n inp ref ip len
  end.

(** do len++; while (len < maxlen && ref[len] == ip[len]); *)
Fixpoint compare_loop (fuel : nat) (inp : list Z) (ref ip len maxlen : Z) : option Z :=
  match fuel with
  | O => None
  | S fuel =>
      let len := len + 1 in
      if len <? maxlen then
        a ← load8 inp (ref + len);
        b ← load8 inp (ip + len);
        if a =? b then compare_loop fuel inp ref ip len maxlen else Some len
      else Some len
  end.

Definition match_len (inp : list Z) (ref ip : Z) : option Z :=
  let maxlen := zlen inp - ip - 2 in
  let maxlen := if MAX_REF <? maxlen then MAX_REF else maxlen in
  '(len, stop) ← (if 16 <? maxlen then compare_unrolled 16 inp ref ip 2 else Some (2, false));
  if (stop : bool) then Some len else compare_loop (S (Z.to_nat MAX_REF)) inp ref ip len maxlen.

(** The two or three bytes of a back reference; the result is the output and the position after it. *)
Definition write_ref (out : list Z) (op off len : Z) : option (list Z * Z) :=
  '(out, op) ← (if len <? 7 then
                  out ← store8 out op (Z.shiftr off 8 + Z.shiftl len 5); Some (out, op + 1)
                else
                  out ← store8 out op (Z.shiftr off 8 + Z.shiftl 7 5);
                  out ← store8 out (op + 1) (len - 7); Some (out, op + 2));
  out ← store8 out op off;
  Some (out, op + 1).

(** VERY_FAST: the two positions before the end of a match are entered in the hash table. *)
Definition rehash_end (inp : list Z) (ip : Z) (htab : gmap Z Z) : option (Z * gmap Z Z) :=
  let ip := ip - 2 in
  hval ← FRST inp ip;
  hval ← NEXT hval inp ip;
  let htab := <[IDX hval := u32 ip]> htab in
  let ip := ip + 1 in
  hval ← NEXT hval inp ip;
  Some (hval, <[IDX hval := u32 ip]> htab).

Section compress.
Context (garbage : Z -> Z).   (** the first contents of the hash table *)

(** One turn of the main loop. [None] inside: return 0; the boolean: break. *)
Definition compress_step (inp : list Z) (st : lzf) : option (option (lzf * bool)) :=
  let '(Lzf ip op lit out htab hval) := st in
  hval ← NEXT hval inp ip;
  let ref := default (u32 (garbage (IDX hval))) (htab !! IDX hval) in
  let htab := <[IDX hval := u32 ip]> htab in
  m ← is_match inp ip ref;
  if (m : bool) then
    let off := ip - ref - 1 in
    let undo := if lit =? 0 then 1 else 0 in
    if (zlen out <=? op + 3 + 1) && (zlen out <=? op - undo + 3 + 1) then Some None
    else
      out ← store8 out (op - lit - 1) (lit - 1);
      let op := op - undo in
      len ← match_len inp ref ip;
      let len := len - 2 in
      let ip := ip + 1 in
      '(out, op) ← write_ref out op off len;
      let op := op + 1 in
      let ip := ip + len + 1 in
      if zlen inp - 2 <=? ip then Some (Some (Lzf ip op 0 out htab hval, true))
      else
        '(hval, htab) ← rehash_end inp ip htab;
        Some (Some (Lzf ip op 0 out htab hval, false))
  else
    if zlen out <=? op then Some None
    else
      b ← load8 inp ip;
      out ← store8 out op b;
      let lit := lit + 1 in
      let op := op + 1 in
      let ip := ip + 1 in
      if lit =? MAX_LIT then
        out ← store8 out (op - lit - 1) (lit - 1);
        Some (Some (Lzf ip (op + 1) 0 out htab hval, false))
      else Some (Some (Lzf ip op lit out htab hval, false)).

Fixpoint compress_loop (fuel : nat) (inp : list Z) (st : lzf) : option (option lzf) :=
  match fuel with
  | O => None
  | S fuel =>
      if negb (c_ip st <? zlen inp - 2) then Some (Some st)
      else
        r ← compress_step inp st;
        match r with
        | None => Some None
        | Some (st, true) => Some (Some st)
        | Some (st, false) => compress_loop fuel inp st
        end
  end.

(** while (ip < in_end), for the last bytes *)
Fixpoint tail_loop (fuel : nat) (inp : list Z) (ip op lit : Z) (out : list Z) : option (Z * Z * list Z) :=
  match fuel with
  | O => None
  | S fuel =>
      if negb (ip <? zlen inp) then Some (op, lit, out)
      else
        b ← load8 inp ip;
        out ← store8 out op b;
        let lit := lit + 1 in
        let op := op + 1 in
        let ip := ip + 1 in
        if lit =? MAX_LIT then
          out ← store8 out (op - lit - 1) (lit - 1);
          tail_loop fuel inp ip (op + 1) 0 out
        else tail_loop fuel inp ip op lit out
  end.

(** The result is the return value and the output, which has no meaning (and is [[]] here) when it is 0. *)
Definition lzf_compress (inp out : list Z) : option (Z * list Z) :=
  if (zlen inp =? 0) || (zlen out =? 0) then Some (0, [])
  else
    hval ← FRST inp 0;
    r ← compress_loop (S (length inp)) inp (Lzf 0 1 0 out ∅ hval);
    match r with
    | None => Some (0, [])
    | Some (Lzf ip op lit out _ _) =>
        if zlen out <? op + 3 then Some (0, [])
        else
          '(op, lit, out) ← tail_loop (S (length inp)) inp ip op lit out;
          out ← store8 out (op - lit - 1) (lit - 1);
          let op := op - (if lit =? 0 then 1 else 0) in
          Some (op, out)
    end.

End compress.

(** ** The format *)

(** Literal bytes, or the repetition of [len] bytes that start [off + 1] bytes before the end. *)
Inductive token := TLit (bs : list Z) | TRef (off len : Z).

Definition enc_token (t : token) : list Z :=
  match t with
  | TLit bs => (zlen bs - 1) :: bs
  | TRef off len =>
      if len - 2 <? 7 then [off / 256 + (len - 2) * 32; off mod 256]
      else [off / 256 + 224; len - 9; off mod 256]
  end.

Definition enc (ts : list token) : list Z := concat (map enc_token ts).

(** [n] bytes are copied from the distance [off + 1], each of them perhaps one that was just copied. *)
Fixpoint grow (n : nat) (acc : list Z) (off : nat) : list Z :=
  match n with
  | O => acc
  | S n => match acc !! (length acc - off - 1)%nat with Some b => grow n (acc ++ [b]) off | None => acc end
  end.

Definition expand_token (acc : list Z) (t : token) : list Z :=
  match t with TLit bs => acc ++ bs | TRef off len => grow (Z.to_nat len) acc (Z.to_nat off) end.

Definition expand (acc : list Z) (ts : list token) : list Z := foldl expand_token acc ts.

Definition token_ok (acc : list Z) (t : token) : Prop :=
  match t with
  | TLit bs => 1 <= zlen bs <= 32 /\ bytes_ok bs
  | TRef off len => 0 <= off < MAX_OFF /\ off < zlen acc /\ 3 <= len <= MAX_REF
  end.

Fixpoint tokens_ok (acc : list Z) (ts : list token) : Prop :=
  match ts with [] => True | t :: ts => token_ok acc t /\ tokens_ok (expand_token acc t) ts end.

Lemma enc_app a b : enc (a ++ b) = enc a ++ enc b.
Proof. unfold enc. by rewrite map_app, concat_app. Qed.

Lemma enc_single t : enc [t] = enc_token t.
Proof. unfold enc. simpl. apply app_nil_r. Qed.

Lemma expand_app acc a b : expand acc (a ++ b) = expand (expand acc a) b.
Proof. apply foldl_app. Qed.

Lemma tokens_ok_app acc a b : tokens_ok acc (a ++ b) <-> tokens_ok acc a /\ tokens_ok (expand acc a) b.
Proof.
  revert acc. induction a as [|t a IH]; intros acc; simpl; [naive_solver|]. rewrite IH. unfold expand. simpl. tauto.
Qed.

(** *** Copies *)

Lemma grow_length n acc off : (off < length acc)%nat -> length (grow n acc off) = (length acc + n)%nat.
Proof.
  revert acc. induction n as [|n IH]; intros acc Ho; simpl; [lia|].
  destruct (lookup_lt_is_Some_2 acc (length acc - off - 1)) as [b ->]; [lia|].
  rewrite IH; rewrite length_app; simpl; lia.
Qed.

(** A copy reproduces a part of a text that repeats. *)
Lemma grow_take inp off n ip : (off < ip)%nat -> (ip + n <= length inp)%nat ->
  (forall i, (i < n)%nat -> inp !! (ip - off - 1 + i)%nat = inp !! (ip + i)%nat) ->
  grow n (take ip inp) off = take (ip + n) inp.
Proof.
  revert ip. induction n as [|n IH]; intros ip Ho Hn Heq; [by rewrite Nat.add_0_r|]. cbn [grow].
  rewrite length_take_le by lia. rewrite lookup_take_lt by lia.
  pose proof (Heq 0%nat ltac:(lia)) as H0. rewrite !Nat.add_0_r in H0. rewrite H0.
  destruct (lookup_lt_is_Some_2 inp ip) as [b Hb]; [lia|]. rewrite Hb, <- (take_S_r inp ip b Hb).
  rewrite IH; [f_equal; lia | lia | lia|]. intros i Hi. pose proof (Heq (S i) ltac:(lia)) as H1.
  replace (S ip - off - 1 + i)%nat with (ip - off - 1 + S i)%nat by lia. by replace (S ip + i)%nat with (ip + S i)%nat by lia.
Qed.

Lemma load8_lookup m i : 0 <= i -> load8 m i = m !! Z.to_nat i.
Proof. intros H. unfold load8. by rewrite bool_decide_true. Qed.

Lemma copy_fwd_grow n acc rest off : (off < length acc)%nat -> (n <= length rest)%nat -> bytes_ok acc ->
  copy_fwd n (acc ++ rest) (zlen acc) (zlen acc - Z.of_nat off - 1) = Some (grow n acc off ++ drop n rest).
Proof.
  revert acc rest. induction n as [|n IH]; intros acc rest Ho Hn Hb; cbn [copy_fwd grow]; [done|].
  destruct rest as [|x rest]; [simpl in Hn; lia|].
  destruct (lookup_lt_is_Some_2 acc (length acc - off - 1)) as [b Hbb]; [lia|].
  rewrite load8_lookup by (unfold zlen; lia). replace (Z.to_nat (zlen acc - Z.of_nat off - 1)) with (length acc - off - 1)%nat by (unfold zlen; lia).
  rewrite lookup_app_l by (by eapply lookup_lt_Some). rewrite Hbb. simpl_bind.
  assert (is_byte b) as Hbyte by (rewrite Forall_forall in Hb; apply Hb; by eapply list_elem_of_lookup_2).
  rewrite (store8_mid acc x rest) by done. simpl_bind.
  assert (u8 b = b) as -> by (apply uwrap_small; unfold is_byte in Hbyte; lia).
  replace (acc ++ b :: rest) with ((acc ++ [b]) ++ rest) by (by rewrite <- app_assoc).
  replace (zlen acc + 1) with (zlen (acc ++ [b])) by (by rewrite zlen_snoc).
  replace (zlen acc - Z.of_nat off - 1 + 1) with (zlen (acc ++ [b]) - Z.of_nat off - 1) by (rewrite zlen_snoc; lia).
  rewrite IH; [done | rewrite length_app; simpl; lia | simpl in Hn; lia|]. apply Forall_app. split; [done|]. by constructor.
Qed.

Lemma grow_disjoint n acc off : (n <= S off)%nat -> (off < length acc)%nat ->
  grow n acc off = acc ++ take n (drop (length acc - off - 1) acc).
Proof.
  intros Hn Ho. revert acc Hn Ho.
  assert (forall n (base ext : list Z), (length ext + n <= S off)%nat -> (off < length base)%nat ->
    (forall i, (i < length ext)%nat -> ext !! i = base !! (length base - off - 1 + i)%nat) ->
    grow n (base ++ ext) off = base ++ ext ++ take n (drop (length base - off - 1 + length ext) base)) as H.
  { clear n. induction n as [|n IH]; intros base ext Hn Ho Hext; cbn [grow]; [by rewrite app_nil_r|].
    rewrite length_app. rewrite lookup_app_l by lia.
    replace (length base + length ext - off - 1)%nat with (length base - off - 1 + length ext)%nat by lia.
    destruct (lookup_lt_is_Some_2 base (length base - off - 1 + length ext)) as [b Hb]; [lia|]. rewrite Hb.
    rewrite <- app_assoc. rewrite IH; [|rewrite length_app; simpl; lia | done|].
    - rewrite (drop_S base b _ Hb). rewrite length_app. simpl. rewrite <- app_assoc. simpl. do 5 f_equal. lia.
    - intros i Hi. rewrite length_app in Hi. simpl in Hi. destruct (decide (i = length ext)) as [->|Hne].
      + by rewrite list_lookup_middle.
      + rewrite lookup_app_l by lia. apply Hext. lia. }
  intros acc Hn Ho. pose proof (H n acc [] ltac:(simpl; lia) Ho) as H0. rewrite app_nil_r in H0. simpl in H0.
  rewrite Nat.add_0_r in H0. apply H0. intros i Hi. lia.
Qed.

Lemma grow_bytes n acc off : bytes_ok acc -> bytes_ok (grow n acc off).
Proof.
  revert acc. induction n as [|n IH]; intros acc Hb; cbn [grow]; [done|].
  destruct (acc !! (length acc - off - 1)%nat) as [b|] eqn:Hbb; [|done]. apply IH. apply Forall_app. split; [done|].
  constructor; [|done]. rewrite Forall_forall in Hb. apply Hb. by eapply list_elem_of_lookup_2.
Qed.

Lemma expand_token_bytes acc t : bytes_ok acc -> token_ok acc t -> bytes_ok (expand_token acc t).
Proof. intros Ha Ht. destruct t as [bs|off len]; simpl in *; [apply Forall_app; naive_solver|by apply grow_bytes]. Qed.

Definition token_size (t : token) : Z := match t with TLit bs => zlen bs | TRef _ len => len end.

Lemma expand_token_zlen acc t : token_ok acc t -> zlen (expand_token acc t) = zlen acc + token_size t /\ 1 <= token_size t.
Proof.
  intros Ht. destruct t as [bs|off len]; simpl in *; [rewrite zlen_app; lia|]. destruct Ht as (Ho & Ho' & Hl).
  unfold zlen in *. rewrite grow_length by lia. lia.
Qed.

Lemma expand_zlen acc ts : tokens_ok acc ts -> zlen acc <= zlen (expand acc ts).
Proof.
  revert acc. induction ts as [|t ts IH]; intros acc; simpl; [lia|]. intros [Ht Hts].
  pose proof (expand_token_zlen acc t Ht). specialize (IH _ Hts). lia.
Qed.

(** The copy of a back reference, in either way. *)
Lemma copy_ref acc rest off len : bytes_ok acc -> token_ok acc (TRef off len) -> zlen acc + len <= zlen (acc ++ rest) ->
  (if (9 <? len - 2) && (zlen acc - off - 1 + (len - 2 + 2) <=? zlen acc) then
     memmove (acc ++ rest) (zlen acc) (zlen acc - off - 1) (len - 2 + 2)
   else copy_fwd (Z.to_nat (len - 2 + 2)) (acc ++ rest) (zlen acc) (zlen acc - off - 1)) =
  Some (grow (Z.to_nat len) acc (Z.to_nat off) ++ drop (Z.to_nat len) rest).
Proof.
  intros Hb (Ho & Ho' & Hl) Hz. rewrite zlen_app in Hz. replace (len - 2 + 2) with len by lia.
  destruct ((9 <? len - 2) && (zlen acc - off - 1 + len <=? zlen acc)) eqn:Hc.
  - apply andb_true_iff in Hc as [_ Hc]. apply Z.leb_le in Hc.
    rewrite grow_disjoint by (unfold zlen in *; lia). unfold memmove.
    set (k := (length acc - Z.to_nat off - 1)%nat). set (bs := take (Z.to_nat len) (drop k acc)).
    assert (length bs = Z.to_nat len) as Hbs by (unfold bs; rewrite length_take, length_drop; unfold zlen in *; lia).
    assert (mem_load (acc ++ rest) (zlen acc - off - 1) len = Some bs) as ->.
    { replace (acc ++ rest) with (take k acc ++ bs ++ (drop (Z.to_nat len) (drop k acc) ++ rest)).
      - apply mem_load_mid; unfold zlen in *; [rewrite length_take; lia|lia].
      - unfold bs. rewrite (app_assoc (take _ (drop k acc))), take_drop, app_assoc, take_drop. done. }
    simpl_bind. rewrite <- (take_drop (Z.to_nat len) rest) at 1.
    rewrite (mem_store_mid acc (take (Z.to_nat len) rest) bs) by (done || rewrite Hbs, length_take; unfold zlen in *; lia).
    by rewrite <- app_assoc.
  - replace (zlen acc - off - 1) with (zlen acc - Z.of_nat (Z.to_nat off) - 1) by lia.
    apply copy_fwd_grow; [unfold zlen in *; lia..|done].
Qed.

(** A back reference is decoded. *)
Lemma decode_ref_byte off l : 0 <= off < MAX_OFF -> 0 <= l < 8 ->
  let b := off / 256 + l * 32 in Z.shiftr b 5 = l /\ Z.shiftl (Z.land b 31) 8 = off / 256 * 256.
Proof.
  intros Ho Hl b. unfold MAX_OFF in Ho. assert (0 <= off / 256 < 32) by (split; [apply Z.div_pos|apply Z.div_lt_upper_bound]; lia).
  subst b. rewrite Z.shiftr_div_pow2, Z.shiftl_mul_pow2 by lia. change 31 with (2 ^ 5 - 1). rewrite land_pow2 by lia.
  change (2 ^ 5) with 32. change (2 ^ 8) with 256. split.
  - rewrite Z.div_add by lia. rewrite Z.div_small by lia. lia.
  - rewrite Z_mod_plus_full, Z.mod_small by lia. done.
Qed.

(** *** Decoding one token *)

(** The loop after the token [t]. *)
Definition after_token fuel pre t post acc rest : option (Z * list Z) :=
  decompress_loop fuel ((pre ++ enc_token t) ++ post) (zlen (pre ++ enc_token t))
    (expand_token acc t ++ drop (Z.to_nat (token_size t)) rest) (zlen (expand_token acc t)).

Lemma decode_lit fuel pre bs post acc rest : token_ok acc (TLit bs) -> zlen acc + zlen bs <= zlen (acc ++ rest) ->
  decompress_loop (S fuel) (pre ++ enc_token (TLit bs) ++ post) (zlen pre) (acc ++ rest) (zlen acc) =
  after_token fuel pre (TLit bs) post acc rest.
Proof.
  intros [Hl Hbs] Hz. cbn [decompress_loop enc_token]. pose proof (zlen_nonneg post).
  assert (zlen (pre ++ (zlen bs - 1 :: bs) ++ post) = zlen pre + 1 + zlen bs + zlen post) as Hin
    by (rewrite !zlen_app, zlen_cons; lia).
  rewrite Hin. replace (zlen pre <? _) with true by lia. simpl negb. cbv iota.
  cbn [app]. rewrite load8_mid by done. simpl_bind. cbv zeta. replace (zlen bs - 1 <? 32) with true by lia.
  replace (zlen bs - 1 + 1) with (zlen bs) by lia. replace (zlen (acc ++ rest) <? _) with false by lia.
  replace (_ <? zlen pre + 1 + zlen bs) with false by lia.
  replace (pre ++ zlen bs - 1 :: bs ++ post) with ((pre ++ [zlen bs - 1]) ++ bs ++ post) by (by rewrite <- app_assoc).
  rewrite mem_load_mid by (rewrite ?zlen_snoc; done). simpl_bind. rewrite zlen_app in Hz.
  rewrite <- (take_drop (length bs) rest) at 1. rewrite (mem_store_mid acc (take (length bs) rest) bs);
    [|done | rewrite length_take; unfold zlen in *; lia]. simpl_bind. unfold after_token. cbn [expand_token enc_token token_size].
  f_equal; [by rewrite <- !app_assoc | rewrite zlen_app, zlen_cons; lia | | by rewrite zlen_app].
  rewrite <- app_assoc. unfold zlen. by rewrite Nat2Z.id.
Qed.

(** The end of the decoding of a back reference: its last byte is next. *)
Lemma decode_ref_end fuel pre off len post acc rest pre' : bytes_ok acc -> token_ok acc (TRef off len) ->
  zlen acc + len <= zlen (acc ++ rest) -> pre ++ enc_token (TRef off len) = pre' ++ [off mod 256] ->
  (b ← load8 (pre ++ enc_token (TRef off len) ++ post) (zlen pre');
   if zlen (acc ++ rest) <? zlen acc + (len - 2) + 2 then Some (0, acc ++ rest)
   else if zlen acc - off / 256 * 256 - 1 - b <? 0 then Some (0, acc ++ rest)
   else
     out ← (if (9 <? len - 2) && (zlen acc - off / 256 * 256 - 1 - b + (len - 2 + 2) <=? zlen acc)
            then memmove (acc ++ rest) (zlen acc) (zlen acc - off / 256 * 256 - 1 - b) (len - 2 + 2)
            else copy_fwd (Z.to_nat (len - 2 + 2)) (acc ++ rest) (zlen acc) (zlen acc - off / 256 * 256 - 1 - b));
     decompress_loop fuel (pre ++ enc_token (TRef off len) ++ post) (zlen pre' + 1) out (zlen acc + (len - 2) + 2)) =
  after_token fuel pre (TRef off len) post acc rest.
Proof.
  intros Hb Hok Hz Hpre. pose proof Hok as (Ho & Ho' & Hl). pose proof (Z.div_mod off 256 ltac:(lia)) as Hdm.
  rewrite app_assoc, Hpre, <- app_assoc. cbn [app]. rewrite load8_mid by done. simpl_bind.
  replace (zlen acc - off / 256 * 256 - 1 - off mod 256) with (zlen acc - off - 1) by lia.
  replace (_ <? zlen acc + (len - 2) + 2) with false by lia. replace (zlen acc - off - 1 <? 0) with false by lia.
  rewrite (copy_ref acc rest off len Hb Hok Hz). simpl_bind. unfold after_token. destruct (expand_token_zlen acc _ Hok) as [-> _].
  cbn [expand_token token_size]. rewrite Hpre. f_equal; [by rewrite <- app_assoc | by rewrite zlen_snoc | lia].
Qed.

Lemma decode_ref fuel pre off len post acc rest : bytes_ok acc -> token_ok acc (TRef off len) ->
  zlen acc + len <= zlen (acc ++ rest) ->
  decompress_loop (S fuel) (pre ++ enc_token (TRef off len) ++ post) (zlen pre) (acc ++ rest) (zlen acc) =
  after_token fuel pre (TRef off len) post acc rest.
Proof.
  intros Hb Hok Hz. pose proof Hok as (Ho & Ho' & Hl). unfold MAX_REF in Hl. pose proof (zlen_nonneg post).
  assert (0 <= off / 256) by (apply Z.div_pos; lia).
  pose proof (decode_ref_end fuel pre off len post acc rest) as Hend. cbn [decompress_loop enc_token] in *.
  destruct (Z.ltb_spec (len - 2) 7) as [Hs|Hs].
  - destruct (decode_ref_byte off (len - 2) Ho ltac:(lia)) as [D1 D2]. cbv zeta in D1, D2. set (b := off / 256 + (len - 2) * 32) in *.
    specialize (Hend (pre ++ [b]) Hb Hok Hz). rewrite !zlen_app in *. change (zlen [b; off mod 256]) with 2. change (zlen [b]) with 1 in *.
    replace (zlen pre <? _) with true by lia. simpl negb. cbv iota. cbn [app] in *. rewrite load8_mid by done. simpl_bind. cbv zeta.
    replace (b <? 32) with false by (unfold b; lia). replace (_ <=? zlen pre + 1) with false by lia.
    rewrite D1, D2. unfold long_len. replace (len - 2 =? 7) with false by lia. simpl_bind. apply Hend. by rewrite <- app_assoc.
  - destruct (decode_ref_byte off 7 Ho ltac:(lia)) as [D1 D2]. cbv zeta in D1, D2. change (7 * 32) with 224 in *.
    set (b := off / 256 + 224) in *. specialize (Hend (pre ++ [b; len - 9]) Hb Hok Hz). rewrite !zlen_app in *.
    change (zlen [b; len - 9; off mod 256]) with 3. change (zlen [b; len - 9]) with 2 in *.
    replace (zlen pre <? _) with true by lia. simpl negb. cbv iota. cbn [app] in *. rewrite load8_mid by done. simpl_bind. cbv zeta.
    replace (b <? 32) with false by (unfold b; lia). replace (_ <=? zlen pre + 1) with false by lia.
    rewrite D1, D2. unfold long_len. change (7 =? 7) with true. cbv iota.
    replace (load8 _ (zlen pre + 1)) with (Some (len - 9)).
    2: { symmetry. rewrite (cons_middle b pre), app_assoc. apply load8_mid. by rewrite zlen_snoc. }
    simpl_bind. rewrite !zlen_app, !zlen_cons. replace (_ <=? zlen pre + 1 + 1) with false by lia.
    simpl_bind. cbv zeta. replace (7 + (len - 9)) with (len - 2) by lia. replace (zlen pre + 1 + 1) with (zlen pre + 2) by lia.
    apply Hend. by rewrite <- app_assoc.
Qed.

Lemma decode_token fuel pre t post acc rest : bytes_ok acc -> token_ok acc t -> zlen acc + token_size t <= zlen (acc ++ rest) ->
  decompress_loop (S fuel) (pre ++ enc_token t ++ post) (zlen pre) (acc ++ rest) (zlen acc) = after_token fuel pre t post acc rest.
Proof. intros Hb Hok Hz. destruct t; [by apply decode_lit|by apply decode_ref]. Qed.

Lemma decompress_tokens ts : forall fuel pre acc rest, tokens_ok acc ts -> bytes_ok acc ->
  zlen (expand acc ts) <= zlen (acc ++ rest) -> (length ts < fuel)%nat ->
  exists rest', decompress_loop fuel (pre ++ enc ts) (zlen pre) (acc ++ rest) (zlen acc) =
    Some (zlen (expand acc ts), expand acc ts ++ rest') /\ zlen (expand acc ts ++ rest') = zlen (acc ++ rest).
Proof.
  induction ts as [|t ts IH]; intros [|fuel] pre acc rest Hok Hb Hz Hf; try (simpl in Hf; lia).
  { cbn [decompress_loop]. change (enc []) with (@nil Z). rewrite app_nil_r, Z.ltb_irrefl. simpl. by exists rest. }
  destruct Hok as [Ht Hts]. pose proof (expand_zlen _ _ Hts) as Hmono. destruct (expand_token_zlen acc t Ht) as [Htz Ht1].
  change (enc (t :: ts)) with (enc_token t ++ enc ts). change (expand acc (t :: ts)) with (expand (expand_token acc t) ts) in *.
  rewrite decode_token by (done || lia). unfold after_token.
  assert (zlen (expand_token acc t ++ drop (Z.to_nat (token_size t)) rest) = zlen (acc ++ rest)) as Hsame.
  { rewrite !zlen_app, Htz. rewrite zlen_app in Hz. unfold zlen in *. rewrite length_drop. lia. }
  destruct (IH fuel (pre ++ enc_token t) (expand_token acc t) (drop (Z.to_nat (token_size t)) rest)) as (rest' & He & Hlen);
    [done | by apply expand_token_bytes | by rewrite Hsame | simpl in Hf; lia|].
  exists rest'. by rewrite He, Hlen.
Qed.

Lemma length_enc ts acc : tokens_ok acc ts -> (length ts <= length (enc ts))%nat.
Proof.
  revert acc. induction ts as [|t ts IH]; intros acc; [simpl; lia|]. intros [Ht Hts]. change (enc (t :: ts)) with (enc_token t ++ enc ts).
  rewrite length_app. specialize (IH _ Hts). destruct t as [bs|off len]; simpl; [lia|]. destruct (_ <? _); simpl; lia.
Qed.

Lemma lzf_decompress_tokens ts out : tokens_ok [] ts -> zlen (expand [] ts) = zlen out ->
  lzf_decompress (enc ts) out = Some (zlen out, expand [] ts).
Proof.
  intros Hok Hz. unfold lzf_decompress. pose proof (length_enc ts [] Hok).
  destruct (decompress_tokens ts (S (length (enc ts))) [] [] out Hok) as (rest' & He & Hlen); [constructor | simpl; lia | lia|].
  etransitivity; [exact He|]. rewrite Hz. cbn [app] in Hlen. rewrite zlen_app in Hlen.
  assert (rest' = []) as -> by (apply zlen_eq_nil; lia). by rewrite app_nil_r.
Qed.

(** ** Decompression of arbitrary input *)

Lemma mem_load_some m off n : 0 <= off -> 0 <= n -> off + n <= zlen m -> exists bs, mem_load m off n = Some bs /\ zlen bs = n.
Proof.
  intros H1 H2 H3. unfold mem_load, zlen in *. rewrite bool_decide_true by lia. eexists. split; [done|].
  rewrite length_take, length_drop. lia.
Qed.

Lemma mem_store_some m off bs : 0 <= off -> off + zlen bs <= zlen m -> exists m', mem_store m off bs = Some m' /\ zlen m' = zlen m.
Proof.
  intros H1 H2. unfold mem_store, zlen in *. rewrite bool_decide_true by lia. eexists. split; [done|].
  rewrite !length_app, length_take, length_drop. lia.
Qed.

Lemma load8_some m i : 0 <= i < zlen m -> exists b, load8 m i = Some b.
Proof. intros H. apply load8_is_Some in H as [b Hb]. by exists b. Qed.

Lemma store8_some m i v : 0 <= i < zlen m -> exists m', store8 m i v = Some m' /\ zlen m' = zlen m.
Proof. intros H. apply mem_store_some; [lia|]. change (zlen [u8 v]) with 1. lia. Qed.

Lemma copy_fwd_some n : forall out op ref, 0 <= ref <= op -> op + Z.of_nat n <= zlen out ->
  exists out', copy_fwd n out op ref = Some out' /\ zlen out' = zlen out.
Proof.
  induction n as [|n IH]; intros out op ref Hr Hn; cbn [copy_fwd]; [by exists out|].
  destruct (load8_some out ref) as [b ->]; [lia|]. simpl_bind. destruct (store8_some out op b) as (o1 & -> & Hz); [lia|]. simpl_bind.
  destruct (IH o1 (op + 1) (ref + 1)) as (o2 & -> & Hz2); [lia | lia|]. exists o2. split; [done|lia].
Qed.

Lemma decompress_loop_safe fuel : forall inp ip out op, bytes_ok inp -> 0 <= ip <= zlen inp -> 0 <= op <= zlen out ->
  zlen inp - ip < Z.of_nat fuel ->
  exists n out', decompress_loop fuel inp ip out op = Some (n, out') /\ 0 <= n <= zlen out /\ zlen out' = zlen out.
Proof.
  induction fuel as [|fuel IH]; intros inp ip out op Hb Hip Hop Hf; [lia|]. cbn [decompress_loop].
  destruct (Z.ltb_spec ip (zlen inp)) as [Hlt|]; simpl negb; cbv iota; [|exists op, out; split_and!; (done || lia)].
  assert (exists n out', Some (0, out) = Some (n, out') /\ 0 <= n <= zlen out /\ zlen out' = zlen out) as Herr
    by (exists 0, out; split_and!; (done || lia)).
  destruct (load8_some inp ip) as [ctrl Hc]; [lia|]. rewrite Hc. simpl_bind. cbv zeta.
  pose proof (load8_byte _ _ _ Hb Hc) as Hcb. unfold is_byte in Hcb.
  destruct (Z.ltb_spec ctrl 32) as [Hl|Hl].
  - destruct (Z.ltb_spec (zlen out) (op + (ctrl + 1))); [done|]. destruct (Z.ltb_spec (zlen inp) (ip + 1 + (ctrl + 1))); [done|].
    destruct (mem_load_some inp (ip + 1) (ctrl + 1)) as (bs & -> & Hbs); [lia..|]. simpl_bind.
    destruct (mem_store_some out op bs) as (o1 & -> & Hz); [lia..|]. simpl_bind.
    destruct (IH inp (ip + 1 + (ctrl + 1)) o1 (op + (ctrl + 1))) as (n & o2 & -> & Hn & Hz2); [done | lia..|].
    exists n, o2. split_and!; (done || lia).
  - destruct (Z.leb_spec (zlen inp) (ip + 1)); [done|].
    assert (exists r, long_len inp (ip + 1) (Z.shiftr ctrl 5) = Some r /\
      match r with None => True | Some (len, ip') => 0 <= len /\ ip + 1 <= ip' < zlen inp end) as (r & -> & Hr).
    { assert (0 <= Z.shiftr ctrl 5) by (apply Z.shiftr_nonneg; lia). unfold long_len.
      destruct (Z.shiftr ctrl 5 =? 7); [|eexists; split; [done|]; simpl; lia].
      destruct (load8_some inp (ip + 1)) as [b Hbb]; [lia|]. rewrite Hbb. simpl_bind.
      pose proof (load8_byte _ _ _ Hb Hbb) as Hbyte. unfold is_byte in Hbyte.
      destruct (Z.leb_spec (zlen inp) (ip + 1 + 1)); (eexists; split; [done|]); simpl; [done|lia]. }
    simpl_bind. destruct r as [[len ip']|]; [|done]. destruct Hr as [Hlen Hip'].
    destruct (load8_some inp ip') as [b Hbb]; [lia|]. rewrite Hbb. simpl_bind. cbv zeta.
    pose proof (load8_byte _ _ _ Hb Hbb) as Hbyte. unfold is_byte in Hbyte.
    destruct (Z.ltb_spec (zlen out) (op + len + 2)); [done|].
    assert (0 <= Z.shiftl (Z.land ctrl 31) 8) by (apply Z.shiftl_nonneg, Z.land_nonneg; lia).
    set (ref := op - Z.shiftl (Z.land ctrl 31) 8 - 1 - b) in *. destruct (Z.ltb_spec ref 0); [done|].
    assert (exists o1, (if (9 <? len) && (ref + (len + 2) <=? op) then memmove out op ref (len + 2)
      else copy_fwd (Z.to_nat (len + 2)) out op ref) = Some o1 /\ zlen o1 = zlen out) as (o1 & -> & Hz).
    { destruct (_ && _).
      - unfold memmove. destruct (mem_load_some out ref (len + 2)) as (bs & -> & Hbs); [lia..|]. simpl_bind.
        apply mem_store_some; lia.
      - apply copy_fwd_some; lia. }
    simpl_bind. destruct (IH inp (ip' + 1) o1 (op + len + 2)) as (n & o2 & -> & Hn & Hz2); [done | lia..|].
    exists n, o2. split_and!; (done || lia).
Qed.

(** Whatever bytes it is given, as input from a file or from a peer, decompression terminates, reads only
    its input, writes only its output, and returns an error or a length within the output. *)
Theorem lzf_decompress_safe inp out : bytes_ok inp ->
  exists n out', lzf_decompress inp out = Some (n, out') /\ 0 <= n <= zlen out /\ zlen out' = zlen out.
Proof.
  intros Hb. unfold lzf_decompress. apply decompress_loop_safe; [done | split; [lia|apply zlen_nonneg]..|]. unfold zlen. lia.
Qed.

(** ** Compression *)

(** *** The length of a match *)

(** The first [n] bytes at [ref] and at [ip] are the same. *)
Definition same_bytes inp ref ip n : Prop := forall i, 0 <= i < n -> load8 inp (ref + i) = load8 inp (ip + i).

Lemma same_bytes_snoc inp ref ip n b : same_bytes inp ref ip n -> load8 inp (ref + n) = Some b -> load8 inp (ip + n) = Some b ->
  same_bytes inp ref ip (n + 1).
Proof.
  intros H Hr Hi i Hin. destruct (decide (i = n)) as [->|Hne]; [congruence|]. apply H. lia.
Qed.

Lemma compare_unrolled_ok n : forall inp ref ip len, 0 <= ref < ip -> 0 <= len -> ip + len + Z.of_nat n < zlen inp ->
  same_bytes inp ref ip (len + 1) ->
  exists len' stop, compare_unrolled n inp ref ip len = Some (len', stop) /\
    (if stop : bool then len < len' <= len + Z.of_nat n /\ same_bytes inp ref ip len'
     else len' = len + Z.of_nat n /\ same_bytes inp ref ip (len' + 1)).
Proof.
  induction n as [|n IH]; intros inp ref ip len Hr Hl Hz Hs; cbn [compare_unrolled].
  { exists len, false. split_and!; [done | lia | done]. }
  cbv zeta. destruct (load8_some inp (ref + (len + 1))) as [a Ha]; [lia|]. destruct (load8_some inp (ip + (len + 1))) as [b Hb]; [lia|].
  rewrite Ha, Hb. simpl_bind. destruct (Z.eqb_spec a b) as [->|Hne]; simpl negb; cbv iota.
  - destruct (IH inp ref ip (len + 1)) as (len' & stop & -> & Hst); [lia..|by eapply same_bytes_snoc|].
    exists len', stop. split; [done|]. destruct stop; [destruct Hst; split; [lia|done] | destruct Hst; split; [lia|done]].
  - exists (len + 1), true. split_and!; [done | lia | lia | done].
Qed.

Lemma compare_loop_ok fuel : forall inp ref ip len maxlen, 0 <= ref < ip -> 0 <= len -> ip + maxlen <= zlen inp ->
  maxlen - len < Z.of_nat fuel -> same_bytes inp ref ip (len + 1) -> (0 < fuel)%nat ->
  exists len', compare_loop fuel inp ref ip len maxlen = Some len' /\ len + 1 <= len' /\ (len' <= len + 1 \/ len' <= maxlen) /\
    same_bytes inp ref ip len'.
Proof.
  induction fuel as [|fuel IH]; intros inp ref ip len maxlen Hr Hl Hz Hf Hs H0; [lia|]. cbn [compare_loop]. cbv zeta.
  destruct (Z.ltb_spec (len + 1) maxlen) as [Hlt|Hge]; [|exists (len + 1); split_and!; (done || lia)].
  destruct (load8_some inp (ref + (len + 1))) as [a Ha]; [lia|]. destruct (load8_some inp (ip + (len + 1))) as [b Hb]; [lia|].
  rewrite Ha, Hb. simpl_bind. destruct (Z.eqb_spec a b) as [->|Hne]; [|exists (len + 1); split_and!; (done || lia)].
  destruct (IH inp ref ip (len + 1) maxlen) as (len' & -> & H1 & H2 & H3); try lia; [by eapply same_bytes_snoc|].
  exists len'. split_and!; (done || lia).
Qed.

Lemma match_len_ok inp ref ip : 0 <= ref < ip -> ip < zlen inp - 2 -> same_bytes inp ref ip 3 ->
  exists n, match_len inp ref ip = Some n /\ 3 <= n <= MAX_REF /\ ip + n <= zlen inp /\ same_bytes inp ref ip n.
Proof.
  intros Hr Hz Hs. unfold match_len. cbv zeta.
  set (maxlen := if MAX_REF <? zlen inp - ip - 2 then MAX_REF else zlen inp - ip - 2).
  assert (1 <= maxlen <= MAX_REF /\ maxlen <= zlen inp - ip - 2) as [Hm Hm'].
  { unfold maxlen, MAX_REF. destruct (Z.ltb_spec 264 (zlen inp - ip - 2)); lia. }
  clearbody maxlen. unfold MAX_REF in *.
  assert (forall len, 2 <= len <= 18 -> (len = 2 \/ 16 < maxlen) -> same_bytes inp ref ip (len + 1) ->
    exists n, compare_loop (S (Z.to_nat 264)) inp ref ip len maxlen = Some n /\ 3 <= n <= 264 /\ ip + n <= zlen inp /\ same_bytes inp ref ip n) as Hloop.
  { intros len Hl Hl' Hsl. destruct (compare_loop_ok (S (Z.to_nat 264)) inp ref ip len maxlen) as (n & -> & H1 & H2 & H3); try lia; [done|].
    exists n. split_and!; (done || lia). }
  destruct (Z.ltb_spec 16 maxlen) as [H16|H16]; [|simpl_bind; apply Hloop; (lia || done)].
  destruct (compare_unrolled_ok 16 inp ref ip 2) as (len & stop & -> & Hst); [lia..|done|]. simpl_bind.
  destruct stop; destruct Hst as [Hst1 Hst2]; [exists len; split_and!; (done || lia)|]. apply Hloop; (lia || done).
Qed.

Lemma u64_small x : - 2 ^ 33 < x < 2 ^ 33 -> u64 x < MAX_OFF -> 0 <= x < MAX_OFF.
Proof. unfold MAX_OFF. intros Hx. machine. Qed.

Lemma is_match_ok inp ip ref : 0 <= ref < 2 ^ 32 -> 0 <= ip < zlen inp - 2 -> zlen inp < 2 ^ 32 ->
  exists m, is_match inp ip ref = Some m /\
    (m = true -> 0 < ref < ip /\ 0 <= ip - ref - 1 < MAX_OFF /\ same_bytes inp ref ip 3).
Proof.
  intros Hr Hi Hz. unfold is_match. destruct (Z.ltb_spec (u64 (ip - ref - 1)) MAX_OFF) as [Ho|Ho]; simpl negb; cbv iota; [|by exists false].
  apply u64_small in Ho; [|lia]. destruct (Z.ltb_spec 0 ref) as [Hr0|Hr0]; simpl negb; cbv iota; [|by exists false].
  destruct (load8_some inp (ref + 2)) as [r2 Hr2]; [lia|]. destruct (load8_some inp (ip + 2)) as [i2 Hi2]; [lia|].
  rewrite Hr2, Hi2. simpl_bind. destruct (Z.eqb_spec r2 i2) as [->|]; simpl negb; cbv iota; [|by exists false].
  destruct (load8_some inp ref) as [r0 Hrr]; [lia|]. destruct (load8_some inp (ref + 1)) as [r1 Hr1]; [lia|].
  destruct (load8_some inp ip) as [i0 Hii]; [lia|]. destruct (load8_some inp (ip + 1)) as [i1 Hi1]; [lia|].
  rewrite Hrr, Hr1, Hii, Hi1. simpl_bind. eexists. split; [done|]. intros Heq. apply andb_true_iff in Heq as [->%Z.eqb_eq ->%Z.eqb_eq].
  split_and!; try lia. intros i Hi3. assert (i = 0 \/ i = 1 \/ i = 2) as [->|[->| ->]] by lia; rewrite ?Z.add_0_r; congruence.
Qed.

(** *** The output so far *)

(** [ts] and the pending literals [pend] stand for the first [ip] bytes; the output has the encoding of [ts], and
    if there are literals a byte for their number and the literals. *)
Definition comp_inv inp (N ip op lit : Z) out (ts : list token) (pend : list Z) : Prop :=
  tokens_ok [] ts /\ expand [] ts ++ pend = take (Z.to_nat ip) inp /\ zlen pend = lit /\ 0 <= lit < 32 /\
  0 <= ip <= zlen inp /\ zlen out = N /\ op = zlen (enc ts) + 1 + lit /\
  exists tl, out = enc ts ++ tl /\ (0 < lit -> exists x rest, tl = x :: pend ++ rest).

Lemma comp_inv_shape inp N ip op lit out ts pend : comp_inv inp N ip op lit out ts pend -> op <= N ->
  exists x rest, out = enc ts ++ x :: pend ++ rest /\ zlen rest = N - op.
Proof.
  intros (_ & _ & Hl & Hl' & _ & HN & Hop & tl & -> & Htl) Hle. rewrite zlen_app in HN.
  destruct (decide (0 < lit)) as [Hp|Hn].
  - destruct (Htl Hp) as (x & rest & ->). exists x, rest. split; [done|]. rewrite zlen_cons, zlen_app in HN. lia.
  - assert (lit = 0) as -> by lia. apply zlen_eq_nil in Hl as ->. destruct tl as [|x rest]; [change (zlen []) with 0 in HN; lia|].
    exists x, rest. split; [done|]. rewrite zlen_cons in HN. lia.
Qed.

(** The run of literals is closed. *)
Lemma stop_run_ok inp N ip op lit out ts pend : bytes_ok inp -> comp_inv inp N ip op lit out ts pend -> op <= N ->
  exists ts' rest, store8 out (op - lit - 1) (lit - 1) = Some (enc ts' ++ rest) /\ tokens_ok [] ts' /\
    expand [] ts' = take (Z.to_nat ip) inp /\ op - (if lit =? 0 then 1 else 0) = zlen (enc ts') /\ zlen (enc ts' ++ rest) = N.
Proof.
  intros Hb Hinv Hle. destruct (comp_inv_shape _ _ _ _ _ _ _ _ Hinv Hle) as (x & rest & -> & Hrest).
  destruct Hinv as (Hok & Hexp & Hl & Hl' & Hip & HN & Hop & _). rewrite store8_mid by lia.
  assert (bytes_ok pend) as Hbp.
  { apply (Forall_app _ (expand [] ts) pend). rewrite Hexp. by apply Forall_take. }
  destruct (Z.eqb_spec lit 0) as [->|Hne].
  - apply zlen_eq_nil in Hl as ->. rewrite app_nil_r in Hexp. exists ts, (u8 (0 - 1) :: rest). split_and!; [done.. | lia|].
    rewrite <- HN. simpl_zlen. lia.
  - exists (ts ++ [TLit pend]), rest. rewrite enc_app, enc_single, <- app_assoc. cbn [enc_token app]. split_and!.
    + do 4 f_equal. rewrite uwrap_small by lia. lia.
    + apply tokens_ok_app. split; [done|]. simpl. split; [split; [lia|done]|done].
    + rewrite expand_app. done.
    + rewrite zlen_app, zlen_cons. lia.
    + rewrite <- HN. simpl_zlen. lia.
Qed.

(** One more literal. *)
Lemma literal_ok inp N ip op lit out ts pend : bytes_ok inp -> comp_inv inp N ip op lit out ts pend -> ip < zlen inp -> op < N ->
  exists b out1, load8 inp ip = Some b /\ store8 out op b = Some out1 /\
    if lit + 1 =? MAX_LIT then
      exists out2 ts', store8 out1 (op + 1 - (lit + 1) - 1) (lit + 1 - 1) = Some out2 /\
        comp_inv inp N (ip + 1) (op + 1 + 1) 0 out2 ts' []
    else exists ts' pend', comp_inv inp N (ip + 1) (op + 1) (lit + 1) out1 ts' pend'.
Proof.
  intros Hb Hinv Hip Hop. destruct (comp_inv_shape _ _ _ _ _ _ _ _ Hinv ltac:(lia)) as (x & rest & -> & Hrest).
  destruct Hinv as (Hok & Hexp & Hl & Hl' & Hip' & HN & Hop' & _).
  destruct (load8_some inp ip) as [b Hlb]; [lia|]. pose proof (load8_byte _ _ _ Hb Hlb) as Hbb.
  destruct rest as [|y rest]; [change (zlen []) with 0 in Hrest; lia|].
  assert (store8 (enc ts ++ x :: pend ++ y :: rest) op b = Some (enc ts ++ x :: (pend ++ [b]) ++ rest)) as Hst.
  { replace (enc ts ++ x :: pend ++ y :: rest) with ((enc ts ++ x :: pend) ++ y :: rest) by (by rewrite <- app_assoc).
    rewrite store8_mid by (rewrite zlen_app, zlen_cons; lia). rewrite uwrap_small by (unfold is_byte in Hbb; lia). by rewrite <- !app_assoc. }
  assert (expand [] ts ++ (pend ++ [b]) = take (Z.to_nat (ip + 1)) inp) as Hexp'.
  { rewrite app_assoc, Hexp. replace (Z.to_nat (ip + 1)) with (S (Z.to_nat ip)) by lia. symmetry. apply take_S_r.
    by rewrite <- load8_lookup by lia. }
  exists b, (enc ts ++ x :: (pend ++ [b]) ++ rest). split_and!; [done..|].
  assert (zlen (enc ts ++ x :: (pend ++ [b]) ++ rest) = N) as HN'.
  { rewrite <- HN. simpl_zlen. lia. }
  unfold MAX_LIT. destruct (Z.eqb_spec (lit + 1) 32) as [H32|H32].
  - exists (enc (ts ++ [TLit (pend ++ [b])]) ++ rest), (ts ++ [TLit (pend ++ [b])]).
    rewrite store8_mid by lia. rewrite enc_app, enc_single, <- !app_assoc. cbn [enc_token app].
    assert (zlen (pend ++ [b]) = 32) as Hp by (rewrite zlen_snoc; lia). split.
    + rewrite Hp, uwrap_small by lia. do 3 f_equal; [lia|]. by rewrite <- app_assoc.
    + unfold comp_inv. rewrite enc_app, enc_single, app_nil_r. cbn [enc_token]. split_and!; try lia.
      * apply tokens_ok_app. split; [done|]. simpl. split; [split; [lia|]|done]. apply Forall_app. split; [|by constructor].
        apply (Forall_app _ (expand [] ts) pend). rewrite Hexp. by apply Forall_take.
      * rewrite expand_app. done.
      * done.
      * rewrite <- HN'. simpl_zlen. lia.
      * rewrite zlen_app, zlen_cons. lia.
      * exists rest. split; [|lia]. rewrite <- !app_assoc. cbn [app]. by rewrite <- app_assoc.
  - exists ts, (pend ++ [b]). unfold comp_inv. split_and!; try done; [rewrite zlen_snoc; lia | lia.. |].
    eexists. split; [done|]. eauto.
Qed.

Lemma write_ref_ok ts rest off n : 0 <= off < MAX_OFF -> 3 <= n <= MAX_REF -> 3 <= zlen rest ->
  exists rest', write_ref (enc ts ++ rest) (zlen (enc ts)) off (n - 2) =
    Some (enc (ts ++ [TRef off n]) ++ rest', zlen (enc (ts ++ [TRef off n]))) /\
    zlen (enc (ts ++ [TRef off n]) ++ rest') = zlen (enc ts ++ rest).
Proof.
  intros Ho Hn Hr. unfold MAX_OFF, MAX_REF in *. destruct rest as [|x [|y [|z rest]]]; try (exfalso; unfold zlen in Hr; simpl in Hr; lia).
  assert (0 <= off / 256 < 32) by (split; [apply Z.div_pos|apply Z.div_lt_upper_bound]; lia).
  unfold write_ref. rewrite enc_app, enc_single. cbn [enc_token].
  assert (Z.shiftr off 8 = off / 256) as -> by (by rewrite Z.shiftr_div_pow2).
  assert (forall v, Z.shiftl v 5 = v * 32) as Hsh by (intros v; by rewrite Z.shiftl_mul_pow2). rewrite !Hsh.
  destruct (Z.ltb_spec (n - 2) 7) as [Hs|Hs].
  - rewrite store8_mid by done. simpl_bind. rewrite (cons_middle _ (enc ts)), app_assoc, store8_mid by (by rewrite zlen_snoc). simpl_bind.
    exists (z :: rest). split; [|simpl_zlen; lia]. rewrite <- !app_assoc. cbn [app]. do 2 f_equal; [|simpl_zlen; lia].
    do 2 f_equal. rewrite uwrap_small by lia. done.
  - rewrite store8_mid by done. simpl_bind. rewrite (cons_middle _ (enc ts)), app_assoc, store8_mid by (by rewrite zlen_snoc). simpl_bind.
    rewrite (cons_middle _ (enc ts ++ _)), app_assoc, store8_mid by (rewrite !zlen_snoc; lia). simpl_bind.
    exists rest. split; [|simpl_zlen; lia]. rewrite <- !app_assoc. cbn [app]. do 2 f_equal; [|simpl_zlen; lia].
    do 2 f_equal; [rewrite uwrap_small by lia; lia|]. f_equal. rewrite uwrap_small by lia. lia.
Qed.

Lemma next_some v inp p : 0 <= p < zlen inp - 2 -> exists h, NEXT v inp p = Some h.
Proof. intros H. unfold NEXT. destruct (load8_some inp (p + 2)) as [c ->]; [lia|]. by eexists. Qed.

Definition htab_ok (h : gmap Z Z) : Prop := forall k v, h !! k = Some v -> 0 <= v < 2 ^ 32.

Lemma htab_ok_insert h k v : htab_ok h -> htab_ok (<[k := u32 v]> h).
Proof.
  intros H k' v'. destruct (decide (k' = k)) as [->|Hne]; [rewrite lookup_insert_eq; intros [= <-]; apply uwrap_range; lia|].
  rewrite lookup_insert_ne by done. apply H.
Qed.

Lemma rehash_end_some inp ip h : htab_ok h -> 2 <= ip < zlen inp - 2 ->
  exists v h', rehash_end inp ip h = Some (v, h') /\ htab_ok h'.
Proof.
  intros Hh Hi. unfold rehash_end, FRST. cbv zeta. destruct (load8_some inp (ip - 2)) as [a ->]; [lia|].
  destruct (load8_some inp (ip - 2 + 1)) as [b ->]; [lia|]. simpl_bind.
  destruct (next_some (Z.lor (Z.shiftl a 8) b) inp (ip - 2)) as [v1 ->]; [lia|]. simpl_bind.
  destruct (next_some v1 inp (ip - 2 + 1)) as [v2 ->]; [lia|]. simpl_bind.
  eexists _, _. split; [done|]. by apply htab_ok_insert, htab_ok_insert.
Qed.

(** The invariant of a state of the main loop. *)
Definition state_inv inp N (st : lzf) : Prop :=
  htab_ok (c_htab st) /\ exists ts pend, comp_inv inp N (c_ip st) (c_op st) (c_lit st) (c_out st) ts pend.

Lemma zbetween_take inp ip n ref : 0 < ref < ip -> 0 <= n -> ip + n <= zlen inp -> same_bytes inp ref ip n ->
  grow (Z.to_nat n) (take (Z.to_nat ip) inp) (Z.to_nat (ip - ref - 1)) = take (Z.to_nat (ip + n)) inp.
Proof.
  intros Hr Hn Hz Hs. unfold zlen in Hz. rewrite grow_take; [f_equal; lia | lia | lia|].
  intros i Hi. specialize (Hs (Z.of_nat i) ltac:(lia)). rewrite !load8_lookup in Hs by lia.
  replace (Z.to_nat ip - Z.to_nat (ip - ref - 1) - 1 + i)%nat with (Z.to_nat (ref + Z.of_nat i)) by lia.
  replace (Z.to_nat ip + i)%nat with (Z.to_nat (ip + Z.of_nat i)) by lia. done.
Qed.

Section compress_facts.
Context (garbage : Z -> Z).

Lemma compress_step_ok inp N st : bytes_ok inp -> zlen inp < 2 ^ 32 -> state_inv inp N st -> c_ip st < zlen inp - 2 ->
  exists r, compress_step garbage inp st = Some r /\
    match r with
    | None => True
    | Some (st', brk) => state_inv inp N st' /\ c_ip st < c_ip st' /\ ((brk : bool) = true -> zlen inp - 2 <= c_ip st')
    end.
Proof.
  intros Hb Hz (Hh & ts & pend & Hinv) Hip. destruct st as [ip op lit out htab hval]. cbn [c_ip c_op c_lit c_out c_htab] in *.
  pose proof Hinv as (Hok & Hexp & Hl & Hl' & Hip' & HN & Hop & _). unfold compress_step.
  destruct (next_some hval inp ip) as [hv ->]; [lia|]. simpl_bind. cbv zeta.
  set (ref := default _ (htab !! IDX hv)).
  assert (0 <= ref < 2 ^ 32) as Href.
  { unfold ref. destruct (htab !! IDX hv) as [v|] eqn:Hv; simpl; [by apply Hh in Hv|]. apply uwrap_range. lia. }
  clearbody ref. pose proof (htab_ok_insert htab (IDX hv) ip Hh) as Hh'. set (htab' := <[IDX hv := _]> htab) in *.
  destruct (is_match_ok inp ip ref Href) as (m & -> & Hm); [lia|done|]. simpl_bind. destruct m.
  - destruct (Hm eq_refl) as (Hr & Ho & Hs3). set (undo := if lit =? 0 then 1 else 0).
    destruct ((zlen out <=? op + 3 + 1) && (zlen out <=? op - undo + 3 + 1)) eqn:Hroom; [by exists None|].
    assert (op - undo + 4 < N) as Hroom'.
    { unfold undo in *. apply andb_false_iff in Hroom. destruct (lit =? 0); lia. }
    destruct (stop_run_ok inp N ip op lit out ts pend Hb Hinv) as (ts' & rest & -> & Hok' & Hexp' & Hop' & HN'); [unfold undo in *; destruct (lit =? 0); lia|].
    fold undo in Hop'. simpl_bind. destruct (match_len_ok inp ref ip) as (n & -> & Hn & Hn' & Hsn); [lia | lia | done|]. simpl_bind.
    rewrite Hop'. destruct (write_ref_ok ts' rest (ip - ref - 1) n Ho Hn) as (rest' & -> & HN''); [rewrite zlen_app in HN'; lia|].
    simpl_bind. replace (ip + 1 + (n - 2) + 1) with (ip + n) by lia.
    assert (forall h v, htab_ok h -> state_inv inp N (Lzf (ip + n) (zlen (enc (ts' ++ [TRef (ip - ref - 1) n])) + 1) 0
      (enc (ts' ++ [TRef (ip - ref - 1) n]) ++ rest') h v)) as Hst.
    { intros h v Hhh. split; [done|]. exists (ts' ++ [TRef (ip - ref - 1) n]), []. cbn [c_ip c_op c_lit c_out]. unfold comp_inv.
      split_and!; try lia; try done.
      - apply tokens_ok_app. split; [done|]. simpl. rewrite Hexp'. split; [|done]. split_and!; try lia.
        unfold zlen in *. rewrite length_take. lia.
      - rewrite expand_app, Hexp', app_nil_r. apply zbetween_take; (lia || done).
      - exists rest'. split; [done|lia]. }
    destruct (Z.leb_spec (zlen inp - 2) (ip + n)) as [Hend|Hend].
    + eexists. split; [done|]. cbn [c_ip]. split_and!; [by apply Hst | unfold MAX_REF in *; lia | lia].
    + destruct (rehash_end_some inp (ip + n) htab' Hh') as (v & h' & -> & Hhh); [lia|]. simpl_bind.
      eexists. split; [done|]. cbn [c_ip]. split_and!; [by apply Hst | lia | done].
  - destruct (Z.leb_spec (zlen out) op) as [Hfull|Hfull]; [by exists None|].
    destruct (literal_ok inp N ip op lit out ts pend Hb Hinv) as (b & out1 & -> & Hst1 & Hcase); [lia..|]. simpl_bind.
    rewrite Hst1. simpl_bind. destruct (lit + 1 =? MAX_LIT).
    + destruct Hcase as (out2 & ts' & -> & Hinv'). simpl_bind. eexists. split; [done|]. cbn [c_ip]. split_and!; [|lia|done].
      split; [done|]. by exists ts', [].
    + destruct Hcase as (ts' & pend' & Hinv'). eexists. split; [done|]. cbn [c_ip]. split_and!; [|lia|done].
      split; [done|]. by exists ts', pend'.
Qed.

Lemma compress_loop_ok fuel : forall inp N st, bytes_ok inp -> zlen inp < 2 ^ 32 -> state_inv inp N st ->
  zlen inp - c_ip st < Z.of_nat fuel ->
  exists r, compress_loop garbage fuel inp st = Some r /\
    match r with None => True | Some st' => state_inv inp N st' /\ zlen inp - 2 <= c_ip st' end.
Proof.
  induction fuel as [|fuel IH]; intros inp N st Hb Hz Hst Hf.
  { destruct Hst as (_ & ts & pend & Hinv). destruct Hinv as (_ & _ & _ & _ & Hip & _). lia. }
  cbn [compress_loop]. destruct (Z.ltb_spec (c_ip st) (zlen inp - 2)) as [Hlt|Hge]; simpl negb; cbv iota; [|by exists (Some st)].
  destruct (compress_step_ok inp N st Hb Hz Hst Hlt) as (r & -> & Hr). simpl_bind.
  destruct r as [[st' [|]]|]; [exists (Some st'); naive_solver | | by exists None].
  destruct Hr as (Hst' & Hip & _). apply (IH inp N st'); [done..|lia].
Qed.

(** [r] bytes are left, and there is room for them and for one more number of literals. *)
Lemma tail_loop_ok fuel : forall inp N ip op lit out ts pend, bytes_ok inp -> comp_inv inp N ip op lit out ts pend ->
  zlen inp - ip <= 2 -> op + (zlen inp - ip) + (if 32 <=? lit + (zlen inp - ip) then 1 else 0) <= N ->
  zlen inp - ip < Z.of_nat fuel ->
  exists op' lit' out' ts' pend', tail_loop fuel inp ip op lit out = Some (op', lit', out') /\
    comp_inv inp N (zlen inp) op' lit' out' ts' pend' /\ op' <= N.
Proof.
  induction fuel as [|fuel IH]; intros inp N ip op lit out ts pend Hb Hinv Hr Hroom Hf; pose proof Hinv as (_ & _ & _ & Hl & Hip & _);
    [lia|]. cbn [tail_loop].
  destruct (Z.ltb_spec ip (zlen inp)) as [Hlt|Hge]; simpl negb; cbv iota.
  2: { exists op, lit, out, ts, pend. assert (ip = zlen inp) as -> by lia. split_and!; [done | done|]. destruct (32 <=? _); lia. }
  destruct (literal_ok inp N ip op lit out ts pend Hb Hinv) as (b & out1 & -> & Hst1 & Hcase); [lia | destruct (32 <=? _); lia|].
  simpl_bind. rewrite Hst1. simpl_bind. cbv zeta. destruct (Z.eqb_spec (lit + 1) MAX_LIT) as [H32|H32]; unfold MAX_LIT in H32.
  - destruct Hcase as (out2 & ts' & -> & Hinv'). simpl_bind.
    replace (32 <=? lit + (zlen inp - ip)) with true in Hroom by lia.
    destruct (IH inp N (ip + 1) (op + 1 + 1) 0 out2 ts' [] Hb Hinv') as (op' & lit' & out' & ts2 & pend2 & -> & H1 & H2);
      [lia | destruct (Z.leb_spec 32 (0 + (zlen inp - (ip + 1)))); lia | lia|]. by exists op', lit', out', ts2, pend2.
  - destruct Hcase as (ts' & pend' & Hinv').
    destruct (IH inp N (ip + 1) (op + 1) (lit + 1) out1 ts' pend' Hb Hinv') as (op' & lit' & out' & ts2 & pend2 & -> & H1 & H2);
      [lia | replace (lit + 1 + (zlen inp - (ip + 1))) with (lit + (zlen inp - ip)) by lia; destruct (32 <=? _); lia | lia|].
    by exists op', lit', out', ts2, pend2.
Qed.

Lemma lzf_compress_ok inp out : bytes_ok inp -> 2 <= zlen inp < 2 ^ 32 ->
  exists n out', lzf_compress garbage inp out = Some (n, out') /\ 0 <= n <= zlen out /\
    (n <> 0 -> zlen out' = zlen out /\ exists ts, take (Z.to_nat n) out' = enc ts /\ tokens_ok [] ts /\ expand [] ts = inp).
Proof.
  intros Hb Hz. unfold lzf_compress. assert (exists n out', Some (0, []) = Some (n, out') /\ 0 <= n <= zlen out /\
    (n <> 0 -> zlen out' = zlen out /\ exists ts, take (Z.to_nat n) out' = enc ts /\ tokens_ok [] ts /\ expand [] ts = inp)) as Hzero.
  { exists 0, []. pose proof (zlen_nonneg out). split_and!; (done || lia). }
  destruct ((zlen inp =? 0) || (zlen out =? 0)) eqn:H0; [done|]. apply orb_false_iff in H0 as [_ H0%Z.eqb_neq]. pose proof (zlen_nonneg out).
  assert (exists hv, FRST inp 0 = Some hv) as [hv ->].
  { unfold FRST. destruct (load8_some inp 0) as [a ->]; [lia|]. destruct (load8_some inp (0 + 1)) as [b ->]; [lia|]. by eexists. }
  simpl_bind. destruct (compress_loop_ok (S (length inp)) inp (zlen out) (Lzf 0 1 0 out ∅ hv)) as (r & -> & Hr); [done | lia | | cbn [c_ip]; unfold zlen; lia|].
  { split; [intros k v Hk; cbn [c_htab] in Hk; by rewrite lookup_empty in Hk|]. exists [], []. cbn [c_ip c_op c_lit c_out]. unfold comp_inv.
    split_and!; try done; try lia. exists out. split; [done|lia]. }
  simpl_bind. destruct r as [[ip op lit out1 h v]|]; [|done]. destruct Hr as [(_ & ts & pend & Hinv) Hend]. cbn [c_ip c_op c_lit c_out] in *.
  pose proof Hinv as (_ & _ & _ & Hl & Hip & HN & _). rewrite HN. destruct (Z.ltb_spec (zlen out) (op + 3)) as [Hlt|Hge]; [done|].
  destruct (tail_loop_ok (S (length inp)) inp (zlen out) ip op lit out1 ts pend Hb Hinv) as (op' & lit' & out' & ts' & pend' & -> & Hinv' & Hop);
    [lia | destruct (32 <=? _); lia | unfold zlen; unfold zlen in Hip; lia|]. simpl_bind.
  destruct (stop_run_ok inp (zlen out) (zlen inp) op' lit' out' ts' pend' Hb Hinv' Hop) as (ts2 & rest & -> & Hok & Hexp & Hop' & HN').
  simpl_bind. rewrite Hop'. exists (zlen (enc ts2)), (enc ts2 ++ rest). split; [done|]. split; [rewrite zlen_app in HN'; pose proof (zlen_nonneg rest); pose proof (zlen_nonneg (enc ts2)); lia|].
  intros _. split; [done|]. exists ts2. split_and!; [|done|].
  - unfold zlen. by rewrite Nat2Z.id, take_app_length.
  - rewrite Hexp. unfold zlen. by rewrite Nat2Z.id, firstn_all.
Qed.

(** C22. Compression reads only its input and writes only its output, whatever the hash table contains at the
    beginning; it returns 0 or the length of the compressed data, and then decompressing these bytes into
    a buffer of the length of the input gives the input back. *)
Theorem lzf_roundtrip inp out : bytes_ok inp -> 2 <= zlen inp < 2 ^ 32 ->
  exists n out', lzf_compress garbage inp out = Some (n, out') /\ 0 <= n <= zlen out /\
    (n <> 0 -> zlen out' = zlen out /\
      forall buf, zlen buf = zlen inp -> lzf_decompress (take (Z.to_nat n) out') buf = Some (zlen inp, inp)).
Proof.
  intros Hb Hz. destruct (lzf_compress_ok inp out Hb Hz) as (n & out' & He & Hn & Hok). exists n, out'. split_and!; try done; try lia.
  intros H0. destruct (Hok H0) as (Hlen & ts & -> & Hts & Hexp). split; [done|]. intros buf Hbuf.
  rewrite lzf_decompress_tokens; rewrite ?Hexp, ?Hbuf; done.
Qed.

End compress_facts.

(** ** Witnesses *)

Definition w_text : list Z := str "abcabcabcabcabcabcabcabcabcabcabcabc".

Lemma lzf_decompress_safe_witness : exists n out', lzf_decompress [255; 255; 3] [0; 0; 0] = Some (n, out') /\ 0 <= n <= 3.
Proof.
  destruct (lzf_decompress_safe [255; 255; 3] [0; 0; 0]) as (n & out' & H & Hn & _).
  - apply (bool_decide_unpack _). vm_compute. exact I.
  - exists n, out'. split; [exact H|exact Hn].
Defined.

Lemma lzf_roundtrip_witness : exists n out', lzf_compress (fun i => i) w_text (repeat 0 32) = Some (n, out') /\ n <> 0 /\
  lzf_decompress (take (Z.to_nat n) out') (repeat 0 36) = Some (36, w_text).
Proof.
  destruct (lzf_roundtrip (fun i => i) w_text (repeat 0 32)) as (n & out' & H & Hn & Hr).
  - apply bytes_ok_str.
  - split; [discriminate|reflexivity].
  - exists n, out'. split; [exact H|].
    assert (option_map fst (lzf_compress (fun i => i) w_text (repeat 0 32)) = Some 11) as H8 by (vm_compute; reflexivity).
    rewrite H in H8. injection H8 as ->.
    split; [discriminate|]. apply Hr; [discriminate|reflexivity].
Defined.
