(* ===== verification/Rio.v ===== *)
(** * Rio: the stream abstraction of rio.h and rio.c

    A [rio] is a record of back-end state, error flags, checksum and counters; rioRead() and rioWrite() cut
    a transfer into chunks and stop at the first error, which is sticky.  The back end is a typeclass of
    operations ([RioIO]); [RioSpec] states what the format code of Rdb.v relies on.  The in-memory buffer
    and the stdio file of rio.c are its instances. *)
From S2P Require Import Prelude.

(** ** Back ends *)

(** [io_read s n] is the bytes read, or [None] when the function pointer returns 0. *)
Class RioIO (S : Type) := {
  io_read : S -> Z -> option (list Z) * S;
  io_write : S -> list Z -> bool * S;
}.

(** A back end as a sequence of bytes: what has been written so far, and, in a state fit for reading, what
    remains to be read. *)
Class RioSpec (S : Type) `{RioIO S} := {
  io_written : S -> list Z;
  io_readable : S -> Prop;
  io_unread : S -> list Z;
  io_write_ok s bs s' : io_write s bs = (true, s') -> io_written s' = io_written s ++ bs;
  io_write_err s bs s' : io_write s bs = (false, s') -> io_written s `prefix_of` io_written s';
  io_read_ok s n : io_readable s -> 0 < n <= zlen (io_unread s) ->
    exists s', io_read s n = (Some (take (Z.to_nat n) (io_unread s)), s') /\ io_readable s' /\
      io_unread s' = drop (Z.to_nat n) (io_unread s);
  io_read_short s n : io_readable s -> zlen (io_unread s) < n -> exists s', io_read s n = (None, s');
}.

(** ** struct _rio *)

Definition RIO_FLAG_READ_ERROR : Z := 1.
Definition RIO_FLAG_WRITE_ERROR : Z := 2.

Record rio (S : Type) := Rio {
  r_io : S;
  r_update_cksum : option (Z -> list Z -> Z);
  r_cksum : Z;
  r_flags : Z;
  r_processed_bytes : Z;
  r_max_processing_chunk : Z;
}.
Arguments Rio {S} _ _ _ _ _ _.
Arguments r_io {S} _.
Arguments r_update_cksum {S} _.
Arguments r_cksum {S} _.
Arguments r_flags {S} _.
Arguments r_processed_bytes {S} _.
Arguments r_max_processing_chunk {S} _.

Definition set_io {S} (r : rio S) (s : S) : rio S :=
  Rio s (r_update_cksum r) (r_cksum r) (r_flags r) (r_processed_bytes r) (r_max_processing_chunk r).
Definition set_flag {S} (r : rio S) (f : Z) : rio S :=
  Rio (r_io r) (r_update_cksum r) (r_cksum r) (Z.lor (r_flags r) f) (r_processed_bytes r) (r_max_processing_chunk r).
Definition add_processed {S} (r : rio S) (n : Z) : rio S :=
  Rio (r_io r) (r_update_cksum r) (r_cksum r) (r_flags r) (u64 (r_processed_bytes r + n)) (r_max_processing_chunk r).

(** [if (r->update_cksum) r->update_cksum(r,buf,len)] *)
Definition do_cksum {S} (r : rio S) (buf : list Z) : rio S :=
  match r_update_cksum r with
  | None => r
  | Some f => Rio (r_io r) (Some f) (f (r_cksum r) buf) (r_flags r) (r_processed_bytes r) (r_max_processing_chunk r)
  end.

Definition rioGetReadError {S} (r : rio S) : bool := negb (Z.land (r_flags r) RIO_FLAG_READ_ERROR =? 0).
Definition rioGetWriteError {S} (r : rio S) : bool := negb (Z.land (r_flags r) RIO_FLAG_WRITE_ERROR =? 0).

(** The number of bytes of the next chunk of a transfer of [len] bytes. *)
Definition chunk {S} (r : rio S) (len : Z) : Z :=
  let m := r_max_processing_chunk r in
  if negb (m =? 0) && (m <? len) then m else len.

Section rio.
Context {S : Type} `{RioIO S}.

Fixpoint rioWrite_loop (fuel : nat) (r : rio S) (buf : list Z) : option (Z * rio S) :=
  match fuel with
  | O => None
  | Datatypes.S fuel =>
      if zlen buf =? 0 then Some (1, r)
      else
        let n := chunk r (zlen buf) in
        let now := take (Z.to_nat n) buf in
        let r := do_cksum r now in
        let '(ok, s) := io_write (r_io r) now in
        let r := set_io r s in
        if negb ok then Some (0, set_flag r RIO_FLAG_WRITE_ERROR)
        else rioWrite_loop fuel (add_processed r n) (drop (Z.to_nat n) buf)
  end.

(** The fuel is one more than the number of bytes: every chunk transfers at least one. *)
Definition rioWrite (r : rio S) (buf : list Z) : option (Z * rio S) :=
  if rioGetWriteError r then Some (0, r) else rioWrite_loop (Datatypes.S (length buf)) r buf.

(** The bytes read so far are [acc]; an error leaves a buffer that no caller looks at. *)
Fixpoint rioRead_loop (fuel : nat) (r : rio S) (acc : list Z) (len : Z) : option (option (list Z) * rio S) :=
  match fuel with
  | O => None
  | Datatypes.S fuel =>
      if len =? 0 then Some (Some acc, r)
      else
        let n := chunk r len in
        let '(res, s) := io_read (r_io r) n in
        let r := set_io r s in
        match res with
        | None => Some (None, set_flag r RIO_FLAG_READ_ERROR)
        | Some bs => rioRead_loop fuel (add_processed (do_cksum r bs) n) (acc ++ bs) (len - n)
        end
  end.

Definition rioRead (r : rio S) (len : Z) : option (option (list Z) * rio S) :=
  if rioGetReadError r then Some (None, r) else rioRead_loop (Datatypes.S (Z.to_nat len)) r [] len.

End rio.

(** ** The in-memory buffer *)

Record rio_buffer := RioBuffer { b_ptr : list Z; b_pos : Z }.

Definition rioBufferWrite (b : rio_buffer) (buf : list Z) : bool * rio_buffer :=
  (true, RioBuffer (b_ptr b ++ buf) (b_pos b + zlen buf)).

Definition rioBufferRead (b : rio_buffer) (len : Z) : option (list Z) * rio_buffer :=
  if u64 (zlen (b_ptr b) - b_pos b) <? len then (None, b)
  else (Some (take (Z.to_nat len) (drop (Z.to_nat (b_pos b)) (b_ptr b))), RioBuffer (b_ptr b) (b_pos b + len)).

Definition rioInitWithBuffer (s : list Z) : rio rio_buffer := Rio (RioBuffer s 0) None 0 0 0 0.

#[export] Instance buffer_io : RioIO rio_buffer := { io_read := rioBufferRead; io_write := rioBufferWrite }.

(** ** The stdio file *)

(** A stdio stream over a device that takes [f_room] more bytes: fwrite() stores as many as fit and reports
    a short write as 0 items; [f_sync_ok] tells whether fsync() succeeds. *)
Record FILE := File { f_data : list Z; f_pos : Z; f_room : Z; f_sync_ok : bool }.

Definition fwrite (f : FILE) (buf : list Z) : bool * FILE :=
  let now := take (Z.to_nat (f_room f)) buf in
  (zlen buf <=? f_room f, File (f_data f ++ now) (f_pos f) (f_room f - zlen now) (f_sync_ok f)).

Definition fread (f : FILE) (len : Z) : option (list Z) * FILE :=
  let now := take (Z.to_nat len) (drop (Z.to_nat (f_pos f)) (f_data f)) in
  (if zlen now =? len then Some now else None, File (f_data f) (f_pos f + zlen now) (f_room f) (f_sync_ok f)).

Record rio_file := RioFile { f_fp : FILE; f_buffered : Z; f_autosync : Z }.

Definition rioFileWrite (r : rio_file) (buf : list Z) : bool * rio_file :=
  let '(retval, fp) := fwrite (f_fp r) buf in
  let buffered := f_buffered r + zlen buf in
  if negb (f_autosync r =? 0) && (f_autosync r <=? buffered) then
    if negb (f_sync_ok fp) then (false, RioFile fp buffered (f_autosync r))
    else (retval, RioFile fp 0 (f_autosync r))
  else (retval, RioFile fp buffered (f_autosync r)).

Definition rioFileRead (r : rio_file) (len : Z) : option (list Z) * rio_file :=
  let '(res, fp) := fread (f_fp r) len in (res, RioFile fp (f_buffered r) (f_autosync r)).

Definition rioInitWithFile (fp : FILE) : rio rio_file := Rio (RioFile fp 0 0) None 0 0 0 0.

Definition rioSetAutoSync (r : rio rio_file) (bytes : Z) : rio rio_file :=
  set_io r (RioFile (f_fp (r_io r)) (f_buffered (r_io r)) bytes).

#[export] Instance file_io : RioIO rio_file := { io_read := rioFileRead; io_write := rioFileWrite }.

(** ** The back ends are sequences of bytes *)

#[export, refine] Instance buffer_spec : RioSpec rio_buffer := {
  io_written b := b_ptr b;
  io_readable b := 0 <= b_pos b <= zlen (b_ptr b) /\ zlen (b_ptr b) < 2 ^ 64;
  io_unread b := drop (Z.to_nat (b_pos b)) (b_ptr b);
}.
Proof.
  - by intros s bs s' [= <-].
  - by intros s bs s' [=].
  - intros [p pos] n [Hpos Hlen] Hn. cbn [b_ptr b_pos io_read buffer_io] in *. unfold zlen in *. rewrite length_drop in Hn.
    unfold rioBufferRead, zlen. cbn [b_ptr b_pos]. rewrite uwrap_small, (proj2 (Z.ltb_ge _ _)) by lia.
    eexists. split; [done|]. cbn [b_ptr b_pos]. split; [lia|]. rewrite drop_drop. f_equal. lia.
  - intros [p pos] n [Hpos Hlen] Hn. cbn [b_ptr b_pos io_read buffer_io] in *. unfold zlen in *. rewrite length_drop in Hn.
    unfold rioBufferRead, zlen. cbn [b_ptr b_pos]. rewrite uwrap_small, (proj2 (Z.ltb_lt _ _)) by lia. by eexists.
Defined.

Lemma fwrite_ok f buf ok f' : fwrite f buf = (ok, f') -> f_data f `prefix_of` f_data f' /\ (ok = true -> f_data f' = f_data f ++ buf).
Proof.
  unfold fwrite. intros [= <- <-]. cbn [f_data]. split; [by eexists|]. intros Hle%Z.leb_le. rewrite take_ge; [done|]. unfold zlen in Hle. lia.
Qed.

#[export, refine] Instance file_spec : RioSpec rio_file := {
  io_written f := f_data (f_fp f);
  io_readable f := 0 <= f_pos (f_fp f);
  io_unread f := drop (Z.to_nat (f_pos (f_fp f))) (f_data (f_fp f));
}.
Proof.
  - intros s bs s'. cbn [io_write file_io]. unfold rioFileWrite. destruct (fwrite _ _) as [ok fp] eqn:Hf. apply fwrite_ok in Hf as [_ Hf].
    destruct (_ && _); [destruct (negb _); [done|]|]; intros [= -> <-]; by apply Hf.
  - intros s bs s'. cbn [io_write file_io]. unfold rioFileWrite. destruct (fwrite _ _) as [ok fp] eqn:Hf. apply fwrite_ok in Hf as [Hf _].
    destruct (_ && _); [destruct (negb _)|]; intros [= -> <-] || intros [= <-]; apply Hf.
  - intros [[d pos room ok] bu au] n Hpos Hn. cbn [f_fp f_data f_pos io_read file_io] in *. unfold rioFileRead, fread. cbn [f_fp f_data f_pos f_room f_sync_ok f_buffered f_autosync].
    set (rest := drop (Z.to_nat pos) d) in *. assert (zlen (take (Z.to_nat n) rest) = n) as Hz. { unfold zlen in *. rewrite length_take. lia. }
    rewrite Hz, Z.eqb_refl. eexists. split; [done|]. cbn [f_fp f_data f_pos]. split; [lia|]. unfold rest. rewrite drop_drop. f_equal. lia.
  - intros [[d pos room ok] bu au] n Hpos Hn. cbn [f_fp f_data f_pos io_read file_io] in *. unfold rioFileRead, fread. cbn [f_fp f_data f_pos f_room f_sync_ok f_buffered f_autosync].
    rewrite (proj2 (Z.eqb_neq _ _)); [by eexists|]. unfold zlen in *. rewrite length_take. lia.
Defined.

(** ** Whole transfers *)

Section facts.
Context {S : Type} `{RioSpec S}.
Implicit Types r : rio S.

Definition written r : list Z := io_written (r_io r).
Definition unread r : list Z := io_unread (r_io r).

(** A stream that can be read: no error so far. *)
Definition readable r : Prop := io_readable (r_io r) /\ rioGetReadError r = false /\ 0 <= r_max_processing_chunk r.

Lemma chunk_range r len : 0 < len -> 0 <= r_max_processing_chunk r -> 0 < chunk r len <= len.
Proof.
  intros Hl Hm. unfold chunk. destruct (Z.eqb_spec (r_max_processing_chunk r) 0), (Z.ltb_spec (r_max_processing_chunk r) len); cbn [negb andb]; lia.
Qed.

Lemma do_cksum_same r bs : r_io (do_cksum r bs) = r_io r /\ r_flags (do_cksum r bs) = r_flags r /\
  r_max_processing_chunk (do_cksum r bs) = r_max_processing_chunk r.
Proof. unfold do_cksum. destruct (r_update_cksum r); done. Qed.

Lemma write_error_set r : rioGetWriteError (set_flag r RIO_FLAG_WRITE_ERROR) = true.
Proof.
  unfold rioGetWriteError, set_flag, RIO_FLAG_WRITE_ERROR. cbn [r_flags]. apply negb_true_iff, Z.eqb_neq. intros He.
  assert (Z.testbit (Z.land (Z.lor (r_flags r) 2) 2) 1 = false) as Hb by by rewrite He, Z.bits_0.
  rewrite Z.land_spec, Z.lor_spec in Hb. change (Z.testbit 2 1) with true in Hb. by rewrite orb_true_r in Hb.
Qed.

Lemma read_error_set r : rioGetReadError (set_flag r RIO_FLAG_READ_ERROR) = true.
Proof.
  unfold rioGetReadError, set_flag, RIO_FLAG_READ_ERROR. cbn [r_flags]. apply negb_true_iff, Z.eqb_neq. intros He.
  assert (Z.testbit (Z.land (Z.lor (r_flags r) 1) 1) 0 = false) as Hb by by rewrite He, Z.bits_0.
  rewrite Z.land_spec, Z.lor_spec in Hb. change (Z.testbit 1 0) with true in Hb. by rewrite orb_true_r in Hb.
Qed.

(** What a call that writes [bs] does: all of it, or an error that stays. *)
Definition wrote r (bs : list Z) r' : Prop := written r' = written r ++ bs /\ r_flags r' = r_flags r /\
  r_max_processing_chunk r' = r_max_processing_chunk r.
Definition write_failed r r' : Prop := rioGetWriteError r' = true /\ written r `prefix_of` written r'.

Lemma rioWrite_loop_ok fuel : forall r buf, 0 <= r_max_processing_chunk r -> (length buf < fuel)%nat ->
  exists ret r', rioWrite_loop fuel r buf = Some (ret, r') /\ (ret = 1 /\ wrote r buf r' \/ ret = 0 /\ write_failed r r').
Proof.
  induction fuel as [|fuel IH]; intros r buf Hm Hf; [lia|]. cbn [rioWrite_loop].
  destruct (Z.eqb_spec (zlen buf) 0) as [->%zlen_eq_nil|Hz].
  { exists 1, r. split; [done|]. left. unfold wrote. by rewrite app_nil_r. }
  pose proof (zlen_nonneg buf). pose proof (chunk_range r (zlen buf) ltac:(lia) Hm) as Hc. set (n := chunk r (zlen buf)) in *.
  destruct (do_cksum_same r (take (Z.to_nat n) buf)) as (Hio & Hfl & Hmx). rewrite Hio.
  destruct (io_write (r_io r) _) as [[] s] eqn:Hw; cbn [negb].
  - apply io_write_ok in Hw. destruct (IH (add_processed (set_io (do_cksum r (take (Z.to_nat n) buf)) s) n) (drop (Z.to_nat n) buf)) as (ret & r' & -> & Hr).
    + cbn. lia.
    + rewrite length_drop. unfold zlen in *. lia.
    + exists ret, r'. split; [done|]. unfold wrote, write_failed, written in *. cbn [r_io r_flags r_max_processing_chunk add_processed set_io] in Hr.
      rewrite Hw, Hfl, Hmx in Hr. destruct Hr as [(-> & Hwr & ?)|(-> & ? & Hp)]; [left|right]; split_and!; try done; try tauto.
      * by rewrite Hwr, <- app_assoc, take_drop.
      * etransitivity; [|exact Hp]. by eexists.
  - apply io_write_err in Hw. eexists 0, _. split; [done|]. right. split; [done|]. split; [apply write_error_set|]. done.
Qed.

(** rioWrite() transfers all the bytes or sets the error flag; once it is set nothing is written any more. *)
Lemma rioWrite_ok r buf : 0 <= r_max_processing_chunk r ->
  exists ret r', rioWrite r buf = Some (ret, r') /\ (ret = 1 /\ wrote r buf r' \/ ret = 0 /\ write_failed r r').
Proof.
  intros Hm. unfold rioWrite. destruct (rioGetWriteError r) eqn:He; [|apply rioWrite_loop_ok; [done|lia]].
  exists 0, r. split; [done|]. right. split; [done|]. by split.
Qed.

(** What a call that reads [bs] does. *)
Definition read_bytes r (bs : list Z) r' : Prop := readable r' /\ unread r = bs ++ unread r'.


Lemma rioRead_step r n : readable r -> 0 < n <= zlen (unread r) -> exists s,
  io_read (r_io r) n = (Some (take (Z.to_nat n) (unread r)), s) /\
  let r' := add_processed (do_cksum (set_io r s) (take (Z.to_nat n) (unread r))) n in
  readable r' /\ unread r' = drop (Z.to_nat n) (unread r).
Proof.
  intros (Hio & He & Hm) Hn. destruct (io_read_ok (r_io r) n Hio Hn) as (s & Hs & Hs1 & Hs2). exists s. split; [done|].
  destruct (do_cksum_same (set_io r s) (take (Z.to_nat n) (unread r))) as (E1 & E2 & E3).
  unfold readable, unread, rioGetReadError in *. cbn [add_processed r_io r_flags r_max_processing_chunk].
  rewrite E1, E2, E3. by split_and!.
Qed.

Lemma rioRead_loop_ok fuel : forall r acc bs rest, readable r -> unread r = bs ++ rest -> (length bs < fuel)%nat ->
  exists r', rioRead_loop fuel r acc (zlen bs) = Some (Some (acc ++ bs), r') /\ readable r' /\ unread r' = rest.
Proof.
  induction fuel as [|fuel IH]; intros r acc bs rest Hr Hu Hf; [lia|]. cbn [rioRead_loop].
  destruct (Z.eqb_spec (zlen bs) 0) as [->%zlen_eq_nil|Hz]; [exists r; by rewrite app_nil_r|]. pose proof (zlen_nonneg bs).
  pose proof (chunk_range r (zlen bs) ltac:(lia) ltac:(apply Hr)) as Hc. set (n := chunk r (zlen bs)) in *.
  destruct (rioRead_step r n Hr) as (s & -> & Hr' & Hu'); [rewrite Hu, zlen_app; pose proof (zlen_nonneg rest); lia|].
  rewrite Hu in *. rewrite take_app_le in * by (unfold zlen in *; lia). rewrite drop_app_le in Hu' by (unfold zlen in *; lia).
  destruct (IH _ (acc ++ take (Z.to_nat n) bs) _ _ Hr' Hu') as (r' & Hl & ?); [rewrite length_drop; unfold zlen in *; lia|].
  exists r'. split; [|done]. replace (zlen bs - n) with (zlen (drop (Z.to_nat n) bs)) by (unfold zlen in *; rewrite length_drop; lia).
  by rewrite Hl, <- app_assoc, take_drop.
Qed.

Lemma rioRead_loop_short fuel : forall r acc len, readable r -> zlen (unread r) < len -> len < Z.of_nat fuel ->
  exists r', rioRead_loop fuel r acc len = Some (None, r') /\ rioGetReadError r' = true.
Proof.
  induction fuel as [|fuel IH]; intros r acc len Hr Hl Hf; [pose proof (zlen_nonneg (unread r)); lia|]. cbn [rioRead_loop].
  pose proof (zlen_nonneg (unread r)). rewrite (proj2 (Z.eqb_neq len 0)) by lia.
  pose proof (chunk_range r len ltac:(lia) ltac:(apply Hr)) as Hc. set (n := chunk r len) in *.
  destruct (Z.le_gt_cases n (zlen (unread r))) as [Hn|Hn].
  - destruct (rioRead_step r n Hr) as (s & -> & Hr' & Hu'); [lia|]. apply IH; [done | | lia].
    rewrite Hu'. unfold zlen in *. rewrite length_drop. lia.
  - destruct (io_read_short (r_io r) n) as [s ->]; [apply Hr | done|]. eexists. split; [done|]. apply read_error_set.
Qed.

(** rioRead() of bytes that are there. *)
Lemma rioRead_ok r bs rest : readable r -> unread r = bs ++ rest ->
  exists r', rioRead r (zlen bs) = Some (Some bs, r') /\ readable r' /\ unread r' = rest.
Proof.
  intros Hr Hu. unfold rioRead. destruct Hr as (? & He & ?). rewrite He. apply (rioRead_loop_ok _ r []); [done.. | unfold zlen; lia].
Qed.

(** rioRead() of more bytes than there are. *)
Lemma rioRead_short r len : readable r -> zlen (unread r) < len ->
  exists r', rioRead r len = Some (None, r') /\ rioGetReadError r' = true.
Proof.
  intros Hr Hl. unfold rioRead. destruct (rioGetReadError r) eqn:He; [by exists r|].
  apply rioRead_loop_short; [done | done | lia].
Qed.

(** rioRead() in general. *)
Lemma rioRead_cases r len : readable r -> 0 <= len ->
  (exists bs r', zlen bs = len /\ rioRead r len = Some (Some bs, r') /\ readable r' /\ unread r = bs ++ unread r') \/
  (exists r', rioRead r len = Some (None, r') /\ rioGetReadError r' = true).
Proof.
  intros Hr Hl. destruct (Z.le_gt_cases len (zlen (unread r))) as [Hle|]; [left|right; by apply rioRead_short].
  destruct (split_at_len (unread r) len) as (bs & rest & Hu & Hb & _); [lia|].
  destruct (rioRead_ok r bs rest Hr Hu) as (r' & Hrd & Hr' & Hu'). exists bs, r'. rewrite Hu', <- Hb. by split_and!.
Qed.

End facts.
