(* ===== verification/Rdb.v ===== *)
(** * Rdb: lengths, integers and strings of the RDB format (rdb.c)

    The writers take a stream that may be NULL ([None]), in which case they only compute the number of bytes.
    The loaders run in a monad over the stream whose outcomes are a value (NULL and -1 are values), the end of
    the process by exit(1), and a failed assertion; memory errors are [None] as everywhere.  LZF is used
    through the interface [LzfSpec], which Lzf.v implements. *)
From S2P Require Import Prelude.
From S2P Require Import Util.
From S2P Require Import Sds.
From S2P Require Import SdsNum.
From S2P Require Import Lzf.
From S2P Require Import Rio.

(** ** Constants *)

Definition RDB_6BITLEN : Z := 0.
Definition RDB_14BITLEN : Z := 1.
Definition RDB_32BITLEN : Z := 128.
Definition RDB_64BITLEN : Z := 129.
Definition RDB_ENCVAL : Z := 3.
Definition RDB_LENERR : Z := ULLONG_MAX.
Definition RDB_ENC_INT8 : Z := 0.
Definition RDB_ENC_INT16 : Z := 1.
Definition RDB_ENC_INT32 : Z := 2.
Definition RDB_ENC_LZF : Z := 3.

(** ** The interface of the compressor *)

(** The lengths are those of the lists: the callers cut them to [unsigned int]. *)
Class LzfSpec (compress decompress : list Z -> list Z -> option (Z * list Z)) : Prop := {
  compress_ok inp out : bytes_ok inp -> 2 <= zlen inp < 2 ^ 32 -> exists n out', compress inp out = Some (n, out') /\
    0 <= n <= zlen out /\ (n <> 0 -> bytes_ok (take (Z.to_nat n) out') /\ n <= zlen out' /\
      forall buf, zlen buf = zlen inp -> decompress (take (Z.to_nat n) out') buf = Some (zlen inp, inp));
  decompress_safe inp out : bytes_ok inp ->
    exists n out', decompress inp out = Some (n, out') /\ 0 <= n <= zlen out /\ zlen out' = zlen out;
}.

(** ** Standard C library *)

(** The memory from a pointer on is a list; reading past its end is an error. *)
Fixpoint skip_spaces (s : list Z) (i : Z) : option (list Z * Z) :=
  match s with
  | [] => None
  | c :: s' => if isspace c then skip_spaces s' (i + 1) else Some (s, i)
  end.

(** The value of the digits that follow, not bounded, and the offset of the end. *)
Fixpoint scan_digits (s : list Z) (acc i : Z) : option (Z * Z) :=
  match s with
  | [] => None
  | c :: s' => if (chr "0" <=? c) && (c <=? chr "9") then scan_digits s' (acc * 10 + (c - chr "0")) (i + 1) else Some (acc, i)
  end.

(** strtoll(s, &endptr, 10): the value and the offset of endptr. *)
Definition strtoll (s : list Z) : option (Z * Z) :=
  '(p, i) ← skip_spaces s 0;
  c ← head p;
  let neg := c =? chr "-" in
  let '(p, i) := if neg || (c =? chr "+") then (tail p, i + 1) else (p, i) in
  '(v, e) ← scan_digits p 0 i;
  if e =? i then Some (0, 0)
  else if neg then Some (Z.max LLONG_MIN (- v), e) else Some (Z.min LLONG_MAX v, e).

Fixpoint strlen (s : list Z) : option Z :=
  match s with
  | [] => None
  | c :: s => if c =? 0 then Some 0 else n ← strlen s; Some (n + 1)
  end.

(** ** Writers *)

Section save.
Context {S : Type} `{RioIO S} `{Allocator}.
Context (compress : list Z -> list Z -> option (Z * list Z)).

(** A function that returns a signed size, -1 on error. *)
Definition W : Type := option (rio S) -> option (Z * option (rio S)).

Definition w_ret (n : Z) : W := fun rdb => Some (n, rdb).

(** [if ((n = f) == -1) return -1; k n] *)
Definition w_bind (f : W) (k : Z -> W) : W := fun rdb =>
  '(n, rdb) ← f rdb; if n =? -1 then Some (-1, rdb) else k n rdb.

Definition rdbWriteRaw (p : list Z) : W := fun rdb =>
  match rdb with
  | None => Some (zlen p, None)
  | Some r => '(ret, r) ← rioWrite r p; Some (if ret =? 0 then -1 else zlen p, Some r)
  end.

Definition rdbSaveType (type : Z) : W := rdbWriteRaw [u8 type].

Definition rdbSaveMillisecondTime (t : Z) : W := rdbWriteRaw (le_encode 8 t).

(** htonl() and htonu64() on a little-endian machine, then the bytes in memory: most significant first. *)
Definition be_bytes (n : nat) (z : Z) : list Z := reverse (le_encode n z).

Definition rdbSaveLen (len : Z) : W :=
  if len <? Z.shiftl 1 6 then
    w_bind (rdbWriteRaw [Z.lor (Z.land len 255) (Z.shiftl RDB_6BITLEN 6)]) (fun _ => w_ret 1)
  else if len <? Z.shiftl 1 14 then
    w_bind (rdbWriteRaw [Z.lor (Z.land (Z.shiftr len 8) 255) (Z.shiftl RDB_14BITLEN 6); Z.land len 255]) (fun _ => w_ret 2)
  else if len <=? UINT32_MAX then
    w_bind (rdbWriteRaw [RDB_32BITLEN]) (fun _ => w_bind (rdbWriteRaw (be_bytes 4 len)) (fun _ => w_ret (1 + 4)))
  else
    w_bind (rdbWriteRaw [RDB_64BITLEN]) (fun _ => w_bind (rdbWriteRaw (be_bytes 8 len)) (fun _ => w_ret (1 + 8))).

(** The bytes stored in [enc]; none when the function returns 0. *)
Definition rdbEncodeInteger (value : Z) : list Z :=
  if (- Z.shiftl 1 7 <=? value) && (value <=? Z.shiftl 1 7 - 1) then
    [Z.lor (Z.shiftl RDB_ENCVAL 6) RDB_ENC_INT8; Z.land value 255]
  else if (- Z.shiftl 1 15 <=? value) && (value <=? Z.shiftl 1 15 - 1) then
    [Z.lor (Z.shiftl RDB_ENCVAL 6) RDB_ENC_INT16; Z.land value 255; Z.land (Z.shiftr value 8) 255]
  else if (- Z.shiftl 1 31 <=? value) && (value <=? Z.shiftl 1 31 - 1) then
    [Z.lor (Z.shiftl RDB_ENCVAL 6) RDB_ENC_INT32; Z.land value 255; Z.land (Z.shiftr value 8) 255;
     Z.land (Z.shiftr value 16) 255; Z.land (Z.shiftr value 24) 255]
  else [].

Definition rdbTryIntegerEncoding (s : list Z) (len : Z) : option (list Z) :=
  '(value, e) ← strtoll s;
  c ← load8 s e;
  if negb (c =? 0) then Some []
  else
    '(buf, _) ← ll2string (junk_bytes 0 32) 32 value;
    l ← strlen buf;
    if negb (l =? len) then Some []
    else
      a ← mem_load buf 0 len;
      b ← mem_load s 0 len;
      if negb (bool_decide (a = b)) then Some [] else Some (rdbEncodeInteger value).

Definition rdbSaveLzfBlob (data : list Z) (compress_len original_len : Z) : W :=
  w_bind (rdbWriteRaw [Z.lor (Z.shiftl RDB_ENCVAL 6) RDB_ENC_LZF]) (fun n1 =>
  w_bind (rdbSaveLen compress_len) (fun n2 =>
  w_bind (rdbSaveLen original_len) (fun n3 =>
  w_bind (fun rdb => d ← mem_load data 0 compress_len; rdbWriteRaw d rdb) (fun n4 =>
  w_ret (n1 + n2 + n3 + n4))))).

(** The lengths given to lzf_compress() are converted to [unsigned int]. *)
Definition rdbSaveLzfStringObject (s : list Z) (len : Z) : W := fun rdb =>
  if len <=? 4 then Some (0, rdb)
  else
    let outlen := len - 4 in
    let out := junk_bytes 0 (Z.to_nat (outlen + 1)) in
    inp ← mem_load s 0 (u32 len);
    obuf ← mem_load out 0 (u32 outlen);
    '(comprlen, out) ← compress inp obuf;
    if comprlen =? 0 then Some (0, rdb) else rdbSaveLzfBlob out comprlen len rdb.

(** [s] is the memory from the pointer on, [len] the length of the string. *)
Definition rdbSaveRawString (rdb_compression : bool) (s : list Z) (len : Z) : W := fun rdb =>
  enc ← (if len <=? 11 then rdbTryIntegerEncoding s len else Some []);
  if 0 <? zlen enc then w_bind (rdbWriteRaw enc) (fun _ => w_ret (zlen enc)) rdb
  else
    '(n, rdb) ← (if rdb_compression && (20 <? len) then rdbSaveLzfStringObject s len rdb else Some (0, rdb));
    if n =? -1 then Some (-1, rdb)
    else if 0 <? n then Some (n, rdb)
    else
      w_bind (rdbSaveLen len) (fun n =>
        if 0 <? len then w_bind (fun rdb => d ← mem_load s 0 len; rdbWriteRaw d rdb) (fun _ => w_ret (n + len))
        else w_ret n) rdb.

Definition rdbSaveLongLongAsStringObject (value : Z) : W := fun rdb =>
  let enc := rdbEncodeInteger value in
  if 0 <? zlen enc then rdbWriteRaw enc rdb
  else
    '(buf, enclen) ← ll2string (junk_bytes 0 32) 32 value;
    if negb (enclen <? 32) then None
    else w_bind (rdbSaveLen enclen) (fun n1 => w_bind (fun rdb => d ← mem_load buf 0 enclen; rdbWriteRaw d rdb) (fun n2 => w_ret (n1 + n2))) rdb.

End save.

(** ** String objects *)

Inductive robj_string :=
| OBJ_ENCODING_RAW (s : list Z)
| OBJ_ENCODING_EMBSTR (s : list Z)
| OBJ_ENCODING_INT (v : Z).

Definition rdbSaveStringObject {S} `{RioIO S} `{Allocator} compress rdb_compression (obj : robj_string) : @W S :=
  match obj with
  | OBJ_ENCODING_INT v => rdbSaveLongLongAsStringObject v
  | OBJ_ENCODING_RAW s | OBJ_ENCODING_EMBSTR s => rdbSaveRawString compress rdb_compression (s ++ [0]) (zlen s)
  end.

(** ** Loaders *)

Definition RDB_LOAD_NONE : Z := 0.
Definition RDB_LOAD_ENC : Z := 1.
Definition RDB_LOAD_PLAIN : Z := 2.
Definition RDB_LOAD_SDS : Z := 4.

(** What the loaders return a pointer to: a zmalloc() block, an sds or an object. *)
Inductive rdb_value :=
| VPlain (s : list Z)
| VSds (s : list Z)
| VObj (o : robj_string).

(** How a call ends: it returns, the process ends by exit(1), an assertion fails. *)
Inductive outcome (A : Type) := Returns (a : A) | Exits | Aborts.
Arguments Returns {A} _.
Arguments Exits {A}.
Arguments Aborts {A}.

(** What the error report and the allocations depend on: [server.loading], [rdbCheckMode], whether
    [rdbFileBeingLoaded] is set, and which sizes malloc() can allocate. *)
Record load_ctx := LoadCtx { x_loading : bool; x_check_mode : bool; x_file : bool; x_can_alloc : Z -> bool }.

Section load.
Context {S : Type} `{RioIO S} `{Allocator}.
Context (decompress : list Z -> list Z -> option (Z * list Z)).
Context (ctx : load_ctx).

Definition M (A : Type) : Type := rio S -> option (outcome (A * rio S)).

Definition m_ret {A} (a : A) : M A := fun r => Some (Returns (a, r)).
Definition m_bind {A B} (m : M A) (k : A -> M B) : M B := fun r =>
  match m r with
  | None => None
  | Some (Returns (a, r)) => k a r
  | Some Exits => Some Exits
  | Some Aborts => Some Aborts
  end.
Definition m_lift {A} (o : option A) : M A := fun r => a ← o; Some (Returns (a, r)).
Definition m_exit : M unit := fun _ => Some Exits.
Definition m_abort {A} : M A := fun _ => Some Aborts.

#[local] Notation "x <- m ; k" := (m_bind m (fun x => k)) (at level 100, m at level 99, right associativity).

(** A pointer into a block of memory *)
Definition dest : Type := list Z * Z.

(** A local array *)
Definition array (n : nat) : dest := (junk_bytes 0 n, 0).

(** [if (rioRead(rdb,p,len) == 0) return err]: the block must have room for [len] bytes at the pointer. The continuation gets
    the block with the bytes. *)
Definition m_read {A} (p : dest) (len : Z) (err : A) (k : dest -> M A) : M A := fun r =>
  if negb (bool_decide (0 <= snd p /\ snd p + len <= zlen (fst p))) then None
  else
    '(res, r) ← rioRead r len;
    match res with
    | None => Some (Returns (err, r))
    | Some bs => m ← mem_store (fst p) (snd p) bs; k (m, snd p) r
    end.

(** The bytes at a pointer *)
Definition m_load (p : dest) (len : Z) : M (list Z) := m_lift (mem_load (fst p) (snd p) len).

(** serverLog() and the message are left out. *)
Definition rdbReportError (corruption_error : bool) : M unit :=
  if negb (x_loading ctx) then m_ret tt
  else if x_check_mode ctx then m_exit
  else if x_file ctx then m_exit
  else if corruption_error then m_exit
  else m_ret tt.

Definition rdbLoadType : M Z := m_read (array 1) 1 (-1) (fun b => type <- m_lift (load8 (fst b) 0); m_ret type).

Definition rdbLoadTime : M Z := m_read (array 4) 4 (-1) (fun b => t <- m_load b 4; m_ret (s32 (le_decode t))).

Definition rdbLoadMillisecondTime (rdbver : Z) : M Z := m_read (array 8) 8 LLONG_MAX (fun b => t <- m_load b 8; m_ret (s64 (le_decode t))).

(** [None] is the return value -1; otherwise [*isencoded] and [*lenptr]. *)
Definition rdbLoadLenByRef : M (option (bool * Z)) :=
  m_read (array 2) 1 None (fun buf =>
    buf0 <- m_lift (load8 (fst buf) 0);
    let type := Z.shiftr (Z.land buf0 192) 6 in
    if type =? RDB_ENCVAL then m_ret (Some (true, Z.land buf0 63))
    else if type =? RDB_6BITLEN then m_ret (Some (false, Z.land buf0 63))
    else if type =? RDB_14BITLEN then
      m_read (fst buf, 1) 1 None (fun buf =>
        buf0 <- m_lift (load8 (fst buf) 0);
        buf1 <- m_lift (load8 (fst buf) 1);
        m_ret (Some (false, Z.lor (Z.shiftl (Z.land buf0 63) 8) buf1)))
    else if buf0 =? RDB_32BITLEN then m_read (array 4) 4 None (fun len => b <- m_load len 4; m_ret (Some (false, le_decode (reverse b))))
    else if buf0 =? RDB_64BITLEN then m_read (array 8) 8 None (fun len => b <- m_load len 8; m_ret (Some (false, le_decode (reverse b))))
    else _ <- rdbReportError true; m_ret None).

Definition rdbLoadLen : M (bool * Z) :=
  res <- rdbLoadLenByRef; m_ret (match res with None => (false, RDB_LENERR) | Some x => x end).

(** A block of [size] bytes: from an allocation that may fail, and from one that ends the process when it fails (which is not modelled). *)
Definition ztrymalloc (size : Z) : M (option (list Z)) := m_ret (if x_can_alloc ctx size then Some (junk_bytes 0 (Z.to_nat size)) else None).
Definition zmalloc (size : Z) : list Z := junk_bytes 0 (Z.to_nat size).

Definition sdsHdrSize_for (initlen : Z) : Z :=
  if initlen =? 0 then 3 else if initlen <? 32 then 1 else if initlen <? 256 then 3 else if initlen <? 65536 then 5
  else if initlen <? 2 ^ 32 then 9 else 17.

(** The end of _sdsnewlen(SDS_NOINIT,initlen) for a block [sh]: the pointer to the string, after its terminator is written. The
    fields of the header, before the pointer, are not modelled. *)
Definition sds_in (sh : list Z) (hdrlen initlen : Z) : option dest :=
  sh ← mem_store sh (hdrlen + initlen) [0]; Some (sh, hdrlen).

(** sdstrynewlen(SDS_NOINIT,initlen) *)
Definition sdstrynewlen (initlen : Z) : M (option dest) :=
  let hdrlen := sdsHdrSize_for initlen in
  if initlen <? u64 (initlen + hdrlen + 1) then
    sh <- ztrymalloc (hdrlen + initlen + 1);
    match sh with
    | None => m_ret None
    | Some sh => s <- m_lift (sds_in sh hdrlen initlen); m_ret (Some s)
    end
  else m_abort.

(** sdsnewlen(SDS_NOINIT,initlen) for a length that is not huge *)
Definition sdsnewlen (initlen : Z) : M dest :=
  let hdrlen := sdsHdrSize_for initlen in
  m_lift (sds_in (zmalloc (hdrlen + initlen + 1)) hdrlen initlen).

Definition OBJ_ENCODING_EMBSTR_SIZE_LIMIT : Z := 44.
Definition sizeof_robj : Z := 16.
Definition sizeof_sdshdr8 : Z := 3.

(** createEmbeddedStringObject(SDS_NOINIT,len): o->ptr *)
Definition createEmbeddedStringObject (len : Z) : M dest :=
  let o := zmalloc (sizeof_robj + sizeof_sdshdr8 + len + 1) in
  m_lift (sds_in o (sizeof_robj + sizeof_sdshdr8) len).

(** The encoding of the object and o->ptr: [None] is NULL. *)
Definition tryCreateRawStringObject (len : Z) : M (option ((list Z -> robj_string) * dest)) :=
  str <- sdstrynewlen len; m_ret (pair OBJ_ENCODING_RAW <$> str).

Definition tryCreateStringObject (len : Z) : M (option ((list Z -> robj_string) * dest)) :=
  if len <=? OBJ_ENCODING_EMBSTR_SIZE_LIMIT then o <- createEmbeddedStringObject len; m_ret (Some (OBJ_ENCODING_EMBSTR, o))
  else tryCreateRawStringObject len.

Definition flag (flags f : Z) : bool := negb (Z.land flags f =? 0).

(** A block for the result: ztrymalloc(len) or sdstrynewlen(SDS_NOINIT,len) *)
Definition try_result (plain : bool) (len : Z) : M (option dest) :=
  if plain then val <- ztrymalloc len; m_ret ((fun m => (m, 0)) <$> val) else sdstrynewlen len.

Definition rdbLoadIntegerObject (enctype flags : Z) : M (option rdb_value) :=
  let plain := flag flags RDB_LOAD_PLAIN in
  let sds := flag flags RDB_LOAD_SDS in
  let encode := flag flags RDB_LOAD_ENC in
  let finish (val : Z) : M (option rdb_value) :=
    if plain || sds then
      bl <- m_lift (ll2string (junk_bytes 0 21) 21 val);
      p <- (if plain then m_ret (zmalloc (snd bl), 0) else sdsnewlen (snd bl));
      s <- m_lift (mem_load (fst bl) 0 (snd bl));
      m <- m_lift (mem_store (fst p) (snd p) s);
      s <- m_load (m, snd p) (snd bl);
      m_ret (Some (if plain then VPlain s else VSds s))
    else if encode then m_ret (Some (VObj (OBJ_ENCODING_INT val)))
    else s <- m_lift (sdsfromlonglong val); m_ret (Some (VObj (OBJ_ENCODING_RAW s))) in
  if enctype =? RDB_ENC_INT8 then m_read (array 4) 1 None (fun enc => v <- m_load enc 1; finish (s8 (le_decode v)))
  else if enctype =? RDB_ENC_INT16 then m_read (array 4) 2 None (fun enc => v <- m_load enc 2; finish (s16 (le_decode v)))
  else if enctype =? RDB_ENC_INT32 then m_read (array 4) 4 None (fun enc => v <- m_load enc 4; finish (s32 (le_decode v)))
  else _ <- rdbReportError true; m_ret None.

(** The lengths given to lzf_decompress() are converted to [unsigned int]. *)
Definition rdbLoadLzfStringObject (flags : Z) : M (option rdb_value) :=
  let plain := flag flags RDB_LOAD_PLAIN in
  let sds := flag flags RDB_LOAD_SDS in
  l1 <- rdbLoadLen;
  let clen := snd l1 in
  if clen =? RDB_LENERR then m_ret None
  else
  l2 <- rdbLoadLen;
  let len := snd l2 in
  if len =? RDB_LENERR then m_ret None
  else
  c <- ztrymalloc clen;
  match c with
  | None => m_ret None
  | Some c =>
  val <- try_result plain len;
  match val with
  | None => m_ret None
  | Some val =>
  m_read (c, 0) clen None (fun c =>
    inp <- m_load c (u32 clen);
    out <- m_load val (u32 len);
    res <- m_lift (decompress inp out);
    if negb (fst res =? len) then _ <- rdbReportError true; m_ret None
    else
      m <- m_lift (mem_store (fst val) (snd val) (snd res));
      s <- m_load (m, snd val) len;
      m_ret (Some (if plain then VPlain s else if sds then VSds s else VObj (OBJ_ENCODING_RAW s))))
  end
  end.

(** [if (len && rioRead(rdb,p,len) == 0) return NULL], and then the [len] bytes at [p] are the result. *)
Definition read_result (p : dest) (len : Z) (result : list Z -> rdb_value) : M (option rdb_value) :=
  let finish p := s <- m_load p len; m_ret (Some (result s)) in
  if negb (len =? 0) then m_read p len None finish else finish p.

Definition rdbGenericLoadStringObject (flags : Z) : M (option rdb_value) :=
  let encode := flag flags RDB_LOAD_ENC in
  let plain := flag flags RDB_LOAD_PLAIN in
  let sds := flag flags RDB_LOAD_SDS in
  l <- rdbLoadLen;
  let '(isencoded, len) := l in
  if len =? RDB_LENERR then m_ret None
  else if isencoded : bool then
    if (len =? RDB_ENC_INT8) || (len =? RDB_ENC_INT16) || (len =? RDB_ENC_INT32) then rdbLoadIntegerObject len flags
    else if len =? RDB_ENC_LZF then rdbLoadLzfStringObject flags
    else _ <- rdbReportError true; m_ret None
  else if plain || sds then
    buf <- try_result plain len;
    match buf with
    | None => m_ret None
    | Some buf => read_result buf len (if plain then VPlain else VSds)
    end
  else
    o <- (if encode then tryCreateStringObject len else tryCreateRawStringObject len);
    match o with
    | None => m_ret None
    | Some (encoding, ptr) => read_result ptr len (fun s => VObj (encoding s))
    end.

Definition rdbLoadStringObject : M (option rdb_value) := rdbGenericLoadStringObject RDB_LOAD_NONE.
Definition rdbLoadEncodedStringObject : M (option rdb_value) := rdbGenericLoadStringObject RDB_LOAD_ENC.

End load.

(** ** Reading numbers from C strings *)

Lemma isspace_0 : isspace 0 = false.
Proof. done. Qed.

Lemma skip_spaces_cstr v rest : forall i, exists p k, skip_spaces (v ++ 0 :: rest) i = Some (p ++ 0 :: rest, i + k) /\
  0 <= k /\ k + zlen p = zlen v.
Proof.
  induction v as [|c v IH]; intros i; cbn [app skip_spaces].
  - exists [], 0. rewrite isspace_0. split; [do 2 f_equal; lia|]. split; done.
  - destruct (isspace c).
    + destruct (IH (i + 1)) as (p & k & -> & Hk & Hz). exists p, (1 + k). split; [do 2 f_equal; lia|]. rewrite zlen_cons. lia.
    + exists (c :: v), 0. split; [do 2 f_equal; lia|]. lia.
Qed.

Lemma scan_digits_cstr v rest : forall acc i, 0 <= acc -> exists val k, scan_digits (v ++ 0 :: rest) acc i = Some (val, i + k) /\
  0 <= k <= zlen v /\ 0 <= val.
Proof.
  induction v as [|c v IH]; intros acc i Hacc; cbn [app scan_digits].
  - exists acc, 0. split; [do 2 f_equal; lia|]. change (zlen []) with 0. lia.
  - rewrite zlen_cons. pose proof (zlen_nonneg v). destruct ((chr "0" <=? c) && (c <=? chr "9")) eqn:Hc.
    + apply andb_prop in Hc as [Hc%Z.leb_le _]. destruct (IH (acc * 10 + (c - chr "0")) (i + 1)) as (val & k & -> & Hk & Hv); [lia|].
      exists val, (1 + k). split; [do 2 f_equal; lia|]. lia.
    + exists acc, 0. split; [do 2 f_equal; lia|]. lia.
Qed.

Lemma scan_digits_digits p rest : Forall is_digit p -> forall acc i,
  scan_digits (p ++ 0 :: rest) acc i = Some (fold_left (fun v c => v * 10 + (c - chr "0")) p acc, i + zlen p).
Proof.
  induction 1 as [|c p Hc _ IH]; intros acc i; cbn [app scan_digits fold_left].
  - do 2 f_equal. change (zlen []) with 0. lia.
  - apply is_digit_spec in Hc. change (chr "0") with 48. change (chr "9") with 57.
    rewrite (proj2 (Z.leb_le _ _)), (proj2 (Z.leb_le _ _)) by lia. cbn [andb]. rewrite IH, zlen_cons. do 2 f_equal. lia.
Qed.

(** strtoll() stops at the terminator at the latest, and saturates. *)
Lemma strtoll_cstr v rest : exists value e, strtoll (v ++ 0 :: rest) = Some (value, e) /\ is_ll value /\ 0 <= e <= zlen v.
Proof.
  unfold strtoll. destruct (skip_spaces_cstr v rest 0) as (p & k & -> & Hk & Hz). simpl_bind. pose proof (zlen_nonneg p).
  assert (exists c, head (p ++ 0 :: rest) = Some c /\ (c = 0 \/ exists p', p = c :: p')) as (c & -> & Hc).
  { destruct p as [|c p]; cbn; eexists; (split; [done|]); [by left | right; by eexists]. }
  simpl_bind. cbv zeta. assert (exists p' k', (if (c =? chr "-") || (c =? chr "+") then (tail (p ++ 0 :: rest), 0 + k + 1) else (p ++ 0 :: rest, 0 + k))
    = (p' ++ 0 :: rest, k') /\ 0 <= k' /\ k' + zlen p' = zlen v) as (p' & k' & -> & Hk' & Hz').
  { destruct Hc as [->|[p' ->]]; [exists p, (0 + k); split; [done|lia]|]. cbn [app tail]. rewrite zlen_cons in Hz.
    destruct ((c =? chr "-") || (c =? chr "+")); [exists p', (0 + k + 1) | exists (c :: p'), (0 + k)]; (split; [done|]); rewrite ?zlen_cons; lia. }
  destruct (scan_digits_cstr p' rest 0 k') as (val & j & -> & Hj & Hval); [done|]. simpl_bind.
  destruct (Z.eqb_spec (k' + j) k'); [|destruct (c =? chr "-")]; eexists _, _; (split; [done|]); unfold_limits; lia.
Qed.

Lemma is_digit_not_space c : is_digit c -> isspace c = false /\ (c =? chr "-") = false /\ (c =? chr "+") = false.
Proof.
  intros Hc%is_digit_spec. unfold isspace. change (chr "-") with 45. change (chr "+") with 43.
  repeat match goal with |- context [?a =? ?b] => destruct (Z.eqb_spec a b); [lia|] end.
  rewrite (proj2 (Z.leb_gt c 13)) by lia. by rewrite andb_false_r.
Qed.

Lemma canonical_digits v value : canonical v value -> exists sg ds, v = sg ++ ds /\ Forall is_digit ds /\ ds <> [] /\
  (sg = [] /\ value = digits_value ds \/ sg = [chr "-"] /\ value = - digits_value ds).
Proof.
  assert (forall c, chr "1" <= c <= chr "9" -> is_digit c) as Hd. { intros c Hc. apply is_digit_spec. change (chr "1") with 49 in Hc. change (chr "9") with 57 in Hc. lia. }
  intros [|c s Hc Hs|c s Hc Hs].
  - exists [], [chr "0"]. split_and!; [done | by apply Forall_singleton | done | by left].
  - exists [], (c :: s). split_and!; [done | constructor; auto | done | by left].
  - exists [chr "-"], (c :: s). split_and!; [done | constructor; auto | done | by right].
Qed.

Lemma strtoll_canonical v value rest : canonical v value -> is_ll value -> strtoll (v ++ 0 :: rest) = Some (value, zlen v).
Proof.
  intros (sg & ds & -> & Hds & Hne & Hsg)%canonical_digits Hll. destruct ds as [|c ds]; [done|].
  pose proof (Forall_inv Hds) as Hc. destruct (is_digit_not_space c Hc) as (H1 & H2 & H3).
  pose proof (digits_value_range _ Hds) as Hr. pose proof (zlen_nonneg ds). unfold strtoll. unfold_limits.
  destruct Hsg as [[-> ->]|[-> ->]]; cbn [app skip_spaces].
  - rewrite H1. simpl_bind. cbn [head]. simpl_bind. rewrite H2, H3. cbn [orb]. rewrite app_comm_cons, scan_digits_digits by done. simpl_bind.
    rewrite (proj2 (Z.eqb_neq _ _)) by (rewrite zlen_cons; lia). fold (digits_value (c :: ds)). do 2 f_equal; lia.
  - change (isspace (chr "-")) with false. cbv iota. simpl_bind. cbn [head]. simpl_bind. rewrite Z.eqb_refl. cbn [orb tail].
    rewrite app_comm_cons, scan_digits_digits by done. simpl_bind.
    rewrite (proj2 (Z.eqb_neq _ _)) by (rewrite zlen_cons; lia). fold (digits_value (c :: ds)). rewrite (zlen_cons (chr "-")). do 2 f_equal; lia.
Qed.

Lemma canonical_nonzero v value : canonical v value -> Forall (fun c => c <> 0) v.
Proof.
  intros (sg & ds & -> & Hds & _ & Hsg)%canonical_digits. apply Forall_app. split.
  - destruct Hsg as [[-> _]|[-> _]]; repeat constructor; done.
  - eapply Forall_impl; [exact Hds|]. intros c Hc%is_digit_spec. lia.
Qed.

Lemma strlen_cstr v rest : Forall (fun c => c <> 0) v -> strlen (v ++ 0 :: rest) = Some (zlen v).
Proof.
  induction 1 as [|c v Hc _ IH]; [done|]. cbn [app strlen]. rewrite (proj2 (Z.eqb_neq _ _)) by done. rewrite IH. simpl_bind.
  rewrite zlen_cons. f_equal. lia.
Qed.

Lemma ll2string_junk `{Allocator} n len value : (21 <= n)%nat -> len = Z.of_nat n -> is_ll value ->
  exists t rest, canonical t value /\ ll2string (junk_bytes 0 n) len value = Some (t ++ 0 :: rest, zlen t) /\ zlen t <= 20.
Proof.
  intros Hn -> Hv. pose proof (sdigits10_le value Hv). destruct (ll2string_fits (junk_bytes 0 n) (Z.of_nat n) value) as (t & Ht & Hz & He);
    [done | lia | unfold zlen; rewrite length_junk_bytes; lia|]. exists t. eexists. split; [done|]. split; [exact He|]. lia.
Qed.

(** rdbTryIntegerEncoding() finds exactly the canonical notations of the integers. *)
Lemma rdbTryIntegerEncoding_ok `{Allocator} v rest : rdbTryIntegerEncoding (v ++ 0 :: rest) (zlen v) =
  Some (match string2ll v with Some value => rdbEncodeInteger value | None => [] end).
Proof.
  unfold rdbTryIntegerEncoding. destruct (string2ll v) as [w|] eqn:Hs.
  - apply string2ll_sound in Hs as [Hcan Hll]. rewrite (strtoll_canonical v w rest) by done. simpl_bind. rewrite load8_mid by done. simpl_bind.
    change (negb (0 =? 0)) with false. cbv iota. destruct (ll2string_junk 32 32 w) as (t & rest' & Ht & -> & _); [lia | done | done|]. simpl_bind.
    rewrite (canonical_inj t v w) in * by done. rewrite strlen_cstr by by eapply canonical_nonzero. simpl_bind. rewrite Z.eqb_refl. cbn [negb].
    rewrite !mem_load_head by done. simpl_bind. by rewrite bool_decide_true.
  - destruct (strtoll_cstr v rest) as (value & e & -> & Hll & He). simpl_bind.
    destruct (load8_is_Some (v ++ 0 :: rest) e) as [[c ->] _]; [rewrite zlen_app, zlen_cons; pose proof (zlen_nonneg rest); lia|]. simpl_bind.
    destruct (negb (c =? 0)); [done|]. destruct (ll2string_junk 32 32 value) as (t & rest' & Ht & -> & _); [lia | done | done|]. simpl_bind.
    rewrite strlen_cstr by by eapply canonical_nonzero. simpl_bind. destruct (Z.eqb_spec (zlen t) (zlen v)) as [Hz|]; [|done]. cbn [negb].
    rewrite !mem_load_head by done. simpl_bind. destruct (decide (t = v)) as [->|Hne]; [|by rewrite bool_decide_false].
    exfalso. pose proof (string2ll_complete v value Ht Hll). congruence.
Qed.

(** ** What the writers write *)

(** The bytes of a length. *)
Definition enc_len (len : Z) : list Z :=
  if len <? 64 then [len]
  else if len <? 16384 then [64 + len / 256; len mod 256]
  else if len <=? UINT32_MAX then RDB_32BITLEN :: be_bytes 4 len
  else RDB_64BITLEN :: be_bytes 8 len.

Section save_facts.
Context {S : Type} `{RioSpec S} `{Allocator}.
Implicit Types r : rio S.

(** [f] writes [bs] and returns [n], or fails with -1; without a stream it only returns [n]. *)
Definition saves (f : W) (bs : list Z) (n : Z) : Prop :=
  f None = Some (n, None) /\
  forall r, 0 <= r_max_processing_chunk r -> exists ret r', f (Some r) = Some (ret, Some r') /\
    (ret = n /\ wrote r bs r' \/ ret = -1 /\ write_failed r r').

Lemma saves_ret n : saves (w_ret n) [] n.
Proof.
  split; [done|]. intros r _. exists n, r. split; [done|]. left. split; [done|]. unfold wrote. by rewrite app_nil_r.
Qed.

Lemma saves_raw p : saves (rdbWriteRaw p) p (zlen p).
Proof.
  split; [done|]. intros r Hm. cbn [rdbWriteRaw]. destruct (rioWrite_ok r p Hm) as (ret & r' & -> & Hr). simpl_bind.
  eexists _, r'. split; [done|]. destruct Hr as [[-> ?]|[-> ?]]; [by left | by right].
Qed.

Lemma saves_load data off len p n : mem_load data off len = Some p -> saves (rdbWriteRaw p) p n ->
  saves (fun rdb => d ← mem_load data off len; rdbWriteRaw d rdb) p n.
Proof. by intros ->. Qed.

Lemma wrote_app r a r' b r'' : wrote r a r' -> wrote r' b r'' -> wrote r (a ++ b) r''.
Proof. intros (E1 & E2 & E3) (F1 & F2 & F3). unfold wrote. rewrite F1, F2, F3, E1, E2, E3, <- app_assoc. by split_and!. Qed.

Lemma wrote_failed r a r' r'' : wrote r a r' -> write_failed r' r'' -> write_failed r r''.
Proof. intros (E1 & _) (? & Hp). split; [done|]. etransitivity; [|exact Hp]. rewrite E1. by eexists. Qed.

Lemma saves_bind f k a na b nb : saves f a na -> 0 <= na -> saves (k na) b nb -> saves (w_bind f k) (a ++ b) nb.
Proof.
  intros [Hf0 Hf] Hna [Hk0 Hk]. unfold w_bind. split.
  - rewrite Hf0. simpl_bind. by rewrite (proj2 (Z.eqb_neq _ _)) by lia.
  - intros r Hm. destruct (Hf r Hm) as (ret & r' & -> & [[-> Hw]|[-> Hw]]); simpl_bind.
    + rewrite (proj2 (Z.eqb_neq _ _)) by lia. destruct (Hk r') as (ret & r'' & -> & Hr); [destruct Hw as (_ & _ & ->); done|].
      exists ret, r''. split; [done|]. destruct Hr as [[-> ?]|[-> ?]]; [left | right]; split; eauto using wrote_app, wrote_failed.
    + eexists _, r'. split; [done|]. by right.
Qed.

Lemma saves_eq f a na b nb : saves f a na -> a = b -> na = nb -> saves f b nb.
Proof. by intros ? <- <-. Qed.

Lemma length_be_bytes n z : length (be_bytes n z) = n.
Proof. unfold be_bytes. by rewrite length_reverse, length_le_encode. Qed.

Lemma zlen_be_bytes n z : zlen (be_bytes n z) = Z.of_nat n.
Proof. unfold zlen. by rewrite length_be_bytes. Qed.

Lemma saves_len len : 0 <= len < 2 ^ 64 -> saves (rdbSaveLen len) (enc_len len) (zlen (enc_len len)) /\ 1 <= zlen (enc_len len) <= 9.
Proof.
  intros Hl. unfold rdbSaveLen, enc_len. change (Z.shiftl 1 6) with 64. change (Z.shiftl 1 14) with 16384.
  destruct (Z.ltb_spec len 64); [|destruct (Z.ltb_spec len 16384); [|destruct (Z.leb_spec len UINT32_MAX)]].
  - split; [|done]. assert (Z.lor (Z.land len 255) (Z.shiftl RDB_6BITLEN 6) = len) as ->.
    { change (Z.shiftl RDB_6BITLEN 6) with 0. rewrite Z.lor_0_r, land_255. apply Z.mod_small. lia. }
    apply (saves_bind _ _ [len] 1 [] 1); [apply saves_raw | lia | apply saves_ret].
  - split; [|done]. assert (Z.lor (Z.land (Z.shiftr len 8) 255) (Z.shiftl RDB_14BITLEN 6) = 64 + len / 256) as ->.
    { rewrite land_255, Z.shiftr_div_pow2 by lia. change (2 ^ 8) with 256. rewrite Z.mod_small by (Z.div_mod_to_equations; lia).
      rewrite (shiftl_lor_add _ 1 6); [change (2 ^ 6) with 64; lia | lia | change (2 ^ 6) with 64; Z.div_mod_to_equations; lia]. }
    rewrite land_255. apply (saves_bind _ _ [64 + len / 256; len mod 256] 2 [] 2); [apply saves_raw | lia | apply saves_ret].
  - rewrite zlen_cons, zlen_be_bytes. split; [|lia].
    apply (saves_bind _ _ [RDB_32BITLEN] 1); [apply saves_raw | lia|]. rewrite <- (app_nil_r (be_bytes 4 len)).
    apply (saves_bind _ _ _ (zlen (be_bytes 4 len))); [apply saves_raw | apply zlen_nonneg | apply saves_ret].
  - rewrite zlen_cons, zlen_be_bytes. split; [|lia].
    apply (saves_bind _ _ [RDB_64BITLEN] 1); [apply saves_raw | lia|]. rewrite <- (app_nil_r (be_bytes 8 len)).
    apply (saves_bind _ _ _ (zlen (be_bytes 8 len))); [apply saves_raw | apply zlen_nonneg | apply saves_ret].
Qed.

Definition LZF_BYTE : Z := 195.

Lemma saves_lzf_blob data c len : 0 <= len < 2 ^ 64 -> zlen c < 2 ^ 64 -> c `prefix_of` data ->
  let bs := LZF_BYTE :: enc_len (zlen c) ++ enc_len len ++ c in
  saves (rdbSaveLzfBlob data (zlen c) len) bs (zlen bs).
Proof.
  intros Hl Hc [tl ->] bs. pose proof (zlen_nonneg c). unfold rdbSaveLzfBlob. change (Z.lor (Z.shiftl RDB_ENCVAL 6) RDB_ENC_LZF) with LZF_BYTE.
  destruct (saves_len (zlen c)) as [Hs1 ?]; [lia|]. destruct (saves_len len) as [Hs2 ?]; [lia|].
  eapply saves_eq.
  - apply (saves_bind _ _ [LZF_BYTE] 1); [apply saves_raw | lia|]. eapply saves_bind; [exact Hs1 | lia|]. eapply saves_bind; [exact Hs2 | lia|].
    eapply saves_bind; [eapply saves_load; [by apply mem_load_head | apply saves_raw] | apply zlen_nonneg | apply saves_ret].
  - unfold bs. cbn [app]. by rewrite app_nil_r.
  - unfold bs. rewrite zlen_cons, !zlen_app. lia.
Qed.

(** ** Encodings of a string *)

(** The three encodings that the writer chooses from. *)
Inductive string_enc (decompress : list Z -> list Z -> option (Z * list Z)) (s : list Z) : list Z -> Prop :=
| enc_int v : canonical s v -> - 2 ^ 31 <= v < 2 ^ 31 -> string_enc decompress s (rdbEncodeInteger v)
| enc_lzf c : 20 < zlen s < 2 ^ 32 -> zlen c <= zlen s - 4 -> bytes_ok c ->
    (forall buf, zlen buf = zlen s -> decompress c buf = Some (zlen s, s)) ->
    string_enc decompress s (LZF_BYTE :: enc_len (zlen c) ++ enc_len (zlen s) ++ c)
| enc_raw : string_enc decompress s (enc_len (zlen s) ++ s).

Lemma rdbEncodeInteger_nil v : zlen (rdbEncodeInteger v) = 0 \/ 0 < zlen (rdbEncodeInteger v) /\ - 2 ^ 31 <= v < 2 ^ 31.
Proof.
  unfold rdbEncodeInteger. change (Z.shiftl 1 7) with 128. change (Z.shiftl 1 15) with 32768. change (Z.shiftl 1 31) with 2147483648.
  change (2 ^ 31) with 2147483648. repeat match goal with |- context [if ?b then _ else _] => destruct b eqn:?; [right; split; [done|]; rewrite andb_true_iff, !Z.leb_le in *; lia|] end.
  by left.
Qed.

Context {compress decompress : list Z -> list Z -> option (Z * list Z)} `{!LzfSpec compress decompress}.

Lemma saves_lzf_string s tl : bytes_ok s -> 20 < zlen s < 2 ^ 32 ->
  saves (rdbSaveLzfStringObject compress (s ++ tl) (zlen s)) [] 0 \/
  exists bs, string_enc decompress s bs /\ 0 < zlen bs /\ saves (rdbSaveLzfStringObject compress (s ++ tl) (zlen s)) bs (zlen bs).
Proof.
  intros Hb Hz. set (out := junk_bytes 0 (Z.to_nat (zlen s - 4 + 1))).
  assert (exists obuf, mem_load out 0 (u32 (zlen s - 4)) = Some obuf /\ zlen obuf = zlen s - 4) as (obuf & Ho & Hoz).
  { rewrite uwrap_small by lia. apply mem_load_some; [lia | lia|]. unfold out, zlen. rewrite length_junk_bytes. unfold zlen in Hz. lia. }
  destruct (compress_ok s obuf Hb) as (n & out' & He & Hn & Hok); [lia|].
  assert (forall rdb, rdbSaveLzfStringObject compress (s ++ tl) (zlen s) rdb = if n =? 0 then Some (0, rdb) else rdbSaveLzfBlob out' n (zlen s) rdb) as Heq.
  { intros rdb. unfold rdbSaveLzfStringObject. rewrite (proj2 (Z.leb_gt _ _)) by lia. cbv zeta. fold out. rewrite Ho.
    rewrite (uwrap_small 32 (zlen s)), mem_load_head by lia || done. simpl_bind. rewrite He. done. }
  destruct (Z.eqb_spec n 0) as [->|Hn0].
  - left. destruct (saves_ret 0) as [S0 S1]. split; [by rewrite Heq|]. intros r Hr. rewrite Heq. by apply S1.
  - right. destruct (Hok Hn0) as (Hbc & Hnz & Hd). set (c := take (Z.to_nat n) out') in *.
    assert (zlen c = n) as Hcz by (unfold c, zlen in *; rewrite length_take; lia).
    exists (LZF_BYTE :: enc_len (zlen c) ++ enc_len (zlen s) ++ c). split; [apply enc_lzf; (done || lia)|].
    split; [rewrite zlen_cons; pose proof (zlen_nonneg (enc_len (zlen c) ++ enc_len (zlen s) ++ c)); lia|].
    destruct (saves_lzf_blob out' c (zlen s)) as [S0 S1]; [lia | lia | exists (drop (Z.to_nat n) out'); unfold c; by rewrite take_drop|].
    rewrite Hcz in S0, S1 |- *. split; [by rewrite Heq|]. intros r Hr. rewrite Heq. by apply S1.
Qed.

(** rdbSaveRawString() writes one of the encodings of the string and returns its length. *)
Lemma saves_raw_string comp s tl : bytes_ok s -> zlen s < 2 ^ 64 -> (comp = true -> zlen s < 2 ^ 32) ->
  exists bs, string_enc decompress s bs /\ 0 < zlen bs /\ saves (rdbSaveRawString compress comp (s ++ 0 :: tl) (zlen s)) bs (zlen bs).
Proof.
  intros Hb Hz Hc. pose proof (zlen_nonneg s) as Hpos.
  assert (exists enc, (if zlen s <=? 11 then rdbTryIntegerEncoding (s ++ 0 :: tl) (zlen s) else Some []) = Some enc /\
    (zlen enc = 0 \/ 0 < zlen enc /\ string_enc decompress s enc)) as (enc & Henc & Hcase).
  { destruct (zlen s <=? 11); [|exists []; split; [done | by left]]. rewrite rdbTryIntegerEncoding_ok. eexists. split; [done|].
    destruct (string2ll s) as [v|] eqn:Hs; [|by left]. apply string2ll_sound in Hs as [Hcan _].
    destruct (rdbEncodeInteger_nil v) as [|[? ?]]; [by left | right]. split; [done|]. by constructor. }
  unfold rdbSaveRawString. rewrite Henc. cbn [mbind option_bind]. destruct Hcase as [->|[Hlt Hse]].
  2: { exists enc. split; [done|]. split; [done|]. rewrite (proj2 (Z.ltb_lt _ _)) by done.
       eapply saves_eq; [eapply saves_bind; [apply saves_raw | lia | apply saves_ret] | by rewrite app_nil_r | done]. }
  change (0 <? 0) with false. cbv iota. set (plain := w_bind (rdbSaveLen (zlen s)) _).
  destruct (saves_len (zlen s)) as [Hs1 Hs2]; [lia|].
  assert (saves plain (enc_len (zlen s) ++ s) (zlen (enc_len (zlen s) ++ s))) as Hplain.
  { unfold plain. eapply saves_bind; [exact Hs1 | lia|]. destruct (Z.ltb_spec 0 (zlen s)).
    - eapply saves_eq; [|apply app_nil_r|rewrite zlen_app; reflexivity]. eapply saves_bind; [eapply saves_load; [by apply mem_load_head | apply saves_raw] | exact Hpos | apply saves_ret].
    - assert (s = []) as -> by (apply zlen_eq_nil; lia). rewrite app_nil_r. apply saves_ret. }
  assert (exists bs, string_enc decompress s bs /\ 0 < zlen bs /\ saves plain bs (zlen bs)) as Hfall.
  { exists (enc_len (zlen s) ++ s). split; [constructor|]. split; [rewrite zlen_app; lia | done]. }
  destruct (comp && (20 <? zlen s)) eqn:Hcomp; [|by simpl_bind].
  apply andb_prop in Hcomp as [-> Hlt%Z.ltb_lt]. specialize (Hc eq_refl).
  destruct (saves_lzf_string s (0 :: tl) Hb) as [[S0 S1]|(bs & Hse & Hbs & S0 & S1)]; [lia|..].
  - destruct Hfall as (bs & Hse & Hbs & P0 & P1). exists bs. split; [done|]. split; [done|]. split; [by rewrite S0; simpl_bind|].
    intros r Hr. destruct (S1 r Hr) as (ret & r' & -> & [[-> Hw]|[-> Hw]]); simpl_bind; cbv iota.
    + change (0 =? -1) with false. change (0 <? 0) with false. cbv iota. destruct (P1 r') as (ret & r'' & -> & Hr''); [destruct Hw as (_ & _ & ->); done|].
      exists ret, r''. split; [done|]. destruct Hr'' as [[-> ?]|[-> ?]]; [left | right]; split; try done; [by apply (wrote_app r [] r') | by eapply wrote_failed].
    + eexists _, r'. split; [done|]. by right.
  - exists bs. split; [done|]. split; [done|].
    assert (forall rdb rdb', (if zlen bs =? -1 then Some (-1, rdb) else if 0 <? zlen bs then Some (zlen bs, rdb') else plain rdb) = Some (zlen bs, rdb')) as Hif.
    { intros. by rewrite (proj2 (Z.eqb_neq _ _)), (proj2 (Z.ltb_lt _ _)) by lia. }
    split; [rewrite S0; simpl_bind; apply Hif|]. intros r Hr. destruct (S1 r Hr) as (ret & r' & -> & [[-> Hw]|[-> Hw]]); simpl_bind.
    + exists (zlen bs), r'. split; [apply Hif|]. by left.
    + eexists _, r'. split; [done|]. by right.
Qed.

Lemma saves_ll v : is_ll v -> exists bs s, canonical s v /\ string_enc decompress s bs /\ 0 < zlen bs /\ saves (rdbSaveLongLongAsStringObject v) bs (zlen bs).
Proof.
  intros Hv. unfold rdbSaveLongLongAsStringObject. destruct (ll2string_junk 32 32 v) as (t & rest & Ht & He & Htz); [lia | done | done|].
  destruct (rdbEncodeInteger_nil v) as [Hnil|[Hpos Hr]].
  - rewrite Hnil. change (0 <? 0) with false. cbv iota. rewrite He. cbn [mbind option_bind]. rewrite (proj2 (Z.ltb_lt _ _)) by lia. cbn [negb].
    pose proof (zlen_nonneg t). destruct (saves_len (zlen t)) as [Hs1 Hs2]; [lia|].
    exists (enc_len (zlen t) ++ t), t. split; [done|]. split; [constructor|]. split; [rewrite zlen_app; lia|].
    eapply saves_bind; [exact Hs1 | lia|]. eapply saves_eq; [eapply saves_bind; [eapply saves_load; [by apply mem_load_head | apply saves_raw] | apply zlen_nonneg | apply saves_ret] | apply app_nil_r | by rewrite zlen_app].
  - exists (rdbEncodeInteger v), t. rewrite (proj2 (Z.ltb_lt _ _)) by done. split_and!; [done | by constructor | done | apply saves_raw].
Qed.

End save_facts.

(** ** What the loaders read *)

Section load_facts.
Context {S : Type} `{RioSpec S} `{Allocator}.
Context {compress decompress : list Z -> list Z -> option (Z * list Z)} `{!LzfSpec compress decompress}.
Context (ctx : load_ctx).
Implicit Types r : rio S.

(** [m] consumes exactly the bytes [bs] and returns [a], whatever follows. *)
Definition loads {A} (m : M A) (bs : list Z) (a : A) : Prop := forall r rest, readable r -> unread r = bs ++ rest ->
  exists r', m r = Some (Returns (a, r')) /\ readable r' /\ unread r' = rest.

Lemma loads_ret {A} (a : A) : loads (m_ret a) [] a.
Proof. intros r rest Hr Hu. by exists r. Qed.

Lemma loads_bind {A B} (m : M A) (k : A -> M B) b1 b2 a b : loads m b1 a -> loads (k a) b2 b -> loads (m_bind m k) (b1 ++ b2) b.
Proof.
  intros Hm Hk r rest Hr Hu. rewrite <- app_assoc in Hu. destruct (Hm r _ Hr Hu) as (r1 & E & Hr1 & Hu1). unfold m_bind. rewrite E. by apply Hk.
Qed.

(** A step that reads nothing. *)
Lemma loads_pure {A B} (m : M A) (k : A -> M B) bs a b : loads m [] a -> loads (k a) bs b -> loads (m_bind m k) bs b.
Proof. exact (loads_bind m k [] bs a b). Qed.

Lemma loads_lift {A} (o : option A) a : o = Some a -> loads (m_lift o) [] a.
Proof. intros -> r rest Hr Hu. by exists r. Qed.

(** A pointer with room for [len] bytes *)
Definition fits (p : dest) (len : Z) : Prop := 0 <= snd p /\ snd p + len <= zlen (fst p).

Lemma fits_array n len : len <= Z.of_nat n -> fits (array n) len.
Proof. intros H'. unfold fits, array, zlen. cbn [fst snd]. rewrite length_junk_bytes. lia. Qed.

(** What was stored is what is loaded. *)
Lemma mem_load_store m off bs m' : mem_store m off bs = Some m' -> mem_load m' off (zlen bs) = Some bs.
Proof.
  intros Hs. unfold mem_store in Hs. case_bool_decide as Hb; [|done]. injection Hs as <-. apply mem_load_mid; [|done]. unfold zlen. rewrite length_take. lia.
Qed.

(** A store that fills the block *)
Lemma mem_store_whole m bs m' : mem_store m 0 bs = Some m' -> zlen m = zlen bs -> m' = bs.
Proof.
  unfold mem_store, zlen. case_bool_decide; [|done]. intros [= <-] Hz. change (Z.to_nat 0) with 0%nat. cbn [take app]. rewrite drop_ge by lia. apply app_nil_r.
Qed.

Lemma loads_read {A} p n err (k : dest -> M A) b1 b2 a : fits p n -> n = zlen b1 ->
  (forall m, mem_store (fst p) (snd p) b1 = Some m -> loads (k (m, snd p)) b2 a) -> loads (m_read p n err k) (b1 ++ b2) a.
Proof.
  intros [Hp Hf] -> Hk r rest Hr Hu. rewrite <- app_assoc in Hu. destruct (rioRead_ok r b1 _ Hr Hu) as (r1 & E & Hr1 & Hu1).
  unfold m_read. rewrite bool_decide_true by done. cbn [negb]. rewrite E. simpl_bind. destruct (mem_store_some (fst p) (snd p) b1) as (m & Hm & _); [done | done|].
  rewrite Hm. simpl_bind. by apply Hk.
Qed.

(** A read of the rest. *)
Lemma loads_read_all {A} p n err (k : dest -> M A) bs a : fits p n -> n = zlen bs ->
  (forall m, mem_store (fst p) (snd p) bs = Some m -> loads (k (m, snd p)) [] a) -> loads (m_read p n err k) bs a.
Proof. intros Hf Hn Hk. rewrite <- (app_nil_r bs). by apply loads_read. Qed.

Lemma loads_load m off n s : mem_load m off n = Some s -> loads (m_load (m, off) n) [] s.
Proof. intros Hl. by apply loads_lift. Qed.

(** A read of a whole variable *)
Lemma loads_value {A} (w : nat) n err (k : list Z -> M A) bs a : n = zlen bs -> n <= Z.of_nat w -> loads (k bs) [] a ->
  loads (m_read (array w) n err (fun b => m_bind (m_load b n) k)) bs a.
Proof.
  intros Hn Hw Hk. apply loads_read_all; [by apply fits_array | done|]. intros m Hm. eapply loads_pure; [apply loads_load; rewrite Hn; by eapply mem_load_store | done].
Qed.

(** The first byte in a buffer of two *)
Lemma store_first b m : mem_store (fst (array 2)) 0 [b] = Some m -> exists j, m = [b; j].
Proof. intros [= <-]. by eexists. Qed.

Lemma le_decode_be_bytes n z : le_decode (reverse (be_bytes n z)) = z mod 256 ^ Z.of_nat n.
Proof. unfold be_bytes. by rewrite reverse_involutive, le_decode_encode. Qed.

Lemma len_type b : is_byte b -> Z.shiftr (Z.land b 192) 6 = b / 64 /\ Z.land b 63 = b mod 64.
Proof.
  intros Hb. split; [|exact (land_pow2 b 6 ltac:(lia))]. apply Z.eqb_eq.
  by apply (byte_forall (fun b => Z.shiftr (Z.land b 192) 6 =? b / 64)).
Qed.

Lemma loads_len_by_ref len : 0 <= len < 2 ^ 64 -> loads (rdbLoadLenByRef ctx) (enc_len len) (Some (false, len)).
Proof.
  intros Hl. unfold enc_len, rdbLoadLenByRef.
  destruct (Z.ltb_spec len 64); [|destruct (Z.ltb_spec len 16384); [|destruct (Z.leb_spec len UINT32_MAX)]].
  - apply (loads_read _ 1 None _ [len] []); [by apply fits_array | done|]. intros m [j ->]%store_first. eapply loads_pure; [by apply loads_lift|]. cbn zeta.
    destruct (len_type len) as [-> ->]; [unfold is_byte; lia|]. rewrite Z.div_small, Z.mod_small by lia. apply loads_ret.
  - apply (loads_read _ 1 None _ [64 + len / 256] [len mod 256]); [by apply fits_array | done|]. intros m [j ->]%store_first. eapply loads_pure; [by apply loads_lift|]. cbn zeta.
    destruct (len_type (64 + len / 256)) as [-> ->]; [unfold is_byte; Z.div_mod_to_equations; lia|].
    replace ((64 + len / 256) / 64) with 1 by (Z.div_mod_to_equations; lia). change (1 =? RDB_ENCVAL) with false. change (1 =? RDB_6BITLEN) with false.
    change (1 =? RDB_14BITLEN) with true. cbv iota. apply loads_read_all; [by split | done|]. intros m [= <-]. eapply loads_pure; [by apply loads_lift|]. eapply loads_pure; [by apply loads_lift|].
    destruct (len_type (64 + len / 256)) as [_ ->]; [unfold is_byte; Z.div_mod_to_equations; lia|].
    replace ((64 + len / 256) mod 64) with (len / 256) by (Z.div_mod_to_equations; lia). rewrite Z.lor_comm, shiftl_lor_add; [|lia|change (2 ^ 8) with 256; apply Z.mod_pos_bound; lia].
    replace (len mod 256 + len / 256 * 2 ^ 8) with len by (change (2 ^ 8) with 256; Z.div_mod_to_equations; lia). apply loads_ret.
  - apply (loads_read _ 1 None _ [RDB_32BITLEN]); [by apply fits_array | done|]. intros m [j ->]%store_first. eapply loads_pure; [by apply loads_lift|]. cbn zeta.
    apply loads_value; [by rewrite zlen_be_bytes | lia|]. rewrite le_decode_be_bytes, Z.mod_small; [apply loads_ret|].
    change (256 ^ Z.of_nat 4) with 4294967296. unfold_limits. lia.
  - apply (loads_read _ 1 None _ [RDB_64BITLEN]); [by apply fits_array | done|]. intros m [j ->]%store_first. eapply loads_pure; [by apply loads_lift|]. cbn zeta.
    apply loads_value; [by rewrite zlen_be_bytes | lia|]. rewrite le_decode_be_bytes, Z.mod_small; [apply loads_ret|].
    change (256 ^ Z.of_nat 8) with (2 ^ 64). lia.
Qed.

Lemma loads_len len : 0 <= len < 2 ^ 64 -> loads (rdbLoadLen ctx) (enc_len len) (false, len).
Proof.
  intros Hl. unfold rdbLoadLen. rewrite <- (app_nil_r (enc_len len)). eapply loads_bind; [by apply loads_len_by_ref | apply loads_ret].
Qed.

(** The first byte of an encoded value. *)
Lemma loads_encval e : 0 <= e < 64 -> loads (rdbLoadLen ctx) [192 + e] (true, e).
Proof.
  intros He. unfold rdbLoadLen. rewrite <- (app_nil_r [192 + e]). apply (loads_bind _ _ _ _ (Some (true, e))); [|apply loads_ret].
  unfold rdbLoadLenByRef. apply loads_read_all; [by apply fits_array | done|]. intros m [j ->]%store_first. eapply loads_pure; [by apply loads_lift|]. cbn zeta.
  destruct (len_type (192 + e)) as [-> ->]; [unfold is_byte; lia|]. replace ((192 + e) / 64) with 3 by (Z.div_mod_to_equations; lia).
  replace ((192 + e) mod 64) with e by (Z.div_mod_to_equations; lia). apply loads_ret.
Qed.

(** The kind of value that the flags ask for, with the contents [s]. *)
Definition value_for (flags : Z) (s : list Z) (v : rdb_value) : Prop :=
  if flag flags RDB_LOAD_PLAIN then v = VPlain s
  else if flag flags RDB_LOAD_SDS then v = VSds s
  else if flag flags RDB_LOAD_ENC then
    v = VObj (OBJ_ENCODING_EMBSTR s) \/ v = VObj (OBJ_ENCODING_RAW s) \/ exists i, v = VObj (OBJ_ENCODING_INT i) /\ canonical s i
  else v = VObj (OBJ_ENCODING_RAW s).

Lemma encode_integer v : - 2 ^ 31 <= v < 2 ^ 31 -> exists e (n : nat) w, rdbEncodeInteger v = (192 + e) :: le_encode n v /\
  (e = RDB_ENC_INT8 /\ n = 1%nat /\ w = 8 \/ e = RDB_ENC_INT16 /\ n = 2%nat /\ w = 16 \/ e = RDB_ENC_INT32 /\ n = 4%nat /\ w = 32) /\
  swrap w (le_decode (le_encode n v)) = v.
Proof.
  intros Hv. unfold rdbEncodeInteger. change (Z.shiftl 1 7) with 128. change (Z.shiftl 1 15) with 32768. change (Z.shiftl 1 31) with 2147483648.
  change (2 ^ 31) with 2147483648 in Hv. rewrite !land_255, !Z.shiftr_div_pow2 by lia.
  change (2 ^ 8) with 256. change (2 ^ 16) with 65536. change (2 ^ 24) with 16777216.
  repeat match goal with |- context [if ?b then _ else _] => destruct b eqn:? end; rewrite ?andb_true_iff, ?andb_false_iff, ?Z.leb_le, ?Z.leb_gt in *.
  - exists RDB_ENC_INT8, 1%nat, 8. split; [done|]. split; [by left|]. cbn [le_encode le_decode]. machine.
  - exists RDB_ENC_INT16, 2%nat, 16. split; [done|]. split; [by right; left|]. cbn [le_encode le_decode]. machine.
  - exists RDB_ENC_INT32, 4%nat, 32. split; [cbn [le_encode]; rewrite !Z.div_div by lia; done|]. split; [by right; right|].
    rewrite le_decode_encode. change (v mod 256 ^ Z.of_nat 4) with (u32 v). rewrite swrap_uwrap by lia. apply swrap_small; [lia|]. change (2 ^ (32 - 1)) with 2147483648. lia.
  - lia.
Qed.

(** *** Blocks *)

Lemma hdr_size len : 1 <= sdsHdrSize_for len <= 17.
Proof. unfold sdsHdrSize_for. repeat case_match; lia. Qed.

Lemma sds_in_ok sh hdrlen len : 0 <= hdrlen -> 0 <= len -> zlen sh = hdrlen + len + 1 -> exists p, sds_in sh hdrlen len = Some p /\ fits p len.
Proof.
  intros Hh Hl Hz. unfold sds_in. destruct (mem_store_some sh (hdrlen + len) [0]) as (m & -> & Hm); [lia | rewrite Hz; change (zlen [0]) with 1; lia|]. simpl_bind.
  eexists. split; [done|]. unfold fits. cbn [fst snd]. lia.
Qed.

Lemma zlen_zmalloc n : 0 <= n -> zlen (zmalloc n) = n.
Proof. intros Hn. unfold zmalloc, zlen. rewrite length_junk_bytes. lia. Qed.

Lemma alloc_result (plain : bool) len : 0 <= len -> exists p, loads (if plain then m_ret (zmalloc len, 0) else sdsnewlen len) [] p /\ fits p len.
Proof.
  intros Hl. destruct plain; [eexists; split; [apply loads_ret | unfold fits; cbn [fst snd]; rewrite zlen_zmalloc; lia]|].
  pose proof (hdr_size len). destruct (sds_in_ok (zmalloc (sdsHdrSize_for len + len + 1)) (sdsHdrSize_for len) len) as (p & Hp & Hf); [lia | lia | apply zlen_zmalloc; lia|].
  exists p. split; [by apply loads_lift | done].
Qed.

Lemma loads_sdstrynewlen len : 0 <= len < 2 ^ 64 - 18 -> (forall n, 0 <= n <= len + 18 -> x_can_alloc ctx n = true) ->
  exists p, loads (sdstrynewlen ctx len) [] (Some p) /\ fits p len.
Proof.
  intros Hl Ha. unfold sdstrynewlen, ztrymalloc. cbv zeta. pose proof (hdr_size len) as Hh.
  rewrite uwrap_small by lia. rewrite (proj2 (Z.ltb_lt _ _)) by lia. rewrite Ha by lia.
  destruct (sds_in_ok (zmalloc (sdsHdrSize_for len + len + 1)) (sdsHdrSize_for len) len) as (p & Hp & Hf); [lia | lia | apply zlen_zmalloc; lia|].
  exists p. split; [|done]. eapply loads_pure; [apply loads_ret|]. eapply loads_pure; [apply loads_lift; exact Hp | apply loads_ret].
Qed.

Lemma loads_try_result (plain : bool) len : 0 <= len < 2 ^ 64 - 18 -> (forall n, 0 <= n <= len + 18 -> x_can_alloc ctx n = true) ->
  exists p, loads (try_result ctx plain len) [] (Some p) /\ fits p len.
Proof.
  intros Hl Ha. unfold try_result. destruct plain; [|by apply loads_sdstrynewlen]. eexists. split.
  - eapply loads_pure; [apply loads_ret|]. rewrite Ha by lia. apply loads_ret.
  - unfold fits. cbn [fst snd]. fold (zmalloc len). rewrite zlen_zmalloc; lia.
Qed.

Lemma loads_result p s (f : list Z -> rdb_value) : fits p (zlen s) -> loads (read_result p (zlen s) f) s (Some (f s)).
Proof.
  intros Hf. unfold read_result. cbv zeta. destruct (Z.eqb_spec (zlen s) 0) as [Hz|Hz]; cbn [negb].
  - apply zlen_eq_nil in Hz as ->. destruct p as [m off]. eapply loads_pure; [apply loads_load|apply loads_ret].
    destruct Hf as [Ho Hl]. cbn [fst snd] in *. change (zlen []) with 0 in *. unfold mem_load. rewrite bool_decide_true by (unfold zlen in Hl; lia). done.
  - apply loads_read_all; [done | done|]. intros m Hm. eapply loads_pure; [apply loads_load; by eapply mem_load_store | apply loads_ret].
Qed.

Lemma loads_integer flags s v : canonical s v -> - 2 ^ 31 <= v < 2 ^ 31 ->
  exists x, value_for flags s x /\ loads (rdbGenericLoadStringObject decompress ctx flags) (rdbEncodeInteger v) (Some x).
Proof.
  intros Hcan Hv. destruct (encode_integer v Hv) as (e & n & w & -> & Hcase & Hw). assert (is_ll v) as Hll by (unfold_limits; lia).
  set (finish := fun val : Z => if flag flags RDB_LOAD_PLAIN || flag flags RDB_LOAD_SDS then
      m_bind (m_lift (ll2string (junk_bytes 0 21) 21 val)) (fun bl => m_bind (if flag flags RDB_LOAD_PLAIN then m_ret (zmalloc (snd bl), 0) else sdsnewlen (snd bl)) (fun p =>
      m_bind (m_lift (mem_load (fst bl) 0 (snd bl))) (fun s => m_bind (m_lift (mem_store (fst p) (snd p) s)) (fun m => m_bind (m_load (m, snd p) (snd bl)) (fun s =>
      m_ret (S := S) (Some (if flag flags RDB_LOAD_PLAIN then VPlain s else VSds s)))))))
    else if flag flags RDB_LOAD_ENC then m_ret (Some (VObj (OBJ_ENCODING_INT val)))
    else m_bind (m_lift (sdsfromlonglong val)) (fun s => m_ret (Some (VObj (OBJ_ENCODING_RAW s))))).
  assert (exists x, value_for flags s x /\ loads (finish v) [] (Some x)) as (x & Hx & Hfin).
  { unfold finish, value_for. destruct (ll2string_junk 21 21 v) as (t & rest & Ht & He & _); [lia | done | done|].
    rewrite (canonical_inj t s v) in * by done. destruct (flag flags RDB_LOAD_PLAIN || flag flags RDB_LOAD_SDS) eqn:Hps.
    - destruct (alloc_result (flag flags RDB_LOAD_PLAIN) (zlen s)) as (p & Hp & Hf); [apply zlen_nonneg|]. destruct (mem_store_some (fst p) (snd p) s) as (m & Hm & _); [apply Hf | apply Hf|].
      eexists. split; [|eapply loads_pure; [by apply loads_lift|]; cbn [fst snd]; eapply loads_pure; [exact Hp|]; eapply loads_pure; [apply loads_lift; by apply mem_load_head|];
        eapply loads_pure; [apply loads_lift; exact Hm|]; eapply loads_pure; [apply loads_load; by eapply mem_load_store | apply loads_ret]].
      destruct (flag flags RDB_LOAD_PLAIN); [done|]. cbn in Hps. by rewrite Hps.
    - apply orb_false_elim in Hps as [-> ->]. destruct (flag flags RDB_LOAD_ENC).
      + eexists. split; [|apply loads_ret]. right. right. by eexists.
      + destruct (sdsfromlonglong_ok v) as (t' & Ht' & E); [done | unfold_limits; lia|]. rewrite (canonical_inj t' s v) in * by done.
        eexists. split; [|eapply loads_pure; [by apply loads_lift | apply loads_ret]]. done. }
  exists x. split; [done|]. unfold rdbGenericLoadStringObject. cbn zeta.
  eapply (loads_bind _ _ [192 + e] (le_encode n v) (true, e)); [apply loads_encval; unfold RDB_ENC_INT8, RDB_ENC_INT16, RDB_ENC_INT32 in *; lia|].
  rewrite <- Hw in Hfin. destruct Hcase as [(-> & -> & ->)|[(-> & -> & ->)|(-> & -> & ->)]]; (apply loads_value; [by rewrite zlen_encode | lia|]); exact Hfin.
Qed.

Lemma loads_lzf flags s c : 20 < zlen s < 2 ^ 32 -> zlen c <= zlen s - 4 -> (forall n, 0 <= n <= zlen s + 18 -> x_can_alloc ctx n = true) ->
  (forall buf, zlen buf = zlen s -> decompress c buf = Some (zlen s, s)) ->
  exists x, value_for flags s x /\ loads (rdbLoadLzfStringObject decompress ctx flags) (enc_len (zlen c) ++ enc_len (zlen s) ++ c) (Some x).
Proof.
  intros Hs Hc Ha Hd. pose proof (zlen_nonneg c). unfold rdbLoadLzfStringObject, value_for. cbv zeta.
  destruct (loads_try_result (flag flags RDB_LOAD_PLAIN) (zlen s)) as (p & Hp & Hf); [lia | done|]. pose proof Hf as [Hf1 Hf2].
  destruct (mem_load_some (fst p) (snd p) (zlen s)) as (ob & Hob & Hobz); [done | lia | lia|].
  destruct (mem_store_some (fst p) (snd p) s) as (pm' & Hst & _); [done | lia|]. eexists. split.
  2: { eapply loads_bind; [apply loads_len; lia|]. cbn [snd]. rewrite (proj2 (Z.eqb_neq (zlen c) _)) by (unfold RDB_LENERR; unfold_limits; lia).
    eapply loads_bind; [apply loads_len; lia|]. cbn [snd]. rewrite (proj2 (Z.eqb_neq (zlen s) _)) by (unfold RDB_LENERR; unfold_limits; lia).
    eapply loads_pure; [apply loads_ret|]. rewrite Ha by lia. cbv beta iota. eapply loads_pure; [exact Hp|]. cbv beta iota.
    apply loads_read_all; [unfold fits; cbn [fst snd]; fold (zmalloc (zlen c)); rewrite zlen_zmalloc; lia | done|]. intros m Hm. cbn [fst snd] in *.
    rewrite !uwrap_small by lia. eapply loads_pure; [apply loads_load; by eapply mem_load_store|]. destruct p as [pm po]. cbn [fst snd] in *.
    eapply loads_pure; [apply loads_load; exact Hob|]. eapply loads_pure; [apply loads_lift; by apply Hd|]. cbn [fst snd]. rewrite Z.eqb_refl. cbn [negb].
    eapply loads_pure; [apply loads_lift; exact Hst|]. eapply loads_pure; [apply loads_load; by eapply mem_load_store|]. apply loads_ret. }
  destruct (flag flags RDB_LOAD_PLAIN), (flag flags RDB_LOAD_SDS), (flag flags RDB_LOAD_ENC); (done || by right; left).
Qed.

(** Whatever the encoding, loading gives the string. *)
Lemma loads_string flags s bs : string_enc decompress s bs -> zlen s < 2 ^ 64 - 18 -> (forall n, 0 <= n <= zlen s + 18 -> x_can_alloc ctx n = true) ->
  exists x, value_for flags s x /\ loads (rdbGenericLoadStringObject decompress ctx flags) bs (Some x).
Proof.
  intros [v Hcan Hv|c Hs Hc Hbc Hd|] Hz Ha; [by apply loads_integer|..].
  - destruct (loads_lzf flags s c Hs Hc Ha Hd) as (x & Hx & Hl). exists x. split; [done|]. unfold rdbGenericLoadStringObject. cbv zeta.
    apply (loads_bind _ _ [192 + 3] _ (true, 3)); [by apply loads_encval | exact Hl].
  - pose proof (zlen_nonneg s). unfold rdbGenericLoadStringObject, value_for. cbv zeta.
    destruct (flag flags RDB_LOAD_PLAIN || flag flags RDB_LOAD_SDS) eqn:Hps.
    + exists (if flag flags RDB_LOAD_PLAIN then VPlain s else VSds s). split; [destruct (flag flags RDB_LOAD_PLAIN); [done|]; cbn in Hps; by rewrite Hps|].
      eapply loads_bind; [apply loads_len; lia|]. cbv beta iota. rewrite (proj2 (Z.eqb_neq (zlen s) _)) by (unfold RDB_LENERR; unfold_limits; lia).
      destruct (loads_try_result (flag flags RDB_LOAD_PLAIN) (zlen s)) as (p & Hp & Hf); [lia | done|]. eapply loads_pure; [exact Hp|]. cbv beta iota.
      destruct (flag flags RDB_LOAD_PLAIN); by apply loads_result.
    + apply orb_false_elim in Hps as [-> ->].
      assert (exists o p, loads (if flag flags RDB_LOAD_ENC then tryCreateStringObject ctx (zlen s) else tryCreateRawStringObject ctx (zlen s)) [] (Some (o, p)) /\ fits p (zlen s) /\
        if flag flags RDB_LOAD_ENC then o = OBJ_ENCODING_EMBSTR \/ o = OBJ_ENCODING_RAW else o = OBJ_ENCODING_RAW) as (o & p & Ho & Hf & Hkind).
      { assert (exists p, loads (tryCreateRawStringObject ctx (zlen s)) [] (Some (OBJ_ENCODING_RAW, p)) /\ fits p (zlen s)) as (p & Hraw & Hf).
        { destruct (loads_sdstrynewlen (zlen s)) as (p & Hp & Hf); [lia | done|]. exists p. split; [|done]. eapply loads_pure; [exact Hp | apply loads_ret]. }
        destruct (flag flags RDB_LOAD_ENC); [|by exists OBJ_ENCODING_RAW, p]. unfold tryCreateStringObject.
        destruct (_ <=? _); [|exists OBJ_ENCODING_RAW, p; split; [done|]; split; [done | by right]].
        unfold createEmbeddedStringObject. cbv zeta. destruct (sds_in_ok (zmalloc (sizeof_robj + sizeof_sdshdr8 + zlen s + 1)) (sizeof_robj + sizeof_sdshdr8) (zlen s)) as (q & Hq & Hfq);
          [done | lia | rewrite zlen_zmalloc; unfold sizeof_robj, sizeof_sdshdr8; lia|].
        exists OBJ_ENCODING_EMBSTR, q. split; [eapply loads_pure; [apply loads_lift; exact Hq | apply loads_ret]|]. split; [done | by left]. }
      exists (VObj (o s)). split; [destruct (flag flags RDB_LOAD_ENC); [destruct Hkind as [-> | ->]; [by left | by right; left] | by rewrite Hkind]|].
      eapply loads_bind; [apply loads_len; lia|]. cbv beta iota. rewrite (proj2 (Z.eqb_neq (zlen s) _)) by (unfold RDB_LENERR; unfold_limits; lia).
      eapply loads_pure; [exact Ho|]. cbv beta iota. by apply (loads_result p s (fun s => VObj (o s))).
Qed.

End load_facts.
(** ** Loading arbitrary bytes *)

Section safety.
Context {S : Type} `{RioSpec S} `{Allocator}.
Context {compress decompress : list Z -> list Z -> option (Z * list Z)} `{!LzfSpec compress decompress}.
Context (ctx : load_ctx).
(** When an assertion may fail. *)
Context (may_abort : Prop).
Implicit Types r : rio S.

(** A stream of bytes, or one that had an error. *)
Definition stream_ok r : Prop := rioGetReadError r = true \/ readable r /\ bytes_ok (unread r).

(** [m] ends without a memory error; it leaves the process only while loading a data set. *)
Definition safe {A} (m : M A) (Q : A -> Prop) : Prop := forall r, stream_ok r ->
  match m r with
  | None => False
  | Some (Returns (a, r')) => stream_ok r' /\ Q a
  | Some Exits => x_loading ctx = true
  | Some Aborts => may_abort
  end.

Lemma safe_ret {A} (a : A) (Q : A -> Prop) : Q a -> safe (m_ret a) Q.
Proof. intros HQ r Hr. by split. Qed.

Lemma safe_bind {A B} (m : M A) (k : A -> M B) P Q : safe m P -> (forall a, P a -> safe (k a) Q) -> safe (m_bind m k) Q.
Proof.
  intros Hm Hk r Hr. unfold m_bind. specialize (Hm r Hr). destruct (m r) as [[[a r']| |]|]; try done. destruct Hm as [Hr' Ha]. by apply Hk.
Qed.

Lemma safe_lift {A} (o : option A) (Q : A -> Prop) a : o = Some a -> Q a -> safe (m_lift o) Q.
Proof. intros -> HQ r Hr. by split. Qed.

Lemma safe_read {A} p n err (k : dest -> M A) Q : 0 <= n -> fits p n -> Q err ->
  (forall bs m, bytes_ok bs -> zlen bs = n -> mem_store (fst p) (snd p) bs = Some m -> safe (k (m, snd p)) Q) -> safe (m_read p n err k) Q.
Proof.
  intros Hn [Hp Hf] Herr Hk r Hr. unfold m_read. rewrite bool_decide_true by done. cbn [negb]. destruct Hr as [He|[Hr Hb]].
  - unfold rioRead. rewrite He. simpl_bind. split; [by left | done].
  - destruct (rioRead_cases r n Hr Hn) as [(bs & r' & Hz & -> & Hr' & Hu)|(r' & -> & He)]; simpl_bind.
    + rewrite Hu in Hb. apply Forall_app in Hb as [Hb1 Hb2]. destruct (mem_store_some (fst p) (snd p) bs) as (m & Hm & _); [done | lia|]. rewrite Hm. simpl_bind.
      apply (Hk bs m); [done | done | done|]. right. by split.
    + split; [by left | done].
Qed.

Lemma safe_load p n s (Q : list Z -> Prop) : mem_load (fst p) (snd p) n = Some s -> Q s -> safe (m_load p n) Q.
Proof. intros Hl HQ. by eapply safe_lift. Qed.

(** A read of a whole variable *)
Lemma safe_value {A} (w : nat) n err (k : list Z -> M A) Q : 0 <= n <= Z.of_nat w -> Q err -> (forall bs, bytes_ok bs -> zlen bs = n -> safe (k bs) Q) ->
  safe (m_read (array w) n err (fun b => m_bind (m_load b n) k)) Q.
Proof.
  intros Hn Herr Hk. apply safe_read; [lia | apply fits_array; lia | done|]. intros bs m Hb Hz Hm.
  eapply (safe_bind _ _ (fun x => x = bs)); [eapply safe_load; [|done]; cbn [fst snd]; rewrite <- Hz; by eapply mem_load_store|]. intros ? ->. by apply Hk.
Qed.

Lemma safe_report {A} (a : A) (Q : A -> Prop) : Q a -> safe (m_bind (rdbReportError ctx true) (fun _ => m_ret a)) Q.
Proof.
  intros HQ. eapply (safe_bind _ _ (fun _ => True)); [|intros _ _; by apply safe_ret]. unfold rdbReportError.
  destruct (x_loading ctx) eqn:He; cbn [negb]; [|by apply safe_ret].
  destruct (x_check_mode ctx); [by intros r Hr|]. destruct (x_file ctx); by intros r Hr.
Qed.

Lemma head_byte bs n : zlen bs = n -> 0 < n -> bytes_ok bs -> exists b, head bs = Some b /\ is_byte b.
Proof.
  intros Hz Hn Hb. destruct bs as [|b bs]; [change (zlen []) with 0 in Hz; lia|]. exists b. split; [done|]. by apply Forall_inv in Hb.
Qed.

Lemma decode_rev_range bs n : zlen bs = n -> bytes_ok bs -> 0 <= le_decode (reverse bs) < 256 ^ n.
Proof.
  intros <- Hb. assert (zlen bs = zlen (reverse bs)) as -> by (unfold zlen; by rewrite length_reverse). apply le_decode_range. by apply Forall_reverse.
Qed.

Lemma safe_len : safe (rdbLoadLen ctx) (fun x => 0 <= snd x < 2 ^ 64).
Proof.
  unfold rdbLoadLen. eapply (safe_bind _ _ (fun x => match x with None => True | Some x => 0 <= snd x < 2 ^ 64 end)).
  2: { intros [x|] Hx; by apply safe_ret. }
  unfold rdbLoadLenByRef. apply safe_read; [lia | by apply fits_array | done|]. intros bs m Hb Hz Hm. destruct (head_byte bs 1 Hz ltac:(lia) Hb) as (b & E & Hbb).
  assert (bs = [b]) as -> by (destruct bs as [|? [|? ?]]; [done | by injection E as -> | rewrite !zlen_cons in Hz; pose proof (zlen_nonneg l); lia]). apply store_first in Hm as [j ->].
  eapply (safe_bind _ _ (fun x => x = b)); [by eapply safe_lift|]. intros ? ->. cbv zeta. destruct (len_type b Hbb) as [_ Hmod].
  assert (0 <= b mod 64 < 64) by (apply Z.mod_pos_bound; lia). rewrite Hmod.
  destruct (_ =? RDB_ENCVAL); [apply safe_ret; cbn [snd]; lia|]. destruct (_ =? RDB_6BITLEN); [apply safe_ret; cbn [snd]; lia|].
  destruct (_ =? RDB_14BITLEN).
  { apply safe_read; [lia | by split | done|]. intros bs' m Hb' Hz' Hm. destruct (head_byte bs' 1 Hz' ltac:(lia) Hb') as (b' & E' & Hbb').
    assert (bs' = [b']) as -> by (destruct bs' as [|? [|? ?]]; [done | by injection E' as -> | rewrite !zlen_cons in Hz'; pose proof (zlen_nonneg l); lia]). injection Hm as <-.
    eapply (safe_bind _ _ (fun x => x = b)); [by eapply safe_lift|]. intros ? ->. eapply (safe_bind _ _ (fun x => x = b')); [by eapply safe_lift|]. intros ? ->. rewrite Hmod.
    apply safe_ret. cbn [snd]. unfold is_byte in *. rewrite Z.lor_comm, shiftl_lor_add; [|lia | change (2 ^ 8) with 256; lia]. change (2 ^ 8) with 256. lia. }
  destruct (_ =? RDB_32BITLEN).
  { apply safe_value; [lia | done|]. intros bs' Hb' Hz'. apply safe_ret. cbn [snd]. pose proof (decode_rev_range bs' 4 Hz' Hb'). change (256 ^ 4) with (2 ^ 32) in *. lia. }
  destruct (_ =? RDB_64BITLEN); [|by apply safe_report].
  apply safe_value; [lia | done|]. intros bs' Hb' Hz'. apply safe_ret. cbn [snd]. pose proof (decode_rev_range bs' 8 Hz' Hb'). change (256 ^ 8) with (2 ^ 64) in *. lia.
Qed.

(** A block that was asked for, if there is one, has room for the bytes. *)
Definition room_for (len : Z) (o : option dest) : Prop := match o with None => True | Some p => fits p len end.

Lemma safe_sds_in sh hdrlen len : 0 <= hdrlen -> 0 <= len -> zlen sh = hdrlen + len + 1 -> safe (m_lift (sds_in sh hdrlen len)) (fun p => fits p len).
Proof. intros Hh Hl Hz. destruct (sds_in_ok sh hdrlen len Hh Hl Hz) as (p & Hp & Hf). by eapply safe_lift. Qed.

Lemma safe_sdstrynewlen len : may_abort -> 0 <= len -> safe (sdstrynewlen ctx len) (room_for len).
Proof.
  intros Hab Hl. unfold sdstrynewlen, ztrymalloc. cbv zeta. destruct (_ <? _); [|by intros r Hr]. pose proof (hdr_size len).
  eapply (safe_bind _ _ (fun x => x = None \/ x = Some (zmalloc (sdsHdrSize_for len + len + 1)))); [apply safe_ret; destruct (x_can_alloc _ _); [by right | by left]|].
  intros ? [-> | ->]; [by apply safe_ret|]. eapply safe_bind; [apply safe_sds_in; [lia | lia | apply zlen_zmalloc; lia]|]. intros p Hp. by apply safe_ret.
Qed.

Lemma safe_try_result (plain : bool) len : (plain = false -> may_abort) -> 0 <= len -> safe (try_result ctx plain len) (room_for len).
Proof.
  intros Hab Hl. unfold try_result. destruct plain; [|by apply safe_sdstrynewlen; [apply Hab|]].
  eapply (safe_bind _ _ (fun x => x = None \/ x = Some (zmalloc len))); [apply safe_ret; destruct (x_can_alloc _ _); [by right | by left]|].
  intros ? [-> | ->]; apply safe_ret; [done|]. unfold room_for, fits. cbn. rewrite zlen_zmalloc by lia. lia.
Qed.

Lemma safe_result p len (f : list Z -> rdb_value) : fits p len -> 0 <= len -> safe (read_result p len f) (fun _ => True).
Proof.
  intros Hf Hl. pose proof Hf as [H1' H2']. assert (forall m, zlen m = zlen (fst p) -> safe (m_bind (m_load (m, snd p) len) (fun s => m_ret (S := S) (Some (f s)))) (fun _ => True)) as Hfin.
  { intros m Hm. destruct (mem_load_some m (snd p) len) as (s & Hs & _); [done | done | lia|].
    eapply (safe_bind _ _ (fun _ => True)); [by eapply safe_load|]. intros. by apply safe_ret. }
  unfold read_result. cbv zeta. destruct (negb _).
  - apply safe_read; [done | done | done|]. intros bs m _ _ Hm. apply Hfin. unfold zlen. by rewrite (mem_store_length _ _ _ _ Hm).
  - destruct p as [m off]. by apply (Hfin m).
Qed.

Lemma swrap_int n w bs : zlen bs = n -> bytes_ok bs -> 0 < w <= 32 -> is_ll (swrap w (le_decode bs)) /\ swrap w (le_decode bs) <> LLONG_MIN.
Proof.
  intros _ _ Hw. pose proof (swrap_range w (le_decode bs) ltac:(lia)).
  assert (2 ^ (w - 1) <= 2 ^ 31) as Hp by (apply Z.pow_le_mono_r; lia). change (2 ^ 31) with 2147483648 in Hp. unfold_limits. lia.
Qed.

Lemma safe_integer enctype flags : safe (rdbLoadIntegerObject ctx enctype flags) (fun _ => True).
Proof.
  assert (forall val, is_ll val /\ val <> LLONG_MIN -> safe (if flag flags RDB_LOAD_PLAIN || flag flags RDB_LOAD_SDS then
      m_bind (m_lift (ll2string (junk_bytes 0 21) 21 val)) (fun bl => m_bind (if flag flags RDB_LOAD_PLAIN then m_ret (zmalloc (snd bl), 0) else sdsnewlen (snd bl)) (fun p =>
      m_bind (m_lift (mem_load (fst bl) 0 (snd bl))) (fun s => m_bind (m_lift (mem_store (fst p) (snd p) s)) (fun m => m_bind (m_load (m, snd p) (snd bl)) (fun s =>
      m_ret (S := S) (Some (if flag flags RDB_LOAD_PLAIN then VPlain s else VSds s)))))))
    else if flag flags RDB_LOAD_ENC then m_ret (Some (VObj (OBJ_ENCODING_INT val)))
    else m_bind (m_lift (sdsfromlonglong val)) (fun s => m_ret (Some (VObj (OBJ_ENCODING_RAW s))))) (fun _ => True)) as Hfin.
  { intros val [Hll Hmin]. destruct (_ || _).
    - destruct (ll2string_junk 21 21 val) as (t & rest & Ht & He & _); [lia | done | done|].
      eapply (safe_bind _ _ (fun x => x = (t ++ 0 :: rest, zlen t))); [by eapply safe_lift|]. intros ? ->. cbn [fst snd]. pose proof (zlen_nonneg t). pose proof (hdr_size (zlen t)).
      eapply (safe_bind _ _ (fun p => fits p (zlen t))).
      { destruct (flag flags RDB_LOAD_PLAIN); [apply safe_ret; unfold fits; cbn [fst snd]; rewrite zlen_zmalloc by lia; lia|]. apply safe_sds_in; [lia | lia | apply zlen_zmalloc; lia]. }
      intros p [Hp1 Hp2]. eapply (safe_bind _ _ (fun x => x = t)); [eapply safe_lift; [by apply mem_load_head | done]|]. intros ? ->.
      destruct (mem_store_some (fst p) (snd p) t) as (m & Hm & _); [done | done|]. eapply (safe_bind _ _ (fun x => x = m)); [by eapply safe_lift|]. intros ? ->.
      eapply (safe_bind _ _ (fun _ => True)); [eapply safe_load; [cbn [fst snd]; by eapply mem_load_store | done]|]. intros ? _. by apply safe_ret.
    - destruct (flag flags RDB_LOAD_ENC); [by apply safe_ret|]. destruct (sdsfromlonglong_ok val) as (t & _ & E); [done..|].
      eapply (safe_bind _ _ (fun _ => True)); [by eapply safe_lift|]. intros ? _. by apply safe_ret. }
  unfold rdbLoadIntegerObject. cbv zeta.
  repeat (destruct (_ =? _); [apply safe_value; [lia | done|]; intros bs Hb Hz; apply Hfin; eapply swrap_int; (done || lia)|]).
  by apply safe_report.
Qed.

Lemma safe_lzf flags : (flag flags RDB_LOAD_PLAIN = false -> may_abort) -> safe (rdbLoadLzfStringObject decompress ctx flags) (fun _ => True).
Proof.
  intros Hab. unfold rdbLoadLzfStringObject. cbv zeta. eapply safe_bind; [apply safe_len|]. intros [e1 clen] Hc. cbn [snd] in *.
  destruct (_ =? _); [by apply safe_ret|]. eapply safe_bind; [apply safe_len|]. intros [e2 len] Hl. cbn [snd] in *.
  destruct (_ =? _); [by apply safe_ret|].
  eapply (safe_bind _ _ (fun x => x = None \/ x = Some (zmalloc clen))); [apply safe_ret; destruct (x_can_alloc _ _); [by right | by left]|].
  intros ? [-> | ->]; [by apply safe_ret|]. eapply (safe_bind _ _ (room_for len)); [apply safe_try_result; [done | lia]|]. intros [val|] Hval; [|by apply safe_ret].
  destruct Hval as [Hv1 Hv2]. apply safe_read; [lia | unfold fits; cbn [fst snd]; rewrite zlen_zmalloc by lia; lia | done|]. intros c m Hbc Hz Hm. cbn [fst snd] in Hm.
  assert (forall n, 0 <= n -> 0 <= u32 n <= n) as Hu. { intros n Hn. pose proof (uwrap_range 32 n). split; [lia|]. apply Z.mod_le; lia. }
  apply mem_store_whole in Hm as ->; [|rewrite zlen_zmalloc; lia].
  destruct (mem_load_some c 0 (u32 clen)) as (inp & Hinp & Hiz); [lia | apply Hu; lia | specialize (Hu clen); lia|].
  eapply (safe_bind _ _ (fun x => x = inp)); [by eapply safe_load|]. intros ? ->.
  destruct (mem_load_some (fst val) (snd val) (u32 len)) as (out & Hout & Hoz); [lia | apply Hu; lia | specialize (Hu len); lia|].
  eapply (safe_bind _ _ (fun x => x = out)); [by eapply safe_load|]. intros ? ->.
  destruct (decompress_safe inp out) as (n & out' & He & _ & Hoz'). { unfold mem_load in Hinp. case_bool_decide; [|done]. injection Hinp as <-. by apply Forall_take, Forall_drop. }
  eapply (safe_bind _ _ (fun x => x = (n, out'))); [by eapply safe_lift|]. intros ? ->. cbn [fst snd]. destruct (negb _); [by apply safe_report|].
  destruct (mem_store_some (fst val) (snd val) out') as (vm & Hvm & Hvz); [done | specialize (Hu len); lia|]. eapply (safe_bind _ _ (fun x => x = vm)); [by eapply safe_lift|]. intros ? ->.
  destruct (mem_load_some vm (snd val) len) as (s & Hs & _); [lia | lia | lia|]. eapply (safe_bind _ _ (fun _ => True)); [by eapply safe_load|]. intros. by apply safe_ret.
Qed.

Lemma safe_string flags : (flag flags RDB_LOAD_PLAIN = false -> may_abort) -> safe (rdbGenericLoadStringObject decompress ctx flags) (fun _ => True).
Proof.
  intros Hab. unfold rdbGenericLoadStringObject. cbv zeta. eapply safe_bind; [apply safe_len|]. intros [isenc len] Hl. cbn [snd] in *. cbv beta iota.
  destruct (len =? RDB_LENERR); [by apply safe_ret|]. destruct isenc.
  { destruct (_ || _); [apply safe_integer|]. destruct (_ =? _); [by apply safe_lzf | by apply safe_report]. }
  destruct (flag flags RDB_LOAD_PLAIN || flag flags RDB_LOAD_SDS) eqn:Hps.
  { eapply safe_bind; [apply safe_try_result; [done | lia]|]. intros [p|] Hp; [|by apply safe_ret]. apply safe_result; [done | lia]. }
  apply orb_false_elim in Hps as [Hp _]. specialize (Hab Hp).
  assert (safe (tryCreateRawStringObject ctx len) (fun o => match o with None => True | Some (_, p) => fits p len end)) as Hraw.
  { eapply safe_bind; [apply safe_sdstrynewlen; [done | lia]|]. intros [p|] Hf; by apply safe_ret. }
  eapply (safe_bind _ _ (fun o => match o with None => True | Some (_, p) => fits p len end)).
  { destruct (flag flags RDB_LOAD_ENC); [|done]. unfold tryCreateStringObject. destruct (_ <=? _); [|apply Hraw].
    eapply safe_bind; [apply safe_sds_in; [done | lia | rewrite zlen_zmalloc; unfold sizeof_robj, sizeof_sdshdr8; lia]|]. intros p Hf. by apply safe_ret. }
  intros [[o p]|] Hf; [|by apply safe_ret]. apply safe_result; [done | lia].
Qed.

End safety.

(** ** The compressor of Lzf.v implements the interface *)

Lemma enc_token_bytes acc t : token_ok acc t -> bytes_ok (enc_token t).
Proof.
  destruct t as [bs|off len]; cbn [token_ok enc_token].
  - intros [Hz Hb]. constructor; [unfold is_byte; lia | done].
  - unfold MAX_OFF, MAX_REF. intros (Ho & _ & Hl). assert (0 <= off / 256 < 32 /\ 0 <= off mod 256 < 256) by (Z.div_mod_to_equations; lia).
    destruct (Z.ltb_spec (len - 2) 7); repeat constructor; unfold is_byte; lia.
Qed.

Lemma enc_bytes ts acc : tokens_ok acc ts -> bytes_ok (enc ts).
Proof.
  revert acc. induction ts as [|t ts IH]; intros acc; [constructor|]. intros [Ht Hts]. change (enc (t :: ts)) with (enc_token t ++ enc ts).
  apply Forall_app. split; [by eapply enc_token_bytes | by eapply IH].
Qed.

#[export] Instance lzf_spec (garbage : Z -> Z) : LzfSpec (lzf_compress garbage) lzf_decompress.
Proof.
  split.
  - intros inp out Hb Hz. destruct (lzf_compress_ok garbage inp out Hb Hz) as (n & out' & He & Hn & Hok). exists n, out'. split; [done|]. split; [done|].
    intros Hn0. destruct (Hok Hn0) as (Hl & ts & -> & Hts & Hexp). split; [by eapply enc_bytes|]. split; [lia|].
    intros buf Hbuf. rewrite lzf_decompress_tokens; rewrite ?Hexp, ?Hbuf; done.
  - intros inp out Hb. unfold lzf_decompress. apply decompress_loop_safe; [done | split; [lia|apply zlen_nonneg]..|]. unfold zlen. lia.
Qed.

(** ** Theorems *)

(** The string that an object stands for. *)
Definition obj_string (o : robj_string) (s : list Z) : Prop :=
  match o with
  | OBJ_ENCODING_RAW t | OBJ_ENCODING_EMBSTR t => t = s
  | OBJ_ENCODING_INT v => is_ll v /\ canonical s v
  end.

Section theorems.
Context {S1 S2 : Type} `{RioSpec S1} `{RioSpec S2} `{Allocator}.
Context {compress decompress : list Z -> list Z -> option (Z * list Z)} `{!LzfSpec compress decompress}.

Lemma saves_object (o : robj_string) comp s : obj_string o s -> bytes_ok s -> zlen s < 2 ^ 64 -> (comp = true -> zlen s < 2 ^ 32) ->
  exists bs, string_enc decompress s bs /\ 0 < zlen bs /\ saves (S := S1) (rdbSaveStringObject compress comp o) bs (zlen bs).
Proof.
  intros Ho Hb Hz Hc. destruct o as [t|t|v]; cbn in Ho; [subst t; by apply saves_raw_string..|].
  destruct Ho as [Hll Hcan]. destruct (saves_ll (S := S1) (decompress := decompress) v Hll) as (bs & t & Ht & He & Hp & Hs).
  exists bs. by rewrite (canonical_inj s t v).
Qed.

(** C20. A string object that is saved and loaded back is the same string, in the representation that the flags
    ask for, for every way the writer encodes it (integer, compressed, verbatim), on every stream.  Saving
    either appends one such encoding and returns its length, which is also what it returns without a stream,
    or returns -1 after a write error; loading consumes exactly these bytes. Strings of 4 GiB or more are covered only with compression off. *)
Theorem rdb_string_roundtrip (o : robj_string) comp s flags ctx (w : rio S1) :
  obj_string o s -> bytes_ok s -> zlen s < 2 ^ 64 - 18 -> (comp = true -> zlen s < 2 ^ 32) ->
  (forall n, 0 <= n <= zlen s + 18 -> x_can_alloc ctx n = true) -> 0 <= r_max_processing_chunk w ->
  exists n w', rdbSaveStringObject compress comp o (Some w) = Some (n, Some w') /\
    (n = -1 /\ rioGetWriteError w' = true /\ written w `prefix_of` written w' \/
     exists bs x, n = zlen bs /\ 0 < n /\ written w' = written w ++ bs /\
       rdbSaveStringObject (S := S1) compress comp o None = Some (n, None) /\ value_for flags s x /\
       forall (r : rio S2) rest, readable r -> unread r = bs ++ rest ->
         exists r', rdbGenericLoadStringObject decompress ctx flags r = Some (Returns (Some x, r')) /\ readable r' /\ unread r' = rest).
Proof.
  intros Ho Hb Hz Hc Ha Hw. destruct (saves_object o comp s Ho Hb) as (bs & Henc & Hpos & Hnull & Hs); [lia | done|].
  destruct (Hs w Hw) as (n & w' & He & Hcase). exists n, w'. split; [done|].
  destruct Hcase as [[-> (Hwr & _)]|[-> [Herr Hp]]]; [right | by left].
  destruct (loads_string (S := S2) ctx flags s bs Henc Hz Ha) as (x & Hx & Hl). exists bs, x. by split_and!.
Qed.

(** C21. Loading a string from arbitrary bytes ends and never reads or writes memory outside of the blocks that were allocated for it, whatever
    the flags and however the allocator behaves: every read of the stream and the decompression go into a block of known size, and one that
    does not fit would be a memory error ([None]). The process exits by exit(1) only during the loading of a data set, not for
    a RESTORE; it may end by the failed assertion of sdstrynewlen(), for a RESTORE too ([rdb_huge_length_aborts]), but not when a plain buffer is asked for. *)
Theorem rdb_load_safe flags ctx (r : rio S2) : readable r -> bytes_ok (unread r) ->
  exists o, rdbGenericLoadStringObject decompress ctx flags r = Some o /\
    (o = Exits -> x_loading ctx = true) /\ (o = Aborts -> flag flags RDB_LOAD_PLAIN = false) /\
    (forall x r', o = Returns (x, r') -> rioGetReadError r' = true \/ readable r').
Proof.
  intros Hr Hb. pose proof (safe_string (S := S2) ctx (flag flags RDB_LOAD_PLAIN = false) flags id r (or_intror (conj Hr Hb))) as Hs.
  destruct (rdbGenericLoadStringObject decompress ctx flags r) as [o|]; [|done]. exists o. split; [done|].
  destruct o as [[a r']| |]; split_and!; try done. destruct Hs as [Hok _]. intros x r'' [= _ <-]. unfold stream_ok in Hok. tauto.
Qed.

(** A length close to the largest one makes sdstrynewlen() fail an assertion, although its callers expect NULL
    from an allocation that is not possible. *)
Theorem rdb_huge_length_aborts len flags ctx (r : rio S2) rest : 2 ^ 64 - 18 <= len < 2 ^ 64 - 1 -> flag flags RDB_LOAD_PLAIN = false ->
  readable r -> unread r = enc_len len ++ rest -> rdbGenericLoadStringObject decompress ctx flags r = Some Aborts.
Proof.
  intros Hl Hp Hr Hu. destruct (loads_len (S := S2) ctx len ltac:(lia) r rest Hr Hu) as (r' & He & _).
  unfold rdbGenericLoadStringObject. cbv zeta. unfold m_bind at 1. rewrite He. cbv beta iota.
  rewrite (proj2 (Z.eqb_neq _ _)) by (unfold RDB_LENERR; unfold_limits; lia). rewrite Hp. cbn [orb].
  assert (forall r : rio S2, sdstrynewlen ctx len r = Some Aborts) as Hsd.
  { intros r0. unfold sdstrynewlen. assert (sdsHdrSize_for len = 17) as ->.
    { unfold sdsHdrSize_for. rewrite (proj2 (Z.eqb_neq _ _)) by lia. by repeat (rewrite (proj2 (Z.ltb_ge len _)) by lia). }
    cbv zeta. rewrite (proj2 (Z.ltb_ge len _)); [done|]. unfold uwrap.
    rewrite <- (Z.mod_add _ (-1)), Z.mod_small; lia. }
  destruct (flag flags RDB_LOAD_SDS); [unfold try_result, m_bind; by rewrite Hsd|]. destruct (flag flags RDB_LOAD_ENC).
  - unfold tryCreateStringObject. rewrite (proj2 (Z.leb_gt _ _)) by (unfold OBJ_ENCODING_EMBSTR_SIZE_LIMIT; lia). unfold tryCreateRawStringObject, m_bind. by rewrite Hsd.
  - unfold tryCreateRawStringObject, m_bind. by rewrite Hsd.
Qed.

(** A compressed string whose original length does not fit an [unsigned int] is never loaded: the lengths are
    cut to 32 bits on the way to lzf_decompress(), and the result is compared with the whole length. *)
Theorem rdb_lzf_4gib_lost len flags ctx (r : rio S2) c rest : 2 ^ 32 <= len < 2 ^ 64 - 18 -> bytes_ok c -> zlen c < 2 ^ 32 -> readable r ->
  unread r = LZF_BYTE :: enc_len (zlen c) ++ enc_len len ++ c ++ rest ->
  forall x r', rdbGenericLoadStringObject decompress ctx flags r <> Some (Returns (Some x, r')).
Proof.
  intros Hl Hb Hz Hr Hu x r'. pose proof (zlen_nonneg c).
  destruct (loads_encval (S := S2) ctx 3 ltac:(lia) r _ Hr Hu) as (r1 & E1 & Hr1 & Hu1).
  destruct (loads_len (S := S2) ctx (zlen c) ltac:(lia) r1 _ Hr1 Hu1) as (r2 & E2 & Hr2 & Hu2).
  destruct (loads_len (S := S2) ctx len ltac:(lia) r2 _ Hr2 Hu2) as (r3 & E3 & Hr3 & Hu3).
  destruct (rioRead_ok r3 c rest Hr3 Hu3) as (r4 & E4 & _ & _).
  unfold rdbGenericLoadStringObject. cbv zeta. unfold m_bind at 1. rewrite E1. cbv beta iota. change (3 =? RDB_LENERR) with false. cbv iota.
  change ((3 =? RDB_ENC_INT8) || (3 =? RDB_ENC_INT16) || (3 =? RDB_ENC_INT32)) with false. change (3 =? RDB_ENC_LZF) with true. cbv iota.
  unfold rdbLoadLzfStringObject. cbv zeta. unfold m_bind at 1. rewrite E2. cbn [snd]. rewrite (proj2 (Z.eqb_neq (zlen c) _)) by (unfold RDB_LENERR; unfold_limits; lia).
  unfold m_bind at 1. rewrite E3. cbn [snd]. rewrite (proj2 (Z.eqb_neq len _)) by (unfold RDB_LENERR; unfold_limits; lia).
  unfold m_bind at 1, ztrymalloc at 1, m_ret at 1. destruct (x_can_alloc ctx (zlen c)); cbv beta iota; [|done].
  unfold m_bind at 1. match goal with |- context [match ?m r3 with _ => _ end] => destruct (m r3) as [[[val r3']| |]|] eqn:Hv; try done end.
  assert (r3' = r3) as ->.
  { unfold try_result, sdstrynewlen, m_abort, ztrymalloc, m_bind, m_lift, m_ret in Hv. cbv zeta beta iota in Hv. destruct (flag flags RDB_LOAD_PLAIN); [by injection Hv|].
    destruct (_ <? _); [|done]. destruct (x_can_alloc ctx _); [|by injection Hv]. destruct (sds_in _ _ _); [by injection Hv | done]. }
  destruct val as [val|]; [|done]. unfold m_read. case_bool_decide; [|done]. cbn [negb]. rewrite E4. cbn [mbind option_bind fst snd].
  destruct (mem_store _ 0 c) as [m|] eqn:Hm; [cbn [mbind option_bind]|done].
  unfold m_bind at 1, m_load at 1, m_lift at 1. cbn [fst snd]. destruct (mem_load m 0 _) as [inp|] eqn:Hinp; [cbn [mbind option_bind]|done].
  unfold m_bind at 1, m_load at 1, m_lift at 1. destruct (mem_load (fst val) _ _) as [out|] eqn:Hout; [cbn [mbind option_bind]|done].
  fold (zmalloc (zlen c)) in Hm. apply mem_store_whole in Hm as ->; [|rewrite zlen_zmalloc; lia].
  destruct (decompress_safe inp out) as (n & out' & He & Hn & _). { unfold mem_load in Hinp. case_bool_decide; [|done]. injection Hinp as <-. by apply Forall_take, Forall_drop. }
  unfold m_bind at 1, m_lift at 1. rewrite He. cbn [mbind option_bind fst]. rewrite (proj2 (Z.eqb_neq n len)); cbn [negb].
  - unfold m_bind, rdbReportError. destruct (negb _); [done|]. destruct (x_check_mode ctx); [done|]. by destruct (x_file ctx).
  - assert (zlen out = u32 len) as Ho. { unfold mem_load in Hout. case_bool_decide; [|done]. injection Hout as <-. unfold zlen in *. rewrite length_take, length_drop in *. lia. }
    pose proof (uwrap_range 32 len). lia.
Qed.

(** An expire time survives too, whatever the version of the format. *)
Lemma rdb_time_roundtrip t rdbver : is_ll t -> saves (S := S1) (rdbSaveMillisecondTime t) (le_encode 8 t) 8 /\
  loads (S := S2) (rdbLoadMillisecondTime rdbver) (le_encode 8 t) t.
Proof.
  intros Ht. split; [apply (saves_raw (le_encode 8 t))|]. apply loads_value; [by rewrite zlen_encode | lia|].
  assert (s64 (le_decode (le_encode 8 t)) = t) as ->; [|apply loads_ret].
  rewrite le_decode_encode. change (t mod 256 ^ Z.of_nat 8) with (u64 t). rewrite swrap_uwrap by lia. apply swrap_small; [lia|]. unfold_limits. lia.
Qed.

End theorems.

(** ** Witnesses *)

Definition w_ctx : load_ctx := LoadCtx true false true (fun n => n <? 2 ^ 32).

(** 13 bytes are written for the 36 of the string, in chunks of 5. *)
Definition w_file : rio rio_file := Rio (RioFile (File [] 0 100 true) 0 0) None 0 0 0 5.

Lemma rdb_string_roundtrip_witness : exists w' bs,
  rdbSaveStringObject (H0 := exact_allocator) (lzf_compress (fun i => i)) true (OBJ_ENCODING_RAW w_text) (Some w_file) = Some (14, Some w') /\ written w' = bs /\
  forall (r : rio rio_buffer), readable r -> unread r = bs -> exists r',
    rdbGenericLoadStringObject (H0 := exact_allocator) lzf_decompress w_ctx RDB_LOAD_SDS r = Some (Returns (Some (VSds w_text), r')).
Proof.
  destruct (rdb_string_roundtrip (S2 := rio_buffer) (H3 := exact_allocator) (compress := lzf_compress (fun i => i)) (decompress := lzf_decompress)
    (OBJ_ENCODING_RAW w_text) true w_text RDB_LOAD_SDS w_ctx w_file) as (n & w' & He & Hc).
  - reflexivity.
  - apply bytes_ok_str.
  - reflexivity.
  - intros _. reflexivity.
  - intros n Hn. apply Z.ltb_lt. change (zlen w_text) with 36 in Hn. lia.
  - discriminate.
  - assert (match rdbSaveStringObject (H0 := exact_allocator) (lzf_compress (fun i => i)) true (OBJ_ENCODING_RAW w_text) (Some w_file) with Some (n, _) => n =? 14 | None => false end = true) as Hn
      by (vm_compute; reflexivity).
    rewrite He in Hn. apply Z.eqb_eq in Hn. subst n. destruct Hc as [Hbad|Hc]; [exfalso; lia|]. destruct Hc as (bs & x & Hn & Hn' & Hw & Hnull & Hx & Hl).
    exists w', bs. split; [exact He|]. split; [exact Hw|]. intros r Hr Hu. destruct (Hl r [] Hr) as (r' & Hld & _); [by rewrite app_nil_r|].
    exists r'. change (x = VSds w_text) in Hx. rewrite <- Hx. exact Hld.
Defined.

Lemma rdb_load_safe_witness : exists o, rdbGenericLoadStringObject (H0 := exact_allocator) lzf_decompress w_ctx RDB_LOAD_PLAIN (rioInitWithBuffer [195; 3; 64; 255; 1; 2; 3]) = Some o.
Proof.
  destruct (rdb_load_safe (S2 := rio_buffer) (H3 := exact_allocator) (compress := lzf_compress (fun i => i)) (decompress := lzf_decompress)
    RDB_LOAD_PLAIN w_ctx (rioInitWithBuffer [195; 3; 64; 255; 1; 2; 3])) as (o & He & _).
  - vm_compute. repeat split; discriminate.
  - apply (bool_decide_unpack _). vm_compute. exact I.
  - exists o. exact He.
Defined.

Lemma rdb_huge_length_aborts_witness :
  rdbGenericLoadStringObject (H0 := exact_allocator) lzf_decompress w_ctx RDB_LOAD_ENC (rioInitWithBuffer [129; 255; 255; 255; 255; 255; 255; 255; 254]) = Some Aborts.
Proof.
  apply (rdb_huge_length_aborts (S2 := rio_buffer) (H3 := exact_allocator) (decompress := lzf_decompress)
    (2 ^ 64 - 2) RDB_LOAD_ENC w_ctx (rioInitWithBuffer [129; 255; 255; 255; 255; 255; 255; 255; 254]) []).
  - split; [discriminate | reflexivity].
  - reflexivity.
  - vm_compute. repeat split; discriminate.
  - vm_compute. reflexivity.
Defined.
