(* ===== verification/Bitops.v ===== *)
(** * Bitops: the bit functions of bitops.c

    Population count and bit search by machine words, bitfields of up to 64 bits at arbitrary offsets with
    their overflow rules, and the computation of BITOP with its fast path.  The reference is the string as
    a list of bits, the most significant bit of the first byte first.  A string is the list of its bytes;
    its address matters only for its alignment. *)
From S2P Require Import Prelude.

(** ** Population count *)

Definition bitsinbyte : list Z :=
  [0; 1; 1; 2; 1; 2; 2; 3; 1; 2; 2; 3; 2; 3; 3; 4; 1; 2; 2; 3; 2; 3; 3; 4; 2; 3; 3; 4; 3; 4; 4; 5;
   1; 2; 2; 3; 2; 3; 3; 4; 2; 3; 3; 4; 3; 4; 4; 5; 2; 3; 3; 4; 3; 4; 4; 5; 3; 4; 4; 5; 4; 5; 5; 6;
   1; 2; 2; 3; 2; 3; 3; 4; 2; 3; 3; 4; 3; 4; 4; 5; 2; 3; 3; 4; 3; 4; 4; 5; 3; 4; 4; 5; 4; 5; 5; 6;
   2; 3; 3; 4; 3; 4; 4; 5; 3; 4; 4; 5; 4; 5; 5; 6; 3; 4; 4; 5; 4; 5; 5; 6; 4; 5; 5; 6; 5; 6; 6; 7;
   1; 2; 2; 3; 2; 3; 3; 4; 2; 3; 3; 4; 3; 4; 4; 5; 2; 3; 3; 4; 3; 4; 4; 5; 3; 4; 4; 5; 4; 5; 5; 6;
   2; 3; 3; 4; 3; 4; 4; 5; 3; 4; 4; 5; 4; 5; 5; 6; 3; 4; 4; 5; 4; 5; 5; 6; 4; 5; 5; 6; 5; 6; 6; 7;
   2; 3; 3; 4; 3; 4; 4; 5; 3; 4; 4; 5; 4; 5; 5; 6; 3; 4; 4; 5; 4; 5; 5; 6; 4; 5; 5; 6; 5; 6; 6; 7;
   3; 4; 4; 5; 4; 5; 5; 6; 4; 5; 5; 6; 5; 6; 6; 7; 4; 5; 5; 6; 5; 6; 6; 7; 5; 6; 6; 7; 6; 7; 7; 8].

(** Count initial bytes not aligned to 32 bit. *)
Fixpoint popcount_align (addr : Z) (p : list Z) (bits : Z) : option (Z * list Z) :=
  match p with
  | [] => Some (bits, [])
  | c :: p' =>
      if negb (Z.land addr 3 =? 0) then n ← load8 bitsinbyte c; popcount_align (addr + 1) p' (bits + n)
      else Some (bits, p)
  end.

(** The bits of a word, added up inside of each of its bytes. *)
Definition swar (aux : Z) : Z :=
  let aux := u32 (aux - Z.land (Z.shiftr aux 1) 1431655765) in
  let aux := u32 (Z.land aux 858993459 + Z.land (Z.shiftr aux 2) 858993459) in
  Z.land (u32 (aux + Z.shiftr aux 4)) 252645135.

(** *p4 on a little-endian machine *)
Definition word32 (p : list Z) (i : nat) : Z := le_decode (take 4 (drop (4 * i) p)).

(** Count bits 28 bytes at a time. *)
Fixpoint popcount_words (fuel : nat) (p : list Z) (bits : Z) : option (Z * list Z) :=
  match fuel with
  | O => None
  | S fuel =>
      if 28 <=? zlen p then
        let sum := u32 (swar (word32 p 0) + swar (word32 p 1) + swar (word32 p 2) + swar (word32 p 3) +
                        swar (word32 p 4) + swar (word32 p 5) + swar (word32 p 6)) in
        popcount_words fuel (drop 28 p) (bits + Z.shiftr (u32 (sum * 16843009)) 24)
      else Some (bits, p)
  end.

Fixpoint popcount_tail (p : list Z) (bits : Z) : option Z :=
  match p with
  | [] => Some bits
  | c :: p => n ← load8 bitsinbyte c; popcount_tail p (bits + n)
  end.

(** [bits] is at most 8 times the length of a string in memory: it does not overflow. *)
Definition redisPopcount (addr : Z) (s : list Z) : option Z :=
  '(bits, p) ← popcount_align addr s 0;
  '(bits, p) ← popcount_words (S (length p)) p bits;
  popcount_tail p bits.

(** ** Search of a bit *)

(** Skip initial bytes not aligned to a word: the rest, the position and whether the search is over. *)
Fixpoint bitpos_align (addr : Z) (c : list Z) (skipval pos : Z) : list Z * Z * bool :=
  match c with
  | [] => ([], pos, false)
  | b :: c' =>
      if negb (Z.land addr 7 =? 0) then
        if negb (b =? skipval) then (c, pos, true) else bitpos_align (addr + 1) c' skipval (pos + 8)
      else (c, pos, false)
  end.

Fixpoint bitpos_words (fuel : nat) (l : list Z) (skipval pos : Z) : option (list Z * Z) :=
  match fuel with
  | O => None
  | S fuel =>
      if 8 <=? zlen l then
        if negb (le_decode (take 8 l) =? skipval) then Some (l, pos)
        else bitpos_words fuel (drop 8 l) skipval (pos + 64)
      else Some (l, pos)
  end.

(** The next [n] bytes, the first one most significant, with zeros after the end of the string. *)
Fixpoint bitpos_load (n : nat) (c : list Z) (word : Z) : Z :=
  match n with
  | O => word
  | S n =>
      let word := u64 (Z.shiftl word 8) in
      match c with
      | [] => bitpos_load n [] word
      | b :: c => bitpos_load n c (Z.lor word b)
      end
  end.

(** [while(one)]; [None] is the panic after the loop. *)
Fixpoint bitpos_scan (fuel : nat) (one word pos : Z) (bit : bool) : option Z :=
  match fuel with
  | O => None
  | S fuel =>
      if one =? 0 then None
      else if Bool.eqb (negb (Z.land one word =? 0)) bit then Some pos
      else bitpos_scan fuel (Z.shiftr one 1) word (pos + 1) bit
  end.

Definition redisBitpos (addr : Z) (s : list Z) (bit : bool) : option Z :=
  let '(c, pos, found) := bitpos_align addr s (if bit then 0 else 255) 0 in
  '(l, pos) ← (if found : bool then Some (c, pos) else bitpos_words (S (length c)) c (if bit then 0 else ULLONG_MAX) pos);
  let word := bitpos_load 8 l 0 in
  if bit && (word =? 0) then Some (-1)
  else bitpos_scan 65 (u64 (Z.lnot (Z.shiftr ULLONG_MAX 1))) word pos bit.

(** ** Bitfields *)

(** One bit of the string [p], at a bit offset. *)
Definition set_bit (p : list Z) (offset bitval : Z) : option (list Z) :=
  let byte := Z.shiftr offset 3 in
  let bit := 7 - Z.land offset 7 in
  byteval ← load8 p byte;
  let byteval := Z.land byteval (u64 (Z.lnot (Z.shiftl 1 bit))) in
  let byteval := Z.lor byteval (Z.shiftl bitval bit) in
  store8 p byte (Z.land byteval 255).

Definition get_bit (p : list Z) (offset : Z) : option Z :=
  let byte := Z.shiftr offset 3 in
  let bit := 7 - Z.land offset 7 in
  byteval ← load8 p byte;
  Some (Z.land (Z.shiftr byteval bit) 1).

(** The loop for (j = 0; j < bits; j++), with [n] turns left. *)
Fixpoint setUnsignedBitfield_loop (n : nat) (p : list Z) (offset value : Z) : option (list Z) :=
  match n with
  | O => Some p
  | S n =>
      let bitval := if Z.land value (Z.shiftl 1 (Z.of_nat n)) =? 0 then 0 else 1 in
      p ← set_bit p offset bitval;
      setUnsignedBitfield_loop n p (u64 (offset + 1)) value
  end.

Definition setUnsignedBitfield (p : list Z) (offset bits value : Z) : option (list Z) :=
  setUnsignedBitfield_loop (Z.to_nat bits) p offset value.

Definition setSignedBitfield (p : list Z) (offset bits value : Z) : option (list Z) :=
  setUnsignedBitfield p offset bits (u64 value).

Fixpoint getUnsignedBitfield_loop (n : nat) (p : list Z) (offset value : Z) : option Z :=
  match n with
  | O => Some value
  | S n =>
      bitval ← get_bit p offset;
      getUnsignedBitfield_loop n p (u64 (offset + 1)) (Z.lor (u64 (Z.shiftl value 1)) bitval)
  end.

Definition getUnsignedBitfield (p : list Z) (offset bits : Z) : option Z :=
  getUnsignedBitfield_loop (Z.to_nat bits) p offset 0.

Definition getSignedBitfield (p : list Z) (offset bits : Z) : option Z :=
  u ← getUnsignedBitfield p offset bits;
  if (bits <? 64) && negb (Z.land u (u64 (Z.shiftl 1 (bits - 1))) =? 0)
  then Some (s64 (Z.lor u (u64 (Z.shiftl ULLONG_MAX bits))))
  else Some (s64 u).

(** *** Overflow *)




(** ** BITOP *)

Inductive bitop := BITOP_AND | BITOP_OR | BITOP_XOR | BITOP_NOT.

(** The lengths computed while the keys are looked up; [None] is a key that does not exist. *)
Fixpoint bitop_lens (j : nat) (keys : list (option (list Z))) (maxlen minlen : Z) : Z * Z :=
  match keys with
  | [] => (maxlen, minlen)
  | None :: keys => bitop_lens (S j) keys maxlen 0
  | Some s :: keys =>
      bitop_lens (S j) keys (if maxlen <? zlen s then zlen s else maxlen)
        (if bool_decide (j = 0%nat) || (zlen s <? minlen) then zlen s else minlen)
  end.

Definition bitop2 (op : bitop) : Z -> Z -> Z :=
  match op with BITOP_AND => Z.land | BITOP_OR => Z.lor | BITOP_XOR => Z.lxor | BITOP_NOT => fun a _ => a end.

(** lres[0] op= lp[0]; ... lres[3] op= lp[3], at the byte offset [off] of both. *)
Fixpoint bitop_words (op : bitop) (n : nat) (res src : list Z) (off : Z) : option (list Z) :=
  match n with
  | O => Some res
  | S n =>
      a ← mem_load res off 8;
      b ← mem_load src off 8;
      res ← mem_store res off (le_encode 8 (bitop2 op (le_decode a) (le_decode b)));
      bitop_words op n res src (off + 8)
  end.

(** lres[0] = ~lres[0]; ... *)
Fixpoint bitop_not_words (n : nat) (res : list Z) (off : Z) : option (list Z) :=
  match n with
  | O => Some res
  | S n =>
      a ← mem_load res off 8;
      res ← mem_store res off (le_encode 8 (u64 (Z.lnot (le_decode a))));
      bitop_not_words n res (off + 8)
  end.

(** for (i = 1; i < numkeys; i++), on four words *)
Fixpoint bitop_block (op : bitop) (res : list Z) (srcs : list (list Z)) (off : Z) : option (list Z) :=
  match srcs with
  | [] => Some res
  | src :: srcs => res ← bitop_words op 4 res src off; bitop_block op res srcs off
  end.

(** while(minlen >= sizeof(unsigned long)*4); the result is [res] and [j]. *)
Fixpoint bitop_fast (fuel : nat) (op : bitop) (res : list Z) (srcs : list (list Z)) (j minlen : Z) : option (list Z * Z) :=
  match fuel with
  | O => None
  | S fuel =>
      if 32 <=? minlen then
        res ← match op with BITOP_NOT => bitop_not_words 4 res j | _ => bitop_block op res srcs j end;
        bitop_fast fuel op res srcs (j + 32) (minlen - 32)
      else Some (res, j)
  end.

(** (len[i] <= j) ? 0 : src[i][j] *)
Definition byte_at (src : list Z) (j : Z) : option Z := if zlen src <=? j then Some 0 else load8 src j.

Fixpoint bitop_byte (op : bitop) (output : Z) (srcs : list (list Z)) (j : Z) : option Z :=
  match srcs with
  | [] => Some output
  | src :: srcs =>
      byte ← byte_at src j;
      let output := bitop2 op output byte in
      let skip := match op with BITOP_AND => output =? 0 | BITOP_OR => output =? 255 | _ => false end in
      if skip then Some output else bitop_byte op output srcs j
  end.

(** for (; j < maxlen; j++) *)
Fixpoint bitop_slow (fuel : nat) (op : bitop) (res : list Z) (first : list Z) (srcs : list (list Z)) (j maxlen : Z) : option (list Z) :=
  match fuel with
  | O => None
  | S fuel =>
      if j <? maxlen then
        output ← byte_at first j;
        let output := match op with BITOP_NOT => u8 (Z.lnot output) | _ => output end in
        output ← bitop_byte op output srcs j;
        res ← store8 res j output;
        bitop_slow fuel op res first srcs (j + 1) maxlen
      else Some res
  end.

(** The string that bitopCommand() stores, [None] inside when the target is deleted; the operation name and the keys
    have been checked: NOT has one key. *)
Definition bitop_result (op : bitop) (keys : list (option (list Z))) : option (option (list Z)) :=
  let '(maxlen, minlen) := bitop_lens 0 keys 0 0 in
  let src := default [] <$> keys in
  if maxlen =? 0 then Some None
  else
    let res := replicate (Z.to_nat maxlen) 0 in
    first ← head src;
    let rest := tail src in
    '(res, j) ← (if (8 * 4 <=? minlen) && (zlen keys <=? 16) then
                   bs ← mem_load first 0 minlen;
                   res ← mem_store res 0 bs;
                   bitop_fast (S (Z.to_nat minlen)) op res rest 0 minlen
                 else Some (res, 0));
    res ← bitop_slow (S (Z.to_nat maxlen)) op res first rest j maxlen;
    Some (Some res).

(** ** The string as a list of bits *)

Definition bits_of_byte (b : Z) : list bool := Z.testbit b <$> [7; 6; 5; 4; 3; 2; 1; 0].
Definition bits_of (s : list Z) : list bool := s ≫= bits_of_byte.

Definition count_true (l : list bool) : Z := zlen (filter Is_true l).

Lemma count_true_app a b : count_true (a ++ b) = count_true a + count_true b.
Proof. unfold count_true. by rewrite filter_app, zlen_app. Qed.

Lemma bits_of_cons b s : bits_of (b :: s) = bits_of_byte b ++ bits_of s.
Proof. done. Qed.

Lemma bits_of_app s t : bits_of (s ++ t) = bits_of s ++ bits_of t.
Proof. apply bind_app. Qed.

Lemma zlen_bits_of s : zlen (bits_of s) = 8 * zlen s.
Proof. induction s as [|b s IH]; [done|]. rewrite bits_of_cons, zlen_app, IH, zlen_cons. change (zlen (bits_of_byte b)) with 8. lia. Qed.

(** *** Bitwise operations on the bytes of a number *)

Lemma testbit_cons b x i : is_byte b -> 0 <= i -> Z.testbit (b + 256 * x) i = if i <? 8 then Z.testbit b i else Z.testbit x (i - 8).
Proof.
  intros Hb Hi. replace (b + 256 * x) with (Z.lor b (Z.shiftl x 8)).
  - rewrite Z.lor_spec, Z.shiftl_spec by done. destruct (Z.ltb_spec i 8).
    + rewrite (Z.testbit_neg_r x) by lia. apply orb_false_r.
    + rewrite <- (Z.mod_small b (2 ^ 8)), Z.mod_pow2_bits_high by (unfold is_byte in Hb; lia). done.
  - unfold is_byte in Hb. rewrite (shiftl_lor_add b x 8); [change (2 ^ 8) with 256; lia | lia | change (2 ^ 8) with 256; lia].
Qed.

Lemma byte_bit_high b i : is_byte b -> 8 <= i -> Z.testbit b i = false.
Proof. intros Hb Hi. rewrite <- (Z.mod_small b (2 ^ 8)) by (unfold is_byte in Hb; lia). apply Z.mod_pow2_bits_high. lia. Qed.

(** An operation that works bit by bit. *)
Class Bitwise (op : Z -> Z -> Z) (opb : bool -> bool -> bool) : Prop := {
  bitwise_spec a b i : Z.testbit (op a b) i = opb (Z.testbit a i) (Z.testbit b i);
  bitwise_false : opb false false = false;
  bitwise_nonneg a b : 0 <= a -> 0 <= b -> 0 <= op a b;
}.

#[export] Instance bitwise_land : Bitwise Z.land andb.
Proof. split; [apply Z.land_spec | done | intros; apply Z.land_nonneg; by left]. Qed.
#[export] Instance bitwise_lor : Bitwise Z.lor orb.
Proof. split; [apply Z.lor_spec | done | intros; by apply Z.lor_nonneg]. Qed.
#[export] Instance bitwise_lxor : Bitwise Z.lxor xorb.
Proof. split; [apply Z.lxor_spec | done | intros; apply Z.lxor_nonneg; tauto]. Qed.

Lemma bits_range x n : 0 <= n -> 0 <= x -> (forall i, n <= i -> Z.testbit x i = false) -> 0 <= x < 2 ^ n.
Proof.
  intros Hn Hx Hb. split; [done|]. replace x with (x mod 2 ^ n); [apply Z.mod_pos_bound; lia|].
  apply Z.bits_inj'. intros i Hi. destruct (Z.lt_ge_cases i n); [by apply Z.mod_pow2_bits_low|].
  rewrite Z.mod_pow2_bits_high by lia. symmetry. by apply Hb.
Qed.

Lemma bitwise_byte `{Bitwise op opb} a b : is_byte a -> is_byte b -> is_byte (op a b).
Proof.
  intros Ha Hb. unfold is_byte in *. apply (bits_range _ 8); [lia | apply bitwise_nonneg; lia|].
  intros i Hi. rewrite bitwise_spec, !byte_bit_high by done. apply bitwise_false.
Qed.

Lemma bitwise_cons `{Bitwise op opb} a b x y : is_byte a -> is_byte b -> op (a + 256 * x) (b + 256 * y) = op a b + 256 * op x y.
Proof.
  intros Ha Hb. apply Z.bits_inj'. intros i Hi. rewrite bitwise_spec, !testbit_cons by (done || by apply bitwise_byte).
  destruct (i <? 8); by rewrite bitwise_spec.
Qed.

Lemma bitwise_0 `{Bitwise op opb} : op 0 0 = 0.
Proof. apply Z.bits_inj'. intros i Hi. rewrite bitwise_spec, Z.bits_0. apply bitwise_false. Qed.

(** On numbers in memory the operation works byte by byte. *)
Lemma bitwise_decode `{Bitwise op opb} a : forall b, bytes_ok a -> bytes_ok b -> length a = length b ->
  op (le_decode a) (le_decode b) = le_decode (zip_with op a b).
Proof.
  induction a as [|x a IH]; intros [|y b] Ha Hb Hl; try done; [apply bitwise_0|]. inversion Ha; subst. inversion Hb; subst.
  cbn [le_decode zip_with]. rewrite bitwise_cons, IH by (done || by injection Hl). done.
Qed.

Lemma decode_mask bs m : bytes_ok bs -> is_byte m -> Z.land (le_decode bs) (le_decode (replicate (length bs) m)) = le_decode ((fun b => Z.land b m) <$> bs).
Proof.
  intros Hb Hm. rewrite bitwise_decode; [|done | by apply Forall_replicate | by rewrite length_replicate].
  f_equal. clear Hb. induction bs as [|b bs IH]; [done|]. cbn. by rewrite IH.
Qed.

Lemma shiftr_cons b x m y k : is_byte b -> is_byte m -> 0 <= k -> m < 2 ^ (8 - k) -> k <= 8 ->
  Z.land (Z.shiftr (b + 256 * x) k) (m + 256 * y) = Z.land (Z.shiftr b k) m + 256 * Z.land (Z.shiftr x k) y.
Proof.
  intros Hb Hm Hk Hmk Hk8. assert (is_byte (Z.land (Z.shiftr b k) m)) as Hbyte.
  { unfold is_byte in *. apply (bits_range _ 8); [lia | apply Z.land_nonneg; lia|]. intros i Hi. rewrite Z.land_spec, (byte_bit_high m) by done. apply andb_false_r. }
  apply Z.bits_inj'. intros i Hi. rewrite Z.land_spec, Z.shiftr_spec, !testbit_cons by (done || lia).
  destruct (Z.ltb_spec i 8).
  - rewrite Z.land_spec, Z.shiftr_spec by done. destruct (Z.ltb_spec (i + k) 8); [done|].
    assert (Z.testbit m i = false) as ->; [|by rewrite !andb_false_r].
    rewrite <- (Z.mod_small m (2 ^ (8 - k))) by (unfold is_byte in Hm; lia). apply Z.mod_pow2_bits_high. lia.
  - rewrite (proj2 (Z.ltb_ge _ _)) by lia. rewrite Z.land_spec, Z.shiftr_spec by lia. do 2 f_equal. lia.
Qed.

Lemma decode_shift_mask bs m k : bytes_ok bs -> is_byte m -> 0 <= k <= 8 -> m < 2 ^ (8 - k) ->
  Z.land (Z.shiftr (le_decode bs) k) (le_decode (replicate (length bs) m)) = le_decode ((fun b => Z.land (Z.shiftr b k) m) <$> bs).
Proof.
  intros Hb Hm Hk Hmk. induction Hb as [|b bs Hbb _ IH]; [cbn; apply Z.land_0_r|]. cbn [length replicate le_decode fmap list_fmap].
  rewrite shiftr_cons by (done || lia). by rewrite IH.
Qed.

(** *** Sums inside of a word *)

Definition step1 (b : Z) : Z := b - Z.land (Z.shiftr b 1) 85.
Definition step2 (b : Z) : Z := Z.land b 51 + Z.land (Z.shiftr b 2) 51.

(** After two steps each half of a byte has the number of its bits. *)
Lemma steps_byte b : is_byte b -> is_byte (step1 b) /\ is_byte (step2 (step1 b)) /\
  step2 (step1 b) mod 16 <= 4 /\ step2 (step1 b) / 16 <= 4 /\ step2 (step1 b) mod 16 + step2 (step1 b) / 16 = count_true (bits_of_byte b).
Proof.
  intros Hb. pose (f := fun b => bool_decide (is_byte (step1 b) /\ is_byte (step2 (step1 b)) /\
    step2 (step1 b) mod 16 <= 4 /\ step2 (step1 b) / 16 <= 4 /\ step2 (step1 b) mod 16 + step2 (step1 b) / 16 = count_true (bits_of_byte b))).
  apply (bool_decide_eq_true_1 _), (byte_forall f); [vm_compute; reflexivity | done].
Qed.

Lemma bitsinbyte_ok b : is_byte b -> load8 bitsinbyte b = Some (count_true (bits_of_byte b)).
Proof.
  intros Hb. pose (f := fun b => bool_decide (load8 bitsinbyte b = Some (count_true (bits_of_byte b)))).
  apply (bool_decide_eq_true_1 _), (byte_forall f); [vm_compute; reflexivity | done].
Qed.

Lemma decode_sub (f g : Z -> Z) bs : le_decode (f <$> bs) - le_decode (g <$> bs) = le_decode ((fun b => f b - g b) <$> bs).
Proof. induction bs as [|b bs IH]; [done|]. cbn [fmap list_fmap le_decode]. rewrite <- IH. lia. Qed.
Lemma decode_add (f g : Z -> Z) bs : le_decode (f <$> bs) + le_decode (g <$> bs) = le_decode ((fun b => f b + g b) <$> bs).
Proof. induction bs as [|b bs IH]; [done|]. cbn [fmap list_fmap le_decode]. rewrite <- IH. lia. Qed.

Lemma decode_word bs : length bs = 4%nat -> bytes_ok bs -> u32 (le_decode bs) = le_decode bs.
Proof. intros Hl Hb. apply uwrap_small. pose proof (le_decode_range bs Hb) as Hr. unfold zlen in Hr. rewrite Hl in Hr. exact Hr. Qed.

(** The last step, on a word whose half bytes are at most 4. *)
Lemma nibbles_word (bs : list Z) : length bs = 4%nat -> Forall (fun b => is_byte b /\ b mod 16 <= 4 /\ b / 16 <= 4) bs ->
  Z.land (u32 (le_decode bs + Z.shiftr (le_decode bs) 4)) 252645135 = le_decode ((fun b => b mod 16 + b / 16) <$> bs).
Proof.
  intros Hl Hb. destruct bs as [|b0 [|b1 [|b2 [|b3 [|]]]]]; try done.
  apply Forall_cons in Hb as [H0 [H1 [H2 [H3 _]%Forall_cons]%Forall_cons]%Forall_cons]. unfold is_byte in *.
  pose (c b n := b mod 16 + b / 16 + 16 * (b / 16 + n mod 16)).
  assert (le_decode [b0; b1; b2; b3] + Z.shiftr (le_decode [b0; b1; b2; b3]) 4 = le_decode [c b0 b1; c b1 b2; c b2 b3; c b3 0]) as ->.
  { rewrite Z.shiftr_div_pow2 by lia. change (2 ^ 4) with 16. cbn [le_decode]. unfold c. Z.div_mod_to_equations. lia. }
  assert (forall b n, 0 <= b -> 0 <= n -> b mod 16 <= 4 /\ b / 16 <= 4 -> n mod 16 <= 4 -> is_byte (c b n)) as Hc.
  { intros b n ? ? ? ?. unfold is_byte, c. Z.div_mod_to_equations. lia. }
  assert (bytes_ok [c b0 b1; c b1 b2; c b2 b3; c b3 0]) as Hok by (repeat constructor; apply Hc; (lia || easy)).
  rewrite decode_word by done. change 252645135 with (le_decode (replicate (length [c b0 b1; c b1 b2; c b2 b3; c b3 0]) 15)).
  rewrite decode_mask by done. cbn [fmap list_fmap]. unfold c. 
  assert (forall b n, b mod 16 <= 4 -> b / 16 <= 4 -> 0 <= b -> Z.land (b mod 16 + b / 16 + 16 * (b / 16 + n mod 16)) 15 = b mod 16 + b / 16) as Hm.
  { intros b n ? ? ?. rewrite (land_pow2 _ 4) by lia. change (2 ^ 4) with 16. rewrite Z.mul_comm, Z_mod_plus_full. apply Z.mod_small. Z.div_mod_to_equations. lia. }
  rewrite !Hm by (tauto || lia). done.
Qed.

Lemma swar_ok bs : length bs = 4%nat -> bytes_ok bs -> swar (le_decode bs) = le_decode ((fun b => count_true (bits_of_byte b)) <$> bs).
Proof.
  intros Hl Hb. unfold swar. cbv zeta.
  assert (u32 (le_decode bs - Z.land (Z.shiftr (le_decode bs) 1) 1431655765) = le_decode (step1 <$> bs)) as ->.
  { change 1431655765 with (le_decode (replicate 4 85)). rewrite <- Hl at 1. rewrite decode_shift_mask by (done || lia).
    rewrite <- (list_fmap_id bs) at 1. rewrite decode_sub. apply decode_word; [by rewrite length_fmap|].
    apply Forall_fmap. eapply Forall_impl; [exact Hb|]. intros b Hbb. apply (steps_byte b Hbb). }
  assert (bytes_ok (step1 <$> bs)) as Hb1 by (apply Forall_fmap; eapply Forall_impl; [exact Hb|]; intros b Hbb; apply (steps_byte b Hbb)).
  assert (u32 (Z.land (le_decode (step1 <$> bs)) 858993459 + Z.land (Z.shiftr (le_decode (step1 <$> bs)) 2) 858993459) =
    le_decode (step2 <$> (step1 <$> bs))) as ->.
  { assert (858993459 = le_decode (replicate (length (step1 <$> bs)) 51)) as -> by (by rewrite length_fmap, Hl).
    rewrite decode_mask, decode_shift_mask by (done || lia). rewrite decode_add. apply decode_word; [by rewrite !length_fmap|].
    rewrite <- list_fmap_compose. apply Forall_fmap. eapply Forall_impl; [exact Hb|]. intros b Hbb. apply (steps_byte b Hbb). }
  rewrite nibbles_word; [|by rewrite !length_fmap|].
  - rewrite <- !list_fmap_compose. f_equal. apply list_fmap_ext. intros i b Hi. pose proof (Forall_lookup_1 _ _ _ _ Hb Hi) as Hbb. apply (steps_byte b Hbb).
  - rewrite <- list_fmap_compose. apply Forall_fmap. eapply Forall_impl; [exact Hb|]. intros b Hbb. cbn. split_and!; apply (steps_byte b Hbb).
Qed.

(** *** The three loops *)

Lemma bits_of_byte_count b : 0 <= count_true (bits_of_byte b) <= 8.
Proof. split; [apply zlen_nonneg|]. unfold count_true, zlen. pose proof (length_filter Is_true (bits_of_byte b)). cbn in *. lia. Qed.

Lemma popcount_align_ok p : forall addr bits, bytes_ok p -> exists a p', popcount_align addr p bits = Some (bits + count_true (bits_of a), p') /\ p = a ++ p'.
Proof.
  induction p as [|c p IH]; intros addr bits Hp; cbn [popcount_align].
  - exists [], []. split; [|done]. do 2 f_equal. change (count_true (bits_of [])) with 0. lia.
  - destruct (negb _).
    + inversion Hp; subst. rewrite bitsinbyte_ok by done. simpl_bind. destruct (IH (addr + 1) (bits + count_true (bits_of_byte c))) as (a & p' & -> & ->); [done|].
      exists (c :: a), p'. split; [|done]. rewrite bits_of_cons, count_true_app. do 2 f_equal. lia.
    + exists [], (c :: p). split; [|done]. do 2 f_equal. change (count_true (bits_of [])) with 0. lia.
Qed.

Lemma popcount_tail_ok p : forall bits, bytes_ok p -> popcount_tail p bits = Some (bits + count_true (bits_of p)).
Proof.
  induction p as [|c p IH]; intros bits Hp; cbn [popcount_tail].
  - f_equal. change (count_true (bits_of [])) with 0. lia.
  - inversion Hp; subst. rewrite bitsinbyte_ok by done. simpl_bind. rewrite IH by done. rewrite bits_of_cons, count_true_app. f_equal. lia.
Qed.

(** The counts of the bytes of a word, added up. *)
Definition counts (bs : list Z) : Z := le_decode ((fun b => count_true (bits_of_byte b)) <$> bs).

Lemma word_counts bs : length bs = 4%nat -> exists c0 c1 c2 c3, counts bs = c0 + 256 * c1 + 65536 * c2 + 16777216 * c3 /\
  0 <= c0 <= 8 /\ 0 <= c1 <= 8 /\ 0 <= c2 <= 8 /\ 0 <= c3 <= 8 /\ count_true (bits_of bs) = c0 + c1 + c2 + c3.
Proof.
  intros Hl. destruct bs as [|b0 [|b1 [|b2 [|b3 [|]]]]]; try done.
  exists (count_true (bits_of_byte b0)), (count_true (bits_of_byte b1)), (count_true (bits_of_byte b2)), (count_true (bits_of_byte b3)).
  split; [unfold counts; cbn [fmap list_fmap le_decode]; lia|]. split_and!; try apply bits_of_byte_count.
  rewrite !bits_of_cons, !count_true_app. change (count_true (bits_of [])) with 0. lia.
Qed.

(** Any number of words. *)
Lemma words_counts ws : Forall (fun w => length w = 4%nat) ws -> exists c0 c1 c2 c3,
  foldr (fun w acc => counts w + acc) 0 ws = c0 + 256 * c1 + 65536 * c2 + 16777216 * c3 /\
  0 <= c0 <= 8 * zlen ws /\ 0 <= c1 <= 8 * zlen ws /\ 0 <= c2 <= 8 * zlen ws /\ 0 <= c3 <= 8 * zlen ws /\
  count_true (bits_of (concat ws)) = c0 + c1 + c2 + c3.
Proof.
  induction 1 as [|w ws Hw _ (c0 & c1 & c2 & c3 & E & H0 & H1 & H2 & H3 & Hc)]; [exists 0, 0, 0, 0; split_and!; done|].
  destruct (word_counts w Hw) as (d0 & d1 & d2 & d3 & E' & G0 & G1 & G2 & G3 & Hd). exists (d0 + c0), (d1 + c1), (d2 + c2), (d3 + c3).
  cbn [foldr concat]. rewrite E, E', zlen_cons, bits_of_app, count_true_app, Hc, Hd. lia.
Qed.

(** Multiplication by 0x01010101 adds the four bytes up in the highest one. *)
Lemma add_bytes c0 c1 c2 c3 : 0 <= c0 <= 56 -> 0 <= c1 <= 56 -> 0 <= c2 <= 56 -> 0 <= c3 <= 56 ->
  Z.shiftr (u32 (u32 (c0 + 256 * c1 + 65536 * c2 + 16777216 * c3) * 16843009)) 24 = c0 + c1 + c2 + c3.
Proof.
  intros. rewrite Z.shiftr_div_pow2 by lia. rewrite (uwrap_small 32 (c0 + _ + _ + _)) by (eval_pow2; lia).
  unfold uwrap. change (2 ^ 32) with 4294967296. change (2 ^ 24) with 16777216.
  replace ((c0 + 256 * c1 + 65536 * c2 + 16777216 * c3) * 16843009) with
    ((c0 + 256 * (c0 + c1) + 65536 * (c0 + c1 + c2) + (c0 + c1 + c2 + c3) * 16777216) + (c1 + 257 * c2 + 65793 * c3) * 4294967296) by lia.
  rewrite Z_mod_plus_full, Z.mod_small by lia. rewrite Z_div_plus_full, Z.div_small; lia.
Qed.

Lemma block_ok p : bytes_ok p -> (28 <= length p)%nat ->
  Z.shiftr (u32 (u32 (swar (word32 p 0) + swar (word32 p 1) + swar (word32 p 2) + swar (word32 p 3) +
    swar (word32 p 4) + swar (word32 p 5) + swar (word32 p 6)) * 16843009)) 24 = count_true (bits_of (take 28 p)).
Proof.
  intros Hp Hl. set (ws := (fun i => take 4 (drop (4 * i) p)) <$> [0; 1; 2; 3; 4; 5; 6]%nat).
  assert (forall i, (i < 7)%nat -> swar (word32 p i) = counts (take 4 (drop (4 * i) p))) as Hw.
  { intros i Hi. apply swar_ok; [rewrite length_take, length_drop; lia | by apply Forall_take, Forall_drop]. }
  rewrite !Hw by lia. destruct (words_counts ws) as (c0 & c1 & c2 & c3 & E & H0 & H1 & H2 & H3 & Hc).
  { unfold ws. repeat constructor; rewrite length_take, length_drop; lia. }
  change (zlen ws) with 7 in *. assert (concat ws = take 28 p) as Hcat.
  { unfold ws. clear -Hl. do 28 (destruct p as [|? p]; [cbn in Hl; lia|]). done. }
  rewrite <- Hcat, Hc. rewrite <- (add_bytes c0 c1 c2 c3) by lia. rewrite <- E. unfold ws. cbn [foldr fmap list_fmap]. do 4 f_equal. lia.
Qed.

Lemma popcount_words_ok fuel : forall p bits, bytes_ok p -> (length p < fuel)%nat ->
  exists a p', popcount_words fuel p bits = Some (bits + count_true (bits_of a), p') /\ p = a ++ p'.
Proof.
  induction fuel as [|fuel IH]; intros p bits Hp Hf; [lia|]. cbn [popcount_words]. destruct (Z.leb_spec 28 (zlen p)) as [Hl|Hl].
  - cbv zeta. rewrite block_ok by (done || unfold zlen in Hl; lia).
    destruct (IH (drop 28 p) (bits + count_true (bits_of (take 28 p)))) as (a & p' & -> & Hd); [by apply Forall_drop | rewrite length_drop; unfold zlen in Hl; lia|].
    exists (take 28 p ++ a), p'. rewrite bits_of_app, count_true_app, <- app_assoc, <- Hd, take_drop. split; [do 2 f_equal; lia | done].
  - exists [], p. split; [|done]. do 2 f_equal. change (count_true (bits_of [])) with 0. lia.
Qed.

(** redisPopcount(), which adds the bits of 28 bytes at a time inside of machine words, counts the bits
    of the string that are set, whatever the alignment of the string. *)
Theorem redisPopcount_correct addr s : bytes_ok s -> redisPopcount addr s = Some (count_true (bits_of s)).
Proof.
  intros Hs. unfold redisPopcount. destruct (popcount_align_ok s addr 0 Hs) as (a & p & -> & ->). simpl_bind.
  apply Forall_app in Hs as [Ha Hp]. destruct (popcount_words_ok (S (length p)) p (0 + count_true (bits_of a)) Hp ltac:(lia)) as (b & q & -> & ->). simpl_bind.
  apply Forall_app in Hp as [Hb Hq]. rewrite popcount_tail_ok by done. rewrite !bits_of_app, !count_true_app. f_equal. lia.
Qed.

(** ** Search of a bit: the reference *)

Fixpoint find_bit (bit : bool) (l : list bool) (i : Z) : option Z :=
  match l with
  | [] => None
  | b :: l => if Bool.eqb b bit then Some i else find_bit bit l (i + 1)
  end.

Lemma find_bit_app bit a l : forall i, find_bit bit (a ++ l) i = match find_bit bit a i with Some k => Some k | None => find_bit bit l (i + zlen a) end.
Proof.
  induction a as [|b a IH]; intros i; cbn [app find_bit]; [f_equal; change (zlen []) with 0; lia|].
  destruct (Bool.eqb b bit); [done|]. rewrite IH, zlen_cons. destruct (find_bit bit a (i + 1)); [done|]. f_equal. lia.
Qed.

(** The byte that has no bit equal to [bit]. *)
Definition skip_byte (bit : bool) : Z := if bit then 0 else 255.

Lemma find_bit_none bit l : find_bit bit l 0 = None -> forall i, find_bit bit l i = None.
Proof.
  assert (forall i j, find_bit bit l i = None -> find_bit bit l j = None) as Hij; [|intros; eauto].
  induction l as [|b l IH]; intros i j; cbn; [done|]. destruct (Bool.eqb b bit); [done|]. apply IH.
Qed.

Lemma find_bit_byte bit b : is_byte b -> (b =? skip_byte bit) = match find_bit bit (bits_of_byte b) 0 with None => true | Some _ => false end.
Proof.
  intros Hb. apply eqb_prop.
  apply (byte_forall (fun b => Bool.eqb (b =? skip_byte bit) match find_bit bit (bits_of_byte b) 0 with None => true | Some _ => false end)); [|done].
  destruct bit; vm_compute; reflexivity.
Qed.

Lemma find_bit_skip bit a : forall i, Forall (eq (skip_byte bit)) a -> find_bit bit (bits_of a) i = None.
Proof.
  induction a as [|b a IH]; intros i Ha; [done|]. inversion Ha; subst. rewrite bits_of_cons, find_bit_app.
  rewrite find_bit_none; [by apply IH|]. by destruct bit.
Qed.

(** *** The words *)

Definition bitsN (k : nat) (x : Z) : list bool := (fun i => Z.testbit x (Z.of_nat i)) <$> reverse (seq 0 k).

Lemma bitsN_S k x : bitsN (S k) x = Z.testbit x (Z.of_nat k) :: bitsN k x.
Proof. unfold bitsN. by rewrite seq_S, reverse_app, fmap_app. Qed.

Lemma bitsN_byte k b x : is_byte b -> bitsN (k + 8) (b + 256 * x) = bitsN k x ++ bits_of_byte b.
Proof.
  intros Hb. induction k as [|k IH].
  - unfold bitsN, bits_of_byte. cbn. by rewrite !testbit_cons by (done || lia).
  - cbn [Nat.add]. rewrite !bitsN_S, IH. cbn [app]. f_equal. rewrite testbit_cons by (done || lia). rewrite (proj2 (Z.ltb_ge _ _)) by lia. f_equal. lia.
Qed.

Definition be_decode (l : list Z) : Z := fold_left (fun v b => v * 256 + b) l 0.

Lemma bitsN_be w : bytes_ok w -> bitsN (8 * length w) (be_decode w) = bits_of w.
Proof.
  induction w as [|b w IH] using rev_ind; intros Hw; [done|]. apply Forall_app in Hw as [Hw [Hb _]%Forall_cons].
  unfold be_decode in *. rewrite fold_left_app, bits_of_app. cbn [fold_left]. rewrite length_app. cbn [length].
  replace (8 * (length w + 1))%nat with (8 * length w + 8)%nat by lia.
  rewrite Z.add_comm, (Z.mul_comm _ 256), bitsN_byte by exact Hb. rewrite IH by exact Hw. rewrite bits_of_cons. by rewrite app_nil_r.
Qed.

(** The [n] first bytes, with zeros after the end. *)
Definition pad (n : nat) (c : list Z) : list Z := take n c ++ replicate (n - length c) 0.

Lemma bitpos_load_ok n : forall c word, bytes_ok c -> 0 <= word < 256 ^ (8 - Z.of_nat n) -> (n <= 8)%nat ->
  bitpos_load n c word = fold_left (fun v b => v * 256 + b) (pad n c) word.
Proof.
  induction n as [|n IH]; intros c word Hc Hw Hn; [done|]. cbn [bitpos_load].
  assert (256 ^ (8 - Z.of_nat n) = 256 * 256 ^ (8 - Z.of_nat (S n))) as Hp.
  { replace (8 - Z.of_nat n) with (1 + (8 - Z.of_nat (S n))) by lia. rewrite Z.pow_add_r by lia. done. }
  assert (256 ^ (8 - Z.of_nat n) <= 256 ^ 8) by (apply Z.pow_le_mono_r; lia).
  assert (u64 (Z.shiftl word 8) = word * 256) as ->.
  { rewrite Z.shiftl_mul_pow2 by lia. apply uwrap_small. change (2 ^ 8) with 256. change (256 ^ 8) with (2 ^ 64) in *. lia. }
  destruct c as [|b c].
  - rewrite IH by (done || lia). unfold pad. rewrite !take_nil, !Nat.sub_0_r. cbn [app replicate fold_left length]. f_equal. lia.
  - inversion Hc as [|? ? Hb Hc']; subst. unfold is_byte in Hb.
    assert (Z.lor (word * 256) b = word * 256 + b) as ->. { assert (word * 256 = Z.shiftl word 8) as -> by (by rewrite Z.shiftl_mul_pow2). rewrite Z.lor_comm, (shiftl_lor_add b word 8) by (change (2 ^ 8) with 256; lia).
      rewrite Z.shiftl_mul_pow2 by lia. change (2 ^ 8) with 256. lia. }
    rewrite IH by (done || lia). unfold pad. cbn [take length app fold_left]. by replace (S n - S (length c))%nat with (n - length c)%nat by lia.
Qed.

Lemma land_pow2_bit k w : 0 <= k -> negb (Z.land (2 ^ k) w =? 0) = Z.testbit w k.
Proof.
  intros Hk. assert (Z.land (2 ^ k) w = if Z.testbit w k then 2 ^ k else 0) as ->.
  { apply Z.bits_inj'. intros i Hi. rewrite Z.land_spec, Z.pow2_bits_eqb by done. destruct (Z.eqb_spec k i) as [->|Hne].
    - destruct (Z.testbit w i) eqn:E; [by rewrite Z.pow2_bits_true | by rewrite Z.bits_0].
    - destruct (Z.testbit w k); [rewrite Z.pow2_bits_false by done; done | by rewrite Z.bits_0]. }
  destruct (Z.testbit w k); [|done]. apply negb_true_iff, Z.eqb_neq. pose proof (Z.pow_pos_nonneg 2 k). lia.
Qed.

Lemma bitpos_scan_ok k : forall fuel word pos bit, (k + 1 < fuel)%nat ->
  bitpos_scan fuel (2 ^ Z.of_nat k) word pos bit = find_bit bit (bitsN (S k) word) pos.
Proof.
  induction k as [|k IH]; intros fuel word pos bit Hf; (destruct fuel as [|fuel]; [lia|]); cbn [bitpos_scan]; rewrite bitsN_S; cbn [find_bit].
  - change (2 ^ Z.of_nat 0 =? 0) with false. cbv iota. rewrite land_pow2_bit by lia. destruct (Bool.eqb _ bit); [done|].
    destruct fuel as [|fuel]; [lia|]. done.
  - pose proof (Z.pow_pos_nonneg 2 (Z.of_nat (S k))). rewrite (proj2 (Z.eqb_neq _ _)) by lia. rewrite land_pow2_bit by lia.
    destruct (Bool.eqb _ bit); [done|]. replace (Z.shiftr (2 ^ Z.of_nat (S k)) 1) with (2 ^ Z.of_nat k); [apply IH; lia|].
    rewrite Z.shiftr_div_pow2 by lia. replace (Z.of_nat (S k)) with (Z.of_nat k + 1) by lia. rewrite Z.pow_add_r, Z.div_mul by lia. done.
Qed.

(** *** The two loops that skip *)

Lemma bitpos_align_ok bit c : forall addr pos, bytes_ok c -> exists a c' found, bitpos_align addr c (skip_byte bit) pos = (c', pos + 8 * zlen a, found) /\
  c = a ++ c' /\ Forall (eq (skip_byte bit)) a /\ (found = true -> exists b c'', c' = b :: c'' /\ b <> skip_byte bit).
Proof.
  induction c as [|b c IH]; intros addr pos Hc; cbn [bitpos_align].
  - exists [], [], false. split_and!; try done. f_equal. f_equal. change (zlen []) with 0. lia.
  - inversion Hc; subst. destruct (negb _).
    + destruct (Z.eqb_spec b (skip_byte bit)) as [->|Hne]; cbn [negb].
      * destruct (IH (addr + 1) (pos + 8)) as (a & c' & found & -> & -> & Ha & Hf); [done|]. exists (skip_byte bit :: a), c', found.
        rewrite zlen_cons. split_and!; [do 2 f_equal; lia | done | by constructor | done].
      * exists [], (b :: c), true. change (zlen []) with 0. split_and!; [do 2 f_equal; lia | done | done|]. intros _. by exists b, c.
    + exists [], (b :: c), false. change (zlen []) with 0. split_and!; try done. do 2 f_equal. lia.
Qed.

Lemma decode_replicate bs v : bytes_ok bs -> is_byte v -> le_decode bs = le_decode (replicate (length bs) v) -> Forall (eq v) bs.
Proof.
  intros Hb Hv He. assert (bs = replicate (length bs) v) as ->; [|by apply Forall_replicate].
  rewrite <- (le_encode_decode bs Hb) at 1. rewrite He.
  rewrite <- (length_replicate (length bs) v) at 1. by apply le_encode_decode, Forall_replicate.
Qed.

Lemma bitpos_words_ok (bit : bool) fuel : forall l pos, bytes_ok l -> (length l < fuel)%nat ->
  exists a l', bitpos_words fuel l (if bit then 0 else ULLONG_MAX) pos = Some (l', pos + 8 * zlen a) /\ l = a ++ l' /\ Forall (eq (skip_byte bit)) a /\
    ((length l' < 8)%nat \/ ~ Forall (eq (skip_byte bit)) (take 8 l')).
Proof.
  induction fuel as [|fuel IH]; intros l pos Hl Hf; [lia|]. cbn [bitpos_words].
  destruct (Z.leb_spec 8 (zlen l)) as [H8|H8].
  2: { exists [], l. change (zlen []) with 0. split_and!; [do 2 f_equal; lia | done | done | left; unfold zlen in H8; lia]. }
  assert (length (take 8 l) = 8%nat) as Hl8 by (rewrite length_take; unfold zlen in H8; lia).
  assert ((if bit then 0 else ULLONG_MAX) = le_decode (replicate (length (take 8 l)) (skip_byte bit))) as Hskip by (rewrite Hl8; by destruct bit).
  assert (bytes_ok (take 8 l)) as Hb8 by by apply Forall_take. assert (is_byte (skip_byte bit)) as Hsb by (destruct bit; done).
  destruct (Z.eqb_spec (le_decode (take 8 l)) (if bit then 0 else ULLONG_MAX)) as [He|He]; cbn [negb].
  - rewrite Hskip in He. apply decode_replicate in He; [|done..].
    destruct (IH (drop 8 l) (pos + 64)) as (a & l' & -> & Hd & Ha & Hor); [by apply Forall_drop | rewrite length_drop; unfold zlen in H8; lia|].
    exists (take 8 l ++ a), l'. assert (zlen (take 8 l) = 8) as Hz8 by (unfold zlen; by rewrite Hl8). rewrite zlen_app, Hz8.
    split_and!; [do 2 f_equal; lia | by rewrite <- app_assoc, <- Hd, take_drop | by apply Forall_app | done].
  - exists [], l. change (zlen []) with 0. split_and!; [do 2 f_equal; lia | done | done|]. right. intros Hall. apply He. rewrite Hskip. f_equal.
    symmetry. by apply replicate_as_Forall.
Qed.

Lemma find_bit_shift bit l : forall i j, find_bit bit l i = None -> find_bit bit l j = None.
Proof. induction l as [|b l IH]; intros i j; cbn; [done|]. destruct (Bool.eqb b bit); [done|]. apply IH. Qed.

Lemma find_bit_none_skip bit l : bytes_ok l -> forall pos, find_bit bit (bits_of l) pos = None -> Forall (eq (skip_byte bit)) l.
Proof.
  induction 1 as [|b bs Hb _ IH]; intros pos E; [done|]. rewrite bits_of_cons, find_bit_app in E.
  destruct (find_bit bit (bits_of_byte b) pos) eqn:E1; [done|]. constructor; [|by eapply IH].
  pose proof (find_bit_byte bit b Hb) as Hs. rewrite (find_bit_shift _ _ _ _ E1) in Hs. by apply Z.eqb_eq in Hs.
Qed.

(** Where the search stops: near the end, or where there is a bit to find. *)
Lemma find_bit_word (bit : bool) l pos : bytes_ok l -> ((length l < 8)%nat \/ ~ Forall (eq (skip_byte bit)) (take 8 l)) ->
  find_bit bit (bits_of (pad 8 l)) pos =
  match find_bit bit (bits_of l) pos with
  | Some i => Some i
  | None => if bit then None else Some (pos + 8 * zlen l)
  end.
Proof.
  intros Hl Hor. unfold pad. destruct (Nat.lt_ge_cases (length l) 8) as [Hlt|Hge].
  - rewrite take_ge by lia. rewrite bits_of_app, find_bit_app, zlen_bits_of. destruct (find_bit bit (bits_of l) pos); [done|].
    destruct (8 - length l)%nat as [|n] eqn:E; [lia|]. cbn [replicate]. rewrite bits_of_cons, find_bit_app.
    destruct bit; [|done]. rewrite find_bit_none by done. apply (find_bit_skip true). by apply Forall_replicate.
  - destruct Hor as [|Hex]; [lia|]. replace (8 - length l)%nat with 0%nat by lia. cbn [replicate]. rewrite app_nil_r.
    rewrite <- (take_drop 8 l) at 2. rewrite bits_of_app, find_bit_app. destruct (find_bit bit (bits_of (take 8 l)) pos) eqn:E; [done|].
    exfalso. apply Hex. eapply find_bit_none_skip; [by apply Forall_take | exact E].
Qed.

Lemma word_zero w pos : bytes_ok w -> length w = 8%nat -> (be_decode w =? 0) = match find_bit true (bits_of w) pos with None => true | Some _ => false end.
Proof.
  intros Hw Hl. destruct (find_bit true (bits_of w) pos) eqn:E.
  - apply Z.eqb_neq. intros H0. pose proof (bitsN_be w Hw) as Hb. rewrite Hl, H0 in Hb. rewrite <- Hb in E.
    assert (find_bit true (bitsN (8 * 8) 0) 0 = None) as Hn by (vm_compute; reflexivity). by rewrite (find_bit_shift _ _ _ _ Hn) in E.
  - apply Z.eqb_eq. apply find_bit_none_skip in E; [|done]. destruct (replicate_as_Forall 0 8 w) as [_ Hr]. rewrite <- Hr by (split; [done | exact E]). done.
Qed.

(** redisBitpos(), which searches by machine words, finds the first bit of the string with the given value,
    whatever the alignment; without such a bit it returns -1 for a set bit and the length of the string in bits for
    a clear one. The panic at its end is never reached. *)
Theorem redisBitpos_correct addr s (bit : bool) : bytes_ok s ->
  redisBitpos addr s bit = Some (match find_bit bit (bits_of s) 0 with Some i => i | None => if bit then -1 else 8 * zlen s end).
Proof.
  intros Hs. unfold redisBitpos. change (if bit then 0 else 255) with (skip_byte bit).
  destruct (bitpos_align_ok bit s addr 0 Hs) as (a & c & found & -> & -> & Ha & Hfound). apply Forall_app in Hs as [Hsa Hsc].
  assert (exists b l, (if found : bool then Some (c, 0 + 8 * zlen a) else bitpos_words (S (length c)) c (if bit then 0 else ULLONG_MAX) (0 + 8 * zlen a)) =
    Some (l, 8 * (zlen a + zlen b)) /\ c = b ++ l /\ Forall (eq (skip_byte bit)) b /\ ((length l < 8)%nat \/ ~ Forall (eq (skip_byte bit)) (take 8 l))) as (b & l & -> & -> & Hb & Hor).
  { destruct found.
    - exists [], c. change (zlen []) with 0. split_and!; [do 2 f_equal; lia | done | done|]. right. destruct (Hfound eq_refl) as (x & c'' & -> & Hx).
      cbn [take]. intros Hall. inversion Hall. congruence.
    - destruct (bitpos_words_ok bit (S (length c)) c (0 + 8 * zlen a) Hsc ltac:(lia)) as (b & l & -> & -> & Hb & Hor).
      exists b, l. split_and!; [do 2 f_equal; lia | done | done | done]. }
  cbn [mbind option_bind]. apply Forall_app in Hsc as [_ Hsl]. rewrite !bits_of_app, !find_bit_app, !find_bit_skip, !zlen_bits_of by done.
  replace (0 + 8 * zlen a + 8 * zlen b) with (8 * (zlen a + zlen b)) by lia. set (pos := 8 * (zlen a + zlen b)).
  rewrite bitpos_load_ok by (done || lia). fold (be_decode (pad 8 l)). cbv zeta.
  assert (bytes_ok (pad 8 l)) as Hp. { apply Forall_app. split; [by apply Forall_take | by apply Forall_replicate]. }
  assert (length (pad 8 l) = 8%nat) as Hlen. { unfold pad. rewrite length_app, length_take, length_replicate. lia. }
  rewrite (word_zero _ pos) by done. change (u64 (Z.lnot (Z.shiftr ULLONG_MAX 1))) with (2 ^ Z.of_nat 63). rewrite bitpos_scan_ok by lia.
  change (S 63) with (8 * 8)%nat. rewrite <- Hlen at 3. rewrite bitsN_be by done.
  pose proof (find_bit_word bit l pos Hsl Hor) as Hw. rewrite !zlen_app. destruct bit; cbn [andb].
  - rewrite Hw. by destruct (find_bit true (bits_of l) pos).
  - rewrite Hw. destruct (find_bit false (bits_of l) pos); [done|]. f_equal. lia.
Qed.

(** ** Bitfields: the reference *)

Lemma bits_of_split p i b : p !! i = Some b -> exists l r, p = l ++ b :: r /\ length l = i /\ bits_of p = bits_of l ++ bits_of_byte b ++ bits_of r /\
  length (bits_of l) = (8 * i)%nat /\ forall b', <[i := b']> p = l ++ b' :: r.
Proof.
  intros Hi. exists (take i p), (drop (S i) p). pose proof (lookup_lt_Some _ _ _ Hi). assert (length (take i p) = i) as Hl by (rewrite length_take; lia).
  split; [by rewrite take_drop_middle|]. split; [done|]. split; [by rewrite <- (take_drop_middle p i b Hi) at 1; rewrite bits_of_app, bits_of_cons|].
  split; [pose proof (zlen_bits_of (take i p)); unfold zlen in *; lia|]. intros b'. by rewrite insert_take_drop.
Qed.

Lemma bits_of_lookup p i b j : p !! i = Some b -> (j < 8)%nat -> bits_of p !! (8 * i + j)%nat = bits_of_byte b !! j.
Proof.
  intros Hi Hj. destruct (bits_of_split p i b Hi) as (l & r & _ & _ & -> & Hl & _).
  rewrite lookup_app_r by lia. replace (8 * i + j - length (bits_of l))%nat with j by lia. by rewrite lookup_app_l.
Qed.

Lemma bits_of_insert p i b b' j v : p !! i = Some b -> (j < 8)%nat -> bits_of_byte b' = <[j := v]> (bits_of_byte b) ->
  bits_of (<[i := b']> p) = <[(8 * i + j)%nat := v]> (bits_of p).
Proof.
  intros Hi Hj Hb. destruct (bits_of_split p i b Hi) as (l & r & _ & _ & -> & Hl & Hins).
  rewrite Hins, bits_of_app, bits_of_cons, Hb. replace (8 * i + j)%nat with (length (bits_of l) + j)%nat by lia.
  rewrite insert_app_r. f_equal. by rewrite insert_app_l.
Qed.

(** A bit of a byte. *)
Definition put_bit (b : Z) (j : nat) (v : bool) : Z :=
  Z.land (Z.lor (Z.land b (u64 (Z.lnot (Z.shiftl 1 (7 - Z.of_nat j))))) (Z.shiftl (Z.b2z v) (7 - Z.of_nat j))) 255.

Lemma put_bit_ok b j v : is_byte b -> (j < 8)%nat -> is_byte (put_bit b j v) /\ bits_of_byte (put_bit b j v) = <[j := v]> (bits_of_byte b) /\
  bits_of_byte b !! j = Some (Z.testbit b (7 - Z.of_nat j)) /\ Z.land (Z.shiftr b (7 - Z.of_nat j)) 1 = Z.b2z (Z.testbit b (7 - Z.of_nat j)).
Proof.
  intros Hb Hj.
  pose (f := fun b => forallb (fun j => forallb (fun v => bool_decide (is_byte (put_bit b j v) /\ bits_of_byte (put_bit b j v) = <[j := v]> (bits_of_byte b) /\
    bits_of_byte b !! j = Some (Z.testbit b (7 - Z.of_nat j)) /\ Z.land (Z.shiftr b (7 - Z.of_nat j)) 1 = Z.b2z (Z.testbit b (7 - Z.of_nat j)))) [true; false]) (seq 0 8)).
  assert (f b = true) as Hf by (apply byte_forall; [vm_compute; reflexivity | done]). unfold f in Hf. rewrite forallb_forall in Hf.
  specialize (Hf j). rewrite forallb_forall in Hf. apply (bool_decide_eq_true_1 _), Hf; [apply in_seq; lia | destruct v; cbn; tauto].
Qed.

(** A bit offset is a byte and a bit in it. *)
Lemma offset_split (p : list Z) off : 0 <= off < 8 * zlen p -> exists i j b, Z.to_nat off = (8 * i + j)%nat /\ (j < 8)%nat /\ Z.shiftr off 3 = Z.of_nat i /\ Z.land off 7 = Z.of_nat j /\ p !! i = Some b.
Proof.
  intros Ho. rewrite Z.shiftr_div_pow2 by lia. change (Z.land off 7) with (Z.land off (2 ^ 3 - 1)). rewrite land_pow2 by lia. change (2 ^ 3) with 8. unfold zlen in Ho.
  destruct (lookup_lt_is_Some_2 p (Z.to_nat (off / 8))) as [b Hb]; [Z.div_mod_to_equations; lia|].
  exists (Z.to_nat (off / 8)), (Z.to_nat (off mod 8)), b. split_and!; [Z.div_mod_to_equations; lia.. | done].
Qed.

Lemma load8_nat (p : list Z) i b : p !! i = Some b -> load8 p (Z.of_nat i) = Some b.
Proof. intros Hi. unfold load8. by rewrite bool_decide_true, Nat2Z.id by lia. Qed.

Lemma store8_nat (p : list Z) i b v : p !! i = Some b -> store8 p (Z.of_nat i) v = Some (<[i := u8 v]> p).
Proof.
  intros Hi. destruct (bits_of_split p i b Hi) as (l & r & -> & Hl & _ & _ & Hins). rewrite Hins. apply store8_mid. unfold zlen. by rewrite Hl.
Qed.

Lemma set_bit_ok p off v : bytes_ok p -> 0 <= off < 8 * zlen p -> exists p', set_bit p off (Z.b2z v) = Some p' /\ bytes_ok p' /\ length p' = length p /\
  bits_of p' = <[Z.to_nat off := v]> (bits_of p).
Proof.
  intros Hp Ho. destruct (offset_split p off Ho) as (i & j & b & En & Hj & Es & El & Hb). pose proof (Forall_lookup_1 _ _ _ _ Hp Hb) as Hbb.
  unfold set_bit. rewrite Es, El. cbv zeta. rewrite (load8_nat _ _ _ Hb). simpl_bind. fold (put_bit b j v). rewrite (store8_nat _ _ _ _ Hb).
  destruct (put_bit_ok b j v Hbb Hj) as (Hbyte & Hbits & _). rewrite uwrap_small by exact Hbyte. eexists. split; [done|].
  split; [by apply Forall_insert|]. split; [by rewrite length_insert|]. rewrite En. by apply bits_of_insert with b.
Qed.

Lemma get_bit_ok p off : bytes_ok p -> 0 <= off < 8 * zlen p -> exists v, get_bit p off = Some (Z.b2z v) /\ bits_of p !! Z.to_nat off = Some v.
Proof.
  intros Hp Ho. destruct (offset_split p off Ho) as (i & j & b & En & Hj & Es & El & Hb). pose proof (Forall_lookup_1 _ _ _ _ Hp Hb) as Hbb.
  unfold get_bit. rewrite Es, El. cbv zeta. rewrite (load8_nat _ _ _ Hb). simpl_bind. destruct (put_bit_ok b j true Hbb Hj) as (_ & _ & Hl & ->).
  eexists. split; [done|]. rewrite En, (bits_of_lookup p i b j Hb Hj). exact Hl.
Qed.

(** *** The loops *)

Lemma bitval_ok value n : 0 <= n -> (if Z.land value (Z.shiftl 1 n) =? 0 then 0 else 1) = Z.b2z (Z.testbit value n).
Proof.
  intros Hn. rewrite Z.shiftl_1_l, Z.land_comm. pose proof (land_pow2_bit n value Hn) as Hb. rewrite <- Hb. by destruct (_ =? _).
Qed.

Lemma set_loop_ok n : forall p off value, bytes_ok p -> 0 <= off -> off + Z.of_nat n <= 8 * zlen p -> 8 * zlen p < 2 ^ 64 ->
  exists p', setUnsignedBitfield_loop n p off value = Some p' /\ bytes_ok p' /\ length p' = length p /\
    bits_of p' = take (Z.to_nat off) (bits_of p) ++ bitsN n value ++ drop (Z.to_nat off + n) (bits_of p).
Proof.
  induction n as [|n IH]; intros p off value Hp Ho Hl H64; cbn [setUnsignedBitfield_loop].
  - exists p. split_and!; try done. change (bitsN 0 value) with (@nil bool). cbn [app]. by rewrite Nat.add_0_r, take_drop.
  - rewrite bitval_ok by lia. destruct (set_bit_ok p off (Z.testbit value (Z.of_nat n)) Hp) as (p1 & -> & Hp1 & Hl1 & Hb1); [lia|]. simpl_bind.
    rewrite uwrap_small by lia. assert (zlen p1 = zlen p) as Hz by (unfold zlen; by rewrite Hl1).
    destruct (IH p1 (off + 1) value Hp1) as (p2 & -> & Hp2 & Hl2 & Hb2); [lia | lia | lia|]. exists p2. split_and!; [done | done | congruence|].
    assert (Z.to_nat off < length (bits_of p))%nat as Hlt. { pose proof (zlen_bits_of p). unfold zlen in *. lia. }
    rewrite Hb2, Hb1, bitsN_S. rewrite insert_take_drop by done. replace (Z.to_nat (off + 1)) with (S (Z.to_nat off)) by lia.
    assert (length (take (Z.to_nat off) (bits_of p)) = Z.to_nat off) as Ht by (rewrite length_take; lia).
    rewrite take_app_ge by lia. rewrite drop_app_ge by lia. rewrite Ht. replace (S (Z.to_nat off) - Z.to_nat off)%nat with 1%nat by lia.
    replace (S (Z.to_nat off) + n - Z.to_nat off)%nat with (S n) by lia. cbn [take drop]. rewrite <- app_assoc. cbn [app].
    rewrite drop_drop. by replace (Z.to_nat off + S n)%nat with (S (Z.to_nat off) + n)%nat by lia.
Qed.

Definition bits_value (l : list bool) : Z := fold_left (fun v b => v * 2 + Z.b2z b) l 0.

Lemma get_loop_ok n : forall p off value, bytes_ok p -> 0 <= off -> off + Z.of_nat n <= 8 * zlen p -> 8 * zlen p < 2 ^ 64 -> (n <= 64)%nat ->
  0 <= value < 2 ^ (64 - Z.of_nat n) ->
  getUnsignedBitfield_loop n p off value = Some (fold_left (fun v b => v * 2 + Z.b2z b) (take n (drop (Z.to_nat off) (bits_of p))) value).
Proof.
  induction n as [|n IH]; intros p off value Hp Ho Hl H64 Hn Hv; cbn [getUnsignedBitfield_loop]; [done|].
  destruct (get_bit_ok p off Hp) as (b & -> & Hb); [lia|]. simpl_bind. rewrite (uwrap_small 64 (off + 1)) by lia.
  assert (2 ^ (64 - Z.of_nat n) = 2 * 2 ^ (64 - Z.of_nat (S n))) as Hpow. { replace (64 - Z.of_nat n) with (1 + (64 - Z.of_nat (S n))) by lia. rewrite Z.pow_add_r by lia. done. }
  assert (2 ^ (64 - Z.of_nat n) <= 2 ^ 64) by (apply Z.pow_le_mono_r; lia).
  assert (Z.lor (u64 (Z.shiftl value 1)) (Z.b2z b) = value * 2 + Z.b2z b) as ->.
  { assert (u64 (Z.shiftl value 1) = Z.shiftl value 1) as ->. { apply uwrap_small. rewrite Z.shiftl_mul_pow2 by lia. change (2 ^ 1) with 2. lia. }
    rewrite Z.lor_comm, (shiftl_lor_add (Z.b2z b) value 1); [change (2 ^ 1) with 2; lia | lia | destruct b; done]. }
  rewrite IH by (done || destruct b; cbn [Z.b2z]; lia). rewrite (drop_S (bits_of p) b (Z.to_nat off) Hb). cbn [take fold_left]. by replace (Z.to_nat (off + 1)) with (S (Z.to_nat off)) by lia.
Qed.

Lemma bits_value_bitsN n v : bits_value (bitsN n v) = v mod 2 ^ Z.of_nat n.
Proof.
  assert (forall n acc, fold_left (fun v b => v * 2 + Z.b2z b) (bitsN n v) acc = acc * 2 ^ Z.of_nat n + v mod 2 ^ Z.of_nat n) as Hg; [|unfold bits_value; rewrite Hg; lia].
  clear n. induction n as [|n IH]; intros acc; [cbn; rewrite Z.mod_1_r; lia|]. rewrite bitsN_S. cbn [fold_left]. rewrite IH.
  replace (Z.of_nat (S n)) with (Z.of_nat n + 1) by lia. rewrite Z.pow_add_r by lia. change (2 ^ 1) with 2.
  rewrite Z.rem_mul_r by lia. rewrite Z.testbit_spec' by lia. lia.
Qed.

(** *** Sign extension *)

Lemma pow2_split n : 0 <= n <= 64 -> 2 ^ 64 = 2 ^ (64 - n) * 2 ^ n.
Proof. intros. rewrite <- Z.pow_add_r by lia. f_equal. lia. Qed.

(** ((uint64_t)-1) << bits *)
Lemma mask_value bits : 0 <= bits <= 64 -> u64 (Z.shiftl ULLONG_MAX bits) = 2 ^ 64 - 2 ^ bits.
Proof.
  intros Hb. rewrite Z.shiftl_mul_pow2 by lia. pose proof (Z.pow_pos_nonneg 2 bits ltac:(lia) ltac:(lia)).
  assert (2 ^ bits <= 2 ^ 64) by (apply Z.pow_le_mono_r; lia). unfold uwrap.
  replace (ULLONG_MAX * 2 ^ bits) with (2 ^ 64 - 2 ^ bits + (2 ^ bits - 1) * 2 ^ 64) by (unfold_limits; eval_pow2; lia).
  rewrite Z_mod_plus_full. apply Z.mod_small. lia.
Qed.

Lemma lor_mask c bits : 0 <= bits <= 64 -> 0 <= c < 2 ^ 64 -> Z.lor c (2 ^ 64 - 2 ^ bits) = c mod 2 ^ bits + (2 ^ 64 - 2 ^ bits).
Proof.
  intros Hb Hc. pose proof (Z.pow_pos_nonneg 2 bits ltac:(lia) ltac:(lia)). pose proof (Z.pow_pos_nonneg 2 (64 - bits) ltac:(lia) ltac:(lia)).
  assert (2 ^ 64 - 2 ^ bits = Z.shiftl (2 ^ (64 - bits) - 1) bits) as E by (rewrite Z.shiftl_mul_pow2, (pow2_split bits) by lia; lia).
  transitivity (Z.lor (c mod 2 ^ bits) (Z.shiftl (2 ^ (64 - bits) - 1) bits)).
  - rewrite E. apply Z.bits_inj'. intros i Hi. rewrite !Z.lor_spec, Z.shiftl_spec by done. destruct (Z.lt_ge_cases i bits).
    + by rewrite Z.mod_pow2_bits_low by lia.
    + rewrite Z.mod_pow2_bits_high by lia. assert (2 ^ (64 - bits) - 1 = Z.ones (64 - bits)) as -> by (rewrite Z.ones_equiv; lia). rewrite Z.testbit_ones_nonneg by lia.
      destruct (Z.ltb_spec (i - bits) (64 - bits)); [by rewrite orb_true_r|]. rewrite orb_false_r.
      rewrite <- (Z.mod_small c (2 ^ 64)) by done. apply Z.mod_pow2_bits_high. lia.
  - rewrite shiftl_lor_add by (lia || by apply Z.mod_pos_bound). rewrite (pow2_split bits) by lia. lia.
Qed.


(** The sign bit decides how a wrapped number is read. *)
Lemma swrap_testbit bits c : 0 < bits -> swrap bits c = if Z.testbit c (bits - 1) then c mod 2 ^ bits - 2 ^ bits else c mod 2 ^ bits.
Proof.
  intros Hb. set (h := 2 ^ (bits - 1)). assert (0 < h) by (unfold h; lia). assert (2 ^ bits = 2 * h) as Hh by (unfold h; by apply pow2_half).
  assert (c mod 2 ^ bits = c mod h + h * Z.b2z (Z.testbit c (bits - 1))) as Hm.
  { rewrite Hh, Z.mul_comm, Z.rem_mul_r by lia. rewrite Z.testbit_spec' by lia. done. }
  pose proof (Z.mod_pos_bound c h ltac:(lia)). unfold swrap. fold h. rewrite <- Zplus_mod_idemp_l, Hm, Hh.
  destruct (Z.testbit c (bits - 1)); cbn [Z.b2z].
  - replace (c mod h + h * 1 + h) with (c mod h + 1 * (2 * h)) by lia. rewrite Z_mod_plus_full, Z.mod_small; lia.
  - rewrite Z.mod_small; lia.
Qed.

Lemma mod_mod_pow2 c bits : 0 <= bits <= 64 -> u64 c mod 2 ^ bits = c mod 2 ^ bits.
Proof.
  intros Hb. unfold uwrap. rewrite (pow2_split bits), Z.mul_comm, Z.rem_mul_r by lia. rewrite (Z.mul_comm (2 ^ bits)), Z_mod_plus_full. apply Z.mod_mod. lia.
Qed.

Lemma swrap_mod bits c : 0 < bits <= 64 -> swrap bits (u64 c mod 2 ^ bits) = swrap bits c.
Proof. intros Hb. rewrite mod_mod_pow2 by lia. change (c mod 2 ^ bits) with (uwrap bits c). apply swrap_uwrap. lia. Qed.

(** What both getSignedBitfield() and the wrapping of an increment compute. *)
Lemma sign_extend c bits : 1 <= bits < 64 -> 0 <= c < 2 ^ 64 ->
  (if negb (Z.land c (2 ^ (bits - 1)) =? 0) then s64 (Z.lor c (2 ^ 64 - 2 ^ bits)) else s64 (c mod 2 ^ bits)) = swrap bits c.
Proof.
  intros Hb Hc. rewrite Z.land_comm, land_pow2_bit, (swrap_testbit bits c), lor_mask by lia.
  pose proof (Z.mod_pos_bound c (2 ^ bits) ltac:(lia)). assert (2 ^ bits <= 2 ^ 63) by (apply Z.pow_le_mono_r; lia).
  destruct (Z.testbit c (bits - 1)).
  - replace (c mod 2 ^ bits + (2 ^ 64 - 2 ^ bits)) with ((c mod 2 ^ bits - 2 ^ bits) + 1 * 2 ^ 64) by lia.
    assert (forall x, s64 (x + 1 * 2 ^ 64) = s64 x) as ->.
    { intros x. unfold swrap. replace (x + 1 * 2 ^ 64 + 2 ^ (64 - 1)) with (x + 2 ^ (64 - 1) + 1 * 2 ^ 64) by lia. by rewrite Z_mod_plus_full. }
    apply swrap_small; [lia|]. change (64 - 1) with 63. lia.
  - apply swrap_small; [lia|]. change (64 - 1) with 63. lia.
Qed.

(** ** Bitfields: theorems *)

Section fields.
Context (p : list Z) (offset bits : Z).
Context (Hp : bytes_ok p) (Ho : 0 <= offset) (Hb : 1 <= bits <= 64) (Hfit : offset + bits <= 8 * zlen p) (Hsize : 8 * zlen p < 2 ^ 64).

Lemma get_ok : getUnsignedBitfield p offset bits = Some (bits_value (take (Z.to_nat bits) (drop (Z.to_nat offset) (bits_of p)))).
Proof. unfold getUnsignedBitfield. rewrite get_loop_ok by (done || lia). done. Qed.

Lemma set_ok value : exists p', setUnsignedBitfield p offset bits value = Some p' /\ bytes_ok p' /\ length p' = length p /\
  bits_of p' = take (Z.to_nat offset) (bits_of p) ++ bitsN (Z.to_nat bits) value ++ drop (Z.to_nat (offset + bits)) (bits_of p).
Proof.
  unfold setUnsignedBitfield. destruct (set_loop_ok (Z.to_nat bits) p offset value) as (p' & -> & H1 & H2 & H3); [done | done | lia | done|].
  exists p'. rewrite H3. by replace (Z.to_nat (offset + bits)) with (Z.to_nat offset + Z.to_nat bits)%nat by lia.
Qed.

Lemma length_bitsN n v : length (bitsN n v) = n.
Proof. unfold bitsN. by rewrite length_fmap, length_reverse, length_seq. Qed.

(** The bits of a field that was just set. *)
Lemma field_bits p' value : bits_of p' = take (Z.to_nat offset) (bits_of p) ++ bitsN (Z.to_nat bits) value ++ drop (Z.to_nat (offset + bits)) (bits_of p) ->
  take (Z.to_nat bits) (drop (Z.to_nat offset) (bits_of p')) = bitsN (Z.to_nat bits) value.
Proof.
  intros ->. pose proof (zlen_bits_of p). rewrite drop_app_ge by (rewrite length_take; lia).
  replace (Z.to_nat offset - length (take (Z.to_nat offset) (bits_of p)))%nat with 0%nat by (rewrite length_take; unfold zlen in *; lia).
  rewrite drop_0, take_app_le by (rewrite length_bitsN; lia). rewrite take_ge; [done|]. rewrite length_bitsN. lia.
Qed.

End fields.

(** Setting a bitfield changes the bits of the field and nothing else of the string, at every offset and for
    every width up to 64 bits; reading it back gives the value, modulo the width for unsigned fields and sign
    extended for signed ones. No access is out of bounds. *)
Theorem bitfield_roundtrip p offset bits value : bytes_ok p -> 0 <= offset -> 1 <= bits <= 64 -> offset + bits <= 8 * zlen p -> 8 * zlen p < 2 ^ 64 ->
  (exists p', setUnsignedBitfield p offset bits value = Some p' /\ bytes_ok p' /\ length p' = length p /\
    bits_of p' = take (Z.to_nat offset) (bits_of p) ++ bitsN (Z.to_nat bits) value ++ drop (Z.to_nat (offset + bits)) (bits_of p) /\
    getUnsignedBitfield p' offset bits = Some (value mod 2 ^ bits)) /\
  (is_ll value -> exists p', setSignedBitfield p offset bits value = Some p' /\ getSignedBitfield p' offset bits = Some (swrap bits value)).
Proof.
  intros Hp Ho Hb Hfit Hsize.
  assert (forall p', length p' = length p -> bytes_ok p' -> forall v, bits_of p' = take (Z.to_nat offset) (bits_of p) ++ bitsN (Z.to_nat bits) v ++ drop (Z.to_nat (offset + bits)) (bits_of p) ->
    getUnsignedBitfield p' offset bits = Some (v mod 2 ^ bits)) as Hget.
  { intros p' Hl Hp' v Hbits. assert (zlen p' = zlen p) as Hz by (unfold zlen; by rewrite Hl). rewrite get_ok by (done || lia).
    rewrite (field_bits p offset bits Ho Hb Hfit p' v Hbits), bits_value_bitsN. do 2 f_equal. f_equal. lia. }
  split.
  - destruct (set_ok p offset bits Hp Ho Hb Hfit Hsize value) as (p' & He & H1 & H2 & H3). exists p'. split_and!; try done. by apply Hget.
  - intros Hll. unfold setSignedBitfield. destruct (set_ok p offset bits Hp Ho Hb Hfit Hsize (u64 value)) as (p' & He & H1 & H2 & H3). exists p'. split; [done|].
    unfold getSignedBitfield. rewrite (Hget p' H2 H1 _ H3). simpl_bind.
    pose proof (uwrap_range 64 value ltac:(lia)) as Hu. destruct (Z.ltb_spec bits 64) as [Hlt|Hge]; cbn [andb].
    + pose proof (Z.mod_pos_bound (u64 value) (2 ^ bits) ltac:(lia)) as Hm. assert (2 ^ bits <= 2 ^ 64) by (apply Z.pow_le_mono_r; lia).
      pose proof (sign_extend (u64 value mod 2 ^ bits) bits ltac:(lia) ltac:(lia)) as Hse.
      assert (u64 (Z.shiftl 1 (bits - 1)) = 2 ^ (bits - 1)) as ->. { rewrite Z.shiftl_1_l. apply uwrap_small. split; [lia|]. apply Z.pow_lt_mono_r; lia. }
      rewrite mask_value by lia. rewrite Z.mod_mod, swrap_mod in Hse by lia.
      rewrite <- Hse. by destruct (negb _).
    + assert (bits = 64) as -> by lia. f_equal. unfold uwrap. rewrite Z.mod_mod by lia. fold (u64 value). by rewrite swrap_uwrap.
Qed.

(** ** Overflow *)








(** ** BITOP: the reference *)

(** The byte of a string at a position, 0 after its end. *)
Definition nthb (s : list Z) (i : nat) : Z := default 0 (s !! i).

Definition bitop_spec_byte (op : bitop) (first : list Z) (rest : list (list Z)) (i : nat) : Z :=
  match op with
  | BITOP_NOT => u8 (Z.lnot (nthb first i))
  | _ => foldl (bitop2 op) (nthb first i) ((fun s => nthb s i) <$> rest)
  end.

Definition bitop_spec (op : bitop) (first : list Z) (rest : list (list Z)) (from n : nat) : list Z := bitop_spec_byte op first rest <$> seq from n.

Lemma nthb_byte s i : bytes_ok s -> is_byte (nthb s i).
Proof. intros Hs. unfold nthb. destruct (s !! i) eqn:E; [by apply (Forall_lookup_1 _ _ _ _ Hs E) | done]. Qed.

Lemma nthb_zip op a b i : length a = length b -> (i < length a)%nat -> nthb (zip_with op a b) i = op (nthb a i) (nthb b i).
Proof.
  intros Hl Hi. unfold nthb. rewrite lookup_zip_with. destruct (lookup_lt_is_Some_2 a i Hi) as [x ->]. destruct (lookup_lt_is_Some_2 b i ltac:(lia)) as [y ->]. done.
Qed.

Lemma list_nthb l : l = nthb l <$> seq 0 (length l).
Proof.
  apply list_eq. intros i. rewrite list_lookup_fmap. destruct (Nat.lt_ge_cases i (length l)) as [Hi|Hi].
  - rewrite lookup_seq_lt by done. cbn. unfold nthb. destruct (lookup_lt_is_Some_2 l i Hi) as [x ->]. done.
  - rewrite lookup_seq_ge, lookup_ge_None_2 by done. done.
Qed.

Lemma foldl_zip op ms : forall m n, length m = n -> Forall (fun s => length s = n) ms ->
  foldl (zip_with op) m ms = (fun i => foldl op (nthb m i) ((fun s => nthb s i) <$> ms)) <$> seq 0 n.
Proof.
  induction ms as [|s ms IH]; intros m n Hm Hms; cbn [foldl fmap list_fmap]; [subst n; apply list_nthb|].
  inversion Hms as [|? ? Hs Hms']; subst. rewrite (IH _ (length m)); [|rewrite length_zip_with; lia | done].
  apply list_fmap_ext. intros k i Hk. apply lookup_seq in Hk as [-> Hk]. cbn. by rewrite nthb_zip by lia.
Qed.

(** A piece of a string. *)
Definition seg (off n : nat) (s : list Z) : list Z := take n (drop off s).

Lemma nthb_seg off n s i : (i < n)%nat -> nthb (seg off n s) i = nthb s (off + i)%nat.
Proof. intros Hi. unfold nthb, seg. by rewrite lookup_take_lt, lookup_drop by done. Qed.

Lemma length_seg off n s : (off + n <= length s)%nat -> length (seg off n s) = n.
Proof. intros. unfold seg. rewrite length_take, length_drop. lia. Qed.

Lemma bitop_spec_app op first rest from n k : bitop_spec op first rest from (n + k) = bitop_spec op first rest from n ++ bitop_spec op first rest (from + n) k.
Proof. unfold bitop_spec. by rewrite seq_app, fmap_app. Qed.

Lemma bitop2_bitwise op : op <> BITOP_NOT -> exists opb, Bitwise (bitop2 op) opb.
Proof. intros Hop. destruct op; [exists andb | exists orb | exists xorb | done]; apply _. Qed.

Lemma zip_bytes `{Bitwise op opb} a b : bytes_ok a -> bytes_ok b -> bytes_ok (zip_with op a b).
Proof.
  intros Ha Hb. apply Forall_lookup_2. intros i x (u & v & -> & Hu & Hv)%lookup_zip_with_Some.
  apply bitwise_byte; [exact (Forall_lookup_1 _ _ _ _ Ha Hu) | exact (Forall_lookup_1 _ _ _ _ Hb Hv)].
Qed.

(** *** The fast path *)

Lemma bitop_words_ok op n : op <> BITOP_NOT -> forall a m c a' m' c', zlen a = zlen a' -> length m = (8 * n)%nat -> length m' = (8 * n)%nat -> bytes_ok m -> bytes_ok m' ->
  bitop_words op n (a ++ m ++ c) (a' ++ m' ++ c') (zlen a) = Some (a ++ zip_with (bitop2 op) m m' ++ c).
Proof.
  intros Hop. destruct (bitop2_bitwise op Hop) as [opb Hbw]. induction n as [|n IH]; intros a m c a' m' c' Ha Hm Hm' Hbm Hbm'; cbn [bitop_words].
  - destruct m; [|done]. done.
  - rewrite <- (take_drop 8 m), <- (take_drop 8 m'). set (m1 := take 8 m). set (m2 := drop 8 m). set (m1' := take 8 m'). set (m2' := drop 8 m').
    assert (length m1 = 8%nat /\ length m1' = 8%nat /\ length m2 = (8 * n)%nat /\ length m2' = (8 * n)%nat) as (L1 & L1' & L2 & L2').
    { unfold m1, m1', m2, m2'. rewrite !length_take, !length_drop. lia. }
    assert (bytes_ok m1 /\ bytes_ok m2 /\ bytes_ok m1' /\ bytes_ok m2') as (B1 & B2 & B1' & B2').
    { split_and!; (by apply Forall_take) || (by apply Forall_drop). }
    rewrite <- !app_assoc. rewrite (mem_load_mid a m1) by (done || (unfold zlen; by rewrite L1)). simpl_bind.
    rewrite (mem_load_mid a' m1') by (done || (unfold zlen; by rewrite L1')). simpl_bind. rewrite bitwise_decode by (done || lia).
    assert (length (zip_with (bitop2 op) m1 m1') = 8%nat) as Lz by (rewrite length_zip_with; lia).
    assert (bytes_ok (zip_with (bitop2 op) m1 m1')) as Bz by by apply zip_bytes.
    rewrite <- Lz at 1. rewrite le_encode_decode by done. rewrite mem_store_mid by (done || lia). simpl_bind.
    rewrite (app_assoc a (zip_with _ m1 m1')), (app_assoc a' m1').
    replace (zlen a + 8) with (zlen (a ++ zip_with (bitop2 op) m1 m1')) by (rewrite zlen_app; unfold zlen at 2; rewrite Lz; lia).
    rewrite IH; [|unfold zlen in *; rewrite !length_app; lia | done..]. rewrite zip_with_app by lia. by rewrite <- !app_assoc.
Qed.

(** The pieces of the string around a block. *)
Lemma seg_split s off n : (off + n <= length s)%nat -> s = take off s ++ seg off n s ++ drop (off + n) s /\ zlen (take off s) = Z.of_nat off.
Proof.
  intros Hl. unfold seg. split; [|unfold zlen; rewrite length_take; lia]. rewrite <- drop_drop, take_drop, take_drop. done.
Qed.

Lemma bitop_block_ok op a c srcs : op <> BITOP_NOT -> forall m, length m = 32%nat -> bytes_ok m -> Forall (fun s => bytes_ok s /\ (length a + 32 <= length s)%nat) srcs ->
  bitop_block op (a ++ m ++ c) srcs (zlen a) = Some (a ++ foldl (zip_with (bitop2 op)) m (seg (length a) 32 <$> srcs) ++ c).
Proof.
  intros Hop. destruct (bitop2_bitwise op Hop) as [opb Hbw]. induction srcs as [|s srcs IH]; intros m Hm Hbm Hs; cbn [bitop_block foldl fmap list_fmap]; [done|].
  inversion Hs as [|? ? [Hbs Hls] Hs']; subst. destruct (seg_split s (length a) 32 Hls) as [Hsp Hz].
  assert (bytes_ok (seg (length a) 32 s)) as Hbseg by by apply Forall_take, Forall_drop. pose proof (length_seg (length a) 32 s Hls) as Hlseg.
  rewrite Hsp at 1. rewrite bitop_words_ok; [|done | by rewrite Hz | done | by rewrite length_seg | done | done]. simpl_bind.
  apply IH; [rewrite length_zip_with; lia | by apply zip_bytes | done].
Qed.

Lemma not_decode bs : length bs = 8%nat -> bytes_ok bs -> le_encode 8 (u64 (Z.lnot (le_decode bs))) = (fun b => u8 (Z.lnot b)) <$> bs.
Proof.
  intros Hl Hb. assert (forall b, is_byte b -> u8 (Z.lnot b) = 255 - b) as Hn. { intros b Hbb. unfold Z.lnot, is_byte in *. machine. }
  assert (bytes_ok ((fun b => u8 (Z.lnot b)) <$> bs)) as Hbn. { apply Forall_fmap, Forall_true. intros x. apply (uwrap_range 8). lia. }
  pose proof (le_decode_range bs Hb) as Hr. unfold zlen in Hr. rewrite Hl in Hr. change (256 ^ Z.of_nat 8) with (2 ^ 64) in Hr.
  assert (u64 (Z.lnot (le_decode bs)) = le_decode ((fun b => u8 (Z.lnot b)) <$> bs)) as ->.
  { assert (u64 (Z.lnot (le_decode bs)) = 2 ^ 64 - 1 - le_decode bs) as ->. { unfold Z.lnot, uwrap. rewrite <- (Z.mod_add _ 1) by lia. rewrite Z.mod_small; lia. }
    clear Hr Hbn. destruct bs as [|b0 [|b1 [|b2 [|b3 [|b4 [|b5 [|b6 [|b7 [|]]]]]]]]]; try done.
    repeat (apply Forall_cons in Hb as [? Hb]). cbn [fmap list_fmap le_decode]. rewrite !Hn by done. lia. }
  assert (length ((fun b => u8 (Z.lnot b)) <$> bs) = 8%nat) as Hl8 by (by rewrite length_fmap). rewrite <- Hl8 at 1. by apply le_encode_decode.
Qed.

Lemma bitop_not_words_ok n : forall a m c, length m = (8 * n)%nat -> bytes_ok m ->
  bitop_not_words n (a ++ m ++ c) (zlen a) = Some (a ++ ((fun b => u8 (Z.lnot b)) <$> m) ++ c).
Proof.
  induction n as [|n IH]; intros a m c Hm Hbm; cbn [bitop_not_words]; [by destruct m|].
  rewrite <- (take_drop 8 m). set (m1 := take 8 m). set (m2 := drop 8 m).
  assert (length m1 = 8%nat /\ length m2 = (8 * n)%nat) as (L1 & L2). { unfold m1, m2. rewrite !length_take, !length_drop. lia. }
  rewrite <- !app_assoc. rewrite (mem_load_mid a m1) by (done || (unfold zlen; by rewrite L1)). simpl_bind. rewrite not_decode by (done || by apply Forall_take).
  rewrite mem_store_mid by (done || by rewrite length_fmap). simpl_bind. rewrite (app_assoc a).
  replace (zlen a + 8) with (zlen (a ++ ((fun b => u8 (Z.lnot b)) <$> m1))) by (rewrite zlen_app; unfold zlen at 2; rewrite length_fmap, L1; lia).
  rewrite IH by (done || by apply Forall_drop). rewrite fmap_app, <- !app_assoc. done.
Qed.

Section bitop.
Context (op : bitop) (first : list Z) (rest : list (list Z)).
Context (Hfirst : bytes_ok first) (Hrest : Forall bytes_ok rest) (Hnot : op = BITOP_NOT -> rest = []).

(** 32 more bytes of the result. *)
Lemma spec_block j : (j + 32 <= length first)%nat -> Forall (fun s => (j + 32 <= length s)%nat) rest ->
  bitop_spec op first rest j 32 = match op with
    | BITOP_NOT => (fun b => u8 (Z.lnot b)) <$> seg j 32 first
    | _ => foldl (zip_with (bitop2 op)) (seg j 32 first) (seg j 32 <$> rest)
    end.
Proof.
  intros Hf Hr. unfold bitop_spec. rewrite <- (Nat.add_0_r j) at 1. rewrite <- fmap_add_seq, <- list_fmap_compose.
  assert (forall i, (i < 32)%nat -> bitop_spec_byte op first rest (j + i)%nat =
    match op with BITOP_NOT => u8 (Z.lnot (nthb (seg j 32 first) i)) | _ => foldl (bitop2 op) (nthb (seg j 32 first) i) ((fun s => nthb s i) <$> (seg j 32 <$> rest)) end) as Hi.
  { intros i Hi. unfold bitop_spec_byte. rewrite nthb_seg by done. rewrite <- list_fmap_compose.
    assert ((fun s => nthb s (j + i)) <$> rest = (fun s => nthb (seg j 32 s) i) <$> rest) as E by (apply list_fmap_ext; intros; by rewrite nthb_seg). by rewrite E. }
  assert (forall f, (forall i, (i < 32)%nat -> f i = bitop_spec_byte op first rest (j + i)%nat) -> (bitop_spec_byte op first rest ∘ Nat.add j) <$> seq 0 32 = f <$> seq 0 32) as Hext.
  { intros f Hfi. apply list_fmap_ext. intros k i Hk. apply lookup_seq in Hk as [-> Hk]. cbn. symmetry. by apply Hfi. }
  destruct op; cbv iota in *.
  4: { rewrite (list_nthb (seg j 32 first)) at 1. rewrite length_seg by done. rewrite <- list_fmap_compose. apply Hext. intros i Hlt. by rewrite Hi. }
  all: rewrite (foldl_zip _ _ _ 32); [|by apply length_seg | apply Forall_fmap; eapply Forall_impl; [exact Hr|]; intros s Hs; by apply length_seg].
  all: apply Hext; intros i Hlt; by rewrite Hi.
Qed.

Lemma length_spec from n : length (bitop_spec op first rest from n) = n.
Proof. unfold bitop_spec. by rewrite length_fmap, length_seq. Qed.

(** The block at [j], after the bytes that are done. *)
Lemma fast_step j c : (j + 32 <= length first)%nat -> Forall (fun s => (j + 32 <= length s)%nat) rest ->
  match op with
  | BITOP_NOT => bitop_not_words 4 (bitop_spec op first rest 0 j ++ seg j 32 first ++ c) (Z.of_nat j)
  | _ => bitop_block op (bitop_spec op first rest 0 j ++ seg j 32 first ++ c) rest (Z.of_nat j)
  end = Some (bitop_spec op first rest 0 (j + 32) ++ c).
Proof.
  intros Hf Hr. set (a := bitop_spec op first rest 0 j). assert (Z.of_nat j = zlen a) as Hj by (unfold zlen, a; by rewrite length_spec).
  rewrite bitop_spec_app. fold a. cbn [Nat.add]. rewrite (spec_block j Hf Hr), <- app_assoc, Hj.
  assert (length a = j) as Ha by apply length_spec. assert (bytes_ok (seg j 32 first)) as Hb by by apply Forall_take, Forall_drop.
  assert (Forall (fun s => bytes_ok s /\ (length a + 32 <= length s)%nat) rest) as Hs.
  { rewrite Ha. apply Forall_lookup_2. intros i s Hi. split; [exact (Forall_lookup_1 _ _ _ _ Hrest Hi) | exact (Forall_lookup_1 _ _ _ _ Hr Hi)]. }
  destruct op; [rewrite bitop_block_ok by (done || by apply length_seg); by rewrite Ha.. |].
  rewrite bitop_not_words_ok by (done || by apply length_seg). done.
Qed.

Lemma bitop_fast_ok fuel : forall j minlen c, (minlen < fuel)%nat -> (j + minlen <= length first)%nat -> Forall (fun s => (j + minlen <= length s)%nat) rest ->
  exists j' c', bitop_fast fuel op (bitop_spec op first rest 0 j ++ seg j minlen first ++ c) rest (Z.of_nat j) (Z.of_nat minlen) =
    Some (bitop_spec op first rest 0 j' ++ c', Z.of_nat j') /\ (j' + length c' = j + minlen + length c)%nat /\ (j' <= j + minlen)%nat.
Proof.
  induction fuel as [|fuel IH]; intros j minlen c Hfuel Hf Hr; [lia|]. cbn [bitop_fast]. destruct (Z.leb_spec 32 (Z.of_nat minlen)) as [Hge|Hlt].
  - assert (seg j minlen first = seg j 32 first ++ seg (j + 32) (minlen - 32) first) as ->.
    { unfold seg. rewrite <- drop_drop. set (d := drop j first). replace minlen with (32 + (minlen - 32))%nat at 1 by lia.
      rewrite <- (take_drop 32 d) at 1. rewrite take_app_ge by (rewrite length_take; lia). f_equal. unfold d. rewrite length_take, length_drop. f_equal. lia. }
    rewrite <- app_assoc. assert (Forall (fun s => (j + 32 <= length s)%nat) rest) as Hr32 by (eapply Forall_impl; [exact Hr|]; cbn; lia).
    pose proof (fast_step j (seg (j + 32) (minlen - 32) first ++ c) ltac:(lia) Hr32) as Hstep.
    destruct (IH (j + 32)%nat (minlen - 32)%nat c) as (j' & c' & He & Hl & Hj); [lia | lia | eapply Forall_impl; [exact Hr|]; cbn; lia|].
    exists j', c'. split; [|lia]. rewrite <- He. replace (Z.of_nat j + 32) with (Z.of_nat (j + 32)) by lia. replace (Z.of_nat minlen - 32) with (Z.of_nat (minlen - 32)) by lia.
    destruct op; rewrite Hstep; done.
  - exists j, (seg j minlen first ++ c). split; [done|]. rewrite length_app, length_seg by lia. lia.
Qed.

(** *** The bytes one by one *)

Lemma byte_at_ok s j : byte_at s (Z.of_nat j) = Some (nthb s j).
Proof.
  unfold byte_at, nthb, load8, zlen. destruct (Z.leb_spec (Z.of_nat (length s)) (Z.of_nat j)).
  - by rewrite lookup_ge_None_2 by lia.
  - rewrite bool_decide_true, Nat2Z.id by lia. destruct (lookup_lt_is_Some_2 s j ltac:(lia)) as [x ->]. done.
Qed.

(** Once all bits are equal, the other strings do not change them. *)
Lemma foldl_and_0 ss j : foldl Z.land 0 ((fun s => nthb s j) <$> ss) = 0.
Proof. induction ss as [|s ss IH]; [done|]. cbn [fmap list_fmap foldl]. by rewrite Z.land_0_l. Qed.

Lemma lor_255 b : is_byte b -> Z.lor 255 b = 255.
Proof. intros Hb. apply Z.eqb_eq. by apply (byte_forall (fun b => Z.lor 255 b =? 255)). Qed.

Lemma foldl_or_255 ss j : Forall bytes_ok ss -> foldl Z.lor 255 ((fun s => nthb s j) <$> ss) = 255.
Proof. induction 1 as [|s ss Hs _ IH]; [done|]. cbn [fmap list_fmap foldl]. by rewrite lor_255 by by apply nthb_byte. Qed.

Lemma bitop_byte_ok ss j : Forall bytes_ok ss -> forall output, bitop_byte op output ss (Z.of_nat j) = Some (foldl (bitop2 op) output ((fun s => nthb s j) <$> ss)).
Proof.
  induction 1 as [|s ss Hs Hss IH]; intros output; cbn [bitop_byte fmap list_fmap foldl]; [done|]. rewrite byte_at_ok. simpl_bind. cbv zeta.
  destruct op; cbn [bitop2] in *; try apply IH.
  - destruct (Z.eqb_spec (Z.land output (nthb s j)) 0) as [->|]; [by rewrite foldl_and_0 | apply IH].
  - destruct (Z.eqb_spec (Z.lor output (nthb s j)) 255) as [->|]; [by rewrite foldl_or_255 | apply IH].
Qed.

Lemma spec_byte_is_byte i : is_byte (bitop_spec_byte op first rest i).
Proof.
  assert (forall o ss acc, o <> BITOP_NOT -> Forall bytes_ok ss -> is_byte acc -> is_byte (foldl (bitop2 o) acc ((fun s => nthb s i) <$> ss))) as Hfold.
  { intros o ss acc Ho Hss. destruct (bitop2_bitwise o Ho) as [opb Hbw]. revert acc. induction Hss as [|s ss Hs _ IH]; intros acc Hacc; [done|].
    cbn [fmap list_fmap foldl]. apply IH. apply bitwise_byte; [done | by apply nthb_byte]. }
  unfold bitop_spec_byte. destruct op; try (apply Hfold; [done | done | by apply nthb_byte]). apply (uwrap_range 8). lia.
Qed.

Lemma bitop_slow_ok fuel : forall j maxlen c, (maxlen - j < fuel)%nat -> (j + length c = maxlen)%nat ->
  bitop_slow fuel op (bitop_spec op first rest 0 j ++ c) first rest (Z.of_nat j) (Z.of_nat maxlen) = Some (bitop_spec op first rest 0 maxlen).
Proof.
  induction fuel as [|fuel IH]; intros j maxlen c Hf Hl; [lia|]. cbn [bitop_slow]. destruct c as [|x c]; cbn [length] in Hl.
  - rewrite (proj2 (Z.ltb_ge _ _)) by lia. rewrite app_nil_r. by replace j with maxlen by lia.
  - rewrite (proj2 (Z.ltb_lt _ _)) by lia. rewrite byte_at_ok. simpl_bind. cbv zeta. rewrite bitop_byte_ok by done. simpl_bind.
    assert (foldl (bitop2 op) (match op with BITOP_NOT => u8 (Z.lnot (nthb first j)) | _ => nthb first j end) ((fun s => nthb s j) <$> rest) = bitop_spec_byte op first rest j) as ->.
    { unfold bitop_spec_byte. destruct op; try done. by rewrite Hnot. }
    rewrite store8_mid by (unfold zlen; by rewrite length_spec). simpl_bind. rewrite uwrap_small by apply spec_byte_is_byte.
    specialize (IH (j + 1)%nat maxlen c ltac:(lia) ltac:(lia)). rewrite bitop_spec_app, <- app_assoc in IH. replace (Z.of_nat (j + 1)) with (Z.of_nat j + 1) in IH by lia. exact IH.
Qed.

End bitop.

(** ** The lengths *)

(** The length of the longest string. *)
Definition longest (keys : list (option (list Z))) (m : Z) : Z := foldl (fun m k => Z.max m (zlen (default [] k))) m keys.

Lemma longest_ge keys : forall m, m <= longest keys m /\ Forall (fun k => zlen (default [] k) <= longest keys m) keys.
Proof.
  induction keys as [|k keys IH]; intros m; [split; [done|constructor]|]. change (longest (k :: keys) m) with (longest keys (Z.max m (zlen (default [] k)))).
  destruct (IH (Z.max m (zlen (default [] k)))) as [H1 H2]. split; [lia|]. constructor; [lia | done].
Qed.

Lemma bitop_lens_max keys : forall j mx mn, 0 <= mx -> fst (bitop_lens j keys mx mn) = longest keys mx.
Proof.
  induction keys as [|[s|] keys IH]; intros j mx mn Hmx; cbn [bitop_lens]; [done|..].
  - rewrite IH by (destruct (_ <? _); [apply zlen_nonneg | done]). unfold longest. cbn [foldl default]. f_equal. destruct (Z.ltb_spec mx (zlen s)); cbn; lia.
  - rewrite IH by done. change (longest (None :: keys) mx) with (longest keys (Z.max mx 0)). by rewrite Z.max_l.
Qed.

(** A positive minimum is one, and says that every key exists. *)
Lemma bitop_lens_min keys : forall j mx mn, let mn' := snd (bitop_lens j keys mx mn) in 0 < mn' ->
  ((0 < j)%nat -> mn' <= mn) /\ Forall (fun k => mn' <= zlen (default [] k)) keys.
Proof.
  induction keys as [|k keys IH]; intros j mx mn mn' Hpos; [split; [done|constructor]|]. unfold mn' in *. clear mn'. cbn [bitop_lens] in *. destruct k as [s|].
  - destruct (IH _ _ _ Hpos) as [H1 H2]. specialize (H1 ltac:(lia)). destruct (Z.ltb_spec (zlen s) mn) as [Hlt|Hge].
    + rewrite orb_true_r in *. split; [lia|]. constructor; [done | exact H2].
    + rewrite orb_false_r in *. destruct (bool_decide (j = 0%nat)) eqn:Ej.
      * apply bool_decide_eq_true in Ej as ->. split; [lia|]. constructor; [done | exact H2].
      * split; [done|]. constructor; [cbn; lia | exact H2].
  - destruct (IH _ _ _ Hpos) as [H1 _]. specialize (H1 ltac:(lia)). lia.
Qed.

(** C23. BITOP, with its fast path of four machine words at a time and its early exits, computes the operation bit by bit on
    strings that are extended with zeros to the length of the longest one, whatever keys are missing; the target is deleted
    exactly when all strings are empty. *)
Theorem bitop_correct op k keys : bytes_ok (default [] k) -> Forall bytes_ok (default [] <$> keys) -> (op = BITOP_NOT -> keys = []) ->
  let n := longest (k :: keys) 0 in
  bitop_result op (k :: keys) = Some (if n =? 0 then None else Some (bitop_spec op (default [] k) (default [] <$> keys) 0 (Z.to_nat n))).
Proof.
  intros Hk Hkeys Hnot n. unfold bitop_result. destruct (bitop_lens 0 (k :: keys) 0 0) as [mx mn] eqn:Hlens.
  pose proof (bitop_lens_max (k :: keys) 0 0 0 ltac:(lia)) as Hmax. rewrite Hlens in Hmax. cbn [fst] in Hmax. subst mx. fold n.
  pose proof (bitop_lens_min (k :: keys) 0 0 0) as Hmin. rewrite Hlens in Hmin. cbn [snd] in Hmin.
  destruct (longest_ge (k :: keys) 0) as [Hn0 Hge]. fold n in Hn0, Hge. apply Forall_cons in Hge as [Hge1 _].
  destruct (Z.eqb_spec n 0) as [|Hn]; [done|]. cbn [fmap list_fmap head tail]. simpl_bind. set (first := default [] k) in *. set (rest := default [] <$> keys) in *.
  assert (op = BITOP_NOT -> rest = []) as Hnot' by (intros E; unfold rest; by rewrite (Hnot E)).
  set (res := replicate (Z.to_nat n) 0). assert (length res = Z.to_nat n) as Hres by apply length_replicate.
  assert (exists j c, (if (8 * 4 <=? mn) && (zlen (k :: keys) <=? 16) then bs ← mem_load first 0 mn; res ← mem_store res 0 bs; bitop_fast (S (Z.to_nat mn)) op res rest 0 mn else Some (res, 0)) =
    Some (bitop_spec op first rest 0 j ++ c, Z.of_nat j) /\ (j + length c = Z.to_nat n)%nat) as (j & c & -> & Hjc).
  { destruct (Z.leb_spec (8 * 4) mn) as [H32|]; cbn [andb]; [|by exists 0%nat, res]. destruct (_ <=? 16); [|by exists 0%nat, res].
    destruct (Hmin ltac:(lia)) as [_ Hall]. apply Forall_cons in Hall as [Hf Hr]. fold first in Hf.
    assert (mem_load first 0 mn = Some (take (Z.to_nat mn) first)) as ->.
    { rewrite <- (take_drop (Z.to_nat mn) first) at 1. apply mem_load_head. unfold zlen in *. rewrite length_take. lia. }
    simpl_bind.
    assert (length (take (Z.to_nat mn) first) = Z.to_nat mn) as Ht by (rewrite length_take; unfold zlen in *; lia).
    assert (mem_store res 0 (take (Z.to_nat mn) first) = Some (take (Z.to_nat mn) first ++ drop (Z.to_nat mn) res)) as ->.
    { rewrite <- (take_drop (Z.to_nat mn) res) at 1. apply (mem_store_mid []); [done|]. rewrite Ht, length_take, Hres. unfold zlen in *. lia. }
    simpl_bind. destruct (bitop_fast_ok op first rest Hk Hkeys Hnot' (S (Z.to_nat mn)) 0 (Z.to_nat mn) (drop (Z.to_nat mn) res)) as (j & c & He & Hl & _);
      [lia | unfold zlen in *; lia | unfold rest; apply Forall_fmap; eapply Forall_impl; [exact Hr|]; intros x Hx; cbn in *; unfold zlen in *; lia|].
    exists j, c. replace (Z.of_nat (Z.to_nat mn)) with mn in He by lia. split; [exact He|]. rewrite length_drop, Hres in Hl. unfold zlen in *. lia. }
  simpl_bind. pose proof (bitop_slow_ok op first rest Hk Hkeys Hnot' (S (Z.to_nat n)) j (Z.to_nat n) c ltac:(lia) Hjc) as Hslow.
  replace (Z.of_nat (Z.to_nat n)) with n in Hslow by lia. rewrite Hslow. done.
Qed.

(** ** Witnesses *)

Lemma redisPopcount_correct_witness : redisPopcount 3 (replicate 40 170) = Some (count_true (bits_of (replicate 40 170))) /\ count_true (bits_of (replicate 40 170)) = 160.
Proof. split; [apply redisPopcount_correct; apply (bool_decide_unpack _); vm_compute; exact I | vm_compute; reflexivity]. Defined.

Lemma redisBitpos_correct_witness : redisBitpos 5 (replicate 20 255 ++ [239]) false = Some 163.
Proof.
  refine (eq_trans (redisBitpos_correct 5 (replicate 20 255 ++ [239]) false _) _); [apply (bool_decide_unpack _); vm_compute; exact I | vm_compute; reflexivity].
Defined.

Lemma bitfield_roundtrip_witness : exists p', setSignedBitfield [255; 0; 255] 5 7 (-3) = Some p' /\ getSignedBitfield p' 5 7 = Some (-3).
Proof.
  refine (proj2 (bitfield_roundtrip [255; 0; 255] 5 7 (-3) _ _ _ _ _) _).
  - apply (bool_decide_unpack _). vm_compute. exact I.
  - discriminate.
  - split; discriminate.
  - discriminate.
  - reflexivity.
  - split; discriminate.
Defined.


Lemma bitop_correct_witness : bitop_result BITOP_AND [Some (replicate 40 255); Some (replicate 33 15)] =
  Some (Some (replicate 33 15 ++ replicate 7 0)).
Proof.
  refine (eq_trans (bitop_correct BITOP_AND (Some (replicate 40 255)) [Some (replicate 33 15)] _ _ _) _).
  - apply (bool_decide_unpack _). vm_compute. exact I.
  - apply (bool_decide_unpack _). vm_compute. exact I.
  - discriminate.
  - vm_compute. reflexivity.
Defined.
