(* ===== verification/Zskiplist.v ===== *)
(** * Zskiplist: the skip list of sorted sets (src/redis-stable/src/t_zset.c)

    Nodes are in a store, pointers are addresses in it; a node has an array of levels, each with a forward
    pointer and a span, the number of elements that the pointer crosses.  A result [None] is a NULL
    dereference, an access out of an array or a failed assertion.  Scores are an ordered type: of C doubles
    the code uses < and ==, which are a strict weak order and its equivalence on the numbers that are not
    NaN (0 and -0 are equal and different, so == is not identity). *)
From S2P Require Import Prelude.

(** ** Scores *)

Class ScoreOrder (T : Type) := {
  score_lt : T -> T -> bool;
  score_eq : T -> T -> bool;
  score_lt_trans a b c : score_lt a b = true -> score_lt b c = true -> score_lt a c = true;
  score_eq_refl a : score_eq a a = true;
  score_eq_sym a b : score_eq a b = score_eq b a;
  score_trichotomy a b : match score_lt a b, score_eq a b, score_lt b a with
    | true, false, false | false, true, false | false, false, true => True | _, _, _ => False end;
  score_eq_lt a b c : score_eq a b = true -> score_lt b c = score_lt a c;
}.

(** ** sdscmp() *)

(** The sign of memcmp() on blocks of the same length. *)
Fixpoint memcmp (a b : list Z) : Z :=
  match a, b with
  | x :: a, y :: b => if x =? y then memcmp a b else x - y
  | _, _ => 0
  end.

Definition sdscmp (s1 s2 : list Z) : Z :=
  let l1 := zlen s1 in
  let l2 := zlen s2 in
  let minlen := Z.to_nat (if l1 <? l2 then l1 else l2) in
  let cmp := memcmp (take minlen s1) (take minlen s2) in
  if cmp =? 0 then (if l2 <? l1 then 1 else if l1 <? l2 then -1 else 0) else cmp.

(** ** Lexicographic ranges *)

(** A bound is one of shared.minstring and shared.maxstring, which are compared by address, or a string. *)
Inductive lexbound := minstring | maxstring | lexstr (s : list Z).

Record zlexrangespec := ZLexRange { lmin : lexbound; lmax : lexbound; lminex : bool; lmaxex : bool }.

(** The bound and whether it is exclusive; [None] is C_ERR.  A string ends with a zero byte that is not part of its length. *)
Definition zslParseLexRangeItem (item : list Z) : option (lexbound * bool) :=
  let c (i : nat) := default 0 ((item ++ [0]) !! i) in
  if c 0%nat =? chr "+" then (if c 1%nat =? 0 then Some (maxstring, true) else None)
  else if c 0%nat =? chr "-" then (if c 1%nat =? 0 then Some (minstring, true) else None)
  else if c 0%nat =? chr "(" then Some (lexstr (drop 1 item), true)
  else if c 0%nat =? chr "[" then Some (lexstr (drop 1 item), false)
  else None.

(** An argument that is encoded as an integer is [None]. *)
Definition zslParseLexRange (min max : option (list Z)) : option zlexrangespec :=
  mn ← min; mx ← max;
  '(a, ax) ← zslParseLexRangeItem mn;
  '(b, bx) ← zslParseLexRangeItem mx;
  Some (ZLexRange a b ax bx).

Definition sdscmplex (a b : lexbound) : Z :=
  match a, b with
  | minstring, minstring | maxstring, maxstring => 0
  | minstring, _ | _, maxstring => -1
  | maxstring, _ | _, minstring => 1
  | lexstr a, lexstr b => sdscmp a b
  end.

Definition zslLexValueGteMin (value : list Z) (spec : zlexrangespec) : bool :=
  if lminex spec then 0 <? sdscmplex (lexstr value) (lmin spec) else 0 <=? sdscmplex (lexstr value) (lmin spec).
Definition zslLexValueLteMax (value : list Z) (spec : zlexrangespec) : bool :=
  if lmaxex spec then sdscmplex (lexstr value) (lmax spec) <? 0 else sdscmplex (lexstr value) (lmax spec) <=? 0.

(** ** The structure *)

Definition ZSKIPLIST_MAXLEVEL : nat := 32.

Record zskiplistLevel := ZLevel { forward : option nat; span : Z }.

Section zsl.
Context {Sc : Type} `{ScoreOrder Sc}.

Record zskiplistNode := ZNode {
  ele : option (list Z);
  score : Sc;
  backward : option nat;
  levels : list zskiplistLevel;
}.

Record zskiplist := Zsl { header : nat; tail : option nat; zlength : Z; level : nat }.

#[local] Abbreviation store := (gmap nat zskiplistNode).
Implicit Types st : store.

Definition get_level st (x i : nat) : option zskiplistLevel := nd ← st !! x; levels nd !! i.

Definition set_level st (x i : nat) (l : zskiplistLevel) : option store :=
  nd ← st !! x;
  if bool_decide (i < length (levels nd))%nat
  then Some (<[x := ZNode (ele nd) (score nd) (backward nd) (<[i := l]> (levels nd))]> st) else None.

Definition set_backward st (x : nat) (b : option nat) : option store :=
  nd ← st !! x; Some (<[x := ZNode (ele nd) (score nd) b (levels nd)]> st).

Definition set_score st (x : nat) (s : Sc) : option store :=
  nd ← st !! x; Some (<[x := ZNode (ele nd) s (backward nd) (levels nd)]> st).

(** The code leaves the levels and the backward pointer of a new node uninitialized; here they are NULL and 0. The two callers write all of them before they are read:
    zslCreate() with these values, zslInsert() in [link_levels] and [set_backward]. *)
Definition zslCreateNode (lvl : nat) (sc : Sc) (e : option (list Z)) : zskiplistNode :=
  ZNode e sc None (replicate lvl (ZLevel None 0)).

(** [zero] is the score 0; [h] the address of the new header. *)
Definition zslCreate (zero : Sc) (h : nat) : store * zskiplist :=
  ({[ h := zslCreateNode ZSKIPLIST_MAXLEVEL zero None ]}, Zsl h None 0 1).

(** The numbers that random() returns are a list. ZSKIPLIST_P * 0xFFFF is 16383.75. *)
Fixpoint zslRandomLevel_loop (draws : list Z) (lvl : nat) : option nat :=
  match draws with
  | [] => None
  | r :: draws => if Z.land r 65535 <? 16384 then zslRandomLevel_loop draws (lvl + 1) else Some lvl
  end.

Definition zslRandomLevel (draws : list Z) : option nat :=
  lvl ← zslRandomLevel_loop draws 1;
  Some (if bool_decide (lvl < ZSKIPLIST_MAXLEVEL)%nat then lvl else ZSKIPLIST_MAXLEVEL).

(** ** The search loops *)

(** [while (x->level[i].forward && go(x->level[i].forward))], with the elements that are crossed counted in
    [rank] and cut by [w] to the width of the counter; [go] also gets the count at the next node. *)
Fixpoint walk (fuel : nat) st (go : zskiplistNode -> Z -> bool) (w : Z -> Z) (i x : nat) (rank : Z) : option (nat * Z) :=
  match fuel with
  | O => None
  | S fuel =>
      l ← get_level st x i;
      match forward l with
      | None => Some (x, rank)
      | Some f =>
          fn ← st !! f;
          if go fn (rank + span l) then walk fuel st go w i f (w (rank + span l)) else Some (x, rank)
      end
  end.

(** for (i = level-1; i >= 0; i--): [update] and [rank] by level. *)
Fixpoint search (fuel : nat) st (go : zskiplistNode -> Z -> bool) (w : Z -> Z) (i x : nat) (rank : Z) : option (list nat * list Z) :=
  match i with
  | O => Some ([], [])
  | S i =>
      '(x, rank) ← walk fuel st go w i x rank;
      '(update, ranks) ← search fuel st go w i x rank;
      Some (update ++ [x], ranks ++ [rank])
  end.

(** The fuel of the walks: one more than the number of nodes. *)
Definition zsl_fuel st : nat := S (size st).

(** score < s || (score == s && sdscmp(ele,e) < 0) *)
Definition node_before (sc : Sc) (e : list Z) (nd : zskiplistNode) : bool :=
  score_lt (score nd) sc || (score_eq (score nd) sc && match ele nd with Some e' => sdscmp e' e <? 0 | None => false end).

(** ** Insertion *)

(** for (i = zsl->level; i < level; i++), [n] turns left *)
Fixpoint raise_levels (n : nat) st (h i : nat) (len : Z) : option store :=
  match n with
  | O => Some st
  | S n =>
      l ← get_level st h i;
      st ← set_level st h i (ZLevel (forward l) len);
      raise_levels n st h (S i) len
  end.

(** for (i = 0; i < level; i++) *)
Fixpoint link_levels (n : nat) st (x i : nat) (update : list nat) (rank : list Z) : option store :=
  match n with
  | O => Some st
  | S n =>
      u ← update !! i;
      r0 ← rank !! 0%nat;
      r ← rank !! i;
      l ← get_level st u i;
      st ← set_level st x i (ZLevel (forward l) (u64 (span l - u32 (r0 - r))));
      st ← set_level st u i (ZLevel (Some x) (u32 (u32 (r0 - r) + 1)));
      link_levels n st x (S i) update rank
  end.

(** for (i = level; i < zsl->level; i++) *)
Fixpoint bump_levels (n : nat) st (i : nat) (update : list nat) : option store :=
  match n with
  | O => Some st
  | S n =>
      u ← update !! i;
      l ← get_level st u i;
      st ← set_level st u i (ZLevel (forward l) (u64 (span l + 1)));
      bump_levels n st (S i) update
  end.

(** [lvl] is the result of zslRandomLevel(), [x] the address of the new node. *)
Definition zslInsert st (zsl : zskiplist) (sc : Sc) (e : list Z) (lvl x : nat) : option (store * zskiplist) :=
  '(update, rank) ← search (zsl_fuel st) st (fun nd _ => node_before sc e nd) (uwrap 32) (level zsl) (header zsl) 0;
  let more := (lvl - level zsl)%nat in
  st ← raise_levels more st (header zsl) (level zsl) (zlength zsl);
  let update := update ++ replicate more (header zsl) in
  let rank := rank ++ replicate more 0 in
  let zlevel := Nat.max (level zsl) lvl in
  let st := <[x := zslCreateNode lvl sc (Some e)]> st in
  st ← link_levels lvl st x 0 update rank;
  st ← bump_levels (zlevel - lvl) st lvl update;
  u0 ← update !! 0%nat;
  st ← set_backward st x (if bool_decide (u0 = header zsl) then None else Some u0);
  l ← get_level st x 0;
  match forward l with
  | Some f => st ← set_backward st f (Some x); Some (st, Zsl (header zsl) (tail zsl) (u64 (zlength zsl + 1)) zlevel)
  | None => Some (st, Zsl (header zsl) (Some x) (u64 (zlength zsl + 1)) zlevel)
  end.

(** ** Deletion *)

(** for (i = 0; i < zsl->level; i++) *)
Fixpoint unlink_levels (n : nat) st (x i : nat) (update : list nat) : option store :=
  match n with
  | O => Some st
  | S n =>
      u ← update !! i;
      l ← get_level st u i;
      st ← (if bool_decide (forward l = Some x) then
              lx ← get_level st x i;
              set_level st u i (ZLevel (forward lx) (u64 (span l + u64 (span lx - 1))))
            else set_level st u i (ZLevel (forward l) (u64 (span l - 1))));
      unlink_levels n st x (S i) update
  end.

(** while(zsl->level > 1 && zsl->header->level[zsl->level-1].forward == NULL) zsl->level--; *)
Fixpoint lower_level st (h lvl : nat) : option nat :=
  match lvl with
  | S (S _ as lvl') =>
      l ← get_level st h lvl';
      match forward l with None => lower_level st h lvl' | Some _ => Some lvl end
  | _ => Some lvl
  end.

Definition zslDeleteNode st (zsl : zskiplist) (x : nat) (update : list nat) : option (store * zskiplist) :=
  st ← unlink_levels (level zsl) st x 0 update;
  nd ← st !! x;
  l ← levels nd !! 0%nat;
  '(st, tl) ← match forward l with
              | Some f => st ← set_backward st f (backward nd); Some (st, tail zsl)
              | None => Some (st, backward nd)
              end;
  lvl ← lower_level st (header zsl) (level zsl);
  Some (st, Zsl (header zsl) tl (u64 (zlength zsl - 1)) lvl).

(** zslFreeNode() *)
Definition zslFreeNode st (x : nat) : store := delete x st.

(** The node is freed ([node] is NULL in the call). *)
Definition zslDelete st (zsl : zskiplist) (sc : Sc) (e : list Z) : option (store * zskiplist * bool) :=
  '(update, _) ← search (zsl_fuel st) st (fun nd _ => node_before sc e nd) id (level zsl) (header zsl) 0;
  u0 ← update !! 0%nat;
  l ← get_level st u0 0;
  match forward l with
  | None => Some (st, zsl, false)
  | Some x =>
      nd ← st !! x;
      e' ← ele nd;
      if score_eq sc (score nd) && (sdscmp e' e =? 0) then
        '(st, zsl) ← zslDeleteNode st zsl x update;
        Some (zslFreeNode st x, zsl, true)
      else Some (st, zsl, false)
  end.

(** [lvl] and [new] are for the new node, when one is needed; the result is the node of the element. *)
Definition zslUpdateScore st (zsl : zskiplist) (curscore : Sc) (e : list Z) (newscore : Sc) (lvl new : nat) : option (store * zskiplist * nat) :=
  '(update, _) ← search (zsl_fuel st) st (fun nd _ => node_before curscore e nd) id (level zsl) (header zsl) 0;
  u0 ← update !! 0%nat;
  l ← get_level st u0 0;
  x ← forward l;
  nd ← st !! x;
  e' ← ele nd;
  if negb (score_eq curscore (score nd) && (sdscmp e' e =? 0)) then None
  else
    back_ok ← match backward nd with None => Some true | Some b => bn ← st !! b; Some (score_lt (score bn) newscore) end;
    lx ← levels nd !! 0%nat;
    next_ok ← match forward lx with None => Some true | Some f => fn ← st !! f; Some (score_lt newscore (score fn)) end;
    if back_ok && next_ok then st ← set_score st x newscore; Some (st, zsl, x)
    else
      '(st, zsl) ← zslDeleteNode st zsl x update;
      '(st, zsl) ← zslInsert st zsl newscore e' lvl new;
      Some (zslFreeNode st x, zsl, new).

(** ** Ranks *)

(** for (i = zsl->level-1; i >= 0; i--), with the return inside of the loop *)
Fixpoint getrank_loop (fuel : nat) st (sc : Sc) (e : list Z) (i x : nat) (rank : Z) : option Z :=
  match i with
  | O => Some 0
  | S i =>
      '(x, rank) ← walk fuel st (fun nd _ => score_lt (score nd) sc ||
          (score_eq (score nd) sc && match ele nd with Some e' => sdscmp e' e <=? 0 | None => false end)) (uwrap 64) i x rank;
      nd ← st !! x;
      if match ele nd with Some e' => sdscmp e' e =? 0 | None => false end then Some rank
      else getrank_loop fuel st sc e i x rank
  end.

Definition zslGetRank st (zsl : zskiplist) (sc : Sc) (e : list Z) : option Z := getrank_loop (zsl_fuel st) st sc e (level zsl) (header zsl) 0.

Fixpoint byrank_loop (fuel : nat) st (rank : Z) (i x : nat) (traversed : Z) : option (option nat) :=
  match i with
  | O => Some None
  | S i =>
      '(x, traversed) ← walk fuel st (fun _ t => u64 t <=? rank) (uwrap 64) i x traversed;
      if traversed =? rank then Some (Some x) else byrank_loop fuel st rank i x traversed
  end.

Definition zslGetElementByRank st (zsl : zskiplist) (rank : Z) : option (option nat) := byrank_loop (zsl_fuel st) st rank (level zsl) (header zsl) 0.

(** ** Ranges of scores *)

Record zrangespec := ZRange { zmin : Sc; zmax : Sc; minex : bool; maxex : bool }.

Definition score_le (a b : Sc) : bool := score_lt a b || score_eq a b.

Definition zslValueGteMin (value : Sc) (spec : zrangespec) : bool := if minex spec then score_lt (zmin spec) value else score_le (zmin spec) value.
Definition zslValueLteMax (value : Sc) (spec : zrangespec) : bool := if maxex spec then score_lt value (zmax spec) else score_le value (zmax spec).

Definition zslIsInRange st (zsl : zskiplist) (range : zrangespec) : option bool :=
  if score_lt (zmax range) (zmin range) || (score_eq (zmin range) (zmax range) && (minex range || maxex range)) then Some false
  else
    in_min ← match tail zsl with None => Some false | Some x => nd ← st !! x; Some (zslValueGteMin (score nd) range) end;
    if negb in_min then Some false
    else
      l ← get_level st (header zsl) 0;
      match forward l with None => Some false | Some x => nd ← st !! x; Some (zslValueLteMax (score nd) range) end.

Definition zslFirstInRange st (zsl : zskiplist) (range : zrangespec) : option (option nat) :=
  ok ← zslIsInRange st zsl range;
  if negb ok then Some None
  else
    '(update, _) ← search (zsl_fuel st) st (fun nd _ => negb (zslValueGteMin (score nd) range)) id (level zsl) (header zsl) 0;
    u0 ← update !! 0%nat;
    l ← get_level st u0 0;
    x ← forward l;
    nd ← st !! x;
    Some (if negb (zslValueLteMax (score nd) range) then None else Some x).

Definition zslLastInRange st (zsl : zskiplist) (range : zrangespec) : option (option nat) :=
  ok ← zslIsInRange st zsl range;
  if negb ok then Some None
  else
    '(update, _) ← search (zsl_fuel st) st (fun nd _ => zslValueLteMax (score nd) range) id (level zsl) (header zsl) 0;
    x ← update !! 0%nat;
    nd ← st !! x;
    Some (if negb (zslValueGteMin (score nd) range) then None else Some x).

(** while (x && in_range(x)): deletes nodes; the elements that are removed are returned, for the calls of dictDelete(). *)
Fixpoint delete_while (fuel : nat) st (zsl : zskiplist) (update : list nat) (x : option nat) (go : zskiplistNode -> Z -> bool) (t : Z) : option (store * zskiplist * list (list Z)) :=
  match fuel with
  | O => None
  | S fuel =>
      match x with
      | None => Some (st, zsl, [])
      | Some x =>
          nd ← st !! x;
          if go nd t then
            l ← levels nd !! 0%nat;
            let next := forward l in
            '(st, zsl) ← zslDeleteNode st zsl x update;
            e ← ele nd;
            '(st, zsl, removed) ← delete_while fuel (zslFreeNode st x) zsl update next go (u64 (t + 1));
            Some (st, zsl, e :: removed)
          else Some (st, zsl, [])
      end
  end.

Definition zslDeleteRangeByScore st (zsl : zskiplist) (range : zrangespec) : option (store * zskiplist * list (list Z)) :=
  '(update, _) ← search (zsl_fuel st) st (fun nd _ => negb (zslValueGteMin (score nd) range)) id (level zsl) (header zsl) 0;
  u0 ← update !! 0%nat;
  l ← get_level st u0 0;
  delete_while (zsl_fuel st) st zsl update (forward l) (fun nd _ => zslValueLteMax (score nd) range) 0.

Definition zslDeleteRangeByRank st (zsl : zskiplist) (start end_ : Z) : option (store * zskiplist * list (list Z)) :=
  '(update, ranks) ← search (zsl_fuel st) st (fun _ t => u64 t <? start) (uwrap 64) (level zsl) (header zsl) 0;
  u0 ← update !! 0%nat;
  traversed ← ranks !! 0%nat;
  l ← get_level st u0 0;
  delete_while (zsl_fuel st) st zsl update (forward l) (fun _ t => t <=? end_) (u64 (traversed + 1)).

(** The element of a node, which is not the header. *)
Definition node_gte (range : zlexrangespec) (nd : zskiplistNode) : bool := match ele nd with Some e => zslLexValueGteMin e range | None => false end.
Definition node_lte (range : zlexrangespec) (nd : zskiplistNode) : bool := match ele nd with Some e => zslLexValueLteMax e range | None => false end.

Definition zslIsInLexRange st (zsl : zskiplist) (range : zlexrangespec) : option bool :=
  let cmp := sdscmplex (lmin range) (lmax range) in
  if (0 <? cmp) || ((cmp =? 0) && (lminex range || lmaxex range)) then Some false
  else
    in_min ← match tail zsl with None => Some false | Some x => nd ← st !! x; Some (node_gte range nd) end;
    if negb in_min then Some false
    else
      l ← get_level st (header zsl) 0;
      match forward l with None => Some false | Some x => nd ← st !! x; Some (node_lte range nd) end.

Definition zslFirstInLexRange st (zsl : zskiplist) (range : zlexrangespec) : option (option nat) :=
  ok ← zslIsInLexRange st zsl range;
  if negb ok then Some None
  else
    '(update, _) ← search (zsl_fuel st) st (fun nd _ => negb (node_gte range nd)) id (level zsl) (header zsl) 0;
    u0 ← update !! 0%nat;
    l ← get_level st u0 0;
    x ← forward l;
    nd ← st !! x;
    Some (if negb (node_lte range nd) then None else Some x).

Definition zslLastInLexRange st (zsl : zskiplist) (range : zlexrangespec) : option (option nat) :=
  ok ← zslIsInLexRange st zsl range;
  if negb ok then Some None
  else
    '(update, _) ← search (zsl_fuel st) st (fun nd _ => node_lte range nd) id (level zsl) (header zsl) 0;
    x ← update !! 0%nat;
    nd ← st !! x;
    Some (if negb (node_gte range nd) then None else Some x).

Definition zslDeleteRangeByLex st (zsl : zskiplist) (range : zlexrangespec) : option (store * zskiplist * list (list Z)) :=
  '(update, _) ← search (zsl_fuel st) st (fun nd _ => negb (node_gte range nd)) id (level zsl) (header zsl) 0;
  u0 ← update !! 0%nat;
  l ← get_level st u0 0;
  delete_while (zsl_fuel st) st zsl update (forward l) (fun nd _ => node_lte range nd) 0.

(** while (node): [node->level] is read before the node is freed. *)
Fixpoint free_loop (fuel : nat) st (node : option nat) : option store :=
  match fuel with
  | O => None
  | S fuel =>
      match node with
      | None => Some st
      | Some x => l ← get_level st x 0; free_loop fuel (zslFreeNode st x) (forward l)
      end
  end.

Definition zslFree st (zsl : zskiplist) : option store :=
  l ← get_level st (header zsl) 0;
  free_loop (zsl_fuel st) (zslFreeNode st (header zsl)) (forward l).

End zsl.
Arguments zskiplistNode _ : clear implicits.
Arguments zrangespec _ : clear implicits.
Abbreviation store Sc := (gmap nat (zskiplistNode Sc)).

(** ** The order of the elements *)

(** Lexicographic comparison. *)
Fixpoint lexcmp (a b : list Z) : Z :=
  match a, b with
  | [], [] => 0
  | [], _ :: _ => -1
  | _ :: _, [] => 1
  | x :: a, y :: b => if x =? y then lexcmp a b else x - y
  end.

Lemma sdscmp_lex a b : sdscmp a b = lexcmp a b.
Proof.
  revert b. induction a as [|x a IH]; intros [|y b]; cbn [lexcmp]; try done.
  specialize (IH b). unfold sdscmp in *. cbv zeta in *. rewrite !zlen_cons. pose proof (zlen_nonneg a). pose proof (zlen_nonneg b).
    replace (1 + zlen a <? 1 + zlen b) with (zlen a <? zlen b) by (apply eq_true_iff_eq; rewrite !Z.ltb_lt; lia).
    replace (1 + zlen b <? 1 + zlen a) with (zlen b <? zlen a) by (apply eq_true_iff_eq; rewrite !Z.ltb_lt; lia).
    set (m := if zlen a <? zlen b then zlen a else zlen b) in *. assert (0 <= m) by (unfold m; destruct (_ <? _); lia).
    replace (Z.to_nat (if zlen a <? zlen b then 1 + zlen a else 1 + zlen b)) with (S (Z.to_nat m)) by (unfold m; destruct (_ <? _); lia).
    cbn [take memcmp]. destruct (Z.eqb_spec x y); [done|]. by rewrite (proj2 (Z.eqb_neq (x - y) 0)) by lia.
Qed.

Lemma lexcmp_eq a b : lexcmp a b = 0 <-> a = b.
Proof.
  revert b. induction a as [|x a IH]; intros [|y b]; cbn [lexcmp]; try done. destruct (Z.eqb_spec x y) as [->|].
  - rewrite IH. split; [by intros -> | by intros [= ->]].
  - split; [lia | by intros [= ->]].
Qed.

Lemma lexcmp_anti a b : (lexcmp a b < 0 <-> 0 < lexcmp b a) /\ (0 < lexcmp a b <-> lexcmp b a < 0).
Proof.
  revert b. induction a as [|x a IH]; intros [|y b]; cbn [lexcmp]; try lia. destruct (Z.eqb_spec x y) as [->|]; [rewrite Z.eqb_refl; apply IH|].
  rewrite (proj2 (Z.eqb_neq y x)) by lia. lia.
Qed.

Lemma lexcmp_trans a b c : lexcmp a b < 0 -> lexcmp b c < 0 -> lexcmp a c < 0.
Proof.
  revert b c. induction a as [|x a IH]; intros [|y b] [|z c]; cbn [lexcmp]; try lia.
  destruct (Z.eqb_spec x y) as [->|], (Z.eqb_spec y z) as [->|]; try (rewrite Z.eqb_refl).
  - apply IH.
  - lia.
  - rewrite (proj2 (Z.eqb_neq x z)) by lia. lia.
  - destruct (Z.eqb_spec x z); lia.
Qed.

Section order.
Context {Sc : Type} `{ScoreOrder Sc}.
Implicit Types a b c : Sc * list Z.

(** The order of the skip list. *)
Definition before a b : bool := score_lt a.1 b.1 || (score_eq a.1 b.1 && (sdscmp a.2 b.2 <? 0)).
Definition same_key a b : bool := score_eq a.1 b.1 && (sdscmp a.2 b.2 =? 0).

Lemma score_lt_irrefl (x : Sc) : score_lt x x = false.
Proof. pose proof (score_trichotomy x x) as Ht. rewrite score_eq_refl in Ht. by destruct (score_lt x x). Qed.

Lemma score_lt_eq (x y z : Sc) : score_eq y z = true -> score_lt x y = score_lt x z.
Proof.
  intros He. pose proof (score_trichotomy x y) as H1. pose proof (score_trichotomy x z) as H2.
  assert (score_lt z x = score_lt y x) as E1 by (apply score_eq_lt; done).
  destruct (score_lt x y) eqn:L1, (score_lt x z) eqn:L2; try done; exfalso.
  - rewrite E1 in H2. destruct (score_eq x y) eqn:Q1, (score_lt y x) eqn:L3; try done. destruct (score_eq x z) eqn:Q2; [|done].
    rewrite score_eq_sym in Q2. pose proof (score_eq_lt z x y Q2) as E2. rewrite L1 in E2.
    pose proof (score_trichotomy z y) as H3. rewrite <- E2 in H3. rewrite score_eq_sym in He. by rewrite He in H3.
  - rewrite E1 in H2. destruct (score_eq x z) eqn:Q2, (score_lt y x) eqn:L3; try done. destruct (score_eq x y) eqn:Q1; [|done].
    rewrite score_eq_sym in Q1. pose proof (score_eq_lt y x z Q1) as E2. rewrite L2 in E2.
    pose proof (score_trichotomy y z) as H3. rewrite <- E2 in H3. by rewrite He in H3.
Qed.

Lemma score_eq_trans (x y z : Sc) : score_eq x y = true -> score_eq y z = true -> score_eq x z = true.
Proof.
  intros H1 H2. pose proof (score_trichotomy x z) as Ht. rewrite <- (score_lt_eq x y z H2) in Ht.
  rewrite (score_lt_eq z x y H1) in Ht. pose proof (score_trichotomy x y) as T1. rewrite H1 in T1. pose proof (score_trichotomy y z) as T2. rewrite H2 in T2.
  destruct (score_lt x y), (score_lt y x), (score_lt y z), (score_lt z y), (score_eq x z); done.
Qed.

Lemma before_irrefl a : before a a = false.
Proof. unfold before. rewrite score_lt_irrefl, score_eq_refl, sdscmp_lex. cbn. by rewrite (proj2 (lexcmp_eq _ _) eq_refl). Qed.

Lemma before_trans a b c : before a b = true -> before b c = true -> before a c = true.
Proof.
  unfold before. rewrite !sdscmp_lex, !orb_true_iff, !andb_true_iff, !Z.ltb_lt. intros [H1|[H1 L1]] [H2|[H2 L2]].
  - left. by eapply score_lt_trans.
  - left. by rewrite <- (score_lt_eq _ _ _ H2).
  - left. by rewrite <- (score_eq_lt _ _ _ H1).
  - right. split; [by eapply score_eq_trans | by eapply lexcmp_trans].
Qed.

Lemma before_total a b : before a b = false -> same_key a b = false -> before b a = true.
Proof.
  unfold before, same_key. rewrite !sdscmp_lex. intros H1 H2. apply orb_false_elim in H1 as [H1 H3]. pose proof (score_trichotomy a.1 b.1) as Ht. rewrite H1 in Ht.
  rewrite (score_eq_sym b.1 a.1). destruct (score_eq a.1 b.1); cbn [andb] in *.
  - apply Z.ltb_ge in H3. apply Z.eqb_neq in H2. apply orb_true_iff. right. apply Z.ltb_lt, lexcmp_anti. lia.
  - by destruct (score_lt b.1 a.1).
Qed.

Lemma before_asym a b : before a b = true -> before b a = false.
Proof. intros H1. destruct (before b a) eqn:H2; [|done]. pose proof (before_trans _ _ _ H1 H2) as H3. by rewrite before_irrefl in H3. Qed.

Lemma same_key_before a b : same_key a b = true -> before a b = false.
Proof.
  unfold before, same_key. rewrite andb_true_iff, Z.eqb_eq. intros [H1 H2]. rewrite H1, H2. cbn. pose proof (score_trichotomy a.1 b.1) as Ht. rewrite H1 in Ht.
  by destruct (score_lt a.1 b.1).
Qed.

Definition sorted (l : list (Sc * list Z)) : Prop := StronglySorted (fun a b => before a b = true) l.

End order.

(** ** What a skip list represents *)

Section rep.
Context {Sc : Type} `{ScoreOrder Sc}.
Implicit Types st : store Sc.

(** The number of levels of a node. *)
Definition ht st (a : nat) : nat := match st !! a with Some nd => length (levels nd) | None => 0 end.

(** The link at level [i] of a node that is followed by the nodes [L]: to the first of them that has this level,
    with the distance, or NULL with the distance to the last. *)
Fixpoint next_in (hf : nat -> nat) (i : nat) (L : list nat) : zskiplistLevel :=
  match L with
  | [] => ZLevel None 0
  | b :: L => if bool_decide (i < hf b)%nat then ZLevel (Some b) 1 else let l := next_in hf i L in ZLevel (forward l) (span l + 1)
  end.

(** The nodes [xs] have the elements [kvs]. *)
Record rep st (z : zskiplist) (xs : list nat) (kvs : list (Sc * list Z)) : Prop := Rep {
  rep_nodup : NoDup (header z :: xs);
  rep_header : exists nd, st !! header z = Some nd /\ length (levels nd) = ZSKIPLIST_MAXLEVEL /\ ele nd = None;
  rep_nodes : Forall2 (fun a kv => exists nd, st !! a = Some nd /\ score nd = kv.1 /\ ele nd = Some kv.2 /\ (1 <= length (levels nd) <= level z)%nat) xs kvs;
  rep_level : (1 <= level z <= ZSKIPLIST_MAXLEVEL)%nat;
  rep_levels : forall p a i, (header z :: xs) !! p = Some a -> (i < ht st a)%nat -> (i < level z)%nat ->
    get_level st a i = Some (next_in (ht st) i (drop p xs));
  rep_high : forall i, (level z <= i < ZSKIPLIST_MAXLEVEL)%nat -> exists l, get_level st (header z) i = Some l /\ forward l = None;
  rep_back : forall p a nd, xs !! p = Some a -> st !! a = Some nd -> backward nd = match p with O => None | S p => xs !! p end;
  rep_tail : tail z = last xs;
  rep_len : zlength z = zlen xs;
}.

(** The same, by positions in the sequence [A] (header first). *)
Definition link_ok st (A : list nat) (p i : nat) (l : zskiplistLevel) : Prop :=
  match forward l with
  | Some f => exists q, (p < q)%nat /\ A !! q = Some f /\ (i < ht st f)%nat /\
      (forall k b, (p < k < q)%nat -> A !! k = Some b -> (ht st b <= i)%nat) /\ span l = Z.of_nat q - Z.of_nat p
  | None => (forall k b, (p < k)%nat -> A !! k = Some b -> (ht st b <= i)%nat) /\ span l = zlen A - 1 - Z.of_nat p
  end.

Lemma next_in_spec (hf : nat -> nat) i L :
  match forward (next_in hf i L) with
  | Some f => exists q, L !! q = Some f /\ (i < hf f)%nat /\ (forall k b, (k < q)%nat -> L !! k = Some b -> (hf b <= i)%nat) /\ span (next_in hf i L) = Z.of_nat (S q)
  | None => (forall k b, L !! k = Some b -> (hf b <= i)%nat) /\ span (next_in hf i L) = zlen L
  end.
Proof.
  induction L as [|b L IH]; cbn [next_in]; [done|]. case_bool_decide as Hb; cbn [forward span].
  - exists 0%nat. split_and!; [done | done | lia | done].
  - destruct (forward (next_in hf i L)) as [f|].
    + destruct IH as (q & Hq & Hf & Hbetween & Hspan). exists (S q). split_and!; [done | done | | lia].
      intros [|k] c Hk Hc; [injection Hc as <-; lia|]. apply (Hbetween k); [lia | done].
    + destruct IH as [Hnone Hspan]. split; [|rewrite zlen_cons; lia]. intros [|k] c Hc; [injection Hc as <-; lia | by apply (Hnone k)].
Qed.

Lemma rep_links st z xs kvs : rep st z xs kvs -> forall p a i, (header z :: xs) !! p = Some a -> (i < ht st a)%nat -> (i < level z)%nat ->
  exists l, get_level st a i = Some l /\ link_ok st (header z :: xs) p i l.
Proof.
  intros Hr p a i Hp Hi Hl. eexists. split; [by eapply rep_levels|]. pose proof (next_in_spec (ht st) i (drop p xs)) as Hs. unfold link_ok. pose proof (lookup_lt_Some _ _ _ Hp).
  destruct (forward _) as [f|].
  - destruct Hs as (q & Hq & Hf & Hbetween & Hspan). rewrite lookup_drop in Hq. exists (S (p + q)). split_and!; [lia | done | done | | lia].
    intros [|k] b Hk Hb; [lia|]. apply (Hbetween (k - p)%nat); [lia|]. rewrite lookup_drop. by replace (p + (k - p))%nat with k by lia.
  - destruct Hs as [Hnone Hspan]. split; [|rewrite Hspan; unfold zlen; rewrite length_drop; cbn [length] in *; lia].
    intros [|k] b Hk Hb; [lia|]. apply (Hnone (k - p)%nat). rewrite lookup_drop. by replace (p + (k - p))%nat with k by lia.
Qed.

Lemma rep_zlen st z xs kvs : rep st z xs kvs -> length xs = length kvs.
Proof. intros Hr. eapply Forall2_length, rep_nodes; done. Qed.

(** The node at a position, with its element. *)
Lemma rep_node st z xs kvs q a : rep st z xs kvs -> xs !! q = Some a -> exists nd kv, kvs !! q = Some kv /\ st !! a = Some nd /\
  score nd = kv.1 /\ ele nd = Some kv.2 /\ (1 <= ht st a <= level z)%nat.
Proof.
  intros Hr Hq. destruct (Forall2_lookup_l _ _ _ _ _ (rep_nodes _ _ _ _ Hr) Hq) as (kv & Hkv & nd & Hnd & H1 & H2 & H3).
  exists nd, kv. split_and!; try done; unfold ht; rewrite Hnd; lia.
Qed.

Lemma rep_in_store st z xs kvs a : rep st z xs kvs -> a ∈ header z :: xs -> exists nd, st !! a = Some nd /\ (0 < ht st a)%nat.
Proof.
  intros Hr [->|Ha]%elem_of_cons.
  - destruct (rep_header _ _ _ _ Hr) as (nd & Hnd & Hl & _). exists nd. split; [done|]. unfold ht. rewrite Hnd, Hl. unfold ZSKIPLIST_MAXLEVEL. lia.
  - apply list_elem_of_lookup in Ha as [q Hq]. destruct (rep_node _ _ _ _ _ _ Hr Hq) as (nd & kv & _ & Hnd & _ & _ & Hh). exists nd. split; [done | lia].
Qed.

Lemma ht_header st z xs kvs : rep st z xs kvs -> ht st (header z) = ZSKIPLIST_MAXLEVEL.
Proof. intros Hr. destruct (rep_header _ _ _ _ Hr) as (nd & Hnd & Hl & _). unfold ht. by rewrite Hnd. Qed.

(** There are as many nodes as addresses, at least. *)
Lemma rep_fuel st z xs kvs : rep st z xs kvs -> (S (length xs) < zsl_fuel st)%nat.
Proof.
  intros Hr. unfold zsl_fuel. assert (list_to_set (header z :: xs) ⊆@{gset nat} dom st) as Hsub.
  { intros a Ha%elem_of_list_to_set. destruct (rep_in_store _ _ _ _ _ Hr Ha) as (nd & Hnd & _). apply (elem_of_dom (D := gset nat) (st : gmap nat _) a). by exists nd. }
  apply subseteq_size in Hsub. rewrite size_list_to_set, size_dom in Hsub by apply (rep_nodup _ _ _ _ Hr). cbn [length] in Hsub. lia.
Qed.

(** ** Searches *)

(** [q] is the last position up to [r] whose node [y] has level [i]. *)
Definition is_last st (A : list nat) (i r q y : nat) : Prop :=
  A !! q = Some y /\ (i < ht st y)%nat /\ (q <= r)%nat /\ forall k b, (q < k <= r)%nat -> A !! k = Some b -> (ht st b <= i)%nat.

Context (st : store Sc) (z : zskiplist) (xs : list nat) (kvs : list (Sc * list Z)) (Hrep : rep st z xs kvs).
Context (go : zskiplistNode Sc -> Z -> bool) (w : Z -> Z) (r : nat).
(** The condition holds for the first [r] elements, and the counter is wide enough. *)
Context (Hr : (r <= length xs)%nat) (Hw : forall q : nat, (q <= length xs)%nat -> w (Z.of_nat q) = Z.of_nat q).
Context (Hgo : forall q a nd, xs !! q = Some a -> st !! a = Some nd -> go nd (Z.of_nat (S q)) = bool_decide (S q <= r)%nat).

Lemma walk_ok fuel : forall i x p, (header z :: xs) !! p = Some x -> (i < ht st x)%nat -> (i < level z)%nat -> (p <= r)%nat -> (length xs - p < fuel)%nat ->
  exists y q, walk fuel st go w i x (Z.of_nat p) = Some (y, Z.of_nat q) /\ is_last st (header z :: xs) i r q y.
Proof.
  induction fuel as [|fuel IH]; intros i x p Hp Hi Hl Hpr Hf; [lia|]. cbn [walk].
  destruct (rep_links _ _ _ _ Hrep p x i Hp Hi Hl) as (l & Hget & Hlink). rewrite Hget. simpl_bind. unfold link_ok in Hlink.
  destruct (forward l) as [f|].
  - destruct Hlink as (q & Hpq & Hq & Hqi & Hbetween & Hspan). destruct (rep_in_store _ _ _ _ f Hrep) as (fn & Hfn & _); [by eapply list_elem_of_lookup_2|].
    rewrite Hfn. simpl_bind. rewrite Hspan. replace (Z.of_nat p + (Z.of_nat q - Z.of_nat p)) with (Z.of_nat q) by lia.
    destruct q as [|q]; [lia|]. cbn [lookup list_lookup] in Hq. rewrite (Hgo q f fn Hq Hfn). pose proof (lookup_lt_Some _ _ _ Hq).
    destruct (decide (S q <= r)%nat) as [Hle|Hgt].
    + rewrite bool_decide_true by done. rewrite Hw by lia. apply IH; (done || lia).
    + rewrite bool_decide_false by done. exists x, p. split; [done|]. unfold is_last. split_and!; try done. intros k b Hk Hb. apply (Hbetween k b); [lia | done].
  - destruct Hlink as [Hnone _]. exists x, p. split; [done|]. unfold is_last. split_and!; try done. intros k b Hk Hb. apply (Hnone k b); [lia | done].
Qed.

Lemma search_ok fuel : (length xs < fuel)%nat -> forall i x p, (header z :: xs) !! p = Some x -> (i <= ht st x)%nat -> (i <= level z)%nat -> (p <= r)%nat ->
  exists update ranks, search fuel st go w i x (Z.of_nat p) = Some (update, ranks) /\ length update = i /\ length ranks = i /\
    forall j, (j < i)%nat -> exists y q, update !! j = Some y /\ ranks !! j = Some (Z.of_nat q) /\ is_last st (header z :: xs) j r q y.
Proof.
  intros Hf. induction i as [|i IH]; intros x p Hp Hi Hl Hpr; cbn [search]; [exists [], []; split_and!; (done || lia)|].
  destruct (walk_ok fuel i x p Hp) as (y & q & -> & Hlast); [lia..|]. simpl_bind. pose proof Hlast as (Hq & Hiq & Hqr & _).
  destruct (IH y q Hq) as (update & ranks & -> & Hu & Hrk & Hall); [lia..|]. simpl_bind.
  exists (update ++ [y]), (ranks ++ [Z.of_nat q]). rewrite !length_app, Hu, Hrk. split_and!; [done | cbn; lia | cbn; lia|].
  intros j Hj. destruct (decide (j = i)) as [->|].
  - exists y, q. rewrite !lookup_app_r by lia. rewrite Hu, Hrk, Nat.sub_diag. by split_and!.
  - destruct (Hall j) as (y' & q' & H1 & H2 & H3); [lia|]. exists y', q'. rewrite !lookup_app_l by lia. by split_and!.
Qed.

(** At level 0 the search stops at position [r]. *)
Lemma is_last_0 q y : is_last st (header z :: xs) 0 r q y -> q = r.
Proof.
  intros (Hq & _ & Hqr & Hmax). destruct (decide (q = r)) as [|Hne]; [done|]. exfalso.
  destruct (lookup_lt_is_Some_2 (header z :: xs) r) as [b Hb]; [cbn; lia|]. pose proof (Hmax r b ltac:(lia) Hb).
  destruct (rep_in_store _ _ _ _ b Hrep) as (_ & _ & Hh); [by eapply list_elem_of_lookup_2 | lia].
Qed.

Lemma search_header : exists update ranks, search (zsl_fuel st) st go w (level z) (header z) 0 = Some (update, ranks) /\ length update = level z /\ length ranks = level z /\
  (forall j, (j < level z)%nat -> exists y q, update !! j = Some y /\ ranks !! j = Some (Z.of_nat q) /\ is_last st (header z :: xs) j r q y) /\
  exists u0, update !! 0%nat = Some u0 /\ ranks !! 0%nat = Some (Z.of_nat r) /\ (header z :: xs) !! r = Some u0.
Proof.
  destruct (rep_level _ _ _ _ Hrep) as [Hl1 Hl2]. pose proof (rep_fuel _ _ _ _ Hrep).
  destruct (search_ok (zsl_fuel st) ltac:(lia) (level z) (header z) 0 eq_refl) as (update & ranks & He & Hu & Hrk & Hall); [rewrite (ht_header _ _ _ _ Hrep); lia | lia | lia|].
  exists update, ranks. split_and!; try done. destruct (Hall 0%nat) as (y & q & H1 & H2 & H3); [lia|]. pose proof (is_last_0 _ _ H3) as ->. exists y. split_and!; try done. apply H3.
Qed.

End rep.

(** ** Reading *)

Section read.
Context {Sc : Type} `{ScoreOrder Sc}.
Implicit Types (st : store Sc) (z : zskiplist) (xs : list nat) (kvs : list (Sc * list Z)).

(** Level 0 links every node to the next one. *)
Lemma rep_next st z xs kvs p a : rep st z xs kvs -> (header z :: xs) !! p = Some a ->
  exists l, get_level st a 0 = Some l /\ forward l = xs !! p.
Proof.
  intros Hr Hp. destruct (rep_in_store _ _ _ _ a Hr) as (nd & Hnd & Hh); [by eapply list_elem_of_lookup_2|]. pose proof (rep_level _ _ _ _ Hr).
  destruct (rep_links _ _ _ _ Hr p a 0%nat Hp) as (l & Hl & Hlink); [lia..|]. exists l. split; [done|]. unfold link_ok in Hlink.
  assert (forall b, xs !! p = Some b -> (0 < ht st b)%nat) as Hpos.
  { intros b Hb. destruct (rep_node _ _ _ _ _ _ Hr Hb) as (? & ? & _ & _ & _ & _ & ?). lia. }
  destruct (forward l) as [f|].
  - destruct Hlink as (q & Hpq & Hq & _ & Hbetween & _). destruct (decide (q = S p)) as [->|]; [done|]. exfalso.
    destruct (lookup_lt_is_Some_2 xs p) as [b Hb]; [apply lookup_lt_Some in Hq; cbn in Hq; lia|]. pose proof (Hpos b Hb). pose proof (Hbetween (S p) b ltac:(lia) Hb). lia.
  - destruct Hlink as [Hnone _]. destruct (xs !! p) as [b|] eqn:Hb; [|done]. pose proof (Hpos b eq_refl). pose proof (Hnone (S p) b ltac:(lia) Hb). lia.
Qed.

(** A condition that is closed downwards holds for the first [r] elements. *)
Definition downward (P : Sc * list Z -> bool) kvs : Prop := forall i j a b, kvs !! i = Some a -> kvs !! j = Some b -> (i < j)%nat -> P b = true -> P a = true.

Lemma prefix_index_down (P : Sc * list Z -> bool) kvs : downward P kvs -> exists r, (r <= length kvs)%nat /\ forall q kv, kvs !! q = Some kv -> P kv = bool_decide (S q <= r)%nat.
Proof.
  induction kvs as [|a kvs IH]; intros Hd; [by exists 0%nat|]. destruct (P a) eqn:Ha.
  - destruct IH as (r & Hr & Hq); [intros i j u v Hi Hj Hij; by apply (Hd (S i) (S j) u v Hi Hj); lia|]. exists (S r). split; [cbn; lia|].
    intros [|q] kv Hkv; [injection Hkv as <-; rewrite Ha; symmetry; apply bool_decide_true; lia|]. rewrite (Hq q kv Hkv). apply bool_decide_ext. lia.
  - exists 0%nat. split; [lia|]. intros q kv Hkv. rewrite bool_decide_false by lia. destruct q as [|q]; [injection Hkv as <-; done|].
    apply not_true_iff_false. intros Hc. by rewrite (Hd 0%nat (S q) a kv eq_refl Hkv ltac:(lia) Hc) in Ha.
Qed.

(** The condition of the searches, on a node and on its element. *)
Lemma node_before_eq (sc : Sc) (e : list Z) nd kv : score nd = kv.1 -> ele nd = Some kv.2 -> node_before sc e nd = before kv (sc, e).
Proof. intros H1 H2. unfold node_before, before. by rewrite H1, H2. Qed.

Lemma same_key_eq (a b c : Sc * list Z) : same_key b c = true -> before a b = before a c.
Proof.
  unfold same_key, before. rewrite andb_true_iff, Z.eqb_eq, sdscmp_lex, lexcmp_eq. intros [H1 H2]. rewrite H2. f_equal; [by apply score_lt_eq|].
  f_equal. apply eq_true_iff_eq. split; intros ?; [by eapply score_eq_trans|]. eapply score_eq_trans; [done|]. by rewrite score_eq_sym.
Qed.

Lemma same_key_eq_l (a b c : Sc * list Z) : same_key a b = true -> before a c = before b c.
Proof.
  unfold same_key, before. rewrite andb_true_iff, Z.eqb_eq, sdscmp_lex, lexcmp_eq. intros [H1 H2]. rewrite H2. rewrite (score_eq_lt _ _ _ H1). f_equal.
  f_equal. apply eq_true_iff_eq. split; intros ?; [|by eapply score_eq_trans]. eapply score_eq_trans; [|done]. by rewrite score_eq_sym.
Qed.

Lemma same_key_sym (a b : Sc * list Z) : same_key a b = same_key b a.
Proof. unfold same_key. rewrite score_eq_sym. f_equal. apply eq_true_iff_eq. rewrite !Z.eqb_eq, !sdscmp_lex, !lexcmp_eq. by split. Qed.

(** Elements up to a key: the others are after it. *)
Definition upto (k a : Sc * list Z) : bool := negb (before k a).

Lemma upto_eq (k a : Sc * list Z) : upto k a = before a k || same_key a k.
Proof.
  unfold upto. destruct (before a k) eqn:H1; [by rewrite (before_asym _ _ H1)|]. destruct (same_key a k) eqn:H2; cbn.
  - rewrite same_key_sym in H2. by rewrite (same_key_before _ _ H2).
  - by rewrite (before_total _ _ H1 H2).
Qed.

Lemma upto_mono (k a b : Sc * list Z) : before a b = true -> upto k b = true -> upto k a = true.
Proof. unfold upto. rewrite !negb_true_iff. intros H1 H2. destruct (before k a) eqn:E; [|done]. by rewrite (before_trans _ _ _ E H1) in H2. Qed.

Lemma sorted_lookup kvs i j a b : sorted kvs -> kvs !! i = Some a -> kvs !! j = Some b -> (i < j)%nat -> before a b = true.
Proof.
  intros Hs Hi Hj Hij. rewrite <- (take_drop_middle _ _ _ Hj) in Hs. eapply (StronglySorted_app_1_elem_of _ _ _ a b Hs); [|by left].
  apply list_elem_of_lookup. exists i. by rewrite lookup_take_lt.
Qed.

Lemma sorted_downward (P : Sc * list Z -> bool) kvs : (forall a b, before a b = true -> P b = true -> P a = true) -> sorted kvs -> downward P kvs.
Proof. intros Hmono Hs i j a b Hi Hj Hij. apply Hmono. by eapply sorted_lookup. Qed.

Lemma prefix_index (P : Sc * list Z -> bool) kvs : (forall a b, before a b = true -> P b = true -> P a = true) -> sorted kvs ->
  exists r, (r <= length kvs)%nat /\ forall q kv, kvs !! q = Some kv -> P kv = bool_decide (S q <= r)%nat.
Proof. intros Hmono Hs. by apply prefix_index_down, sorted_downward. Qed.

(** *** Ranks *)

Lemma byrank_loop_ok st z xs kvs rank : rep st z xs kvs -> zlen xs < 2 ^ 64 -> 0 <= rank ->
  forall i x p, (header z :: xs) !! p = Some x -> (i <= ht st x)%nat -> (i <= level z)%nat -> (p <= Nat.min (Z.to_nat rank) (length xs))%nat ->
  (i = 0%nat -> (header z :: xs) !! Z.to_nat rank = None) ->
  byrank_loop (zsl_fuel st) st rank i x (Z.of_nat p) = Some ((header z :: xs) !! Z.to_nat rank).
Proof.
  intros Hr Hlen Hrank. set (r := Nat.min (Z.to_nat rank) (length xs)). assert (r <= length xs)%nat as Hrl by lia. pose proof (rep_fuel _ _ _ _ Hr). unfold zlen in Hlen.
  assert (forall q : nat, (q <= length xs)%nat -> u64 (Z.of_nat q) = Z.of_nat q) as Hw by (intros; apply uwrap_small; lia).
  induction i as [|i IH]; intros x p Hp Hi Hl Hpr Hz; cbn [byrank_loop]; [by rewrite Hz|].
  destruct (walk_ok st z xs kvs Hr (fun _ t => u64 t <=? rank) (uwrap 64) r Hrl Hw) with (fuel := zsl_fuel st) (i := i) (x := x) (p := p) as (y & q & He & Hlast); [|done|lia..|].
  { intros q a nd Hq _. apply lookup_lt_Some in Hq. rewrite Hw by lia. apply eq_true_iff_eq. rewrite Z.leb_le, bool_decide_eq_true. lia. }
  rewrite He. simpl_bind. pose proof Hlast as (Hq & Hiq & Hqr & _). destruct (Z.eqb_spec (Z.of_nat q) rank) as [Heq|Hne].
  - rewrite <- Heq, Nat2Z.id. by rewrite Hq.
  - apply IH; [done|lia..|]. intros ->. apply (is_last_0 st z xs kvs Hr) in Hlast; [|lia]. apply lookup_ge_None. cbn. lia.
Qed.

(** The element of rank [rank], from 1; rank 0 is the header. *)
Lemma zslGetElementByRank_ok st z xs kvs rank : rep st z xs kvs -> zlen xs < 2 ^ 64 -> 0 <= rank ->
  zslGetElementByRank st z rank = Some ((header z :: xs) !! Z.to_nat rank).
Proof.
  intros Hr Hlen Hrank. pose proof (rep_level _ _ _ _ Hr). apply (byrank_loop_ok st z xs kvs rank Hr Hlen Hrank _ _ 0%nat); [done|rewrite (ht_header _ _ _ _ Hr)|..]; lia.
Qed.

(** The elements of a sorted set are different. *)
Definition unique_eles kvs : Prop := NoDup kvs.*2.

Lemma getrank_loop_ok st z xs kvs sc e r R : rep st z xs kvs -> zlen xs < 2 ^ 64 -> (r <= length xs)%nat ->
  (forall q kv, kvs !! q = Some kv -> upto (sc, e) kv = bool_decide (S q <= r)%nat) ->
  (forall q kv, kvs !! q = Some kv -> kv.2 = e -> R = Z.of_nat (S q)) ->
  ((forall q kv, r = S q -> kvs !! q = Some kv -> kv.2 <> e) -> R = 0) ->
  forall i x p, (header z :: xs) !! p = Some x -> (i <= ht st x)%nat -> (i <= level z)%nat -> (p <= r)%nat -> (i = 0%nat -> R = 0) ->
  getrank_loop (zsl_fuel st) st sc e i x (Z.of_nat p) = Some R.
Proof.
  intros Hr Hlen Hrl Hup HR HR0. pose proof (rep_fuel _ _ _ _ Hr). unfold zlen in Hlen.
  assert (forall q : nat, (q <= length xs)%nat -> u64 (Z.of_nat q) = Z.of_nat q) as Hw by (intros; apply uwrap_small; lia).
  induction i as [|i IH]; intros x p Hp Hi Hl Hpr Hz; cbn [getrank_loop]; [by rewrite Hz|].
  match goal with |- context [walk _ _ ?g _ _ _ _] => set (go := g) end.
  destruct (walk_ok st z xs kvs Hr go (uwrap 64) r Hrl Hw) with (fuel := zsl_fuel st) (i := i) (x := x) (p := p) as (y & q & He & Hlast); [|done|lia..|].
  { intros q a nd Hq Hnd. destruct (rep_node _ _ _ _ _ _ Hr Hq) as (nd' & kv & Hkv & Hnd' & H1 & H2 & _). rewrite Hnd in Hnd'. injection Hnd' as <-.
    rewrite <- (Hup q kv Hkv), upto_eq. unfold go, before, same_key. rewrite H1, H2. cbn. destruct (score_lt _ _), (score_eq _ _); cbn; try done.
    apply eq_true_iff_eq. rewrite orb_true_iff, Z.leb_le, Z.ltb_lt, Z.eqb_eq. lia. }
  rewrite He. simpl_bind. pose proof Hlast as (Hq & Hiq & Hqr & _). destruct (rep_in_store _ _ _ _ y Hr) as (nd & Hnd & _); [by eapply list_elem_of_lookup_2|].
  rewrite Hnd. simpl_bind. destruct q as [|q].
  - cbn in Hq. injection Hq as <-. destruct (rep_header _ _ _ _ Hr) as (nd' & Hnd' & _ & Hnone). rewrite Hnd in Hnd'. injection Hnd' as <-. rewrite Hnone.
    apply IH; [done|lia..|]. intros ->. apply (is_last_0 st z xs kvs Hr) in Hlast; [|lia]. subst r. apply HR0. by intros.
  - cbn [lookup list_lookup] in Hq. destruct (rep_node _ _ _ _ _ _ Hr Hq) as (nd' & kv & Hkv & Hnd' & _ & H2 & _). rewrite Hnd in Hnd'. injection Hnd' as <-.
    rewrite H2, sdscmp_lex. destruct (Z.eqb_spec (lexcmp kv.2 e) 0) as [Heq%lexcmp_eq|Hne].
    + by rewrite (HR q kv Hkv Heq).
    + apply IH; [done|lia..|]. intros ->. apply (is_last_0 st z xs kvs Hr) in Hlast; [|lia]. apply HR0. intros q' kv' Hr' Hkv' He'. rewrite lexcmp_eq in Hne.
      assert (q' = q) as -> by lia. rewrite Hkv in Hkv'. by injection Hkv' as <-.
Qed.

Lemma zslGetRank_ok st z xs kvs sc e : rep st z xs kvs -> sorted kvs -> unique_eles kvs -> zlen xs < 2 ^ 64 ->
  (forall k kv, kvs !! k = Some kv -> same_key kv (sc, e) = true -> zslGetRank st z sc e = Some (Z.of_nat (S k))) /\
  (e ∉ kvs.*2 -> zslGetRank st z sc e = Some 0).
Proof.
  intros Hr Hs Hu Hlen. destruct (prefix_index (upto (sc, e)) kvs (upto_mono (sc, e)) Hs) as (r & Hrl & Hup). rewrite <- (rep_zlen _ _ _ _ Hr) in Hrl.
  pose proof (rep_level _ _ _ _ Hr). assert (level z <= ht st (header z))%nat by (rewrite (ht_header _ _ _ _ Hr); lia). unfold zslGetRank. split.
  - intros k kv Hk Hsame. pose proof Hsame as [_ He%Z.eqb_eq]%andb_true_iff. rewrite sdscmp_lex, lexcmp_eq in He. cbn in He.
    assert (S k <= r)%nat as Hkr. { specialize (Hup k kv Hk). rewrite upto_eq, Hsame, orb_true_r in Hup. symmetry in Hup. by apply bool_decide_eq_true in Hup. }
    assert (forall q kv', kvs !! q = Some kv' -> kv'.2 = e -> q = k) as Huniq.
    { intros q kv' Hq He'. eapply (NoDup_lookup _ _ _ _ Hu); rewrite list_lookup_fmap, ?Hq, ?Hk; [|done]; cbn; congruence. }
    apply (getrank_loop_ok st z xs kvs sc e r _ Hr Hlen Hrl Hup) with (p := 0%nat); [..|done|done|done|lia|lia].
    + intros q kv' Hq He'. by rewrite (Huniq q kv' Hq He').
    + intros Hno. exfalso. destruct (decide (r = S k)) as [->|]; [by apply (Hno k kv)|].
      destruct (lookup_lt_is_Some_2 kvs (r - 1)%nat) as [kv' Hkv']; [rewrite <- (rep_zlen _ _ _ _ Hr); lia|].
      specialize (Hup _ _ Hkv'). rewrite bool_decide_true in Hup by lia. apply negb_true_iff in Hup.
      assert (before kv kv' = true) as Hb. { eapply (sorted_lookup kvs k (r - 1)); (done || lia). }
      by rewrite (same_key_eq_l _ _ _ Hsame), Hup in Hb.
  - intros He. apply (getrank_loop_ok st z xs kvs sc e r _ Hr Hlen Hrl Hup) with (p := 0%nat); [..|done|done|done|lia|done].
    + intros q kv' Hq He'. destruct He. apply list_elem_of_fmap. exists kv'. split; [done|]. by eapply list_elem_of_lookup_2.
    + done.
Qed.

(** *** Ranges *)

Definition in_range (range : zrangespec Sc) (kv : Sc * list Z) : bool := zslValueGteMin kv.1 range && zslValueLteMax kv.1 range.

Lemma before_le (a b : Sc * list Z) : before a b = true -> score_lt b.1 a.1 = false.
Proof.
  unfold before. rewrite orb_true_iff, andb_true_iff. pose proof (score_trichotomy a.1 b.1) as Ht. intros [H1|[H1 _]]; rewrite H1 in Ht.
  - by destruct (score_eq a.1 b.1), (score_lt b.1 a.1).
  - by destruct (score_lt a.1 b.1), (score_lt b.1 a.1).
Qed.

Lemma score_le_lt (a b : Sc) : score_le a b = negb (score_lt b a).
Proof. unfold score_le. pose proof (score_trichotomy a b). by destruct (score_lt a b), (score_eq a b), (score_lt b a). Qed.

Lemma score_lt_le_trans (a b c : Sc) : score_lt a b = true -> score_lt c b = false -> score_lt a c = true.
Proof.
  intros H1 H2. pose proof (score_trichotomy c b) as Ht. rewrite H2 in Ht. destruct (score_eq c b) eqn:E; [by rewrite (score_lt_eq _ _ _ E)|].
  destruct (score_lt b c) eqn:E2; [by eapply score_lt_trans | done].
Qed.

Lemma score_le_lt_trans (a b c : Sc) : score_lt b a = false -> score_lt b c = true -> score_lt a c = true.
Proof.
  intros H1 H2. pose proof (score_trichotomy a b) as Ht. rewrite H1 in Ht. destruct (score_lt a b) eqn:E1; [by eapply score_lt_trans|].
  destruct (score_eq a b) eqn:E; [by rewrite <- (score_eq_lt _ _ _ E) | done].
Qed.

Lemma LteMax_mono range (a b : Sc * list Z) : before a b = true -> zslValueLteMax b.1 range = true -> zslValueLteMax a.1 range = true.
Proof.
  intros Hle%before_le. unfold zslValueLteMax. rewrite !score_le_lt. destruct (maxex range); rewrite ?negb_true_iff.
  - by apply score_le_lt_trans.
  - intros H2. destruct (score_lt (zmax range) a.1) eqn:E; [|done]. by rewrite (score_lt_le_trans _ _ _ E Hle) in H2.
Qed.

Lemma GteMin_mono range (a b : Sc * list Z) : before a b = true -> negb (zslValueGteMin b.1 range) = true -> negb (zslValueGteMin a.1 range) = true.
Proof.
  intros Hle%before_le. unfold zslValueGteMin. rewrite !score_le_lt. destruct (minex range); rewrite ?negb_involutive, ?negb_true_iff.
  - intros H2. destruct (score_lt (zmin range) a.1) eqn:E; [|done]. by rewrite (score_lt_le_trans _ _ _ E Hle) in H2.
  - by apply score_le_lt_trans.
Qed.

(** A range that holds no number. *)
Definition empty_range (range : zrangespec Sc) : bool := score_lt (zmax range) (zmin range) || (score_eq (zmin range) (zmax range) && (minex range || maxex range)).

Lemma empty_range_none range kv : empty_range range = true -> in_range range kv = false.
Proof.
  unfold empty_range, in_range, zslValueGteMin, zslValueLteMax. rewrite !score_le_lt. intros Hemp. apply not_true_iff_false. rewrite andb_true_iff. intros [H1 H2].
  assert (score_lt kv.1 (zmin range) = false) as Hmin.
  { destruct (minex range); [|by apply negb_true_iff]. pose proof (score_trichotomy (zmin range) kv.1) as Ht. rewrite H1 in Ht. by destruct (score_eq (zmin range) kv.1), (score_lt kv.1 (zmin range)). }
  assert (score_lt (zmax range) kv.1 = false) as Hmax.
  { destruct (maxex range); [|by apply negb_true_iff]. pose proof (score_trichotomy kv.1 (zmax range)) as Ht. rewrite H2 in Ht. by destruct (score_eq kv.1 (zmax range)), (score_lt (zmax range) kv.1). }
  apply orb_true_iff in Hemp as [Hlt|[Heq Hex]%andb_true_iff].
  - by rewrite (score_lt_le_trans _ _ _ Hlt Hmin) in Hmax.
  - destruct (minex range).
    + rewrite (score_eq_lt _ _ _ Heq) in Hmax. congruence.
    + destruct (maxex range); [|done]. rewrite (score_lt_eq _ _ _ Heq) in Hmin. congruence.
Qed.

End read.

(** The functions on ranges, for any condition on nodes. *)
Section ranges.
Context {Sc : Type} `{ScoreOrder Sc} (st : store Sc) (z : zskiplist) (xs : list nat) (kvs : list (Sc * list Z)) (Hr : rep st z xs kvs).
Context (gte lte : Sc * list Z -> bool) (gten lten : zskiplistNode Sc -> bool).
Context (Hgte : downward (fun kv => negb (gte kv)) kvs) (Hlte : downward lte kvs).
Context (Hgn : forall nd kv, score nd = kv.1 -> ele nd = Some kv.2 -> gten nd = gte kv) (Hln : forall nd kv, score nd = kv.1 -> ele nd = Some kv.2 -> lten nd = lte kv).

Definition within (kv : Sc * list Z) : bool := gte kv && lte kv.

Definition is_in (empty : bool) : option bool :=
  if empty then Some false
  else
    in_min ← match tail z with None => Some false | Some x => nd ← st !! x; Some (gten nd) end;
    if negb in_min then Some false
    else
      l ← get_level st (header z) 0;
      match forward l with None => Some false | Some x => nd ← st !! x; Some (lten nd) end.

Definition first_in (empty : bool) : option (option nat) :=
  ok ← is_in empty;
  if negb ok then Some None
  else
    '(update, _) ← search (zsl_fuel st) st (fun nd _ => negb (gten nd)) id (level z) (header z) 0;
    u0 ← update !! 0%nat;
    l ← get_level st u0 0;
    x ← forward l;
    nd ← st !! x;
    Some (if negb (lten nd) then None else Some x).

Definition last_in (empty : bool) : option (option nat) :=
  ok ← is_in empty;
  if negb ok then Some None
  else
    '(update, _) ← search (zsl_fuel st) st (fun nd _ => lten nd) id (level z) (header z) 0;
    x ← update !! 0%nat;
    nd ← st !! x;
    Some (if negb (gten nd) then None else Some x).

Context (empty : bool) (Hempty : empty = true -> forall kv, within kv = false).

Lemma range_node q a nd : xs !! q = Some a -> st !! a = Some nd -> exists kv, kvs !! q = Some kv /\ gten nd = gte kv /\ lten nd = lte kv.
Proof.
  intros Hq Hnd. destruct (rep_node _ _ _ _ _ _ Hr Hq) as (nd' & kv & Hkv & Hnd' & H1 & H2 & _). rewrite Hnd in Hnd'. injection Hnd' as <-. exists kv. split_and!; [done | by apply Hgn | by apply Hln].
Qed.

Lemma is_in_ok : exists b, is_in empty = Some b /\
  if b then (exists kv, last kvs = Some kv /\ gte kv = true) /\ (exists kv, kvs !! 0%nat = Some kv /\ lte kv = true) else Forall (fun kv => within kv = false) kvs.
Proof.
  unfold is_in. destruct empty; [exists false; split; [done|]; apply Forall_true; auto|]. rewrite (rep_tail _ _ _ _ Hr), last_lookup, (rep_zlen _ _ _ _ Hr). pose proof (rep_zlen _ _ _ _ Hr) as Hlen.
  destruct (rep_next st z xs kvs 0 (header z) Hr eq_refl) as (l & Hl & Hfwd). destruct (decide (length kvs = 0)%nat) as [H0|H0].
  { rewrite H0 in Hlen. apply nil_length_inv in H0, Hlen. rewrite H0, Hlen. exists false. split; [done | constructor]. }
  destruct (lookup_lt_is_Some_2 xs (Nat.pred (length kvs))) as [t Ht]; [lia|]. destruct (lookup_lt_is_Some_2 xs 0) as [f Hf]; [lia|]. rewrite Ht.
  destruct (rep_in_store _ _ _ _ t Hr) as (nd & Hnd & _); [right; by eapply list_elem_of_lookup_2|]. destruct (rep_in_store _ _ _ _ f Hr) as (nd0 & Hnd0 & _); [right; by eapply list_elem_of_lookup_2|].
  destruct (range_node _ _ _ Ht Hnd) as (kvt & Hkvt & Hg & _). destruct (range_node _ _ _ Hf Hnd0) as (kv0 & Hkv0 & _ & Hl0). rewrite Hnd. simpl_bind. rewrite Hg. destruct (gte kvt) eqn:Hmin; cbn [negb].
  - rewrite Hl. simpl_bind. rewrite Hfwd, Hf, Hnd0. simpl_bind. rewrite Hl0. destruct (lte kv0) eqn:Hmax; eexists; (split; [done|]).
    + split; [exists kvt; split; [by rewrite last_lookup | done] | by exists kv0].
    + apply Forall_lookup. intros i kv Hi. unfold within. apply andb_false_iff. right. destruct i as [|i]; [congruence|].
      apply not_true_iff_false. intros Hc. rewrite (Hlte 0%nat (S i) kv0 kv Hkv0 Hi ltac:(lia) Hc) in Hmax. done.
  - exists false. split; [done|]. apply Forall_lookup. intros i kv Hi. unfold within. apply andb_false_iff. left. pose proof (lookup_lt_Some _ _ _ Hi).
    destruct (decide (i = Nat.pred (length kvs))) as [->|]; [congruence|]. apply negb_true_iff. apply (Hgte i _ kv kvt Hi Hkvt); [lia | by rewrite Hmin].
Qed.

(** The first node that satisfies the condition, and no such node otherwise. *)
Lemma first_in_ok : exists o, first_in empty = Some o /\
  match o with
  | Some x => exists k kv, xs !! k = Some x /\ kvs !! k = Some kv /\ within kv = true /\ forall j kv', (j < k)%nat -> kvs !! j = Some kv' -> within kv' = false
  | None => Forall (fun kv => within kv = false) kvs
  end.
Proof.
  unfold first_in. destruct is_in_ok as (b & -> & Hb). simpl_bind. destruct b; cbn [negb]; [|by exists None].
  destruct Hb as [(kvl & Hlast & Hmin) _]. destruct (prefix_index_down _ _ Hgte) as (r & Hrl & Hpre). pose proof (rep_zlen _ _ _ _ Hr) as Hlen. rewrite <- Hlen in Hrl.
  destruct (search_header st z xs kvs Hr (fun nd _ => negb (gten nd)) id r Hrl) as (update & ranks & -> & _ & _ & _ & u0 & Hu0 & _ & Ha); [done|..].
  { intros q a nd Hq Hnd. destruct (range_node _ _ _ Hq Hnd) as (kv & Hkv & -> & _). by apply Hpre. }
  simpl_bind. rewrite Hu0. simpl_bind. destruct (rep_next _ _ _ _ _ _ Hr Ha) as (l & -> & Hfwd). simpl_bind. rewrite Hfwd.
  assert (r < length xs)%nat as Hlt.
  { rewrite last_lookup in Hlast. specialize (Hpre _ _ Hlast). rewrite Hmin in Hpre. cbn in Hpre. symmetry in Hpre. apply bool_decide_eq_false in Hpre. apply lookup_lt_Some in Hlast. lia. }
  destruct (lookup_lt_is_Some_2 xs r Hlt) as [x Hx]. rewrite Hx. simpl_bind. destruct (rep_in_store _ _ _ _ x Hr) as (nd & Hnd & _); [right; by eapply list_elem_of_lookup_2|].
  destruct (range_node _ _ _ Hx Hnd) as (kv & Hkv & _ & Hlv). rewrite Hnd. simpl_bind. rewrite Hlv. pose proof (Hpre _ _ Hkv) as Hk. rewrite bool_decide_false in Hk by lia. apply negb_false_iff in Hk.
  assert (forall j kv', (j < r)%nat -> kvs !! j = Some kv' -> within kv' = false) as Hlow.
  { intros j kv' Hj Hkv'. specialize (Hpre _ _ Hkv'). rewrite bool_decide_true in Hpre by lia. unfold within. apply negb_true_iff in Hpre. by rewrite Hpre. }
  destruct (lte kv) eqn:Hmax; cbn [negb]; eexists; (split; [done|]).
  - exists r, kv. unfold within at 1. rewrite Hk, Hmax. by split_and!.
  - apply Forall_lookup. intros j kv' Hj. destruct (decide (j < r)%nat) as [|Hge]; [by eapply Hlow|]. unfold within. apply andb_false_iff. right.
    destruct (decide (j = r)) as [->|]; [congruence|]. apply not_true_iff_false. intros Hc. by rewrite (Hlte r j kv kv' Hkv Hj ltac:(lia) Hc) in Hmax.
Qed.

Lemma last_in_ok : exists o, last_in empty = Some o /\
  match o with
  | Some x => exists k kv, xs !! k = Some x /\ kvs !! k = Some kv /\ within kv = true /\ forall j kv', (k < j)%nat -> kvs !! j = Some kv' -> within kv' = false
  | None => Forall (fun kv => within kv = false) kvs
  end.
Proof.
  unfold last_in. destruct is_in_ok as (b & -> & Hb). simpl_bind. destruct b; cbn [negb]; [|by exists None].
  destruct Hb as [_ (kv0 & Hk0 & Hmax)]. destruct (prefix_index_down _ _ Hlte) as (r & Hrl & Hpre). pose proof (rep_zlen _ _ _ _ Hr) as Hlen. rewrite <- Hlen in Hrl.
  destruct (search_header st z xs kvs Hr (fun nd _ => lten nd) id r Hrl) as (update & ranks & -> & _ & _ & _ & u0 & Hu0 & _ & Ha); [done|..].
  { intros q a nd Hq Hnd. destruct (range_node _ _ _ Hq Hnd) as (kv & Hkv & _ & ->). by apply Hpre. }
  simpl_bind. rewrite Hu0. simpl_bind. pose proof (Hpre _ _ Hk0) as Hr0. rewrite Hmax in Hr0. symmetry in Hr0. apply bool_decide_eq_true in Hr0.
  destruct r as [|r]; [lia|]. cbn [lookup list_lookup] in Ha. destruct (rep_in_store _ _ _ _ u0 Hr) as (nd & Hnd & _); [right; by eapply list_elem_of_lookup_2|].
  destruct (range_node _ _ _ Ha Hnd) as (kv & Hkv & Hgv & _). rewrite Hnd. simpl_bind. rewrite Hgv. pose proof (Hpre _ _ Hkv) as Hk. rewrite bool_decide_true in Hk by lia.
  assert (forall j kv', (r < j)%nat -> kvs !! j = Some kv' -> within kv' = false) as Hhigh.
  { intros j kv' Hj Hkv'. specialize (Hpre _ _ Hkv'). rewrite bool_decide_false in Hpre by lia. unfold within. by rewrite Hpre, andb_false_r. }
  destruct (gte kv) eqn:Hmin; cbn [negb]; eexists; (split; [done|]).
  - exists r, kv. unfold within at 1. rewrite Hk, Hmin. by split_and!.
  - apply Forall_lookup. intros j kv' Hj. destruct (decide (r < j)%nat) as [|Hge]; [by eapply Hhigh|]. unfold within. apply andb_false_iff. left.
    destruct (decide (j = r)) as [->|]; [congruence|]. apply negb_true_iff. apply (Hgte j r kv' kv Hj Hkv); [lia | by rewrite Hmin].
Qed.

End ranges.
(** The level of a new node fits the header. *)
Lemma zslRandomLevel_range draws lvl : zslRandomLevel draws = Some lvl -> (1 <= lvl <= ZSKIPLIST_MAXLEVEL)%nat.
Proof.
  unfold zslRandomLevel. destruct (zslRandomLevel_loop draws 1) as [n|] eqn:E; [|done]. simpl_bind. intros [= <-].
  assert (forall d k m, zslRandomLevel_loop d k = Some m -> (k <= m)%nat) as Hge.
  { induction d as [|r d IH]; intros k m; cbn; [done|]. destruct (_ <? _); [intros Hk%IH; lia | by intros [= <-]]. }
  apply Hge in E. unfold ZSKIPLIST_MAXLEVEL in *. case_bool_decide; lia.
Qed.

(** Integral scores. *)
#[export, refine] Instance Z_score_order : ScoreOrder Z := {| score_lt := Z.ltb; score_eq := Z.eqb |}.
Proof.
  - intros a b c. rewrite !Z.ltb_lt. lia.
  - apply Z.eqb_refl.
  - apply Z.eqb_sym.
  - intros a b. destruct (Z.ltb_spec a b), (Z.eqb_spec a b), (Z.ltb_spec b a); done || lia.
  - intros a b c ->%Z.eqb_eq. done.
Defined.

(** *** Ranges of scores and of strings *)

Section instances.
Context {Sc : Type} `{ScoreOrder Sc} (st : store Sc) (z : zskiplist) (xs : list nat) (kvs : list (Sc * list Z)) (Hr : rep st z xs kvs) (Hs : sorted kvs).

Lemma score_range_down (range : zrangespec Sc) : downward (fun kv => negb (zslValueGteMin kv.1 range)) kvs /\ downward (fun kv => zslValueLteMax kv.1 range) kvs.
Proof. split; (apply sorted_downward; [|done]); [apply GteMin_mono | apply LteMax_mono]. Qed.

(** What the searches for a range return. *)
Definition first_of (P : Sc * list Z -> bool) (o : option nat) : Prop :=
  match o with
  | Some x => exists k kv, xs !! k = Some x /\ kvs !! k = Some kv /\ P kv = true /\ forall j kv', (j < k)%nat -> kvs !! j = Some kv' -> P kv' = false
  | None => Forall (fun kv => P kv = false) kvs
  end.
Definition last_of (P : Sc * list Z -> bool) (o : option nat) : Prop :=
  match o with
  | Some x => exists k kv, xs !! k = Some x /\ kvs !! k = Some kv /\ P kv = true /\ forall j kv', (k < j)%nat -> kvs !! j = Some kv' -> P kv' = false
  | None => Forall (fun kv => P kv = false) kvs
  end.

Lemma zslInRange_ok range : (exists o, zslFirstInRange st z range = Some o /\ first_of (in_range range) o) /\ (exists o, zslLastInRange st z range = Some o /\ last_of (in_range range) o).
Proof.
  destruct (score_range_down range) as [Hg Hl]. split.
  - apply (first_in_ok st z xs kvs Hr (fun kv => zslValueGteMin kv.1 range) (fun kv => zslValueLteMax kv.1 range) (fun nd => zslValueGteMin (score nd) range) (fun nd => zslValueLteMax (score nd) range))
      with (empty := empty_range range); try done; [by intros nd kv -> | by intros nd kv -> | by intros He kv; apply empty_range_none].
  - apply (last_in_ok st z xs kvs Hr (fun kv => zslValueGteMin kv.1 range) (fun kv => zslValueLteMax kv.1 range) (fun nd => zslValueGteMin (score nd) range) (fun nd => zslValueLteMax (score nd) range))
      with (empty := empty_range range); try done; [by intros nd kv -> | by intros nd kv -> | by intros He kv; apply empty_range_none].
Qed.

Lemma lexcmp_le_trans a b c : lexcmp a b <= 0 -> lexcmp b c <= 0 -> lexcmp a c <= 0.
Proof.
  intros H1 H2. destruct (decide (lexcmp a b = 0)) as [->%lexcmp_eq|]; [done|]. destruct (decide (lexcmp b c = 0)) as [<-%lexcmp_eq|]; [done|]. pose proof (lexcmp_trans a b c). lia.
Qed.

Lemma lexcmp_lt_le_trans a b c : lexcmp a b < 0 -> lexcmp b c <= 0 -> lexcmp a c < 0.
Proof. intros H1 H2. destruct (decide (lexcmp b c = 0)) as [<-%lexcmp_eq|]; [done|]. apply (lexcmp_trans a b c); lia. Qed.

Lemma lexcmp_le_lt_trans a b c : lexcmp a b <= 0 -> lexcmp b c < 0 -> lexcmp a c < 0.
Proof. intros H1 H2. destruct (decide (lexcmp a b = 0)) as [->%lexcmp_eq|]; [done|]. apply (lexcmp_trans a b c); lia. Qed.

Definition in_lex_range (range : zlexrangespec) (kv : Sc * list Z) : bool := zslLexValueGteMin kv.2 range && zslLexValueLteMax kv.2 range.

Definition empty_lex_range (range : zlexrangespec) : bool :=
  let cmp := sdscmplex (lmin range) (lmax range) in (0 <? cmp) || ((cmp =? 0) && (lminex range || lmaxex range)).

Lemma empty_lex_range_none range kv : empty_lex_range range = true -> in_lex_range range kv = false.
Proof.
  unfold empty_lex_range, in_lex_range, zslLexValueGteMin, zslLexValueLteMax. destruct range as [mn mx mnx mxx]. cbn [lmin lmax lminex lmaxex]. intros He. apply not_true_iff_false. rewrite andb_true_iff.
  intros [H1 H2]. destruct mn as [| |mn], mx as [| |mx]; cbn [sdscmplex] in *; try (destruct mnx, mxx; cbn in *; done). rewrite sdscmp_lex in *.
  pose proof (lexcmp_anti kv.2 mn). pose proof (lexcmp_anti mn mx). pose proof (lexcmp_eq mn mx) as Hq. rewrite orb_true_iff, andb_true_iff, Z.ltb_lt, Z.eqb_eq in He.
  destruct mnx; rewrite ?Z.ltb_lt, ?Z.leb_le in H1; destruct mxx; rewrite ?Z.ltb_lt, ?Z.leb_le in H2; cbn in He.
  - pose proof (lexcmp_trans mn kv.2 mx). lia.
  - pose proof (lexcmp_lt_le_trans mn kv.2 mx). lia.
  - pose proof (lexcmp_le_lt_trans mn kv.2 mx). lia.
  - pose proof (lexcmp_le_trans mn kv.2 mx). lia.
Qed.

(** Ranges of strings are meant for elements with the same score. *)
Context (Hsame : forall i j a b, kvs !! i = Some a -> kvs !! j = Some b -> score_eq a.1 b.1 = true).

Lemma same_score_lex i j a b : kvs !! i = Some a -> kvs !! j = Some b -> (i < j)%nat -> lexcmp a.2 b.2 < 0.
Proof.
  intros Hi Hj Hij. pose proof (sorted_lookup _ _ _ _ _ Hs Hi Hj Hij) as Hb. unfold before in Hb. pose proof (Hsame _ _ _ _ Hi Hj) as He. pose proof (score_trichotomy a.1 b.1) as Ht. rewrite He in Ht, Hb.
  destruct (score_lt a.1 b.1); [done|]. cbn in Hb. rewrite sdscmp_lex in Hb. by apply Z.ltb_lt.
Qed.

Lemma lex_range_down (range : zlexrangespec) : downward (fun kv => negb (zslLexValueGteMin kv.2 range)) kvs /\ downward (fun kv => zslLexValueLteMax kv.2 range) kvs.
Proof.
  split; intros i j a b Hi Hj Hij; pose proof (same_score_lex _ _ _ _ Hi Hj Hij) as Hlt.
  - unfold zslLexValueGteMin. destruct (lmin range) as [| |m]; cbn [sdscmplex]; [by destruct (lminex range) | by destruct (lminex range)|]. rewrite !sdscmp_lex, !negb_true_iff.
    destruct (lminex range); rewrite ?Z.ltb_ge, ?Z.leb_gt; intros Hb; [pose proof (lexcmp_lt_le_trans _ _ _ Hlt Hb); lia | by apply (lexcmp_trans _ b.2)].
  - unfold zslLexValueLteMax. destruct (lmax range) as [| |m]; cbn [sdscmplex]; [by destruct (lmaxex range) | by destruct (lmaxex range)|]. rewrite !sdscmp_lex.
    destruct (lmaxex range); rewrite ?Z.ltb_lt, ?Z.leb_le; intros Hb; [by apply (lexcmp_trans _ b.2) | pose proof (lexcmp_lt_le_trans _ _ _ Hlt Hb); lia].
Qed.

Lemma zslInLexRange_ok range : (exists o, zslFirstInLexRange st z range = Some o /\ first_of (in_lex_range range) o) /\ (exists o, zslLastInLexRange st z range = Some o /\ last_of (in_lex_range range) o).
Proof.
  destruct (lex_range_down range) as [Hg Hl]. split.
  - apply (first_in_ok st z xs kvs Hr (fun kv => zslLexValueGteMin kv.2 range) (fun kv => zslLexValueLteMax kv.2 range) (node_gte range) (node_lte range))
      with (empty := empty_lex_range range); try done; unfold node_gte, node_lte; [by intros nd kv _ -> | by intros nd kv _ -> | by intros He kv; apply empty_lex_range_none].
  - apply (last_in_ok st z xs kvs Hr (fun kv => zslLexValueGteMin kv.2 range) (fun kv => zslLexValueLteMax kv.2 range) (node_gte range) (node_lte range))
      with (empty := empty_lex_range range); try done; unfold node_gte, node_lte; [by intros nd kv _ -> | by intros nd kv _ -> | by intros He kv; apply empty_lex_range_none].
Qed.

(** zslFree() reads no node that it has freed, and ends. *)
Lemma zslFree_ok : is_Some (zslFree st z).
Proof using Hr.
  unfold zslFree. destruct (rep_next st z xs kvs 0 (header z) Hr eq_refl) as (l & -> & Hfwd). simpl_bind. rewrite Hfwd.
  pose proof (rep_fuel _ _ _ _ Hr) as Hfuel. pose proof (rep_nodup _ _ _ _ Hr) as Hnd.
  enough (forall fuel p st', (length xs - p < fuel)%nat -> (forall q a, (p <= q)%nat -> xs !! q = Some a -> st' !! a = st !! a) -> is_Some (free_loop fuel st' (xs !! p))) as Hloop.
  { apply Hloop; [lia|]. intros q a _ Hq. unfold zslFreeNode. rewrite lookup_delete_ne; [done|]. intros He. apply NoDup_cons in Hnd as [Hno _]. apply Hno. rewrite He. by eapply list_elem_of_lookup_2. }
  induction fuel as [|fuel IH]; intros p st' Hf Hkeep; [lia|]. cbn [free_loop]. destruct (xs !! p) as [x|] eqn:Hx; [|done]. assert ((header z :: xs) !! S p = Some x) as Hx' by done.
  destruct (rep_next _ _ _ _ _ _ Hr Hx') as (lx & Hget & Hfx). unfold get_level in *. rewrite (Hkeep p x) by done. rewrite Hget. simpl_bind. rewrite Hfx. apply IH; [apply lookup_lt_Some in Hx; lia|].
  intros q a Hq Ha. unfold zslFreeNode. rewrite lookup_delete_ne; [apply (Hkeep q); [lia | done]|]. intros <-. apply NoDup_cons in Hnd as [_ Hnd]. pose proof (NoDup_lookup _ _ _ _ Hnd Hx Ha). lia.
Qed.

End instances.
