(* ===== verification/ZskiplistUpdate.v ===== *)
(** * ZskiplistUpdate: insertion and deletion in the skip list (src/redis-stable/src/t_zset.c)

    The operations of [Zskiplist] that change the structure keep it a skip list of the changed sequence of
    elements. *)
From S2P Require Import Prelude.
From S2P Require Import Zskiplist.

(** ** Stores up to their links *)

Section shape.
Context {Sc : Type} `{ScoreOrder Sc}.
Implicit Types st : store Sc.

(** What the links leave unchanged. *)
Definition shape st : gmap nat (option (list Z) * Sc * option nat * nat) := (fun nd => (ele nd, score nd, backward nd, length (levels nd))) <$> st.

Lemma shape_Some st a e s b n : shape st !! a = Some (e, s, b, n) <-> exists nd, st !! a = Some nd /\ ele nd = e /\ score nd = s /\ backward nd = b /\ length (levels nd) = n.
Proof.
  unfold shape. rewrite lookup_fmap, fmap_Some. split.
  - intros (nd & ? & [= -> -> -> ->]). by exists nd.
  - intros (nd & ? & <- & <- & <- & <-). by exists nd.
Qed.

Lemma shape_node st a nd : st !! a = Some nd -> shape st !! a = Some (ele nd, score nd, backward nd, length (levels nd)).
Proof. intros Ha. apply shape_Some. by exists nd. Qed.

Lemma ht_shape st a : ht st a = match shape st !! a with Some (_, _, _, n) => n | None => 0%nat end.
Proof. unfold ht, shape. rewrite lookup_fmap. by destruct (st !! a). Qed.

Lemma ht_same st st' : shape st' = shape st -> forall a, ht st' a = ht st a.
Proof. intros He a. by rewrite !ht_shape, He. Qed.

Lemma ht_get st a i : (i < ht st a)%nat -> exists l, get_level st a i = Some l.
Proof. unfold ht, get_level. destruct (st !! a) as [nd|]; [|lia]. simpl_bind. apply lookup_lt_is_Some_2. Qed.

Lemma get_ht st a i l : get_level st a i = Some l -> (i < ht st a)%nat.
Proof. unfold ht, get_level. destruct (st !! a) as [nd|]; [|done]. simpl_bind. apply lookup_lt_Some. Qed.

Lemma set_level_ok st x i l : (i < ht st x)%nat -> exists st', set_level st x i l = Some st' /\ shape st' = shape st /\
  forall a j, get_level st' a j = if decide (a = x /\ j = i) then Some l else get_level st a j.
Proof.
  unfold ht, set_level. destruct (st !! x) as [nd|] eqn:Hx; [|lia]. intros Hi. simpl_bind. rewrite bool_decide_true by done. eexists. split_and!; [done|..].
  - unfold shape. rewrite fmap_insert. cbn. rewrite length_insert. apply insert_id. by rewrite lookup_fmap, Hx.
  - intros a j. unfold get_level. destruct (decide (a = x)) as [->|Hne].
    + rewrite lookup_insert_eq, Hx. simpl_bind. cbn [levels]. destruct (decide (j = i)) as [->|].
      * rewrite decide_True by done. by apply list_lookup_insert_eq.
      * rewrite decide_False by tauto. by apply list_lookup_insert_ne.
    + rewrite lookup_insert_ne by done. by rewrite decide_False by tauto.
Qed.

Lemma set_backward_ok st x b e s b0 n : shape st !! x = Some (e, s, b0, n) -> exists st', set_backward st x b = Some st' /\
  shape st' = <[x := (e, s, b, n)]> (shape st) /\ forall a j, get_level st' a j = get_level st a j.
Proof.
  intros (nd & Hx & <- & <- & _ & <-)%shape_Some. unfold set_backward. rewrite Hx. simpl_bind. eexists. split_and!; [done|..].
  - unfold shape. by rewrite fmap_insert.
  - intros a j. unfold get_level. destruct (decide (a = x)) as [->|]; [rewrite lookup_insert_eq, Hx | rewrite lookup_insert_ne by done]; done.
Qed.

(** A loop over levels whose steps change one level each. *)
Lemma level_loop (loop : nat -> store Sc -> nat -> option (store Sc)) (step : store Sc -> nat -> option (store Sc)) (st0 : store Sc) (G : nat -> nat -> option zskiplistLevel) :
  (forall st i, loop O st i = Some st) -> (forall n st i, loop (S n) st i = st' ← step st i; loop n st' (S i)) ->
  forall n st i, shape st = shape st0 -> (forall a k, (i <= k)%nat -> get_level st a k = get_level st0 a k) ->
  (forall st j, (i <= j < i + n)%nat -> shape st = shape st0 -> (forall a, get_level st a j = get_level st0 a j) ->
    exists st', step st j = Some st' /\ shape st' = shape st0 /\ forall a k, get_level st' a k = if decide (k = j) then G a j else get_level st a k) ->
  exists st', loop n st i = Some st' /\ shape st' = shape st0 /\ forall a k, get_level st' a k = if decide (i <= k < i + n)%nat then G a k else get_level st a k.
Proof.
  intros H0 HS n. induction n as [|n IH]; intros st i Hsh Hlev Hstep.
  - exists st. split_and!; [done | done|]. intros a k. by rewrite decide_False by lia.
  - destruct (Hstep st i) as (st1 & He & Hsh1 & Hget1); [lia | done | by intros; apply Hlev|]. rewrite HS, He. simpl_bind.
    destruct (IH st1 (S i)) as (st2 & He2 & Hsh2 & Hget2); [done| | |].
    + intros a k Hk. rewrite Hget1, decide_False by lia. apply Hlev. lia.
    + intros st' j Hj. apply Hstep. lia.
    + exists st2. split_and!; [done | done|]. intros a k. rewrite Hget2, Hget1. destruct (decide (k = i)) as [->|].
      * rewrite decide_False, decide_True by lia. done.
      * destruct (decide (S i <= k < S i + n)%nat); [by rewrite decide_True by lia | by rewrite decide_False by lia].
Qed.

End shape.

(** ** Sequences of nodes *)

Section seqs.
Context (hf : nat -> nat).

Lemma next_in_ext hf' i L : (forall b, b ∈ L -> hf b = hf' b) -> next_in hf i L = next_in hf' i L.
Proof.
  induction L as [|b L IH]; intros He; [done|]. cbn [next_in]. rewrite (He b) by (by left). rewrite IH; [done|]. intros c Hc. apply He. by right.
Qed.

Lemma next_in_skip i D L : Forall (fun b => hf b <= i)%nat D -> next_in hf i (D ++ L) = ZLevel (forward (next_in hf i L)) (span (next_in hf i L) + zlen D).
Proof.
  induction 1 as [|b D Hb _ IH]; cbn [app next_in].
  - change (zlen []) with 0. rewrite Z.add_0_r. by destruct (next_in hf i L).
  - rewrite bool_decide_false by lia. rewrite IH. cbn [forward span]. rewrite zlen_cons. f_equal. lia.
Qed.

Lemma next_in_stop i D u L L' : u ∈ D -> (i < hf u)%nat -> next_in hf i (D ++ L) = next_in hf i (D ++ L').
Proof.
  intros Hu Hi. induction D as [|b D IH]; [by apply elem_of_nil in Hu|]. cbn [app next_in]. case_bool_decide; [done|]. rewrite IH; [done|].
  by apply elem_of_cons in Hu as [->|?].
Qed.

Lemma next_in_cons_high i x L : (i < hf x)%nat -> next_in hf i (x :: L) = ZLevel (Some x) 1.
Proof. intros. cbn [next_in]. by rewrite bool_decide_true. Qed.

Lemma next_in_cons_low i x L : (hf x <= i)%nat -> next_in hf i (x :: L) = ZLevel (forward (next_in hf i L)) (span (next_in hf i L) + 1).
Proof. intros. cbn [next_in]. by rewrite bool_decide_false by lia. Qed.

Lemma next_in_span i L : 0 <= span (next_in hf i L) <= zlen L.
Proof. induction L as [|b L IH]; cbn [next_in]; [done|]. rewrite zlen_cons. pose proof (zlen_nonneg L). case_bool_decide; cbn [span]; lia. Qed.

Lemma next_in_forward i L f : forward (next_in hf i L) = Some f -> f ∈ L /\ (i < hf f)%nat.
Proof.
  intros Hf. pose proof (next_in_spec hf i L) as Hs. rewrite Hf in Hs. destruct Hs as (q & Hq & Hi & _). split; [by eapply list_elem_of_lookup_2 | done].
Qed.

End seqs.
(** Two ways to split a sequence. *)
Lemma split_app {A} (B1 B2 P Q : list A) a : B1 ++ B2 = P ++ a :: Q ->
  (exists Q1, B1 = P ++ a :: Q1 /\ Q = Q1 ++ B2) \/ (exists P2, P = B1 ++ P2 /\ B2 = P2 ++ a :: Q).
Proof.
  intros He. apply app_eq_inv in He as [(k & -> & H1)|(k & -> & H1)].
  - destruct k as [|b k]; cbn in H1.
    + right. exists []. by rewrite !app_nil_r.
    + injection H1 as -> ->. left. by exists k.
  - right. by exists k.
Qed.

Lemma split_mid {A} (B1 B2 P Q : list A) x a : B1 ++ x :: B2 = P ++ a :: Q ->
  (exists Q1, B1 = P ++ a :: Q1 /\ Q = Q1 ++ x :: B2) \/ (P = B1 /\ a = x /\ Q = B2) \/ (exists P2, P = B1 ++ x :: P2 /\ B2 = P2 ++ a :: Q).
Proof.
  intros He. apply split_app in He as [?|(P2 & -> & He)]; [by left|right]. destruct P2 as [|b P2]; injection He as -> ->.
  - left. by rewrite app_nil_r.
  - right. by exists P2.
Qed.

(** The last node [u] of [B] that has level [i] and another one that has it. *)
Lemma split_last (hf : nat -> nat) i B0 u D P a Q : NoDup (B0 ++ u :: D) -> Forall (fun b => hf b <= i)%nat D -> (i < hf a)%nat -> B0 ++ u :: D = P ++ a :: Q ->
  (a = u /\ Q = D) \/ (a <> u /\ u ∈ Q).
Proof.
  intros Hnd HD Ha He. destruct (split_mid _ _ _ _ _ _ He) as [(Q1 & -> & ->)|[(-> & -> & ->)|(P2 & -> & ->)]].
  - right. split; [|apply elem_of_app; right; by left]. intros ->. apply NoDup_app in Hnd as (_ & Hno & _). apply (Hno u); [apply elem_of_app; right|]; by left.
  - by left.
  - apply Forall_app in HD as [_ HD]. apply Forall_cons in HD as [HD _]. lia.
Qed.

Section rep_shape.
Context {Sc : Type} `{ScoreOrder Sc}.
Implicit Types (st : store Sc) (z : zskiplist) (xs : list nat) (kvs : list (Sc * list Z)).

(** The node before position [p]. *)
Definition prev xs (p : nat) : option nat := match p with O => None | S p => xs !! p end.

Lemma rep_shape_header st z xs kvs : rep st z xs kvs -> exists s b, shape st !! header z = Some (None, s, b, ZSKIPLIST_MAXLEVEL).
Proof. intros Hr. destruct (rep_header _ _ _ _ Hr) as (nd & Hnd & Hl & He). exists (score nd), (backward nd). apply shape_Some. exists nd. by split_and!. Qed.

Lemma rep_shape_node st z xs kvs p a kv : rep st z xs kvs -> xs !! p = Some a -> kvs !! p = Some kv ->
  exists n, shape st !! a = Some (Some kv.2, kv.1, prev xs p, n) /\ (1 <= n <= level z)%nat.
Proof.
  intros Hr Hp Hkv. destruct (rep_node _ _ _ _ _ _ Hr Hp) as (nd & kv' & Hkv' & Hnd & H1 & H2 & H3). rewrite Hkv in Hkv'. injection Hkv' as <-.
  exists (ht st a). split; [|done]. rewrite <- H1, <- H2. unfold prev. rewrite <- (rep_back _ _ _ _ Hr p a nd Hp Hnd). unfold ht. rewrite Hnd. by apply shape_node.
Qed.

(** The links of the node before [Q]. *)
Lemma rep_at st z xs kvs P a Q i : rep st z xs kvs -> header z :: xs = P ++ a :: Q -> (i < ht st a)%nat -> (i < level z)%nat ->
  get_level st a i = Some (next_in (ht st) i Q).
Proof.
  intros Hr He Hi Hl. rewrite (rep_levels _ _ _ _ Hr (length P) a i); [|rewrite He; by apply list_lookup_middle | done | done].
  do 2 f_equal. change xs with (drop 1 (header z :: xs)). rewrite He, drop_drop, drop_app_ge by lia. by replace (1 + length P - length P)%nat with 1%nat by lia.
Qed.

Lemma rep_intro st z xs kvs : NoDup (header z :: xs) -> (1 <= level z <= ZSKIPLIST_MAXLEVEL)%nat ->
  (exists s b, shape st !! header z = Some (None, s, b, ZSKIPLIST_MAXLEVEL)) ->
  length xs = length kvs ->
  (forall p a kv, xs !! p = Some a -> kvs !! p = Some kv -> exists n, shape st !! a = Some (Some kv.2, kv.1, prev xs p, n) /\ (1 <= n <= level z)%nat) ->
  (forall P a Q i, header z :: xs = P ++ a :: Q -> (i < ht st a)%nat -> (i < level z)%nat -> get_level st a i = Some (next_in (ht st) i Q)) ->
  (forall i, (level z <= i < ZSKIPLIST_MAXLEVEL)%nat -> exists l, get_level st (header z) i = Some l /\ forward l = None) ->
  tail z = last xs -> zlength z = zlen xs -> rep st z xs kvs.
Proof.
  intros Hnd Hl (s & b & Hh) Hlen Hnodes Hlev Hhigh Ht Hz. constructor; try done.
  - apply shape_Some in Hh as (nd & Hnd' & H1 & _ & _ & H2). by exists nd.
  - apply Forall2_same_length_lookup. split; [done|]. intros p a kv Hp Hkv. destruct (Hnodes p a kv Hp Hkv) as (n & (nd & Hnd' & H1 & H2 & _ & H3)%shape_Some & Hn).
    exists nd. split_and!; (done || lia).
  - intros p a i Hp Hi Hil. rewrite (Hlev (take p (header z :: xs)) a (drop p xs) i); [done | | done | done]. symmetry. by apply (take_drop_middle (header z :: xs)).
  - intros p a nd Hp Hnd'. destruct (lookup_lt_is_Some_2 kvs p) as [kv Hkv]; [rewrite <- Hlen; by eapply lookup_lt_Some|].
    destruct (Hnodes p a kv Hp Hkv) as (n & Hs & _). rewrite (shape_node _ _ _ Hnd') in Hs. by injection Hs as _ _ -> _.
Qed.

(** Nodes that are not in the sequence do not matter. *)
Lemma rep_free st z xs kvs x : rep st z xs kvs -> x ∉ header z :: xs -> rep (zslFreeNode st x) z xs kvs.
Proof.
  intros Hr Hx. unfold zslFreeNode. assert (forall a, a ∈ header z :: xs -> delete x st !! a = st !! a) as Hsame.
  { intros a Ha. apply lookup_delete_ne. by intros ->. }
  assert (forall a, a ∈ header z :: xs -> shape (delete x st) !! a = shape st !! a) as Hshape by (intros a Ha; unfold shape; by rewrite !lookup_fmap, Hsame).
  assert (forall a, a ∈ header z :: xs -> ht (delete x st) a = ht st a) as Hht by (intros a Ha; by rewrite !ht_shape, Hshape).
  assert (forall a i, a ∈ header z :: xs -> get_level (delete x st) a i = get_level st a i) as Hget by (intros a i Ha; unfold get_level; by rewrite Hsame).
  apply rep_intro; try apply Hr.
  - rewrite Hshape by (by left). by eapply rep_shape_header.
  - by eapply rep_zlen.
  - intros p a kv Hp Hkv. rewrite Hshape by (right; by eapply list_elem_of_lookup_2). by eapply rep_shape_node.
  - intros P a Q i He Hi Hl. assert (a ∈ header z :: xs) as Ha by (rewrite He; apply elem_of_app; right; by left). rewrite Hht in Hi by done. rewrite Hget by done.
    rewrite (rep_at _ _ _ _ _ _ _ _ Hr He Hi Hl). f_equal. apply next_in_ext. intros b Hb. symmetry. apply Hht. rewrite He. apply elem_of_app. right. by right.
  - intros i Hi. rewrite Hget by (by left). by apply (rep_high _ _ _ _ Hr).
Qed.

(** What the searches find at level [i]: the last node [u] of [B] that has this level, followed by [D]. *)
Definition last_at st (B : list nat) (i u : nat) (D : list nat) : Prop := exists B0, B = B0 ++ u :: D /\ (i < ht st u)%nat /\ Forall (fun b => ht st b <= i)%nat D.

Definition update_ok st (B : list nat) (n : nat) (update : list nat) (uf : nat -> nat) (Df : nat -> list nat) : Prop :=
  forall i, (i < n)%nat -> update !! i = Some (uf i) /\ last_at st B i (uf i) (Df i).

Lemma is_last_at st A i r q y : is_last st A i r q y -> last_at st (take (S r) A) i y (drop (S q) (take (S r) A)).
Proof.
  intros (Hq & Hi & Hqr & Hmax). exists (take q (take (S r) A)). split_and!; [|done|].
  - symmetry. apply take_drop_middle. by rewrite lookup_take_lt by lia.
  - apply Forall_lookup. intros k b Hk. rewrite lookup_drop in Hk. apply lookup_take_Some in Hk as [Hk Hlt]. apply (Hmax (S q + k)%nat); [lia | done].
Qed.

End rep_shape.
(** ** Insertion *)

Section insert.
Context {Sc : Type} `{ScoreOrder Sc}.
Implicit Types (st : store Sc) (z : zskiplist) (xs : list nat) (kvs : list (Sc * list Z)).

(** The levels that the list gets. *)
Lemma raise_ok st z xs kvs lvl : rep st z xs kvs -> (lvl <= ZSKIPLIST_MAXLEVEL)%nat ->
  exists st', raise_levels (lvl - level z) st (header z) (level z) (zlength z) = Some st' /\ shape st' = shape st /\
    rep st' (Zsl (header z) (tail z) (zlength z) (Nat.max (level z) lvl)) xs kvs.
Proof.
  intros Hr Hlvl. pose proof (rep_level _ _ _ _ Hr) as Hlevel. pose proof (ht_header _ _ _ _ Hr) as Hh.
  destruct (level_loop (fun n st i => raise_levels n st (header z) i (zlength z)) (fun st i => l ← get_level st (header z) i; set_level st (header z) i (ZLevel (forward l) (zlength z)))
    st (fun a k => if decide (a = header z) then Some (ZLevel None (zlength z)) else get_level st a k)) with (n := (lvl - level z)%nat) (st := st) (i := level z) as (st' & He & Hsh & Hget); try done.
  { intros n st0 i. cbn [raise_levels]. by destruct (get_level st0 (header z) i). }
  { intros st0 j Hj Hsh0 Hget0. rewrite Hget0. destruct (rep_high _ _ _ _ Hr j) as (l & -> & Hf); [lia|]. simpl_bind. rewrite Hf.
    destruct (set_level_ok st0 (header z) j (ZLevel None (zlength z))) as (st' & -> & Hsh' & Hget'); [rewrite (ht_same _ _ Hsh0); lia|].
    exists st'. split_and!; [done | by rewrite Hsh'|]. intros a k. rewrite Hget'. destruct (decide (k = j)) as [->|].
    - destruct (decide (a = header z)) as [->|]; [by rewrite decide_True by done | by rewrite decide_False by tauto].
    - by rewrite decide_False by tauto. }
  exists st'. split_and!; [done | done|]. pose proof (ht_same _ _ Hsh) as Hht. apply rep_intro; cbn [header level tail zlength]; try apply Hr; rewrite ?Hsh.
  - lia.
  - by eapply rep_shape_header.
  - by eapply rep_zlen.
  - intros p a kv Hp Hkv. destruct (rep_shape_node _ _ _ _ _ _ _ Hr Hp Hkv) as (n & Hs & Hn). exists n. split; [done | lia].
  - intros P a Q i He' Hi Hl. rewrite Hht in Hi. rewrite (next_in_ext _ (ht st)) by (intros; apply Hht). rewrite Hget.
    destruct (decide (level z <= i < level z + (lvl - level z))%nat) as [Hin|Hout]; [|apply (rep_at _ _ _ _ _ _ _ _ Hr He' Hi); lia].
    assert (forall b, b ∈ xs -> (ht st b <= i)%nat) as Hlow.
    { intros b [p Hp]%list_elem_of_lookup. destruct (rep_node _ _ _ _ _ _ Hr Hp) as (_ & _ & _ & _ & _ & _ & ?). lia. }
    destruct P as [|h P]; injection He' as <- ->.
    + rewrite decide_True by done. rewrite <- (app_nil_r Q), next_in_skip by (by apply Forall_forall). cbn. rewrite (rep_len _ _ _ _ Hr). by rewrite Z.add_0_l.
    + pose proof (Hlow a ltac:(apply elem_of_app; right; by left)). lia.
  - intros i Hi. rewrite Hget, decide_False by lia. apply (rep_high _ _ _ _ Hr). lia.
Qed.

(** *** The links of the new node *)

Context (st1 : store Sc) (z : zskiplist) (l1 l2 : list nat) (kvs : list (Sc * list Z)) (Hrep : rep st1 z (l1 ++ l2) kvs).
Context (x lvl : nat) (sc : Sc) (e : list Z) (Hx : st1 !! x = None) (Hlvl : (1 <= lvl <= level z)%nat) (Hlen : zlen (l1 ++ l2) + 1 < 2 ^ 32).
Context (update : list nat) (rank : list Z) (uf : nat -> nat) (Df : nat -> list nat).
Context (Hup : forall k, (k < level z)%nat -> update !! k = Some (uf k) /\ rank !! k = Some (zlen l1 - zlen (Df k)) /\ last_at st1 (header z :: l1) k (uf k) (Df k)).
Context (Hrank0 : rank !! 0%nat = Some (zlen l1)).

Let st2 := <[x := zslCreateNode lvl sc (Some e)]> st1.
Let hf := ht st2.

Lemma ins_shape : shape st2 = <[x := (Some e, sc, None, lvl)]> (shape st1).
Proof. unfold st2, shape. rewrite fmap_insert. cbn. by rewrite length_replicate. Qed.

Lemma ins_hf_x : hf x = lvl.
Proof. unfold hf. by rewrite ht_shape, ins_shape, lookup_insert_eq. Qed.

Lemma ins_hf a : a <> x -> hf a = ht st1 a.
Proof. intros. unfold hf. by rewrite !ht_shape, ins_shape, lookup_insert_ne. Qed.

Lemma ins_get a i : a <> x -> get_level st2 a i = get_level st1 a i.
Proof. intros. unfold get_level, st2. by rewrite lookup_insert_ne. Qed.

Lemma ins_fresh a : a ∈ header z :: l1 ++ l2 -> a <> x.
Proof. intros Ha ->. destruct (rep_in_store _ _ _ _ _ Hrep Ha) as (nd & Hnd & _). by rewrite Hx in Hnd. Qed.

Lemma ins_nodup : NoDup (header z :: l1 ++ x :: l2).
Proof.
  assert (x ∉ header z :: l1 ++ l2) as Hno by (intros Hin; by apply (ins_fresh x Hin)). pose proof (rep_nodup _ _ _ _ Hrep) as Hnd.
  rewrite app_comm_cons, <- Permutation_middle, <- app_comm_cons. by constructor.
Qed.

(** The link that is changed at level [k]. *)
Lemma ins_old k : (k < level z)%nat -> uf k <> x /\ Forall (fun b => hf b <= k)%nat (Df k) /\ (k < hf (uf k))%nat /\ zlen (Df k) <= zlen l1 /\ get_level st2 (uf k) k = Some (next_in hf k (Df k ++ l2)).
Proof.
  intros Hk. destruct (Hup k Hk) as (_ & _ & B0 & HB & Hi & HD).
  assert (header z :: l1 ++ l2 = B0 ++ uf k :: Df k ++ l2) as HA by (rewrite app_comm_cons, HB, <- app_assoc; done).
  assert (uf k <> x) as Hne by (apply ins_fresh; rewrite HA; apply elem_of_app; right; by left).
  assert (forall b, b ∈ Df k ++ l2 -> hf b = ht st1 b) as Hext by (intros b Hb; apply ins_hf, ins_fresh; rewrite HA; apply elem_of_app; right; by right).
  split_and!; [done| |rewrite ins_hf by done; lia| |].
  - apply Forall_forall. intros b Hb. rewrite Hext by (apply elem_of_app; by left). rewrite Forall_forall in HD. by apply HD.
  - apply (f_equal zlen) in HB. rewrite zlen_app, !zlen_cons in HB. pose proof (zlen_nonneg B0). lia.
  - rewrite ins_get by done. rewrite (rep_at _ _ _ _ _ _ _ _ Hrep HA Hi Hk). f_equal. symmetry. by apply next_in_ext.
Qed.

(** The links after the loops. *)
Definition ins_level (a k : nat) : option zskiplistLevel :=
  if decide (a = x) then get_level st2 a k else if decide (a = uf k) then Some (next_in hf k (Df k ++ x :: l2)) else get_level st2 a k.

Lemma link_step st k : (k < lvl)%nat -> shape st = shape st2 -> (forall a, get_level st a k = get_level st2 a k) ->
  exists st', (u ← update !! k; r0 ← rank !! 0%nat; r ← rank !! k; l ← get_level st u k;
      st ← set_level st x k (ZLevel (forward l) (u64 (span l - u32 (r0 - r)))); set_level st u k (ZLevel (Some x) (u32 (u32 (r0 - r) + 1)))) = Some st' /\
    shape st' = shape st2 /\ forall a j, get_level st' a j = if decide (j = k) then (if decide (a = x) then Some (next_in hf k l2) else ins_level a k) else get_level st a j.
Proof.
  intros Hk Hsh Hget. destruct (Hup k ltac:(lia)) as (Hu & Hrk & _). destruct (ins_old k ltac:(lia)) as (Hne & HD & Hhu & HlD & Hold).
  pose proof (zlen_nonneg (Df k)). pose proof (next_in_span hf k l2). rewrite zlen_app in Hlen. pose proof (zlen_nonneg l1). pose proof (zlen_nonneg l2).
  rewrite Hu, Hrank0, Hrk. simpl_bind. rewrite Hget, Hold. simpl_bind. replace (zlen l1 - (zlen l1 - zlen (Df k))) with (zlen (Df k)) by lia.
  rewrite (uwrap_small 32 (zlen (Df k))) by lia. rewrite (uwrap_small 32 (zlen (Df k) + 1)) by lia. rewrite next_in_skip by done. cbn [forward span].
  replace (span (next_in hf k l2) + zlen (Df k) - zlen (Df k)) with (span (next_in hf k l2)) by lia. rewrite !uwrap_small by lia.
  replace (ZLevel (forward (next_in hf k l2)) (span (next_in hf k l2))) with (next_in hf k l2) by (by destruct (next_in hf k l2)).
  pose proof (ht_same _ _ Hsh) as Hht. fold hf in Hht.
  destruct (set_level_ok st x k (next_in hf k l2)) as (st3 & -> & Hsh3 & Hget3); [rewrite Hht, ins_hf_x; lia|]. simpl_bind.
  destruct (set_level_ok st3 (uf k) k (ZLevel (Some x) (zlen (Df k) + 1))) as (st4 & -> & Hsh4 & Hget4); [rewrite (ht_same _ _ Hsh3), Hht; lia|].
  exists st4. split_and!; [done | congruence|]. intros a j. rewrite Hget4, Hget3. destruct (decide (j = k)) as [->|]; [|rewrite !decide_False by tauto; done].
  destruct (decide (a = x)) as [->|Hax]; [rewrite decide_False, decide_True by (done || (intros [? _]; congruence)); done|]. unfold ins_level. rewrite (decide_False (P := a = x)) by done.
  destruct (decide (a = uf k)) as [->|]; [|rewrite !decide_False by tauto; apply Hget]. rewrite decide_True by done.
  rewrite next_in_skip, next_in_cons_high by (done || rewrite ins_hf_x; lia). cbn [forward span]. do 2 f_equal. lia.
Qed.

Lemma bump_step st k : (lvl <= k < level z)%nat -> shape st = shape st2 -> (forall a, get_level st a k = get_level st2 a k) ->
  exists st', (u ← update !! k; l ← get_level st u k; set_level st u k (ZLevel (forward l) (u64 (span l + 1)))) = Some st' /\
    shape st' = shape st2 /\ forall a j, get_level st' a j = if decide (j = k) then ins_level a k else get_level st a j.
Proof.
  intros Hk Hsh Hget. destruct (Hup k ltac:(lia)) as (Hu & _ & _). destruct (ins_old k ltac:(lia)) as (Hne & HD & Hhu & HlD & Hold).
  pose proof (next_in_span hf k (Df k ++ l2)). rewrite zlen_app in *. rewrite Hu. simpl_bind. rewrite Hget, Hold. simpl_bind. rewrite uwrap_small by lia.
  pose proof (ht_same _ _ Hsh) as Hht. fold hf in Hht.
  destruct (set_level_ok st (uf k) k (ZLevel (forward (next_in hf k (Df k ++ l2))) (span (next_in hf k (Df k ++ l2)) + 1))) as (st3 & -> & Hsh3 & Hget3); [rewrite Hht; lia|].
  exists st3. split_and!; [done | congruence|]. intros a j. rewrite Hget3. destruct (decide (j = k)) as [->|]; [|rewrite !decide_False by tauto; done]. unfold ins_level.
  destruct (decide (a = x)) as [->|]; [rewrite decide_False by (intros [? _]; congruence); apply Hget|].
  destruct (decide (a = uf k)) as [->|]; [|rewrite decide_False by tauto; apply Hget]. rewrite decide_True by done.
  rewrite !next_in_skip by done. rewrite next_in_cons_low by (rewrite ins_hf_x; lia). cbn [forward span]. do 2 f_equal. lia.
Qed.

Lemma insert_links : exists st3 st4, link_levels lvl st2 x 0 update rank = Some st3 /\ bump_levels (level z - lvl) st3 lvl update = Some st4 /\ shape st4 = shape st2 /\
  forall a k, get_level st4 a k = if decide (k < level z)%nat then (if decide (k < lvl)%nat then if decide (a = x) then Some (next_in hf k l2) else ins_level a k else ins_level a k) else get_level st2 a k.
Proof.
  destruct (level_loop (fun n st i => link_levels n st x i update rank) (fun st k => u ← update !! k; r0 ← rank !! 0%nat; r ← rank !! k; l ← get_level st u k;
      st ← set_level st x k (ZLevel (forward l) (u64 (span l - u32 (r0 - r)))); set_level st u k (ZLevel (Some x) (u32 (u32 (r0 - r) + 1)))) st2
    (fun a k => if decide (a = x) then Some (next_in hf k l2) else ins_level a k)) with (n := lvl) (st := st2) (i := 0%nat) as (st3 & He3 & Hsh3 & Hget3); try done.
  { intros n st i. cbn [link_levels]. repeat match goal with |- context [?m ≫= _] => destruct m; simpl_bind; try done end. }
  { intros st j Hj. apply link_step. lia. }
  destruct (level_loop (fun n st i => bump_levels n st i update) (fun st k => u ← update !! k; l ← get_level st u k; set_level st u k (ZLevel (forward l) (u64 (span l + 1)))) st3 ins_level)
    with (n := (level z - lvl)%nat) (st := st3) (i := lvl) as (st4 & He4 & Hsh4 & Hget4); try done.
  { intros n st i. cbn [bump_levels]. repeat match goal with |- context [?m ≫= _] => destruct m; simpl_bind; try done end. }
  { intros st j Hj Hsh Hget. rewrite Hsh3. apply bump_step; [lia | congruence|]. intros a. rewrite Hget, Hget3. by rewrite decide_False by lia. }
  exists st3, st4. split_and!; [done | done | congruence|]. intros a k. rewrite Hget4, Hget3. destruct (decide (k < level z)%nat); [destruct (decide (k < lvl)%nat)|].
  - rewrite decide_False, decide_True by lia. done.
  - rewrite decide_True by lia. done.
  - rewrite !decide_False by lia. done.
Qed.


(** Every node of the new sequence has its links. *)
Lemma insert_at st4 P a Q i :
  (forall a k, get_level st4 a k = if decide (k < level z)%nat then (if decide (k < lvl)%nat then if decide (a = x) then Some (next_in hf k l2) else ins_level a k else ins_level a k) else get_level st2 a k) ->
  header z :: l1 ++ x :: l2 = P ++ a :: Q -> (i < hf a)%nat -> (i < level z)%nat -> get_level st4 a i = Some (next_in hf i Q).
Proof.
  intros Hget He Hi Hl. rewrite Hget, decide_True by done. destruct (Hup i Hl) as (_ & _ & B0 & HB & Hiu & HD). destruct (ins_old i Hl) as (Hux & HD' & Hiu' & _ & _).
  assert (forall b, b ∈ header z :: l1 ++ l2 -> hf b = ht st1 b) as Hext by (intros b Hb; by apply ins_hf, ins_fresh).
  rewrite app_comm_cons in He. destruct (split_mid _ _ _ _ _ _ He) as [(Q1 & H1 & ->)|[(-> & -> & ->)|(P2 & -> & H2)]].
  - assert (header z :: l1 ++ l2 = P ++ a :: Q1 ++ l2) as HA by (rewrite app_comm_cons, H1, <- app_assoc; done).
    assert (a <> x) as Hax by (apply ins_fresh; rewrite HA; apply elem_of_app; right; by left). rewrite (decide_False (P := a = x)) by done.
    transitivity (ins_level a i); [by destruct (decide _)|]. unfold ins_level. rewrite decide_False by done. rewrite HB in H1.
    pose proof (rep_nodup _ _ _ _ Hrep) as Hnd. rewrite app_comm_cons, HB in Hnd. apply NoDup_app in Hnd as (Hnd & _ & _).
    destruct (split_last hf i _ _ _ _ _ _ Hnd HD' Hi H1) as [[-> ->]|[Hne Hu]].
    + by rewrite decide_True.
    + rewrite decide_False by done. rewrite ins_get by done. rewrite ins_hf in Hi by done. rewrite (rep_at _ _ _ _ _ _ _ _ Hrep HA Hi Hl). f_equal.
      rewrite <- (next_in_stop hf i Q1 (uf i) l2) by done. symmetry. apply next_in_ext. intros b Hb. apply Hext. rewrite HA. apply elem_of_app. right. by right.
  - rewrite ins_hf_x in Hi. by rewrite !decide_True by done.
  - assert (header z :: l1 ++ l2 = (header z :: l1 ++ P2) ++ a :: Q) as HA by (rewrite H2; cbn; by rewrite <- app_assoc).
    assert (a <> x) as Hax by (apply ins_fresh; rewrite HA; apply elem_of_app; right; by left). rewrite (decide_False (P := a = x)) by done.
    transitivity (ins_level a i); [by destruct (decide _)|]. unfold ins_level. rewrite decide_False by done. rewrite decide_False.
    + rewrite ins_get by done. rewrite ins_hf in Hi by done. rewrite (rep_at _ _ _ _ _ _ _ _ Hrep HA Hi Hl). f_equal.
      symmetry. apply next_in_ext. intros b Hb. apply Hext. rewrite HA. apply elem_of_app. right. by right.
    + intros ->. pose proof (rep_nodup _ _ _ _ Hrep) as Hnd. rewrite app_comm_cons, HB in Hnd. apply NoDup_app in Hnd as (_ & Hno & _).
      apply (Hno (uf i)); [apply elem_of_app; right; by left|]. rewrite H2. apply elem_of_app. right. by left.
Qed.

(** Level 0. *)
Lemma rep_positive xs' kvs' st z' a : rep st z' xs' kvs' -> a ∈ xs' -> (0 < ht st a)%nat.
Proof. intros Hr Ha. destruct (rep_in_store _ _ _ _ a Hr) as (_ & _ & ?); [by right | done]. Qed.

Lemma ins_u0 : (if bool_decide (uf 0 = header z) then None else Some (uf 0%nat)) = last l1.
Proof.
  destruct (Hup 0%nat ltac:(lia)) as (_ & _ & B0 & HB & _ & HD). destruct (Df 0) as [|d D].
  - destruct B0 as [|h B0]; injection HB as Hh Hl1; subst.
    + rewrite <- Hh. by rewrite bool_decide_true.
    + rewrite last_snoc. pose proof (rep_nodup _ _ _ _ Hrep) as Hnd. apply NoDup_cons in Hnd as [Hno _]. rewrite bool_decide_false; [done|]. intros Heq. apply Hno. rewrite <- Heq.
      rewrite !elem_of_app. left. right. by left.
  - exfalso. apply Forall_cons in HD as [HD _]. assert (d ∈ header z :: l1 ++ l2) as Hd. { rewrite app_comm_cons, HB, <- app_assoc. apply elem_of_app. right. right. by left. }
    destruct (rep_in_store _ _ _ _ d Hrep Hd) as (_ & _ & ?). lia.
Qed.

Lemma ins_next : forward (next_in hf 0 l2) = head l2.
Proof.
  assert (forall f, f ∈ l2 -> (0 < hf f)%nat) as Hpos.
  { intros f Hf. assert (f ∈ l1 ++ l2) as Hin by (apply elem_of_app; by right). rewrite ins_hf by (apply ins_fresh; by right). by apply (rep_positive _ _ _ _ _ Hrep). }
  destruct l2 as [|f l]; [done|]. rewrite next_in_cons_high; [done|]. apply Hpos. by left.
Qed.

(** The shape at the end. *)
Definition ins_final (sh : gmap nat (option (list Z) * Sc * option nat * nat)) : Prop :=
  sh !! x = Some (Some e, sc, last l1, lvl) /\ (forall a, a <> x -> head l2 <> Some a -> sh !! a = shape st1 !! a) /\
  (forall f e' s b n, head l2 = Some f -> shape st1 !! f = Some (e', s, b, n) -> sh !! f = Some (e', s, Some x, n)).

Context (k1 k2 : list (Sc * list Z)) (Hkvs : kvs = k1 ++ k2) (Hk1 : length k1 = length l1).

Lemma ins_nodes sh : ins_final sh -> forall p a kv, (l1 ++ x :: l2) !! p = Some a -> (k1 ++ (sc, e) :: k2) !! p = Some kv ->
  exists n, sh !! a = Some (Some kv.2, kv.1, prev (l1 ++ x :: l2) p, n) /\ (1 <= n <= level z)%nat.
Proof.
  intros (Hfx & Hfa & Hff) p a kv Hp Hkv. pose proof ins_nodup as Hnd. apply NoDup_cons in Hnd as [_ Hnd].
  destruct (decide (p < length l1)%nat) as [Hlt|Hge].
  - rewrite lookup_app_l in Hp by done. rewrite lookup_app_l in Hkv by lia.
    destruct (rep_shape_node st1 z (l1 ++ l2) kvs p a kv Hrep) as (n & Hs & Hn); [by rewrite lookup_app_l | subst kvs; by rewrite lookup_app_l by lia|].
    exists n. split; [|done]. rewrite Hfa.
    + rewrite Hs. do 2 f_equal. unfold prev. destruct p as [|p]; [done|]. by rewrite !lookup_app_l by lia.
    + apply ins_fresh. right. apply elem_of_app. left. by eapply list_elem_of_lookup_2.
    + intros Hh. apply NoDup_app in Hnd as (_ & Hno & _). apply (Hno a); [by eapply list_elem_of_lookup_2|]. right. destruct l2; [done|]. injection Hh as ->. by left.
  - destruct (decide (p = length l1)) as [->|Hne].
    + rewrite list_lookup_middle in Hp by done. rewrite <- Hk1, list_lookup_middle in Hkv by done. injection Hp as <-. injection Hkv as <-. exists lvl. split; [|done].
      rewrite Hfx. do 2 f_equal. rewrite last_lookup. unfold prev. destruct l1 as [|y l]; [done|]. cbn [length Nat.pred]. rewrite lookup_app_l; [done | cbn; lia].
    + assert (exists j, p = length l1 + S j)%nat as [j ->] by (exists (p - S (length l1))%nat; lia). rewrite lookup_app_r in Hp by lia. rewrite lookup_app_r in Hkv by lia.
      replace (length l1 + S j - length l1)%nat with (S j) in Hp by lia. replace (length l1 + S j - length k1)%nat with (S j) in Hkv by lia. cbn [lookup list_lookup] in Hp, Hkv.
      destruct (rep_shape_node st1 z (l1 ++ l2) kvs (length l1 + j) a kv Hrep) as (n & Hs & Hn).
      { rewrite lookup_app_r by lia. by replace (length l1 + j - length l1)%nat with j by lia. }
      { subst kvs. rewrite lookup_app_r by lia. by replace (length l1 + j - length k1)%nat with j by lia. }
      exists n. split; [|done]. rewrite Nat.add_succ_r. cbn [prev]. destruct j as [|j].
      * rewrite Nat.add_0_r, list_lookup_middle by done. eapply (Hff a); [by destruct l2 | exact Hs].
      * rewrite Hfa.
        -- rewrite Hs. do 2 f_equal. unfold prev. rewrite !Nat.add_succ_r. rewrite !lookup_app_r by lia. replace (S (length l1 + j) - length l1)%nat with (S j) by lia. by replace (length l1 + j - length l1)%nat with j by lia.
        -- apply ins_fresh. right. apply elem_of_app. right. by eapply list_elem_of_lookup_2.
        -- intros Hh. apply NoDup_app in Hnd as (_ & _ & Hnd). apply NoDup_cons in Hnd as [_ Hnd]. rewrite head_lookup in Hh. by pose proof (NoDup_lookup _ _ _ _ Hnd Hp Hh).
Qed.

Lemma insert_core : exists st', (st ← link_levels lvl st2 x 0 update rank; st ← bump_levels (level z - lvl) st lvl update; u0 ← update !! 0%nat;
    st ← set_backward st x (if bool_decide (u0 = header z) then None else Some u0); l ← get_level st x 0;
    match forward l with
    | Some f => st ← set_backward st f (Some x); Some (st, Zsl (header z) (tail z) (u64 (zlength z + 1)) (level z))
    | None => Some (st, Zsl (header z) (Some x) (u64 (zlength z + 1)) (level z))
    end) = Some (st', Zsl (header z) (last (l1 ++ x :: l2)) (zlength z + 1) (level z)) /\
  rep st' (Zsl (header z) (last (l1 ++ x :: l2)) (zlength z + 1) (level z)) (l1 ++ x :: l2) (k1 ++ (sc, e) :: k2).
Proof.
  destruct insert_links as (st3 & st4 & -> & He4 & Hsh4 & Hget4). simpl_bind. rewrite He4. simpl_bind.
  destruct (Hup 0%nat ltac:(lia)) as (-> & _). simpl_bind. rewrite ins_u0.
  destruct (set_backward_ok st4 x (last l1) (Some e) sc None lvl) as (st5 & -> & Hsh5 & Hget5); [by rewrite Hsh4, ins_shape, lookup_insert_eq|]. simpl_bind.
  rewrite Hget5, Hget4, !decide_True by lia. simpl_bind. rewrite ins_next.
  pose proof (rep_len _ _ _ _ Hrep) as Hlz. pose proof (zlen_nonneg (l1 ++ l2)). rewrite uwrap_small by lia.
  enough (exists st', match head l2 with Some f => set_backward st5 f (Some x) | None => Some st5 end = Some st' /\ ins_final (shape st') /\ forall a j, get_level st' a j = get_level st4 a j) as (st' & He & Hfin & Hget').
  { exists st'. split.
    - destruct l2 as [|f l]; cbn in He |- *; [injection He as ->; by rewrite last_snoc|]. rewrite He. simpl_bind. rewrite (rep_tail _ _ _ _ Hrep). by rewrite !last_app_cons, !last_cons_cons.
    - assert (forall a, ht st' a = hf a) as Hht.
      { intros a. unfold hf. rewrite !ht_shape, ins_shape. destruct Hfin as (Hfx & Hfa & Hff). destruct (decide (a = x)) as [->|]; [by rewrite lookup_insert_eq, Hfx|].
        rewrite lookup_insert_ne by done. destruct (decide (head l2 = Some a)) as [Hh|]; [|by rewrite Hfa].
        assert (a ∈ l1 ++ l2) as Hin by (apply elem_of_app; right; destruct l2; [done|]; injection Hh as ->; by left). destruct (rep_in_store _ _ _ _ a Hrep ltac:(by right)) as (nd & Hnd & _).
        pose proof (shape_node _ _ _ Hnd) as Hs. by rewrite (Hff _ _ _ _ _ Hh Hs), Hs. }
      apply rep_intro; cbn [header level tail zlength].
      + apply ins_nodup.
      + by apply (rep_level _ _ _ _ Hrep).
      + destruct Hfin as (_ & Hfa & _). rewrite Hfa; [by apply (rep_shape_header _ _ _ _ Hrep) | apply ins_fresh; by left|].
        intros Hh. pose proof ins_nodup as Hnd. apply NoDup_cons in Hnd as [Hno _]. apply Hno, elem_of_app. right. right. destruct l2; [done|]. injection Hh as ->. by left.
      + pose proof (rep_zlen _ _ _ _ Hrep) as Hl. subst kvs. rewrite !length_app in *. cbn. lia.
      + by apply ins_nodes.
      + intros P a Q i HA Hi Hl. rewrite Hht in Hi. rewrite Hget', (insert_at st4 P a Q i) by done. f_equal. apply next_in_ext. intros; by rewrite Hht.
      + intros i Hi. rewrite Hget', Hget4, decide_False by lia. rewrite ins_get by (apply ins_fresh; by left). by apply (rep_high _ _ _ _ Hrep).
      + done.
      + rewrite Hlz, !zlen_app, zlen_cons. lia. }
  destruct (head l2) as [f|] eqn:Hh.
  - assert (f ∈ l1 ++ l2) as Hin by (apply elem_of_app; right; destruct l2; [done|]; injection Hh as ->; by left). destruct (rep_in_store _ _ _ _ f Hrep ltac:(by right)) as (nd & Hnd & _).
    pose proof (ins_fresh f ltac:(by right)) as Hfx. pose proof (shape_node _ _ _ Hnd) as Hs.
    assert (shape st5 !! f = shape st1 !! f) as Hf5 by (rewrite Hsh5, lookup_insert_ne, Hsh4, ins_shape, lookup_insert_ne by done; done).
    destruct (set_backward_ok st5 f (Some x) (ele nd) (score nd) (backward nd) (length (levels nd))) as (st' & -> & Hsh & Hget); [by rewrite Hf5|]. exists st'. split_and!; [done| |].
    + rewrite Hsh, Hsh5, Hsh4, ins_shape. split_and!.
      * rewrite lookup_insert_ne by done. by rewrite lookup_insert_eq.
      * intros a Ha1 Ha2. by rewrite !lookup_insert_ne by congruence.
      * intros g e' s b n Hg' Hg. rewrite Hh in Hg'. injection Hg' as <-. rewrite lookup_insert_eq. rewrite Hs in Hg. by injection Hg as -> -> _ ->.
    + intros a j. by rewrite Hget, Hget5.
  - exists st5. split_and!; [done| |by intros]. rewrite Hsh5, Hsh4, ins_shape. split_and!; [by rewrite lookup_insert_eq| |by congruence].
    intros a Ha _. by rewrite !lookup_insert_ne by congruence.
Qed.

End insert.
Section insert_ok.
Context {Sc : Type} `{ScoreOrder Sc}.
Implicit Types (st : store Sc) (z : zskiplist) (xs : list nat) (kvs : list (Sc * list Z)).

(** The search for the position of an element. *)
Lemma search_before st z xs kvs sc e w : rep st z xs kvs -> sorted kvs -> (forall q : nat, (q <= length xs)%nat -> w (Z.of_nat q) = Z.of_nat q) ->
  exists r update ranks, (r <= length xs)%nat /\ (forall q kv, kvs !! q = Some kv -> before kv (sc, e) = bool_decide (S q <= r)%nat) /\
    search (zsl_fuel st) st (fun nd _ => node_before sc e nd) w (level z) (header z) 0 = Some (update, ranks) /\ length update = level z /\ length ranks = level z /\
    (forall j, (j < level z)%nat -> exists y q, update !! j = Some y /\ ranks !! j = Some (Z.of_nat q) /\ is_last st (header z :: xs) j r q y) /\
    exists u0, update !! 0%nat = Some u0 /\ ranks !! 0%nat = Some (Z.of_nat r) /\ (header z :: xs) !! r = Some u0.
Proof.
  intros Hr Hs Hw. destruct (prefix_index (fun kv => before kv (sc, e)) kvs) as (r & Hrl & Hpre); [intros a b; apply before_trans | done|].
  rewrite <- (rep_zlen _ _ _ _ Hr) in Hrl. destruct (search_header st z xs kvs Hr (fun nd _ => node_before sc e nd) w r Hrl Hw) as (update & ranks & He); [|by exists r, update, ranks].
  intros q a nd Hq Hnd. destruct (rep_node _ _ _ _ _ _ Hr Hq) as (nd' & kv & Hkv & Hnd' & H1 & H2 & _). rewrite Hnd in Hnd'. injection Hnd' as <-.
  rewrite (node_before_eq _ _ _ _ H1 H2). by apply Hpre.
Qed.

Lemma prefix_forall (f : Sc * list Z -> bool) kvs r : (forall q kv, kvs !! q = Some kv -> f kv = bool_decide (S q <= r)%nat) ->
  Forall (fun kv => f kv = true) (take r kvs) /\ Forall (fun kv => f kv = false) (drop r kvs).
Proof.
  intros Hpre. split; apply Forall_lookup; intros q kv Hq.
  - apply lookup_take_Some in Hq as [Hq Hlt]. rewrite (Hpre _ _ Hq). by apply bool_decide_true.
  - rewrite lookup_drop in Hq. rewrite (Hpre _ _ Hq). apply bool_decide_false. lia.
Qed.

Lemma zslInsert_ok st z xs kvs sc e lvl x : rep st z xs kvs -> sorted kvs -> (1 <= lvl <= ZSKIPLIST_MAXLEVEL)%nat -> st !! x = None -> zlen xs + 1 < 2 ^ 32 ->
  exists st' z' r, zslInsert st z sc e lvl x = Some (st', z') /\ rep st' z' (take r xs ++ x :: drop r xs) (take r kvs ++ (sc, e) :: drop r kvs) /\ header z' = header z /\
    Forall (fun kv => before kv (sc, e) = true) (take r kvs) /\ Forall (fun kv => before kv (sc, e) = false) (drop r kvs).
Proof.
  intros Hr Hs Hlvl Hx Hlen. pose proof (rep_zlen _ _ _ _ Hr) as Hlk.
  destruct (search_before st z xs kvs sc e (uwrap 32) Hr Hs) as (r & update & ranks & Hrl & Hpre & Hsearch & Hlu & Hlr & Hall & u0 & Hu0 & Hr0 & Ha).
  { intros q Hq. apply uwrap_small. unfold zlen in Hlen. lia. }
  unfold zslInsert. rewrite Hsearch. simpl_bind. destruct (raise_ok st z xs kvs lvl Hr ltac:(lia)) as (st1 & -> & Hsh & Hr1). simpl_bind.
  set (more := (lvl - level z)%nat). set (update' := update ++ replicate more (header z)). set (ranks' := ranks ++ replicate more 0).
  set (uf k := update' !!! k). set (Df k := drop (S (Z.to_nat (ranks' !!! k))) (header z :: take r xs)). rewrite <- (take_drop r xs) in Hr1.
  pose proof (ht_same _ _ Hsh) as Hht. pose proof (rep_level _ _ _ _ Hr) as Hlevel. assert (length (take r xs) = r) as Hlt by (rewrite length_take; lia).
  destruct (insert_core st1 _ (take r xs) (drop r xs) kvs Hr1 x lvl sc e) with (update := update') (rank := ranks') (uf := uf) (Df := Df) (k1 := take r kvs) (k2 := drop r kvs)
    as (st' & He & Hrep'); cbn [header tail zlength level] in *.
  - pose proof (f_equal (lookup x) Hsh) as Hl. unfold shape in Hl. rewrite !lookup_fmap, Hx in Hl. by destruct (st1 !! x).
  - lia.
  - by rewrite take_drop.
  - intros k Hk. destruct (decide (k < level z)%nat) as [Hkl|Hkl].
    + destruct (Hall k Hkl) as (y & q & Hy & Hq & Hlast). assert (update' !! k = Some y) as Hy' by (unfold update'; by rewrite lookup_app_l by lia).
      assert (ranks' !! k = Some (Z.of_nat q)) as Hq' by (unfold ranks'; by rewrite lookup_app_l by lia). unfold uf, Df. rewrite !list_lookup_total_alt, Hy', Hq'. cbn [default id]. rewrite Nat2Z.id.
      pose proof Hlast as (_ & _ & Hqr & _). split_and!; [done| |].
      * f_equal. unfold zlen. rewrite length_drop. cbn [length]. rewrite Hlt. lia.
      * apply is_last_at in Hlast. cbn [take] in Hlast. destruct Hlast as (B0 & HB & Hi & HD). exists B0. split_and!; [done | by rewrite Hht|]. eapply Forall_impl; [exact HD|]. intros b. by rewrite Hht.
    + assert (update' !! k = Some (header z)) as Hy' by (unfold update'; rewrite lookup_app_r, lookup_replicate by lia; lia).
      assert (ranks' !! k = Some 0) as Hq' by (unfold ranks'; rewrite lookup_app_r, lookup_replicate by lia; lia). unfold uf, Df. rewrite !list_lookup_total_alt, Hy', Hq'. cbn [default id Z.to_nat drop].
      split_and!; [done | by rewrite Z.sub_diag|]. exists []. split_and!; [done | rewrite Hht, (ht_header _ _ _ _ Hr); lia|]. apply Forall_forall. intros b [p Hp]%list_elem_of_lookup.
      apply lookup_take_Some in Hp as [Hp _]. rewrite Hht. destruct (rep_node _ _ _ _ _ _ Hr Hp) as (_ & _ & _ & _ & _ & _ & ?). lia.
  - unfold ranks', zlen. rewrite lookup_app_l by lia. by rewrite Hr0, Hlt.
  - by rewrite take_drop.
  - rewrite !length_take. lia.
  - eexists st', _, r. split; [exact He|]. split; [exact Hrep'|]. split; [done | by apply prefix_forall].
Qed.

Lemma sorted_insert k1 k2 (a : Sc * list Z) : sorted (k1 ++ k2) -> Forall (fun kv => before kv a = true) k1 -> Forall (fun kv => before kv a = false) k2 ->
  Forall (fun kv => same_key kv a = false) k2 -> sorted (k1 ++ a :: k2).
Proof.
  unfold sorted. rewrite StronglySorted_app. intros (Hb & H1 & H2) Hk1 Hk2 Hsame. rewrite !Forall_forall in *. apply StronglySorted_app. split_and!; [|done|].
  - intros u v Hu [->|Hv]%elem_of_cons; [by apply Hk1 | by apply Hb].
  - apply StronglySorted_cons. split; [|done]. apply Forall_forall. intros v Hv. apply before_total; [by apply Hk2 | by apply Hsame].
Qed.

End insert_ok.
(** ** Deletion *)

Section delete.
Context {Sc : Type} `{ScoreOrder Sc}.
Implicit Types (st : store Sc) (xs : list nat) (kvs : list (Sc * list Z)).

(** Levels that only the header has. *)
Lemma lower_ok st h t n xs kvs lvl : rep st (Zsl h t n lvl) xs kvs -> exists lvl', lower_level st h lvl = Some lvl' /\ (lvl' <= lvl)%nat /\ rep st (Zsl h t n lvl') xs kvs.
Proof.
  induction lvl as [|[|lvl] IH]; intros Hr; [by exists 0%nat | by exists 1%nat|]. change (lower_level st h (S (S lvl))) with (l ← get_level st h (S lvl); match forward l with None => lower_level st h (S lvl) | Some _ => Some (S (S lvl)) end).
  pose proof (rep_level _ _ _ _ Hr) as Hl. cbn [level] in Hl.
  pose proof (ht_header _ _ _ _ Hr) as Hh. cbn [header] in Hh.
  pose proof (rep_at _ _ _ _ [] h xs (S lvl) Hr eq_refl ltac:(lia) ltac:(cbn; lia)) as Hget. rewrite Hget. simpl_bind. pose proof (next_in_spec (ht st) (S lvl) xs) as Hspec.
  destruct (forward (next_in (ht st) (S lvl) xs)) as [f|] eqn:Hf; [by exists (S (S lvl))|]. destruct Hspec as [Hlow _].
  destruct IH as (lvl' & -> & Hle & Hr'); [|exists lvl'; split_and!; (done || lia)]. apply rep_intro; cbn [header level tail zlength]; try apply Hr.
  - lia.
  - by apply (rep_shape_header _ _ _ _ Hr).
  - by eapply rep_zlen.
  - intros p a kv Hp Hkv. destruct (rep_shape_node _ _ _ _ _ _ _ Hr Hp Hkv) as (m & Hs & Hm). exists m. split; [done|]. pose proof (Hlow p a Hp) as Ha. rewrite ht_shape, Hs in Ha. lia.
  - intros P a Q i HA Hi Hil. apply (rep_at _ _ _ _ P a Q i Hr HA Hi). cbn. lia.
  - intros i Hi. destruct (decide (i = S lvl)) as [->|]; [by eexists|]. apply (rep_high _ _ _ _ Hr). cbn. lia.
Qed.

Context (st : store Sc) (z : zskiplist) (l1 l2 : list nat) (x : nat) (kvs : list (Sc * list Z)) (Hrep : rep st z (l1 ++ x :: l2) kvs).
Context (Hlen : zlen (l1 ++ x :: l2) < 2 ^ 64) (update : list nat) (uf : nat -> nat) (Df : nat -> list nat) (Hup : update_ok st (header z :: l1) (level z) update uf Df).

Let hf := ht st.

Lemma del_nodup : (x ∉ header z :: l1 ++ l2) /\ NoDup (header z :: l1 ++ l2).
Proof.
  pose proof (rep_nodup _ _ _ _ Hrep) as Hnd. rewrite app_comm_cons, <- Permutation_middle, <- app_comm_cons in Hnd. by apply NoDup_cons in Hnd.
Qed.

Lemma del_old k : (k < level z)%nat -> uf k <> x /\ uf k ∈ header z :: l1 /\ Forall (fun b => hf b <= k)%nat (Df k) /\ (k < hf (uf k))%nat /\ zlen (Df k) <= zlen l1 /\
  get_level st (uf k) k = Some (next_in hf k (Df k ++ x :: l2)).
Proof.
  intros Hk. destruct (Hup k Hk) as (_ & B0 & HB & Hi & HD). assert (uf k ∈ header z :: l1) as Hin by (rewrite HB; apply elem_of_app; right; by left). split_and!; try done.
  - intros He. destruct del_nodup as [Hno _]. apply Hno. rewrite <- He, app_comm_cons. apply elem_of_app. by left.
  - apply (f_equal zlen) in HB. rewrite zlen_app, !zlen_cons in HB. pose proof (zlen_nonneg B0). lia.
  - apply (rep_at _ _ _ _ B0 _ _ _ Hrep); [|done|done]. by rewrite app_comm_cons, HB, <- app_assoc.
Qed.

Definition del_level (a k : nat) : option zskiplistLevel := if decide (a = uf k) then Some (next_in hf k (Df k ++ l2)) else get_level st a k.

Lemma unlink_step st0 k : (k < level z)%nat -> shape st0 = shape st -> (forall a, get_level st0 a k = get_level st a k) ->
  exists st', (u ← update !! k; l ← get_level st0 u k;
      if bool_decide (forward l = Some x) then lx ← get_level st0 x k; set_level st0 u k (ZLevel (forward lx) (u64 (span l + u64 (span lx - 1))))
      else set_level st0 u k (ZLevel (forward l) (u64 (span l - 1)))) = Some st' /\
    shape st' = shape st /\ forall a j, get_level st' a j = if decide (j = k) then del_level a k else get_level st0 a j.
Proof.
  intros Hk Hsh Hget. destruct (Hup k Hk) as (Hu & _). destruct (del_old k Hk) as (Hne & _ & HD & Hhu & HlD & Hold). rewrite Hu. simpl_bind. rewrite (Hget (uf k)), Hold. simpl_bind.
  pose proof (next_in_span hf k l2) as Hsp. pose proof (zlen_nonneg (Df k)). rewrite zlen_app, zlen_cons in Hlen.
  enough ((if bool_decide (forward (next_in hf k (Df k ++ x :: l2)) = Some x) then lx ← get_level st0 x k; set_level st0 (uf k) k (ZLevel (forward lx) (u64 (span (next_in hf k (Df k ++ x :: l2)) + u64 (span lx - 1))))
      else set_level st0 (uf k) k (ZLevel (forward (next_in hf k (Df k ++ x :: l2))) (u64 (span (next_in hf k (Df k ++ x :: l2)) - 1)))) = set_level st0 (uf k) k (next_in hf k (Df k ++ l2))) as ->.
  { destruct (set_level_ok st0 (uf k) k (next_in hf k (Df k ++ l2))) as (st' & -> & Hsh' & Hget'); [by rewrite (ht_same _ _ Hsh)|]. exists st'. split_and!; [done | congruence|].
    intros a j. rewrite Hget'. unfold del_level. destruct (decide (j = k)) as [->|]; [|by rewrite decide_False by tauto].
    destruct (decide (a = uf k)) as [->|]; [by rewrite decide_True | rewrite decide_False by tauto; apply Hget]. }
  rewrite !next_in_skip by done. destruct (decide (k < hf x)%nat) as [Hhx|Hhx].
  - rewrite next_in_cons_high by done. cbn [forward span]. rewrite bool_decide_true by done. rewrite Hget.
    rewrite (rep_at _ _ _ _ (header z :: l1) x l2 k Hrep eq_refl Hhx Hk). simpl_bind. do 2 f_equal. fold hf. machine.
  - rewrite next_in_cons_low by lia. cbn [forward span]. rewrite bool_decide_false by (intros [_ Hc]%next_in_forward; done). do 2 f_equal. rewrite uwrap_small by lia. lia.
Qed.

Lemma unlink_ok : exists st', unlink_levels (level z) st x 0 update = Some st' /\ shape st' = shape st /\
  forall a k, get_level st' a k = if decide (k < level z)%nat then del_level a k else get_level st a k.
Proof.
  destruct (level_loop (fun n st i => unlink_levels n st x i update) (fun st0 k => u ← update !! k; l ← get_level st0 u k;
      if bool_decide (forward l = Some x) then lx ← get_level st0 x k; set_level st0 u k (ZLevel (forward lx) (u64 (span l + u64 (span lx - 1))))
      else set_level st0 u k (ZLevel (forward l) (u64 (span l - 1)))) st del_level) with (n := level z) (st := st) (i := 0%nat) as (st' & He & Hsh & Hget); try done.
  { intros n st0 i. cbn [unlink_levels]. repeat match goal with |- context [?m ≫= _] => destruct m; simpl_bind; try done end. }
  { intros st0 j Hj. apply unlink_step. lia. }
  exists st'. split_and!; [done | done|]. intros a k. rewrite Hget. destruct (decide (k < level z)%nat); [by rewrite decide_True by lia | by rewrite decide_False by lia].
Qed.

Lemma delete_at st' P a Q i : (forall a k, get_level st' a k = if decide (k < level z)%nat then del_level a k else get_level st a k) ->
  header z :: l1 ++ l2 = P ++ a :: Q -> (i < hf a)%nat -> (i < level z)%nat -> get_level st' a i = Some (next_in hf i Q).
Proof.
  intros Hget He Hi Hl. rewrite Hget, decide_True by done. unfold del_level. destruct (Hup i Hl) as (_ & B0 & HB & Hiu & HD). destruct (del_old i Hl) as (_ & _ & _ & Hiu' & _).
  destruct del_nodup as [Hno Hnd]. rewrite app_comm_cons in He. destruct (split_app _ _ _ _ _ He) as [(Q1 & H1 & ->)|(P2 & -> & H2)].
  - rewrite app_comm_cons, HB in Hnd. apply NoDup_app in Hnd as (Hnd & _ & _).
    assert (header z :: l1 ++ x :: l2 = P ++ a :: Q1 ++ x :: l2) as HA by (rewrite app_comm_cons, H1, <- app_assoc; done).
    rewrite HB in H1. destruct (split_last hf i _ _ _ _ _ _ Hnd HD Hi H1) as [[-> ->]|[Hne Hu]]; [by rewrite decide_True|].
    rewrite decide_False by done. rewrite (rep_at _ _ _ _ _ _ _ _ Hrep HA Hi Hl). f_equal. by apply (next_in_stop hf i Q1 (uf i)).
  - rewrite decide_False.
    + apply (rep_at _ _ _ _ (header z :: l1 ++ x :: P2) a Q i Hrep); [|done|done]. rewrite H2. cbn. by rewrite <- app_assoc.
    + intros ->. rewrite app_comm_cons, HB in Hnd. apply NoDup_app in Hnd as (_ & Hno' & _). apply (Hno' (uf i)); [apply elem_of_app; right; by left|]. rewrite H2. apply elem_of_app. right. by left.
Qed.

(** The shape at the end. *)
Definition del_final (sh : gmap nat (option (list Z) * Sc * option nat * nat)) : Prop :=
  (forall a, head l2 <> Some a -> sh !! a = shape st !! a) /\ (forall f e s b n, head l2 = Some f -> shape st !! f = Some (e, s, b, n) -> sh !! f = Some (e, s, last l1, n)).

Context (k1 k2 : list (Sc * list Z)) (kv0 : Sc * list Z) (Hkvs : kvs = k1 ++ kv0 :: k2) (Hk1 : length k1 = length l1).

Lemma del_nodes sh : del_final sh -> forall p a kv, (l1 ++ l2) !! p = Some a -> (k1 ++ k2) !! p = Some kv ->
  exists n, sh !! a = Some (Some kv.2, kv.1, prev (l1 ++ l2) p, n) /\ (1 <= n <= level z)%nat.
Proof.
  intros (Hfa & Hff) p a kv Hp Hkv. destruct del_nodup as [_ Hnd]. apply NoDup_cons in Hnd as [_ Hnd]. destruct (decide (p < length l1)%nat) as [Hlt|Hge].
  - rewrite lookup_app_l in Hp by done. rewrite lookup_app_l in Hkv by lia.
    destruct (rep_shape_node st z (l1 ++ x :: l2) kvs p a kv Hrep) as (n & Hs & Hn); [by rewrite lookup_app_l | subst kvs; by rewrite lookup_app_l by lia|].
    exists n. split; [|done]. rewrite Hfa.
    + rewrite Hs. do 2 f_equal. unfold prev. destruct p as [|p]; [done|]. by rewrite !lookup_app_l by lia.
    + intros Hh. apply NoDup_app in Hnd as (_ & Hno & _). apply (Hno a); [by eapply list_elem_of_lookup_2|]. destruct l2; [done|]. injection Hh as ->. by left.
  - assert (exists j, p = length l1 + j)%nat as [j ->] by (exists (p - length l1)%nat; lia). rewrite lookup_app_r in Hp by lia. rewrite lookup_app_r in Hkv by lia.
    replace (length l1 + j - length l1)%nat with j in Hp by lia. replace (length l1 + j - length k1)%nat with j in Hkv by lia.
    destruct (rep_shape_node st z (l1 ++ x :: l2) kvs (length l1 + S j) a kv Hrep) as (n & Hs & Hn).
    { rewrite lookup_app_r by lia. by replace (length l1 + S j - length l1)%nat with (S j) by lia. }
    { subst kvs. rewrite lookup_app_r by lia. by replace (length l1 + S j - length k1)%nat with (S j) by lia. }
    exists n. split; [|done]. destruct j as [|j].
    + rewrite Nat.add_0_r. rewrite (Hff a _ _ _ _ ltac:(by destruct l2) Hs). do 2 f_equal. rewrite last_lookup. unfold prev. destruct l1 as [|y l]; [done|]. cbn [length Nat.pred].
      rewrite lookup_app_l; [done | cbn; lia].
    + rewrite Hfa.
      * rewrite Hs. do 2 f_equal. rewrite !Nat.add_succ_r. cbn [prev]. rewrite !lookup_app_r by lia. replace (S (length l1 + j) - length l1)%nat with (S j) by lia.
        by replace (length l1 + j - length l1)%nat with j by lia.
      * intros Hh. apply NoDup_app in Hnd as (_ & _ & Hnd). rewrite head_lookup in Hh. by pose proof (NoDup_lookup _ _ _ _ Hnd Hp Hh).
Qed.


Lemma del_ht sh : del_final sh -> forall a, match sh !! a with Some (_, _, _, n) => n | None => 0%nat end = hf a.
Proof.
  intros (Hfa & Hff) a. unfold hf. rewrite ht_shape. destruct (decide (head l2 = Some a)) as [Hh|]; [|by rewrite Hfa].
  destruct (shape st !! a) as [[[[e s] b] n]|] eqn:Hs; [by rewrite (Hff _ _ _ _ _ Hh Hs)|]. exfalso.
  assert (a ∈ header z :: l1 ++ x :: l2) as Hin. { right. apply elem_of_app. right. right. destruct l2; [done|]. injection Hh as ->. by left. }
  destruct (rep_in_store _ _ _ _ _ Hrep Hin) as (nd & Hnd & _). by rewrite (shape_node _ _ _ Hnd) in Hs.
Qed.

Lemma del_next : forward (next_in hf 0 l2) = head l2.
Proof.
  assert (forall f, f ∈ l2 -> (0 < hf f)%nat) as Hpos.
  { intros f Hf. apply (rep_positive (l1 ++ x :: l2) kvs st z f Hrep). apply elem_of_app. right. by right. }
  destruct l2 as [|f l]; [done|]. rewrite next_in_cons_high; [done|]. apply Hpos. by left.
Qed.

(** The node that is removed. *)
Lemma del_x : exists nd, st !! x = Some nd /\ score nd = kv0.1 /\ ele nd = Some kv0.2 /\ backward nd = last l1 /\ exists l, levels nd !! 0%nat = Some l /\ forward l = head l2.
Proof.
  assert ((l1 ++ x :: l2) !! length l1 = Some x) as Hl by (by apply list_lookup_middle). assert (kvs !! length l1 = Some kv0) as Hkv by (rewrite Hkvs, <- Hk1; by apply list_lookup_middle).
  destruct (rep_shape_node _ _ _ _ _ _ _ Hrep Hl Hkv) as (n & (nd & Hnd & H1 & H2 & H3 & H4)%shape_Some & Hn). exists nd. split_and!; try done.
  - rewrite H3, last_lookup. unfold prev. destruct l1 as [|y l]; [done|]. cbn [length Nat.pred]. rewrite lookup_app_l; [done | cbn; lia].
  - exists (next_in hf 0 l2). split; [|apply del_next]. pose proof (rep_at _ _ _ _ (header z :: l1) x l2 0 Hrep eq_refl) as Hget. unfold get_level in Hget. rewrite Hnd in Hget. simpl_bind in Hget.
    apply Hget; [|lia]. unfold ht. rewrite Hnd. lia.
Qed.

Lemma del_rep st' tl : del_final (shape st') -> (forall a k, get_level st' a k = if decide (k < level z)%nat then del_level a k else get_level st a k) -> tl = last (l1 ++ l2) ->
  rep st' (Zsl (header z) tl (u64 (zlength z - 1)) (level z)) (l1 ++ l2) (k1 ++ k2).
Proof.
  intros Hfin Hget ->. destruct del_nodup as [Hno Hnd]. assert (forall a, ht st' a = hf a) as Hht by (intros a; rewrite ht_shape; by apply del_ht).
  apply rep_intro; cbn [header level tail zlength]; try done.
  - by apply (rep_level _ _ _ _ Hrep).
  - destruct Hfin as [Hfa _]. rewrite Hfa; [by apply (rep_shape_header _ _ _ _ Hrep)|]. intros Hh. apply NoDup_cons in Hnd as [Hnd _]. apply Hnd, elem_of_app. right. destruct l2; [done|]. injection Hh as ->. by left.
  - pose proof (rep_zlen _ _ _ _ Hrep) as Hl. subst kvs. rewrite !length_app in *. cbn in Hl. lia.
  - by apply del_nodes.
  - intros P a Q i HA Hi Hl. rewrite Hht in Hi. rewrite (delete_at st' P a Q i) by done. f_equal. apply next_in_ext. intros; by rewrite Hht.
  - intros i Hi. rewrite Hget, decide_False by lia. by apply (rep_high _ _ _ _ Hrep).
  - rewrite (rep_len _ _ _ _ Hrep). rewrite zlen_app, zlen_cons in *. pose proof (zlen_nonneg l1). pose proof (zlen_nonneg l2). rewrite uwrap_small by lia. rewrite zlen_app. lia.
Qed.

Lemma deletenode_core : exists st' z', zslDeleteNode st z x update = Some (st', z') /\ rep st' z' (l1 ++ l2) (k1 ++ k2) /\ header z' = header z /\ (level z' <= level z)%nat /\ del_final (shape st').
Proof.
  unfold zslDeleteNode. destruct unlink_ok as (st1 & -> & Hsh1 & Hget1). simpl_bind. destruct del_x as (nd & Hnd & H1 & H2 & H3 & l & Hl & Hfwd).
  pose proof (shape_node _ _ _ Hnd) as Hs. rewrite <- Hsh1 in Hs. apply shape_Some in Hs as (nd1 & Hnd1 & _ & _ & Hb1 & _). rewrite Hnd1. simpl_bind.
  assert (0 < level z)%nat as Hpos by (pose proof (rep_level _ _ _ _ Hrep); lia). destruct (del_old 0%nat Hpos) as (Hux & _).
  assert (levels nd1 !! 0%nat = Some l) as ->. { specialize (Hget1 x 0%nat). rewrite decide_True in Hget1 by done. unfold del_level in Hget1. rewrite decide_False in Hget1 by congruence.
    unfold get_level in Hget1. rewrite Hnd1, Hnd in Hget1. simpl_bind in Hget1. congruence. }
  simpl_bind. rewrite Hfwd, Hb1, H3.
  enough (exists st' tl, match head l2 with Some f => st ← set_backward st1 f (last l1); Some (st, tail z) | None => Some (st1, last l1) end = Some (st', tl) /\ tl = last (l1 ++ l2) /\
    del_final (shape st') /\ forall a k, get_level st' a k = get_level st1 a k) as (st' & tl & -> & Htl & Hfin & Hget').
  { simpl_bind. pose proof (del_rep st' tl Hfin) as Hr. destruct (lower_ok _ _ _ _ _ _ _ (Hr ltac:(intros; by rewrite Hget', Hget1) Htl)) as (lvl' & -> & Hle & Hr'). simpl_bind.
    eexists st', _. split; [done|]. split_and!; done. }
  rewrite (rep_tail _ _ _ _ Hrep). assert (forall f, head l2 = Some f -> exists e s b n, shape st !! f = Some (e, s, b, n)) as Hf.
  { intros f Hh. assert (f ∈ header z :: l1 ++ x :: l2) as Hin. { right. apply elem_of_app. right. right. destruct l2; [done|]. injection Hh as ->. by left. }
    destruct (rep_in_store _ _ _ _ _ Hrep Hin) as (ndf & Hndf & _). pose proof (shape_node _ _ _ Hndf) as Hs. do 4 eexists. exact Hs. }
  destruct (head l2) as [f|] eqn:Hh.
  - destruct (Hf f eq_refl) as (e & s & b & n & Hsf). destruct (set_backward_ok st1 f (last l1) e s b n) as (st2 & -> & Hsh2 & Hget2); [by rewrite Hsh1|]. simpl_bind.
    eexists st2, _. split; [done|]. split; [|split; [|done]].
    + destruct l2 as [|y l2']; [done|]. by rewrite !last_app_cons, last_cons_cons.
    + rewrite Hsh2, Hsh1. split.
      * intros a Ha. rewrite lookup_insert_ne by congruence. done.
      * intros f' e' s' b' n' Hh' Hs'. assert (f' = f) as -> by congruence. rewrite lookup_insert_eq. rewrite Hsf in Hs'. by injection Hs' as -> -> _ ->.
  - eexists st1, _. split; [done|]. split; [|split; [split|done]].
    + destruct l2; [|done]. by rewrite app_nil_r.
    + intros a _. by rewrite Hsh1.
    + congruence.
Qed.

End delete.
Lemma filter_all {A} (P : A -> Prop) `{!forall x, Decision (P x)} l : Forall P l -> filter P l = l.
Proof. induction 1 as [|x l Hx _ IH]; [done|]. by rewrite filter_cons_True, IH. Qed.

Lemma filter_none {A} (P : A -> Prop) `{!forall x, Decision (P x)} l : Forall (fun x => ~ P x) l -> filter P l = [].
Proof. induction 1 as [|x l Hx _ IH]; [done|]. by rewrite filter_cons_False. Qed.

Section delete_ok.
Context {Sc : Type} `{ScoreOrder Sc}.
Implicit Types (st : store Sc) (z : zskiplist) (xs : list nat) (kvs : list (Sc * list Z)).

(** What a search up to position [r] leaves in [update]. *)
Lemma search_update st z xs r update (ranks : list Z) : (r <= length xs)%nat ->
  (forall j, (j < level z)%nat -> exists y q, update !! j = Some y /\ ranks !! j = Some (Z.of_nat q) /\ is_last st (header z :: xs) j r q y) ->
  exists uf Df, update_ok st (header z :: take r xs) (level z) update uf Df.
Proof.
  intros Hr Hall. exists (fun k => update !!! k), (fun k => drop (S (Z.to_nat (ranks !!! k))) (header z :: take r xs)). intros k Hk.
  destruct (Hall k Hk) as (y & q & Hy & Hq & Hlast). rewrite !list_lookup_total_alt, Hy, Hq. cbn [default id]. rewrite Nat2Z.id. split; [done|]. by apply is_last_at in Hlast.
Qed.

(** zslDeleteNode() with the node at position [r] *)
Lemma zslDeleteNode_ok st z xs kvs r x kv update uf Df : rep st z xs kvs -> zlen xs < 2 ^ 64 -> xs !! r = Some x -> kvs !! r = Some kv ->
  update_ok st (header z :: take r xs) (level z) update uf Df ->
  exists st' z', zslDeleteNode st z x update = Some (st', z') /\ rep st' z' (take r xs ++ drop (S r) xs) (take r kvs ++ drop (S r) kvs) /\ header z' = header z /\
    update_ok st' (header z :: take r xs) (level z') update uf Df /\ (x ∉ header z :: take r xs ++ drop (S r) xs) /\ forall a, st' !! a = None <-> st !! a = None.
Proof.
  intros Hr Hlen Hx Hkv Hup. pose proof (take_drop_middle _ _ _ Hx) as Hxs. pose proof (take_drop_middle _ _ _ Hkv) as Hkvs. rewrite <- Hxs in Hr, Hlen.
  assert (length (take r kvs) = length (take r xs)) as Hl. { apply lookup_lt_Some in Hx, Hkv. rewrite !length_take. lia. }
  destruct (deletenode_core st z (take r xs) (drop (S r) xs) x kvs Hr Hlen update uf Df Hup _ _ kv (eq_sym Hkvs) Hl) as (st' & z' & He & Hr' & Hh & Hle & Hfin).
  pose proof (del_ht st z _ _ _ _ Hr Hlen _ Hfin) as Hht. exists st', z'. split_and!; try done.
  - intros k Hk. destruct (Hup k ltac:(lia)) as (Hu & B0 & HB & Hi & HD). split; [done|]. exists B0. split_and!; [done | by rewrite ht_shape, Hht|].
    eapply Forall_impl; [exact HD|]. intros b Hb. by rewrite ht_shape, Hht.
  - by apply (del_nodup st z (take r xs) (drop (S r) xs) x kvs Hr).
  - intros a. destruct Hfin as [Hfa Hff]. assert (forall st : store Sc, st !! a = None <-> shape st !! a = None) as Hs. { intros s. unfold shape. rewrite lookup_fmap. by destruct (s !! a). }
    rewrite !Hs. destruct (decide (head (drop (S r) xs) = Some a)) as [Ha|]; [|by rewrite Hfa]. destruct (shape st !! a) as [[[[e s] b] n]|] eqn:Hsa; [by rewrite (Hff _ _ _ _ _ Ha Hsa)|].
    split; [done|]. intros _. assert (a ∈ header z :: take r xs ++ x :: drop (S r) xs) as Hin. { right. apply elem_of_app. right. right. destruct (drop (S r) xs); [done|]. injection Ha as ->. by left. }
    destruct (rep_in_store _ _ _ _ _ Hr Hin) as (nd & Hnd & _). apply Hs in Hsa. congruence.
Qed.

Lemma zslFreeNode_ok st (B : list nat) n update uf Df x : x ∉ B -> update_ok st B n update uf Df -> update_ok (zslFreeNode st x) B n update uf Df.
Proof.
  intros Hx Hup k Hk. destruct (Hup k Hk) as (Hu & B0 & HB & Hi & HD). split; [done|]. assert (forall b, b ∈ B -> ht (zslFreeNode st x) b = ht st b) as Hht.
  { intros b Hb. unfold ht, zslFreeNode. rewrite lookup_delete_ne; [done|]. by intros ->. }
  exists B0. split_and!; [done | rewrite Hht; [done | rewrite HB; apply elem_of_app; right; by left]|]. rewrite !Forall_forall in *. intros b Hb. rewrite Hht; [by apply HD|]. rewrite HB. apply elem_of_app. right. by right.
Qed.

(** An element is the first one that is not before it, or nowhere. *)
Lemma find_key kvs (a : Sc * list Z) r : sorted kvs -> (forall q kv, kvs !! q = Some kv -> before kv a = bool_decide (S q <= r)%nat) ->
  forall q kv, kvs !! q = Some kv -> same_key kv a = true -> q = r.
Proof.
  intros Hs Hpre q kv Hq Hsame. pose proof (Hpre q kv Hq) as Hb. rewrite (same_key_before _ _ Hsame) in Hb. symmetry in Hb. apply bool_decide_eq_false in Hb.
  destruct (decide (q = r)) as [|Hne]; [done|]. exfalso. destruct (lookup_lt_is_Some_2 kvs r) as [kv' Hr]; [apply lookup_lt_Some in Hq; lia|].
  pose proof (Hpre r kv' Hr) as Hb'. rewrite bool_decide_false in Hb' by lia. pose proof (sorted_lookup _ _ _ _ _ Hs Hr Hq ltac:(lia)) as Hlt.
  by rewrite (same_key_eq _ _ _ Hsame), Hb' in Hlt.
Qed.

Lemma zslDelete_ok st z xs kvs sc e : rep st z xs kvs -> sorted kvs -> zlen xs < 2 ^ 64 ->
  exists st' z' xs', zslDelete st z sc e = Some (st', z', existsb (fun kv => same_key kv (sc, e)) kvs) /\ rep st' z' xs' (filter (fun kv => same_key kv (sc, e) = false) kvs).
Proof.
  intros Hr Hs Hlen. unfold zslDelete. destruct (search_before st z xs kvs sc e id Hr Hs) as (r & update & ranks & Hrl & Hpre & -> & _ & _ & Hall & u0 & Hu0 & _ & Ha); [done|]. simpl_bind. rewrite Hu0. simpl_bind.
  destruct (rep_next _ _ _ _ _ _ Hr Ha) as (l & -> & Hfwd). simpl_bind. rewrite Hfwd. pose proof (rep_zlen _ _ _ _ Hr) as Hlk. pose proof (find_key _ _ _ Hs Hpre) as Hfind.
  assert ((forall kv, kvs !! r = Some kv -> same_key kv (sc, e) = false) -> existsb (fun kv => same_key kv (sc, e)) kvs = false /\ filter (fun kv => same_key kv (sc, e) = false) kvs = kvs) as Habs.
  { intros Hno. assert (Forall (fun kv => same_key kv (sc, e) = false) kvs) as Hall'.
    { apply Forall_lookup. intros q kv Hq. apply not_true_iff_false. intros Hsame. rewrite (Hfind q kv Hq Hsame) in Hq. by rewrite (Hno kv Hq) in Hsame. }
    split; [|by apply filter_all]. apply not_true_iff_false. rewrite existsb_exists. intros (kv & Hin & Hsame). rewrite Forall_forall in Hall'.
    apply list_elem_of_In in Hin. by rewrite (Hall' kv Hin) in Hsame. }
  destruct (xs !! r) as [x|] eqn:Hx; [|destruct Habs as [-> ->]; [|by exists st, z, xs]].
  2:{ intros kv Hkv. apply lookup_lt_Some in Hkv. apply lookup_ge_None in Hx. lia. }
  destruct (rep_node _ _ _ _ _ _ Hr Hx) as (nd & kv & Hkv & -> & H1 & H2 & _). simpl_bind. rewrite H2. simpl_bind. rewrite H1.
  replace (score_eq sc kv.1 && (sdscmp kv.2 e =? 0)) with (same_key kv (sc, e)) by (unfold same_key; cbn; by rewrite (score_eq_sym kv.1)). destruct (same_key kv (sc, e)) eqn:Hsame.
  - destruct (search_update st z xs r update ranks Hrl Hall) as (uf & Df & Hup).
    destruct (zslDeleteNode_ok _ _ _ _ _ _ _ _ _ _ Hr Hlen Hx Hkv Hup) as (st' & z' & -> & Hr' & Hh & _ & Hno & _). simpl_bind. eexists _, _, _. split.
    + do 2 f_equal. symmetry. apply existsb_exists. exists kv. split; [|done]. apply list_elem_of_In. by eapply list_elem_of_lookup_2.
    + rewrite <- (take_drop_middle _ _ _ Hkv) at 1. rewrite filter_app, filter_cons_False by congruence.
      rewrite !filter_all; [apply rep_free; [exact Hr' | by rewrite Hh]|..]; apply Forall_lookup; intros j kv' Hj; apply not_true_iff_false; intros Hc.
      * rewrite lookup_drop in Hj. pose proof (Hfind _ _ Hj Hc). lia.
      * apply lookup_take_Some in Hj as [Hj Hlt]. pose proof (Hfind _ _ Hj Hc). lia.
  - destruct Habs as [-> ->]; [|by exists st, z, xs]. intros kv' Hkv'. congruence.
Qed.


(** *** Ranges *)

(** The loop removes [mid], the nodes after position [r] for which the condition holds. *)
Lemma delete_while_ok fuel st z l1 mid rest k1 kmid krest update uf Df (go : zskiplistNode Sc -> Z -> bool) t :
  rep st z (l1 ++ mid ++ rest) (k1 ++ kmid ++ krest) -> length l1 = length k1 -> length mid = length kmid -> zlen (l1 ++ mid ++ rest) < 2 ^ 64 ->
  update_ok st (header z :: l1) (level z) update uf Df -> (length mid < fuel)%nat -> 0 <= t -> t + zlen mid < 2 ^ 64 ->
  (forall i kv nd, kmid !! i = Some kv -> score nd = kv.1 -> ele nd = Some kv.2 -> go nd (t + Z.of_nat i) = true) ->
  (forall kv nd, head krest = Some kv -> score nd = kv.1 -> ele nd = Some kv.2 -> go nd (t + zlen mid) = false) ->
  exists st' z', delete_while fuel st z update (head (mid ++ rest)) go t = Some (st', z', kmid.*2) /\ rep st' z' (l1 ++ rest) (k1 ++ krest).
Proof.
  revert st z mid kmid t. induction fuel as [|fuel IH]; intros st z mid kmid t Hr Hl1 Hlm Hlen Hup Hf Ht Htl Hgo Hstop; [lia|]. cbn [delete_while].
  pose proof (rep_zlen _ _ _ _ Hr) as Hlk. rewrite !length_app in Hlk. destruct mid as [|x mid], kmid as [|kv kmid]; try (cbn in Hlm; lia); cbn [app] in *.
  - destruct rest as [|x rest], krest as [|kv krest]; try (cbn in Hlk; lia); [by exists st, z|]. cbn [head].
    destruct (rep_node _ _ _ _ (length l1) x Hr) as (nd & kv' & Hkv & -> & H1 & H2 & _); [by apply list_lookup_middle|]. rewrite Hl1, list_lookup_middle in Hkv by done. injection Hkv as <-.
    simpl_bind. change (zlen []) with 0 in Hstop. rewrite <- (Z.add_0_r t). rewrite (Hstop kv nd) by done. by exists st, z.
  - cbn [head]. assert ((l1 ++ x :: mid ++ rest) !! length l1 = Some x) as Hx by (by apply list_lookup_middle).
    assert ((k1 ++ kv :: kmid ++ krest) !! length l1 = Some kv) as Hkv by (rewrite Hl1; by apply list_lookup_middle).
    destruct (rep_node _ _ _ _ _ _ Hr Hx) as (nd & kv' & Hkv' & Hnd & H1 & H2 & _). rewrite Hkv in Hkv'. injection Hkv' as <-. rewrite Hnd. simpl_bind.
    assert (go nd t = true) as -> by (rewrite <- (Z.add_0_r t); by apply (Hgo 0%nat kv nd)). assert ((header z :: l1 ++ x :: mid ++ rest) !! S (length l1) = Some x) as Hx' by done.
    destruct (rep_next _ _ _ _ _ _ Hr Hx') as (l & Hl & Hfwd). unfold get_level in Hl. rewrite Hnd in Hl. simpl_bind in Hl. rewrite Hl. simpl_bind.
    assert (take (length l1) (l1 ++ x :: mid ++ rest) = l1) as Ht1 by (by rewrite take_app_length). assert (take (length l1) (k1 ++ kv :: kmid ++ krest) = k1) as Ht2 by (by rewrite Hl1, take_app_length).
    destruct (zslDeleteNode_ok st z (l1 ++ x :: mid ++ rest) (k1 ++ kv :: kmid ++ krest) (length l1) x kv update uf Df) as (st1 & z1 & -> & Hr1 & Hh & Hup1 & Hno & _); try done; [by rewrite Ht1|].
    rewrite Ht1, ?Ht2 in *. assert (forall A (a b : list A) c, drop (S (length a)) (a ++ c :: b) = b) as Hd by (intros A a b c; rewrite drop_app_ge by lia; by replace (S (length a) - length a)%nat with 1%nat by lia).
    rewrite Hd in Hr1, Hno. rewrite Hl1, Hd in Hr1. simpl_bind. rewrite H2. simpl_bind. rewrite Hfwd. replace ((l1 ++ x :: mid ++ rest) !! S (length l1)) with (head (mid ++ rest)).
    2:{ rewrite head_lookup, (lookup_app_r l1) by lia. by replace (S (length l1) - length l1)%nat with 1%nat by lia. }
    rewrite zlen_app, !zlen_cons in *. pose proof (zlen_nonneg mid). rewrite uwrap_small by lia.
    destruct (IH (zslFreeNode st1 x) z1 mid kmid (t + 1)) as (st' & z' & -> & Hr'); try done.
    + apply rep_free; [done | by rewrite Hh].
    + cbn in Hlm. lia.
    + rewrite zlen_app. lia.
    + rewrite Hh. apply zslFreeNode_ok; [|done]. intros Hin. apply Hno. rewrite app_comm_cons. apply elem_of_app. by left.
    + cbn in Hf. lia.
    + lia.
    + lia.
    + intros i kv' nd' Hi Hs He. replace (t + 1 + Z.of_nat i) with (t + Z.of_nat (S i)) by lia. by apply (Hgo (S i) kv').
    + intros kv' nd' Hi Hs He. replace (t + 1 + zlen mid) with (t + (1 + zlen mid)) by lia. by apply (Hstop kv').
    + simpl_bind. by exists st', z'.
Qed.

(** The same after a search up to position [r], with [m] nodes to remove. *)
Lemma delete_range_ok st z xs kvs r m update (ranks : list Z) (go : zskiplistNode Sc -> Z -> bool) t :
  rep st z xs kvs -> zlen xs < 2 ^ 64 -> (r + m <= length xs)%nat ->
  (forall j, (j < level z)%nat -> exists y q, update !! j = Some y /\ ranks !! j = Some (Z.of_nat q) /\ is_last st (header z :: xs) j r q y) ->
  0 <= t -> t + Z.of_nat m < 2 ^ 64 ->
  (forall i kv nd, kvs !! i = Some kv -> (r <= i < r + m)%nat -> score nd = kv.1 -> ele nd = Some kv.2 -> go nd (t + Z.of_nat (i - r)) = true) ->
  (forall kv nd, kvs !! (r + m)%nat = Some kv -> score nd = kv.1 -> ele nd = Some kv.2 -> go nd (t + Z.of_nat m) = false) ->
  exists st' z', delete_while (zsl_fuel st) st z update (xs !! r) go t = Some (st', z', (take m (drop r kvs)).*2) /\
    rep st' z' (take r xs ++ drop (r + m) xs) (take r kvs ++ drop (r + m) kvs).
Proof.
  intros Hr Hlen Hm Hall Ht Htl Hgo Hstop. pose proof (rep_zlen _ _ _ _ Hr) as Hlk. pose proof (rep_fuel _ _ _ _ Hr) as Hfuel.
  destruct (search_update st z xs r update ranks ltac:(lia) Hall) as (uf & Df & Hup).
  assert (forall A (l : list A), l = take r l ++ take m (drop r l) ++ drop (r + m) l) as Hsplit by (intros A l; rewrite <- drop_drop, take_drop, take_drop; done).
  assert (zlen (take m (drop r xs)) = Z.of_nat m) as Hzm by (unfold zlen; rewrite length_take, length_drop; lia).
  destruct (delete_while_ok (zsl_fuel st) st z (take r xs) (take m (drop r xs)) (drop (r + m) xs) (take r kvs) (take m (drop r kvs)) (drop (r + m) kvs) update uf Df go t) as (st' & z' & He & Hr');
    rewrite <- ?Hsplit; try done.
  - rewrite !length_take. lia.
  - rewrite !length_take, !length_drop. lia.
  - rewrite length_take. lia.
  - by rewrite Hzm.
  - intros i kv nd Hi Hs He. apply lookup_take_Some in Hi as [Hi Hlt]. rewrite lookup_drop in Hi. replace i with (r + i - r)%nat by lia. apply (Hgo _ kv); [done | lia | done | done].
  - intros kv nd Hi Hs He. rewrite head_lookup, lookup_drop, Nat.add_0_r in Hi. rewrite Hzm. by apply (Hstop kv).
  - exists st', z'. split; [|done]. rewrite <- He. f_equal. rewrite <- drop_drop, take_drop, head_lookup, lookup_drop. by rewrite Nat.add_0_r.
Qed.

Lemma filter_prefixes (P : Sc * list Z -> bool) kvs r m : (forall i kv, kvs !! i = Some kv -> P kv = bool_decide (r <= i < r + m)%nat) ->
  filter (fun kv => P kv = true) kvs = take m (drop r kvs) /\ filter (fun kv => P kv = false) kvs = take r kvs ++ drop (r + m) kvs.
Proof.
  intros HP. assert (kvs = take r kvs ++ take m (drop r kvs) ++ drop (r + m) kvs) as Hsplit by (rewrite <- drop_drop, take_drop, take_drop; done).
  assert (Forall (fun kv => P kv = false) (take r kvs)) as H1. { apply Forall_lookup. intros i kv Hi. apply lookup_take_Some in Hi as [Hi Hlt]. rewrite (HP _ _ Hi). apply bool_decide_false. lia. }
  assert (Forall (fun kv => P kv = true) (take m (drop r kvs))) as H2.
  { apply Forall_lookup. intros i kv Hi. apply lookup_take_Some in Hi as [Hi Hlt]. rewrite lookup_drop in Hi. rewrite (HP _ _ Hi). apply bool_decide_true. lia. }
  assert (Forall (fun kv => P kv = false) (drop (r + m) kvs)) as H3. { apply Forall_lookup. intros i kv Hi. rewrite lookup_drop in Hi. rewrite (HP _ _ Hi). apply bool_decide_false. lia. }
  rewrite Hsplit at 1 3. rewrite !filter_app. split.
  - rewrite (filter_none _ (take r kvs)), (filter_all _ (take m _)), (filter_none _ (drop _ _)), app_nil_r; [done|..]; try done; eapply Forall_impl; [exact H3| |exact H1|]; intros kv ->; done.
  - rewrite (filter_all _ (take r kvs)), (filter_none _ (take m _)), (filter_all _ (drop _ _)); [done|..]; try done. eapply Forall_impl; [exact H2|]. intros kv ->; done.
Qed.

(** Deletion of a range, for any condition on nodes. *)
Lemma delete_in_ok st z xs kvs gte lte gten lten : rep st z xs kvs -> zlen xs < 2 ^ 64 -> downward (fun kv => negb (gte kv)) kvs -> downward lte kvs ->
  (forall nd kv, score nd = kv.1 -> ele nd = Some kv.2 -> gten nd = gte kv) -> (forall nd kv, score nd = kv.1 -> ele nd = Some kv.2 -> lten nd = lte kv) ->
  exists st' z' xs', ('(update, _) ← search (zsl_fuel st) st (fun nd _ => negb (gten nd)) id (level z) (header z) 0; u0 ← update !! 0%nat; l ← get_level st u0 0;
      delete_while (zsl_fuel st) st z update (forward l) (fun nd _ => lten nd) 0) = Some (st', z', (filter (fun kv => within gte lte kv = true) kvs).*2) /\
    rep st' z' xs' (filter (fun kv => within gte lte kv = false) kvs).
Proof.
  intros Hr Hlen Hgd Hld Hgn Hln. pose proof (rep_zlen _ _ _ _ Hr) as Hlk. destruct (prefix_index_down _ _ Hgd) as (r & Hrl & Hmin). destruct (prefix_index_down _ _ Hld) as (s & Hsl & Hmax).
  destruct (search_header st z xs kvs Hr (fun nd _ => negb (gten nd)) id r ltac:(lia)) as (update & ranks & -> & _ & _ & Hall & u0 & Hu0 & _ & Ha); [done|..].
  { intros q a nd Hq Hnd. destruct (range_node st z xs kvs Hr gte lte gten lten Hgn Hln q a nd Hq Hnd) as (kv & Hkv & -> & _). by apply Hmin. }
  simpl_bind. rewrite Hu0. simpl_bind. destruct (rep_next _ _ _ _ _ _ Hr Ha) as (l & -> & Hfwd). simpl_bind. rewrite Hfwd.
  destruct (filter_prefixes (within gte lte) kvs r (s - r)) as [-> ->].
  { intros i kv Hi. unfold within. specialize (Hmin i kv Hi). specialize (Hmax i kv Hi). cbn beta in *. rewrite Hmax. apply (f_equal negb) in Hmin. rewrite negb_involutive in Hmin. rewrite Hmin.
    apply eq_true_iff_eq. rewrite andb_true_iff, negb_true_iff, bool_decide_eq_false, !bool_decide_eq_true. lia. }
  unfold zlen in Hlen. destruct (delete_range_ok st z xs kvs r (s - r) update ranks (fun nd _ => lten nd) 0 Hr) as (st' & z' & -> & Hr'); try done; try lia; [..|by eexists _, _, _].
  - intros i kv nd Hi Hrm Hsc He. rewrite (Hln nd kv Hsc He), (Hmax i kv Hi). apply bool_decide_true. lia.
  - intros kv nd Hi Hsc He. rewrite (Hln nd kv Hsc He), (Hmax _ kv Hi). apply bool_decide_false. lia.
Qed.

Lemma zslDeleteRangeByScore_ok st z xs kvs range : rep st z xs kvs -> sorted kvs -> zlen xs < 2 ^ 64 ->
  exists st' z' xs', zslDeleteRangeByScore st z range = Some (st', z', (filter (fun kv => in_range range kv = true) kvs).*2) /\
    rep st' z' xs' (filter (fun kv => in_range range kv = false) kvs).
Proof.
  intros Hr Hs Hlen. destruct (score_range_down kvs Hs range) as [Hg Hl].
  apply (delete_in_ok st z xs kvs (fun kv => zslValueGteMin kv.1 range) (fun kv => zslValueLteMax kv.1 range) (fun nd => zslValueGteMin (score nd) range) (fun nd => zslValueLteMax (score nd) range)); try done; by intros nd kv ->.
Qed.

Lemma zslDeleteRangeByLex_ok st z xs kvs range : rep st z xs kvs -> sorted kvs -> zlen xs < 2 ^ 64 -> (forall i j a b, kvs !! i = Some a -> kvs !! j = Some b -> score_eq a.1 b.1 = true) ->
  exists st' z' xs', zslDeleteRangeByLex st z range = Some (st', z', (filter (fun kv => in_lex_range range kv = true) kvs).*2) /\
    rep st' z' xs' (filter (fun kv => in_lex_range range kv = false) kvs).
Proof.
  intros Hr Hs Hlen Hsame. destruct (lex_range_down kvs Hs Hsame range) as [Hg Hl].
  apply (delete_in_ok st z xs kvs (fun kv => zslLexValueGteMin kv.2 range) (fun kv => zslLexValueLteMax kv.2 range) (node_gte range) (node_lte range)); try done; unfold node_gte, node_lte; by intros nd kv _ ->.
Qed.

Lemma zslDeleteRangeByRank_ok st z xs kvs start end_ : rep st z xs kvs -> zlen xs + 1 < 2 ^ 64 -> 1 <= start -> 0 <= end_ ->
  let r := Z.to_nat (start - 1) in let m := (Z.to_nat end_ - r)%nat in
  exists st' z' xs', zslDeleteRangeByRank st z start end_ = Some (st', z', (take m (drop r kvs)).*2) /\ rep st' z' xs' (take r kvs ++ drop (r + m) kvs).
Proof.
  intros Hr Hlen Hst Hend r m. pose proof (rep_zlen _ _ _ _ Hr) as Hlk. unfold zlen in Hlen. set (r' := Nat.min r (length xs)).
  unfold zslDeleteRangeByRank. assert (forall q : nat, (q <= length xs)%nat -> u64 (Z.of_nat q) = Z.of_nat q) as Hw by (intros; apply uwrap_small; lia).
  destruct (search_header st z xs kvs Hr (fun _ t => u64 t <? start) (uwrap 64) r' ltac:(lia) Hw) as (update & ranks & -> & _ & _ & Hall & u0 & Hu0 & Hrk0 & Ha).
  { intros q a nd Hq _. apply lookup_lt_Some in Hq. rewrite Hw by lia. apply eq_true_iff_eq. rewrite Z.ltb_lt, bool_decide_eq_true. lia. }
  simpl_bind. rewrite Hu0, Hrk0. simpl_bind. destruct (rep_next _ _ _ _ _ _ Hr Ha) as (l & -> & Hfwd). simpl_bind. rewrite Hfwd. rewrite uwrap_small by lia.
  set (m' := Nat.min m (length xs - r')).
  destruct (delete_range_ok st z xs kvs r' m' update ranks (fun _ t => t <=? end_) (Z.of_nat r' + 1) Hr) as (st' & z' & -> & Hr'); try done; try (unfold zlen; lia).
  - intros i kv nd Hi Hrm _ _. apply Z.leb_le. lia.
  - intros kv nd Hi _ _. apply lookup_lt_Some in Hi. apply Z.leb_gt. lia.
  - eexists _, _, _. split; [|].
    + do 3 f_equal. destruct (decide (r <= length xs)%nat) as [Hle|Hgt].
      * assert (r' = r) as -> by lia. destruct (decide (m <= length xs - r)%nat) as [|]; [by assert (m' = m) as -> by lia|]. rewrite !(take_ge (drop r kvs)) by (rewrite length_drop; lia). done.
      * rewrite !drop_ge by lia. by rewrite !take_nil.
    + assert (take r kvs = take r' kvs) as ->. { destruct (decide (r <= length xs)%nat); [by assert (r' = r) as -> by lia|]. by rewrite !take_ge by lia. }
      assert (drop (r + m) kvs = drop (r' + m') kvs) as ->; [|exact Hr']. destruct (decide (r + m <= length xs)%nat); [by assert (r' + m' = r + m)%nat as -> by lia|]. by rewrite !drop_ge by lia.
Qed.

End delete_ok.
(** ** Changing a score *)

Section update_score.
Context {Sc : Type} `{ScoreOrder Sc}.
Implicit Types (st : store Sc) (z : zskiplist) (xs : list nat) (kvs : list (Sc * list Z)).

Lemma set_score_ok st z xs kvs r x kv s : rep st z xs kvs -> xs !! r = Some x -> kvs !! r = Some kv ->
  exists st', set_score st x s = Some st' /\ rep st' z xs (<[r := (s, kv.2)]> kvs).
Proof.
  intros Hr Hx Hkv. destruct (rep_node _ _ _ _ _ _ Hr Hx) as (nd & kv' & Hkv' & Hnd & H1 & H2 & _). rewrite Hkv in Hkv'. injection Hkv' as <-. unfold set_score. rewrite Hnd. simpl_bind.
  eexists. split; [done|]. set (st' := <[x := _]> st). pose proof (rep_nodup _ _ _ _ Hr) as Hnodup. apply NoDup_cons in Hnodup as [Hno Hnodup].
  assert (forall a, a <> x -> shape st' !! a = shape st !! a) as Hsame by (intros a Ha; unfold st', shape; by rewrite fmap_insert, lookup_insert_ne).
  assert (shape st' !! x = Some (ele nd, s, backward nd, length (levels nd))) as Hsx by (unfold st', shape; by rewrite fmap_insert, lookup_insert_eq).
  assert (forall a, ht st' a = ht st a) as Hht. { intros a. rewrite !ht_shape. destruct (decide (a = x)) as [->|]; [by rewrite Hsx, (shape_node _ _ _ Hnd) | by rewrite Hsame]. }
  assert (forall a i, get_level st' a i = get_level st a i) as Hget.
  { intros a i. unfold get_level, st'. destruct (decide (a = x)) as [->|]; [by rewrite lookup_insert_eq, Hnd | by rewrite lookup_insert_ne]. }
  apply rep_intro; try apply Hr.
  - rewrite Hsame; [by apply (rep_shape_header _ _ _ _ Hr)|]. intros He. apply Hno. rewrite He. by eapply list_elem_of_lookup_2.
  - rewrite length_insert. by eapply rep_zlen.
  - intros p a kvp Hp Hkvp. destruct (decide (p = r)) as [->|Hne].
    + rewrite list_lookup_insert_eq in Hkvp by (by eapply lookup_lt_Some). injection Hkvp as <-. rewrite Hx in Hp. injection Hp as <-. destruct (rep_shape_node _ _ _ _ _ _ _ Hr Hx Hkv) as (n & Hs & Hn).
      exists n. split; [|done]. rewrite (shape_node _ _ _ Hnd) in Hs. injection Hs as He _ Hb Hl. rewrite Hsx. cbn. by rewrite He, Hb, Hl.
    + rewrite list_lookup_insert_ne in Hkvp by done. rewrite Hsame; [by apply (rep_shape_node _ _ _ _ _ _ _ Hr)|]. intros ->. by apply Hne, (NoDup_lookup _ _ _ _ Hnodup Hp).
  - intros P a Q i HA Hi Hl. rewrite Hget. rewrite Hht in Hi. rewrite (rep_at _ _ _ _ _ _ _ _ Hr HA Hi Hl). f_equal. apply next_in_ext. intros; by rewrite Hht.
  - intros i Hi. rewrite Hget. by apply (rep_high _ _ _ _ Hr).
Qed.

Lemma before_lt (a b : Sc * list Z) : score_lt a.1 b.1 = true -> before a b = true.
Proof. unfold before. by intros ->. Qed.

(** A score between those of the neighbours keeps the order. *)
Lemma sorted_between k1 k2 kv (a : Sc * list Z) : sorted (k1 ++ kv :: k2) -> (forall b, last k1 = Some b -> score_lt b.1 a.1 = true) -> (forall b, head k2 = Some b -> score_lt a.1 b.1 = true) ->
  sorted (k1 ++ a :: k2).
Proof.
  unfold sorted. rewrite !StronglySorted_app, !StronglySorted_cons. intros (Hb & H1 & Hkv & H2) Hlast Hhead. split_and!; try done.
  - intros u v Hu [->|Hv]%elem_of_cons; [|apply Hb; [done | by right]]. destruct (last k1) as [t|] eqn:Hl; [|apply last_None in Hl as ->; by apply elem_of_nil in Hu].
    apply last_Some in Hl as [k0 ->]. apply elem_of_app in Hu as [Hu| ->%list_elem_of_singleton]; [|by apply before_lt, Hlast]. apply before_lt. eapply score_le_lt_trans; [|by apply Hlast].
    apply before_le. apply (StronglySorted_app_1_elem_of _ _ _ u t H1 Hu). by left.
  - apply Forall_forall. intros v Hv. destruct k2 as [|t k2]; [by apply elem_of_nil in Hv|]. apply before_lt. apply elem_of_cons in Hv as [->|Hv]; [by apply Hhead|].
    eapply score_lt_le_trans; [by apply Hhead|]. apply before_le. apply StronglySorted_cons in H2 as [H2 _]. rewrite Forall_forall in H2. by apply H2.
Qed.

Lemma zslUpdateScore_ok st z xs kvs cur e new lvl a r kv : rep st z xs kvs -> sorted kvs -> unique_eles kvs -> (1 <= lvl <= ZSKIPLIST_MAXLEVEL)%nat -> st !! a = None -> zlen xs < 2 ^ 32 ->
  kvs !! r = Some kv -> same_key kv (cur, e) = true ->
  exists st' z' x xs' kvs' q, zslUpdateScore st z cur e new lvl a = Some (st', z', x) /\ rep st' z' xs' kvs' /\ sorted kvs' /\
    kvs' ≡ₚ (new, e) :: take r kvs ++ drop (S r) kvs /\ xs' !! q = Some x /\ kvs' !! q = Some (new, e).
Proof.
  intros Hr Hs Huniq Hlvl Ha Hlen Hkv Hsame. unfold zslUpdateScore. pose proof (rep_zlen _ _ _ _ Hr) as Hlk.
  destruct (search_before st z xs kvs cur e id Hr Hs) as (r' & update & ranks & Hrl & Hpre & -> & _ & _ & Hall & u0 & Hu0 & _ & Hpos); [done|]. simpl_bind. rewrite Hu0. simpl_bind.
  pose proof (find_key _ _ _ Hs Hpre _ _ Hkv Hsame) as <-. destruct (rep_next _ _ _ _ _ _ Hr Hpos) as (l & -> & Hfwd). simpl_bind.
  destruct (lookup_lt_is_Some_2 xs r) as [x Hx]; [apply lookup_lt_Some in Hkv; lia|]. rewrite Hfwd, Hx. simpl_bind.
  destruct (rep_node _ _ _ _ _ _ Hr Hx) as (nd & kv' & Hkv' & Hnd & H1 & H2 & Hh). rewrite Hkv in Hkv'. injection Hkv' as <-. rewrite Hnd. simpl_bind. rewrite H2. simpl_bind. rewrite H1.
  replace (score_eq cur kv.1 && (sdscmp kv.2 e =? 0)) with (same_key kv (cur, e)) by (unfold same_key; cbn; by rewrite (score_eq_sym kv.1)). rewrite Hsame. cbn [negb].
  assert (kv.2 = e) as He. { apply andb_true_iff in Hsame as [_ He]. rewrite Z.eqb_eq, sdscmp_lex, lexcmp_eq in He. done. }
  rewrite (rep_back _ _ _ _ Hr r x nd Hx Hnd). fold (prev xs r).
  assert (exists b, match prev xs r with None => Some true | Some b => bn ← st !! b; Some (score_lt (score bn) new) end = Some b /\ (b = true -> forall kv', last (take r kvs) = Some kv' -> score_lt kv'.1 new = true)) as (back_ok & -> & Hback).
  { destruct r as [|q]; [by exists true|]. cbn [prev]. destruct (lookup_lt_is_Some_2 xs q) as [b Hb]; [apply lookup_lt_Some in Hx; lia|]. rewrite Hb.
    destruct (rep_node _ _ _ _ _ _ Hr Hb) as (bn & kvb & Hkvb & -> & Hb1 & _). simpl_bind. eexists. split; [done|]. intros Ht kv' Hl. rewrite (take_S_r _ _ _ Hkvb), last_snoc in Hl. injection Hl as <-. by rewrite <- Hb1. }
  simpl_bind. assert ((header z :: xs) !! S r = Some x) as Hx' by done. destruct (rep_next _ _ _ _ _ _ Hr Hx') as (lx & Hlx & Hfx). unfold get_level in Hlx. rewrite Hnd in Hlx. simpl_bind in Hlx. rewrite Hlx. simpl_bind.
  rewrite Hfx. assert (exists b, match xs !! S r with None => Some true | Some f => fn ← st !! f; Some (score_lt new (score fn)) end = Some b /\ (b = true -> forall kv', head (drop (S r) kvs) = Some kv' -> score_lt new kv'.1 = true)) as (next_ok & -> & Hnext).
  { destruct (xs !! S r) as [f|] eqn:Hf.
    - destruct (rep_node _ _ _ _ _ _ Hr Hf) as (fn & kvf & Hkvf & -> & Hf1 & _). simpl_bind. eexists. split; [done|]. intros Ht kv' Hl. rewrite head_lookup, lookup_drop, Nat.add_0_r, Hkvf in Hl. injection Hl as <-. by rewrite <- Hf1.
    - exists true. split; [done|]. intros _ kv' Hl. rewrite head_lookup, lookup_drop, Nat.add_0_r in Hl. apply lookup_lt_Some in Hl. apply lookup_ge_None in Hf. lia. }
  simpl_bind. pose proof (take_drop_middle _ _ _ Hkv) as Hkvs. destruct (back_ok && next_ok) eqn:Hok.
  - apply andb_true_iff in Hok as [-> ->]. destruct (set_score_ok _ _ _ _ _ _ _ new Hr Hx Hkv) as (st' & -> & Hr'). simpl_bind. rewrite He in Hr'.
    pose proof (lookup_lt_Some _ _ _ Hkv) as Hlt. rewrite insert_take_drop in Hr' by done. eexists st', z, x, xs, _, r. split; [done|]. split; [exact Hr'|]. split_and!; [|by rewrite <- Permutation_middle|done|].
    + rewrite <- Hkvs in Hs. apply (sorted_between _ _ kv); [done | by apply Hback | by apply Hnext].
    + apply list_lookup_middle. rewrite length_take. lia.
  - destruct (search_update st z xs r update ranks Hrl Hall) as (uf & Df & Hup).
    destruct (zslDeleteNode_ok _ _ _ _ _ _ _ _ _ _ Hr ltac:(lia) Hx Hkv Hup) as (st1 & z1 & -> & Hr1 & Hh1 & _ & Hno & Hdom). simpl_bind.
    assert (sorted (take r kvs ++ drop (S r) kvs)) as Hs1.
    { rewrite <- Hkvs in Hs. unfold sorted in *. rewrite StronglySorted_app, StronglySorted_cons in Hs. apply StronglySorted_app. destruct Hs as (Hb & ? & _ & ?). split_and!; try done. intros u v Hu Hv. apply Hb; [done | by right]. }
    assert (zlen (take r xs ++ drop (S r) xs) + 1 = zlen xs) as Hlx1. { apply lookup_lt_Some in Hx. unfold zlen. rewrite length_app, length_take, length_drop. lia. }
    destruct (zslInsert_ok st1 z1 _ _ new kv.2 lvl a Hr1 Hs1 Hlvl) as (st2 & z2 & q & -> & Hr2 & Hh2 & Hk1 & Hk2); [by apply Hdom | lia|]. simpl_bind. rewrite He in *.
    pose proof (rep_zlen _ _ _ _ Hr1) as Hlk1. set (xs1 := take r xs ++ drop (S r) xs) in *. set (kvs1 := take r kvs ++ drop (S r) kvs) in *.
    exists (zslFreeNode st2 x), z2, a, (take q xs1 ++ a :: drop q xs1), (take q kvs1 ++ (new, e) :: drop q kvs1), (length (take q xs1)). split; [done|]. split_and!.
    + apply rep_free; [done|]. rewrite Hh2, Hh1, app_comm_cons, <- Permutation_middle, <- app_comm_cons, take_drop. intros [->|Hin]%elem_of_cons; [congruence | done].
    + apply sorted_insert; rewrite ?take_drop; try done. apply Forall_forall. intros kv' Hin. apply not_true_iff_false. intros [_ Hc]%andb_true_iff.
      rewrite Z.eqb_eq, sdscmp_lex, lexcmp_eq in Hc. cbn in Hc. unfold unique_eles in Huniq. rewrite <- Hkvs, <- Permutation_middle, fmap_cons in Huniq. apply NoDup_cons in Huniq as [Hnot _]. apply Hnot.
      rewrite He, <- Hc. apply list_elem_of_fmap. exists kv'. split; [done|]. rewrite <- (take_drop q). apply elem_of_app. by right.
    + rewrite <- Permutation_middle, take_drop. done.
    + by apply list_lookup_middle.
    + apply list_lookup_middle. rewrite !length_take. lia.
Qed.

End update_score.
(** ** The skip list as a sorted list *)

Section refinement.
Context {Sc : Type} `{ScoreOrder Sc}.
Implicit Types (st : store Sc) (z : zskiplist) (xs : list nat) (kvs : list (Sc * list Z)).

Lemma zslCreate_ok (zero : Sc) h : rep (zslCreate zero h).1 (zslCreate zero h).2 [] [].
Proof.
  assert (shape (zslCreate zero h).1 !! h = Some (None, zero, None, ZSKIPLIST_MAXLEVEL)) as Hsh by (cbn; unfold shape; by rewrite map_fmap_singleton, lookup_singleton_eq).
  assert (forall i, (i < ZSKIPLIST_MAXLEVEL)%nat -> get_level (zslCreate zero h).1 h i = Some (ZLevel None 0)) as Hget.
  { intros i Hi. unfold get_level. cbn [fst zslCreate]. rewrite lookup_singleton_eq. by apply (lookup_replicate_2 ZSKIPLIST_MAXLEVEL (ZLevel None 0)). }
  apply rep_intro; cbn [header tail zlength level zslCreate snd]; try done.
  - apply NoDup_singleton.
  - unfold ZSKIPLIST_MAXLEVEL. lia.
  - by exists zero, None.
  - intros [|p P] a Q i HA Hi Hl; [injection HA as <- <- | destruct P; discriminate]. cbn [next_in]. apply Hget. unfold ZSKIPLIST_MAXLEVEL. lia.
  - intros i Hi. exists (ZLevel None 0). split; [apply Hget; lia | done].
Qed.

(** zslInsert() at a known position *)
Lemma zslInsert_at st z xs k1 k2 sc e lvl x : rep st z xs (k1 ++ k2) -> sorted (k1 ++ k2) -> (1 <= lvl <= ZSKIPLIST_MAXLEVEL)%nat -> st !! x = None -> zlen xs + 1 < 2 ^ 32 ->
  Forall (fun kv => before kv (sc, e) = true) k1 -> Forall (fun kv => before kv (sc, e) = false) k2 ->
  exists st' z', zslInsert st z sc e lvl x = Some (st', z') /\ rep st' z' (take (length k1) xs ++ x :: drop (length k1) xs) (k1 ++ (sc, e) :: k2).
Proof.
  intros Hr Hs Hlvl Hx Hlen H1 H2. destruct (zslInsert_ok st z xs _ sc e lvl x Hr Hs Hlvl Hx Hlen) as (st' & z' & r & He & Hr' & _ & H3 & H4). exists st', z'. split; [done|].
  enough (r = length k1 \/ (length (k1 ++ k2) <= r)%nat /\ k2 = []) as [->|[Hge ->]].
  - by rewrite take_app_length, drop_app_length in Hr'.
  - rewrite app_nil_r in *. pose proof (rep_zlen _ _ _ _ Hr) as Hl. rewrite (take_ge k1), (drop_ge k1) in Hr' by lia. rewrite (take_ge xs), (drop_ge xs) in Hr' by lia. by rewrite take_ge, drop_ge by lia.
  - destruct (decide (r < length k1)%nat) as [Hlt|Hge].
    + destruct (lookup_lt_is_Some_2 k1 r Hlt) as [kv Hkv]. rewrite Forall_lookup in H1, H4. specialize (H1 _ _ Hkv). rewrite (H4 0%nat kv) in H1; [done|].
      rewrite lookup_drop, Nat.add_0_r. by apply lookup_app_l_Some.
    + destruct (decide (r = length k1)) as [|Hne]; [by left|]. right. destruct k2 as [|kv k2]; [split; [rewrite app_nil_r; lia | done]|]. exfalso. apply Forall_cons in H2 as [H2 _].
      rewrite Forall_lookup in H3. rewrite (H3 (length k1) kv) in H2; [done|]. rewrite lookup_take_lt by lia. by apply list_lookup_middle.
Qed.

(** C9. zslInsert() of an element that is not present never fails and keeps the skip list well formed: the
    links and spans of all levels, the backward links, the tail, the length and the order; the elements are
    the old ones and the new one.  The level comes from zslRandomLevel(), whatever random() returns; the number
    of elements is limited by the type of the array rank in zslInsert(). *)
Theorem zslInsert_correct st z xs kvs sc e draws lvl x : rep st z xs kvs -> sorted kvs -> Forall (fun kv => same_key kv (sc, e) = false) kvs ->
  zslRandomLevel draws = Some lvl -> st !! x = None -> zlen xs + 1 < 2 ^ 32 ->
  exists st' z' xs' kvs', zslInsert st z sc e lvl x = Some (st', z') /\ rep st' z' xs' kvs' /\ sorted kvs' /\ kvs' ≡ₚ (sc, e) :: kvs /\ xs' ≡ₚ x :: xs.
Proof.
  intros Hr Hs Hno Hlvl%zslRandomLevel_range Hx Hlen. destruct (zslInsert_ok st z xs kvs sc e lvl x Hr Hs Hlvl Hx Hlen) as (st' & z' & r & He & Hr' & _ & H1 & H2).
  eexists st', z', _, _. split; [done|]. split; [exact Hr'|]. split_and!; [|by rewrite <- Permutation_middle, take_drop..].
  apply sorted_insert; rewrite ?take_drop; try done. by apply Forall_drop.
Qed.

(** C10. zslDelete() removes the element with the given score and name and frees its node, and reports whether
    there was one; it never fails, and the structure stays a skip list of the remaining elements. *)
Theorem zslDelete_correct st z xs kvs sc e : rep st z xs kvs -> sorted kvs -> zlen xs < 2 ^ 64 ->
  exists st' z' xs', zslDelete st z sc e = Some (st', z', existsb (fun kv => same_key kv (sc, e)) kvs) /\ rep st' z' xs' (filter (fun kv => same_key kv (sc, e) = false) kvs).
Proof. apply zslDelete_ok. Qed.

(** zslUpdateScore() of an element that is present never fails, in place or by deletion and insertion: the
    element gets the new score, the others keep theirs, the list is sorted, and the node that is returned holds
    the element. *)
Theorem zslUpdateScore_correct st z xs kvs cur e new draws lvl a r kv : rep st z xs kvs -> sorted kvs -> unique_eles kvs -> zslRandomLevel draws = Some lvl -> st !! a = None -> zlen xs < 2 ^ 32 ->
  kvs !! r = Some kv -> same_key kv (cur, e) = true ->
  exists st' z' x xs' kvs' q, zslUpdateScore st z cur e new lvl a = Some (st', z', x) /\ rep st' z' xs' kvs' /\ sorted kvs' /\
    kvs' ≡ₚ (new, e) :: take r kvs ++ drop (S r) kvs /\ xs' !! q = Some x /\ kvs' !! q = Some (new, e).
Proof. intros Hr Hs Hu Hlvl%zslRandomLevel_range. by apply zslUpdateScore_ok. Qed.

(** Deletion of ranges: zslDeleteRangeByScore() removes exactly the elements whose score is in the range,
    zslDeleteRangeByRank() the elements from rank [start] to rank [end_]; both report the removed elements in
    order and leave a skip list of the others, although they look for the position only once. *)
Theorem zslDeleteRange_correct st z xs kvs range start end_ : rep st z xs kvs -> sorted kvs -> zlen xs + 1 < 2 ^ 64 -> 1 <= start -> start - 1 <= end_ ->
  (exists st' z' xs', zslDeleteRangeByScore st z range = Some (st', z', (filter (fun kv => in_range range kv = true) kvs).*2) /\ rep st' z' xs' (filter (fun kv => in_range range kv = false) kvs)) /\
  (exists st' z' xs', zslDeleteRangeByRank st z start end_ = Some (st', z', (take (Z.to_nat (end_ - start + 1)) (drop (Z.to_nat (start - 1)) kvs)).*2) /\
     rep st' z' xs' (take (Z.to_nat (start - 1)) kvs ++ drop (Z.to_nat end_) kvs)).
Proof.
  intros Hr Hs Hlen Hst Hend. split; [apply (zslDeleteRangeByScore_ok _ _ _ _ _ Hr Hs); lia|].
  destruct (zslDeleteRangeByRank_ok st z xs kvs start end_ Hr Hlen Hst ltac:(lia)) as (st' & z' & xs' & He & Hr'). exists st', z', xs'.
  replace (Z.to_nat (end_ - start + 1)) with (Z.to_nat end_ - Z.to_nat (start - 1))%nat by lia. split; [done|].
  by replace (Z.to_nat (start - 1) + (Z.to_nat end_ - Z.to_nat (start - 1)))%nat with (Z.to_nat end_) in Hr' by lia.
Qed.

(** C11. Ranks, which are computed from the spans: zslGetElementByRank() finds the node of a rank from 1, and NULL
    after the last; zslGetRank() is its inverse on the elements that are present and returns 0 for an element
    that is not. *)
Theorem zslRank_correct st z xs kvs : rep st z xs kvs -> sorted kvs -> unique_eles kvs -> zlen xs < 2 ^ 64 ->
  (forall rank, 1 <= rank -> zslGetElementByRank st z rank = Some (xs !! Z.to_nat (rank - 1))) /\
  (forall k kv sc e, kvs !! k = Some kv -> same_key kv (sc, e) = true -> zslGetRank st z sc e = Some (Z.of_nat k + 1)) /\
  (forall sc e, e ∉ kvs.*2 -> zslGetRank st z sc e = Some 0).
Proof.
  intros Hr Hs Hu Hlen. split_and!.
  - intros rank Hrank. rewrite (zslGetElementByRank_ok st z xs kvs) by (done || lia). f_equal. replace (Z.to_nat rank) with (S (Z.to_nat (rank - 1))) by lia. done.
  - intros k kv sc e Hk Hsame. destruct (zslGetRank_ok st z xs kvs sc e Hr Hs Hu Hlen) as [Hp _]. rewrite (Hp k kv Hk Hsame). f_equal. lia.
  - intros sc e He. by apply (zslGetRank_ok st z xs kvs sc e Hr Hs Hu Hlen).
Qed.

(** zslFirstInRange() and zslLastInRange() find the first and the last node whose score is in the range, and
    NULL exactly when there is none; their assertions hold, for empty ranges too.  When all elements have the same
    score, the functions on ranges of strings find the first and the last element of the range and delete
    exactly its elements. *)
Theorem zslRange_correct st z xs kvs : rep st z xs kvs -> sorted kvs -> zlen xs < 2 ^ 64 ->
  (forall range, (exists o, zslFirstInRange st z range = Some o /\ first_of xs kvs (in_range range) o) /\ (exists o, zslLastInRange st z range = Some o /\ last_of xs kvs (in_range range) o)) /\
  ((forall i j a b, kvs !! i = Some a -> kvs !! j = Some b -> score_eq a.1 b.1 = true) -> forall range,
     (exists o, zslFirstInLexRange st z range = Some o /\ first_of xs kvs (in_lex_range range) o) /\ (exists o, zslLastInLexRange st z range = Some o /\ last_of xs kvs (in_lex_range range) o) /\
     (exists st' z' xs', zslDeleteRangeByLex st z range = Some (st', z', (filter (fun kv => in_lex_range range kv = true) kvs).*2) /\ rep st' z' xs' (filter (fun kv => in_lex_range range kv = false) kvs))).
Proof.
  intros Hr Hs Hlen. split; [intros range; exact (zslInRange_ok st z xs kvs Hr Hs range)|]. intros Hsame range.
  destruct (zslInLexRange_ok st z xs kvs Hr Hs Hsame range) as [H1 H2]. split_and!; [done | done | by eapply zslDeleteRangeByLex_ok].
Qed.

End refinement.

(** ** A concrete list *)

Definition sample : list (Z * list Z) := [(1, str "a"); (2, str "b"); (2, str "c")].

Lemma sample_sorted : sorted sample.
Proof. repeat constructor. Qed.

Lemma sample_unique : unique_eles sample.
Proof. vm_compute. repeat constructor; rewrite ?elem_of_cons, ?elem_of_nil; naive_solver. Qed.

(** Three insertions in another order, with nodes of 1, 3 and 2 levels. *)
Lemma sample_ok : exists st z, rep st z [2%nat; 1%nat; 3%nat] sample /\ st !! 9%nat = None.
Proof.
  pose proof (zslCreate_ok (0 : Z) 0) as H0. assert (forall n : nat, (1 <= n <= 3)%nat -> (1 <= n <= ZSKIPLIST_MAXLEVEL)%nat) as Hn by (unfold ZSKIPLIST_MAXLEVEL; lia).
  destruct (zslInsert_at _ _ [] [] [] 2 (str "b") 1 1 H0) as (s1 & z1 & E1 & H1); [constructor | by apply Hn; lia | done | done | constructor | constructor|].
  vm_compute in E1. injection E1 as <- <-.
  destruct (zslInsert_at _ _ [1%nat] [] [(2, str "b")] 1 (str "a") 3 2 H1) as (s2 & z2 & E2 & H2); [repeat constructor | by apply Hn; lia | done | done | constructor | by repeat constructor|].
  vm_compute in E2. injection E2 as <- <-.
  destruct (zslInsert_at _ _ [2%nat; 1%nat] [(1, str "a"); (2, str "b")] [] 2 (str "c") 2 3 H2) as (s3 & z3 & E3 & H3); [repeat constructor | by apply Hn; lia | done | done | by repeat constructor | constructor|].
  vm_compute in E3. injection E3 as <- <-. eexists _, _. split; [exact H3 | done].
Qed.

Lemma zslInsert_correct_witness : exists (st : store Z) (z : zskiplist) xs, rep st z xs sample /\
  exists st' z' xs' kvs', zslInsert st z 2 (str "bb") 1 9 = Some (st', z') /\ rep st' z' xs' kvs' /\ sorted kvs' /\ kvs' ≡ₚ (2, str "bb") :: sample /\ xs' ≡ₚ 9%nat :: xs.
Proof.
  destruct sample_ok as (st & z & Hr & Hx). exists st, z, [2%nat; 1%nat; 3%nat]. split; [exact Hr|].
  apply (zslInsert_correct st z [2%nat; 1%nat; 3%nat] sample 2 (str "bb") [65535] 1 9 Hr sample_sorted); [by repeat constructor | done | exact Hx | done].
Defined.

Lemma zslDelete_correct_witness : exists (st : store Z) (z : zskiplist) xs, rep st z xs sample /\
  exists st' z' xs', zslDelete st z 2 (str "b") = Some (st', z', true) /\ rep st' z' xs' [(1, str "a"); (2, str "c")].
Proof.
  destruct sample_ok as (st & z & Hr & Hx). exists st, z, [2%nat; 1%nat; 3%nat]. split; [exact Hr|].
  exact (zslDelete_correct st z [2%nat; 1%nat; 3%nat] sample 2 (str "b") Hr sample_sorted ltac:(done)).
Defined.

Lemma zslUpdateScore_correct_witness : exists (st : store Z) (z : zskiplist) xs, rep st z xs sample /\
  exists st' z' x xs' kvs' q, zslUpdateScore st z 1 (str "a") 7 1 9 = Some (st', z', x) /\ rep st' z' xs' kvs' /\ sorted kvs' /\
    kvs' ≡ₚ [(7, str "a"); (2, str "b"); (2, str "c")] /\ xs' !! q = Some x /\ kvs' !! q = Some (7, str "a").
Proof.
  destruct sample_ok as (st & z & Hr & Hx). exists st, z, [2%nat; 1%nat; 3%nat]. split; [exact Hr|].
  exact (zslUpdateScore_correct st z [2%nat; 1%nat; 3%nat] sample 1 (str "a") 7 [65535] 1 9 0 (1, str "a") Hr sample_sorted sample_unique eq_refl Hx ltac:(done) eq_refl eq_refl).
Defined.

Lemma zslDeleteRange_correct_witness : exists (st : store Z) (z : zskiplist) xs, rep st z xs sample /\
  (exists st' z' xs', zslDeleteRangeByScore st z (ZRange 2 5 false true) = Some (st', z', [str "b"; str "c"]) /\ rep st' z' xs' [(1, str "a")]) /\
  (exists st' z' xs', zslDeleteRangeByRank st z 2 2 = Some (st', z', [str "b"]) /\ rep st' z' xs' [(1, str "a"); (2, str "c")]).
Proof.
  destruct sample_ok as (st & z & Hr & Hx). exists st, z, [2%nat; 1%nat; 3%nat]. split; [exact Hr|].
  exact (zslDeleteRange_correct st z [2%nat; 1%nat; 3%nat] sample (ZRange 2 5 false true) 2 2 Hr sample_sorted ltac:(done) ltac:(lia) ltac:(lia)).
Defined.

Lemma zslRank_correct_witness : exists (st : store Z) (z : zskiplist), rep st z [2%nat; 1%nat; 3%nat] sample /\
  zslGetElementByRank st z 3 = Some (Some 3%nat) /\ zslGetRank st z 2 (str "c") = Some 3 /\ zslGetRank st z 1 (str "d") = Some 0.
Proof.
  destruct sample_ok as (st & z & Hr & Hx). exists st, z. split; [exact Hr|].
  destruct (zslRank_correct st z [2%nat; 1%nat; 3%nat] sample Hr sample_sorted sample_unique ltac:(done)) as (H1 & H2 & H3). split_and!.
  - rewrite H1 by lia. reflexivity.
  - exact (H2 2%nat (2, str "c") 2 (str "c") eq_refl eq_refl).
  - apply H3, (bool_decide_unpack _). vm_compute. exact I.
Defined.

Lemma zslRange_correct_witness : exists (st : store Z) (z : zskiplist) xs, rep st z xs [(2, str "b")] /\
  (exists o, zslFirstInRange st z (ZRange 1 2 true false) = Some o /\ first_of xs [(2, str "b")] (in_range (ZRange 1 2 true false)) o) /\
  (exists st' z' xs', zslDeleteRangeByLex st z (ZLexRange (lexstr (str "a")) maxstring false true) = Some (st', z', [str "b"]) /\ rep st' z' xs' []).
Proof.
  pose proof (zslCreate_ok (0 : Z) 0) as H0.
  destruct (zslInsert_at _ _ [] [] [] 2 (str "b") 1 1 H0) as (st & z & _ & Hr); [constructor | unfold ZSKIPLIST_MAXLEVEL; lia | done | done | constructor | constructor|].
  exists st, z, [1%nat]. split; [exact Hr|]. destruct (zslRange_correct st z [1%nat] [(2, str "b")] Hr) as [H1 H2]; [by repeat constructor | done|]. split.
  - exact (proj1 (H1 (ZRange 1 2 true false))).
  - refine (proj2 (proj2 (H2 _ (ZLexRange (lexstr (str "a")) maxstring false true)))). intros i j a b Ha Hb. destruct i as [|i], j as [|j]; [|done..]. injection Ha as <-. by injection Hb as <-.
Defined.
