(* ===== verification/Aof.v ===== *)
(** * Aof: the append only file (src/redis-stable/src/aof.c)

    How executed commands are written to the append only file and how the file is loaded at start-up, also when
    its end is missing after a crash.  The file is its bytes; a read never fails but for the end of the file.
    The data set, the table of commands, the RDB loader for the preamble of a file, and the effect of the
    procedures on the data set are parameters; MULTI, EXEC and the queue of the loading client are modelled. *)
From S2P Require Import Prelude.
From S2P Require Import Util.
From S2P Require Import Sds.
From S2P Require Import Networking.

(** ** Writing *)

(** buf[0] = ch; ll2string(buf+1,sizeof(buf)-1,n); "\r\n": the buffer and what is appended to the string *)
Definition cat_len_line (buf : list Z) (ch n : Z) : option (list Z * list Z) :=
  buf ← store8 buf 0 ch;
  '(tl, m) ← ll2string (drop 1 buf) (zlen buf - 1) n;
  let buf := take 1 buf ++ tl in
  let len := 1 + m in
  buf ← store8 buf len CR;
  buf ← store8 buf (len + 1) LF;
  out ← mem_load buf 0 (len + 2);
  Some (buf, out).

Fixpoint cat_args (buf dst : list Z) (argv : list (list Z)) : option (list Z) :=
  match argv with
  | [] => Some dst
  | o :: argv =>
      '(buf, out) ← cat_len_line buf (chr "$") (zlen o);
      cat_args buf (dst ++ out ++ o ++ [CR; LF]) argv
  end.

(** The strings are the decoded objects; [buf] is the uninitialized local array. *)
Definition catAppendOnlyGenericCommand (buf dst : list Z) (argv : list (list Z)) : option (list Z) :=
  '(buf, out) ← cat_len_line buf (chr "*") (zlen argv);
  cat_args buf (dst ++ out) argv.

(** strtol() and strtoll() in base 10 of a string that ends with a zero byte or the buffer *)
Definition is_space (c : Z) : bool := (c =? 32) || ((9 <=? c) && (c <=? 13)).

Fixpoint skip_spaces (s : list Z) : list Z := match s with c :: s' => if is_space c then skip_spaces s' else s | [] => [] end.

Fixpoint strtol_digits (s : list Z) (v : Z) : Z := match s with c :: s => if is_digit c then strtol_digits s (v * 10 + (c - chr "0")) else v | [] => v end.

Definition strtol (s : list Z) : Z :=
  match skip_spaces s with
  | [] => 0
  | c :: s' =>
      if c =? chr "-" then Z.max LLONG_MIN (- strtol_digits s' 0)
      else if c =? chr "+" then Z.min LLONG_MAX (strtol_digits s' 0)
      else Z.min LLONG_MAX (strtol_digits (c :: s') 0)
  end.

(** atoi() is (int) strtol() *)
Definition atoi (s : list Z) : Z := s32 (strtol s).

(** The procedures that feedAppendOnlyFile() distinguishes. *)
Inductive aof_proc := expireCommand | pexpireCommand | expireatCommand | setexCommand | psetexCommand | setCommand | otherProc.
#[export] Instance aof_proc_eq_dec : EqDecision aof_proc.
Proof. solve_decision. Defined.

(** A signed result that does not fit is undefined behaviour. *)
Definition ll_fit (z : Z) : option Z := if bool_decide (is_ll z) then Some z else None.

Definition catAppendOnlyExpireAtCommand (mstime : Z) (buf dst : list Z) (proc : aof_proc) (key seconds : list Z) : option (list Z) :=
  let when := strtol seconds in
  when ← (if bool_decide (proc = expireCommand \/ proc = setexCommand \/ proc = expireatCommand) then ll_fit (when * 1000) else Some when);
  when ← (if bool_decide (proc = expireCommand \/ proc = pexpireCommand \/ proc = setexCommand \/ proc = psetexCommand) then ll_fit (when + mstime) else Some when);
  catAppendOnlyGenericCommand buf dst [str "PEXPIREAT"; key; ll2string_out when].

Record aof_server := AofServer { aof_selected_db : Z; aof_on : bool; aof_child : bool; aof_buf : list Z; aof_rewrite_buf : list Z }.

Definition to_lower (c : Z) : Z := if (65 <=? c) && (c <=? 90) then c + 32 else c.
(** What a buffer holds as a C string. *)
Fixpoint c_string (buf : list Z) : list Z := match buf with [] => [] | c :: buf => if c =? 0 then [] else c :: c_string buf end.

(** !strcasecmp() *)
Definition strcaseeq (s t : list Z) : bool := bool_decide ((to_lower <$> c_string s) = (to_lower <$> c_string t)).

(** [mstime] is the clock; an argument vector that is too short would be read out of bounds. *)
Definition feedAppendOnlyFile (mstime : Z) (buf : list Z) (sv : aof_server) (proc : aof_proc) (dictid : Z) (argv : list (list Z)) : option aof_server :=
  let '(dst, sel) :=
    if bool_decide (dictid = aof_selected_db sv) then ([], aof_selected_db sv)
    else
      let seldb := ll2string_out dictid in
      (str "*2" ++ [CR; LF] ++ str "$6" ++ [CR; LF] ++ str "SELECT" ++ [CR; LF] ++ str "$" ++ ll2string_out (zlen seldb) ++ [CR; LF] ++ seldb ++ [CR; LF], dictid) in
  out ← (if bool_decide (proc = expireCommand \/ proc = pexpireCommand \/ proc = expireatCommand) then
           key ← argv !! 1%nat; seconds ← argv !! 2%nat;
           catAppendOnlyExpireAtCommand mstime buf dst proc key seconds
         else if bool_decide (proc = setCommand) && (3 <? zlen argv) then
           a3 ← argv !! 3%nat;
           if strcaseeq a3 (str "px") then
             a0 ← argv !! 0%nat; a1 ← argv !! 1%nat; a2 ← argv !! 2%nat; a4 ← argv !! 4%nat;
             when ← ll_fit (strtol a4 + mstime);
             catAppendOnlyGenericCommand buf dst [a0; a1; a2; str "PXAT"; ll2string_out when]
           else catAppendOnlyGenericCommand buf dst argv
         else catAppendOnlyGenericCommand buf dst argv);
  Some (AofServer sel (aof_on sv) (aof_child sv)
    (if aof_on sv then aof_buf sv ++ out else aof_buf sv)
    (if aof_child sv then aof_rewrite_buf sv ++ out else aof_rewrite_buf sv)).

(** ** Loading *)

(** fgets(buf,n+1,fp): the bytes, an empty list for NULL, what is left, and whether the end of the file was met *)
Fixpoint fgets (n : nat) (rest : list Z) : list Z * list Z * bool :=
  match n with
  | O => ([], rest, false)
  | S n =>
      match rest with
      | [] => ([], [], true)
      | c :: rest =>
          if c =? LF then ([c], rest, false)
          else let '(line, rest, eof) := fgets n rest in (c :: line, rest, eof)
      end
  end.

(** fread(p,len,1,fp): the bytes, [None] for a short read, which is at the end of the file *)
Definition fread1 (len : Z) (rest : list Z) : option (list Z * list Z) :=
  if len <=? zlen rest then Some (take (Z.to_nat len) rest, drop (Z.to_nat len) rest) else None.

Section load.
Context {Db Cmd : Type}.
(** lookupCommand(), the tests of the loader on a command and the effect of its procedure on the data set *)
Context (lookupCommand : list Z -> option Cmd) (is_multi is_exec : Cmd -> bool) (proc : Cmd -> list (list Z) -> Db -> Db).
(** rdbLoadRio() on the file: the data set and the rest, or an error, with the end of file flag *)
Context (rdbLoadRio : list Z -> (Db * list Z) + bool).
(** aof-load-truncated, whether truncate() and lseek() succeed, and what the allocator can serve *)
Context (aof_load_truncated truncate_ok : bool) (mem_limit : Z).

(** The fake client: in a transaction when there is a queue. *)
Record fakeClient := Fake { fdb : Db; queue : option (list (Cmd * list (list Z))) }.

(** A call of the procedure outside of a queue; MULTI inside of a transaction only replies an error. *)
Definition call_proc (db : Db) (q : Cmd * list (list Z)) : Db := if is_multi q.1 then db else proc q.1 q.2 db.

(** The execution of a command: queueMultiCommand(), multiCommand(), execCommand() and the other procedures. *)
Definition run_command (f : fakeClient) (cmd : Cmd) (argv : list (list Z)) : fakeClient :=
  match queue f with
  | Some q => if is_exec cmd then Fake (foldl call_proc (fdb f) q) None else Fake (fdb f) (Some (q ++ [(cmd, argv)]))
  | None => if is_exec cmd then f else if is_multi cmd then Fake (fdb f) (Some []) else Fake (proc cmd argv (fdb f)) None
  end.

(** How the reading of a command ends, besides a full command: [readerr] with the end of file flag, [fmterr], or no memory *)
Inductive read_error := readerr (eof : bool) | fmterr | no_memory.

(** for (j = 0; j < argc; j++) *)
Fixpoint read_args (argc : nat) (rest : list Z) (eof : bool) : (list (list Z) * list Z * bool) + read_error :=
  match argc with
  | O => inl ([], rest, eof)
  | S argc =>
      let '(buf, rest, e) := fgets 127 rest in
      let eof := eof || e in
      match buf with
      | [] => inr (readerr eof)
      | c :: buf =>
          if negb (c =? chr "$") then inr fmterr
          else
            let len := u64 (strtol (c_string buf)) in
            if mem_limit <? len then inr no_memory
            else
              match (if len =? 0 then Some ([], rest) else fread1 len rest) with
              | None => inr (readerr true)
              | Some (arg, rest) =>
                  match fread1 2 rest with
                  | None => inr (readerr true)
                  | Some (_, rest) =>
                      match read_args argc rest eof with
                      | inl (args, rest, eof) => inl (arg :: args, rest, eof)
                      | inr e => inr e
                      end
                  end
              end
      end
  end.

(** What loadAppendOnlyFile() does: C_OK with the data set and the file, C_ERR, or the end of the process. *)
Inductive load_result := load_ok (db : Db) (file : list Z) | load_empty | load_exit | load_abort.

Definition uxeof (file : list Z) (f : fakeClient) (valid_up_to : Z) : load_result :=
  if aof_load_truncated && truncate_ok then load_ok (fdb f) (take (Z.to_nat valid_up_to) file) else load_exit.

Fixpoint load_loop (fuel : nat) (file : list Z) (f : fakeClient) (rest : list Z) (eof : bool) (valid_up_to valid_before_multi : Z) : option load_result :=
  match fuel with
  | O => None
  | S fuel =>
      let '(buf, rest, e) := fgets 127 rest in
      let eof := eof || e in
      match buf with
      | [] => Some (match queue f with Some _ => uxeof file f valid_before_multi | None => load_ok (fdb f) file end)
      | c :: buf =>
          if negb (c =? chr "*") then Some load_exit
          else if bool_decide (c_string buf = []) then Some (if eof then uxeof file f valid_up_to else load_exit)
          else
            let argc := atoi (c_string buf) in
            if argc <? 1 then Some load_exit
            else if mem_limit <? 8 * argc then Some load_abort
            else
              match read_args (Z.to_nat argc) rest eof with
              | inr (readerr eof) => Some (if eof then uxeof file f valid_up_to else load_exit)
              | inr fmterr => Some load_exit
              | inr no_memory => Some load_abort
              | inl (argv, rest, eof) =>
                  match lookupCommand (hd [] argv) with
                  | None => Some load_exit
                  | Some cmd =>
                      let valid_before_multi := if is_multi cmd then valid_up_to else valid_before_multi in
                      let f := run_command f cmd argv in
                      let valid_up_to := if aof_load_truncated then zlen file - zlen rest else valid_up_to in
                      load_loop fuel file f rest eof valid_up_to valid_before_multi
                  end
              end
      end
  end.

(** The client starts with an empty data set [db0]. *)
Definition loadAppendOnlyFile (db0 : Db) (file : list Z) : option load_result :=
  if bool_decide (file = []) then Some load_empty
  else if negb (bool_decide (take 5 file = str "REDIS")) then load_loop (S (length file)) file (Fake db0 None) file false 0 0
  else
    match rdbLoadRio file with
    | inr eof => Some (if eof then uxeof file (Fake db0 None) 0 else load_exit)
    | inl (db, rest) => load_loop (S (length file)) file (Fake db None) rest false 0 0
    end.

End load.

(** ** Numbers in the file *)

Lemma nonneg_digits n : 0 <= n < 2 ^ 62 -> exists d, ll2string_out n = d /\ d <> [] /\ Forall is_digit d /\ digits_value d = n /\ zlen d <= 20 /\
  (1 <= n -> exists c d', d = c :: d' /\ chr "1" <= c).
Proof.
  intros Hn. exists (ll2string_out n). destruct (digits_plain n Hn) as [_ Hlen]. pose proof (ll2string_out_canonical n (is_ll_len n Hn)) as Hcan. split; [done|].
  remember (ll2string_out n) as d eqn:Hd. clear Hd. destruct Hcan as [|c d Hc Hd|c d Hc Hd].
  - split_and!; [done | by repeat constructor | done | done | lia].
  - split_and!; [done | | done | done | intros _; exists c, d; split; [done | lia]]. constructor; [|done]. apply is_digit_spec. change (chr "1") with 49 in Hc. change (chr "9") with 57 in Hc. lia.
  - exfalso. pose proof (digits_value_cons c d Hd) as Hv. pose proof (digits_value_range d Hd) as Hr. change (chr "1") with 49 in Hc.
    assert (0 < 10 ^ zlen d) by (apply Z.pow_pos_nonneg; [lia | apply zlen_nonneg]). nia.
Qed.

Lemma strtol_digits_app d t v : Forall is_digit d -> (forall c t', t = c :: t' -> is_digit c = false) -> strtol_digits (d ++ t) v = fold_left (fun v c => v * 10 + (c - chr "0")) d v.
Proof.
  intros Hd Ht. revert v. induction Hd as [|c d Hc _ IH]; intros v; cbn [app strtol_digits fold_left].
  - destruct t as [|c t]; [done|]. cbn [strtol_digits]. by rewrite (Ht c t eq_refl).
  - destruct (is_digit c); [apply IH | done].
Qed.

(** strtol() of digits that end somewhere *)
Lemma strtol_number d t : d <> [] -> Forall is_digit d -> (forall c t', t = c :: t' -> is_digit c = false) -> digits_value d <= LLONG_MAX -> strtol (d ++ t) = digits_value d.
Proof.
  intros Hne Hd Ht Hv. destruct d as [|c d]; [done|]. unfold strtol. pose proof (Forall_inv Hd) as Hc. apply is_digit_spec in Hc. cbn [app skip_spaces].
  replace (is_space c) with false by (symmetry; unfold is_space; apply orb_false_iff; split; [apply Z.eqb_neq; lia | apply andb_false_iff; right; apply Z.leb_gt; lia]).
  change (chr "-") with 45. change (chr "+") with 43. rewrite (proj2 (Z.eqb_neq c 45)), (proj2 (Z.eqb_neq c 43)) by lia.
  change (c :: d ++ t) with ((c :: d) ++ t). rewrite strtol_digits_app by done. fold (digits_value (c :: d)). lia.
Qed.

(** ** Lines *)

Lemma fgets_line n l t : Forall (fun c => c <> LF) l -> (length l < n)%nat -> fgets n (l ++ LF :: t) = (l ++ [LF], t, false).
Proof.
  intros Hl. revert n. induction Hl as [|c l Hc _ IH]; intros [|n] Hn; cbn [length] in Hn; try lia; cbn [app fgets]; [done|].
  rewrite (proj2 (Z.eqb_neq c LF)) by done. by rewrite IH by lia.
Qed.

Lemma fgets_eof n l : Forall (fun c => c <> LF) l -> (length l < n)%nat -> fgets n l = (l, [], true).
Proof.
  intros Hl. revert n. induction Hl as [|c l Hc _ IH]; intros [|n] Hn; cbn [length] in Hn; try lia; cbn [fgets]; [done|].
  rewrite (proj2 (Z.eqb_neq c LF)) by done. by rewrite IH by lia.
Qed.

Lemma c_string_id l : Forall (fun c => c <> 0) l -> c_string l = l.
Proof. induction 1 as [|c l Hc _ IH]; [done|]. cbn [c_string]. by rewrite (proj2 (Z.eqb_neq c 0)), IH. Qed.

Lemma digits_no_special d : Forall is_digit d -> Forall (fun c => c <> LF /\ c <> 0) d.
Proof. intros Hd. eapply Forall_impl; [exact Hd|]. intros c Hc%is_digit_spec. unfold LF. lia. Qed.

Lemma cr_not_digit : forall (l : list Z) c t, CR :: l = c :: t -> is_digit c = false.
Proof. intros l c t [= <- _]. done. Qed.

(** What fgets() finds at a length line, and the number in it. *)
Lemma read_line ch n t : ch <> LF -> 0 <= n < 2 ^ 62 -> exists buf, fgets 127 (len_line ch n ++ t) = (ch :: buf, t, false) /\ c_string buf <> [] /\ strtol (c_string buf) = n.
Proof.
  intros Hch Hn. destruct (nonneg_digits n Hn) as (d & Hout & Hne & Hd & Hv & Hlen & _). pose proof (digits_no_special d Hd) as Hsp. exists (d ++ [CR; LF]).
  unfold len_line. rewrite Hout. split_and!.
  - replace ((ch :: d ++ [CR; LF]) ++ t) with ((ch :: d ++ [CR]) ++ LF :: t) by (cbn; by rewrite <- !app_assoc). rewrite fgets_line.
    + cbn. by rewrite <- app_assoc.
    + constructor; [done|]. apply Forall_app. split; [eapply Forall_impl; [exact Hsp | by intros c []] | by repeat constructor].
    + cbn [length]. rewrite length_app. unfold zlen in Hlen. cbn. lia.
  - rewrite c_string_id; [by destruct d|]. apply Forall_app. split; [eapply Forall_impl; [exact Hsp | by intros c []] | by repeat constructor].
  - rewrite c_string_id; [|apply Forall_app; split; [eapply Forall_impl; [exact Hsp | by intros c []] | by repeat constructor]].
    rewrite strtol_number; [done | done | done | apply cr_not_digit | rewrite Hv; unfold_limits; lia].
Qed.

(** A length line that is cut: nothing, or its first byte and a number that is not larger. *)
Lemma read_cut_line ch n p s : ch <> LF -> 0 <= n < 2 ^ 62 -> len_line ch n = p ++ s -> s <> [] ->
  p = [] \/ exists buf m, fgets 127 p = (ch :: buf, [], true) /\ strtol (c_string buf) = m /\ 0 <= m <= n /\ (1 <= n -> c_string buf <> [] -> 1 <= m).
Proof.
  intros Hch Hn He Hs. destruct p as [|c p]; [by left|right]. destruct (nonneg_digits n Hn) as (d & Hout & Hne & Hd & Hv & Hlen & Hfirst). unfold len_line in He. rewrite Hout in He. injection He as <- He.
  pose proof (digits_no_special d Hd) as Hsp.
  assert (exists d' t, p = d' ++ t /\ (exists d2, d = d' ++ d2) /\ (t = [] \/ t = [CR] /\ d' = d)) as (d' & t & -> & [d2 Hd2] & Ht).
  { replace (d ++ [CR; LF]) with ((d ++ [CR]) ++ [LF]) in He by (by rewrite <- app_assoc). apply app_eq_inv in He as [(k & Hk & ->)|(k & -> & Hk)].
    - apply app_eq_inv in Hk as [(k2 & -> & _)|(k2 & -> & Hk2)]; [exists p, []; rewrite app_nil_r; eauto|]. destruct k2 as [|c k2]; [exists d, []; split_and!; [done | exists []; by rewrite app_nil_r | by left]|].
      injection Hk2 as <- Hk2. destruct k2; [|done]. exists d, [CR]. split_and!; [done | exists []; by rewrite app_nil_r | by right].
    - destruct k as [|c k]; [|injection Hk as _ Hk; by destruct k, s]. rewrite app_nil_r. exists d, [CR]. split_and!; [done | exists []; by rewrite app_nil_r | by right]. }
  assert (Forall is_digit d') as Hd' by (rewrite Hd2 in Hd; by apply Forall_app in Hd as [? _]). pose proof (digits_no_special d' Hd') as Hsp'.
  assert (0 <= digits_value d' <= n) as Hle.
  { pose proof (digits_value_range d' Hd'). rewrite Hd2 in Hd, Hv. apply Forall_app in Hd as [_ Hdd]. rewrite digits_value_app in Hv by done. pose proof (digits_value_range d2 Hdd).
    assert (1 <= 10 ^ zlen d2) by (apply pow10_pos, zlen_nonneg). nia. }
  assert (Forall (fun c => c <> 0) (d' ++ t)) as Hnz by (apply Forall_app; split; [eapply Forall_impl; [exact Hsp' | by intros c []] | destruct Ht as [->|[-> _]]; by repeat constructor]).
  exists (d' ++ t), (digits_value d'). split_and!; try lia.
  - rewrite fgets_eof; [done| |].
    + constructor; [done|]. apply Forall_app. split; [eapply Forall_impl; [exact Hsp' | by intros c []] | destruct Ht as [->|[-> _]]; by repeat constructor].
    + assert (length d' <= length d)%nat by (rewrite Hd2, length_app; lia). unfold zlen in Hlen. cbn [length]. rewrite length_app. destruct Ht as [->|[-> _]]; cbn; lia.
  - rewrite c_string_id by done. destruct d' as [|c d']; [destruct Ht as [->|[_ <-]]; done|]. apply strtol_number; [done | done | | unfold_limits; lia].
    destruct Ht as [->|[-> _]]; [done | apply cr_not_digit].
  - intros Hn1. rewrite c_string_id by done. intros Hnn. destruct (Hfirst Hn1) as (c & d0 & Hd0 & Hc). destruct d' as [|c' d']; [destruct Ht as [->|[-> <-]]; done|].
    rewrite Hd0 in Hd2. injection Hd2 as -> _. apply Forall_cons in Hd' as [_ Hd'']. rewrite digits_value_cons by done. pose proof (digits_value_range d' Hd''). assert (1 <= 10 ^ zlen d') by (apply pow10_pos, zlen_nonneg).
    change (chr "1") with 49 in Hc. nia.
Qed.

(** ** Reading commands *)

Section load_proofs.
Context {Db Cmd : Type}.
Context (lookupCommand : list Z -> option Cmd) (is_multi is_exec : Cmd -> bool) (proc : Cmd -> list (list Z) -> Db -> Db).
Context (rdbLoadRio : list Z -> (Db * list Z) + bool) (aof_load_truncated truncate_ok : bool) (mem_limit : Z).

(** Arguments that fit in memory. *)
Definition arg_ok (a : list Z) : Prop := zlen a <= mem_limit /\ zlen a < 2 ^ 62.
Definition cmd_ok (argv : list (list Z)) : Prop := 1 <= zlen argv < 2 ^ 31 /\ 8 * zlen argv <= mem_limit /\ Forall arg_ok argv.

Lemma zlen_arg a : arg_ok a -> 0 <= zlen a < 2 ^ 62 /\ u64 (zlen a) = zlen a.
Proof. intros [_ Ha]. pose proof (zlen_nonneg a). split; [done|]. apply uwrap_small. lia. Qed.

Lemma read_args_bulk k a t eof : arg_ok a ->
  read_args mem_limit (S k) (bulk a ++ t) eof = match read_args mem_limit k t eof with inl (args, rest, eof) => inl (a :: args, rest, eof) | inr e => inr e end.
Proof.
  intros Ha. cbn [read_args]. unfold bulk. rewrite <- !app_assoc. destruct (zlen_arg a Ha) as [Hl Hu].
  destruct (read_line (chr "$") (zlen a) (a ++ [CR; LF] ++ t)) as (buf & -> & _ & ->); [done | done|]. rewrite orb_false_r, Z.eqb_refl. cbn [negb]. rewrite Hu.
  destruct Ha as [Hm _]. rewrite (proj2 (Z.ltb_ge _ _)) by done.
  assert ((if zlen a =? 0 then Some ([], a ++ [CR; LF] ++ t) else fread1 (zlen a) (a ++ [CR; LF] ++ t)) = Some (a, [CR; LF] ++ t)) as ->.
  { destruct (Z.eqb_spec (zlen a) 0) as [->%zlen_eq_nil|]; [done|]. unfold fread1. rewrite zlen_app. pose proof (zlen_nonneg ([CR; LF] ++ t)). rewrite (proj2 (Z.leb_le _ _)) by lia.
    unfold zlen. by rewrite Nat2Z.id, take_app_length, drop_app_length. }
  unfold fread1. rewrite zlen_app. change (zlen [CR; LF]) with 2. pose proof (zlen_nonneg t). rewrite (proj2 (Z.leb_le _ _)) by lia. done.
Qed.

Lemma bulks_cons a argv : bulks (a :: argv) = bulk a ++ bulks argv.
Proof. done. Qed.

Lemma read_args_full argv t eof : Forall arg_ok argv -> read_args mem_limit (length argv) (bulks argv ++ t) eof = inl (argv, t, eof).
Proof. induction 1 as [|a argv Ha _ IH]; [done|]. cbn [length]. rewrite bulks_cons, <- app_assoc, read_args_bulk by done. by rewrite IH. Qed.

Lemma fread1_short len rest : zlen rest < len -> fread1 len rest = None.
Proof. intros Hl. unfold fread1. by rewrite (proj2 (Z.leb_gt _ _)). Qed.

Lemma read_args_end k eof : read_args mem_limit (S k) [] eof = inr (readerr true).
Proof. cbn. by rewrite orb_true_r. Qed.

Lemma read_args_cut_bulk k a p s eof : arg_ok a -> bulk a = p ++ s -> s <> [] -> read_args mem_limit (S k) p eof = inr (readerr true).
Proof.
  intros Ha He Hs. destruct (zlen_arg a Ha) as [Hl Hu]. destruct Ha as [Hm _]. unfold bulk in He. apply app_eq_inv in He as [(q & Hq & ->)|(q & -> & Hq)].
  - destruct q as [|c q].
    + rewrite app_nil_r in Hq. subst p. destruct (read_line (chr "$") (zlen a) []) as (buf & Hf & _ & Hn); [done | done|]. rewrite app_nil_r in Hf. cbn [read_args]. rewrite Hf, Z.eqb_refl. cbn [negb]. rewrite Hn, Hu.
      rewrite (proj2 (Z.ltb_ge _ _)) by done. destruct (Z.eqb_spec (zlen a) 0); [done|]. by rewrite fread1_short by (change (zlen []) with 0; lia).
    + destruct (read_cut_line (chr "$") (zlen a) p (c :: q)) as [->|(buf & m & Hf & Hn & Hle & _)]; [done | done | done | done | apply read_args_end|]. cbn [read_args]. rewrite Hf, Z.eqb_refl. cbn [negb]. rewrite Hn.
      rewrite uwrap_small by lia. rewrite (proj2 (Z.ltb_ge _ _)) by lia. destruct (Z.eqb_spec m 0); [done|]. by rewrite fread1_short by (change (zlen []) with 0; lia).
  - destruct (read_line (chr "$") (zlen a) q) as (buf & Hf & _ & Hn); [done | done|]. cbn [read_args]. rewrite Hf, Z.eqb_refl. cbn [negb]. rewrite Hn, Hu. rewrite (proj2 (Z.ltb_ge _ _)) by done.
    assert (zlen q < zlen a + 2) as Hlq. { apply (f_equal zlen) in Hq. rewrite !zlen_app in Hq. change (zlen [CR; LF]) with 2 in Hq. destruct s as [|c s]; [done|]. rewrite zlen_cons in Hq. pose proof (zlen_nonneg s). lia. }
    destruct (Z.eqb_spec (zlen a) 0) as [Hz|Hz]; [by rewrite fread1_short by lia|]. unfold fread1 at 1. destruct (Z.leb_spec (zlen a) (zlen q)) as [Hge|]; [|done]. rewrite fread1_short; [done|].
    unfold zlen in *. rewrite length_drop. lia.
Qed.

Lemma read_args_cut argv p s eof : Forall arg_ok argv -> bulks argv = p ++ s -> s <> [] -> read_args mem_limit (length argv) p eof = inr (readerr true).
Proof.
  intros Hok He Hs. revert p He. induction Hok as [|a argv Ha Hok IH]; intros p He; [by destruct p, s|]. rewrite bulks_cons in He. cbn [length].
  assert ((exists c q, bulk a = p ++ c :: q) \/ exists q, p = bulk a ++ q /\ bulks argv = q ++ s) as [(c & q & Hq)|(q & -> & Hq)].
  { apply app_eq_inv in He as [(q & Hq & Hs')|(q & -> & Hq)]; [|right; by exists q]. destruct q as [|c q]; [right; exists []; rewrite app_nil_r in *; by subst | left; by exists c, q]. }
  - by apply (read_args_cut_bulk _ a p (c :: q)).
  - rewrite read_args_bulk by done. by rewrite IH.
Qed.

(** ** The loop *)

Abbreviation loop := (load_loop lookupCommand is_multi is_exec proc aof_load_truncated truncate_ok mem_limit).
Abbreviation run := (run_command is_multi is_exec proc).
Abbreviation at_eof := (uxeof aof_load_truncated truncate_ok).

Lemma load_step fuel file f argv cmd t eof vu vbm : cmd_ok argv -> lookupCommand (hd [] argv) = Some cmd ->
  loop (S fuel) file f (resp_command argv ++ t) eof vu vbm =
  loop fuel file (run f cmd argv) t eof (if aof_load_truncated then zlen file - zlen t else vu) (if is_multi cmd then vu else vbm).
Proof.
  intros (Hn & Hmem & Hok) Hcmd. cbn [load_loop]. unfold resp_command. rewrite <- app_assoc.
  destruct (read_line (chr "*") (zlen argv) (bulks argv ++ t)) as (buf & -> & Hne & Hnum); [done | lia|]. rewrite orb_false_r, Z.eqb_refl. cbn [negb]. rewrite bool_decide_false by done.
  unfold atoi. rewrite Hnum. rewrite swrap_small by (change (2 ^ (32 - 1)) with (2 ^ 31); lia). rewrite (proj2 (Z.ltb_ge (zlen argv) 1)), (proj2 (Z.ltb_ge mem_limit _)) by lia.
  unfold zlen at 1. rewrite Nat2Z.id, read_args_full by done. by rewrite Hcmd.
Qed.

(** A command that is cut. *)
Lemma load_cut fuel file f argv p s eof vu vbm : cmd_ok argv -> resp_command argv = p ++ s -> p <> [] -> s <> [] -> loop (S fuel) file f p eof vu vbm = Some (at_eof file f vu).
Proof.
  intros (Hn & Hmem & Hok) He Hp Hs. cbn [load_loop]. unfold resp_command in He.
  assert ((exists c q, len_line (chr "*") (zlen argv) = p ++ c :: q) \/ exists q, p = len_line (chr "*") (zlen argv) ++ q /\ bulks argv = q ++ s) as [(c & q & Hq)|(q & -> & Hq)].
  { apply app_eq_inv in He as [(q & Hq & Hs')|(q & -> & Hq)]; [|right; by exists q]. destruct q as [|c q]; [right; exists []; rewrite app_nil_r in *; by subst | left; by exists c, q]. }
  - destruct (read_cut_line (chr "*") (zlen argv) p (c :: q)) as [->|(buf & m & -> & Hm & Hle & Hpos)]; [done | lia | done | done | done|]. rewrite orb_true_r, Z.eqb_refl. cbn [negb].
    case_bool_decide as Hbuf; [done|]. specialize (Hpos ltac:(lia) Hbuf). unfold atoi. rewrite Hm. rewrite swrap_small by (change (2 ^ (32 - 1)) with (2 ^ 31); lia).
    rewrite (proj2 (Z.ltb_ge m 1)), (proj2 (Z.ltb_ge mem_limit _)) by lia. replace (Z.to_nat m) with (S (Z.to_nat (m - 1))) by lia. by rewrite read_args_end.
  - destruct (read_line (chr "*") (zlen argv) q) as (buf & -> & Hne & Hnum); [done | lia|]. rewrite orb_false_r, Z.eqb_refl. cbn [negb]. rewrite bool_decide_false by done.
    unfold atoi. rewrite Hnum. rewrite swrap_small by (change (2 ^ (32 - 1)) with (2 ^ 31); lia). rewrite (proj2 (Z.ltb_ge (zlen argv) 1)), (proj2 (Z.ltb_ge mem_limit _)) by lia.
    unfold zlen at 1. rewrite Nat2Z.id, (read_args_cut argv q s) by done. done.
Qed.


(** ** The commands of a file *)

Definition known (argv : list (list Z)) : Prop := is_Some (lookupCommand (hd [] argv)).

(** The effect of a command of the file. *)
Definition replay (f : fakeClient (Db := Db) (Cmd := Cmd)) (argv : list (list Z)) : fakeClient := match lookupCommand (hd [] argv) with Some cmd => run f cmd argv | None => f end.

Definition begins (argv : list (list Z)) : bool := match lookupCommand (hd [] argv) with Some cmd => is_multi cmd | None => false end.
Definition ends (argv : list (list Z)) : bool := match lookupCommand (hd [] argv) with Some cmd => is_exec cmd | None => false end.

(** The commands [acc ++ cmds] up to the last MULTI in [cmds], or else [best]. *)
Fixpoint before_multi (cmds acc best : list (list (list Z))) : list (list (list Z)) :=
  match cmds with
  | [] => best
  | a :: cmds => before_multi cmds (acc ++ [a]) (if begins a then acc else best)
  end.

(** What the loader takes for the valid part of a file with the preamble [pre]. *)
Definition valid_part (pre : list Z) (cmds : list (list (list Z))) : list Z := match cmds with [] => [] | _ => pre ++ (cmds ≫= resp_command) end.

Lemma resp_one argv : [argv] ≫= resp_command = resp_command argv.
Proof. apply app_nil_r. Qed.

Lemma resp_nonempty argv : resp_command argv <> [].
Proof. done. Qed.

Lemma load_full fuel file : forall cmds f eof vu vbm, Forall cmd_ok cmds -> Forall known cmds -> (length cmds < fuel)%nat -> queue (foldl replay f cmds) = None ->
  loop fuel file f (cmds ≫= resp_command) eof vu vbm = Some (load_ok (fdb (foldl replay f cmds)) file).
Proof.
  induction fuel as [|fuel IH]; intros cmds f eof vu vbm Hok Hk Hf Hq; [lia|]. destruct cmds as [|argv cmds].
  - cbn in Hq |- *. by rewrite Hq.
  - apply Forall_cons in Hok as [Ha Hok]. apply Forall_cons in Hk as [[cmd Hcmd] Hk]. rewrite bind_cons, (load_step _ _ _ _ cmd) by done. cbn [foldl] in Hq |- *. cbn [length] in Hf.
    assert (replay f argv = run f cmd argv) as Hrun by (unfold replay; by rewrite Hcmd). rewrite Hrun in *. apply IH; (done || lia).
Qed.

Lemma valid_part_snoc pre acc a : valid_part pre (acc ++ [a]) = pre ++ (acc ≫= resp_command) ++ resp_command a.
Proof. unfold valid_part. rewrite bind_app, resp_one. by destruct acc. Qed.

Lemma load_truncated fuel file pre c p s : aof_load_truncated = true -> cmd_ok c -> resp_command c = p ++ s -> s <> [] ->
  forall cmds f eof acc best, file = pre ++ (acc ≫= resp_command) ++ (cmds ≫= resp_command) ++ p -> Forall cmd_ok cmds -> Forall known cmds -> (length cmds < fuel)%nat ->
  loop fuel file f ((cmds ≫= resp_command) ++ p) eof (zlen (valid_part pre acc)) (zlen (valid_part pre best)) =
  Some (let f' := foldl replay f cmds in
        match p with
        | [] => match queue f' with None => load_ok (fdb f') file | Some _ => at_eof file f' (zlen (valid_part pre (before_multi cmds acc best))) end
        | _ => at_eof file f' (zlen (valid_part pre (acc ++ cmds)))
        end).
Proof.
  intros Htr Hc Hcut Hs. induction fuel as [|fuel IH]; intros cmds f eof acc best Hfile Hok Hk Hf; [lia|]. destruct cmds as [|argv cmds].
  - cbn [mbind list_bind app foldl before_multi]. rewrite app_nil_r. destruct p as [|b p]; [cbn; by destruct (queue f)|]. by rewrite (load_cut fuel file f c (b :: p) s) by done.
  - apply Forall_cons in Hok as [Ha Hok]. apply Forall_cons in Hk as [[cmd Hcmd] Hk]. rewrite bind_cons in *. rewrite <- app_assoc, (load_step _ _ _ _ cmd) by done. cbn [foldl length before_multi] in *.
    assert (replay f argv = run f cmd argv) as -> by (unfold replay; by rewrite Hcmd). assert (begins argv = is_multi cmd) as -> by (unfold begins; by rewrite Hcmd).
    replace (if aof_load_truncated then zlen file - zlen ((cmds ≫= resp_command) ++ p) else zlen (valid_part pre acc)) with (zlen (valid_part pre (acc ++ [argv])))
      by (rewrite Htr, valid_part_snoc, Hfile, !zlen_app; lia).
    replace (acc ++ argv :: cmds) with ((acc ++ [argv]) ++ cmds) by (by rewrite <- app_assoc).
    replace (if is_multi cmd then zlen (valid_part pre acc) else zlen (valid_part pre best)) with (zlen (valid_part pre (if is_multi cmd then acc else best))) by (by destruct (is_multi cmd)).
    apply IH; [|done|done|lia]. rewrite Hfile, bind_app, resp_one, <- !app_assoc. done.
Qed.

Lemma before_multi_prefix cmds : forall acc best, best `prefix_of` acc -> before_multi cmds acc best `prefix_of` acc ++ cmds.
Proof.
  induction cmds as [|a cmds IH]; intros acc best Hb; cbn [before_multi]; [by rewrite app_nil_r|]. replace (acc ++ a :: cmds) with ((acc ++ [a]) ++ cmds) by (by rewrite <- app_assoc).
  apply IH. destruct (begins a); [by apply prefix_app_r | by apply prefix_app_r].
Qed.

Lemma valid_part_take pre l cmds t : l `prefix_of` cmds -> take (Z.to_nat (zlen (valid_part pre l))) (pre ++ (cmds ≫= resp_command) ++ t) = valid_part pre l.
Proof.
  intros [k ->]. unfold valid_part. destruct l as [|a l]; [done|]. rewrite bind_app. unfold zlen. rewrite Nat2Z.id. rewrite <- app_assoc, (app_assoc pre). by rewrite take_app_length.
Qed.

(** The file that is left after a load. *)
Definition left_file (pre : list Z) (cmds : list (list (list Z))) (p : list Z) (f : fakeClient (Db := Db) (Cmd := Cmd)) : list Z :=
  match p, queue f with
  | [], None => pre ++ (cmds ≫= resp_command)
  | [], Some _ => valid_part pre (before_multi cmds [] [])
  | _, _ => valid_part pre cmds
  end.

(** How the loader starts: with the commands, or after an RDB preamble. *)
Definition starts_with (db0 : Db) (file pre rest : list Z) (db : Db) : Prop :=
  file <> [] /\ ((pre = [] /\ file = rest /\ db = db0 /\ take 5 file <> str "REDIS") \/ (take 5 file = str "REDIS" /\ rdbLoadRio file = inl (db, rest))).

Abbreviation load := (loadAppendOnlyFile lookupCommand is_multi is_exec proc rdbLoadRio aof_load_truncated truncate_ok mem_limit).

Lemma load_start db0 file pre rest db : starts_with db0 file pre rest db -> load db0 file = loop (S (length file)) file (Fake db None) rest false 0 0.
Proof.
  intros [Hne [(-> & <- & -> & Hsig)|[Hsig Hrdb]]]; unfold loadAppendOnlyFile; rewrite (bool_decide_false (file = [])) by done.
  - by rewrite bool_decide_false by done.
  - rewrite bool_decide_true by done. cbn [negb]. by rewrite Hrdb.
Qed.

Lemma cmds_length (cmds : list (list (list Z))) : (length cmds <= length (cmds ≫= resp_command))%nat.
Proof.
  induction cmds as [|a cmds IH]; [done|]. rewrite bind_cons, length_app. cbn [length]. assert (0 < length (resp_command a))%nat by (cbn; lia). lia.
Qed.

Lemma load_truncated_ok db0 pre cmds c p s db : aof_load_truncated = true -> truncate_ok = true -> starts_with db0 (pre ++ (cmds ≫= resp_command) ++ p) pre ((cmds ≫= resp_command) ++ p) db ->
  Forall cmd_ok cmds -> Forall known cmds -> cmd_ok c -> resp_command c = p ++ s -> s <> [] ->
  load db0 (pre ++ (cmds ≫= resp_command) ++ p) = Some (load_ok (fdb (foldl replay (Fake db None) cmds)) (left_file pre cmds p (foldl replay (Fake db None) cmds))).
Proof.
  intros Htr Hok' Hstart Hok Hk Hc Hcut Hs. rewrite (load_start _ _ _ _ _ Hstart).
  pose proof (load_truncated (S (length (pre ++ (cmds ≫= resp_command) ++ p))) (pre ++ (cmds ≫= resp_command) ++ p) pre c p s Htr Hc Hcut Hs cmds (Fake db None) false [] []) as Hl.
  cbn [mbind list_bind app valid_part] in Hl. change (zlen []) with 0 in Hl. rewrite Hl; [|done|done|done|]; clear Hl.
  2:{ pose proof (cmds_length cmds). rewrite !length_app. lia. }
  set (f' := foldl replay (Fake db None) cmds). unfold left_file, uxeof. rewrite Htr, Hok'. cbn [andb]. cbv zeta. f_equal. destruct p as [|b p].
  - destruct (queue f'); [f_equal; apply valid_part_take; by apply (before_multi_prefix cmds [] []) | by rewrite app_nil_r].
  - f_equal. by apply valid_part_take.
Qed.

End load_proofs.

(** ** Crashes *)

(** A log is made of commands and transactions. *)
Inductive log_unit := Single (argv : list (list Z)) | Txn (multi : list (list Z)) (body : list (list (list Z))) (exec : list (list Z)).

Definition unit_cmds (u : log_unit) : list (list (list Z)) := match u with Single argv => [argv] | Txn m body e => m :: body ++ [e] end.

Section crash.
Context {Db Cmd : Type}.
Context (lookupCommand : list Z -> option Cmd) (is_multi is_exec : Cmd -> bool) (proc : Cmd -> list (list Z) -> Db -> Db).
Context (rdbLoadRio : list Z -> (Db * list Z) + bool) (mem_limit : Z).

Abbreviation rp := (replay lookupCommand is_multi is_exec proc).
Abbreviation begins' := (begins lookupCommand is_multi).
Abbreviation ends' := (ends lookupCommand is_exec).

Definition plain_cmd (argv : list (list Z)) : Prop := begins' argv = false /\ ends' argv = false.

Definition unit_ok (u : log_unit) : Prop :=
  Forall (cmd_ok mem_limit) (unit_cmds u) /\ Forall (known lookupCommand) (unit_cmds u) /\
  match u with Single argv => plain_cmd argv | Txn m body e => begins' m = true /\ ends' m = false /\ Forall plain_cmd body /\ ends' e = true end.

(** What a command and a unit do to the data set. *)
Definition apply_cmd (db : Db) (argv : list (list Z)) : Db := match lookupCommand (hd [] argv) with Some cmd => proc cmd argv db | None => db end.
Definition apply_unit (db : Db) (u : log_unit) : Db := match u with Single argv => apply_cmd db argv | Txn _ body _ => foldl apply_cmd db body end.

Lemma replay_plain db argv : plain_cmd argv -> rp (Fake db None) argv = Fake (apply_cmd db argv) None.
Proof. unfold plain_cmd, begins, ends, replay, apply_cmd. destruct (lookupCommand (hd [] argv)) as [cmd|]; [|done]. intros [H1 H2]. unfold run_command. cbn [queue fdb]. by rewrite H2, H1. Qed.

(** The queue after the commands of a transaction. *)
Definition queued (body : list (list (list Z))) : list (Cmd * list (list Z)) := body ≫= fun argv => match lookupCommand (hd [] argv) with Some cmd => [(cmd, argv)] | None => [] end.

Lemma replay_queue db q body : Forall (fun a => ends' a = false) body -> foldl rp (Fake db (Some q)) body = Fake db (Some (q ++ queued body)).
Proof.
  intros Hb. revert q. induction Hb as [|a body Ha _ IH]; intros q; [cbn; by rewrite app_nil_r|]. cbn [foldl]. unfold queued. rewrite bind_cons. fold (queued body).
  assert (rp (Fake db (Some q)) a = Fake db (Some (q ++ match lookupCommand (hd [] a) with Some cmd => [(cmd, a)] | None => [] end))) as ->.
  { unfold ends in Ha. unfold replay, run_command. destruct (lookupCommand (hd [] a)) as [cmd|]; [cbn; by rewrite Ha | by rewrite app_nil_r]. }
  by rewrite IH, <- app_assoc.
Qed.

Lemma call_queued db body : Forall plain_cmd body -> foldl (call_proc is_multi proc) db (queued body) = foldl apply_cmd db body.
Proof.
  intros Hb. revert db. induction Hb as [|a body [Ha _] _ IH]; intros db; [done|]. unfold queued. rewrite bind_cons. fold (queued body). rewrite foldl_app, IH. cbn [foldl]. f_equal.
  unfold begins in Ha. unfold apply_cmd. destruct (lookupCommand (hd [] a)) as [cmd|]; [|done]. unfold call_proc. cbn. by rewrite Ha.
Qed.

Lemma replay_begin db m : begins' m = true -> ends' m = false -> rp (Fake db None) m = Fake db (Some []).
Proof. unfold begins, ends, replay, run_command. destruct (lookupCommand (hd [] m)) as [cmd|]; [|done]. intros H1 H2. cbn [queue fdb]. by rewrite H2, H1. Qed.

Lemma plain_ends body : Forall plain_cmd body -> Forall (fun a => ends' a = false) body.
Proof. intros Hb. eapply Forall_impl; [exact Hb|]. by intros a []. Qed.

Lemma replay_unit db u : unit_ok u -> foldl rp (Fake db None) (unit_cmds u) = Fake (apply_unit db u) None.
Proof.
  intros (_ & _ & Hu). destruct u as [argv|m body e]; cbn [unit_cmds apply_unit foldl]; [by apply replay_plain|]. destruct Hu as (Hm & Hme & Hb & He).
  rewrite replay_begin by done. rewrite foldl_app, (replay_queue db []) by (by apply plain_ends). cbn [foldl app]. unfold replay, ends in *.
  destruct (lookupCommand (hd [] e)) as [cmd|]; [|done]. unfold run_command. cbn [queue fdb]. rewrite He. by rewrite call_queued.
Qed.

Lemma replay_units db us : Forall unit_ok us -> foldl rp (Fake db None) (us ≫= unit_cmds) = Fake (foldl apply_unit db us) None.
Proof. intros Hu. revert db. induction Hu as [|u us Hu _ IH]; intros db; [done|]. rewrite bind_cons, foldl_app, replay_unit by done. apply IH. Qed.

(** A number of commands of a log: whole units, and the beginning of a transaction. *)
Lemma prefix_units us cmds : Forall unit_ok us -> cmds `prefix_of` us ≫= unit_cmds ->
  exists j rest, cmds = (take j us ≫= unit_cmds) ++ rest /\ (j <= length us)%nat /\
    (rest = [] \/ exists m body body' e, us !! j = Some (Txn m body e) /\ rest = m :: body' /\ body' `prefix_of` body).
Proof.
  intros Hok. revert cmds. induction Hok as [|u us Hu _ IH]; intros cmds Hp.
  - apply prefix_nil_inv in Hp as ->. exists 0%nat, []. split_and!; [done | done | by left].
  - rewrite bind_cons in Hp. destruct Hp as [k Hk]. apply app_eq_inv in Hk as [(q & Hq & Hk)|(q & -> & Hk)].
    + destruct q as [|c q].
      { rewrite app_nil_r in Hq. exists 1%nat, []. rewrite firstn_cons, bind_cons, app_nil_r. cbn. rewrite app_nil_r. split_and!; [by rewrite Hq | lia | by left]. }
      exists 0%nat. destruct cmds as [|a cmds]; [exists []; split_and!; [done | lia | by left]|]. exists (a :: cmds). split_and!; [done | lia|]. right. destruct u as [argv|m body e]; cbn [unit_cmds] in Hq.
      { injection Hq as _ Hq. by destruct cmds. }
      injection Hq as <- Hq. exists m, body, cmds, e. split_and!; [done | done|]. apply app_eq_inv in Hq as [(q' & -> & _)|(q' & -> & Hq')]; [by apply prefix_app_r|].
      destruct q' as [|d q']; [by rewrite app_nil_r|]. injection Hq' as _ Hq'. by destruct q'.
    + destruct (IH q) as (j & rest & -> & Hj & Hrest); [by exists k|]. exists (S j), rest. rewrite firstn_cons, bind_cons, <- app_assoc. cbn [length lookup list_lookup]. split_and!; [done | lia | done].
Qed.

(** Where a file is cut. *)
Lemma cut_log (cmds : list (list (list Z))) n : (n <= length (cmds ≫= resp_command))%nat ->
  exists done p, take n (cmds ≫= resp_command) = (done ≫= resp_command) ++ p /\ done `prefix_of` cmds /\
    (p = [] \/ exists c s, c ∈ cmds /\ resp_command c = p ++ s /\ s <> [] /\ done ++ [c] `prefix_of` cmds).
Proof.
  revert n. induction cmds as [|a cmds IH]; intros n Hn; [exists [], []; cbn; rewrite take_nil; split_and!; [done | done | by left]|]. rewrite bind_cons in *. rewrite length_app in Hn.
  destruct (decide (length (resp_command a) <= n)%nat) as [Hge|Hlt].
  - destruct (IH (n - length (resp_command a))%nat ltac:(lia)) as (done' & p & Ht & Hd & Hp). exists (a :: done'), p. rewrite take_app_ge, Ht, bind_cons, <- app_assoc by lia.
    split_and!; [done | by apply prefix_cons|]. destruct Hp as [->|(c & s & Hc & Hcp & Hs & Hpre)]; [by left|]. right. exists c, s. split_and!; [by right | done | done | by apply prefix_cons].
  - exists [], (take n (resp_command a)). rewrite take_app_le by lia. split_and!; [done | apply prefix_nil|]. destruct (decide (n = 0)%nat) as [->|]; [by left|]. right.
    exists a, (drop n (resp_command a)). rewrite take_drop. split_and!; [by left | done | | by exists cmds]. intros Hd. apply (f_equal length) in Hd. rewrite length_drop in Hd. cbn [length] in Hd. lia.
Qed.


Definition log (us : list log_unit) : list Z := (us ≫= unit_cmds) ≫= resp_command.

Lemma next_unit us j rest u : us !! j = Some u -> (rest = [] \/ exists m body body' e, us !! j = Some (Txn m body e) /\ rest = m :: body' /\ body' `prefix_of` body) ->
  exists c Y, take (S j) us ≫= unit_cmds = ((take j us ≫= unit_cmds) ++ rest) ++ c :: Y.
Proof.
  intros Hu Hrest. enough (exists c Y, unit_cmds u = rest ++ c :: Y) as (c & Y & HY).
  { exists c, Y. rewrite (take_S_r _ _ _ Hu), bind_app, <- app_assoc. f_equal. rewrite <- HY. apply app_nil_r. }
  destruct Hrest as [->|(m & body & body' & e & Hu' & -> & [k ->])].
  - destruct u as [argv|m body e]; cbn [unit_cmds app]; [by exists argv, [] | by exists m, (body ++ [e])].
  - rewrite Hu in Hu'. injection Hu' as ->. cbn [unit_cmds app]. rewrite <- !app_assoc. destruct k as [|c k]; [by exists e, [] | by exists c, (k ++ [e])].
Qed.

Lemma prefix_next {A} (d l : list A) c X c' Y : d ++ [c] `prefix_of` l -> X `prefix_of` l -> X = d ++ c' :: Y -> c' = c.
Proof.
  intros [k ->] [k' Hk'] ->. rewrite <- !app_assoc in Hk'. apply app_inv_head in Hk'. cbn in Hk'. by injection Hk' as ->.
Qed.

Lemma take_bind_prefix us j : (take j us ≫= unit_cmds) `prefix_of` (us ≫= unit_cmds).
Proof. exists (drop j us ≫= unit_cmds). by rewrite <- bind_app, take_drop. Qed.

Abbreviation load' := (loadAppendOnlyFile lookupCommand is_multi is_exec proc rdbLoadRio).

Lemma units_cmds_ok us : Forall unit_ok us -> Forall (cmd_ok mem_limit) (us ≫= unit_cmds) /\ Forall (known lookupCommand) (us ≫= unit_cmds).
Proof.
  induction 1 as [|u us (H1 & H2 & _) _ [IH1 IH2]]; [by split; constructor|]. rewrite bind_cons. split; apply Forall_app; done.
Qed.

(** A file of commands does not look like an RDB file. *)
Lemma star_start t db0 : starts_with rdbLoadRio db0 (chr "*" :: t) [] (chr "*" :: t) db0.
Proof. split; [done|]. left. by split_and!. Qed.

Lemma log_head us n : (0 < n <= length (log us))%nat -> exists t, take n (log us) = chr "*" :: t.
Proof.
  intros Hn. unfold log in *. destruct (us ≫= unit_cmds) as [|c cs]; [cbn in Hn; lia|]. rewrite bind_cons. destruct n as [|n]; [lia|]. eexists. reflexivity.
Qed.

(** C12. A crash never leaves half of a transaction: of a log of commands and transactions, in which MULTI and EXEC
    only occur at the ends of transactions, take any number of bytes; when truncated files are accepted, the
    loader executes exactly the units that are completely in these bytes, in order. *)
Theorem aof_crash_atomic db0 us n : Forall unit_ok us -> (0 < n <= length (log us))%nat ->
  exists j file', load' true true mem_limit db0 (take n (log us)) = Some (load_ok (foldl apply_unit db0 (take j us)) file') /\
    (length (log (take j us)) <= n)%nat /\ (j < length us -> n < length (log (take (S j) us)))%nat.
Proof.
  intros Hok Hn. destruct (units_cmds_ok us Hok) as [Hco Hkn]. destruct (cut_log (us ≫= unit_cmds) n) as (done & p & Ht & Hd & Hp); [apply Hn|]. fold (log us) in Ht. rewrite Ht.
  destruct (prefix_units us done Hok Hd) as (j & rest & Hdone & Hj & Hrest).
  assert (exists c s, cmd_ok mem_limit c /\ resp_command c = p ++ s /\ s <> []) as (c & s & Hc & Hcut & Hs).
  { destruct Hp as [->|(c & s & Hc & Hcut & Hs & _)]; [|exists c, s; rewrite Forall_forall in Hco; by auto]. destruct (us ≫= unit_cmds) as [|c cs] eqn:Hcs; [unfold log in Hn; rewrite Hcs in Hn; cbn in Hn; lia|].
    exists c, (resp_command c). apply Forall_cons in Hco as [Hc _]. done. }
  assert (foldl rp (Fake db0 None) done = Fake (foldl apply_unit db0 (take j us)) (queue (foldl rp (Fake db0 None) done))) as Hrun.
  { rewrite Hdone, foldl_app, replay_units by (by apply Forall_take). destruct Hrest as [->|(m & body & body' & e & Hu & -> & [k Hb])]; [done|]. rewrite Forall_lookup in Hok. destruct (Hok _ _ Hu) as (_ & _ & Hm & Hme & Hpl & _).
    cbn [foldl]. rewrite replay_begin by done. rewrite Hb in Hpl. apply Forall_app in Hpl as [Hpl _]. by rewrite (replay_queue _ []) by (by apply plain_ends). }
  assert (length ((done ≫= resp_command) ++ p) = n) as Hlen by (rewrite <- Ht, length_take; lia). exists j. eexists. split_and!.
  - pose proof (load_truncated_ok lookupCommand is_multi is_exec proc rdbLoadRio true true mem_limit db0 [] done c p s db0 eq_refl eq_refl) as Hload. cbn [app] in Hload. rewrite Hload; [by rewrite Hrun| | | |done|done|done].
    + rewrite <- Ht. destruct (log_head us n Hn) as [t ->]. apply star_start.
    + destruct Hd as [k Hk]. rewrite Hk in Hco. by apply Forall_app in Hco as [? _].
    + destruct Hd as [k Hk]. rewrite Hk in Hkn. by apply Forall_app in Hkn as [? _].
  - rewrite <- Hlen. unfold log. rewrite Hdone, bind_app, !length_app. lia.
  - intros Hjl. destruct (lookup_lt_is_Some_2 us j Hjl) as [u Hu]. destruct (next_unit us j rest u Hu Hrest) as (c' & Y & HX). rewrite <- Hdone in HX. unfold log. rewrite HX, bind_app, bind_cons, !length_app.
    rewrite <- Hlen, length_app. destruct Hp as [->|(c0 & s0 & _ & Hcut0 & Hs0 & Hpre)]; [cbn; lia|].
    pose proof (prefix_next done _ c0 _ c' Y Hpre (take_bind_prefix us (S j)) HX) as ->. rewrite Hcut0, length_app. destruct s0; [done|]. cbn. lia.
Qed.


(** *** What a truncation leaves *)

Lemma before_multi_last m cmds rest : begins' m = true -> Forall (fun a => begins' a = false) rest -> forall acc best,
  before_multi lookupCommand is_multi (cmds ++ m :: rest) acc best = acc ++ cmds.
Proof.
  intros Hm Hrest. induction cmds as [|a cmds IH]; intros acc best; cbn [app before_multi].
  - rewrite Hm, app_nil_r. generalize (acc ++ [m]) as acc'. induction Hrest as [|a rest Ha _ IHr]; intros acc'; [done|]. cbn [before_multi]. rewrite Ha. apply IHr.
  - rewrite IH, <- app_assoc. done.
Qed.

Lemma replay_open db us m body : Forall unit_ok us -> begins' m = true -> ends' m = false -> Forall plain_cmd body ->
  foldl rp (Fake db None) ((us ≫= unit_cmds) ++ m :: body) = Fake (foldl apply_unit db us) (Some (queued body)).
Proof. intros Hok Hm Hme Hb. rewrite foldl_app, replay_units by done. cbn [foldl]. rewrite replay_begin by done. by rewrite (replay_queue _ []) by (by apply plain_ends). Qed.

Lemma valid_part_nopre cmds : valid_part [] cmds = cmds ≫= resp_command.
Proof. by destruct cmds. Qed.

(** C14. What the truncation of a file can lose later.  First, when the file is cut inside of a command of a
    transaction, the loader keeps the beginning of the transaction in the file (it goes back to the
    offset before MULTI only when the file ends between two commands); commands that are appended from then on
    are taken for commands of this transaction at the next load, and none of them is executed: they are cut
    off.  Second, when the file has an RDB preamble and is cut inside of its first command, the file is
    truncated to zero bytes, although the preamble was loaded. *)
Theorem aof_truncation_loses db0 us m body c p s more pre db : Forall unit_ok us -> begins' m = true -> ends' m = false -> Forall plain_cmd body -> Forall plain_cmd more ->
  Forall (cmd_ok mem_limit) (m :: body ++ more) -> Forall (known lookupCommand) (m :: body ++ more) -> cmd_ok mem_limit c -> resp_command c = p ++ s -> p <> [] -> s <> [] ->
  let open := log us ++ ((m :: body) ≫= resp_command) in
  load' true true mem_limit db0 (open ++ p) = Some (load_ok (foldl apply_unit db0 us) open) /\
  load' true true mem_limit db0 (open ++ (more ≫= resp_command)) = Some (load_ok (foldl apply_unit db0 us) (log us)) /\
  (take 5 pre = str "REDIS" -> rdbLoadRio (pre ++ p) = inl (db, p) -> load' true true mem_limit db0 (pre ++ p) = Some (load_ok db [])).
Proof.
  intros Hok Hm Hme Hb Hmore Hcok Hkn Hc Hcut Hp Hs. cbv zeta. destruct (units_cmds_ok us Hok) as [Hco1 Hkn1].
  rewrite app_comm_cons in Hcok, Hkn. apply Forall_app in Hcok as [Hcok1 Hcok2], Hkn as [Hknb Hknm].
  assert (forall l, log us ++ ((m :: l) ≫= resp_command) = ((us ≫= unit_cmds) ++ m :: l) ≫= resp_command) as Hlog by (intros l; by rewrite bind_app).
  assert (forall l q, exists t, (((us ≫= unit_cmds) ++ m :: l) ≫= resp_command) ++ q = chr "*" :: t) as Hstar.
  { intros l q. rewrite bind_app. destruct (us ≫= unit_cmds) as [|c0 cs]; eexists; reflexivity. }
  split_and!.
  - rewrite !Hlog.
    pose proof (load_truncated_ok lookupCommand is_multi is_exec proc rdbLoadRio true true mem_limit db0 [] ((us ≫= unit_cmds) ++ m :: body) c p s db0 eq_refl eq_refl) as Hload. cbn [app] in Hload.
    rewrite Hload; [|destruct (Hstar body p) as [t ->]; apply star_start | apply Forall_app; done | apply Forall_app; done | done..]. rewrite replay_open by done. unfold left_file. cbn [queue fdb].
    destruct p; [done|]. by rewrite valid_part_nopre.
  - replace (log us ++ ((m :: body) ≫= resp_command) ++ (more ≫= resp_command)) with (log us ++ ((m :: body ++ more) ≫= resp_command)) by (rewrite app_comm_cons, bind_app; done). rewrite <- app_assoc, <- bind_app, <- app_comm_cons, Hlog.
    pose proof (load_truncated_ok lookupCommand is_multi is_exec proc rdbLoadRio true true mem_limit db0 [] ((us ≫= unit_cmds) ++ m :: body ++ more) c [] (resp_command c) db0 eq_refl eq_refl) as Hload. cbn [app] in Hload. rewrite !app_nil_r in Hload.
    assert (Forall plain_cmd (body ++ more)) as Hall by (by apply Forall_app).
    rewrite Hload; [|destruct (Hstar (body ++ more) []) as [t Ht]; rewrite app_nil_r in Ht; rewrite Ht; apply star_start | apply Forall_app; split; [done|]; rewrite app_comm_cons; by apply Forall_app
      | apply Forall_app; split; [done|]; rewrite app_comm_cons; by apply Forall_app | done..].
    rewrite replay_open by done. unfold left_file. cbn [queue fdb]. rewrite before_multi_last; [|done|eapply Forall_impl; [exact Hall | by intros a []]]. by rewrite valid_part_nopre.
  - intros Hsig Hrdb. pose proof (load_truncated_ok lookupCommand is_multi is_exec proc rdbLoadRio true true mem_limit db0 pre [] c p s db eq_refl eq_refl) as Hload. change ([] ≫= resp_command) with (@nil Z) in Hload. cbn [app] in Hload.
    rewrite Hload; [unfold left_file; destruct p; [done | reflexivity] | | constructor | constructor | done | done | done]. split; [by destruct pre|]. right. split; [|done]. rewrite take_app_le; [done|]. apply (f_equal length) in Hsig. rewrite length_take in Hsig. change (length (str "REDIS")) with 5%nat in Hsig. lia.
Qed.

End crash.

(** ** What is written *)

Lemma cat_len_line_shape buf ch n : 24 <= zlen buf -> is_byte ch -> is_ll n -> exists rest, cat_len_line buf ch n = Some (len_line ch n ++ rest, len_line ch n) /\ zlen (len_line ch n ++ rest) = zlen buf.
Proof.
  intros Hb Hch Hll. unfold cat_len_line. destruct buf as [|b0 buf]; [done|]. rewrite zlen_cons in Hb. rewrite store8_head. simpl_bind. rewrite !zlen_cons. change (drop 1 (u8 ch :: buf)) with buf. change (take 1 (u8 ch :: buf)) with [u8 ch].
  pose proof (sdigits10_le n Hll) as Hl.
  destruct (ll2string_fits buf (1 + zlen buf - 1) n Hll) as (d & Hcan & Hdl & ->); [lia | lia|]. simpl_bind.
  assert (d = ll2string_out n) as -> by (eapply canonical_inj; [exact Hcan | by apply ll2string_out_canonical]). set (d := ll2string_out n) in *.
  replace (u8 ch) with ch by (symmetry; apply uwrap_small; done). assert (zlen (drop (S (length d)) buf) = zlen buf - zlen d - 1) as Hrest by (unfold zlen in *; rewrite length_drop; lia).
  destruct (drop (S (length d)) buf) as [|b1 rest] eqn:Hdrop; [change (zlen []) with 0 in Hrest; lia|]. cbn [app]. rewrite (app_comm_cons d).
  rewrite (store8_mid (ch :: d) 0 (b1 :: rest)) by (rewrite zlen_cons; lia). simpl_bind. change (u8 CR) with CR.
  replace ((ch :: d) ++ CR :: b1 :: rest) with (((ch :: d) ++ [CR]) ++ b1 :: rest) by (by rewrite <- app_assoc).
  rewrite (store8_mid ((ch :: d) ++ [CR]) b1 rest) by (rewrite zlen_app, !zlen_cons; change (zlen []) with 0; lia). simpl_bind. change (u8 LF) with LF.
  replace (((ch :: d) ++ [CR]) ++ LF :: rest) with (len_line ch n ++ rest) by (unfold len_line; fold d; cbn; by rewrite <- !app_assoc).
  assert (zlen (len_line ch n) = 3 + zlen d) as Hlen by (unfold len_line; fold d; rewrite zlen_cons, zlen_app; change (zlen [CR; LF]) with 2; lia).
  rewrite mem_load_head by (rewrite Hlen; lia). simpl_bind. exists rest. split; [done|]. rewrite zlen_app, Hlen. rewrite zlen_cons in Hrest. lia.
Qed.

Lemma cat_len_line_ok buf ch n : 24 <= zlen buf -> is_byte ch -> is_ll n -> exists buf', cat_len_line buf ch n = Some (buf', len_line ch n) /\ zlen buf' = zlen buf.
Proof. intros Hb Hc Hn. destruct (cat_len_line_shape buf ch n Hb Hc Hn) as (rest & He & Hl). eauto. Qed.

Definition small_args (argv : list (list Z)) : Prop := zlen argv < 2 ^ 62 /\ Forall (fun a => zlen a < 2 ^ 62) argv.

Lemma catAppendOnlyGenericCommand_ok buf dst argv : zlen buf = 32 -> small_args argv -> catAppendOnlyGenericCommand buf dst argv = Some (dst ++ resp_command argv).
Proof.
  intros Hb [Hn Hargs]. unfold catAppendOnlyGenericCommand. pose proof (zlen_nonneg argv). destruct (cat_len_line_ok buf (chr "*") (zlen argv) ltac:(lia)) as (buf1 & -> & Hb1); [done | apply is_ll_len; lia|]. simpl_bind. rewrite Hb in Hb1.
  unfold resp_command. rewrite app_assoc. generalize (dst ++ len_line (chr "*") (zlen argv)) as d. clear Hn Hb H. revert buf1 Hb1. induction Hargs as [|a argv Ha _ IH]; intros buf1 Hb1 d; cbn [cat_args].
  - unfold bulks. cbn. by rewrite app_nil_r.
  - pose proof (zlen_nonneg a). destruct (cat_len_line_ok buf1 (chr "$") (zlen a) ltac:(lia)) as (buf2 & -> & Hb2); [done | apply is_ll_len; lia|]. simpl_bind. rewrite IH by lia. f_equal. rewrite bulks_cons. unfold bulk. by rewrite <- !app_assoc.
Qed.

(** The commands that are logged for a command: a SELECT when the database changes, and times made absolute. *)
Definition select_cmd (cur dictid : Z) : list (list (list Z)) := if bool_decide (dictid = cur) then [] else [[str "SELECT"; ll2string_out dictid]].

Definition absolute (mstime : Z) (proc : aof_proc) (argv : list (list Z)) : option (list (list Z)) :=
  match proc with
  | expireCommand => key ← argv !! 1%nat; sec ← argv !! 2%nat; t ← ll_fit (strtol sec * 1000); t ← ll_fit (t + mstime); Some [str "PEXPIREAT"; key; ll2string_out t]
  | pexpireCommand => key ← argv !! 1%nat; ms ← argv !! 2%nat; t ← ll_fit (strtol ms + mstime); Some [str "PEXPIREAT"; key; ll2string_out t]
  | expireatCommand => key ← argv !! 1%nat; sec ← argv !! 2%nat; t ← ll_fit (strtol sec * 1000); Some [str "PEXPIREAT"; key; ll2string_out t]
  | setCommand =>
      match argv with
      | a0 :: a1 :: a2 :: a3 :: rest => if strcaseeq a3 (str "px") then a4 ← rest !! 0%nat; t ← ll_fit (strtol a4 + mstime); Some [a0; a1; a2; str "PXAT"; ll2string_out t] else Some argv
      | _ => Some argv
      end
  | _ => Some argv
  end.

Lemma ll_out_small t : is_ll t -> zlen (ll2string_out t) < 2 ^ 62.
Proof. intros Ht. rewrite (canonical_zlen _ t Ht (ll2string_out_canonical t Ht)). pose proof (sdigits10_le t Ht). lia. Qed.

Lemma ll_fit_Some z t : ll_fit z = Some t -> t = z /\ is_ll t.
Proof. unfold ll_fit. case_bool_decide; [|done]. by intros [= <-]. Qed.

Lemma select_bytes cur dictid : 0 <= dictid < 2 ^ 31 ->
  (if bool_decide (dictid = cur) then [] else str "*2" ++ [CR; LF] ++ str "$6" ++ [CR; LF] ++ str "SELECT" ++ [CR; LF] ++ str "$" ++ ll2string_out (zlen (ll2string_out dictid)) ++ [CR; LF] ++ ll2string_out dictid ++ [CR; LF])
  = select_cmd cur dictid ≫= resp_command.
Proof.
  intros Hd. unfold select_cmd. case_bool_decide; [done|]. rewrite resp_one. unfold resp_command, bulks. cbn [mbind list_bind]. unfold bulk, len_line. change (ll2string_out (zlen [str "SELECT"; ll2string_out dictid])) with (str "2").
  change (ll2string_out (zlen (str "SELECT"))) with (str "6"). rewrite app_nil_r. cbn. by rewrite <- !app_assoc.
Qed.

Lemma absolute_small mstime proc argv argv' : small_args argv -> absolute mstime proc argv = Some argv' -> small_args argv'.
Proof.
  intros [Hn Ha] Habs. rewrite Forall_lookup in Ha. assert (forall key t, zlen key < 2 ^ 62 -> is_ll t -> small_args [str "PEXPIREAT"; key; ll2string_out t]) as Hp.
  { intros key t Hk Ht. split; [done|]. rewrite !Forall_cons. split_and!; [done | done | by apply ll_out_small | done]. }
  assert (small_args argv) as Hsm by (split; [done | by apply Forall_lookup]). destruct proc; cbn [absolute] in Habs; try (by injection Habs as <-).
  - destruct (argv !! 1%nat) as [key|] eqn:Hk; [|done]. destruct (argv !! 2%nat); [|done]. simpl_bind in Habs. destruct (ll_fit _) as [t|]; [|done]. simpl_bind in Habs. destruct (ll_fit (t + mstime)) as [t'|] eqn:Ht; [|done].
    simpl_bind in Habs. injection Habs as <-. apply ll_fit_Some in Ht as [_ Ht]. by apply Hp; [eapply Ha|].
  - destruct (argv !! 1%nat) as [key|] eqn:Hk; [|done]. destruct (argv !! 2%nat); [|done]. simpl_bind in Habs. destruct (ll_fit _) as [t|] eqn:Ht; [|done]. simpl_bind in Habs. injection Habs as <-. apply ll_fit_Some in Ht as [_ Ht]. by apply Hp; [eapply Ha|].
  - destruct (argv !! 1%nat) as [key|] eqn:Hk; [|done]. destruct (argv !! 2%nat); [|done]. simpl_bind in Habs. destruct (ll_fit _) as [t|] eqn:Ht; [|done]. simpl_bind in Habs. injection Habs as <-. apply ll_fit_Some in Ht as [_ Ht]. by apply Hp; [eapply Ha|].
  - destruct argv as [|a0 [|a1 [|a2 [|a3 rest]]]]; try (by injection Habs as <-). destruct (strcaseeq a3 _); [|by injection Habs as <-]. destruct (rest !! 0%nat) as [a4|]; [|done]. simpl_bind in Habs.
    destruct (ll_fit _) as [t|] eqn:Ht; [|done]. simpl_bind in Habs. injection Habs as <-. apply ll_fit_Some in Ht as [_ Ht]. split; [done|]. rewrite !Forall_cons. split_and!; [by apply (Ha 0%nat) | by apply (Ha 1%nat) | by apply (Ha 2%nat) | done | by apply ll_out_small | done].
Qed.

Lemma expireat_ok mstime buf dst proc argv argv' key seconds : zlen buf = 32 -> small_args argv -> proc = expireCommand \/ proc = pexpireCommand \/ proc = expireatCommand ->
  argv !! 1%nat = Some key -> argv !! 2%nat = Some seconds -> absolute mstime proc argv = Some argv' -> catAppendOnlyExpireAtCommand mstime buf dst proc key seconds = Some (dst ++ resp_command argv').
Proof.
  intros Hb Hsm Hproc Hk Hs Habs. pose proof (absolute_small _ _ _ _ Hsm Habs) as Hsm'. unfold catAppendOnlyExpireAtCommand. cbv zeta.
  destruct Hproc as [->|[->| ->]]; cbn [absolute] in Habs; rewrite Hk, Hs in Habs; simpl_bind in Habs.
  - rewrite !bool_decide_true by tauto. destruct (ll_fit (strtol seconds * 1000)) as [t|]; [|done]. simpl_bind in Habs. simpl_bind. destruct (ll_fit (t + mstime)) as [t'|]; [|done]. simpl_bind in Habs. simpl_bind.
    injection Habs as <-. by apply catAppendOnlyGenericCommand_ok.
  - rewrite (bool_decide_false (pexpireCommand = expireCommand \/ pexpireCommand = setexCommand \/ pexpireCommand = expireatCommand)) by (intros [?|[?|?]]; discriminate). simpl_bind.
    rewrite bool_decide_true by tauto. destruct (ll_fit (strtol seconds + mstime)) as [t'|]; [|done]. simpl_bind in Habs. simpl_bind.
    injection Habs as <-. by apply catAppendOnlyGenericCommand_ok.
  - rewrite (bool_decide_true (expireatCommand = expireCommand \/ expireatCommand = setexCommand \/ expireatCommand = expireatCommand)) by tauto.
    destruct (ll_fit (strtol seconds * 1000)) as [t|]; [|done]. simpl_bind in Habs. simpl_bind. rewrite bool_decide_false by (intros [?|[?|[?|?]]]; discriminate). simpl_bind.
    injection Habs as <-. by apply catAppendOnlyGenericCommand_ok.
Qed.

(** feedAppendOnlyFile() appends the protocol of these commands. *)
Lemma feedAppendOnlyFile_ok mstime buf sv proc dictid argv argv' : zlen buf = 32 -> 0 <= dictid < 2 ^ 31 -> small_args argv -> absolute mstime proc argv = Some argv' ->
  exists sv', feedAppendOnlyFile mstime buf sv proc dictid argv = Some sv' /\ aof_selected_db sv' = dictid /\ aof_on sv' = aof_on sv /\ aof_child sv' = aof_child sv /\
    (aof_on sv = true -> aof_buf sv' = aof_buf sv ++ ((select_cmd (aof_selected_db sv) dictid ++ [argv']) ≫= resp_command)) /\
    (aof_child sv = true -> aof_rewrite_buf sv' = aof_rewrite_buf sv ++ ((select_cmd (aof_selected_db sv) dictid ++ [argv']) ≫= resp_command)) /\ (small_args argv -> small_args argv').
Proof.
  intros Hb Hd Hsm Habs. unfold feedAppendOnlyFile. pose proof (select_bytes (aof_selected_db sv) dictid Hd) as Hsel. cbv zeta.
  set (pr := if bool_decide (dictid = aof_selected_db sv) then _ else _). assert (pr = (select_cmd (aof_selected_db sv) dictid ≫= resp_command, dictid)) as ->.
  { unfold pr. rewrite <- Hsel. case_bool_decide as E; [by rewrite E | done]. }
  clear Hsel. cbv iota beta. set (dst := select_cmd (aof_selected_db sv) dictid ≫= resp_command). pose proof (absolute_small _ _ _ _ Hsm Habs) as Hsm'.
  enough ((if bool_decide (proc = expireCommand \/ proc = pexpireCommand \/ proc = expireatCommand) then
           key ← argv !! 1%nat; seconds ← argv !! 2%nat; catAppendOnlyExpireAtCommand mstime buf dst proc key seconds
         else if bool_decide (proc = setCommand) && (3 <? zlen argv) then
           a3 ← argv !! 3%nat;
           if strcaseeq a3 (str "px") then
             a0 ← argv !! 0%nat; a1 ← argv !! 1%nat; a2 ← argv !! 2%nat; a4 ← argv !! 4%nat; when ← ll_fit (strtol a4 + mstime);
             catAppendOnlyGenericCommand buf dst [a0; a1; a2; str "PXAT"; ll2string_out when]
           else catAppendOnlyGenericCommand buf dst argv
         else catAppendOnlyGenericCommand buf dst argv) = Some (dst ++ resp_command argv')) as ->.
  { simpl_bind. eexists. split; [done|]. cbn [aof_selected_db aof_on aof_child aof_buf aof_rewrite_buf]. rewrite bind_app, resp_one. fold dst. split_and!; [done | done | done | by intros -> | by intros -> | done]. }
  case_bool_decide as Hproc.
  - destruct (argv !! 1%nat) as [key|] eqn:Hk, (argv !! 2%nat) as [sec|] eqn:Hs; try (destruct Hproc as [->|[->| ->]]; cbn [absolute] in Habs; by rewrite Hk, ?Hs in Habs). simpl_bind. by apply (expireat_ok mstime buf dst proc argv).
  - case_bool_decide as Hset; cbn [andb].
    + subst proc. cbn [absolute] in Habs. destruct argv as [|a0 [|a1 [|a2 [|a3 rest]]]]; try (injection Habs as <-; by apply catAppendOnlyGenericCommand_ok).
      rewrite (proj2 (Z.ltb_lt 3 _)) by (rewrite !zlen_cons; pose proof (zlen_nonneg rest); lia). change ((a0 :: a1 :: a2 :: a3 :: rest) !! 3%nat) with (Some a3). simpl_bind. destruct (strcaseeq a3 (str "px")); [|injection Habs as <-; by apply catAppendOnlyGenericCommand_ok].
      change ((a0 :: a1 :: a2 :: a3 :: rest) !! 0%nat) with (Some a0). change ((a0 :: a1 :: a2 :: a3 :: rest) !! 1%nat) with (Some a1). change ((a0 :: a1 :: a2 :: a3 :: rest) !! 2%nat) with (Some a2).
      change ((a0 :: a1 :: a2 :: a3 :: rest) !! 4%nat) with (rest !! 0%nat). simpl_bind. destruct (rest !! 0%nat) as [a4|]; [|done]. simpl_bind in Habs. simpl_bind. destruct (ll_fit (strtol a4 + mstime)) as [t|]; [|done].
      simpl_bind in Habs. simpl_bind. injection Habs as <-. by apply catAppendOnlyGenericCommand_ok.
    + assert (argv' = argv) as -> by (destruct proc; cbn [absolute] in Habs; (by injection Habs as ->) || tauto). by apply catAppendOnlyGenericCommand_ok.
Qed.

(** ** Writing and loading *)

Record feed := Feed { f_mstime : Z; f_proc : aof_proc; f_dictid : Z; f_argv : list (list Z) }.

Fixpoint feed_all (buf : list Z) (sv : aof_server) (fs : list feed) : option aof_server :=
  match fs with
  | [] => Some sv
  | f :: fs => sv ← feedAppendOnlyFile (f_mstime f) buf sv (f_proc f) (f_dictid f) (f_argv f); feed_all buf sv fs
  end.

(** The commands that are logged. *)
Fixpoint logged (cur : Z) (fs : list feed) : option (list (list (list Z))) :=
  match fs with
  | [] => Some []
  | f :: fs => argv ← absolute (f_mstime f) (f_proc f) (f_argv f); rest ← logged (f_dictid f) fs; Some (select_cmd cur (f_dictid f) ++ argv :: rest)
  end.

Definition feed_ok (f : feed) : Prop := 0 <= f_dictid f < 2 ^ 31 /\ small_args (f_argv f).

Lemma feed_all_ok buf fs : zlen buf = 32 -> Forall feed_ok fs -> forall sv cmds, aof_on sv = true -> logged (aof_selected_db sv) fs = Some cmds ->
  exists sv', feed_all buf sv fs = Some sv' /\ aof_buf sv' = aof_buf sv ++ (cmds ≫= resp_command).
Proof.
  intros Hb. induction 1 as [|f fs [Hd Hsm] _ IH]; intros sv cmds Hon Hlog; cbn [feed_all logged] in *; [injection Hlog as <-; exists sv; split; [done|]; cbn; by rewrite app_nil_r|].
  destruct (absolute (f_mstime f) (f_proc f) (f_argv f)) as [argv|] eqn:Habs; [|done]. simpl_bind in Hlog. destruct (logged (f_dictid f) fs) as [rest|] eqn:Hrest; [|done]. simpl_bind in Hlog. injection Hlog as <-.
  destruct (feedAppendOnlyFile_ok (f_mstime f) buf sv (f_proc f) (f_dictid f) (f_argv f) argv Hb Hd Hsm Habs) as (sv1 & -> & Hsel & Hon1 & _ & Hbuf & _). simpl_bind.
  destruct (IH sv1 rest) as (sv' & -> & Hbuf'); [by rewrite Hon1 | by rewrite Hsel|]. exists sv'. split; [done|]. rewrite Hbuf', Hbuf by done. rewrite <- app_assoc, <- bind_app, <- app_assoc. done.
Qed.

Section roundtrip.
Context {Db Cmd : Type}.
Context (lookupCommand : list Z -> option Cmd) (is_multi is_exec : Cmd -> bool) (proc : Cmd -> list (list Z) -> Db -> Db).
Context (rdbLoadRio : list Z -> (Db * list Z) + bool) (aof_load_truncated truncate_ok : bool) (mem_limit : Z).

(** C13. What is written is what is loaded: when commands are fed to the append only file, in any databases, and the
    file is loaded, the loader executes exactly these commands, in order and with the same arguments, with
    a SELECT wherever the database changes and with relative times made absolute, and leaves the file as
    it is; MULTI must have been followed by EXEC. *)
Theorem aof_roundtrip buf fs cmds db0 : zlen buf = 32 -> fs <> [] -> Forall feed_ok fs -> logged (-1) fs = Some cmds -> Forall (cmd_ok mem_limit) cmds -> Forall (known lookupCommand) cmds ->
  queue (foldl (replay lookupCommand is_multi is_exec proc) (Fake db0 None) cmds) = None ->
  exists sv, feed_all buf (AofServer (-1) true false [] []) fs = Some sv /\
    loadAppendOnlyFile lookupCommand is_multi is_exec proc rdbLoadRio aof_load_truncated truncate_ok mem_limit db0 (aof_buf sv)
    = Some (load_ok (fdb (foldl (replay lookupCommand is_multi is_exec proc) (Fake db0 None) cmds)) (aof_buf sv)).
Proof.
  intros Hb Hne Hf Hlog Hok Hk Hq. destruct (feed_all_ok buf fs Hb Hf (AofServer (-1) true false [] []) cmds eq_refl Hlog) as (sv & -> & Hbuf). exists sv. split; [done|]. cbn [aof_buf app] in Hbuf. rewrite Hbuf.
  assert (exists t, cmds ≫= resp_command = chr "*" :: t) as [t Ht].
  { destruct fs as [|f fs]; [done|]. cbn [logged] in Hlog. destruct (absolute _ _ _); [|done]. simpl_bind in Hlog. destruct (logged _ fs); [|done]. simpl_bind in Hlog. injection Hlog as <-.
    destruct (select_cmd (-1) (f_dictid f)); eexists; reflexivity. }
  rewrite (load_start _ _ _ _ rdbLoadRio _ _ _ db0 (cmds ≫= resp_command) [] (cmds ≫= resp_command) db0); [|rewrite Ht; apply star_start].
  apply load_full; try done. pose proof (cmds_length cmds). lia.
Qed.

End roundtrip.

(** ** Examples *)

(** The data set is the list of the executed commands; 0, 1 and 2 are a command, MULTI and EXEC. *)
Definition demo_lookup (name : list Z) : option Z := Some (if bool_decide (name = str "MULTI") then 1 else if bool_decide (name = str "EXEC") then 2 else 0).
Definition demo_proc (_ : Z) (argv : list (list Z)) (db : list (list (list Z))) : list (list (list Z)) := db ++ [argv].
Definition demo_rdb (file : list Z) : (list (list (list Z)) * list Z) + bool := inl ([[str "preamble"]], drop 5 file).
Definition set_a : list (list Z) := [str "SET"; str "a"; str "1"].

Lemma set_a_ok : cmd_ok 1000 set_a.
Proof. split_and!; [done | done | done|]. unfold set_a, arg_ok. rewrite !Forall_cons. split_and!; done. Qed.

Lemma one_word_ok s : zlen (str s) <= 1000 -> cmd_ok 1000 [str s].
Proof. intros Hs. split_and!; [done | done | done|]. apply Forall_cons. split; [split; [done | lia] | done]. Qed.

Lemma aof_roundtrip_witness : exists sv,
  feed_all (replicate 32 7) (AofServer (-1) true false [] []) [Feed 5 setCommand 0 set_a; Feed 7000 pexpireCommand 0 [str "PEXPIRE"; str "a"; str "500"]] = Some sv /\
  loadAppendOnlyFile demo_lookup (Z.eqb 1) (Z.eqb 2) demo_proc demo_rdb false false 1000 [] (aof_buf sv) = Some (load_ok [[str "SELECT"; str "0"]; set_a; [str "PEXPIREAT"; str "a"; str "7500"]] (aof_buf sv)).
Proof.
  apply (aof_roundtrip demo_lookup (Z.eqb 1) (Z.eqb 2) demo_proc demo_rdb false false 1000 (replicate 32 7) [Feed 5 setCommand 0 set_a; Feed 7000 pexpireCommand 0 [str "PEXPIRE"; str "a"; str "500"]]
    [[str "SELECT"; str "0"]; set_a; [str "PEXPIREAT"; str "a"; str "7500"]] []).
  - done.
  - done.
  - rewrite !Forall_cons. unfold feed_ok, small_args. cbn [f_dictid f_argv]. split_and!; try done; unfold set_a; rewrite !Forall_cons; split_and!; done.
  - vm_compute. reflexivity.
  - rewrite !Forall_cons. split_and!; [| apply set_a_ok | | done]; (split_and!; [done | done | done|]; rewrite !Forall_cons; split_and!; done).
  - rewrite !Forall_cons. split_and!; try done; by eexists.
  - vm_compute. reflexivity.
Defined.

Definition demo_units : list log_unit := [Single set_a; Txn [str "MULTI"] [set_a] [str "EXEC"]].

Lemma demo_units_ok : Forall (unit_ok demo_lookup (Z.eqb 1) (Z.eqb 2) 1000) demo_units.
Proof.
  unfold demo_units. rewrite !Forall_cons. unfold unit_ok. cbn [unit_cmds app]. rewrite !Forall_cons.
  split_and!; try done; try apply set_a_ok; try (by apply one_word_ok); try (by eexists); try (vm_compute; reflexivity); split; vm_compute; reflexivity.
Qed.

(** Cut two bytes before the end. *)
Lemma aof_crash_atomic_witness : exists j file',
  loadAppendOnlyFile demo_lookup (Z.eqb 1) (Z.eqb 2) demo_proc demo_rdb true true 1000 [] (take 78 (log demo_units)) = Some (load_ok (foldl (apply_unit demo_lookup demo_proc) [] (take j demo_units)) file') /\
  (length (log (take j demo_units)) <= 78)%nat /\ (j < length demo_units -> 78 < length (log (take (S j) demo_units)))%nat.
Proof.
  apply (aof_crash_atomic demo_lookup (Z.eqb 1) (Z.eqb 2) demo_proc demo_rdb 1000 [] demo_units 78 demo_units_ok). vm_compute. lia.
Defined.

Lemma aof_truncation_loses_witness :
  let open := log [Single set_a] ++ ([[str "MULTI"]; set_a] ≫= resp_command) in
  loadAppendOnlyFile demo_lookup (Z.eqb 1) (Z.eqb 2) demo_proc demo_rdb true true 1000 [] (open ++ str "*1") = Some (load_ok [set_a] open) /\
  loadAppendOnlyFile demo_lookup (Z.eqb 1) (Z.eqb 2) demo_proc demo_rdb true true 1000 [] (open ++ ([set_a; set_a] ≫= resp_command)) = Some (load_ok [set_a] (log [Single set_a])) /\
  (take 5 (str "REDIS") = str "REDIS" -> demo_rdb (str "REDIS" ++ str "*1") = inl ([[str "preamble"]], str "*1") ->
   loadAppendOnlyFile demo_lookup (Z.eqb 1) (Z.eqb 2) demo_proc demo_rdb true true 1000 [] (str "REDIS" ++ str "*1") = Some (load_ok [[str "preamble"]] [])).
Proof.
  apply (aof_truncation_loses demo_lookup (Z.eqb 1) (Z.eqb 2) demo_proc demo_rdb 1000 [] [Single set_a] [str "MULTI"] [set_a] [str "EXEC"] (str "*1") (drop 2 (resp_command [str "EXEC"])) [set_a; set_a] (str "REDIS") [[str "preamble"]]).
  - pose proof demo_units_ok as Hu. apply Forall_cons in Hu as [Hu _]. by apply Forall_cons.
  - vm_compute. reflexivity.
  - vm_compute. reflexivity.
  - apply Forall_cons. split; [split; vm_compute; reflexivity | done].
  - rewrite !Forall_cons. split_and!; [split; vm_compute; reflexivity.. | done].
  - cbn [app]. rewrite !Forall_cons. split_and!; [by apply one_word_ok | apply set_a_ok.. | done].
  - cbn [app]. rewrite !Forall_cons. split_and!; [by eexists.. | done].
  - by apply one_word_ok.
  - vm_compute. reflexivity.
  - done.
  - vm_compute. discriminate.
Defined.
