(* ===== verification/Reply.v ===== *)
(** * Reply: the output of a client (src/redis-stable/src/networking.c, connection.c)

    How replies are queued in the static buffer of a client and in its list of reply blocks, how the length of
    an aggregate is filled in after its elements, how the output limits close a client, and how the queue is
    written to the socket.  The socket is a script of the results of write(2), so that a theorem for every
    script is one for every behaviour of the system; what it took is kept as the bytes on the wire.
    Blocks have the memory that the allocator gave them; the placeholder of a length that is not known yet has
    an identity, since the code keeps a pointer to it. *)
From S2P Require Import Prelude.
From S2P Require Import Util.
From S2P Require Import Sds.
From S2P Require Import Networking.
From S2P Require Import Aof.

(** ** Constants (server.h) *)

Definition CLIENT_SLAVE : Z := 2 ^ 0.
Definition CLIENT_MASTER : Z := 2 ^ 1.
Definition CLIENT_MONITOR : Z := 2 ^ 2.
Definition CLIENT_CLOSE_AFTER_REPLY : Z := 2 ^ 6.
Definition CLIENT_LUA : Z := 2 ^ 8.
Definition CLIENT_CLOSE_ASAP : Z := 2 ^ 10.
Definition CLIENT_MASTER_FORCE_REPLY : Z := 2 ^ 13.
Definition CLIENT_PUBSUB : Z := 2 ^ 18.
Definition CLIENT_PENDING_WRITE : Z := 2 ^ 21.
Definition CLIENT_REPLY_OFF : Z := 2 ^ 22.
Definition CLIENT_REPLY_SKIP : Z := 2 ^ 24.
Definition CLIENT_MODULE : Z := 2 ^ 27.
Definition CLIENT_PROTECTED : Z := 2 ^ 28.
Definition CLIENT_PENDING_READ : Z := 2 ^ 29.
Definition REPL_STATE_NONE : Z := 0.
Definition SLAVE_STATE_ONLINE : Z := 9.
Definition CLIENT_TYPE_NORMAL : Z := 0.
Definition CLIENT_TYPE_SLAVE : Z := 1.
Definition CLIENT_TYPE_PUBSUB : Z := 2.
Definition CLIENT_TYPE_MASTER : Z := 3.
Definition PROTO_REPLY_CHUNK_BYTES : Z := 16 * 1024.
Definition NET_MAX_WRITES_PER_EVENT : Z := 1024 * 64.
Definition OBJ_SHARED_BULKHDR_LEN : Z := 32.
Definition SIZE_MAX : Z := 2 ^ 64 - 1.
(** sizeof(clientReplyBlock) and sizeof(listNode) *)
Definition sizeof_block : Z := 16.
Definition sizeof_listNode : Z := 24.

(** ** State *)

(** clientReplyBlock; [b_buf] is the memory after its header *)
Record block := Block { b_size : Z; b_used : Z; b_buf : list Z }.

(** A node of c->reply: a block, or the placeholder NULL of addReplyDeferredLen(), to which the code keeps a pointer. *)
Inductive node := Null (id : Z) | Val (b : block).

(** The connection: whether its state is CONNECTED, whether the write handler is installed, what write(2)
    took so far and the results of the next calls: a count, -1 for EAGAIN, less for another error. *)
Record conn := Conn { connected : bool; write_handler : bool; wire : list Z; script : list Z }.

(** The fields of a client that concern its output; [next_node] is the identity of the next placeholder. *)
Record client := Client {
  cid : Z; flags : Z; resp : Z; cconn : option conn; replstate : Z; repl_put_online_on_ack : bool;
  buf : list Z; bufpos : Z; sentlen : Z; reply : list node; next_node : Z; reply_bytes : Z;
  obuf_soft_limit_reached_time : Z }.

Record obuf_limit := Limit { hard_limit_bytes : Z; soft_limit_bytes : Z; soft_limit_seconds : Z }.

(** What the functions use of the server: the queues of clients, and the configuration.
    [under_maxmemory] is server.maxmemory == 0 || zmalloc_used_memory() < server.maxmemory. *)
Record oserver := OServer {
  clients_pending_write : list Z; clients_to_close : list Z;
  client_obuf_limits : Z -> obuf_limit; unixtime : Z; under_maxmemory : bool }.

Definition has_flag (c : client) (f : Z) : bool := negb (Z.land (flags c) f =? 0).

Definition set_flags (c : client) (f : Z) : client :=
  Client (cid c) f (resp c) (cconn c) (replstate c) (repl_put_online_on_ack c) (buf c) (bufpos c) (sentlen c) (reply c) (next_node c) (reply_bytes c) (obuf_soft_limit_reached_time c).
Definition set_conn (c : client) (cn : option conn) : client :=
  Client (cid c) (flags c) (resp c) cn (replstate c) (repl_put_online_on_ack c) (buf c) (bufpos c) (sentlen c) (reply c) (next_node c) (reply_bytes c) (obuf_soft_limit_reached_time c).
Definition set_buf (c : client) (b : list Z) (pos : Z) : client :=
  Client (cid c) (flags c) (resp c) (cconn c) (replstate c) (repl_put_online_on_ack c) b pos (sentlen c) (reply c) (next_node c) (reply_bytes c) (obuf_soft_limit_reached_time c).
Definition set_sentlen (c : client) (n : Z) : client :=
  Client (cid c) (flags c) (resp c) (cconn c) (replstate c) (repl_put_online_on_ack c) (buf c) (bufpos c) n (reply c) (next_node c) (reply_bytes c) (obuf_soft_limit_reached_time c).
Definition set_reply (c : client) (l : list node) (next bytes : Z) : client :=
  Client (cid c) (flags c) (resp c) (cconn c) (replstate c) (repl_put_online_on_ack c) (buf c) (bufpos c) (sentlen c) l next bytes (obuf_soft_limit_reached_time c).
Definition set_soft_time (c : client) (t : Z) : client :=
  Client (cid c) (flags c) (resp c) (cconn c) (replstate c) (repl_put_online_on_ack c) (buf c) (bufpos c) (sentlen c) (reply c) (next_node c) (reply_bytes c) t.
Definition add_pending_write (sv : oserver) (i : Z) : oserver :=
  OServer (i :: clients_pending_write sv) (clients_to_close sv) (client_obuf_limits sv) (unixtime sv) (under_maxmemory sv).
Definition add_to_close (sv : oserver) (i : Z) : oserver :=
  OServer (clients_pending_write sv) (clients_to_close sv ++ [i]) (client_obuf_limits sv) (unixtime sv) (under_maxmemory sv).

(** ** Queueing *)

Definition clientHasPendingReplies (c : client) : bool := negb (bufpos c =? 0) || negb (zlen (reply c) =? 0).

Definition clientInstallWriteHandler (sv : oserver) (c : client) : oserver * client :=
  if negb (has_flag c CLIENT_PENDING_WRITE) && ((replstate c =? REPL_STATE_NONE) || ((replstate c =? SLAVE_STATE_ONLINE) && negb (repl_put_online_on_ack c)))
  then (add_pending_write sv (cid c), set_flags c (Z.lor (flags c) CLIENT_PENDING_WRITE))
  else (sv, c).

(** The result is whether C_OK is returned. *)
Definition prepareClientToWrite (sv : oserver) (c : client) : oserver * client * bool :=
  if has_flag c (Z.lor CLIENT_LUA CLIENT_MODULE) then (sv, c, true)
  else if has_flag c CLIENT_CLOSE_ASAP then (sv, c, false)
  else if has_flag c (Z.lor CLIENT_REPLY_OFF CLIENT_REPLY_SKIP) then (sv, c, false)
  else if has_flag c CLIENT_MASTER && negb (has_flag c CLIENT_MASTER_FORCE_REPLY) then (sv, c, false)
  else if bool_decide (cconn c = None) then (sv, c, false)
  else if negb (clientHasPendingReplies c) && negb (has_flag c CLIENT_PENDING_READ) then (clientInstallWriteHandler sv c, true)
  else (sv, c, true).

(** freeClientAsync() with or without I/O threads *)
Definition freeClientAsync (sv : oserver) (c : client) : oserver * client :=
  if has_flag c CLIENT_CLOSE_ASAP || has_flag c CLIENT_LUA then (sv, c)
  else (add_to_close sv (cid c), set_flags c (Z.lor (flags c) CLIENT_CLOSE_ASAP)).

(** Whether C_OK is returned. *)
Definition _addReplyToBuffer (c : client) (s : list Z) : option (client * bool) :=
  let available := zlen (buf c) - bufpos c in
  if has_flag c CLIENT_CLOSE_AFTER_REPLY then Some (c, true)
  else if 0 <? zlen (reply c) then Some (c, false)
  else if available <? zlen s then Some (c, false)
  else
    b ← mem_store (buf c) (bufpos c) s;
    Some (set_buf c b (bufpos c + zlen s), true).

Definition getClientOutputBufferMemoryUsage (c : client) : Z := u64 (reply_bytes c + (sizeof_listNode + sizeof_block) * zlen (reply c)).

Definition getClientType (c : client) : Z :=
  if has_flag c CLIENT_MASTER then CLIENT_TYPE_MASTER
  else if has_flag c CLIENT_SLAVE && negb (has_flag c CLIENT_MONITOR) then CLIENT_TYPE_SLAVE
  else if has_flag c CLIENT_PUBSUB then CLIENT_TYPE_PUBSUB
  else CLIENT_TYPE_NORMAL.

Definition checkClientOutputBufferLimits (sv : oserver) (c : client) : client * bool :=
  let used_mem := getClientOutputBufferMemoryUsage c in
  let class := getClientType c in
  let class := if class =? CLIENT_TYPE_MASTER then CLIENT_TYPE_NORMAL else class in
  let l := client_obuf_limits sv class in
  let hard := negb (hard_limit_bytes l =? 0) && (hard_limit_bytes l <=? used_mem) in
  let soft := negb (soft_limit_bytes l =? 0) && (soft_limit_bytes l <=? used_mem) in
  if soft then
    if obuf_soft_limit_reached_time c =? 0 then (set_soft_time c (unixtime sv), hard)
    else
      let elapsed := unixtime sv - obuf_soft_limit_reached_time c in
      (c, negb (elapsed <=? soft_limit_seconds l) || hard)
  else (set_soft_time c 0, hard).

(** With async = 1. *)
Definition closeClientOnOutputBufferLimitReached (sv : oserver) (c : client) : option (oserver * client) :=
  if bool_decide (cconn c = None) then Some (sv, c)
  else if negb (reply_bytes c <? SIZE_MAX - 1024 * 64) then None
  else if (reply_bytes c =? 0) || has_flag c CLIENT_CLOSE_ASAP then Some (sv, c)
  else
    let '(c, reached) := checkClientOutputBufferLimits sv c in
    Some (if (reached : bool) then freeClientAsync sv c else (sv, c)).

Section reply.
Context `{Allocator}.

(** zmalloc(len + sizeof(clientReplyBlock)) with its internal fragmentation, and what it holds at first *)
Definition new_block (len : Z) : Z * list Z :=
  let size := malloc_usable_size (len + sizeof_block) - sizeof_block in (size, junk_bytes 0 (Z.to_nat size)).

(** memcpy(b->buf + b->used, s, n) for the first bytes of [s] that fit; what is left of [s] *)
Definition fill_block (b : block) (s : list Z) : option (block * list Z) :=
  let avail := b_size b - b_used b in
  let copy := if zlen s <=? avail then zlen s else avail in
  m ← mem_store (b_buf b) (b_used b) (take (Z.to_nat copy) s);
  Some (Block (b_size b) (b_used b + copy) m, drop (Z.to_nat copy) s).

Definition _addReplyProtoToList (sv : oserver) (c : client) (s : list Z) : option (oserver * client) :=
  if has_flag c CLIENT_CLOSE_AFTER_REPLY then Some (sv, c)
  else
    '(c, s) ← match last (reply c) with
              | Some (Val tail) =>
                  '(tail, s) ← fill_block tail s;
                  Some (set_reply c (removelast (reply c) ++ [Val tail]) (next_node c) (reply_bytes c), s)
              | _ => Some (c, s)
              end;
    if zlen s =? 0 then Some (sv, c)
    else
      let size := if zlen s <? PROTO_REPLY_CHUNK_BYTES then PROTO_REPLY_CHUNK_BYTES else zlen s in
      let '(tsize, mem) := new_block size in
      m ← mem_store mem 0 s;
      let c := set_reply c (reply c ++ [Val (Block tsize (zlen s) m)]) (next_node c) (u64 (reply_bytes c + tsize)) in
      closeClientOnOutputBufferLimitReached sv c.

Definition addReplyProto (sv : oserver) (c : client) (s : list Z) : option (oserver * client) :=
  let '(sv, c, ok) := prepareClientToWrite sv c in
  if negb ok then Some (sv, c)
  else
    '(c, done) ← _addReplyToBuffer c s;
    if (done : bool) then Some (sv, c) else _addReplyProtoToList sv c s.

(** addReplySds() and addReply() of a string differ in who owns the bytes. *)
Definition addReplySds := addReplyProto.

(** A string object: sds encoded, or an integer. *)
Inductive string_obj := sds_obj (s : list Z) | int_obj (n : Z).

Definition addReply (sv : oserver) (c : client) (o : string_obj) : option (oserver * client) :=
  match o with
  | sds_obj s => addReplyProto sv c s
  | int_obj n =>
      let '(sv, c, ok) := prepareClientToWrite sv c in
      if negb ok then Some (sv, c)
      else
        '(b, len) ← ll2string (junk_bytes 0 32) 32 n;
        s ← mem_load b 0 len;
        '(c, done) ← _addReplyToBuffer c s;
        if (done : bool) then Some (sv, c) else _addReplyProtoToList sv c s
  end.

Definition stringObjectLen (o : string_obj) : Z := match o with sds_obj s => zlen s | int_obj n => sdigits10 n end.

Definition crlf : string_obj := sds_obj [CR; LF].

(** The shared headers are made with "*%d\r\n" and "$%d\r\n". *)
Definition shared_hdr (prefix ll : Z) : string_obj := sds_obj (len_line prefix ll).

Definition addReplyLongLongWithPrefix (sv : oserver) (c : client) (ll prefix : Z) : option (oserver * client) :=
  if (prefix =? chr "*") && (ll <? OBJ_SHARED_BULKHDR_LEN) && (0 <=? ll) then addReply sv c (shared_hdr (chr "*") ll)
  else if (prefix =? chr "$") && (ll <? OBJ_SHARED_BULKHDR_LEN) && (0 <=? ll) then addReply sv c (shared_hdr (chr "$") ll)
  else
    '(_, s) ← cat_len_line (junk_bytes 0 128) prefix ll;
    addReplyProto sv c s.

Definition addReplyLongLong (sv : oserver) (c : client) (ll : Z) : option (oserver * client) :=
  if ll =? 0 then addReply sv c (sds_obj (str ":0" ++ [CR; LF]))
  else if ll =? 1 then addReply sv c (sds_obj (str ":1" ++ [CR; LF]))
  else addReplyLongLongWithPrefix sv c ll (chr ":").

Definition addReplyAggregateLen (sv : oserver) (c : client) (length prefix : Z) : option (oserver * client) :=
  if length <? 0 then None else addReplyLongLongWithPrefix sv c length prefix.

Definition addReplyArrayLen (sv : oserver) (c : client) (length : Z) : option (oserver * client) := addReplyAggregateLen sv c length (chr "*").

Definition addReplyMapLen (sv : oserver) (c : client) (length : Z) : option (oserver * client) :=
  length ← (if resp c =? 2 then ll_fit (length * 2) else Some length);
  addReplyAggregateLen sv c length (if resp c =? 2 then chr "*" else chr "%").

Definition addReplySetLen (sv : oserver) (c : client) (length : Z) : option (oserver * client) :=
  addReplyAggregateLen sv c length (if resp c =? 2 then chr "*" else chr "~").

Definition addReplyNull (sv : oserver) (c : client) : option (oserver * client) :=
  addReplyProto sv c (if resp c =? 2 then str "$-1" ++ [CR; LF] else str "_" ++ [CR; LF]).

Definition addReplyNullArray (sv : oserver) (c : client) : option (oserver * client) :=
  addReplyProto sv c (if resp c =? 2 then str "*-1" ++ [CR; LF] else str "_" ++ [CR; LF]).

Definition addReplyBool (sv : oserver) (c : client) (b : bool) : option (oserver * client) :=
  if resp c =? 2 then addReply sv c (sds_obj ((if b then str ":1" else str ":0") ++ [CR; LF]))
  else addReplyProto sv c ((if b then str "#t" else str "#f") ++ [CR; LF]).

Definition addReplyBulkLen (sv : oserver) (c : client) (o : string_obj) : option (oserver * client) :=
  addReplyLongLongWithPrefix sv c (stringObjectLen o) (chr "$").

Definition addReplyBulk (sv : oserver) (c : client) (o : string_obj) : option (oserver * client) :=
  '(sv, c) ← addReplyBulkLen sv c o;
  '(sv, c) ← addReply sv c o;
  addReply sv c crlf.

Definition addReplyBulkCBuffer (sv : oserver) (c : client) (p : list Z) : option (oserver * client) :=
  '(sv, c) ← addReplyLongLongWithPrefix sv c (zlen p) (chr "$");
  '(sv, c) ← addReplyProto sv c p;
  addReply sv c crlf.

Definition addReplyBulkLongLong (sv : oserver) (c : client) (ll : Z) : option (oserver * client) :=
  '(b, len) ← ll2string (junk_bytes 0 64) 64 ll;
  s ← mem_load b 0 len;
  addReplyBulkCBuffer sv c s.

Definition addReplyErrorLength (sv : oserver) (c : client) (s : list Z) : option (oserver * client) :=
  '(sv, c) ← (if (zlen s =? 0) || negb (hd 0 s =? chr "-") then addReplyProto sv c (str "-ERR ") else Some (sv, c));
  '(sv, c) ← addReplyProto sv c s;
  addReplyProto sv c [CR; LF].

Definition addReplyStatusLength (sv : oserver) (c : client) (s : list Z) : option (oserver * client) :=
  '(sv, c) ← addReplyProto sv c (str "+");
  '(sv, c) ← addReplyProto sv c s;
  addReplyProto sv c [CR; LF].

(** ** Lengths that are not known yet *)

Definition trimReplyUnusedTailSpace (c : client) : client :=
  match last (reply c) with
  | Some (Val tail) =>
      if (b_size tail / 4 <? b_size tail - b_used tail) && (b_used tail <? PROTO_REPLY_CHUNK_BYTES) then
        let size := malloc_usable_size (b_used tail + sizeof_block) - sizeof_block in
        let mem := zrealloc (take (Z.to_nat (b_used tail)) (b_buf tail)) size in
        set_reply c (removelast (reply c) ++ [Val (Block size (b_used tail) mem)]) (next_node c) (u64 (reply_bytes c + size - b_size tail))
      else c
  | _ => c
  end.

(** The handle is NULL for a client that does not get replies. *)
Definition addReplyDeferredLen (sv : oserver) (c : client) : oserver * client * option Z :=
  let '(sv, c, ok) := prepareClientToWrite sv c in
  if negb ok then (sv, c, None)
  else
    let c := trimReplyUnusedTailSpace c in
    (sv, set_reply c (reply c ++ [Null (next_node c)]) (next_node c + 1) (reply_bytes c), Some (next_node c)).

(** The nodes before and after the placeholder *)
Fixpoint find_node (id : Z) (l : list node) : option (list node * list node) :=
  match l with
  | [] => None
  | n :: l =>
      if (match n with Null i => i =? id | Val _ => false end) then Some ([], l)
      else '(before, after) ← find_node id l; Some (n :: before, after)
  end.

(** A node that is not in the list, or holds a block, is a failed assertion or was freed. *)
Definition setDeferredReply (sv : oserver) (c : client) (nd : option Z) (s : list Z) : option (oserver * client) :=
  match nd with
  | None => Some (sv, c)
  | Some id =>
      '(before, after) ← find_node id (reply c);
      '(before, s, merged) ← match last before with
                             | Some (Val prev) =>
                                 if 0 <? b_size prev - b_used prev then
                                   '(prev, rest) ← fill_block prev s;
                                   Some (removelast before ++ [Val prev], rest, zlen rest =? 0)
                                 else Some (before, s, false)
                             | _ => Some (before, s, false)
                             end;
      if (merged : bool) then Some (sv, set_reply c (before ++ after) (next_node c) (reply_bytes c))
      else
        let length := zlen s in
        let create :=
          let '(size, mem) := new_block length in
          m ← mem_store mem 0 s;
          closeClientOnOutputBufferLimitReached sv (set_reply c (before ++ Val (Block size length m) :: after) (next_node c) (u64 (reply_bytes c + size))) in
        match after with
        | Val next :: after' =>
            if (length <=? b_size next - b_used next) && (b_used next <? PROTO_REPLY_CHUNK_BYTES * 4) then
              m ← memmove (b_buf next) length 0 (b_used next);
              m ← mem_store m 0 s;
              Some (sv, set_reply c (before ++ Val (Block (b_size next) (b_used next + length) m) :: after') (next_node c) (reply_bytes c))
            else create
        | _ => create
        end
  end.

(** sprintf("%c%ld\r\n") gives the length line *)
Definition setDeferredAggregateLen (sv : oserver) (c : client) (nd : option Z) (length prefix : Z) : option (oserver * client) :=
  if length <? 0 then None
  else if bool_decide (nd = None) then Some (sv, c)
  else setDeferredReply sv c nd (len_line prefix length).

Definition setDeferredArrayLen (sv : oserver) (c : client) (nd : option Z) (length : Z) : option (oserver * client) := setDeferredAggregateLen sv c nd length (chr "*").

Definition setDeferredMapLen (sv : oserver) (c : client) (nd : option Z) (length : Z) : option (oserver * client) :=
  length ← (if resp c =? 2 then ll_fit (length * 2) else Some length);
  setDeferredAggregateLen sv c nd length (if resp c =? 2 then chr "*" else chr "%").

Definition setDeferredSetLen (sv : oserver) (c : client) (nd : option Z) (length : Z) : option (oserver * client) :=
  setDeferredAggregateLen sv c nd length (if resp c =? 2 then chr "*" else chr "~").

(** dupClientReplyValue() dereferences a placeholder *)
Definition dupClientReplyValue (n : node) : option node := match n with Null _ => None | Val b => Some (Val b) end.

Definition copyClientOutputBuffer (dst src : client) : option client :=
  l ← mapM dupClientReplyValue (reply src);
  bs ← mem_load (buf src) 0 (bufpos src);
  b ← mem_store (buf dst) 0 bs;
  Some (set_reply (set_sentlen (set_buf dst b (bufpos src)) 0) l (next_node dst) (reply_bytes src)).

(** ** Writing to the socket *)

(** What write(2) takes at most in a call (Linux) *)
Definition MAX_RW_COUNT : Z := 2147479552.

Definition connSocketWrite (cn : conn) (data : list Z) : Z * conn :=
  match script cn with
  | [] => (-1, cn)
  | r :: rs =>
      if r <? 0 then (-1, Conn (if r =? -1 then connected cn else false) (write_handler cn) (wire cn) rs)
      else
        let n := Z.min r (Z.min (zlen data) MAX_RW_COUNT) in
        (n, Conn (connected cn) (write_handler cn) (wire cn ++ take (Z.to_nat n) data) rs)
  end.

(** while(clientHasPendingReplies(c)): the last result of connWrite() and the sum *)
Fixpoint write_loop (fuel : nat) (sv : oserver) (c : client) (nwritten totwritten : Z) : option (client * Z * Z) :=
  match fuel with
  | O => None
  | S fuel =>
      if negb (clientHasPendingReplies c) then Some (c, nwritten, totwritten)
      else
        let next c nwritten totwritten :=
          if (NET_MAX_WRITES_PER_EVENT <? totwritten) && under_maxmemory sv && negb (has_flag c CLIENT_SLAVE) then Some (c, nwritten, totwritten)
          else write_loop fuel sv c nwritten totwritten in
        cn ← cconn c;
        if 0 <? bufpos c then
          data ← mem_load (buf c) (sentlen c) (bufpos c - sentlen c);
          let '(nwritten, cn) := connSocketWrite cn data in
          let c := set_conn c (Some cn) in
          if nwritten <=? 0 then Some (c, nwritten, totwritten)
          else
            let c := set_sentlen c (sentlen c + nwritten) in
            let c := if sentlen c =? bufpos c then set_sentlen (set_buf c (buf c) 0) 0 else c in
            next c nwritten (totwritten + nwritten)
        else
          match reply c with
          | Val o :: rest =>
              let objlen := b_used o in
              if objlen =? 0 then write_loop fuel sv (set_reply c rest (next_node c) (u64 (reply_bytes c - b_size o))) nwritten totwritten
              else
                data ← mem_load (b_buf o) (sentlen c) (objlen - sentlen c);
                let '(nwritten, cn) := connSocketWrite cn data in
                let c := set_conn c (Some cn) in
                if nwritten <=? 0 then Some (c, nwritten, totwritten)
                else
                  let c := set_sentlen c (sentlen c + nwritten) in
                  if sentlen c =? objlen then
                    let c := set_sentlen (set_reply c rest (next_node c) (u64 (reply_bytes c - b_size o))) 0 in
                    if (zlen (reply c) =? 0) && negb (reply_bytes c =? 0) then None
                    else next c nwritten (totwritten + nwritten)
                  else next c nwritten (totwritten + nwritten)
          | _ => None
          end
  end.

(** The bytes that are queued, and the length of the queue *)
Definition queue_size (c : client) : nat := Z.to_nat (bufpos c) + sum_list_with (fun n => match n with Null _ => 1%nat | Val b => S (Z.to_nat (b_used b)) end) (reply c).

(** Whether C_OK is returned. *)
Definition writeToClient (sv : oserver) (c : client) (handler_installed : bool) : option (oserver * client * bool) :=
  '(c, nwritten, _) ← write_loop (S (queue_size c)) sv c 0 0;
  error ← (if nwritten =? -1 then cn ← cconn c; Some (negb (connected cn)) else Some false);
  if (error : bool) then Some (freeClientAsync sv c, false)
  else if negb (clientHasPendingReplies c) then
    let c := set_sentlen c 0 in
    c ← (if handler_installed then cn ← cconn c; Some (set_conn c (Some (Conn (connected cn) false (wire cn) (script cn)))) else Some c);
    if has_flag c CLIENT_CLOSE_AFTER_REPLY then Some (freeClientAsync sv c, false) else Some (sv, c, true)
  else Some (sv, c, true).

(** An iteration of handleClientsWithPendingWrites(); a handler is installed unless the event loop refuses.
    The client is found in the list of the server. *)
Definition handleClientWithPendingWrites (handler_ok : bool) (sv : oserver) (c : client) : option (oserver * client) :=
  let c := set_flags c (Z.ldiff (flags c) CLIENT_PENDING_WRITE) in
  let sv := OServer (filter (fun i => i <> cid c) (clients_pending_write sv)) (clients_to_close sv) (client_obuf_limits sv) (unixtime sv) (under_maxmemory sv) in
  if has_flag c CLIENT_PROTECTED then Some (sv, c)
  else if has_flag c CLIENT_CLOSE_ASAP then Some (sv, c)
  else
    '(sv, c, ok) ← writeToClient sv c false;
    if negb ok then Some (sv, c)
    else if clientHasPendingReplies c then
      cn ← cconn c;
      if handler_ok then Some (sv, set_conn c (Some (Conn (connected cn) true (wire cn) (script cn)))) else Some (freeClientAsync sv c)
    else Some (sv, c).

End reply.

(** ** Invariant *)

(** The queue of a client: bytes, and placeholders. *)
Definition token : Type := Z + Z.
Definition bytes (s : list Z) : list token := inl <$> s.

Definition node_view (n : node) : list token := match n with Null id => [inr id] | Val b => bytes (take (Z.to_nat (b_used b)) (b_buf b)) end.
Definition queued (c : client) : list token := bytes (take (Z.to_nat (bufpos c)) (buf c)) ++ (reply c ≫= node_view).
(** What is still to be sent. *)
Definition pending (c : client) : list token := drop (Z.to_nat (sentlen c)) (queued c).

Definition node_size (n : node) : Z := match n with Null _ => 0 | Val b => b_size b end.
Definition sizes (l : list node) : Z := foldr (fun n t => node_size n + t) 0 l.
Definition ids (l : list node) : list Z := l ≫= (fun n => match n with Null id => [id] | Val _ => [] end).

Definition node_ok (n : node) : Prop := match n with Null _ => True | Val b => 0 <= b_used b <= b_size b /\ zlen (b_buf b) = b_size b end.

Definition sent_ok (c : client) : Prop :=
  sentlen c = 0 \/ 0 < sentlen c < bufpos c \/ (bufpos c = 0 /\ exists b rest, reply c = Val b :: rest /\ 0 < sentlen c < b_used b).

Record client_ok (c : client) : Prop := ClientOk {
  ok_buf : zlen (buf c) = PROTO_REPLY_CHUNK_BYTES;
  ok_pos : 0 <= bufpos c <= PROTO_REPLY_CHUNK_BYTES;
  ok_nodes : Forall node_ok (reply c);
  ok_ids : NoDup (ids (reply c));
  ok_next : Forall (fun i => i < next_node c) (ids (reply c));
  ok_sent : sent_ok c;
  ok_bytes : reply_bytes c = u64 (sizes (reply c)) }.

(** The part of a client that is its queue. *)
Definition out_of (c : client) := (buf c, bufpos c, sentlen c, reply c, next_node c, reply_bytes c).

Lemma out_same c c' : out_of c' = out_of c -> client_ok c -> client_ok c' /\ queued c' = queued c /\ pending c' = pending c.
Proof. destruct c, c'. unfold out_of. cbn. intros [= -> -> -> -> -> ->] []. done. Qed.

(** What no reply changes: all but the queue, the soft limit's clock, and two flags, of which one is never cleared. *)
Definition volatile_flags : Z := Z.lor CLIENT_PENDING_WRITE CLIENT_CLOSE_ASAP.
Record frame (c c' : client) : Prop := Frame {
  fr_cid : cid c' = cid c; fr_resp : resp c' = resp c; fr_conn : cconn c' = cconn c; fr_repl : replstate c' = replstate c;
  fr_ack : repl_put_online_on_ack c' = repl_put_online_on_ack c;
  fr_flags : forall f, Z.land volatile_flags f = 0 -> has_flag c' f = has_flag c f;
  fr_asap : has_flag c CLIENT_CLOSE_ASAP = true -> has_flag c' CLIENT_CLOSE_ASAP = true }.

#[export] Instance frame_preorder : PreOrder frame.
Proof.
  split.
  - intros c. by split.
  - intros a b c [] []. split; try congruence; [|auto]. intros f Hf. etransitivity; eauto.
Qed.

Lemma flag_lor c f g : has_flag (set_flags c (Z.lor (flags c) f)) g = has_flag c g || negb (Z.land f g =? 0).
Proof.
  unfold has_flag. cbn [flags set_flags]. rewrite Z.land_lor_distr_l. destruct (Z.eqb_spec (Z.land (flags c) g) 0) as [->|Hn]; [done|].
  cbn. apply negb_true_iff, Z.eqb_neq. by intros [Hl _]%Z.lor_eq_0_iff.
Qed.

Lemma volatile_parts f : Z.land volatile_flags f = 0 -> Z.land CLIENT_PENDING_WRITE f = 0 /\ Z.land CLIENT_CLOSE_ASAP f = 0.
Proof. unfold volatile_flags. rewrite Z.land_lor_distr_l. by intros [? ?]%Z.lor_eq_0_iff. Qed.

Lemma frame_set_volatile c f : f = CLIENT_PENDING_WRITE \/ f = CLIENT_CLOSE_ASAP -> frame c (set_flags c (Z.lor (flags c) f)).
Proof.
  intros Hf. split; try done.
  - intros g [Hp Ha]%volatile_parts. rewrite flag_lor. destruct Hf as [->| ->]; [rewrite Hp | rewrite Ha]; cbn; apply orb_false_r.
  - intros Ha. by rewrite flag_lor, Ha.
Qed.

(** The changes that are not to the queue. *)
Definition quiet (c c' : client) : Prop := frame c c' /\ out_of c' = out_of c.

Lemma quiet_refl c : quiet c c.
Proof. done. Qed.

Lemma install_quiet sv c : quiet c (clientInstallWriteHandler sv c).2.
Proof. unfold clientInstallWriteHandler. destruct (_ && _); [|done]. split; [by apply frame_set_volatile; left | done]. Qed.

Lemma freeClientAsync_quiet sv c : quiet c (freeClientAsync sv c).2.
Proof. unfold freeClientAsync. destruct (_ || _); [done|]. split; [by apply frame_set_volatile; right | done]. Qed.

(** Whether a client gets replies, and whether they are queued. *)
Definition receives (c : client) : bool :=
  has_flag c (Z.lor CLIENT_LUA CLIENT_MODULE) ||
  negb (has_flag c CLIENT_CLOSE_ASAP) && negb (has_flag c (Z.lor CLIENT_REPLY_OFF CLIENT_REPLY_SKIP)) &&
  negb (has_flag c CLIENT_MASTER && negb (has_flag c CLIENT_MASTER_FORCE_REPLY)) && negb (bool_decide (cconn c = None)).
Definition accepts (c : client) : bool := receives c && negb (has_flag c CLIENT_CLOSE_AFTER_REPLY).

Lemma receives_frame c c' : frame c c' -> receives c' = has_flag c (Z.lor CLIENT_LUA CLIENT_MODULE) ||
  negb (has_flag c' CLIENT_CLOSE_ASAP) && negb (has_flag c (Z.lor CLIENT_REPLY_OFF CLIENT_REPLY_SKIP)) &&
  negb (has_flag c CLIENT_MASTER && negb (has_flag c CLIENT_MASTER_FORCE_REPLY)) && negb (bool_decide (cconn c = None)).
Proof. intros [? ? Hcn ? ? Hf _]. unfold receives. rewrite Hcn. by rewrite (Hf (Z.lor CLIENT_LUA CLIENT_MODULE)), (Hf (Z.lor CLIENT_REPLY_OFF CLIENT_REPLY_SKIP)), (Hf CLIENT_MASTER), (Hf CLIENT_MASTER_FORCE_REPLY) by done. Qed.

Lemma prepare_ok sv c : exists sv' c', prepareClientToWrite sv c = (sv', c', receives c) /\ quiet c c' /\ receives c' = receives c.
Proof.
  pose proof (install_quiet sv c) as Hq. unfold prepareClientToWrite. assert (receives c = receives c) as Hr by done. unfold receives at 2 in Hr.
  destruct (has_flag c (Z.lor _ CLIENT_MODULE)) eqn:Hl; [exists sv, c; rewrite Hr; split_and!; done|].
  destruct (has_flag c CLIENT_CLOSE_ASAP) eqn:Ha; [exists sv, c; rewrite Hr; split_and!; done|]. destruct (has_flag c (Z.lor CLIENT_REPLY_OFF _)) eqn:Ho; [exists sv, c; rewrite Hr; split_and!; done|].
  destruct (has_flag c CLIENT_MASTER && _) eqn:Hm; [exists sv, c; rewrite Hr; split_and!; done|]. destruct (bool_decide (cconn c = None)) eqn:Hc; [exists sv, c; rewrite Hr; split_and!; done|].
  destruct (negb (clientHasPendingReplies c) && _); [|exists sv, c; rewrite Hr; split_and!; done]. destruct (clientInstallWriteHandler sv c) as [sv' c'] eqn:He. cbn [snd] in Hq. exists sv', c'. rewrite Hr. split_and!; [done | done|].
  rewrite (receives_frame c c') by apply Hq. rewrite Hl, Ho, Hm, Hc. replace (has_flag c' CLIENT_CLOSE_ASAP) with false; [done|].
  unfold clientInstallWriteHandler in He. destruct (_ && _) in He; injection He as _ <-; [|done]. rewrite flag_lor, Ha. done.
Qed.

Lemma receives_mono c c' : frame c c' -> receives c' = true -> receives c = true.
Proof.
  intros Hfr. rewrite (receives_frame c c' Hfr). unfold receives. destruct (has_flag c (Z.lor CLIENT_LUA _)); [done|]. cbn [orb]. destruct (has_flag c CLIENT_CLOSE_ASAP) eqn:Ha; [by rewrite (fr_asap c c' Hfr)|].
  by destruct (has_flag c' CLIENT_CLOSE_ASAP).
Qed.

Lemma accepts_mono c c' : frame c c' -> accepts c' = true -> accepts c = true.
Proof.
  unfold accepts. intros Hfr [Hr Hc]%andb_true_iff. rewrite (receives_mono c c' Hfr Hr). by rewrite (fr_flags c c' Hfr) in Hc.
Qed.

(** ** Queueing bytes *)

Lemma bytes_app a b : bytes (a ++ b) = bytes a ++ bytes b.
Proof. apply fmap_app. Qed.

Lemma length_bytes s : length (bytes s) = length s.
Proof. apply length_fmap. Qed.

Lemma sizes_app a b : sizes (a ++ b) = sizes a + sizes b.
Proof. induction a as [|n a IH]; [done|]. cbn [app sizes foldr]. unfold sizes in *. lia. Qed.

Lemma ids_app a b : ids (a ++ b) = ids a ++ ids b.
Proof. apply bind_app. Qed.

Lemma sizes_nonneg l : Forall node_ok l -> 0 <= sizes l.
Proof. induction 1 as [|[id|b] l Hn _ IH]; cbn [sizes foldr node_size]; unfold sizes in *; [done | lia|]. destruct Hn. lia. Qed.

Lemma last_removelast {A} (l : list A) x : last l = Some x -> l = removelast l ++ [x].
Proof. intros Hl. apply last_Some in Hl as [k ->]. by rewrite removelast_app, app_nil_r. Qed.

(** Storing right after the part of a buffer that is used. *)
Lemma store_used m used s : 0 <= used -> used + zlen s <= zlen m ->
  exists m', mem_store m used s = Some m' /\ zlen m' = zlen m /\ take (Z.to_nat (used + zlen s)) m' = take (Z.to_nat used) m ++ s.
Proof.
  intros Hu Hs. destruct (split_at_len m used ltac:(pose proof (zlen_nonneg s); lia)) as (a & r & -> & Ha & Hr). rewrite zlen_app in Hs. destruct (split_at_len r (zlen s) ltac:(pose proof (zlen_nonneg s); lia)) as (b & t & -> & Hb & Ht).
  exists (a ++ s ++ t). split_and!.
  - apply mem_store_mid; [done | unfold zlen in Hb; lia].
  - rewrite !zlen_app. lia.
  - rewrite <- Ha at 1 2. rewrite <- zlen_app. unfold zlen. rewrite !Nat2Z.id, take_app_length. rewrite app_assoc. apply take_app_length.
Qed.

Lemma fill_block_ok b s : node_ok (Val b) -> exists b' s1 s2, fill_block b s = Some (b', s2) /\ s = s1 ++ s2 /\ node_ok (Val b') /\ b_size b' = b_size b /\
  b_used b' = b_used b + zlen s1 /\ node_view (Val b') = node_view (Val b) ++ bytes s1 /\ zlen s1 = Z.min (zlen s) (b_size b - b_used b).
Proof.
  intros [Hu Hb]. pose proof (zlen_nonneg s). unfold fill_block. set (copy := if zlen s <=? b_size b - b_used b then zlen s else b_size b - b_used b).
  assert (copy = Z.min (zlen s) (b_size b - b_used b)) as Hc by (unfold copy; destruct (Z.leb_spec (zlen s) (b_size b - b_used b)); lia).
  assert (zlen (take (Z.to_nat copy) s) = copy) as Hl by (unfold zlen in *; rewrite length_take; lia).
  destruct (store_used (b_buf b) (b_used b) (take (Z.to_nat copy) s)) as (m & -> & Hm & Ht); [lia | lia|]. simpl_bind.
  eexists _, (take (Z.to_nat copy) s), _. split; [done|]. rewrite take_drop. cbn [b_size b_used b_buf node_ok node_view]. split_and!; try done; try lia. rewrite <- bytes_app, <- Ht. by rewrite Hl.
Qed.

Record appended (c c' : client) (t : list token) : Prop := Appended {
  ap_frame : frame c c'; ap_ok : client_ok c'; ap_queued : queued c' = queued c ++ t; ap_sent : sentlen c' = sentlen c }.

Lemma sent_le c : client_ok c -> sentlen c <= zlen (queued c) /\ 0 <= sentlen c.
Proof.
  intros [Hb Hp Hn _ _ Hs _]. unfold queued. rewrite zlen_app. pose proof (zlen_nonneg (reply c ≫= node_view)). pose proof (zlen_nonneg (bytes (take (Z.to_nat (bufpos c)) (buf c)))).
  assert (zlen (bytes (take (Z.to_nat (bufpos c)) (buf c))) = bufpos c) as Hl by (unfold zlen, bytes in *; rewrite length_fmap, length_take; lia).
  destruct Hs as [->|[Hs|[Hz (b & rest & Hr & Hs)]]]; [lia | lia|]. rewrite Hr in Hn |- *. apply Forall_cons in Hn as [[Hu Hbb] _]. cbn [mbind list_bind]. fold (mbind (M := list) node_view). rewrite zlen_app.
  assert (zlen (node_view (Val b)) = b_used b) as Hv by (unfold node_view, zlen, bytes in *; rewrite length_fmap, length_take; lia). pose proof (zlen_nonneg (rest ≫= node_view)). lia.
Qed.

Lemma appended_pending c c' t : client_ok c -> appended c c' t -> pending c' = pending c ++ t.
Proof. intros Hok [_ _ Hq Hs]. destruct (sent_le c Hok). unfold pending. rewrite Hq, Hs. rewrite drop_app_le; [done|]. unfold zlen in *. lia. Qed.

Lemma quiet_appended c c' : client_ok c -> quiet c c' -> appended c c' [].
Proof. intros Hok [Hf Ho]. destruct (out_same c c' Ho Hok) as (Hok' & Hq & _). split; try done; [by rewrite app_nil_r|]. by injection Ho. Qed.

Lemma appended_trans c c1 c2 s t : appended c c1 s -> appended c1 c2 t -> appended c c2 (s ++ t).
Proof. intros [Hf1 Hok1 Hq1 Hs1] [Hf2 Hok2 Hq2 Hs2]. split; [by transitivity c1 | done | by rewrite Hq2, Hq1, app_assoc | congruence]. Qed.

Lemma toBuffer_ok c s : client_ok c -> has_flag c CLIENT_CLOSE_AFTER_REPLY = false ->
  exists c' done, _addReplyToBuffer c s = Some (c', done) /\ (if (done : bool) then appended c c' (bytes s) /\ next_node c' = next_node c /\ reply c' = reply c else c' = c).
Proof.
  intros Hok Hcl. unfold _addReplyToBuffer. rewrite Hcl. destruct (Z.ltb_spec 0 (zlen (reply c))) as [Hr|Hr]; [by exists c, false|]. destruct Hok as [Hb Hp Hn Hi Hx Hs Hby].
  destruct (Z.ltb_spec (zlen (buf c) - bufpos c) (zlen s)) as [Ha|Ha]; [by exists c, false|].
  destruct (store_used (buf c) (bufpos c) s) as (m & -> & Hm & Ht); [lia | lia|]. simpl_bind. exists (set_buf c m (bufpos c + zlen s)), true. split; [done|].
  pose proof (zlen_eq_nil (reply c) ltac:(pose proof (zlen_nonneg (reply c)); lia)) as Hnil. pose proof (zlen_nonneg s). split; [|done]. split; [by split | | | done].
  - split; cbn; try done; [lia | lia|]. destruct Hs as [Hs|[Hs|[_ (b & rest & Hr' & _)]]]; [by left | right; left; cbn; lia | congruence].
  - unfold queued. cbn. rewrite Hnil. cbn. by rewrite Ht, bytes_app, !app_nil_r.
Qed.

(** The output limits: only the flag that closes the client changes. *)
Lemma close_ok sv c : reply_bytes c < SIZE_MAX - 1024 * 64 -> exists sv' c', closeClientOnOutputBufferLimitReached sv c = Some (sv', c') /\ quiet c c'.
Proof.
  intros Hb. unfold closeClientOnOutputBufferLimitReached. case_bool_decide; [by exists sv, c|]. rewrite (proj2 (Z.ltb_lt _ _)) by done. cbn [negb].
  destruct (_ || _); [by exists sv, c|]. unfold checkClientOutputBufferLimits. cbv zeta.
  assert (forall t, quiet c (set_soft_time c t)) as Hq by (intros t; split; [by split | done]).
  assert (forall c1 (r : bool), quiet c c1 -> exists sv' c', Some (if r then freeClientAsync sv c1 else (sv, c1)) = Some (sv', c') /\ quiet c c') as Hend.
  { intros c1 [] [Hf Ho]; [|by exists sv, c1]. destruct (freeClientAsync_quiet sv c1) as [Hf2 Ho2]. destruct (freeClientAsync sv c1) as [sv' c']. cbn [snd] in *. exists sv', c'. split; [done|]. split; [by transitivity c1 | congruence]. }
  destruct (_ && (soft_limit_bytes _ <=? _)); [destruct (_ =? 0)|]; apply Hend; by apply Hq || done.
Qed.

Section queueing.
Context `{Allocator}.

(** A bound for a block of [n] bytes, and that the memory of a client after [k] more blocks for at most [n] bytes is what the code can count. *)
Definition block_bound (u n : Z) : Prop := forall j, j <= Z.max n PROTO_REPLY_CHUNK_BYTES -> malloc_usable_size (j + sizeof_block) <= u.
Definition room (c : client) (k n : Z) : Prop := exists u, block_bound u n /\ sizes (reply c) + k * u < SIZE_MAX - 1024 * 64.

(** One block at most was added for [n] bytes. *)
Definition costs (c c' : client) (n : Z) : Prop := forall u, block_bound u n -> sizes (reply c') <= sizes (reply c) + u.

Lemma block_bound_pos u n : block_bound u n -> 0 < u.
Proof. intros Hu. specialize (Hu 0 ltac:(unfold PROTO_REPLY_CHUNK_BYTES; lia)). pose proof (malloc_usable_size_ge (0 + sizeof_block)). unfold sizeof_block in *. lia. Qed.

Lemma block_bound_le u n n' : n' <= n -> block_bound u n -> block_bound u n'.
Proof. intros Hn Hu j Hj. apply Hu. lia. Qed.

Lemma room_le c k k' n n' : room c k n -> k' <= k -> n' <= n -> room c k' n'.
Proof. intros (u & Hu & Hs) Hk Hn. exists u. split; [by eapply block_bound_le|]. pose proof (block_bound_pos u n Hu). nia. Qed.

Lemma room_step c c' k n n' : costs c c' n' -> n' <= n -> room c (1 + k) n -> room c' k n.
Proof. intros Hc Hn (u & Hu & Hs). exists u. split; [done|]. specialize (Hc u (block_bound_le u n n' Hn Hu)). lia. Qed.

Lemma new_block_ok n s : 0 <= n -> zlen s <= n -> exists size mem m, new_block n = (size, mem) /\ mem_store mem 0 s = Some m /\ node_ok (Val (Block size (zlen s) m)) /\
  node_view (Val (Block size (zlen s) m)) = bytes s /\ size = malloc_usable_size (n + sizeof_block) - sizeof_block.
Proof.
  intros Hn Hs. unfold new_block. set (size := malloc_usable_size (n + sizeof_block) - sizeof_block). pose proof (malloc_usable_size_ge (n + sizeof_block)) as Hge. pose proof (zlen_nonneg s).
  assert (zlen (junk_bytes 0 (Z.to_nat size)) = size) as Hj by (unfold zlen; rewrite length_junk_bytes; unfold size, sizeof_block in *; lia).
  destruct (store_used (junk_bytes 0 (Z.to_nat size)) 0 s) as (m & Hm & Hlen & Ht); [done | unfold size, sizeof_block in *; lia|].
  exists size, (junk_bytes 0 (Z.to_nat size)), m. split_and!; try done.
  - cbn. unfold size, sizeof_block in *. lia.
  - cbn. rewrite Z.add_0_l in Ht. by rewrite Ht.
Qed.

Lemma u64_add a b : u64 (u64 a + b) = u64 (a + b).
Proof. unfold uwrap. apply Zplus_mod_idemp_l. Qed.

Lemma bind_snoc_view l n : (l ++ [n]) ≫= node_view = (l ≫= node_view) ++ node_view n.
Proof. rewrite bind_app. cbn. by rewrite app_nil_r. Qed.

(** The last block grows. *)
Lemma grow_tail c b b' s : client_ok c -> last (reply c) = Some (Val b) -> node_ok (Val b') -> b_size b' = b_size b -> b_used b' = b_used b + zlen s -> node_view (Val b') = node_view (Val b) ++ bytes s ->
  appended c (set_reply c (removelast (reply c) ++ [Val b']) (next_node c) (reply_bytes c)) (bytes s).
Proof.
  intros [Hb Hp Hn Hi Hx Hs Hby] Hlast Hok' Hsz Hu Hv. apply last_removelast in Hlast. set (l := removelast (reply c)) in *. pose proof (zlen_nonneg s). split; [by split | | | done].
  - rewrite Hlast in Hn, Hi, Hx, Hby. rewrite ids_app, app_nil_r in Hi, Hx. apply Forall_app in Hn as [Hn _]. split; cbn -[uwrap]; try done.
    + by rewrite Forall_app, Forall_singleton.
    + by rewrite ids_app, app_nil_r.
    + by rewrite ids_app, app_nil_r.
    + destruct Hs as [Hs|[Hs|[Hz (b0 & rest & Hr & Hs)]]]; [by left | by right; left | right; right]. split; [done|]. rewrite Hlast in Hr. cbn. destruct l as [|n l]; cbn in Hr |- *.
      * injection Hr as <- <-. exists b', []. split; [done | lia].
      * injection Hr as -> <-. eauto.
    + rewrite Hby, !sizes_app. cbn -[uwrap]. by rewrite Hsz.
  - unfold queued. cbn -[node_view]. rewrite bind_snoc_view, Hv, Hlast. by rewrite bind_snoc_view, <- !app_assoc.
Qed.

(** A block is added at the end. *)
Lemma add_block c b s : client_ok c -> node_ok (Val b) -> node_view (Val b) = bytes s ->
  appended c (set_reply c (reply c ++ [Val b]) (next_node c) (u64 (reply_bytes c + b_size b))) (bytes s).
Proof.
  intros [Hb Hp Hn Hi Hx Hs Hby] Hok Hv. split; [by split | | | done].
  - split; cbn -[uwrap]; try done.
    + by rewrite Forall_app, Forall_singleton.
    + by rewrite ids_app, app_nil_r.
    + by rewrite ids_app, app_nil_r.
    + destruct Hs as [Hs|[Hs|[Hz (b0 & rest & Hr & Hs)]]]; [by left | by right; left | right; right]. split; [done|]. exists b0, (rest ++ [Val b]). cbn. by rewrite Hr.
    + rewrite Hby, u64_add, sizes_app. cbn -[uwrap]. f_equal. lia.
  - unfold queued. cbn -[node_view]. by rewrite bind_snoc_view, Hv, app_assoc.
Qed.

Lemma toList_ok sv c s : client_ok c -> has_flag c CLIENT_CLOSE_AFTER_REPLY = false -> room c 1 (zlen s) ->
  exists sv' c', _addReplyProtoToList sv c s = Some (sv', c') /\ appended c c' (bytes s) /\ next_node c' = next_node c /\ costs c c' (zlen s).
Proof.
  intros Hok Hcl Hroom. unfold _addReplyProtoToList. rewrite Hcl.
  assert (exists c1 s1 s2, (match last (reply c) with
      | Some (Val tail) => '(tail, s) ← fill_block tail s; Some (set_reply c (removelast (reply c) ++ [Val tail]) (next_node c) (reply_bytes c), s)
      | _ => Some (c, s) end) = Some (c1, s2) /\ s = s1 ++ s2 /\ appended c c1 (bytes s1) /\ next_node c1 = next_node c /\ sizes (reply c1) = sizes (reply c)) as (c1 & s1 & s2 & -> & Hs & Hap & Hnx & Hsz).
  { pose proof (quiet_appended c c Hok (quiet_refl c)) as Hrefl. destruct (last (reply c)) as [[id|b]|] eqn:Hlast; [by exists c, [], s | | by exists c, [], s].
    assert (node_ok (Val b)) as Hnb by (pose proof (ok_nodes c Hok) as Hn; rewrite (last_removelast _ _ Hlast) in Hn; apply Forall_app in Hn as [_ Hn]; exact (proj1 (Forall_singleton _ _) Hn)).
    destruct (fill_block_ok b s Hnb) as (b' & s1 & s2 & -> & Hs & Hok' & Hsz & Hu & Hv & _). simpl_bind. eexists _, s1, s2. split; [done|]. split; [done|]. split; [by eapply grow_tail|]. split; [done|].
    cbn. rewrite (last_removelast _ _ Hlast) at 2. rewrite !sizes_app. cbn. by rewrite Hsz. }
  destruct Hroom as (u & Hu & Hroom). simpl_bind. destruct (Z.eqb_spec (zlen s2) 0) as [Hz|Hz].
  { apply zlen_eq_nil in Hz as ->. rewrite app_nil_r in Hs. subst s1. exists sv, c1. split_and!; [done..|]. intros u' Hu'%block_bound_pos. lia. }
  set (n := if zlen s2 <? PROTO_REPLY_CHUNK_BYTES then PROTO_REPLY_CHUNK_BYTES else zlen s2).
  assert (n = Z.max (zlen s2) PROTO_REPLY_CHUNK_BYTES) as Hn by (unfold n; destruct (Z.ltb_spec (zlen s2) PROTO_REPLY_CHUNK_BYTES); lia). pose proof (zlen_nonneg s2). pose proof (zlen_nonneg s1).
  assert (n <= Z.max (zlen s) PROTO_REPLY_CHUNK_BYTES) as Hle by (rewrite Hs, zlen_app; lia).
  destruct (new_block_ok n s2) as (size & mem & m & -> & -> & Hbok & Hbv & Hbs); [lia | lia|]. simpl_bind.
  pose proof (add_block c1 _ s2 (ap_ok _ _ _ Hap) Hbok Hbv) as Hap2. cbn [b_size] in Hap2. set (c2 := set_reply c1 _ _ _) in *.
  assert (sizes (reply c2) = sizes (reply c) + size) as Hsz2 by (cbn; rewrite sizes_app, Hsz; cbn; lia).
  destruct (close_ok sv c2) as (sv' & c3 & -> & Hq).
  { rewrite (ok_bytes c2 (ap_ok _ _ _ Hap2)), Hsz2. specialize (Hu n Hle). destruct Hbok as [[? ?] _]. cbn [b_used b_size] in *. pose proof (sizes_nonneg _ (ok_nodes c Hok)). unfold sizeof_block, SIZE_MAX in *. rewrite uwrap_small; lia. }
  exists sv', c3. split; [done|]. split_and!.
  - rewrite Hs, bytes_app. eapply appended_trans; [exact Hap|]. rewrite <- (app_nil_r (bytes s2)). eapply appended_trans; [exact Hap2|]. by apply quiet_appended; [apply (ap_ok _ _ _ Hap2)|].
  - destruct Hq as [_ Ho]. by injection Ho as _ _ _ _ -> _.
  - intros u' Hu'. destruct Hq as [_ Ho]. assert (reply c3 = reply c2) as -> by (by injection Ho). rewrite Hsz2. specialize (Hu' n Hle). unfold sizeof_block in *. lia.
Qed.

(** A client that gets replies but for the output limits: [t] is queued, or a part of it when the client is closed. *)
Record emitted (c c' : client) (k : Z) (t : list Z) : Prop := Emitted {
  em_part : exists t', t' `prefix_of` t /\ appended c c' (bytes t') /\ (accepts c' = true -> t' = t) /\ (accepts c = false -> t' = []);
  em_next : next_node c' = next_node c;
  em_room : forall m n, 0 <= m -> zlen t <= n -> room c (k + m) n -> room c' m n }.

Definition emits (c : client) (k : Z) (t : list Z) (r : option (oserver * client)) : Prop :=
  client_ok c -> room c k (zlen t) -> exists sv' c', r = Some (sv', c') /\ emitted c c' k t.

Lemma emitted_ok c c' k t : emitted c c' k t -> client_ok c' /\ frame c c'.
Proof. intros [(t' & _ & [] & _) _ _]. done. Qed.

Lemma emitted_refl c : client_ok c -> emitted c c 0 [].
Proof. intros Hok. split; [|done | by intros m n _ _]. exists []. split_and!; [done | by apply (quiet_appended c c Hok) | done | done]. Qed.

Lemma emits_nil sv c : emits c 0 [] (Some (sv, c)).
Proof. intros Hok _. exists sv, c. split; [done | by apply emitted_refl]. Qed.

Lemma emitted_trans c c1 c2 k1 k2 t1 t2 : 0 <= k1 -> 0 <= k2 -> emitted c c1 k1 t1 -> emitted c1 c2 k2 t2 -> emitted c c2 (k1 + k2) (t1 ++ t2).
Proof.
  intros Hk1 Hk2 [(p1 & Hp1 & Ha1 & Hf1 & Hn1) Hx1 Hr1] [(p2 & Hp2 & Ha2 & Hf2 & Hn2) Hx2 Hr2]. split.
  - exists (p1 ++ p2). rewrite bytes_app. split_and!; [| by eapply appended_trans | |].
    + destruct (accepts c1) eqn:Hac; [|rewrite Hn2, app_nil_r by done; by apply prefix_app_r]. rewrite Hf1 by done. by apply prefix_app.
    + intros Hac. rewrite (Hf2 Hac). rewrite Hf1; [done|]. eapply accepts_mono; [apply Ha2 | done].
    + intros Hac. rewrite (Hn1 Hac). apply Hn2. destruct (accepts c1) eqn:Hac1; [|done]. by rewrite (accepts_mono c c1 (ap_frame _ _ _ Ha1) Hac1) in Hac.
  - congruence.
  - intros m n Hm Hn Hroom. rewrite zlen_app in Hn. pose proof (zlen_nonneg t1). pose proof (zlen_nonneg t2). apply Hr2; [done | lia|]. apply Hr1; [lia | lia|]. by rewrite Z.add_assoc.
Qed.

Lemma emits_bind c k1 k2 t1 t2 r f : 0 <= k1 -> 0 <= k2 -> emits c k1 t1 r -> (forall sv c1, frame c c1 -> emits c1 k2 t2 (f sv c1)) -> emits c (k1 + k2) (t1 ++ t2) ('(sv, c) ← r; f sv c).
Proof.
  intros Hk1 Hk2 Hr Hf Hok Hroom. pose proof (zlen_nonneg t1). pose proof (zlen_nonneg t2). rewrite zlen_app in Hroom.
  destruct (Hr Hok) as (sv1 & c1 & -> & He1); [eapply room_le; [exact Hroom | lia | lia]|]. simpl_bind. destruct (emitted_ok _ _ _ _ He1) as [Hok1 Hfr].
  destruct (Hf sv1 c1 Hfr Hok1) as (sv2 & c2 & -> & He2); [eapply room_le; [apply (em_room _ _ _ _ He1 k2 (zlen t1 + zlen t2)); [done | lia | done] | lia | lia]|].
  exists sv2, c2. split; [done | by eapply emitted_trans].
Qed.

Lemma addReplyProto_emits sv c s : emits c 1 s (addReplyProto sv c s).
Proof.
  intros Hok Hroom. unfold addReplyProto. destruct (prepare_ok sv c) as (sv1 & c1 & -> & Hq & Hrec). pose proof (quiet_appended c c1 Hok Hq) as Hap1. pose proof (ap_ok _ _ _ Hap1) as Hok1.
  assert (next_node c1 = next_node c /\ reply c1 = reply c) as [Hnx Hrp] by (destruct Hq as [_ Ho]; by injection Ho).
  assert (forall m n, 0 <= m -> room c (1 + m) n -> room c1 m n) as Hroom1 by (intros m n Hm Hr; unfold room; rewrite Hrp; eapply (room_le c); [exact Hr | lia | lia]).
  assert (room c1 1 (zlen s)) as Hrm1 by (unfold room; by rewrite Hrp).
  assert (accepts c1 = accepts c) as Hacc by (unfold accepts; rewrite Hrec; by rewrite (fr_flags c c1 (ap_frame _ _ _ Hap1))).
  assert (has_flag c1 CLIENT_CLOSE_AFTER_REPLY = has_flag c CLIENT_CLOSE_AFTER_REPLY) as Hcl by (by apply (ap_frame _ _ _ Hap1)).
  assert (accepts c = false -> exists sv' c', Some (sv1, c1) = Some (sv', c') /\ emitted c c' 1 s) as Hnone.
  { intros Hac. exists sv1, c1. split; [done|]. split; [|done | auto]. exists []. split_and!; [apply prefix_nil | done | congruence | done]. }
  destruct (receives c) eqn:Hrc; cbn [negb]; [|apply Hnone; unfold accepts; by rewrite Hrc].
  destruct (has_flag c CLIENT_CLOSE_AFTER_REPLY) eqn:Hca.
  { unfold _addReplyToBuffer. rewrite Hcl. simpl_bind. apply Hnone. unfold accepts. rewrite Hca. apply andb_false_r. }
  assert (accepts c = true) as Hac by (unfold accepts; by rewrite Hrc, Hca).
  assert (forall (sv' : oserver) c', appended c1 c' (bytes s) -> next_node c' = next_node c1 -> costs c1 c' (zlen s) -> exists sv'' c'', Some (sv', c') = Some (sv'', c'') /\ emitted c c'' 1 s) as Hsome.
  { intros sv' c' Hap' Hnx' Hco. exists sv', c'. split; [done|]. split; [| congruence |].
    - exists s. split_and!; [done | apply (appended_trans _ _ _ [] _ Hap1 Hap') | done | congruence].
    - intros m n Hm Hn Hr. eapply room_step; [exact Hco | exact Hn|]. unfold room. rewrite Hrp. exact Hr. }
  destruct (toBuffer_ok c1 s Hok1 Hcl) as (c2 & [] & -> & Hap2); simpl_bind.
  - destruct Hap2 as (Hap2 & Hn2 & Hr2). apply Hsome; [done | done|]. intros u Hu%block_bound_pos. rewrite Hr2. lia.
  - subst c2. destruct (toList_ok sv1 c1 s Hok1 Hcl Hrm1) as (sv' & c' & -> & Hap' & Hn' & Hco). by apply Hsome.
Qed.

Definition obj_bytes (o : string_obj) : list Z := match o with sds_obj s => s | int_obj n => ll2string_out n end.
Definition obj_ok (o : string_obj) : Prop := match o with sds_obj s => zlen s < 2 ^ 62 | int_obj n => is_ll n end.

(** The digits in a buffer that is large enough *)
Lemma ll2string_load dst n : is_ll n -> 20 < zlen dst -> exists b, ll2string dst (zlen dst) n = Some (b, zlen (ll2string_out n)) /\ mem_load b 0 (zlen (ll2string_out n)) = Some (ll2string_out n).
Proof.
  intros Hn Hd. pose proof (sdigits10_le n Hn). destruct (ll2string_fits dst (zlen dst) n Hn) as (d & Hcan & Hdl & ->); [lia | lia|].
  assert (d = ll2string_out n) as -> by (eapply canonical_inj; [exact Hcan | by apply ll2string_out_canonical]). eexists. split; [done|]. by apply mem_load_head.
Qed.

Lemma zlen_junk n : 0 <= n -> zlen (junk_bytes 0 (Z.to_nat n)) = n.
Proof. intros Hn. unfold zlen. rewrite length_junk_bytes. lia. Qed.

Lemma addReply_emits sv c o : obj_ok o -> emits c 1 (obj_bytes o) (addReply sv c o).
Proof.
  destruct o as [s|n]; intros Ho; [apply addReplyProto_emits|]. cbn [obj_bytes addReply]. pose proof (addReplyProto_emits sv c (ll2string_out n)) as He. intros Hok Hroom. specialize (He Hok Hroom).
  unfold addReplyProto in He. destruct (prepareClientToWrite sv c) as [[sv1 c1] ok]. destruct (negb ok); [done|].
  destruct (ll2string_load (junk_bytes 0 (Z.to_nat 32)) n Ho) as (b & Hb & Hl); [by rewrite zlen_junk|]. rewrite zlen_junk in Hb by done. change (Z.to_nat 32) with 32%nat in Hb. rewrite Hb. simpl_bind. rewrite Hl. exact He.
Qed.

Lemma prefixed_emits sv c ll prefix : is_byte prefix -> is_ll ll -> emits c 1 (len_line prefix ll) (addReplyLongLongWithPrefix sv c ll prefix).
Proof.
  intros Hp Hll. unfold addReplyLongLongWithPrefix. destruct (_ && _ && _) eqn:H1; [|destruct (_ && _ && _) eqn:H2 in |- *].
  - rewrite !andb_true_iff, Z.eqb_eq in H1. destruct H1 as [[-> _] _]. apply addReplyProto_emits.
  - rewrite !andb_true_iff, Z.eqb_eq in H2. destruct H2 as [[-> _] _]. apply addReplyProto_emits.
  - destruct (cat_len_line_ok (junk_bytes 0 128) prefix ll) as (b & -> & _); [unfold zlen; rewrite length_junk_bytes; lia | done | done|]. simpl_bind. apply addReplyProto_emits.
Qed.

Lemma addReplyLongLong_emits sv c ll : is_ll ll -> emits c 1 (len_line (chr ":") ll) (addReplyLongLong sv c ll).
Proof.
  intros Hll. unfold addReplyLongLong. destruct (Z.eqb_spec ll 0) as [->|_]; [apply addReplyProto_emits|]. destruct (Z.eqb_spec ll 1) as [->|_]; [apply addReplyProto_emits|]. by apply prefixed_emits.
Qed.

Lemma addReplyArrayLen_emits sv c n : 0 <= n < 2 ^ 63 -> emits c 1 (len_line (chr "*") n) (addReplyArrayLen sv c n).
Proof. intros Hn. unfold addReplyArrayLen, addReplyAggregateLen. rewrite (proj2 (Z.ltb_ge _ _)) by lia. apply prefixed_emits; [done|]. unfold is_ll. unfold_limits. lia. Qed.

Lemma obj_len o : obj_ok o -> stringObjectLen o = zlen (obj_bytes o) /\ is_ll (zlen (obj_bytes o)).
Proof.
  destruct o as [s|n]; cbn; intros Ho.
  - split; [done|]. apply is_ll_len. pose proof (zlen_nonneg s). lia.
  - rewrite (canonical_zlen _ n Ho (ll2string_out_canonical n Ho)). split; [done|]. pose proof (sdigits10_le n Ho). pose proof (zlen_nonneg (ll2string_out n)) as Hz. rewrite (canonical_zlen _ n Ho (ll2string_out_canonical n Ho)) in Hz. apply is_ll_len. lia.
Qed.

Lemma addReplyBulk_emits sv c o : obj_ok o -> emits c 3 (bulk (obj_bytes o)) (addReplyBulk sv c o).
Proof.
  intros Ho. unfold addReplyBulk, addReplyBulkLen, bulk. destruct (obj_len o Ho) as [-> Hll].
  apply (emits_bind c 1 2); [done | done | by apply prefixed_emits|]. intros sv1 c1 _. apply (emits_bind c1 1 1); [done | done | by apply addReply_emits|]. intros sv2 c2 _. by apply addReplyProto_emits.
Qed.

Lemma addReplyBulkCBuffer_emits sv c p : zlen p < 2 ^ 62 -> emits c 3 (bulk p) (addReplyBulkCBuffer sv c p).
Proof.
  intros Ho. apply (addReplyBulk_emits sv c (sds_obj p) Ho).
Qed.

Lemma addReplyBulkLongLong_emits sv c n : is_ll n -> emits c 3 (bulk (ll2string_out n)) (addReplyBulkLongLong sv c n).
Proof.
  intros Hn. unfold addReplyBulkLongLong. destruct (ll2string_load (junk_bytes 0 (Z.to_nat 64)) n Hn) as (b & Hb & Hl); [by rewrite zlen_junk|]. rewrite zlen_junk in Hb by done. change (Z.to_nat 64) with 64%nat in Hb.
  rewrite Hb. simpl_bind. rewrite Hl. simpl_bind. apply addReplyBulkCBuffer_emits. by apply ll_out_small.
Qed.

Lemma addReplyErrorLength_emits sv c s : emits c 3 ((if (zlen s =? 0) || negb (hd 0 s =? chr "-") then str "-ERR " else []) ++ s ++ [CR; LF]) (addReplyErrorLength sv c s).
Proof.
  unfold addReplyErrorLength. apply (emits_bind c 1 2); [done | done | |].
  - destruct (_ || _); [apply addReplyProto_emits|]. intros Hok Hroom. exists sv, c. split; [done|]. destruct (emitted_refl c Hok) as [He Hx Hr]. split; [done | done|]. intros m n Hm Hn Hrm. eapply room_le; [exact Hrm | lia | lia].
  - intros sv1 c1 _. apply (emits_bind c1 1 1); [done | done | apply addReplyProto_emits|]. intros sv2 c2 _. apply addReplyProto_emits.
Qed.

(** ** Lengths that are filled in later *)

(** The placeholder [id] becomes [s]. *)
Definition fill (id : Z) (s : list Z) (q : list token) : list token :=
  q ≫= fun t => match t with inl _ => [t] | inr i => if i =? id then bytes s else [t] end.

Lemma fill_app id s a b : fill id s (a ++ b) = fill id s a ++ fill id s b.
Proof. apply bind_app. Qed.

Lemma fill_bytes id s p : fill id s (bytes p) = bytes p.
Proof. induction p as [|x p IH]; [done|]. unfold fill, bytes in *. cbn in *. by rewrite IH. Qed.

Lemma ids_cons n l : ids (n :: l) = (match n with Null id => [id] | Val _ => [] end) ++ ids l.
Proof. done. Qed.

Lemma fill_view id s l : id ∉ ids l -> fill id s (l ≫= node_view) = l ≫= node_view.
Proof.
  induction l as [|n l IH]; [done|]. intros Hid. rewrite ids_cons, elem_of_app in Hid. change ((n :: l) ≫= node_view) with (node_view n ++ (l ≫= node_view)).
  rewrite fill_app, IH by tauto. f_equal. destruct n as [i|b]; [|apply fill_bytes]. cbn. rewrite (proj2 (Z.eqb_neq i id)); [done|]. intros ->. apply Hid. left. cbn. by left.
Qed.

Lemma find_node_ok id l : id ∈ ids l -> exists before after, find_node id l = Some (before, after) /\ l = before ++ Null id :: after.
Proof.
  induction l as [|n l IH]; [by intros ?%elem_of_nil|]. intros Hid. rewrite ids_cons, elem_of_app in Hid. cbn [find_node]. destruct n as [i|b].
  - destruct (Z.eqb_spec i id) as [->|Hne]; [by exists [], l|]. destruct Hid as [Hid|Hid]; [cbn in Hid; by apply list_elem_of_singleton in Hid|]. destruct (IH Hid) as (b & a & -> & ->). simpl_bind. by eexists _, a.
  - destruct Hid as [[]%elem_of_nil|Hid]. destruct (IH Hid) as (b' & a & -> & ->). simpl_bind. by eexists _, a.
Qed.

Lemma sent_bytes c : client_ok c -> exists p, queued c = bytes p ++ pending c /\ zlen p = sentlen c.
Proof.
  intros Hok. destruct (sent_le c Hok) as [Hle Hpos]. unfold pending. enough (exists p, take (Z.to_nat (sentlen c)) (queued c) = bytes p) as [p Hp].
  { exists p. rewrite <- Hp, take_drop. split; [done|]. apply (f_equal zlen) in Hp. unfold zlen, bytes in *. rewrite length_take, length_fmap in Hp. lia. }
  destruct Hok as [Hb Hps Hn _ _ Hs _]. unfold queued. destruct Hs as [->|[Hs|[Hz (b & rest & Hr & Hs)]]].
  - by exists [].
  - unfold bytes. rewrite take_app_le by (unfold zlen in *; rewrite length_fmap, length_take; lia). exists (take (Z.to_nat (sentlen c)) (take (Z.to_nat (bufpos c)) (buf c))). by rewrite <- fmap_take.
  - rewrite Hz, Hr. change (take (Z.to_nat 0) (buf c)) with (@nil Z). cbn. rewrite Hr in Hn. apply Forall_cons in Hn as [[Hu Hbb] _]. unfold bytes. rewrite take_app_le by (unfold zlen in *; rewrite length_fmap, length_take; lia).
    exists (take (Z.to_nat (sentlen c)) (take (Z.to_nat (b_used b)) (b_buf b))). by rewrite <- fmap_take.
Qed.

Record filled (c c' : client) (id : Z) (s : list Z) : Prop := Filled {
  fl_frame : frame c c'; fl_ok : client_ok c'; fl_queued : queued c' = fill id s (queued c); fl_sent : sentlen c' = sentlen c; fl_next : next_node c' = next_node c }.

Lemma filled_pending c c' id s : client_ok c -> filled c c' id s -> pending c' = fill id s (pending c).
Proof.
  intros Hok [_ _ Hq Hs _]. destruct (sent_bytes c Hok) as (p & Hqp & Hp). unfold pending at 1. rewrite Hq, Hs, Hqp, fill_app, fill_bytes, <- Hp. unfold zlen. rewrite Nat2Z.id, <- length_bytes. apply drop_app_length.
Qed.

Lemma filled_quiet c c1 c2 id s : filled c c1 id s -> quiet c1 c2 -> filled c c2 id s.
Proof. intros [Hf Hok Hq Hs Hn] [Hf2 Ho]. destruct (out_same c1 c2 Ho Hok) as (Hok2 & Hq2 & _). injection Ho as _ _ Hs2 _ Hn2 _. split; [by transitivity c1 | done | congruence..]. Qed.

(** The nodes before the placeholder may have been extended with [s]. *)
Record extended (l l' : list node) (s : list Z) : Prop := Extended {
  ex_ok : Forall node_ok l'; ex_ids : ids l' = ids l; ex_sizes : sizes l' = sizes l; ex_view : l' ≫= node_view = (l ≫= node_view) ++ bytes s;
  ex_head : forall b rest, l = Val b :: rest -> exists b' rest', l' = Val b' :: rest' /\ b_used b <= b_used b' }.

Lemma replace_ok c before after before' l' id s1 s2 bytes' : client_ok c -> reply c = before ++ Null id :: after -> extended before before' s1 ->
  Forall node_ok l' -> ids l' = ids after -> l' ≫= node_view = bytes s2 ++ (after ≫= node_view) -> bytes' = u64 (sizes before + sizes l') ->
  filled c (set_reply c (before' ++ l') (next_node c) bytes') id (s1 ++ s2).
Proof.
  intros [Hb Hp Hn Hi Hx Hs Hby] Hr [Heok Heids Hesz Hev Hehd] Hok' Hids Hv ->. rewrite Hr in Hi, Hx. rewrite ids_app in Hi, Hx. change (ids (Null id :: after)) with (id :: ids after) in Hi, Hx.
  apply NoDup_app in Hi as (Hi1 & Hi2 & Hi3). apply NoDup_cons in Hi3 as [Hi3 Hi4]. apply Forall_app in Hx as [Hx1 Hx2]. apply Forall_cons in Hx2 as [_ Hx2].
  assert (id ∉ ids before) as Hni by (intros Hin; by apply (Hi2 id Hin), list_elem_of_here). split; [by split | | | done | done].
  - split; cbn -[uwrap]; try done.
    + by apply Forall_app.
    + rewrite ids_app, Heids, Hids. apply NoDup_app. split_and!; [done | | done]. intros i Hin Hin2. apply (Hi2 i Hin). by apply list_elem_of_further.
    + rewrite ids_app, Heids, Hids. by apply Forall_app.
    + destruct Hs as [Hs|[Hs|[Hz (b & rest & Hr2 & Hs)]]]; [by left | by right; left | right; right]. split; [done|]. cbn. rewrite Hr in Hr2. destruct before as [|n before]; [done|]. injection Hr2 as -> _.
      destruct (Hehd b before eq_refl) as (b' & rest' & -> & Hle). exists b', (rest' ++ l'). split; [done | lia].
    + by rewrite sizes_app, Hesz.
  - assert (fill id (s1 ++ s2) ((Null id :: after) ≫= node_view) = bytes s1 ++ bytes s2 ++ (after ≫= node_view)) as Hf.
    { change (fill id (s1 ++ s2) ((Null id :: after) ≫= node_view)) with ((if id =? id then bytes (s1 ++ s2) else [inr id]) ++ fill id (s1 ++ s2) (after ≫= node_view)).
      by rewrite Z.eqb_refl, fill_view, bytes_app, <- app_assoc. }
    unfold queued. cbn -[node_view]. by rewrite Hr, !bind_app, Hev, Hv, fill_app, fill_bytes, fill_app, fill_view, Hf, <- !app_assoc.
Qed.

Lemma extended_refl l : Forall node_ok l -> extended l l [].
Proof. intros Hl. split; [done | done | done | by rewrite app_nil_r|]. intros b rest ->. by exists b, rest. Qed.

Lemma extend_last l b b' s : Forall node_ok l -> last l = Some (Val b) -> node_ok (Val b') -> b_size b' = b_size b -> b_used b' = b_used b + zlen s -> node_view (Val b') = node_view (Val b) ++ bytes s ->
  extended l (removelast l ++ [Val b']) s.
Proof.
  intros Hl Hlast Hok Hsz Hu Hv. apply last_removelast in Hlast. set (k := removelast l) in *. rewrite Hlast in Hl |- *. apply Forall_app in Hl as [Hk _]. pose proof (zlen_nonneg s). split.
  - by rewrite Forall_app, Forall_singleton.
  - by rewrite !ids_app.
  - rewrite !sizes_app. cbn. by rewrite Hsz.
  - by rewrite !bind_snoc_view, Hv, app_assoc.
  - intros b0 rest Hr. destruct k as [|n k]; cbn in Hr |- *.
    + injection Hr as <- <-. exists b', []. split; [done | lia].
    + injection Hr as -> <-. eauto with lia.
Qed.

Lemma block_view_cons b l : (Val b :: l) ≫= node_view = node_view (Val b) ++ (l ≫= node_view).
Proof. done. Qed.

(** s is put in front of what a block holds *)
Lemma prepend_block b s : node_ok (Val b) -> zlen s <= b_size b - b_used b -> exists m1 m, memmove (b_buf b) (zlen s) 0 (b_used b) = Some m1 /\ mem_store m1 0 s = Some m /\
  node_ok (Val (Block (b_size b) (b_used b + zlen s) m)) /\ node_view (Val (Block (b_size b) (b_used b + zlen s) m)) = bytes s ++ node_view (Val b).
Proof.
  intros [Hu Hb] Hs. pose proof (zlen_nonneg s). destruct (split_at_len (b_buf b) (b_used b)) as (d & t & Hd & Hdl & Htl); [lia|]. unfold memmove. rewrite Hd, mem_load_head by done. simpl_bind.
  assert (exists m1, mem_store (d ++ t) (zlen s) d = Some m1 /\ zlen m1 = b_size b /\ exists h r, m1 = h ++ d ++ r /\ zlen h = zlen s) as (m1 & Hm1 & Hl1 & h & r & -> & Hh).
  { destruct (split_at_len (d ++ t) (zlen s)) as (h & r0 & He & Hh & Hr0); [rewrite <- Hd; lia|]. rewrite He. rewrite <- Hd in Hr0. destruct (split_at_len r0 (zlen d)) as (x & r & -> & Hx & Hr); [lia|].
    exists (h ++ d ++ r). rewrite (mem_store_mid h x d r) by (unfold zlen in *; lia). split; [done|]. rewrite zlen_app in Hr0. rewrite !zlen_app. split; [lia | eauto]. }
  exists (h ++ d ++ r), (s ++ d ++ r). split; [done|]. split; [apply (mem_store_mid [] h s); [done | unfold zlen in *; lia]|]. rewrite !zlen_app in Hl1. cbn [node_ok node_view b_size b_used b_buf]. split_and!; [lia | lia | rewrite !zlen_app; lia|].
  rewrite Hd, <- Hdl. rewrite Z.add_comm, <- zlen_app. unfold zlen. rewrite !Nat2Z.id, take_app_length, app_assoc, take_app_length. apply bytes_app.
Qed.

Lemma setDeferredReply_ok sv c id s : client_ok c -> id ∈ ids (reply c) -> room c 1 (zlen s) ->
  exists sv' c', setDeferredReply sv c (Some id) s = Some (sv', c') /\ filled c c' id s /\ costs c c' (zlen s).
Proof.
  intros Hok Hid Hroom. unfold setDeferredReply. destruct (find_node_ok id (reply c) Hid) as (before & after & -> & Hr). simpl_bind.
  pose proof (ok_nodes c Hok) as Hn. rewrite Hr in Hn. apply Forall_app in Hn as [Hnb Hna]. apply Forall_cons in Hna as [_ Hna].
  assert (sizes (reply c) = sizes before + sizes after) as Hsz by (by rewrite Hr, sizes_app).
  assert (exists before' s1 s2 (merged : bool), (match last before with
      | Some (Val prev) => if 0 <? b_size prev - b_used prev then '(prev, rest) ← fill_block prev s; Some (removelast before ++ [Val prev], rest, zlen rest =? 0) else Some (before, s, false)
      | _ => Some (before, s, false) end) = Some (before', s2, merged) /\ s = s1 ++ s2 /\ extended before before' s1 /\ (merged = true -> s2 = [])) as (before' & s1 & s2 & merged & -> & Hs & Hext & Hmerged).
  { pose proof (extended_refl before Hnb) as Hrefl. destruct (last before) as [[i|b]|] eqn:Hlast; [by exists before, [], s, false | | by exists before, [], s, false].
    destruct (0 <? _); [|by exists before, [], s, false]. assert (node_ok (Val b)) as Hbok by (rewrite (last_removelast _ _ Hlast) in Hnb; apply Forall_app in Hnb as [_ Hl]; exact (proj1 (Forall_singleton _ _) Hl)).
    destruct (fill_block_ok b s Hbok) as (b' & s1 & s2 & -> & Hs & Hok' & Hsz' & Hu & Hv & _). simpl_bind. eexists _, s1, s2, _. split; [done|]. split; [done|]. split; [by eapply extend_last|]. intros Hz%Z.eqb_eq. by apply zlen_eq_nil. }
  simpl_bind. destruct merged.
  { rewrite (Hmerged eq_refl), app_nil_r in Hs. subst s1. eexists _, _. split; [done|]. rewrite <- (app_nil_r s) at 1. split.
    - eapply replace_ok; [done | done | done | done | done | done|]. rewrite (ok_bytes c Hok), Hsz. done.
    - intros u Hu%block_bound_pos. cbn. rewrite sizes_app, (ex_sizes _ _ _ Hext). lia. }
  pose proof (zlen_nonneg s1). pose proof (zlen_nonneg s2). subst s. assert (zlen s2 <= zlen (s1 ++ s2)) as Hle by (rewrite zlen_app; lia).
  assert (exists sv' c', (let '(size, mem) := new_block (zlen s2) in m ← mem_store mem 0 s2; closeClientOnOutputBufferLimitReached sv (set_reply c (before' ++ Val (Block size (zlen s2) m) :: after) (next_node c) (u64 (reply_bytes c + size)))) = Some (sv', c') /\
    filled c c' id (s1 ++ s2) /\ costs c c' (zlen (s1 ++ s2))) as Hcreate.
  { destruct (new_block_ok (zlen s2) s2) as (size & mem & m & -> & -> & Hbok & Hbv & Hbs); [done | done|]. simpl_bind. set (b := Block size (zlen s2) m) in *.
    assert (filled c (set_reply c (before' ++ Val b :: after) (next_node c) (u64 (reply_bytes c + size))) id (s1 ++ s2)) as Hfill.
    { eapply replace_ok; [done | done | done | by constructor | done | by rewrite block_view_cons, Hbv|]. rewrite (ok_bytes c Hok), u64_add, Hsz. f_equal. cbn. fold (sizes after). lia. }
    set (c1 := set_reply c _ _ _) in *. assert (sizes (reply c1) = sizes (reply c) + size) as Hsz1 by (cbn; rewrite sizes_app, (ex_sizes _ _ _ Hext), Hsz; cbn; fold (sizes after); lia).
    assert (zlen s2 <= Z.max (zlen (s1 ++ s2)) PROTO_REPLY_CHUNK_BYTES) as Hle2 by lia.
    destruct (close_ok sv c1) as (sv' & c' & -> & Hq).
    { rewrite (ok_bytes c1 (fl_ok _ _ _ _ Hfill)), Hsz1. destruct Hroom as (u & Hu & Hroom). specialize (Hu (zlen s2) Hle2). destruct Hbok as [[? ?] _]. cbn [b b_used b_size] in *. pose proof (sizes_nonneg _ (ok_nodes c Hok)).
      unfold sizeof_block, SIZE_MAX in *. rewrite uwrap_small; lia. }
    exists sv', c'. split; [done|]. split; [by eapply filled_quiet|]. intros u Hu. destruct Hq as [_ Ho]. assert (reply c' = reply c1) as -> by (by injection Ho). rewrite Hsz1. specialize (Hu _ Hle2). unfold sizeof_block in *. lia. }
  destruct after as [|[i|next] after']; [done | done|]. destruct (_ && _) eqn:Hfit; [|done]. apply andb_true_iff in Hfit as [Hfit%Z.leb_le _]. clear Hcreate.
  apply Forall_cons in Hna as [Hnok Hna']. destruct (prepend_block next s2 Hnok Hfit) as (m1 & m & -> & Hm & Hbok & Hbv). simpl_bind. rewrite Hm. simpl_bind. eexists _, _. split; [done|]. split.
  - eapply replace_ok; [done | done | done | by constructor | done | by rewrite !block_view_cons, Hbv, <- app_assoc|]. by rewrite (ok_bytes c Hok), Hsz.
  - intros u Hu%block_bound_pos. cbn. rewrite sizes_app, (ex_sizes _ _ _ Hext), Hsz. cbn. lia.
Qed.

Lemma trim_ok c : client_ok c -> appended c (trimReplyUnusedTailSpace c) [] /\ next_node (trimReplyUnusedTailSpace c) = next_node c /\ costs c (trimReplyUnusedTailSpace c) 0.
Proof.
  intros Hok. unfold trimReplyUnusedTailSpace. assert (appended c c [] /\ next_node c = next_node c /\ costs c c 0) as Hsame.
  { split_and!; [by apply quiet_appended | done|]. intros u Hu%block_bound_pos. lia. }
  destruct (last (reply c)) as [[i|b]|] eqn:Hlast; [done| |done]. destruct (_ && _) eqn:Hcond; [|done]. clear Hsame. apply andb_true_iff in Hcond as [_ Hlt%Z.ltb_lt].
  set (size := malloc_usable_size (b_used b + sizeof_block) - sizeof_block). apply last_removelast in Hlast. set (l := removelast (reply c)) in *. destruct Hok as [Hb Hp Hn Hi Hx Hs Hby]. rewrite Hlast in Hn, Hi, Hx, Hby.
  rewrite ids_app, app_nil_r in Hi, Hx. apply Forall_app in Hn as [Hn Hnb]. rewrite Forall_singleton in Hnb. destruct Hnb as [Hu Hbb].
  assert (b_used b <= size) as Hge by (pose proof (malloc_usable_size_ge (b_used b + sizeof_block)); unfold size, sizeof_block in *; lia).
  assert (zlen (take (Z.to_nat (b_used b)) (b_buf b)) = b_used b) as Htl by (unfold zlen in *; rewrite length_take; lia).
  destruct (zrealloc_grow (take (Z.to_nat (b_used b)) (b_buf b)) size) as (t & -> & _ & Ht); [lia|]. set (b' := Block size (b_used b) _).
  assert (node_view (Val b') = node_view (Val b)) as Hv by (cbn; rewrite <- Htl at 1; unfold zlen; by rewrite Nat2Z.id, take_app_length).
  assert (node_ok (Val b')) as Hok' by (cbn; rewrite zlen_app, Htl, Ht; lia). split_and!; [|done|].
  - split; [by split | | | done].
    + split; cbn -[uwrap]; try done.
      * by rewrite Forall_app, Forall_singleton.
      * by rewrite ids_app, app_nil_r.
      * by rewrite ids_app, app_nil_r.
      * destruct Hs as [Hs|[Hs|[Hz (b0 & rest & Hr & Hs)]]]; [by left | by right; left | right; right]. split; [done|]. rewrite Hlast in Hr. cbn. destruct l as [|n l]; cbn in Hr |- *; [injection Hr as <- <-; by exists b', []|]. injection Hr as -> <-. eauto.
      * rewrite Hby, !sizes_app. cbn -[uwrap]. rewrite <- Z.add_sub_assoc, u64_add. f_equal. lia.
    + unfold queued. cbn -[node_view]. by rewrite bind_snoc_view, Hv, app_nil_r, Hlast, bind_snoc_view.
  - intros u Hub. specialize (Hub (b_used b) ltac:(lia)). rewrite Hlast. cbn. rewrite !sizes_app. cbn. unfold size, sizeof_block in *. lia.
Qed.

Lemma addReplyDeferredLen_ok sv c : client_ok c -> exists sv' c', addReplyDeferredLen sv c = (sv', c', if receives c then Some (next_node c) else None) /\
  appended c c' (if receives c then [inr (next_node c)] else []) /\ next_node c' = next_node c + (if receives c then 1 else 0) /\ costs c c' 0.
Proof.
  intros Hok. unfold addReplyDeferredLen. destruct (prepare_ok sv c) as (sv1 & c1 & -> & Hq & Hrec). pose proof (quiet_appended c c1 Hok Hq) as Hap1. pose proof (ap_ok _ _ _ Hap1) as Hok1.
  assert (next_node c1 = next_node c /\ reply c1 = reply c) as [Hnx Hrp] by (destruct Hq as [_ Ho]; by injection Ho).
  destruct (receives c) eqn:Hrc; cbn [negb]; [|exists sv1, c1; split_and!; [done | done | lia|]; intros u Hu%block_bound_pos; rewrite Hrp; lia].
  destruct (trim_ok c1 Hok1) as (Hap2 & Hn2 & Hco). set (c2 := trimReplyUnusedTailSpace c1) in *. rewrite Hn2, Hnx. eexists sv1, _. split; [done|].
  assert (costs c (set_reply c2 (reply c2 ++ [Null (next_node c)]) (next_node c + 1) (reply_bytes c2)) 0) as Hcosts.
  { intros u Hu. specialize (Hco u Hu). cbn. rewrite sizes_app. cbn. rewrite Hrp in Hco. lia. }
  split; [|done]. apply (appended_trans _ _ _ [] _ (appended_trans _ _ _ [] [] Hap1 Hap2)). destruct (ap_ok _ _ _ Hap2) as [Hb Hp Hn Hi Hx Hs Hby]. split; [by split | | | done].
  - split; cbn -[uwrap]; try done.
    + rewrite Forall_app. split; [done | by constructor].
    + rewrite ids_app. apply NoDup_app. split_and!; [done | | apply NoDup_singleton]. intros i Hi1 Hi2%list_elem_of_singleton. subst i. rewrite Forall_forall in Hx. specialize (Hx _ Hi1). lia.
    + rewrite ids_app. apply Forall_app. split; [eapply Forall_impl; [exact Hx|]; cbn; lia|]. constructor; [lia | done].
    + destruct Hs as [Hs|[Hs|[Hz (b0 & rest & Hr & Hs)]]]; [by left | by right; left | right; right]. split; [done|]. exists b0, (rest ++ [Null (next_node c)]). cbn. by rewrite Hr.
    + rewrite Hby, sizes_app. cbn -[uwrap]. by rewrite Z.add_0_r.
  - unfold queued. cbn -[node_view]. by rewrite bind_snoc_view, app_assoc.
Qed.

(** ** Writing *)

(** [out] went to the socket; nothing else changed. *)
Record wrote (c c' : client) (out : list Z) : Prop := Wrote {
  wr_ok : client_ok c'; wr_pending : pending c = bytes out ++ pending c'; wr_ids : ids (reply c') = []; wr_sizes : sizes (reply c') <= sizes (reply c);
  wr_flags : flags c' = flags c; wr_cid : cid c' = cid c; wr_resp : resp c' = resp c; wr_repl : replstate c' = replstate c; wr_ack : repl_put_online_on_ack c' = repl_put_online_on_ack c; wr_next : next_node c' = next_node c;
  wr_conn : exists cn cn', cconn c = Some cn /\ cconn c' = Some cn' /\ wire cn' = wire cn ++ out /\ write_handler cn' = write_handler cn }.

Lemma wrote_refl c cn cn' : client_ok c -> ids (reply c) = [] -> cconn c = Some cn -> wire cn' = wire cn -> write_handler cn' = write_handler cn -> wrote c (set_conn c (Some cn')) [].
Proof. intros [] Hi Hc Hw Hh. split; try done. exists cn, cn'. by rewrite app_nil_r. Qed.

Lemma wrote_trans c c1 c2 o1 o2 : wrote c c1 o1 -> wrote c1 c2 o2 -> wrote c c2 (o1 ++ o2).
Proof.
  intros [Hok1 Hp1 Hi1 Hz1 Hf1 Hc1 Hr1 Hs1 Ha1 Hn1 (cn & cn1 & Hcn & Hcn1 & Hw1 & Hh1)] [Hok2 Hp2 Hi2 Hz2 Hf2 Hc2 Hr2 Hs2 Ha2 Hn2 (cn1' & cn2 & Hcn1' & Hcn2 & Hw2 & Hh2)].
  rewrite Hcn1 in Hcn1'. injection Hcn1' as <-. split; try done; try congruence; [by rewrite Hp1, Hp2, bytes_app, app_assoc | lia|]. exists cn, cn2. split_and!; [done | done | by rewrite Hw2, Hw1, app_assoc | congruence].
Qed.

(** What is left to do for the loop. *)
Definition todo (c : client) : Z := Z.of_nat (queue_size c) - sentlen c.

Lemma connSocketWrite_ok cn data : let '(n, cn') := connSocketWrite cn data in
  n <= zlen data /\ write_handler cn' = write_handler cn /\ (n <= 0 -> wire cn' = wire cn) /\ (0 <= n -> wire cn' = wire cn ++ take (Z.to_nat n) data) /\
  (0 < zlen data -> Forall (fun r => 0 < r) (script cn) -> script cn <> [] -> 0 < n) /\
  (0 < n -> Forall (fun r => 0 < r) (script cn) -> Forall (fun r => 0 < r) (script cn') /\ zlen (script cn) = 1 + zlen (script cn')).
Proof.
  pose proof (zlen_nonneg data). unfold connSocketWrite. destruct (script cn) as [|r rs]; [cbn; split_and!; try done; lia|]. destruct (Z.ltb_spec r 0) as [Hr|Hr].
  - cbn. split_and!; try done; try lia. intros _ Hall. apply Forall_cons in Hall as [? _]. lia.
  - cbn [write_handler wire script]. split_and!; try done; try lia.
    + intros Hn. replace (Z.min r (Z.min (zlen data) MAX_RW_COUNT)) with 0 by (unfold MAX_RW_COUNT in *; lia). by rewrite app_nil_r.
    + intros Hd Hall _. apply Forall_cons in Hall as [Hr1 Hall]. unfold MAX_RW_COUNT. lia.
    + intros _ Hall. apply Forall_cons in Hall as [_ Hall]. by rewrite zlen_cons.
Qed.

(** The buffer *)
Definition sent_buf (c : client) (n : Z) (cn : conn) : client :=
  let c := set_sentlen (set_conn c (Some cn)) (sentlen c + n) in if sentlen c =? bufpos c then set_sentlen (set_buf c (buf c) 0) 0 else c.

Lemma sent_buf_ok c cn data n cn' : client_ok c -> ids (reply c) = [] -> cconn c = Some cn -> 0 < bufpos c -> mem_load (buf c) (sentlen c) (bufpos c - sentlen c) = Some data -> 0 < n <= zlen data ->
  wire cn' = wire cn ++ take (Z.to_nat n) data -> write_handler cn' = write_handler cn -> wrote c (sent_buf c n cn') (take (Z.to_nat n) data) /\ todo (sent_buf c n cn') + n <= todo c.
Proof.
  intros Hok Hid Hcn Hpos Hdata Hn Hw Hh. pose proof Hok as [Hb Hp Hnd Hi Hx Hs Hby].
  assert (0 <= sentlen c < bufpos c) as Hsl by (destruct Hs as [Hs|[Hs|[Hs _]]]; lia).
  unfold mem_load in Hdata. rewrite bool_decide_true in Hdata by (unfold zlen in *; lia). injection Hdata as <-.
  set (data := take (Z.to_nat (bufpos c - sentlen c)) (drop (Z.to_nat (sentlen c)) (buf c))) in *.
  assert (zlen data = bufpos c - sentlen c) as Hdl by (unfold data, zlen in *; rewrite length_take, length_drop; lia).
  assert (take (Z.to_nat (bufpos c)) (buf c) = take (Z.to_nat (sentlen c)) (buf c) ++ data) as Hsplit.
  { unfold data. rewrite <- (take_drop (Z.to_nat (sentlen c)) (take (Z.to_nat (bufpos c)) (buf c))), take_take, Nat.min_l by lia. f_equal. rewrite take_drop_commute. do 2 f_equal. lia. }
  assert (pending c = bytes data ++ (reply c ≫= node_view)) as Hpend.
  { unfold pending, queued. rewrite Hsplit, bytes_app, <- app_assoc. apply drop_app_length'. unfold zlen in *. rewrite length_bytes, length_take. lia. }
  unfold sent_buf. cbn [sentlen set_sentlen bufpos set_conn]. destruct (Z.eqb_spec (sentlen c + n) (bufpos c)) as [He|Hne].
  - assert (take (Z.to_nat n) data = data) as Htk by (apply take_ge; unfold zlen in *; lia). rewrite Htk in Hw |- *. split; [|unfold todo, queue_size; cbn; lia]. split; try done.
    + split; cbn; try done. by left.
    + exists cn, cn'. done.
  - split; [|unfold todo, queue_size; cbn; lia]. split; try done.
    + split; cbn; try done. right. left. cbn. lia.
    + rewrite Hpend. rewrite <- (take_drop (Z.to_nat n) data) at 1. rewrite bytes_app, <- app_assoc. f_equal. unfold pending, queued. cbn. rewrite Hsplit. rewrite <- (take_drop (Z.to_nat n) data) at 2. rewrite !bytes_app, <- !app_assoc.
      rewrite app_assoc. symmetry. apply drop_app_length'. rewrite length_app, !length_bytes, !length_take. unfold zlen in *. lia.
    + exists cn, cn'. done.
Qed.

(** The first block of the list *)
Definition sent_node (c : client) (o : block) (rest : list node) (n : Z) (cn : conn) : client :=
  let c := set_sentlen (set_conn c (Some cn)) (sentlen c + n) in
  if sentlen c =? b_used o then set_sentlen (set_reply c rest (next_node c) (u64 (reply_bytes c - b_size o))) 0 else c.

Lemma u64_sub a b : u64 (u64 a - b) = u64 (a - b).
Proof. unfold uwrap. apply Zminus_mod_idemp_l. Qed.

Lemma queue_size_cons c b rest : reply c = Val b :: rest -> Z.of_nat (queue_size c) = Z.of_nat (Z.to_nat (bufpos c)) + Z.of_nat (S (Z.to_nat (b_used b))) + Z.of_nat (sum_list_with (fun n => match n with Null _ => 1%nat | Val b => S (Z.to_nat (b_used b)) end) rest).
Proof. intros Hr. unfold queue_size. rewrite Hr. cbn -[Z.of_nat]. lia. Qed.

Lemma sent_node_ok c cn o rest data n cn' : client_ok c -> ids (reply c) = [] -> cconn c = Some cn -> bufpos c = 0 -> reply c = Val o :: rest -> 0 < b_used o ->
  mem_load (b_buf o) (sentlen c) (b_used o - sentlen c) = Some data -> 0 < n <= zlen data ->
  wire cn' = wire cn ++ take (Z.to_nat n) data -> write_handler cn' = write_handler cn ->
  wrote c (sent_node c o rest n cn') (take (Z.to_nat n) data) /\ todo (sent_node c o rest n cn') + n <= todo c /\ (reply (sent_node c o rest n cn') = [] -> reply_bytes (sent_node c o rest n cn') = 0).
Proof.
  intros Hok Hid Hcn Hpos Hr Hu Hdata Hn Hw Hh. pose proof Hok as [Hb Hp Hnd Hi Hx Hs Hby]. rewrite Hr in Hnd, Hi, Hx, Hby. apply Forall_cons in Hnd as [[Hou Hob] Hnd].
  assert (0 <= sentlen c < b_used o) as Hsl. { destruct Hs as [Hs|[Hs|[_ (b & rest' & Hr' & Hs)]]]; [lia | lia|]. rewrite Hr in Hr'. injection Hr' as <- _. lia. }
  unfold mem_load in Hdata. rewrite bool_decide_true in Hdata by (unfold zlen in *; lia). injection Hdata as <-.
  set (data := take (Z.to_nat (b_used o - sentlen c)) (drop (Z.to_nat (sentlen c)) (b_buf o))) in *.
  assert (zlen data = b_used o - sentlen c) as Hdl by (unfold data, zlen in *; rewrite length_take, length_drop; lia).
  assert (node_view (Val o) = bytes (take (Z.to_nat (sentlen c)) (b_buf o)) ++ bytes data) as Hsplit.
  { unfold data. cbn. rewrite <- bytes_app. f_equal. rewrite <- (take_drop (Z.to_nat (sentlen c)) (take (Z.to_nat (b_used o)) (b_buf o))), take_take, Nat.min_l by lia. f_equal. rewrite take_drop_commute. do 2 f_equal. lia. }
  assert (queued c = (node_view (Val o)) ++ (rest ≫= node_view)) as Hq by (unfold queued; rewrite Hpos, Hr; done).
  assert (pending c = bytes data ++ (rest ≫= node_view)) as Hpend.
  { unfold pending. rewrite Hq, Hsplit, <- app_assoc. apply drop_app_length'. unfold zlen in *. rewrite length_bytes, length_take. lia. }
  unfold sent_node. cbn [sentlen set_sentlen set_conn]. pose proof (queue_size_cons c o rest Hr) as Hqs. destruct (Z.eqb_spec (sentlen c + n) (b_used o)) as [He|Hne].
  - assert (take (Z.to_nat n) data = data) as Htk by (apply take_ge; unfold zlen in *; lia). rewrite Htk in Hw |- *.
    assert (u64 (reply_bytes c - b_size o) = u64 (sizes rest)) as Hsz by (rewrite Hby, u64_sub; f_equal; cbn; fold (sizes rest); lia). split_and!.
    + rewrite Hr in Hid. split; try done.
      * split; cbn -[uwrap]; try done. by left.
      * rewrite Hpend. unfold pending, queued. cbn -[node_view]. rewrite Hpos. done.
      * cbn. rewrite Hr. cbn. fold (sizes rest). lia.
      * exists cn, cn'. done.
    + unfold todo. rewrite Hqs. unfold queue_size. cbn. lia.
    + cbn -[uwrap]. intros ->. by rewrite Hsz.
  - split_and!.
    + split; try done.
      * split; cbn; try done; [rewrite Hr; by constructor | by rewrite Hr | by rewrite Hr | | by rewrite Hr]. right. right. split; [done|]. exists o, rest. cbn. split; [done | lia].
      * rewrite Hpend. rewrite <- (take_drop (Z.to_nat n) data) at 1. rewrite bytes_app, <- app_assoc. f_equal. unfold pending. change (queued (set_sentlen (set_conn c (Some cn')) (sentlen c + n))) with (queued c). cbn [sentlen set_sentlen].
        rewrite Hq, Hsplit. rewrite <- (take_drop (Z.to_nat n) data) at 2. rewrite bytes_app, <- !app_assoc. rewrite app_assoc. symmetry. apply drop_app_length'. rewrite length_app, !length_bytes, !length_take. unfold zlen in *. lia.
      * exists cn, cn'. done.
    + unfold todo, queue_size. cbn. lia.
    + cbn. by rewrite Hr.
Qed.

(** An empty block *)
Lemma drop_node_ok c o rest cn : client_ok c -> ids (reply c) = [] -> cconn c = Some cn -> bufpos c = 0 -> reply c = Val o :: rest -> b_used o = 0 ->
  let c' := set_reply c rest (next_node c) (u64 (reply_bytes c - b_size o)) in wrote c c' [] /\ todo c' < todo c.
Proof.
  intros Hok Hid Hcn Hpos Hr Hu. cbv zeta. pose proof Hok as [Hb Hp Hnd Hi Hx Hs Hby]. rewrite Hr in Hnd, Hi, Hx, Hby, Hid. apply Forall_cons in Hnd as [[Hou Hob] Hnd].
  assert (sentlen c = 0) as Hsl. { destruct Hs as [Hs|[Hs|[_ (b & rest' & Hr' & Hs)]]]; [lia | lia|]. rewrite Hr in Hr'. injection Hr' as <- _. lia. }
  split; [|unfold todo; rewrite (queue_size_cons c o rest Hr); unfold queue_size; cbn; lia]. split; try done.
  - split; cbn -[uwrap]; try done; [by left|]. rewrite Hby, u64_sub. f_equal. cbn. fold (sizes rest). lia.
  - unfold pending, queued. cbn -[node_view]. rewrite Hr, block_view_cons. cbn. rewrite Hu. done.
  - cbn. rewrite Hr. cbn. fold (sizes rest). lia.
  - exists cn, cn. by rewrite app_nil_r.
Qed.

(** The socket takes something at each call until everything is sent. *)
Definition ready (c : client) (cn : conn) : Prop := Forall (fun r => 0 < r) (script cn) /\ todo c <= zlen (script cn).

(** With such a socket the loop ends when nothing is left, or when it wrote more than 64 KB for a client that is not a replica
    and the memory limit is not exceeded. *)
Definition progress (sv : oserver) (c : client) (cn : conn) (tot : Z) (c' : client) (tot' : Z) : Prop :=
  ready c cn -> todo c' + (tot' - tot) <= todo c /\ (exists cn', cconn c' = Some cn' /\ ready c' cn') /\
    (clientHasPendingReplies c' = false \/ NET_MAX_WRITES_PER_EVENT < tot' /\ under_maxmemory sv = true /\ has_flag c CLIENT_SLAVE = false).

Lemma todo_nonneg c : client_ok c -> 0 <= todo c /\ (clientHasPendingReplies c = true -> 0 < todo c).
Proof.
  intros [Hb Hp Hn _ _ Hs _]. unfold todo, clientHasPendingReplies.
  assert (reply c <> [] -> (0 < sum_list_with (fun n => match n with Null _ => 1%nat | Val b => S (Z.to_nat (b_used b)) end) (reply c))%nat) as Hpos by (destruct (reply c) as [|[] l]; cbn; [done | lia | lia]).
  destruct Hs as [Hs|[Hs|[Hz (b & rest & Hr & Hs)]]].
  - rewrite Hs. split; [lia|]. intros Hpend. unfold queue_size. destruct (Z.eqb_spec (bufpos c) 0); [|lia]. cbn in Hpend. destruct (Z.eqb_spec (zlen (reply c)) 0) as [|Hne]; [done|]. assert (reply c <> []) as Hnn by (intros He; by rewrite He in Hne). specialize (Hpos Hnn). lia.
  - unfold queue_size. lia.
  - rewrite (queue_size_cons c b rest Hr). lia.
Qed.

Lemma mem_load_len m off n bs : mem_load m off n = Some bs -> zlen bs = n.
Proof. unfold mem_load. case_bool_decide as Hd; [|done]. intros [= <-]. unfold zlen. rewrite length_take, length_drop. lia. Qed.

Lemma write_loop_ok fuel sv c nw tot cn : client_ok c -> ids (reply c) = [] -> cconn c = Some cn -> todo c < Z.of_nat fuel ->
  exists c' nw' tot' out, write_loop fuel sv c nw tot = Some (c', nw', tot') /\ wrote c c' out /\ progress sv c cn tot c' tot'.
Proof.
  revert c nw tot cn. induction fuel as [|fuel IH]; intros c nw tot cn Hok Hid Hcn Hfuel; [destruct (todo_nonneg c Hok); lia|].
  cbn [write_loop]. destruct (todo_nonneg c Hok) as [Htd Htd2]. destruct (clientHasPendingReplies c) eqn:Hpr; cbn [negb].
  2: { exists c, nw, tot, []. split_and!; [done | | intros Hrd; split_and!; [lia | by exists cn | by left]]. pose proof (wrote_refl c cn cn Hok Hid Hcn eq_refl eq_refl) as Hw. by replace (set_conn c (Some cn)) with c in Hw by (rewrite <- Hcn; by destruct c). }
  specialize (Htd2 eq_refl). rewrite Hcn. simpl_bind.
  (* a write that takes something, and the rest of the loop *)
  assert (forall n cn' c1 data, wrote c c1 (take (Z.to_nat n) data) -> todo c1 + n <= todo c -> 0 < n -> cconn c1 = Some cn' ->
    (Forall (fun r => 0 < r) (script cn) -> Forall (fun r => 0 < r) (script cn') /\ zlen (script cn) = 1 + zlen (script cn')) ->
    exists c' nw' tot' out, (if (NET_MAX_WRITES_PER_EVENT <? tot + n) && under_maxmemory sv && negb (has_flag c1 CLIENT_SLAVE) then Some (c1, n, tot + n) else write_loop fuel sv c1 n (tot + n)) = Some (c', nw', tot') /\
      wrote c c' out /\ progress sv c cn tot c' tot') as Hnext.
  { intros n cn' c1 data Hw Htodo Hn Hcn' Hscr. destruct (todo_nonneg c1 (wr_ok _ _ _ Hw)) as [Htd1 _]. assert (has_flag c1 CLIENT_SLAVE = has_flag c CLIENT_SLAVE) as Hsl by (unfold has_flag; by rewrite (wr_flags _ _ _ Hw)).
    assert (ready c cn -> ready c1 cn') as Hrd by (intros [Hall Hlen]; destruct (Hscr Hall) as [Hall' Hlen']; split; [done | lia]).
    destruct (_ && _) eqn:Hcut.
    - exists c1, n, (tot + n), (take (Z.to_nat n) data). split_and!; [done | done|]. intros Hr. split_and!; [lia | exists cn'; auto|].
      rewrite !andb_true_iff, negb_true_iff, Z.ltb_lt in Hcut. destruct Hcut as [[Hc1 Hc2] Hc3]. right. split_and!; congruence || lia.
    - destruct (IH c1 n (tot + n) cn' (wr_ok _ _ _ Hw) (wr_ids _ _ _ Hw) Hcn' ltac:(lia)) as (c' & nw' & tot' & out & -> & Hw' & Hlive). exists c', nw', tot', (take (Z.to_nat n) data ++ out).
      split_and!; [done | by eapply wrote_trans|]. intros Hr. destruct (Hlive (Hrd Hr)) as (Ht & Hcn2 & Hend). split_and!; [lia | done|]. by rewrite <- Hsl. }
  (* a call of the socket *)
  assert (forall data, 0 < zlen data -> forall k : Z -> conn -> option (client * Z * Z),
    (forall n cn', 0 < n <= zlen data -> wire cn' = wire cn ++ take (Z.to_nat n) data -> write_handler cn' = write_handler cn ->
      (Forall (fun r => 0 < r) (script cn) -> Forall (fun r => 0 < r) (script cn') /\ zlen (script cn) = 1 + zlen (script cn')) ->
      exists c' nw' tot' out, k n cn' = Some (c', nw', tot') /\ wrote c c' out /\ progress sv c cn tot c' tot') ->
    exists c' nw' tot' out, (let '(nw, cn') := connSocketWrite cn data in if nw <=? 0 then Some (set_conn c (Some cn'), nw, tot) else k nw cn') = Some (c', nw', tot') /\ wrote c c' out /\
      progress sv c cn tot c' tot') as Hcall.
  { intros data Hd k Hk. pose proof (connSocketWrite_ok cn data) as Hc. destruct (connSocketWrite cn data) as [n cn']. destruct Hc as (Hle & Hh & Hw0 & Hw1 & Hlive & Hscr).
    assert (ready c cn -> script cn <> []) as Hne by (intros (_ & Hl) He; rewrite He in Hl; change (zlen []) with 0 in Hl; lia).
    destruct (Z.leb_spec n 0) as [Hn|Hn].
    - exists (set_conn c (Some cn')), n, tot, []. split_and!; [done | by eapply wrote_refl; eauto|]. intros Hfl. specialize (Hlive Hd (proj1 Hfl) (Hne Hfl)). lia.
    - apply Hk; [lia | apply Hw1; lia | done | auto]. }
  destruct (Z.ltb_spec 0 (bufpos c)) as [Hpos|Hpos].
  - pose proof Hok as [Hb Hp _ _ _ Hs _]. assert (0 <= sentlen c < bufpos c) as Hsl by (destruct Hs as [Hs|[Hs|[Hs _]]]; lia).
    destruct (mem_load (buf c) (sentlen c) (bufpos c - sentlen c)) as [data|] eqn:Hdata; [|unfold mem_load in Hdata; rewrite bool_decide_true in Hdata by (unfold zlen in *; lia); done].
    assert (zlen data = bufpos c - sentlen c) as Hdl by (apply mem_load_len in Hdata; lia). simpl_bind. apply (Hcall data ltac:(lia) (fun n cn' => _)). intros n cn' Hn Hw Hh Hscr.
    destruct (sent_buf_ok c cn data n cn' Hok Hid Hcn Hpos Hdata Hn Hw Hh) as [Hwr Htodo]. apply (Hnext n cn' (sent_buf c n cn') data Hwr Htodo); [lia | | done]. unfold sent_buf. cbn. by destruct (_ =? _).
  - assert (bufpos c = 0) as Hp0 by (pose proof (ok_pos c Hok); lia).
    destruct (reply c) as [|[id|o] rest] eqn:Hr; [unfold clientHasPendingReplies in Hpr; rewrite Hr, Hp0 in Hpr; done | done|]. rewrite <- Hr in Hid.
    pose proof (ok_nodes c Hok) as Hnd. rewrite Hr in Hnd. apply Forall_cons in Hnd as [[Hou Hob] _].
    destruct (Z.eqb_spec (b_used o) 0) as [Hu|Hu].
    + destruct (drop_node_ok c o rest cn Hok Hid Hcn Hp0 Hr Hu) as [Hw Htodo]. set (c1 := set_reply c rest _ _) in *.
      destruct (IH c1 nw tot cn (wr_ok _ _ _ Hw) (wr_ids _ _ _ Hw) Hcn ltac:(lia)) as (c' & nw' & tot' & out & -> & Hw' & Hlive). exists c', nw', tot', out. split_and!; [done | by apply (wrote_trans c c1 c' [] out)|].
      intros [Hall Hlen]. destruct Hlive as (Ht & Hcn2 & Hend); [split; [done | lia]|]. split_and!; [lia | done | done].
    + pose proof (ok_sent c Hok) as Hs. assert (0 <= sentlen c < b_used o) as Hsl. { destruct Hs as [Hs|[Hs|[_ (b & rest' & Hr' & Hs)]]]; [lia | lia|]. rewrite Hr in Hr'. injection Hr' as <- _. lia. }
      destruct (mem_load (b_buf o) (sentlen c) (b_used o - sentlen c)) as [data|] eqn:Hdata; [|unfold mem_load in Hdata; rewrite bool_decide_true in Hdata by (unfold zlen in *; lia); done].
      assert (zlen data = b_used o - sentlen c) as Hdl by (apply mem_load_len in Hdata; lia). simpl_bind. apply (Hcall data ltac:(lia) (fun n cn' => _)). intros n cn' Hn Hw Hh Hscr.
      destruct (sent_node_ok c cn o rest data n cn' Hok Hid Hcn Hp0 Hr ltac:(lia) Hdata Hn Hw Hh) as (Hwr & Htodo & Hzero). pose proof (Hnext n cn' (sent_node c o rest n cn') data Hwr Htodo ltac:(lia)) as Hgo. unfold sent_node in Hgo, Hzero. cbn [sentlen set_sentlen set_conn] in Hgo, Hzero |- *.
      destruct (_ =? b_used o); [|by apply Hgo]. set (c2 := set_sentlen (set_reply _ _ _ _) 0) in *. destruct (Z.eqb_spec (zlen (reply c2)) 0) as [Hz|Hz]; cbn [andb]; [|by apply Hgo].
      rewrite Hzero by (by apply zlen_eq_nil). cbn [negb Z.eqb]. by apply Hgo.
Qed.

(** A client after a write: as before but for the connection, the queue and the flags. *)
Record delivered (c c' : client) (out : list Z) : Prop := Delivered {
  de_frame : frame (set_conn c (cconn c')) c'; de_ok : client_ok c'; de_pending : pending c = bytes out ++ pending c'; de_ids : ids (reply c') = [];
  de_sizes : sizes (reply c') <= sizes (reply c); de_next : next_node c' = next_node c;
  de_conn : exists cn cn', cconn c = Some cn /\ cconn c' = Some cn' /\ wire cn' = wire cn ++ out }.

Lemma idle_sentlen c : client_ok c -> clientHasPendingReplies c = false -> set_sentlen c 0 = c.
Proof.
  intros Hok. unfold clientHasPendingReplies. intros [Hb%negb_false_iff%Z.eqb_eq Hr%negb_false_iff%Z.eqb_eq]%orb_false_iff. apply zlen_eq_nil in Hr. destruct (ok_sent c Hok) as [Hs|[Hs|[_ (b & rest & Hr' & _)]]]; [|lia | congruence].
  destruct c. cbn in *. by subst.
Qed.

Lemma wrote_delivered c c' out : wrote c c' out -> delivered c c' out.
Proof.
  intros [Hok Hp Hi Hz Hf Hc Hr Hs Ha Hn (cn & cn' & Hcn & Hcn' & Hw & _)]. split; try done; [|by exists cn, cn']. split; try done; unfold has_flag; by rewrite Hf.
Qed.

Lemma delivered_quiet c c1 c2 out : delivered c c1 out -> quiet c1 c2 -> delivered c c2 out.
Proof.
  intros [Hf Hok Hp Hi Hz Hn Hc] [Hf2 Ho]. destruct (out_same c1 c2 Ho Hok) as (Hok2 & _ & Hp2). assert (next_node c2 = next_node c1 /\ reply c2 = reply c1) as [Hn2 Hr2] by (by injection Ho). rewrite <- (fr_conn c1 c2 Hf2) in Hf.
  split; rewrite ?Hr2, ?Hn2, ?Hp2; try done; [by transitivity c1|]. by rewrite (fr_conn c1 c2 Hf2).
Qed.

Lemma delivered_handler c c1 cn out h : delivered c c1 out -> cconn c1 = Some cn -> delivered c (set_conn c1 (Some (Conn (connected cn) h (wire cn) (script cn)))) out.
Proof.
  intros [[] [] Hp Hi Hz Hn (cn0 & cn1 & Hcn0 & Hcn1 & Hw)] Hcn. rewrite Hcn in Hcn1. injection Hcn1 as <-. split; try done. eexists cn0, _. split; [done|]. split; [done|]. done.
Qed.

Lemma todo_out c c' : out_of c' = out_of c -> todo c' = todo c /\ clientHasPendingReplies c' = clientHasPendingReplies c.
Proof. destruct c, c'. unfold out_of, todo, queue_size, clientHasPendingReplies. cbn. by intros [= -> -> -> -> -> ->]. Qed.

(** What one writeToClient() does for a client with such a socket *)
Definition call_progress (sv : oserver) (c : client) (cn : conn) (c' : client) : Prop :=
  ready c cn -> (exists cn', cconn c' = Some cn' /\ ready c' cn') /\
    (clientHasPendingReplies c' = false \/ todo c' + NET_MAX_WRITES_PER_EVENT < todo c /\ under_maxmemory sv = true /\ has_flag c CLIENT_SLAVE = false).

Lemma call_progress_out sv c cn c1 c2 cn1 cn2 : call_progress sv c cn c1 -> out_of c2 = out_of c1 -> cconn c1 = Some cn1 -> cconn c2 = Some cn2 -> script cn2 = script cn1 ->
  call_progress sv c cn c2.
Proof.
  intros Hp Ho H1 H2 Hs Hr. destruct (todo_out _ _ Ho) as [Ht Hpr]. destruct (Hp Hr) as ((cn' & Hcn' & [Hall Hlen]) & Hend). rewrite H1 in Hcn'. injection Hcn' as <-.
  rewrite Ht, Hpr. split; [|done]. exists cn2. split; [done|]. unfold ready. by rewrite Hs, Ht.
Qed.

Lemma writeToClient_ok sv c h cn : client_ok c -> ids (reply c) = [] -> cconn c = Some cn ->
  exists sv' c' ok out, writeToClient sv c h = Some (sv', c', ok) /\ delivered c c' out /\ call_progress sv c cn c' /\ under_maxmemory sv' = under_maxmemory sv.
Proof.
  intros Hok Hid Hcn. unfold writeToClient. destruct (write_loop_ok (S (queue_size c)) sv c 0 0 cn Hok Hid Hcn) as (c1 & nw & tot & out & -> & Hw & Hlive).
  { destruct (sent_le c Hok). unfold todo. lia. }
  assert (call_progress sv c cn c1) as Hcp.
  { intros Hr. destruct (Hlive Hr) as (Ht & Hcn' & Hend). split; [done|]. destruct Hend as [?|(? & ? & ?)]; [by left|]. right. split_and!; [lia | done | done]. }
  simpl_bind. pose proof (wrote_delivered c c1 out Hw) as Hd. destruct (wr_conn _ _ _ Hw) as (cn0 & cn1 & _ & Hcn1 & _). rewrite Hcn1. simpl_bind. pose proof (wr_ok _ _ _ Hw) as Hok1.
  assert (forall c2 cn2, delivered c c2 out -> call_progress sv c cn c2 -> cconn c2 = Some cn2 ->
    exists sv' c' ok out', Some (freeClientAsync sv c2, false) = Some (sv', c', ok) /\ delivered c c' out' /\ call_progress sv c cn c' /\ under_maxmemory sv' = under_maxmemory sv) as Hfree.
  { intros c2 cn2 Hd2 Hp2 Hc2. pose proof (freeClientAsync_quiet sv c2) as Hq. assert (under_maxmemory (freeClientAsync sv c2).1 = under_maxmemory sv) as Hm by (unfold freeClientAsync; by destruct (_ || _)).
    destruct (freeClientAsync sv c2) as [sv' c']. cbn [fst snd] in Hq, Hm. exists sv', c', false, out. split; [done|]. split; [by eapply delivered_quiet|]. split; [|done].
    destruct Hq as [Hfr Ho]. eapply (call_progress_out sv c cn c2 c' cn2 cn2); try done. by rewrite (fr_conn _ _ Hfr). }
  assert (exists e : bool, (if nw =? -1 then Some (negb (connected cn1)) else Some false) = Some e) as [e ->] by (destruct (nw =? -1); eauto). simpl_bind. destruct e; [by eapply Hfree|].
  destruct (clientHasPendingReplies c1) eqn:Hpr; cbn [negb]; [by exists sv, c1, true, out|]. rewrite idle_sentlen by done.
  set (cn2 := Conn (connected cn1) false (wire cn1) (script cn1)). set (c2 := if h then set_conn c1 (Some cn2) else c1).
  assert (delivered c c2 out /\ call_progress sv c cn c2 /\ exists cn3, cconn c2 = Some cn3) as (Hd2 & Hp2 & cn3 & Hcn3).
  { unfold c2. destruct h; [|by eauto]. split_and!; [by apply delivered_handler | by eapply (call_progress_out sv c cn c1 _ cn1 cn2) | by exists cn2]. }
  replace (if h then cn2 ← cconn c1; Some (set_conn c1 (Some (Conn (connected cn2) false (wire cn2) (script cn2)))) else Some c1) with (Some c2) by (rewrite Hcn1; unfold c2; by destruct h).
  simpl_bind. destruct (has_flag c2 CLIENT_CLOSE_AFTER_REPLY); [by eapply Hfree | by exists sv, c2, true, out].
Qed.

(** ** Runs *)

(** What happens to the output of a client: replies, lengths that are reserved and set later, and writes. *)
Inductive out_op := OProto (s : list Z) | OBulk (o : string_obj) | OInteger (n : Z) | OError (s : list Z) | ODefer | OSetLen (k : nat) (s : list Z) | OWrite (handler_installed : bool).

(** The handles are the results of addReplyDeferredLen(), in order. *)
Definition run_op (st : oserver * client * list (option Z)) (o : out_op) : option (oserver * client * list (option Z)) :=
  let '(sv, c, hs) := st in
  match o with
  | OProto s => '(sv, c) ← addReplyProto sv c s; Some (sv, c, hs)
  | OBulk o => '(sv, c) ← addReplyBulk sv c o; Some (sv, c, hs)
  | OInteger n => '(sv, c) ← addReplyLongLong sv c n; Some (sv, c, hs)
  | OError s => '(sv, c) ← addReplyErrorLength sv c s; Some (sv, c, hs)
  | ODefer => let '(sv, c, h) := addReplyDeferredLen sv c in Some (sv, c, hs ++ [h])
  | OSetLen k s => h ← hs !! k; '(sv, c) ← setDeferredReply sv c h s; Some (sv, c, hs)
  | OWrite h => '(sv, c, _) ← writeToClient sv c h; Some (sv, c, hs)
  end.

Fixpoint run_ops (st : oserver * client * list (option Z)) (ops : list out_op) : option (oserver * client * list (option Z)) :=
  match ops with [] => Some st | o :: ops => st ← run_op st o; run_ops st ops end.

(** The specification: a sequence of bytes with holes, named by the order in which they were made. *)
Definition op_bytes (o : out_op) : list Z :=
  match o with
  | OProto s => s
  | OBulk o => bulk (obj_bytes o)
  | OInteger n => len_line (chr ":") n
  | OError s => (if (zlen s =? 0) || negb (hd 0 s =? chr "-") then str "-ERR " else []) ++ s ++ [CR; LF]
  | OSetLen _ s => s
  | _ => []
  end.

Definition spec_op (base : Z) (st : list token * nat) (o : out_op) : list token * nat :=
  let '(q, d) := st in
  match o with
  | ODefer => (q ++ [inr (base + Z.of_nat d)], S d)
  | OSetLen k s => (fill (base + Z.of_nat k) s q, d)
  | _ => (q ++ bytes (op_bytes o), d)
  end.

(** A length is set once, and nothing is written while a length is missing. *)
Definition op_ok (base : Z) (q : list token) (o : out_op) : Prop :=
  match o with
  | OBulk o => obj_ok o
  | OInteger n => is_ll n
  | OSetLen k s => inr (base + Z.of_nat k) ∈ q
  | OWrite _ => forall i, inr i ∉ q
  | _ => True
  end.

Fixpoint ops_ok (base : Z) (st : list token * nat) (ops : list out_op) : Prop :=
  match ops with [] => True | o :: ops => op_ok base st.1 o /\ ops_ok base (spec_op base st o) ops end.

(** The stream so far is what was sent, what is queued, and what was refused; the handles of the holes that are queued are known. *)
Record run_inv (base : Z) (wire0 : list Z) (c : client) (hs : list (option Z)) (q : list token) (d : nat) : Prop := RunInv {
  ri_ok : client_ok c; ri_close : has_flag c CLIENT_CLOSE_AFTER_REPLY = false;
  ri_hs : length hs = d;
  ri_next : accepts c = true -> next_node c = base + Z.of_nat d;
  ri_split : exists cn sent rest, cconn c = Some cn /\ wire cn = wire0 ++ sent /\ q = bytes sent ++ pending c ++ rest /\ (accepts c = true -> rest = []) /\
    (forall i, inr i ∈ pending c -> exists k, i = base + Z.of_nat k /\ hs !! k = Some (Some i)) /\
    (forall i, inr i ∈ rest -> exists k, i = base + Z.of_nat k /\ hs !! k = Some None) }.

Lemma bytes_no_hole i s : inr i ∉ bytes s.
Proof. unfold bytes. rewrite list_elem_of_fmap. by intros (x & ? & _). Qed.

Lemma ids_pending c i : client_ok c -> inr i ∈ pending c <-> i ∈ ids (reply c).
Proof.
  intros Hok. destruct (sent_bytes c Hok) as (p & Hq & _). transitivity (inr i ∈ queued c).
  - rewrite Hq, elem_of_app. split; [by right|]. by intros [?%bytes_no_hole|?].
  - unfold queued. rewrite elem_of_app. split.
    + intros [?%bytes_no_hole|Hi]; [done|]. apply list_elem_of_bind in Hi as (n & Hn & Hin). apply list_elem_of_bind. exists n. split; [|done]. destruct n as [j|b]; [|by apply bytes_no_hole in Hn]. apply list_elem_of_singleton in Hn. injection Hn as Hn. rewrite Hn. by left.
    + intros (n & Hn & Hin)%list_elem_of_bind. right. apply list_elem_of_bind. exists n. split; [|done]. destruct n as [j|b]; [|by apply elem_of_nil in Hn]. apply list_elem_of_singleton in Hn. rewrite Hn. by left.
Qed.

Lemma holes_fill i id s q : inr i ∈ fill id s q -> inr i ∈ q /\ i <> id.
Proof.
  unfold fill. intros (t & Ht & Hin)%list_elem_of_bind. destruct t as [x|j]; [by apply list_elem_of_singleton in Ht|]. destruct (Z.eqb_spec j id) as [He|Hne]; [by apply bytes_no_hole in Ht|]. apply list_elem_of_singleton in Ht. injection Ht as Ht. by rewrite Ht.
Qed.

Lemma fill_absent id s q : inr id ∉ q -> fill id s q = q.
Proof.
  induction q as [|t q IH]; [done|]. rewrite not_elem_of_cons. intros [Ht Hq]. change (fill id s (t :: q)) with ((match t with inl _ => [t] | inr i => if i =? id then bytes s else [t] end) ++ fill id s q). rewrite IH by done. destruct t as [x|j]; [done|].
  by rewrite (proj2 (Z.eqb_neq j id)) by congruence.
Qed.

(** A step that queues bytes. *)
Lemma inv_emits base wire0 c c' hs q d k t : run_inv base wire0 c hs q d -> emitted c c' k t -> run_inv base wire0 c' hs (q ++ bytes t) d.
Proof.
  intros [Hok Hcl Hhs Hnx (cn & sent & rest & Hcn & Hw & Hq & Hrest & Hp & Hr)] [(t' & [r ->] & Hap & Hall & Hnone) Hnext _]. pose proof (ap_frame _ _ _ Hap) as Hfr. pose proof (appended_pending c c' _ Hok Hap) as Hpend.
  split; [apply Hap | by rewrite (fr_flags _ _ Hfr) | done | |].
  - intros Hac. rewrite Hnext. apply Hnx. by eapply accepts_mono.
  - assert (forall i, inr i ∈ pending c' -> exists k, i = base + Z.of_nat k /\ hs !! k = Some (Some i)) as Hp' by (intros i; rewrite Hpend, elem_of_app; intros [Hi|Hi%bytes_no_hole]; [by apply Hp | done]).
    assert (forall l i, inr i ∈ rest ++ bytes l -> exists k, i = base + Z.of_nat k /\ hs !! k = Some None) as Hr' by (intros l i; rewrite elem_of_app; intros [Hi|Hi%bytes_no_hole]; [by apply Hr | done]).
    exists cn, sent. destruct (accepts c) eqn:Hac.
    + rewrite (Hrest eq_refl) in Hq, Hr'. exists (bytes r). split_and!; [by rewrite (fr_conn _ _ Hfr) | done | | | done | by apply (Hr' r)].
      * rewrite Hq, Hpend, bytes_app, !app_nil_r, <- !app_assoc. done.
      * intros Ha'. specialize (Hall Ha'). by rewrite <- (app_nil_r t') in Hall at 1; apply app_inv_head in Hall as <-.
    + rewrite (Hnone eq_refl) in *. exists (rest ++ bytes r). split_and!; [by rewrite (fr_conn _ _ Hfr) | done | | | done | apply Hr'].
      * rewrite Hq, Hpend, app_nil_r, <- !app_assoc. done.
      * intros Ha'. by rewrite (accepts_mono c c' Hfr Ha') in Hac.
Qed.

(** A placeholder is queued. *)
Lemma inv_defer sv base wire0 c hs q d : run_inv base wire0 c hs q d ->
  exists sv' c' h, addReplyDeferredLen sv c = (sv', c', h) /\ run_inv base wire0 c' (hs ++ [h]) (q ++ [inr (base + Z.of_nat d)]) (S d) /\ costs c c' 0.
Proof.
  intros [Hok Hcl Hhs Hnx (cn & sent & rest & Hcn & Hw & Hq & Hrest & Hp & Hr)]. destruct (addReplyDeferredLen_ok sv c Hok) as (sv' & c' & -> & Hap & Hn & Hco). eexists sv', c', _. split; [done|]. split; [|done].
  pose proof (ap_frame _ _ _ Hap) as Hfr. pose proof (appended_pending c c' _ Hok Hap) as Hpend. assert (accepts c = receives c) as Hacc by (unfold accepts; rewrite Hcl; apply andb_true_r). rewrite Hacc in Hnx, Hrest.
  assert (forall (l : list (option Z)) i j (h : option Z), (exists k, i = base + Z.of_nat k /\ l !! k = Some h) -> exists k, i = base + Z.of_nat k /\ (l ++ [j]) !! k = Some h) as Hext.
  { intros l i j h (k & -> & Hk). exists k. split; [done|]. rewrite lookup_app_l; [done|]. by eapply lookup_lt_Some. }
  split; [apply Hap | by rewrite (fr_flags _ _ Hfr) | rewrite length_app, Hhs; cbn; lia | |].
  - intros Hac. apply (accepts_mono c c' Hfr) in Hac. rewrite Hacc in Hac. rewrite Hn, Hac, Hnx by done. lia.
  - exists cn, sent. destruct (receives c) eqn:Hrc.
    + rewrite Hrest in Hq by done. exists []. rewrite Hnx in Hpend |- * by done. split_and!; [by rewrite (fr_conn _ _ Hfr) | done | | done | | by intros i ?%elem_of_nil].
      * by rewrite Hq, Hpend, !app_nil_r, <- app_assoc.
      * intros i. rewrite Hpend, elem_of_app, list_elem_of_singleton. intros [Hi|Hi]; [by apply Hext, Hp|]. injection Hi as ->. exists d. split; [done|]. by rewrite lookup_app_r, Hhs, Nat.sub_diag by lia.
    + exists (rest ++ [inr (base + Z.of_nat d)]). rewrite app_nil_r in Hpend. split_and!; [by rewrite (fr_conn _ _ Hfr) | done | | | |].
      * by rewrite Hq, Hpend, <- !app_assoc.
      * intros Ha'. apply (accepts_mono c c' Hfr) in Ha'. congruence.
      * intros i. rewrite Hpend. intros Hi. by apply Hext, Hp.
      * intros i. rewrite elem_of_app, list_elem_of_singleton. intros [Hi|Hi]; [by apply Hext, Hr|]. injection Hi as ->. exists d. split; [done|]. by rewrite lookup_app_r, Hhs, Nat.sub_diag by lia.
Qed.

(** A placeholder gets its length. *)
Lemma inv_set sv base wire0 c hs q d k s : run_inv base wire0 c hs q d -> inr (base + Z.of_nat k) ∈ q -> room c 1 (zlen s) ->
  exists h sv' c', hs !! k = Some h /\ setDeferredReply sv c h s = Some (sv', c') /\ run_inv base wire0 c' hs (fill (base + Z.of_nat k) s q) d /\ costs c c' (zlen s).
Proof.
  intros [Hok Hcl Hhs Hnx (cn & sent & rest & Hcn & Hw & Hq & Hrest & Hp & Hr)] Hin Hroom. set (id := base + Z.of_nat k) in *. rewrite Hq, !elem_of_app in Hin. destruct Hin as [Hi%bytes_no_hole|[Hi|Hi]]; [done| |].
  - destruct (Hp id Hi) as (k' & Hk' & Hh). assert (k' = k) as -> by (unfold id in Hk'; lia). exists (Some id). rewrite (ids_pending c id Hok) in Hi. destruct (setDeferredReply_ok sv c id s Hok Hi Hroom) as (sv' & c' & -> & Hfl & Hco). exists sv', c'. split; [done|]. split; [done|]. split; [|done].
    pose proof (fl_frame _ _ _ _ Hfl) as Hfr. pose proof (filled_pending c c' id s Hok Hfl) as Hpend.
    assert (inr id ∉ rest) as Hnr by (intros Hi2; destruct (Hr id Hi2) as (k2 & Hk2 & Hh2); assert (k2 = k) as -> by (unfold id in Hk2; lia); congruence).
    split; [apply Hfl | by rewrite (fr_flags _ _ Hfr) | done | intros Ha'; rewrite (fl_next _ _ _ _ Hfl); apply Hnx; by eapply accepts_mono|].
    exists cn, sent, rest. split_and!; [by rewrite (fr_conn _ _ Hfr) | done | | intros Ha'; apply Hrest; by eapply accepts_mono | | done].
    + rewrite Hq, !fill_app, fill_bytes, Hpend. by rewrite (fill_absent id s rest).
    + intros i. rewrite Hpend. intros [Hi' _]%holes_fill. by apply Hp.
  - destruct (Hr id Hi) as (k' & Hk' & Hh). assert (k' = k) as -> by (unfold id in Hk'; lia). exists None, sv, c. split; [done|]. split; [done|]. split; [|intros u Hu%block_bound_pos; lia].
    assert (inr id ∉ pending c) as Hnp by (intros Hi2; destruct (Hp id Hi2) as (k2 & Hk2 & Hh2); assert (k2 = k) as -> by (unfold id in Hk2; lia); congruence).
    split; [done | done | done | done|]. exists cn, sent, (fill id s rest). split_and!; [done | done | | | done |].
    + by rewrite Hq, !fill_app, fill_bytes, (fill_absent id s (pending c)).
    + intros Ha. by rewrite (Hrest Ha).
    + intros i [Hi' _]%holes_fill. by apply Hr.
Qed.

(** A write moves bytes to the socket. *)
Lemma inv_write sv base wire0 c hs q d h : run_inv base wire0 c hs q d -> (forall i, inr i ∉ q) ->
  exists sv' c' ok, writeToClient sv c h = Some (sv', c', ok) /\ run_inv base wire0 c' hs q d /\ sizes (reply c') <= sizes (reply c).
Proof.
  intros [Hok Hcl Hhs Hnx (cn & sent & rest & Hcn & Hw & Hq & Hrest & Hp & Hr)] Hno.
  assert (forall i, i ∉ ids (reply c)) as Hids by (intros i Hi; apply (Hno i); rewrite Hq, !elem_of_app; right; left; by apply ids_pending).
  assert (ids (reply c) = []) as Hid by (destruct (ids (reply c)) as [|i l]; [done|]; exfalso; apply (Hids i); by left).
  destruct (writeToClient_ok sv c h cn Hok Hid Hcn) as (sv' & c' & ok & out & -> & [Hfr Hok' Hpend Hid' Hsz Hn' (cn0 & cn' & Hcn0 & Hcn' & Hw')] & _). exists sv', c', ok. split; [done|]. split; [|done]. rewrite Hcn in Hcn0. injection Hcn0 as <-.
  assert (accepts c' = true -> accepts c = true) as Hacc.
  { intros Ha. apply (accepts_mono _ c' Hfr) in Ha. unfold accepts, receives in *. cbn in Ha. rewrite Hcn, Hcn' in *. done. }
  split; [done | by rewrite (fr_flags _ _ Hfr) | done | intros Ha; rewrite Hn'; auto|]. exists cn', (sent ++ out), rest. split_and!; [done | by rewrite Hw', Hw, app_assoc | | auto | | done].
  - by rewrite Hq, Hpend, bytes_app, <- !app_assoc.
  - intros i Hi. apply ids_pending in Hi; [|done]. rewrite Hid' in Hi. by apply elem_of_nil in Hi.
Qed.

Lemma room_costs c c' m n n' : costs c c' n' -> n' <= n -> 0 <= m -> room c (3 + m) n -> room c' m n.
Proof. intros Hc Hn Hm Hr. eapply room_step; [exact Hc | done|]. eapply room_le; [exact Hr | lia | lia]. Qed.

Lemma room_emitted c c' k m n t : emitted c c' k t -> k <= 3 -> 0 <= m -> zlen t <= n -> room c (3 + m) n -> room c' m n.
Proof. intros He Hk Hm Hn Hr. apply (em_room _ _ _ _ He); [done | done|]. eapply room_le; [exact Hr | lia | lia]. Qed.

Lemma run_op_ok base wire0 sv c hs q d o n m : run_inv base wire0 c hs q d -> op_ok base q o -> zlen (op_bytes o) <= n -> 0 <= m -> room c (3 + m) n ->
  exists sv' c' hs', run_op (sv, c, hs) o = Some (sv', c', hs') /\ run_inv base wire0 c' hs' (spec_op base (q, d) o).1 (spec_op base (q, d) o).2 /\ room c' m n.
Proof.
  intros Hinv Hop Hlen Hm Hroom. pose proof (ri_ok _ _ _ _ _ _ Hinv) as Hok. pose proof (zlen_nonneg (op_bytes o)) as Hz.
  assert (forall r k, emits c k (op_bytes o) r -> k <= 3 -> exists sv' c', r = Some (sv', c') /\ run_inv base wire0 c' hs (q ++ bytes (op_bytes o)) d /\ room c' m n) as Hemit.
  { intros r k Hr Hk. destruct (Hr Hok) as (sv' & c' & -> & He); [eapply room_le; [exact Hroom | lia | lia]|]. exists sv', c'. split; [done|]. split; [by eapply inv_emits | by eapply room_emitted]. }
  destruct o as [s|o|i|s| |k s|h]; cbn [run_op spec_op fst snd] in *.
  - destruct (Hemit _ _ (addReplyProto_emits sv c s)) as (sv' & c' & -> & Hi & Hr); [done|]. simpl_bind. eauto 10.
  - destruct (Hemit _ _ (addReplyBulk_emits sv c o Hop)) as (sv' & c' & -> & Hi & Hr); [done|]. simpl_bind. eauto 10.
  - destruct (Hemit _ _ (addReplyLongLong_emits sv c i Hop)) as (sv' & c' & -> & Hi & Hr); [done|]. simpl_bind. eauto 10.
  - destruct (Hemit _ _ (addReplyErrorLength_emits sv c s)) as (sv' & c' & -> & Hi & Hr); [done|]. simpl_bind. eauto 10.
  - destruct (inv_defer sv _ _ _ _ _ _ Hinv) as (sv' & c' & h & -> & Hi & Hco). exists sv', c', (hs ++ [h]). split; [done|]. split; [done | by eapply room_costs].
  - destruct (inv_set sv _ _ _ _ _ _ k s Hinv Hop) as (h & sv' & c' & -> & Hs & Hi & Hco); [eapply room_le; [exact Hroom | lia | done]|]. simpl_bind. rewrite Hs. simpl_bind. exists sv', c', hs. split; [done|]. split; [done | by eapply room_costs].
  - destruct (inv_write sv _ _ _ _ _ _ h Hinv Hop) as (sv' & c' & ok & -> & Hi & Hsz). simpl_bind. exists sv', c', hs. split; [done|]. cbn [op_bytes]. change (bytes []) with (@nil token). rewrite app_nil_r. split; [done|].
    destruct Hroom as (u & Hu & Hr). exists u. split; [done|]. pose proof (block_bound_pos u n Hu). lia.
Qed.

Lemma run_ops_ok base wire0 ops sv c hs q d n : run_inv base wire0 c hs q d -> ops_ok base (q, d) ops -> Forall (fun o => zlen (op_bytes o) <= n) ops -> room c (3 * zlen ops) n ->
  exists sv' c' hs', run_ops (sv, c, hs) ops = Some (sv', c', hs') /\ run_inv base wire0 c' hs' (foldl (spec_op base) (q, d) ops).1 (foldl (spec_op base) (q, d) ops).2.
Proof.
  revert sv c hs q d. induction ops as [|o ops IH]; intros sv c hs q d Hinv Hops Hlen Hroom; cbn [run_ops foldl]; [by exists sv, c, hs|].
  destruct Hops as [Hop Hops]. apply Forall_cons in Hlen as [Hl Hlen]. pose proof (zlen_nonneg ops). rewrite zlen_cons in Hroom.
  destruct (run_op_ok base wire0 sv c hs q d o n (3 * zlen ops) Hinv Hop Hl) as (sv1 & c1 & hs1 & -> & Hinv1 & Hr1); [lia | by replace (3 + 3 * zlen ops) with (3 * (1 + zlen ops)) by lia|].
  simpl_bind. destruct (spec_op base (q, d) o) as [q1 d1]. by apply IH.
Qed.

Lemma inv_start c cn : client_ok c -> cconn c = Some cn -> ids (reply c) = [] -> has_flag c CLIENT_CLOSE_AFTER_REPLY = false -> run_inv (next_node c) (wire cn) c [] (pending c) 0.
Proof.
  intros Hok Hcn Hid Hcl. split; [done | done | done | cbn; lia|]. exists cn, [], []. rewrite !app_nil_r. split_and!; [done | done | done | done | | by intros i ?%elem_of_nil]. intros i Hi. apply ids_pending in Hi; [|done]. rewrite Hid in Hi. by apply elem_of_nil in Hi.
Qed.

(** C16. Output of a client: any sequence of replies (raw bytes, bulk strings, integers, errors), of lengths that are
    reserved and set later, and of writes to a socket that behaves in any way, runs through without a failed
    assertion or an access out of bounds, and what is on the wire followed by what is queued is the sequence of all
    replies in order, with each length in its place; only a client that the output limits or a write error closed has
    a suffix of it missing. *)
Theorem reply_stream_correct sv c cn ops n : client_ok c -> cconn c = Some cn -> ids (reply c) = [] -> has_flag c CLIENT_CLOSE_AFTER_REPLY = false ->
  ops_ok (next_node c) (pending c, 0%nat) ops -> Forall (fun o => zlen (op_bytes o) <= n) ops -> room c (3 * zlen ops) n ->
  exists sv' c' hs' cn' sent lost, run_ops (sv, c, []) ops = Some (sv', c', hs') /\ client_ok c' /\ cconn c' = Some cn' /\ wire cn' = wire cn ++ sent /\
    (foldl (spec_op (next_node c)) (pending c, 0%nat) ops).1 = bytes sent ++ pending c' ++ lost /\ (accepts c' = true -> lost = []).
Proof.
  intros Hok Hcn Hid Hcl Hops Hlen Hroom. destruct (run_ops_ok (next_node c) (wire cn) ops sv c [] (pending c) 0 n (inv_start c cn Hok Hcn Hid Hcl) Hops Hlen Hroom) as (sv' & c' & hs' & Hrun & [Hok' _ _ _ (cn' & sent & rest & Hcn' & Hw & Hq & Hrest & _)]).
  exists sv', c', hs', cn', sent, rest. done.
Qed.

(** *** Until nothing is left *)






End queueing.

(** A client with an empty queue and a socket that takes three bytes at each call *)
Definition w_client : client := Client 1 0 2 (Some (Conn true false [] (replicate 100 3))) 0 false (replicate (Z.to_nat PROTO_REPLY_CHUNK_BYTES) 0) 0 0 [] 0 0 0.
Definition w_oserver : oserver := OServer [] [] (fun _ => Limit 0 0 0) 0 true.
Definition w_ops : list out_op := [ODefer; OBulk (sds_obj (str "ab")); OInteger 5; OSetLen 0 (len_line (chr "*") 2); OWrite false; OError (str "x")].

Lemma w_client_ok : client_ok w_client.
Proof. split; [by vm_compute | cbn; unfold PROTO_REPLY_CHUNK_BYTES; lia | apply Forall_nil_2 | apply NoDup_nil_2 | apply Forall_nil_2 | by left | done]. Qed.



Lemma w_room k n : k <= 100 -> n <= 1000000 -> @room exact_allocator w_client k n.
Proof.
  intros Hk Hn. exists (PROTO_REPLY_CHUNK_BYTES + 1000000 + 16). split.
  - intros j Hj. cbn. unfold sizeof_block, PROTO_REPLY_CHUNK_BYTES in *. lia.
  - cbn [w_client reply sizes foldr]. unfold SIZE_MAX, PROTO_REPLY_CHUNK_BYTES. lia.
Qed.

Lemma reply_stream_correct_witness : exists sv' c' hs' cn' sent lost, @run_ops exact_allocator (w_oserver, w_client, []) w_ops = Some (sv', c', hs') /\ client_ok c' /\ cconn c' = Some cn' /\ wire cn' = [] ++ sent /\
  (foldl (spec_op 0) ([], 0%nat) w_ops).1 = bytes sent ++ pending c' ++ lost /\ (accepts c' = true -> lost = []).
Proof.
  apply (@reply_stream_correct exact_allocator w_oserver w_client (Conn true false [] (replicate 100 3)) w_ops 1000).
  - exact w_client_ok.
  - reflexivity.
  - reflexivity.
  - reflexivity.
  - cbn. split_and!; try done; [by left|]. intros i Hi. repeat (apply elem_of_cons in Hi as [Hi|Hi]; [done|]). by apply elem_of_nil in Hi.
  - repeat constructor; vm_compute; congruence.
  - by apply w_room.
Defined.

