(* ===== verification/Replication.v ===== *)
(** * Replication: the backlog and the stream to the replicas (src/redis-stable/src/replication.c)

    The circular buffer that keeps the end of the replication stream, the commands that are fed to it and to the
    output of the replicas, and the answer to PSYNC that continues the stream from the buffer.  Replicas are
    clients of [Reply]; the random characters of a replication ID are an argument. *)
From S2P Require Import Prelude.
From S2P Require Import Util.
From S2P Require Import Sds.
From S2P Require Import Networking.
From S2P Require Import Aof.
From S2P Require Import Reply.

(** ** State *)

Definition CONFIG_REPL_BACKLOG_MIN_SIZE : Z := 1024 * 16.
Definition CONFIG_RUN_ID_SIZE : Z := 40.
Definition PROTO_SHARED_SELECT_CMDS : Z := 10.
Definition CLIENT_REPL_RDBONLY : Z := 2 ^ 42.
Definition SLAVE_STATE_WAIT_BGSAVE_START : Z := 6.

(** A client with its fields as a replica *)
Record replica := Replica { rc : client; slave_capa : Z; repl_ack_time : Z }.

(** The fields of the server *)
Record backlog := Backlog {
  repl_backlog : option (list Z); repl_backlog_size : Z; repl_backlog_histlen : Z; repl_backlog_idx : Z; repl_backlog_off : Z; master_repl_offset : Z }.

Record rserver := RServer {
  rout : oserver; masterhost : bool; bl : backlog; slaveseldb : Z; replid : list Z; replid2 : list Z; second_replid_offset : Z; slaves : list replica;
  repl_min_slaves_to_write : Z; repl_min_slaves_max_lag : Z; repl_good_slaves_count : Z }.

Definition set_bl (s : rserver) (b : backlog) : rserver :=
  RServer (rout s) (masterhost s) b (slaveseldb s) (replid s) (replid2 s) (second_replid_offset s) (slaves s) (repl_min_slaves_to_write s) (repl_min_slaves_max_lag s) (repl_good_slaves_count s).
Definition set_slaves (s : rserver) (o : oserver) (l : list replica) : rserver :=
  RServer o (masterhost s) (bl s) (slaveseldb s) (replid s) (replid2 s) (second_replid_offset s) l (repl_min_slaves_to_write s) (repl_min_slaves_max_lag s) (repl_good_slaves_count s).
Definition set_ids (s : rserver) (id id2 : list Z) (off : Z) : rserver :=
  RServer (rout s) (masterhost s) (bl s) (slaveseldb s) id id2 off (slaves s) (repl_min_slaves_to_write s) (repl_min_slaves_max_lag s) (repl_good_slaves_count s).

(** ** The backlog *)

(** The loop of feedReplicationBacklog(): the buffer, the index and the length of the history *)
Fixpoint feed_loop (fuel : nat) (size : Z) (m : list Z) (idx histlen : Z) (p : list Z) : option (list Z * Z * Z) :=
  match fuel with
  | O => None
  | S fuel =>
      if zlen p =? 0 then Some (m, idx, histlen)
      else
        let thislen := u64 (size - idx) in
        let thislen := if zlen p <? thislen then zlen p else thislen in
        m ← mem_store m idx (take (Z.to_nat thislen) p);
        let idx := idx + thislen in
        let idx := if idx =? size then 0 else idx in
        feed_loop fuel size m idx (histlen + thislen) (drop (Z.to_nat thislen) p)
  end.

Definition feedReplicationBacklog (b : backlog) (p : list Z) : option backlog :=
  let offset := s64 (master_repl_offset b + zlen p) in
  if zlen p =? 0 then
    let histlen := if repl_backlog_size b <? repl_backlog_histlen b then repl_backlog_size b else repl_backlog_histlen b in
    Some (Backlog (repl_backlog b) (repl_backlog_size b) histlen (repl_backlog_idx b) (offset - histlen + 1) offset)
  else
    m ← repl_backlog b;
    '(m, idx, histlen) ← feed_loop (S (length p)) (repl_backlog_size b) m (repl_backlog_idx b) (repl_backlog_histlen b) p;
    let histlen := if repl_backlog_size b <? histlen then repl_backlog_size b else histlen in
    Some (Backlog (Some m) (repl_backlog_size b) histlen idx (offset - histlen + 1) offset).

Section replication.
Context `{Allocator}.

Definition createReplicationBacklog (b : backlog) : option backlog :=
  match repl_backlog b with
  | Some _ => None
  | None => Some (Backlog (Some (junk_bytes 0 (Z.to_nat (repl_backlog_size b)))) (repl_backlog_size b) 0 0 (master_repl_offset b + 1) (master_repl_offset b))
  end.

Definition resizeReplicationBacklog (b : backlog) (newsize : Z) : backlog :=
  let newsize := if newsize <? CONFIG_REPL_BACKLOG_MIN_SIZE then CONFIG_REPL_BACKLOG_MIN_SIZE else newsize in
  if repl_backlog_size b =? newsize then b
  else
    match repl_backlog b with
    | None => Backlog None newsize (repl_backlog_histlen b) (repl_backlog_idx b) (repl_backlog_off b) (master_repl_offset b)
    | Some _ => Backlog (Some (junk_bytes 0 (Z.to_nat newsize))) newsize 0 0 (master_repl_offset b + 1) (master_repl_offset b)
    end.

Definition freeReplicationBacklog (s : rserver) : option rserver :=
  if negb (zlen (slaves s) =? 0) then None
  else let b := bl s in Some (set_bl s (Backlog None (repl_backlog_size b) (repl_backlog_histlen b) (repl_backlog_idx b) (repl_backlog_off b) (master_repl_offset b))).


(** ** The replicas *)

Definition canFeedReplicaReplBuffer (r : replica) : bool :=
  if has_flag (rc r) CLIENT_REPL_RDBONLY then false
  else if replstate (rc r) =? SLAVE_STATE_WAIT_BGSAVE_START then false
  else true.

(** while((ln = listNext(&li))) if (canFeedReplicaReplBuffer(slave)) f(slave) *)
Fixpoint feed_slaves (f : oserver -> client -> option (oserver * client)) (o : oserver) (l : list replica) : option (oserver * list replica) :=
  match l with
  | [] => Some (o, [])
  | r :: l =>
      '(o, r) ← (if negb (canFeedReplicaReplBuffer r) then Some (o, r) else '(o, c) ← f o (rc r); Some (o, Replica c (slave_capa r) (repl_ack_time r)));
      '(o, l) ← feed_slaves f o l;
      Some (o, r :: l)
  end.





Definition replicationFeedSlavesFromMasterStream (s : rserver) (p : list Z) : option rserver :=
  b ← (if bool_decide (repl_backlog (bl s) = None) then Some (bl s) else feedReplicationBacklog (bl s) p);
  '(o, l) ← feed_slaves (fun o c => addReplyProto o c p) (rout s) (slaves s);
  Some (set_slaves (set_bl s b) o l).

(** ** Partial resynchronization *)



Definition changeReplicationId (s : rserver) (random : list Z) : rserver := set_ids s (take (Z.to_nat CONFIG_RUN_ID_SIZE) random) (replid2 s) (second_replid_offset s).
Definition clearReplicationId2 (s : rserver) : rserver := set_ids s (replid s) (replicate (Z.to_nat CONFIG_RUN_ID_SIZE) (chr "0")) (-1).
Definition shiftReplicationId (s : rserver) (random : list Z) : rserver :=
  changeReplicationId (set_ids s (replid s) (replid s) (master_repl_offset (bl s) + 1)) random.






End replication.

(** ** The circular buffer *)

(** The bytes of the buffer, the oldest first *)
Definition ring (m : list Z) (idx : Z) : list Z := drop (Z.to_nat idx) m ++ take (Z.to_nat idx) m.




(** [S] is the stream since offset [base]; the history is its end, and the end of the ring. *)
Record backlog_ok (b : backlog) (base : Z) (S : list Z) : Prop := BacklogOk {
  bo_buf : exists m, repl_backlog b = Some m /\ zlen m = repl_backlog_size b /\
    exists old before hist, ring m (repl_backlog_idx b) = old ++ hist /\ S = before ++ hist /\ zlen hist = repl_backlog_histlen b;
  bo_idx : 0 <= repl_backlog_idx b < repl_backlog_size b;
  bo_size : repl_backlog_size b < 2 ^ 63;
  bo_hist : 0 <= repl_backlog_histlen b <= repl_backlog_size b;
  bo_offset : master_repl_offset b = base + zlen S;
  bo_off : repl_backlog_off b = master_repl_offset b - repl_backlog_histlen b + 1 }.



Section feeding.
Context `{Allocator}.

Lemma fresh_ok size base S : 1 <= size < 2 ^ 63 -> backlog_ok (Backlog (Some (junk_bytes 0 (Z.to_nat size))) size 0 0 (base + zlen S + 1) (base + zlen S)) base S.
Proof.
  intros Hs. split; cbn; try lia. exists (junk_bytes 0 (Z.to_nat size)). split; [done|]. split; [by apply zlen_junk; lia|]. exists (ring (junk_bytes 0 (Z.to_nat size)) 0), S, []. by rewrite !app_nil_r.
Qed.

Lemma createReplicationBacklog_ok b : repl_backlog b = None -> 1 <= repl_backlog_size b < 2 ^ 63 -> exists b', createReplicationBacklog b = Some b' /\ backlog_ok b' (master_repl_offset b) [].
Proof. intros Hn Hs. unfold createReplicationBacklog. rewrite Hn. eexists. split; [done|]. pose proof (fresh_ok (repl_backlog_size b) (master_repl_offset b) [] Hs) as Hf. by rewrite Z.add_0_r in Hf. Qed.

Lemma resizeReplicationBacklog_ok b base S n : backlog_ok b base S -> n < 2 ^ 63 -> backlog_ok (resizeReplicationBacklog b n) base S /\ (CONFIG_REPL_BACKLOG_MIN_SIZE <= n -> repl_backlog_size (resizeReplicationBacklog b n) = n).
Proof.
  intros Hok Hn. pose proof Hok as [(m & Hm & _) _ _ _ Hoff _]. unfold resizeReplicationBacklog. set (k := if n <? CONFIG_REPL_BACKLOG_MIN_SIZE then CONFIG_REPL_BACKLOG_MIN_SIZE else n).
  assert (1 <= k < 2 ^ 63) as Hk by (unfold k, CONFIG_REPL_BACKLOG_MIN_SIZE; destruct (Z.ltb_spec n (1024 * 16)); lia). assert (CONFIG_REPL_BACKLOG_MIN_SIZE <= n -> k = n) as Hkn by (intros Hge; unfold k; by rewrite (proj2 (Z.ltb_ge _ _))).
  destruct (Z.eqb_spec (repl_backlog_size b) k) as [He|_]; [split; [done | intros Hge; by rewrite He, Hkn]|]. rewrite Hm. split; [|done]. rewrite Hoff. by apply fresh_ok.
Qed.




(** ** Feeding the replicas *)


























(** ** Continuing the stream *)




















End feeding.



