(* ===== verification/Ziplist.v ===== *)
(** * Ziplists (src/redis-stable/src/ziplist.c): encodings, decoding, traversal

    A ziplist is the block of memory that holds it, a pointer into it is an offset. In the
    results, an outer [None] is an access out of bounds or a failed assertion and an inner
    [None] is the NULL pointer, or 0 for the functions that return a validity flag. *)
From S2P Require Import Prelude.
From S2P Require Import Util.
From S2P Require Import Listpack.

(** ** Encodings *)

Definition ZIP_END : Z := 255.
Definition ZIP_BIG_PREVLEN : Z := 254.
Definition ZIP_STR_MASK : Z := 0xc0.
Definition ZIP_STR_06B : Z := Z.shiftl 0 6.
Definition ZIP_STR_14B : Z := Z.shiftl 1 6.
Definition ZIP_STR_32B : Z := Z.shiftl 2 6.
Definition ZIP_INT_16B : Z := Z.lor 0xc0 (Z.shiftl 0 4).
Definition ZIP_INT_32B : Z := Z.lor 0xc0 (Z.shiftl 1 4).
Definition ZIP_INT_64B : Z := Z.lor 0xc0 (Z.shiftl 2 4).
Definition ZIP_INT_24B : Z := Z.lor 0xc0 (Z.shiftl 3 4).
Definition ZIP_INT_8B : Z := 0xfe.
Definition ZIP_INT_IMM_MASK : Z := 0x0f.
Definition ZIP_INT_IMM_MIN : Z := 0xf1.
Definition ZIP_INT_IMM_MAX : Z := 0xfd.
Definition INT24_MAX : Z := 0x7fffff.
Definition INT24_MIN : Z := - INT24_MAX - 1.
Definition INT8_MIN : Z := -128.
Definition INT8_MAX : Z := 127.
Definition UINT16_MAX : Z := 65535.
Definition UCHAR_MAX : Z := 255.
Definition ZIPLIST_HEADER_SIZE : Z := 10.
Definition ZIPLIST_END_SIZE : Z := 1.
Definition ZIPLIST_MAX_SAFETY_SIZE : Z := Z.shiftl 1 30.

Definition ZIP_IS_STR (enc : Z) : bool := Z.land enc ZIP_STR_MASK <? ZIP_STR_MASK.

(** ** Header fields *)

Definition ZIPLIST_BYTES (zl : list Z) : option Z := load_le zl 0 4 0.
Definition ZIPLIST_TAIL_OFFSET (zl : list Z) : option Z := load_le zl 4 4 0.
Definition ZIPLIST_LENGTH (zl : list Z) : option Z := load_le zl 8 2 0.

(** ZIPLIST_BYTES(zl) = v, and so on. *)
Definition set_ZIPLIST_BYTES (zl : list Z) (v : Z) : option (list Z) := store_le zl 0 4 v.
Definition set_ZIPLIST_TAIL_OFFSET (zl : list Z) (v : Z) : option (list Z) := store_le zl 4 4 v.
Definition set_ZIPLIST_LENGTH (zl : list Z) (v : Z) : option (list Z) := store_le zl 8 2 v.

Definition ZIPLIST_ENTRY_HEAD : Z := ZIPLIST_HEADER_SIZE.
Definition ZIPLIST_ENTRY_TAIL (zl : list Z) : option Z := ZIPLIST_TAIL_OFFSET zl.
Definition ZIPLIST_ENTRY_END (zl : list Z) : option Z :=
  bytes ← ZIPLIST_BYTES zl; Some (bytes - 1).

Definition ZIPLIST_INCR_LENGTH (zl : list Z) (incr : Z) : option (list Z) :=
  length ← ZIPLIST_LENGTH zl;
  if length <? UINT16_MAX then set_ZIPLIST_LENGTH zl (length + incr) else Some zl.

Definition ziplistBlobLen (zl : list Z) : option Z := ZIPLIST_BYTES zl.

(** [None] is the NULL ziplist. *)
Definition ziplistSafeToAdd (zl : option (list Z)) (add : Z) : option bool :=
  len ← match zl with Some zl => ziplistBlobLen zl | None => Some 0 end;
  if ZIPLIST_MAX_SAFETY_SIZE <? u64 (len + add) then Some false else Some true.

(** ** Entry headers *)

Record zlentry := {
  prevrawlensize : Z;
  prevrawlen : Z;
  lensize : Z;
  len : Z;
  headersize : Z;
  encoding : Z;
  ptr : Z;
}.

Definition ZIP_ENTRY_ENCODING (zl : list Z) (ptr : Z) : option Z :=
  encoding ← load8 zl ptr;
  Some (if encoding <? ZIP_STR_MASK then Z.land encoding ZIP_STR_MASK else encoding).

Definition ZIP_ENCODING_SIZE_INVALID : Z := 0xff.

Definition zipEncodingLenSize (encoding : Z) : Z :=
  if (encoding =? ZIP_INT_16B) || (encoding =? ZIP_INT_32B) || (encoding =? ZIP_INT_24B) ||
     (encoding =? ZIP_INT_64B) || (encoding =? ZIP_INT_8B) then 1
  else if (ZIP_INT_IMM_MIN <=? encoding) && (encoding <=? ZIP_INT_IMM_MAX) then 1
  else if encoding =? ZIP_STR_06B then 1
  else if encoding =? ZIP_STR_14B then 2
  else if encoding =? ZIP_STR_32B then 5
  else ZIP_ENCODING_SIZE_INVALID.

(** redis_unreachable() is [None]. *)
Definition zipIntSize (encoding : Z) : option Z :=
  if encoding =? ZIP_INT_8B then Some 1
  else if encoding =? ZIP_INT_16B then Some 2
  else if encoding =? ZIP_INT_24B then Some 3
  else if encoding =? ZIP_INT_32B then Some 4
  else if encoding =? ZIP_INT_64B then Some 8
  else if (ZIP_INT_IMM_MIN <=? encoding) && (encoding <=? ZIP_INT_IMM_MAX) then Some 0
  else None.

(** The bytes left in 'buf'; their number is what the function returns, and what it
    returns when 'p' is NULL. *)
Definition zipStoreEntryEncoding_buf (encoding rawlen : Z) : list Z :=
  if ZIP_IS_STR encoding then
    if rawlen <=? 0x3f then [u8 (Z.lor ZIP_STR_06B rawlen)]
    else if rawlen <=? 0x3fff then
      [u8 (Z.lor ZIP_STR_14B (Z.land (Z.shiftr rawlen 8) 0x3f)); u8 (Z.land rawlen 0xff)]
    else
      [u8 ZIP_STR_32B; u8 (Z.land (Z.shiftr rawlen 24) 0xff); u8 (Z.land (Z.shiftr rawlen 16) 0xff);
       u8 (Z.land (Z.shiftr rawlen 8) 0xff); u8 (Z.land rawlen 0xff)]
  else [u8 encoding].

(** zipStoreEntryEncoding(NULL, encoding, rawlen) *)
Definition zipStoreEntryEncoding_size (encoding rawlen : Z) : Z :=
  zlen (zipStoreEntryEncoding_buf encoding rawlen).

(** The block and the number of bytes used. *)
Definition zipStoreEntryEncoding (zl : list Z) (p encoding rawlen : Z) : option (list Z * Z) :=
  let buf := zipStoreEntryEncoding_buf encoding rawlen in
  zl ← mem_store zl p buf;
  Some (zl, zlen buf).

(** 'lensize' and 'len' *)
Definition ZIP_DECODE_LENGTH (zl : list Z) (ptr encoding : Z) : option (Z * Z) :=
  if encoding <? ZIP_STR_MASK then
    if encoding =? ZIP_STR_06B then
      b0 ← load8 zl ptr; Some (1, Z.land b0 0x3f)
    else if encoding =? ZIP_STR_14B then
      b0 ← load8 zl ptr; b1 ← load8 zl (ptr + 1);
      Some (2, Z.lor (Z.shiftl (Z.land b0 0x3f) 8) b1)
    else if encoding =? ZIP_STR_32B then
      b1 ← load8 zl (ptr + 1); b2 ← load8 zl (ptr + 2);
      b3 ← load8 zl (ptr + 3); b4 ← load8 zl (ptr + 4);
      Some (5, u32 (Z.lor (Z.lor (Z.lor (Z.shiftl b1 24) (Z.shiftl b2 16)) (Z.shiftl b3 8)) b4))
    else Some (0, 0)
  else if encoding =? ZIP_INT_8B then Some (1, 1)
  else if encoding =? ZIP_INT_16B then Some (1, 2)
  else if encoding =? ZIP_INT_24B then Some (1, 3)
  else if encoding =? ZIP_INT_32B then Some (1, 4)
  else if encoding =? ZIP_INT_64B then Some (1, 8)
  else if (ZIP_INT_IMM_MIN <=? encoding) && (encoding <=? ZIP_INT_IMM_MAX) then Some (1, 0)
  else Some (0, 0).

(** With 'p' not NULL. *)
Definition zipStorePrevEntryLengthLarge (zl : list Z) (p len : Z) : option (list Z * Z) :=
  zl ← store8 zl p ZIP_BIG_PREVLEN;
  zl ← mem_store zl (p + 1) (le_encode 4 len);
  Some (zl, 1 + 4).

(** zipStorePrevEntryLength(NULL, len) *)
Definition zipStorePrevEntryLength_size (len : Z) : Z :=
  if len <? ZIP_BIG_PREVLEN then 1 else 4 + 1.

Definition zipStorePrevEntryLength (zl : list Z) (p len : Z) : option (list Z * Z) :=
  if len <? ZIP_BIG_PREVLEN then zl ← store8 zl p len; Some (zl, 1)
  else zipStorePrevEntryLengthLarge zl p len.

Definition ZIP_DECODE_PREVLENSIZE (zl : list Z) (ptr : Z) : option Z :=
  b ← load8 zl ptr;
  Some (if b <? ZIP_BIG_PREVLEN then 1 else 5).

(** 'prevlensize' and 'prevlen' *)
Definition ZIP_DECODE_PREVLEN (zl : list Z) (ptr : Z) : option (Z * Z) :=
  prevlensize ← ZIP_DECODE_PREVLENSIZE zl ptr;
  if prevlensize =? 1 then
    b ← load8 zl ptr; Some (prevlensize, b)
  else
    b4 ← load8 zl (ptr + 4); b3 ← load8 zl (ptr + 3);
    b2 ← load8 zl (ptr + 2); b1 ← load8 zl (ptr + 1);
    Some (prevlensize,
      u32 (Z.lor (Z.lor (Z.lor (Z.shiftl b4 24) (Z.shiftl b3 16)) (Z.shiftl b2 8)) b1)).

Definition zipPrevLenByteDiff (zl : list Z) (p len : Z) : option Z :=
  prevlensize ← ZIP_DECODE_PREVLENSIZE zl p;
  Some (s32 (u32 (zipStorePrevEntryLength_size len - prevlensize))).

(** ** Integers *)

(** The value and its encoding. *)
Definition zipTryEncoding (entry : list Z) : option (Z * Z) :=
  let entrylen := zlen entry in
  if (32 <=? entrylen) || (entrylen =? 0) then None
  else
    match string2ll entry with
    | Some value =>
        Some (value,
          if (0 <=? value) && (value <=? 12) then u8 (ZIP_INT_IMM_MIN + value)
          else if (INT8_MIN <=? value) && (value <=? INT8_MAX) then ZIP_INT_8B
          else if (INT16_MIN <=? value) && (value <=? INT16_MAX) then ZIP_INT_16B
          else if (INT24_MIN <=? value) && (value <=? INT24_MAX) then ZIP_INT_24B
          else if (INT32_MIN <=? value) && (value <=? INT32_MAX) then ZIP_INT_32B
          else ZIP_INT_64B)
    | None => None
    end.

Definition zipSaveInteger (zl : list Z) (p value encoding : Z) : option (list Z) :=
  if encoding =? ZIP_INT_8B then store8 zl p (s8 value)
  else if encoding =? ZIP_INT_16B then
    let i16 := s16 value in mem_store zl p (le_encode 2 i16)
  else if encoding =? ZIP_INT_24B then
    let i32 := s32 (Z.shiftl value 8) in mem_store zl p (drop 1 (le_encode 4 i32))
  else if encoding =? ZIP_INT_32B then
    let i32 := s32 value in mem_store zl p (le_encode 4 i32)
  else if encoding =? ZIP_INT_64B then
    let i64 := value in mem_store zl p (le_encode 8 i64)
  else if (ZIP_INT_IMM_MIN <=? encoding) && (encoding <=? ZIP_INT_IMM_MAX) then Some zl
  else None.

Definition zipLoadInteger (zl : list Z) (p encoding : Z) : option Z :=
  if encoding =? ZIP_INT_8B then
    b ← load8 zl p; Some (s8 b)
  else if encoding =? ZIP_INT_16B then
    i16 ← mem_load zl p 2; Some (s16 (le_decode i16))
  else if encoding =? ZIP_INT_32B then
    i32 ← mem_load zl p 4; Some (s32 (le_decode i32))
  else if encoding =? ZIP_INT_24B then
    i32 ← mem_load zl p 3; Some (Z.shiftr (s32 (le_decode (0 :: i32))) 8)
  else if encoding =? ZIP_INT_64B then
    i64 ← mem_load zl p 8; Some (s64 (le_decode i64))
  else if (ZIP_INT_IMM_MIN <=? encoding) && (encoding <=? ZIP_INT_IMM_MAX) then
    Some (Z.land encoding ZIP_INT_IMM_MASK - 1)
  else None.

(** ** Decoding an entry *)

Definition zipEntry (zl : list Z) (p : Z) : option zlentry :=
  '(prevrawlensize, prevrawlen) ← ZIP_DECODE_PREVLEN zl p;
  encoding ← ZIP_ENTRY_ENCODING zl (p + prevrawlensize);
  '(lensize, len) ← ZIP_DECODE_LENGTH zl (p + prevrawlensize) encoding;
  if lensize =? 0 then None
  else
    Some {| prevrawlensize := prevrawlensize; prevrawlen := prevrawlen; lensize := lensize;
            len := len; headersize := prevrawlensize + lensize; encoding := encoding; ptr := p |}.

Definition zipEntrySafe (zl : list Z) (zlbytes p : Z) (validate_prevlen : bool)
    : option (option zlentry) :=
  let zlfirst := ZIPLIST_HEADER_SIZE in
  let zllast := zlbytes - ZIPLIST_END_SIZE in
  let OUT_OF_RANGE p := (p <? zlfirst) || (zllast <? p) in
  if (zlfirst <=? p) && (p + 10 <? zllast) then
    '(prevrawlensize, prevrawlen) ← ZIP_DECODE_PREVLEN zl p;
    encoding ← ZIP_ENTRY_ENCODING zl (p + prevrawlensize);
    '(lensize, len) ← ZIP_DECODE_LENGTH zl (p + prevrawlensize) encoding;
    let headersize := prevrawlensize + lensize in
    if lensize =? 0 then Some None
    else if OUT_OF_RANGE (p + headersize + len) then Some None
    else if validate_prevlen && OUT_OF_RANGE (p - prevrawlen) then Some None
    else
      Some (Some {| prevrawlensize := prevrawlensize; prevrawlen := prevrawlen; lensize := lensize;
                    len := len; headersize := headersize; encoding := encoding; ptr := p |})
  else if OUT_OF_RANGE p then Some None
  else
    prevrawlensize ← ZIP_DECODE_PREVLENSIZE zl p;
    if OUT_OF_RANGE (p + prevrawlensize) then Some None
    else
      encoding ← ZIP_ENTRY_ENCODING zl (p + prevrawlensize);
      let lensize := zipEncodingLenSize encoding in
      if lensize =? ZIP_ENCODING_SIZE_INVALID then Some None
      else if OUT_OF_RANGE (p + prevrawlensize + lensize) then Some None
      else
        '(prevrawlensize, prevrawlen) ← ZIP_DECODE_PREVLEN zl p;
        '(lensize, len) ← ZIP_DECODE_LENGTH zl (p + prevrawlensize) encoding;
        let headersize := prevrawlensize + lensize in
        if OUT_OF_RANGE (p + headersize + len) then Some None
        else if validate_prevlen && OUT_OF_RANGE (p - prevrawlen) then Some None
        else
          Some (Some {| prevrawlensize := prevrawlensize; prevrawlen := prevrawlen;
                        lensize := lensize; len := len; headersize := headersize;
                        encoding := encoding; ptr := p |}).

(** assert(zipEntrySafe(zl, zlbytes, p, &e, validate_prevlen)) *)
Definition assert_zipEntrySafe (zl : list Z) (zlbytes p : Z) (validate_prevlen : bool)
    : option zlentry :=
  r ← zipEntrySafe zl zlbytes p validate_prevlen; r.

Definition zipRawEntryLengthSafe (zl : list Z) (zlbytes p : Z) : option Z :=
  e ← assert_zipEntrySafe zl zlbytes p false;
  Some (u32 (headersize e + len e)).

Definition zipRawEntryLength (zl : list Z) (p : Z) : option Z :=
  e ← zipEntry zl p;
  Some (u32 (headersize e + len e)).

Definition zipAssertValidEntry (zl : list Z) (zlbytes p : Z) : option unit :=
  _ ← assert_zipEntrySafe zl zlbytes p true; Some ().

(** ** Creation and resizing *)

Definition ziplistNew `{Allocator} : option (list Z) :=
  let bytes := ZIPLIST_HEADER_SIZE + ZIPLIST_END_SIZE in
  let zl := zrealloc [] bytes in
  zl ← set_ZIPLIST_BYTES zl bytes;
  zl ← set_ZIPLIST_TAIL_OFFSET zl ZIPLIST_HEADER_SIZE;
  zl ← set_ZIPLIST_LENGTH zl 0;
  store8 zl (bytes - 1) ZIP_END.

Definition ziplistResize `{Allocator} (zl : list Z) (len : Z) : option (list Z) :=
  if len <? UINT32_MAX then
    let zl := zrealloc zl len in
    zl ← set_ZIPLIST_BYTES zl len;
    store8 zl (len - 1) ZIP_END
  else None.

(** ** Traversal *)

(** while (prevlen > 0 && index--) { p -= prevlen; ... }: 'p' and 'index' after it *)
Fixpoint ziplistIndex_backward (index : nat) (zl : list Z) (zlbytes p prevlen : Z) : option (Z * Z) :=
  if 0 <? prevlen then
    match index with
    | O => Some (p, -1)
    | S index =>
        let p := p - prevlen in
        if (ZIPLIST_HEADER_SIZE <=? p) && (p <? zlbytes - ZIPLIST_END_SIZE) then
          '(_, prevlen) ← ZIP_DECODE_PREVLEN zl p;
          ziplistIndex_backward index zl zlbytes p prevlen
        else None
    end
  else Some (p, Z.of_nat index).

(** while (index--) { p += zipRawEntryLengthSafe(zl, zlbytes, p); ... } *)
Fixpoint ziplistIndex_forward (index : nat) (zl : list Z) (zlbytes p : Z) : option (Z * Z) :=
  match index with
  | O => Some (p, -1)
  | S index =>
      rawlen ← zipRawEntryLengthSafe zl zlbytes p;
      let p := p + rawlen in
      b ← load8 zl p;
      if b =? ZIP_END then Some (p, Z.of_nat index)
      else ziplistIndex_forward index zl zlbytes p
  end.

(** -INT_MIN overflows. *)
Definition ziplistIndex (zl : list Z) (index : Z) : option (option Z) :=
  zlbytes ← ZIPLIST_BYTES zl;
  '(p, index) ← (if index <? 0 then
                   if index =? INT32_MIN then None
                   else
                     let index := - index - 1 in
                     p ← ZIPLIST_ENTRY_TAIL zl;
                     b ← load8 zl p;
                     if negb (b =? ZIP_END) then
                       '(_, prevlen) ← ZIP_DECODE_PREVLEN zl p;
                       ziplistIndex_backward (Z.to_nat index) zl zlbytes p prevlen
                     else Some (p, index)
                 else ziplistIndex_forward (Z.to_nat index) zl zlbytes ZIPLIST_ENTRY_HEAD);
  b ← load8 zl p;
  if (b =? ZIP_END) || (0 <? index) then Some None
  else
    _ ← zipAssertValidEntry zl zlbytes p;
    Some (Some p).

Definition ziplistNext (zl : list Z) (p : Z) : option (option Z) :=
  zlbytes ← ZIPLIST_BYTES zl;
  b ← load8 zl p;
  if b =? ZIP_END then Some None
  else
    rawlen ← zipRawEntryLength zl p;
    let p := p + rawlen in
    b ← load8 zl p;
    if b =? ZIP_END then Some None
    else
      _ ← zipAssertValidEntry zl zlbytes p;
      Some (Some p).

Definition ziplistPrev (zl : list Z) (p : Z) : option (option Z) :=
  b ← load8 zl p;
  if b =? ZIP_END then
    p ← ZIPLIST_ENTRY_TAIL zl;
    b ← load8 zl p;
    Some (if b =? ZIP_END then None else Some p)
  else if p =? ZIPLIST_ENTRY_HEAD then Some None
  else
    '(_, prevlen) ← ZIP_DECODE_PREVLEN zl p;
    if 0 <? prevlen then
      let p := p - prevlen in
      zlbytes ← ZIPLIST_BYTES zl;
      _ ← zipAssertValidEntry zl zlbytes p;
      Some (Some p)
    else None.

(** What ziplistGet() stores: '*sstr' and '*slen', or '*sval'. *)
Inductive zlget :=
| Zl_sstr (sstr slen : Z)
| Zl_sval (sval : Z).

(** The inner [None] is the result 0. *)
Definition ziplistGet (zl : list Z) (p : option Z) : option (option zlget) :=
  match p with
  | None => Some None
  | Some p =>
      b ← load8 zl p;
      if b =? ZIP_END then Some None
      else
        entry ← zipEntry zl p;
        if ZIP_IS_STR (encoding entry) then Some (Some (Zl_sstr (p + headersize entry) (len entry)))
        else
          sval ← zipLoadInteger zl (p + headersize entry) (encoding entry);
          Some (Some (Zl_sval sval))
  end.

(** memcmp(m+p, s, n) == 0 *)
Definition memcmp_eq (m : list Z) (p : Z) (s : list Z) (n : Z) : option bool :=
  bs ← mem_load m p n; Some (bool_decide (bs = take (Z.to_nat n) s)).

Definition ziplistCompare (zl : list Z) (p : Z) (sstr : list Z) : option bool :=
  let slen := zlen sstr in
  b ← load8 zl p;
  if b =? ZIP_END then Some false
  else
    entry ← zipEntry zl p;
    if ZIP_IS_STR (encoding entry) then
      if len entry =? slen then memcmp_eq zl (p + headersize entry) sstr slen else Some false
    else
      match zipTryEncoding sstr with
      | Some (sval, _) =>
          zval ← zipLoadInteger zl (p + headersize entry) (encoding entry);
          Some (zval =? sval)
      | None => Some false
      end.

(** The comparison of an entry that is not skipped: the result, 'vencoding' and 'vll'. *)
Definition ziplistFind_compare (zl : list Z) (e : zlentry) (q : Z) (vstr : list Z) (vlen : Z)
    (vencoding vll : Z) : option (bool * Z * Z) :=
  if ZIP_IS_STR (encoding e) then
    eq ← (if len e =? vlen then memcmp_eq zl q vstr vlen else Some false);
    Some (eq, vencoding, vll)
  else
    '(vencoding, vll) ←
      (if vencoding =? 0 then
         let '(vencoding, vll) := match zipTryEncoding vstr with
                                  | Some (v, enc) => (enc, v)
                                  | None => (UCHAR_MAX, vll)
                                  end in
         if negb (vencoding =? 0) then Some (vencoding, vll) else None
       else Some (vencoding, vll));
    if negb (vencoding =? UCHAR_MAX) then
      ll ← zipLoadInteger zl q (encoding e);
      Some (ll =? vll, vencoding, vll)
    else Some (false, vencoding, vll).

Fixpoint ziplistFind_loop (fuel : nat) (zl : list Z) (zlbytes : Z) (vstr : list Z) (vlen skip : Z)
    (p skipcnt vencoding vll : Z) : option (option Z) :=
  b ← load8 zl p;
  if b =? ZIP_END then Some None
  else
    match fuel with
    | O => None
    | S fuel =>
        e ← assert_zipEntrySafe zl zlbytes p true;
        let q := p + prevrawlensize e + lensize e in
        if skipcnt =? 0 then
          '(found, vencoding, vll) ← ziplistFind_compare zl e q vstr vlen vencoding vll;
          if (found : bool) then Some (Some p)
          else ziplistFind_loop fuel zl zlbytes vstr vlen skip (q + len e) (s32 skip) vencoding vll
        else ziplistFind_loop fuel zl zlbytes vstr vlen skip (q + len e) (skipcnt - 1) vencoding vll
    end.

(** Every entry takes a byte at least. *)
Definition ziplistFind (zl : list Z) (p : Z) (vstr : list Z) (skip : Z) : option (option Z) :=
  zlbytes ← ziplistBlobLen zl;
  ziplistFind_loop (length zl) zl zlbytes vstr (zlen vstr) skip p 0 0 0.

(** while (p[0] != ZIP_END) { p += zipRawEntryLengthSafe(zl, zlbytes, p); len++; } *)
Fixpoint ziplistLen_loop (fuel : nat) (zl : list Z) (zlbytes p len : Z) : option Z :=
  b ← load8 zl p;
  if b =? ZIP_END then Some len
  else
    match fuel with
    | O => None
    | S fuel =>
        rawlen ← zipRawEntryLengthSafe zl zlbytes p;
        ziplistLen_loop fuel zl zlbytes (p + rawlen) (u32 (len + 1))
    end.

(** The length, and the ziplist, whose header may be updated. *)
Definition ziplistLen (zl : list Z) : option (Z * list Z) :=
  length_ ← ZIPLIST_LENGTH zl;
  if length_ <? UINT16_MAX then Some (length_, zl)
  else
    zlbytes ← ZIPLIST_BYTES zl;
    len ← ziplistLen_loop (length zl) zl zlbytes ZIPLIST_HEADER_SIZE 0;
    if len <? UINT16_MAX then zl ← set_ZIPLIST_LENGTH zl len; Some (len, zl)
    else Some (len, zl).

(** ** Validation *)

(** while( *p != ZIP_END) { ... }: 'p', 'prev' and 'count' after it, or nothing if an entry is
    invalid. The callback gets the position of an entry and its 'cb_userdata', which it changes. *)
Fixpoint ziplistValidate_loop {U} (fuel : nat) (zl : list Z) (size : Z)
    (entry_cb : option (Z -> U -> option (bool * U))) (p : Z) (prev : option Z) (prev_raw_size count : Z)
    (cb_userdata : U) : option (option (Z * option Z * Z) * U) :=
  b ← load8 zl p;
  if b =? ZIP_END then Some (Some (p, prev, count), cb_userdata)
  else
    match fuel with
    | O => None
    | S fuel =>
        r ← zipEntrySafe zl size p true;
        match r with
        | None => Some (None, cb_userdata)
        | Some e =>
            if negb (prevrawlen e =? prev_raw_size) then Some (None, cb_userdata)
            else
              '(ok, cb_userdata) ← match entry_cb with
                                   | Some cb => cb p cb_userdata
                                   | None => Some (true, cb_userdata)
                                   end;
              if negb ok then Some (None, cb_userdata)
              else
                let prev_raw_size := u32 (headersize e + len e) in
                ziplistValidate_loop fuel zl size entry_cb (p + u32 (headersize e + len e)) (Some p)
                  prev_raw_size (u32 (count + 1)) cb_userdata
        end
    end.

(** Whether the ziplist is accepted, and what the callback has left. *)
Definition ziplistValidateIntegrity {U} (zl : list Z) (size : Z) (deep : bool)
    (entry_cb : option (Z -> U -> option (bool * U))) (cb_userdata : U) : option (bool * U) :=
  if size <? ZIPLIST_HEADER_SIZE + ZIPLIST_END_SIZE then Some (false, cb_userdata)
  else
    bytes ← ZIPLIST_BYTES zl;
    if negb (bytes =? size) then Some (false, cb_userdata)
    else
      last ← load8 zl (size - ZIPLIST_END_SIZE);
      if negb (last =? ZIP_END) then Some (false, cb_userdata)
      else
        tail ← ZIPLIST_TAIL_OFFSET zl;
        if size - ZIPLIST_END_SIZE <? tail then Some (false, cb_userdata)
        else if negb deep then Some (true, cb_userdata)
        else
          '(r, cb_userdata) ← ziplistValidate_loop (length zl) zl size entry_cb ZIPLIST_ENTRY_HEAD None 0 0 cb_userdata;
          match r with
          | None => Some (false, cb_userdata)
          | Some (p, prev, count) =>
              if negb (p =? bytes - ZIPLIST_END_SIZE) then Some (false, cb_userdata)
              else if match prev with Some prev => negb (prev =? tail) | None => false end
              then Some (false, cb_userdata)
              else
                header_count ← ZIPLIST_LENGTH zl;
                if negb (header_count =? UINT16_MAX) && negb (count =? header_count)
                then Some (false, cb_userdata) else Some (true, cb_userdata)
          end.

(** ** Entries *)

(** An entry: whether its prevlen field takes five bytes, and what follows the field. *)
Record zent := { big : bool; body : list Z }.

#[export] Instance zent_eq_dec : EqDecision zent.
Proof. solve_decision. Defined.

Definition plsize (b : bool) : Z := if b then 5 else 1.

(** The prevlen field holding [prev]. *)
Definition plen (b : bool) (prev : Z) : list Z :=
  if b then ZIP_BIG_PREVLEN :: le_encode 4 prev else [prev].

Definition rawlen (e : zent) : Z := plsize (big e) + zlen (body e).
Definition ent (prev : Z) (e : zent) : list Z := plen (big e) prev ++ body e.

(** What the header of the body says: the encoding, 'lensize' and 'len'. *)
Definition benc (b : list Z) : Z := default 0 (ZIP_ENTRY_ENCODING b 0).
Definition blens (b : list Z) : Z * Z := default (0, 0) (ZIP_DECODE_LENGTH b 0 (benc b)).

Record body_ok (b : list Z) : Prop := {
  body_bytes : bytes_ok b;
  body_enc : ZIP_ENTRY_ENCODING b 0 = Some (benc b);
  body_lens : ZIP_DECODE_LENGTH b 0 (benc b) = Some (blens b);
  body_valid : fst (blens b) <> 0;
  body_size : zlen b = fst (blens b) + snd (blens b);
}.

(** The entry [e] can follow an entry of [prev] bytes. *)
Record ent_ok (prev : Z) (e : zent) : Prop := {
  ent_body : body_ok (body e);
  ent_prev : 0 <= prev < 2 ^ 32;
  ent_small : big e = false -> prev < 254;
}.

(** What zipEntry() decodes from it. *)
Definition zle (prev : Z) (e : zent) (p : Z) : zlentry :=
  {| prevrawlensize := plsize (big e); prevrawlen := prev;
     lensize := fst (blens (body e)); len := snd (blens (body e));
     headersize := plsize (big e) + fst (blens (body e)); encoding := benc (body e); ptr := p |}.

Lemma zlen_plen b prev : zlen (plen b prev) = plsize b.
Proof. by destruct b. Qed.

Lemma zlen_ent prev e : zlen (ent prev e) = rawlen e.
Proof. unfold ent, rawlen. by rewrite zlen_app, zlen_plen. Qed.

Lemma plsize_range b : 1 <= plsize b <= 5.
Proof. destruct b; simpl; lia. Qed.

(** Decoding does not depend on what surrounds the entry. *)
Lemma ZIP_ENTRY_ENCODING_frame a r c i v : ZIP_ENTRY_ENCODING r i = Some v ->
  ZIP_ENTRY_ENCODING (a ++ r ++ c) (zlen a + i) = Some v.
Proof.
  unfold ZIP_ENTRY_ENCODING. destruct (load8 r i) as [b|] eqn:Hb; [|done]. simpl_bind.
  by rewrite (load8_frame _ _ _ _ _ Hb).
Qed.

Lemma ZIP_DECODE_LENGTH_frame a r c i enc v : ZIP_DECODE_LENGTH r i enc = Some v ->
  ZIP_DECODE_LENGTH (a ++ r ++ c) (zlen a + i) enc = Some v.
Proof.
  unfold ZIP_DECODE_LENGTH. rewrite <- !Z.add_assoc.
  repeat match goal with
  | |- context [load8 r ?j] => let H := fresh in destruct (load8 r j) eqn:H; simpl_bind;
         [rewrite (load8_frame _ _ _ _ _ H) |]
  end; repeat case_match; simpl_bind; done.
Qed.

Lemma zipLoadInteger_frame a r c i enc v : zipLoadInteger r i enc = Some v ->
  zipLoadInteger (a ++ r ++ c) (zlen a + i) enc = Some v.
Proof.
  unfold zipLoadInteger.
  repeat match goal with
  | |- context [load8 r ?j] => let H := fresh in destruct (load8 r j) eqn:H; simpl_bind;
         [rewrite (load8_frame _ _ _ _ _ H) |]
  | |- context [mem_load r ?j ?n] => let H := fresh in destruct (mem_load r j n) eqn:H; simpl_bind;
         [rewrite (mem_load_frame _ _ _ _ _ _ H) |]
  end; repeat case_match; simpl_bind; done.
Qed.

(** Four bytes combined from their shifts. *)
Lemma lor4 b0 b1 b2 b3 : is_byte b0 -> is_byte b1 -> is_byte b2 -> is_byte b3 ->
  u32 (Z.lor (Z.lor (Z.lor (Z.shiftl b3 24) (Z.shiftl b2 16)) (Z.shiftl b1 8)) b0) =
  le_decode [b0; b1; b2; b3].
Proof.
  unfold is_byte. intros H0 H1 H2 H3.
  rewrite <- !Z.lor_assoc, (Z.lor_comm (Z.shiftl b1 8)), shiftl_lor_add by (eval_pow2; lia).
  rewrite (Z.lor_comm (Z.shiftl b2 16)), shiftl_lor_add by (eval_pow2; lia).
  rewrite (Z.lor_comm (Z.shiftl b3 24)), shiftl_lor_add by (eval_pow2; lia).
  eval_pow2. cbn [le_decode]. rewrite uwrap_small by (eval_pow2; lia). lia.
Qed.

(** The prevlen field. *)
Lemma PREVLENSIZE_at X b prev Y : (b = false -> prev < 254) ->
  ZIP_DECODE_PREVLENSIZE (X ++ plen b prev ++ Y) (zlen X) = Some (plsize b).
Proof.
  intros Hb. unfold ZIP_DECODE_PREVLENSIZE, plen. destruct b; cbn [app].
  - rewrite load8_mid by done. done.
  - rewrite load8_mid by done. simpl_bind. unfold ZIP_BIG_PREVLEN.
    specialize (Hb eq_refl). by rewrite (proj2 (Z.ltb_lt _ _)).
Qed.

Lemma load8_at_offset X b Y p i : p = zlen X + zlen (take i b) -> (i < length b)%nat ->
  load8 (X ++ b ++ Y) p = b !! i.
Proof.
  intros -> Hi. destruct (lookup_lt_is_Some_2 b i Hi) as [x Hx]. rewrite Hx.
  apply (load8_frame X b Y). unfold load8, zlen. rewrite bool_decide_true by lia.
  rewrite Nat2Z.id, length_take. replace (i `min` length b)%nat with i by lia. done.
Qed.

Lemma PREVLEN_at X b prev Y : 0 <= prev < 2 ^ 32 -> (b = false -> prev < 254) ->
  ZIP_DECODE_PREVLEN (X ++ plen b prev ++ Y) (zlen X) = Some (plsize b, prev).
Proof.
  intros Hp Hb. unfold ZIP_DECODE_PREVLEN. rewrite PREVLENSIZE_at by done. simpl_bind.
  destruct b; cbn [plsize plen]; change (5 =? 1) with false; change (1 =? 1) with true; cbv iota.
  - pose proof (le_decode_encode 4 prev) as Hd. pose proof (le_encode_bytes 4 prev) as Hby.
    rewrite (Z.mod_small prev) in Hd by done.
    destruct (le_encode 4 prev) as [|b0 [|b1 [|b2 [|b3 [|]]]]] eqn:He; try discriminate He.
    rewrite !Forall_cons in Hby. destruct Hby as (? & ? & ? & ? & _).
    rewrite (load8_at_offset X (ZIP_BIG_PREVLEN :: _) Y (zlen X + 4) 4) by (done || simpl; lia).
    rewrite (load8_at_offset X (ZIP_BIG_PREVLEN :: _) Y (zlen X + 3) 3) by (done || simpl; lia).
    rewrite (load8_at_offset X (ZIP_BIG_PREVLEN :: _) Y (zlen X + 2) 2) by (done || simpl; lia).
    rewrite (load8_at_offset X (ZIP_BIG_PREVLEN :: _) Y (zlen X + 1) 1) by (done || simpl; lia).
    simpl_bind. cbn [lookup list_lookup]. simpl_bind. by rewrite lor4, Hd.
  - cbn [app]. rewrite load8_mid by done. done.
Qed.

Lemma ent_PREVLEN_at M X prev e Y p : M = X ++ ent prev e ++ Y -> p = zlen X -> ent_ok prev e ->
  ZIP_DECODE_PREVLEN M p = Some (plsize (big e), prev).
Proof.
  intros -> -> [_ Hp Hs]. unfold ent. rewrite <- app_assoc. by apply PREVLEN_at.
Qed.

Lemma ent_body_at M X prev e Y p : M = X ++ ent prev e ++ Y -> p = zlen X -> ent_ok prev e ->
  ZIP_DECODE_PREVLENSIZE M p = Some (plsize (big e)) /\
  ZIP_ENTRY_ENCODING M (p + plsize (big e)) = Some (benc (body e)) /\
  ZIP_DECODE_LENGTH M (p + plsize (big e)) (benc (body e)) = Some (blens (body e)).
Proof.
  intros -> -> [Hb Hp Hs]. unfold ent. rewrite <- app_assoc.
  split; [by apply PREVLENSIZE_at|].
  rewrite app_assoc, <- (zlen_plen _ prev), <- zlen_app, <- (Z.add_0_r (zlen (X ++ _))).
  split; [apply ZIP_ENTRY_ENCODING_frame, Hb | apply ZIP_DECODE_LENGTH_frame, Hb].
Qed.

(** zipEntry() on an entry that is in the block. *)
Lemma zipEntry_at M X prev e Y p : M = X ++ ent prev e ++ Y -> p = zlen X -> ent_ok prev e ->
  zipEntry M p = Some (zle prev e p).
Proof.
  intros HM Hp Hok. unfold zipEntry. rewrite (ent_PREVLEN_at _ _ _ _ _ _ HM Hp Hok). simpl_bind.
  destruct (ent_body_at _ _ _ _ _ _ HM Hp Hok) as (_ & -> & Hl). simpl_bind. rewrite Hl.
  simpl_bind. pose proof (body_valid _ (ent_body _ _ Hok)) as Hv.
  destruct (blens (body e)) as [ls l] eqn:Hbl. simpl in Hv. rewrite (proj2 (Z.eqb_neq _ _)) by done.
  unfold zle. by rewrite Hbl.
Qed.

Lemma byte_load m i x : bytes_ok m -> load8 m i = Some x -> 0 <= x < 256.
Proof. intros Hm Hx. exact (load8_byte m i x Hm Hx). Qed.

Lemma land_nonneg_r a b : 0 <= b -> 0 <= Z.land a b.
Proof. intros. rewrite Z.land_comm. by apply Z.land_nonneg; left. Qed.

(** The two ways the code computes 'lensize' agree. *)
Lemma ZIP_DECODE_LENGTH_facts m p enc ls l : bytes_ok m -> 0 <= enc ->
  ZIP_DECODE_LENGTH m p enc = Some (ls, l) ->
  0 <= l < 2 ^ 32 /\ (ls <> 0 -> zipEncodingLenSize enc = ls /\ 1 <= ls <= 5) /\
  (zipEncodingLenSize enc <> ZIP_ENCODING_SIZE_INVALID -> ls <> 0).
Proof.
  intros Hm He. unfold ZIP_DECODE_LENGTH.
  destruct (Z.ltb_spec enc ZIP_STR_MASK) as [Hlt|Hge].
  - assert (zipEncodingLenSize enc = if enc =? ZIP_STR_06B then 1 else if enc =? ZIP_STR_14B then 2
      else if enc =? ZIP_STR_32B then 5 else ZIP_ENCODING_SIZE_INVALID) as Hz.
    { unfold zipEncodingLenSize. change ZIP_STR_MASK with 192 in Hlt.
      repeat match goal with |- context [?x =? ?k] =>
        lazymatch k with ZIP_INT_16B => idtac | ZIP_INT_32B => idtac | ZIP_INT_24B => idtac
        | ZIP_INT_64B => idtac | ZIP_INT_8B => idtac end;
        rewrite (proj2 (Z.eqb_neq x k)) by (vm_compute (k); lia) end.
      rewrite (proj2 (Z.leb_gt _ _)) by (unfold ZIP_INT_IMM_MIN; lia). done. }
    rewrite Hz. destruct (enc =? ZIP_STR_06B); [|destruct (enc =? ZIP_STR_14B); [|destruct (enc =? ZIP_STR_32B)]].
    + destruct (load8 m p) as [x|] eqn:Hx; [|done]. simpl_bind. intros [= <- <-].
      change 0x3f with (2 ^ 6 - 1). rewrite land_pow2 by lia.
      split; [eval_pow2; Z.div_mod_to_equations; lia | split; [lia|done]].
    + destruct (load8 m p) as [x|] eqn:Hx; [|done]. simpl_bind.
      destruct (load8 m (p + 1)) as [y|] eqn:Hy; [|done]. simpl_bind. intros [= <- <-].
      apply byte_load in Hy; [|done]. change 0x3f with (2 ^ 6 - 1). rewrite land_pow2 by lia.
      rewrite Z.lor_comm, shiftl_lor_add by (eval_pow2; lia).
      split; [eval_pow2; Z.div_mod_to_equations; lia | split; [lia|done]].
    + destruct (load8 m (p + 1)); [|done]. simpl_bind. destruct (load8 m (p + 2)); [|done]. simpl_bind.
      destruct (load8 m (p + 3)); [|done]. simpl_bind. destruct (load8 m (p + 4)); [|done]. simpl_bind.
      intros [= <- <-]. split; [apply uwrap_range; lia | split; [lia|done]].
    + intros [= <- <-]. split; [lia|]. split; [done|]. by intros [].
  - unfold zipEncodingLenSize. eval_pow2.
    do 5 (match goal with |- (if ?b then _ else _) = _ -> _ => destruct b eqn:? end;
      [intros [= <- <-]; rewrite ?orb_true_r; cbn [orb]; rewrite ?orb_true_r; cbn [orb]; split_and!; [lia.. | done]|]).
    cbn [orb]. destruct (_ && _); intros [= <- <-].
    + split; [lia|]. split; [lia|done].
    + split; [lia|]. split; [done|]. unfold ZIP_STR_MASK in Hge.
      rewrite !(proj2 (Z.eqb_neq enc _)) by (vm_compute; destruct enc; discriminate || lia).
      by intros [].
Qed.

Lemma ZIP_ENTRY_ENCODING_nonneg m p enc : bytes_ok m -> ZIP_ENTRY_ENCODING m p = Some enc -> 0 <= enc.
Proof.
  intros Hm. unfold ZIP_ENTRY_ENCODING. destruct (load8 m p) eqn:Hx; [|done]. simpl_bind.
  apply byte_load in Hx; [|done]. intros [= <-]. case_match; [|lia]. apply land_nonneg_r.
  unfold ZIP_STR_MASK. lia.
Qed.

Lemma body_facts b : body_ok b ->
  zipEncodingLenSize (benc b) = fst (blens b) /\ 1 <= fst (blens b) <= 5 /\ 0 <= snd (blens b) < 2 ^ 32.
Proof.
  intros [Hby He Hl Hv _]. destruct (blens b) as [ls l] eqn:Hbl.
  destruct (ZIP_DECODE_LENGTH_facts b 0 (benc b) ls l Hby) as (H1 & H2 & _).
  - by apply (ZIP_ENTRY_ENCODING_nonneg b 0).
  - done.
  - simpl in *. destruct (H2 Hv). done.
Qed.

Lemma rawlen_split e : body_ok (body e) ->
  rawlen e = plsize (big e) + fst (blens (body e)) + snd (blens (body e)).
Proof. intros Hb. unfold rawlen. rewrite (body_size _ Hb). lia. Qed.

Lemma rawlen_ge2 e : body_ok (body e) -> 2 <= rawlen e.
Proof.
  intros Hb. destruct (body_facts _ Hb) as (_ & H1 & H2). rewrite rawlen_split by done.
  pose proof (plsize_range (big e)). lia.
Qed.

(** zipEntrySafe() on an entry that is in the ziplist takes one path or the other, with the
    same result. *)
Lemma zipEntrySafe_at M X prev e Y p zlbytes v : M = X ++ ent prev e ++ Y -> p = zlen X ->
  ent_ok prev e -> 10 <= p -> p + rawlen e <= zlbytes - 1 -> (v = true -> prev <= p - 10) ->
  zipEntrySafe M zlbytes p v = Some (Some (zle prev e p)).
Proof.
  intros HM Hp Hok H10 Hend Hv. pose proof (ent_PREVLEN_at _ _ _ _ _ _ HM Hp Hok) as Hprev.
  destruct (ent_body_at _ _ _ _ _ _ HM Hp Hok) as (Hps & Henc & Hlen).
  destruct (body_facts _ (ent_body _ _ Hok)) as (Hls & Hr1 & Hr2).
  rewrite (rawlen_split e) in Hend by apply Hok. pose proof (plsize_range (big e)) as Hpl.
  unfold zipEntrySafe, zle. destruct (blens (body e)) as [ls l] eqn:Hbl. cbn [fst snd] in *.
  unfold ZIPLIST_HEADER_SIZE, ZIPLIST_END_SIZE.
  assert (forall q, 10 <= q <= zlbytes - 1 -> (q <? 10) || (zlbytes - 1 <? q) = false) as Hin.
  { intros q Hq. apply orb_false_iff. split; apply Z.ltb_ge; lia. }
  assert (v && ((p - prev <? 10) || (zlbytes - 1 <? p - prev)) = false) as Hvp.
  { destruct v; [|done]. destruct (ent_prev _ _ Hok). apply Hin. specialize (Hv eq_refl). lia. }
  destruct ((10 <=? p) && (p + 10 <? zlbytes - 1)).
  - rewrite Hprev. simpl_bind. rewrite Henc. simpl_bind. rewrite Hlen. simpl_bind.
    rewrite (proj2 (Z.eqb_neq ls 0)) by lia. by rewrite Hin, Hvp by lia.
  - rewrite Hin by lia. rewrite Hps. simpl_bind. rewrite Hin by lia. rewrite Henc. simpl_bind.
    rewrite Hls. unfold ZIP_ENCODING_SIZE_INVALID. rewrite (proj2 (Z.eqb_neq ls 255)) by lia.
    rewrite Hin by lia. rewrite Hprev. simpl_bind. rewrite Hlen. simpl_bind. by rewrite Hin, Hvp by lia.
Qed.

Lemma assert_zipEntrySafe_at M X prev e Y p zlbytes v : M = X ++ ent prev e ++ Y -> p = zlen X ->
  ent_ok prev e -> 10 <= p -> p + rawlen e <= zlbytes - 1 -> (v = true -> prev <= p - 10) ->
  assert_zipEntrySafe M zlbytes p v = Some (zle prev e p).
Proof. intros. unfold assert_zipEntrySafe. by erewrite zipEntrySafe_at. Qed.

Lemma zipRawEntryLengthSafe_at M X prev e Y p zlbytes : M = X ++ ent prev e ++ Y -> p = zlen X ->
  ent_ok prev e -> 10 <= p -> p + rawlen e <= zlbytes - 1 -> rawlen e < 2 ^ 32 ->
  zipRawEntryLengthSafe M zlbytes p = Some (rawlen e).
Proof.
  intros HM Hp Hok H10 Hend Hlt. unfold zipRawEntryLengthSafe.
  rewrite (assert_zipEntrySafe_at M X prev e Y) by done. simpl_bind. unfold zle. cbn [headersize len].
  rewrite <- rawlen_split by apply Hok. rewrite uwrap_small; [done|].
  pose proof (rawlen_ge2 e (ent_body _ _ Hok)). lia.
Qed.

Lemma zipRawEntryLength_at M X prev e Y p : M = X ++ ent prev e ++ Y -> p = zlen X ->
  ent_ok prev e -> rawlen e < 2 ^ 32 -> zipRawEntryLength M p = Some (rawlen e).
Proof.
  intros HM Hp Hok Hlt. unfold zipRawEntryLength. rewrite (zipEntry_at M X prev e Y) by done.
  simpl_bind. unfold zle. cbn [headersize len]. rewrite <- rawlen_split by apply Hok.
  rewrite uwrap_small; [done|]. pose proof (rawlen_ge2 e (ent_body _ _ Hok)). lia.
Qed.

(** The first byte of an entry is not the end marker. *)
Lemma ent_first_byte prev e : ent_ok prev e -> exists b t, ent prev e = b :: t /\ b <> ZIP_END.
Proof.
  intros [_ Hp Hs]. unfold ent, plen. destruct (big e).
  - eexists _, _. split; [reflexivity|]. done.
  - eexists _, _. split; [reflexivity|]. unfold ZIP_END. specialize (Hs eq_refl). lia.
Qed.

Lemma load8_ent M X prev e Y p : M = X ++ ent prev e ++ Y -> p = zlen X -> ent_ok prev e ->
  exists b, load8 M p = Some b /\ (b =? ZIP_END) = false.
Proof.
  intros -> -> Hok. destruct (ent_first_byte _ _ Hok) as (b & t & -> & Hne).
  exists b. split; [|by apply Z.eqb_neq]. cbn [app]. by apply load8_mid.
Qed.

(** ** Lists of entries *)

(** The entries [es] after an entry of [prev] bytes. *)
Fixpoint zents (prev : Z) (es : list zent) : list Z :=
  match es with
  | [] => []
  | e :: es => ent prev e ++ zents (rawlen e) es
  end.

Fixpoint zok (prev : Z) (es : list zent) : Prop :=
  match es with
  | [] => True
  | e :: es => ent_ok prev e /\ zok (rawlen e) es
  end.

Fixpoint zsize (es : list zent) : Z :=
  match es with
  | [] => 0
  | e :: es => rawlen e + zsize es
  end.

(** The size of the last entry. *)
Fixpoint last_raw (prev : Z) (es : list zent) : Z :=
  match es with
  | [] => prev
  | e :: es => last_raw (rawlen e) es
  end.

Lemma zlen_zents prev es : zlen (zents prev es) = zsize es.
Proof.
  revert prev. induction es as [|e es IH]; intros prev; [done|]. cbn [zents zsize].
  by rewrite zlen_app, zlen_ent, IH.
Qed.

Lemma zents_app prev l k : zents prev (l ++ k) = zents prev l ++ zents (last_raw prev l) k.
Proof.
  revert prev. induction l as [|e l IH]; intros prev; [done|]. cbn. by rewrite IH, app_assoc.
Qed.

Lemma zok_app prev l k : zok prev (l ++ k) <-> zok prev l /\ zok (last_raw prev l) k.
Proof.
  revert prev. induction l as [|e l IH]; intros prev; cbn; [tauto|]. rewrite IH. tauto.
Qed.

Lemma zsize_app l k : zsize (l ++ k) = zsize l + zsize k.
Proof. induction l; cbn; [done|]. lia. Qed.

Lemma last_raw_app prev l k : last_raw prev (l ++ k) = last_raw (last_raw prev l) k.
Proof. revert prev. induction l; intros; cbn; auto. Qed.

Lemma last_raw_snoc prev l e : last_raw prev (l ++ [e]) = rawlen e.
Proof. by rewrite last_raw_app. Qed.

Lemma last_raw_ne prev prev' es : es <> [] -> last_raw prev es = last_raw prev' es.
Proof. by destruct es. Qed.

Lemma zok_ge prev es : zok prev es -> 2 * zlen es <= zsize es.
Proof.
  revert prev. induction es as [|e es IH]; intros prev; [done|]. cbn [zok zsize]. intros [He Hes].
  apply IH in Hes. pose proof (rawlen_ge2 e (ent_body _ _ He)). rewrite zlen_cons. lia.
Qed.

Lemma zsize_nonneg prev es : zok prev es -> 0 <= zsize es.
Proof. intros H%zok_ge. pose proof (zlen_nonneg es). lia. Qed.

Lemma last_raw_range prev es : zok prev es -> 0 <= prev -> 0 <= last_raw prev es <= prev + zsize es.
Proof.
  revert prev. induction es as [|e es IH]; intros prev; cbn [zok zsize last_raw]; [lia|].
  intros [He Hes] Hp. pose proof (rawlen_ge2 e (ent_body _ _ He)).
  specialize (IH _ Hes). lia.
Qed.

Lemma last_raw_pos prev es : zok prev es -> es <> [] -> 2 <= last_raw prev es.
Proof.
  destruct es as [|e es _] using rev_ind; [done|]. intros Hok _. rewrite last_raw_snoc.
  apply zok_app in Hok as [_ [He _]]. by apply rawlen_ge2, (ent_body _ _ He).
Qed.

(** ** Header *)

Definition hdr (bytes tail length : Z) : list Z :=
  le_encode 4 bytes ++ le_encode 4 tail ++ le_encode 2 length.

Lemma zlen_hdr b t c : zlen (hdr b t c) = 10.
Proof. done. Qed.

Section header.
Context (b t c : Z) (R : list Z).

Lemma hdr_bytes : 0 <= b < 2 ^ 32 -> ZIPLIST_BYTES (hdr b t c ++ R) = Some b.
Proof.
  intros H. unfold ZIPLIST_BYTES, hdr. rewrite <- !app_assoc.
  rewrite load_le_head by (done || apply le_encode_bytes). by rewrite le_decode_encode, Z.mod_small.
Qed.

Lemma hdr_tail : 0 <= t < 2 ^ 32 -> ZIPLIST_TAIL_OFFSET (hdr b t c ++ R) = Some t.
Proof.
  intros H. unfold ZIPLIST_TAIL_OFFSET, hdr. rewrite <- !app_assoc.
  rewrite load_le_mid by (done || apply le_encode_bytes). by rewrite le_decode_encode, Z.mod_small.
Qed.

Lemma hdr_length : 0 <= c < 2 ^ 16 -> ZIPLIST_LENGTH (hdr b t c ++ R) = Some c.
Proof.
  intros H. unfold ZIPLIST_LENGTH, hdr. rewrite <- !app_assoc.
  rewrite (app_assoc (le_encode 4 b)).
  rewrite load_le_mid by (done || apply le_encode_bytes). by rewrite le_decode_encode, Z.mod_small.
Qed.

Lemma set_hdr_bytes v : set_ZIPLIST_BYTES (hdr b t c ++ R) v = Some (hdr v t c ++ R).
Proof. unfold set_ZIPLIST_BYTES, hdr. rewrite <- !app_assoc. by rewrite store_le_head. Qed.

Lemma set_hdr_tail v : set_ZIPLIST_TAIL_OFFSET (hdr b t c ++ R) v = Some (hdr b v c ++ R).
Proof. unfold set_ZIPLIST_TAIL_OFFSET, hdr. rewrite <- !app_assoc. by rewrite store_le_mid. Qed.

Lemma set_hdr_length v : set_ZIPLIST_LENGTH (hdr b t c ++ R) v = Some (hdr b t v ++ R).
Proof.
  unfold set_ZIPLIST_LENGTH, hdr. rewrite <- !app_assoc. rewrite (app_assoc (le_encode 4 b)).
  rewrite store_le_mid by done. by rewrite <- app_assoc.
Qed.
End header.

(** ** Representation *)

(** The offset of the last entry, of the first one when there is none. *)
Definition tail_of (es : list zent) : Z := 10 + zsize es - last_raw 0 es.

(** The bytes of a ziplist with entries [es] and header count [cnt]. *)
Definition zl_bytes (cnt : Z) (es : list zent) : list Z :=
  hdr (11 + zsize es) (tail_of es) cnt ++ zents 0 es ++ [ZIP_END].

(** [zl] is a ziplist with the entries [es]. *)
Record zl_repr (zl : list Z) (es : list zent) : Prop := {
  zl_layout : exists cnt, zl = zl_bytes cnt es /\ count_ok cnt (zlen es);
  zl_entries : zok 0 es;
  zl_small : 11 + zsize es < 2 ^ 32;
}.

(** The offset of the entry that follows the entries [l]. *)
Definition zpos (l : list zent) : Z := 10 + zsize l.

Lemma zlen_zl_bytes cnt es : zlen (zl_bytes cnt es) = 11 + zsize es.
Proof. unfold zl_bytes. rewrite !zlen_app, zlen_hdr, zlen_zents. change (zlen [ZIP_END]) with 1. lia. Qed.

Lemma zpos_snoc l e : zpos (l ++ [e]) = zpos l + rawlen e.
Proof. unfold zpos. rewrite zsize_app. cbn [zsize]. lia. Qed.

Lemma tail_of_snoc l e : tail_of (l ++ [e]) = zpos l.
Proof. unfold tail_of, zpos. rewrite zsize_app, last_raw_snoc. cbn [zsize]. lia. Qed.

Section repr.
Context (zl : list Z).

Lemma repr_zlen es : zl_repr zl es -> zlen zl = 11 + zsize es.
Proof. intros [(cnt & -> & _) _ _]. apply zlen_zl_bytes. Qed.

Lemma repr_bytes es : zl_repr zl es -> ZIPLIST_BYTES zl = Some (11 + zsize es).
Proof.
  intros [(cnt & -> & _) Hok Hs]. apply hdr_bytes. pose proof (zsize_nonneg 0 es Hok). lia.
Qed.

Lemma repr_tail es : zl_repr zl es -> ZIPLIST_TAIL_OFFSET zl = Some (tail_of es).
Proof.
  intros [(cnt & -> & _) Hok Hs]. apply hdr_tail. unfold tail_of.
  pose proof (last_raw_range 0 es Hok). lia.
Qed.

Lemma repr_length es : zl_repr zl es -> exists cnt, ZIPLIST_LENGTH zl = Some cnt /\ count_ok cnt (zlen es).
Proof.
  intros [(cnt & -> & Hc) Hok Hs]. exists cnt. split; [|done]. apply hdr_length.
  exact (count_ok_range cnt (zlen es) Hc (zlen_nonneg es)).
Qed.

(** The block around a position. *)
Lemma repr_split l k : zl_repr zl (l ++ k) ->
  exists X, zl = X ++ zents (last_raw 0 l) k ++ [ZIP_END] /\ zlen X = zpos l.
Proof.
  intros [(cnt & -> & _) _ _]. unfold zl_bytes. rewrite zents_app.
  exists (hdr (11 + zsize (l ++ k)) (tail_of (l ++ k)) cnt ++ zents 0 l). split.
  - by rewrite <- !app_assoc.
  - unfold zpos. by rewrite zlen_app, zlen_zents, zlen_hdr.
Qed.

Lemma repr_entry l e k : zl_repr zl (l ++ e :: k) ->
  exists X Y, zl = X ++ ent (last_raw 0 l) e ++ Y /\ zpos l = zlen X /\ ent_ok (last_raw 0 l) e /\
    10 <= zpos l /\ zpos l + rawlen e <= 11 + zsize (l ++ e :: k) - 1 /\
    0 <= last_raw 0 l <= zpos l - 10 /\ rawlen e < 2 ^ 32.
Proof.
  intros Hr. destruct (repr_split _ _ Hr) as (X & -> & HX). destruct Hr as [_ Hok Hs].
  apply zok_app in Hok as [Hl [He Hk]]. exists X, (zents (rawlen e) k ++ [ZIP_END]).
  rewrite zsize_app in *. cbn [zsize zents] in *. rewrite <- !app_assoc.
  pose proof (zsize_nonneg _ _ Hl). pose proof (zsize_nonneg _ _ Hk).
  pose proof (last_raw_range 0 l Hl). unfold zpos in *. split_and!; try done; lia.
Qed.

Lemma repr_end es : zl_repr zl es -> load8 zl (zpos es) = Some ZIP_END.
Proof.
  intros Hr. rewrite <- (app_nil_r es) in Hr. destruct (repr_split _ _ Hr) as (X & -> & HX).
  by apply load8_mid.
Qed.

Lemma repr_load8 l e k : zl_repr zl (l ++ e :: k) ->
  exists b, load8 zl (zpos l) = Some b /\ (b =? ZIP_END) = false.
Proof.
  intros Hr. destruct (repr_entry _ _ _ Hr) as (X & Y & HX & Hp & Hok & _).
  by apply (load8_ent zl X (last_raw 0 l) e Y).
Qed.

Lemma repr_zipEntry l e k : zl_repr zl (l ++ e :: k) ->
  zipEntry zl (zpos l) = Some (zle (last_raw 0 l) e (zpos l)).
Proof.
  intros Hr. destruct (repr_entry _ _ _ Hr) as (X & Y & HX & Hp & Hok & _). by apply (zipEntry_at zl X _ e Y).
Qed.

Lemma repr_PREVLEN l e k : zl_repr zl (l ++ e :: k) ->
  ZIP_DECODE_PREVLEN zl (zpos l) = Some (plsize (big e), last_raw 0 l).
Proof.
  intros Hr. destruct (repr_entry _ _ _ Hr) as (X & Y & HX & Hp & Hok & _). by apply (ent_PREVLEN_at zl X _ e Y).
Qed.

Lemma repr_safe l e k v : zl_repr zl (l ++ e :: k) ->
  zipEntrySafe zl (11 + zsize (l ++ e :: k)) (zpos l) v = Some (Some (zle (last_raw 0 l) e (zpos l))).
Proof.
  intros Hr. destruct (repr_entry _ _ _ Hr) as (X & Y & HX & Hp & Hok & ? & ? & ? & ?).
  apply (zipEntrySafe_at zl X _ e Y); try done. lia.
Qed.

Lemma repr_assert_safe l e k v : zl_repr zl (l ++ e :: k) ->
  assert_zipEntrySafe zl (11 + zsize (l ++ e :: k)) (zpos l) v = Some (zle (last_raw 0 l) e (zpos l)).
Proof. intros Hr. unfold assert_zipEntrySafe. by rewrite (repr_safe l e k v Hr). Qed.

Lemma repr_rawlen_safe l e k : zl_repr zl (l ++ e :: k) ->
  zipRawEntryLengthSafe zl (11 + zsize (l ++ e :: k)) (zpos l) = Some (rawlen e).
Proof.
  intros Hr. destruct (repr_entry _ _ _ Hr) as (X & Y & HX & Hp & Hok & ? & ? & ? & ?).
  by apply (zipRawEntryLengthSafe_at zl X (last_raw 0 l) e Y).
Qed.

Lemma repr_rawlen l e k : zl_repr zl (l ++ e :: k) -> zipRawEntryLength zl (zpos l) = Some (rawlen e).
Proof.
  intros Hr. destruct (repr_entry _ _ _ Hr) as (X & Y & HX & Hp & Hok & ? & ? & ? & ?).
  by apply (zipRawEntryLength_at zl X (last_raw 0 l) e Y).
Qed.

Lemma repr_valid l e k : zl_repr zl (l ++ e :: k) ->
  zipAssertValidEntry zl (11 + zsize (l ++ e :: k)) (zpos l) = Some ().
Proof. intros Hr. unfold zipAssertValidEntry. by rewrite (repr_assert_safe l e k true Hr). Qed.
End repr.
