(* ===== verification/ZiplistNav.v ===== *)
(** * Ziplists: reading an entry, traversal, search, and the encoding of values

    The functions of [Ziplist.v] that read a ziplist, related to the list of values it
    holds: ziplistGet(), ziplistCompare(), ziplistNext(), ziplistPrev(), ziplistIndex(),
    ziplistFind() and ziplistLen(); and the bodies that the encoders build. *)
From S2P Require Import Prelude.
From S2P Require Import Util.
From S2P Require Import Listpack.
From S2P Require Import Ziplist.

(** ** The value of an entry *)

Lemma ZIP_IS_STR_spec enc : is_byte enc -> ZIP_IS_STR enc = (enc <? 192).
Proof.
  intros H. apply eqb_prop. by apply (byte_forall (fun enc => Bool.eqb (ZIP_IS_STR enc) (enc <? 192))).
Qed.

Lemma benc_byte b : body_ok b -> is_byte (benc b).
Proof.
  intros [Hb He _ _ _]. unfold ZIP_ENTRY_ENCODING in He. destruct (load8 b 0) as [x|] eqn:Hx; [|done].
  apply load8_byte in Hx; [|done]. injection He as He. rewrite <- He. case_match; [|done].
  assert (is_byte x -> (0 <=? Z.land x ZIP_STR_MASK) && (Z.land x ZIP_STR_MASK <? 256) = true) as Hm.
  { apply (byte_forall (fun x => (0 <=? Z.land x ZIP_STR_MASK) && (Z.land x ZIP_STR_MASK <? 256))). done. }
  specialize (Hm Hx). unfold is_byte. lia.
Qed.

Lemma mem_load_suffix a b n : n = zlen b -> mem_load (a ++ b) (zlen a) n = Some b.
Proof. intros ->. apply mem_load_tail. Qed.

Lemma swrap_is_ll w z : 0 < w <= 64 -> is_ll (swrap w z).
Proof.
  intros Hw. pose proof (swrap_range w z ltac:(lia)) as H.
  assert (2 ^ (w - 1) <= 2 ^ 63) by (apply Z.pow_le_mono_r; lia). unfold_limits. eval_pow2. lia.
Qed.

(** The integer of a body that does not hold a string. *)
Lemma body_int b : body_ok b -> ZIP_IS_STR (benc b) = false ->
  exists v, zipLoadInteger b (fst (blens b)) (benc b) = Some v /\ is_ll v.
Proof.
  intros Hb Hi. pose proof (benc_byte b Hb) as Hr. rewrite ZIP_IS_STR_spec in Hi by done.
  destruct Hb as [Hby _ Hl Hv Hsz]. unfold ZIP_DECODE_LENGTH in Hl.
  change ZIP_STR_MASK with 192 in Hl. rewrite Hi in Hl.
  assert (forall n, 0 <= n -> blens b = (1, n) -> mem_load b 1 n = Some (drop 1 b)) as Hload.
  { intros n Hn0 Hn. rewrite Hn in Hsz. cbn [fst snd] in Hsz. destruct b as [|x b]; [change (zlen []) with 0 in Hsz; lia|].
    rewrite zlen_cons in Hsz. cbn [drop]. apply (mem_load_suffix [x]). rewrite drop_0. lia. }
  unfold zipLoadInteger.
  destruct (benc b =? ZIP_INT_8B) eqn:E1.
  { injection Hl as Hl. rewrite <- Hl in *. cbn [fst snd] in *.
    destruct (proj1 (load8_is_Some b 1)) as [x ->]; [lia|]. simpl_bind. eexists. split; [done|].
    by apply swrap_is_ll. }
  destruct (benc b =? ZIP_INT_16B) eqn:E2.
  { injection Hl as Hl. rewrite <- Hl. cbn [fst]. rewrite (Hload 2) by (done || lia). simpl_bind. eexists. split; [done|].
    by apply swrap_is_ll. }
  destruct (benc b =? ZIP_INT_24B) eqn:E3.
  { injection Hl as Hl. assert ((benc b =? ZIP_INT_32B) = false) as ->.
    { apply Z.eqb_eq in E3. by rewrite E3. }
    rewrite <- Hl. cbn [fst]. rewrite (Hload 3) by (done || lia). simpl_bind. eexists. split; [done|].
    pose proof (swrap_range 32 (le_decode (0 :: drop 1 b)) ltac:(lia)). rewrite Z.shiftr_div_pow2 by lia.
    unfold_limits. eval_pow2. Z.div_mod_to_equations. lia. }
  destruct (benc b =? ZIP_INT_32B) eqn:E4.
  { injection Hl as Hl. rewrite <- Hl. cbn [fst]. rewrite (Hload 4) by (done || lia). simpl_bind. eexists. split; [done|].
    by apply swrap_is_ll. }
  destruct (benc b =? ZIP_INT_64B) eqn:E5.
  { injection Hl as Hl. rewrite <- Hl. cbn [fst]. rewrite (Hload 8) by (done || lia). simpl_bind. eexists. split; [done|].
    by apply swrap_is_ll. }
  destruct (_ && _) eqn:E6.
  - eexists. split; [done|]. unfold ZIP_INT_IMM_MASK. change 0x0f with (2 ^ 4 - 1).
    rewrite land_pow2 by lia. unfold_limits. eval_pow2. Z.div_mod_to_equations. lia.
  - injection Hl as Hl. by rewrite <- Hl in Hv.
Qed.

(** The value of an entry, as a string: an integer stands for its decimal notation. *)
Definition bval (b : list Z) : list Z :=
  if ZIP_IS_STR (benc b) then drop (Z.to_nat (fst (blens b))) b
  else ll2string_out (default 0 (zipLoadInteger b (fst (blens b)) (benc b))).

Definition values (es : list zent) : list (list Z) := bval ∘ body <$> es.

(** What the caller of ziplistGet() reads. *)
Definition zlget_string (zl : list Z) (g : zlget) : option (list Z) :=
  match g with
  | Zl_sstr sstr slen => mem_load zl sstr slen
  | Zl_sval sval => Some (ll2string_out sval)
  end.

Lemma body_str b : body_ok b -> ZIP_IS_STR (benc b) = true ->
  mem_load b (fst (blens b)) (snd (blens b)) = Some (bval b) /\ zlen (bval b) = snd (blens b).
Proof.
  intros Hb Hs. destruct (body_facts b Hb) as (_ & H1 & H2). pose proof (body_size b Hb) as Hsz.
  unfold bval. rewrite Hs. split.
  - unfold mem_load. rewrite bool_decide_true by (unfold zlen in Hsz; lia). rewrite take_ge; [done|].
    rewrite length_drop. unfold zlen in Hsz. lia.
  - unfold zlen in *. rewrite length_drop. lia.
Qed.

(** The body of an entry, read in place. *)
Lemma ent_frame {A} (f : list Z -> Z -> option A) v M X prev e Y p :
  (forall a r c i v, f r i = Some v -> f (a ++ r ++ c) (zlen a + i) = Some v) ->
  M = X ++ ent prev e ++ Y -> p = zlen X -> f (body e) (fst (blens (body e))) = Some v ->
  f M (p + headersize (zle prev e p)) = Some v.
Proof.
  intros Hf -> -> Hv. unfold ent. rewrite <- app_assoc, app_assoc. cbn [headersize zle].
  rewrite <- (zlen_plen _ prev), Z.add_assoc, <- zlen_app. by apply Hf.
Qed.

Lemma ent_str_at M X prev e Y p : M = X ++ ent prev e ++ Y -> p = zlen X -> body_ok (body e) ->
  ZIP_IS_STR (benc (body e)) = true ->
  mem_load M (p + headersize (zle prev e p)) (snd (blens (body e))) = Some (bval (body e)) /\
  zlen (bval (body e)) = snd (blens (body e)).
Proof.
  intros HX Hp Hok Hs. destruct (body_str _ Hok Hs) as [Hl Hz]. split; [|done].
  refine (ent_frame (fun m i => mem_load m i (snd (blens (body e)))) _ M X _ e Y _ _ HX Hp Hl).
  intros. by apply mem_load_frame.
Qed.

Lemma ent_int_at M X prev e Y p : M = X ++ ent prev e ++ Y -> p = zlen X -> body_ok (body e) ->
  ZIP_IS_STR (benc (body e)) = false ->
  exists v, zipLoadInteger M (p + headersize (zle prev e p)) (benc (body e)) = Some v /\
    is_ll v /\ bval (body e) = ll2string_out v.
Proof.
  intros HX Hp Hok Hs. destruct (body_int _ Hok Hs) as (v & Hv & Hll). exists v. split_and!; [|done|].
  - exact (ent_frame (fun m i => zipLoadInteger m i (benc (body e))) v M X _ e Y _
      (fun a r c i v => zipLoadInteger_frame a r c i _ v) HX Hp Hv).
  - unfold bval. by rewrite Hs, Hv.
Qed.

(** An entry of a block, whatever follows it. *)
Lemma ziplistGet_at zl X prev e Y p : zl = X ++ ent prev e ++ Y -> p = zlen X -> ent_ok prev e ->
  exists g, ziplistGet zl (Some p) = Some (Some g) /\ zlget_string zl g = Some (bval (body e)) /\
    match g with Zl_sval sval => is_ll sval | Zl_sstr _ _ => True end.
Proof.
  intros HX Hp Hok. destruct (load8_ent zl X prev e Y p HX Hp Hok) as (b & Hb & Hne).
  unfold ziplistGet. rewrite Hb. simpl_bind. rewrite Hne, (zipEntry_at zl X prev e Y p HX Hp Hok). simpl_bind.
  change (encoding (zle _ e _)) with (benc (body e)). change (len (zle _ e _)) with (snd (blens (body e))).
  destruct (ZIP_IS_STR (benc (body e))) eqn:Hs.
  - eexists. split; [done|]. split; [|done]. by apply (ent_str_at zl X _ e Y _ HX Hp (ent_body _ _ Hok) Hs).
  - destruct (ent_int_at zl X _ e Y _ HX Hp (ent_body _ _ Hok) Hs) as (v & -> & Hll & ->). simpl_bind.
    by eexists.
Qed.

Lemma ziplistGet_ok zl l e k : zl_repr zl (l ++ e :: k) ->
  exists g, ziplistGet zl (Some (zpos l)) = Some (Some g) /\ zlget_string zl g = Some (bval (body e)).
Proof.
  intros Hr. destruct (repr_entry zl l e k Hr) as (X & Y & HX & Hp & Hok & _).
  destruct (ziplistGet_at zl X _ e Y _ HX Hp Hok) as (g & Hg & Hs & _). by exists g.
Qed.

(** ** Comparison with a string *)

Lemma zipTryEncoding_sound s v enc : zipTryEncoding s = Some (v, enc) ->
  is_ll v /\ s = ll2string_out v.
Proof.
  unfold zipTryEncoding. case_match; [done|]. destruct (string2ll s) as [w|] eqn:Hs; [|done].
  intros [= <- _]. apply string2ll_sound in Hs as [Hc Hw]. split; [done|].
  apply canonical_inj with w; [done | by apply ll2string_out_canonical].
Qed.

Lemma zipTryEncoding_complete v : is_ll v -> exists enc, zipTryEncoding (ll2string_out v) = Some (v, enc).
Proof.
  intros Hv. pose proof (ll2string_out_canonical v Hv) as Hc. unfold zipTryEncoding.
  rewrite (canonical_zlen _ _ Hv Hc), (string2ll_complete _ _ Hc Hv).
  pose proof (sdigits10_le v Hv). rewrite (proj2 (Z.leb_gt _ _)) by lia.
  assert (sdigits10 v <> 0) as Hn.
  { rewrite <- (canonical_zlen _ _ Hv Hc). intros H0%zlen_eq_nil. rewrite H0 in Hc. inversion Hc. }
  rewrite (proj2 (Z.eqb_neq _ _)) by done. by eexists.
Qed.

(** An integer is compared by value, which decides equality of the strings. *)
Lemma zipTryEncoding_eq s v : is_ll v ->
  bool_decide (ll2string_out v = s) =
    match zipTryEncoding s with Some (w, _) => v =? w | None => false end.
Proof.
  intros Hv. destruct (zipTryEncoding s) as [[w enc]|] eqn:Ht.
  - apply zipTryEncoding_sound in Ht as [Hw ->]. apply Bool.eq_iff_eq_true.
    rewrite bool_decide_eq_true, Z.eqb_eq. split; [by apply ll2string_out_inj | by intros ->].
  - apply bool_decide_eq_false. intros <-. destruct (zipTryEncoding_complete v Hv) as [? He]. congruence.
Qed.

Lemma memcmp_eq_at m p n s bs : mem_load m p n = Some bs -> zlen bs = n ->
  (if n =? zlen s then memcmp_eq m p s (zlen s) else Some false) = Some (bool_decide (bs = s)).
Proof.
  intros Hl Hz. destruct (Z.eqb_spec n (zlen s)) as [He|Hne].
  - unfold memcmp_eq. rewrite <- He, Hl. simpl_bind. rewrite He. unfold zlen. rewrite Nat2Z.id.
    rewrite (take_ge s) by lia. done.
  - rewrite bool_decide_false; [done|]. intros ->. lia.
Qed.

Lemma ziplistCompare_ok zl l e k s : zl_repr zl (l ++ e :: k) ->
  ziplistCompare zl (zpos l) s = Some (bool_decide (bval (body e) = s)).
Proof.
  intros Hr. destruct (repr_load8 zl l e k Hr) as (b & Hb & Hne).
  destruct (repr_entry zl l e k Hr) as (X & Y & HX & Hp & Hok & _).
  unfold ziplistCompare. rewrite Hb. simpl_bind. rewrite Hne, (repr_zipEntry zl l e k Hr). simpl_bind.
  change (encoding (zle _ e _)) with (benc (body e)). change (len (zle _ e _)) with (snd (blens (body e))).
  destruct (ZIP_IS_STR (benc (body e))) eqn:Hs.
  - destruct (ent_str_at zl X _ e Y _ HX Hp (ent_body _ _ Hok) Hs). by apply memcmp_eq_at.
  - destruct (ent_int_at zl X _ e Y _ HX Hp (ent_body _ _ Hok) Hs) as (v & -> & Hll & ->). simpl_bind.
    rewrite zipTryEncoding_eq by done. by destruct (zipTryEncoding s) as [[w enc]|].
Qed.

(** ** Traversal of a ziplist *)

(** The pointer to the entry that follows [l], NULL if there is none. *)
Definition zelem_at (l k : list zent) : option Z :=
  match k with [] => None | _ :: _ => Some (zpos l) end.

(** The pointer to the last of the entries [l]. *)
Definition zelem_before (l : list zent) : option Z :=
  match l with [] => None | _ :: _ => Some (tail_of l) end.

(** The pointer to the entry at an index, from the end when it is negative. *)
Definition zelem_pos (es : list zent) (i : Z) : option Z :=
  let i := if i <? 0 then zlen es + i else i in
  if (0 <=? i) && (i <? zlen es) then Some (zpos (take (Z.to_nat i) es)) else None.

Lemma cons_middle {A} (l : list A) x k : l ++ x :: k = (l ++ [x]) ++ k.
Proof. by rewrite <- app_assoc. Qed.

Lemma zelem_before_snoc l e : zelem_before (l ++ [e]) = Some (zpos l).
Proof. rewrite <- tail_of_snoc with (e := e). by destruct l. Qed.

Section traversal.
Context (zl : list Z).

Lemma goto_valid l k : zl_repr zl (l ++ k) ->
  (b ← load8 zl (zpos l);
   if b =? ZIP_END then Some None
   else _ ← zipAssertValidEntry zl (11 + zsize (l ++ k)) (zpos l); Some (Some (zpos l))) =
  Some (zelem_at l k).
Proof.
  intros Hr. destruct k as [|e k].
  - rewrite app_nil_r in Hr. rewrite (repr_end zl l Hr). done.
  - destruct (repr_load8 zl l e k Hr) as (b & -> & Hb). simpl_bind. rewrite Hb.
    by rewrite (repr_valid zl l e k Hr).
Qed.

Lemma ziplistNext_ok l e k : zl_repr zl (l ++ e :: k) ->
  ziplistNext zl (zpos l) = Some (zelem_at (l ++ [e]) k).
Proof.
  intros Hr. unfold ziplistNext. rewrite (repr_bytes zl _ Hr). simpl_bind.
  destruct (repr_load8 zl l e k Hr) as (b & -> & Hb). simpl_bind. rewrite Hb.
  rewrite (repr_rawlen zl l e k Hr). simpl_bind. rewrite <- zpos_snoc.
  rewrite (cons_middle l e k) in Hr |- *. by apply goto_valid.
Qed.

Lemma ziplistPrev_end es : zl_repr zl es -> ziplistPrev zl (zpos es) = Some (zelem_before es).
Proof.
  intros Hr. unfold ziplistPrev. rewrite (repr_end zl es Hr). simpl_bind.
  change (ZIP_END =? ZIP_END) with true. cbv iota. unfold ZIPLIST_ENTRY_TAIL.
  rewrite (repr_tail zl es Hr). simpl_bind. destruct es as [|e l _] using rev_ind.
  - change (tail_of []) with (zpos []). by rewrite (repr_end zl [] Hr).
  - rewrite tail_of_snoc, zelem_before_snoc. destruct (repr_load8 zl l e [] Hr) as (b & -> & Hb).
    simpl_bind. by rewrite Hb.
Qed.

Lemma ziplistPrev_ok l e k : zl_repr zl (l ++ e :: k) ->
  ziplistPrev zl (zpos l) = Some (zelem_before l).
Proof.
  intros Hr. unfold ziplistPrev. destruct (repr_load8 zl l e k Hr) as (b & -> & Hb). simpl_bind.
  rewrite Hb. destruct l as [|e' l _] using rev_ind; [done|].
  pose proof (zl_entries _ _ Hr) as Hok. apply zok_app in Hok as [Hok _].
  pose proof (last_raw_pos 0 (l ++ [e']) Hok) as Hpos. apply zok_app in Hok as [Hl _].
  pose proof (zsize_nonneg _ _ Hl) as Hz. rewrite (repr_PREVLEN zl _ e k Hr). simpl_bind.
  rewrite last_raw_snoc in Hpos |- *. rewrite zelem_before_snoc, zpos_snoc.
  assert (2 <= rawlen e') by (apply Hpos; by destruct l).
  rewrite (proj2 (Z.eqb_neq _ _)) by (unfold zpos, ZIPLIST_ENTRY_HEAD, ZIPLIST_HEADER_SIZE; lia).
  rewrite (proj2 (Z.ltb_lt _ _)) by lia. rewrite (repr_bytes zl _ Hr). simpl_bind.
  replace (zpos l + rawlen e' - rawlen e') with (zpos l) by lia.
  rewrite <- (cons_middle l e' (e :: k)) in Hr |- *. by rewrite (repr_valid zl l e' (e :: k) Hr).
Qed.

(** ** Index *)

(** The entries that are passed before the index is reached. *)
Lemma index_forward_ok n l e k : zl_repr zl (l ++ e :: k) ->
  exists i, ziplistIndex_forward n zl (11 + zsize (l ++ e :: k)) (zpos l) =
    Some (zpos (l ++ take n (e :: k)), i) /\ (i <= 0 \/ (length (e :: k) <= n)%nat).
Proof.
  revert l e k. induction n as [|n IH]; intros l e k Hr; cbn [ziplistIndex_forward].
  { rewrite take_0, app_nil_r. eexists. split; [done|]. lia. }
  rewrite (repr_rawlen_safe zl l e k Hr). simpl_bind. rewrite <- zpos_snoc. cbn [take].
  destruct k as [|e' k].
  - rewrite (repr_end zl _ Hr). simpl_bind. change (ZIP_END =? ZIP_END) with true. cbv iota.
    rewrite take_nil. eexists. split; [done|]. simpl. lia.
  - assert (zl_repr zl ((l ++ [e]) ++ e' :: k)) as Hr' by (by rewrite <- cons_middle).
    destruct (repr_load8 zl _ e' k Hr') as (b & -> & Hb). simpl_bind. rewrite Hb.
    destruct (IH _ e' k Hr') as (i & Hi & Hle). exists i. rewrite cons_middle, Hi, <- cons_middle.
    split; [done|]. simpl in *. lia.
Qed.

Lemma index_backward_ok n l e k : zl_repr zl (l ++ e :: k) ->
  exists i, ziplistIndex_backward n zl (11 + zsize (l ++ e :: k)) (zpos l) (last_raw 0 l) =
    Some (zpos (take (length l - n) l), i) /\ (0 <? i) = negb (bool_decide (n <= length l)%nat).
Proof.
  revert l e k. induction n as [|n IH]; intros l e k Hr; cbn [ziplistIndex_backward].
  { rewrite Nat.sub_0_r, take_ge by lia. exists (if 0 <? last_raw 0 l then -1 else 0).
    rewrite bool_decide_true by lia. by case_match. }
  pose proof (zl_entries _ _ Hr) as Hok. apply zok_app in Hok as [Hok _].
  destruct l as [|e' l _] using rev_ind.
  { change (0 <? last_raw 0 []) with false. cbv iota. eexists. split; [done|].
    rewrite bool_decide_false by (simpl; lia). apply Z.ltb_lt. lia. }
  pose proof (last_raw_pos 0 (l ++ [e']) Hok) as Hpos.
  rewrite (proj2 (Z.ltb_lt _ _)) by (specialize (Hpos ltac:(by destruct l)); lia).
  assert (zl_repr zl (l ++ e' :: e :: k)) as Hr' by (by rewrite cons_middle).
  destruct (repr_entry zl l e' (e :: k) Hr') as (_ & _ & _ & _ & He & H10 & Hend & _).
  rewrite last_raw_snoc, zpos_snoc. replace (zpos l + rawlen e' - rawlen e') with (zpos l) by lia.
  pose proof (rawlen_ge2 e' (ent_body _ _ He)). unfold ZIPLIST_HEADER_SIZE, ZIPLIST_END_SIZE.
  rewrite <- cons_middle. rewrite (proj2 (Z.leb_le _ _)), (proj2 (Z.ltb_lt _ _)) by lia. cbn [andb].
  rewrite (repr_PREVLEN zl l e' _ Hr'). simpl_bind.
  destruct (IH l e' (e :: k) Hr') as (i & -> & Hi). exists i. rewrite Hi, length_app. simpl.
  replace (length l + 1 - S n)%nat with (length l - n)%nat by lia.
  rewrite take_app_le by lia. split; [done|]. f_equal. apply bool_decide_ext. lia.
Qed.

Lemma finish_index es i n : zl_repr zl es -> ((n < length es)%nat -> i <= 0) ->
  (b ← load8 zl (zpos (take n es));
   if (b =? ZIP_END) || (0 <? i) then Some None
   else _ ← zipAssertValidEntry zl (11 + zsize es) (zpos (take n es)); Some (Some (zpos (take n es)))) =
  Some (zelem_pos es (Z.of_nat n)).
Proof.
  intros Hr Hi. unfold zelem_pos. rewrite (proj2 (Z.ltb_ge (Z.of_nat n) 0)), (proj2 (Z.leb_le 0 _)) by lia.
  rewrite Nat2Z.id. cbn [andb]. pose proof (take_drop n es) as Htd.
  destruct (drop n es) as [|e k] eqn:Hd.
  - rewrite app_nil_r in Htd. rewrite Htd, (repr_end zl es Hr). simpl_bind.
    apply (f_equal length) in Hd. rewrite length_drop in Hd. simpl in Hd.
    rewrite (proj2 (Z.ltb_ge (Z.of_nat n) _)) by (unfold zlen; lia). done.
  - apply (f_equal length) in Hd. rewrite length_drop in Hd. simpl in Hd.
    rewrite <- Htd in Hr. destruct (repr_load8 zl _ e k Hr) as (b & -> & Hb). simpl_bind. rewrite Hb.
    rewrite (proj2 (Z.ltb_ge 0 i)) by (apply Hi; lia). cbn [orb].
    rewrite <- Htd at 1. rewrite (repr_valid zl _ e k Hr). simpl_bind.
    rewrite (proj2 (Z.ltb_lt (Z.of_nat n) _)) by (unfold zlen; lia). done.
Qed.

Lemma ziplistIndex_ok es index : zl_repr zl es -> INT32_MIN < index ->
  (es = [] -> index <= 0) -> ziplistIndex zl index = Some (zelem_pos es index).
Proof.
  intros Hr Hmin Hne. unfold ziplistIndex. rewrite (repr_bytes zl es Hr). simpl_bind.
  destruct (Z.ltb_spec index 0) as [Hneg|Hpos].
  - rewrite (proj2 (Z.eqb_neq _ _)) by lia. unfold ZIPLIST_ENTRY_TAIL.
    rewrite (repr_tail zl es Hr). simpl_bind. destruct es as [|e l _] using rev_ind.
    { change (tail_of []) with (zpos []). rewrite (repr_end zl [] Hr). simpl_bind.
      change (ZIP_END =? ZIP_END) with true. cbn [negb]. simpl_bind. rewrite (repr_end zl [] Hr). simpl_bind.
      unfold zelem_pos. change (zlen []) with 0. rewrite (proj2 (Z.ltb_lt index 0)), (proj2 (Z.leb_gt 0 _)) by lia. done. }
    rewrite tail_of_snoc. destruct (repr_load8 zl l e [] Hr) as (b & -> & Hb). simpl_bind.
    rewrite Hb. cbn [negb]. rewrite (repr_PREVLEN zl l e [] Hr). simpl_bind.
    destruct (index_backward_ok (Z.to_nat (- index - 1)) l e [] Hr) as (i & -> & Hi). simpl_bind.
    set (n := Z.to_nat (- index - 1)) in *.
    rewrite <- (take_app_le l [e] (length l - n)) by lia.
    destruct (decide (n <= length l)%nat) as [Hle|Hgt].
    + rewrite bool_decide_true in Hi by done. rewrite (finish_index (l ++ [e]) i _ Hr) by lia.
      unfold zelem_pos. rewrite (proj2 (Z.ltb_ge (Z.of_nat _) 0)), (proj2 (Z.ltb_lt index 0)) by lia.
      replace (zlen (l ++ [e]) + index) with (Z.of_nat (length l - n)) by (rewrite zlen_snoc; unfold zlen; lia).
      done.
    + rewrite bool_decide_false in Hi by done. rewrite Hi.
      replace (length l - n)%nat with 0%nat by lia. rewrite take_0.
      assert (is_Some (load8 zl (zpos []))) as [b' ->].
      { apply load8_is_Some. rewrite (repr_zlen zl _ Hr). change (zpos []) with 10.
        pose proof (zsize_nonneg _ _ (zl_entries _ _ Hr)). lia. }
      simpl_bind. rewrite orb_true_r. unfold zelem_pos.
      rewrite (proj2 (Z.ltb_lt index 0)), (proj2 (Z.leb_gt 0 _)) by (rewrite ?zlen_snoc; unfold zlen; lia). done.
  - destruct es as [|e k].
    { assert (index = 0) as -> by (specialize (Hne eq_refl); lia). change (Z.to_nat 0) with 0%nat. cbn [ziplistIndex_forward].
      simpl_bind. change ZIPLIST_ENTRY_HEAD with (zpos []).
      by rewrite (repr_end zl [] Hr). }
    destruct (index_forward_ok (Z.to_nat index) [] e k Hr) as (i & Hf & Hi). rewrite !app_nil_l in Hf.
    change (zpos []) with ZIPLIST_ENTRY_HEAD in Hf. rewrite Hf. simpl_bind.
    rewrite (finish_index (e :: k) i _ Hr) by lia. by rewrite Z2Nat.id by lia.
Qed.
End traversal.

(** ** Search *)

(** The index of the first value equal to [s] when [cnt] values are skipped, then [skip]
    between two comparisons. *)
Fixpoint find_every (s : list Z) (skip cnt : nat) (vs : list (list Z)) : option nat :=
  match vs with
  | [] => None
  | v :: vs =>
      match cnt with
      | O => if bool_decide (v = s) then Some O else S <$> find_every s skip skip vs
      | S cnt => S <$> find_every s skip cnt vs
      end
  end.

Lemma find_every_spec s skip cnt vs :
  match find_every s skip cnt vs with
  | Some i => (exists q, i = cnt + q * S skip)%nat /\ vs !! i = Some s /\
      forall q, (cnt + q * S skip < i)%nat -> vs !! (cnt + q * S skip)%nat <> Some s
  | None => forall q, vs !! (cnt + q * S skip)%nat <> Some s
  end.
Proof.
  revert cnt. induction vs as [|v vs IH]; intros cnt; cbn [find_every]; [done|].
  destruct cnt as [|cnt].
  - case_bool_decide as Hv.
    + subst. split; [by exists 0%nat|]. split; [done|]. intros. lia.
    + specialize (IH skip). destruct (find_every s skip skip vs) as [i|]; cbn [fmap option_fmap option_map].
      * destruct IH as ((q & ->) & Hi & Hfirst). split; [exists (S q); lia|]. split; [done|].
        intros [|r] Hr; [simpl; congruence|]. apply (Hfirst r). lia.
      * intros [|q]; [simpl; congruence|]. apply (IH q).
  - specialize (IH cnt). destruct (find_every s skip cnt vs) as [i|]; cbn [fmap option_fmap option_map].
    + destruct IH as ((q & ->) & Hi & Hfirst). split; [by exists q|]. split; [done|].
      intros r Hr. apply (Hfirst r). lia.
    + intros q. apply (IH q).
Qed.

Lemma zipTryEncoding_enc s v enc : zipTryEncoding s = Some (v, enc) -> 192 <= enc < 255.
Proof.
  unfold zipTryEncoding. case_match; [done|]. destruct (string2ll s) as [w|]; [|done].
  intros [= <- <-]. destruct ((0 <=? w) && (w <=? 12)) eqn:Hw.
  - unfold ZIP_INT_IMM_MIN. rewrite uwrap_small by (eval_pow2; lia). lia.
  - repeat case_match; vm_compute; split; congruence.
Qed.

(** The integer that is searched for is parsed at most once. *)
Definition venc_ok (s : list Z) (vencoding vll : Z) : Prop :=
  vencoding = 0 \/ (vencoding = UCHAR_MAX /\ zipTryEncoding s = None) \/
  zipTryEncoding s = Some (vll, vencoding).

Lemma find_compare_int s v venc vll (K : Z -> Z -> option (bool * Z * Z)) : venc_ok s venc vll -> is_ll v ->
  (forall venc vll, K venc vll =
    if negb (venc =? UCHAR_MAX) then Some (v =? vll, venc, vll) else Some (false, venc, vll)) ->
  exists venc' vll', venc_ok s venc' vll' /\
    ('(venc, vll) ←
      (if venc =? 0 then
         let '(venc, vll) := match zipTryEncoding s with
                             | Some (v, enc) => (enc, v)
                             | None => (UCHAR_MAX, vll)
                             end in
         if negb (venc =? 0) then Some (venc, vll) else None
       else Some (venc, vll));
     K venc vll) = Some (bool_decide (ll2string_out v = s), venc', vll').
Proof.
  intros Hv Hll HK. rewrite zipTryEncoding_eq by done.
  assert (forall w enc, zipTryEncoding s = Some (w, enc) -> K enc w = Some (v =? w, enc, w)) as HS.
  { intros w enc Ht. rewrite HK. apply zipTryEncoding_enc in Ht.
    by rewrite (proj2 (Z.eqb_neq enc UCHAR_MAX)) by (unfold UCHAR_MAX; lia). }
  assert (forall w, K UCHAR_MAX w = Some (false, UCHAR_MAX, w)) as HN by (intros; by rewrite HK).
  destruct (Z.eqb_spec venc 0) as [->|Hne].
  - destruct (zipTryEncoding s) as [[w enc]|] eqn:Ht.
    + pose proof (zipTryEncoding_enc _ _ _ Ht). rewrite (proj2 (Z.eqb_neq enc 0)) by lia. cbn [negb].
      simpl_bind. exists enc, w. rewrite (HS w enc) by done. split; [by right; right | done].
    + change (UCHAR_MAX =? 0) with false. cbn [negb]. simpl_bind. exists UCHAR_MAX, vll.
      rewrite HN. split; [by right; left | done].
  - simpl_bind. exists venc, vll. split; [done|].
    destruct Hv as [|[[-> Ht]|Ht]]; [done| |]; rewrite Ht; [apply HN | by apply HS].
Qed.

Lemma ziplistFind_compare_ok zl l e k s venc vll : zl_repr zl (l ++ e :: k) -> venc_ok s venc vll ->
  exists venc' vll', venc_ok s venc' vll' /\
    ziplistFind_compare zl (zle (last_raw 0 l) e (zpos l)) (zpos l + headersize (zle (last_raw 0 l) e (zpos l)))
      s (zlen s) venc vll = Some (bool_decide (bval (body e) = s), venc', vll').
Proof.
  intros Hr Hv. destruct (repr_entry zl l e k Hr) as (X & Y & HX & Hp & Hok & _).
  unfold ziplistFind_compare. change (encoding (zle _ e _)) with (benc (body e)).
  change (len (zle _ e _)) with (snd (blens (body e))).
  destruct (ZIP_IS_STR (benc (body e))) eqn:Hs.
  - destruct (ent_str_at zl X _ e Y _ HX Hp (ent_body _ _ Hok) Hs) as [Hl Hz].
    rewrite (memcmp_eq_at _ _ _ s _ Hl Hz). by exists venc, vll.
  - destruct (ent_int_at zl X _ e Y _ HX Hp (ent_body _ _ Hok) Hs) as (v & Hload & Hll & ->).
    apply (find_compare_int s v venc vll (fun venc vll => _)); [done..|]. intros venc0 vll0.
    rewrite Hload. done.
Qed.

Section find.
Context (zl s : list Z) (skip : Z) (Hskip : 0 <= skip < 2 ^ 31).

Lemma ziplistFind_loop_ok fuel l k skipcnt venc vll : zl_repr zl (l ++ k) -> (length k <= fuel)%nat ->
  0 <= skipcnt -> venc_ok s venc vll ->
  ziplistFind_loop fuel zl (11 + zsize (l ++ k)) s (zlen s) skip (zpos l) skipcnt venc vll =
  Some ((fun i => zpos (l ++ take i k)) <$> find_every s (Z.to_nat skip) (Z.to_nat skipcnt) (values k)).
Proof.
  revert fuel l skipcnt venc vll. induction k as [|e k IH]; intros fuel l skipcnt venc vll Hr Hf Hc Hv.
  { rewrite app_nil_r in Hr. destruct fuel; cbn [ziplistFind_loop]; by rewrite (repr_end zl l Hr). }
  destruct fuel as [|fuel]; [simpl in Hf; lia|]. cbn [ziplistFind_loop].
  destruct (repr_load8 zl l e k Hr) as (b & -> & Hb). simpl_bind. rewrite Hb.
  rewrite (repr_assert_safe zl l e k true Hr). simpl_bind.
  destruct (repr_entry zl l e k Hr) as (_ & _ & _ & _ & Hok & _).
  set (q := zpos l + _ + _).
  assert (q = zpos l + headersize (zle (last_raw 0 l) e (zpos l))) as Hq by (unfold q; cbn; lia).
  assert (q + len (zle (last_raw 0 l) e (zpos l)) = zpos (l ++ [e])) as Hnext.
  { rewrite zpos_snoc, rawlen_split by apply Hok. unfold q. cbn. lia. }
  assert (zl_repr zl ((l ++ [e]) ++ k)) as Hr' by (by rewrite <- cons_middle).
  assert (forall n : option nat, (fun i => zpos (l ++ take i (e :: k))) <$> (S <$> n) =
    (fun i => zpos ((l ++ [e]) ++ take i k)) <$> n) as Hshift.
  { intros [n|]; [|done]. cbn. by rewrite <- cons_middle. }
  change (values (e :: k)) with (bval (body e) :: values k). cbn [find_every].
  rewrite Hnext, (cons_middle l e k). destruct (Z.eqb_spec skipcnt 0) as [->|Hne].
  - destruct (ziplistFind_compare_ok zl l e k s venc vll Hr Hv) as (venc' & vll' & Hv' & Hcmp).
    rewrite Hq, Hcmp. simpl_bind. change (Z.to_nat 0) with 0%nat. cbv iota. case_bool_decide.
    + cbn. by rewrite app_nil_r.
    + rewrite swrap_small by (eval_pow2; lia). rewrite IH by (done || simpl in Hf; lia).
      by rewrite <- Hshift.
  - rewrite IH by (done || simpl in Hf; lia).
    replace (Z.to_nat skipcnt) with (S (Z.to_nat (skipcnt - 1))) by lia. by rewrite Hshift.
Qed.
End find.

Lemma repr_fuel zl l k : zl_repr zl (l ++ k) -> (length k <= length zl)%nat.
Proof.
  intros Hr. pose proof (zok_ge _ _ (zl_entries _ _ Hr)) as H. rewrite zlen_app in H.
  pose proof (repr_zlen _ _ Hr) as Hz. unfold zlen in *. lia.
Qed.

Lemma ziplistFind_ok zl l k s skip : zl_repr zl (l ++ k) -> 0 <= skip < 2 ^ 31 ->
  ziplistFind zl (zpos l) s skip =
  Some ((fun i => zpos (l ++ take i k)) <$> find_every s (Z.to_nat skip) 0 (values k)).
Proof.
  intros Hr Hs. unfold ziplistFind, ziplistBlobLen. rewrite (repr_bytes zl _ Hr). simpl_bind.
  rewrite ziplistFind_loop_ok; [done | done | done | by eapply repr_fuel | done | by left].
Qed.

(** ** Length *)

Lemma ziplistLen_loop_ok zl fuel l k n : zl_repr zl (l ++ k) -> (length k <= fuel)%nat ->
  0 <= n -> n + zlen k < 2 ^ 32 ->
  ziplistLen_loop fuel zl (11 + zsize (l ++ k)) (zpos l) n = Some (n + zlen k).
Proof.
  revert fuel l n. induction k as [|e k IH]; intros fuel l n Hr Hf Hn Hlt.
  { rewrite app_nil_r in Hr. change (zlen []) with 0. rewrite Z.add_0_r.
    destruct fuel; cbn [ziplistLen_loop]; by rewrite (repr_end zl l Hr). }
  destruct fuel as [|fuel]; [simpl in Hf; lia|]. cbn [ziplistLen_loop].
  destruct (repr_load8 zl l e k Hr) as (b & -> & Hb). simpl_bind. rewrite Hb.
  rewrite (repr_rawlen_safe zl l e k Hr). simpl_bind. rewrite zlen_cons in *.
  pose proof (zlen_nonneg k). rewrite uwrap_small by lia. rewrite <- zpos_snoc.
  rewrite (cons_middle l e k) in Hr |- *. rewrite IH by (done || simpl in Hf; lia). f_equal. lia.
Qed.

Lemma ziplistLen_ok zl es : zl_repr zl es ->
  exists zl', ziplistLen zl = Some (zlen es, zl') /\ zl_repr zl' es.
Proof.
  intros Hr. unfold ziplistLen. destruct (repr_length zl es Hr) as (cnt & -> & Hc). simpl_bind.
  unfold UINT16_MAX. destruct Hc as [->|[-> Hc]]; [|exists zl; by rewrite (proj2 (Z.ltb_lt _ _)) by done].
  change (LP_HDR_NUMELE_UNKNOWN <? 65535) with false. cbv iota. rewrite (repr_bytes zl es Hr). simpl_bind.
  pose proof (zok_ge _ _ (zl_entries _ _ Hr)). pose proof (zl_small _ _ Hr). pose proof (zlen_nonneg es).
  pose proof (ziplistLen_loop_ok zl (length zl) [] es 0 Hr (repr_fuel zl [] es Hr) ltac:(lia) ltac:(lia)) as Hl.
  rewrite app_nil_l in Hl. change (zpos []) with ZIPLIST_HEADER_SIZE in Hl. rewrite Hl. simpl_bind. rewrite Z.add_0_l. destruct (Z.ltb_spec (zlen es) 65535) as [Hlt|Hge]; [|by exists zl].
  destruct Hr as [(cnt & -> & _) Hok Hs]. unfold zl_bytes. rewrite set_hdr_length. simpl_bind.
  eexists. split; [done|]. split; [|done|done]. exists (zlen es). split; [done|]. right.
  split; [done|]. unfold LP_HDR_NUMELE_UNKNOWN. lia.
Qed.

(** ** Encoding a value *)

(** The bytes that zipSaveInteger() stores. *)
Definition int_bytes (value encoding : Z) : list Z :=
  if encoding =? ZIP_INT_8B then [u8 (s8 value)]
  else if encoding =? ZIP_INT_16B then le_encode 2 (s16 value)
  else if encoding =? ZIP_INT_24B then drop 1 (le_encode 4 (s32 (Z.shiftl value 8)))
  else if encoding =? ZIP_INT_32B then le_encode 4 (s32 value)
  else if encoding =? ZIP_INT_64B then le_encode 8 value
  else [].

(** The body that is stored for the string [s]. *)
Definition body_of (s : list Z) : list Z :=
  match zipTryEncoding s with
  | Some (value, encoding) => zipStoreEntryEncoding_buf encoding (zlen s) ++ int_bytes value encoding
  | None => zipStoreEntryEncoding_buf 0 (zlen s) ++ s
  end.

(** A body that holds the value [s]. *)
Definition body_val (b s : list Z) : Prop := body_ok b /\ bval b = s.

Lemma body_val_int enc d n v : 192 <= enc < 255 -> bytes_ok d -> zlen d = n ->
  ZIP_DECODE_LENGTH (enc :: d) 0 enc = Some (1, n) ->
  zipLoadInteger (enc :: d) 1 enc = Some v -> body_val (enc :: d) (ll2string_out v).
Proof.
  intros He Hd Hn Hdec Hload.
  assert (ZIP_ENTRY_ENCODING (enc :: d) 0 = Some enc) as Henc.
  { unfold ZIP_ENTRY_ENCODING. change (load8 (enc :: d) 0) with (Some enc). simpl_bind.
    unfold ZIP_STR_MASK. by rewrite (proj2 (Z.ltb_ge _ _)) by lia. }
  assert (benc (enc :: d) = enc) as Hb by (unfold benc; by rewrite Henc).
  assert (blens (enc :: d) = (1, n)) as Hl by (unfold blens; by rewrite Hb, Hdec).
  split; [split|].
  - constructor; [unfold is_byte; lia | done].
  - by rewrite Hb.
  - by rewrite Hb, Hl.
  - by rewrite Hl.
  - rewrite Hl, zlen_cons. cbn [fst snd]. lia.
  - unfold bval. rewrite Hb, Hl. cbn [fst]. rewrite Hload.
    rewrite ZIP_IS_STR_spec, (proj2 (Z.ltb_ge _ _)) by (unfold is_byte; lia). done.
Qed.

Lemma le_swrap w n z : 8 * Z.of_nat n = w -> 0 < w -> - 2 ^ (w - 1) <= z < 2 ^ (w - 1) ->
  swrap w (le_decode (le_encode n (swrap w z))) = z.
Proof.
  intros Hn Hw Hz. rewrite le_decode_encode.
  replace (256 ^ Z.of_nat n) with (2 ^ w) by (rewrite <- Hn, Z.pow_mul_r by lia; done).
  change (swrap w (uwrap w (swrap w z)) = z). rewrite swrap_uwrap by done. by rewrite (swrap_small w z), (swrap_small w z).
Qed.

Lemma mem_load_rest x d n : n = zlen d -> mem_load (x :: d) 1 n = Some d.
Proof. exact (mem_load_suffix [x] d n). Qed.

Lemma le_decode_24 z : le_decode (0 :: drop 1 (le_encode 4 (Z.shiftl z 8))) = (Z.shiftl z 8) mod 2 ^ 32.
Proof.
  change (2 ^ 32) with (256 ^ Z.of_nat 4). rewrite <- le_decode_encode. f_equal. cbn [le_encode drop].
  rewrite Z.shiftl_mul_pow2 by lia. change (2 ^ 8) with 256. by rewrite Z.mod_mul.
Qed.

Lemma int_bytes_ok s v enc : zipTryEncoding s = Some (v, enc) -> body_val (enc :: int_bytes v enc) s.
Proof.
  intros Ht. pose proof (zipTryEncoding_enc _ _ _ Ht) as Hr.
  destruct (zipTryEncoding_sound _ _ _ Ht) as [Hll Hs]. rewrite Hs.
  unfold zipTryEncoding in Ht. destruct (_ || _); [done|]. destruct (string2ll s) as [w|]; [|done].
  injection Ht as -> Henc.
  unfold INT8_MIN, INT8_MAX, INT24_MIN, INT24_MAX in Henc. unfold_limits.
  change (- (0x7fffff) - 1) with (-8388608) in Henc.
  destruct ((0 <=? v) && (v <=? 12)) eqn:E0.
  { assert (0 <= v <= 12) as Hv by lia. clear Hs Hll E0. subst enc.
    assert (v ∈ seqZ 0 13) as Hin by (apply elem_of_seqZ; lia).
    assert (Forall (fun v => let enc := u8 (ZIP_INT_IMM_MIN + v) in int_bytes v enc = [] /\
      ZIP_DECODE_LENGTH [enc] 0 enc = Some (1, 0) /\ zipLoadInteger [enc] 1 enc = Some v) (seqZ 0 13)) as Hall.
    { repeat constructor. }
    rewrite Forall_forall in Hall. destruct (Hall v Hin) as (-> & Hd & Hl). by apply (body_val_int _ _ 0). }
  destruct ((-128 <=? v) && (v <=? 127)) eqn:E1.
  { subst enc. apply (body_val_int _ _ 1); [done| |done|done|].
    - constructor; [apply (uwrap_range 8); lia | done].
    - change (zipLoadInteger _ 1 ZIP_INT_8B) with (Some (s8 (u8 (s8 v)))).
      rewrite swrap_uwrap by lia. by rewrite (swrap_small 8 v), (swrap_small 8 v) by (eval_pow2; lia). }
  destruct ((-32768 <=? v) && (v <=? 32767)) eqn:E2.
  { subst enc. apply (body_val_int _ _ 2); [done | apply le_encode_bytes | done | done |].
    unfold zipLoadInteger. cbn [Z.eqb]. change (int_bytes v ZIP_INT_16B) with (le_encode 2 (s16 v)).
    change (ZIP_INT_16B =? ZIP_INT_8B) with false. change (ZIP_INT_16B =? ZIP_INT_16B) with true. cbv iota.
    rewrite mem_load_rest by done. simpl_bind. rewrite le_swrap by (done || lia || eval_pow2; lia). done. }
  destruct ((-8388608 <=? v) && (v <=? 8388607)) eqn:E3.
  { subst enc. assert (s32 (Z.shiftl v 8) = Z.shiftl v 8) as Hsw.
    { rewrite Z.shiftl_mul_pow2 by lia. rewrite swrap_small; eval_pow2; lia. }
    apply (body_val_int _ _ 3); [done | | reflexivity | done |].
    - apply (Forall_drop _ 1 (le_encode 4 _)), le_encode_bytes.
    - change (int_bytes v ZIP_INT_24B) with (drop 1 (le_encode 4 (s32 (Z.shiftl v 8)))). rewrite Hsw.
      set (d := drop 1 _). transitivity (i32 ← mem_load (ZIP_INT_24B :: d) 1 3; Some (Z.shiftr (s32 (le_decode (0 :: i32))) 8)); [done|].
      rewrite mem_load_rest by done. simpl_bind. unfold d. rewrite le_decode_24.
      change ((Z.shiftl v 8) mod 2 ^ 32) with (uwrap 32 (Z.shiftl v 8)). rewrite swrap_uwrap, Hsw by lia.
      by rewrite Z.shiftr_shiftl_l, Z.shiftl_0_r by lia. }
  destruct ((-2147483648 <=? v) && (v <=? 2147483647)) eqn:E4.
  { subst enc. apply (body_val_int _ _ 4); [done | apply le_encode_bytes | done | done |].
    transitivity (i32 ← mem_load (ZIP_INT_32B :: le_encode 4 (s32 v)) 1 4; Some (s32 (le_decode i32))); [done|].
    rewrite mem_load_rest by done. simpl_bind. rewrite le_swrap by (done || lia || eval_pow2; lia). done. }
  subst enc. apply (body_val_int _ _ 8); [done | apply le_encode_bytes | done | done |].
  transitivity (i64 ← mem_load (ZIP_INT_64B :: le_encode 8 v) 1 8; Some (s64 (le_decode i64))); [done|].
  rewrite mem_load_rest by done. simpl_bind. rewrite <- (swrap_small 64 v) at 1 by (eval_pow2; lia).
  rewrite le_swrap by (done || lia || eval_pow2; lia). done.
Qed.

(** The header of a string. *)
Lemma body_val_str h s enc : bytes_ok (h ++ s) -> (enc = 0 \/ enc = 64 \/ enc = 128) -> h <> [] ->
  ZIP_ENTRY_ENCODING (h ++ s) 0 = Some enc -> ZIP_DECODE_LENGTH (h ++ s) 0 enc = Some (zlen h, zlen s) ->
  body_val (h ++ s) s.
Proof.
  intros Hby He Hne Henc Hdec. assert (benc (h ++ s) = enc) as Hb by (unfold benc; by rewrite Henc).
  assert (blens (h ++ s) = (zlen h, zlen s)) as Hl by (unfold blens; by rewrite Hb, Hdec).
  split; [split|].
  - done.
  - by rewrite Hb.
  - by rewrite Hb, Hl.
  - rewrite Hl. cbn [fst]. by intros H0%zlen_eq_nil.
  - by rewrite Hl, zlen_app.
  - unfold bval. rewrite Hb, Hl. cbn [fst]. unfold zlen. rewrite Nat2Z.id, drop_app_length.
    destruct He as [-> | [-> | ->]]; done.
Qed.

Lemma str_class b : 0 <= b < 192 -> exists q, Z.land b 0xc0 = 64 * q /\ Z.land b 0x3f = b - 64 * q /\ q = b / 64.
Proof.
  intros Hb. exists (b / 64). pose proof (byte_range_forall (fun b => (Z.land b 0xc0 =? 64 * (b / 64)) &&
    (Z.land b 0x3f =? b - 64 * (b / 64))) 0 192 ltac:(lia) ltac:(lia) eq_refl b Hb) as H.
  apply andb_true_iff in H as [H1%Z.eqb_eq H2%Z.eqb_eq]. done.
Qed.

Lemma lor_64 x : 0 <= x < 64 -> Z.lor 64 x = 64 + x.
Proof.
  intros. rewrite Z.lor_comm. change 64 with (Z.shiftl 1 6) at 1. rewrite shiftl_lor_add by (eval_pow2; lia).
  eval_pow2. lia.
Qed.

Lemma str_bytes_ok s : bytes_ok s -> zlen s < 2 ^ 32 -> body_val (zipStoreEntryEncoding_buf 0 (zlen s) ++ s) s.
Proof.
  intros Hs Hlt. pose proof (zlen_nonneg s) as Hn. set (n := zlen s) in *.
  unfold zipStoreEntryEncoding_buf. change (ZIP_IS_STR 0) with true. cbv iota. eval_pow2.
  destruct (Z.leb_spec n 0x3f) as [H6|H6]; [|destruct (Z.leb_spec n 0x3fff) as [H14|H14]].
  - change (Z.lor ZIP_STR_06B n) with n. rewrite uwrap_small by (eval_pow2; lia).
    destruct (str_class n) as (q & H1 & H2 & Hq); [lia|].
    assert (q = 0) as -> by (Z.div_mod_to_equations; lia).
    apply (body_val_str [n] s 0); [|by left|done| |].
    + constructor; [unfold is_byte; lia | done].
    + unfold ZIP_ENTRY_ENCODING. change (load8 ([n] ++ s) 0) with (Some n). simpl_bind.
      unfold ZIP_STR_MASK. rewrite (proj2 (Z.ltb_lt _ _)), H1 by lia. done.
    + unfold ZIP_DECODE_LENGTH. change (load8 ([n] ++ s) 0) with (Some n). simpl_bind.
      rewrite H2. change (0 <? ZIP_STR_MASK) with true. change (0 =? ZIP_STR_06B) with true. cbv iota.
      do 2 f_equal. fold n. lia.
  - rewrite land_255, Z.shiftr_div_pow2 by lia. change 0x3f with (2 ^ 6 - 1). rewrite land_pow2 by lia.
    change ZIP_STR_14B with 64. eval_pow2. rewrite (Z.mod_small (n / 256) 64) by (Z.div_mod_to_equations; lia).
    rewrite lor_64, !uwrap_small by (eval_pow2; Z.div_mod_to_equations; lia).
    set (b0 := 64 + n / 256). set (b1 := n mod 256). assert (64 <= b0 < 128) as Hb0 by (subst b0; Z.div_mod_to_equations; lia).
    destruct (str_class b0) as (q & H1 & H2 & Hq); [lia|].
    assert (q = 1) as -> by (Z.div_mod_to_equations; lia).
    assert (0 <= b1 < 256) as Hb1 by (apply Z.mod_pos_bound; lia).
    apply (body_val_str [b0; b1] s 64); [|by right; left|done| |].
    + repeat (constructor; [unfold is_byte; lia|]). done.
    + unfold ZIP_ENTRY_ENCODING. change (load8 ([b0; b1] ++ s) 0) with (Some b0). simpl_bind.
      unfold ZIP_STR_MASK. rewrite (proj2 (Z.ltb_lt _ _)), H1 by lia. done.
    + unfold ZIP_DECODE_LENGTH. change (load8 ([b0; b1] ++ s) 0) with (Some b0).
      change (load8 ([b0; b1] ++ s) (0 + 1)) with (Some b1). simpl_bind. rewrite H2.
      change (64 <? ZIP_STR_MASK) with true. change (64 =? ZIP_STR_06B) with false.
      change (64 =? ZIP_STR_14B) with true. cbv iota. change (zlen [b0; b1]) with 2. do 2 f_equal.
      rewrite Z.lor_comm, shiftl_lor_add by (eval_pow2; lia). fold n. subst b0 b1. eval_pow2.
      Z.div_mod_to_equations. lia.
  - rewrite !land_255, !Z.shiftr_div_pow2 by lia. eval_pow2. change (u8 ZIP_STR_32B) with 128.
    rewrite !uwrap_small by (eval_pow2; Z.div_mod_to_equations; lia).
    set (b1 := n / 16777216 mod 256). set (b2 := n / 65536 mod 256). set (b3 := n / 256 mod 256). set (b4 := n mod 256).
    assert (Forall is_byte [b1; b2; b3; b4]) as Hb.
    { repeat constructor; unfold b1, b2, b3, b4; apply Z.mod_pos_bound; lia. }
    apply (body_val_str [128; b1; b2; b3; b4] s 128); [|by right; right|done|done|].
    + apply Forall_app. split; [|done]. constructor; [unfold is_byte; lia | done].
    + rewrite !Forall_cons in Hb. destruct Hb as (? & ? & ? & ? & _).
      transitivity (Some (5, u32 (Z.lor (Z.lor (Z.lor (Z.shiftl b1 24) (Z.shiftl b2 16)) (Z.shiftl b3 8)) b4))); [done|].
      rewrite lor4 by done. change (zlen [128; b1; b2; b3; b4]) with 5. cbn [le_decode]. fold n.
      do 2 f_equal. subst b1 b2 b3 b4. Z.div_mod_to_equations. lia.
Qed.

Lemma body_of_ok s : bytes_ok s -> zlen s < 2 ^ 32 -> body_val (body_of s) s.
Proof.
  intros Hs Hlt. unfold body_of. destruct (zipTryEncoding s) as [[v enc]|] eqn:Ht; [|by apply str_bytes_ok].
  pose proof (zipTryEncoding_enc _ _ _ Ht) as He. unfold zipStoreEntryEncoding_buf.
  rewrite ZIP_IS_STR_spec, (proj2 (Z.ltb_ge _ _)) by (unfold is_byte; lia).
  rewrite uwrap_small by (eval_pow2; lia). by apply int_bytes_ok.
Qed.

(** ** Properties *)

(** ziplistFind() returns the first entry that holds the string among those at the
    distances 0, skip+1, 2(skip+1), ... from 'p', and NULL when none of them does. Integer
    entries are compared by value, which decides the equality of the strings. *)
Theorem ziplistFind_correct zl l k s skip : zl_repr zl (l ++ k) -> 0 <= skip < 2 ^ 31 ->
  let step := S (Z.to_nat skip) in
  match ziplistFind zl (zpos l) s skip with
  | Some (Some p) => exists q, let i := (q * step)%nat in
      p = zpos (l ++ take i k) /\ values k !! i = Some s /\
      forall q', (q' * step < i)%nat -> values k !! (q' * step)%nat <> Some s
  | Some None => forall q, values k !! (q * step)%nat <> Some s
  | None => False
  end.
Proof.
  intros Hr Hs step. rewrite (ziplistFind_ok zl l k s skip Hr Hs).
  pose proof (find_every_spec s (Z.to_nat skip) 0 (values k)) as Hf.
  destruct (find_every s (Z.to_nat skip) 0 (values k)) as [i|]; cbn [fmap option_fmap option_map].
  - destruct Hf as ((q & ->) & Hi & Hfirst). exists q. done.
  - exact Hf.
Qed.

(** Traversal: ziplistNext() and ziplistPrev() go from an entry to its neighbours and
    return NULL at the ends, ziplistPrev() of the end marker is the tail, ziplistIndex() finds
    the entry at an index counted from either end, ziplistLen() counts the entries, and
    ziplistGet() reads the value of an entry. *)
Theorem ziplist_traversal_correct zl l e k : zl_repr zl (l ++ e :: k) ->
  ziplistNext zl (zpos l) = Some (zelem_at (l ++ [e]) k) /\
  ziplistPrev zl (zpos l) = Some (zelem_before l) /\
  ziplistPrev zl (zpos (l ++ e :: k)) = Some (zelem_before (l ++ e :: k)) /\
  (forall index, INT32_MIN < index -> ziplistIndex zl index = Some (zelem_pos (l ++ e :: k) index)) /\
  (exists zl', ziplistLen zl = Some (zlen (l ++ e :: k), zl') /\ zl_repr zl' (l ++ e :: k)) /\
  exists g, ziplistGet zl (Some (zpos l)) = Some (Some g) /\ zlget_string zl g = Some (bval (body e)).
Proof.
  intros Hr. split_and!.
  - by apply ziplistNext_ok.
  - by apply (ziplistPrev_ok zl l e k).
  - by apply ziplistPrev_end.
  - intros index Hi. apply ziplistIndex_ok; [done | done|]. by destruct l.
  - by apply ziplistLen_ok.
  - by apply (ziplistGet_ok zl l e k).
Qed.

(** The encoding of a string that zipTryEncoding(), zipStoreEntryEncoding() and
    zipSaveInteger() choose decodes to the same string, for every integer width and string
    header, and the header gives its size. *)
Theorem zip_encode_decode_roundtrip s : bytes_ok s -> zlen s < 2 ^ 32 ->
  ZIP_ENTRY_ENCODING (body_of s) 0 = Some (benc (body_of s)) /\
  ZIP_DECODE_LENGTH (body_of s) 0 (benc (body_of s)) = Some (blens (body_of s)) /\
  zlen (body_of s) = fst (blens (body_of s)) + snd (blens (body_of s)) /\ bval (body_of s) = s.
Proof. intros Hs Hl. destruct (body_of_ok s Hs Hl) as [[] Hv]. done. Qed.

(** An index past the end is not found, unless the ziplist is empty: then zipRawEntryLengthSafe()
    is called on the end marker and its assertion fails. *)
Lemma ziplistIndex_empty zl index : zl_repr zl [] -> 0 < index -> ziplistIndex zl index = None.
Proof.
  intros Hr Hi. unfold ziplistIndex. rewrite (repr_bytes zl [] Hr). simpl_bind.
  rewrite (proj2 (Z.ltb_ge _ _)) by lia. replace (Z.to_nat index) with (S (Z.to_nat (index - 1))) by lia.
  cbn [ziplistIndex_forward]. destruct Hr as [(cnt & -> & _) _ _]. done.
Qed.

(** ** Examples *)

(** The ziplist of "abc", "1024" and "abc". *)
Definition zl_example_entries : list zent :=
  (fun s => {| big := false; body := body_of s |}) <$> [str "abc"; str "1024"; str "abc"].
Definition zl_example : list Z := zl_bytes 3 zl_example_entries.

Lemma zl_example_repr : zl_repr zl_example zl_example_entries.
Proof.
  assert (forall prev s, 0 <= prev < 254 -> zlen (str s) < 2 ^ 32 -> ent_ok prev {| big := false; body := body_of (str s) |}) as He.
  { intros prev s Hp Hs. split; [apply body_of_ok; [apply bytes_ok_str | done] | eval_pow2; lia | intros _; lia]. }
  split.
  - exists 3. split; [done|]. by right.
  - unfold zl_example_entries. cbn [fmap list_fmap zok].
    split_and!; [apply He; [lia | done] | apply He; [|done] | apply He; [|done] | done].
    all: vm_compute; split; congruence.
  - vm_compute. done.
Qed.

Lemma ziplistFind_correct_witness : exists p q, ziplistFind zl_example (zpos []) (str "abc") 1 = Some (Some p) /\
  p = zpos (take (q * 2) zl_example_entries) /\ values zl_example_entries !! (q * 2)%nat = Some (str "abc").
Proof.
  pose proof (ziplistFind_correct zl_example [] zl_example_entries (str "abc") 1 zl_example_repr ltac:(lia)) as H.
  destruct (ziplistFind zl_example (zpos []) (str "abc") 1) as [[p|]|] eqn:E.
  - destruct H as (q & Hp & Hv & _). exists p, q. exact (conj eq_refl (conj Hp Hv)).
  - exfalso. exact (H 0%nat eq_refl).
  - exfalso. exact H.
Defined.

Lemma ziplist_traversal_correct_witness :
  ziplistPrev zl_example (zpos (take 1 zl_example_entries)) = Some (Some (zpos [])).
Proof.
  exact (proj1 (proj2 (ziplist_traversal_correct zl_example (take 1 zl_example_entries)
    {| big := false; body := body_of (str "1024") |} (drop 2 zl_example_entries) zl_example_repr))).
Defined.

Lemma zip_encode_decode_roundtrip_witness : bval (body_of (str "-129")) = str "-129".
Proof. refine (proj2 (proj2 (proj2 (zip_encode_decode_roundtrip (str "-129") _ _)))); [apply bytes_ok_str | done]. Defined.
