(* ===== verification/ZiplistCascade.v ===== *)
(** * Ziplists: the cascading update of the prevlen fields

    __ziplistCascadeUpdate() of ziplist.c: a change of the size of an entry may need a larger
    prevlen field in the next one, whose size changes in turn. The theorem gives the exact
    result: the fields that have to grow do, the others keep their size, and the chain, the
    total size and the tail offset are right again. *)
From S2P Require Import Prelude.
From S2P Require Import Util.
From S2P Require Import Listpack.
From S2P Require Import Ziplist.
From S2P Require Import ZiplistNav.

(** ** Cascading update of the prevlen fields *)

(** 'delta' *)
Definition cascade_delta : Z := 4.

(** What the first loop of __ziplistCascadeUpdate() leaves. *)
Record cascade_state := {
  cs_zl : list Z;
  cs_p : Z;
  cs_prevoffset : Z;
  cs_extra : Z;
  cs_cnt : nat;
}.

(** while (p[0] != ZIP_END) { ... }, with the prevlen that the entry at 'p' should have *)
Fixpoint cascade_scan (fuel : nat) (curlen prevlen prevlensize : Z) (st : cascade_state)
    : option cascade_state :=
  let zl := cs_zl st in
  let p := cs_p st in
  b ← load8 zl p;
  if b =? ZIP_END then Some st
  else
    match fuel with
    | O => None
    | S fuel =>
        cur ← assert_zipEntrySafe zl curlen p false;
        if prevrawlen cur =? prevlen then Some st
        else if prevlensize <=? prevrawlensize cur then
          '(zl, _) ← (if prevrawlensize cur =? prevlensize
                      then zipStorePrevEntryLength zl p prevlen
                      else zipStorePrevEntryLengthLarge zl p prevlen);
          Some {| cs_zl := zl; cs_p := p; cs_prevoffset := cs_prevoffset st;
                  cs_extra := cs_extra st; cs_cnt := cs_cnt st |}
        else if (prevrawlen cur =? 0) || (prevrawlen cur + cascade_delta =? prevlen) then
          let rawlen := u32 (headersize cur + len cur) in
          let prevlen := rawlen + cascade_delta in
          cascade_scan fuel curlen prevlen (zipStorePrevEntryLength_size prevlen)
            {| cs_zl := zl; cs_p := p + rawlen; cs_prevoffset := p;
               cs_extra := cs_extra st + cascade_delta; cs_cnt := S (cs_cnt st) |}
        else None
    end.

(** while (cnt) { ... } *)
Fixpoint cascade_move (cnt : nat) (firstentrylen : Z) (zl : list Z) (p prevoffset : Z) : option (list Z) :=
  match cnt with
  | O => Some zl
  | S cnt =>
      cur ← zipEntry zl prevoffset;
      let rawlen := u32 (headersize cur + len cur) in
      zl ← memmove zl (p - (rawlen - prevrawlensize cur)) (prevoffset + prevrawlensize cur)
             (rawlen - prevrawlensize cur);
      let p := p - (rawlen + cascade_delta) in
      '(zl, _) ← (if prevrawlen cur =? 0 then zipStorePrevEntryLength zl p firstentrylen
                  else zipStorePrevEntryLength zl p (prevrawlen cur + cascade_delta));
      cascade_move cnt firstentrylen zl p (u64 (prevoffset - prevrawlen cur))
  end.

Definition ziplistCascadeUpdate `{Allocator} (zl : list Z) (p : Z) : option (list Z) :=
  curlen ← ZIPLIST_BYTES zl;
  tail ← ZIPLIST_TAIL_OFFSET zl;
  b ← load8 zl p;
  if b =? ZIP_END then Some zl
  else
    cur ← zipEntry zl p;
    let firstentrylen := u32 (headersize cur + len cur) in
    let prevlen := firstentrylen in
    st ← cascade_scan (length zl) curlen prevlen (zipStorePrevEntryLength_size prevlen)
           {| cs_zl := zl; cs_p := p + prevlen; cs_prevoffset := p; cs_extra := 0; cs_cnt := 0 |};
    let zl := cs_zl st in
    let p := cs_p st in
    let extra := cs_extra st in
    if extra =? 0 then Some zl
    else
      zl ← (if tail =? cs_prevoffset st then
              if negb (extra - cascade_delta =? 0) then
                tail ← ZIPLIST_TAIL_OFFSET zl;
                set_ZIPLIST_TAIL_OFFSET zl (tail + extra - cascade_delta)
              else Some zl
            else
              tail ← ZIPLIST_TAIL_OFFSET zl;
              set_ZIPLIST_TAIL_OFFSET zl (tail + extra));
      let offset := p in
      zl ← ziplistResize zl (curlen + extra);
      zl ← memmove zl (p + extra) p (curlen - offset - 1);
      cascade_move (cs_cnt st) firstentrylen zl (p + extra) (cs_prevoffset st).


(** ** The abstract update *)

(** The entry with a five byte prevlen field. *)
Definition grown (e : zent) : zent := {| big := true; body := body e |}.

(** The entries whose prevlen field has to grow, given the size of the entry before them,
    and the entries after them. *)
Fixpoint growing (prev : Z) (k : list zent) : list zent * list zent :=
  match k with
  | [] => ([], [])
  | c :: k' =>
      if big c || (prev <? 254) then ([], k)
      else let '(g, r) := growing (rawlen c + 4) k' in (c :: g, r)
  end.

Definition cascade (prev : Z) (k : list zent) : list zent :=
  (grown <$> fst (growing prev k)) ++ snd (growing prev k).

Lemma growing_app prev k : fst (growing prev k) ++ snd (growing prev k) = k.
Proof.
  revert prev. induction k as [|c k IH]; intros prev; [done|]. cbn [growing].
  case_match; [done|]. specialize (IH (rawlen c + 4)). destruct (growing _ k) as [g r]. simpl in *. by f_equal.
Qed.

(** Every entry of [g] has a one byte field that is too small. *)
Fixpoint too_small (prev : Z) (g : list zent) : Prop :=
  match g with
  | [] => True
  | c :: g => 254 <= prev /\ big c = false /\ too_small (rawlen c + 4) g
  end.

Lemma growing_small prev k : too_small prev (fst (growing prev k)).
Proof.
  revert prev. induction k as [|c k IH]; intros prev; [done|]. cbn [growing].
  destruct (big c) eqn:Hb; [done|]. destruct (Z.ltb_spec prev 254); [done|]. cbn [orb].
  specialize (IH (rawlen c + 4)). destruct (growing _ k) as [g r]. done.
Qed.

Lemma rawlen_grown c : big c = false -> rawlen (grown c) = rawlen c + 4.
Proof. intros Hb. unfold rawlen. rewrite Hb. cbn. lia. Qed.

Lemma too_small_app prev g c : too_small prev (g ++ [c]) ->
  too_small prev g /\ big c = false /\ 254 <= last_raw prev (grown <$> g).
Proof.
  revert prev. induction g as [|d g IH]; intros prev; cbn [app too_small fmap list_fmap last_raw]; [tauto|].
  intros (Hp & Hd & Hg). apply IH in Hg as (H1 & H2 & H3). by rewrite rawlen_grown.
Qed.

Lemma zsize_grown prev g : too_small prev g -> zsize (grown <$> g) = zsize g + 4 * zlen g.
Proof.
  revert prev. induction g as [|c g IH]; intros prev; [done|]. cbn [too_small fmap list_fmap zsize].
  intros (_ & Hc & Hg). rewrite (IH _ Hg), rawlen_grown, zlen_cons by done. lia.
Qed.

Lemma last_grown prev prev' g : too_small prev g -> g <> [] ->
  last_raw prev (grown <$> g) = last_raw prev' g + 4.
Proof.
  destruct g as [|c g _] using rev_ind; [done|]. intros (_ & Hc & _)%too_small_app _.
  rewrite fmap_app. cbn [fmap list_fmap]. by rewrite !last_raw_snoc, rawlen_grown.
Qed.

Lemma bodies_cascade prev k : body <$> cascade prev k = body <$> k.
Proof.
  unfold cascade. rewrite <- (growing_app prev k) at 3. rewrite !fmap_app. f_equal.
  rewrite <- list_fmap_compose. by apply list_fmap_ext.
Qed.

Lemma values_bodies k k' : body <$> k = body <$> k' -> values k = values k'.
Proof. intros H. unfold values. by rewrite !list_fmap_compose, H. Qed.

Lemma length_bodies (k k' : list zent) : body <$> k = body <$> k' -> length k = length k'.
Proof. intros H%(f_equal length). by rewrite !length_fmap in H. Qed.

Lemma zlen_bodies (k k' : list zent) : body <$> k = body <$> k' -> zlen k = zlen k'.
Proof. intros H. unfold zlen. by rewrite (length_bodies _ _ H). Qed.

(** The size added by an update. *)
Lemma zsize_cascade prev k : zsize k <= zsize (cascade prev k) <= zsize k + 4 * zlen k.
Proof.
  unfold cascade. pose proof (f_equal zsize (growing_app prev k)) as Hs.
  pose proof (f_equal zlen (growing_app prev k)) as Hl. rewrite zsize_app in Hs |- *. rewrite zlen_app in Hl.
  rewrite (zsize_grown prev) by apply growing_small.
  pose proof (zlen_nonneg (fst (growing prev k))). pose proof (zlen_nonneg (snd (growing prev k))). lia.
Qed.

Lemma last_raw_le prev k : zok prev k -> k <> [] -> last_raw prev k <= zsize k.
Proof.
  intros Hok Hne. destruct k as [|d k]; [done|]. destruct Hok as [Hd Hk]. cbn [last_raw zsize].
  pose proof (rawlen_ge2 d (ent_body _ _ Hd)). apply last_raw_range; [done | lia].
Qed.

Lemma tail_of_range es : zok 0 es -> 10 <= tail_of es <= 10 + zsize es.
Proof. intros Hok. unfold tail_of. pose proof (last_raw_range 0 es Hok). lia. Qed.

(** The byte after an entry tells if it is the last one. *)
Lemma load8_after X prev e old k p : zok old k -> p = zlen X + rawlen e ->
  exists b, load8 (X ++ ent prev e ++ zents old k ++ [ZIP_END]) p = Some b /\ (b =? ZIP_END) = bool_decide (k = []).
Proof.
  intros Hk ->. rewrite app_assoc, <- (zlen_ent prev e), <- zlen_app. destruct k as [|g k].
  - exists ZIP_END. split; [by apply load8_mid | done].
  - destruct Hk as [Hg _]. destruct (ent_first_byte _ _ Hg) as (b & tl & Hb & Hne). cbn [zents]. rewrite Hb.
    exists b. split; [by apply load8_mid|]. rewrite bool_decide_false by done. by apply Z.eqb_neq.
Qed.

(** What the entry at the seam held before: nothing, its new content less four bytes, or more. *)
Definition stale (old new : Z) : Prop := old = 0 \/ new = old + 4 \/ new <= old.

(** The update restores the chain. *)
Lemma zok_cascade old new k : zok old k -> 0 <= new -> new + zsize k + 4 * zlen k < 2 ^ 32 ->
  zok new (cascade new k).
Proof.
  revert old new. induction k as [|c k IH]; intros old new Hok Hn Hlt; [done|].
  destruct Hok as [Hc Hk]. cbn [zsize] in Hlt. rewrite zlen_cons in Hlt. pose proof (zlen_nonneg k).
  pose proof (rawlen_ge2 c (ent_body _ _ Hc)). pose proof (zsize_nonneg _ _ Hk).
  unfold cascade. cbn [growing].
  destruct (big c || (new <? 254)) eqn:Hb.
  - split; [|done]. split; [apply Hc | lia | intros Hs; rewrite Hs in Hb; simpl in Hb; lia].
  - apply orb_false_iff in Hb as [Hb _]. specialize (IH (rawlen c) (rawlen c + 4) Hk).
    unfold cascade in IH. destruct (growing (rawlen c + 4) k) as [g r]. cbn [fst snd fmap list_fmap app] in *.
    split; [split; [apply Hc | lia | done]|]. rewrite rawlen_grown by done. apply IH; lia.
Qed.

Lemma cascade_id old new k : zok old k -> new <= old -> cascade new k = k.
Proof.
  intros Hok Hle. unfold cascade. destruct k as [|c k]; [done|]. destruct Hok as [Hc _]. cbn [growing].
  destruct (big c) eqn:Hb; [done|]. pose proof (ent_small _ _ Hc Hb).
  by rewrite (proj2 (Z.ltb_lt _ _)) by lia.
Qed.

(** ** Writing a prevlen field *)

Lemma store_large_at X F Y v p : p = zlen X -> zlen F = 5 ->
  zipStorePrevEntryLengthLarge (X ++ F ++ Y) p v = Some (X ++ plen true v ++ Y, 5).
Proof.
  intros -> HF. destruct F as [|x F]; [done|]. rewrite zlen_cons in HF. unfold zipStorePrevEntryLengthLarge.
  cbn [app plen]. rewrite store8_mid by done. simpl_bind. change (u8 ZIP_BIG_PREVLEN) with ZIP_BIG_PREVLEN.
  rewrite (cons_middle X ZIP_BIG_PREVLEN), <- zlen_snoc with (x := ZIP_BIG_PREVLEN).
  rewrite mem_store_mid by (done || rewrite length_le_encode; unfold zlen in HF; lia).
  simpl_bind. by rewrite <- cons_middle.
Qed.

(** zipStorePrevEntryLength() over any field of the right size *)
Lemma store_prev_at X F Y v p b : p = zlen X -> 0 <= v -> zlen F = plsize b -> b = negb (v <? 254) ->
  zipStorePrevEntryLength (X ++ F ++ Y) p v = Some (X ++ plen b v ++ Y, plsize b).
Proof.
  intros -> Hv HF ->. unfold zipStorePrevEntryLength, ZIP_BIG_PREVLEN. destruct (Z.ltb_spec v 254); cbn [negb] in *.
  - destruct F as [|x [|y F]]; [done| |cbn [plsize] in HF; rewrite !zlen_cons in HF; pose proof (zlen_nonneg F); lia].
    cbn [app plen]. rewrite store8_mid by done. simpl_bind. by rewrite uwrap_small by (eval_pow2; lia).
  - by apply store_large_at.
Qed.

Lemma prevlen_size_spec v : zipStorePrevEntryLength_size v = plsize (negb (v <? 254)).
Proof. unfold zipStorePrevEntryLength_size, ZIP_BIG_PREVLEN. by destruct (v <? 254). Qed.

(** The field of the first entry that does not have to grow, whatever its size. *)
Lemma store_prev_ent X c prev v Y p : p = zlen X -> 0 <= v ->
  big c || (v <? 254) = true ->
  ('(zl, _) ← (if plsize (big c) =? zipStorePrevEntryLength_size v
               then zipStorePrevEntryLength (X ++ ent prev c ++ Y) p v
               else zipStorePrevEntryLengthLarge (X ++ ent prev c ++ Y) p v);
   Some (zl : list Z)) = Some (X ++ ent v c ++ Y).
Proof.
  intros -> Hv Hb. rewrite prevlen_size_spec. unfold ent. rewrite <- !app_assoc.
  destruct (big c) eqn:Hbig, (v <? 254) eqn:Hlt; cbn [negb orb] in *; try done.
  - change (plsize true =? plsize false) with false. cbv iota. by rewrite store_large_at.
  - change (plsize true =? plsize true) with true. cbv iota.
    rewrite (store_prev_at X _ _ v _ true) by (done || by rewrite Hlt). done.
  - change (plsize false =? plsize false) with true. cbv iota.
    rewrite (store_prev_at X _ _ v _ false) by (done || by rewrite Hlt). done.
Qed.

(** ** The scan *)

(** The offset of the last entry that has to grow, or of the entry before the seam. *)
Definition last_offset (start poff : Z) (g : list zent) : Z :=
  match g with [] => poff | _ :: _ => start + zsize g - last_raw 0 g end.

Lemma last_offset_cons start poff c g :
  last_offset (start + rawlen c) start g = last_offset start poff (c :: g).
Proof.
  unfold last_offset. destruct g as [|d g]; cbn [zsize last_raw]; lia.
Qed.

Lemma cascade_scan_ok k fuel curlen A old new poff extra cnt :
  zok old k -> stale old new -> 0 <= new -> 10 <= zlen A -> curlen = zlen A + zsize k + 1 ->
  curlen < 2 ^ 32 -> (length k <= fuel)%nat ->
  cascade_scan fuel curlen new (zipStorePrevEntryLength_size new)
    {| cs_zl := A ++ zents old k ++ [ZIP_END]; cs_p := zlen A; cs_prevoffset := poff;
       cs_extra := extra; cs_cnt := cnt |} =
  let g := fst (growing new k) in
  let r := snd (growing new k) in
  Some {| cs_zl := A ++ zents old g ++ zents (last_raw new (grown <$> g)) r ++ [ZIP_END];
          cs_p := zlen A + zsize g; cs_prevoffset := last_offset (zlen A) poff g;
          cs_extra := extra + 4 * zlen g; cs_cnt := (cnt + length g)%nat |}.
Proof.
  revert fuel A old new poff extra cnt.
  induction k as [|c k IH]; intros fuel A old new poff extra cnt Hok Hst Hn H10 Hcur Hlt Hf.
  { cbn [growing fst snd zents fmap list_fmap last_raw app zsize]. change (zlen []) with 0.
    rewrite Z.add_0_r, Nat.add_0_r, Z.mul_0_r, Z.add_0_r.
    destruct fuel; cbn [cascade_scan cs_zl cs_p]; by rewrite load8_mid. }
  destruct fuel as [|fuel]; [simpl in Hf; lia|]. destruct Hok as [Hc Hk].
  cbn [zents zsize] in *. pose proof (zsize_nonneg _ _ Hk). pose proof (rawlen_ge2 c (ent_body _ _ Hc)).
  assert (A ++ (ent old c ++ zents (rawlen c) k) ++ [ZIP_END] =
    A ++ ent old c ++ (zents (rawlen c) k ++ [ZIP_END])) as HM by (by rewrite <- !app_assoc).
  cbn [cascade_scan cs_zl cs_p cs_prevoffset cs_extra cs_cnt].
  destruct (load8_ent _ _ _ _ _ _ HM eq_refl Hc) as (b & -> & Hb). simpl_bind. rewrite Hb.
  rewrite (assert_zipEntrySafe_at _ _ _ _ _ _ _ _ HM eq_refl Hc) by (done || lia). simpl_bind.
  cbn [prevrawlen zle prevrawlensize headersize len]. cbn [growing].
  destruct (big c || (new <? 254)) eqn:Hbig.
  - (* the scan stops here *)
    cbn [fst snd fmap list_fmap last_raw zents zsize last_offset app length].
    change (zlen []) with 0. rewrite Z.add_0_r, Z.mul_0_r, Z.add_0_r, Nat.add_0_r.
    destruct (Z.eqb_spec old new) as [->|Hne]; [done|].
    rewrite prevlen_size_spec at 1. rewrite (proj2 (Z.leb_le _ _)).
    2: { destruct (big c), (new <? 254); cbn in *; lia || done. }
    pose proof (store_prev_ent A c old new (zents (rawlen c) k ++ [ZIP_END]) (zlen A) eq_refl Hn Hbig) as Hstore.
    rewrite HM. destruct (if plsize (big c) =? _ then _ else _) as [[zl n]|]; [|done].
    simpl_bind in Hstore. injection Hstore as ->. simpl_bind. by rewrite <- !app_assoc.
  - apply orb_false_iff in Hbig as [Hbig Hlt254%Z.ltb_ge]. pose proof (ent_small _ _ Hc Hbig) as Hsmall.
    rewrite (proj2 (Z.eqb_neq _ _)) by lia. rewrite prevlen_size_spec at 1.
    rewrite (proj2 (Z.ltb_ge new 254)) by done. rewrite Hbig. change (plsize (negb false) <=? plsize false) with false.
    cbv iota. change (plsize false) with (plsize false).
    assert ((old =? 0) || (old + cascade_delta =? new) = true) as ->.
    { unfold cascade_delta. destruct Hst as [|[|]]; [| |lia]; apply orb_true_iff; [left|right]; lia. }
    assert (u32 (plsize false + fst (blens (body c)) + snd (blens (body c))) = rawlen c) as Hraw.
    { rewrite rawlen_split, Hbig by apply Hc. rewrite uwrap_small; [done|].
      rewrite <- Hbig, <- rawlen_split by apply Hc. lia. }
    rewrite Hraw. unfold cascade_delta. rewrite HM.
    rewrite <- (zlen_ent old c), <- zlen_app, app_assoc, (zlen_ent old c).
    rewrite (IH fuel (A ++ ent old c) (rawlen c) (rawlen c + 4)); try done.
    + destruct (growing (rawlen c + 4) k) as [g r]. cbn [fst snd fmap list_fmap last_raw zents zsize].
      rewrite rawlen_grown, zlen_app, zlen_ent, zlen_cons by done. do 2 f_equal.
      * by rewrite <- !app_assoc.
      * lia.
      * by rewrite <- last_offset_cons.
      * lia.
      * simpl. lia.
    + right. by left.
    + lia.
    + rewrite zlen_app, zlen_ent. lia.
    + rewrite zlen_app, zlen_ent. lia.
    + simpl in Hf. lia.
Qed.

(** ** The moves *)

(** memmove() between two places of a block. *)
Lemma memmove_at m A W B C V D dst src n : m = A ++ W ++ B -> m = C ++ V ++ D -> zlen V = zlen W ->
  src = zlen A -> dst = zlen C -> n = zlen W -> memmove m dst src n = Some (C ++ W ++ D).
Proof.
  intros HA HC HV -> -> ->. unfold memmove. rewrite HA, mem_load_mid by done. simpl_bind.
  rewrite <- HA, HC. apply mem_store_mid; [done|]. unfold zlen in HV. lia.
Qed.

(** One step: the body of [c] is moved up to [T] and a five byte field is put before it. *)
Lemma cascade_step_ok X prev c Y T np : ent_ok prev c -> big c = false -> 254 <= np -> 4 <= zlen Y ->
  zlen X + rawlen c + zlen Y < 2 ^ 32 ->
  let zl := X ++ ent prev c ++ Y ++ T in
  let p := zlen X + rawlen c + zlen Y in
  exists Y' zl', zlen Y' = zlen Y - 4 /\
    memmove zl (p - (rawlen c - 1)) (zlen X + 1) (rawlen c - 1) = Some zl' /\
    zipStorePrevEntryLength zl' (p - (rawlen c + 4)) np = Some (X ++ Y' ++ ent np (grown c) ++ T, 5).
Proof.
  intros Hc Hb Hnp HY Hlt zl p. assert (rawlen c = 1 + zlen (body c)) as Hr by (unfold rawlen; by rewrite Hb).
  assert (zl = (X ++ [prev]) ++ body c ++ (Y ++ T)) as HA.
  { unfold zl, ent. rewrite Hb. cbn [plen]. by rewrite <- !app_assoc. }
  destruct (split_at_len (ent prev c ++ Y) (1 + zlen Y)) as (F & V & HFV & HF & HV).
  { rewrite zlen_app, zlen_ent. pose proof (zlen_nonneg (body c)). lia. }
  rewrite zlen_app, zlen_ent in HV.
  destruct (split_at_len F (zlen Y - 4)) as (Y' & F5 & -> & HY' & HF5); [lia|].
  assert (zl = (X ++ Y' ++ F5) ++ V ++ T) as HC.
  { unfold zl. rewrite (app_assoc _ Y T), HFV. by rewrite <- !app_assoc. }
  exists Y'. eexists. split; [done|]. split.
  - apply (memmove_at zl _ _ _ _ _ _ _ _ _ HA HC); rewrite ?zlen_app; change (zlen [prev]) with 1; unfold p; lia.
  - rewrite <- !app_assoc, (app_assoc X Y').
    rewrite (store_prev_at (X ++ Y') F5 (body c ++ T) np _ true).
    + unfold ent. cbn [big grown body]. by rewrite <- !app_assoc.
    + rewrite zlen_app. unfold p. lia.
    + lia.
    + cbn. lia.
    + by rewrite (proj2 (Z.ltb_ge _ _)) by lia.
Qed.

(** The prevlen that the update gives to the entry after [g]. *)
Lemma new_prevlen old new g : zok old g -> too_small new g -> old = 0 \/ new = old + 4 ->
  (if last_raw old g =? 0 then new else last_raw old g + cascade_delta) = last_raw new (grown <$> g).
Proof.
  intros Hok Hs Hst. unfold cascade_delta. destruct (decide (g = [])) as [->|Hne].
  - cbn [last_raw fmap list_fmap]. destruct (Z.eqb_spec old 0); lia.
  - pose proof (last_raw_pos old g Hok Hne). rewrite (proj2 (Z.eqb_neq _ _)) by lia.
    by rewrite (last_grown new old g).
Qed.

Lemma cascade_move_ok g X Y T old new p poff : zok old g -> too_small new g -> old = 0 \/ new = old + 4 ->
  zlen Y = 4 * zlen g -> p = zlen X + zsize g + zlen Y -> p < 2 ^ 32 ->
  (g <> [] -> poff = zlen X + zsize g - last_raw 0 g) ->
  cascade_move (length g) new (X ++ zents old g ++ Y ++ T) p poff = Some (X ++ zents new (grown <$> g) ++ T).
Proof.
  revert Y T p poff. induction g as [|c g IH] using rev_ind; intros Y T p poff Hok Hs Hst HY Hp Hlt Hpoff.
  { assert (Y = []) as -> by (apply zlen_eq_nil; by rewrite HY). done. }
  apply zok_app in Hok as [Hg [Hc _]]. apply too_small_app in Hs as (Hs & Hb & Hnp).
  rewrite zsize_app, last_raw_snoc in Hpoff. rewrite zlen_snoc in HY. rewrite zsize_app in Hp. cbn [zsize] in *.
  assert (poff = zlen (X ++ zents old g)) as ->.
  { rewrite zlen_app, zlen_zents. specialize (Hpoff ltac:(by destruct g)). lia. }
  pose proof (zsize_nonneg _ _ Hg) as Hzg. pose proof (zlen_nonneg g). pose proof (zlen_nonneg X).
  rewrite length_app, Nat.add_comm. cbn [length Nat.add cascade_move].
  rewrite zents_app. cbn [zents]. rewrite app_nil_r.
  assert (X ++ (zents old g ++ ent (last_raw old g) c) ++ Y ++ T =
    (X ++ zents old g) ++ ent (last_raw old g) c ++ Y ++ T) as -> by (by rewrite <- !app_assoc).
  rewrite (zipEntry_at _ (X ++ zents old g) (last_raw old g) c (Y ++ T)) by done. simpl_bind.
  cbn [headersize zle len prevrawlensize prevrawlen]. rewrite <- rawlen_split, Hb by apply Hc.
  pose proof (rawlen_ge2 c (ent_body _ _ Hc)). rewrite uwrap_small by lia.
  destruct (cascade_step_ok (X ++ zents old g) (last_raw old g) c Y T (last_raw new (grown <$> g)))
    as (Y' & zl' & HY' & Hmove & Hstore); [done | done | done | lia | rewrite zlen_app, zlen_zents; lia |].
  cbn [plsize]. rewrite !zlen_app, !zlen_zents in *.
  replace (zlen X + zsize g + rawlen c + zlen Y) with p in * by lia. rewrite Hmove. simpl_bind.
  pose proof (new_prevlen old new g Hg Hs Hst) as Hnew.
  assert ((if last_raw old g =? 0 then zipStorePrevEntryLength zl' (p - (rawlen c + cascade_delta)) new
    else zipStorePrevEntryLength zl' (p - (rawlen c + cascade_delta)) (last_raw old g + cascade_delta)) =
    zipStorePrevEntryLength zl' (p - (rawlen c + 4)) (last_raw new (grown <$> g))) as ->.
  { rewrite <- Hnew. unfold cascade_delta. by destruct (last_raw old g =? 0). }
  rewrite Hstore. simpl_bind. rewrite <- !app_assoc. unfold cascade_delta. rewrite IH; try done.
  - rewrite fmap_app, zents_app. cbn [fmap list_fmap zents]. by rewrite app_nil_r, <- !app_assoc.
  - lia.
  - lia.
  - lia.
  - intros Hne. pose proof (last_raw_range 0 g) as Hrange. rewrite (last_raw_ne old 0 g Hne) in *.
    assert (zok 0 g) as Hg0.
    { destruct g as [|d g']; [done|]. destruct Hg as [Hd Hg']. split; [|done].
      split; [apply Hd | lia | intros; lia]. }
    specialize (Hrange Hg0 ltac:(lia)). rewrite uwrap_small; eval_pow2; lia.
Qed.

(** ** The whole update *)

Lemma store_last (m : list Z) n x : 0 < n -> zlen m = n -> exists a, store8 m (n - 1) x = Some (a ++ [u8 x]) /\
  zlen a = n - 1 /\ exists y, m = a ++ [y].
Proof.
  intros Hn Hm. destruct m as [|y a _] using rev_ind; [change (zlen (@nil Z)) with 0 in Hm; lia|].
  rewrite zlen_snoc in Hm. exists a. split_and!; [|lia|by exists y]. apply store8_mid. lia.
Qed.

(** A ziplist that grows: the new bytes are arbitrary but the last one. *)
Lemma ziplistResize_grow `{Allocator} T t c R n : T = 10 + zlen R -> T < n -> n < UINT32_MAX ->
  exists J, ziplistResize (hdr T t c ++ R) n = Some (hdr n t c ++ R ++ J ++ [ZIP_END]) /\
    zlen J = n - T - 1.
Proof.
  intros HT Hlt Hn. unfold ziplistResize. rewrite (proj2 (Z.ltb_lt _ _)) by done.
  pose proof (zlen_nonneg R). destruct (zrealloc_grow (hdr T t c ++ R) n) as (tl & -> & _ & Htl).
  { rewrite zlen_app, zlen_hdr. lia. }
  rewrite zlen_app, zlen_hdr in Htl. rewrite <- app_assoc, set_hdr_bytes. simpl_bind.
  destruct tl as [|y J _] using rev_ind; [change (zlen (@nil Z)) with 0 in Htl; lia|].
  rewrite zlen_snoc in Htl. exists J. split; [|lia].
  rewrite !app_assoc. rewrite store8_mid by (rewrite !zlen_app, zlen_hdr; lia).
  by rewrite <- !app_assoc.
Qed.

(** A ziplist that keeps its size. *)
Lemma ziplistResize_same `{Allocator} T t c R n : T = 11 + zlen R -> n = T -> n < UINT32_MAX ->
  ziplistResize (hdr T t c ++ R ++ [ZIP_END]) n = Some (hdr n t c ++ R ++ [ZIP_END]).
Proof.
  intros HT -> Hn. unfold ziplistResize. rewrite (proj2 (Z.ltb_lt _ _)) by done.
  destruct (zrealloc_grow (hdr T t c ++ R ++ [ZIP_END]) T) as (tl & -> & _ & Htl);
    rewrite !zlen_app, zlen_hdr in *; change (zlen [ZIP_END]) with 1 in *; [lia|].
  assert (tl = []) as -> by (apply zlen_eq_nil; lia). rewrite app_nil_r, set_hdr_bytes. simpl_bind.
  rewrite app_assoc, store8_mid by (rewrite zlen_app, zlen_hdr; lia). by rewrite <- app_assoc.
Qed.

(** Room for [n] bytes before [W], at the end of the ziplist. *)
Lemma open_gap A W J n dst src len : zlen J = n - 1 -> 0 < n -> src = zlen A -> dst = zlen A + n -> len = zlen W ->
  exists Y, memmove (A ++ W ++ [ZIP_END] ++ J ++ [ZIP_END]) dst src len = Some (A ++ Y ++ W ++ [ZIP_END]) /\
    zlen Y = n.
Proof.
  intros HJ Hn -> -> ->. pose proof (zlen_nonneg W).
  destruct (split_at_len (W ++ [ZIP_END] ++ J) n) as (Y & V & HYV & HY & HV);
    rewrite !zlen_app in *; change (zlen [ZIP_END]) with 1 in *; [lia|].
  exists Y. split; [|done]. rewrite (app_assoc A Y).
  refine (memmove_at _ A W ([ZIP_END] ++ J ++ [ZIP_END]) (A ++ Y) V [ZIP_END] _ _ _ eq_refl _ _ _ _ _).
  - rewrite <- app_assoc, (app_assoc Y V), <- HYV. by rewrite <- !app_assoc.
  - lia.
  - done.
  - rewrite zlen_app. lia.
  - done.
Qed.

(** The offset of the last of the entries [es] that start after the bytes [P]. *)
Definition seam_tail (P : list Z) (es : list zent) : Z := 10 + zlen P + zsize es - last_raw 0 es.

(** The tail offset is moved by the growth of the entries before the last one. *)
Lemma cascade_tail P e g r old new poff : zok old (g ++ r) -> too_small new g -> g <> [] ->
  let t := seam_tail P (e :: g ++ r) in
  let extra := 0 + 4 * zlen g in
  (if t =? last_offset (10 + zlen P + rawlen e) poff g then t + extra - 4 else t + extra) =
    seam_tail P (e :: (grown <$> g) ++ r).
Proof.
  intros [Hg Hr]%zok_app Hs Hne. cbn zeta. unfold seam_tail. cbn [zsize last_raw].
  rewrite !zsize_app, (zsize_grown new), !last_raw_app by done.
  assert (last_offset (10 + zlen P + rawlen e) poff g = 10 + zlen P + rawlen e + zsize g - last_raw 0 g) as ->
    by (by destruct g).
  rewrite (last_raw_ne (rawlen e) 0 g Hne), (last_raw_ne (rawlen e) new (grown <$> g)) by (by destruct g).
  rewrite (last_grown new 0 g) by done.
  pose proof (last_raw_pos _ g Hg Hne) as Hpos. rewrite (last_raw_ne _ 0 g Hne) in Hpos.
  destruct (decide (r = [])) as [->|Hr0].
  - cbn [zsize last_raw]. rewrite (proj2 (Z.eqb_eq _ _)) by lia. lia.
  - rewrite (last_raw_ne (last_raw 0 g) 0 r), (last_raw_ne (last_raw 0 g + 4) 0 r) by done.
    pose proof (last_raw_le _ r Hr Hr0) as Hle. rewrite (last_raw_ne _ 0 r Hr0) in Hle.
    rewrite (proj2 (Z.eqb_neq _ _)) by lia. lia.
Qed.

(** After the scan: the tail offset, the room, the moves. *)
Lemma cascade_grow_ok `{Allocator} P q old e g r c poff : let new := rawlen e in
  ent_ok q e -> zok old (g ++ r) -> too_small new g -> g <> [] -> old = 0 \/ new = old + 4 ->
  11 + zlen P + zsize (e :: g ++ r) + 4 * zlen (g ++ r) < UINT32_MAX ->
  let T := 11 + zlen P + zsize (e :: g ++ r) in
  let t := seam_tail P (e :: g ++ r) in
  let start := 10 + zlen P + new in
  let zl := hdr T t c ++ P ++ ent q e ++ zents old g ++ zents (last_raw new (grown <$> g)) r ++ [ZIP_END] in
  let extra := 0 + 4 * zlen g in
  let p := start + zsize g in
  let off := last_offset start poff g in
  0 <= t < 2 ^ 32 ->
  (zl ← (if t =? off then
           if negb (extra - cascade_delta =? 0) then
             tail ← ZIPLIST_TAIL_OFFSET zl; set_ZIPLIST_TAIL_OFFSET zl (tail + extra - cascade_delta)
           else Some zl
         else tail ← ZIPLIST_TAIL_OFFSET zl; set_ZIPLIST_TAIL_OFFSET zl (tail + extra));
   zl ← ziplistResize zl (T + extra);
   zl ← memmove zl (p + extra) p (T - p - 1);
   cascade_move (0 + length g) new zl (p + extra) off) =
  let es' := e :: (grown <$> g) ++ r in
  Some (hdr (11 + zlen P + zsize es') (seam_tail P es') c ++
      P ++ ent q e ++ zents new ((grown <$> g) ++ r) ++ [ZIP_END]).
Proof.
  intros new He Hk Hs Hne Hst Hlt T t start zl extra p off Ht. unfold UINT32_MAX in Hlt.
  pose proof (zlen_nonneg P) as HP. pose proof (rawlen_ge2 e (ent_body _ _ He)) as Hre.
  pose proof (cascade_tail P e g r old new poff Hk Hs Hne) as Htail. cbv zeta in Htail.
  fold t new start extra off in Htail. apply zok_app in Hk as [Hg Hr].
  pose proof (zsize_nonneg _ _ Hg) as Hzg. pose proof (zsize_nonneg _ _ Hr) as Hzr.
  pose proof (zlen_nonneg g) as Hng. pose proof (zlen_nonneg r) as Hnr.
  assert (0 < zlen g) as Hpos by (destruct g; [done|]; rewrite zlen_cons in *; pose proof (zlen_nonneg g); lia).
  cbn [zsize] in Hlt. rewrite zsize_app, zlen_app in Hlt.
  set (R := P ++ ent q e ++ zents old g ++ zents (last_raw new (grown <$> g)) r ++ [ZIP_END]) in zl.
  assert ((if t =? off then
           if negb (extra - cascade_delta =? 0) then
             tail ← ZIPLIST_TAIL_OFFSET zl; set_ZIPLIST_TAIL_OFFSET zl (tail + extra - cascade_delta)
           else Some zl
         else tail ← ZIPLIST_TAIL_OFFSET zl; set_ZIPLIST_TAIL_OFFSET zl (tail + extra)) =
    Some (hdr T (seam_tail P (e :: (grown <$> g) ++ r)) c ++ R)) as ->.
  { unfold zl. rewrite hdr_tail by done. simpl_bind. rewrite !set_hdr_tail. unfold cascade_delta.
    rewrite <- Htail. destruct (t =? off); [|done]. destruct (Z.eqb_spec (extra - 4) 0) as [H0|]; [|done].
    cbn [negb]. do 3 f_equal. lia. }
  simpl_bind. destruct (ziplistResize_grow T (seam_tail P (e :: (grown <$> g) ++ r)) c R (T + extra)) as (J & -> & HJ).
  { unfold T, R. rewrite !zlen_app, zlen_ent, !zlen_zents. cbn [zsize]. rewrite zsize_app.
    change (zlen [ZIP_END]) with 1. lia. }
  { lia. }
  { unfold T, UINT32_MAX. cbn [zsize]. rewrite zsize_app. lia. }
  simpl_bind. set (t' := seam_tail P (e :: (grown <$> g) ++ r)).
  set (X := hdr (T + extra) t' c ++ P ++ ent q e). set (W := zents (last_raw new (grown <$> g)) r).
  assert (hdr (T + extra) t' c ++ R ++ J ++ [ZIP_END] =
    (X ++ zents old g) ++ W ++ [ZIP_END] ++ J ++ [ZIP_END]) as -> by (unfold X, R, W; by rewrite <- !app_assoc).
  assert (zlen X = start) as HX by (unfold X, start, new; rewrite !zlen_app, zlen_hdr, zlen_ent; lia).
  destruct (open_gap (X ++ zents old g) W J extra (p + extra) p (T - p - 1)) as (Y & -> & HY).
  { lia. } { lia. } { rewrite zlen_app, zlen_zents. lia. } { rewrite zlen_app, zlen_zents. lia. }
  { unfold T, p, W, start, new. rewrite zlen_zents. cbn [zsize]. rewrite zsize_app. lia. }
  simpl_bind. rewrite <- app_assoc. cbn [Nat.add]. rewrite cascade_move_ok; try done.
  - cbn zeta. rewrite zents_app. unfold X, W, T, extra. cbn [zsize].
    rewrite !zsize_app, (zsize_grown new) by done. rewrite <- !app_assoc. do 3 f_equal. lia.
  - lia.
  - unfold p, start, new in *. eval_pow2. lia.
  - intros _. unfold off, last_offset. destruct g; [done|]. lia.
Qed.

Lemma ziplistCascadeUpdate_ok `{Allocator} P q old e k c : ent_ok q e -> zok old k -> stale old (rawlen e) ->
  11 + zlen P + zsize (e :: k) + 4 * zlen k < UINT32_MAX ->
  let k' := cascade (rawlen e) k in
  ziplistCascadeUpdate (hdr (11 + zlen P + zsize (e :: k)) (seam_tail P (e :: k)) c ++
      P ++ ent q e ++ zents old k ++ [ZIP_END]) (10 + zlen P) =
  Some (hdr (11 + zlen P + zsize (e :: k')) (seam_tail P (e :: k')) c ++
      P ++ ent q e ++ zents (rawlen e) k' ++ [ZIP_END]).
Proof.
  intros He Hk Hst Hlt k'. pose proof (zsize_nonneg _ _ Hk) as Hzk. pose proof (rawlen_ge2 e (ent_body _ _ He)) as Hre.
  pose proof (zlen_nonneg P) as HP. pose proof (zlen_nonneg k) as Hnk. cbn [zsize] in Hlt. unfold UINT32_MAX in Hlt.
  assert (0 <= seam_tail P (e :: k) < 2 ^ 32) as Ht.
  { unfold seam_tail. cbn [zsize last_raw].
    destruct (decide (k = [])) as [->|Hne]; [cbn [zsize last_raw]; eval_pow2; lia|].
    pose proof (last_raw_le _ k Hk Hne) as Hle. pose proof (last_raw_pos _ k Hk Hne) as Hge.
    rewrite (last_raw_ne _ (rawlen e) k Hne) in Hle, Hge. eval_pow2. lia. }
  unfold ziplistCascadeUpdate. rewrite hdr_bytes by (cbn [zsize]; eval_pow2; lia). simpl_bind.
  rewrite hdr_tail by done. simpl_bind. set (t := seam_tail P (e :: k)) in *. set (T := 11 + zlen P + zsize (e :: k)) in *.
  set (M := hdr T t c ++ _).
  assert (M = (hdr T t c ++ P) ++ ent q e ++ (zents old k ++ [ZIP_END])) as HM by (unfold M; by rewrite <- app_assoc).
  assert (10 + zlen P = zlen (hdr T t c ++ P)) as Hp by (by rewrite zlen_app, zlen_hdr).
  destruct (load8_ent _ _ _ _ _ _ HM Hp He) as (b & -> & Hb). simpl_bind. rewrite Hb.
  rewrite (zipEntry_at _ _ _ _ _ _ HM Hp He). simpl_bind. cbn [headersize zle len].
  rewrite <- rawlen_split by apply He. rewrite uwrap_small by (eval_pow2; lia).
  rewrite HM, (app_assoc _ (ent q e)). set (A := (hdr T t c ++ P) ++ ent q e).
  assert (zlen A = 10 + zlen P + rawlen e) as HzA by (unfold A; rewrite !zlen_app, zlen_hdr, zlen_ent; lia).
  rewrite <- HzA. rewrite cascade_scan_ok; try done.
  2: { lia. } 2: { lia. } 2: { unfold T. cbn [zsize]. lia. } 2: { unfold T. cbn [zsize]. eval_pow2. lia. }
  2: { unfold M. pose proof (zok_ge _ _ Hk). rewrite !length_app. pose proof (zlen_zents old k). unfold zlen in *. lia. }
  simpl_bind. cbn [cs_zl cs_p cs_extra cs_cnt cs_prevoffset]. unfold k', cascade.
  pose proof (growing_app (rawlen e) k) as Happ. pose proof (growing_small (rawlen e) k) as Hsm.
  destruct (growing (rawlen e) k) as [g r]. cbn [fst snd] in *. subst k.
  destruct (decide (g = [])) as [->|Hne].
  { change (0 + 4 * zlen [] =? 0) with true. cbv iota. cbn [fmap list_fmap app last_raw zents].
    unfold A. by rewrite <- !app_assoc. }
  assert (0 < zlen g) by (destruct g; [done|]; rewrite zlen_cons; pose proof (zlen_nonneg g); lia).
  rewrite (proj2 (Z.eqb_neq _ _)) by lia.
  assert (old = 0 \/ rawlen e = old + 4) as Hst'.
  { destruct Hst as [|[|Hle]]; [by left | by right |]. destruct g as [|d g]; [done|]. exfalso.
    destruct Hsm as (H254 & Hd & _). destruct Hk as [Hd' _]. pose proof (ent_small _ _ Hd' Hd). lia. }
  rewrite HzA. unfold A. rewrite <- !app_assoc. by apply (cascade_grow_ok P q old e g r c).
Qed.

(** ** Property *)

(** C37. __ziplistCascadeUpdate(): when the size of the entry at 'p' has changed (or a former
    head follows it), the prevlen fields after it are updated. The fields that are too small
    grow to five bytes, one after the other as long as the sizes change, the first field that
    is large enough keeps its size, and nothing else is touched. The chain, the total size and
    the tail offset are right again, and the ziplist grows by at most four bytes per entry. *)
Theorem ziplistCascadeUpdate_correct `{Allocator} P q old e k c : ent_ok q e -> zok old k -> stale old (rawlen e) ->
  11 + zlen P + zsize (e :: k) + 4 * zlen k < UINT32_MAX ->
  exists k', ziplistCascadeUpdate (hdr (11 + zlen P + zsize (e :: k)) (seam_tail P (e :: k)) c ++
      P ++ ent q e ++ zents old k ++ [ZIP_END]) (10 + zlen P) =
    Some (hdr (11 + zlen P + zsize (e :: k')) (seam_tail P (e :: k')) c ++
      P ++ ent q e ++ zents (rawlen e) k' ++ [ZIP_END]) /\
    zok (rawlen e) k' /\ body <$> k' = body <$> k /\ zsize k <= zsize k' <= zsize k + 4 * zlen k /\
    exists g r, k = g ++ r /\ k' = (grown <$> g) ++ r /\ too_small (rawlen e) g.
Proof.
  intros He Hk Hst Hlt. exists (cascade (rawlen e) k). split; [by apply ziplistCascadeUpdate_ok|].
  pose proof (rawlen_ge2 e (ent_body _ _ He)). pose proof (zlen_nonneg P). cbn [zsize] in Hlt. unfold UINT32_MAX in Hlt.
  split_and!; [| apply bodies_cascade | apply zsize_cascade | apply zsize_cascade |].
  - apply (zok_cascade old); [done | lia | eval_pow2; lia].
  - exists (fst (growing (rawlen e) k)), (snd (growing (rawlen e) k)).
    split_and!; [by rewrite growing_app | done | apply growing_small].
Qed.

(** Three entries of 250 characters, the first of which has just got a five byte field. *)
Definition cascade_body : list Z := body_of (replicate 250 97).
Definition cascade_entry (b : bool) : zent := {| big := b; body := cascade_body |}.

Lemma cascade_entry_ok b prev : 0 <= prev < 254 -> ent_ok prev (cascade_entry b).
Proof.
  intros Hp. split; [apply body_of_ok; [by apply Forall_replicate | done] | eval_pow2; lia | intros; lia].
Qed.

Lemma ziplistCascadeUpdate_correct_witness :
  let e := cascade_entry true in let k := [cascade_entry false; cascade_entry false] in
  exists zl' k', @ziplistCascadeUpdate exact_allocator (hdr (11 + zlen (@nil Z) + zsize (e :: k)) (seam_tail [] (e :: k)) 3 ++
    [] ++ ent 0 e ++ zents 253 k ++ [ZIP_END]) 10 = Some zl' /\ zok (rawlen e) k' /\ body <$> k' = body <$> k.
Proof.
  intros e k. destruct (@ziplistCascadeUpdate_correct exact_allocator [] 0 253 e k 3) as (k' & Hcas & Hok & Hb & _).
  - apply cascade_entry_ok. lia.
  - split; [apply cascade_entry_ok; lia|]. split; [|exact I]. apply cascade_entry_ok. vm_compute. split; congruence.
  - right. left. vm_compute. reflexivity.
  - vm_compute. reflexivity.
  - eexists _, k'. exact (conj Hcas (conj Hok Hb)).
Defined.
