(* ===== verification/ZiplistUpdate.v ===== *)
(** * Ziplists: insertion, deletion, replacement, merging

    The functions of ziplist.c that change a ziplist, related to the list of values that it
    holds. *)
From S2P Require Import Prelude.
From S2P Require Import Util.
From S2P Require Import Listpack.
From S2P Require Import Ziplist.
From S2P Require Import ZiplistNav.
From S2P Require Import ZiplistCascade.

(** ** Deletion *)

(** for (i = 0; p[0] != ZIP_END && i < num; i++) { ... }: 'p' and 'deleted' *)
Fixpoint ziplistDelete_skip (fuel : nat) (zl : list Z) (zlbytes num : Z) (p i : Z) : option (Z * Z) :=
  b ← load8 zl p;
  if negb (b =? ZIP_END) && (i <? num) then
    match fuel with
    | O => None
    | S fuel =>
        rawlen ← zipRawEntryLengthSafe zl zlbytes p;
        ziplistDelete_skip fuel zl zlbytes num (p + rawlen) (i + 1)
    end
  else Some (p, i).

(** __ziplistDelete() *)
Definition ziplistDelete_num `{Allocator} (zl : list Z) (p num : Z) : option (list Z) :=
  zlbytes ← ZIPLIST_BYTES zl;
  first ← zipEntry zl p;
  '(p, deleted) ← ziplistDelete_skip (length zl) zl zlbytes num p 0;
  if ptr first <=? p then
    let totlen := u32 (p - ptr first) in
    if 0 <? totlen then
      b ← load8 zl p;
      '(zl, set_tail, nextdiff) ←
        (if negb (b =? ZIP_END) then
           nextdiff ← zipPrevLenByteDiff zl p (prevrawlen first);
           let p := p - nextdiff in
           if (ptr first <=? p) && (p <? zlbytes - 1) then
             '(zl, _) ← zipStorePrevEntryLength zl p (prevrawlen first);
             tail_offset ← ZIPLIST_TAIL_OFFSET zl;
             let set_tail := u32 (tail_offset - totlen) in
             tail ← assert_zipEntrySafe zl zlbytes p true;
             b ← load8 zl (p + u32 (headersize tail + len tail));
             let set_tail := if negb (b =? ZIP_END) then u32 (set_tail + nextdiff) else set_tail in
             let bytes_to_move := zlbytes - p - 1 in
             zl ← memmove zl (ptr first) p bytes_to_move;
             Some (zl, set_tail, nextdiff)
           else None
         else Some (zl, u32 (ptr first - prevrawlen first), 0));
      let offset := ptr first in
      let zlbytes := u64 (zlbytes - u32 (totlen - nextdiff)) in
      zl ← ziplistResize zl zlbytes;
      let p := offset in
      zl ← ZIPLIST_INCR_LENGTH zl (- deleted);
      if set_tail <=? zlbytes - ZIPLIST_END_SIZE then
        zl ← set_ZIPLIST_TAIL_OFFSET zl set_tail;
        if negb (nextdiff =? 0) then ziplistCascadeUpdate zl p else Some zl
      else None
    else Some zl
  else None.

(** The ziplist and '*p'. *)
Definition ziplistDelete `{Allocator} (zl : list Z) (p : Z) : option (list Z * Z) :=
  let offset := p in
  zl ← ziplistDelete_num zl p 1;
  Some (zl, offset).

Definition ziplistDeleteRange `{Allocator} (zl : list Z) (index num : Z) : option (list Z) :=
  p ← ziplistIndex zl index;
  match p with
  | None => Some zl
  | Some p => ziplistDelete_num zl p num
  end.

(** ** Insertion *)

(** The encoding of 's' (0 for a string) and its integer value; 123456789 if it has none. *)
Definition zip_encoding (s : list Z) : Z * Z :=
  match zipTryEncoding s with
  | Some (value, encoding) => (encoding, value)
  | None => (0, 123456789)
  end.

(** 'reqlen' without the prevlen field *)
Definition zip_reqlen (s : list Z) : option Z :=
  let '(encoding, _) := zip_encoding s in
  reqlen ← match zipTryEncoding s with
           | Some _ => zipIntSize encoding
           | None => Some (zlen s)
           end;
  Some (reqlen + zipStoreEntryEncoding_size encoding (zlen s)).

(** p += zipStoreEntryEncoding(p,encoding,slen); if (ZIP_IS_STR(encoding)) memcpy(p,s,slen);
    else zipSaveInteger(p,value,encoding); *)
Definition zip_write (zl : list Z) (p : Z) (s : list Z) : option (list Z) :=
  let '(encoding, value) := zip_encoding s in
  '(zl, n) ← zipStoreEntryEncoding zl p encoding (zlen s);
  let p := p + n in
  if ZIP_IS_STR encoding then mem_store zl p s else zipSaveInteger zl p value encoding.

(** __ziplistInsert() *)
Definition ziplistInsert `{Allocator} (zl : list Z) (p : Z) (s : list Z) : option (list Z) :=
  curlen ← ZIPLIST_BYTES zl;
  b ← load8 zl p;
  prevlen ← (if negb (b =? ZIP_END) then
               '(_, prevlen) ← ZIP_DECODE_PREVLEN zl p; Some prevlen
             else
               ptail ← ZIPLIST_ENTRY_TAIL zl;
               bt ← load8 zl ptail;
               if negb (bt =? ZIP_END) then zipRawEntryLengthSafe zl curlen ptail else Some 0);
  reqlen ← zip_reqlen s;
  let reqlen := reqlen + zipStorePrevEntryLength_size prevlen in
  nextdiff ← (if negb (b =? ZIP_END) then zipPrevLenByteDiff zl p (u32 reqlen) else Some 0);
  let forcelarge := (nextdiff =? -4) && (reqlen <? 4) in
  let nextdiff := if forcelarge then 0 else nextdiff in
  let offset := p in
  let newlen := u64 (curlen + reqlen + nextdiff) in
  zl ← ziplistResize zl newlen;
  b ← load8 zl p;
  zl ← (if negb (b =? ZIP_END) then
          zl ← memmove zl (p + reqlen) (p - nextdiff) (curlen - offset - 1 + nextdiff);
          '(zl, _) ← (if forcelarge then zipStorePrevEntryLengthLarge zl (p + reqlen) (u32 reqlen)
                      else zipStorePrevEntryLength zl (p + reqlen) (u32 reqlen));
          tail_offset ← ZIPLIST_TAIL_OFFSET zl;
          zl ← set_ZIPLIST_TAIL_OFFSET zl (tail_offset + reqlen);
          tail ← assert_zipEntrySafe zl newlen (p + reqlen) true;
          b ← load8 zl (p + (reqlen + headersize tail + len tail));
          if negb (b =? ZIP_END) then
            tail_offset ← ZIPLIST_TAIL_OFFSET zl;
            set_ZIPLIST_TAIL_OFFSET zl (tail_offset + nextdiff)
          else Some zl
        else set_ZIPLIST_TAIL_OFFSET zl p);
  zl ← (if negb (nextdiff =? 0) then ziplistCascadeUpdate zl (p + reqlen) else Some zl);
  '(zl, n) ← zipStorePrevEntryLength zl p prevlen;
  zl ← zip_write zl (p + n) s;
  ZIPLIST_INCR_LENGTH zl 1.

(** The 'where' of ziplistPush() *)
Inductive zl_where := ZIPLIST_HEAD | ZIPLIST_TAIL.

Definition ziplistPush `{Allocator} (zl s : list Z) (where_ : zl_where) : option (list Z) :=
  p ← match where_ with ZIPLIST_HEAD => Some ZIPLIST_ENTRY_HEAD | ZIPLIST_TAIL => ZIPLIST_ENTRY_END zl end;
  ziplistInsert zl p s.

Definition ziplistReplace `{Allocator} (zl : list Z) (p : Z) (s : list Z) : option (list Z) :=
  entry ← zipEntry zl p;
  reqlen ← zip_reqlen s;
  if u32 reqlen =? u32 (lensize entry + len entry) then
    zip_write zl (p + prevrawlensize entry) s
  else
    '(zl, p) ← ziplistDelete zl p;
    ziplistInsert zl p s.

(** ** Merging *)

(** [same] tells if '*first' and '*second' are the same pointer. The result is NULL or the
    merged ziplist, with 'append': whether '*first' is the one that is kept. *)
Definition ziplistMerge `{Allocator} (first second : option (list Z)) (same : bool)
    : option (option (list Z * bool)) :=
  match first, second with
  | Some first, Some second =>
      if same then Some None
      else
        first_bytes ← ZIPLIST_BYTES first;
        first_len ← ZIPLIST_LENGTH first;
        second_bytes ← ZIPLIST_BYTES second;
        second_len ← ZIPLIST_LENGTH second;
        let append := second_len <=? first_len in
        let '(target, target_bytes, source, source_bytes) :=
          if append then (first, first_bytes, second, second_bytes)
          else (second, second_bytes, first, first_bytes) in
        let zlbytes := u64 (first_bytes + second_bytes - ZIPLIST_HEADER_SIZE - ZIPLIST_END_SIZE) in
        let zllength := first_len + second_len in
        let zllength := if zllength <? UINT16_MAX then zllength else UINT16_MAX in
        if zlbytes <? UINT32_MAX then
          first_offset ← ZIPLIST_TAIL_OFFSET first;
          second_offset ← ZIPLIST_TAIL_OFFSET second;
          let target := zrealloc target zlbytes in
          target ← (if append then
                      bs ← mem_load source ZIPLIST_HEADER_SIZE (source_bytes - ZIPLIST_HEADER_SIZE);
                      mem_store target (target_bytes - ZIPLIST_END_SIZE) bs
                    else
                      target ← memmove target (source_bytes - ZIPLIST_END_SIZE) ZIPLIST_HEADER_SIZE
                                 (target_bytes - ZIPLIST_HEADER_SIZE);
                      bs ← mem_load source 0 (source_bytes - ZIPLIST_END_SIZE);
                      mem_store target 0 bs);
          target ← set_ZIPLIST_BYTES target zlbytes;
          target ← set_ZIPLIST_LENGTH target zllength;
          target ← set_ZIPLIST_TAIL_OFFSET target
                     (first_bytes - ZIPLIST_END_SIZE + (second_offset - ZIPLIST_HEADER_SIZE));
          target ← ziplistCascadeUpdate target first_offset;
          Some (Some (target, append))
        else None
  | _, _ => Some None
  end.

(** ** Deletion *)

Lemma incr_length_ok T t cnt R n d : count_ok cnt n -> 0 <= n -> 0 <= n + d -> d <= 1 ->
  exists cnt', ZIPLIST_INCR_LENGTH (hdr T t cnt ++ R) d = Some (hdr T t cnt' ++ R) /\ count_ok cnt' (n + d).
Proof.
  intros Hc Hn Hnd Hd. unfold ZIPLIST_INCR_LENGTH. rewrite hdr_length by (by apply (count_ok_range cnt n)).
  simpl_bind. unfold UINT16_MAX. destruct Hc as [->|[-> Hlt]].
  - exists LP_HDR_NUMELE_UNKNOWN. split; [done | by left].
  - unfold LP_HDR_NUMELE_UNKNOWN in Hlt. rewrite (proj2 (Z.ltb_lt _ _)) by done. rewrite set_hdr_length.
    exists (n + d). split; [done|]. unfold count_ok, LP_HDR_NUMELE_UNKNOWN. lia.
Qed.

Lemma ziplistResize_shrink `{Allocator} T t c R x S n : n = 11 + zlen R -> n < UINT32_MAX ->
  ziplistResize (hdr T t c ++ R ++ x :: S) n = Some (hdr n t c ++ R ++ [ZIP_END]).
Proof.
  intros -> Hn. unfold ziplistResize. rewrite (proj2 (Z.ltb_lt _ _)) by done.
  assert (hdr T t c ++ R ++ x :: S = (hdr T t c ++ R ++ [x]) ++ S) as -> by (by rewrite <- !app_assoc).
  rewrite zrealloc_shrink by (rewrite !zlen_app, zlen_hdr; change (zlen [x]) with 1; lia).
  rewrite set_hdr_bytes. simpl_bind. rewrite app_assoc, store8_mid by (rewrite zlen_app, zlen_hdr; lia).
  by rewrite <- app_assoc.
Qed.

(** The entries that are deleted. *)
Lemma delete_skip_ok zl fuel l k num i : zl_repr zl (l ++ k) -> (length k <= fuel)%nat -> i <= num ->
  ziplistDelete_skip fuel zl (11 + zsize (l ++ k)) num (zpos l) i =
  Some (zpos (l ++ take (Z.to_nat (num - i)) k), i + zlen (take (Z.to_nat (num - i)) k)).
Proof.
  revert fuel l i. induction k as [|e k IH]; intros fuel l i Hr Hf Hi.
  { rewrite take_nil, app_nil_r in *. change (zlen []) with 0. rewrite Z.add_0_r.
    destruct fuel; cbn [ziplistDelete_skip]; by rewrite (repr_end zl l Hr). }
  destruct fuel as [|fuel]; [simpl in Hf; lia|]. cbn [ziplistDelete_skip].
  destruct (repr_load8 zl l e k Hr) as (b & -> & Hb). simpl_bind. rewrite Hb. cbn [negb andb].
  destruct (Z.ltb_spec i num) as [Hlt|Hge].
  - rewrite (repr_rawlen_safe zl l e k Hr). simpl_bind. rewrite <- zpos_snoc.
    rewrite (cons_middle l e k) in Hr |- *. rewrite IH by (done || simpl in Hf; lia).
    replace (Z.to_nat (num - i)) with (S (Z.to_nat (num - (i + 1)))) by lia. cbn [take].
    rewrite <- cons_middle, zlen_cons. do 2 f_equal. lia.
  - replace (Z.to_nat (num - i)) with 0%nat by lia. rewrite take_0, app_nil_r. change (zlen []) with 0.
    by rewrite Z.add_0_r.
Qed.

(** The field that an entry needs after an entry of [q] bytes. *)
Definition resized (q : Z) (f : zent) : zent := {| big := negb (q <? 254); body := body f |}.

Lemma resized_ok q old f : ent_ok old f -> 0 <= q < 2 ^ 32 -> ent_ok q (resized q f).
Proof.
  intros Hf Hq. split; [apply Hf | done |]. cbn. destruct (Z.ltb_spec q 254); [lia|done].
Qed.

Lemma rawlen_resized q f : rawlen (resized q f) = rawlen f + (plsize (negb (q <? 254)) - plsize (big f)).
Proof. unfold rawlen. cbn. lia. Qed.

Lemma zipPrevLenByteDiff_at M X prev e Y p q : M = X ++ ent prev e ++ Y -> p = zlen X -> ent_ok prev e ->
  zipPrevLenByteDiff M p q = Some (plsize (negb (q <? 254)) - plsize (big e)).
Proof.
  intros HM Hp He. unfold zipPrevLenByteDiff. destruct (ent_body_at _ _ _ _ _ _ HM Hp He) as (-> & _).
  simpl_bind. rewrite prevlen_size_spec. by destruct (q <? 254), (big e).
Qed.

Lemma stale_resized q f : stale (rawlen f) (rawlen (resized q f)).
Proof.
  rewrite rawlen_resized. unfold stale. destruct (q <? 254), (big f); cbn; lia.
Qed.

(** The entry [f] and what follows it take the place of [D], with the field for [q]. *)
Lemma close_gap C D lp f Y q : ent_ok lp f -> 0 <= q ->
  let nd := plsize (negb (q <? 254)) - plsize (big f) in
  let M := C ++ D ++ ent lp f ++ Y ++ [ZIP_END] in
  let p := zlen C + zlen D - nd in
  nd < zlen D ->
  exists M1 D' x S, zipStorePrevEntryLength M p q = Some (M1, plsize (negb (q <? 254))) /\
    M1 = C ++ D' ++ ent q (resized q f) ++ Y ++ [ZIP_END] /\ zlen D' = zlen D - nd /\
    memmove M1 (zlen C) p (zlen M - p - 1) = Some (C ++ ent q (resized q f) ++ Y ++ x :: S).
Proof.
  intros Hf Hq nd M p Hnd. set (b := negb (q <? 254)) in *.
  destruct (split_at_len (D ++ plen (big f) lp) (zlen D - nd)) as (D' & F & HDF & HD' & HF).
  { rewrite zlen_app, zlen_plen. pose proof (plsize_range b). pose proof (zlen_nonneg D). unfold nd in *. lia. }
  rewrite zlen_app, zlen_plen in HF.
  assert (M = (C ++ D') ++ F ++ (body f ++ Y ++ [ZIP_END])) as HM.
  { unfold M, ent. transitivity (C ++ (D ++ plen (big f) lp) ++ body f ++ Y ++ [ZIP_END]);
      [by rewrite <- !app_assoc | by rewrite HDF, <- !app_assoc]. }
  exists (C ++ D' ++ ent q (resized q f) ++ Y ++ [ZIP_END]), D'.
  set (W := ent q (resized q f) ++ Y).
  destruct (split_at_len (D' ++ W ++ [ZIP_END]) (zlen W)) as (V & S' & HVS & HV & HS).
  { rewrite !zlen_app. pose proof (zlen_nonneg D'). pose proof (zlen_nonneg [ZIP_END]). pose proof (zlen_nonneg W). lia. }
  destruct S' as [|x S].
  { rewrite !zlen_app in HS. change (zlen (@nil Z)) with 0 in HS. change (zlen [ZIP_END]) with 1 in HS. lia. }
  exists x, S. split_and!; [| done | done |].
  - rewrite HM, (store_prev_at (C ++ D') F _ q p b).
    + unfold ent. cbn [resized big body]. by rewrite <- !app_assoc.
    + rewrite zlen_app. unfold p. lia.
    + done.
    + rewrite HF. unfold nd. lia.
    + done.
  - rewrite (app_assoc _ Y (x :: S)). fold W.
    refine (memmove_at _ (C ++ D') W [ZIP_END] C V (x :: S) _ _ _ _ _ _ _ _ _).
    + unfold W. by rewrite <- !app_assoc.
    + rewrite <- HVS. unfold W. by rewrite <- !app_assoc.
    + done.
    + rewrite zlen_app. unfold p. lia.
    + done.
    + unfold M, W, p. rewrite !zlen_app, !zlen_ent, rawlen_resized. fold b. change (zlen [ZIP_END]) with 1.
      unfold nd. lia.
Qed.

(** A ziplist seen from the entry [e] that follows [l]. *)
Lemma seam_repr l e k cnt : let P := zents 0 l in
  zok 0 (l ++ e :: k) -> 11 + zsize (l ++ e :: k) < 2 ^ 32 -> count_ok cnt (zlen (l ++ e :: k)) ->
  zl_repr (hdr (11 + zlen P + zsize (e :: k)) (seam_tail P (e :: k)) cnt ++
    P ++ ent (last_raw 0 l) e ++ zents (rawlen e) k ++ [ZIP_END]) (l ++ e :: k).
Proof.
  intros P Hok Hlt Hc. split; [|done|done]. exists cnt. split; [|done].
  unfold zl_bytes, tail_of, seam_tail, P. rewrite zents_app, zsize_app, last_raw_app, zlen_zents.
  cbn [zents last_raw]. rewrite <- !app_assoc.
  replace (11 + (zsize l + zsize (e :: k))) with (11 + zsize l + zsize (e :: k)) by lia.
  by replace (10 + (zsize l + zsize (e :: k))) with (10 + zsize l + zsize (e :: k)) by lia.
Qed.

(** The tail offset that __ziplistDelete() computes. *)
Lemma delete_tail l d f k q : d <> [] ->
  let nd := plsize (negb (q <? 254)) - plsize (big f) in
  (if bool_decide (k = []) then tail_of (l ++ d ++ f :: k) - zsize d
   else tail_of (l ++ d ++ f :: k) - zsize d + nd) = seam_tail (zents 0 l) (resized q f :: k).
Proof.
  intros Hd nd. unfold tail_of, seam_tail. rewrite zlen_zents, !zsize_app, !last_raw_app.
  cbn [zsize last_raw]. rewrite rawlen_resized. fold nd. case_bool_decide as Hk.
  - subst. cbn [zsize last_raw]. lia.
  - rewrite (last_raw_ne (rawlen f) 0 k), (last_raw_ne (rawlen f + nd) 0 k) by done. lia.
Qed.

Lemma delete_at_end `{Allocator} zl l d : zl_repr zl (l ++ d) -> d <> [] -> 11 + zsize (l ++ d) < UINT32_MAX ->
  exists zl', (zl ← ziplistResize zl (11 + zsize l);
     zl ← ZIPLIST_INCR_LENGTH zl (- zlen d);
     set_ZIPLIST_TAIL_OFFSET zl (tail_of l)) = Some zl' /\ zl_repr zl' l.
Proof.
  intros Hr Hd Hlt. destruct Hr as [(cnt & -> & Hc) Hok _]. apply zok_app in Hok as [Hl Hokd].
  rewrite zsize_app in Hlt. pose proof (zsize_nonneg _ _ Hokd). pose proof (zlen_nonneg d). pose proof (zlen_nonneg l).
  rewrite zlen_app in Hc. unfold zl_bytes. rewrite zents_app, <- app_assoc.
  destruct d as [|c d]; [done|]. destruct Hokd as [Hc' Hokd].
  destruct (ent_first_byte _ _ Hc') as (x & S & HS & _). cbn [zents]. rewrite HS. cbn [app].
  rewrite ziplistResize_shrink; [|by rewrite zlen_zents | lia]. simpl_bind.
  destruct (incr_length_ok (11 + zsize l) (tail_of (l ++ c :: d)) cnt (zents 0 l ++ [ZIP_END])
    (zlen l + zlen (c :: d)) (- zlen (c :: d))) as (cnt' & -> & Hcnt'); [done | lia.. |].
  simpl_bind. rewrite set_hdr_tail. eexists. split; [done|]. split; [|done|unfold UINT32_MAX in Hlt; eval_pow2; lia].
  exists cnt'. split; [done|]. by replace (zlen l) with (zlen l + zlen (c :: d) + - zlen (c :: d)) by lia.
Qed.

(** The update that follows a deletion or an insertion, when the size of the entry after it
    changed from that of [f] to that of [f']. *)
Lemma cascade_after `{Allocator} P q f f' k cnt : ent_ok q f' -> zok (rawlen f) k ->
  stale (rawlen f) (rawlen f') -> 11 + zlen P + zsize (f' :: k) + 4 * zlen k < UINT32_MAX ->
  let zl := hdr (11 + zlen P + zsize (f' :: k)) (seam_tail P (f' :: k)) cnt ++
              P ++ ent q f' ++ zents (rawlen f) k ++ [ZIP_END] in
  exists k', (if negb (rawlen f' - rawlen f =? 0) then ziplistCascadeUpdate zl (10 + zlen P) else Some zl) =
    Some (hdr (11 + zlen P + zsize (f' :: k')) (seam_tail P (f' :: k')) cnt ++
            P ++ ent q f' ++ zents (rawlen f') k' ++ [ZIP_END]) /\
    zok (rawlen f') k' /\ body <$> k' = body <$> k /\ zsize k' <= zsize k + 4 * zlen k.
Proof.
  intros Hf' Hk Hst Hlt zl. pose proof (zsize_cascade (rawlen f') k) as Hz. pose proof (rawlen_ge2 f' (ent_body _ _ Hf')).
  pose proof (zlen_nonneg P). pose proof (zlen_nonneg k). exists (cascade (rawlen f') k). cbn [zsize] in Hlt. unfold UINT32_MAX in Hlt.
  assert (zok (rawlen f') (cascade (rawlen f') k)) as Hok by (apply (zok_cascade (rawlen f)); [done | lia | eval_pow2; lia]).
  split; [|split_and!; [done | apply bodies_cascade | lia]].
  destruct (Z.eqb_spec (rawlen f' - rawlen f) 0) as [Heq|Hne]; cbn [negb].
  - assert (rawlen f' = rawlen f) as Hraw by lia. unfold zl. rewrite (cascade_id (rawlen f) (rawlen f') k) by (done || lia).
    by rewrite Hraw.
  - unfold zl. rewrite ziplistCascadeUpdate_ok; [done | done | done | done | unfold UINT32_MAX; cbn [zsize]; lia].
Qed.

Lemma zsize_pos prev d : zok prev d -> d <> [] -> 2 <= zsize d.
Proof.
  intros Hok%zok_ge Hne. destruct d; [done|]. rewrite zlen_cons in Hok. pose proof (zlen_nonneg d). lia.
Qed.

(** The first entry that is deleted has a field large enough for the entry before it. *)
Lemma deleted_room q d f : zok q d -> d <> [] -> plsize (negb (q <? 254)) - plsize (big f) < zsize d.
Proof.
  intros Hok Hne. pose proof (zsize_pos q d Hok Hne). destruct d as [|c d]; [done|]. destruct Hok as [Hc Hd].
  pose proof (zsize_nonneg _ _ Hd). cbn [zsize] in *. destruct (body_facts _ (ent_body _ _ Hc)) as (_ & H1 & H2).
  rewrite rawlen_split in * by apply Hc. destruct (Z.ltb_spec q 254) as [|Hq]; cbn [negb plsize];
    pose proof (plsize_range (big f)); [lia|].
  assert (big c = true) as Hbig by (destruct (big c) eqn:Hb; [done | pose proof (ent_small _ _ Hc Hb); lia]).
  rewrite Hbig. cbn [plsize]. lia.
Qed.

Section delete.
Context `{Allocator} (zl : list Z) (l d : list zent) (num : Z).

(** The entries [d] are deleted up to the end. *)
Lemma delete_num_end : zl_repr zl (l ++ d) -> d <> [] -> zlen d <= num -> 11 + zsize (l ++ d) < UINT32_MAX ->
  exists zl', ziplistDelete_num zl (zpos l) num = Some zl' /\ zl_repr zl' l.
Proof.
  intros Hr Hd Hnum Hlt. destruct (delete_at_end zl l d Hr Hd Hlt) as (zl' & Hdel & Hr'). exists zl'. split; [|done].
  unfold ziplistDelete_num. rewrite (repr_bytes zl _ Hr). simpl_bind.
  destruct d as [|c d'] eqn:Hcd; [done|]. rewrite (repr_zipEntry zl l c d' Hr). simpl_bind. rewrite <- Hcd in *.
  pose proof (zlen_nonneg d) as Hzd. rewrite (delete_skip_ok zl (length zl) l d num 0 Hr (repr_fuel zl l d Hr)) by lia.
  rewrite take_ge by (unfold zlen in *; lia). simpl_bind. cbn [ptr zle prevrawlen].
  pose proof (zl_entries _ _ Hr) as Hok. apply zok_app in Hok as [Hl Hokd].
  pose proof (zsize_pos _ _ Hokd Hd) as Hpos. pose proof (zsize_nonneg _ _ Hl) as Hzl.
  assert (zpos (l ++ d) = zpos l + zsize d) as Hp by (unfold zpos; rewrite zsize_app; lia).
  rewrite zsize_app in Hlt |- *. unfold UINT32_MAX in Hlt.
  rewrite (proj2 (Z.leb_le (zpos l) _)) by lia. rewrite (repr_end zl _ Hr), Hp.
  replace (zpos l + zsize d - zpos l) with (zsize d) by lia. rewrite uwrap_small by (eval_pow2; lia).
  rewrite (proj2 (Z.ltb_lt 0 _)) by lia. simpl_bind. change (ZIP_END =? ZIP_END) with true. cbn [negb]. simpl_bind.
  rewrite Z.sub_0_r, (uwrap_small 32 (zsize d)) by (eval_pow2; lia).
  replace (11 + (zsize l + zsize d) - zsize d) with (11 + zsize l) by lia.
  rewrite (uwrap_small 64 (11 + zsize l)) by (eval_pow2; lia). rewrite Z.add_0_l.
  assert (zpos l - last_raw 0 l = tail_of l) as -> by done.
  pose proof (last_raw_range 0 l Hl) as Hlr. unfold ZIPLIST_END_SIZE.
  rewrite (uwrap_small 32 (tail_of l)) by (unfold tail_of; eval_pow2; lia).
  destruct (ziplistResize zl (11 + zsize l)) as [zl1|]; [|done]. simpl_bind in Hdel. simpl_bind.
  destruct (ZIPLIST_INCR_LENGTH zl1 (- zlen d)) as [zl2|]; [|done]. simpl_bind in Hdel. simpl_bind.
  rewrite (proj2 (Z.leb_le _ _)) by (unfold tail_of; lia). rewrite Hdel. done.
Qed.

(** The entry [f] comes after the deleted ones: it takes their place. *)
Lemma delete_shift f k cnt : let es := l ++ d ++ f :: k in
  zl = zl_bytes cnt es -> zok 0 es -> d <> [] -> 11 + zsize es < 2 ^ 32 ->
  let q := last_raw 0 l in
  let f' := resized q f in
  let p := zpos l + zsize d in
  let zlbytes := 11 + zsize es in
  exists x S,
  (nextdiff ← zipPrevLenByteDiff zl p q;
   let p := p - nextdiff in
   if (zpos l <=? p) && (p <? zlbytes - 1) then
     '(zl, _) ← zipStorePrevEntryLength zl p q;
     tail_offset ← ZIPLIST_TAIL_OFFSET zl;
     let set_tail := u32 (tail_offset - zsize d) in
     tail ← assert_zipEntrySafe zl zlbytes p true;
     b ← load8 zl (p + u32 (headersize tail + len tail));
     let set_tail := if negb (b =? ZIP_END) then u32 (set_tail + nextdiff) else set_tail in
     let bytes_to_move := zlbytes - p - 1 in
     zl ← memmove zl (zpos l) p bytes_to_move;
     Some (zl, set_tail, nextdiff)
   else None) =
  Some (hdr (11 + zsize es) (tail_of es) cnt ++ (zents 0 l ++ ent q f' ++ zents (rawlen f) k) ++ x :: S,
    seam_tail (zents 0 l) (f' :: k), plsize (negb (q <? 254)) - plsize (big f)).
Proof.
  intros es Hzl Hes0 Hd Hlt q f' p zlbytes. pose proof Hes0 as Hok. apply zok_app in Hok as [Hl Hok]. apply zok_app in Hok as [Hokd [Hf Hk]].
  pose proof (zsize_pos _ _ Hokd Hd) as Hpos. pose proof (zsize_nonneg _ _ Hl) as Hzl0. pose proof (zsize_nonneg _ _ Hk) as Hzk.
  pose proof (rawlen_ge2 f (ent_body _ _ Hf)) as Hrf. pose proof (last_raw_range 0 l Hl) as Hlr. fold q in Hlr.
  pose proof (deleted_room q d f Hokd Hd) as Hroom. pose proof (delete_tail l d f k q Hd) as Htail. cbv zeta in Htail. fold es f' in Htail.
  set (nd := plsize (negb (q <? 254)) - plsize (big f)) in *. pose proof (plsize_range (big f)) as Hpf.
  pose proof (rawlen_resized q f) as Hrf'. fold nd f' in Hrf'.
  assert (zsize es = zsize l + zsize d + (rawlen f + zsize k)) as Hes by (unfold es; rewrite !zsize_app; cbn [zsize]; lia).
  assert (p = zpos l + zsize d /\ zlbytes = 11 + zsize es /\ zpos l = 10 + zsize l) as (Hpd & Hzb & Hzp) by done.
  set (C := hdr (11 + zsize es) (tail_of es) cnt ++ zents 0 l). set (D := zents q d).
  set (lp := last_raw q d) in *. set (Y := zents (rawlen f) k).
  assert (zl = C ++ D ++ ent lp f ++ Y ++ [ZIP_END]) as HM.
  { rewrite Hzl. unfold zl_bytes, C, D, Y, es. rewrite !zents_app. cbn [zents]. by rewrite <- !app_assoc. }
  assert (zlen C = zpos l) as HC by (unfold C; by rewrite zlen_app, zlen_hdr, zlen_zents).
  assert (zlen D = zsize d) as HD by apply zlen_zents.
  assert (ent_ok q f') as Hf' by (apply (resized_ok q lp); [done | eval_pow2; lia]).
  pose proof (rawlen_ge2 f' (ent_body _ _ Hf')) as Hf2.
  rewrite (zipPrevLenByteDiff_at zl (C ++ D) lp f (Y ++ [ZIP_END])); [| by rewrite HM, <- !app_assoc | rewrite zlen_app; lia | done].
  fold nd. simpl_bind. rewrite (proj2 (Z.leb_le _ _)), (proj2 (Z.ltb_lt _ _)) by lia. cbn [andb].
  destruct (close_gap C D lp f Y q Hf ltac:(lia)) as (M1 & D' & x & S & Hst & HM1 & HD' & Hmv).
  { rewrite HD. fold nd. lia. }
  fold nd in Hst, HD', Hmv. rewrite <- HM, HC, HD in Hst, Hmv. rewrite HD in HD'. fold p in Hst, Hmv.
  rewrite Hst. simpl_bind. assert (0 <= tail_of es < 2 ^ 32) as Ht.
  { pose proof (tail_of_range es Hes0). eval_pow2. lia. }
  assert (ZIPLIST_TAIL_OFFSET M1 = Some (tail_of es)) as ->.
  { rewrite HM1. unfold C. rewrite <- app_assoc. by apply hdr_tail. }
  simpl_bind. assert (M1 = (C ++ D') ++ ent q f' ++ (Y ++ [ZIP_END])) as HM1' by (rewrite HM1, <- !app_assoc; done).
  assert (p - nd = zlen (C ++ D')) as Hp by (rewrite zlen_app; unfold p; lia).
  rewrite (assert_zipEntrySafe_at M1 (C ++ D') q f' (Y ++ [ZIP_END])); try done; [| unfold zpos in *; lia..].
  simpl_bind. cbn [headersize len zle]. rewrite <- rawlen_split by apply Hf'.
  rewrite (uwrap_small 32 (rawlen f')) by (eval_pow2; lia).
  destruct (load8_after (C ++ D') q f' (rawlen f) k (p - nd + rawlen f') Hk ltac:(lia)) as (b & Hb8 & Hb).
  fold Y in Hb8. rewrite <- HM1' in Hb8. rewrite Hb8.
  simpl_bind. rewrite Hb.
  replace (zlbytes - (p - nd) - 1) with (zlen zl - (p - nd) - 1) by (rewrite Hzl, zlen_zl_bytes; done).
  rewrite Hmv. simpl_bind. exists x, S. unfold C, Y. rewrite <- !app_assoc. do 3 f_equal.
  assert (0 <= seam_tail (zents 0 l) (f' :: k) < 2 ^ 32) as Hst'.
  { unfold seam_tail. cbn [zsize last_raw]. rewrite zlen_zents. pose proof (last_raw_range _ k Hk) as Hlk.
    destruct (decide (k = [])) as [->|Hne]; [cbn [zsize last_raw]; eval_pow2; lia|].
    rewrite (last_raw_ne _ (rawlen f) k Hne). pose proof (last_raw_le _ k Hk Hne). eval_pow2. lia. }
  rewrite <- Htail in Hst' |- *. case_bool_decide; cbn [negb]; [by rewrite uwrap_small|].
  unfold uwrap. rewrite Zplus_mod_idemp_l. by apply Z.mod_small.
Qed.

Lemma delete_num_mid f k : zl_repr zl (l ++ d ++ f :: k) -> d <> [] -> zlen d = num ->
  11 + zsize (l ++ d ++ f :: k) + 4 * zlen k < UINT32_MAX ->
  exists zl' k', ziplistDelete_num zl (zpos l) num = Some zl' /\
    zl_repr zl' (l ++ resized (last_raw 0 l) f :: k') /\ body <$> k' = body <$> k /\
    zsize k' <= zsize k + 4 * zlen k.
Proof.
  intros Hr Hd Hnum Hlt. unfold ziplistDelete_num. rewrite (repr_bytes zl _ Hr). simpl_bind.
  destruct d as [|c d'] eqn:Hcd; [done|]. rewrite (repr_zipEntry zl l c (d' ++ f :: k) Hr). simpl_bind.
  rewrite <- Hcd in *. cbn [ptr zle prevrawlen]. clear Hcd c d'. pose proof (zlen_nonneg d) as Hzd. pose proof (zlen_nonneg k) as Hzk.
  rewrite (delete_skip_ok zl (length zl) l (d ++ f :: k) num 0 Hr (repr_fuel zl l _ Hr)) by lia.
  rewrite Z.sub_0_r, Z.add_0_l. assert (take (Z.to_nat num) (d ++ f :: k) = d) as ->.
  { rewrite take_app_le by (unfold zlen in *; lia). apply take_ge. unfold zlen in *; lia. }
  simpl_bind. destruct (repr_load8 zl (l ++ d) f k) as (b & -> & Hb); [by rewrite <- app_assoc|].
  destruct Hr as [(cnt & Hzl & Hc) Hok Hsm]. destruct (delete_shift f k cnt Hzl Hok Hd Hsm) as (x & S & Hshift). cbv zeta in Hshift.
  apply zok_app in Hok as [Hl Hok]. apply zok_app in Hok as [Hokd Hokf].
  pose proof (zsize_pos _ _ Hokd Hd) as Hpos. pose proof (zsize_nonneg _ _ Hl) as Hzl0. pose proof (last_raw_range 0 l Hl) as Hlr.
  assert (zpos (l ++ d) = zpos l + zsize d) as Hp by (unfold zpos; rewrite zsize_app; lia).
  pose proof (deleted_room _ d f Hokd Hd) as Hroom. pose proof (rawlen_resized (last_raw 0 l) f) as Hrf'.
  rewrite Hp. replace (zpos l + zsize d - zpos l) with (zsize d) by lia.
  set (es := l ++ d ++ f :: k) in *. set (q := last_raw 0 l) in *. set (f' := resized q f) in *.
  set (nd := plsize (negb (q <? 254)) - plsize (big f)) in *.
  assert (zsize es = zsize l + zsize d + (rawlen f + zsize k)) as Hes by (unfold es; rewrite !zsize_app; cbn [zsize]; lia).
  pose proof (rawlen_ge2 f (ent_body _ _ (proj1 Hokf))) as Hrf. pose proof (zsize_nonneg _ _ (proj2 Hokf)) as Hzk0.
  pose proof (plsize_range (big f)) as Hpf. pose proof (plsize_range (negb (q <? 254))) as Hpn. unfold UINT32_MAX in Hlt.
  assert (ent_ok q f') as Hf' by (apply (resized_ok q (last_raw q d)); [apply Hokf | eval_pow2; lia]).
  rewrite (proj2 (Z.leb_le (zpos l) _)) by lia. rewrite (uwrap_small 32 (zsize d)) by (eval_pow2; lia).
  rewrite (proj2 (Z.ltb_lt 0 _)) by lia. simpl_bind. rewrite Hb. cbn [negb]. rewrite Hshift. simpl_bind.
  rewrite (uwrap_small 32 (zsize d - nd)) by (eval_pow2; lia).
  assert (u64 (11 + zsize es - (zsize d - nd)) = 11 + zlen (zents 0 l) + zsize (f' :: k)) as ->.
  { rewrite zlen_zents. cbn [zsize]. rewrite uwrap_small by (eval_pow2; lia). lia. }
  rewrite ziplistResize_shrink; [| rewrite !zlen_app, zlen_ent, !zlen_zents; cbn [zsize]; lia
    | rewrite zlen_zents; cbn [zsize]; unfold UINT32_MAX; lia ].
  simpl_bind. destruct (incr_length_ok (11 + zlen (zents 0 l) + zsize (f' :: k)) (tail_of es) cnt
    ((zents 0 l ++ ent q f' ++ zents (rawlen f) k) ++ [ZIP_END]) (zlen es) (- zlen d)) as (cnt' & -> & Hcnt'); [done | | | lia |].
  { apply zlen_nonneg. }
  { unfold es. rewrite !zlen_app. pose proof (zlen_nonneg l). pose proof (zlen_nonneg (f :: k)). lia. }
  simpl_bind. rewrite set_hdr_tail. simpl_bind.
  destruct (cascade_after (zents 0 l) q f f' k cnt' Hf' (proj2 Hokf) (stale_resized q f)) as (k' & Hcas & Hok' & Hbody & Hsize).
  { rewrite zlen_zents. cbn [zsize]. unfold UINT32_MAX. lia. }
  replace (rawlen f' - rawlen f) with nd in Hcas by lia.
  eexists _, k'. split_and!; [| apply (seam_repr l f' k' cnt') | done | done].
  - unfold ZIPLIST_END_SIZE. rewrite zlen_zents in Hcas |- *. rewrite (proj2 (Z.leb_le _ _)).
    { rewrite <- !app_assoc. exact Hcas. }
    unfold seam_tail. rewrite zlen_zents. pose proof (rawlen_ge2 f' (ent_body _ _ Hf')).
    destruct (decide (k = [])) as [->|Hne]; [cbn [zsize last_raw] in *; lia|].
    cbn [last_raw]. pose proof (last_raw_pos _ k (proj2 Hokf) Hne) as Hlk. rewrite (last_raw_ne _ (rawlen f') k Hne) in Hlk. lia.
  - apply zok_app. split; [done|]. by split.
  - rewrite zsize_app. cbn [zsize]. eval_pow2. lia.
  - replace (zlen (l ++ f' :: k')) with (zlen es + - zlen d); [done|]. unfold es.
    rewrite !zlen_app, !zlen_cons, (zlen_bodies _ _ Hbody). lia.
Qed.
End delete.

(** ** Insertion *)

Lemma zip_encoding_str s : zipTryEncoding s = None -> zip_encoding s = (0, 123456789).
Proof. intros H. unfold zip_encoding. by rewrite H. Qed.

Lemma buf_int enc n : 192 <= enc < 255 -> zipStoreEntryEncoding_buf enc n = [enc].
Proof.
  intros He. unfold zipStoreEntryEncoding_buf. rewrite ZIP_IS_STR_spec, (proj2 (Z.ltb_ge _ _)) by (unfold is_byte; lia).
  by rewrite uwrap_small by (eval_pow2; lia).
Qed.

(** An encoding that zipTryEncoding() returns. *)
Lemma try_encoding_cases s v enc : zipTryEncoding s = Some (v, enc) ->
  enc = ZIP_INT_8B \/ enc = ZIP_INT_16B \/ enc = ZIP_INT_24B \/ enc = ZIP_INT_32B \/ enc = ZIP_INT_64B \/
  (ZIP_INT_IMM_MIN <= enc <= ZIP_INT_IMM_MAX).
Proof.
  unfold zipTryEncoding. destruct (_ || _); [done|]. destruct (string2ll s) as [w|]; [|done].
  intros [= _ <-]. destruct ((0 <=? w) && (w <=? 12)) eqn:Hw.
  - unfold ZIP_INT_IMM_MIN, ZIP_INT_IMM_MAX. rewrite uwrap_small by (eval_pow2; lia). right; right; right; right; right. lia.
  - repeat case_match; tauto.
Qed.

(** The immediate encodings are none of the others. *)
Lemma imm_spec enc : ZIP_INT_IMM_MIN <= enc <= ZIP_INT_IMM_MAX ->
  (enc =? ZIP_INT_8B) = false /\ (enc =? ZIP_INT_16B) = false /\ (enc =? ZIP_INT_24B) = false /\
  (enc =? ZIP_INT_32B) = false /\ (enc =? ZIP_INT_64B) = false /\
  ((ZIP_INT_IMM_MIN <=? enc) && (enc <=? ZIP_INT_IMM_MAX)) = true.
Proof.
  unfold ZIP_INT_IMM_MIN, ZIP_INT_IMM_MAX, ZIP_INT_8B. change ZIP_INT_16B with 192. change ZIP_INT_24B with 240.
  change ZIP_INT_32B with 208. change ZIP_INT_64B with 224. intros H. split_and!; lia.
Qed.

Lemma zipIntSize_ok s v enc : zipTryEncoding s = Some (v, enc) -> zipIntSize enc = Some (zlen (int_bytes v enc)).
Proof.
  intros Ht. unfold zipIntSize, int_bytes.
  destruct (try_encoding_cases _ _ _ Ht) as [-> | [-> | [-> | [-> | [-> | Himm]]]]]; try reflexivity.
  destruct (imm_spec enc Himm) as (-> & -> & -> & -> & -> & ->). done.
Qed.

Lemma zip_reqlen_ok s : zip_reqlen s = Some (zlen (body_of s)).
Proof.
  unfold zip_reqlen, zip_encoding, body_of, zipStoreEntryEncoding_size.
  destruct (zipTryEncoding s) as [[v enc]|] eqn:Ht.
  - rewrite (zipIntSize_ok _ _ _ Ht). simpl_bind. rewrite zlen_app. f_equal. lia.
  - simpl_bind. rewrite zlen_app. f_equal. lia.
Qed.

Lemma zipSaveInteger_at X B Y s v enc p : zipTryEncoding s = Some (v, enc) -> p = zlen X ->
  zlen B = zlen (int_bytes v enc) -> zipSaveInteger (X ++ B ++ Y) p v enc = Some (X ++ int_bytes v enc ++ Y).
Proof.
  intros Ht -> HB. unfold zipSaveInteger, int_bytes in *.
  destruct (try_encoding_cases _ _ _ Ht) as [-> | [-> | [-> | [-> | [-> | Himm]]]]].
  - apply mem_store_mid; [done | unfold zlen in HB; simpl in *; lia].
  - apply mem_store_mid; [done | unfold zlen in HB; simpl in *; lia].
  - apply mem_store_mid; [done | unfold zlen in HB; simpl in *; lia].
  - apply mem_store_mid; [done | unfold zlen in HB; simpl in *; lia].
  - apply mem_store_mid; [done | unfold zlen in HB; simpl in *; lia].
  - destruct (imm_spec enc Himm) as (E1 & E2 & E3 & E4 & E5 & E6). rewrite E1, E2, E3, E4, E5, E6 in *.
    apply zlen_eq_nil in HB as ->. done.
Qed.

Lemma zip_write_at X B Y s p : p = zlen X -> zlen B = zlen (body_of s) ->
  zip_write (X ++ B ++ Y) p s = Some (X ++ body_of s ++ Y).
Proof.
  intros -> HB. unfold zip_write, zip_encoding, zipStoreEntryEncoding, body_of in *.
  destruct (zipTryEncoding s) as [[v enc]|] eqn:Ht.
  - pose proof (zipTryEncoding_enc _ _ _ Ht) as He. rewrite buf_int in * by done.
    rewrite zlen_app in HB. destruct (split_at_len B (zlen [enc])) as (B1 & B2 & -> & HB1 & HB2).
    { pose proof (zlen_nonneg [enc]). pose proof (zlen_nonneg (int_bytes v enc)). lia. }
    rewrite zlen_app in HB. rewrite <- app_assoc. rewrite mem_store_mid by (done || unfold zlen in *; lia). simpl_bind.
    rewrite ZIP_IS_STR_spec, (proj2 (Z.ltb_ge _ _)) by (unfold is_byte; lia).
    rewrite app_assoc, (zipSaveInteger_at _ _ _ s) by (done || rewrite ?zlen_app; lia). by rewrite <- !app_assoc.
  - set (h := zipStoreEntryEncoding_buf 0 (zlen s)) in *. rewrite zlen_app in HB.
    destruct (split_at_len B (zlen h)) as (B1 & B2 & -> & HB1 & HB2).
    { pose proof (zlen_nonneg h). pose proof (zlen_nonneg s). lia. }
    rewrite zlen_app in HB. rewrite <- app_assoc. rewrite mem_store_mid by (done || unfold zlen in *; lia). simpl_bind.
    change (ZIP_IS_STR 0) with true. cbv iota.
    rewrite app_assoc, mem_store_mid by (rewrite ?zlen_app; unfold zlen in *; lia). by rewrite <- !app_assoc.
Qed.

(** The entry that is inserted after an entry of [q] bytes. *)
Definition new_ent (q : Z) (s : list Z) : zent := {| big := negb (q <? 254); body := body_of s |}.

Lemma new_ent_ok q s : bytes_ok s -> zlen s < 2 ^ 32 -> 0 <= q < 2 ^ 32 -> ent_ok q (new_ent q s).
Proof.
  intros Hs Hl Hq. split; [by apply body_of_ok | done |]. cbn. destruct (Z.ltb_spec q 254); [lia | done].
Qed.

(** The last lines of __ziplistInsert(): the entry is written over [G]. *)
Lemma write_entry_at X G Y q s : zlen G = rawlen (new_ent q s) -> 0 <= q ->
  ('(zl, n) ← zipStorePrevEntryLength (X ++ G ++ Y) (zlen X) q; zip_write zl (zlen X + n) s) =
  Some (X ++ ent q (new_ent q s) ++ Y).
Proof.
  intros HG Hq. unfold rawlen in HG. cbn [new_ent big body] in HG. set (b := negb (q <? 254)) in *.
  destruct (split_at_len G (plsize b)) as (F & B & -> & HF & HB).
  { pose proof (plsize_range b). pose proof (zlen_nonneg (body_of s)). lia. }
  rewrite zlen_app in HG. rewrite <- app_assoc, (store_prev_at X F _ q _ b) by done. simpl_bind.
  rewrite app_assoc, zip_write_at; [| rewrite zlen_app, zlen_plen; lia | lia].
  unfold ent. cbn [new_ent big body]. by rewrite <- !app_assoc.
Qed.

Lemma ziplistResize_ge `{Allocator} T t c R n : T = 11 + zlen R -> T <= n -> n < UINT32_MAX ->
  exists J, ziplistResize (hdr T t c ++ R ++ [ZIP_END]) n = Some (hdr n t c ++ R ++ J ++ [ZIP_END]) /\
    zlen J = n - T /\ (J <> [] -> exists J', J = ZIP_END :: J').
Proof.
  intros HT Hle Hn. destruct (Z.eq_dec T n) as [->|Hne].
  - exists []. rewrite (ziplistResize_same n) by done. split_and!; [done | change (zlen []) with 0; lia | done].
  - destruct (ziplistResize_grow T t c (R ++ [ZIP_END]) n) as (J & -> & HJ); [| lia | done |].
    { rewrite zlen_app. change (zlen [ZIP_END]) with 1. lia. }
    exists (ZIP_END :: J). split_and!; [by rewrite <- !app_assoc | rewrite zlen_cons; lia | by exists J].
Qed.

(** The length of the entry before the insertion point. *)
Lemma insert_prevlen zl l k b : zl_repr zl (l ++ k) -> load8 zl (zpos l) = Some b ->
  (if negb (b =? ZIP_END) then '(_, prevlen) ← ZIP_DECODE_PREVLEN zl (zpos l); Some prevlen
   else
     ptail ← ZIPLIST_ENTRY_TAIL zl;
     bt ← load8 zl ptail;
     if negb (bt =? ZIP_END) then zipRawEntryLengthSafe zl (11 + zsize (l ++ k)) ptail else Some 0) =
  Some (last_raw 0 l).
Proof.
  intros Hr Hb. destruct k as [|f k].
  - rewrite app_nil_r in *. rewrite (repr_end zl l Hr) in Hb. injection Hb as <-.
    change (ZIP_END =? ZIP_END) with true. cbn [negb]. unfold ZIPLIST_ENTRY_TAIL. rewrite (repr_tail zl l Hr). simpl_bind.
    destruct l as [|e l _] using rev_ind.
    + change (tail_of []) with (zpos []). by rewrite (repr_end zl [] Hr).
    + rewrite tail_of_snoc, last_raw_snoc. destruct (repr_load8 zl l e [] Hr) as (bt & -> & Hbt). simpl_bind.
      rewrite Hbt. cbn [negb]. by apply repr_rawlen_safe.
  - destruct (repr_load8 zl l f k Hr) as (b' & Hb' & Hne). rewrite Hb' in Hb. injection Hb as <-.
    rewrite Hne. cbn [negb]. by rewrite (repr_PREVLEN zl l f k Hr).
Qed.

(** Room for an entry of [r] bytes before the entry [f], whose field takes the size of that of [f']. *)
Lemma insert_shift H0 L q f f' Y J r : body f' = body f -> 4 <= zlen H0 -> 0 <= r ->
  let nd := rawlen f' - rawlen f in
  let K := ent q f ++ Y in
  let p := zlen H0 + zlen L in
  zlen J = r + nd ->
  exists G F, zlen G = r /\ zlen F = plsize (big f') /\
    memmove (H0 ++ L ++ K ++ J ++ [ZIP_END]) (p + r) (p - nd) (zlen K + nd) =
    Some (H0 ++ L ++ G ++ F ++ body f ++ Y ++ [ZIP_END]).
Proof.
  intros Hbody HH Hr nd K p HJ. pose proof (plsize_range (big f)) as Hp1. pose proof (plsize_range (big f')) as Hp2.
  pose proof (zlen_nonneg L) as HL. pose proof (zlen_nonneg Y) as HY. pose proof (zlen_nonneg (body f)) as Hbf.
  assert (nd = plsize (big f') - plsize (big f)) as Hnd by (unfold nd, rawlen; rewrite Hbody; lia).
  destruct (split_at_len (H0 ++ L ++ plen (big f) q) (p - nd)) as (Zs & F & HZF & HZ & HF);
    rewrite !zlen_app, zlen_plen in *; [lia|].
  destruct (split_at_len (K ++ J) r) as (G & V & HGV & HG & HV);
    unfold K in *; rewrite !zlen_app, !zlen_ent in *; unfold rawlen in *; [lia|].
  exists G, F. split_and!; [done | lia |].
  assert (H0 ++ L ++ G ++ F ++ body f ++ Y ++ [ZIP_END] =
    (H0 ++ L ++ G) ++ (F ++ body f ++ Y) ++ [ZIP_END]) as -> by (by rewrite <- !app_assoc).
  refine (memmove_at _ Zs (F ++ body f ++ Y) (J ++ [ZIP_END]) _ V _ _ _ _ _ _ _ _ _ _).
  - transitivity ((H0 ++ L ++ plen (big f) q) ++ body f ++ Y ++ J ++ [ZIP_END]);
      [unfold ent; by rewrite <- !app_assoc | rewrite HZF; by rewrite <- !app_assoc].
  - transitivity (H0 ++ L ++ ((ent q f ++ Y) ++ J) ++ [ZIP_END]); [by rewrite <- !app_assoc | rewrite HGV; by rewrite <- !app_assoc].
  - rewrite !zlen_app. lia.
  - lia.
  - rewrite !zlen_app. unfold p. lia.
  - rewrite !zlen_app. lia.
Qed.

(** The tail offset that __ziplistInsert() computes. *)
Lemma insert_tail l f f' k G : zlen G >= 0 ->
  (if bool_decide (k = []) then tail_of (l ++ f :: k) + zlen G
   else tail_of (l ++ f :: k) + zlen G + (rawlen f' - rawlen f)) = seam_tail (zents 0 l ++ G) (f' :: k).
Proof.
  intros HG. unfold tail_of, seam_tail. rewrite zlen_app, zlen_zents, zsize_app, last_raw_app. cbn [zsize last_raw].
  case_bool_decide as Hk; [subst; cbn [zsize last_raw]; lia|].
  rewrite (last_raw_ne (rawlen f) 0 k), (last_raw_ne (rawlen f') 0 k) by done. lia.
Qed.

(** The entry that follows the inserted one: its field keeps its five bytes when the
    ziplist would shrink otherwise. *)
Definition insert_next (r : Z) (f : zent) : zent :=
  if (plsize (negb (r <? 254)) - plsize (big f) =? -4) && (r <? 4) then f else resized r f.

Lemma insert_next_ok r old f : ent_ok old f -> 0 <= r < 2 ^ 32 -> ent_ok r (insert_next r f).
Proof.
  intros Hf Hr. unfold insert_next. destruct (_ && _) eqn:E; [|by apply (resized_ok r old)].
  apply andb_true_iff in E as [E1%Z.eqb_eq E2%Z.ltb_lt]. split; [apply Hf | done | intros; lia].
Qed.

Lemma body_insert_next r f : body (insert_next r f) = body f.
Proof. unfold insert_next. by destruct (_ && _). Qed.

(** 'nextdiff' *)
Lemma insert_next_diff r f :
  let nd := plsize (negb (r <? 254)) - plsize (big f) in
  (if (nd =? -4) && (r <? 4) then 0 else nd) = rawlen (insert_next r f) - rawlen f.
Proof. cbv zeta. unfold insert_next. destruct (_ && _); [lia|]. rewrite rawlen_resized. lia. Qed.

Lemma insert_next_room r f : 0 <= r -> 0 <= r + (rawlen (insert_next r f) - rawlen f) /\
  -4 <= rawlen (insert_next r f) - rawlen f <= 4 /\ stale (rawlen f) (rawlen (insert_next r f)).
Proof.
  intros Hr. unfold stale, insert_next, rawlen, resized. destruct f as [b bd]. cbn [big body].
  destruct b, (Z.ltb_spec r 254), (Z.ltb_spec r 4); cbn [negb];
    repeat match goal with |- context [?a =? -4] =>
      let v := eval vm_compute in (a =? -4) in change (a =? -4) with v end;
    cbn [andb big body plsize]; lia.
Qed.

Lemma store_insert_next X F Y r f : zlen F = plsize (big (insert_next r f)) -> 0 <= r ->
  ('(zl, _) ← (if (plsize (negb (r <? 254)) - plsize (big f) =? -4) && (r <? 4)
               then zipStorePrevEntryLengthLarge (X ++ F ++ Y) (zlen X) r
               else zipStorePrevEntryLength (X ++ F ++ Y) (zlen X) r);
   Some (zl : list Z)) = Some (X ++ plen (big (insert_next r f)) r ++ Y).
Proof.
  intros HF Hr. unfold insert_next in *. destruct (_ && _) eqn:E.
  - apply andb_true_iff in E as [E1%Z.eqb_eq E2%Z.ltb_lt].
    assert (big f = true) as Hb by (destruct (big f), (r <? 254); cbn in E1; done || lia). rewrite Hb in *.
    by rewrite store_large_at.
  - cbn [resized big] in *. by rewrite (store_prev_at X F Y r _ (negb (r <? 254))).
Qed.

Section insert.
Context `{Allocator} (zl s : list Z) (l : list zent) (Hs : bytes_ok s) (Hlen : zlen s < 2 ^ 32).
Let q := last_raw 0 l.
Let new := new_ent q s.

Lemma reqlen_ok : zlen (body_of s) + zipStorePrevEntryLength_size q = rawlen new.
Proof using. rewrite prevlen_size_spec. unfold rawlen. cbn. lia. Qed.

(** A list that ends with the new entry. *)
Lemma insert_end_repr cnt : zok 0 (l ++ [new]) -> 11 + zsize (l ++ [new]) < 2 ^ 32 -> count_ok cnt (zlen (l ++ [new])) ->
  zl_repr (hdr (11 + zsize l + rawlen new) (zpos l) cnt ++ zents 0 l ++ ent q new ++ [ZIP_END]) (l ++ [new]).
Proof using.
  intros Hok Hlt Hc. pose proof (seam_repr l new [] cnt Hok Hlt Hc) as Hr. cbn [zsize zents app] in Hr.
  unfold seam_tail in Hr. cbn [zsize last_raw] in Hr. rewrite zlen_zents, Z.add_0_r in Hr.
  by replace (10 + zsize l + rawlen new - rawlen new) with (zpos l) in Hr by (unfold zpos; lia).
Qed.

Lemma insert_end_ok : zl_repr zl l -> 11 + zsize l + rawlen new < UINT32_MAX ->
  exists zl', ziplistInsert zl (zpos l) s = Some zl' /\ zl_repr zl' (l ++ [new]).
Proof using Hs Hlen.
  intros Hr Hlt. unfold UINT32_MAX in Hlt. pose proof (zl_entries _ _ Hr) as Hl. pose proof (zl_small _ _ Hr) as Hsm.
  pose proof (zsize_nonneg _ _ Hl) as Hz. pose proof (last_raw_range 0 l Hl) as Hlr. fold q in Hlr.
  assert (ent_ok q new) as Hnew by (apply new_ent_ok; [done | done | eval_pow2; lia]).
  pose proof (rawlen_ge2 new (ent_body _ _ Hnew)) as Hn2.
  assert (zl_repr zl (l ++ [])) as Hr0 by (by rewrite app_nil_r).
  unfold ziplistInsert. rewrite (repr_bytes zl _ Hr0). simpl_bind.
  pose proof (insert_prevlen zl l [] ZIP_END Hr0 (repr_end zl l Hr)) as Hprev.
  rewrite (repr_end zl l Hr). simpl_bind. rewrite Hprev. fold q. simpl_bind. rewrite zip_reqlen_ok. simpl_bind.
  rewrite reqlen_ok. change (ZIP_END =? ZIP_END) with true. cbn [negb]. simpl_bind.
  change ((0 =? -4) && (rawlen new <? 4)) with false. cbv iota. rewrite Z.add_0_r, app_nil_r.
  rewrite uwrap_small by (eval_pow2; lia). destruct Hr as [(cnt & -> & Hc) _ _]. unfold zl_bytes.
  destruct (ziplistResize_grow (11 + zsize l) (tail_of l) cnt (zents 0 l ++ [ZIP_END]) (11 + zsize l + rawlen new)) as (J & -> & HJ).
  { rewrite zlen_app, zlen_zents. change (zlen [ZIP_END]) with 1. lia. } { lia. } { unfold UINT32_MAX. lia. }
  simpl_bind. rewrite <- app_assoc. set (h := hdr (11 + zsize l + rawlen new) (tail_of l) cnt).
  change ([ZIP_END] ++ J ++ [ZIP_END]) with (ZIP_END :: J ++ [ZIP_END]). rewrite (app_assoc h), load8_mid by (rewrite zlen_app, zlen_zents; done). simpl_bind.
  change (ZIP_END =? ZIP_END) with true. cbn [negb]. rewrite <- (app_assoc h). unfold h. rewrite set_hdr_tail. simpl_bind.
  change (0 =? 0) with true. cbn [negb]. simpl_bind.
  set (h' := hdr (11 + zsize l + rawlen new) (zpos l) cnt).
  pose proof (write_entry_at (h' ++ zents 0 l) (ZIP_END :: J) [ZIP_END] q s) as Hw.
  assert (zlen (h' ++ zents 0 l) = zpos l) as Hzh by (rewrite zlen_app, zlen_zents; done).
  rewrite Hzh in Hw. specialize (Hw ltac:(rewrite zlen_cons; fold new; lia) ltac:(lia)). rewrite <- !app_assoc in Hw.
  change (ZIP_END :: J ++ [ZIP_END]) with ((ZIP_END :: J) ++ [ZIP_END]). fold new in Hw.
  destruct (zipStorePrevEntryLength _ _ q) as [[zl1 n]|]; [|done]. simpl_bind in Hw. simpl_bind. rewrite Hw. simpl_bind.
  destruct (incr_length_ok (11 + zsize l + rawlen new) (zpos l) cnt (zents 0 l ++ ent q new ++ [ZIP_END]) (zlen l) 1)
    as (cnt' & Hincr & Hcnt'); [done | apply zlen_nonneg | pose proof (zlen_nonneg l); lia | lia |].
  eexists. split; [exact Hincr|]. apply insert_end_repr.
  - apply zok_app. by split.
  - rewrite zsize_app. cbn [zsize]. eval_pow2. lia.
  - by rewrite zlen_snoc.
Qed.

(** The entries from [f] on are moved to make room; what is in the room does not matter. *)
Lemma insert_move_ok f k cnt : let r := rawlen new in let f' := insert_next r f in
  let nd := plsize (negb (r <? 254)) - plsize (big f) in
  let nextdiff := rawlen f' - rawlen f in
  let es := l ++ f :: k in
  let newlen := 11 + zsize es + r + nextdiff in
  zl = zl_bytes cnt es -> zok 0 es -> 0 <= r -> newlen < UINT32_MAX -> 11 + zsize es < 2 ^ 32 ->
  exists G, zlen G = r /\
  (zl ← ziplistResize zl newlen;
   b ← load8 zl (zpos l);
   if negb (b =? ZIP_END) then
     zl ← memmove zl (zpos l + r) (zpos l - nextdiff) (11 + zsize es - zpos l - 1 + nextdiff);
     '(zl, _) ← (if (nd =? -4) && (r <? 4) then zipStorePrevEntryLengthLarge zl (zpos l + r) r
                 else zipStorePrevEntryLength zl (zpos l + r) r);
     tail_offset ← ZIPLIST_TAIL_OFFSET zl;
     zl ← set_ZIPLIST_TAIL_OFFSET zl (tail_offset + r);
     tail ← assert_zipEntrySafe zl newlen (zpos l + r) true;
     b ← load8 zl (zpos l + (r + headersize tail + len tail));
     if negb (b =? ZIP_END) then
       tail_offset ← ZIPLIST_TAIL_OFFSET zl;
       set_ZIPLIST_TAIL_OFFSET zl (tail_offset + nextdiff)
     else Some zl
   else set_ZIPLIST_TAIL_OFFSET zl (zpos l)) =
  let P := zents 0 l ++ G in
  Some (hdr (11 + zlen P + zsize (f' :: k)) (seam_tail P (f' :: k)) cnt ++
          P ++ ent r f' ++ zents (rawlen f) k ++ [ZIP_END]).
Proof using.
  intros r f' nd nextdiff es newlen Hzl Hes0 Hr Hnl Hsm. unfold UINT32_MAX in Hnl. pose proof Hes0 as Hok.
  apply zok_app in Hok as [Hl [Hf Hk]]. pose proof (zsize_nonneg _ _ Hl) as Hzl0. pose proof (zsize_nonneg _ _ Hk) as Hzk.
  pose proof (rawlen_ge2 f (ent_body _ _ Hf)) as Hrf. destruct (insert_next_room r f Hr) as (Hroom & Hnd & _).
  fold f' nextdiff in Hroom, Hnd. fold q in Hf.
  assert (zsize es = zsize l + (rawlen f + zsize k)) as Hes by (unfold es; rewrite zsize_app; done).
  assert (newlen = 11 + zsize es + r + nextdiff /\ zpos l = 10 + zsize l /\ nextdiff = rawlen f' - rawlen f) as (Hnld & Hzp & Hndd) by done.
  set (Y := zents (rawlen f) k). set (K := ent q f ++ Y).
  assert (zl = hdr (11 + zsize es) (tail_of es) cnt ++ (zents 0 l ++ K) ++ [ZIP_END]) as HM.
  { rewrite Hzl. unfold zl_bytes, es, K, Y. rewrite zents_app. cbn [zents]. by rewrite <- !app_assoc. }
  assert (zlen K = rawlen f + zsize k) as HK by (unfold K, Y; by rewrite zlen_app, zlen_ent, zlen_zents).
  assert (ent_ok r f') as Hf' by (apply (insert_next_ok r q); [done | eval_pow2; lia]).
  pose proof (rawlen_ge2 f' (ent_body _ _ Hf')) as Hf2.
  destruct (ziplistResize_ge (11 + zsize es) (tail_of es) cnt (zents 0 l ++ K) newlen) as (J & HJe & HJ & _).
  { rewrite zlen_app, zlen_zents. lia. } { lia. } { unfold UINT32_MAX. lia. }
  rewrite HM, HJe. simpl_bind. set (h := hdr newlen (tail_of es) cnt). assert (zlen h = 10) as Hh by done.
  destruct (insert_shift h (zents 0 l) q f f' Y J r) as (G & F & HG & HF & Hmove);
    [apply body_insert_next | lia | done | fold nextdiff; lia |].
  exists G. split; [done|]. fold K in Hmove. fold nextdiff in Hmove. rewrite zlen_zents, Hh, <- Hzp in Hmove.
  rewrite <- !app_assoc.
  destruct (ent_first_byte _ _ Hf) as (b & tl & Hbt & Hne).
  assert (load8 (h ++ zents 0 l ++ K ++ J ++ [ZIP_END]) (zpos l) = Some b) as ->.
  { rewrite (app_assoc h). unfold K. rewrite Hbt. cbn [app]. apply load8_mid. rewrite zlen_app, zlen_zents. lia. }
  simpl_bind. rewrite (proj2 (Z.eqb_neq _ _)) by done. cbn [negb].
  replace (11 + zsize es - zpos l - 1 + nextdiff) with (zlen K + nextdiff) by lia. rewrite Hmove. simpl_bind.
  set (Q := h ++ zents 0 l ++ G). assert (zlen Q = zpos l + r) as HQ by (unfold Q; rewrite !zlen_app, zlen_zents; lia).
  assert (h ++ zents 0 l ++ G ++ F ++ body f ++ Y ++ [ZIP_END] = Q ++ F ++ (body f ++ Y ++ [ZIP_END])) as ->
    by (unfold Q; by rewrite <- !app_assoc).
  pose proof (store_insert_next Q F (body f ++ Y ++ [ZIP_END]) r f HF Hr) as Hstore. rewrite HQ in Hstore.
  fold nd in Hstore. destruct (if (nd =? -4) && (r <? 4) then _ else _) as [[zl1 n]|]; [|done].
  simpl_bind in Hstore. apply (inj Some) in Hstore. rewrite Hstore. simpl_bind. fold f'.
  set (P := zents 0 l ++ G). assert (zlen P = zsize l + r) as HP by (unfold P; rewrite zlen_app, zlen_zents; lia).
  assert (forall t, hdr newlen t cnt ++ P ++ plen (big f') r ++ body f ++ Y ++ [ZIP_END] =
    (hdr newlen t cnt ++ P) ++ ent r f' ++ (Y ++ [ZIP_END])) as Hent.
  { intros t. unfold ent. rewrite (body_insert_next r f : body f' = body f). by rewrite <- !app_assoc. }
  assert (Q ++ plen (big f') r ++ body f ++ Y ++ [ZIP_END] = h ++ P ++ plen (big f') r ++ body f ++ Y ++ [ZIP_END]) as ->
    by (unfold Q, P; by rewrite <- !app_assoc).
  pose proof (insert_tail l f f' k G ltac:(lia)) as Htail. fold es P in Htail. rewrite HG, <- Hndd in Htail.
  assert (0 <= tail_of es < 2 ^ 32) as Ht.
  { pose proof (tail_of_range es Hes0). eval_pow2. lia. }
  assert (0 <= tail_of es + r < 2 ^ 32) as Htr.
  { pose proof (tail_of_range es Hes0). pose proof (last_raw_pos 0 es Hes0 ltac:(unfold es; by destruct l)).
    unfold tail_of in *. eval_pow2. lia. }
  unfold h. rewrite hdr_tail by done. simpl_bind. rewrite set_hdr_tail. simpl_bind. rewrite Hent.
  rewrite (assert_zipEntrySafe_at _ (hdr newlen (tail_of es + r) cnt ++ P) r f' (Y ++ [ZIP_END])); 
    [| done | rewrite zlen_app; change (zlen (hdr _ _ _)) with 10; lia | done | lia | lia | lia].
  simpl_bind. cbn [headersize len zle].
  assert (zpos l + (r + (plsize (big f') + fst (blens (body f'))) + snd (blens (body f'))) = zpos l + r + rawlen f') as ->
    by (rewrite rawlen_split by apply Hf'; lia).
  destruct (load8_after (hdr newlen (tail_of es + r) cnt ++ P) r f' (rawlen f) k (zpos l + r + rawlen f') Hk)
    as (b' & Hb8 & Hb'); [rewrite zlen_app; change (zlen (hdr _ _ _)) with 10; lia|].
  fold Y in Hb8. rewrite Hb8.
  simpl_bind. rewrite Hb', <- !app_assoc. replace (11 + zlen P + zsize (f' :: k)) with newlen by (cbn [zsize]; lia).
  cbv zeta. rewrite <- Htail.
  rewrite !(app_assoc (zents 0 l) G). fold P. case_bool_decide; cbn [negb]; [done|]. rewrite hdr_tail by done. simpl_bind. by rewrite set_hdr_tail.
Qed.

Lemma insert_mid_ok f k : zl_repr zl (l ++ f :: k) ->
  11 + zsize (l ++ f :: k) + rawlen new + 4 + 4 * zlen k < UINT32_MAX ->
  exists zl' f' k', ziplistInsert zl (zpos l) s = Some zl' /\ zl_repr zl' (l ++ new :: f' :: k') /\
    body <$> f' :: k' = body <$> f :: k /\ zsize (f' :: k') <= zsize (f :: k) + 4 + 4 * zlen k.
Proof using Hs Hlen.
  intros Hr Hlt. unfold UINT32_MAX in Hlt. pose proof (zlen_nonneg k) as Hnk.
  destruct (repr_entry zl l f k Hr) as (X & Y & HX & HpX & Hf & _ & _ & Hq & _). fold q in Hf, HX, Hq.
  pose proof (zl_entries _ _ Hr) as Hok. pose proof (zl_small _ _ Hr) as Hsm. pose proof (proj1 (zok_app _ _ _) Hok) as (Hl & _ & Hk).
  pose proof (zsize_nonneg _ _ Hl) as Hzl0. pose proof (zsize_nonneg _ _ Hk) as Hzk. unfold zpos in Hq.
  assert (zsize (l ++ f :: k) = zsize l + (rawlen f + zsize k)) as Hes by (rewrite zsize_app; done).
  pose proof (rawlen_ge2 f (ent_body _ _ Hf)) as Hrf.
  assert (ent_ok q new) as Hnew by (apply new_ent_ok; [done | done | eval_pow2; lia]).
  pose proof (rawlen_ge2 new (ent_body _ _ Hnew)) as Hn2. set (r := rawlen new) in *. set (f' := insert_next r f).
  destruct (insert_next_room r f ltac:(lia)) as (Hroom & Hnd & Hst). fold f' in Hroom, Hnd, Hst.
  assert (ent_ok r f') as Hf' by (apply (insert_next_ok r q); [done | eval_pow2; lia]).
  unfold ziplistInsert. rewrite (repr_bytes zl _ Hr). simpl_bind.
  destruct (repr_load8 zl l f k Hr) as (b & Hb & Hbne). pose proof (insert_prevlen zl l (f :: k) b Hr Hb) as Hprev.
  rewrite Hb. simpl_bind. rewrite Hprev. fold q. simpl_bind. rewrite zip_reqlen_ok. simpl_bind.
  rewrite reqlen_ok. fold r. rewrite Hbne. cbn [negb]. rewrite (uwrap_small 32 r) by (eval_pow2; lia).
  rewrite (zipPrevLenByteDiff_at zl X q f Y _ r HX HpX Hf). simpl_bind.
  rewrite (insert_next_diff r f : _ = rawlen f' - rawlen f). rewrite uwrap_small by (eval_pow2; lia).
  destruct Hr as [(cnt & Hzl & Hc) _ _].
  destruct (insert_move_ok f k cnt Hzl Hok ltac:(fold r; lia) ltac:(unfold UINT32_MAX; fold r f'; lia) Hsm) as (G & HG & Hmove).
  fold r in HG, Hmove. cbv zeta in Hmove. fold f' in Hmove.
  set (P := zents 0 l ++ G) in *. assert (zlen P = zsize l + r) as HP by (unfold P; rewrite zlen_app, zlen_zents; lia).
  destruct (cascade_after P r f f' k cnt Hf' Hk Hst) as (k' & Hcas & Hok' & Hbody & Hsize).
  { cbn [zsize]. unfold UINT32_MAX. lia. }
  destruct (ziplistResize zl _) as [zl1|]; [|done]. simpl_bind in Hmove. simpl_bind.
  destruct (load8 zl1 (zpos l)) as [b1|]; [|done]. simpl_bind in Hmove. simpl_bind. rewrite Hmove. simpl_bind.
  replace (zpos l + r) with (10 + zlen P) by (unfold zpos; lia). rewrite Hcas. simpl_bind.
  set (h := hdr (11 + zlen P + zsize (f' :: k')) (seam_tail P (f' :: k')) cnt).
  set (Y' := ent r f' ++ zents (rawlen f') k' ++ [ZIP_END]).
  pose proof (write_entry_at (h ++ zents 0 l) G Y' q s HG ltac:(lia)) as Hw.
  assert (zlen (h ++ zents 0 l) = zpos l) as Hzh by (rewrite zlen_app, zlen_zents; done).
  rewrite Hzh in Hw. fold new in Hw. rewrite <- !app_assoc in Hw. unfold P at 1. rewrite <- !app_assoc.
  destruct (zipStorePrevEntryLength _ _ q) as [[zl2 n]|]; [|done]. simpl_bind in Hw. simpl_bind. rewrite Hw. simpl_bind.
  destruct (incr_length_ok (11 + zlen P + zsize (f' :: k')) (seam_tail P (f' :: k')) cnt
    (zents 0 l ++ ent q new ++ Y') (zlen (l ++ f :: k)) 1) as (cnt' & Hincr & Hcnt');
    [done | apply zlen_nonneg | pose proof (zlen_nonneg (l ++ f :: k)); lia | lia |].
  eexists _, f', k'. split; [exact Hincr|]. split_and!.
  - replace (11 + zlen P + zsize (f' :: k')) with (11 + zlen (zents 0 l) + zsize (new :: f' :: k'))
      by (rewrite zlen_zents; cbn [zsize]; fold r; lia).
    replace (seam_tail P (f' :: k')) with (seam_tail (zents 0 l) (new :: f' :: k'))
      by (unfold seam_tail; rewrite zlen_zents; cbn [zsize last_raw]; fold r; lia).
    assert (Y' = zents (rawlen new) (f' :: k') ++ [ZIP_END]) as -> by (unfold Y'; cbn [zents]; by rewrite <- app_assoc).
    apply (seam_repr l new (f' :: k') cnt').
    + apply zok_app. split; [done|]. split; [done|]. by split.
    + rewrite zsize_app. cbn [zsize]. fold r. eval_pow2. lia.
    + replace (zlen (l ++ new :: f' :: k')) with (zlen (l ++ f :: k) + 1); [done|].
      rewrite !zlen_app, !zlen_cons, (zlen_bodies _ _ Hbody). lia.
  - cbn [fmap list_fmap]. rewrite Hbody. f_equal. apply body_insert_next.
  - cbn [zsize]. lia.
Qed.
End insert.

(** ** The operations on the list of values *)

Lemma body_of_len s : zlen (body_of s) <= zlen s + 9.
Proof.
  pose proof (zlen_nonneg s). unfold body_of. destruct (zipTryEncoding s) as [[v enc]|] eqn:Ht.
  - rewrite buf_int by exact (zipTryEncoding_enc _ _ _ Ht). rewrite zlen_app. change (zlen [enc]) with 1.
    assert (zlen (int_bytes v enc) <= 8); [|lia]. unfold int_bytes. repeat case_match; vm_compute; discriminate.
  - rewrite zlen_app. assert (zlen (zipStoreEntryEncoding_buf 0 (zlen s)) <= 5); [|lia].
    unfold zipStoreEntryEncoding_buf. change (ZIP_IS_STR 0) with true. cbv iota. repeat case_match; vm_compute; discriminate.
Qed.

Lemma rawlen_new q s : rawlen (new_ent q s) <= zlen s + 14.
Proof.
  unfold rawlen. cbn [new_ent body]. pose proof (body_of_len s). pose proof (plsize_range (big (new_ent q s))). lia.
Qed.

(** Nothing overflows when the ziplist and its growth, at most four bytes for every entry
    after the insertion point, stay below 4 GB. *)
Lemma ziplistInsert_ok `{Allocator} zl l k s : zl_repr zl (l ++ k) -> bytes_ok s -> zlen s < 2 ^ 32 ->
  11 + zsize (l ++ k) + 4 * zlen k + zlen s + 14 < UINT32_MAX ->
  exists zl' k', ziplistInsert zl (zpos l) s = Some zl' /\ zl_repr zl' (l ++ new_ent (last_raw 0 l) s :: k') /\
    body <$> k' = body <$> k.
Proof.
  intros Hr Hs Hlen Hlt. pose proof (rawlen_new (last_raw 0 l) s). destruct k as [|f k].
  - rewrite app_nil_r in *. change (zlen []) with 0 in Hlt.
    destruct (insert_end_ok zl s l Hs Hlen Hr) as (zl' & Hi & Hr'); [lia|]. by exists zl', [].
  - rewrite zlen_cons in Hlt. destruct (insert_mid_ok zl s l Hs Hlen f k Hr) as (zl' & f' & k' & Hi & Hr' & Hb & _); [lia|].
    by exists zl', (f' :: k').
Qed.

(** The entries after the deleted ones keep their bodies. *)
Lemma ziplistDelete_num_ok `{Allocator} zl l k num : zl_repr zl (l ++ k) -> k <> [] -> 1 <= num ->
  11 + zsize (l ++ k) + 4 * zlen k < UINT32_MAX ->
  exists zl' k', ziplistDelete_num zl (zpos l) num = Some zl' /\ zl_repr zl' (l ++ k') /\
    body <$> k' = drop (Z.to_nat num) (body <$> k) /\ zsize k' <= zsize k + 4 * zlen k.
Proof.
  intros Hr Hk Hnum Hlt. set (n := Z.to_nat num). pose proof (take_drop n k) as Htd. pose proof (zlen_nonneg k).
  rewrite <- fmap_drop. assert (take n k <> []) as Hd by (destruct k; [done|]; unfold n; by destruct (Z.to_nat num) eqn:?; [lia|]).
  pose proof (zl_entries _ _ Hr) as Hok. apply zok_app in Hok as [_ Hok]. rewrite <- Htd in Hok. apply zok_app in Hok as [Hokd Hok].
  pose proof (f_equal zsize Htd) as Hz. rewrite zsize_app in Hz. pose proof (f_equal zlen Htd) as Hn. rewrite zlen_app in Hn.
  pose proof (zlen_nonneg (take n k)). destruct (drop n k) as [|f r] eqn:Hdrop.
  - rewrite app_nil_r in Htd. rewrite <- Htd in Hr.
    destruct (delete_num_end zl l (take n k) num Hr Hd) as (zl' & Hi & Hr').
    { rewrite Htd. apply (f_equal length) in Hdrop. rewrite length_drop in Hdrop. simpl in Hdrop. unfold zlen, n in *. lia. }
    { rewrite Htd. lia. }
    exists zl', []. rewrite app_nil_r. split_and!; [done | done | done |]. cbn [zsize]. pose proof (zsize_nonneg _ _ Hokd).
    cbn [zsize] in Hz. lia.
  - rewrite zsize_app in Hlt. rewrite <- Htd in Hr. rewrite zlen_cons in Hn.
    destruct (delete_num_mid zl l (take n k) num f r Hr Hd) as (zl' & k' & Hi & Hr' & Hb & Hs).
    { apply (f_equal length) in Hdrop. rewrite length_drop in Hdrop. simpl in Hdrop. unfold zlen, n in *. rewrite length_take. lia. }
    { rewrite !zsize_app. lia. }
    exists zl', (resized (last_raw 0 l) f :: k'). split_and!; [done | done | by cbn; rewrite Hb |].
    pose proof (deleted_room _ _ f Hokd Hd). cbn [zsize] in *. rewrite rawlen_resized. lia.
Qed.

Lemma values_app l k : values (l ++ k) = values l ++ values k.
Proof. apply fmap_app. Qed.

Lemma values_new q s k : bytes_ok s -> zlen s < 2 ^ 32 -> values (new_ent q s :: k) = s :: values k.
Proof. intros Hs Hl. unfold values. cbn. f_equal. by apply body_of_ok. Qed.

Lemma values_drop k k' n : body <$> k' = drop n (body <$> k) -> values k' = drop n (values k).
Proof. intros H. unfold values. rewrite !list_fmap_compose, H. by rewrite <- !fmap_drop. Qed.

(** ziplistSafeToAdd() leaves room for the growth of every entry. *)
Lemma safe_to_add_room zl es (s : list Z) : zl_repr zl es -> zlen s < 2 ^ 32 -> ziplistSafeToAdd (Some zl) (zlen s) = Some true ->
  11 + zsize es + 4 * zlen es + zlen s + 14 < UINT32_MAX.
Proof.
  intros Hr Hs. unfold ziplistSafeToAdd, ziplistBlobLen. rewrite (repr_bytes zl es Hr). simpl_bind.
  pose proof (zl_small _ _ Hr). pose proof (zok_ge _ _ (zl_entries _ _ Hr)). pose proof (zlen_nonneg s).
  pose proof (zlen_nonneg es). rewrite uwrap_small by (eval_pow2; lia). change ZIPLIST_MAX_SAFETY_SIZE with 1073741824.
  destruct (Z.ltb_spec 1073741824 (11 + zsize es + zlen s)); [done|]. unfold UINT32_MAX. lia.
Qed.

(** ** Replacement *)

(** The body of an entry is overwritten by one of the same size. *)
Lemma replace_body zl l e b k : zlen b = zlen (body e) -> body_ok b -> zl_repr zl (l ++ e :: k) ->
  exists X Y, zl = X ++ body e ++ Y /\ zlen X = zpos l + plsize (big e) /\
    zl_repr (X ++ b ++ Y) (l ++ {| big := big e; body := b |} :: k).
Proof.
  intros Hlen Hb Hr. set (e' := {| big := big e; body := b |}).
  assert (rawlen e' = rawlen e) as Hraw by (unfold rawlen; cbn [e' big body]; lia).
  destruct Hr as [(cnt & -> & Hc) Hok Hsm]. apply zok_app in Hok as [Hl [He Hk]].
  set (h := hdr (11 + zsize (l ++ e :: k)) (tail_of (l ++ e :: k)) cnt).
  assert (zsize (l ++ e' :: k) = zsize (l ++ e :: k)) as Hz by (rewrite !zsize_app; cbn [zsize]; lia).
  exists (h ++ zents 0 l ++ plen (big e) (last_raw 0 l)), (zents (rawlen e) k ++ [ZIP_END]). split_and!.
  - unfold zl_bytes. rewrite zents_app. cbn [zents]. unfold ent. by rewrite <- !app_assoc.
  - rewrite !zlen_app, zlen_zents, zlen_plen. change (zlen h) with 10. unfold zpos. lia.
  - split; [| apply zok_app; split; [done|]; split; [|by rewrite Hraw] | by rewrite Hz].
    + exists cnt. split; [|by rewrite zlen_app, zlen_cons in *]. unfold zl_bytes, h, tail_of.
      rewrite Hz, !last_raw_app. cbn [last_raw]. rewrite Hraw, zents_app. cbn [zents]. unfold ent. cbn [e' big body].
      rewrite Hraw. by rewrite <- !app_assoc.
    + split; [done | apply He | apply He].
Qed.

Lemma ziplistReplace_ok `{Allocator} zl l e k s : zl_repr zl (l ++ e :: k) -> bytes_ok s -> zlen s < 2 ^ 32 ->
  11 + zsize (l ++ e :: k) + 8 * zlen (l ++ e :: k) + zlen s + 14 < UINT32_MAX ->
  exists zl' e' k', ziplistReplace zl (zpos l) s = Some zl' /\ zl_repr zl' (l ++ e' :: k') /\
    body e' = body_of s /\ body <$> k' = body <$> k.
Proof.
  intros Hr Hs Hlen Hlt. pose proof (zlen_nonneg l). pose proof (zlen_nonneg k). pose proof (zlen_nonneg s).
  pose proof (zl_entries _ _ Hr) as Hok. apply zok_app in Hok as [Hl [He Hk]].
  pose proof (zsize_nonneg _ _ Hl). pose proof (zsize_nonneg _ _ Hk). pose proof (body_of_len s).
  pose proof (zlen_nonneg (body_of s)). pose proof (rawlen_split e (ent_body _ _ He)) as Hraw.
  rewrite zsize_app, zlen_app, zlen_cons in Hlt. cbn [zsize] in Hlt. unfold UINT32_MAX in Hlt.
  unfold ziplistReplace. rewrite (repr_zipEntry zl l e k Hr). simpl_bind. rewrite zip_reqlen_ok. simpl_bind.
  cbn [zle lensize len prevrawlensize]. rewrite <- (body_size _ (ent_body _ _ He)).
  pose proof (plsize_range (big e)). pose proof (zlen_nonneg (body e)). unfold rawlen in Hlt.
  rewrite !uwrap_small by (eval_pow2; lia). destruct (Z.eqb_spec (zlen (body_of s)) (zlen (body e))) as [Heq|Hne].
  - destruct (replace_body zl l e (body_of s) k Heq (proj1 (body_of_ok s Hs Hlen)) Hr) as (X & Y & -> & HX & Hr').
    rewrite <- HX, zip_write_at by done. by eexists _, _, k.
  - unfold ziplistDelete.
    destruct (ziplistDelete_num_ok zl l (e :: k) 1 Hr) as (zl1 & k1 & -> & Hr1 & Hb1 & Hs1); [done | lia | |].
    { rewrite zsize_app, zlen_cons. cbn [zsize]. unfold UINT32_MAX, rawlen in *. lia. }
    change (drop (Z.to_nat 1) (body <$> e :: k)) with (drop 0 (body <$> k)) in Hb1. rewrite drop_0 in Hb1.
    simpl_bind. pose proof (zlen_bodies _ _ Hb1) as Hk1. rewrite zlen_cons in Hs1. cbn [zsize] in Hs1. unfold rawlen in Hs1.
    destruct (ziplistInsert_ok zl1 l k1 s Hr1 Hs Hlen) as (zl' & k' & -> & Hr' & Hb').
    { rewrite zsize_app. unfold UINT32_MAX. lia. }
    eexists _, _, k'. split; [done|]. split; [exact Hr'|]. split; [done|]. by rewrite Hb'.
Qed.

(** ** Merging *)

Lemma merge_count c1 c2 n1 n2 : count_ok c1 n1 -> count_ok c2 n2 -> 0 <= n1 -> 0 <= n2 ->
  count_ok (if c1 + c2 <? UINT16_MAX then c1 + c2 else UINT16_MAX) (n1 + n2).
Proof.
  unfold count_ok, LP_HDR_NUMELE_UNKNOWN, UINT16_MAX. intros H1 H2 Hn1 Hn2.
  destruct (Z.ltb_spec (c1 + c2) 65535); lia.
Qed.

(** The entries of the two ziplists side by side, with the header of the result. *)
Lemma merge_seam `{Allocator} es1 es2 cnt : zok 0 es1 -> zok 0 es2 -> es2 <> [] ->
  11 + zsize es1 + zsize es2 + 4 * zlen es2 < UINT32_MAX -> count_ok cnt (zlen es1 + zlen es2) ->
  exists zl' k', ziplistCascadeUpdate
      (hdr (11 + zsize es1 + zsize es2) (10 + zsize es1 + (tail_of es2 - 10)) cnt ++ zents 0 es1 ++ zents 0 es2 ++ [ZIP_END])
      (tail_of es1) = Some zl' /\ zl_repr zl' (es1 ++ k') /\ body <$> k' = body <$> es2.
Proof.
  intros H1 H2 Hne Hlt Hc. pose proof (zsize_nonneg _ _ H1). pose proof (zsize_nonneg _ _ H2). unfold UINT32_MAX in Hlt.
  pose proof (zlen_nonneg es2). destruct es1 as [|e l _] using rev_ind.
  - destruct es2 as [|e k]; [done|]. destruct H2 as [He Hk]. exists (zl_bytes cnt (e :: k)), (e :: k).
    change (tail_of []) with (10 + zlen (@nil Z)). cbn [zsize zents app] in *. rewrite zlen_cons in *.
    pose proof (rawlen_ge2 e (ent_body _ _ He)). pose proof (ziplistCascadeUpdate_ok [] 0 (rawlen e) e k cnt He Hk) as Hcas.
    specialize (Hcas ltac:(right; right; lia)). change (zlen (@nil Z)) with 0 in *. cbn [zsize] in Hcas.
    specialize (Hcas ltac:(unfold UINT32_MAX; lia)). rewrite (cascade_id (rawlen e)) in Hcas by (done || lia).
    unfold zl_bytes, tail_of, seam_tail in *. cbn [zsize last_raw zents app] in *. change (zlen (@nil Z)) with 0 in *.
    replace (10 + 0 + (10 + (rawlen e + zsize k) - last_raw (rawlen e) k - 10))
      with (10 + 0 + (rawlen e + zsize k) - last_raw (rawlen e) k) by lia.
    rewrite <- !app_assoc. replace (11 + (rawlen e + zsize k)) with (11 + 0 + (rawlen e + zsize k)) by lia.
    split; [exact Hcas|]. split; [|done]. split.
    + exists cnt. split; [|by rewrite zlen_cons]. unfold zl_bytes, tail_of. cbn [zsize last_raw zents].
      rewrite <- app_assoc. done.
    + by split.
    + cbn [zsize]. eval_pow2. lia.
  - apply zok_app in H1 as [Hl [He _]]. pose proof (zsize_nonneg _ _ Hl). rewrite zsize_app in *. cbn [zsize] in *. rewrite Z.add_0_r in *.
    pose proof (rawlen_ge2 e (ent_body _ _ He)).
    pose proof (ziplistCascadeUpdate_ok (zents 0 l) (last_raw 0 l) 0 e es2 cnt He H2 ltac:(by left)) as Hcas.
    rewrite zlen_zents in Hcas. cbn [zsize] in Hcas. specialize (Hcas ltac:(unfold UINT32_MAX; lia)).
    pose proof (zsize_cascade (rawlen e) es2) as Hz. set (k' := cascade (rawlen e) es2) in *.
    eexists _, k'. rewrite tail_of_snoc, zents_app. cbn [zents]. rewrite app_nil_r, <- !app_assoc.
    replace (11 + (zsize l + rawlen e) + zsize es2) with (11 + zsize l + (rawlen e + zsize es2)) by lia.
    replace (10 + (zsize l + rawlen e) + (tail_of es2 - 10)) with (seam_tail (zents 0 l) (e :: es2)).
    2: { unfold seam_tail, tail_of. rewrite zlen_zents. cbn [zsize last_raw]. rewrite (last_raw_ne (rawlen e) 0 es2 Hne). lia. }
    split; [exact Hcas|]. split; [|apply bodies_cascade]. change (l ++ [e] ++ k') with (l ++ e :: k').
    pose proof (seam_repr l e k' cnt) as Hsr. cbv zeta in Hsr. rewrite zlen_zents in Hsr. apply Hsr.
    + apply zok_app. split; [done|]. split; [done|]. apply (zok_cascade 0); [done | lia | eval_pow2; lia].
    + rewrite zsize_app. cbn [zsize]. eval_pow2. lia.
    + rewrite zlen_app, zlen_cons in *. unfold k'. rewrite (zlen_bodies _ _ (bodies_cascade (rawlen e) es2)).
      change (zlen [e]) with 1 in Hc. by replace (zlen l + (1 + zlen es2)) with (zlen l + 1 + zlen es2) by lia.
Qed.

(** Appending to the first ziplist or prepending to the second one gives the same bytes. *)
Lemma merge_bytes `{Allocator} es1 es2 c1 c2 (append : bool) : let z1 := zl_bytes c1 es1 in let z2 := zl_bytes c2 es2 in
  zok 0 es1 -> zok 0 es2 ->
  let T1 := 11 + zsize es1 in let T2 := 11 + zsize es2 in
  (if append then
     bs ← mem_load z2 ZIPLIST_HEADER_SIZE (T2 - ZIPLIST_HEADER_SIZE);
     mem_store (zrealloc z1 (T1 + zsize es2)) (T1 - ZIPLIST_END_SIZE) bs
   else
     target ← memmove (zrealloc z2 (T1 + zsize es2)) (T1 - ZIPLIST_END_SIZE) ZIPLIST_HEADER_SIZE (T2 - ZIPLIST_HEADER_SIZE);
     bs ← mem_load z1 0 (T1 - ZIPLIST_END_SIZE);
     mem_store target 0 bs) =
  Some (hdr T1 (tail_of es1) c1 ++ zents 0 es1 ++ zents 0 es2 ++ [ZIP_END]).
Proof.
  intros z1 z2 H1 H2 T1 T2. pose proof (zsize_nonneg _ _ H1) as Hz1. pose proof (zsize_nonneg _ _ H2) as Hz2.
  unfold ZIPLIST_HEADER_SIZE, ZIPLIST_END_SIZE.
  assert (zlen (zents 0 es1) = zsize es1 /\ zlen (zents 0 es2) = zsize es2) as [HE1 HE2] by (by rewrite !zlen_zents).
  assert (zlen z1 = T1 /\ zlen z2 = T2) as [HT1 HT2] by (unfold z1, z2; by rewrite !zlen_zl_bytes).
  destruct append.
  - assert (mem_load z2 10 (T2 - 10) = Some (zents 0 es2 ++ [ZIP_END])) as ->.
    { unfold z2, zl_bytes. apply mem_load_suffix. rewrite zlen_app, HE2. change (zlen [ZIP_END]) with 1. unfold T2. lia. }
    simpl_bind. destruct (zrealloc_grow z1 (T1 + zsize es2)) as (tl & -> & _ & Htl); [lia|].
    unfold z1, zl_bytes. fold T1. rewrite <- !app_assoc, app_assoc.
    assert ([ZIP_END] ++ tl = ([ZIP_END] ++ tl) ++ []) as -> by (by rewrite app_nil_r).
    rewrite mem_store_mid; [by rewrite app_nil_r, <- !app_assoc | rewrite zlen_app, HE1, zlen_hdr; unfold T1; lia |].
    rewrite !length_app. unfold zlen in *. simpl. lia.
  - destruct (zrealloc_grow z2 (T1 + zsize es2)) as (tl & -> & _ & Htl); [lia|].
    unfold z2, zl_bytes. fold T2. set (h := hdr T2 (tail_of es2) c2). rewrite <- app_assoc.
    destruct (split_at_len ((zents 0 es2 ++ [ZIP_END]) ++ tl) (zsize es1)) as (G & V & HGV & HG & HV).
    { rewrite !zlen_app. change (zlen [ZIP_END]) with 1. lia. }
    rewrite !zlen_app in HV. change (zlen [ZIP_END]) with 1 in HV.
    rewrite (memmove_at _ h (zents 0 es2 ++ [ZIP_END]) tl (h ++ G) V []); try done;
      [| rewrite app_nil_r, <- (app_assoc h G V), <- HGV; by rewrite <- !app_assoc
       | rewrite zlen_app; change (zlen [ZIP_END]) with 1; lia
       | rewrite zlen_app; change (zlen h) with 10; unfold T1; lia
       | rewrite zlen_app; change (zlen [ZIP_END]) with 1; unfold T2; lia ].
    simpl_bind. assert (mem_load z1 0 (T1 - 1) = Some (hdr T1 (tail_of es1) c1 ++ zents 0 es1)) as ->.
    { unfold z1, zl_bytes. rewrite app_assoc. apply mem_load_head. rewrite zlen_app, HE1, zlen_hdr. unfold T1. lia. }
    simpl_bind. rewrite app_nil_r.
    rewrite (mem_store_mid [] (h ++ G) _ (zents 0 es2 ++ [ZIP_END]) 0); [by rewrite <- !app_assoc | done |].
    rewrite !length_app. unfold zlen in *. simpl. lia.
Qed.

Lemma ziplistMerge_ok `{Allocator} z1 z2 es1 es2 : zl_repr z1 es1 -> zl_repr z2 es2 -> es2 <> [] ->
  11 + zsize es1 + zsize es2 + 4 * zlen es2 < UINT32_MAX ->
  exists zl' append k', ziplistMerge (Some z1) (Some z2) false = Some (Some (zl', append)) /\
    zl_repr zl' (es1 ++ k') /\ body <$> k' = body <$> es2.
Proof.
  intros Hr1 Hr2 Hne Hlt. unfold ziplistMerge. rewrite (repr_bytes z1 _ Hr1), (repr_bytes z2 _ Hr2).
  rewrite (repr_tail z1 _ Hr1), (repr_tail z2 _ Hr2). simpl_bind.
  destruct Hr1 as [(c1 & -> & Hc1) H1 Hs1]. destruct Hr2 as [(c2 & -> & Hc2) H2 Hs2].
  pose proof (zlen_nonneg es1). pose proof (zlen_nonneg es2). pose proof (zsize_nonneg _ _ H1). pose proof (zsize_nonneg _ _ H2).
  assert (ZIPLIST_LENGTH (zl_bytes c1 es1) = Some c1) as -> by (apply hdr_length; by apply (count_ok_range _ _ Hc1)).
  assert (ZIPLIST_LENGTH (zl_bytes c2 es2) = Some c2) as -> by (apply hdr_length; by apply (count_ok_range _ _ Hc2)).
  simpl_bind.
  set (cnt := if c1 + c2 <? UINT16_MAX then c1 + c2 else UINT16_MAX).
  pose proof (merge_count c1 c2 _ _ Hc1 Hc2 ltac:(done) ltac:(done)) as Hcnt. fold cnt in Hcnt.
  destruct (merge_seam es1 es2 cnt H1 H2 Hne Hlt Hcnt) as (zl' & k' & Hseam & Hr & Hb).
  exists zl', (c2 <=? c1), k'. split; [|done]. unfold UINT32_MAX in Hlt.
  assert (u64 (11 + zsize es1 + (11 + zsize es2) - ZIPLIST_HEADER_SIZE - ZIPLIST_END_SIZE) =
    11 + zsize es1 + zsize es2) as Hu
    by (unfold ZIPLIST_HEADER_SIZE, ZIPLIST_END_SIZE; rewrite uwrap_small; eval_pow2; lia).
  pose proof (merge_bytes es1 es2 c1 c2 (c2 <=? c1) H1 H2) as Hm. cbv zeta in Hm.
  destruct (c2 <=? c1); rewrite Hu; rewrite (proj2 (Z.ltb_lt _ _)) by (unfold UINT32_MAX; lia);
    rewrite Hm; simpl_bind; rewrite set_hdr_bytes; simpl_bind; rewrite set_hdr_length; simpl_bind; rewrite set_hdr_tail; simpl_bind;
    unfold ZIPLIST_END_SIZE, ZIPLIST_HEADER_SIZE; replace (11 + zsize es1 - 1) with (10 + zsize es1) by lia; by rewrite Hseam.
Qed.

Lemma ziplistNew_ok `{Allocator} : exists zl, ziplistNew = Some zl /\ zl_repr zl [].
Proof.
  unfold ziplistNew. change (ZIPLIST_HEADER_SIZE + ZIPLIST_END_SIZE) with 11.
  assert (exists m, zrealloc [] 11 = m /\ length m = 11%nat) as (m & -> & Hm) by (eexists; by rewrite length_zrealloc).
  do 11 (destruct m as [|? m]; [done|]). destruct m; [|done].
  exists (zl_bytes 0 []). split; [done|]. split; [|done|done]. exists 0. split; [done|]. by right.
Qed.

(** ** Properties *)

(** C34. ziplistInsert() puts the string before the entry at 'p' and leaves the other values
    and their order as they are. The result is well formed: every prevlen field holds the
    size of the entry before it, after the cascade of updates that the insertion may need,
    and the header is right. When ziplistSafeToAdd() allows the addition no size overflows
    and no assertion fails. *)
Theorem ziplistInsert_correct `{Allocator} zl l k s : zl_repr zl (l ++ k) -> bytes_ok s -> zlen s < 2 ^ 32 ->
  ziplistSafeToAdd (Some zl) (zlen s) = Some true ->
  exists zl' e k', ziplistInsert zl (zpos l) s = Some zl' /\ zl_repr zl' (l ++ e :: k') /\
    bval (body e) = s /\ values k' = values k.
Proof.
  intros Hr Hs Hlen Hsafe. pose proof (safe_to_add_room _ _ _ Hr Hlen Hsafe) as Hroom. rewrite zlen_app in Hroom.
  pose proof (zlen_nonneg l). destruct (ziplistInsert_ok zl l k s Hr Hs Hlen) as (zl' & k' & Hi & Hr' & Hb); [lia|].
  exists zl', (new_ent (last_raw 0 l) s), k'. split_and!; [done | done | by apply body_of_ok | by apply values_bodies].
Qed.

(** ziplistPush() adds the string at the head or at the tail of the list of values. *)
Theorem ziplistPush_correct `{Allocator} zl es s w : zl_repr zl es -> bytes_ok s -> zlen s < 2 ^ 32 ->
  ziplistSafeToAdd (Some zl) (zlen s) = Some true ->
  exists zl' es', ziplistPush zl s w = Some zl' /\ zl_repr zl' es' /\
    values es' = match w with ZIPLIST_HEAD => s :: values es | ZIPLIST_TAIL => values es ++ [s] end.
Proof.
  intros Hr Hs Hlen Hsafe. pose proof (safe_to_add_room _ _ _ Hr Hlen Hsafe) as Hroom. pose proof (zlen_nonneg es).
  unfold ziplistPush. destruct w.
  - simpl_bind. destruct (ziplistInsert_ok zl [] es s Hr Hs Hlen) as (zl' & k' & Hi & Hr' & Hb); [rewrite app_nil_l; lia|].
    exists zl', (new_ent 0 s :: k'). split_and!; [done | done | by rewrite values_new, (values_bodies _ _ Hb)].
  - unfold ZIPLIST_ENTRY_END. rewrite (repr_bytes zl es Hr). simpl_bind.
    replace (11 + zsize es - 1) with (zpos es) by (unfold zpos; lia). rewrite <- (app_nil_r es) in Hr.
    destruct (ziplistInsert_ok zl es [] s Hr Hs Hlen) as (zl' & k' & Hi & Hr' & Hb);
      [rewrite app_nil_r; change (zlen []) with 0; lia|].
    exists zl', (es ++ new_ent (last_raw 0 es) s :: k'). split_and!; [done | done |].
    rewrite values_app, values_new, (values_bodies _ _ Hb) by done. done.
Qed.

(** C35. __ziplistDelete() removes 'num' entries from the one at 'p' on, or all of them when
    there are fewer, and nothing else; the chain of prevlen fields, the tail offset and the
    count are right again. *)
Theorem ziplistDelete_correct `{Allocator} zl l k num : zl_repr zl (l ++ k) -> k <> [] -> 1 <= num ->
  11 + zsize (l ++ k) + 4 * zlen k < UINT32_MAX ->
  exists zl' k', ziplistDelete_num zl (zpos l) num = Some zl' /\ zl_repr zl' (l ++ k') /\
    values k' = drop (Z.to_nat num) (values k).
Proof.
  intros Hr Hk Hn Hlt. destruct (ziplistDelete_num_ok zl l k num Hr Hk Hn Hlt) as (zl' & k' & Hi & Hr' & Hb & _).
  exists zl', k'. split_and!; [done | done | by apply values_drop].
Qed.

(** C36. ziplistMerge() gives the values of the first ziplist followed by those of the second
    one, whichever of the two blocks is kept, with the chain repaired at the seam. The second
    ziplist must not be empty. *)
Theorem ziplistMerge_correct `{Allocator} z1 z2 es1 es2 : zl_repr z1 es1 -> zl_repr z2 es2 -> es2 <> [] ->
  11 + zsize es1 + zsize es2 + 4 * zlen es2 < UINT32_MAX ->
  exists zl' append es', ziplistMerge (Some z1) (Some z2) false = Some (Some (zl', append)) /\
    zl_repr zl' es' /\ values es' = values es1 ++ values es2.
Proof.
  intros Hr1 Hr2 Hne Hlt. destruct (ziplistMerge_ok z1 z2 es1 es2 Hr1 Hr2 Hne Hlt) as (zl' & a & k' & Hm & Hr & Hb).
  exists zl', a, (es1 ++ k'). split_and!; [done | done | by rewrite values_app, (values_bodies _ _ Hb)].
Qed.

(** ziplistReplace() puts the string in the place of the value at 'p' and changes nothing
    else, in place when the new encoding has the size of the old one. *)
Theorem ziplistReplace_correct `{Allocator} zl l e k s : zl_repr zl (l ++ e :: k) -> bytes_ok s -> zlen s < 2 ^ 32 ->
  11 + zsize (l ++ e :: k) + 8 * zlen (l ++ e :: k) + zlen s + 14 < UINT32_MAX ->
  exists zl' e' k', ziplistReplace zl (zpos l) s = Some zl' /\ zl_repr zl' (l ++ e' :: k') /\
    bval (body e') = s /\ values k' = values k.
Proof.
  intros Hr Hs Hlen Hlt. destruct (ziplistReplace_ok zl l e k s Hr Hs Hlen Hlt) as (zl' & e' & k' & Hi & Hr' & He & Hb).
  exists zl', e', k'. rewrite He. split_and!; [done | done | by apply body_of_ok | by apply values_bodies].
Qed.

(** ziplistDeleteRange(): the entries from an index on, nothing when there is none there. *)
Lemma ziplistDeleteRange_ok `{Allocator} zl es index num : zl_repr zl es -> es <> [] -> INT32_MIN < index -> 1 <= num ->
  11 + zsize es + 4 * zlen es < UINT32_MAX ->
  exists zl' es', ziplistDeleteRange zl index num = Some zl' /\ zl_repr zl' es' /\
    let i := if index <? 0 then zlen es + index else index in
    values es' = if (0 <=? i) && (i <? zlen es)
                 then take (Z.to_nat i) (values es) ++ drop (Z.to_nat i + Z.to_nat num) (values es) else values es.
Proof.
  intros Hr Hne Hi Hn Hlt. unfold ziplistDeleteRange. rewrite (ziplistIndex_ok zl es index Hr Hi) by done. simpl_bind.
  unfold zelem_pos. set (i := if index <? 0 then zlen es + index else index).
  destruct ((0 <=? i) && (i <? zlen es)) eqn:Hin; [|by exists zl, es].
  apply andb_true_iff in Hin as [H0%Z.leb_le H1%Z.ltb_lt]. set (n := Z.to_nat i).
  rewrite <- (take_drop n es) in Hr. pose proof (f_equal zlen (take_drop n es)) as Hz. rewrite zlen_app in Hz.
  pose proof (zlen_nonneg (take n es)).
  destruct (ziplistDelete_num_ok zl (take n es) (drop n es) num Hr) as (zl' & k' & Hd & Hr' & Hb & _).
  - intros Hnil%(f_equal length). rewrite length_drop in Hnil. simpl in Hnil. unfold zlen, n in *. lia.
  - done.
  - rewrite take_drop. lia.
  - exists zl', (take n es ++ k'). split_and!; [done | done|]. cbv zeta.
    rewrite values_app, (values_drop _ _ _ Hb). unfold values. by rewrite !fmap_drop, fmap_take, drop_drop.
Qed.

(** ** Examples *)

#[local] Existing Instance exact_allocator.

Lemma ziplistInsert_correct_witness : exists zl' e k',
  ziplistInsert zl_example (zpos (take 1 zl_example_entries)) (str "-129") = Some zl' /\
  zl_repr zl' (take 1 zl_example_entries ++ e :: k') /\ bval (body e) = str "-129" /\
  values k' = values (drop 1 zl_example_entries).
Proof.
  apply (ziplistInsert_correct zl_example (take 1 zl_example_entries) (drop 1 zl_example_entries) (str "-129"));
    [exact zl_example_repr | apply bytes_ok_str | vm_compute; reflexivity | vm_compute; reflexivity].
Defined.

Lemma ziplistPush_correct_witness : exists zl' es', ziplistPush zl_example (str "9") ZIPLIST_HEAD = Some zl' /\
  zl_repr zl' es' /\ values es' = str "9" :: values zl_example_entries.
Proof.
  apply (ziplistPush_correct zl_example zl_example_entries (str "9") ZIPLIST_HEAD);
    [exact zl_example_repr | apply bytes_ok_str | vm_compute; reflexivity | vm_compute; reflexivity].
Defined.

Lemma ziplistDelete_correct_witness : exists zl' k', ziplistDelete_num zl_example (zpos (take 1 zl_example_entries)) 1 = Some zl' /\
  zl_repr zl' (take 1 zl_example_entries ++ k') /\ values k' = drop (Z.to_nat 1) (values (drop 1 zl_example_entries)).
Proof.
  apply (ziplistDelete_correct zl_example (take 1 zl_example_entries) (drop 1 zl_example_entries) 1);
    [exact zl_example_repr | discriminate | lia | vm_compute; reflexivity].
Defined.

Lemma ziplistReplace_correct_witness : exists zl' e' k',
  ziplistReplace zl_example (zpos (take 1 zl_example_entries)) (str "hello") = Some zl' /\
  zl_repr zl' (take 1 zl_example_entries ++ e' :: k') /\ bval (body e') = str "hello" /\
  values k' = values (drop 2 zl_example_entries).
Proof.
  apply (ziplistReplace_correct zl_example (take 1 zl_example_entries) {| big := false; body := body_of (str "1024") |}
    (drop 2 zl_example_entries) (str "hello"));
    [exact zl_example_repr | apply bytes_ok_str | vm_compute; reflexivity | vm_compute; reflexivity].
Defined.

Lemma ziplistMerge_correct_witness : exists zl' append es',
  ziplistMerge (Some zl_example) (Some zl_example) false = Some (Some (zl', append)) /\
  zl_repr zl' es' /\ values es' = values zl_example_entries ++ values zl_example_entries.
Proof.
  apply (ziplistMerge_correct zl_example zl_example zl_example_entries zl_example_entries);
    [exact zl_example_repr | exact zl_example_repr | discriminate | vm_compute; reflexivity].
Defined.

(** When the second ziplist is empty, the tail offset of the result is that of its end marker:
    the result of the merge does not pass the validation. *)
Lemma ziplistMerge_empty_second :
  (second ← ziplistNew;
   r ← ziplistMerge (Some zl_example) (Some second) false;
   '(zl', append) ← r;
   tail ← ZIPLIST_TAIL_OFFSET zl';
   '(ok, _) ← ziplistValidateIntegrity zl' (zlen zl') true None ();
   Some (append, tail =? zlen zl' - 1, ok)) = Some (true, true, false).
Proof. vm_compute. reflexivity. Qed.
