(* ===== verification/ZiplistValid.v ===== *)
(** * Ziplists: validation of untrusted bytes

    ziplistValidateIntegrity() and zipEntrySafe() of ziplist.c on arbitrary bytes: they never
    read outside of the block, and what they accept is a well-formed ziplist. *)
From S2P Require Import Prelude.
From S2P Require Import Util.
From S2P Require Import Listpack.
From S2P Require Import Ziplist.
From S2P Require Import ZiplistNav.

(** ** Reading inside a block *)

Lemma load8_inner a r c i : 0 <= i < zlen r -> load8 (a ++ r ++ c) (zlen a + i) = load8 r i.
Proof.
  intros Hi. destruct (proj1 (load8_is_Some r i) Hi) as [x Hx]. rewrite Hx. by apply load8_frame.
Qed.

Lemma ENCODING_inner a r c : 1 <= zlen r -> ZIP_ENTRY_ENCODING (a ++ r ++ c) (zlen a) = ZIP_ENTRY_ENCODING r 0.
Proof.
  intros Hr. unfold ZIP_ENTRY_ENCODING. rewrite <- (Z.add_0_r (zlen a)), load8_inner by lia. done.
Qed.

Lemma LENGTH_inner a r c enc : 5 <= zlen r \/ 1 <= zipEncodingLenSize enc <= zlen r ->
  ZIP_DECODE_LENGTH (a ++ r ++ c) (zlen a) enc = ZIP_DECODE_LENGTH r 0 enc.
Proof.
  intros Hr. unfold ZIP_DECODE_LENGTH. rewrite !Z.add_0_l.
  destruct (enc <? ZIP_STR_MASK) eqn:Hs; [|done].
  destruct (Z.eqb_spec enc ZIP_STR_06B) as [->|]; [|destruct (Z.eqb_spec enc ZIP_STR_14B) as [->|];
    [|destruct (Z.eqb_spec enc ZIP_STR_32B) as [->|]; [|done]]].
  - change (zipEncodingLenSize ZIP_STR_06B) with 1 in Hr. rewrite <- (Z.add_0_r (zlen a)), load8_inner by lia. done.
  - change (zipEncodingLenSize ZIP_STR_14B) with 2 in Hr. rewrite <- (Z.add_0_r (zlen a)) at 1.
    rewrite !load8_inner by lia. done.
  - change (zipEncodingLenSize ZIP_STR_32B) with 5 in Hr. rewrite !load8_inner by lia. done.
Qed.

(** The result of zipEntrySafe() does not depend on the path: the two of them read the same
    fields and make the same tests. *)
Definition decoded (m : list Z) (p : Z) (e : zlentry) : Prop :=
  ZIP_DECODE_PREVLEN m p = Some (prevrawlensize e, prevrawlen e) /\
  ZIP_ENTRY_ENCODING m (p + prevrawlensize e) = Some (encoding e) /\
  ZIP_DECODE_LENGTH m (p + prevrawlensize e) (encoding e) = Some (lensize e, len e) /\
  lensize e <> 0 /\ headersize e = prevrawlensize e + lensize e /\ ptr e = p.

Lemma PREVLENSIZE_total m p : 0 <= p < zlen m ->
  exists ps, ZIP_DECODE_PREVLENSIZE m p = Some ps /\ (ps = 1 \/ ps = 5).
Proof.
  intros Hp. destruct (proj1 (load8_is_Some m p) Hp) as [b Hb]. unfold ZIP_DECODE_PREVLENSIZE. rewrite Hb.
  simpl_bind. eexists. split; [done|]. case_match; [by left | by right].
Qed.

Lemma PREVLEN_total m p ps : ZIP_DECODE_PREVLENSIZE m p = Some ps -> 0 <= p -> p + ps <= zlen m ->
  exists prev, ZIP_DECODE_PREVLEN m p = Some (ps, prev).
Proof.
  intros Hps Hp Hend. unfold ZIP_DECODE_PREVLEN. rewrite Hps. simpl_bind.
  assert (ps = 1 \/ ps = 5) as [-> | ->].
  { unfold ZIP_DECODE_PREVLENSIZE in Hps. destruct (load8 m p); [|done]. injection Hps as <-. case_match; [by left | by right]. }
  - destruct (proj1 (load8_is_Some m p)) as [b ->]; [lia|]. by eexists.
  - change (5 =? 1) with false. cbv iota.
    destruct (proj1 (load8_is_Some m (p + 4))) as [b4 ->]; [lia|]. destruct (proj1 (load8_is_Some m (p + 3))) as [b3 ->]; [lia|].
    destruct (proj1 (load8_is_Some m (p + 2))) as [b2 ->]; [lia|]. destruct (proj1 (load8_is_Some m (p + 1))) as [b1 ->]; [lia|].
    by eexists.
Qed.

Lemma ENCODING_total m p : 0 <= p < zlen m -> exists enc, ZIP_ENTRY_ENCODING m p = Some enc.
Proof.
  intros Hp. destruct (proj1 (load8_is_Some m p) Hp) as [b Hb]. unfold ZIP_ENTRY_ENCODING. rewrite Hb. by eexists.
Qed.

Lemma LENGTH_total m p enc : 0 <= p -> p + 5 <= zlen m \/ p + zipEncodingLenSize enc <= zlen m ->
  exists r, ZIP_DECODE_LENGTH m p enc = Some r.
Proof.
  intros Hp Hend. unfold ZIP_DECODE_LENGTH. destruct (enc <? ZIP_STR_MASK); [|repeat case_match; by eexists].
  destruct (Z.eqb_spec enc ZIP_STR_06B) as [->|]; [|destruct (Z.eqb_spec enc ZIP_STR_14B) as [->|];
    [|destruct (Z.eqb_spec enc ZIP_STR_32B) as [->|]; [|by eexists]]].
  - change (zipEncodingLenSize ZIP_STR_06B) with 1 in Hend.
    destruct (proj1 (load8_is_Some m p)) as [b0 ->]; [lia|]. by eexists.
  - change (zipEncodingLenSize ZIP_STR_14B) with 2 in Hend.
    destruct (proj1 (load8_is_Some m p)) as [b0 ->]; [lia|]. destruct (proj1 (load8_is_Some m (p + 1))) as [b1 ->]; [lia|]. by eexists.
  - change (zipEncodingLenSize ZIP_STR_32B) with 5 in Hend.
    destruct (proj1 (load8_is_Some m (p + 1))) as [b1 ->]; [lia|]. destruct (proj1 (load8_is_Some m (p + 2))) as [b2 ->]; [lia|].
    destruct (proj1 (load8_is_Some m (p + 3))) as [b3 ->]; [lia|]. destruct (proj1 (load8_is_Some m (p + 4))) as [b4 ->]; [lia|].
    by eexists.
Qed.

(** zipEntrySafe() on any bytes: it reads inside the block, and the entry that it accepts
    lies inside of it. *)
Lemma zipEntrySafe_safe m p v : bytes_ok m -> 11 <= zlen m ->
  exists r, zipEntrySafe m (zlen m) p v = Some r /\
    (forall e, r = Some e -> decoded m p e /\ 10 <= p /\ p + headersize e + len e <= zlen m - 1 /\
      (v = true -> 10 <= p - prevrawlen e)).
Proof.
  intros Hby Hsz. unfold zipEntrySafe, ZIPLIST_HEADER_SIZE, ZIPLIST_END_SIZE.
  set (OUT := fun q => (q <? 10) || (zlen m - 1 <? q)).
  assert (forall q, OUT q = false -> 10 <= q <= zlen m - 1) as Hout.
  { intros q [H1%Z.ltb_ge H2%Z.ltb_ge]%orb_false_iff. lia. }
  assert (forall prev, v && OUT (p - prev) = false -> v = true -> 10 <= p - prev) as Hprev.
  { intros prev Hq ->. apply Hout in Hq. lia. }
  destruct ((10 <=? p) && (p + 10 <? zlen m - 1)) eqn:Hfast.
  - apply andb_true_iff in Hfast as [H10%Z.leb_le Hlt%Z.ltb_lt].
    destruct (PREVLENSIZE_total m p) as (ps & Hps & Hps15); [lia|].
    destruct (PREVLEN_total m p ps Hps) as (prev & Hprevlen); [lia | lia |]. rewrite Hprevlen. simpl_bind.
    destruct (ENCODING_total m (p + ps)) as (enc & Henc); [lia|]. rewrite Henc. simpl_bind.
    destruct (LENGTH_total m (p + ps) enc) as ([ls l] & Hlen); [lia | lia |]. rewrite Hlen. simpl_bind.
    destruct (Z.eqb_spec ls 0); [by eexists|]. fold (OUT (p + (ps + ls) + l)). fold (OUT (p - prev)).
    destruct (OUT (p + (ps + ls) + l)) eqn:Ho; [by eexists|]. destruct (v && OUT (p - prev)) eqn:Hv; [by eexists|].
    eexists. split; [done|]. intros e [= <-]. apply Hout in Ho. split; [done|]. cbn. split_and!; [lia | lia | by apply Hprev].
  - fold (OUT p). destruct (OUT p) eqn:Hop; [by eexists|]. apply Hout in Hop.
    destruct (PREVLENSIZE_total m p) as (ps & Hps & Hps15); [lia|]. rewrite Hps. simpl_bind.
    fold (OUT (p + ps)). destruct (OUT (p + ps)) eqn:Ho1; [by eexists|]. apply Hout in Ho1.
    destruct (ENCODING_total m (p + ps)) as (enc & Henc); [lia|]. rewrite Henc. simpl_bind.
    destruct (Z.eqb_spec (zipEncodingLenSize enc) ZIP_ENCODING_SIZE_INVALID) as [|Hvalid]; [by eexists|].
    fold (OUT (p + ps + zipEncodingLenSize enc)). destruct (OUT (p + ps + _)) eqn:Ho2; [by eexists|]. apply Hout in Ho2.
    destruct (PREVLEN_total m p ps Hps) as (prev & Hprevlen); [lia | lia |]. rewrite Hprevlen. simpl_bind.
    destruct (LENGTH_total m (p + ps) enc) as ([ls l] & Hlen); [lia | lia |]. rewrite Hlen. simpl_bind.
    fold (OUT (p + (ps + ls) + l)). fold (OUT (p - prev)).
    destruct (OUT (p + (ps + ls) + l)) eqn:Ho; [by eexists|]. destruct (v && OUT (p - prev)) eqn:Hv; [by eexists|].
    eexists. split; [done|]. intros e [= <-]. apply Hout in Ho.
    destruct (ZIP_DECODE_LENGTH_facts m (p + ps) enc ls l Hby (ZIP_ENTRY_ENCODING_nonneg _ _ _ Hby Henc) Hlen) as (_ & _ & Hls).
    split; [by split_and!; try done; apply Hls|]. cbn. split_and!; [lia | lia | by apply Hprev].
Qed.

(** ** Parsing *)

(** The prevlen field that was decoded. *)
Lemma PREVLEN_parse X R ps prev b : bytes_ok R -> load8 R 0 = Some b -> b <> ZIP_END ->
  ZIP_DECODE_PREVLEN (X ++ R) (zlen X) = Some (ps, prev) -> ps <= zlen R ->
  exists big Y, R = plen big prev ++ Y /\ ps = plsize big /\ 0 <= prev < 2 ^ 32 /\ (big = false -> prev < 254).
Proof.
  intros Hby Hb Hne. destruct R as [|b0 R]; [done|]. change (load8 (b0 :: R) 0) with (Some b0) in Hb.
  injection Hb as ->.
  unfold ZIP_DECODE_PREVLEN, ZIP_DECODE_PREVLENSIZE.
  rewrite (load8_mid X b R) by done. simpl_bind.
  pose proof (Forall_inv Hby) as Hb0. apply Forall_inv_tail in Hby. unfold is_byte, ZIP_END in *.
  destruct (Z.ltb_spec b ZIP_BIG_PREVLEN) as [Hlt|Hge].
  - change (1 =? 1) with true. cbv iota. intros [= <- <-] _.
    exists false, R. unfold ZIP_BIG_PREVLEN in Hlt. split_and!; [done | done | eval_pow2; lia.. | lia].
  - change (5 =? 1) with false. cbv iota. intros Hdec Hlen. assert (b = 254) as -> by (unfold ZIP_BIG_PREVLEN in Hge; lia).
    assert (exists b1 b2 b3 b4 Y, R = [b1; b2; b3; b4] ++ Y) as (b1 & b2 & b3 & b4 & Y & ->).
    { destruct (load8 (X ++ 254 :: R) (zlen X + 4)) eqn:H4; [|done].
      assert (0 <= zlen X + 4 < zlen (X ++ 254 :: R)) as Hin by (apply load8_is_Some; by rewrite H4).
      rewrite zlen_app, zlen_cons in Hin. unfold zlen in Hin.
      destruct R as [|b1 [|b2 [|b3 [|b4 Y]]]]; simpl in Hin; try lia. by exists b1, b2, b3, b4, Y. }
    apply Forall_app in Hby as [Hby _]. pose proof (le_encode_decode _ Hby) as Henc. pose proof (le_decode_range _ Hby) as Hrange.
    rewrite !Forall_cons in Hby. destruct Hby as (? & ? & ? & ? & _).
    assert (forall i, (i < 5)%nat -> load8 (X ++ 254 :: [b1; b2; b3; b4] ++ Y) (zlen X + Z.of_nat i) = [254; b1; b2; b3; b4] !! i) as Hload.
    { intros i Hi. apply (load8_at_offset X [254; b1; b2; b3; b4] Y); [unfold zlen; rewrite length_take; simpl; lia | simpl; lia]. }
    rewrite (Hload 4%nat ltac:(lia) : load8 _ (zlen X + 4) = Some b4), (Hload 3%nat ltac:(lia) : load8 _ (zlen X + 3) = Some b3),
      (Hload 2%nat ltac:(lia) : load8 _ (zlen X + 2) = Some b2), (Hload 1%nat ltac:(lia) : load8 _ (zlen X + 1) = Some b1) in Hdec.
    simpl_bind in Hdec. rewrite lor4 in Hdec by done.
    apply (inj Some), pair_equal_spec in Hdec as [<- <-]. exists true, Y. split_and!; [|done| apply Hrange | apply Hrange | done].
    cbn [plen]. change (length [b1; b2; b3; b4]) with 4%nat in Henc. by rewrite Henc.
Qed.

(** An accepted entry is an entry of the block. *)
Lemma decoded_parse m p e b : bytes_ok m -> decoded m p e -> 0 <= p -> load8 m p = Some b -> b <> ZIP_END ->
  p + headersize e + len e <= zlen m - 1 ->
  exists X ze Y, m = X ++ ent (prevrawlen e) ze ++ Y /\ p = zlen X /\ ent_ok (prevrawlen e) ze /\
    e = zle (prevrawlen e) ze p /\ headersize e + len e = rawlen ze.
Proof.
  intros Hby (Hprev & Henc & Hlen & Hls & Hhs & Hptr) Hp Hb Hne Hend.
  destruct (split_at_len m p) as (X & R & -> & HX & HR).
  { split; [done|]. assert (0 <= p < zlen m) by (apply load8_is_Some; by rewrite Hb). lia. }
  apply Forall_app in Hby as [HbyX HbyR]. rewrite zlen_app in Hend. revert Hptr. subst p. intros Hptr.
  pose proof (ZIP_ENTRY_ENCODING_nonneg _ _ _ (Forall_app_2 _ _ _ HbyX HbyR) Henc) as Hnn.
  destruct (ZIP_DECODE_LENGTH_facts _ _ _ _ _ (Forall_app_2 _ _ _ HbyX HbyR) Hnn Hlen) as (Hl & Hls' & _).
  destruct (Hls' Hls) as [Hsize Hls5].
  assert (load8 R 0 = Some b) as HbR.
  { destruct R as [|x R]; [|by rewrite load8_mid in Hb].
    assert (0 <= zlen X < zlen (X ++ [])) as Hi by (apply load8_is_Some; by rewrite Hb).
    rewrite app_nil_r in Hi. lia. }
  assert (prevrawlensize e <= zlen R) as HpsR by lia.
  destruct (PREVLEN_parse X R _ _ b HbyR HbR Hne Hprev HpsR) as (bg & Y & -> & Hps & Hprange & Hsmall).
  apply Forall_app in HbyR as [_ HbyY]. rewrite zlen_app, zlen_plen, Hps in *.
  destruct (split_at_len Y (lensize e + len e)) as (bd & Y' & -> & Hbd & _); [lia|].
  apply Forall_app in HbyY as [Hbd_ok _].
  rewrite <- (zlen_plen bg (prevrawlen e)), <- zlen_app, app_assoc in Henc, Hlen.
  rewrite ENCODING_inner in Henc by lia. rewrite LENGTH_inner in Hlen by (right; lia).
  assert (benc bd = encoding e) as Hbenc by (unfold benc; by rewrite Henc).
  assert (blens bd = (lensize e, len e)) as Hblens by (unfold blens; by rewrite Hbenc, Hlen).
  exists X, {| big := bg; body := bd |}, Y'. split_and!.
  - unfold ent. cbn. by rewrite <- !app_assoc.
  - done.
  - split; [|done|done]. cbn [body]. split; [done | by rewrite Hbenc | by rewrite Hbenc, Hblens | by rewrite Hblens | by rewrite Hblens].
  - unfold zle. cbn [big body]. rewrite Hbenc, Hblens. cbn [fst snd]. destruct e. cbn in *. by subst.
  - unfold rawlen. cbn [big body]. lia.
Qed.

(** ** Validation *)

Lemma load_le_hdr (H0 : list Z) : bytes_ok H0 -> zlen H0 = 10 ->
  exists T t c, H0 = hdr T t c /\ 0 <= T < 2 ^ 32 /\ 0 <= t < 2 ^ 32 /\ 0 <= c < 2 ^ 16.
Proof.
  intros Hby Hlen. do 10 (destruct H0 as [|? H0]; [unfold zlen in Hlen; simpl in Hlen; lia|]).
  destruct H0; [|unfold zlen in Hlen; simpl in Hlen; lia].
  match type of Hby with bytes_ok [?a0; ?a1; ?a2; ?a3; ?b0; ?b1; ?b2; ?b3; ?c0; ?c1] =>
    assert (bytes_ok [a0; a1; a2; a3] /\ bytes_ok [b0; b1; b2; b3] /\ bytes_ok [c0; c1]) as (Ha & Hb & Hc)
      by (rewrite !Forall_cons in Hby |- *; rewrite !Forall_nil; tauto);
    exists (le_decode [a0; a1; a2; a3]), (le_decode [b0; b1; b2; b3]), (le_decode [c0; c1]) end.
  split_and!; try (apply le_decode_range in Ha, Hb, Hc; apply Ha || apply Hb || apply Hc).
  unfold hdr. pose proof (le_encode_decode _ Ha) as E1. pose proof (le_encode_decode _ Hb) as E2.
  pose proof (le_encode_decode _ Hc) as E3. cbn [length] in E1, E2, E3. by rewrite E1, E2, E3.
Qed.

Section validate.
Context {U : Type} (zl : list Z) (cb : option (Z -> U -> option (bool * U))) (I : list zent -> U -> Prop).

(** [I l u] is what the callback has established when it has seen the entries [l] and left [u]. *)
Definition cb_keeps : Prop := forall H0 l e Y u, zl = H0 ++ zents 0 (l ++ [e]) ++ Y -> zlen H0 = 10 ->
  zok 0 (l ++ [e]) -> I l u ->
  match cb with
  | Some f => exists ok u', f (zpos l) u = Some (ok, u') /\ (ok = true -> I (l ++ [e]) u')
  | None => I (l ++ [e]) u
  end.

Lemma cb_keeps_step H0 l e Y u : cb_keeps -> zl = H0 ++ zents 0 (l ++ [e]) ++ Y -> zlen H0 = 10 -> zok 0 (l ++ [e]) -> I l u ->
  exists ok u', match cb with Some f => f (zpos l) u | None => Some (true, u) end = Some (ok, u') /\
    (ok = true -> I (l ++ [e]) u').
Proof.
  intros Hcb Hz H10 Hok Hi. specialize (Hcb H0 l e Y u Hz H10 Hok Hi). destruct cb as [f|]; [done|]. by exists true, u.
Qed.

Lemma validate_loop_ok H0 fuel l R u : cb_keeps -> zl = H0 ++ zents 0 l ++ R -> bytes_ok zl -> zlen H0 = 10 -> zok 0 l ->
  1 <= zlen R -> zlen zl < 2 ^ 32 -> zlen R <= Z.of_nat fuel -> I l u ->
  exists r u', ziplistValidate_loop fuel zl (zlen zl) cb (zpos l) (zelem_before l) (last_raw 0 l) (zlen l) u = Some (r, u') /\
    match r with
    | None => True
    | Some (p', prev', count') => exists es Y, zl = H0 ++ zents 0 es ++ ZIP_END :: Y /\ zok 0 es /\
        p' = zpos es /\ prev' = zelem_before es /\ count' = zlen es /\ I es u'
    end.
Proof.
  intros Hcb. revert l R u. induction fuel as [|fuel IH]; intros l R u Hz Hby H10 Hl HR Hm Hf Hi; [lia|].
  pose proof (zok_ge _ _ Hl) as Hge. pose proof (zlen_nonneg l) as Hln.
  assert (zlen (H0 ++ zents 0 l) = zpos l) as HX by (by rewrite zlen_app, zlen_zents, H10).
  assert (zlen zl = zpos l + zlen R) as Hzl by (by rewrite Hz, app_assoc, zlen_app, HX).
  cbn [ziplistValidate_loop]. destruct R as [|b R]; [change (zlen (@nil Z)) with 0 in HR; lia|].
  assert (load8 zl (zpos l) = Some b) as Hb by (rewrite Hz, app_assoc; by apply load8_mid).
  rewrite Hb. simpl_bind. destruct (Z.eqb_spec b ZIP_END) as [->|Hne].
  { eexists _, _. split; [done|]. by exists l, R. }
  destruct (zipEntrySafe_safe zl (zpos l) true Hby) as (r & -> & Hr); [unfold zpos in Hzl; lia|].
  simpl_bind. destruct r as [e|]; [|by eexists _, _]. destruct (Hr e eq_refl) as (Hdec & _ & Hend & _). clear Hr.
  destruct (Z.eqb_spec (prevrawlen e) (last_raw 0 l)) as [Hprs|]; cbn [negb]; [|by eexists _, _].
  destruct (decoded_parse zl (zpos l) e b Hby Hdec) as (X' & ze & Y & HmX & HX' & Hok & He & Hraw); [unfold zpos; lia | done | done | done |].
  assert (X' = H0 ++ zents 0 l /\ b :: R = ent (last_raw 0 l) ze ++ Y) as [-> HRY].
  { rewrite Hz, app_assoc, Hprs in HmX. apply app_inj_1 in HmX as [-> ->]; [done | unfold zlen in HX, HX'; lia]. }
  rewrite Hprs in Hok. pose proof (rawlen_ge2 ze (ent_body _ _ Hok)) as Hge2.
  assert (zok 0 (l ++ [ze])) as Hlze by (apply zok_app; by split_and!).
  assert (zl = H0 ++ zents 0 (l ++ [ze]) ++ Y) as HzY.
  { rewrite Hz, HRY, zents_app. cbn [zents]. by rewrite app_nil_r, <- !app_assoc. }
  assert (zlen (b :: R) = rawlen ze + zlen Y) as HzR by (by rewrite HRY, zlen_app, zlen_ent).
  destruct (cb_keeps_step H0 l ze Y u Hcb HzY H10 Hlze Hi) as (ok & u' & -> & Hi'). simpl_bind.
  destruct ok; cbn [negb]; [|by eexists _, _]. unfold zpos in Hzl, Hend.
  rewrite Hraw, (uwrap_small 32 (rawlen ze)), (uwrap_small 32 (zlen l + 1)) by lia.
  rewrite <- zpos_snoc, <- (last_raw_snoc 0 l ze).
  replace (Some (zpos l)) with (zelem_before (l ++ [ze])) by apply zelem_before_snoc.
  replace (zlen l + 1) with (zlen (l ++ [ze])) by (by rewrite zlen_app).
  apply (IH (l ++ [ze]) Y u'); [done | done | done | done | lia | done | lia | by apply Hi'].
Qed.

Lemma ziplistValidateIntegrity_ok deep u : cb_keeps -> I [] u -> bytes_ok zl ->
  exists b u', ziplistValidateIntegrity zl (zlen zl) deep cb u = Some (b, u') /\
    (b = true -> deep = true -> zlen zl <> 11 -> exists es, es <> [] /\ zl_repr zl es /\ I es u').
Proof.
  intros Hcb Hi Hby. unfold ziplistValidateIntegrity. change (ZIPLIST_HEADER_SIZE + ZIPLIST_END_SIZE) with 11.
  destruct (Z.ltb_spec (zlen zl) 11) as [|Hge]; [by eexists _, _|].
  destruct (split_at_len zl 10) as (H0 & R & Hz & HH & HR); [lia|].
  pose proof Hby as Hby'. rewrite Hz in Hby'. apply Forall_app in Hby' as [HbyH HbyR].
  destruct (load_le_hdr H0 HbyH HH) as (T & t & c & -> & HT & Ht & Hc).
  assert (ZIPLIST_BYTES zl = Some T /\ ZIPLIST_TAIL_OFFSET zl = Some t /\ ZIPLIST_LENGTH zl = Some c) as (-> & Htl0 & Hlen0)
    by (rewrite Hz; split_and!; [by apply hdr_bytes | by apply hdr_tail | by apply hdr_length]).
  simpl_bind.
  destruct (Z.eqb_spec T (zlen zl)) as [HTz|]; cbn [negb]; [|by eexists _, _].
  destruct (proj1 (load8_is_Some zl (zlen zl - ZIPLIST_END_SIZE))) as [last ->]; [unfold ZIPLIST_END_SIZE; lia|].
  simpl_bind. destruct (last =? ZIP_END); cbn [negb]; [|by eexists _, _].
  rewrite Htl0. simpl_bind. destruct (_ <? t); [by eexists _, _|].
  destruct deep; cbn [negb]; [|by eexists _, _].
  destruct (validate_loop_ok (hdr T t c) (length zl) [] R u) as (r & u' & Hloop & Hspec);
    [done | done | done | done | done | lia | lia | unfold zlen in HR |- *; lia | done |].
  change (zpos []) with ZIPLIST_ENTRY_HEAD in Hloop. change (zlen []) with 0 in Hloop.
  change (zelem_before []) with (@None Z) in Hloop. change (last_raw 0 []) with 0 in Hloop. rewrite Hloop. simpl_bind.
  destruct r as [[[p' prev'] count']|]; [|by eexists _, _].
  destruct Hspec as (es & Y & Hes & Hok & -> & -> & -> & Hi').
  pose proof (f_equal zlen Hes) as Hlen. rewrite !zlen_app, zlen_hdr, zlen_zents, zlen_cons in Hlen.
  unfold zpos at 1. destruct (Z.eqb_spec (10 + zsize es) (T - ZIPLIST_END_SIZE)) as [Hpe|]; cbn [negb]; [|by eexists _, _].
  unfold ZIPLIST_END_SIZE in Hpe. assert (Y = []) as -> by (apply zlen_eq_nil; lia).
  destruct (match zelem_before es with Some _ => _ | None => _ end) eqn:Htail; [by eexists _, _|].
  rewrite Hlen0. simpl_bind. destruct (_ && _) eqn:Hcnt; [by eexists _, _|].
  eexists _, _. split; [done|]. intros _ _ Hsz. exists es.
  assert (es <> []) as Hne by (intros ->; cbn in Hlen; change (zlen (@nil Z)) with 0 in Hlen; lia).
  assert (t = tail_of es) as Htl by (destruct es; [done | by apply negb_false_iff, Z.eqb_eq in Htail]).
  change (zlen (@nil Z)) with 0 in Hlen. split_and!; [done | | done]. split; [|done|lia].
  exists c. split; [rewrite Hes; unfold zl_bytes; rewrite Htl; do 2 f_equal; lia|]. pose proof (zok_ge _ _ Hok).
  unfold count_ok, LP_HDR_NUMELE_UNKNOWN, UINT16_MAX in *.
  apply andb_false_iff in Hcnt as [H1%negb_false_iff%Z.eqb_eq|H1%negb_false_iff%Z.eqb_eq]; [by left|].
  destruct (Z.eq_dec c 65535); [by left|]. right. split; [lia|]. eval_pow2. lia.
Qed.
End validate.

(** The callback runs without a fault on every entry of the block that it may be given. *)
Definition cb_safe {U} (zl : list Z) (cb : option (Z -> U -> option (bool * U))) : Prop :=
  cb_keeps zl cb (fun _ _ => True).

(** C38. ziplistValidateIntegrity() on any bytes, with any callback that is safe on entries: it
    never reads outside of them, and a ziplist that passes the deep validation is well formed
    (its entries decode inside of it, its prevlen fields chain them, its total size, tail
    offset and count are right). Only an empty ziplist is accepted without a look at its tail
    offset. *)
Theorem ziplistValidateIntegrity_sound {U} zl deep cb (u : U) : bytes_ok zl -> cb_safe zl cb ->
  exists b u', ziplistValidateIntegrity zl (zlen zl) deep cb u = Some (b, u') /\
    (b = true -> deep = true -> zlen zl <> 11 -> exists es, es <> [] /\ zl_repr zl es).
Proof.
  intros Hby Hcb. destruct (ziplistValidateIntegrity_ok zl cb _ deep u Hcb I Hby) as (b & u' & Hv & Hs).
  exists b, u'. split; [done|]. intros H1 H2 H3. destruct (Hs H1 H2 H3) as (es & Hne & Hr & _). by exists es.
Qed.

Lemma ziplistValidateIntegrity_sound_witness : exists es, es <> [] /\ zl_repr zl_example es.
Proof.
  destruct (ziplistValidateIntegrity_sound zl_example true None ()) as (b & u' & Hb & Hsound).
  - apply (bool_decide_unpack _). vm_compute. exact I.
  - intros H0 l e Y u _ _ _ _. exact I.
  - vm_compute in Hb. injection Hb as <- _. apply Hsound; [reflexivity | reflexivity | vm_compute; discriminate].
Defined.

(** An empty ziplist whose tail offset is wrong is accepted. *)
Lemma ziplistValidateIntegrity_empty_tail :
  ziplistValidateIntegrity (hdr 11 0 0 ++ [ZIP_END]) 11 true None () = Some (true, ()) /\
  ~ exists es, zl_repr (hdr 11 0 0 ++ [ZIP_END]) es.
Proof.
  split; [by vm_compute|]. intros (es & Hr). pose proof (repr_tail _ _ Hr) as Ht. rewrite hdr_tail in Ht by lia.
  apply (inj Some) in Ht. pose proof (last_raw_range 0 es (zl_entries _ _ Hr)). pose proof (zsize_nonneg _ _ (zl_entries _ _ Hr)).
  unfold tail_of in Ht. lia.
Qed.
