(* ===== verification/THash.v ===== *)
(** * The hash type (src/redis-stable/src/t_hash.c)

    A hash object is a ziplist of fields and values as long as it is small, and a hash table
    afterwards. The definitions follow t_hash.c function by function; the object is passed
    along, since most functions change it, be it by a step of rehashing. A result [None] is a
    failed assertion, a panic or undefined behaviour. An sds is its contents, so that the flags of
    hashTypeSet(), which say who frees the strings, are left out. *)
From Stdlib Require Import Classical_Prop.
From S2P Require Import Prelude.
From S2P Require Import Util.
From S2P Require Import SdsNum.
From S2P Require Import Listpack.
From S2P Require Import Dict.
From S2P Require Import DictIter.
From S2P Require Import Ziplist.
From S2P Require Import ZiplistNav.
From S2P Require Import ZiplistCascade.
From S2P Require Import ZiplistUpdate.
From S2P Require Import ZiplistValid.

(** The settings and the state of the server that the hash type reads. *)
Record hash_conf := HashConf {
  hash_max_ziplist_entries : Z;
  hash_max_ziplist_value : Z;
  can_resize : bool;     (** dict_can_resize *)
}.

(** o->encoding and o->ptr *)
Inductive hash_obj :=
| OBJ_ENCODING_ZIPLIST (zl : list Z)
| OBJ_ENCODING_HT (d : dict (list Z) (list Z)).

(** 'vstr' with 'vlen', or 'vll' *)
Inductive hash_val :=
| Vstr (s : list Z)
| Vll (v : Z).

Inductive hash_what := OBJ_HASH_KEY | OBJ_HASH_VALUE.

Inductive hashTypeIterator :=
| Hi_ziplist (fptr vptr : option Z)
| Hi_ht (di : dictIterator) (de : option entry_ref).

(** An argument of a command: a string, or an integer that has no string. *)
Inductive hash_arg := Arg_sds (s : list Z) | Arg_int (v : Z).

Section operations.
Context `{Allocator} `{DictType (list Z) (list Z)}.
Context (table_addr : bool -> Z).

(** What a caller reads through the pointer that ziplistGet() gives. *)
Definition zlget_val (zl : list Z) (g : zlget) : option hash_val :=
  match g with
  | Zl_sstr sstr slen => s ← mem_load zl sstr slen; Some (Vstr s)
  | Zl_sval sval => Some (Vll sval)
  end.

(** fptr = ziplistIndex(zl, ZIPLIST_HEAD); if (fptr != NULL) fptr = ziplistFind(zl, fptr, field, sdslen(field), 1); *)
Definition find_field (zl field : list Z) : option (option Z) :=
  fptr ← ziplistIndex zl 0;
  match fptr with
  | None => Some None
  | Some fptr => ziplistFind zl fptr field 1
  end.

(** vptr = ziplistNext(zl, fptr); serverAssert(vptr != NULL); *)
Definition value_of (zl : list Z) (fptr : Z) : option Z :=
  vptr ← ziplistNext zl fptr; vptr.

Definition hashTypeGetFromZiplist (zl field : list Z) : option (option hash_val) :=
  fptr ← find_field zl field;
  match fptr with
  | None => Some None
  | Some fptr =>
      vptr ← value_of zl fptr;
      ret ← ziplistGet zl (Some vptr);
      match ret with
      | None => None
      | Some g => v ← zlget_val zl g; Some (Some v)
      end
  end.

Definition hashTypeGetFromHashTable (d : dict (list Z) (list Z)) (field : list Z)
    : option (dict (list Z) (list Z) * option (list Z)) :=
  '(d, de) ← dictFind d field;
  match de with
  | None => Some (d, None)
  | Some de => e ← entry_at d de; Some (d, Some (val e))
  end.

(** The inner [None] is C_ERR. *)
Definition hashTypeGetValue (o : hash_obj) (field : list Z) : option (hash_obj * option hash_val) :=
  match o with
  | OBJ_ENCODING_ZIPLIST zl => v ← hashTypeGetFromZiplist zl field; Some (o, v)
  | OBJ_ENCODING_HT d => '(d, v) ← hashTypeGetFromHashTable d field; Some (OBJ_ENCODING_HT d, match v with Some value => Some (Vstr value) | None => None end)
  end.

Definition hashTypeGetValueLength (o : hash_obj) (field : list Z) : option (hash_obj * Z) :=
  match o with
  | OBJ_ENCODING_ZIPLIST zl =>
      v ← hashTypeGetFromZiplist zl field;
      Some (o, match v with Some (Vstr s) => zlen s | Some (Vll v) => sdigits10 v | None => 0 end)
  | OBJ_ENCODING_HT d =>
      '(d, v) ← hashTypeGetFromHashTable d field;
      Some (OBJ_ENCODING_HT d, match v with Some aux => zlen aux | None => 0 end)
  end.

Definition hashTypeExists (o : hash_obj) (field : list Z) : option (hash_obj * bool) :=
  match o with
  | OBJ_ENCODING_ZIPLIST zl => v ← hashTypeGetFromZiplist zl field; Some (o, match v with Some _ => true | None => false end)
  | OBJ_ENCODING_HT d =>
      '(d, v) ← hashTypeGetFromHashTable d field; Some (OBJ_ENCODING_HT d, match v with Some _ => true | None => false end)
  end.

(** ziplistLen() may write the length to the header. *)
Definition hashTypeLength (o : hash_obj) : option (hash_obj * Z) :=
  match o with
  | OBJ_ENCODING_ZIPLIST zl => '(n, zl) ← ziplistLen zl; Some (OBJ_ENCODING_ZIPLIST zl, n / 2)
  | OBJ_ENCODING_HT d => Some (o, dictSize d)
  end.

(** ** Iteration *)

Definition hashTypeInitIterator (subject : hash_obj) (garbage : Z) : hashTypeIterator :=
  match subject with
  | OBJ_ENCODING_ZIPLIST _ => Hi_ziplist None None
  | OBJ_ENCODING_HT _ => Hi_ht (dictGetIterator garbage) None
  end.

Definition hashTypeReleaseIterator (o : hash_obj) (hi : hashTypeIterator) : option hash_obj :=
  match o, hi with
  | OBJ_ENCODING_HT d, Hi_ht di _ => d ← dictReleaseIterator table_addr d di; Some (OBJ_ENCODING_HT d)
  | OBJ_ENCODING_ZIPLIST _, Hi_ziplist _ _ => Some o
  | _, _ => None
  end.

(** The object, the iterator and whether C_OK is returned. *)
Definition hashTypeNext (o : hash_obj) (hi : hashTypeIterator) : option (hash_obj * hashTypeIterator * bool) :=
  match o, hi with
  | OBJ_ENCODING_ZIPLIST zl, Hi_ziplist fptr vptr =>
      fptr ← match fptr, vptr with
             | None, None => ziplistIndex zl 0
             | Some _, Some vptr => ziplistNext zl vptr
             | _, _ => None
             end;
      match fptr with
      | None => Some (o, hi, false)
      | Some fptr => vptr ← value_of zl fptr; Some (o, Hi_ziplist (Some fptr) (Some vptr), true)
      end
  | OBJ_ENCODING_HT d, Hi_ht di _ =>
      '(d, di, de) ← dictNext table_addr d di;
      Some (OBJ_ENCODING_HT d, Hi_ht di de, match de with Some _ => true | None => false end)
  | _, _ => None
  end.

Definition hashTypeCurrentFromZiplist (zl : list Z) (fptr vptr : option Z) (what : hash_what) : option hash_val :=
  ret ← ziplistGet zl (match what with OBJ_HASH_KEY => fptr | OBJ_HASH_VALUE => vptr end);
  match ret with None => None | Some g => zlget_val zl g end.

Definition hashTypeCurrentFromHashTable (d : dict (list Z) (list Z)) (de : option entry_ref) (what : hash_what) : option (list Z) :=
  de ← de;
  e ← entry_at d de;
  Some (match what with OBJ_HASH_KEY => key e | OBJ_HASH_VALUE => val e end).

Definition hashTypeCurrentObject (o : hash_obj) (hi : hashTypeIterator) (what : hash_what) : option hash_val :=
  match o, hi with
  | OBJ_ENCODING_ZIPLIST zl, Hi_ziplist fptr vptr => hashTypeCurrentFromZiplist zl fptr vptr what
  | OBJ_ENCODING_HT d, Hi_ht _ de => ele ← hashTypeCurrentFromHashTable d de what; Some (Vstr ele)
  | _, _ => None
  end.

Definition hashTypeCurrentObjectNewSds (o : hash_obj) (hi : hashTypeIterator) (what : hash_what) : option (list Z) :=
  v ← hashTypeCurrentObject o hi what;
  match v with Vstr s => Some s | Vll vll => sdsfromlonglong vll end.

(** ** Conversion *)

(** while (hashTypeNext(hi) != C_ERR) { ... }; a field that is there twice is a panic. *)
Fixpoint convert_loop (fuel : nat) (cf : hash_conf) (o : hash_obj) (hi : hashTypeIterator) (dict : dict (list Z) (list Z))
    : option (Dict.dict (list Z) (list Z)) :=
  '(o, hi, ok) ← hashTypeNext o hi;
  if negb ok then _ ← hashTypeReleaseIterator o hi; Some dict
  else
    match fuel with
    | O => None
    | S fuel =>
        key ← hashTypeCurrentObjectNewSds o hi OBJ_HASH_KEY;
        value ← hashTypeCurrentObjectNewSds o hi OBJ_HASH_VALUE;
        '(dict, ret) ← dictAdd (can_resize cf) dict key value;
        if negb ret then None else convert_loop fuel cf o hi dict
    end.

(** hashTypeConvertZiplist(o, OBJ_ENCODING_HT) *)
Definition hashTypeConvertZiplist (cf : hash_conf) (zl : list Z) : option hash_obj :=
  let o := OBJ_ENCODING_ZIPLIST zl in
  let hi := hashTypeInitIterator o 0 in
  d ← convert_loop (length zl) cf o hi dictCreate;
  Some (OBJ_ENCODING_HT d).

(** hashTypeConvert(o, OBJ_ENCODING_HT); "Not implemented" for a hash table *)
Definition hashTypeConvert (cf : hash_conf) (o : hash_obj) : option hash_obj :=
  match o with
  | OBJ_ENCODING_ZIPLIST zl => hashTypeConvertZiplist cf zl
  | OBJ_ENCODING_HT _ => None
  end.

(** for (i = start; i <= end; i++) { ... }: 'sum', or nothing if an argument is too long *)
Fixpoint sum_lengths (cf : hash_conf) (argv : list hash_arg) (sum : Z) : option Z :=
  match argv with
  | [] => Some sum
  | Arg_int _ :: argv => sum_lengths cf argv sum
  | Arg_sds s :: argv => if hash_max_ziplist_value cf <? zlen s then None else sum_lengths cf argv (u64 (sum + zlen s))
  end.

(** [argv] is argv[start..end]. *)
Definition hashTypeTryConversion (cf : hash_conf) (o : hash_obj) (argv : list hash_arg) : option hash_obj :=
  match o with
  | OBJ_ENCODING_HT _ => Some o
  | OBJ_ENCODING_ZIPLIST zl =>
      match sum_lengths cf argv 0 with
      | None => hashTypeConvert cf o
      | Some sum =>
          safe ← ziplistSafeToAdd (Some zl) sum;
          if negb safe then hashTypeConvert cf o else Some o
      end
  end.

(** ** Update *)

(** The object and 'update'. *)
Definition hashTypeSet (cf : hash_conf) (o : hash_obj) (field value : list Z) : option (hash_obj * bool) :=
  match o with
  | OBJ_ENCODING_ZIPLIST zl =>
      fptr ← find_field zl field;
      '(zl, update) ←
        match fptr with
        | Some fptr =>
            vptr ← value_of zl fptr;
            zl ← ziplistReplace zl vptr value;
            Some (zl, true)
        | None =>
            zl ← ziplistPush zl field ZIPLIST_TAIL;
            zl ← ziplistPush zl value ZIPLIST_TAIL;
            Some (zl, false)
        end;
      '(o, n) ← hashTypeLength (OBJ_ENCODING_ZIPLIST zl);
      o ← (if hash_max_ziplist_entries cf <? n then hashTypeConvert cf o else Some o);
      Some (o, update)
  | OBJ_ENCODING_HT d =>
      '(d, de) ← dictFind d field;
      match de with
      | Some de => d ← dictSetVal d de value; Some (OBJ_ENCODING_HT d, true)
      | None => '(d, _) ← dictAdd (can_resize cf) d field value; Some (OBJ_ENCODING_HT d, false)
      end
  end.

(** The object and 'deleted'. *)
Definition hashTypeDelete (cf : hash_conf) (o : hash_obj) (field : list Z) : option (hash_obj * bool) :=
  match o with
  | OBJ_ENCODING_ZIPLIST zl =>
      fptr ← find_field zl field;
      match fptr with
      | None => Some (o, false)
      | Some fptr =>
          '(zl, fptr) ← ziplistDelete zl fptr;
          '(zl, _) ← ziplistDelete zl fptr;
          Some (OBJ_ENCODING_ZIPLIST zl, true)
      end
  | OBJ_ENCODING_HT d =>
      '(d, deleted) ← dictDelete d field;
      d ← (if deleted && htNeedsResize d then '(d, _) ← dictResize (can_resize cf) d; Some d else Some d);
      Some (OBJ_ENCODING_HT d, deleted)
  end.

(** ** Copies *)

Fixpoint dup_loop (fuel : nat) (cf : hash_conf) (o : hash_obj) (hi : hashTypeIterator) (d : dict (list Z) (list Z))
    : option (hash_obj * dict (list Z) (list Z)) :=
  '(o, hi, ok) ← hashTypeNext o hi;
  if negb ok then o ← hashTypeReleaseIterator o hi; Some (o, d)
  else
    match fuel, o, hi with
    | S fuel, OBJ_ENCODING_HT src, Hi_ht _ de =>
        field ← hashTypeCurrentFromHashTable src de OBJ_HASH_KEY;
        value ← hashTypeCurrentFromHashTable src de OBJ_HASH_VALUE;
        '(d, _) ← dictAdd (can_resize cf) d field value;
        dup_loop fuel cf o hi d
    | _, _, _ => None
    end.

(** The object and its copy. *)
Definition hashTypeDup (cf : hash_conf) (o : hash_obj) (garbage : Z) : option (hash_obj * hash_obj) :=
  match o with
  | OBJ_ENCODING_ZIPLIST zl =>
      sz ← ziplistBlobLen zl;
      bs ← mem_load zl 0 sz;
      new_zl ← mem_store (zrealloc [] sz) 0 bs;
      Some (o, OBJ_ENCODING_ZIPLIST new_zl)
  | OBJ_ENCODING_HT src =>
      '(d, _) ← dictExpand dictCreate (dictSize src);
      '(o, d) ← dup_loop (Z.to_nat (dictSize src)) cf o (hashTypeInitIterator o garbage) d;
      Some (o, OBJ_ENCODING_HT d)
  end.

(** ** Validation of a serialized hash *)

(** 'count' and 'fields' *)
Definition hash_data : Type := Z * dict (list Z) (list Z).

(** The values of 'fields' are NULL, which is the contents of a new entry. *)
Definition hashZiplistEntryValidation (cf : hash_conf) (zl : list Z) (p : Z) (data : hash_data) : option (bool * hash_data) :=
  let '(count, fields) := data in
  if Z.land count 1 =? 0 then
    ret ← ziplistGet zl (Some p);
    match ret with
    | None => Some (false, data)
    | Some g =>
        v ← zlget_val zl g;
        field ← match v with Vstr s => Some s | Vll vll => sdsfromlonglong vll end;
        '(fields, ok) ← dictAdd (can_resize cf) fields field [];
        if negb ok then Some (false, (count, fields)) else Some (true, (count + 1, fields))
    end
  else Some (true, (count + 1, fields)).

Definition hashZiplistValidateIntegrity (cf : hash_conf) (zl : list Z) (size : Z) (deep : bool) : option bool :=
  if negb deep then '(ret, _) ← ziplistValidateIntegrity zl size false None (); Some ret
  else
    '(ret, data) ← ziplistValidateIntegrity zl size true (Some (hashZiplistEntryValidation cf zl)) (0, dictCreate);
    Some (if negb (Z.land (fst data) 1 =? 0) then false else ret).

(** ** Representation *)

(** The fields and values of a ziplist, in order. *)
Fixpoint flat (prs : list (list Z * list Z)) : list (list Z) :=
  match prs with
  | [] => []
  | (f, v) :: prs => f :: v :: flat prs
  end.

Fixpoint bsize (es : list zent) : Z :=
  match es with
  | [] => 0
  | e :: es => zlen (body e) + bsize es
  end.

(** The number of fields and the bytes that a ziplist may have: enough for the limits of the code. *)
Definition max_pairs : Z := 2 ^ 26.
Definition max_bytes : Z := 2 ^ 31.

(** The ziplist [zl] is a hash with these fields and values: at most [n] pairs, whose
    encodings take at most [b] bytes without the prevlen fields. *)
Record hash_zl (n b : Z) (zl : list Z) (prs : list (list Z * list Z)) : Prop := {
  hz_repr : exists es, zl_repr zl es /\ values es = flat prs /\ bsize es <= b;
  hz_keys : NoDup prs.*1;
  hz_num : zlen prs <= n;
  hz_int : Forall int_safe (flat prs);
}.

(** The object [o] is the hash [m]; a ziplist has at most [b] bytes of contents. *)
Definition hash_fits (b : Z) (o : hash_obj) (m : gmap (list Z) (list Z)) : Prop :=
  match o with
  | OBJ_ENCODING_ZIPLIST zl => exists prs, hash_zl max_pairs b zl prs /\ m = list_to_map prs
  | OBJ_ENCODING_HT d => dict_ok d /\ m = dict_map d
  end.

Definition hash_repr : hash_obj -> gmap (list Z) (list Z) -> Prop := hash_fits max_bytes.

Lemma flat_app l k : flat (l ++ k) = flat l ++ flat k.
Proof. induction l as [|[f v] l IH]; [done|]. simpl. by rewrite IH. Qed.

Lemma length_flat prs : length (flat prs) = (2 * length prs)%nat.
Proof. induction prs as [|[f v] prs IH]; [done|]. simpl. lia. Qed.

Lemma bsize_app l k : bsize (l ++ k) = bsize l + bsize k.
Proof. induction l as [|e l IH]; [done|]. cbn [app bsize]. lia. Qed.

Lemma bsize_body l k : body <$> l = body <$> k -> bsize l = bsize k.
Proof.
  revert k. induction l as [|e l IH]; intros [|f k] Hb; try done. cbn in Hb. injection Hb as He Hb. cbn [bsize].
  by rewrite He, (IH k).
Qed.

Lemma bsize_nonneg es : 0 <= bsize es.
Proof. induction es as [|e es IH]; [done|]. cbn [bsize]. pose proof (zlen_nonneg (body e)). lia. Qed.

(** The size of a ziplist, from its contents alone. *)
Lemma zsize_bsize es : bsize es + zlen es <= zsize es <= bsize es + 5 * zlen es.
Proof.
  induction es as [|e es IH]; [done|]. cbn [bsize zsize]. rewrite zlen_cons. unfold rawlen, plsize.
  destruct (big e); lia.
Qed.

Lemma zlen_values es : zlen (values es) = zlen es.
Proof. unfold zlen, values. by rewrite length_fmap. Qed.

Lemma zlen_flat prs : zlen (flat prs) = 2 * zlen prs.
Proof. unfold zlen. rewrite length_flat. lia. Qed.

Lemma values_flat es prs : values es = flat prs -> zlen es = 2 * zlen prs.
Proof. intros Hv. by rewrite <- zlen_values, Hv, zlen_flat. Qed.

(** ** Fields *)

Lemma find_every_absent f (prs : list (list Z * list Z)) : (f ∉ prs.*1) -> find_every f 1 0 (flat prs) = None.
Proof.
  induction prs as [|[a v] prs IH]; [done|]. rewrite fmap_cons, not_elem_of_cons. intros [Hne Hf]. cbn in Hne.
  cbn [flat find_every]. rewrite bool_decide_false by congruence. by rewrite IH.
Qed.

Lemma find_every_present f (l k : list (list Z * list Z)) v : (f ∉ l.*1) -> find_every f 1 0 (flat (l ++ (f, v) :: k)) = Some (2 * length l)%nat.
Proof.
  induction l as [|[a w] l IH]; [intros _; cbn; by rewrite bool_decide_true|].
  rewrite fmap_cons, not_elem_of_cons. intros [Hne Hf]. cbn in Hne.
  cbn [app flat find_every]. rewrite bool_decide_false by congruence. rewrite IH by done. cbn. f_equal. lia.
Qed.

Lemma field_split f (prs : list (list Z * list Z)) : (f ∉ prs.*1) \/ (exists l v k, prs = l ++ (f, v) :: k /\ (f ∉ l.*1)).
Proof.
  induction prs as [|[a v] prs IH]; [left; apply not_elem_of_nil|]. destruct (decide (a = f)) as [->|Hne].
  - right. exists [], v, prs. split; [done|]. apply not_elem_of_nil.
  - destruct IH as [Hf|(l & w & k & -> & Hf)]; [left | right; exists ((a, v) :: l), w, k; split; [done|]];
      rewrite fmap_cons, not_elem_of_cons; by split.
Qed.

Lemma values_split es l k : values es = l ++ k -> exists es1 es2, es = es1 ++ es2 /\ values es1 = l /\ values es2 = k.
Proof. intros (es1 & es2 & ? & ? & ?)%fmap_app_inv. by exists es1, es2. Qed.

Lemma values_uncons es v k : values es = v :: k -> exists e es', es = e :: es' /\ bval (body e) = v /\ values es' = k.
Proof. destruct es as [|e es]; [done|]. unfold values. rewrite fmap_cons. intros [= <- <-]. by exists e, es. Qed.

(** The entries of a field and its value. *)
Record field_at (es : list zent) (l k : list (list Z * list Z)) (f v : list Z) (es1 : list zent) (ef ev : zent) (es2 : list zent) : Prop := {
  fa_es : es = es1 ++ ef :: ev :: es2;
  fa_before : values es1 = flat l;
  fa_field : bval (body ef) = f;
  fa_value : bval (body ev) = v;
  fa_after : values es2 = flat k;
}.

Lemma find_field_ok zl es prs f : zl_repr zl es -> values es = flat prs ->
  ((f ∉ prs.*1) /\ find_field zl f = Some None) \/
  (exists l v k es1 ef ev es2, prs = l ++ (f, v) :: k /\ (f ∉ l.*1) /\ field_at es l k f v es1 ef ev es2 /\
    find_field zl f = Some (Some (zpos es1)) /\ value_of zl (zpos es1) = Some (zpos (es1 ++ [ef]))).
Proof.
  intros Hr Hv. assert (find_field zl f = Some ((fun i => zpos (take i es)) <$> find_every f 1 0 (flat prs))) as Hfind.
  { unfold find_field. rewrite (ziplistIndex_ok zl es 0 Hr) by (done || unfold INT32_MIN; lia). simpl_bind.
    destruct es as [|e es]; [by destruct prs as [|[]]|].
    replace (zelem_pos (e :: es) 0) with (Some (zpos [])) 
      by (unfold zelem_pos; change (0 <? 0) with false; cbv iota zeta; pose proof (zlen_nonneg es);
          rewrite (proj2 (Z.ltb_lt 0 (zlen (e :: es)))) by (rewrite zlen_cons; lia); done).
    rewrite (ziplistFind_ok zl [] (e :: es) f 1 Hr) by lia. change (Z.to_nat 1) with 1%nat. by rewrite Hv. }
  destruct (field_split f prs) as [Hf|(l & v & k & -> & Hf)].
  - left. split; [done|]. by rewrite Hfind, find_every_absent.
  - right. rewrite find_every_present in Hfind by done. cbn [fmap option_fmap option_map] in Hfind. rewrite flat_app in Hv. cbn [flat] in Hv.
    apply values_split in Hv as (es1 & es2 & -> & H1 & Hv). apply values_uncons in Hv as (ef & es3 & -> & H2 & Hv).
    apply values_uncons in Hv as (ev & es4 & -> & H3 & Hv).
    assert (take (2 * length l) (es1 ++ ef :: ev :: es4) = es1) as Htake.
    { rewrite take_app_length'; [done|]. pose proof (length_flat l) as Hlen. rewrite <- H1 in Hlen. unfold values in Hlen.
      rewrite length_fmap in Hlen. lia. }
    exists l, v, k, es1, ef, ev, es4. rewrite Htake in Hfind. split_and!; [done | done | done | done|].
    unfold value_of. rewrite (ziplistNext_ok zl es1 ef (ev :: es4) Hr). done.
Qed.

Lemma map_field (l k : list (list Z * list Z)) f v : NoDup ((l ++ (f, v) :: k).*1) -> (list_to_map (l ++ (f, v) :: k) : gmap (list Z) (list Z)) !! f = Some v.
Proof.
  intros Hnd. apply elem_of_list_to_map_1; [done|]. rewrite elem_of_app, elem_of_cons. auto.
Qed.

Lemma map_no_field f (prs : list (list Z * list Z)) : (f ∉ prs.*1) -> (list_to_map prs : gmap (list Z) (list Z)) !! f = None.
Proof. apply not_elem_of_list_to_map_1. Qed.

(** ** Lookups *)

(** The value [v] is the string [s], or the integer whose decimal notation it is. *)
Definition val_is (v : hash_val) (s : list Z) : Prop :=
  match v with
  | Vstr t => t = s
  | Vll n => is_ll n /\ ll2string_out n = s
  end.

Lemma get_at zl X prev e Y p : zl = X ++ ent prev e ++ Y -> p = zlen X -> ent_ok prev e ->
  exists g v, ziplistGet zl (Some p) = Some (Some g) /\ zlget_val zl g = Some v /\ val_is v (bval (body e)).
Proof.
  intros HX Hp Hok. destruct (ziplistGet_at zl X prev e Y p HX Hp Hok) as ([sstr slen|sval] & Hg & Hs & Hll);
    cbn [zlget_string] in Hs; eexists _, _; (split; [exact Hg|]); cbn [zlget_val].
  - rewrite Hs. simpl_bind. by split.
  - split; [done|]. cbn. split; [done|]. by apply (inj Some) in Hs.
Qed.

Lemma get_entry zl l e k : zl_repr zl (l ++ e :: k) ->
  exists g v, ziplistGet zl (Some (zpos l)) = Some (Some g) /\ zlget_val zl g = Some v /\ val_is v (bval (body e)).
Proof.
  intros Hr. destruct (repr_entry zl l e k Hr) as (X & Y & HX & Hp & Hok & _). by eapply get_at.
Qed.

Lemma val_sds v s : val_is v s -> int_safe s ->
  match v with Vstr t => Some t | Vll n => sdsfromlonglong n end = Some s.
Proof. destruct v as [t|n]; [by intros ->|]. intros [Hll <-] Hs. by apply sds_of_ll. Qed.

Lemma val_length v s : val_is v s -> match v with Vstr t => zlen t | Vll n => sdigits10 n end = zlen s.
Proof.
  destruct v as [t|n]; [by intros ->|]. intros [Hll <-].
  by rewrite (canonical_zlen _ _ Hll (ll2string_out_canonical n Hll)).
Qed.

(** The result of a lookup of [s]. *)
Definition found (r : option hash_val) (s : option (list Z)) : Prop :=
  match r, s with
  | Some v, Some s => val_is v s
  | None, None => True
  | _, _ => False
  end.

Lemma getFromZiplist_ok n b zl prs f : hash_zl n b zl prs ->
  exists r, hashTypeGetFromZiplist zl f = Some r /\ found r ((list_to_map prs : gmap (list Z) (list Z)) !! f).
Proof.
  intros [(es & Hr & Hv & _) Hnd _ _]. unfold hashTypeGetFromZiplist.
  destruct (find_field_ok zl es prs f Hr Hv) as [[Hf ->]|(l & v & k & es1 & ef & ev & es2 & -> & Hf & Hat & -> & Hval)]; simpl_bind.
  - eexists. split; [done|]. by rewrite map_no_field.
  - rewrite Hval. simpl_bind. destruct Hat as [-> _ _ Hev _]. rewrite cons_middle in Hr.
    destruct (get_entry zl (es1 ++ [ef]) ev es2 Hr) as (g & w & -> & Hg & Hw). simpl_bind. rewrite Hg. simpl_bind.
    eexists. split; [done|]. rewrite map_field by done. cbn. by rewrite <- Hev.
Qed.

Lemma getFromHashTable_ok d f : dict_ok d ->
  exists d', hashTypeGetFromHashTable d f = Some (d', dict_map d !! f) /\ dict_ok d' /\ dict_map d' = dict_map d.
Proof.
  intros Hd. destruct (dictFetchValue_correct d f Hd) as (d' & Hg & Hd' & Hm & _). by exists d'.
Qed.

Lemma hashTypeGetValue_ok b o m f : hash_fits b o m ->
  exists o' r, hashTypeGetValue o f = Some (o', r) /\ hash_fits b o' m /\ found r (m !! f).
Proof.
  destruct o as [zl|d]; intros Ho; unfold hashTypeGetValue.
  - destruct Ho as (prs & Hz & ->). destruct (getFromZiplist_ok _ _ zl prs f Hz) as (r & -> & Hr). simpl_bind.
    eexists _, _. split_and!; [done | by exists prs | done].
  - destruct Ho as [Hd ->]. destruct (getFromHashTable_ok d f Hd) as (d' & -> & Hd' & Hm). simpl_bind.
    eexists _, _. split_and!; [done | by split | by destruct (dict_map d !! f)].
Qed.

Lemma hashTypeGetValueLength_ok b o m f : hash_fits b o m ->
  exists o', hashTypeGetValueLength o f = Some (o', match m !! f with Some v => zlen v | None => 0 end) /\ hash_fits b o' m.
Proof.
  destruct o as [zl|d]; intros Ho; unfold hashTypeGetValueLength.
  - destruct Ho as (prs & Hz & ->). destruct (getFromZiplist_ok _ _ zl prs f Hz) as (r & -> & Hr). simpl_bind.
    exists (OBJ_ENCODING_ZIPLIST zl). split; [|by exists prs]. do 2 f_equal. destruct r as [v|], ((list_to_map prs : gmap (list Z) (list Z)) !! f); try done.
    pose proof (val_length _ _ Hr). by destruct v.
  - destruct Ho as [Hd ->]. destruct (getFromHashTable_ok d f Hd) as (d' & -> & Hd' & Hm). simpl_bind. by eexists.
Qed.

Lemma hashTypeExists_ok b o m f : hash_fits b o m ->
  exists o', hashTypeExists o f = Some (o', bool_decide (is_Some (m !! f))) /\ hash_fits b o' m.
Proof.
  destruct o as [zl|d]; intros Ho; unfold hashTypeExists.
  - destruct Ho as (prs & Hz & ->). destruct (getFromZiplist_ok _ _ zl prs f Hz) as (r & -> & Hr). simpl_bind.
    exists (OBJ_ENCODING_ZIPLIST zl). split; [|by exists prs]. do 2 f_equal. by destruct r, ((list_to_map prs : gmap (list Z) (list Z)) !! f).
  - destruct Ho as [Hd ->]. destruct (getFromHashTable_ok d f Hd) as (d' & -> & Hd' & Hm). simpl_bind.
    exists (OBJ_ENCODING_HT d'). split; [|done]. do 2 f_equal. by destruct (dict_map d !! f).
Qed.

Lemma map_size (prs : list (list Z * list Z)) : NoDup prs.*1 ->
  Z.of_nat (base.size (list_to_map prs : gmap (list Z) (list Z))) = zlen prs.
Proof.
  intros Hnd. unfold zlen. f_equal. rewrite <- (length_map_to_list (list_to_map prs : gmap (list Z) (list Z))).
  by rewrite (Permutation_length (map_to_list_to_map prs Hnd)).
Qed.

Lemma hash_zl_length n b zl prs : hash_zl n b zl prs ->
  exists zl', ziplistLen zl = Some (2 * zlen prs, zl') /\ hash_zl n b zl' prs.
Proof.
  intros [(es & Hr & Hv & Hb) Hnd Hn Hi]. destruct (ziplistLen_ok zl es Hr) as (zl' & -> & Hr').
  rewrite (values_flat _ _ Hv). exists zl'. split; [done|]. split; [by exists es | done..].
Qed.

Lemma hashTypeLength_ok b o m : hash_fits b o m ->
  exists o', hashTypeLength o = Some (o', Z.of_nat (base.size m)) /\ hash_fits b o' m.
Proof.
  destruct o as [zl|d]; intros Ho; unfold hashTypeLength.
  - destruct Ho as (prs & Hz & ->). destruct (hash_zl_length _ _ zl prs Hz) as (zl' & -> & Hz'). simpl_bind.
    rewrite (map_size prs) by apply Hz. rewrite Z.mul_comm, Z.div_mul by lia. eexists. split; [done|]. by exists prs.
  - destruct Ho as [Hd ->]. rewrite (dictSize_map d Hd). by eexists.
Qed.

(** ** Conversion *)

(** The iterator has returned the pairs of the entries [es1]. *)
Definition hi_pos (es1 : list zent) (hi : hashTypeIterator) : Prop :=
  (es1 = [] /\ hi = Hi_ziplist None None) \/
  (exists es0 ef ev, es1 = es0 ++ [ef; ev] /\ hi = Hi_ziplist (Some (zpos es0)) (Some (zpos (es0 ++ [ef])))).

Lemma next_fptr zl es1 es2 hi : zl_repr zl (es1 ++ es2) -> hi_pos es1 hi ->
  exists fptr vptr, hi = Hi_ziplist fptr vptr /\
    match fptr, vptr with
    | None, None => ziplistIndex zl 0
    | Some _, Some vptr => ziplistNext zl vptr
    | _, _ => None
    end = Some (zelem_at es1 es2).
Proof.
  intros Hr [[-> ->]|(es0 & ef & ev & -> & ->)]; eexists _, _; (split; [done|]).
  - cbn [app] in Hr. rewrite (ziplistIndex_ok zl es2 0 Hr) by (done || unfold INT32_MIN; lia). f_equal.
    unfold zelem_pos, zelem_at. change (0 <? 0) with false. cbv iota zeta. destruct es2 as [|e es2]; [done|].
    rewrite (proj2 (Z.ltb_lt 0 (zlen (e :: es2)))) by (rewrite zlen_cons; pose proof (zlen_nonneg es2); lia). done.
  - change (es0 ++ [ef; ev]) with (es0 ++ [ef] ++ [ev]) in *. rewrite app_assoc, <- app_assoc in Hr. rewrite app_assoc.
    by rewrite (ziplistNext_ok zl (es0 ++ [ef]) ev es2 Hr).
Qed.

Lemma hashTypeNext_end zl es hi : zl_repr zl es -> hi_pos es hi ->
  hashTypeNext (OBJ_ENCODING_ZIPLIST zl) hi = Some (OBJ_ENCODING_ZIPLIST zl, hi, false) /\
  hashTypeReleaseIterator (OBJ_ENCODING_ZIPLIST zl) hi = Some (OBJ_ENCODING_ZIPLIST zl).
Proof.
  intros Hr Hhi. rewrite <- (app_nil_r es) in Hr. destruct (next_fptr zl es [] hi Hr Hhi) as (fptr & vptr & -> & Hn).
  unfold hashTypeNext. rewrite Hn. done.
Qed.

Lemma hashTypeNext_pair zl es1 ef ev es2 hi : zl_repr zl (es1 ++ ef :: ev :: es2) -> hi_pos es1 hi ->
  exists hi', hashTypeNext (OBJ_ENCODING_ZIPLIST zl) hi = Some (OBJ_ENCODING_ZIPLIST zl, hi', true) /\
    hi_pos (es1 ++ [ef; ev]) hi' /\
    (exists v, hashTypeCurrentObject (OBJ_ENCODING_ZIPLIST zl) hi' OBJ_HASH_KEY = Some v /\ val_is v (bval (body ef))) /\
    (exists v, hashTypeCurrentObject (OBJ_ENCODING_ZIPLIST zl) hi' OBJ_HASH_VALUE = Some v /\ val_is v (bval (body ev))).
Proof.
  intros Hr Hhi. destruct (next_fptr zl es1 _ hi Hr Hhi) as (fptr & vptr & -> & Hn).
  exists (Hi_ziplist (Some (zpos es1)) (Some (zpos (es1 ++ [ef])))). split_and!.
  - unfold hashTypeNext. rewrite Hn. cbn [mbind option_bind zelem_at]. unfold value_of.
    rewrite (ziplistNext_ok zl es1 ef (ev :: es2) Hr). done.
  - right. by exists es1, ef, ev.
  - cbn [hashTypeCurrentObject]. unfold hashTypeCurrentFromZiplist. destruct (get_entry zl es1 ef _ Hr) as (g & v & -> & Hg & Hv).
    simpl_bind. by exists v.
  - cbn [hashTypeCurrentObject]. unfold hashTypeCurrentFromZiplist. rewrite cons_middle in Hr.
    destruct (get_entry zl _ ev _ Hr) as (g & v & -> & Hg & Hv). simpl_bind. by exists v.
Qed.

Lemma new_sds o hi what v s : hashTypeCurrentObject o hi what = Some v -> val_is v s -> int_safe s ->
  hashTypeCurrentObjectNewSds o hi what = Some s.
Proof. intros Hc Hv Hs. unfold hashTypeCurrentObjectNewSds. rewrite Hc. simpl_bind. by apply val_sds. Qed.

Lemma convert_end fuel cf zl es1 es2 hi d : zl_repr zl (es1 ++ es2) -> hi_pos es1 hi -> values es2 = flat [] ->
  convert_loop fuel cf (OBJ_ENCODING_ZIPLIST zl) hi d = Some d.
Proof.
  intros Hr Hhi Hv. apply fmap_nil_inv in Hv as ->. rewrite app_nil_r in Hr.
  destruct (hashTypeNext_end zl es1 hi Hr Hhi) as [Hn Hrel].
  destruct fuel; cbn [convert_loop]; rewrite Hn; simpl_bind; cbn [negb]; by rewrite Hrel.
Qed.

Lemma convert_loop_ok fuel cf zl es1 es2 k hi d : zl_repr zl (es1 ++ es2) -> hi_pos es1 hi -> values es2 = flat k ->
  NoDup k.*1 -> Forall int_safe (flat k) -> (length k <= fuel)%nat -> dict_ok d ->
  (forall f, f ∈ k.*1 -> dict_map d !! f = None) -> Z.of_nat (base.size (dict_map d)) + zlen k < 2 ^ 60 ->
  exists d', convert_loop fuel cf (OBJ_ENCODING_ZIPLIST zl) hi d = Some d' /\ dict_ok d' /\
    dict_map d' = list_to_map k ∪ dict_map d.
Proof.
  revert es1 es2 k hi d. induction fuel as [|fuel IH]; intros es1 es2 k hi d Hr Hhi Hv Hnd Hint Hlen Hd Hfresh Hsz;
    (destruct k as [|[f v] k]; [rewrite (convert_end _ cf zl es1 es2 hi d Hr Hhi Hv); exists d; split_and!; [done | done|];
       change (list_to_map []) with (∅ : gmap (list Z) (list Z)); by rewrite (left_id_L ∅ (∪))|]); [simpl in Hlen; lia|].
  cbn [convert_loop].
  apply values_uncons in Hv as (ef & es3 & -> & Hf & Hv). apply values_uncons in Hv as (ev & es4 & -> & Hev & Hv).
  destruct (hashTypeNext_pair zl es1 ef ev es4 hi Hr Hhi) as (hi' & -> & Hhi' & (vf & Hcf & Hvf) & (vv & Hcv & Hvv)).
  simpl_bind. cbn [negb flat] in *. rewrite !Forall_cons in Hint. destruct Hint as (Hif & Hiv & Hint).
  rewrite Hf in Hvf. rewrite Hev in Hvv. rewrite (new_sds _ _ _ _ _ Hcf Hvf Hif). simpl_bind.
  rewrite (new_sds _ _ _ _ _ Hcv Hvv Hiv). simpl_bind. rewrite zlen_cons in Hsz. pose proof (zlen_nonneg k).
  destruct (dictAdd_correct (can_resize cf) d f v Hd) as (d' & -> & Hd' & Hm); [rewrite (dictSize_map d Hd); lia|].
  rewrite fmap_cons, NoDup_cons in Hnd. destruct Hnd as [Hnf Hnd]. cbn [fst] in Hnf.
  assert (dict_map d !! f = None) as Hfn by (apply Hfresh; rewrite fmap_cons, elem_of_cons; by left).
  rewrite Hfn in Hm |- *. rewrite bool_decide_true by done. simpl_bind. cbn [negb].
  destruct (IH (es1 ++ [ef; ev]) es4 k hi' d') as (d2 & Hc & Hd2 & Hm2); try done.
  - by rewrite <- app_assoc.
  - simpl in Hlen. lia.
  - intros g Hg. rewrite Hm, lookup_insert_ne by (intros ->; done). apply Hfresh. rewrite fmap_cons, elem_of_cons. by right.
  - rewrite Hm, map_size_insert_None by done. lia.
  - exists d2. split_and!; [done | done|]. rewrite Hm2, Hm. cbn [list_to_map foldr fst snd].
    rewrite <- insert_union_r by (by apply not_elem_of_list_to_map_1). by rewrite insert_union_l.
Qed.

Lemma hashTypeConvert_ok cf n b zl prs : n < 2 ^ 59 -> hash_zl n b zl prs ->
  exists o', hashTypeConvert cf (OBJ_ENCODING_ZIPLIST zl) = Some o' /\ hash_fits b o' (list_to_map prs) /\
    (exists d, o' = OBJ_ENCODING_HT d).
Proof.
  intros Hlt [(es & Hr & Hv & _) Hnd Hn Hi]. cbn [hashTypeConvert]. unfold hashTypeConvertZiplist. cbv zeta.
  pose proof (repr_fuel zl [] es Hr) as Hfuel. pose proof (values_flat _ _ Hv) as Hlen. eval_pow2.
  destruct (convert_loop_ok (length zl) cf zl [] es prs (Hi_ziplist None None) dictCreate) as (d & Hc & Hd & Hm);
    [done | by left | done | done | done | unfold zlen in Hlen; lia | apply dictCreate_ok | done | |].
  - change (dict_map dictCreate) with (∅ : gmap (list Z) (list Z)). rewrite map_size_empty. eval_pow2. lia.
  - cbn [hashTypeInitIterator]. rewrite Hc. simpl_bind. eexists. split_and!; [done | | by exists d]. split; [done|].
    rewrite Hm. change (dict_map dictCreate) with (∅ : gmap (list Z) (list Z)). by rewrite (right_id_L ∅ (∪)).
Qed.

(** ** Update of a ziplist *)

Lemma body_of_length s : zlen (body_of s) <= zlen s + 13.
Proof. pose proof (rawlen_new 0 s) as Hr. unfold rawlen, new_ent, plsize in Hr. cbn [big body] in Hr. case_match; lia. Qed.

(** A ziplist within the limits has room for one more string. *)
Lemma hash_room es prs (s : list Z) : values es = flat prs -> zlen prs <= max_pairs + 1 -> bsize es <= max_bytes -> zlen s <= max_bytes - 13 - bsize es ->
  zlen s < 2 ^ 32 /\ 11 + zsize es + 8 * zlen es + zlen s + 14 < UINT32_MAX.
Proof.
  intros Hv Hn Hb Hs. pose proof (values_flat _ _ Hv) as Hlen. pose proof (zsize_bsize es) as Hz. pose proof (bsize_nonneg es).
  unfold max_pairs, max_bytes, UINT32_MAX in *. eval_pow2. lia.
Qed.

Lemma push_ok zl es s : zl_repr zl es -> bytes_ok s -> zlen s < 2 ^ 32 -> 11 + zsize es + 8 * zlen es + zlen s + 14 < UINT32_MAX ->
  exists zl' e, ziplistPush zl s ZIPLIST_TAIL = Some zl' /\ zl_repr zl' (es ++ [e]) /\ body e = body_of s /\ bval (body e) = s.
Proof.
  intros Hr Hs Hlen Hroom. unfold ziplistPush, ZIPLIST_ENTRY_END. rewrite (repr_bytes zl es Hr). simpl_bind.
  replace (11 + zsize es - 1) with (zpos es) by (unfold zpos; lia). pose proof (zlen_nonneg es).
  destruct (ziplistInsert_ok zl es [] s) as (zl' & k' & Hi & Hr' & Hb); [by rewrite app_nil_r | done | done | | ].
  { rewrite app_nil_r. change (zlen (@nil zent)) with 0. lia. }
  apply fmap_nil_inv in Hb as ->. exists zl', (new_ent (last_raw 0 es) s). split_and!; [done | done | done|].
  by apply body_of_ok.
Qed.

Lemma hash_push n b zl prs f v : hash_zl n b zl prs -> n <= max_pairs -> b + zlen f + zlen v + 26 <= max_bytes -> f ∉ prs.*1 -> bytes_ok f -> bytes_ok v -> int_safe f -> int_safe v ->
  exists zl1 zl2, ziplistPush zl f ZIPLIST_TAIL = Some zl1 /\ ziplistPush zl1 v ZIPLIST_TAIL = Some zl2 /\
    hash_zl (n + 1) (b + zlen f + zlen v + 26) zl2 (prs ++ [(f, v)]).
Proof.
  intros [(es & Hr & Hv & Hb) Hnd Hn Hi] Hmax Hroom Hf Hbf Hbv Hif Hiv.
  pose proof (zlen_nonneg f). pose proof (zlen_nonneg v).
  destruct (hash_room es prs f Hv) as [Hf32 Hroom1]; [lia | lia | lia |].
  destruct (push_ok zl es f Hr Hbf Hf32 Hroom1) as (zl1 & e1 & Hp1 & Hr1 & Hb1 & Hv1).
  pose proof (body_of_length f). pose proof (body_of_length v).
  assert (zlen v < 2 ^ 32 /\ 11 + zsize (es ++ [e1]) + 8 * zlen (es ++ [e1]) + zlen v + 14 < UINT32_MAX) as [Hv32 Hroom2].
  { pose proof (values_flat _ _ Hv) as Hlen. pose proof (zsize_bsize (es ++ [e1])) as Hz. rewrite bsize_app, zlen_app in *.
    pose proof (bsize_nonneg es). cbn [bsize] in *. rewrite Hb1 in *. change (zlen [e1]) with 1 in *.
    unfold max_pairs, max_bytes, UINT32_MAX in *. eval_pow2. lia. }
  destruct (push_ok zl1 (es ++ [e1]) v Hr1 Hbv Hv32 Hroom2) as (zl2 & e2 & Hp2 & Hr2 & Hb2 & Hv2).
  exists zl1, zl2. split_and!; [done | done|]. split.
  - exists ((es ++ [e1]) ++ [e2]). split_and!; [done | |].
    + rewrite !values_app, Hv, flat_app, <- app_assoc. cbn. by rewrite Hv1, Hv2.
    + rewrite !bsize_app. cbn [bsize]. rewrite Hb1, Hb2. lia.
  - rewrite fmap_app. apply NoDup_app. split_and!; [done | | apply NoDup_singleton].
    intros g Hg ->%list_elem_of_singleton. done.
  - rewrite zlen_app. change (zlen [(f, v)]) with 1. lia.
  - rewrite flat_app. apply Forall_app. split; [done|]. by repeat constructor.
Qed.

Lemma hash_replace n b zl l k es es1 ef ev es2 f v w : zl_repr zl es -> bsize es <= b -> b + zlen w + 13 <= max_bytes ->
  NoDup (l ++ (f, v) :: k).*1 -> zlen (l ++ (f, v) :: k) <= n -> n <= max_pairs -> Forall int_safe (flat (l ++ (f, v) :: k)) ->
  field_at es l k f v es1 ef ev es2 -> bytes_ok w -> int_safe w ->
  exists zl', ziplistReplace zl (zpos (es1 ++ [ef])) w = Some zl' /\ hash_zl n (b + zlen w + 13) zl' (l ++ (f, w) :: k).
Proof.
  intros Hr Hbs Hb Hnd Hn Hmax Hi [-> H1 Hf Hev H2] Hbw Hiw. pose proof (zlen_nonneg w).
  assert (values (es1 ++ ef :: ev :: es2) = flat (l ++ (f, v) :: k)) as Hv.
  { rewrite values_app, flat_app, H1. f_equal. unfold values in *. rewrite !fmap_cons. cbn [flat compose]. by rewrite Hf, Hev, H2. }
  destruct (hash_room _ _ w Hv) as [Hw32 Hroom]; [lia | lia | lia |]. rewrite cons_middle in Hr, Hroom.
  destruct (ziplistReplace_ok zl (es1 ++ [ef]) ev es2 w Hr Hbw Hw32 Hroom) as (zl' & e' & k' & Hrep & Hr' & He & Hk).
  exists zl'. split; [done|]. pose proof (body_of_length w). rewrite flat_app in Hi. apply Forall_app in Hi as [Hi1 Hi2].
  cbn [flat] in Hi2. rewrite !Forall_cons in Hi2. destruct Hi2 as (Hi2 & _ & Hi3). split.
  - exists ((es1 ++ [ef]) ++ e' :: k'). split_and!; [done | |].
    + rewrite flat_app, <- app_assoc, values_app, H1. f_equal. cbn [flat app]. rewrite <- H2, <- (values_bodies _ _ Hk). unfold values. rewrite !fmap_cons.
      cbn [flat compose app]. rewrite He, Hf, (proj2 (body_of_ok w Hbw Hw32)). done.
    + rewrite !bsize_app in *. cbn [bsize] in *. rewrite He, (bsize_body _ _ Hk). pose proof (zlen_nonneg (body ev)). lia.
  - rewrite fmap_app, fmap_cons in Hnd |- *. done.
  - rewrite zlen_app, zlen_cons in Hn |- *. done.
  - rewrite flat_app. apply Forall_app. split; [done|]. by repeat constructor.
Qed.

Lemma map_update (l k : list (list Z * list Z)) f v w : f ∉ l.*1 ->
  (list_to_map (l ++ (f, w) :: k) : gmap (list Z) (list Z)) = <[f := w]> (list_to_map (l ++ (f, v) :: k)).
Proof.
  intros Hf. induction l as [|[a b] l IH]; cbn [app list_to_map foldr fst snd].
  - by rewrite insert_insert_eq.
  - rewrite fmap_cons, not_elem_of_cons in Hf. destruct Hf as [Hne Hf]. cbn in Hne.
    change (foldr _ ∅ (l ++ (f, w) :: k)) with (list_to_map (l ++ (f, w) :: k) : gmap (list Z) (list Z)).
    rewrite (IH Hf). by rewrite insert_insert_ne by congruence.
Qed.

(** ** hashTypeSet() and hashTypeDelete() *)

Lemma hash_zl_weaken n n' b b' zl prs : hash_zl n b zl prs -> n <= n' -> b <= b' -> hash_zl n' b' zl prs.
Proof. intros [(es & Hr & Hv & Hb) Hnd Hn Hi] ? ?. split; [exists es; split_and!; [done | done | lia] | done | lia | done]. Qed.

Lemma hash_fits_weaken b b' o m : hash_fits b o m -> b <= b' -> hash_fits b' o m.
Proof. destruct o as [zl|d]; [|done]. intros (prs & Hz & ->) Hle. exists prs. split; [|done]. by apply (hash_zl_weaken _ _ _ _ _ _ Hz). Qed.

(** The end of hashTypeSet(): a ziplist with too many fields is converted. *)
Lemma set_finish cf b zl prs (update : bool) : hash_zl (max_pairs + 1) b zl prs -> hash_max_ziplist_entries cf <= max_pairs ->
  exists o', ('(o, n) ← hashTypeLength (OBJ_ENCODING_ZIPLIST zl);
    o ← (if hash_max_ziplist_entries cf <? n then hashTypeConvert cf o else Some o);
    Some (o, update)) = Some (o', update) /\ hash_fits b o' (list_to_map prs).
Proof.
  intros Hz Hmax. destruct (hash_zl_length _ _ zl prs Hz) as (zl' & Hlen & Hz'). unfold hashTypeLength. rewrite Hlen. simpl_bind.
  rewrite Z.mul_comm, Z.div_mul by lia. destruct (Z.ltb_spec (hash_max_ziplist_entries cf) (zlen prs)) as [Hlt|Hge].
  - destruct (hashTypeConvert_ok cf (max_pairs + 1) _ zl' prs ltac:(unfold max_pairs; eval_pow2; lia) Hz') as (o' & -> & Hr & _). simpl_bind. by eexists.
  - simpl_bind. eexists. split; [done|]. exists prs. split; [|done]. destruct Hz' as [He Hnd _ Hi]. split; [done | done | lia | done].
Qed.

Lemma hashTypeSet_ok cf b o m f v : hash_fits b o m -> b + zlen f + zlen v + 26 <= max_bytes ->
  bytes_ok f -> bytes_ok v -> int_safe f -> int_safe v -> hash_max_ziplist_entries cf <= max_pairs -> Z.of_nat (base.size m) < 2 ^ 60 ->
  exists o', hashTypeSet cf o f v = Some (o', bool_decide (is_Some (m !! f))) /\
    hash_fits (b + zlen f + zlen v + 26) o' (<[f := v]> m).
Proof.
  intros Ho Hb Hbf Hbv Hif Hiv Hmax Hsz. pose proof (zlen_nonneg f). pose proof (zlen_nonneg v).
  destruct o as [zl|d]; unfold hashTypeSet.
  - destruct Ho as (prs & Hz & ->). pose proof Hz as [(es & Hr & Hv & Hes) Hnd Hn Hi].
    destruct (find_field_ok zl es prs f Hr Hv) as [[Hf ->]|(l & w & k & es1 & ef & ev & es2 & -> & Hf & Hat & -> & Hval)]; simpl_bind.
    + destruct (hash_push max_pairs b zl prs f v Hz) as (zl1 & zl2 & -> & Hp2 & Hz2); [lia | done.. |]. simpl_bind. rewrite Hp2. simpl_bind.
      destruct (set_finish cf _ zl2 _ false Hz2 Hmax) as (o' & Hfin & Ho'). eexists. split.
      * rewrite Hfin, map_no_field by done. by rewrite bool_decide_false by (by intros [? ?]).
      * by rewrite list_to_map_snoc in Ho'.
    + rewrite Hval. simpl_bind.
      destruct (hash_replace max_pairs b zl l k es es1 ef ev es2 f w v) as (zl' & -> & Hz'); [done | done | lia | done | done | lia | done.. |].
      simpl_bind. apply (hash_zl_weaken _ (max_pairs + 1) _ (b + zlen f + zlen v + 26)) in Hz'; [|lia..].
      destruct (set_finish cf _ zl' _ true Hz' Hmax) as (o' & Hfin & Ho'). eexists. split.
      * rewrite Hfin, map_field by done. by rewrite bool_decide_true.
      * by rewrite (map_update l k f w v Hf) in Ho'.
  - destruct Ho as [Hd ->]. destruct (dictFind_spec d f Hd) as (d1 & r & -> & Hs & Hfind). simpl_bind.
    pose proof (same_dict_map d d1 Hd (same_entries _ _ Hs)) as Hm1. pose proof (same_ok _ _ Hs) as Hd1.
    destruct (dict_map d !! f) as [w|] eqn:Hw.
    + destruct Hfind as (ref & -> & He). destruct (dictSetVal_spec d1 ref _ v Hd1 He) as (d2 & -> & Hd2 & Hm2). simpl_bind.
      eexists. split; [by rewrite bool_decide_true|]. split; [done|]. by rewrite Hm2, Hm1.
    + subst r. destruct (dictAdd_correct (can_resize cf) d1 f v Hd1) as (d2 & -> & Hd2 & Hm2); [rewrite (dictSize_map d1 Hd1), Hm1; lia|].
      simpl_bind. eexists. split; [by rewrite bool_decide_false by (by intros [? ?])|]. split; [done|]. by rewrite Hm2, Hm1, Hw.
Qed.

Lemma delete_first `{Allocator} zl es1 e k : zl_repr zl (es1 ++ e :: k) -> 11 + zsize (es1 ++ e :: k) + 4 * zlen (e :: k) < UINT32_MAX ->
  exists zl' k', ziplistDelete zl (zpos es1) = Some (zl', zpos es1) /\ zl_repr zl' (es1 ++ k') /\ body <$> k' = body <$> k.
Proof.
  intros Hr Hroom. unfold ziplistDelete. destruct (ziplistDelete_num_ok zl es1 (e :: k) 1 Hr) as (zl' & k' & -> & Hr' & Hk & _); [done | lia | done |].
  simpl_bind. by exists zl', k'.
Qed.

Lemma hash_delete_pair n b zl l k es es1 ef ev es2 f v : zl_repr zl es -> bsize es <= b -> b <= max_bytes -> NoDup (l ++ (f, v) :: k).*1 ->
  zlen (l ++ (f, v) :: k) <= n -> n <= max_pairs -> Forall int_safe (flat (l ++ (f, v) :: k)) -> field_at es l k f v es1 ef ev es2 ->
  exists zl1 zl2, ziplistDelete zl (zpos es1) = Some (zl1, zpos es1) /\ ziplistDelete zl1 (zpos es1) = Some (zl2, zpos es1) /\
    hash_zl n b zl2 (l ++ k).
Proof.
  intros Hr Hes Hb Hnd Hn Hmax Hi [-> H1 Hf Hev H2].
  assert (values (es1 ++ ef :: ev :: es2) = flat (l ++ (f, v) :: k)) as Hv.
  { rewrite values_app, flat_app, H1. f_equal. unfold values in *. rewrite !fmap_cons. cbn [flat compose]. by rewrite Hf, Hev, H2. }
  pose proof (values_flat _ _ Hv) as Hlen. pose proof (zsize_bsize (es1 ++ ef :: ev :: es2)) as Hz.
  rewrite zlen_app, !zlen_cons in Hlen, Hz. rewrite zlen_app, zlen_cons in Hlen, Hn.
  pose proof (zlen_nonneg es1). pose proof (zlen_nonneg es2). unfold max_pairs, max_bytes in *.
  destruct (delete_first zl es1 ef (ev :: es2) Hr) as (zl1 & k1 & Hd1 & Hr1 & Hk1).
  { rewrite !zlen_cons. unfold UINT32_MAX. eval_pow2. lia. }
  rewrite fmap_cons in Hk1. destruct k1 as [|e1 k1]; [done|]. rewrite fmap_cons in Hk1. apply (inj2 cons) in Hk1 as [He1 Hk1].
  assert (bsize (es1 ++ e1 :: k1) <= b) as Hb1.
  { rewrite bsize_app in *. cbn [bsize] in *. rewrite He1, (bsize_body _ _ Hk1). pose proof (zlen_nonneg (body ef)). lia. }
  assert (zlen k1 = zlen es2) as Hlk by (apply (f_equal zlen) in Hk1; unfold zlen in *; by rewrite !length_fmap in Hk1).
  destruct (delete_first zl1 es1 e1 k1 Hr1) as (zl2 & k2 & Hd2 & Hr2 & Hk2).
  { pose proof (zsize_bsize (es1 ++ e1 :: k1)) as Hz1. rewrite zlen_app, !zlen_cons in *. rewrite Hlk in *. unfold UINT32_MAX. eval_pow2. lia. }
  exists zl1, zl2. split_and!; [done | done|]. rewrite Hk1 in Hk2. split.
  - exists (es1 ++ k2). split_and!; [done | by rewrite values_app, flat_app, H1, (values_bodies _ _ Hk2), H2 |].
    rewrite !bsize_app in *. cbn [bsize] in *. rewrite (bsize_body _ _ Hk2).
    pose proof (zlen_nonneg (body ef)). pose proof (zlen_nonneg (body ev)). lia.
  - rewrite fmap_app, fmap_cons in Hnd. rewrite fmap_app. apply NoDup_app in Hnd as (Hl & Hd & Hk). apply NoDup_cons in Hk as [_ Hk].
    apply NoDup_app. split_and!; [done | | done]. intros g Hg Hgk. apply (Hd g Hg). by apply elem_of_cons; right.
  - rewrite zlen_app. lia.
  - rewrite flat_app in Hi |- *. apply Forall_app in Hi as [? Hi]. cbn [flat] in Hi. rewrite !Forall_cons in Hi. apply Forall_app. tauto.
Qed.

Lemma map_delete (l k : list (list Z * list Z)) f v : NoDup (l ++ (f, v) :: k).*1 ->
  (list_to_map (l ++ k) : gmap (list Z) (list Z)) = delete f (list_to_map (l ++ (f, v) :: k)).
Proof.
  intros Hnd. rewrite (list_to_map_proper (l ++ (f, v) :: k) ((f, v) :: l ++ k)) by (done || by rewrite Permutation_middle).
  rewrite list_to_map_cons, delete_insert_id; [done|]. apply not_elem_of_list_to_map_1.
  rewrite fmap_app, fmap_cons in Hnd. rewrite fmap_app. apply NoDup_app in Hnd as (_ & Hd & Hk). apply NoDup_cons in Hk as [Hk _].
  cbn [fst] in *. intros [Hg|Hg]%elem_of_app; [|done]. apply (Hd f Hg). by apply elem_of_cons; left.
Qed.

Lemma size_delete (m : gmap (list Z) (list Z)) f :
  Z.of_nat (base.size (delete f m)) = Z.of_nat (base.size m) - (if bool_decide (is_Some (m !! f)) then 1 else 0).
Proof.
  destruct (m !! f) as [w|] eqn:Hf.
  - rewrite bool_decide_true by done. pose proof (map_size_delete f m) as Hs. rewrite Hf in Hs.
    pose proof (map_size_ne_0_lookup_2 m f ltac:(by eexists)). lia.
  - rewrite bool_decide_false by (by intros [? ?]). rewrite delete_id by done. lia.
Qed.

Lemma hashTypeDelete_ok cf b o m f : hash_fits b o m -> b <= max_bytes -> Z.of_nat (base.size m) < 2 ^ 60 ->
  exists o', hashTypeDelete cf o f = Some (o', bool_decide (is_Some (m !! f))) /\ hash_fits b o' (delete f m).
Proof.
  intros Ho Hb Hsz. destruct o as [zl|d]; unfold hashTypeDelete.
  - destruct Ho as (prs & Hz & ->). pose proof Hz as [(es & Hr & Hv & Hes) Hnd Hn Hi].
    destruct (find_field_ok zl es prs f Hr Hv) as [[Hf ->]|(l & w & k & es1 & ef & ev & es2 & -> & Hf & Hat & -> & _)]; simpl_bind.
    + eexists. rewrite map_no_field by done. rewrite bool_decide_false by (by intros [? ?]). split; [done|].
      exists prs. split; [done|]. by rewrite delete_id by (by apply map_no_field).
    + destruct (hash_delete_pair max_pairs b zl l k es es1 ef ev es2 f w) as (zl1 & zl2 & -> & Hd2 & Hz2); [done | done | done | done | done | lia | done | done |].
      simpl_bind. rewrite Hd2. simpl_bind. eexists. rewrite map_field by done. rewrite bool_decide_true by done. split; [done|].
      exists (l ++ k). split; [done|]. by rewrite (map_delete l k f w).
  - destruct Ho as [Hd ->]. destruct (dictDelete_correct d f Hd) as (d1 & -> & _ & Hd1 & Hm1). simpl_bind.
    destruct (resize_if_needed_ok (can_resize cf) (bool_decide (is_Some (dict_map d !! f))) d1 Hd1) as (d2 & -> & Hd2 & Hm2 & _).
    simpl_bind. eexists. split; [done|]. split; [done|]. by rewrite Hm2, Hm1.
Qed.

(** ** HSET *)

Fixpoint total (args : list (list Z)) : Z :=
  match args with
  | [] => 0
  | s :: args => zlen s + total args
  end.

Lemma total_nonneg args : 0 <= total args.
Proof. induction args as [|s args IH]; [done|]. cbn [total]. pose proof (zlen_nonneg s). lia. Qed.

Lemma sum_lengths_ok cf args sum : 0 <= sum -> sum + total args < 2 ^ 64 ->
  sum_lengths cf (Arg_sds <$> args) sum = None \/ sum_lengths cf (Arg_sds <$> args) sum = Some (sum + total args).
Proof.
  revert sum. induction args as [|s args IH]; intros sum H0' Hlt; cbn [fmap list_fmap sum_lengths total] in *.
  { right. f_equal. lia. }
  destruct (_ <? _); [by left|]. pose proof (zlen_nonneg s). pose proof (total_nonneg args).
  rewrite uwrap_small by lia. rewrite Z.add_assoc. apply IH; lia.
Qed.

(** After hashTypeTryConversion() a ziplist has room for the arguments. *)
Lemma hashTypeTryConversion_ok cf o m args : hash_repr o m -> total args < 2 ^ 63 ->
  exists o', hashTypeTryConversion cf o (Arg_sds <$> args) = Some o' /\ hash_fits (2 ^ 30 - total args) o' m.
Proof.
  intros Ho Hlt. destruct o as [zl|d]; [|by eexists]. destruct Ho as (prs & Hz & ->). unfold hashTypeTryConversion.
  destruct (hashTypeConvert_ok cf max_pairs _ zl prs ltac:(unfold max_pairs; eval_pow2; lia) Hz) as (o' & Hc & Ho' & d & ->).
  pose proof (total_nonneg args). destruct (sum_lengths_ok cf args 0) as [-> | ->]; [done | eval_pow2; lia | by eexists |].
  destruct Hz as [(es & Hr & Hv & Hb) Hnd Hn Hi]. unfold ziplistSafeToAdd, ziplistBlobLen. rewrite (repr_bytes zl es Hr). simpl_bind.
  pose proof (zl_small _ _ Hr). pose proof (zsize_bsize es). pose proof (bsize_nonneg es). pose proof (zlen_nonneg es).
  rewrite uwrap_small by (eval_pow2; lia). change ZIPLIST_MAX_SAFETY_SIZE with (2 ^ 30).
  destruct (Z.ltb_spec (2 ^ 30) (11 + zsize es + (0 + total args))); cbn [negb]; [by eexists|].
  eexists. split; [done|]. exists prs. split; [|done]. split; [|done..]. exists es. split_and!; [done | done | lia].
Qed.

(** for (i = 2; i < c->argc; i += 2) created += !hashTypeSet(o,c->argv[i]->ptr,c->argv[i+1]->ptr,HASH_SET_COPY); *)
Fixpoint hset_loop (cf : hash_conf) (o : hash_obj) (args : list (list Z)) (created : Z) : option (hash_obj * Z) :=
  match args with
  | field :: value :: args =>
      '(o, update) ← hashTypeSet cf o field value;
      hset_loop cf o args (s32 (created + (if (update : bool) then 0 else 1)))
  | _ => Some (o, created)
  end.

(** What hsetCommand() does with the object: the object and 'created'. *)
Definition hset (cf : hash_conf) (o : hash_obj) (args : list (list Z)) : option (hash_obj * Z) :=
  o ← hashTypeTryConversion cf o (Arg_sds <$> args);
  hset_loop cf o args 0.

(** What hsetnxCommand() does with the object: the object and the reply. *)
Definition hsetnx (cf : hash_conf) (o : hash_obj) (field value : list Z) : option (hash_obj * Z) :=
  o ← hashTypeTryConversion cf o [Arg_sds field; Arg_sds value];
  '(o, ex) ← hashTypeExists o field;
  if (ex : bool) then Some (o, 0)
  else '(o, _) ← hashTypeSet cf o field value; Some (o, 1).

(** The map after HSET with these arguments. *)
Fixpoint hset_map (m : gmap (list Z) (list Z)) (args : list (list Z)) : gmap (list Z) (list Z) :=
  match args with
  | field :: value :: args => hset_map (<[field := value]> m) args
  | _ => m
  end.

Definition arg_ok (s : list Z) : Prop := bytes_ok s /\ int_safe s.

(** The limits within which a hash with these arguments stays. *)
Record hash_limits (cf : hash_conf) (m : gmap (list Z) (list Z)) (args : list (list Z)) : Prop := {
  hl_conf : hash_max_ziplist_entries cf <= max_pairs;
  hl_args : Forall arg_ok args;
  hl_num : zlen args <= 2 ^ 26;
  hl_size : Z.of_nat (base.size m) + zlen args < 2 ^ 60;
}.

Lemma size_hset (m : gmap (list Z) (list Z)) f v :
  Z.of_nat (base.size (<[f := v]> m)) = Z.of_nat (base.size m) + (if bool_decide (is_Some (m !! f)) then 0 else 1).
Proof.
  destruct (m !! f) as [w|] eqn:Hf.
  - rewrite bool_decide_true by done. rewrite map_size_insert_Some by done. lia.
  - rewrite bool_decide_false by (by intros [? ?]). rewrite map_size_insert_None by done. lia.
Qed.

Lemma hset_loop_ok cf n args : (length args <= n)%nat -> forall b o m created, hash_fits b o m ->
  hash_limits cf m args -> b + total args + 13 * zlen args <= max_bytes -> 0 <= created <= 2 ^ 31 - 1 - zlen args ->
  exists o', hset_loop cf o args created =
      Some (o', created + (Z.of_nat (base.size (hset_map m args)) - Z.of_nat (base.size m))) /\
    hash_repr o' (hset_map m args).
Proof.
  revert args. induction n as [|n IH]; intros args Hn b o m created Ho [Hcf Hargs Hnum Hsz] Hb Hcr.
  { destruct args; [|simpl in Hn; lia]. cbn. eexists. split; [do 2 f_equal; lia|]. apply (hash_fits_weaken b); [done|].
    change (zlen []) with 0 in Hb. change (total []) with 0 in Hb. lia. }
  destruct args as [|f [|v args]]; [..|].
  - cbn. eexists. split; [do 2 f_equal; lia|]. apply (hash_fits_weaken b); [done|].
    change (zlen []) with 0 in Hb. change (total []) with 0 in Hb. lia.
  - cbn. eexists. split; [do 2 f_equal; lia|]. apply (hash_fits_weaken b); [done|].
    cbn in Hb. change (zlen [f]) with 1 in Hb. pose proof (zlen_nonneg f). lia.
  - cbn [hset_loop hset_map total] in *. rewrite !zlen_cons in *. rewrite !Forall_cons in Hargs. destruct Hargs as ([Hbf Hif] & [Hbv Hiv] & Hargs).
    pose proof (zlen_nonneg args). pose proof (total_nonneg args). pose proof (zlen_nonneg f). pose proof (zlen_nonneg v).
    destruct (hashTypeSet_ok cf b o m f v Ho) as (o1 & -> & Ho1); [lia | done | done | done | done | done | lia |]. simpl_bind.
    pose proof (size_hset m f v) as Hs1. set (c1 := if bool_decide (is_Some (m !! f)) then 0 else 1) in *.
    assert (0 <= c1 <= 1) by (unfold c1; destruct (bool_decide _); lia).
    rewrite swrap_small by (eval_pow2; lia).
    destruct (IH args ltac:(simpl in Hn; lia) _ o1 (<[f := v]> m) (created + c1) Ho1) as (o' & -> & Ho'); [| lia | lia |].
    { split; [done | done | lia | lia]. }
    exists o'. split; [|done]. do 2 f_equal. lia.
Qed.

(** ** Whole iterations *)

(** The string that is replied for a value: an integer in decimal notation. *)
Definition val_string (v : hash_val) : list Z :=
  match v with
  | Vstr s => s
  | Vll n => ll2string_out n
  end.

Lemma val_is_string v s : val_is v s -> val_string v = s.
Proof. destruct v; [done|]. by intros [_ ?]. Qed.

(** addHashIteratorCursorToReply(): the string that is added. *)
Definition addHashIteratorCursorToReply (o : hash_obj) (hi : hashTypeIterator) (what : hash_what) : option (list Z) :=
  v ← hashTypeCurrentObject o hi what; Some (val_string v).

(** while (hashTypeNext(hi) != C_ERR) { ... }; [fk] and [fv] are the flags. *)
Fixpoint hgetall_loop (fuel : nat) (fk fv : bool) (o : hash_obj) (hi : hashTypeIterator) (out : list (list Z)) (count : Z)
    : option (hash_obj * list (list Z) * Z) :=
  '(o, hi, ok) ← hashTypeNext o hi;
  if negb ok then o ← hashTypeReleaseIterator o hi; Some (o, out, count)
  else
    match fuel with
    | O => None
    | S fuel =>
        '(out, count) ← (if fk then k ← addHashIteratorCursorToReply o hi OBJ_HASH_KEY; Some (out ++ [k], count + 1) else Some (out, count));
        '(out, count) ← (if fv then v ← addHashIteratorCursorToReply o hi OBJ_HASH_VALUE; Some (out ++ [v], count + 1) else Some (out, count));
        hgetall_loop fuel fk fv o hi out count
    end.

(** What genericHgetallCommand() does with the object: the object, the length that is announced and
    the strings; [None] if the count is not the length. *)
Definition hgetall (fk fv : bool) (o : hash_obj) (garbage : Z) : option (hash_obj * Z * list (list Z)) :=
  '(o, length) ← hashTypeLength o;
  '(o, out, count) ← hgetall_loop (Z.to_nat length) fk fv o (hashTypeInitIterator o garbage) [] 0;
  let count := if fk && fv then Z.quot count 2 else count in
  if count =? length then Some (o, length, out) else None.

(** The iterator over the object [o0], which is now [o], has still to return the pairs [rest]. *)
Definition hi_ok (o0 o : hash_obj) (hi : hashTypeIterator) (rest : list (list Z * list Z)) : Prop :=
  match o0, o, hi with
  | OBJ_ENCODING_ZIPLIST zl, OBJ_ENCODING_ZIPLIST zl', Hi_ziplist _ _ =>
      zl' = zl /\ exists es1 es2, zl_repr zl (es1 ++ es2) /\ hi_pos es1 hi /\ values es2 = flat rest
  | OBJ_ENCODING_HT d0, OBJ_ENCODING_HT d, Hi_ht di _ =>
      dict_ok d0 /\ - 2 ^ 15 <= pauserehash d0 < 2 ^ 15 /\ iter_ok table_addr d0 d di /\
      exists es, iter_at d0 di es /\ rest = (fun e => (key e, val e)) <$> es
  | _, _, _ => False
  end.

Lemma hi_next o0 o hi rest : hi_ok o0 o hi rest ->
  exists o' hi' ok, hashTypeNext o hi = Some (o', hi', ok) /\
  match rest with
  | [] => ok = false /\ hashTypeReleaseIterator o' hi' = Some o0
  | (f, v) :: rest => ok = true /\ hi_ok o0 o' hi' rest /\
      (exists w, hashTypeCurrentObject o' hi' OBJ_HASH_KEY = Some w /\ val_is w f) /\
      (exists w, hashTypeCurrentObject o' hi' OBJ_HASH_VALUE = Some w /\ val_is w v)
  end.
Proof.
  destruct o0 as [zl|d0], o as [zl'|d], hi as [fp vp|di de]; try done.
  - intros [-> (es1 & es2 & Hr & Hhi & Hv)]. destruct rest as [|[f v] rest].
    + apply fmap_nil_inv in Hv as ->. rewrite app_nil_r in Hr. destruct (hashTypeNext_end zl es1 _ Hr Hhi) as [-> Hrel].
      by eexists _, _, _.
    + apply values_uncons in Hv as (ef & es3 & -> & Hf & Hv). apply values_uncons in Hv as (ev & es4 & -> & Hev & Hv).
      destruct (hashTypeNext_pair zl es1 ef ev es4 _ Hr Hhi) as (hi' & -> & Hhi' & Hk & Hw). rewrite Hf in Hk. rewrite Hev in Hw.
      eexists _, _, _. split; [done|]. split_and!; [done | | done | done].
      pose proof Hhi' as [[? _]|(? & ? & ? & _ & ->)]; [by destruct es1|]. split; [done|]. exists (es1 ++ [ef; ev]), es4.
      split_and!; [by rewrite <- app_assoc | done | done].
  - intros (Hd0 & Hp & Hok & es & Hat & ->). unfold hashTypeNext.
    destruct (dictNext_spec table_addr d0 d di es Hd0 Hok Hat) as (d' & di' & r & -> & Hok' & _ & Hs & Hr). simpl_bind.
    eexists _, _, _. split; [done|]. destruct es as [|[k w] es].
    + subst r. split; [done|]. cbn [hashTypeReleaseIterator]. by rewrite (release_ok table_addr d0 d' di' Hok' Hs Hp).
    + destruct Hr as (ref & -> & He & Hat'). rewrite fmap_cons. cbn [key val]. split_and!; [done | | |].
      * split_and!; [done | apply Hp | apply Hp | done|]. by exists es.
      * exists (Vstr k). cbn [hashTypeCurrentObject]. unfold hashTypeCurrentFromHashTable. simpl_bind. by rewrite He.
      * exists (Vstr w). cbn [hashTypeCurrentObject]. unfold hashTypeCurrentFromHashTable. simpl_bind. by rewrite He.
Qed.

(** 'pauserehash' is a 16 bit integer. *)
Definition pause_ok (o : hash_obj) : Prop :=
  match o with OBJ_ENCODING_HT d => - 2 ^ 15 <= pauserehash d < 2 ^ 15 | OBJ_ENCODING_ZIPLIST _ => True end.

Lemma hi_init b o m garbage : hash_fits b o m -> pause_ok o ->
  exists prs, hi_ok o o (hashTypeInitIterator o garbage) prs /\ NoDup prs.*1 /\ m = list_to_map prs /\ zlen prs = Z.of_nat (base.size m).
Proof.
  destruct o as [zl|d]; intros Ho Hp.
  - destruct Ho as (prs & [(es & Hr & Hv & _) Hnd _ _] & ->). exists prs. split_and!; [| done | done | by rewrite map_size].
    split; [done|]. exists [], es. split_and!; [done | by left | done].
  - destruct Ho as [Hd ->]. exists ((fun e => (key e, val e)) <$> dict_entries d).
    destruct (new_iter_ok table_addr d false garbage Hd) as (Hok & Hat & _). split_and!.
    + split_and!; [done | apply Hp | apply Hp | done|]. by exists (dict_entries d).
    + rewrite pair_keys. apply Hd.
    + done.
    + rewrite <- (dictSize_map d Hd), (dictSize_entries d Hd). unfold zlen. by rewrite length_fmap.
Qed.

(** What is replied for a pair. *)
Definition select (fk fv : bool) (p : list Z * list Z) : list (list Z) :=
  (if fk then [p.1] else []) ++ (if fv then [p.2] else []).

Lemma hgetall_loop_ok fuel fk fv o0 o hi rest out count : hi_ok o0 o hi rest -> (length rest <= fuel)%nat ->
  hgetall_loop fuel fk fv o hi out count =
    Some (o0, out ++ concat (select fk fv <$> rest), count + zlen (concat (select fk fv <$> rest))).
Proof.
  revert o hi rest out count. induction fuel as [|fuel IH]; intros o hi rest out count Hhi Hf; cbn [hgetall_loop];
    destruct (hi_next o0 o hi rest Hhi) as (o' & hi' & ok & -> & Hrest); simpl_bind; (destruct rest as [|[f v] rest];
    [destruct Hrest as [-> Hrel]; cbn [negb]; rewrite Hrel; simpl_bind; cbn [fmap list_fmap concat]; change (zlen []) with 0;
     by rewrite app_nil_r, Z.add_0_r|]); [simpl in Hf; lia|].
  destruct Hrest as (-> & Hhi' & (wf & Hcf & Hwf) & (wv & Hcv & Hwv)). cbn [negb].
  unfold addHashIteratorCursorToReply. rewrite Hcf, Hcv. simpl_bind. rewrite (val_is_string _ _ Hwf), (val_is_string _ _ Hwv).
  simpl in Hf. rewrite fmap_cons. cbn [concat]. rewrite zlen_app.
  destruct fk, fv; cbn [select app]; simpl_bind; (rewrite (IH o' hi' rest) by (done || lia)); (apply (f_equal Some); apply pair_equal_spec; split;
      [apply pair_equal_spec; split; [done | by rewrite <- ?app_assoc] | unfold zlen; simpl; lia]).
Qed.

(** ** Commands on a key *)

Definition createHashObject : option hash_obj :=
  zl ← ziplistNew; Some (OBJ_ENCODING_ZIPLIST zl).

(** The string that is replied, nothing for a null reply. *)
Definition addHashFieldToReply (o : hash_obj) (field : list Z) : option (hash_obj * option (list Z)) :=
  '(o, v) ← hashTypeGetValue o field;
  Some (o, match v with Some v => Some (val_string v) | None => None end).

(** for (j = 2; j < c->argc; j++) { ... }: the object, 'deleted' and 'keyremoved' *)
Fixpoint hdel_loop (cf : hash_conf) (o : hash_obj) (args : list (list Z)) (deleted : Z) : option (hash_obj * Z * bool) :=
  match args with
  | [] => Some (o, deleted, false)
  | field :: args =>
      '(o, d) ← hashTypeDelete cf o field;
      if (d : bool) then
        let deleted := s32 (deleted + 1) in
        '(o, n) ← hashTypeLength o;
        if n =? 0 then Some (o, deleted, true) else hdel_loop cf o args deleted
      else hdel_loop cf o args deleted
  end.

(** What hincrbyCommand() replies. *)
Inductive hincrby_reply :=
| Hincrby_value (value : Z)
| Hincrby_not_integer
| Hincrby_overflow.

(** What hincrbyCommand() does with the object, once the increment is parsed. *)
Definition hincrby (cf : hash_conf) (o : hash_obj) (field : list Z) (incr : Z) : option (hash_obj * hincrby_reply) :=
  '(o, v) ← hashTypeGetValue o field;
  match match v with None => Some 0 | Some (Vstr vstr) => string2ll vstr | Some (Vll value) => Some value end with
  | None => Some (o, Hincrby_not_integer)
  | Some oldvalue =>
      if ((incr <? 0) && (oldvalue <? 0) && (incr <? LLONG_MIN - oldvalue)) ||
         ((0 <? incr) && (0 <? oldvalue) && (LLONG_MAX - oldvalue <? incr))
      then Some (o, Hincrby_overflow)
      else
        let value := oldvalue + incr in
        new ← sdsfromlonglong value;
        '(o, _) ← hashTypeSet cf o field new;
        Some (o, Hincrby_value value)
  end.

(** The commands on one key; the key is there or not. *)
Inductive hash_cmd :=
| HSET (args : list (list Z))
| HSETNX (field value : list Z)
| HDEL (args : list (list Z))
| HGET (field : list Z)
| HEXISTS (field : list Z)
| HSTRLEN (field : list Z)
| HLEN.

Inductive hash_reply :=
| Rint (n : Z)
| Rbulk (s : option (list Z)).

(** hashTypeLookupWriteOrCreate() *)
Definition lookup_or_create (key : option hash_obj) : option hash_obj :=
  match key with Some o => Some o | None => createHashObject end.

Definition hash_step (cf : hash_conf) (key : option hash_obj) (c : hash_cmd) : option (option hash_obj * hash_reply) :=
  match c with
  | HSET args => o ← lookup_or_create key; '(o, created) ← hset cf o args; Some (Some o, Rint created)
  | HSETNX field value => o ← lookup_or_create key; '(o, r) ← hsetnx cf o field value; Some (Some o, Rint r)
  | HDEL args =>
      match key with
      | None => Some (None, Rint 0)
      | Some o => '(o, deleted, keyremoved) ← hdel_loop cf o args 0; Some (if (keyremoved : bool) then None else Some o, Rint deleted)
      end
  | HGET field =>
      match key with
      | None => Some (None, Rbulk None)
      | Some o => '(o, r) ← addHashFieldToReply o field; Some (Some o, Rbulk r)
      end
  | HEXISTS field =>
      match key with
      | None => Some (None, Rint 0)
      | Some o => '(o, ex) ← hashTypeExists o field; Some (Some o, Rint (if (ex : bool) then 1 else 0))
      end
  | HSTRLEN field =>
      match key with
      | None => Some (None, Rint 0)
      | Some o => '(o, n) ← hashTypeGetValueLength o field; Some (Some o, Rint n)
      end
  | HLEN =>
      match key with
      | None => Some (None, Rint 0)
      | Some o => '(o, n) ← hashTypeLength o; Some (Some o, Rint n)
      end
  end.

Definition hdel_map (m : gmap (list Z) (list Z)) (args : list (list Z)) : gmap (list Z) (list Z) :=
  foldl (fun m f => delete f m) m args.

(** The commands on a finite map; a key with an empty map is not there. *)
Definition hmap_step (m : gmap (list Z) (list Z)) (c : hash_cmd) : gmap (list Z) (list Z) * hash_reply :=
  match c with
  | HSET args => (hset_map m args, Rint (Z.of_nat (base.size (hset_map m args)) - Z.of_nat (base.size m)))
  | HSETNX field value => match m !! field with Some _ => (m, Rint 0) | None => (<[field := value]> m, Rint 1) end
  | HDEL args => (hdel_map m args, Rint (Z.of_nat (base.size m) - Z.of_nat (base.size (hdel_map m args))))
  | HGET field => (m, Rbulk (m !! field))
  | HEXISTS field => (m, Rint (if bool_decide (is_Some (m !! field)) then 1 else 0))
  | HSTRLEN field => (m, Rint (match m !! field with Some v => zlen v | None => 0 end))
  | HLEN => (m, Rint (Z.of_nat (base.size m)))
  end.

Fixpoint hash_run (key : option hash_obj) (cmds : list (hash_conf * hash_cmd)) : option (option hash_obj * list hash_reply) :=
  match cmds with
  | [] => Some (key, [])
  | (cf, c) :: cmds => '(key, r) ← hash_step cf key c; '(key, rs) ← hash_run key cmds; Some (key, r :: rs)
  end.

Fixpoint hmap_run (m : gmap (list Z) (list Z)) (cmds : list (hash_conf * hash_cmd)) : gmap (list Z) (list Z) * list hash_reply :=
  match cmds with
  | [] => (m, [])
  | (_, c) :: cmds => let '(m, r) := hmap_step m c in let '(m, rs) := hmap_run m cmds in (m, r :: rs)
  end.

(** The strings that a command may store. *)
Definition cmd_args (c : hash_cmd) : list (list Z) :=
  match c with
  | HSET args => args
  | HSETNX field value => [field; value]
  | HDEL args => args
  | _ => []
  end.

(** The arguments that the parser of the protocol and the first check of HSET let through: an even and positive number of
    strings for HSET, at most 2^26 arguments with less than 2^63 bytes. *)
Record call_ok (c : hash_cmd) : Prop := {
  cl_args : Forall bytes_ok (cmd_args c);
  cl_num : zlen (cmd_args c) <= 2 ^ 26;
  cl_total : total (cmd_args c) < 2 ^ 63;
  cl_even : match c with HSET args => exists prs, prs <> [] /\ args = flat prs | _ => True end;
}.

(** The decimal notation of -2^63, from which sdsll2str() can not make the string again: it negates the number (sds.c:492). Nothing
    in the server excludes it from the arguments. *)
Definition min_integer : list Z := str "-9223372036854775808".

Lemma min_integer_eq : ll2string_out LLONG_MIN = min_integer.
Proof. by vm_compute. Qed.

(** The conditions under which a command works: those on the arguments, no argument is -2^63 in decimal notation, and
    the setting hash-max-ziplist-entries is at most 2^26. *)
Record cmd_ok (cf : hash_conf) (c : hash_cmd) : Prop := {
  co_conf : hash_max_ziplist_entries cf <= max_pairs;
  co_args : Forall arg_ok (cmd_args c);
  co_num : zlen (cmd_args c) <= 2 ^ 26;
  co_total : total (cmd_args c) < 2 ^ 63;
  co_even : match c with HSET args => exists prs, prs <> [] /\ args = flat prs | _ => True end;
}.

Lemma cmd_ok_intro cf c : hash_max_ziplist_entries cf <= max_pairs -> min_integer ∉ cmd_args c -> call_ok c -> cmd_ok cf c.
Proof.
  intros Hcf Hmin [H1 H2 H3 H4]. split; try done. apply Forall_forall. intros s Hs. split; [by eapply Forall_forall in H1|]. unfold int_safe. rewrite min_integer_eq. by intros ->.
Qed.

(** The key is there exactly when the map is not empty. *)
Definition key_repr (key : option hash_obj) (m : gmap (list Z) (list Z)) : Prop :=
  match key with
  | Some o => hash_repr o m /\ m <> ∅
  | None => m = ∅
  end.

Lemma hset_map_ne args m : m <> ∅ -> hset_map m args <> ∅.
Proof.
  assert (forall n args m, (length args <= n)%nat -> m <> ∅ -> hset_map m args <> ∅) as Hn; [|by eauto].
  clear. induction n as [|n IH]; intros [|f [|v args]] m Hl Hm; try done; cbn [length hset_map] in *; [lia|].
  apply IH; [lia|]. apply insert_non_empty.
Qed.

Lemma hset_ok cf o m args : hash_repr o m -> hash_limits cf m args -> total args < 2 ^ 63 ->
  exists o', hset cf o args = Some (o', Z.of_nat (base.size (hset_map m args)) - Z.of_nat (base.size m)) /\
    hash_repr o' (hset_map m args).
Proof.
  intros Ho Hl Ht. unfold hset. destruct (hashTypeTryConversion_ok cf o m args Ho Ht) as (o1 & -> & Ho1). simpl_bind.
  pose proof (hl_num _ _ _ Hl) as Hn. pose proof (zlen_nonneg args).
  destruct (hset_loop_ok cf _ args (le_n _) _ o1 m 0 Ho1 Hl) as (o' & -> & Ho'); [unfold max_bytes; eval_pow2; lia | eval_pow2; lia |].
  by exists o'.
Qed.

Lemma hsetnx_ok cf o m f v : hash_repr o m -> hash_limits cf m [f; v] -> total [f; v] < 2 ^ 63 ->
  exists o', hsetnx cf o f v = Some (o', match m !! f with Some _ => 0 | None => 1 end) /\
    hash_repr o' (match m !! f with Some _ => m | None => <[f := v]> m end).
Proof.
  intros Ho [Hcf Hargs _ Hsz] Ht. unfold hsetnx. rewrite !Forall_cons in Hargs. destruct Hargs as ([Hbf Hif] & [Hbv Hiv] & _).
  destruct (hashTypeTryConversion_ok cf o m [f; v] Ho Ht) as (o1 & Htry & Ho1). change (Arg_sds <$> [f; v]) with [Arg_sds f; Arg_sds v] in Htry.
  rewrite Htry. simpl_bind.
  destruct (hashTypeExists_ok _ o1 m f Ho1) as (o2 & -> & Ho2). simpl_bind. cbn [total] in *.
  pose proof (zlen_nonneg f). pose proof (zlen_nonneg v). change (zlen [f; v]) with 2 in Hsz.
  destruct (m !! f) as [w|] eqn:Hf.
  - rewrite bool_decide_true by done. exists o2. split; [done|]. apply (hash_fits_weaken _ _ _ _ Ho2). unfold max_bytes. eval_pow2. lia.
  - rewrite bool_decide_false by (by intros [? ?]).
    destruct (hashTypeSet_ok cf _ o2 m f v Ho2) as (o' & -> & Ho'); [unfold max_bytes; eval_pow2; lia | done.. | lia |].
    simpl_bind. exists o'. split; [done|]. apply (hash_fits_weaken _ _ _ _ Ho'). unfold max_bytes. eval_pow2. lia.
Qed.

Lemma hdel_map_empty args : hdel_map ∅ args = ∅.
Proof. induction args as [|f args IH]; [done|]. cbn [hdel_map foldl]. by rewrite delete_empty. Qed.

Lemma hdel_loop_ok cf args : forall o m deleted, hash_repr o m -> m <> ∅ -> Z.of_nat (base.size m) < 2 ^ 60 ->
  0 <= deleted <= 2 ^ 31 - 1 - zlen args ->
  exists o', hdel_loop cf o args deleted =
      Some (o', deleted + (Z.of_nat (base.size m) - Z.of_nat (base.size (hdel_map m args))), bool_decide (hdel_map m args = ∅)) /\
    hash_repr o' (hdel_map m args).
Proof.
  induction args as [|f args IH]; intros o m deleted Ho Hne Hsz Hd; cbn [hdel_loop].
  { exists o. split; [|done]. cbn. rewrite bool_decide_false by done. do 3 f_equal. lia. }
  rewrite zlen_cons in Hd. pose proof (zlen_nonneg args). change (hdel_map m (f :: args)) with (hdel_map (delete f m) args).
  destruct (hashTypeDelete_ok cf _ o m f Ho (Z.le_refl _) Hsz) as (o1 & -> & Ho1). simpl_bind. pose proof (size_delete m f) as Hs.
  destruct (bool_decide (is_Some (m !! f))) eqn:Hf.
  - rewrite swrap_small by (eval_pow2; lia). destruct (hashTypeLength_ok _ o1 _ Ho1) as (o2 & -> & Ho2). simpl_bind.
    destruct (Z.eqb_spec (Z.of_nat (base.size (delete f m))) 0) as [Hz|Hz].
    + assert (delete f m = ∅) as He by (apply map_size_empty_inv; lia). rewrite He, hdel_map_empty, map_size_empty in *.
      exists o2. split; [|done]. rewrite bool_decide_true by done. do 3 f_equal. lia.
    + destruct (IH o2 (delete f m) (deleted + 1) Ho2) as (o' & -> & Ho'); [intros He; by rewrite He, map_size_empty in Hz | lia | lia |].
      exists o'. split; [|done]. do 3 f_equal. lia.
  - apply bool_decide_eq_false, eq_None_not_Some in Hf. rewrite delete_id in * by done.
    apply IH; [done | done | done | lia].
Qed.

Lemma createHashObject_ok : exists o, createHashObject = Some o /\ hash_repr o ∅.
Proof.
  destruct ziplistNew_ok as (zl & Hn & Hr). unfold createHashObject. rewrite Hn. simpl_bind. eexists. split; [done|].
  exists []. split; [|done]. split; [exists []; split_and!; [done | done | cbn; unfold max_bytes; eval_pow2; lia] | constructor | done | constructor].
Qed.

Lemma lookup_or_create_ok key m : key_repr key m -> exists o, lookup_or_create key = Some o /\ hash_repr o m.
Proof. destruct key as [o|]; [intros [Ho _]; by exists o|]. intros ->. apply createHashObject_ok. Qed.

Lemma hash_step_ok cf key m c : key_repr key m -> cmd_ok cf c -> Z.of_nat (base.size m) + zlen (cmd_args c) < 2 ^ 60 ->
  exists key', hash_step cf key c = Some (key', snd (hmap_step m c)) /\ key_repr key' (fst (hmap_step m c)).
Proof.
  intros Hk [Hcf Hargs Hnum Htot Heven] Hsz. assert (hash_limits cf m (cmd_args c)) as Hl by done.
  destruct c as [args|f v|args|f|f|f|]; cbn [hash_step hmap_step cmd_args fst snd] in *;
    try (destruct key as [o|]; [destruct Hk as [Ho Hne] | cbn in Hk; subst m; eexists; split; [done | done]]).
  - destruct (lookup_or_create_ok key m Hk) as (o & -> & Ho). simpl_bind. destruct (hset_ok cf o m args Ho Hl Htot) as (o' & -> & Ho').
    simpl_bind. eexists. split; [done|]. split; [done|]. destruct Heven as ([|[f v] prs] & Hp & ->); [done|].
    cbn [flat hset_map]. apply hset_map_ne, insert_non_empty.
  - destruct (lookup_or_create_ok key m Hk) as (o & -> & Ho). simpl_bind. destruct (hsetnx_ok cf o m f v Ho Hl Htot) as (o' & -> & Ho').
    simpl_bind. eexists. destruct (m !! f) eqn:Hf; (split; [done|]; split; [done|]); cbn [fst]; [intros ->; by rewrite lookup_empty in Hf | apply insert_non_empty].
  - destruct key as [o|]; [destruct Hk as [Ho Hne] | cbn in Hk; subst m; eexists; by rewrite hdel_map_empty, map_size_empty].
    destruct (hdel_loop_ok cf args o m 0 Ho Hne) as (o' & -> & Ho'); [pose proof (zlen_nonneg args); lia | eval_pow2; lia |].
    simpl_bind. case_bool_decide; (eexists; split; [done|]); [done | by split].
  - unfold addHashFieldToReply. destruct (hashTypeGetValue_ok _ o m f Ho) as (o' & r & -> & Ho' & Hf). simpl_bind.
    exists (Some o'). split; [|by split]. do 3 f_equal. destruct r as [v|], (m !! f); try done. cbn. by rewrite (val_is_string _ _ Hf).
  - destruct (hashTypeExists_ok _ o m f Ho) as (o' & -> & Ho'). simpl_bind. by eexists.
  - destruct (hashTypeGetValueLength_ok _ o m f Ho) as (o' & -> & Ho'). simpl_bind. by eexists.
  - destruct (hashTypeLength_ok _ o m Ho) as (o' & -> & Ho'). simpl_bind. by eexists.
Qed.

Lemma hset_map_size args m : Z.of_nat (base.size (hset_map m args)) <= Z.of_nat (base.size m) + zlen args.
Proof.
  assert (forall n args m, (length args <= n)%nat -> Z.of_nat (base.size (hset_map m args)) <= Z.of_nat (base.size m) + zlen args) as Hn; [|by eauto].
  clear. induction n as [|n IH]; intros [|f [|v args]] m Hl; cbn [length hset_map] in *; try (rewrite ?zlen_cons; change (zlen []) with 0; lia).
  specialize (IH args (<[f := v]> m) ltac:(lia)). rewrite size_hset in IH. rewrite !zlen_cons. destruct (bool_decide _); lia.
Qed.

Lemma hdel_map_size args m : Z.of_nat (base.size (hdel_map m args)) <= Z.of_nat (base.size m).
Proof.
  revert m. induction args as [|f args IH]; intros m; [done|]. cbn [hdel_map foldl]. specialize (IH (delete f m)).
  rewrite size_delete in IH. unfold hdel_map in IH. destruct (bool_decide _); lia.
Qed.

Lemma hmap_step_size m c : Z.of_nat (base.size (fst (hmap_step m c))) <= Z.of_nat (base.size m) + zlen (cmd_args c).
Proof.
  destruct c as [args|f v|args|f|f|f|]; cbn [hmap_step cmd_args fst]; try (change (zlen []) with 0; lia).
  - apply hset_map_size.
  - destruct (m !! f) as [w|]; cbn [fst]; [|rewrite size_hset; destruct (bool_decide _)]; change (zlen [f; v]) with 2; lia.
  - pose proof (hdel_map_size args m). pose proof (zlen_nonneg args). lia.
Qed.

Fixpoint args_total (cmds : list (hash_conf * hash_cmd)) : Z :=
  match cmds with
  | [] => 0
  | (_, c) :: cmds => zlen (cmd_args c) + args_total cmds
  end.

Lemma args_total_nonneg cmds : 0 <= args_total cmds.
Proof. induction cmds as [|[cf c] cmds IH]; [done|]. cbn [args_total]. pose proof (zlen_nonneg (cmd_args c)). lia. Qed.

Lemma hash_run_ok cmds : forall key m, key_repr key m -> Forall (fun p => cmd_ok p.1 p.2) cmds ->
  Z.of_nat (base.size m) + args_total cmds < 2 ^ 60 ->
  exists key', hash_run key cmds = Some (key', snd (hmap_run m cmds)) /\ key_repr key' (fst (hmap_run m cmds)).
Proof.
  induction cmds as [|[cf c] cmds IH]; intros key m Hk Hc Hsz; cbn [hash_run hmap_run args_total] in *; [by exists key|].
  apply Forall_cons in Hc as [Hc Hcs]. pose proof (args_total_nonneg cmds).
  destruct (hash_step_ok cf key m c Hk Hc) as (key1 & -> & Hk1); [lia|]. simpl_bind. pose proof (hmap_step_size m c).
  destruct (hmap_step m c) as [m1 r]. cbn [fst snd] in *.
  destruct (IH key1 m1 Hk1 Hcs) as (key' & -> & Hk'); [lia|]. simpl_bind.
  destruct (hmap_run m1 cmds) as [m2 rs]. by exists key'.
Qed.

(** ** HINCRBY *)

Definition hincrby_spec (m : gmap (list Z) (list Z)) (field : list Z) (incr : Z) : gmap (list Z) (list Z) * hincrby_reply :=
  match match m !! field with None => Some 0 | Some s => string2ll s end with
  | None => (m, Hincrby_not_integer)
  | Some old =>
      if bool_decide (is_ll (old + incr)) then (<[field := ll2string_out (old + incr)]> m, Hincrby_value (old + incr))
      else (m, Hincrby_overflow)
  end.

Lemma incr_overflow old incr : is_ll old -> is_ll incr ->
  ((incr <? 0) && (old <? 0) && (incr <? LLONG_MIN - old)) || ((0 <? incr) && (0 <? old) && (LLONG_MAX - old <? incr)) =
  negb (bool_decide (is_ll (old + incr))).
Proof.
  unfold is_ll. unfold_limits. intros Ho Hi. case_bool_decide; cbn [negb];
    repeat match goal with |- context [?a <? ?b] => destruct (Z.ltb_spec a b) end; cbn [andb orb]; lia || done.
Qed.

Lemma canonical_bytes s v : canonical s v -> bytes_ok s.
Proof.
  assert (forall c, chr "1" <= c <= chr "9" -> is_byte c) as Hd by (unfold is_byte; unfold chr; cbn; lia).
  intros [|c t Hc Ht|c t Hc Ht]; repeat (constructor; [by (by apply Hd) || (unfold is_byte, chr; cbn; lia)|]);
    [constructor | by apply digits_bytes | by apply digits_bytes].
Qed.

Lemma ll2string_out_bytes v : is_ll v -> bytes_ok (ll2string_out v) /\ zlen (ll2string_out v) <= 20.
Proof.
  intros Hv. pose proof (ll2string_out_canonical v Hv) as Hc. split; [by eapply canonical_bytes|].
  rewrite (canonical_zlen _ _ Hv Hc). by apply sdigits10_le.
Qed.

Lemma hincrby_ok cf b o m f incr : hash_fits b o m -> b + zlen f + 46 <= max_bytes -> arg_ok f -> is_ll incr ->
  hash_max_ziplist_entries cf <= max_pairs -> Z.of_nat (base.size m) < 2 ^ 60 ->
  snd (hincrby_spec m f incr) <> Hincrby_value LLONG_MIN ->
  exists o', hincrby cf o f incr = Some (o', snd (hincrby_spec m f incr)) /\
    hash_fits (b + zlen f + 46) o' (fst (hincrby_spec m f incr)).
Proof.
  intros Ho Hb [Hbf Hif] Hincr Hcf Hsz Hmin. unfold hincrby, hincrby_spec in *. pose proof (zlen_nonneg f).
  destruct (hashTypeGetValue_ok _ o m f Ho) as (o1 & r & -> & Ho1 & Hf). simpl_bind.
  assert (match r with None => Some 0 | Some (Vstr vstr) => string2ll vstr | Some (Vll value) => Some value end =
    match m !! f with None => Some 0 | Some s => string2ll s end) as ->.
  { destruct r as [[s|n]|], (m !! f) as [t|]; try done; cbn in Hf; [by subst|]. destruct Hf as [Hll <-].
    by rewrite (string2ll_complete _ _ (ll2string_out_canonical n Hll) Hll). }
  destruct (match m !! f with None => Some 0 | Some s => string2ll s end) as [old|] eqn:Hold;
    [|eexists; split; [done|]; apply (hash_fits_weaken _ _ _ _ Ho1); lia].
  assert (is_ll old) as Hll.
  { destruct (m !! f); [by apply string2ll_sound in Hold as [_ ?]|]. injection Hold as <-. unfold is_ll. unfold_limits. lia. }
  rewrite incr_overflow by done. case_bool_decide as Hov; cbn [negb fst snd] in *;
    [|eexists; split; [done|]; apply (hash_fits_weaken _ _ _ _ Ho1); lia].
  assert (old + incr <> LLONG_MIN) as Hne by (intros He; by rewrite He in Hmin).
  destruct (sdsfromlonglong_ok (old + incr) Hov Hne) as (t & Ht & Hsds). cbv zeta. rewrite Hsds. simpl_bind.
  assert (t = ll2string_out (old + incr)) as -> by (by apply canonical_inj with (old + incr); [|apply ll2string_out_canonical]).
  destruct (ll2string_out_bytes (old + incr) Hov) as [Hbt Hlt].
  assert (int_safe (ll2string_out (old + incr))) as Hit.
  { intros He. apply Hne. apply (ll2string_out_inj _ _ Hov); [unfold is_ll; unfold_limits; lia | done]. }
  destruct (hashTypeSet_ok cf b o1 m f (ll2string_out (old + incr)) Ho1 ltac:(lia) Hbf Hbt Hif Hit Hcf Hsz) as (o2 & -> & Ho2). simpl_bind.
  eexists. split; [done|]. apply (hash_fits_weaken _ _ _ _ Ho2). lia.
Qed.

(** Appending a string that does not fit in 32 bits fails the assertion of ziplistResize(). *)
Lemma ziplistInsert_too_long zl es s : zl_repr zl es -> 32 < zlen s < 2 ^ 62 -> UINT32_MAX <= 11 + zsize es + zlen s ->
  ziplistInsert zl (zpos es) s = None.
Proof.
  intros Hr Hs Hbig. unfold ziplistInsert. rewrite (repr_bytes zl es Hr). simpl_bind. rewrite (repr_end zl es Hr). simpl_bind.
  change (ZIP_END =? ZIP_END) with true. cbn [negb]. cbv iota.
  match goal with |- (prevlen ← ?x; _) = None => destruct x as [prevlen|]; [|done] end. simpl_bind.
  assert (zipTryEncoding s = None) as Ht by (unfold zipTryEncoding; by rewrite (proj2 (Z.leb_le 32 (zlen s))) by lia).
  assert (exists n, zip_reqlen s = Some (zlen s + n) /\ 1 <= n <= 5) as (n & -> & Hn).
  { unfold zip_reqlen, zip_encoding. rewrite Ht. simpl_bind. eexists. split; [done|]. unfold zipStoreEntryEncoding_size, zipStoreEntryEncoding_buf.
    change (ZIP_IS_STR 0) with true. cbv iota. repeat case_match; unfold zlen; simpl; lia. }
  simpl_bind. cbv zeta. change (0 =? -4) with false. cbn [andb]. cbv iota.
  assert (1 <= zipStorePrevEntryLength_size prevlen <= 5) by (unfold zipStorePrevEntryLength_size; case_match; lia).
  pose proof (zl_small _ _ Hr). pose proof (zok_ge _ _ (zl_entries _ _ Hr)). pose proof (zlen_nonneg es).
  rewrite uwrap_small by (eval_pow2; lia). unfold ziplistResize. by rewrite (proj2 (Z.ltb_ge _ _)) by lia.
Qed.

(** HINCRBY does not call hashTypeTryConversion(): when the field is new, it is added to a ziplist
    however long it is, and when the ziplist outgrows 32 bits the server aborts. HSET with the
    same field converts the hash before. *)
Lemma hincrby_aborts cf b zl m f : hash_fits b (OBJ_ENCODING_ZIPLIST zl) m -> m !! f = None -> 32 < zlen f < 2 ^ 62 ->
  UINT32_MAX <= zlen zl + zlen f -> hincrby cf (OBJ_ENCODING_ZIPLIST zl) f 1 = None.
Proof.
  intros Ho Hf Hlen Hbig. unfold hincrby. destruct (hashTypeGetValue_ok _ _ m f Ho) as (o1 & r & Hg & _ & Hr).
  rewrite Hf in Hr. destruct r; [done|]. unfold hashTypeGetValue in Hg. destruct (hashTypeGetFromZiplist zl f) as [w|] eqn:Hgz; [|done].
  simpl_bind in Hg. injection Hg as <- ->. unfold hashTypeGetValue. rewrite Hgz. simpl_bind. cbn [andb orb Z.ltb Z.compare].
  cbv zeta. change (0 + 1) with 1. destruct (sdsfromlonglong 1) as [new|]; [|done]. simpl_bind.
  destruct Ho as (prs & [(es & Hr' & Hv & _) Hnd _ _] & ->). unfold hashTypeSet.
  destruct (find_field_ok zl es prs f Hr' Hv) as [[_ ->]|(l & v & k & _ & _ & _ & _ & -> & _ & _ & _)]; [|by rewrite map_field in Hf].
  simpl_bind. unfold ziplistPush, ZIPLIST_ENTRY_END. rewrite (repr_bytes zl es Hr'). simpl_bind.
  replace (11 + zsize es - 1) with (zpos es) by (unfold zpos; lia).
  rewrite (ziplistInsert_too_long zl es f Hr'); [done | lia | by rewrite <- (repr_zlen zl es Hr')].
Qed.

(** ** Copies *)

Lemma dup_loop_ok fuel cf d0 o hi rest d : hi_ok (OBJ_ENCODING_HT d0) o hi rest -> NoDup rest.*1 -> (length rest <= fuel)%nat -> dict_ok d ->
  (forall f, f ∈ rest.*1 -> dict_map d !! f = None) -> Z.of_nat (base.size (dict_map d)) + zlen rest < 2 ^ 60 ->
  exists d', dup_loop fuel cf o hi d = Some (OBJ_ENCODING_HT d0, d') /\ dict_ok d' /\ dict_map d' = list_to_map rest ∪ dict_map d.
Proof.
  revert o hi rest d. induction fuel as [|fuel IH]; intros o hi rest d Hhi Hnd Hf Hd Hfresh Hsz; cbn [dup_loop];
    destruct (hi_next _ o hi rest Hhi) as (o' & hi' & ok & -> & Hrest); simpl_bind; (destruct rest as [|[f v] rest];
    [destruct Hrest as [-> Hrel]; cbn [negb]; rewrite Hrel; simpl_bind; exists d; split_and!; [done | done|];
     change (list_to_map []) with (∅ : gmap (list Z) (list Z)); by rewrite (left_id_L ∅ (∪))|]); [simpl in Hf; lia|].
  destruct Hrest as (-> & Hhi' & (wf & Hcf & Hwf) & (wv & Hcv & Hwv)). cbn [negb].
  destruct o' as [zl|src], hi' as [|di de]; try done. cbn [hashTypeCurrentObject] in Hcf, Hcv.
  destruct (hashTypeCurrentFromHashTable src de OBJ_HASH_KEY) as [k|]; [|done]. simpl_bind in Hcf. apply (inj Some) in Hcf as <-. cbn in Hwf. subst k.
  destruct (hashTypeCurrentFromHashTable src de OBJ_HASH_VALUE) as [w|]; [|done]. simpl_bind in Hcv. apply (inj Some) in Hcv as <-. cbn in Hwv. subst w.
  simpl_bind. rewrite zlen_cons in Hsz. pose proof (zlen_nonneg rest).
  destruct (dictAdd_correct (can_resize cf) d f v Hd) as (d' & -> & Hd' & Hm); [rewrite (dictSize_map d Hd); lia|]. simpl_bind.
  rewrite fmap_cons, NoDup_cons in Hnd. destruct Hnd as [Hnf Hnd]. cbn [fst] in Hnf.
  assert (dict_map d !! f = None) as Hfn by (apply Hfresh; rewrite fmap_cons, elem_of_cons; by left). rewrite Hfn in Hm.
  destruct (IH (OBJ_ENCODING_HT src) (Hi_ht di de) rest d') as (d2 & Hc & Hd2 & Hm2); try done.
  - simpl in Hf. lia.
  - intros g Hg. rewrite Hm, lookup_insert_ne by (intros ->; done). apply Hfresh. rewrite fmap_cons, elem_of_cons. by right.
  - rewrite Hm, map_size_insert_None by done. lia.
  - exists d2. split_and!; [done | done|]. rewrite Hm2, Hm, list_to_map_cons.
    rewrite <- insert_union_r by (by apply not_elem_of_list_to_map_1). by rewrite insert_union_l.
Qed.

Lemma hashTypeDup_ok cf b o m garbage : hash_fits b o m -> pause_ok o -> Z.of_nat (base.size m) < 2 ^ 59 ->
  exists o', hashTypeDup cf o garbage = Some (o, o') /\ hash_fits b o' m.
Proof.
  intros Ho Hp Hsz. destruct o as [zl|src]; unfold hashTypeDup.
  - exists (OBJ_ENCODING_ZIPLIST zl). split; [|done]. destruct Ho as (prs & [(es & Hr & _) _ _ _] & _).
    unfold ziplistBlobLen. rewrite (repr_bytes zl es Hr), <- (repr_zlen zl es Hr). simpl_bind.
    pose proof (mem_load_head zl [] (zlen zl) eq_refl) as Hl. rewrite app_nil_r in Hl. rewrite Hl. simpl_bind.
    pose proof (mem_store_mid [] (zrealloc [] (zlen zl)) zl [] 0 eq_refl) as Hs. cbn [app] in Hs. rewrite !app_nil_r in Hs.
    rewrite Hs by (rewrite length_zrealloc; unfold zlen; lia). done.
  - destruct (hi_init b _ m garbage Ho Hp) as (prs & Hhi & Hnd & -> & Hlen). pose proof Ho as [Hd Hm]. rewrite <- Hlen in Hsz.
    assert (dictSize src = zlen prs) as Hds by (rewrite (dictSize_map src Hd), <- Hm; symmetry; exact Hlen). rewrite Hds.
    destruct (dictExpand_correct dictCreate (zlen prs) dictCreate_ok) as (d1 & ok & -> & Hd1 & Hm1 & _); [eval_pow2; lia|].
    change (dict_map dictCreate) with (∅ : gmap (list Z) (list Z)) in Hm1. simpl_bind.
    destruct (dup_loop_ok (Z.to_nat (zlen prs)) cf src _ _ prs d1 Hhi Hnd) as (d' & -> & Hd' & Hm'); [unfold zlen; lia | done | | |].
    + intros f _. by rewrite Hm1.
    + rewrite Hm1, map_size_empty. eval_pow2. lia.
    + simpl_bind. eexists. split; [done|]. split; [done|]. by rewrite Hm', Hm1, (right_id_L ∅ (∪)).
Qed.

(** ** Validation *)

(** The fields of a list of fields and values. *)
Fixpoint evens {A} (vs : list A) : list A :=
  match vs with
  | a :: _ :: vs => a :: evens vs
  | _ => vs
  end.

Lemma evens_snoc {A} (x : A) n vs : (length vs <= n)%nat ->
  evens (vs ++ [x]) = if Nat.even (length vs) then evens vs ++ [x] else evens vs.
Proof.
  revert vs. induction n as [|n IH]; intros [|a [|b vs]] Hl; simpl in Hl; try done; [lia|].
  cbn [app evens length Nat.even]. rewrite IH by lia. by destruct (Nat.even (length vs)).
Qed.

Lemma flat_evens n vs : (length vs <= n)%nat -> Nat.even (length vs) = true -> exists prs, vs = flat prs /\ prs.*1 = evens vs.
Proof.
  revert vs. induction n as [|n IH]; intros [|a [|b vs]] Hl He; simpl in Hl, He; try done; try lia; try (by exists []).
  destruct (IH vs) as (prs & Hv & Hp); [lia | done|]. exists ((a, b) :: prs). cbn. by rewrite Hp, <- Hv.
Qed.

Lemma even_land n : (Z.land (Z.of_nat n) 1 =? 0) = Nat.even n.
Proof.
  change 1 with (Z.ones 1). rewrite Z.land_ones by lia. change (2 ^ 1) with 2.
  rewrite Zmod_even. destruct (Nat.even n) eqn:He.
  - apply Nat.even_spec in He as [k ->]. rewrite Nat2Z.inj_mul, Z.even_mul. done.
  - rewrite <- Nat.negb_odd in He. apply negb_false_iff, Nat.odd_spec in He as [k ->].
    rewrite Nat2Z.inj_add, Nat2Z.inj_mul, Z.even_add, Z.even_mul. done.
Qed.

(** What the callback has when it has seen the entries [l]. *)
Definition fields_seen (l : list zent) (data : hash_data) : Prop :=
  fst data = zlen l /\ dict_ok (snd data) /\ NoDup (evens (values l)) /\ dictSize (snd data) <= zlen l /\
  forall f, dict_map (snd data) !! f = None <-> f ∉ evens (values l).

(** The blocks on which the validation works: no entry in it has the value -2^63, which sdsfromlonglong() negates. *)
Definition block_safe (zl : list Z) : Prop :=
  forall H0 l e Y, zl = H0 ++ zents 0 (l ++ [e]) ++ Y -> zlen H0 = 10 -> zok 0 (l ++ [e]) -> int_safe (bval (body e)).

Lemma entry_validation_ok cf zl : zlen zl < 2 ^ 60 -> block_safe zl ->
  cb_keeps zl (Some (hashZiplistEntryValidation cf zl)) fields_seen.
Proof.
  intros Hz Hsafe H0' l e Y [count fields] Hzl H10 Hok (Hc & Hd & Hnd & Hsz & Hdom). cbn [fst snd] in *. subst count.
  pose proof (Hsafe H0' l e Y Hzl H10 Hok) as Hint. pose proof (f_equal zlen Hzl) as Hlen. rewrite !zlen_app, zlen_zents in Hlen.
  pose proof Hok as Hok'. apply zok_app in Hok' as [Hl [He _]]. pose proof (zok_ge _ _ Hok) as Hge. pose proof (zlen_nonneg Y).
  rewrite zlen_app in Hge. change (zlen [e]) with 1 in Hge. pose proof (zlen_nonneg l).
  assert (zlen (l ++ [e]) = zlen l + 1) as Hl1 by (by rewrite zlen_app).
  assert (evens (values (l ++ [e])) = if Nat.even (length l) then evens (values l) ++ [bval (body e)] else evens (values l)) as Hev.
  { rewrite values_app. change (values [e]) with [bval (body e)]. rewrite (evens_snoc _ _ _ (le_n _)). unfold values at 1. by rewrite length_fmap. }
  unfold hashZiplistEntryValidation, zlen. rewrite even_land. destruct (Nat.even (length l)) eqn:Heven.
  - destruct (get_at zl (H0' ++ zents 0 l) (last_raw 0 l) e Y (zpos l)) as (g & v & -> & Hg & Hv); [| by rewrite zlen_app, zlen_zents, H10 | done |].
    { rewrite Hzl, zents_app. cbn [zents]. by rewrite app_nil_r, <- !app_assoc. }
    simpl_bind. rewrite Hg. simpl_bind. rewrite (val_sds _ _ Hv Hint). simpl_bind.
    destruct (dictAdd_correct (can_resize cf) fields (bval (body e)) [] Hd) as (d' & -> & Hd' & Hm); [lia|]. simpl_bind.
    case_bool_decide as Hnew; cbn [negb]; [|by eexists _, _]. eexists _, _. split; [done|]. intros _.
    rewrite Hnew in Hm. apply Hdom in Hnew as Hnin. unfold fields_seen. cbn [fst snd]. rewrite Hev, Hl1. split_and!; [done | done | | |].
    + apply NoDup_app. split_and!; [done | | apply NoDup_singleton]. by intros x Hx ->%list_elem_of_singleton.
    + rewrite (dictSize_map d' Hd'), Hm, map_size_insert_None by done. rewrite (dictSize_map fields Hd) in Hsz. lia.
    + intros f. rewrite Hm, lookup_insert_None, Hdom, not_elem_of_app, list_elem_of_singleton. split; [intros [? ?] | intros [? ?]]; (split; [done | congruence]).
  - eexists _, _. split; [done|]. intros _. unfold fields_seen. cbn [fst snd]. rewrite Hev, Hl1. split_and!; [done | done | done | lia | done].
Qed.

Lemma validate_hash_ok cf zl : bytes_ok zl -> zlen zl < 2 ^ 60 -> block_safe zl ->
  exists b, hashZiplistValidateIntegrity cf zl (zlen zl) true = Some b /\
    (b = true -> zlen zl <> 11 -> exists es prs, es <> [] /\ zl_repr zl es /\ values es = flat prs /\ NoDup prs.*1).
Proof.
  intros Hby Hz Hsafe. unfold hashZiplistValidateIntegrity. cbn [negb].
  destruct (ziplistValidateIntegrity_ok zl _ _ true (0, dictCreate) (entry_validation_ok cf zl Hz Hsafe)) as (b & [count fields] & Hval & Hs);
    [|done|].
  { split_and!; [done | apply dictCreate_ok | constructor | done|]. intros f. split; [intros _; apply not_elem_of_nil | done]. }
  match goal with |- context [@ziplistValidateIntegrity ?U ?a ?n ?d ?c ?u] =>
    match type of Hval with ?x = _ => change (@ziplistValidateIntegrity U a n d c u) with x end end.
  rewrite Hval. simpl_bind. cbn [fst]. eexists. split; [done|]. destruct (Z.land count 1 =? 0) eqn:Hc; cbn [negb]; [|done]. intros -> H11.
  destruct (Hs eq_refl eq_refl H11) as (es & Hne & Hr & Hcount & _ & Hnd & _). cbn [fst] in Hcount. subst count.
  unfold zlen in Hc. rewrite even_land in Hc.
  destruct (flat_evens _ (values es) (le_n _)) as (prs & Hv & Hp); [unfold values; by rewrite length_fmap|].
  exists es, prs. by rewrite Hp.
Qed.

Lemma block_safe_values zl es : zl_repr zl es -> block_safe zl -> Forall int_safe (values es).
Proof.
  intros Hr Hsafe. apply Forall_forall. intros s (e & -> & He)%list_elem_of_fmap. apply list_elem_of_split in He as (l & k & ->).
  destruct Hr as [(cnt & -> & _) Hok _].
  apply (Hsafe (hdr (11 + zsize (l ++ e :: k)) (tail_of (l ++ e :: k)) cnt) l e (zents (rawlen e) k ++ [ZIP_END])); [| apply zlen_hdr |].
  - unfold zl_bytes. f_equal. rewrite !zents_app. cbn [zents]. by rewrite app_nil_r, <- !app_assoc.
  - apply zok_app in Hok as [Hl [He _]]. apply zok_app. by split_and!.
Qed.

(** C31. The commands on the fields of a key refine the operations on a finite map: for any sequence
    of HSET, HSETNX, HDEL, HGET, HEXISTS, HSTRLEN and HLEN, with settings that may change in between, in which no argument to be
    stored is the decimal notation of -2^63 and hash-max-ziplist-entries is never above 2^26,
    no command fails, every reply is that of the map, and the key is there exactly when the map is
    not empty. This covers the conversion of a ziplist to a hash table, the re-encoding of values
    and the removal of the last field. Without the condition on -2^63 it is wrong ([hash_min_integer_fails]). *)
Theorem hash_refines_map cmds : Forall (fun p => hash_max_ziplist_entries p.1 <= 2 ^ 26 /\ (min_integer ∉ cmd_args p.2) /\ call_ok p.2) cmds ->
  args_total cmds < 2 ^ 60 ->
  exists key, hash_run None cmds = Some (key, snd (hmap_run ∅ cmds)) /\ key_repr key (fst (hmap_run ∅ cmds)).
Proof.
  intros Hc Ht. destruct (hash_run_ok cmds None ∅ eq_refl) as (key & Hrun & Hk); [|rewrite map_size_empty; lia | by exists key].
  eapply Forall_impl; [exact Hc|]. intros p (H1 & H2 & H3). by apply cmd_ok_intro.
Qed.

(** C32. HGETALL, HKEYS and HVALS on a hash of either encoding reply with every field exactly once,
    announce the right length, and leave the hash as it is. *)
Theorem hgetall_correct o m garbage : hash_repr o m -> pause_ok o ->
  exists o' prs, hash_repr o' m /\ NoDup prs.*1 /\ m = list_to_map prs /\
    forall fk fv, fk || fv = true ->
      hgetall fk fv o garbage = Some (o', Z.of_nat (base.size m), concat (select fk fv <$> prs)).
Proof.
  intros Ho Hp. destruct (hashTypeLength_ok _ o m Ho) as (o1 & Hlen & Ho1).
  assert (pause_ok o1) as Hp1.
  { destruct o as [zl|d]; cbn [hashTypeLength] in Hlen; [|by injection Hlen as <- _].
    destruct (ziplistLen zl) as [[n zl']|]; [|done]. simpl_bind in Hlen. by injection Hlen as <- _. }
  destruct (hi_init _ o1 m garbage Ho1 Hp1) as (prs & Hhi & Hnd & Hm & Hsz). exists o1, prs. split_and!; [done | done | done|].
  intros fk fv Hflags. unfold hgetall. rewrite Hlen. simpl_bind. rewrite <- Hsz.
  rewrite (hgetall_loop_ok _ fk fv o1 o1 _ prs [] 0 Hhi) by (unfold zlen; lia). simpl_bind. cbn [app].
  assert (zlen (concat (select fk fv <$> prs)) = (if fk && fv then 2 else 1) * zlen prs) as ->.
  { clear - Hflags. induction prs as [|p prs IH]; [by destruct (fk && fv)|]. rewrite fmap_cons. cbn [concat]. rewrite zlen_app, IH, zlen_cons.
    destruct fk, fv; try done; cbn [andb]; unfold select, zlen; simpl; lia. }
  rewrite Z.add_0_l. destruct (fk && fv); [rewrite Z.mul_comm, Z.quot_mul by lia | rewrite Z.mul_1_l]; by rewrite Z.eqb_refl.
Qed.

(** HINCRBY on a hash of either encoding: a value that is not an integer and a sum that does not
    fit in 64 bits are refused and change nothing, otherwise the field has the sum. The field must
    fit in the ziplist, and the sum must not be -2^63. *)
Theorem hincrby_correct cf b o m f incr : hash_fits b o m -> b + zlen f + 46 <= max_bytes -> arg_ok f -> is_ll incr ->
  hash_max_ziplist_entries cf <= max_pairs -> Z.of_nat (base.size m) < 2 ^ 60 ->
  snd (hincrby_spec m f incr) <> Hincrby_value LLONG_MIN ->
  exists o', hincrby cf o f incr = Some (o', snd (hincrby_spec m f incr)) /\
    hash_repr o' (fst (hincrby_spec m f incr)).
Proof.
  intros Ho Hb Hf Hi Hcf Hsz Hmin. destruct (hincrby_ok cf b o m f incr Ho Hb Hf Hi Hcf Hsz Hmin) as (o' & Hr & Ho').
  exists o'. split; [done|]. by apply (hash_fits_weaken _ _ _ _ Ho').
Qed.

(** Some entry of the block, after a prefix of well-formed entries, has the value -2^63. *)
Definition has_min_integer (zl : list Z) : Prop :=
  exists H0 l e Y, zl = H0 ++ zents 0 (l ++ [e]) ++ Y /\ zlen H0 = 10 /\ zok 0 (l ++ [e]) /\ bval (body e) = min_integer.

Lemma block_safe_or zl : block_safe zl \/ has_min_integer zl.
Proof.
  destruct (classic (has_min_integer zl)) as [Hm|Hm]; [by right | left]. intros B l e Y Hzl H10 Hok. unfold int_safe. rewrite min_integer_eq. intros He. apply Hm. by exists B, l, e, Y.
Qed.

Lemma validate_hash_sound cf zl : bytes_ok zl -> zlen zl < 2 ^ 59 -> block_safe zl ->
  exists b, hashZiplistValidateIntegrity cf zl (zlen zl) true = Some b /\
    (b = true -> zlen zl <> 11 ->
     exists prs d, prs <> [] /\ NoDup prs.*1 /\
       hashTypeConvert cf (OBJ_ENCODING_ZIPLIST zl) = Some (OBJ_ENCODING_HT d) /\ dict_ok d /\ dict_map d = list_to_map prs /\
       forall f, exists r, hashTypeGetFromZiplist zl f = Some r /\ found r ((list_to_map prs : gmap (list Z) (list Z)) !! f)).
Proof.
  intros Hby Hz Hsafe. destruct (validate_hash_ok cf zl Hby) as (b & Hval & Hs); [eval_pow2; lia | done|].
  exists b. split; [done|]. intros Hb H11. destruct (Hs Hb H11) as (es & prs & Hne & Hr & Hv & Hnd).
  assert (hash_zl (zlen zl) (zlen zl) zl prs) as Hzl.
  { pose proof (values_flat _ _ Hv) as Hlen. pose proof (repr_zlen zl es Hr) as Hzs. pose proof (zsize_bsize es). pose proof (zlen_nonneg prs).
    pose proof (bsize_nonneg es). split; [exists es; split_and!; [done | done | lia] | done | lia |]. rewrite <- Hv. by apply (block_safe_values zl). }
  destruct (hashTypeConvert_ok cf _ _ zl prs Hz Hzl) as (o' & Hc & Ho' & d & ->). destruct Ho' as [Hd Hm]. exists prs, d.
  split_and!; [| done | done | done | done |].
  - intros ->. by apply fmap_nil_inv in Hv.
  - intros f. by apply (getFromZiplist_ok _ _ zl prs f Hzl).
Qed.

(** C33. For any bytes, unless an entry in them has the value -2^63 (on which sdsll2str() overflows, [validate_min_integer_fails]): the deep
    validation of a serialized hash never reads outside of it, and one that it accepts, other than an empty ziplist of 11 bytes, is
    a list of pairs without a field twice: lookups in it answer like the map of the pairs, and its
    conversion to a hash table does not panic and gives this map. *)
Theorem hashZiplistValidateIntegrity_sound cf zl : bytes_ok zl -> zlen zl < 2 ^ 59 ->
  has_min_integer zl \/
  exists b, hashZiplistValidateIntegrity cf zl (zlen zl) true = Some b /\
    (b = true -> zlen zl <> 11 ->
     exists prs d, prs <> [] /\ NoDup prs.*1 /\
       hashTypeConvert cf (OBJ_ENCODING_ZIPLIST zl) = Some (OBJ_ENCODING_HT d) /\ dict_ok d /\ dict_map d = list_to_map prs /\
       forall f, exists r, hashTypeGetFromZiplist zl f = Some r /\ found r ((list_to_map prs : gmap (list Z) (list Z)) !! f)).
Proof. intros Hby Hz. destruct (block_safe_or zl) as [Hs|Hm]; [right; by apply validate_hash_sound | by left]. Qed.

End operations.

(** ** Examples *)

(** Strings, hashed by the sum of their bytes. *)
Definition sds_dict_type : DictType (list Z) (list Z).
Proof.
  refine {| hashFunction k := u64 (foldr Z.add 0 k); keyCompare k1 k2 := bool_decide (k1 = k2);
            expandAllowed _ _ _ := true; fresh_val := [] |}.
  - intros k. by apply uwrap_range.
  - intros k1 k2. apply bool_decide_eq_true.
Defined.

(** Settings with which the third field converts the ziplist. *)
Definition example_conf : hash_conf := HashConf 2 64 true.

Definition example_cmds : list (hash_conf * hash_cmd) :=
  (fun c => (example_conf, c)) <$>
    [HSET [str "a"; str "1"; str "b"; str "xyz"]; HSETNX (str "a") (str "2"); HSET [str "b"; str "-7"; str "c"; str "w"];
     HGET (str "b"); HDEL [str "a"; str "zz"]; HLEN; HSTRLEN (str "c"); HDEL [str "b"; str "c"]; HEXISTS (str "b")].

Lemma str_arg_ok s : bool_decide (int_safe (str s)) = true -> arg_ok (str s).
Proof. intros Hs. split; [apply bytes_ok_str | by apply bool_decide_eq_true in Hs]. Qed.

Lemma example_cmds_ok : Forall (fun p => hash_max_ziplist_entries p.1 <= 2 ^ 26 /\ (min_integer ∉ cmd_args p.2) /\ call_ok p.2) example_cmds.
Proof.
  unfold example_cmds. cbn [fmap list_fmap]. repeat (apply Forall_cons_2; [cbn [fst snd]|]); [..|apply Forall_nil_2];
    (split; [vm_compute; congruence|]; split; [apply (bool_decide_unpack _); vm_compute; exact I|]; split; cbn [cmd_args];
     [repeat (apply Forall_cons_2; [apply bytes_ok_str|]); apply Forall_nil_2 | vm_compute; congruence | vm_compute; reflexivity | try done]).
  - by exists [(str "a", str "1"); (str "b", str "xyz")].
  - by exists [(str "b", str "-7"); (str "c", str "w")].
Qed.

Lemma hash_refines_map_witness : exists key, @hash_run exact_allocator sds_dict_type (fun _ => 4096) None example_cmds =
  Some (key, [Rint 2; Rint 0; Rint 1; Rbulk (Some (str "-7")); Rint 1; Rint 2; Rint 1; Rint 2; Rint 0]) /\ @key_repr sds_dict_type key ∅.
Proof.
  destruct (@hash_refines_map exact_allocator sds_dict_type (fun _ => 4096) example_cmds example_cmds_ok) as (key & Hrun & Hk).
  - vm_compute. reflexivity.
  - exists key. split; [rewrite Hrun; vm_compute; reflexivity|].
    replace ∅ with (fst (hmap_run ∅ example_cmds)); [exact Hk | vm_compute; reflexivity].
Defined.

(** A hash of two fields in a ziplist. *)
Definition example_hash : list Z := zl_bytes 4
  [{| big := false; body := body_of (str "a") |}; {| big := false; body := body_of (str "10") |};
   {| big := false; body := body_of (str "b") |}; {| big := false; body := body_of (str "x") |}].

Lemma zok_example prev es : forallb (fun e => negb (big e)) es = true -> 0 <= prev < 254 ->
  Forall (fun e => exists s, body e = body_of s /\ bytes_ok s /\ zlen s < 240) es -> zok prev es.
Proof.
  revert prev. induction es as [|e es IH]; intros prev Hb Hp He; [done|]. cbn [forallb] in Hb. apply andb_true_iff in Hb as [Hb Hbs].
  apply negb_true_iff in Hb. apply Forall_cons in He as [(s & Hs & Hby & Hlen) He].
  assert (body_ok (body e)) as Hok by (rewrite Hs; apply body_of_ok; [done | eval_pow2; lia]).
  pose proof (rawlen_ge2 e Hok). pose proof (body_of_length s). cbn [zok]. split.
  - split; [done | eval_pow2; lia | intros _; lia].
  - apply IH; [done | | done]. unfold rawlen, plsize in *. rewrite Hb, Hs in *. lia.
Qed.

Lemma example_hash_repr : @hash_fits sds_dict_type 100 (OBJ_ENCODING_ZIPLIST example_hash) {[str "a" := str "10"; str "b" := str "x"]}.
Proof.
  exists [(str "a", str "10"); (str "b", str "x")]. split; [|vm_compute; reflexivity]. split.
  - eexists. split_and!; [split; [exists 4; split; [reflexivity | by right] | | by vm_compute] | by vm_compute | by vm_compute].
    apply zok_example; [done | lia|]. repeat constructor; eexists; (split; [reflexivity|]; split; [apply bytes_ok_str | by vm_compute]).
  - apply (bool_decide_unpack _). by vm_compute.
  - by vm_compute.
  - repeat constructor; vm_compute; congruence.
Qed.

Lemma small_int_safe b : body_ok b -> zlen b < 9 -> int_safe (bval b).
Proof.
  intros Hb Hlen Heq. destruct (ZIP_IS_STR (benc b)) eqn:Hs.
  - destruct (body_str b Hb Hs) as [_ Hz]. pose proof (body_size b Hb) as Hsz. destruct (body_facts b Hb) as (_ & Hf & _).
    rewrite Heq in Hz. change (zlen (ll2string_out LLONG_MIN)) with 20 in Hz. lia.
  - destruct (body_int b Hb Hs) as (v & Hv & Hll). assert (v = LLONG_MIN) as ->.
    { apply ll2string_out_inj; [done | unfold is_ll; unfold_limits; lia|]. rewrite <- Heq. unfold bval. by rewrite Hs, Hv. }
    pose proof (body_valid b Hb) as Hval. unfold zipLoadInteger in Hv.
    assert (forall w z, 0 < w <= 32 -> swrap w z <> LLONG_MIN) as Hw.
    { intros w z Hw. pose proof (swrap_range w z ltac:(lia)) as Hr. assert (2 ^ (w - 1) <= 2 ^ 31) by (apply Z.pow_le_mono_r; lia).
      unfold_limits. eval_pow2. lia. }
    destruct (_ =? ZIP_INT_8B); [destruct (load8 _ _); [|done]; simpl_bind in Hv; apply (inj Some), Hw in Hv; [done | lia]|].
    destruct (_ =? ZIP_INT_16B); [destruct (mem_load _ _ _); [|done]; simpl_bind in Hv; apply (inj Some), Hw in Hv; [done | lia]|].
    destruct (_ =? ZIP_INT_32B); [destruct (mem_load _ _ _); [|done]; simpl_bind in Hv; apply (inj Some), Hw in Hv; [done | lia]|].
    destruct (_ =? ZIP_INT_24B).
    { destruct (mem_load _ _ _) as [i|]; [|done]. simpl_bind in Hv. apply (inj Some) in Hv. rewrite Z.shiftr_div_pow2 in Hv by lia.
      pose proof (swrap_range 32 (le_decode (0 :: i)) ltac:(lia)). revert Hv. unfold_limits. eval_pow2. intros. Z.div_mod_to_equations. lia. }
    destruct (_ =? ZIP_INT_64B).
    { unfold mem_load in Hv. case_bool_decide as Hr; [|done]. unfold zlen in Hlen. lia. }
    destruct (_ && _); [|done]. apply (inj Some) in Hv. revert Hv. unfold ZIP_INT_IMM_MASK. change 0x0f with (Z.ones 4).
    rewrite Z.land_ones by lia. unfold_limits. eval_pow2. intros. Z.div_mod_to_equations. lia.
Qed.

Lemma small_block_safe zl : zlen zl < 20 -> block_safe zl.
Proof.
  intros Hz H0 l e Y -> H10 Hok. apply zok_app in Hok as [Hl [He _]]. apply small_int_safe; [apply He|].
  rewrite !zlen_app, zlen_zents, zsize_app, H10 in Hz. cbn [zsize] in Hz. unfold rawlen in Hz. pose proof (plsize_range (big e)).
  pose proof (zsize_nonneg _ _ Hl). pose proof (zlen_nonneg Y). lia.
Qed.

Lemma hgetall_correct_witness : exists o', hgetall (fun _ => 4096) true false (OBJ_ENCODING_ZIPLIST example_hash) 0 =
  Some (o', 2, [str "a"; str "b"]) /\ @hash_repr sds_dict_type o' {[str "a" := str "10"; str "b" := str "x"]}.
Proof.
  destruct (@hgetall_correct sds_dict_type (fun _ => 4096) (OBJ_ENCODING_ZIPLIST example_hash) _ 0
    (hash_fits_weaken 100 max_bytes _ _ example_hash_repr ltac:(vm_compute; discriminate)) I) as (o' & prs & Ho & _ & _ & Hall).
  exists o'. split; [|exact Ho]. specialize (Hall true false eq_refl).
  assert (exists o2, hgetall (fun _ => 4096) true false (OBJ_ENCODING_ZIPLIST example_hash) 0 = Some (o2, 2, [str "a"; str "b"])) as (o2 & Hc)
    by (eexists; vm_compute; reflexivity).
  rewrite Hc in Hall |- *. apply (inj Some), pair_equal_spec in Hall as [Hall _]. apply pair_equal_spec in Hall as [-> _]. reflexivity.
Defined.

Lemma hincrby_correct_witness : exists o', @hincrby exact_allocator sds_dict_type (fun _ => 4096) example_conf (OBJ_ENCODING_ZIPLIST example_hash) (str "a") (-13) =
  Some (o', Hincrby_value (-3)) /\ @hash_repr sds_dict_type o' {[str "a" := str "-3"; str "b" := str "x"]}.
Proof.
  destruct (@hincrby_correct exact_allocator sds_dict_type (fun _ => 4096) example_conf 100 _ _ (str "a") (-13) example_hash_repr) as (o' & Hr & Ho).
  - vm_compute. discriminate.
  - apply str_arg_ok. vm_compute. reflexivity.
  - unfold is_ll. unfold_limits. lia.
  - vm_compute. discriminate.
  - vm_compute. reflexivity.
  - vm_compute. discriminate.
  - exists o'. split; [exact Hr|].
    replace {[str "a" := str "-3"; str "b" := str "x"]} with (fst (hincrby_spec {[str "a" := str "10"; str "b" := str "x"]} (str "a") (-13)));
      [exact Ho | vm_compute; reflexivity].
Defined.

(** What the conditions exclude: with a limit of one field, the second HSET converts a ziplist in which the value -2^63 is
    encoded as an integer, and the validation of such a ziplist makes strings of its fields. *)
Example hash_min_integer_fails :
  @hash_run exact_allocator sds_dict_type (fun _ => 4096) None
    [(HashConf 1 64 true, HSET [str "a"; min_integer]); (HashConf 1 64 true, HSET [str "b"; str "x"])] = None.
Proof. vm_compute. reflexivity. Qed.

Example validate_min_integer_fails :
  let zl := zl_bytes 2 [{| big := false; body := body_of min_integer |}; {| big := false; body := body_of (str "x") |}] in
  @hashZiplistValidateIntegrity exact_allocator sds_dict_type example_conf zl (zlen zl) true = None.
Proof. vm_compute. reflexivity. Qed.

(** A hash of one field. *)
Definition small_hash : list Z := [16; 0; 0; 0; 13; 0; 0; 0; 2; 0; 0; 1; 97; 3; 242; 255].

Lemma hashZiplistValidateIntegrity_sound_witness : exists prs d, prs <> [] /\ NoDup prs.*1 /\
  @hashTypeConvert exact_allocator sds_dict_type (fun _ => 4096) example_conf (OBJ_ENCODING_ZIPLIST small_hash) = Some (OBJ_ENCODING_HT d) /\
  dict_map d = list_to_map prs.
Proof.
  destruct (@hashZiplistValidateIntegrity_sound exact_allocator sds_dict_type (fun _ => 4096) example_conf small_hash) as [(H0 & l & e & Y & Hzl & H10 & Hok & He)|(b & Hb & Hs)].
  - apply (bool_decide_unpack _). vm_compute. exact I.
  - vm_compute. reflexivity.
  - exfalso. apply (small_block_safe small_hash ltac:(vm_compute; reflexivity) H0 l e Y Hzl H10 Hok). rewrite min_integer_eq. exact He.
  - vm_compute in Hb. injection Hb as <-. destruct Hs as (prs & d & Hne & Hnd & Hc & _ & Hm & _); [reflexivity | vm_compute; discriminate |].
    exists prs, d. exact (conj Hne (conj Hnd (conj Hc Hm))).
Defined.
